(* ===== verification/_CoqProject ===== *)
-Q . S2P
Prelude.v
KString.v
KList.v
KHashmap.v
KTree.v
RingBuffer.v
Vfs.v
TmpfsFile.v
Tmpfs.v
Tty.v
Frames.v
Mmu.v
TmpfsFrames.v
KMalloc.v
KMallocList.v
KMallocHeap.v
Process.v
ProcessQueues.v
ProcessWait.v
Scheduler.v
ProcessTree.v
Signal.v
SignalProps.v
Family.v
Ptrace.v
ProcessSystem.v
ProcessTheorems.v
Mutex.v
FdTable.v
Kprintf.v
Args.v
KrkDigits.v
KrkLong.v
KrkArith.v
KrkDivide.v
KrkBits.v
KrkText.v
KrkWrite.v
KrkRead.v
KrkDecimal.v
KrkDecimalProps.v
