(* ===== verification/Prelude.v ===== *)
(** * A verification of the linAIx kernel

    linAIx is a Unix-like operating system (a fork of ToaruOS): a kernel in C
    (src/kernel), loadable modules, a C library, user programs, and the Kuroko and bim
    projects kept in the tree.  This development models the core of the kernel: its data
    structures, its virtual file system with tmpfs, pipes and terminals, its processes with
    their scheduler, signals, tracing and mutexes, and the memory management of its x86-64
    port; and of Kuroko, the language of its shell, the long integers.

    ** How the code is modelled

    A C integer is a [Z] and every conversion writes its wrap-around ([u8] to [i64]
    below).  A function is a definition of the same name, made of the reads, writes,
    tests and early returns of its body in their order; a helper without a C function of
    its name is a loop body or a block of one.  Computations are in [outcome] or
    [St S]: they return, fault (null or freed pointer, access outside an array, failed
    assertion or [arch_fatal]), or run out of fuel.  A lock taken and released makes
    what runs between one step; the interleavings of steps are modelled where blocking
    is the point (RingBuffer, ProcessSystem, Mutex).  A function that switches to another
    process ends at the switch, and what it does when its process runs again is a definition
    of its own.  Fuel bounds loops and recursion only: every theorem about
    a fuelled function says how much is enough and that the function then returns.

    ** The files

    - Prelude (this file): integers, errno values, outcomes and state passing, loop rules,
      the heap allocator as its clients see it ([Malloc]), automation.
    - KString, src/kernel/misc/string.c: memory as a function from addresses to bytes;
      memcpy to strtok_r, with the word-at-a-time loops of the code.
    - KList, src/kernel/misc/list.c: [node_t] and [list_t] in a heap of pointers.
    - KHashmap, src/kernel/misc/hashmap.c: buckets and chains, string and integer keys
      ([KeyOps]).
    - KTree, src/kernel/misc/tree.c: tree nodes in a heap.
    - RingBuffer, src/kernel/misc/ringbuffer.c and src/kernel/vfs/unixpipe.c: the buffer,
      one locked round of a read or write, the step relation on processes, wait queues,
      and pipes.
    - Vfs, src/kernel/vfs/vfs.c: permissions, paths, the mount tree, opening with symbolic
      links, creating, removing and renaming through nodes of any file system
      ([FileSystem]).
    - TmpfsFile and Tmpfs, src/kernel/vfs/tmpfs.c: block tables and file contents over
      physical frames ([FrameAlloc]); directories.  Tmpfs is an instance of [FileSystem].
    - Tty, src/kernel/vfs/tty.c: the line discipline, modes and job control of
      pseudo-terminals.
    - Frames and Mmu, src/kernel/arch/x86_64/mmu.c: the frame bitmap and reference counts;
      page tables, address spaces, copy-on-write, kernel regions, user pointers.
    - TmpfsFrames: the allocator of Frames discharges the [FrameAlloc] of TmpfsFile.
    - KMalloc, src/kernel/misc/malloc.c: the slab allocator over the words of memory: bins
      of cells, the skip list of large blocks, malloc to valloc under the lock.
      KMallocList has the lemmas on its linked structures, KMallocHeap its invariant and
      contract.

    - Process, src/kernel/sys/process.c: processes, the ready queue, wait queues, timed
      sleeps and waits on nodes, the process tree (KTree) and waitpid.  Signal,
      src/kernel/sys/signal.c: sending, delivery and awaiting of signals, task_exit.
      Ptrace and Mutex, src/kernel/sys/ptrace.c and mutex.c.
    - FdTable, src/kernel/sys/process.c, syscall.c and vfs.c: descriptor tables, the calls on
      them alone, their copies and ends, over nodes with reference counts.
    - Kprintf, src/kernel/misc/kprintf.c: the formatter over a callback, printing into
      buffers and to the console.
    - Args, src/kernel/misc/args.c and tokenize.c: the kernel command line, over KString and
      KHashmap.
    - ProcessQueues (the invariant [wf] of queues and processes), ProcessWait, Scheduler,
      ProcessTree, SignalProps: what each operation does, and that it keeps [wf]; Family:
      that it keeps the tree and the process list together.  ProcessSystem: the system of
      all operations on all cores, and what holds in every [reachable] kernel.
      ProcessTheorems: the theorems and their instances.

    - KrkLong, src/kuroko/src/obj_long.c: the structures of long integers at addresses of a
      store, and the operations on them.  KrkDigits: numbers as sequences of digits in a base.
      KrkArith, KrkDivide and KrkBits: what the operations compute.  KrkText, the same file:
      writing and reading in a base; KrkWrite and KrkRead: what is written and read.
      KrkDecimal, the same file: the decimal text by words of nine digits with Karatsuba's
      products, and [long.__repr__]; KrkDecimalProps: that it is the number.

    The clients of the heap use it through [Malloc], which asks for fresh non-null
    addresses only; that the allocator gives them is [malloc_correct] of KMallocHeap.  A
    file system under the VFS and the reads of a ring buffer under a terminal are
    parameters with stated assumptions.

    ** What the theorems show

    - Strings: memmove copies whatever the overlap; strlen and memchr, which read whole
      words, equal the byte-wise definitions; strtok_r implements the tokenizer on strings;
      strcmp orders by signed characters.
    - Containers: any sequence of operations on a list, hash map or tree behaves as on a
      sequence, finite map or rose tree and keeps the links consistent; each operation's
      exact effect, faults of the code included.
    - Heap: [heap_rep h B] relates the words of the heap to the live blocks [B].  malloc
      gives a block apart from all of them, free takes one back, realloc moves its bytes,
      calloc clears, valloc aligns; no operation fails an assertion or touches the bytes of
      another block.  The fuel [enough] is one step more than the pages the heap can have.
    - Pipes: bytes come out in the order they went in under every interleaving; no process
      sleeps on a queue whose condition holds; hang-up.
    - VFS: canonical paths against a reference that cancels components from the end
      ([destination]), and that canonicalizing again changes nothing; permissions;
      mounting and resolving; kopen as a walk where it meets no symbolic link, and that it returns for every path and
      symbolic-link cycle; reference counts.
    - tmpfs: reads, writes and truncation by the bytes of the file, over block boundaries;
      creating, unlinking, renaming and listing by the entries of the directories.
    - Terminals: for every mode and input the line discipline is an editor on lists and
      stays in its buffer; what erasing does to the screen; job control; raw reads.
    - Memory: the bitmap implements a set of frames; mapping a region makes its addresses
      translate to it and changes no other; copy-on-write is indistinguishable from
      copying; what a validated user pointer guarantees.

    - Processes: in every reachable kernel queues, sleeps, tree and list agree, unless waitpid
      has freed a process that is still queued, which it can; the words of a
      process keep their types; waking empties a queue, a time wakes what is due; processes
      take turns, one that has ended or runs elsewhere is never switched to; waitpid's
      answers, reaping, and that the end of a process wakes its parent; sending a signal by
      all its cases, delivery of the lowest one that is not blocked, that ignored ones do not
      loop; tracing a stop and its continuation; mutexes exclude.
    - Descriptors: the count of a node is the number of table entries and other references to
      it, in every reachable system of tables; every call refines [spec_call] on abstract
      tables; forks share or copy, the last exit closes.
    - Printing: printf emits what its directives mean; snprintf stays in its buffer; %d is
      read back by atoi.
    - Command line: args_parse is the inverse of printing arguments; tokenize splits.
    - Long integers: [repr x v] says that a structure holds the number [v].  Every operation
      of the arithmetic leaves the integer of its name in its result and changes nothing
      else, whichever of its arguments are one structure (except the shifts); bitwise operators
      are those of two's complement; division rounds down.  A number that is written is
      read again; reading computes what a text says, refusals included; the decimal text of a
      number of any size is the number in base ten.  The fuel of a conversion is the size
      of its buffer or text, of a Karatsuba product the width of its longer factor, and
      of the halving of a number the width in bits of its length.

    Examples beside the theorems show where the code does not do what it means to
    (list_copy, list_remove, hashmap_remove, tree_node_remove, ring_buffer_discard, reads of
    no bytes from a pipe, mapping the physical page 0,
    kopen with O_NOFOLLOW, growing and renaming in tmpfs, unmapping modules and frames
    above 2 GiB, ranges over the end of the address space, realloc to zero, free of null and
    sizes that wrap in the heap, processes freed in the ready queue or in the list of a
    tracer, awaited signals from 32 on, dup2 of a closed descriptor, signs, zeros, widths and
    precisions in printf, buffers of one byte, lines without tokens, right shifts of negative
    long integers, shifts in place, words of two digits, texts of underscores).

    ** Not modelled

    Decompression; ELF loading; stacks, page directories, times and saved contexts of
    processes; system call dispatch; shared memory; the other file systems and devices;
    networking, sound and video; interrupt entry, SMP and the AArch64 port; loadable modules; user
    space, bim, and of Kuroko all but its long integers, of which floating point and the methods of
    the objects are left out.  Within the modelled files: TLB invalidation, boot page tables
    and [mmu_init]; directory mappers, file system registration and wrappers that only
    call a driver in vfs.c; mount options in tmpfs.c; device nodes of terminals. *)
From stdpp Require Export prelude gmap strings list sorting.
From stdpp Require Import fin_maps.
Local Open Scope Z_scope.

(** ** Machine integers

    A C integer of width [w] is a [Z]; the conversions below write out the
    wrap-around of unsigned arithmetic and the two's complement reading of
    signed types. *)
Definition u8 (x : Z) : Z := x mod 2 ^ 8.
Definition u16 (x : Z) : Z := x mod 2 ^ 16.
Definition u32 (x : Z) : Z := x mod 2 ^ 32.
Definition u64 (x : Z) : Z := x mod 2 ^ 64.
Definition i8 (x : Z) : Z := (x + 2 ^ 7) mod 2 ^ 8 - 2 ^ 7.
Definition i32 (x : Z) : Z := (x + 2 ^ 31) mod 2 ^ 32 - 2 ^ 31.
Definition i64 (x : Z) : Z := (x + 2 ^ 63) mod 2 ^ 64 - 2 ^ 63.

(** A C truth value. *)
Definition truth (b : bool) : Z := if b then 1 else 0.

(** The null pointer. *)
Definition NULL : Z := 0.

(** Error numbers ([src/base/usr/include/errno.h]). *)
Definition EPERM : Z := 1.
Definition ENOENT : Z := 2.
Definition EIO : Z := 5.
Definition EACCES : Z := 13.
Definition EEXIST : Z := 17.
Definition EXDEV : Z := 18.
Definition ENODEV : Z := 19.
Definition ENOTDIR : Z := 20.
Definition EISDIR : Z := 21.
Definition EINVAL : Z := 22.
Definition EROFS : Z := 30.
Definition EPIPE : Z := 32.
Definition ENOTEMPTY : Z := 90.
Definition ENOTSUP : Z := 134.
Definition ERESTARTSYS : Z := 512.

(** Characters: the byte of an ASCII character, and a string literal as the
    list of its bytes (without the terminator). *)
Definition chr (a : Ascii.ascii) : Z := Z.of_N (Ascii.N_of_ascii a).

Fixpoint str (s : string) : list Z :=
  match s with
  | EmptyString => []
  | String a s' => chr a :: str s'
  end.

(** ** Outcomes

    A computation returns a value, faults (a null or wild pointer is
    dereferenced, an assertion fails), or is still running when the fuel of a
    loop is used up. *)
Inductive outcome (A : Type) : Type :=
  | Done (a : A)
  | Fault
  | Timeout.
Arguments Done {A} a.
Arguments Fault {A}.
Arguments Timeout {A}.

#[global] Instance outcome_ret : MRet outcome := @Done.
#[global] Instance outcome_bind : MBind outcome := λ A B f m,
  match m with
  | Done a => f a
  | Fault => Fault
  | Timeout => Timeout
  end.
#[global] Instance outcome_fmap : FMap outcome := λ A B f m,
  match m with
  | Done a => Done (f a)
  | Fault => Fault
  | Timeout => Timeout
  end.

Definition of_option {A} (o : option A) : outcome A :=
  match o with Some a => Done a | None => Fault end.

(** State passing with outcomes. *)
Definition St (S A : Type) : Type := S → outcome (A * S).

#[global] Instance St_ret {S} : MRet (St S) := λ A a s, Done (a, s).
#[global] Instance St_bind {S} : MBind (St S) := λ A B f m s,
  match m s with
  | Done (a, s') => f a s'
  | Fault => Fault
  | Timeout => Timeout
  end.

Definition get {S} : St S S := λ s, Done (s, s).
Definition gets {S A} (f : S → A) : St S A := λ s, Done (f s, s).
Definition put {S} (s : S) : St S unit := λ _, Done (tt, s).
Definition modify {S} (f : S → S) : St S unit := λ s, Done (tt, f s).
Definition fault {S A} : St S A := λ _, Fault.
Definition lift {S A} (o : outcome A) : St S A := λ s,
  match o with Done a => Done (a, s) | Fault => Fault | Timeout => Timeout end.

Lemma St_bind_done {S A B} (m : St S A) (f : A → St S B) s a s' :
  m s = Done (a, s') → (m ≫= f) s = f a s'.
Proof. unfold mbind, St_bind. by intros ->. Qed.

Lemma St_bind_fault {S A B} (m : St S A) (f : A → St S B) s :
  m s = Fault → (m ≫= f) s = Fault.
Proof. unfold mbind, St_bind. by intros ->. Qed.

Lemma St_bind_timeout {S A B} (m : St S A) (f : A → St S B) s :
  m s = Timeout → (m ≫= f) s = Timeout.
Proof. unfold mbind, St_bind. by intros ->. Qed.

Lemma outcome_bind_done {A B} (m : outcome A) (f : A → outcome B) a :
  m = Done a → m ≫= f = f a.
Proof. by intros ->. Qed.

(** ** Loops

    A C loop is a body iterated on its local variables: [inl] goes round again,
    [inr] leaves the loop.  The fuel bounds the number of evaluations of the
    body; [loop_total] is the total-correctness rule every loop below is
    verified with (an invariant and a decreasing measure). *)
Fixpoint loop {X R} (fuel : nat) (body : X → X + R) (x : X) : outcome R :=
  match fuel with
  | O => Timeout
  | S f => match body x with
           | inl x' => loop f body x'
           | inr r => Done r
           end
  end.

Lemma loop_total {X R} (body : X → X + R) (inv : X → Prop) (mes : X → nat)
    (Q : R → Prop) :
  (∀ x, inv x → match body x with
                | inl x' => inv x' ∧ (mes x' < mes x)%nat
                | inr r => Q r
                end) →
  ∀ fuel x, inv x → (mes x < fuel)%nat → ∃ r, loop fuel body x = Done r ∧ Q r.
Proof.
  intros Hstep fuel. induction fuel as [|fuel IH]; intros x Hx Hm; [lia|].
  simpl. specialize (Hstep x Hx). destruct (body x) as [x'|r].
  - destruct Hstep as [Hi Hlt]. apply IH; [done|lia].
  - eauto.
Qed.

Lemma loop_done_eq {X R} (body : X → X + R) inv mes fuel x r0 :
  (∀ x, inv x → match body x with
                | inl x' => inv x' ∧ (mes x' < mes x)%nat
                | inr r => r = r0
                end) →
  inv x → (mes x < fuel)%nat → loop fuel body x = Done r0.
Proof.
  intros H Hx Hm. destruct (loop_total body inv mes (λ r, r = r0) H fuel x Hx Hm)
    as (r & Hr & ->). done.
Qed.

Lemma loop_ext {X R} (b1 b2 : X → X + R) fuel x :
  (∀ x, b1 x = b2 x) → loop fuel b1 x = loop fuel b2 x.
Proof.
  intros H. revert x. induction fuel as [|fuel IH]; intros x; simpl; [done|].
  rewrite H. by destruct (b2 x).
Qed.

(** A loop whose body never leaves exhausts any fuel. *)
Lemma loop_diverges {X R} (body : X → X + R) (inv : X → Prop) :
  (∀ x, inv x → ∃ x', body x = inl x' ∧ inv x') →
  ∀ fuel x, inv x → loop fuel body x = Timeout.
Proof.
  intros H fuel. induction fuel as [|fuel IH]; intros x Hx; [done|].
  simpl. destruct (H x Hx) as (x' & -> & Hx'). by apply IH.
Qed.

(** Loops whose body contains further loops. *)
Fixpoint loopO {X R} (fuel : nat) (body : X → outcome (X + R)) (x : X) : outcome R :=
  match fuel with
  | O => Timeout
  | S f => r ← body x; match r with
                       | inl x' => loopO f body x'
                       | inr r => Done r
                       end
  end.

Lemma loopO_step {X R} fuel (body : X → outcome (X + R)) x x' :
  body x = Done (inl x') → loopO (S fuel) body x = loopO fuel body x'.
Proof. intros H. simpl. by rewrite H. Qed.

Lemma loopO_exit {X R} fuel (body : X → outcome (X + R)) x r :
  body x = Done (inr r) → loopO (S fuel) body x = Done r.
Proof. intros H. simpl. by rewrite H. Qed.

(** The same for loops over a state. *)
Fixpoint loopM {S X R} (fuel : nat) (body : X → St S (X + R)) (x : X) : St S R :=
  match fuel with
  | O => λ _, Timeout
  | S f => r ← body x; match r with
                       | inl x' => loopM f body x'
                       | inr r => mret r
                       end
  end.

Lemma loopM_step {S X R} fuel (body : X → St S (X + R)) x s x' s' :
  body x s = Done (inl x', s') → loopM (Datatypes.S fuel) body x s = loopM fuel body x' s'.
Proof. intros H. simpl. by rewrite (St_bind_done _ _ _ _ _ H). Qed.

Lemma loopM_exit {S X R} fuel (body : X → St S (X + R)) x s r s' :
  body x s = Done (inr r, s') → loopM (Datatypes.S fuel) body x s = Done (r, s').
Proof. intros H. simpl. by rewrite (St_bind_done _ _ _ _ _ H). Qed.

(** Total correctness of a stateful loop: an invariant and a decreasing measure. *)
Lemma loopM_total {S X R} (body : X → St S (X + R)) (inv : X → S → Prop) (mes : X → S → nat)
    (Q : R → S → Prop) :
  (∀ x s, inv x s →
     (∃ x' s', body x s = Done (inl x', s') ∧ inv x' s' ∧ (mes x' s' < mes x s)%nat) ∨
     (∃ r s', body x s = Done (inr r, s') ∧ Q r s')) →
  ∀ fuel x s, inv x s → (mes x s < fuel)%nat →
    ∃ r s', loopM fuel body x s = Done (r, s') ∧ Q r s'.
Proof.
  intros Hstep fuel. induction fuel as [|fuel IH]; intros x s Hx Hm; [lia|].
  destruct (Hstep x s Hx) as [(x' & s' & E & Hi & Hlt)|(r & s' & E & HQ)].
  - rewrite (loopM_step _ _ _ _ _ _ E). apply IH; [done|lia].
  - rewrite (loopM_exit _ _ _ _ _ _ E). eauto.
Qed.

(** ** Memory allocation *)

(** The allocator ([src/kernel/misc/malloc.c]) as its clients see it: it returns
    a non-null address that is not in use. *)
Class Malloc := {
  malloc : gset Z → Z;
  malloc_fresh : ∀ X, malloc X ∉ X;
  malloc_nonnull : ∀ X, malloc X ≠ NULL
}.

(** An allocator that satisfies it, for concrete runs. *)
#[export] Instance fresh_malloc : Malloc.
Proof.
  refine {| malloc := λ X, fresh (X ∪ {[NULL]}) |}.
  - intros X H. apply (is_fresh (X ∪ {[NULL]})). set_solver.
  - intros X H. apply (is_fresh (X ∪ {[NULL]})). set_solver.
Defined.

(** ** Automation *)

(** Case analysis on the boolean tests of the model's conditionals. *)
Ltac bool_cases :=
  repeat match goal with
  | |- context [Z.eqb ?a ?b] => destruct (Z.eqb_spec a b)
  | |- context [Z.ltb ?a ?b] => destruct (Z.ltb_spec a b)
  | |- context [Z.leb ?a ?b] => destruct (Z.leb_spec a b)
  end.

(** One step of a state-passing program whose next action is known. *)
Ltac st_step H := rewrite (St_bind_done _ _ _ _ _ H).

(** Run the binds of a computation without unfolding the operations. *)
Ltac osimpl := cbn [mbind outcome_bind fmap outcome_fmap mret outcome_ret].

Create HintDb linaix discriminated.

(** ** Lists *)

Fixpoint take_while {A} (p : A → bool) (l : list A) : list A :=
  match l with
  | [] => []
  | x :: l' => if p x then x :: take_while p l' else []
  end.

Fixpoint drop_while {A} (p : A → bool) (l : list A) : list A :=
  match l with
  | [] => []
  | x :: l' => if p x then drop_while p l' else l
  end.

Lemma take_drop_while {A} (p : A → bool) l : take_while p l ++ drop_while p l = l.
Proof. induction l as [|x l IH]; simpl; [done|]. destruct (p x); simpl; by rewrite ?IH. Qed.

Lemma take_while_all {A} (p : A → bool) l : Forall (λ x, p x = true) (take_while p l).
Proof. induction l as [|x l IH]; simpl; [done|]. destruct (p x) eqn:E; by repeat constructor. Qed.

Lemma take_while_true {A} (p : A → bool) l : Forall (λ x, p x = true) l → take_while p l = l.
Proof. induction 1 as [|x l H _ IH]; simpl; [done|]. by rewrite H, IH. Qed.

Lemma drop_while_head {A} (p : A → bool) l x l' : drop_while p l = x :: l' → p x = false.
Proof.
  induction l as [|y l IH]; simpl; [done|]. destruct (p y) eqn:E; [done|].
  intros H; by simplify_eq.
Qed.

Lemma length_take_drop_while {A} (p : A → bool) l :
  (length (take_while p l) + length (drop_while p l) = length l)%nat.
Proof. by rewrite <-length_app, take_drop_while. Qed.

(** Sequences that are duplicate-free and pairwise disjoint. *)
Lemma NoDup_concat {A} (l : list (list A)) :
  (∀ i x, l !! i = Some x → NoDup x) →
  (∀ i j x y a, l !! i = Some x → l !! j = Some y → a ∈ x → a ∈ y → i = j) →
  NoDup (concat l).
Proof.
  induction l as [|x l IH]; intros H1 H2; simpl; [constructor|].
  apply NoDup_app. split_and!.
  - by apply (H1 0%nat).
  - intros a Ha (y & Hin & Hy)%list_elem_of_In%in_concat.
    apply list_elem_of_In, list_elem_of_lookup in Hin as [j Hj].
    by specialize (H2 0%nat (S j) x y a eq_refl Hj Ha (proj2 (list_elem_of_In _ _) Hy)).
  - apply IH; [intros i; apply (H1 (S i))|].
    intros i j y z a Hi Hj Hy Hz. specialize (H2 (S i) (S j) y z a Hi Hj Hy Hz). lia.
Qed.

(** ** Integers *)

Lemma u64_small x : 0 ≤ x < 2 ^ 64 → u64 x = x.
Proof. apply Z.mod_small. Qed.

Lemma u32_small x : 0 ≤ x < 2 ^ 32 → u32 x = x.
Proof. apply Z.mod_small. Qed.

Lemma u8_small x : 0 ≤ x < 256 → u8 x = x.
Proof. apply Z.mod_small. Qed.

Lemma i32_small x : - 2 ^ 31 ≤ x < 2 ^ 31 → i32 x = x.
Proof. unfold i32. intros H. rewrite Z.mod_small; lia. Qed.

Lemma i64_small x : - 2 ^ 63 ≤ x < 2 ^ 63 → i64 x = x.
Proof. unfold i64. intros H. rewrite Z.mod_small; lia. Qed.

(** A single bit of a word. *)
Lemma land_bit_zero x k :
  0 ≤ k → (Z.land x (Z.shiftl 1 k) =? 0) = negb (Z.testbit x k).
Proof.
  intros Hk. destruct (Z.testbit x k) eqn:E; simpl.
  - apply Z.eqb_neq. intros H. assert (Z.testbit (Z.land x (Z.shiftl 1 k)) k = false) as H2.
    { by rewrite H, Z.bits_0. }
    rewrite Z.land_spec, E, Z.shiftl_spec, Z.sub_diag in H2 by lia. done.
  - apply Z.eqb_eq, Z.bits_inj'. intros i Hi.
    rewrite Z.land_spec, Z.bits_0, Z.shiftl_spec by lia.
    destruct (decide (i = k)) as [->|Hne]; [by rewrite E|].
    destruct (decide (i < k)).
    + rewrite (Z.testbit_neg_r _ (i - k)) by lia. apply andb_false_r.
    + rewrite (Z.bits_above_log2 1 (i - k)); [apply andb_false_r|lia|].
      change (Z.log2 1) with 0. lia.
Qed.

Lemma lor_bit_spec x k i :
  0 ≤ k → 0 ≤ i →
  Z.testbit (Z.lor x (Z.shiftl 1 k)) i = Z.testbit x i || (i =? k).
Proof.
  intros Hk Hi. rewrite Z.lor_spec. f_equal. rewrite Z.shiftl_spec by lia.
  destruct (Z.eqb_spec i k) as [->|]; [by rewrite Z.sub_diag|].
  destruct (decide (i < k)); [by rewrite Z.testbit_neg_r by lia|].
  apply Z.bits_above_log2; [lia|]. change (Z.log2 1) with 0. lia.
Qed.

#[export] Hint Rewrite @length_app @length_take @length_drop @length_insert
  @length_replicate : linaix.
