(* ===== verification/KString.v ===== *)
(** * Kernel string and memory routines ([src/kernel/misc/string.c])

    The byte-addressed memory is a function from addresses to bytes; addresses
    are the [uintptr_t] values of the C pointers, and no object is taken to wrap
    around the end of the address space.  Multi-byte accesses are the
    little-endian loads and stores of x86-64.  The word-at-a-time routines
    ([memcpy], [memmove], [strlen], [memchr], [strchrnul], [stpcpy]) are
    translated with their alignment loops and their [HASZERO] tests, and proved
    equal to the byte-by-byte specification of the routine.

    [cstr m p s] says that the memory holds the C string [s] (a list of
    non-zero bytes, terminated by a zero byte) at [p]. *)
From S2P Require Import Prelude.
Local Open Scope Z_scope.

(** ** Memory *)

Definition mem : Type := Z → Z.

(** A one-byte store. *)
Definition upd (m : mem) (a v : Z) : mem := λ x, if x =? a then v else m x.

Definition bytes_ok (m : mem) : Prop := ∀ a, 0 ≤ m a < 256.

Fixpoint load (w : nat) (m : mem) (a : Z) : Z :=
  match w with
  | O => 0
  | S w' => m a + 256 * load w' m (a + 1)
  end.

Fixpoint store (w : nat) (m : mem) (a v : Z) : mem :=
  match w with
  | O => m
  | S w' => store w' (upd m a (v mod 256)) (a + 1) (v / 256)
  end.

(** The C string at an address. *)
Fixpoint cstr (m : mem) (p : Z) (s : list Z) : Prop :=
  match s with
  | [] => m p = 0
  | c :: s' => m p = c ∧ c ≠ 0 ∧ cstr m (p + 1) s'
  end.

(** A memory that holds a list of bytes at an address, and zeros elsewhere. *)
Definition mem_of (base : Z) (bs : list Z) : mem := λ a,
  if (base <=? a) then default 0 (bs !! Z.to_nat (a - base)) else 0.

(** Fuel for a loop that runs at most [n] times. *)
Definition upto (n : Z) : nat := S (Z.to_nat n).

(** ** Word tricks ([kernel/types.h]) *)

Definition ALIGN : Z := 8.
Definition ONES : Z := (2 ^ 64 - 1) / 255.
Definition HIGHS : Z := u64 (ONES * (255 / 2 + 1)).
Definition HASZERO (x : Z) : Z :=
  Z.land (Z.land (u64 (x - ONES)) (u64 (Z.lnot x))) HIGHS.

(** ** Copying *)

Definition memsetw (m : mem) (dest val count : Z) : outcome mem :=
  loop (upto count) (λ '(m, i),
    if i <? count then inl (store 2 m (dest + 2 * i) val, i + 1) else inr m) (m, 0).

(** One of the copying loops of [memcpy]: [for (; n >= w; n -= w) *d++ = *s++]. *)
Definition copy_words (w : nat) (m : mem) (d s n : Z) : outcome (mem * Z * Z * Z) :=
  loop (upto n) (λ '(m, d, s, n),
    if Z.of_nat w <=? n
    then inl (store w m d (load w m s), d + Z.of_nat w, s + Z.of_nat w, n - Z.of_nat w)
    else inr (m, d, s, n)) (m, d, s, n).

Definition memcpy (m : mem) (dest src n : Z) : outcome mem :=
  '(m, d, s, n) ← copy_words 8 m dest src n;
  '(m, d, s, n) ← copy_words 4 m d s n;
  '(m, d, s, n) ← copy_words 1 m d s n;
  Done m.

Definition memset (m : mem) (dest c n : Z) : outcome mem :=
  loop (upto n) (λ '(m, i),
    if i <? n then inl (upd m (dest + i) (u8 c), i + 1) else inr m) (m, 0).

(** The forward half of [memmove] ([d < s]); [inl] is the early return inside
    the alignment loop. *)
Definition memmove_forward (m : mem) (d s n : Z) : outcome mem :=
  r ← (if s mod 8 =? d mod 8 then
         a ← loop (upto n) (λ '(m, d, s, n),
               if d mod 8 =? 0 then inr (inr (m, d, s, n))
               else if n =? 0 then inr (inl m)
               else inl (upd m d (m s), d + 1, s + 1, n - 1)) (m, d, s, n);
         match a with
         | inl m => Done (inl m)
         | inr (m, d, s, n) => inr <$> copy_words 8 m d s n
         end
       else Done (inr (m, d, s, n)));
  match r with
  | inl m => Done m
  | inr (m, d, s, n) => '(m, _, _, _) ← copy_words 1 m d s n; Done m
  end.

Definition memmove_backward (m : mem) (d s n : Z) : outcome mem :=
  r ← (if s mod 8 =? d mod 8 then
         a ← loop (upto n) (λ '(m, n),
               if (d + n) mod 8 =? 0 then inr (inr (m, n))
               else if n =? 0 then inr (inl m)
               else inl (upd m (d + (n - 1)) (m (s + (n - 1))), n - 1)) (m, n);
         match a with
         | inl m => Done (inl m)
         | inr (m, n) =>
             inr <$> loop (upto n) (λ '(m, n),
               if 8 <=? n
               then inl (store 8 m (d + (n - 8)) (load 8 m (s + (n - 8))), n - 8)
               else inr (m, n)) (m, n)
         end
       else Done (inr (m, n)));
  match r with
  | inl m => Done m
  | inr (m, n) =>
      loop (upto n) (λ '(m, n),
        if n =? 0 then inr m
        else inl (upd m (d + (n - 1)) (m (s + (n - 1))), n - 1)) (m, n)
  end.

Definition memmove (m : mem) (dest src n : Z) : outcome mem :=
  if dest =? src then Done m
  else if (src + n <=? dest) || (dest + n <=? src) then memcpy m dest src n
  else if dest <? src then memmove_forward m dest src n
  else memmove_backward m dest src n.

(** ** Searching *)

Definition strlen (fuel : nat) (m : mem) (s : Z) : outcome Z :=
  r ← loop fuel (λ p,
        if p mod ALIGN =? 0 then inr (inr p)
        else if m p =? 0 then inr (inl (p - s))
        else inl (p + 1)) s;
  match r with
  | inl n => Done n
  | inr p =>
      w ← loop fuel (λ w, if HASZERO (load 8 m w) =? 0 then inl (w + 8) else inr w) p;
      e ← loop fuel (λ p, if m p =? 0 then inr p else inl (p + 1)) w;
      Done (e - s)
  end.

Definition strcmp (fuel : nat) (m : mem) (a b : Z) : outcome Z :=
  loop fuel (λ i,
    let x := i8 (m (a + i)) in
    let y := i8 (m (b + i)) in
    if x <? y then inr (-1)
    else if y <? x then inr 1
    else if x =? 0 then inr 0
    else inl (u32 (i + 1))) 0.

Definition memchr (m : mem) (src c n : Z) : outcome Z :=
  let c := u8 c in
  '(s, n) ← loop (upto n) (λ '(s, n),
      if negb (s mod ALIGN =? 0) && negb (n =? 0) && negb (m s =? c)
      then inl (s + 1, n - 1) else inr (s, n)) (src, n);
  '(s, n) ← (if negb (n =? 0) && negb (m s =? c) then
      let k := u64 (ONES * c) in
      '(w, n) ← loop (upto n) (λ '(w, n),
          if (8 <=? n) && (HASZERO (Z.lxor (load 8 m w) k) =? 0)
          then inl (w + 8, n - 8) else inr (w, n)) (s, n);
      loop (upto n) (λ '(s, n),
          if negb (n =? 0) && negb (m s =? c) then inl (s + 1, n - 1) else inr (s, n)) (w, n)
    else Done (s, n));
  Done (if n =? 0 then NULL else s).

Definition memrchr (m : mem) (s c n : Z) : outcome Z :=
  let c := u8 c in
  loop (upto n) (λ n,
    if n =? 0 then inr NULL
    else if m (s + (n - 1)) =? c then inr (s + (n - 1))
    else inl (n - 1)) n.

(** [BITOP(byteset, b, |=)] and [BITOP(byteset, b, &)] on the four 64-bit words
    of a set of bytes. *)
Definition BITOP_or (bs : list Z) (b : Z) : list Z :=
  let i := Z.to_nat (b / 64) in
  <[i := Z.lor (bs !!! i) (Z.shiftl 1 (b mod 64))]> bs.

Definition BITOP_and (bs : list Z) (b : Z) : Z :=
  Z.land (bs !!! Z.to_nat (b / 64)) (Z.shiftl 1 (b mod 64)).

Definition byteset0 : list Z := [0; 0; 0; 0].

(** [for (; *c && BITOP(byteset, *c, |=); c++);]: the assignment's value is the
    updated word. *)
Definition fill_step (m : mem) : Z * list Z → (Z * list Z) + list Z := λ '(c, bs),
  if m c =? 0 then inr bs
  else let bs' := BITOP_or bs (m c) in
       if (bs' !!! Z.to_nat (m c / 64)) =? 0 then inr bs'
       else inl (c + 1, bs').

Definition fill_byteset (fuel : nat) (m : mem) (c : Z) : outcome (list Z) :=
  loop fuel (fill_step m) (c, byteset0).

Definition strspn (fuel : nat) (m : mem) (s c : Z) : outcome Z :=
  if m c =? 0 then Done 0
  else if m (c + 1) =? 0 then
    e ← loop fuel (λ s, if m s =? m c then inl (s + 1) else inr s) s;
    Done (e - s)
  else
    bs ← fill_byteset fuel m c;
    e ← loop fuel (λ s,
          if negb (m s =? 0) && negb (BITOP_and bs (m s) =? 0) then inl (s + 1) else inr s) s;
    Done (e - s).

Definition strchrnul (fuel : nat) (m : mem) (s c : Z) : outcome Z :=
  let c := u8 c in
  if c =? 0 then (n ← strlen fuel m s; Done (s + n))
  else
    r ← loop fuel (λ p,
          if p mod ALIGN =? 0 then inr (inr p)
          else if (m p =? 0) || (m p =? c) then inr (inl p)
          else inl (p + 1)) s;
    match r with
    | inl p => Done p
    | inr p =>
        let k := u64 (ONES * c) in
        w ← loop fuel (λ w,
              if (HASZERO (load 8 m w) =? 0) && (HASZERO (Z.lxor (load 8 m w) k) =? 0)
              then inl (w + 8) else inr w) p;
        loop fuel (λ p,
          if negb (m p =? 0) && negb (m p =? c) then inl (p + 1) else inr p) w
    end.

Definition strchr (fuel : nat) (m : mem) (s c : Z) : outcome Z :=
  r ← strchrnul fuel m s c;
  Done (if m r =? u8 c then r else NULL).

Definition strrchr (fuel : nat) (m : mem) (s c : Z) : outcome Z :=
  n ← strlen fuel m s;
  memrchr m s c (n + 1).

(** [stpcpy] returns the address of the terminator it wrote. *)
Definition stpcpy (fuel : nat) (m : mem) (d s : Z) : outcome (mem * Z) :=
  r ← (if s mod ALIGN =? d mod ALIGN then
         a ← loop fuel (λ '(m, d, s),
               if s mod ALIGN =? 0 then inr (inr (m, d, s))
               else let m' := upd m d (m s) in
                    if m' d =? 0 then inr (inl (m', d)) else inl (m', d + 1, s + 1)) (m, d, s);
         match a with
         | inl r => Done (inl r)
         | inr (m, d, s) =>
             inr <$> loop fuel (λ '(m, d, s),
               if HASZERO (load 8 m s) =? 0
               then inl (store 8 m d (load 8 m s), d + 8, s + 8)
               else inr (m, d, s)) (m, d, s)
         end
       else Done (inr (m, d, s)));
  match r with
  | inl r => Done r
  | inr (m, d, s) =>
      loop fuel (λ '(m, d, s),
        let m' := upd m d (m s) in
        if m' d =? 0 then inr (m', d) else inl (m', d + 1, s + 1)) (m, d, s)
  end.

Definition strcpy (fuel : nat) (m : mem) (dest src : Z) : outcome mem :=
  '(m, _) ← stpcpy fuel m dest src; Done m.

Definition lfind (fuel : nat) (m : mem) (s accept : Z) : outcome Z := strchr fuel m s accept.
Definition rfind (fuel : nat) (m : mem) (s accept : Z) : outcome Z := strrchr fuel m s accept.

Definition strcspn (fuel : nat) (m : mem) (s c : Z) : outcome Z :=
  if negb (m c =? 0) && negb (m (c + 1) =? 0) then
    bs ← fill_byteset fuel m c;
    e ← loop fuel (λ s,
          if negb (m s =? 0) && (BITOP_and bs (m s) =? 0) then inl (s + 1) else inr s) s;
    Done (e - s)
  else
    p ← strchrnul fuel m s (m c);
    Done (p - s).

Definition strpbrk (fuel : nat) (m : mem) (s b : Z) : outcome Z :=
  n ← strcspn fuel m s b;
  Done (if m (s + n) =? 0 then NULL else s + n).

(** [strtok_r]: the memory after the call, the token, and the new save pointer. *)
Definition strtok_r (fuel : nat) (m : mem) (str delim saveptr : Z) : outcome (mem * Z * Z) :=
  let str := if str =? NULL then saveptr else str in
  n ← strspn fuel m str delim;
  let str := str + n in
  if m str =? 0 then Done (m, NULL, str)
  else
    let token := str in
    str ← strpbrk fuel m token delim;
    if str =? NULL
    then (e ← lfind fuel m token 0; Done (m, token, e))
    else Done (upd m str 0, token, str + 1).

Definition memcmp (m : mem) (vl vr n : Z) : outcome Z :=
  '(l, r, n) ← loop (upto n) (λ '(l, r, n),
      if negb (n =? 0) && (m l =? m r) then inl (l + 1, r + 1, n - 1) else inr (l, r, n))
    (vl, vr, n);
  Done (if n =? 0 then 0 else m l - m r).

(** ** Substring search

    Needles of two to four bytes are found with a rolling window of 16 or 32
    bits, longer ones with the two-way algorithm. *)

Definition strstr_2b (fuel : nat) (m : mem) (h n : Z) : outcome Z :=
  let nw := u16 (Z.lor (Z.shiftl (m n) 8) (m (n + 1))) in
  let hw := u16 (Z.lor (Z.shiftl (m h) 8) (m (h + 1))) in
  h ← loop fuel (λ '(h, hw),
        if negb (m h =? 0) && negb (hw =? nw)
        then inl (h + 1, u16 (Z.lor (Z.shiftl hw 8) (m (h + 1)))) else inr h) (h + 1, hw);
  Done (if m h =? 0 then NULL else h - 1).

Definition strstr_3b (fuel : nat) (m : mem) (h n : Z) : outcome Z :=
  let nw := u32 (Z.lor (Z.lor (Z.shiftl (m n) 24) (Z.shiftl (m (n + 1)) 16))
                       (Z.shiftl (m (n + 2)) 8)) in
  let hw := u32 (Z.lor (Z.lor (Z.shiftl (m h) 24) (Z.shiftl (m (h + 1)) 16))
                       (Z.shiftl (m (h + 2)) 8)) in
  h ← loop fuel (λ '(h, hw),
        if negb (m h =? 0) && negb (hw =? nw)
        then inl (h + 1, u32 (Z.shiftl (Z.lor hw (m (h + 1))) 8)) else inr h) (h + 2, hw);
  Done (if m h =? 0 then NULL else h - 2).

Definition strstr_4b (fuel : nat) (m : mem) (h n : Z) : outcome Z :=
  let nw := u32 (Z.lor (Z.lor (Z.lor (Z.shiftl (m n) 24) (Z.shiftl (m (n + 1)) 16))
                              (Z.shiftl (m (n + 2)) 8)) (m (n + 3))) in
  let hw := u32 (Z.lor (Z.lor (Z.lor (Z.shiftl (m h) 24) (Z.shiftl (m (h + 1)) 16))
                              (Z.shiftl (m (h + 2)) 8)) (m (h + 3))) in
  h ← loop fuel (λ '(h, hw),
        if negb (m h =? 0) && negb (hw =? nw)
        then inl (h + 1, u32 (Z.lor (Z.shiftl hw 8) (m (h + 1)))) else inr h) (h + 3, hw);
  Done (if m h =? 0 then NULL else h - 3).

(** The maximal-suffix computation of the two-way preprocessing, for the order
    [gt]; the result is the final [ip] and [p]. *)
Definition max_suffix (fuel : nat) (m : mem) (n l : Z) (gt : Z → Z → bool) : outcome (Z * Z) :=
  loop fuel (λ '(ip, jp, k, p),
    if u64 (jp + k) <? l then
      let a := m (n + u64 (ip + k)) in
      let b := m (n + u64 (jp + k)) in
      if a =? b then
        if k =? p then inl (ip, u64 (jp + p), 1, p) else inl (ip, jp, k + 1, p)
      else if gt a b then inl (ip, u64 (jp + k), 1, u64 (u64 (jp + k) - ip))
      else inl (jp, u64 (jp + 1), 1, 1)
    else inr (ip, p)) (2 ^ 64 - 1, 0, 1, 1).

Definition strstr_twoway (fuel : nat) (m : mem) (h n : Z) : outcome Z :=
  (* length of the needle, and the shift table *)
  '(l, byteset, shift) ← loop fuel (λ '(l, byteset, shift),
      if negb (m (n + l) =? 0) && negb (m (h + l) =? 0)
      then inl (l + 1, BITOP_or byteset (m (n + l)),
                upd shift (m (n + l)) (l + 1))
      else inr (l, byteset, shift)) (0, byteset0, λ _, 0);
  if negb (m (n + l) =? 0) then Done NULL
  else
    (* critical factorization *)
    '(ms, p0) ← max_suffix fuel m n l Z.gtb;
    '(ip, p) ← max_suffix fuel m n l Z.ltb;
    let '(ms, p) := if u64 (ms + 1) <? u64 (ip + 1) then (ip, p) else (ms, p0) in
    r ← memcmp m n (n + p) (u64 (ms + 1));
    let '(mem0, p) := if negb (r =? 0) then (0, Z.max ms (u64 (l - ms - 1)) + 1)
                      else (l - p, p) in
    (* search *)
    loopO fuel (λ '(h, z, mem),
      z' ← (if u64 (z - h) <? l then
              let grow := Z.lor l 63 in
              z2 ← memchr m z 0 grow;
              if negb (z2 =? 0)
              then Done (if u64 (z2 - h) <? l then None else Some z2)
              else Done (Some (z + grow))
            else Done (Some z));
      match z' with
      | None => Done (inr NULL)
      | Some z =>
          let last := m (h + (l - 1)) in
          if negb (BITOP_and byteset last =? 0) && (l - shift last =? 0) then
            k ← loop fuel (λ k,
                  if negb (m (n + k) =? 0) && (m (n + k) =? m (h + k))
                  then inl (k + 1) else inr k) (Z.max (u64 (ms + 1)) mem);
            if negb (m (n + k) =? 0) then Done (inl (h + u64 (k - ms), z, 0))
            else
              k ← loop fuel (λ k,
                    if (mem <? k) && (m (n + (k - 1)) =? m (h + (k - 1)))
                    then inl (k - 1) else inr k) (u64 (ms + 1));
              if k <=? mem then Done (inr h) else Done (inl (h + p, z, mem0))
          else if negb (BITOP_and byteset last =? 0) then
            let k := l - shift last in
            let k := if negb (mem0 =? 0) && negb (mem =? 0) && (k <? p) then l - p else k in
            Done (inl (h + k, z, 0))
          else Done (inl (h + l, z, 0))
      end) (h, h, 0).

Definition strstr (fuel : nat) (m : mem) (h n : Z) : outcome Z :=
  if m n =? 0 then Done h
  else
    h ← strchr fuel m h (m n);
    if (h =? NULL) || (m (n + 1) =? 0) then Done h
    else if m (h + 1) =? 0 then Done NULL
    else if m (n + 2) =? 0 then strstr_2b fuel m h n
    else if m (h + 2) =? 0 then Done NULL
    else if m (n + 3) =? 0 then strstr_3b fuel m h n
    else if m (h + 3) =? 0 then Done NULL
    else if m (n + 4) =? 0 then strstr_4b fuel m h n
    else strstr_twoway fuel m h n.

Definition startswith (fuel : nat) (m : mem) (str accept : Z) : outcome Z :=
  r ← strstr fuel m str accept;
  Done (truth (r =? str)).

(** [strdup] copies to the block [out] that [malloc] returned. *)
Definition strdup (fuel : nat) (m : mem) (out c : Z) : outcome mem :=
  n ← strlen fuel m c;
  memcpy m out c (n + 1).

Definition atoi (fuel : nat) (m : mem) (c : Z) : outcome Z :=
  let '(sign, c) := if i8 (m c) =? 45 then (-1, c + 1) else (1, c) in
  out ← loop fuel (λ '(c, out),
        if m c =? 0 then inr out
        else inl (c + 1, i64 (i64 (out * 10) + (i8 (m c) - 48)))) (c, 0);
  Done (i32 (i64 (out * sign))).

(** ** Loads, stores and copies *)

Lemma bytes_ok_upd m a v : bytes_ok m → 0 ≤ v < 256 → bytes_ok (upd m a v).
Proof. intros Hm Hv x. unfold upd. destruct (Z.eqb_spec x a); [done|apply Hm]. Qed.

Lemma load_bound w m a : bytes_ok m → 0 ≤ load w m a < 256 ^ Z.of_nat w.
Proof.
  intros Hm. revert a. induction w as [|w IH]; intros a; simpl load; [done|].
  specialize (IH (a + 1)). specialize (Hm a).
  rewrite Nat2Z.inj_succ, Z.pow_succ_r by lia. lia.
Qed.

Lemma store_spec w m a v x :
  store w m a v x =
  if (a <=? x) && (x <? a + Z.of_nat w) then v / 256 ^ (x - a) mod 256 else m x.
Proof.
  revert m a v. induction w as [|w IH]; intros m a v; simpl store.
  { bool_cases; simpl; try done; lia. }
  rewrite IH. unfold upd. rewrite Nat2Z.inj_succ.
  destruct (decide (x = a)) as [->|Hne].
  - rewrite Z.sub_diag, Z.pow_0_r, Z.div_1_r. bool_cases; simpl; done || lia.
  - destruct (decide (a + 1 ≤ x)).
    + replace (x - a) with (Z.succ (x - (a + 1))) by lia.
      rewrite Z.pow_succ_r, <-Z.div_div by lia.
      bool_cases; simpl; done || lia.
    + bool_cases; simpl; done || lia.
Qed.

Lemma load_byte w m a i :
  bytes_ok m → 0 ≤ i < Z.of_nat w → load w m a / 256 ^ i mod 256 = m (a + i).
Proof.
  intros Hm. revert a i. induction w as [|w IH]; intros a i Hi; [lia|]. simpl load.
  destruct (decide (i = 0)) as [->|Hne].
  - rewrite Z.pow_0_r, Z.div_1_r, Z.add_0_r, Z.mul_comm, Z_mod_plus_full.
    apply Z.mod_small, Hm.
  - replace i with (Z.succ (i - 1)) at 1 by lia.
    rewrite Z.pow_succ_r, <-Z.div_div by lia.
    rewrite (Z.mul_comm 256), Z_div_plus_full by lia.
    rewrite (Z.div_small (m a)) by apply Hm. rewrite Z.add_0_l, IH by lia. f_equal; lia.
Qed.

(** A word copied from [s] to [d] copies its bytes, also when they overlap. *)
Lemma store_load w m d s x :
  bytes_ok m →
  store w m d (load w m s) x =
  if (d <=? x) && (x <? d + Z.of_nat w) then m (s + (x - d)) else m x.
Proof.
  intros Hm. rewrite store_spec. bool_cases; simpl; try done.
  apply load_byte; [done|lia].
Qed.

Lemma bytes_ok_store w m a v : bytes_ok m → bytes_ok (store w m a v).
Proof.
  intros Hm x. rewrite store_spec. bool_cases; simpl; try apply Hm.
  apply Z.mod_pos_bound; lia.
Qed.

(** [copied m m' d s n]: [m'] is [m] with the [n] bytes at [s] copied to [d]. *)
Definition copied (m m' : mem) (d s n : Z) : Prop :=
  bytes_ok m' ∧ ∀ x, m' x = if (d <=? x) && (x <? d + n) then m (s + (x - d)) else m x.

Lemma copied_0 m d s n : bytes_ok m → n ≤ 0 → copied m m d s n.
Proof. intros Hm Hn; split; [done|]. intros x. bool_cases; simpl; done || lia. Qed.

Lemma copied_word w m d s :
  bytes_ok m → copied m (store w m d (load w m s)) d s (Z.of_nat w).
Proof. intros Hm. split; [by apply bytes_ok_store|]. intros x. by apply store_load. Qed.

Lemma copied_byte m d s : bytes_ok m → copied m (upd m d (m s)) d s 1.
Proof.
  intros Hm. split; [apply bytes_ok_upd; [done|apply Hm]|].
  intros x. unfold upd. bool_cases; simpl; try lia; try done. subst. f_equal; lia.
Qed.

(** Copies compose, forwards ... *)
Lemma copied_trans m m1 m2 d s n1 n2 :
  0 ≤ n1 → 0 ≤ n2 →
  (d + n1 ≤ s + n1 ∨ s + n1 + n2 ≤ d) →
  copied m m1 d s n1 → copied m1 m2 (d + n1) (s + n1) n2 → copied m m2 d s (n1 + n2).
Proof.
  intros H1 H2 Hov [Hb1 E1] [Hb2 E2]. split; [done|]. intros x.
  rewrite E2, !E1. bool_cases; simpl; first [done | lia | f_equal; lia | idtac].
Qed.

(** ... and backwards. *)
Lemma copied_trans_back m m1 m2 d s n1 n2 :
  0 ≤ n1 → 0 ≤ n2 → s ≤ d →
  copied m m1 (d + n1) (s + n1) n2 → copied m1 m2 d s n1 → copied m m2 d s (n1 + n2).
Proof.
  intros H1 H2 Hov [Hb1 E1] [Hb2 E2]. split; [done|]. intros x.
  rewrite E2, !E1. bool_cases; simpl; first [done | lia | f_equal; lia | idtac].
Qed.

(** Ascending loops are safe when the destination does not lie inside the
    source. *)
Definition fwd_ok (d s n : Z) : Prop := d ≤ s ∨ s + n ≤ d.

Lemma copy_words_spec w m d s n :
  bytes_ok m → 0 ≤ n → (0 < w)%nat → fwd_ok d s n →
  ∃ m' k, copy_words w m d s n = Done (m', d + k, s + k, n - k) ∧
    0 ≤ k ≤ n ∧ n - k < Z.of_nat w ∧ copied m m' d s k.
Proof.
  intros Hm Hn Hw Hov. unfold copy_words.
  edestruct (loop_total (λ '(m1, d1, s1, n1),
      if Z.of_nat w <=? n1
      then inl (store w m1 d1 (load w m1 s1), d1 + Z.of_nat w, s1 + Z.of_nat w, n1 - Z.of_nat w)
      else inr (m1, d1, s1, n1))
    (λ '(m1, d1, s1, n1), ∃ k, d1 = d + k ∧ s1 = s + k ∧ n1 = n - k ∧ 0 ≤ k ≤ n ∧
       copied m m1 d s k)
    (λ '(_, _, _, n1), Z.to_nat n1)
    (λ r, ∃ m' k, r = (m', d + k, s + k, n - k) ∧ 0 ≤ k ≤ n ∧ n - k < Z.of_nat w ∧
       copied m m' d s k))
    as (r & Hr & m' & k & -> & ?); [..|eauto].
  - intros [[[m1 d1] s1] n1] (k & -> & -> & -> & Hk & Hc).
    destruct (Z.leb_spec (Z.of_nat w) (n - k)); [|eexists _, _; eauto].
    split; [|lia]. exists (k + Z.of_nat w). split_and!; try lia.
    eapply copied_trans; [lia|lia|unfold fwd_ok in Hov; lia|done|].
    apply copied_word, Hc.
  - exists 0. split_and!; try lia. by apply copied_0.
  - unfold upto. lia.
Qed.

Lemma memcpy_copied m dest src n :
  bytes_ok m → 0 ≤ n → fwd_ok dest src n →
  ∃ m', memcpy m dest src n = Done m' ∧ copied m m' dest src n.
Proof.
  intros Hm Hn Hov. unfold memcpy, fwd_ok in *.
  destruct (copy_words_spec 8 m dest src n) as (m1 & k1 & E1 & ? & ? & C1);
    [done|done|lia|done|].
  rewrite (outcome_bind_done _ _ _ E1).
  destruct (copy_words_spec 4 m1 (dest + k1) (src + k1) (n - k1))
    as (m2 & k2 & E2 & ? & ? & C2); [apply C1|unfold fwd_ok; lia..|].
  rewrite (outcome_bind_done _ _ _ E2).
  destruct (copy_words_spec 1 m2 (dest + k1 + k2) (src + k1 + k2) (n - k1 - k2))
    as (m3 & k3 & E3 & ? & ? & C3); [apply C2|unfold fwd_ok; lia..|].
  rewrite (outcome_bind_done _ _ _ E3). eexists; split; [done|].
  replace n with (k1 + (k2 + k3)) by lia.
  eapply copied_trans; [lia..|exact C1|].
  eapply copied_trans; [lia..|exact C2|exact C3].
Qed.

Lemma memmove_forward_copied m d s n :
  bytes_ok m → 0 ≤ n → d ≤ s →
  ∃ m', memmove_forward m d s n = Done m' ∧ copied m m' d s n.
Proof.
  intros Hm Hn Hds. unfold memmove_forward.
  destruct (Z.eqb_spec (s mod 8) (d mod 8)); cycle 1.
  { destruct (copy_words_spec 1 m d s n) as (m1 & k1 & E1 & ? & ? & C1);
      [done|done|lia|by left|].
    osimpl. rewrite (outcome_bind_done _ _ _ E1). replace n with k1 by lia. eauto. }
  edestruct (loop_total (λ '(m, d, s, n),
               if d mod 8 =? 0 then inr (inr (m, d, s, n))
               else if n =? 0 then inr (inl m)
               else inl (upd m d (m s), d + 1, s + 1, n - 1))
    (λ '(m1, d1, s1, n1), ∃ k, d1 = d + k ∧ s1 = s + k ∧ n1 = n - k ∧ 0 ≤ k ≤ n ∧
       copied m m1 d s k)
    (λ '(_, _, _, n1), Z.to_nat n1)
    (λ r, match r with
          | inl m1 => copied m m1 d s n
          | inr (m1, d1, s1, n1) => ∃ k, d1 = d + k ∧ s1 = s + k ∧ n1 = n - k ∧
              0 ≤ k ≤ n ∧ copied m m1 d s k
          end)) as (r & -> & HQ).
  - intros [[[m1 d1] s1] n1] (k & -> & -> & -> & Hk & Hc).
    destruct (Z.eqb_spec ((d + k) mod 8) 0); [eauto 10|].
    destruct (Z.eqb_spec (n - k) 0); [by replace n with k by lia|].
    split; [|lia]. exists (k + 1). split_and!; try lia.
    eapply copied_trans; [lia..|done|]. apply copied_byte, Hc.
  - exists 0. split_and!; try lia. by apply copied_0.
  - unfold upto. lia.
  - osimpl. destruct r as [m1|[[[m1 d1] s1] n1]]; [eauto|].
    destruct HQ as (k & -> & -> & -> & Hk & C0).
    destruct (copy_words_spec 8 m1 (d + k) (s + k) (n - k)) as (m2 & k1 & E1 & ? & ? & C1);
      [apply C0|lia|lia|left; lia|].
    rewrite E1. osimpl.
    destruct (copy_words_spec 1 m2 (d + k + k1) (s + k + k1) (n - k - k1))
      as (m3 & k2 & E2 & ? & ? & C2); [apply C1|lia|lia|left; lia|].
    rewrite E2. osimpl. eexists; split; [done|].
    replace n with (k + (k1 + k2)) by lia.
    eapply copied_trans; [lia..|exact C0|].
    eapply copied_trans; [lia..|exact C1|exact C2].
Qed.

(** The descending loops of [memmove] have copied everything above [n1]. *)
Definition copied_above (m m1 : mem) (d s n n1 : Z) : Prop :=
  0 ≤ n1 ≤ n ∧ copied m m1 (d + n1) (s + n1) (n - n1).

Lemma copied_above_step m m1 m2 d s n n1 k :
  s ≤ d → copied_above m m1 d s n n1 → 0 ≤ k ≤ n1 →
  copied m1 m2 (d + (n1 - k)) (s + (n1 - k)) k →
  copied_above m m2 d s n (n1 - k).
Proof.
  intros Hsd [Hn1 C1] Hk C2. split; [lia|].
  replace (n - (n1 - k)) with (k + (n - n1)) by lia.
  eapply (copied_trans_back _ m1); [lia..| |exact C2].
  replace (d + (n1 - k) + k) with (d + n1) by lia.
  by replace (s + (n1 - k) + k) with (s + n1) by lia.
Qed.

Lemma memmove_backward_copied m d s n :
  bytes_ok m → 0 ≤ n → s ≤ d →
  ∃ m', memmove_backward m d s n = Done m' ∧ copied m m' d s n.
Proof.
  intros Hm Hn Hsd. unfold memmove_backward.
  set (Inv := λ '(m1, n1), copied_above m m1 d s n n1).
  assert (Hfin : ∀ m1 n1, Inv (m1, n1) → ∃ m',
    loop (upto n1) (λ '(m, n), if n =? 0 then inr m
        else inl (upd m (d + (n - 1)) (m (s + (n - 1))), n - 1)) (m1, n1) = Done m' ∧
    copied m m' d s n).
  { intros m1 n1 HI.
    refine (loop_total _ Inv (λ '(_, n1), Z.to_nat n1) _ _ _ _ HI _); [|unfold upto; lia].
    intros [m2 n2] [Hn2 C]. destruct (Z.eqb_spec n2 0) as [->|].
    - by rewrite !Z.add_0_r, Z.sub_0_r in C.
    - split; [|lia]. eapply copied_above_step; [done|by split|lia|].
      apply copied_byte, C. }
  assert (HI0 : Inv (m, n)).
  { split; [lia|]. apply copied_0; [done|lia]. }
  destruct (Z.eqb_spec (s mod 8) (d mod 8)); [|by apply Hfin].
  edestruct (loop_total (λ '(m, n),
               if (d + n) mod 8 =? 0 then inr (inr (m, n))
               else if n =? 0 then inr (inl m)
               else inl (upd m (d + (n - 1)) (m (s + (n - 1))), n - 1))
    Inv (λ '(_, n1), Z.to_nat n1)
    (λ r, match r with
          | inl m1 => copied m m1 d s n
          | inr (m1, n1) => Inv (m1, n1)
          end)) as (r & -> & HQ); [|exact HI0|unfold upto; lia|].
  { intros [m1 n1] [Hn1 C]. destruct (Z.eqb_spec ((d + n1) mod 8) 0); [by split|].
    destruct (Z.eqb_spec n1 0) as [->|].
    - by rewrite !Z.add_0_r, Z.sub_0_r in C.
    - split; [|lia]. eapply copied_above_step; [done|by split|lia|]. apply copied_byte, C. }
  osimpl. destruct r as [m1|[m1 n1]]; [eauto|].
  edestruct (loop_total (λ '(m, n),
               if 8 <=? n
               then inl (store 8 m (d + (n - 8)) (load 8 m (s + (n - 8))), n - 8)
               else inr (m, n))
    Inv (λ '(_, n1), Z.to_nat n1) Inv) as ([m2 n2] & -> & HQ2);
    [|exact HQ|unfold upto; lia|].
  { intros [m2 n2] [Hn2 C]. destruct (Z.leb_spec 8 n2); [|by split].
    split; [|lia]. eapply copied_above_step; [done|by split|lia|].
    apply (copied_word 8), C. }
  osimpl. by apply Hfin.
Qed.

(** ** The [HASZERO] word test *)

Lemma byte_high a i : 0 ≤ a < 256 → 8 ≤ i → Z.testbit a i = false.
Proof.
  intros Ha Hi. replace a with (a mod 2 ^ 8) by (apply Z.mod_small; lia).
  apply Z.mod_pow2_bits_high; lia.
Qed.

Lemma byte_split a z : 0 ≤ a < 256 → a + 256 * z = Z.lor a (Z.shiftl z 8).
Proof.
  intros Ha. rewrite Z.shiftl_mul_pow2 by lia. change (2 ^ 8) with 256.
  rewrite (Z.mul_comm 256). apply Z.add_nocarry_lor.
  apply Z.bits_inj'. intros i Hi. rewrite Z.land_spec, Z.bits_0.
  destruct (decide (i < 8)).
  - change 256 with (2 ^ 8). rewrite Z.mul_pow2_bits_low by lia. apply andb_false_r.
  - by rewrite byte_high by lia.
Qed.

Lemma byte_bound x : (∀ i, 8 ≤ i → Z.testbit x i = false) → 0 ≤ x < 256.
Proof.
  intros H. replace x with (x mod 2 ^ 8); [apply Z.mod_pos_bound; lia|].
  apply Z.bits_inj'. intros i Hi. destruct (decide (i < 8)).
  - by rewrite Z.mod_pow2_bits_low by lia.
  - rewrite Z.mod_pow2_bits_high by lia. by rewrite H by lia.
Qed.

Lemma land_byte_bound b c : 0 ≤ b < 256 → 0 ≤ Z.land b c < 256.
Proof. intros Hb. apply byte_bound. intros i Hi. by rewrite Z.land_spec, byte_high. Qed.

Lemma lxor_byte_bound b c : 0 ≤ b < 256 → 0 ≤ c < 256 → 0 ≤ Z.lxor b c < 256.
Proof. intros Hb Hc. apply byte_bound. intros i Hi. by rewrite Z.lxor_spec, !byte_high. Qed.

(** Bitwise operations distribute over the low byte. *)
Lemma land_byte b c x y :
  0 ≤ b < 256 → 0 ≤ c < 256 →
  Z.land (b + 256 * x) (c + 256 * y) = Z.land b c + 256 * Z.land x y.
Proof.
  intros Hb Hc. pose proof (land_byte_bound b c) as Hl.
  rewrite (byte_split b), (byte_split c), (byte_split (Z.land b c)) by auto.
  apply Z.bits_inj'. intros i Hi. rewrite !Z.land_spec, !Z.lor_spec, !Z.land_spec.
  destruct (decide (i < 8)).
  - rewrite !Z.shiftl_spec_low by lia. by rewrite !orb_false_r.
  - rewrite !Z.shiftl_spec, Z.land_spec by lia. by rewrite (byte_high b), (byte_high c) by lia.
Qed.

Lemma lxor_byte b c x y :
  0 ≤ b < 256 → 0 ≤ c < 256 →
  Z.lxor (b + 256 * x) (c + 256 * y) = Z.lxor b c + 256 * Z.lxor x y.
Proof.
  intros Hb Hc. pose proof (lxor_byte_bound b c) as Hl.
  rewrite (byte_split b), (byte_split c), (byte_split (Z.lxor b c)) by auto.
  apply Z.bits_inj'. intros i Hi. rewrite !Z.lxor_spec, !Z.lor_spec, !Z.lxor_spec.
  destruct (decide (i < 8)).
  - rewrite !Z.shiftl_spec_low by lia. by rewrite !orb_false_r.
  - rewrite !Z.shiftl_spec, Z.lxor_spec by lia. by rewrite (byte_high b), (byte_high c) by lia.
Qed.

Lemma lnot_byte b x : Z.lnot (b + 256 * x) = (255 - b) + 256 * Z.lnot x.
Proof. unfold Z.lnot. lia. Qed.

(** The masks of [w]-byte words. *)
Fixpoint ones (w : nat) : Z := match w with O => 0 | S w' => 1 + 256 * ones w' end.

Lemma haszero_low b :
  0 < b < 256 → Z.land (Z.land (b - 1) (255 - b)) 128 = 0.
Proof.
  intros Hb.
  assert (∀ n : nat, (n < 255)%nat →
    (Z.land (Z.land (Z.of_nat n) (254 - Z.of_nat n)) 128 =? 0) = true) as H.
  { assert (forallb (λ n : nat, Z.land (Z.land (Z.of_nat n) (254 - Z.of_nat n)) 128 =? 0)
      (seq 0 255) = true) as Hall by (vm_compute; done).
    intros n Hn. rewrite forallb_forall in Hall. apply Hall, in_seq. lia. }
  specialize (H (Z.to_nat (b - 1))). rewrite Z2Nat.id in H by lia.
  replace (254 - (b - 1)) with (255 - b) in H by lia.
  apply Z.eqb_eq, H. lia.
Qed.

(** On [w]-byte words, the test is zero exactly when no byte is zero. *)
Lemma haszero_word w m a :
  bytes_ok m →
  Z.land (Z.land (load w m a - ones w) (Z.lnot (load w m a))) (128 * ones w) = 0 ↔
  ∀ i, 0 ≤ i < Z.of_nat w → m (a + i) ≠ 0.
Proof.
  intros Hm. revert a. induction w as [|w IH]; intros a.
  { simpl. rewrite !Z.land_0_r. split; [lia|done]. }
  simpl load. simpl ones. pose proof (Hm a) as Ha.
  rewrite lnot_byte. replace (128 * (1 + 256 * ones w)) with (128 + 256 * (128 * ones w)) by lia.
  destruct (decide (m a = 0)) as [H0|Hne].
  - rewrite H0. replace (0 + 256 * load w m (a + 1) - (1 + 256 * ones w))
      with (255 + 256 * (load w m (a + 1) - ones w - 1)) by lia.
    rewrite land_byte by lia. change (Z.land 255 (255 - 0)) with 255.
    rewrite land_byte by lia. change (Z.land 255 128) with 128. split.
    + intros H. exfalso.
      assert (2 * (64 + 128 * Z.land (Z.land (load w m (a + 1) - ones w - 1)
        (Z.lnot (load w m (a + 1)))) (128 * ones w)) = 0) by lia. lia.
    + intros H. destruct (H 0); [lia|by rewrite Z.add_0_r].
  - replace (m a + 256 * load w m (a + 1) - (1 + 256 * ones w))
      with ((m a - 1) + 256 * (load w m (a + 1) - ones w)) by lia.
    rewrite land_byte by lia.
    rewrite land_byte by (try apply land_byte_bound; lia).
    rewrite haszero_low by lia. rewrite Z.add_0_l. split.
    + intros H i Hi. destruct (decide (i = 0)) as [->|]; [by rewrite Z.add_0_r|].
      replace (a + i) with (a + 1 + (i - 1)) by lia. apply IH; lia.
    + intros H. assert (∀ i, 0 ≤ i < Z.of_nat w → m (a + 1 + i) ≠ 0) as H'.
      { intros i Hi. rewrite <-Z.add_assoc. apply H. lia. }
      apply IH in H'. lia.
Qed.

Lemma HIGHS_land_u64 x : Z.land (u64 x) HIGHS = Z.land x HIGHS.
Proof.
  unfold u64. rewrite <-Z.land_ones by lia. rewrite <-Z.land_assoc. f_equal.
Qed.

Lemma HASZERO_spec m a :
  bytes_ok m → HASZERO (load 8 m a) = 0 ↔ ∀ i, 0 ≤ i < 8 → m (a + i) ≠ 0.
Proof.
  intros Hm. rewrite <-(haszero_word 8 m a Hm).
  change (128 * ones 8) with HIGHS. change (ones 8) with ONES. unfold HASZERO.
  rewrite <-Z.land_assoc, HIGHS_land_u64, (Z.land_comm (Z.lnot _)), Z.land_assoc,
    HIGHS_land_u64.
  by rewrite <-Z.land_assoc, (Z.land_comm HIGHS), Z.land_assoc.
Qed.

(** Xor with [ONES * c] turns the bytes equal to [c] into zeros. *)
Lemma load_lxor w m c a :
  bytes_ok m → 0 ≤ c < 256 →
  Z.lxor (load w m a) (ones w * c) = load w (λ x, Z.lxor (m x) c) a.
Proof.
  intros Hm Hc. revert a. induction w as [|w IH]; intros a; [done|].
  cbn [load ones]. replace ((1 + 256 * ones w) * c) with (c + 256 * (ones w * c)) by lia.
  rewrite lxor_byte by done. by rewrite IH.
Qed.

Lemma HASZERO_lxor_spec m c a :
  bytes_ok m → 0 ≤ c < 256 →
  HASZERO (Z.lxor (load 8 m a) (u64 (ONES * c))) = 0 ↔ ∀ i, 0 ≤ i < 8 → m (a + i) ≠ c.
Proof.
  intros Hm Hc. rewrite u64_small.
  2:{ change ONES with 72340172838076673. lia. }
  change ONES with (ones 8). rewrite load_lxor by done. rewrite HASZERO_spec.
  - split; intros H i Hi; specialize (H i Hi); contradict H; by apply Z.lxor_eq_0_iff.
  - intros x. by apply lxor_byte_bound.
Qed.

(** ** Searching: the specification of the scanning loops *)

(** The first address at or after [p] whose byte satisfies [stop]. *)
Definition first_at (m : mem) (stop : Z → bool) (p q : Z) : Prop :=
  p ≤ q ∧ stop (m q) = true ∧ ∀ x, p ≤ x < q → stop (m x) = false.

Lemma first_at_unique m stop p q q' :
  first_at m stop p q → first_at m stop p q' → q = q'.
Proof.
  intros (H1 & H2 & H3) (H1' & H2' & H3').
  destruct (Z.lt_trichotomy q q') as [Hlt|[->|Hlt]]; [|done|].
  - rewrite H3' in H2; [done|lia].
  - rewrite H3 in H2'; [done|lia].
Qed.

Lemma first_at_later m stop p p' q :
  first_at m stop p q → p ≤ p' ≤ q → first_at m stop p' q.
Proof. intros (H1 & H2 & H3) Hp. split_and!; [lia|done|]. intros x Hx. apply H3. lia. Qed.

(** A byte-by-byte scan. *)
Lemma scan_bytes m stop p q fuel :
  first_at m stop p q → (Z.to_nat (q - p) < fuel)%nat →
  loop fuel (λ x, if stop (m x) then inr x else inl (x + 1)) p = Done q.
Proof.
  intros Hq Hf.
  apply (loop_done_eq _ (λ x, p ≤ x ≤ q) (λ x, Z.to_nat (q - x))); [|destruct Hq; lia|lia].
  intros x Hx. destruct (stop (m x)) eqn:E.
  - eapply first_at_unique; [|by apply (first_at_later _ _ p)].
    split_and!; [done|done|lia].
  - assert (x ≠ q) by (intros ->; destruct Hq as (_ & Hq & _); congruence). lia.
Qed.

(** The alignment prologue: it stops at a word boundary or at the address
    searched for. *)
Lemma scan_align m stop p q fuel {R} (fin : Z → R) :
  first_at m stop p q → (Z.to_nat (q - p) + 1 < fuel)%nat →
  ∃ r, loop fuel (λ x, if x mod ALIGN =? 0 then inr (inr x)
                       else if stop (m x) then inr (inl (fin x)) else inl (x + 1)) p = Done r ∧
    match r with
    | inl f => f = fin q
    | inr x => p ≤ x ≤ q ∧ x mod ALIGN = 0
    end.
Proof.
  intros Hq Hf.
  apply (loop_total _ (λ x, p ≤ x ≤ q) (λ x, Z.to_nat (q - x))); [|destruct Hq; lia|lia].
  intros x Hx. destruct (Z.eqb_spec (x mod ALIGN) 0); [done|].
  destruct (stop (m x)) eqn:E.
  - f_equal. eapply first_at_unique; [|by apply (first_at_later _ _ p)].
    split_and!; [done|done|lia].
  - assert (x ≠ q) by (intros ->; destruct Hq as (_ & Hq & _); congruence). lia.
Qed.

(** A word-by-word scan whose test [found] detects a stopping byte in the word:
    it stops in the word that holds the address searched for. *)
Lemma scan_words m stop p q fuel (found : Z → bool) :
  (∀ w, found w = false → ∀ i, 0 ≤ i < 8 → stop (m (w + i)) = false) →
  (∀ w, (∀ i, 0 ≤ i < 8 → stop (m (w + i)) = false) → found w = false) →
  first_at m stop p q → (Z.to_nat (q - p) < fuel)%nat →
  ∃ w, loop fuel (λ w, if found w then inr w else inl (w + 8)) p = Done w ∧ p ≤ w ≤ q.
Proof.
  intros H1 H2 Hq Hf.
  apply (loop_total _ (λ x, p ≤ x ≤ q) (λ x, Z.to_nat (q - x))); [|destruct Hq; lia|lia].
  intros w Hw. destruct (found w) eqn:E; [done|].
  destruct (decide (q < w + 8)) as [Hlt|]; [|lia].
  destruct Hq as (_ & Hq & _).
  specialize (H1 w E (q - w) ltac:(lia)). replace (w + (q - w)) with q in H1 by lia. congruence.
Qed.


(** ** C strings *)

Lemma cstr_nul m p s : cstr m p s → m (p + Z.of_nat (length s)) = 0.
Proof.
  revert p. induction s as [|c s IH]; intros p; simpl length.
  - intros H. by rewrite Z.add_0_r.
  - intros (_ & _ & H). apply IH in H. by replace (p + Z.of_nat (S (length s)))
      with (p + 1 + Z.of_nat (length s)) by lia.
Qed.

Lemma cstr_lookup m p s (i : nat) c : cstr m p s → s !! i = Some c → m (p + Z.of_nat i) = c ∧ c ≠ 0.
Proof.
  revert p i. induction s as [|d s IH]; intros p i; [done|].
  intros (H1 & H2 & H3). destruct i as [|i]; simpl.
  - intros [= <-]. by rewrite Z.add_0_r.
  - intros Hi. destruct (IH _ _ H3 Hi). split; [|done].
    by replace (p + Z.of_nat (S i)) with (p + 1 + Z.of_nat i) by lia.
Qed.

Lemma cstr_app m p s1 s2 :
  cstr m p (s1 ++ s2) → cstr m (p + Z.of_nat (length s1)) s2.
Proof.
  revert p. induction s1 as [|c s1 IH]; intros p; simpl length; simpl app.
  - by rewrite Z.add_0_r.
  - intros (_ & _ & H). apply IH in H.
    by replace (p + Z.of_nat (S (length s1))) with (p + 1 + Z.of_nat (length s1)) by lia.
Qed.

(** Scanning a string for the first byte that stops: the prefix that does not. *)
Lemma cstr_first_at m p s stop :
  cstr m p s → stop 0 = true →
  first_at m stop p (p + Z.of_nat (length (take_while (λ c, negb (stop c)) s))).
Proof.
  intros Hs Hstop. revert p Hs. induction s as [|c s IH]; intros p Hs; simpl.
  - rewrite Z.add_0_r. simpl in Hs. split_and!; [lia|by rewrite Hs|lia].
  - destruct Hs as (H1 & H2 & H3). destruct (stop c) eqn:E; simpl.
    + rewrite Z.add_0_r. split_and!; [lia|by rewrite H1|lia].
    + destruct (IH _ H3) as (I1 & I2 & I3).
      replace (p + Z.of_nat (S (length (take_while (λ c, negb (stop c)) s)))) with
        (p + 1 + Z.of_nat (length (take_while (λ c, negb (stop c)) s))) by lia.
      split_and!; [lia|done|]. intros x Hx.
      destruct (decide (x = p)) as [->|]; [by rewrite H1|]. apply I3; lia.
Qed.

Lemma length_take_while {A} (p : A → bool) l : (length (take_while p l) ≤ length l)%nat.
Proof. rewrite <-(length_take_drop_while p l). lia. Qed.

Lemma cstr_nonzero m p s : cstr m p s → Forall (λ c, negb (c =? 0) = true) s.
Proof.
  revert p. induction s as [|c s IH]; intros p; [done|]. intros (_ & H & Hs).
  constructor; [|by eapply IH]. by destruct (Z.eqb_spec c 0).
Qed.

Lemma strlen_cstr fuel m p s :
  bytes_ok m → cstr m p s → (length s + 1 < fuel)%nat →
  strlen fuel m p = Done (Z.of_nat (length s)).
Proof.
  intros Hm Hs Hf.
  pose proof (cstr_first_at m p s (λ b, b =? 0) Hs eq_refl) as Hq.
  rewrite take_while_true in Hq by (by eapply cstr_nonzero).
  set (q := p + Z.of_nat (length s)) in *. unfold strlen.
  destruct (scan_align m (λ b, b =? 0) p q fuel (λ x, x - p)) as (r & -> & Hr);
    [done|lia|]. osimpl.
  destruct r as [n|x]; [subst n; f_equal; lia|]. destruct Hr as [Hx _].
  pose proof (first_at_later _ _ _ x _ Hq Hx) as Hq'.
  rewrite (loop_ext _ (λ w, if negb (HASZERO (load 8 m w) =? 0) then inr w else inl (w + 8)))
    by (intros w; by destruct (_ =? 0)).
  destruct (scan_words m (λ b, b =? 0) x q fuel (λ w, negb (HASZERO (load 8 m w) =? 0)))
    as (w & -> & Hw); [..|done|lia|].
  - intros w E. apply negb_false_iff, Z.eqb_eq in E. intros i Hi.
    apply Z.eqb_neq. by apply HASZERO_spec.
  - intros w E. apply negb_false_iff, Z.eqb_eq, HASZERO_spec; [done|].
    intros i Hi. by apply Z.eqb_neq, E.
  - osimpl. rewrite (scan_bytes m (λ b, b =? 0) w q fuel); [|by eapply first_at_later|lia].
    osimpl. f_equal. lia.
Qed.

Lemma take_while_ext {A} (p q : A → bool) l :
  Forall (λ x, p x = q x) l → take_while p l = take_while q l.
Proof. induction 1 as [|x l H _ IH]; simpl; [done|]. by rewrite H, IH. Qed.

Lemma cstr_bytes m p s : bytes_ok m → cstr m p s → Forall (λ c, 0 < c < 256) s.
Proof.
  intros Hm. revert p. induction s as [|c s IH]; intros p; [done|]. intros (H1 & H2 & H3).
  constructor; [|by eapply IH]. specialize (Hm p). lia.
Qed.

Lemma strchrnul_cstr fuel m p s c :
  bytes_ok m → cstr m p s → 0 ≤ c < 256 → (length s + 1 < fuel)%nat →
  strchrnul fuel m p c = Done (p + Z.of_nat (length (take_while (λ b, negb (b =? c)) s))).
Proof.
  intros Hm Hs Hc Hf. unfold strchrnul. rewrite u8_small by done.
  destruct (Z.eqb_spec c 0) as [->|Hc0].
  { rewrite (strlen_cstr fuel m p s) by done. osimpl.
    by rewrite take_while_true by (by eapply cstr_nonzero). }
  set (stop := λ b, (b =? 0) || (b =? c)).
  pose proof (cstr_first_at m p s stop Hs eq_refl) as Hq.
  rewrite (take_while_ext _ (λ b, negb (b =? c))) in Hq.
  2:{ eapply Forall_impl; [by eapply cstr_nonzero|]. intros b Hb. unfold stop.
      by apply negb_true_iff in Hb as ->. }
  pose proof (length_take_while (λ b, negb (b =? c)) s).
  set (q := p + _) in *.
  destruct (scan_align m stop p q fuel (λ x, x)) as (r & Hl & Hr); [done|lia|].
  unfold stop in Hl. rewrite Hl. clear Hl. osimpl.
  destruct r as [n|x]; [by subst n|]. destruct Hr as [Hx _].
  pose proof (first_at_later _ _ _ x _ Hq Hx) as Hq'.
  set (found := λ w, negb ((HASZERO (load 8 m w) =? 0) &&
     (HASZERO (Z.lxor (load 8 m w) (u64 (ONES * c))) =? 0))).
  rewrite (loop_ext _ (λ w, if found w then inr w else inl (w + 8)))
    by (intros w; unfold found; by destruct (_ && _)).
  destruct (scan_words m stop x q fuel found) as (w & -> & Hw); [..|done|lia|].
  - intros w E i Hi. apply negb_false_iff, andb_true_iff in E as [E1 E2].
    apply Z.eqb_eq in E1, E2. unfold stop. apply orb_false_iff.
    split; apply Z.eqb_neq; [by apply HASZERO_spec|by apply HASZERO_lxor_spec].
  - intros w E. apply negb_false_iff, andb_true_iff.
    split; apply Z.eqb_eq; [apply HASZERO_spec|apply HASZERO_lxor_spec]; try done;
      intros i Hi; specialize (E i Hi); unfold stop in E; apply orb_false_iff in E as [E1 E2];
      by apply Z.eqb_neq.
  - osimpl. rewrite (loop_ext _ (λ x, if stop (m x) then inr x else inl (x + 1)))
      by (intros y; unfold stop; by destruct (_ =? 0), (_ =? c)).
    apply scan_bytes; [by eapply first_at_later|lia].
Qed.

Lemma take_while_stop m p s (c : Z) :
  cstr m p s →
  m (p + Z.of_nat (length (take_while (λ b, negb (b =? c)) s))) =
  if bool_decide (c ∈ s) then c else 0.
Proof.
  revert p. induction s as [|d s IH]; intros p; simpl.
  - intros H. by rewrite Z.add_0_r.
  - intros (H1 & H2 & H3). destruct (Z.eqb_spec d c) as [->|Hne]; simpl.
    + rewrite Z.add_0_r, bool_decide_eq_true_2; [done|constructor].
    + replace (p + Z.of_nat (S _)) with
        (p + 1 + Z.of_nat (length (take_while (λ b, negb (b =? c)) s))) by lia.
      rewrite (IH _ H3). case_bool_decide as E1; case_bool_decide as E2; set_solver.
Qed.

(** ** Sets of bytes *)

Definition in_set (C : list Z) (b : Z) : bool := bool_decide (b ∈ C).

Definition byteset_rep (bs : list Z) (P : Z → bool) : Prop :=
  length bs = 4%nat ∧
  ∀ b, 0 ≤ b < 256 → Z.testbit (bs !!! Z.to_nat (b / 64)) (b mod 64) = P b.

Lemma BITOP_and_rep bs P b :
  byteset_rep bs P → 0 ≤ b < 256 → (BITOP_and bs b =? 0) = negb (P b).
Proof.
  intros [_ H] Hb. unfold BITOP_and. rewrite land_bit_zero by (apply Z.mod_pos_bound; lia).
  by rewrite H.
Qed.

Lemma BITOP_or_rep bs P b :
  byteset_rep bs P → 0 ≤ b < 256 →
  byteset_rep (BITOP_or bs b) (λ x, P x || (x =? b)) ∧
  BITOP_or bs b !!! Z.to_nat (b / 64) ≠ 0.
Proof.
  intros [Hl H] Hb. unfold BITOP_or.
  assert (Z.to_nat (b / 64) < length bs)%nat as Hlt.
  { rewrite Hl. pose proof (Z.div_lt_upper_bound b 64 4). lia. }
  split; [split|].
  - by rewrite length_insert.
  - intros x Hx. rewrite <-H by done. destruct (decide (x / 64 = b / 64)) as [E|E].
    + rewrite E, list_lookup_total_insert_eq by done.
      rewrite lor_bit_spec by (apply Z.mod_pos_bound; lia). f_equal.
      pose proof (Z.div_mod x 64). pose proof (Z.div_mod b 64).
      destruct (Z.eqb_spec (x mod 64) (b mod 64)), (Z.eqb_spec x b); try done; lia.
    + rewrite list_lookup_total_insert_ne.
      * destruct (Z.eqb_spec x b) as [->|]; [done|]. by rewrite orb_false_r.
      * intros E'. apply E. pose proof (Z.div_pos x 64). pose proof (Z.div_pos b 64). lia.
  - rewrite list_lookup_total_insert_eq by done. intros H0.
    assert (Z.testbit (Z.lor (bs !!! Z.to_nat (b / 64)) (Z.shiftl 1 (b mod 64))) (b mod 64) = false)
      as H1 by (by rewrite H0, Z.bits_0).
    rewrite lor_bit_spec, Z.eqb_refl, orb_true_r in H1 by (apply Z.mod_pos_bound; lia). done.
Qed.

Lemma byteset0_rep : byteset_rep byteset0 (λ _, false).
Proof.
  split; [done|]. intros b Hb.
  assert (Hlt : (Z.to_nat (b / 64) < 4)%nat).
  { pose proof (Z.div_lt_upper_bound b 64 4). lia. }
  destruct (Z.to_nat (b / 64)) as [|[|[|[|]]]]; simpl; try apply Z.bits_0. lia.
Qed.

Lemma fill_byteset_loop m C : bytes_ok m → ∀ c bs P fuel,
  cstr m c C → byteset_rep bs P → (length C < fuel)%nat →
  ∃ bs', loop fuel (fill_step m) (c, bs) = Done bs' ∧
    byteset_rep bs' (λ b, P b || in_set C b).
Proof.
  intros Hm. induction C as [|x C IH]; intros c bs P fuel HC Hr Hf;
    (destruct fuel as [|fuel]; [simpl in Hf; lia|]); simpl in HC.
  - cbn [loop fill_step]. rewrite HC. simpl. exists bs. split; [done|]. destruct Hr as [Hl Hr].
    split; [done|]. intros b Hb. rewrite Hr by done. unfold in_set.
    rewrite bool_decide_eq_false_2 by set_solver. by rewrite orb_false_r.
  - destruct HC as (H1 & H2 & H3). cbn [loop]. unfold fill_step at 1. rewrite H1.
    pose proof (Hm c). destruct (Z.eqb_spec x 0); [done|].
    destruct (BITOP_or_rep bs P x Hr) as [Hr' Hnz]; [lia|]. cbv zeta.
    destruct (Z.eqb_spec (BITOP_or bs x !!! Z.to_nat (x / 64)) 0); [done|].
    destruct (IH (c + 1) _ _ fuel H3 Hr') as (bs' & -> & Hl & Hb'); [simpl in Hf; lia|].
    exists bs'. split; [done|]. split; [done|]. intros b Hb. rewrite Hb' by done.
    unfold in_set. destruct (P b); [done|]. simpl.
    destruct (Z.eqb_spec b x) as [->|]; simpl;
      [by rewrite bool_decide_eq_true_2 by constructor|].
    apply bool_decide_ext. set_solver.
Qed.

Lemma fill_byteset_spec fuel m c C :
  bytes_ok m → cstr m c C → (length C < fuel)%nat →
  ∃ bs, fill_byteset fuel m c = Done bs ∧ byteset_rep bs (in_set C).
Proof. intros Hm HC Hf. by apply (fill_byteset_loop m C Hm c _ (λ _, false)); [|apply byteset0_rep|]. Qed.

Lemma in_set_0 m c C : cstr m c C → in_set C 0 = false.
Proof.
  intros HC%cstr_nonzero. unfold in_set. apply bool_decide_eq_false_2. intros Hin.
  rewrite Forall_forall in HC. by specialize (HC 0 Hin).
Qed.

Lemma strspn_cstr fuel m s c S C :
  bytes_ok m → cstr m s S → cstr m c C →
  (length S + 1 < fuel)%nat → (length C < fuel)%nat →
  strspn fuel m s c = Done (Z.of_nat (length (take_while (in_set C) S))).
Proof.
  intros Hm HS HC Hf Hf'. unfold strspn.
  pose proof (length_take_while (in_set C) S).
  assert (Hgen : ∀ stop, stop 0 = true → (∀ b, 0 ≤ b < 256 → negb (stop b) = in_set C b) →
    (e ← loop fuel (λ s, if stop (m s) then inr s else inl (s + 1)) s; Done (e - s)) =
    Done (Z.of_nat (length (take_while (in_set C) S)))).
  { intros stop H0 Hst. pose proof (cstr_first_at m s S stop HS H0) as Hq.
    rewrite (take_while_ext _ (in_set C)) in Hq.
    2:{ eapply Forall_impl; [exact (cstr_bytes _ _ _ Hm HS)|]. intros b Hb. cbv beta in Hb.
        apply Hst. lia. }
    rewrite (scan_bytes _ _ _ _ _ Hq) by lia. osimpl. f_equal. lia. }
  destruct C as [|x [|y C]]; simpl in HC.
  - rewrite HC. simpl. f_equal. by destruct S.
  - destruct HC as (H1 & H2 & H3). rewrite H1, H3. destruct (Z.eqb_spec x 0); [done|].
    rewrite (loop_ext _ (λ s, if negb (m s =? x) then inr s else inl (s + 1)))
      by (intros z; by destruct (m z =? x)).
    apply (Hgen (λ b, negb (b =? x))); [by destruct (Z.eqb_spec 0 x)|].
    intros b Hb. rewrite negb_involutive. unfold in_set.
    destruct (Z.eqb_spec b x); case_bool_decide; set_solver.
  - destruct (fill_byteset_spec fuel m c (x :: y :: C) Hm HC Hf') as (bs & -> & Hbs).
    pose proof (in_set_0 m c (x :: y :: C) HC) as Hz.
    destruct HC as (H1 & H2 & H3 & H4 & H5). rewrite H1, H3.
    destruct (Z.eqb_spec x 0); [done|]. destruct (Z.eqb_spec y 0); [done|]. osimpl.
    rewrite (loop_ext _ (λ s, if (m s =? 0) || (BITOP_and bs (m s) =? 0)
       then inr s else inl (s + 1))) by (intros z; by destruct (_ =? 0), (BITOP_and _ _ =? 0)).
    apply (Hgen (λ b, (b =? 0) || (BITOP_and bs b =? 0))); [done|].
    intros b Hb. rewrite (BITOP_and_rep _ _ _ Hbs Hb).
    destruct (Z.eqb_spec b 0) as [->|]; simpl; [done|apply negb_involutive].
Qed.

Lemma strcspn_cstr fuel m s c S C :
  bytes_ok m → cstr m s S → cstr m c C →
  (length S + 1 < fuel)%nat → (length C < fuel)%nat →
  strcspn fuel m s c = Done (Z.of_nat (length (take_while (λ b, negb (in_set C b)) S))).
Proof.
  intros Hm HS HC Hf Hf'. unfold strcspn.
  assert (Hshort : ∀ x, 0 ≤ x < 256 →
    Forall (λ b, negb (b =? x) = negb (in_set C b)) S →
    (p ← strchrnul fuel m s x; Done (p - s)) =
    Done (Z.of_nat (length (take_while (λ b, negb (in_set C b)) S)))).
  { intros x Hx Hext. rewrite (strchrnul_cstr fuel m s S x) by done. osimpl.
    rewrite (take_while_ext _ _ _ Hext). f_equal. lia. }
  pose proof (cstr_nonzero _ _ _ HS) as Hnz. rewrite Forall_forall in Hnz.
  destruct C as [|x [|y C]]; simpl in HC.
  - rewrite HC. simpl. apply Hshort; [lia|]. apply Forall_forall. intros b Hb.
    by rewrite Hnz.
  - destruct HC as (H1 & H2 & H3). rewrite H3, andb_false_r, H1.
    apply Hshort; [rewrite <-H1; apply Hm|]. apply Forall_forall. intros b Hb. unfold in_set.
    destruct (Z.eqb_spec b x); case_bool_decide; set_solver.
  - destruct (fill_byteset_spec fuel m c (x :: y :: C) Hm HC Hf') as (bs & -> & Hbs).
    pose proof (in_set_0 m c (x :: y :: C) HC) as Hz.
    destruct HC as (H1 & H2 & H3 & H4 & H5). rewrite H1, H3.
    destruct (Z.eqb_spec x 0); [done|]. destruct (Z.eqb_spec y 0); [done|]. osimpl. simpl negb.
    cbn [andb].
    set (stop := λ b, (b =? 0) || negb (BITOP_and bs b =? 0)).
    rewrite (loop_ext _ (λ s, if stop (m s) then inr s else inl (s + 1)))
      by (intros z; unfold stop; by destruct (m z =? 0), (BITOP_and _ _ =? 0)).
    pose proof (cstr_first_at m s S stop HS eq_refl) as Hq.
    rewrite (take_while_ext _ (λ b, negb (in_set (x :: y :: C) b))) in Hq.
    2:{ pose proof (cstr_bytes _ _ _ Hm HS) as Hb. eapply Forall_impl; [exact Hb|].
        intros b Hb'. cbv beta in Hb'. unfold stop. rewrite (BITOP_and_rep _ _ _ Hbs), negb_involutive by lia.
        by destruct (Z.eqb_spec b 0); [lia|]. }
    pose proof (length_take_while (λ b, negb (in_set (x :: y :: C) b)) S).
    rewrite (scan_bytes _ _ _ _ _ Hq) by lia. osimpl. f_equal. lia.
Qed.

(** ** Tokens *)

Lemma cstr_hd m p s1 s2 :
  cstr m p (s1 ++ s2) → m (p + Z.of_nat (length s1)) = hd 0 s2.
Proof. intros H%cstr_app. by destruct s2 as [|c s2]; simpl in *; [|destruct H]. Qed.

(** The prefix of a string becomes a string of its own when its end is zeroed. *)
Lemma cstr_cut m m' p s1 s2 :
  cstr m p (s1 ++ s2) →
  (∀ x, p ≤ x < p + Z.of_nat (length s1) → m' x = m x) →
  m' (p + Z.of_nat (length s1)) = 0 → cstr m' p s1.
Proof.
  revert p. induction s1 as [|c s1 IH]; intros p; simpl.
  - intros _ _. by rewrite Z.add_0_r.
  - intros (H1 & H2 & H3) Heq H0. split_and!; [rewrite Heq; [done|lia]|done|].
    apply IH; [done|intros x Hx; apply Heq; lia|].
    by replace (p + 1 + Z.of_nat (length s1)) with (p + Z.of_nat (S (length s1))) by lia.
Qed.

Lemma cstr_frame m m' p s :
  cstr m p s → (∀ x, p ≤ x ≤ p + Z.of_nat (length s) → m' x = m x) → cstr m' p s.
Proof.
  intros Hs Hx. eapply (cstr_cut m m' p s []); [by rewrite app_nil_r| |].
  - intros x H. apply Hx. lia.
  - rewrite Hx by lia. by apply cstr_nul.
Qed.

Lemma strpbrk_cstr fuel m s c S C :
  bytes_ok m → cstr m s S → cstr m c C →
  (length S + 1 < fuel)%nat → (length C < fuel)%nat →
  strpbrk fuel m s c = Done
    (if decide (drop_while (λ b, negb (in_set C b)) S = []) then NULL
     else s + Z.of_nat (length (take_while (λ b, negb (in_set C b)) S))).
Proof.
  intros Hm HS HC Hf Hf'. unfold strpbrk. rewrite (strcspn_cstr fuel m s c S C) by done. osimpl.
  rewrite <-(take_drop_while (λ b, negb (in_set C b)) S) in HS.
  rewrite (cstr_hd _ _ _ _ HS). pose proof (cstr_nonzero _ _ _ HS) as Hnz.
  destruct (drop_while _ S) as [|x l] eqn:E; simpl; [done|].
  apply Forall_app in Hnz as [_ Hnz]. inversion Hnz as [|? ? H0 _]; subst.
  apply negb_true_iff in H0. by rewrite H0.
Qed.

(** [strtok_r] on the value of the string: skip the delimiters, take the token,
    drop the delimiter that ends it. *)
Definition strtok (C S : list Z) : option (list Z * list Z) :=
  match drop_while (in_set C) S with
  | [] => None
  | S1 => Some (take_while (λ b, negb (in_set C b)) S1,
                drop 1 (drop_while (λ b, negb (in_set C b)) S1))
  end.

Definition strtok_r_post (m : mem) (p : Z) (S C : list Z) (r : mem * Z * Z) : Prop :=
  match strtok C S with
  | None => r = (m, NULL, p + Z.of_nat (length S))
  | Some (tok, rest) => ∃ m' t sv, r = (m', t, sv) ∧ t ≠ NULL ∧ bytes_ok m' ∧
      cstr m' t tok ∧ cstr m' sv rest ∧
      p ≤ t ∧ t + Z.of_nat (length tok) ≤ sv ∧
      sv + Z.of_nat (length rest) = p + Z.of_nat (length S) ∧
      (∀ x, x ≠ t + Z.of_nat (length tok) → m' x = m x)
  end.

Lemma strtok_r_cstr fuel m str delim saveptr S C :
  let p := if str =? NULL then saveptr else str in
  bytes_ok m → 0 < p → cstr m p S → cstr m delim C →
  (length S + 1 < fuel)%nat → (length C < fuel)%nat →
  ∃ r, strtok_r fuel m str delim saveptr = Done r ∧ strtok_r_post m p S C r.
Proof.
  intros p Hm Hp HS HC Hf Hf'. unfold strtok_r, strtok_r_post, strtok. fold p. cbv zeta.
  rewrite (strspn_cstr fuel m p delim S C) by done. osimpl.
  pose proof (take_drop_while (in_set C) S) as HSeq.
  pose proof (length_take_drop_while (in_set C) S) as Hlen.
  set (A := take_while (in_set C) S) in *.
  rewrite <-HSeq in HS. rewrite (cstr_hd _ _ _ _ HS).
  apply cstr_app in HS. destruct (drop_while (in_set C) S) as [|x S1'] eqn:E.
  { simpl. eexists; split; [done|]. simpl in Hlen. by replace (length A) with (length S) by lia. }
  set (S1 := x :: S1') in *. set (t := p + Z.of_nat (length A)) in *. simpl hd.
  pose proof (cstr_nonzero _ _ _ HS) as Hnz. apply Forall_cons in Hnz as [H0 _].
  apply negb_true_iff in H0. rewrite H0. clear H0.
  rewrite (strpbrk_cstr fuel m t delim S1 C) by (done || lia). osimpl.
  pose proof (take_drop_while (λ b, negb (in_set C b)) S1) as HS1.
  pose proof (length_take_drop_while (λ b, negb (in_set C b)) S1) as Hlen1.
  set (tok := take_while _ S1) in *. set (D := drop_while _ S1) in *.
  assert (t ≠ NULL) by (unfold NULL; lia).
  destruct (decide (D = [])) as [HD|HD].
  - rewrite HD in *. unfold lfind, strchr. simpl.
    rewrite (strchrnul_cstr fuel m t S1 0) by (done || lia).
    rewrite take_while_true by (by eapply cstr_nonzero). osimpl.
    rewrite cstr_nul by done. simpl. eexists; split; [done|].
    rewrite app_nil_r in HS1. exists m, t, (t + Z.of_nat (length S1)).
    rewrite HS1.
    split_and!; try done; try lia.
    by apply (cstr_nul m t S1).
  - assert (t + Z.of_nat (length tok) ≠ NULL) by (unfold NULL; lia).
    destruct (Z.eqb_spec (t + Z.of_nat (length tok)) NULL); [done|].
    eexists; split; [done|].
    destruct D as [|y D'] eqn:ED; [done|]. rewrite <-HS1 in HS.
    exists (upd m (t + Z.of_nat (length tok)) 0), t, (t + Z.of_nat (length tok) + 1).
    simpl drop. rewrite drop_0. simpl in Hlen1.
    assert (Hupd : ∀ x, x ≠ t + Z.of_nat (length tok) →
       upd m (t + Z.of_nat (length tok)) 0 x = m x).
    { intros z Hz. unfold upd. by destruct (Z.eqb_spec z (t + Z.of_nat (length tok))). }
    split_and!; try done; try lia.
    + by apply bytes_ok_upd.
    + eapply cstr_cut; [exact HS|intros z Hz; apply Hupd; lia|].
      unfold upd. by rewrite Z.eqb_refl.
    + apply cstr_app in HS. destruct HS as (_ & _ & HS).
      eapply cstr_frame; [exact HS|]. intros z Hz. apply Hupd. lia.
    + change (length S1) with (Datatypes.S (length S1')) in *. unfold t. lia.
Qed.

(** ** Bounded search *)

Section Memchr.
Context (m : mem) (src c n0 : Z).

(** The state of the scanning loops of [memchr]: [n] bytes are left, and none of
    those passed is [c]. *)
Definition scanned : Z * Z → Prop := λ '(s, n),
  src ≤ s ∧ s + n = src + n0 ∧ 0 ≤ n ∧ ∀ x, src ≤ x < s → m x ≠ c.

Lemma scanned_byte s n : scanned (s, n) → n ≠ 0 → m s ≠ c → scanned (s + 1, n - 1).
Proof.
  intros (H1 & H2 & H3 & H4) Hn Hc. split_and!; try lia.
  intros x Hx. destruct (decide (x = s)) as [->|]; [done|]. apply H4; lia.
Qed.

Lemma scanned_word s n :
  bytes_ok m → 0 ≤ c < 256 → scanned (s, n) → 8 ≤ n →
  HASZERO (Z.lxor (load 8 m s) (u64 (ONES * c))) = 0 → scanned (s + 8, n - 8).
Proof.
  intros Hm Hc (H1 & H2 & H3 & H4) Hn Hz. split_and!; try lia.
  intros x Hx. destruct (decide (x < s)); [apply H4; lia|].
  rewrite HASZERO_lxor_spec in Hz by done. replace x with (s + (x - s)) by lia. apply Hz. lia.
Qed.

Lemma memchr_scanned :
  bytes_ok m → 0 ≤ n0 → 0 ≤ c < 256 →
  ∃ s n, memchr m src c n0 = Done (if n =? 0 then NULL else s) ∧ scanned (s, n) ∧
    (n = 0 ∨ m s = c).
Proof.
  intros Hm Hn Hc. unfold memchr. rewrite u8_small by done.
  edestruct (loop_total (λ '(s, n),
      if negb (s mod ALIGN =? 0) && negb (n =? 0) && negb (m s =? c)
      then inl (s + 1, n - 1) else inr (s, n)) scanned (λ '(_, n), Z.to_nat n) scanned)
    as ([s n] & -> & HI); [|by split_and!; try lia|unfold upto; lia|].
  { intros [s n] HI. destruct (_ && _) eqn:E; [|done].
    rewrite !andb_true_iff, !negb_true_iff, !Z.eqb_neq in E. split; [by apply scanned_byte; naive_solver|].
    destruct HI; lia. }
  osimpl. destruct (negb (n =? 0) && negb (m s =? c)) eqn:E; cycle 1.
  { osimpl. exists s, n. split_and!; try done.
    rewrite andb_false_iff, !negb_false_iff, !Z.eqb_eq in E. done. }
  clear E. cbv zeta.
  edestruct (loop_total (λ '(w, n),
      if (8 <=? n) && (HASZERO (Z.lxor (load 8 m w) (u64 (ONES * c))) =? 0)
      then inl (w + 8, n - 8) else inr (w, n)) scanned (λ '(_, n), Z.to_nat n) scanned)
    as ([w n1] & -> & HI1); [|exact HI|unfold upto; lia|].
  { intros [w n1] HI1. destruct (_ && _) eqn:E1; [|done].
    apply andb_true_iff in E1 as [E1 E2]. apply Z.leb_le in E1. apply Z.eqb_eq in E2.
    split; [by apply scanned_word|lia]. }
  osimpl.
  edestruct (loop_total (λ '(s, n),
      if negb (n =? 0) && negb (m s =? c) then inl (s + 1, n - 1) else inr (s, n))
      scanned (λ '(_, n), Z.to_nat n) (λ '(s, n), scanned (s, n) ∧ (n = 0 ∨ m s = c)))
    as ([s2 n2] & -> & HI2 & Hend); [|exact HI1|unfold upto; lia|].
  { intros [s2 n2] HI2. destruct (_ && _) eqn:E2.
    - rewrite !andb_true_iff, !negb_true_iff, !Z.eqb_neq in E2.
      split; [by apply scanned_byte; naive_solver|]. destruct HI2; lia.
    - rewrite andb_false_iff, !negb_false_iff, !Z.eqb_eq in E2. done. }
  osimpl. eauto.
Qed.
End Memchr.

(** ** Comparison *)

(** Lexicographic order of strings of signed characters. *)
Fixpoint strcmp_ref (a b : list Z) : Z :=
  match a, b with
  | [], [] => 0
  | [], y :: _ => if 0 <? i8 y then -1 else 1
  | x :: _, [] => if i8 x <? 0 then -1 else 1
  | x :: a', y :: b' =>
      if i8 x <? i8 y then -1 else if i8 y <? i8 x then 1 else strcmp_ref a' b'
  end.

Lemma i8_inj x y : 0 ≤ x < 256 → 0 ≤ y < 256 → i8 x = i8 y → x = y.
Proof.
  unfold i8. change (2 ^ 7) with 128. change (2 ^ 8) with 256. intros Hx Hy H.
  pose proof (Z.div_mod (x + 128) 256). pose proof (Z.div_mod (y + 128) 256).
  assert ((x + 128) / 256 = 0 ∨ (x + 128) / 256 = 1) by (pose proof (Z.div_lt_upper_bound (x + 128) 256 2);
    pose proof (Z.div_pos (x + 128) 256); lia).
  assert ((y + 128) / 256 = 0 ∨ (y + 128) / 256 = 1) by (pose proof (Z.div_lt_upper_bound (y + 128) 256 2);
    pose proof (Z.div_pos (y + 128) 256); lia).
  lia.
Qed.

Lemma i8_0 x : 0 ≤ x < 256 → i8 x = 0 → x = 0.
Proof. intros Hx H. apply i8_inj; [done|lia|]. by rewrite H. Qed.

Lemma strcmp_ref_0 a b :
  Forall (λ c, 0 < c < 256) a → Forall (λ c, 0 < c < 256) b → strcmp_ref a b = 0 ↔ a = b.
Proof.
  intros Ha. revert b. induction Ha as [|x a Hx Ha IH]; intros b Hb;
    destruct Hb as [|y b Hy Hb]; simpl; try done.
  - destruct (0 <? i8 y); done.
  - destruct (i8 x <? 0); done.
  - destruct (Z.ltb_spec (i8 x) (i8 y)); [split; [done|intros [=]; subst; lia]|].
    destruct (Z.ltb_spec (i8 y) (i8 x)); [split; [done|intros [=]; subst; lia]|].
    assert (x = y) as -> by (apply i8_inj; lia). rewrite IH by done. naive_solver.
Qed.

Lemma strcmp_cstr_aux m a b : bytes_ok m → ∀ A B i fuel,
  cstr m (a + i) A → cstr m (b + i) B → 0 ≤ i → i + Z.of_nat (length A) < 2 ^ 32 →
  (length A < fuel)%nat →
  loop fuel (λ i,
    let x := i8 (m (a + i)) in
    let y := i8 (m (b + i)) in
    if x <? y then inr (-1)
    else if y <? x then inr 1
    else if x =? 0 then inr 0
    else inl (u32 (i + 1))) i = Done (strcmp_ref A B).
Proof.
  intros Hm A. induction A as [|x A IH]; intros B i fuel HA HB Hi Hl Hf;
    (destruct fuel as [|fuel]; [simpl in Hf; lia|]); cbn [loop].
  - simpl in HA. rewrite HA. change (i8 0) with 0. destruct B as [|y B]; simpl in HB.
    + rewrite HB. done.
    + destruct HB as (H1 & H2 & _). pose proof (Hm (b + i)). rewrite H1 in *.
      simpl. destruct (Z.ltb_spec 0 (i8 y)); [done|].
      destruct (Z.ltb_spec (i8 y) 0); [done|]. assert (y = 0); [|done].
      apply i8_0; lia.
  - destruct HA as (H1 & H2 & HA). pose proof (Hm (a + i)). rewrite H1 in *.
    assert (i8 x ≠ 0) by (intros E; apply i8_0 in E; lia).
    destruct B as [|y B].
    + simpl in HB. rewrite HB. change (i8 0) with 0. simpl.
      destruct (Z.ltb_spec (i8 x) 0); [done|]. destruct (Z.ltb_spec 0 (i8 x)); [done|lia].
    + destruct HB as (H1' & H2' & HB). rewrite H1'. cbn [strcmp_ref].
      destruct (Z.ltb_spec (i8 x) (i8 y)); [done|].
      destruct (Z.ltb_spec (i8 y) (i8 x)); [done|].
      destruct (Z.eqb_spec (i8 x) 0); [done|]. simpl length in *.
      rewrite u32_small by lia. apply IH; try lia; by rewrite Z.add_assoc.
Qed.

Lemma memset_spec m dest c n :
  0 ≤ n → ∃ m', memset m dest c n = Done m' ∧
    ∀ x, m' x = if (dest <=? x) && (x <? dest + n) then u8 c else m x.
Proof.
  intros Hn. unfold memset.
  refine (loop_total _ (λ '(m', i), 0 ≤ i ≤ n ∧
    ∀ x, m' x = if (dest <=? x) && (x <? dest + i) then u8 c else m x)
    (λ '(_, i), Z.to_nat (n - i)) _ _ _ _ _ _); [| |unfold upto; lia].
  - intros [m' i] [Hi Hx]. destruct (Z.ltb_spec i n).
    + split; [|lia]. split; [lia|]. intros x. unfold upd. rewrite Hx.
      bool_cases; simpl; done || lia.
    + assert (i = n) as -> by lia. done.
  - split; [lia|]. intros x. bool_cases; simpl; done || lia.
Qed.

(** ** The properties *)

(** A memory with a text at address 1000, for the examples. *)
Definition demo_mem (s : string) : mem := mem_of 1000 (str s).

Lemma mem_of_bytes_ok base bs :
  forallb (λ b, (0 <=? b) && (b <? 256)) bs = true → bytes_ok (mem_of base bs).
Proof.
  intros H a. unfold mem_of. destruct (base <=? a); [|lia].
  destruct (bs !! _) as [b|] eqn:E; simpl; [|lia].
  apply list_elem_of_lookup_2, list_elem_of_In in E. rewrite forallb_forall in H.
  specialize (H b E). lia.
Qed.

(** [memmove] copies the [n] bytes at [src] to [dest] and leaves every other
    byte alone, for any placement of the two blocks, overlapping or not, aligned
    or not. *)
Theorem memmove_correct m dest src n :
  bytes_ok m → 0 ≤ n →
  ∃ m', memmove m dest src n = Done m' ∧ bytes_ok m' ∧
    ∀ x, m' x = if (dest <=? x) && (x <? dest + n) then m (src + (x - dest)) else m x.
Proof.
  intros Hm Hn. unfold memmove. destruct (Z.eqb_spec dest src) as [->|Hne].
  { exists m. split_and!; [done..|]. intros x. bool_cases; simpl; try done. f_equal; lia. }
  destruct (_ || _) eqn:Hov.
  { rewrite orb_true_iff, !Z.leb_le in Hov. apply memcpy_copied; [done..|].
    unfold fwd_ok. lia. }
  destruct (Z.ltb_spec dest src).
  - apply memmove_forward_copied; [done..|lia].
  - apply memmove_backward_copied; [done..|lia].
Qed.

Lemma memmove_correct_witness :
  ∃ m', memmove (demo_mem "overlapping") 1003 1000 8 = Done m' ∧ bytes_ok m' ∧
    ∀ x, m' x = if (1003 <=? x) && (x <? 1011) then demo_mem "overlapping" (1000 + (x - 1003))
                else demo_mem "overlapping" x.
Proof. apply memmove_correct; [by apply mem_of_bytes_ok|lia]. Defined.

(** C40: [strlen], which reads a word at a time after its alignment loop and tests
    it with [HASZERO], returns the length of the C string at [p]. *)
Theorem strlen_correct fuel m p s :
  bytes_ok m → cstr m p s → (length s + 1 < fuel)%nat →
  strlen fuel m p = Done (Z.of_nat (length s)).
Proof. apply strlen_cstr. Qed.

Lemma strlen_correct_witness :
  strlen 40 (demo_mem "a string of 25 characters") 1000 = Done 25.
Proof.
  apply (strlen_correct 40 (demo_mem "a string of 25 characters") 1000
    (str "a string of 25 characters")).
  - by apply mem_of_bytes_ok.
  - vm_compute. repeat split; discriminate.
  - simpl. lia.
Defined.

(** [memchr], which tests whole words with [HASZERO (w ^ k)], returns the
    first occurrence of the byte among the [n] bytes at [src], and [NULL] when
    there is none. *)
Theorem memchr_correct m src c n :
  bytes_ok m → 0 ≤ n → 0 ≤ c < 256 →
  (∀ q, first_at m (λ b, b =? c) src q → q < src + n → memchr m src c n = Done q) ∧
  ((∀ x, src ≤ x < src + n → m x ≠ c) → memchr m src c n = Done NULL).
Proof.
  intros Hm Hn Hc. destruct (memchr_scanned m src c n Hm Hn Hc)
    as (s & n1 & -> & (H1 & H2 & H3 & H4) & Hend). split.
  - intros q (Q1 & Q2 & Q3) Hq. apply Z.eqb_eq in Q2.
    assert (s ≤ q) by (destruct (decide (q < s)); [destruct (H4 q); [lia|done]|lia]).
    destruct (Z.eqb_spec n1 0); [lia|]. f_equal. destruct Hend as [|Hend]; [done|].
    destruct (decide (s < q)); [|lia]. specialize (Q3 s ltac:(lia)). by apply Z.eqb_neq in Q3.
  - intros Hnone. destruct (Z.eqb_spec n1 0); [done|].
    destruct Hend; [done|]. destruct (Hnone s); [lia|done].
Qed.

Lemma memchr_correct_witness :
  (∀ q, first_at (demo_mem "find the letter q") (λ b, b =? 113) 1000 q → q < 1000 + 17 →
     memchr (demo_mem "find the letter q") 1000 113 17 = Done q) ∧
  ((∀ x, 1000 ≤ x < 1000 + 17 → demo_mem "find the letter q" x ≠ 113) →
     memchr (demo_mem "find the letter q") 1000 113 17 = Done NULL).
Proof. apply memchr_correct; [by apply mem_of_bytes_ok|lia|lia]. Defined.

(** [strtok_r] implements the tokenizer [strtok] on strings: it returns the
    first maximal run of non-delimiters, terminated in place by overwriting one
    delimiter, leaves the save pointer at the rest of the string, changes no
    other byte, and returns [NULL] when only delimiters are left. *)
Theorem strtok_r_refines fuel m str delim saveptr S C :
  let p := if str =? NULL then saveptr else str in
  bytes_ok m → 0 < p → cstr m p S → cstr m delim C →
  (length S + 1 < fuel)%nat → (length C < fuel)%nat →
  ∃ r, strtok_r fuel m str delim saveptr = Done r ∧ strtok_r_post m p S C r.
Proof. apply strtok_r_cstr. Qed.

Lemma strtok_r_refines_witness :
  let m := λ a, if a =? 500 then 47 else demo_mem "/usr/bin" a in
  ∃ r, strtok_r 40 m 1000 500 0 = Done r ∧ strtok_r_post m 1000 (Prelude.str "/usr/bin") [47] r.
Proof.
  intros m. apply (strtok_r_refines 40 m 1000 500 0 (Prelude.str "/usr/bin") [47]).
  - intros a. unfold m. destruct (a =? 500); [lia|]. by apply (mem_of_bytes_ok 1000 (Prelude.str "/usr/bin")).
  - done.
  - vm_compute. repeat split; discriminate.
  - vm_compute. repeat split; discriminate.
  - simpl. lia.
  - simpl. lia.
Defined.

(** [strcmp] compares strings of less than [2^32] characters in the
    lexicographic order of signed characters, and returns 0 exactly on equal
    strings. *)
Theorem strcmp_correct fuel m a b A B :
  bytes_ok m → cstr m a A → cstr m b B →
  Z.of_nat (length A) < 2 ^ 32 → (length A < fuel)%nat →
  strcmp fuel m a b = Done (strcmp_ref A B) ∧ (strcmp_ref A B = 0 ↔ A = B).
Proof.
  intros Hm HA HB Hl Hf. split.
  - apply strcmp_cstr_aux; try rewrite Z.add_0_r; done || lia.
  - apply strcmp_ref_0; by eapply cstr_bytes.
Qed.

Lemma strcmp_correct_witness :
  strcmp 40 (mem_of 1000 (str "kernel" ++ [0] ++ str "kerning")) 1000 1007 = Done (-1) ∧
  (strcmp_ref (str "kernel") (str "kerning") = 0 ↔ str "kernel" = str "kerning").
Proof.
  apply (strcmp_correct 40 (mem_of 1000 (str "kernel" ++ [0] ++ str "kerning")) 1000 1007
    (str "kernel") (str "kerning")).
  - by apply mem_of_bytes_ok.
  - vm_compute. repeat split; discriminate.
  - vm_compute. repeat split; discriminate.
  - vm_compute. done.
  - simpl. lia.
Defined.
