(* ===== verification/KList.v ===== *)
(** * Doubly-linked lists ([src/kernel/misc/list.c])

    The heap holds the [node_t] and [list_t] structures by address; reading or
    writing a structure that is not there (a null or freed pointer) is a [Fault].
    Every operation is translated with its reads and writes in the order of the
    code.  [is_list h l xs] relates the list header at [l] to the sequence [xs] of
    its nodes' addresses and values; the theorems show that each operation
    implements the corresponding operation on sequences and leaves every other
    node and list alone. *)
From S2P Require Import Prelude.
Local Open Scope Z_scope.

(** ** Data *)

Record node_t : Type := Node {
  next : Z;
  prev : Z;
  value : Z;
  owner : Z
}.

Record list_t : Type := List {
  head : Z;
  tail : Z;
  length_ : Z;
  name : list Z;
  metadata : Z
}.

(** [freed] records the blocks that are not nodes or lists and were passed to
    [free], latest first. *)
Record heap : Type := Heap {
  nodes : gmap Z node_t;
  lists : gmap Z list_t;
  freed : list Z
}.

Definition used (h : heap) : gset Z := dom (nodes h) ∪ dom (lists h).

Definition with_next (n : node_t) (v : Z) : node_t := Node v (prev n) (value n) (owner n).
Definition with_prev (n : node_t) (v : Z) : node_t := Node (next n) v (value n) (owner n).
Definition with_value (n : node_t) (v : Z) : node_t := Node (next n) (prev n) v (owner n).
Definition with_owner (n : node_t) (v : Z) : node_t := Node (next n) (prev n) (value n) v.

Definition with_head (l : list_t) (v : Z) : list_t := List v (tail l) (length_ l) (name l) (metadata l).
Definition with_tail (l : list_t) (v : Z) : list_t := List (head l) v (length_ l) (name l) (metadata l).
Definition with_length (l : list_t) (v : Z) : list_t := List (head l) (tail l) v (name l) (metadata l).

Definition set_nodes (h : heap) (ns : gmap Z node_t) : heap := Heap ns (lists h) (freed h).
Definition set_lists (h : heap) (ls : gmap Z list_t) : heap := Heap (nodes h) ls (freed h).

Definition rd_node (p : Z) : St heap node_t := λ h,
  match nodes h !! p with Some n => Done (n, h) | None => Fault end.
Definition rd_list (l : Z) : St heap list_t := λ h,
  match lists h !! l with Some x => Done (x, h) | None => Fault end.
Definition wr_node (p : Z) (f : node_t → node_t) : St heap unit := λ h,
  match nodes h !! p with
  | Some n => Done (tt, set_nodes h (alter f p (nodes h)))
  | None => Fault
  end.
Definition wr_list (l : Z) (f : list_t → list_t) : St heap unit := λ h,
  match lists h !! l with
  | Some x => Done (tt, set_lists h (alter f l (lists h)))
  | None => Fault
  end.

(** [list->length++] and [list->length--] on a [size_t]. *)
Definition length_inc (l : list_t) : list_t := with_length l (u64 (length_ l + 1)).
Definition length_dec (l : list_t) : list_t := with_length l (u64 (length_ l - 1)).

Definition free_value (v : Z) : St heap unit :=
  modify (λ h, Heap (nodes h) (lists h) (v :: freed h)).
Definition free_node (p : Z) : St heap unit := λ h,
  match nodes h !! p with
  | Some _ => Done (tt, set_nodes h (delete p (nodes h)))
  | None => Fault
  end.
Definition free_list_t (l : Z) : St heap unit := λ h,
  match lists h !! l with
  | Some _ => Done (tt, set_lists h (delete l (lists h)))
  | None => Fault
  end.

Section Ops.
Context `{!Malloc}.

Definition malloc_node (n : node_t) : St heap Z := λ h,
  let p := malloc (used h) in
  Done (p, set_nodes h (<[p := n]> (nodes h))).
Definition malloc_list (x : list_t) : St heap Z := λ h,
  let p := malloc (used h) in
  Done (p, set_lists h (<[p := x]> (lists h))).

(** ** Operations *)

Definition list_destroy (fuel : nat) (list : Z) : St heap unit :=
  l ← rd_list list;
  loopM fuel (λ n,
    if n =? NULL then mret (inr tt)
    else x ← rd_node n; free_value (value x);; mret (inl (next x))) (head l).

Definition list_free (fuel : nat) (list : Z) : St heap unit :=
  l ← rd_list list;
  loopM fuel (λ n,
    if n =? NULL then mret (inr tt)
    else x ← rd_node n; let s := next x in free_node n;; mret (inl s)) (head l).

Definition list_append (list node : Z) : St heap unit :=
  wr_node node (λ n, with_next n NULL);;
  wr_node node (λ n, with_owner n list);;
  l ← rd_list list;
  if length_ l =? 0 then
    wr_list list (λ l, with_head l node);;
    wr_list list (λ l, with_tail l node);;
    wr_node node (λ n, with_prev n NULL);;
    wr_node node (λ n, with_next n NULL);;
    wr_list list length_inc
  else
    wr_node (tail l) (λ n, with_next n node);;
    wr_node node (λ n, with_prev n (tail l));;
    wr_list list (λ l, with_tail l node);;
    wr_list list length_inc.

Definition list_insert (list item : Z) : St heap Z :=
  node ← malloc_node (Node NULL NULL item NULL);
  list_append list node;;
  mret node.

Definition list_append_after (list before node : Z) : St heap unit :=
  wr_node node (λ n, with_owner n list);;
  l ← rd_list list;
  if length_ l =? 0 then list_append list node
  else if before =? NULL then
    wr_node node (λ n, with_next n (head l));;
    wr_node node (λ n, with_prev n NULL);;
    wr_node (head l) (λ n, with_prev n node);;
    wr_list list (λ l, with_head l node);;
    wr_list list length_inc
  else
    (if before =? tail l then wr_list list (λ l, with_tail l node)
     else
       b ← rd_node before;
       wr_node (next b) (λ n, with_prev n node);;
       b ← rd_node before;
       wr_node node (λ n, with_next n (next b)));;
    wr_node node (λ n, with_prev n before);;
    wr_node before (λ n, with_next n node);;
    wr_list list length_inc.

Definition list_insert_after (list before item : Z) : St heap Z :=
  node ← malloc_node (Node NULL NULL item NULL);
  list_append_after list before node;;
  mret node.

Definition list_append_before (list after node : Z) : St heap unit :=
  wr_node node (λ n, with_owner n list);;
  l ← rd_list list;
  if length_ l =? 0 then list_append list node
  else if after =? NULL then
    wr_node node (λ n, with_next n NULL);;
    wr_node node (λ n, with_prev n (tail l));;
    wr_node (tail l) (λ n, with_next n node);;
    wr_list list (λ l, with_tail l node);;
    wr_list list length_inc
  else
    (if after =? head l then wr_list list (λ l, with_head l node)
     else
       a ← rd_node after;
       wr_node (prev a) (λ n, with_next n node);;
       a ← rd_node after;
       wr_node node (λ n, with_prev n (prev a)));;
    wr_node node (λ n, with_next n after);;
    wr_node after (λ n, with_prev n node);;
    wr_list list length_inc.

Definition list_insert_before (list after item : Z) : St heap Z :=
  node ← malloc_node (Node NULL NULL item NULL);
  list_append_before list after node;;
  mret node.

Definition list_create (nm : list Z) (md : Z) : St heap Z :=
  malloc_list (List NULL NULL 0 nm md).

Definition list_find (fuel : nat) (list v : Z) : St heap Z :=
  l ← rd_list list;
  loopM fuel (λ item,
    if item =? NULL then mret (inr NULL)
    else x ← rd_node item;
         if value x =? v then mret (inr item) else mret (inl (next x))) (head l).

Definition list_index_of (fuel : nat) (list v : Z) : St heap Z :=
  l ← rd_list list;
  loopM fuel (λ '(item, i),
    if item =? NULL then mret (inr (-1))
    else x ← rd_node item;
         if value x =? v then mret (inr i) else mret (inl (next x, i32 (i + 1)))) (head l, 0).

Definition list_index (fuel : nat) (list index : Z) : St heap Z :=
  l ← rd_list list;
  loopM fuel (λ '(item, i),
    if item =? NULL then mret (inr NULL)
    else x ← rd_node item;
         if i =? index then mret (inr (value x)) else mret (inl (next x, i32 (i + 1)))) (head l, 0).

Definition list_delete (list node : Z) : St heap unit :=
  l ← rd_list list;
  (if node =? head l then x ← rd_node node; wr_list list (λ l, with_head l (next x)) else mret tt);;
  l ← rd_list list;
  (if node =? tail l then x ← rd_node node; wr_list list (λ l, with_tail l (prev x)) else mret tt);;
  x ← rd_node node;
  (if negb (prev x =? NULL) then wr_node (prev x) (λ n, with_next n (next x)) else mret tt);;
  x ← rd_node node;
  (if negb (next x =? NULL) then wr_node (next x) (λ n, with_prev n (prev x)) else mret tt);;
  wr_node node (λ n, with_prev n NULL);;
  wr_node node (λ n, with_next n NULL);;
  wr_node node (λ n, with_owner n NULL);;
  wr_list list length_dec.

Definition list_remove (fuel : nat) (list index : Z) : St heap unit :=
  l ← rd_list list;
  if length_ l <? index then mret tt
  else
    n ← loopM fuel (λ '(n, i),
          if i <? index then x ← rd_node n; mret (inl (next x, i + 1))
          else mret (inr n)) (head l, 0);
    list_delete list n.

Definition list_pop (list : Z) : St heap Z :=
  l ← rd_list list;
  if tail l =? NULL then mret NULL
  else let out := tail l in list_delete list out;; mret out.

Definition list_dequeue (list : Z) : St heap Z :=
  l ← rd_list list;
  if head l =? NULL then mret NULL
  else let out := head l in list_delete list out;; mret out.

Definition list_copy (fuel : nat) (original : Z) : St heap Z :=
  l ← rd_list original;
  out ← list_create (name l) (metadata l);
  loopM fuel (λ node,
    if node =? NULL then mret (inr tt)
    else x ← rd_node node; list_insert out (value x);; mret (inl node)) (head l);;
  mret out.

Definition list_merge (fuel : nat) (target source : Z) : St heap unit :=
  s ← rd_list source;
  loopM fuel (λ node,
    if node =? NULL then mret (inr tt)
    else wr_node node (λ n, with_owner n target);;
         x ← rd_node node; mret (inl (next x))) (head s);;
  s ← rd_list source;
  t ← rd_list target;
  (if negb (head s =? NULL) then wr_node (head s) (λ n, with_prev n (tail t)) else mret tt);;
  (if negb (tail t =? NULL) then wr_node (tail t) (λ n, with_next n (head s))
   else wr_list target (λ l, with_head l (head s)));;
  s ← rd_list source;
  (if negb (tail s =? NULL) then wr_list target (λ l, with_tail l (tail s)) else mret tt);;
  s ← rd_list source;
  wr_list target (λ l, with_length l (u64 (length_ l + length_ s)));;
  free_list_t source.
End Ops.

(** ** Segments

    [dseg ns o pp p xs q qn]: from node [p], following [next], the nodes [xs] of
    the list [o]; the first one's predecessor is [pp], the last one is [q] and its
    successor is [qn] (for the empty segment [p = qn] and [pp = q]). *)
Fixpoint dseg (ns : gmap Z node_t) (o pp p : Z) (xs : list (Z * Z)) (q qn : Z) : Prop :=
  match xs with
  | [] => p = qn ∧ pp = q
  | (a, v) :: xs' =>
      p = a ∧ a ≠ NULL ∧ ∃ nx, ns !! a = Some (Node nx pp v o) ∧ dseg ns o a nx xs' q qn
  end.

Definition is_list (h : heap) (l : Z) (xs : list (Z * Z)) : Prop :=
  ∃ x, lists h !! l = Some x ∧ length_ x = Z.of_nat (length xs) ∧
    Z.of_nat (length xs) < 2 ^ 64 ∧ NoDup xs.*1 ∧
    dseg (nodes h) l NULL (head x) xs (tail x) NULL.

(** [h'] differs from [h] at most on the nodes [X] and the lists [L]. *)
Definition frame (h h' : heap) (X L : list Z) : Prop :=
  (∀ p, p ∉ X → nodes h' !! p = nodes h !! p) ∧
  (∀ l, l ∉ L → lists h' !! l = lists h !! l) ∧ freed h' = freed h.

Lemma dseg_ext ns ns' o pp p xs q qn :
  (∀ a, a ∈ xs.*1 → ns' !! a = ns !! a) →
  dseg ns o pp p xs q qn → dseg ns' o pp p xs q qn.
Proof.
  revert pp p. induction xs as [|[a v] xs IH]; intros pp p Heq; simpl; [done|].
  intros (-> & Ha & nx & Hn & Hs). split_and!; [done..|]. exists nx.
  split; [rewrite Heq; [done|set_solver]|]. apply IH; [|done]. intros b Hb. apply Heq. set_solver.
Qed.

Lemma dseg_app ns o pp p xs ys q qn :
  dseg ns o pp p (xs ++ ys) q qn ↔
  ∃ j jn, dseg ns o pp p xs j jn ∧ dseg ns o j jn ys q qn.
Proof.
  revert pp p. induction xs as [|[a v] xs IH]; intros pp p; simpl.
  - split; [intros H; exists pp, p; done|]. by intros (j & jn & [-> ->] & H).
  - setoid_rewrite IH. naive_solver.
Qed.

Lemma dseg_null ns o pp p xs q : dseg ns o pp p xs q NULL → p = NULL ↔ xs = [].
Proof. destruct xs as [|[a v] xs]; simpl; [naive_solver|]. naive_solver. Qed.

Lemma dseg_snoc ns o pp p xs a v q qn :
  dseg ns o pp p (xs ++ [(a, v)]) q qn ↔
  q = a ∧ a ≠ NULL ∧ ∃ j, dseg ns o pp p xs j a ∧ ns !! a = Some (Node qn j v o).
Proof.
  rewrite dseg_app. simpl. split.
  - intros (j & jn & H1 & -> & Ha & nx & Hn & -> & ->). eauto 10.
  - intros (-> & Ha & j & H1 & Hn). exists j, a. eauto 10.
Qed.

Lemma dseg_null_last ns o p xs q qn : dseg ns o NULL p xs q qn → q = NULL ↔ xs = [].
Proof.
  destruct xs as [|[a v] xs _] using rev_ind; [simpl; naive_solver|].
  intros (-> & Ha & _)%dseg_snoc. split; [done|]. intros H. by destruct xs.
Qed.

Lemma dseg_node ns o pp p xs q qn a v :
  dseg ns o pp p xs q qn → (a, v) ∈ xs →
  a ≠ NULL ∧ ∃ nx pv, ns !! a = Some (Node nx pv v o).
Proof.
  revert pp p. induction xs as [|[b w] xs IH]; intros pp p; simpl; [set_solver|].
  intros (-> & Hb & nx & Hn & Hs) [[= -> ->]|Hin]%elem_of_cons; eauto.
Qed.

Lemma dseg_last_in ns o pp p xs q qn :
  dseg ns o pp p xs q qn → xs ≠ [] → q ∈ xs.*1.
Proof.
  destruct xs as [|[a v] xs _] using rev_ind; [done|].
  intros (-> & _)%dseg_snoc _. rewrite fmap_app. set_solver.
Qed.

(** Pointing the last node of a segment to a new successor. *)
Lemma dseg_relink_next ns o pp p xs q qn qn' :
  NoDup xs.*1 → dseg ns o pp p xs q qn → xs ≠ [] →
  dseg (alter (λ n, with_next n qn') q ns) o pp p xs q qn'.
Proof.
  destruct xs as [|[a v] xs _] using rev_ind; [done|]. intros Hnd Hs _.
  rewrite dseg_snoc in Hs |- *. destruct Hs as (-> & Ha & j & Hs & Hn).
  rewrite fmap_app in Hnd. apply NoDup_app in Hnd as (_ & Hnd & _).
  split_and!; [done..|]. exists j. split.
  - eapply dseg_ext; [|exact Hs]. intros b Hb. apply lookup_alter_ne. set_solver.
  - by rewrite lookup_alter_eq, Hn.
Qed.

(** Pointing the first node of a segment to a new predecessor. *)
Lemma dseg_relink_prev ns o pp p xs q qn pp' :
  NoDup xs.*1 → dseg ns o pp p xs q qn → xs ≠ [] →
  dseg (alter (λ n, with_prev n pp') p ns) o pp' p xs q qn.
Proof.
  destruct xs as [|[a v] xs]; [done|]. simpl. intros [Hni Hnd]%NoDup_cons (-> & Ha & nx & Hn & Hs) _.
  split_and!; [done..|]. exists nx. split; [by rewrite lookup_alter_eq, Hn|].
  eapply dseg_ext; [|exact Hs]. intros b Hb. apply lookup_alter_ne. set_solver.
Qed.

(** ** Symbolic execution *)

Lemma rd_node_eq h p n : nodes h !! p = Some n → rd_node p h = Done (n, h).
Proof. unfold rd_node. by intros ->. Qed.
Lemma rd_list_eq h l x : lists h !! l = Some x → rd_list l h = Done (x, h).
Proof. unfold rd_list. by intros ->. Qed.
Lemma wr_node_eq h p f n :
  nodes h !! p = Some n → wr_node p f h = Done (tt, set_nodes h (alter f p (nodes h))).
Proof. unfold wr_node. by intros ->. Qed.
Lemma wr_list_eq h l f x :
  lists h !! l = Some x → wr_list l f h = Done (tt, set_lists h (alter f l (lists h))).
Proof. unfold wr_list. by intros ->. Qed.

Ltac look := simpl; simplify_map_eq; try done; eauto.

(** Split non-membership hypotheses, and tell two addresses apart. *)
Ltac split_notin :=
  repeat match goal with
  | H : _ ∉ _ :: _ |- _ => apply not_elem_of_cons in H as [? ?]
  | H : _ ∉ _ ++ _ |- _ => apply not_elem_of_app in H as [? ?]
  | H : context [fst (_, _)] |- _ => cbn [fst] in H
  end.
Ltac ne :=
  first [ congruence
        | let E := fresh in intros E; rewrite E in *; contradiction
        | let E := fresh in intros E; rewrite <-E in *; contradiction ].

(** Run one read or write; the structure is found by rewriting lookups. *)
Ltac run :=
  cbv beta;
  lazymatch goal with
  | |- context [(wr_node _ _ ≫= _) _] => erewrite St_bind_done; [|eapply wr_node_eq; look]
  | |- context [(wr_list _ _ ≫= _) _] => erewrite St_bind_done; [|eapply wr_list_eq; look]
  | |- context [(rd_node _ ≫= _) _] => erewrite St_bind_done; [|eapply rd_node_eq; look]
  | |- context [(rd_list _ ≫= _) _] => erewrite St_bind_done; [|eapply rd_list_eq; look]
  | |- context [wr_list _ _ _] => erewrite wr_list_eq; [|look]
  | |- context [wr_node _ _ _] => erewrite wr_node_eq; [|look]
  end.

(** The header of the modified list. *)
Ltac header Hl := simpl; rewrite ?lookup_alter_eq, Hl; reflexivity.

Lemma frame_alter_refl h : frame h h [] [].
Proof. done. Qed.

Lemma list_append_spec h l xs node nx pv v o :
  is_list h l xs → nodes h !! node = Some (Node nx pv v o) → node ≠ NULL →
  node ∉ xs.*1 → Z.of_nat (length xs) + 1 < 2 ^ 64 →
  ∃ h', list_append l node h = Done (tt, h') ∧ is_list h' l (xs ++ [(node, v)]) ∧
    frame h h' (node :: xs.*1) [l].
Proof.
  intros (x & Hl & Hlen & Hb & Hnd & Hs) Hn Hnn Hni Hroom. unfold list_append.
  do 3 run. destruct (Z.eqb_spec (length_ x) 0) as [E|E].
  - destruct xs; [|simpl in Hlen; lia].
    do 5 run. eexists; split; [done|]. split.
    + eexists. split_and!; [header Hl|..]; simpl.
      * by rewrite E.
      * lia.
      * by apply NoDup_singleton.
      * split_and!; [done..|]. exists NULL. split; [|done].
        by rewrite !lookup_alter_eq, Hn.
    + split_and!; [..|done]; simpl; intros p Hp; split_notin;
        rewrite !lookup_alter_ne by ne; done.
  - destruct xs as [|[t tv] xs _] using rev_ind; [simpl in Hlen; lia|].
    rewrite dseg_snoc in Hs. destruct Hs as (Ht & Htn & j & Hs & Hnt). rewrite Ht in *.
    assert (node ≠ t) by (rewrite fmap_app in Hni; set_solver).
    do 4 run. eexists; split; [done|]. split.
    + eexists. split_and!; [header Hl|..]; simpl.
      * rewrite Hlen, u64_small, !length_app by (rewrite !length_app in *; simpl in *; lia).
        simpl. lia.
      * rewrite !length_app in *. simpl in *. lia.
      * rewrite fmap_app. apply NoDup_app. split_and!; [done|set_solver|apply NoDup_singleton].
      * apply dseg_snoc. split_and!; [done..|]. exists t. split.
        -- apply dseg_snoc. split_and!; [done..|]. exists j. split; [|by rewrite lookup_alter_ne, lookup_alter_eq, !lookup_alter_ne, Hnt].
           eapply dseg_ext; [|exact Hs]. intros b Hb'.
           rewrite fmap_app in Hnd, Hni. apply NoDup_app in Hnd as (_ & Hnd & _).
           assert (b ≠ t) by (intros ->; apply (Hnd t Hb'), list_elem_of_singleton; done).
           split_notin. rewrite !lookup_alter_ne by ne. done.
        -- by rewrite lookup_alter_eq, lookup_alter_ne, !lookup_alter_eq, Hn.
    + rewrite fmap_app. split_and!; [..|done]; simpl; intros p Hp; split_notin;
        rewrite !lookup_alter_ne by ne; done.
Qed.

(** Lookups in updated heaps, by cases on the addresses. *)
Ltac alters :=
  repeat (rewrite lookup_alter; case_decide); simplify_eq/=; try done; try set_solver.

Ltac lk H :=
  simpl; repeat (first [rewrite lookup_alter_eq | rewrite lookup_alter_ne by congruence]);
  rewrite H; done.

Ltac solve_frame :=
  split_and!; [..|done]; simpl; intros ? ?; rewrite ?fmap_app, ?fmap_cons in *; split_notin;
  rewrite ?lookup_alter_ne by ne; done.

(** A node in the middle of a list, with what surrounds it. *)
Lemma dseg_middle ns o pp p xs1 a v xs2 q qn :
  dseg ns o pp p (xs1 ++ (a, v) :: xs2) q qn ↔
  a ≠ NULL ∧ ∃ pa na, dseg ns o pp p xs1 pa a ∧ ns !! a = Some (Node na pa v o) ∧
    dseg ns o a na xs2 q qn.
Proof.
  rewrite dseg_app. simpl. split.
  - intros (j & jn & H1 & -> & Ha & nx & Hn & H2). eauto 10.
  - intros (Ha & pa & na & H1 & Hn & H2). eauto 12.
Qed.

Lemma nodup_middle (xs1 : list (Z * Z)) a v xs2 :
  NoDup (xs1 ++ (a, v) :: xs2).*1 ↔
  NoDup xs1.*1 ∧ NoDup xs2.*1 ∧ a ∉ xs1.*1 ∧ a ∉ xs2.*1 ∧ (∀ b, b ∈ xs1.*1 → b ∉ xs2.*1).
Proof.
  rewrite fmap_app. simpl. rewrite NoDup_app, NoDup_cons.
  split; [intros (H1 & H2 & H3 & H4); split_and!; try done; set_solver|].
  intros (H1 & H2 & H3 & H4 & H5). split_and!; try done; set_solver.
Qed.

Lemma dseg_tail_middle ns o p xs1 a v xs2 q qn :
  NoDup (xs1 ++ (a, v) :: xs2).*1 → dseg ns o NULL p (xs1 ++ (a, v) :: xs2) q qn →
  a = q ↔ xs2 = [].
Proof.
  intros (_ & _ & _ & Hn & _)%nodup_middle (Ha & pa & na & _ & _ & H)%dseg_middle. split.
  - intros ->. destruct (decide (xs2 = [])) as [|Hne]; [done|].
    apply dseg_last_in in H; [done|done].
  - intros ->. by destruct H.
Qed.

Lemma dseg_head_middle ns o p xs1 a v xs2 q qn :
  NoDup (xs1 ++ (a, v) :: xs2).*1 → dseg ns o NULL p (xs1 ++ (a, v) :: xs2) q qn →
  a = p ↔ xs1 = [].
Proof.
  intros (_ & _ & Hn & _)%nodup_middle (Ha & pa & na & H & _)%dseg_middle. split.
  - intros ->. destruct xs1 as [|[b w] xs1]; [done|]. destruct H as (-> & _). set_solver.
  - intros ->. by destruct H.
Qed.

Lemma list_append_after_spec h l xs1 b bv xs2 node v o :
  is_list h l (xs1 ++ (b, bv) :: xs2) → nodes h !! node = Some (Node NULL NULL v o) →
  node ≠ NULL → node ∉ (xs1 ++ (b, bv) :: xs2).*1 →
  Z.of_nat (length (xs1 ++ (b, bv) :: xs2)) + 1 < 2 ^ 64 →
  ∃ h', list_append_after l b node h = Done (tt, h') ∧
    is_list h' l (xs1 ++ (b, bv) :: (node, v) :: xs2) ∧
    frame h h' (node :: (xs1 ++ (b, bv) :: xs2).*1) [l].
Proof.
  intros (x & Hl & Hlen & Hb & Hnd & Hs) Hn Hnn Hni Hroom. unfold list_append_after.
  pose proof (dseg_tail_middle _ _ _ _ _ _ _ _ _ Hnd Hs) as Htail.
  apply dseg_middle in Hs as (Hbn & pb & nb & S1 & Hnb & S2).
  pose proof Hnd as (N1 & N2 & N3 & N4 & N5)%nodup_middle.
  rewrite fmap_app, fmap_cons in Hni. split_notin.
  assert (b ≠ node) by congruence.
  do 2 run. destruct (Z.eqb_spec (length_ x) 0) as [E|E].
  { rewrite Hlen, length_app in E. simpl in E. lia. }
  destruct (Z.eqb_spec b NULL) as [|_]; [done|].
  assert (Hfin : ∀ h', lists h' !! l = Some (List (head x) (if decide (xs2 = []) then node else tail x)
      (u64 (length_ x + 1)) (name x) (metadata x)) →
    nodes h' !! node = Some (Node nb b v l) → nodes h' !! b = Some (Node node pb bv l) →
    (∀ a, a ∈ xs1.*1 → nodes h' !! a = nodes h !! a) →
    dseg (nodes h') l node nb xs2 (if decide (xs2 = []) then node else tail x) NULL →
    is_list h' l (xs1 ++ (b, bv) :: (node, v) :: xs2)).
  { intros h' G1 G2 G3 G4 G5. eexists. split_and!; [exact G1|..]; simpl.
    - rewrite Hlen, u64_small by lia. rewrite !length_app. simpl. lia.
    - rewrite !length_app in *. simpl in *. lia.
    - apply nodup_middle. rewrite fmap_cons, NoDup_cons. simpl. split_and!; try done.
      + by apply not_elem_of_cons.
      + intros a Ha. apply not_elem_of_cons. split; [ne|by apply N5].
    - apply dseg_middle. split; [done|]. exists pb, node. split_and!; [|done|].
      + by eapply dseg_ext.
      + simpl. split_and!; [done..|]. eauto. }
  destruct (Z.eqb_spec b (tail x)) as [Et|Et].
  - assert (xs2 = []) as -> by (by apply Htail). destruct S2 as [-> _].
    erewrite St_bind_done; [|eapply wr_list_eq; look]. do 3 run.
    eexists; split; [done|]. split; [|solve_frame].
    apply Hfin; [header Hl|..]; simpl.
    + lk Hn.
    + lk Hnb.
    + intros a Ha. by rewrite !lookup_alter_ne by ne.
    + done.
  - assert (xs2 ≠ []) as Hne by (intros E2; by apply Et, Htail).
    destruct xs2 as [|[c w] xs2]; [done|].
    pose proof S2 as (-> & Hcn & nc & Hnc & S3).
    rewrite fmap_cons in *. split_notin.
    assert (b ≠ c) by congruence. assert (node ≠ c) by congruence.
    erewrite St_bind_done; cycle 1.
    { do 3 run. erewrite wr_node_eq; [done|]. simpl.
      lk Hn. }
    do 3 run. eexists; split; [done|]. split; [|solve_frame].
    apply Hfin; [header Hl|..]; simpl.
    + lk Hn.
    + lk Hnb.
    + intros a Ha. assert (c ≠ a) by (intros ->; apply (N5 a Ha); constructor).
      by rewrite !lookup_alter_ne by ne.
    + split_and!; [done..|]. exists nc. split.
      * lk Hnc.
      * eapply dseg_ext; [|exact S3]. intros a Ha.
        apply NoDup_cons in N2 as [N2 _]. cbn [fst] in N2.
        by rewrite !lookup_alter_ne by ne.
Qed.

Lemma list_append_before_spec h l xs1 b bv xs2 node v o :
  is_list h l (xs1 ++ (b, bv) :: xs2) → nodes h !! node = Some (Node NULL NULL v o) →
  node ≠ NULL → node ∉ (xs1 ++ (b, bv) :: xs2).*1 →
  Z.of_nat (length (xs1 ++ (b, bv) :: xs2)) + 1 < 2 ^ 64 →
  ∃ h', list_append_before l b node h = Done (tt, h') ∧
    is_list h' l (xs1 ++ (node, v) :: (b, bv) :: xs2) ∧
    frame h h' (node :: (xs1 ++ (b, bv) :: xs2).*1) [l].
Proof.
  intros (x & Hl & Hlen & Hb & Hnd & Hs) Hn Hnn Hni Hroom. unfold list_append_before.
  pose proof (dseg_head_middle _ _ _ _ _ _ _ _ _ Hnd Hs) as Hhead.
  apply dseg_middle in Hs as (Hbn & pb & nb & S1 & Hnb & S2).
  pose proof Hnd as (N1 & N2 & N3 & N4 & N5)%nodup_middle.
  rewrite fmap_app, fmap_cons in Hni. split_notin.
  assert (b ≠ node) by congruence.
  do 2 run. destruct (Z.eqb_spec (length_ x) 0) as [E|E].
  { rewrite Hlen, length_app in E. simpl in E. lia. }
  destruct (Z.eqb_spec b NULL) as [|_]; [done|].
  assert (Hfin : ∀ h' hd', lists h' !! l = Some (List hd' (tail x)
      (u64 (length_ x + 1)) (name x) (metadata x)) →
    nodes h' !! node = Some (Node b pb v l) → nodes h' !! b = Some (Node nb node bv l) →
    (∀ a, a ∈ xs2.*1 → nodes h' !! a = nodes h !! a) →
    dseg (nodes h') l NULL hd' xs1 pb node →
    is_list h' l (xs1 ++ (node, v) :: (b, bv) :: xs2)).
  { intros h' hd' G1 G2 G3 G4 G5. eexists. split_and!; [exact G1|..]; simpl.
    - rewrite Hlen, u64_small by lia. rewrite !length_app. simpl. lia.
    - rewrite !length_app in *. simpl in *. lia.
    - apply nodup_middle. rewrite fmap_cons, NoDup_cons. simpl. split_and!; try done.
      + by apply not_elem_of_cons.
      + intros a Ha. apply not_elem_of_cons. split; [ne|by apply N5].
    - apply dseg_middle. split; [done|]. exists pb, b. split_and!; [done|done|].
      simpl. split_and!; [done..|]. exists nb. split; [done|]. by eapply dseg_ext. }
  destruct (Z.eqb_spec b (head x)) as [Et|Et].
  - assert (xs1 = []) as -> by (by apply Hhead). destruct S1 as [_ <-].
    erewrite St_bind_done; [|eapply wr_list_eq; look]. do 3 run.
    eexists; split; [done|]. split; [|solve_frame].
    eapply (Hfin _ node); [header Hl|..]; simpl.
    + lk Hn.
    + lk Hnb.
    + intros a Ha. by rewrite !lookup_alter_ne by ne.
    + done.
  - assert (xs1 ≠ []) as Hne by (intros E2; by apply Et, Hhead).
    pose proof (dseg_last_in _ _ _ _ _ _ _ S1 Hne) as Hpb.
    pose proof (dseg_relink_next _ _ _ _ _ _ _ node N1 S1 Hne) as S1'.
    destruct xs1 as [|[c w] xs1 _] using rev_ind; [done|].
    pose proof S1 as (-> & Hcn & j & S0 & Hnc)%dseg_snoc.
    assert (b ≠ c) by ne. assert (node ≠ c) by ne.
    erewrite St_bind_done; cycle 1.
    { do 3 run. erewrite wr_node_eq; [done|]. lk Hn. }
    do 3 run. eexists; split; [done|]. split; [|solve_frame].
    eapply (Hfin _ (head x)); [header Hl|..]; simpl.
    + lk Hn.
    + lk Hnb.
    + intros a Ha. assert (c ≠ a) by (intros ->; by apply (N5 a)).
      by rewrite !lookup_alter_ne by ne.
    + eapply dseg_ext; [|exact S1']. intros a Ha. simpl.
      rewrite 3!lookup_alter_ne by ne.
      destruct (decide (a = c)) as [->|]; [rewrite !lookup_alter_eq|rewrite !(lookup_alter_ne _ _ c) by done];
        by rewrite lookup_alter_ne by ne.
Qed.

(** [list_append_after] without a predecessor puts the node first. *)
Lemma list_append_first_spec h l xs node v o :
  is_list h l xs → nodes h !! node = Some (Node NULL NULL v o) →
  node ≠ NULL → node ∉ xs.*1 → Z.of_nat (length xs) + 1 < 2 ^ 64 →
  ∃ h', list_append_after l NULL node h = Done (tt, h') ∧ is_list h' l ((node, v) :: xs) ∧
    frame h h' (node :: xs.*1) [l].
Proof.
  intros HL Hn Hnn Hni Hroom. destruct xs as [|[c w] xs].
  - unfold list_append_after. pose proof HL as (x & Hl & Hlen & _).
    do 2 run. rewrite Hlen. simpl.
    destruct (list_append_spec (set_nodes h (alter (λ n, with_owner n l) node (nodes h)))
      l [] node NULL NULL v l) as (h' & -> & H1 & H2 & H3 & H4); try done.
    { lk Hn. }
    eexists; split; [done|]. split; [done|]. split_and!; try done.
    intros p Hp. rewrite H2 by done. simpl. split_notin. by rewrite lookup_alter_ne by ne.
  - destruct HL as (x & Hl & Hlen & Hb & Hnd & Hs). unfold list_append_after.
    pose proof Hs as (Hh & Hcn & nc & Hnc & S3). rewrite fmap_cons in *. split_notin.
    apply NoDup_cons in Hnd as [N1 N2]. cbn [fst] in N1.
    do 2 run. destruct (Z.eqb_spec (length_ x) 0); [simpl in *; lia|]. simpl (NULL =? NULL).
    rewrite Hh. do 5 run. eexists; split; [done|]. split; [|solve_frame].
    eexists. split_and!; [header Hl|..]; simpl.
    + rewrite Hlen, u64_small by lia. simpl. lia.
    + simpl in *. lia.
    + apply NoDup_cons. split; [by apply not_elem_of_cons|by apply NoDup_cons].
    + split_and!; [done..|]. exists c. split; [lk Hn|]. split_and!; [done..|].
      exists nc. split; [lk Hnc|]. eapply dseg_ext; [|exact S3]. intros a Ha. simpl.
      by rewrite !lookup_alter_ne by ne.
Qed.


Lemma alter_as_insert {A} (m : gmap Z A) f k x :
  m !! k = Some x → alter f k m = <[k := f x]> m.
Proof.
  intros H. apply map_eq. intros i. rewrite lookup_alter, lookup_insert.
  case_decide; subst; [by rewrite H|done].
Qed.

(** The effect of [list_delete] on the heap, before it is read as a list. *)
Lemma list_delete_eq h l x a na pa v o :
  lists h !! l = Some x → nodes h !! a = Some (Node na pa v o) → pa ≠ a → na ≠ a →
  (pa ≠ NULL → is_Some (nodes h !! pa)) → (na ≠ NULL → is_Some (nodes h !! na)) →
  list_delete l a h = Done (tt, Heap
    (<[a := Node NULL NULL v NULL]>
      ((if na =? NULL then id else alter (λ n, with_prev n pa) na)
        ((if pa =? NULL then id else alter (λ n, with_next n na) pa) (nodes h))))
    (<[l := List (if a =? head x then na else head x) (if a =? tail x then pa else tail x)
              (u64 (length_ x - 1)) (name x) (metadata x)]> (lists h))
    (freed h)).
Proof.
  intros Hl Ha Hpa Hna Hp Hn.
  set (h1 := set_lists h (<[l := with_head x (if a =? head x then na else head x)]> (lists h))).
  set (h2 := set_lists h (<[l := with_tail (with_head x (if a =? head x then na else head x))
     (if a =? tail x then pa else tail x)]> (lists h))).
  set (h3 := set_nodes h2 ((if pa =? NULL then id else alter (λ n, with_next n na) pa) (nodes h))).
  set (h4 := set_nodes h2 ((if na =? NULL then id else alter (λ n, with_prev n pa) na) (nodes h3))).
  assert (Ha3 : nodes h3 !! a = Some (Node na pa v o)).
  { unfold h3. simpl. case_match; [done|]. by rewrite lookup_alter_ne. }
  assert (Ha4 : nodes h4 !! a = Some (Node na pa v o)).
  { unfold h4. simpl. case_match; [done|]. by rewrite lookup_alter_ne. }
  unfold list_delete. erewrite St_bind_done by (by apply rd_list_eq).
  rewrite (St_bind_done _ _ _ tt h1); cycle 1.
  { unfold h1. destruct (a =? head x).
    - erewrite St_bind_done by (by apply rd_node_eq). erewrite wr_list_eq by done.
      by rewrite (alter_as_insert _ _ _ _ Hl).
    - unfold with_head. destruct x; simpl in *. rewrite insert_id by done. by destruct h. }
  erewrite St_bind_done by (apply rd_list_eq; apply lookup_insert_eq). cbv beta.
  rewrite (St_bind_done _ _ _ tt h2); cycle 1.
  { unfold h2. simpl. destruct (a =? tail x).
    - erewrite St_bind_done by (by apply rd_node_eq). erewrite wr_list_eq by apply lookup_insert_eq.
      erewrite alter_as_insert by apply lookup_insert_eq. unfold h1, set_lists. simpl.
      by rewrite insert_insert_eq.
    - by destruct x. }
  erewrite St_bind_done by (by apply rd_node_eq). simpl (prev _). simpl (next _).
  rewrite (St_bind_done _ _ _ tt h3); cycle 1.
  { unfold h3. destruct (Z.eqb_spec pa NULL); simpl; [done|].
    destruct Hp as [y Hy]; [done|]. by erewrite wr_node_eq by done. }
  erewrite St_bind_done by (by apply rd_node_eq). simpl (prev _). simpl (next _).
  rewrite (St_bind_done _ _ _ tt h4); cycle 1.
  { unfold h4. destruct (Z.eqb_spec na NULL); simpl; [done|].
    destruct Hn as [y Hy]; [done|].
    assert (is_Some (nodes h3 !! na)) as [z Hz].
    { unfold h3. simpl. destruct (pa =? NULL); simpl; [by eexists|].
      rewrite lookup_alter. case_decide; subst; rewrite Hy; simpl; eauto. }
    by erewrite wr_node_eq by exact Hz. }
  erewrite St_bind_done by (eapply wr_node_eq, Ha4). erewrite (alter_as_insert _ _ _ _ Ha4).
  erewrite St_bind_done by (eapply wr_node_eq, lookup_insert_eq).
  erewrite alter_as_insert by apply lookup_insert_eq. simpl nodes. rewrite insert_insert_eq.
  erewrite St_bind_done by (eapply wr_node_eq, lookup_insert_eq).
  erewrite alter_as_insert by apply lookup_insert_eq. simpl nodes. rewrite insert_insert_eq.
  erewrite wr_list_eq by apply lookup_insert_eq.
  erewrite alter_as_insert by apply lookup_insert_eq. simpl lists.
  rewrite insert_insert_eq. unfold h4, h3, h2. simpl. done.
Qed.

Lemma list_delete_spec h l xs1 a v xs2 :
  is_list h l (xs1 ++ (a, v) :: xs2) →
  ∃ h', list_delete l a h = Done (tt, h') ∧ is_list h' l (xs1 ++ xs2) ∧
    nodes h' !! a = Some (Node NULL NULL v NULL) ∧
    frame h h' (xs1 ++ (a, v) :: xs2).*1 [l].
Proof.
  intros (x & Hl & Hlen & Hb & Hnd & Hs).
  pose proof (dseg_head_middle _ _ _ _ _ _ _ _ _ Hnd Hs) as Hhead.
  pose proof (dseg_tail_middle _ _ _ _ _ _ _ _ _ Hnd Hs) as Htail.
  apply dseg_middle in Hs as (Han & pa & na & S1 & Hna & S2).
  pose proof Hnd as (N1 & N2 & N3 & N4 & N5)%nodup_middle.
  pose proof (dseg_null_last _ _ _ _ _ _ S1) as Hp0.
  pose proof (dseg_null _ _ _ _ _ _ S2) as Hn0.
  assert (Hpin : pa ≠ NULL → pa ∈ xs1.*1).
  { intros H. eapply dseg_last_in; [exact S1|]. by intros ?%Hp0. }
  assert (Hnin : na ≠ NULL → na ∈ xs2.*1).
  { intros H. destruct xs2 as [|[c w] xs2]; [by destruct S2|]. destruct S2 as [-> _]. left. }
  assert (pa ≠ a) by (destruct (decide (pa = NULL)); [congruence|intros ->; by apply N3, Hpin]).
  assert (na ≠ a) by (destruct (decide (na = NULL)); [congruence|intros ->; by apply N4, Hnin]).
  assert (Hpx : pa ≠ NULL → is_Some (nodes h !! pa)).
  { intros ([p w] & E & Hin)%Hpin%list_elem_of_fmap. rewrite E.
    destruct (dseg_node _ _ _ _ _ _ _ _ _ S1 Hin) as (_ & ? & ? & H'). eauto. }
  assert (Hnx : na ≠ NULL → is_Some (nodes h !! na)).
  { intros ([p w] & E & Hin)%Hnin%list_elem_of_fmap. rewrite E.
    destruct (dseg_node _ _ _ _ _ _ _ _ _ S2 Hin) as (_ & ? & ? & H'). eauto. }
  rewrite (list_delete_eq _ _ _ _ _ _ _ _ Hl Hna) by done.
  eexists; split; [done|]. unfold frame. split_and!; cycle 1.
  { simpl. apply lookup_insert_eq. }
  { simpl. rewrite fmap_app, fmap_cons. intros p Hp. split_notin. rewrite lookup_insert_ne by done.
    destruct (Z.eqb_spec na NULL), (Z.eqb_spec pa NULL); unfold id;
      rewrite ?lookup_alter_ne; try done; intros ->; auto. }
  { simpl. intros p Hp. split_notin. by rewrite lookup_insert_ne. }
  { done. }
  eexists. split_and!; [apply lookup_insert_eq|..]; simpl.
  - rewrite Hlen, !length_app in *. simpl in *. rewrite u64_small; lia.
  - rewrite !length_app in *. simpl in *. lia.
  - rewrite fmap_app. by apply NoDup_app.
  - apply dseg_app. exists pa, na. split.
    + destruct (decide (xs1 = [])) as [->|Hne].
      { destruct S1 as [Hh _]. rewrite Hh, Z.eqb_refl. simpl. by rewrite (proj2 Hp0). }
      assert (a ≠ head x) as Hh by (by intros ?%Hhead). apply Z.eqb_neq in Hh as ->.
      assert (pa ≠ NULL) as Hpn by (by intros ?%Hp0). rewrite (proj2 (Z.eqb_neq pa NULL) Hpn).
      pose proof (dseg_relink_next _ _ _ _ _ _ _ na N1 S1 Hne) as S1'.
      eapply dseg_ext; [|exact S1']. intros b Hb'. rewrite lookup_insert_ne by ne.
      destruct (Z.eqb_spec na NULL); unfold id; [done|].
      rewrite lookup_alter_ne; [done|]. intros ->. by apply (N5 b Hb'), Hnin.
    + destruct (decide (xs2 = [])) as [->|Hne].
      { destruct S2 as [-> Ht]. by rewrite Ht, !Z.eqb_refl. }
      assert (a ≠ tail x) as Hh by (by intros ?%Htail). apply Z.eqb_neq in Hh as ->.
      assert (na ≠ NULL) as Hnn by (by intros ?%Hn0). rewrite (proj2 (Z.eqb_neq na NULL) Hnn).
      pose proof (dseg_relink_prev _ _ _ _ _ _ _ pa N2 S2 Hne) as S2'.
      eapply dseg_ext; [|exact S2']. intros b Hb'. rewrite lookup_insert_ne by ne.
      rewrite !lookup_alter. case_decide; [f_equal|];
        (destruct (Z.eqb_spec pa NULL); unfold id; [done|]);
        (rewrite lookup_alter_ne; [done|]); intros Eb; apply (N5 pa); [auto|by subst|auto|by subst].
Qed.

(** ** Searching *)

(** The first entry that holds the value [v], with its position. *)
Definition first_with (v : Z) (xs : list (Z * Z)) : option (nat * (Z * Z)) :=
  list.list_find (λ x, x.2 = v) xs.

Lemma first_with_cons v a w xs :
  first_with v ((a, w) :: xs) =
    if decide (w = v) then Some (O, (a, w)) else prod_map S id <$> first_with v xs.
Proof. done. Qed.

(** One round of the searching loops at the node [a]. *)
Ltac scan Ha Hn :=
  cbn [loopM]; cbv beta iota; rewrite (proj2 (Z.eqb_neq _ _) Ha);
  unfold mbind, St_bind; rewrite (rd_node_eq _ _ _ Hn); cbn [value next].

Lemma list_find_spec h l xs v fuel :
  is_list h l xs → (length xs < fuel)%nat →
  list_find fuel l v h =
    Done (match first_with v xs with Some (_, (a, _)) => a | None => NULL end, h).
Proof.
  intros (x & Hl & _ & _ & _ & Hs) Hf. unfold list_find.
  erewrite St_bind_done by (by apply rd_list_eq).
  assert (∃ p pp, p = head x ∧ dseg (nodes h) l pp p xs (tail x) NULL) as (p & pp & <- & Hs')
    by eauto. clear Hs Hl. revert p pp fuel Hs' Hf.
  induction xs as [|[a w] xs IH]; intros p pp fuel Hs Hf; destruct fuel as [|fuel]; try (simpl in Hf; lia).
  - destruct Hs as [-> _]. done.
  - destruct Hs as (-> & Ha & nx & Hn & Hs). scan Ha Hn. rewrite first_with_cons.
    destruct (Z.eqb_spec w v), (decide (w = v)); try done.
    simpl. erewrite IH; [|done|simpl in Hf; lia]. by destruct (first_with v xs) as [[? []]|].
Qed.

Lemma list_index_of_spec h l xs v fuel :
  is_list h l xs → Z.of_nat (length xs) < 2 ^ 31 → (length xs < fuel)%nat →
  list_index_of fuel l v h =
    Done (match first_with v xs with Some (i, _) => Z.of_nat i | None => -1 end, h).
Proof.
  intros (x & Hl & _ & _ & _ & Hs) Hb Hf. unfold list_index_of.
  erewrite St_bind_done by (by apply rd_list_eq).
  cut (∀ i fuel p pp, dseg (nodes h) l pp p xs (tail x) NULL → (length xs < fuel)%nat →
    0 ≤ i → i + Z.of_nat (length xs) < 2 ^ 31 →
    loopM fuel (λ '(item, i), if item =? NULL then mret (inr (-1))
      else x ← rd_node item;
         if value x =? v then mret (inr i) else mret (inl (next x, i32 (i + 1)))) (p, i) h =
    Done (match first_with v xs with Some (j, _) => i + Z.of_nat j | None => -1 end, h)).
  { intros H. erewrite H; [|done..|lia|lia]. by destruct (first_with v xs) as [[? ?]|]. }
  clear Hs Hf Hl Hb fuel.
  induction xs as [|[a w] xs IH]; intros i fuel p pp Hs Hf Hi Hb; destruct fuel as [|fuel]; try (simpl in Hf; lia).
  - destruct Hs as [-> _]. done.
  - destruct Hs as (-> & Ha & nx & Hn & Hs). scan Ha Hn. rewrite first_with_cons.
    destruct (Z.eqb_spec w v), (decide (w = v)); try done; [by rewrite Z.add_0_r|].
    simpl length in *. rewrite i32_small by lia. unfold mret at 1, St_ret.
    erewrite IH; [|done|lia..]. destruct (first_with v xs) as [[? []]|]; simpl; [|done].
    do 2 f_equal. lia.
Qed.

Lemma list_index_spec h l xs i fuel :
  is_list h l xs → 0 ≤ i → Z.of_nat (length xs) < 2 ^ 31 → (length xs < fuel)%nat →
  list_index fuel l i h =
    Done (match xs !! Z.to_nat i with Some (_, v) => v | None => NULL end, h).
Proof.
  intros (x & Hl & _ & _ & _ & Hs) Hi Hb Hf. unfold list_index.
  erewrite St_bind_done by (by apply rd_list_eq).
  cut (∀ j fuel p pp, dseg (nodes h) l pp p xs (tail x) NULL → (length xs < fuel)%nat →
    0 ≤ j ≤ i → j + Z.of_nat (length xs) < 2 ^ 31 →
    loopM fuel (λ '(item, j), if item =? NULL then mret (inr NULL)
      else x ← rd_node item;
         if j =? i then mret (inr (value x)) else mret (inl (next x, i32 (j + 1)))) (p, j) h =
    Done (match xs !! Z.to_nat (i - j) with Some (_, v) => v | None => NULL end, h)).
  { intros H. erewrite H; [|done..|lia|lia]. by rewrite Z.sub_0_r. }
  clear Hs Hf Hl Hb fuel.
  induction xs as [|[a w] xs IH]; intros j fuel p pp Hs Hf Hj Hb; destruct fuel as [|fuel]; try (simpl in Hf; lia).
  - destruct Hs as [-> _]. done.
  - destruct Hs as (-> & Ha & nx & Hn & Hs). scan Ha Hn.
    destruct (Z.eqb_spec j i) as [->|]; [by rewrite Z.sub_diag|].
    simpl length in *. rewrite i32_small by lia. unfold mret at 1, St_ret.
    erewrite IH; [|done|lia..].
    replace (Z.to_nat (i - j)) with (S (Z.to_nat (i - (j + 1)))) by lia. done.
Qed.

(** ** Creation, insertion and removal *)

Section Specs.
Context {ML : Malloc}.

Lemma malloc_not_in h l xs : is_list h l xs → malloc (used h) ∉ xs.*1.
Proof.
  intros (x & _ & _ & _ & _ & Hs) ([a v] & E & Hin)%list_elem_of_fmap.
  destruct (dseg_node _ _ _ _ _ _ _ _ _ Hs Hin) as (_ & nx & pv & Hn).
  apply (malloc_fresh (used h)). rewrite E. apply elem_of_union_l, elem_of_dom. eauto.
Qed.

(** A list is not disturbed by changes elsewhere. *)
Lemma is_list_frame h h' l xs X L :
  frame h h' X L → is_list h l xs → l ∉ L → (∀ a, a ∈ xs.*1 → a ∉ X) → is_list h' l xs.
Proof.
  intros (Hn & Hl & _) (x & Hx & ? & ? & ? & Hs) HL HX. exists x. rewrite Hl by done.
  split_and!; try done. eapply dseg_ext; [|exact Hs]. intros a Ha. by apply Hn, HX.
Qed.

Lemma frame_trans h1 h2 h3 X L X' L' :
  frame h1 h2 X L → frame h2 h3 X' L' → X ⊆ X' → L ⊆ L' → frame h1 h3 X' L'.
Proof.
  intros (A1 & A2 & A3) (B1 & B2 & B3) HX HL. split_and!; [| |congruence].
  - intros p Hp. rewrite B1 by done. apply A1. set_solver.
  - intros p Hp. rewrite B2 by done. apply A2. set_solver.
Qed.

(** The heap after a new node is allocated. *)
Definition new_node (h : heap) (v : Z) : heap :=
  set_nodes h (<[malloc (used h) := Node NULL NULL v NULL]> (nodes h)).

Lemma new_node_frame h v : frame h (new_node h v) [malloc (used h)] [].
Proof. split_and!; try done. simpl. intros p Hp. split_notin. by rewrite lookup_insert_ne. Qed.

Lemma new_node_list h v l xs : is_list h l xs → is_list (new_node h v) l xs.
Proof.
  intros Hl. eapply is_list_frame; [apply new_node_frame|done|set_solver|].
  intros a Ha ->%list_elem_of_singleton. by eapply malloc_not_in.
Qed.

Lemma new_node_lookup h v :
  nodes (new_node h v) !! malloc (used h) = Some (Node NULL NULL v NULL).
Proof. apply lookup_insert_eq. Qed.

Lemma list_create_spec h nm md :
  ∃ l h', list_create nm md h = Done (l, h') ∧ is_list h' l [] ∧ l ∉ used h ∧ l ≠ NULL ∧
    frame h h' [] [l].
Proof.
  exists (malloc (used h)). eexists. split; [done|]. split_and!.
  - eexists. split_and!; [apply lookup_insert_eq|done|done|constructor|done].
  - apply malloc_fresh.
  - apply malloc_nonnull.
  - split_and!; try done. intros p Hp. split_notin. simpl. by rewrite lookup_insert_ne.
Qed.

Lemma list_insert_spec h l xs v :
  is_list h l xs → Z.of_nat (length xs) + 1 < 2 ^ 64 →
  ∃ a h', list_insert l v h = Done (a, h') ∧ is_list h' l (xs ++ [(a, v)]) ∧
    a ∉ used h ∧ a ≠ NULL ∧ frame h h' (a :: xs.*1) [l].
Proof.
  intros Hl Hroom. pose proof (new_node_list h v l xs Hl) as Hl'.
  destruct (list_append_spec _ l xs _ _ _ v _ Hl' (new_node_lookup h v) (malloc_nonnull _)
    (malloc_not_in _ _ _ Hl) Hroom) as (h' & E & Hi & Hf).
  exists (malloc (used h)), h'. unfold list_insert.
  rewrite (St_bind_done _ _ h (malloc (used h)) (new_node h v)) by done.
  rewrite (St_bind_done _ _ _ _ _ E). split_and!; try done; [apply malloc_fresh|apply malloc_nonnull|].
  eapply frame_trans; [apply new_node_frame|done|set_solver|set_solver].
Qed.

Lemma list_insert_after_spec h l xs1 b bv xs2 v :
  is_list h l (xs1 ++ (b, bv) :: xs2) → Z.of_nat (length (xs1 ++ (b, bv) :: xs2)) + 1 < 2 ^ 64 →
  ∃ a h', list_insert_after l b v h = Done (a, h') ∧
    is_list h' l (xs1 ++ (b, bv) :: (a, v) :: xs2) ∧ a ∉ used h ∧ a ≠ NULL ∧
    frame h h' (a :: (xs1 ++ (b, bv) :: xs2).*1) [l].
Proof.
  intros Hl Hroom. pose proof (new_node_list h v l _ Hl) as Hl'.
  destruct (list_append_after_spec _ l xs1 b bv xs2 _ v _ Hl' (new_node_lookup h v) (malloc_nonnull _)
    (malloc_not_in _ _ _ Hl) Hroom) as (h' & E & Hi & Hf).
  exists (malloc (used h)), h'. unfold list_insert_after.
  rewrite (St_bind_done _ _ h (malloc (used h)) (new_node h v)) by done.
  rewrite (St_bind_done _ _ _ _ _ E). split_and!; try done; [apply malloc_fresh|apply malloc_nonnull|].
  eapply frame_trans; [apply new_node_frame|done|set_solver|set_solver].
Qed.

Lemma list_insert_first_spec h l xs v :
  is_list h l xs → Z.of_nat (length xs) + 1 < 2 ^ 64 →
  ∃ a h', list_insert_after l NULL v h = Done (a, h') ∧ is_list h' l ((a, v) :: xs) ∧
    a ∉ used h ∧ a ≠ NULL ∧ frame h h' (a :: xs.*1) [l].
Proof.
  intros Hl Hroom. pose proof (new_node_list h v l _ Hl) as Hl'.
  destruct (list_append_first_spec _ l xs _ v _ Hl' (new_node_lookup h v) (malloc_nonnull _)
    (malloc_not_in _ _ _ Hl) Hroom) as (h' & E & Hi & Hf).
  exists (malloc (used h)), h'. unfold list_insert_after.
  rewrite (St_bind_done _ _ h (malloc (used h)) (new_node h v)) by done.
  rewrite (St_bind_done _ _ _ _ _ E). split_and!; try done; [apply malloc_fresh|apply malloc_nonnull|].
  eapply frame_trans; [apply new_node_frame|done|set_solver|set_solver].
Qed.

Lemma list_insert_before_spec h l xs1 b bv xs2 v :
  is_list h l (xs1 ++ (b, bv) :: xs2) → Z.of_nat (length (xs1 ++ (b, bv) :: xs2)) + 1 < 2 ^ 64 →
  ∃ a h', list_insert_before l b v h = Done (a, h') ∧
    is_list h' l (xs1 ++ (a, v) :: (b, bv) :: xs2) ∧ a ∉ used h ∧ a ≠ NULL ∧
    frame h h' (a :: (xs1 ++ (b, bv) :: xs2).*1) [l].
Proof.
  intros Hl Hroom. pose proof (new_node_list h v l _ Hl) as Hl'.
  destruct (list_append_before_spec _ l xs1 b bv xs2 _ v _ Hl' (new_node_lookup h v) (malloc_nonnull _)
    (malloc_not_in _ _ _ Hl) Hroom) as (h' & E & Hi & Hf).
  exists (malloc (used h)), h'. unfold list_insert_before.
  rewrite (St_bind_done _ _ h (malloc (used h)) (new_node h v)) by done.
  rewrite (St_bind_done _ _ _ _ _ E). split_and!; try done; [apply malloc_fresh|apply malloc_nonnull|].
  eapply frame_trans; [apply new_node_frame|done|set_solver|set_solver].
Qed.
End Specs.

Lemma list_dequeue_spec h l xs :
  is_list h l xs →
  match xs with
  | [] => list_dequeue l h = Done (NULL, h)
  | (a, v) :: xs' => ∃ h', list_dequeue l h = Done (a, h') ∧ is_list h' l xs' ∧
      nodes h' !! a = Some (Node NULL NULL v NULL) ∧ frame h h' xs.*1 [l]
  end.
Proof.
  intros Hi. pose proof Hi as (x & Hl & _ & _ & _ & Hs). unfold list_dequeue.
  rewrite (St_bind_done _ _ _ _ _ (rd_list_eq _ _ _ Hl)).
  destruct xs as [|[a v] xs]; [by destruct Hs as [-> _]|].
  destruct Hs as (-> & Ha & _). rewrite (proj2 (Z.eqb_neq _ _) Ha).
  destruct (list_delete_spec h l [] _ v xs Hi) as (h' & E & H). exists h'.
  by rewrite (St_bind_done _ _ _ _ _ E).
Qed.

Lemma list_pop_spec h l xs :
  is_list h l xs →
  match last xs with
  | None => list_pop l h = Done (NULL, h)
  | Some (a, v) => ∃ xs' h', xs = xs' ++ [(a, v)] ∧ list_pop l h = Done (a, h') ∧
      is_list h' l xs' ∧ nodes h' !! a = Some (Node NULL NULL v NULL) ∧ frame h h' xs.*1 [l]
  end.
Proof.
  intros Hi. pose proof Hi as (x & Hl & _ & _ & _ & Hs). unfold list_pop.
  rewrite (St_bind_done _ _ _ _ _ (rd_list_eq _ _ _ Hl)).
  destruct xs as [|[a v] xs _] using rev_ind; [by destruct Hs as [_ <-]|].
  rewrite last_snoc. apply dseg_snoc in Hs as (-> & Ha & _). rewrite (proj2 (Z.eqb_neq _ _) Ha).
  destruct (list_delete_spec h l xs _ v [] Hi) as (h' & E & H). rewrite app_nil_r in H.
  exists xs, h'. split; [done|]. by rewrite (St_bind_done _ _ _ _ _ E).
Qed.

(** Walking [k] links from the head. *)
Lemma list_walk h o pp p xs q k i n fuel :
  dseg (nodes h) o pp p xs q NULL → (k ≤ length xs)%nat → (k < fuel)%nat →
  n = i + Z.of_nat k →
  loopM fuel (λ '(n', i'),
    if i' <? n then x ← rd_node n'; mret (inl (next x, i' + 1)) else mret (inr n')) (p, i) h =
  Done (from_option fst NULL (xs !! k), h).
Proof.
  revert pp p xs i fuel. induction k as [|k IH]; intros pp p xs i fuel Hs Hk Hf ->;
    (destruct fuel as [|fuel]; [lia|]).
  - cbn [loopM]. cbv beta iota. rewrite (proj2 (Z.ltb_ge _ _)) by lia.
    destruct xs as [|[a v] xs]; [by destruct Hs as [-> _]|]. by destruct Hs as [-> _].
  - destruct xs as [|[a v] xs]; [simpl in Hk; lia|]. destruct Hs as (-> & Ha & nx & Hn & Hs).
    cbn [loopM]. cbv beta iota. rewrite (proj2 (Z.ltb_lt _ _)) by lia.
    unfold mbind, St_bind. rewrite (rd_node_eq _ _ _ Hn). unfold mret, St_ret. cbn [next].
    rewrite (IH a nx xs (i + 1)); [done|done|simpl in Hk; lia|lia|lia].
Qed.

Lemma list_remove_spec h l xs i a v fuel :
  is_list h l xs → xs !! i = Some (a, v) → (i < fuel)%nat →
  ∃ h', list_remove fuel l (Z.of_nat i) h = Done (tt, h') ∧ is_list h' l (delete i xs) ∧
    nodes h' !! a = Some (Node NULL NULL v NULL) ∧ frame h h' xs.*1 [l].
Proof.
  intros Hi Hx Hf. pose proof (lookup_lt_Some _ _ _ Hx) as Hlt.
  pose proof Hi as (x & Hl & Hlen & _ & _ & Hs). unfold list_remove.
  rewrite (St_bind_done _ _ _ _ _ (rd_list_eq _ _ _ Hl)).
  rewrite (proj2 (Z.ltb_ge _ _)) by lia.
  rewrite (St_bind_done _ _ _ _ _ (list_walk h l NULL (head x) xs (tail x) i 0 _ fuel Hs ltac:(lia) Hf eq_refl)).
  rewrite Hx. simpl. rewrite <-(take_drop_middle _ _ _ Hx) in Hi at 1.
  destruct (list_delete_spec _ _ _ _ _ _ Hi) as (h' & -> & H).
  exists h'. rewrite delete_take_drop. rewrite (take_drop_middle _ _ _ Hx) in H. done.
Qed.

(** The guard of [list_remove] lets the index one past the end through. *)
Lemma list_remove_past_end_spec h l xs fuel :
  is_list h l xs → nodes h !! NULL = None → (length xs < fuel)%nat →
  list_remove fuel l (Z.of_nat (length xs)) h = Fault.
Proof.
  intros Hi Hnull Hf. pose proof Hi as (x & Hl & Hlen & _ & _ & Hs). unfold list_remove.
  rewrite (St_bind_done _ _ _ _ _ (rd_list_eq _ _ _ Hl)).
  rewrite (proj2 (Z.ltb_ge _ _)) by lia.
  rewrite (St_bind_done _ _ _ _ _ (list_walk h l NULL (head x) xs (tail x) (length xs) 0 _ fuel Hs ltac:(lia) Hf eq_refl)).
  rewrite lookup_ge_None_2 by lia. simpl. unfold list_delete.
  rewrite (St_bind_done _ _ _ _ _ (rd_list_eq _ _ _ Hl)).
  assert (Hrd : ∀ B (f : node_t → St heap B), (rd_node NULL ≫= f) h = Fault).
  { intros B f. apply St_bind_fault. unfold rd_node. by rewrite Hnull. }
  destruct (NULL =? head x) eqn:E1.
  { apply St_bind_fault, Hrd. }
  rewrite (St_bind_done _ _ h tt h) by done.
  rewrite (St_bind_done _ _ _ _ _ (rd_list_eq _ _ _ Hl)).
  destruct (NULL =? tail x) eqn:E2.
  { apply St_bind_fault, Hrd. }
  rewrite (St_bind_done _ _ h tt h) by done. apply Hrd.
Qed.

(** ** Freeing and merging *)

Lemma free_node_eq h p n :
  nodes h !! p = Some n → free_node p h = Done (tt, set_nodes h (delete p (nodes h))).
Proof. unfold free_node. by intros ->. Qed.

Lemma list_free_spec h l xs fuel :
  is_list h l xs → (length xs < fuel)%nat →
  ∃ h', list_free fuel l h = Done (tt, h') ∧ (∀ a, a ∈ xs.*1 → nodes h' !! a = None) ∧
    frame h h' xs.*1 [].
Proof.
  intros (x & Hl & _ & _ & Hnd & Hs) Hf. unfold list_free.
  rewrite (St_bind_done _ _ _ _ _ (rd_list_eq _ _ _ Hl)).
  assert (∃ pp p, p = head x ∧ dseg (nodes h) l pp p xs (tail x) NULL) as (pp & p & <- & Hs')
    by eauto. clear Hs Hl. revert h pp p fuel Hnd Hs' Hf.
  induction xs as [|[a v] xs IH]; intros h pp p fuel Hnd Hs Hf; (destruct fuel as [|fuel]; [simpl in Hf; lia|]).
  - destruct Hs as [-> _]. exists h. split_and!; try done. set_solver.
  - destruct Hs as (-> & Ha & nx & Hn & Hs). apply NoDup_cons in Hnd as [Hni Hnd].
    destruct (IH (set_nodes h (delete a (nodes h))) a nx fuel Hnd) as (h' & E & H1 & H2 & H3 & H4).
    { eapply dseg_ext; [|exact Hs]. intros b Hb. simpl. apply lookup_delete_ne. intros ->. done. }
    { simpl in Hf. lia. }
    exists h'. cbn [loopM]. cbv beta iota. rewrite (proj2 (Z.eqb_neq _ _) Ha).
    erewrite St_bind_done; cycle 1.
    { erewrite St_bind_done by (by apply rd_node_eq). cbv zeta.
      erewrite St_bind_done by (by eapply free_node_eq). done. }
    cbv beta iota. rewrite <-E. unfold frame. split_and!; [done|..].
    + intros b [->|Hb]%elem_of_cons; [|by apply H1].
      rewrite H2 by done. simpl. apply lookup_delete_eq.
    + intros b Hb. rewrite fmap_cons in Hb. split_notin. rewrite H2 by done. simpl. by rewrite lookup_delete_ne.
    + intros b Hb. by rewrite H3.
    + done.
Qed.

(** Reassigning the owner of every node of a segment. *)
Definition own (t : Z) (n : node_t) : node_t := with_owner n t.

Lemma list_own_loop h s t pp p xs q fuel :
  NoDup xs.*1 → dseg (nodes h) s pp p xs q NULL → (length xs < fuel)%nat →
  ∃ h', loopM fuel (λ node, if node =? NULL then mret (inr tt)
      else wr_node node (λ n, with_owner n t);;
           x ← rd_node node; mret (inl (next x))) p h = Done (tt, h') ∧
    dseg (nodes h') t pp p xs q NULL ∧ frame h h' xs.*1 [] ∧ lists h' = lists h.
Proof.
  revert h pp p fuel. induction xs as [|[a v] xs IH]; intros h pp p fuel Hnd Hs Hf;
    (destruct fuel as [|fuel]; [simpl in Hf; lia|]).
  - destruct Hs as [-> ->]. by exists h.
  - destruct Hs as (-> & Ha & nx & Hn & Hs). apply NoDup_cons in Hnd as [Hni Hnd].
    set (h1 := set_nodes h (alter (own t) a (nodes h))).
    destruct (IH h1 a nx fuel Hnd) as (h' & E & H1 & (H2 & H3 & H4) & H5).
    { eapply dseg_ext; [|exact Hs]. intros b Hb. simpl. apply lookup_alter_ne. intros ->. done. }
    { simpl in Hf. lia. }
    exists h'. cbn [loopM]. cbv beta iota. rewrite (proj2 (Z.eqb_neq _ _) Ha).
    assert (Hn1 : nodes h1 !! a = Some (Node nx pp v t)) by (simpl; by rewrite lookup_alter_eq, Hn).
    erewrite St_bind_done; cycle 1.
    { erewrite St_bind_done by (by eapply wr_node_eq).
      erewrite St_bind_done by (by apply rd_node_eq, Hn1). done. }
    cbv beta iota. rewrite <-E. unfold frame. split_and!; [done|..]; try done.
    + split_and!; [done..|]. exists nx. split; [|done]. rewrite H2 by done. exact Hn1.
    + intros b Hb. rewrite fmap_cons in Hb. split_notin. rewrite H2 by done. simpl. by rewrite lookup_alter_ne.
Qed.

Lemma is_list_disjoint h t s xs ys a :
  is_list h t xs → is_list h s ys → t ≠ s → a ∈ xs.*1 → a ∉ ys.*1.
Proof.
  intros (x & _ & _ & _ & _ & Sx) (y & _ & _ & _ & _ & Sy) Hne
    ([b v] & -> & Hx)%list_elem_of_fmap ([c w] & E & Hy)%list_elem_of_fmap.
  simpl in E. subst c.
  destruct (dseg_node _ _ _ _ _ _ _ _ _ Sx Hx) as (_ & ? & ? & E1).
  destruct (dseg_node _ _ _ _ _ _ _ _ _ Sy Hy) as (_ & ? & ? & E2). congruence.
Qed.

(** Linking two segments that end and begin with null. *)
Lemma dseg_link ns o hx xs tx hy ys ty :
  NoDup (xs ++ ys).*1 → dseg ns o NULL hx xs tx NULL → dseg ns o NULL hy ys ty NULL →
  dseg ((if tx =? NULL then id else alter (λ n, with_next n hy) tx)
         ((if hy =? NULL then id else alter (λ n, with_prev n tx) hy) ns))
    o NULL (if tx =? NULL then hy else hx) (xs ++ ys) (if ty =? NULL then tx else ty) NULL.
Proof.
  intros Hnd Sx Sy. rewrite fmap_app in Hnd. apply NoDup_app in Hnd as (Nx & Hd & Ny).
  pose proof (dseg_null_last _ _ _ _ _ _ Sx) as Ex. pose proof (dseg_null _ _ _ _ _ _ Sy) as Ey.
  pose proof (dseg_null_last _ _ _ _ _ _ Sy) as Ez.
  destruct (decide (xs = [])) as [->|Hx].
  { destruct Sx as [_ <-]. simpl. unfold id. destruct (decide (ys = [])) as [->|Hy].
    - by destruct Sy as [-> <-].
    - rewrite (proj2 (Z.eqb_neq hy NULL)) by (by intros ?%Ey).
      rewrite (proj2 (Z.eqb_neq ty NULL)) by (by intros ?%Ez).
      by apply (dseg_relink_prev _ _ _ _ _ _ _ NULL Ny Sy). }
  rewrite (proj2 (Z.eqb_neq tx NULL)) by (by intros ?%Ex).
  pose proof (dseg_last_in _ _ _ _ _ _ _ Sx Hx) as Htx.
  apply dseg_app. exists tx, hy. destruct (decide (ys = [])) as [->|Hy].
  { destruct Sy as [-> <-]. simpl. unfold id. split; [|done].
    by apply (dseg_relink_next _ _ _ _ _ _ _ NULL Nx Sx). }
  rewrite (proj2 (Z.eqb_neq hy NULL)) by (by intros ?%Ey).
  rewrite (proj2 (Z.eqb_neq ty NULL)) by (by intros ?%Ez).
  assert (hy ∈ ys.*1) as Hhy.
  { destruct ys as [|[b w] ys]; [done|]. destruct Sy as [-> _]. left. }
  split.
  - apply (dseg_relink_next _ _ _ _ _ _ NULL); [done| |done].
    eapply dseg_ext; [|exact Sx]. intros b Hb. apply lookup_alter_ne. intros ->. by apply (Hd b).
  - eapply dseg_ext; [|by apply (dseg_relink_prev _ _ _ _ _ _ _ tx Ny Sy)].
    intros b Hb. apply lookup_alter_ne. intros ->. by apply (Hd b).
Qed.

Lemma dseg_null_last_some ns o hx xs tx qn :
  dseg ns o NULL hx xs tx qn → tx ≠ NULL → is_Some (ns !! tx).
Proof.
  intros Hs Ht. destruct xs as [|[a v] xs _] using rev_ind; [by destruct Hs as [_ <-]|].
  apply dseg_snoc in Hs as (-> & _ & j & _ & ->). eauto.
Qed.

Lemma dseg_head_some ns o pp hx xs tx :
  dseg ns o pp hx xs tx NULL → hx ≠ NULL → is_Some (ns !! hx).
Proof. intros Hs Ht. destruct xs as [|[a v] xs]; [by destruct Hs|]. destruct Hs as (-> & _ & nx & -> & _). eauto. Qed.

Lemma list_merge_spec h t s xs ys fuel :
  is_list h t xs → is_list h s ys → t ≠ s →
  Z.of_nat (length xs) + Z.of_nat (length ys) < 2 ^ 64 → (length ys < fuel)%nat →
  ∃ h', list_merge fuel t s h = Done (tt, h') ∧ is_list h' t (xs ++ ys) ∧
    lists h' !! s = None ∧ frame h h' (xs ++ ys).*1 [t; s].
Proof.
  intros Hx Hy Hne Hroom Hf. pose proof (λ a, is_list_disjoint _ _ _ _ _ a Hx Hy Hne) as Hd.
  destruct Hx as (x & Lx & Ex & _ & Nx & Sx), Hy as (y & Ly & Ey & _ & Ny & Sy).
  destruct (list_own_loop h s t NULL (head y) ys (tail y) fuel Ny Sy Hf)
    as (h1 & E & Sy1 & (F1 & F2 & F3) & EL).
  assert (Sx1 : dseg (nodes h1) t NULL (head x) xs (tail x) NULL).
  { eapply dseg_ext; [|exact Sx]. intros a Ha. by apply F1, Hd. }
  assert (Lx1 : lists h1 !! t = Some x) by congruence.
  assert (Ly1 : lists h1 !! s = Some y) by congruence.
  assert (Nxy : NoDup (xs ++ ys).*1) by (rewrite fmap_app; by apply NoDup_app).
  pose proof (dseg_link _ _ _ _ _ _ _ _ Nxy Sx1 Sy1) as Slink.
  set (n2 := (if head y =? NULL then id else alter (λ n, with_prev n (tail x)) (head y)) (nodes h1)) in *.
  set (n3 := (if tail x =? NULL then id else alter (λ n, with_next n (head y)) (tail x)) n2) in *.
  unfold list_merge. rewrite (St_bind_done _ _ _ _ _ (rd_list_eq _ _ _ Ly)).
  rewrite (St_bind_done _ _ _ _ _ E).
  rewrite (St_bind_done _ _ _ _ _ (rd_list_eq _ _ _ Ly1)).
  rewrite (St_bind_done _ _ _ _ _ (rd_list_eq _ _ _ Lx1)).
  rewrite (St_bind_done _ _ _ tt (set_nodes h1 n2)); cycle 1.
  { unfold n2. destruct (Z.eqb_spec (head y) NULL) as [|Hn]; simpl; [by destruct h1|].
    destruct (dseg_head_some _ _ _ _ _ _ Sy1 Hn) as [z Hz]. by erewrite wr_node_eq. }
  set (x3 := if tail x =? NULL then with_head x (head y) else x).
  rewrite (St_bind_done _ _ _ tt (Heap n3 (<[t := x3]> (lists h1)) (freed h1))); cycle 1.
  { unfold n3, x3. destruct (Z.eqb_spec (tail x) NULL) as [|Hn]; simpl.
    - erewrite wr_list_eq by done. by rewrite (alter_as_insert _ _ _ _ Lx1).
    - destruct (dseg_null_last_some _ _ _ _ _ _ Sx1 Hn) as [z Hz].
      assert (is_Some (n2 !! tail x)) as [z' Hz'].
      { unfold n2. destruct (head y =? NULL); [by eexists|]. rewrite lookup_alter. case_decide as Ec.
        - rewrite Ec, Hz. simpl. eauto.
        - rewrite Hz. eauto. }
      erewrite wr_node_eq by exact Hz'. by rewrite insert_id. }
  rewrite (St_bind_done _ _ _ y (Heap n3 (<[t := x3]> (lists h1)) (freed h1))); cycle 1.
  { apply rd_list_eq. simpl. by rewrite lookup_insert_ne. }
  set (x4 := if tail y =? NULL then x3 else with_tail x3 (tail y)).
  rewrite (St_bind_done _ _ _ tt (Heap n3 (<[t := x4]> (lists h1)) (freed h1))); cycle 1.
  { unfold x4. destruct (Z.eqb_spec (tail y) NULL); simpl; [done|].
    erewrite wr_list_eq by apply lookup_insert_eq.
    erewrite alter_as_insert by apply lookup_insert_eq. unfold set_lists. simpl.
    by rewrite insert_insert_eq. }
  rewrite (St_bind_done _ _ _ y (Heap n3 (<[t := x4]> (lists h1)) (freed h1))); cycle 1.
  { apply rd_list_eq. simpl. by rewrite lookup_insert_ne. }
  erewrite St_bind_done by (eapply wr_list_eq, lookup_insert_eq).
  erewrite alter_as_insert by apply lookup_insert_eq. simpl lists. rewrite insert_insert_eq.
  unfold free_list_t. simpl lists. rewrite lookup_insert_ne, Ly1 by done.
  eexists. split; [done|]. unfold frame. split_and!; simpl.
  - eexists. simpl. rewrite lookup_delete_ne, lookup_insert_eq by done. split_and!; [done|..]; simpl.
    + replace (length_ x4) with (length_ x) by (unfold x4, x3; by repeat case_match).
      rewrite u64_small, length_app by lia. lia.
    + rewrite length_app. lia.
    + done.
    + replace (head x4) with (if tail x =? NULL then head y else head x)
        by (unfold x4, x3; by repeat case_match).
      replace (tail x4) with (if tail y =? NULL then tail x else tail y)
        by (unfold x4, x3; by repeat case_match).
      exact Slink.
  - apply lookup_delete_eq.
  - rewrite fmap_app. intros p Hp. split_notin. transitivity (nodes h1 !! p); [|by apply F1].
    transitivity (n2 !! p).
    + unfold n3. destruct (Z.eqb_spec (tail x) NULL) as [|Hn]; [done|]. apply lookup_alter_ne.
      intros E3. destruct (decide (xs = [])) as [->|Hxs]; [by destruct Sx1 as [_ E4]; symmetry in E4|].
      apply (dseg_last_in _ _ _ _ _ _ _ Sx1) in Hxs. rewrite E3 in Hxs. done.
    + unfold n2. destruct (Z.eqb_spec (head y) NULL) as [|Hn]; [done|]. apply lookup_alter_ne.
      intros E3. destruct ys as [|[b w] ys]; [by destruct Sy1|]. destruct Sy1 as [E4 _]. subst b.
      rewrite E3, fmap_cons in *. by split_notin.
  - intros l Hl. split_notin. rewrite lookup_delete_ne, lookup_insert_ne by done. by rewrite EL.
  - done.
Qed.

(** ** Sequences of operations *)

(** The uses of a list as a queue or stack by the rest of the kernel: a removed
    node is read and freed by the caller. *)
Inductive op : Type :=
  | Insert (v : Z)
  | InsertFirst (v : Z)
  | Pop
  | Dequeue.

Definition take_node (a : Z) : St heap (option Z) :=
  if a =? NULL then mret None
  else x ← rd_node a; free_node a;; mret (Some (value x)).

Definition exec_op `{!Malloc} (l : Z) (o : op) : St heap (option Z) :=
  match o with
  | Insert v => list_insert l v;; mret None
  | InsertFirst v => list_insert_after l NULL v;; mret None
  | Pop => list_pop l ≫= take_node
  | Dequeue => list_dequeue l ≫= take_node
  end.

Fixpoint exec_ops `{!Malloc} (l : Z) (os : list op) : St heap (list (option Z)) :=
  match os with
  | [] => mret []
  | o :: os' => r ← exec_op l o; rs ← exec_ops l os'; mret (r :: rs)
  end.

(** The same operations on a sequence of values. *)
Definition deque_op (vs : list Z) (o : op) : option Z * list Z :=
  match o with
  | Insert v => (None, vs ++ [v])
  | InsertFirst v => (None, v :: vs)
  | Pop => (last vs, take (length vs - 1) vs)
  | Dequeue => (hd_error vs, drop 1 vs)
  end.

Fixpoint deque_ops (vs : list Z) (os : list op) : list (option Z) * list Z :=
  match os with
  | [] => ([], vs)
  | o :: os' => let '(r, vs1) := deque_op vs o in
                let '(rs, vs2) := deque_ops vs1 os' in (r :: rs, vs2)
  end.

Lemma take_node_spec h l xs a v :
  is_list h l xs → a ∉ xs.*1 → a ≠ NULL → nodes h !! a = Some (Node NULL NULL v NULL) →
  ∃ h', take_node a h = Done (Some v, h') ∧ is_list h' l xs.
Proof.
  intros Hi Hni Ha Hn. unfold take_node. rewrite (proj2 (Z.eqb_neq _ _) Ha).
  rewrite (St_bind_done _ _ _ _ _ (rd_node_eq _ _ _ Hn)).
  rewrite (St_bind_done _ _ _ _ _ (free_node_eq _ _ _ Hn)). eexists. split; [done|].
  apply (is_list_frame h _ l xs [a] []); [|done|set_solver|set_solver].
  split_and!; try done. intros p Hp. split_notin. simpl. by rewrite lookup_delete_ne.
Qed.

Section Sequences.
Context {ML : Malloc}.

Lemma exec_op_spec h l xs o :
  is_list h l xs → Z.of_nat (length xs) + 1 < 2 ^ 64 →
  ∃ h' xs', exec_op l o h = Done (fst (deque_op xs.*2 o), h') ∧ is_list h' l xs' ∧
    xs'.*2 = snd (deque_op xs.*2 o) ∧ (length xs' ≤ length xs + 1)%nat.
Proof.
  intros Hi Hroom. destruct o as [v|v| |]; simpl.
  - destruct (list_insert_spec h l xs v Hi Hroom) as (a & h' & E & Hi' & _).
    exists h', (xs ++ [(a, v)]). rewrite (St_bind_done _ _ _ _ _ E), fmap_app, length_app. done.
  - destruct (list_insert_first_spec h l xs v Hi Hroom) as (a & h' & E & Hi' & _).
    exists h', ((a, v) :: xs). rewrite (St_bind_done _ _ _ _ _ E). simpl. split_and!; [done..|lia].
  - pose proof (list_pop_spec h l xs Hi) as H. destruct xs as [|[a v] xs _] using rev_ind.
    { exists h, []. simpl in H. rewrite (St_bind_done _ _ _ _ _ H). split_and!; [done..|simpl; lia]. }
    rewrite last_snoc in H. destruct H as (xs' & h' & Ex & E & Hi' & Hn & _).
    apply app_inj_tail in Ex as [<- _]. rewrite (St_bind_done _ _ _ _ _ E).
    destruct Hi as (x & _ & _ & _ & Hnd & Hs). apply dseg_snoc in Hs as (_ & Ha & _).
    apply nodup_middle in Hnd as (_ & _ & Hni & _).
    destruct (take_node_spec h' l xs a v Hi' Hni Ha Hn) as (h'' & E' & Hi'').
    exists h'', xs. rewrite fmap_app. cbn [fmap list_fmap snd]. rewrite last_snoc, length_app.
    simpl length. rewrite Nat.add_sub, take_app_length. split_and!; [done..|]. rewrite length_app. simpl. lia.
  - pose proof (list_dequeue_spec h l xs Hi) as H. destruct xs as [|[a v] xs].
    { exists h, []. rewrite (St_bind_done _ _ _ _ _ H). split_and!; [done..|simpl; lia]. }
    destruct H as (h' & E & Hi' & Hn & _). rewrite (St_bind_done _ _ _ _ _ E).
    destruct Hi as (x & _ & _ & _ & Hnd & Hs). destruct Hs as (_ & Ha & _).
    apply NoDup_cons in Hnd as [Hni _].
    destruct (take_node_spec h' l xs a v Hi' Hni Ha Hn) as (h'' & E' & Hi'').
    exists h'', xs. simpl. rewrite ?drop_0. split_and!; [done..|lia].
Qed.

Lemma exec_ops_spec os h l xs :
  is_list h l xs → Z.of_nat (length xs) + Z.of_nat (length os) < 2 ^ 64 →
  ∃ h' xs', exec_ops l os h = Done (fst (deque_ops xs.*2 os), h') ∧ is_list h' l xs' ∧
    xs'.*2 = snd (deque_ops xs.*2 os).
Proof.
  revert h xs. induction os as [|o os IH]; intros h xs Hi Hroom; [by exists h, xs|].
  simpl in Hroom. destruct (exec_op_spec h l xs o Hi) as (h1 & xs1 & E & Hi1 & Hv & Hlen); [lia|].
  destruct (IH h1 xs1 Hi1) as (h2 & xs2 & E2 & Hi2 & Hv2); [lia|].
  exists h2, xs2. simpl. rewrite (St_bind_done _ _ _ _ _ E), (St_bind_done _ _ _ _ _ E2).
  rewrite Hv in *. destruct (deque_op xs.*2 o) as [r vs1]. simpl in *.
  by destruct (deque_ops vs1 os).
Qed.

(** The loop of [list_copy] appends to the copy for ever. *)
Lemma list_copy_loop fuel h l xs out ys a :
  is_list h l xs → is_list h out ys → l ≠ out → a ∈ xs.*1 →
  Z.of_nat (length ys) + Z.of_nat fuel < 2 ^ 64 →
  loopM (R:=()) fuel (λ node,
    if node =? NULL then mret (inr tt)
    else x ← rd_node node; list_insert out (value x);; mret (inl node)) a h = Timeout.
Proof.
  revert h ys. induction fuel as [|fuel IH]; intros h ys Hx Hy Hne Ha Hroom; [done|].
  pose proof Ha as ([b v] & E & Hin)%list_elem_of_fmap. simpl in E. subst b.
  pose proof Hx as (x & _ & _ & _ & _ & Hs).
  destruct (dseg_node _ _ _ _ _ _ _ _ _ Hs Hin) as (Hnn & nx & pv & Hn).
  destruct (list_insert_spec h out ys v Hy) as (b & h' & E & Hy' & Hfr & _ & Hf); [lia|].
  cbn [loopM]. cbv beta iota. rewrite (proj2 (Z.eqb_neq _ _) Hnn).
  erewrite St_bind_done; cycle 1.
  { rewrite (St_bind_done _ _ _ _ _ (rd_node_eq _ _ _ Hn)). simpl value.
    rewrite (St_bind_done _ _ _ _ _ E). done. }
  cbv beta iota. apply (IH h' (ys ++ [(b, v)])); try done.
  - eapply is_list_frame; [exact Hf|exact Hx|set_solver|].
    intros c Hc [->|Hc']%elem_of_cons; [|by eapply is_list_disjoint in Hc].
    apply list_elem_of_fmap in Hc as ([d w] & -> & Hd).
    destruct (dseg_node _ _ _ _ _ _ _ _ _ Hs Hd) as (_ & ? & ? & Hd').
    apply Hfr, elem_of_union_l, elem_of_dom. eauto.
  - rewrite length_app. simpl. lia.
Qed.

Lemma list_copy_spec h l xs fuel :
  is_list h l xs → xs ≠ [] → Z.of_nat fuel < 2 ^ 64 → list_copy fuel l h = Timeout.
Proof.
  intros Hi Hne Hf. pose proof Hi as (x & Hl & _ & _ & _ & Hs). unfold list_copy.
  rewrite (St_bind_done _ _ _ _ _ (rd_list_eq _ _ _ Hl)).
  destruct (list_create_spec h (name x) (metadata x)) as (out & h' & E & Ho & Hfr & _ & Hfm).
  rewrite (St_bind_done _ _ _ _ _ E).
  assert (l ≠ out).
  { intros ->. apply Hfr, elem_of_union_r, elem_of_dom. eauto. }
  apply St_bind_timeout, (list_copy_loop fuel h' l xs out []); try done.
  - eapply is_list_frame; [exact Hfm|done|set_solver|set_solver].
  - destruct xs as [|[a v] xs]; [done|]. destruct Hs as [-> _]. left.
Qed.
End Sequences.

(** ** A list for concrete runs *)

Definition demo : heap :=
  Heap (list_to_map [(16, Node 32 NULL 7 8); (32, Node 48 16 9 8); (48, Node NULL 32 7 8);
                     (64, Node NULL NULL 5 12)])
       (list_to_map [(8, List 16 48 3 [] 0); (12, List 64 64 1 [] 0)]) [].

Definition demo_xs : list (Z * Z) := [(16, 7); (32, 9); (48, 7)].

Lemma demo_list : is_list demo 8 demo_xs.
Proof.
  eexists. split_and!; [reflexivity|done|done|apply (bool_decide_unpack _); reflexivity|].
  simpl. split_and!; [done..|]. eexists. split; [reflexivity|].
  split_and!; [done..|]. eexists. split; [reflexivity|].
  split_and!; [done..|]. eexists. split; [reflexivity|done].
Qed.

Lemma demo_list2 : is_list demo 12 [(64, 5)].
Proof.
  eexists. split_and!; [reflexivity|done|done|apply (bool_decide_unpack _); reflexivity|].
  simpl. split_and!; [done..|]. eexists. split; [reflexivity|done].
Qed.

(** ** The theorems *)

(** C25: any sequence of [list_insert], [list_insert_after] at the front,
    [list_pop] and [list_dequeue] on a well-formed list returns the values a
    double-ended queue of values returns, and leaves a well-formed list that holds
    the queue's contents. *)
Theorem list_deque_refines `{!Malloc} os h l xs :
  is_list h l xs → Z.of_nat (length xs) + Z.of_nat (length os) < 2 ^ 64 →
  ∃ h' xs', exec_ops l os h = Done (fst (deque_ops xs.*2 os), h') ∧ is_list h' l xs' ∧
    xs'.*2 = snd (deque_ops xs.*2 os).
Proof. apply exec_ops_spec. Qed.

Lemma list_deque_refines_witness :
  ∃ h' xs', exec_ops 8 [Insert 3; Dequeue; Pop; InsertFirst 1; Dequeue] demo =
      Done ([None; Some 7; Some 3; None; Some 1], h') ∧
    is_list h' 8 xs' ∧ xs'.*2 = [9; 7].
Proof. exact (list_deque_refines [Insert 3; Dequeue; Pop; InsertFirst 1; Dequeue] demo 8 demo_xs
           demo_list ltac:(by vm_compute)). Defined.

(** [list_delete] unlinks exactly the node it is given, wherever it is in the
    list: the others keep their order and values, the node's links and owner are
    cleared, and every other list is as before. *)
Theorem list_delete_correct h l xs1 a v xs2 :
  is_list h l (xs1 ++ (a, v) :: xs2) →
  ∃ h', list_delete l a h = Done (tt, h') ∧ is_list h' l (xs1 ++ xs2) ∧
    nodes h' !! a = Some (Node NULL NULL v NULL) ∧
    ∀ l' ys, l' ≠ l → is_list h l' ys → is_list h' l' ys.
Proof.
  intros Hi. destruct (list_delete_spec _ _ _ _ _ _ Hi) as (h' & E & Hi' & Hn & Hf).
  exists h'. split_and!; try done. intros l' ys Hne Hy.
  eapply is_list_frame; [done|done|set_solver|]. intros b Hb. by eapply is_list_disjoint.
Qed.

Lemma list_delete_correct_witness :
  ∃ h', list_delete 8 32 demo = Done (tt, h') ∧ is_list h' 8 [(16, 7); (48, 7)] ∧
    nodes h' !! 32 = Some (Node NULL NULL 9 NULL) ∧
    ∀ l' ys, l' ≠ 8 → is_list demo l' ys → is_list h' l' ys.
Proof. exact (list_delete_correct demo 8 [(16, 7)] 32 9 [(48, 7)] demo_list). Defined.

(** [list_insert_after] and [list_insert_before] put a fresh node right after
    (before) the given node, whether it is in the middle or at an end, and every
    other list is as before. *)
Theorem list_insert_at_correct `{!Malloc} h l xs1 b bv xs2 v :
  is_list h l (xs1 ++ (b, bv) :: xs2) → Z.of_nat (length (xs1 ++ (b, bv) :: xs2)) + 1 < 2 ^ 64 →
  (∃ a h', list_insert_after l b v h = Done (a, h') ∧ a ∉ used h ∧
     is_list h' l (xs1 ++ (b, bv) :: (a, v) :: xs2) ∧
     ∀ l' ys, l' ≠ l → is_list h l' ys → is_list h' l' ys) ∧
  (∃ a h', list_insert_before l b v h = Done (a, h') ∧ a ∉ used h ∧
     is_list h' l (xs1 ++ (a, v) :: (b, bv) :: xs2) ∧
     ∀ l' ys, l' ≠ l → is_list h l' ys → is_list h' l' ys).
Proof.
  intros Hi Hroom.
  assert (Hother : ∀ a h', a ∉ used h → frame h h' (a :: (xs1 ++ (b, bv) :: xs2).*1) [l] →
    ∀ l' ys, l' ≠ l → is_list h l' ys → is_list h' l' ys).
  { intros a h' Ha Hf l' ys Hne Hy. eapply is_list_frame; [done|done|set_solver|].
    intros c Hc [->|Hc']%elem_of_cons; [|by eapply is_list_disjoint in Hc].
    apply list_elem_of_fmap in Hc as ([d w] & -> & Hd). destruct Hy as (y & _ & _ & _ & _ & Hs).
    destruct (dseg_node _ _ _ _ _ _ _ _ _ Hs Hd) as (_ & ? & ? & Hd').
    apply Ha, elem_of_union_l, elem_of_dom. eauto. }
  destruct (list_insert_after_spec h l xs1 b bv xs2 v Hi Hroom) as (a & h' & E & Hi' & Ha & _ & Hf).
  destruct (list_insert_before_spec h l xs1 b bv xs2 v Hi Hroom) as (a2 & h2 & E2 & Hi2 & Ha2 & _ & Hf2).
  split; eauto 12.
Qed.

Lemma list_insert_at_correct_witness :
  (∃ a h', list_insert_after 8 48 1 demo = Done (a, h') ∧ a ∉ used demo ∧
     is_list h' 8 (demo_xs ++ [(a, 1)]) ∧
     ∀ l' ys, l' ≠ 8 → is_list demo l' ys → is_list h' l' ys) ∧
  (∃ a h', list_insert_before 8 48 1 demo = Done (a, h') ∧ a ∉ used demo ∧
     is_list h' 8 [(16, 7); (32, 9); (a, 1); (48, 7)] ∧
     ∀ l' ys, l' ≠ 8 → is_list demo l' ys → is_list h' l' ys).
Proof.
  exact (list_insert_at_correct demo 8 [(16, 7); (32, 9)] 48 7 [] 1 demo_list ltac:(by vm_compute)).
Defined.

(** [list_find] returns the first node that holds the value, [list_index_of]
    its position (or -1), [list_index] the value at a position (or null); they
    return after at most one round per node and leave the heap alone. *)
Theorem list_search_correct h l xs v i fuel :
  is_list h l xs → Z.of_nat (length xs) < 2 ^ 31 → (length xs < fuel)%nat →
  list_find fuel l v h =
    Done (match first_with v xs with Some (_, (a, _)) => a | None => NULL end, h) ∧
  list_index_of fuel l v h =
    Done (match first_with v xs with Some (j, _) => Z.of_nat j | None => -1 end, h) ∧
  list_index fuel l (Z.of_nat i) h =
    Done (match xs !! i with Some (_, w) => w | None => NULL end, h).
Proof.
  intros Hi Hb Hf. split_and!.
  - by apply list_find_spec.
  - by apply list_index_of_spec.
  - erewrite list_index_spec by (done || lia). by rewrite Nat2Z.id.
Qed.

Lemma list_search_correct_witness :
  list_find 4 8 9 demo = Done (32, demo) ∧ list_index_of 4 8 9 demo = Done (1, demo) ∧
  list_index 4 8 2 demo = Done (7, demo).
Proof. exact (list_search_correct demo 8 demo_xs 9 2 4 demo_list ltac:(by vm_compute) ltac:(vm_compute; lia)). Defined.

(** [list_merge] appends the nodes of the source, in order, to the target,
    which owns them afterwards; the source header is freed. *)
Theorem list_merge_correct h t s xs ys fuel :
  is_list h t xs → is_list h s ys → t ≠ s →
  Z.of_nat (length xs) + Z.of_nat (length ys) < 2 ^ 64 → (length ys < fuel)%nat →
  ∃ h', list_merge fuel t s h = Done (tt, h') ∧ is_list h' t (xs ++ ys) ∧
    lists h' !! s = None ∧ frame h h' (xs ++ ys).*1 [t; s].
Proof. apply list_merge_spec. Qed.

Lemma list_merge_correct_witness :
  ∃ h', list_merge 4 12 8 demo = Done (tt, h') ∧ is_list h' 12 ((64, 5) :: demo_xs) ∧
    lists h' !! 8 = None ∧ frame demo h' ((64, 5) :: demo_xs).*1 [12; 8].
Proof.
  exact (list_merge_correct demo 12 8 [(64, 5)] demo_xs 4 demo_list2 demo_list ltac:(done)
           ltac:(by vm_compute) ltac:(vm_compute; lia)).
Defined.

(** [list_remove] removes the node at an index inside the list; the guard
    [index > list->length] lets the index one past the end through, and the null
    node is dereferenced. *)
Theorem list_remove_behaviour h l xs fuel :
  is_list h l xs → nodes h !! NULL = None → (length xs < fuel)%nat →
  (∀ i a v, xs !! i = Some (a, v) →
     ∃ h', list_remove fuel l (Z.of_nat i) h = Done (tt, h') ∧ is_list h' l (delete i xs)) ∧
  list_remove fuel l (Z.of_nat (length xs)) h = Fault.
Proof.
  intros Hi Hn Hf. split; [|by apply list_remove_past_end_spec].
  intros i a v Hx. apply lookup_lt_Some in Hx as Hlt.
  destruct (list_remove_spec h l xs i a v fuel Hi Hx) as (h' & E & Hi' & _); [lia|]. eauto.
Qed.

(** [list_copy] of a non-empty list never returns: its loop does not advance. *)
Theorem list_copy_diverges `{!Malloc} h l xs fuel :
  is_list h l xs → xs ≠ [] → Z.of_nat fuel < 2 ^ 64 → list_copy fuel l h = Timeout.
Proof. apply list_copy_spec. Qed.
