(* ===== verification/KHashmap.v ===== *)
(** * Hash maps ([src/kernel/misc/hashmap.c])

    A map is an array of buckets, each a chain of entries.  The chains are owned by
    the map alone, so a bucket is the sequence of its entries (the empty sequence is
    the null pointer), and following a null pointer is a [Fault].  The operations on
    keys are fields of the map, as in the code; [KeyOps] states what the map needs of
    them and has an instance for string keys and one for integer keys.  [models m g]
    relates a map to the finite map [g] it stands for; the theorems show that the
    operations implement those of finite maps. *)
From S2P Require Import Prelude KString.
Local Open Scope Z_scope.

(** ** Data *)

Record hashmap_entry_t (K : Type) : Type := Entry { key : K; value : Z }.
Arguments Entry {K} key value.
Arguments key {K} h.
Arguments value {K} h.

(** What the map has handed to [hash_key_free] and [hash_val_free], latest first. *)
Inductive release (K : Type) : Type :=
  | KeyFree (k : K)
  | EntryFree (e : hashmap_entry_t K).
Arguments KeyFree {K} k.
Arguments EntryFree {K} e.

Record hashmap_t (K : Type) : Type := Hashmap {
  hash_func : K → Z;
  hash_comp : K → K → Z;
  hash_key_dup : K → K;
  hash_key_free : K → list (release K);
  size : Z;
  entries : list (list (hashmap_entry_t K));
  released : list (release K)
}.
Arguments Hashmap {K} hash_func hash_comp hash_key_dup hash_key_free size entries released.
Arguments hash_func {K} h _.
Arguments hash_comp {K} h _ _.
Arguments hash_key_dup {K} h _.
Arguments hash_key_free {K} h _.
Arguments size {K} h.
Arguments entries {K} h.
Arguments released {K} h.

(** ** Keys *)

(** [hash = c + (hash << 6) + (hash << 16) - hash] on an [unsigned int], the
    character read as a signed [char]. *)
Definition hashmap_string_hash (key : list Z) : Z :=
  fold_left (λ hash c, u32 (i8 c + u32 (Z.shiftl hash 6) + u32 (Z.shiftl hash 16) - hash)) key 0.

Definition hashmap_string_comp (a b : list Z) : Z := truth (strcmp_ref a b =? 0).

Definition hashmap_string_dupe (key : list Z) : list Z := key.

Definition hashmap_int_hash (key : Z) : Z := u32 key.

Definition hashmap_int_comp (a b : Z) : Z := truth (a =? b).

Definition hashmap_int_dupe (key : Z) : Z := key.

Definition hashmap_int_free (ptr : Z) : list (release Z) := [].

Definition hashmap_create (size : Z) : hashmap_t (list Z) :=
  Hashmap hashmap_string_hash hashmap_string_comp hashmap_string_dupe (λ k, [KeyFree k])
    size (replicate (Z.to_nat size) []) [].

Definition hashmap_create_int (size : Z) : hashmap_t Z :=
  Hashmap hashmap_int_hash hashmap_int_comp hashmap_int_dupe hashmap_int_free
    size (replicate (Z.to_nat size) []) [].

(** ** Operations *)

Section Ops.
Context {K : Type}.
Implicit Types (m : hashmap_t K) (x : list (hashmap_entry_t K)).

(** [map->hash_func(key) % map->size]. *)
Definition slot m (key : K) : outcome Z :=
  if size m =? 0 then Fault else Done (u32 (hash_func m key `mod` size m)).

(** [map->entries[hash]]. *)
Definition bucket m (hash : Z) : outcome (list (hashmap_entry_t K)) :=
  of_option (entries m !! Z.to_nat hash).

Definition set_bucket m (hash : Z) x : hashmap_t K :=
  Hashmap (hash_func m) (hash_comp m) (hash_key_dup m) (hash_key_free m) (size m)
    (<[Z.to_nat hash := x]> (entries m)) (released m).

(** [map->hash_key_free(e->key); map->hash_val_free(e)]. *)
Definition release_entry m (e : hashmap_entry_t K) : hashmap_t K :=
  Hashmap (hash_func m) (hash_comp m) (hash_key_dup m) (hash_key_free m) (size m) (entries m)
    (EntryFree e :: hash_key_free m (key e) ++ released m).

(** The [do ... while (x)] loops; on a null [x] the first test dereferences it. *)
Fixpoint chain_set m x (k : K) (v : Z) : outcome (option Z * list (hashmap_entry_t K)) :=
  match x with
  | [] => Fault
  | e :: x' =>
      if negb (hash_comp m (key e) k =? 0) then Done (Some (value e), Entry (key e) v :: x')
      else match x' with
           | [] => Done (None, [e; Entry (hash_key_dup m k) v])
           | _ => '(r, y) ← chain_set m x' k v; Done (r, e :: y)
           end
  end.

Fixpoint chain_get m x (k : K) : outcome (option Z) :=
  match x with
  | [] => Fault
  | e :: x' =>
      if negb (hash_comp m (key e) k =? 0) then Done (Some (value e))
      else match x' with [] => Done None | _ => chain_get m x' k end
  end.

(** The loop of [hashmap_remove]: the entry unlinked and the chain without it. *)
Fixpoint chain_remove m x (k : K) : outcome (option (hashmap_entry_t K) * list (hashmap_entry_t K)) :=
  match x with
  | [] => Fault
  | e :: x' =>
      if negb (hash_comp m (key e) k =? 0) then Done (Some e, x')
      else match x' with
           | [] => Done (None, x)
           | _ => '(r, y) ← chain_remove m x' k; Done (r, e :: y)
           end
  end.

Definition hashmap_set m (k : K) (v : Z) : outcome (Z * hashmap_t K) :=
  hash ← slot m k;
  x ← bucket m hash;
  match x with
  | [] => Done (NULL, set_bucket m hash [Entry (hash_key_dup m k) v])
  | _ => '(r, y) ← chain_set m x k v;
         Done (default NULL r, set_bucket m hash y)
  end.

Definition hashmap_get m (k : K) : outcome Z :=
  hash ← slot m k;
  x ← bucket m hash;
  match x with
  | [] => Done NULL
  | _ => r ← chain_get m x k; Done (default NULL r)
  end.

Definition hashmap_remove m (k : K) : outcome (Z * hashmap_t K) :=
  hash ← slot m k;
  x ← bucket m hash;
  match x with
  | [] => Done (NULL, m)
  | e :: x' =>
      if negb (hash_comp m (key e) k =? 0) then
        Done (value e, release_entry (set_bucket m hash x') e)
      else
        '(r, y) ← chain_remove m x' k;
        match r with
        | Some e' => Done (value e', release_entry (set_bucket m hash (e :: y)) e')
        | None => Done (NULL, m)
        end
  end.

Definition hashmap_has m (k : K) : outcome Z :=
  hash ← slot m k;
  x ← bucket m hash;
  match x with
  | [] => Done 0
  | _ => r ← chain_get m x k; Done (match r with Some _ => 1 | None => 0 end)
  end.

(** [for (i = 0; i < map->size; ++i) ... map->entries[i]]: the buckets in order. *)
Definition all_entries m : list (hashmap_entry_t K) :=
  concat (take (Z.to_nat (size m)) (entries m)).

Definition hashmap_keys m : list K := key <$> all_entries m.
Definition hashmap_values m : list Z := value <$> all_entries m.

Definition hashmap_free m : list (release K) :=
  released (fold_left release_entry (all_entries m) m).

Definition hashmap_is_empty m : Z :=
  truth (forallb (λ x, match x with [] => true | _ => false end)
           (take (Z.to_nat (size m)) (entries m))).
End Ops.

(** ** What a map needs of its keys *)

(** [valid] is the set of keys the map is used with: on them [hash_comp] decides
    equality, [hash_key_dup] keeps the value and [hash_func] is an [unsigned int]. *)
Class KeyOps {K} (valid : K → Prop) (m : hashmap_t K) : Prop := {
  key_comp : ∀ a b, valid a → valid b → hash_comp m a b ≠ 0 ↔ a = b;
  key_dup : ∀ k, valid k → hash_key_dup m k = k;
  key_hash : ∀ k, valid k → 0 ≤ hash_func m k < 2 ^ 32
}.

(** Strings without embedded terminators; pointer-sized integers. *)
Definition valid_string (k : list Z) : Prop := Forall (λ c, 0 < c < 256) k.
Definition valid_int (k : Z) : Prop := - 2 ^ 63 ≤ k < 2 ^ 63.

Lemma hashmap_string_hash_range k : 0 ≤ hashmap_string_hash k < 2 ^ 32.
Proof.
  unfold hashmap_string_hash. set (f := λ hash c, _).
  cut (∀ z, 0 ≤ z < 2 ^ 32 → 0 ≤ fold_left f k z < 2 ^ 32); [intros H; apply H; lia|].
  induction k as [|c k IH]; intros z Hz; simpl; [lia|].
  apply IH. apply Z.mod_pos_bound. lia.
Qed.

#[export] Instance hashmap_create_ops n : KeyOps valid_string (hashmap_create n).
Proof.
  split; simpl.
  - intros a b Ha Hb. unfold hashmap_string_comp. rewrite <-(strcmp_ref_0 a b Ha Hb).
    destruct (Z.eqb_spec (strcmp_ref a b) 0); simpl; split; congruence.
  - done.
  - intros k _. apply hashmap_string_hash_range.
Qed.

#[export] Instance hashmap_create_int_ops n : KeyOps valid_int (hashmap_create_int n).
Proof.
  split; simpl.
  - intros a b _ _. unfold hashmap_int_comp. destruct (Z.eqb_spec a b); simpl; split; congruence.
  - done.
  - intros k _. apply Z.mod_pos_bound. lia.
Qed.

(** ** Maps as finite maps *)

Section Models.
Context {K : Type} `{Countable K} (valid : K → Prop).
Implicit Types (m : hashmap_t K) (x : list (hashmap_entry_t K)) (g : gmap K Z).

(** The index of the bucket of a key. *)
Definition index m (k : K) : nat := Z.to_nat (hash_func m k `mod` size m).

Fixpoint chain_lookup x (k : K) : option Z :=
  match x with
  | [] => None
  | e :: x' => if decide (key e = k) then Some (value e) else chain_lookup x' k
  end.

Record models m g : Prop := {
  models_ops :: KeyOps valid m;
  models_size : 0 < size m < 2 ^ 32 ∧ length (entries m) = Z.to_nat (size m);
  models_place : ∀ i x e, entries m !! i = Some x → e ∈ x → valid (key e) ∧ index m (key e) = i;
  models_nodup : ∀ i x, entries m !! i = Some x → NoDup (key <$> x);
  models_lookup : ∀ k x, entries m !! index m k = Some x → g !! k = chain_lookup x k
}.

Lemma index_lt m k : 0 < size m → (index m k < Z.to_nat (size m))%nat.
Proof. intros Hs. unfold index. pose proof (Z.mod_pos_bound (hash_func m k) (size m)). lia. Qed.

Lemma models_bucket m g k :
  models m g → ∃ x, entries m !! index m k = Some x ∧ g !! k = chain_lookup x k.
Proof.
  intros Hm. destruct (models_size _ _ Hm) as [Hs Hl].
  destruct (lookup_lt_is_Some_2 (entries m) (index m k)) as [x Hx].
  { rewrite Hl. apply index_lt. lia. }
  exists x. split; [done|]. by apply (models_lookup _ _ Hm).
Qed.

Lemma slot_eq m g k :
  models m g → valid k → slot m k = Done (Z.of_nat (index m k)).
Proof.
  intros Hm Hk. pose proof (models_ops _ _ Hm). destruct (models_size _ _ Hm) as [Hs Hl].
  unfold slot, index.
  rewrite (proj2 (Z.eqb_neq _ _)) by lia.
  pose proof (key_hash (m:=m) k Hk). pose proof (Z.mod_pos_bound (hash_func m k) (size m)).
  rewrite u32_small by lia. f_equal. lia.
Qed.

Lemma bucket_eq m i x : entries m !! i = Some x → bucket m (Z.of_nat i) = Done x.
Proof. unfold bucket. rewrite Nat2Z.id. by intros ->. Qed.

Lemma comp_decide m `{!KeyOps valid m} a b :
  valid a → valid b → negb (hash_comp m a b =? 0) = bool_decide (a = b).
Proof.
  intros Ha Hb. pose proof (key_comp (m:=m) a b Ha Hb) as H1.
  destruct (Z.eqb_spec (hash_comp m a b) 0) as [E|E]; simpl.
  - symmetry. apply bool_decide_eq_false. intros ->. by apply H1.
  - symmetry. apply bool_decide_eq_true. by apply H1.
Qed.

Lemma chain_get_eq m `{!KeyOps valid m} x k :
  valid k → (∀ e, e ∈ x → valid (key e)) → x ≠ [] → chain_get m x k = Done (chain_lookup x k).
Proof.
  intros Hk. induction x as [|e x IH]; intros Hx Hne; [done|]. simpl.
  rewrite comp_decide by (auto; apply Hx; left).
  destruct (decide (key e = k)) as [E|E]; [by rewrite bool_decide_eq_true_2|].
  rewrite bool_decide_eq_false_2 by done. destruct x as [|e' x]; [done|].
  apply IH; [|done]. intros e2 He2. apply Hx. by right.
Qed.

Lemma chain_lookup_None x k : chain_lookup x k = None ↔ k ∉ key <$> x.
Proof.
  induction x as [|e x IH]; simpl; [set_solver|]. rewrite not_elem_of_cons, <-IH.
  destruct (decide (key e = k)); naive_solver.
Qed.

Lemma chain_lookup_Some x k v :
  NoDup (key <$> x) → chain_lookup x k = Some v ↔ Entry k v ∈ x.
Proof.
  induction x as [|[k' v'] x IH]; simpl; [set_solver|].
  intros [Hni Hnd]%NoDup_cons. rewrite elem_of_cons, <-(IH Hnd).
  destruct (decide (k' = k)) as [->|Hne].
  - split; [naive_solver|]. intros [[= ->]|Hl]; [done|].
    destruct Hni. change k with (key (Entry k v)). apply list_elem_of_fmap_2, IH; done.
  - naive_solver.
Qed.

(** [hashmap_set] on one chain: the old value, and the chain with the new one. *)
Lemma chain_set_eq m `{!KeyOps valid m} x k v :
  valid k → (∀ e, e ∈ x → valid (key e)) → x ≠ [] →
  ∃ y, chain_set m x k v = Done (chain_lookup x k, y) ∧
    (∀ k', chain_lookup y k' = if decide (k = k') then Some v else chain_lookup x k') ∧
    (key <$> y) = (key <$> x) ++ (if decide (k ∈ key <$> x) then [] else [k]).
Proof.
  intros Hk. induction x as [|e x IH]; intros Hx Hne; [done|]. simpl chain_set. simpl chain_lookup.
  rewrite comp_decide by (auto; apply Hx; left).
  destruct (decide (key e = k)) as [E|E].
  - rewrite bool_decide_eq_true_2 by done. eexists. split_and!; [done|..].
    + intros k'. simpl. repeat case_decide; congruence.
    + rewrite decide_True by (simpl; rewrite E; left). by rewrite app_nil_r.
  - rewrite bool_decide_eq_false_2 by done.
    destruct x as [|e' x].
    + eexists. split_and!; [done|..]; rewrite key_dup by done.
      * intros k'. simpl. repeat case_decide; congruence.
      * simpl. rewrite decide_False; [done|]. set_solver.
    + destruct IH as (y & Ey & Hl & Hkey); [|done|].
      { intros e2 He2. apply Hx. by right. }
      rewrite Ey. exists (e :: y). osimpl. split_and!; [done|..].
      * intros k'. simpl chain_lookup. rewrite Hl. simpl. repeat case_decide; congruence.
      * rewrite (fmap_cons _ e y), Hkey, (fmap_cons _ e (e' :: x)). simpl app. do 3 f_equal.
        apply decide_ext. split; intros Hi; [by right|].
        apply elem_of_cons in Hi as [Hi|Hi]; [congruence|done].
Qed.

(** Replacing the bucket of a key. *)
Lemma models_set_bucket m g k x y (o : option Z) :
  models m g → valid k → entries m !! index m k = Some x →
  (∀ e, e ∈ y → valid (key e) ∧ index m (key e) = index m k) → NoDup (key <$> y) →
  (∀ k', chain_lookup y k' = if decide (k = k') then o else chain_lookup x k') →
  models (set_bucket m (Z.of_nat (index m k)) y) (partial_alter (λ _, o) k g).
Proof.
  intros Hm Hk Hx Hp Hnd Hl. destruct (models_size _ _ Hm) as [Hs Hlen].
  pose proof (lookup_lt_Some _ _ _ Hx) as Hlt.
  assert (Hlk : ∀ i z, entries (set_bucket m (Z.of_nat (index m k)) y) !! i = Some z →
    (i = index m k ∧ z = y) ∨ (i ≠ index m k ∧ entries m !! i = Some z)).
  { intros i z. simpl. rewrite Nat2Z.id, list_lookup_insert. case_decide; naive_solver. }
  split.
  - pose proof (models_ops _ _ Hm). split; simpl; [apply key_comp|apply key_dup|apply key_hash].
  - simpl. by rewrite length_insert.
  - intros i z e Hz He. change (index (set_bucket m _ y) (key e)) with (index m (key e)).
    destruct (Hlk i z Hz) as [[-> ->]|[_ Hz']]; [by apply Hp|by eapply models_place].
  - intros i z Hz. destruct (Hlk i z Hz) as [[-> ->]|[_ Hz']]; [done|by eapply models_nodup].
  - intros k' z Hz. change (index (set_bucket m _ y) k') with (index m k') in Hz.
    destruct (Hlk _ _ Hz) as [[Ei ->]|[Hne Hz']].
    + rewrite Hl. case_decide as E; [subst k'; rewrite lookup_partial_alter_eq; done|].
      rewrite lookup_partial_alter_ne by done. apply (models_lookup _ _ Hm). by rewrite Ei.
    + rewrite lookup_partial_alter_ne by congruence. by apply (models_lookup _ _ Hm).
Qed.

Lemma hashmap_get_models m g k :
  models m g → valid k → hashmap_get m k = Done (default NULL (g !! k)).
Proof.
  intros Hm Hk. pose proof (models_ops _ _ Hm). destruct (models_bucket m g k Hm) as (x & Hx & ->).
  unfold hashmap_get. rewrite (slot_eq m g) by done. osimpl. rewrite (bucket_eq _ _ _ Hx). osimpl.
  destruct x as [|e x]; [done|]. rewrite (chain_get_eq m (e :: x) k Hk); [done| |done].
  intros e' He. by eapply models_place.
Qed.

Lemma hashmap_has_models m g k :
  models m g → valid k → hashmap_has m k = Done (truth (bool_decide (is_Some (g !! k)))).
Proof.
  intros Hm Hk. pose proof (models_ops _ _ Hm). destruct (models_bucket m g k Hm) as (x & Hx & ->).
  unfold hashmap_has. rewrite (slot_eq m g) by done. osimpl. rewrite (bucket_eq _ _ _ Hx). osimpl.
  destruct x as [|e x]; [done|]. rewrite (chain_get_eq m (e :: x) k Hk); [| |done].
  - osimpl. destruct (chain_lookup (e :: x) k); [by rewrite bool_decide_eq_true_2|].
    rewrite bool_decide_eq_false_2; [done|]. by intros [? ?].
  - intros e' He. by eapply models_place.
Qed.

Lemma hashmap_set_models m g k v :
  models m g → valid k →
  ∃ m', hashmap_set m k v = Done (default NULL (g !! k), m') ∧ models m' (<[k := v]> g) ∧
    released m' = released m.
Proof.
  intros Hm Hk. pose proof (models_ops _ _ Hm). destruct (models_bucket m g k Hm) as (x & Hx & ->).
  assert (Hv : ∀ e, e ∈ x → valid (key e) ∧ index m (key e) = index m k).
  { intros e He. by eapply models_place. }
  unfold hashmap_set. rewrite (slot_eq m g) by done. osimpl. rewrite (bucket_eq _ _ _ Hx). osimpl.
  destruct x as [|e x].
  - eexists. split_and!; [done| |done]. apply (models_set_bucket m g k [] _ (Some v)); try done.
    + intros e ->%list_elem_of_singleton. simpl. by rewrite key_dup.
    + apply NoDup_singleton.
    + intros k'. simpl. by rewrite key_dup.
  - destruct (chain_set_eq m (e :: x) k v Hk) as (y & -> & Hl & Hkey); [by intros; apply Hv|done|].
    osimpl. eexists. split_and!; [done| |done].
    apply (models_set_bucket m g k (e :: x) _ (Some v)); try done.
    + intros e' He. apply (list_elem_of_fmap_2 key) in He. rewrite Hkey in He.
      apply elem_of_app in He as [(e2 & -> & He2)%list_elem_of_fmap|He]; [by apply Hv|].
      case_decide; [set_solver|]. apply list_elem_of_singleton in He as ->. done.
    + rewrite Hkey. pose proof (models_nodup _ _ Hm _ _ Hx). case_decide; [by rewrite app_nil_r|].
      apply NoDup_app. split_and!; [done| |apply NoDup_singleton]. set_solver.
Qed.

(** The loop of [hashmap_remove] on a non-empty chain with distinct keys. *)
Lemma chain_remove_eq m `{!KeyOps valid m} x k :
  valid k → (∀ e, e ∈ x → valid (key e)) → x ≠ [] → NoDup (key <$> x) →
  ∃ y, chain_remove m x k = Done (Entry k <$> chain_lookup x k, y) ∧
    (∀ k', chain_lookup y k' = if decide (k = k') then None else chain_lookup x k') ∧
    y `sublist_of` x.
Proof.
  intros Hk. induction x as [|e x IH]; intros Hx Hne Hnd; [done|]. simpl chain_remove. simpl chain_lookup.
  apply NoDup_cons in Hnd as [Hni Hnd]. rewrite comp_decide by (auto; apply Hx; left).
  destruct (decide (key e = k)) as [E|E].
  - rewrite bool_decide_eq_true_2 by done. exists x. split_and!.
    + destruct e. simpl in *. by subst.
    + intros k'. repeat case_decide; subst; try done. by apply chain_lookup_None.
    + by apply sublist_skip_r || by constructor.
  - rewrite bool_decide_eq_false_2 by done. destruct x as [|e' x].
    + exists [e]. split_and!; [done| |done]. intros k'. simpl. repeat case_decide; congruence.
    + destruct IH as (y & Ey & Hl & Hsub); [|done|done|].
      { intros e2 He2. apply Hx. by right. }
      rewrite Ey. exists (e :: y). osimpl. split_and!; [done| |by constructor].
      intros k'. simpl chain_lookup. rewrite Hl. simpl. repeat case_decide; congruence.
Qed.

Lemma models_release m g e : models m g → models (release_entry m e) g.
Proof. intros [[] ? ? ? ?]. by split. Qed.

Lemma hashmap_remove_present m g k v :
  models m g → valid k → g !! k = Some v →
  ∃ m', hashmap_remove m k = Done (v, m') ∧ models m' (delete k g) ∧
    released m' = EntryFree (Entry k v) :: hash_key_free m k ++ released m.
Proof.
  intros Hm Hk Hg. pose proof (models_ops _ _ Hm) as Hops.
  destruct (models_bucket m g k Hm) as (x & Hx & Hgx). rewrite Hgx in Hg.
  pose proof (models_nodup _ _ Hm _ _ Hx) as Hnd.
  assert (Hv : ∀ e, e ∈ x → valid (key e) ∧ index m (key e) = index m k).
  { intros e He. by eapply models_place. }
  unfold hashmap_remove. rewrite (slot_eq m g) by done. osimpl. rewrite (bucket_eq _ _ _ Hx). osimpl.
  destruct x as [|e x]; [done|]. rewrite (comp_decide m) by (auto; apply Hv; left).
  simpl in Hg. destruct (decide (key e = k)) as [E|E].
  - rewrite bool_decide_eq_true_2 by done. simplify_eq. eexists. split_and!; [done| |].
    + apply models_release, (models_set_bucket m g _ (e :: x) _ None); try done.
      * intros e' He. apply Hv. by right.
      * by apply NoDup_cons in Hnd as [_ ?].
      * intros k'. simpl. repeat case_decide; try done. subst.
        apply chain_lookup_None. by apply NoDup_cons in Hnd as [? _].
    + simpl. by destruct e.
  - rewrite bool_decide_eq_false_2 by done. pose proof Hnd as Hnd2. rewrite fmap_cons, NoDup_cons in Hnd2. destruct Hnd2 as [Hni Hnd'].
    destruct (chain_remove_eq m x k Hk) as (y & -> & Hl & Hsub); [|by intros ->|done|].
    { intros e' He. apply Hv. by right. }
    rewrite Hg. osimpl. eexists. split_and!; [done| |done].
    apply models_release, (models_set_bucket m g _ (e :: x) _ None); try done.
    + intros e' [->|He]%elem_of_cons; [apply Hv; left|]. apply Hv. right.
      by eapply elem_of_submseteq, sublist_submseteq.
    + rewrite fmap_cons. apply NoDup_cons. split.
      * intros Hin. apply Hni. eapply elem_of_submseteq; [exact Hin|].
        by apply sublist_submseteq, fmap_sublist.
      * eapply sublist_NoDup; [exact Hnd'|]. by apply fmap_sublist.
    + intros k'. simpl. rewrite Hl. repeat case_decide; congruence.
Qed.

Lemma hashmap_remove_absent m g k x :
  models m g → valid k → g !! k = None → entries m !! index m k = Some x →
  hashmap_remove m k = if decide (length x = 1%nat) then Fault else Done (NULL, m).
Proof.
  intros Hm Hk Hg Hx. pose proof (models_ops _ _ Hm) as Hops.
  rewrite (models_lookup _ _ Hm k x Hx) in Hg.
  pose proof (models_nodup _ _ Hm _ _ Hx) as Hnd.
  assert (Hv : ∀ e, e ∈ x → valid (key e)).
  { intros e He. by eapply models_place. }
  unfold hashmap_remove. rewrite (slot_eq m g) by done. osimpl. rewrite (bucket_eq _ _ _ Hx). osimpl.
  destruct x as [|e x]; [done|]. rewrite (comp_decide m) by (auto; apply Hv; left).
  simpl in Hg. destruct (decide (key e = k)) as [E|E]; [done|].
  rewrite bool_decide_eq_false_2 by done. apply NoDup_cons in Hnd as [_ Hnd].
  destruct x as [|e' x]; [done|].
  destruct (chain_remove_eq m (e' :: x) k Hk) as (y & -> & _); [|done|done|].
  { intros e2 He. apply Hv. by right. }
  rewrite Hg. osimpl. done.
Qed.

Lemma models_entries m g : models m g → all_entries m = concat (entries m).
Proof.
  intros Hm. destruct (models_size _ _ Hm) as [_ Hl]. unfold all_entries.
  by rewrite <-Hl, take_ge by lia.
Qed.

Lemma entries_in m g k v : models m g → Entry k v ∈ concat (entries m) ↔ g !! k = Some v.
Proof.
  intros Hm. split.
  - intros (x & Hin & Hx)%list_elem_of_In%in_concat.
    apply list_elem_of_In in Hx. apply list_elem_of_In, list_elem_of_lookup in Hin as [i Hi].
    destruct (models_place _ _ Hm _ _ _ Hi Hx) as [_ Ei]. simpl in Ei. subst i.
    rewrite (models_lookup _ _ Hm k x Hi). apply chain_lookup_Some; [|done].
    by eapply models_nodup.
  - intros Hg. destruct (models_bucket m g k Hm) as (x & Hx & E). rewrite Hg in E.
    symmetry in E. apply chain_lookup_Some in E; [|by eapply models_nodup].
    apply list_elem_of_In, in_concat. exists x. split; [|by apply list_elem_of_In].
    apply list_elem_of_In. by eapply list_elem_of_lookup_2.
Qed.

Lemma entries_nodup m g : models m g → NoDup (key <$> concat (entries m)).
Proof.
  intros Hm. change (NoDup (List.map key (concat (entries m)))). rewrite concat_map.
  change (NoDup (concat (list_fmap _ _ (list_fmap _ _ key) (entries m)))).
  apply NoDup_concat.
  - intros i z. rewrite list_lookup_fmap. intros (y & Hy & ->)%fmap_Some.
    by eapply models_nodup.
  - intros i j z y a. rewrite !list_lookup_fmap.
    intros (x' & Hx & ->)%fmap_Some (y' & Hy & ->)%fmap_Some
      (e & -> & He)%list_elem_of_fmap (e' & E & He')%list_elem_of_fmap.
    destruct (models_place _ _ Hm _ _ _ Hx He) as [_ <-].
    destruct (models_place _ _ Hm _ _ _ Hy He') as [_ <-]. by rewrite E.
Qed.

Lemma hashmap_entries_perm m g :
  models m g → (λ e, (key e, value e)) <$> all_entries m ≡ₚ map_to_list g.
Proof.
  intros Hm. rewrite (models_entries m g Hm). apply NoDup_Permutation.
  - apply (NoDup_fmap_1 fst). rewrite <-list_fmap_compose. by eapply entries_nodup.
  - apply NoDup_map_to_list.
  - intros [k v]. rewrite elem_of_map_to_list, <-(entries_in m g k v Hm), list_elem_of_fmap. split.
    + intros ([k' v'] & [= -> ->] & Hin). done.
    + intros Hin. by exists (Entry k v).
Qed.

(** ** Sequences of operations *)

Inductive hop : Type :=
  | HSet (k : K) (v : Z)
  | HGet (k : K)
  | HHas (k : K)
  | HRemove (k : K).

Definition exec_hop m (o : hop) : outcome (Z * hashmap_t K) :=
  match o with
  | HSet k v => hashmap_set m k v
  | HGet k => r ← hashmap_get m k; Done (r, m)
  | HHas k => r ← hashmap_has m k; Done (r, m)
  | HRemove k => hashmap_remove m k
  end.

Fixpoint exec_hops m (os : list hop) : outcome (list Z * hashmap_t K) :=
  match os with
  | [] => Done ([], m)
  | o :: os' => '(r, m1) ← exec_hop m o; '(rs, m2) ← exec_hops m1 os'; Done (r :: rs, m2)
  end.

Definition map_op g (o : hop) : Z * gmap K Z :=
  match o with
  | HSet k v => (default NULL (g !! k), <[k := v]> g)
  | HGet k => (default NULL (g !! k), g)
  | HHas k => (truth (bool_decide (is_Some (g !! k))), g)
  | HRemove k => (default NULL (g !! k), delete k g)
  end.

Fixpoint map_ops g (os : list hop) : list Z * gmap K Z :=
  match os with
  | [] => ([], g)
  | o :: os' => let '(r, g1) := map_op g o in let '(rs, g2) := map_ops g1 os' in (r :: rs, g2)
  end.

(** The keys are valid and a key is removed only when it is there. *)
Fixpoint safe_ops g (os : list hop) : Prop :=
  match os with
  | [] => True
  | o :: os' =>
      match o with
      | HSet k _ | HGet k | HHas k => valid k
      | HRemove k => valid k ∧ is_Some (g !! k)
      end ∧ safe_ops (snd (map_op g o)) os'
  end.

Lemma exec_hop_models m g o :
  models m g → match o with
               | HSet k _ | HGet k | HHas k => valid k
               | HRemove k => valid k ∧ is_Some (g !! k)
               end →
  ∃ m', exec_hop m o = Done (fst (map_op g o), m') ∧ models m' (snd (map_op g o)).
Proof.
  intros Hm Ho. destruct o as [k v|k|k|k]; simpl.
  - destruct (hashmap_set_models m g k v Hm Ho) as (m' & -> & Hm' & _). eauto.
  - rewrite (hashmap_get_models m g k Hm Ho). osimpl. eauto.
  - rewrite (hashmap_has_models m g k Hm Ho). osimpl. eauto.
  - destruct Ho as [Hk [v Hv]].
    destruct (hashmap_remove_present m g k v Hm Hk Hv) as (m' & -> & Hm' & _). rewrite Hv. eauto.
Qed.

Lemma exec_hops_models os m g :
  models m g → safe_ops g os →
  ∃ m', exec_hops m os = Done (fst (map_ops g os), m') ∧ models m' (snd (map_ops g os)).
Proof.
  revert m g. induction os as [|o os IH]; intros m g Hm Hs; [by exists m|]. destruct Hs as [Ho Hs].
  destruct (exec_hop_models m g o Hm Ho) as (m1 & E1 & Hm1).
  destruct (IH m1 _ Hm1 Hs) as (m2 & E2 & Hm2). exists m2. simpl. rewrite E1. osimpl. rewrite E2.
  osimpl. destruct (map_op g o) as [r g1]. simpl in *. by destruct (map_ops g1 os).
Qed.
End Models.

Lemma create_models n : 0 < n < 2 ^ 31 → models valid_string (hashmap_create n) ∅.
Proof.
  intros Hn. split; simpl.
  - apply _.
  - rewrite length_replicate. lia.
  - intros i x e [-> _]%lookup_replicate. set_solver.
  - intros i x [-> _]%lookup_replicate. constructor.
  - intros k x [-> _]%lookup_replicate. done.
Qed.

(** ** The theorems *)

(** C27: on a map made by [hashmap_create], any sequence of [hashmap_set],
    [hashmap_get], [hashmap_has] and [hashmap_remove] of present keys returns what a
    finite map from strings returns; afterwards [hashmap_keys] and [hashmap_values]
    list exactly its keys and values, once each. *)
Theorem hashmap_refines n os :
  0 < n < 2 ^ 31 → safe_ops valid_string ∅ os →
  ∃ m, exec_hops (hashmap_create n) os = Done (fst (map_ops ∅ os), m) ∧
    models valid_string m (snd (map_ops ∅ os)) ∧
    hashmap_keys m ≡ₚ (map_to_list (snd (map_ops ∅ os))).*1 ∧
    hashmap_values m ≡ₚ (map_to_list (snd (map_ops ∅ os))).*2.
Proof.
  intros Hn Hs. destruct (exec_hops_models valid_string os _ _ (create_models n Hn) Hs) as (m & E & Hm).
  exists m. split_and!; [done|done|..]; rewrite <-(hashmap_entries_perm _ _ _ Hm), <-list_fmap_compose; done.
Qed.

Lemma hashmap_refines_witness :
  ∃ m, exec_hops (hashmap_create 1)
      [HSet (str "tty") 16; HSet (str "pty") 32; HSet (str "tty") 48; HGet (str "pty");
       HHas (str "shm"); HRemove (str "pty"); HGet (str "tty")] =
      Done ([0; 0; 16; 32; 0; 32; 48], m) ∧
    models valid_string m {[ str "tty" := 48 ]} ∧
    hashmap_keys m ≡ₚ [str "tty"] ∧ hashmap_values m ≡ₚ [48].
Proof.
  destruct (hashmap_refines 1
    [HSet (str "tty") 16; HSet (str "pty") 32; HSet (str "tty") 48; HGet (str "pty");
     HHas (str "shm"); HRemove (str "pty"); HGet (str "tty")] ltac:(lia)) as (m & H1 & H2 & H3 & H4).
  { assert (∀ k, forallb (λ c, (0 <? c) && (c <? 256)) k = true → valid_string k) as V.
    { intros k Hk. apply Forall_forall. intros c Hc%list_elem_of_In.
      rewrite forallb_forall in Hk. specialize (Hk c Hc). lia. }
    cbn [safe_ops]. repeat split; try (by apply V). by eexists. }
  exists m. split_and!; [exact H1|exact H2|exact H3|exact H4].
Defined.

(** [hashmap_remove] of a present key returns its value, removes only that
    binding and releases the key and the entry once; of an absent key it returns
    null and changes nothing, except when the key's bucket holds exactly one entry:
    then it follows the null successor of that entry and faults. *)
Theorem hashmap_remove_behaviour `{Countable K} (valid : K → Prop) m g k x :
  models valid m g → valid k → entries m !! index m k = Some x →
  match g !! k with
  | Some v => ∃ m', hashmap_remove m k = Done (v, m') ∧ models valid m' (delete k g) ∧
      released m' = EntryFree (Entry k v) :: hash_key_free m k ++ released m
  | None => hashmap_remove m k = if decide (length x = 1%nat) then Fault else Done (NULL, m)
  end.
Proof.
  intros Hm Hk Hx. destruct (g !! k) as [v|] eqn:Hg.
  - by apply (hashmap_remove_present valid m g).
  - by apply (hashmap_remove_absent valid m g).
Qed.

Lemma hashmap_remove_behaviour_witness :
  let m := Hashmap hashmap_int_hash hashmap_int_comp hashmap_int_dupe hashmap_int_free 4
             [[]; [Entry 5 7]; []; []] [] in
  hashmap_remove m 9 = Fault.
Proof.
  refine (hashmap_remove_behaviour valid_int
    (Hashmap hashmap_int_hash hashmap_int_comp hashmap_int_dupe hashmap_int_free 4
             [[]; [Entry 5 7]; []; []] []) {[ 5 := 7 ]} 9 [Entry 5 7] _ _ _);
    [|vm_compute; split; congruence|reflexivity].
  split.
  - destruct (hashmap_create_int_ops 4) as [H1 H2 H3]. by split.
  - done.
  - intros [|[|[|[|i]]]] x e; simpl; intros [= <-]; try set_solver.
    intros ->%list_elem_of_singleton. split; [vm_compute; split; congruence|reflexivity].
  - intros [|[|[|[|i]]]] x; simpl; intros [= <-]; first [apply NoDup_nil_2|apply NoDup_singleton].
  - intros k x. simpl. unfold index. simpl.
    destruct (Z.to_nat (hashmap_int_hash k `mod` 4)) as [|[|[|[|i]]]] eqn:E; simpl; intros [= <-]; simpl;
      try case_decide; subst; simplify_map_eq; try done; apply lookup_singleton_ne; by intros <-.
Defined.
