(* ===== verification/KTree.v ===== *)
(** * Trees ([src/kernel/misc/tree.c])

    The heap holds the tree nodes by address; a node's list of children
    ([list_t] of [src/kernel/misc/list.c]) is the sequence of the addresses it
    holds, as KList shows lists behave.  Reading a null or freed node is a [Fault];
    the recursive functions take fuel that bounds the depth of the recursion.

    [wf] is the invariant of a tree whose nodes are those of the heap (the process
    tree is one): parent pointers and children lists agree, every node descends from
    the root, and [tree->nodes] counts the nodes.  [repr] relates a heap to a
    mathematical tree, against which the searches are specified. *)
From S2P Require Import Prelude.
Local Open Scope Z_scope.

(** ** Data *)

Record tree_node_t : Type := TreeNode {
  value : Z;
  children : list Z;
  parent : Z
}.

(** The tree header and the heap of nodes; [freed] are the values passed to [free]. *)
Record tree_state : Type := Tree {
  nodes : Z;
  root : Z;
  heap : gmap Z tree_node_t;
  freed : list Z
}.

Definition with_nodes (t : tree_state) (n : Z) : tree_state := Tree n (root t) (heap t) (freed t).
Definition with_root (t : tree_state) (r : Z) : tree_state := Tree (nodes t) r (heap t) (freed t).
Definition with_heap (t : tree_state) (h : gmap Z tree_node_t) : tree_state :=
  Tree (nodes t) (root t) h (freed t).

Definition set_children (cs : list Z) (n : tree_node_t) : tree_node_t :=
  TreeNode (value n) cs (parent n).
Definition set_parent (p : Z) (n : tree_node_t) : tree_node_t :=
  TreeNode (value n) (children n) p.

Definition rd (a : Z) : St tree_state tree_node_t := λ t,
  match heap t !! a with Some n => Done (n, t) | None => Fault end.
Definition wr (a : Z) (f : tree_node_t → tree_node_t) : St tree_state unit := λ t,
  match heap t !! a with
  | Some n => Done (tt, with_heap t (<[a := f n]> (heap t)))
  | None => Fault
  end.
Definition free_tree_node (a : Z) : St tree_state unit := λ t,
  match heap t !! a with
  | Some _ => Done (tt, with_heap t (delete a (heap t)))
  | None => Fault
  end.
Definition free_value (v : Z) : St tree_state unit :=
  modify (λ t, Tree (nodes t) (root t) (heap t) (v :: freed t)).

(** [foreach(child, list) body]. *)
Fixpoint foreach {A} (cs : list A) (body : A → St tree_state unit) : St tree_state unit :=
  match cs with
  | [] => mret tt
  | c :: cs' => body c;; foreach cs' body
  end.

(** The first occurrence removed. *)
Fixpoint remove_first (c : Z) (cs : list Z) : list Z :=
  match cs with
  | [] => []
  | d :: cs' => if d =? c then cs' else d :: remove_first c cs'
  end.

(** [list_delete(p->children, list_find(p->children, c))]; a child that is not
    found gives the null node, which [list_delete] dereferences. *)
Definition delete_child (p c : Z) : St tree_state unit :=
  n ← rd p;
  if bool_decide (c ∈ children n) then wr p (set_children (remove_first c (children n)))
  else fault.

Section Ops.
Context `{!Malloc}.

(** ** Operations *)

Definition tree_create : tree_state := Tree 0 NULL ∅ [].

Definition tree_node_create (v : Z) : St tree_state Z := λ t,
  let a := malloc (dom (heap t)) in
  Done (a, with_heap t (<[a := TreeNode v [] NULL]> (heap t))).

Definition tree_set_root (v : Z) : St tree_state unit :=
  r ← tree_node_create v;
  modify (λ t, with_root t r);;
  modify (λ t, with_nodes t 1).

Fixpoint tree_node_destroy (fuel : nat) (node : Z) : St tree_state unit :=
  match fuel with
  | O => λ _, Timeout
  | S f => n ← rd node;
           foreach (children n) (tree_node_destroy f);;
           free_value (value n)
  end.

Definition tree_destroy (fuel : nat) : St tree_state unit :=
  r ← gets root;
  if negb (r =? NULL) then tree_node_destroy fuel r else mret tt.

Fixpoint tree_node_free (fuel : nat) (node : Z) : St tree_state unit :=
  match fuel with
  | O => λ _, Timeout
  | S f => if node =? NULL then mret tt
           else n ← rd node;
                foreach (children n) (tree_node_free f);;
                free_tree_node node
  end.

Definition tree_free (fuel : nat) : St tree_state unit :=
  r ← gets root; tree_node_free fuel r.

Definition tree_node_insert_child_node (par node : Z) : St tree_state unit :=
  n ← rd par;
  wr par (set_children (children n ++ [node]));;
  wr node (set_parent par);;
  modify (λ t, with_nodes t (u64 (nodes t + 1))).

Definition tree_node_insert_child (par v : Z) : St tree_state Z :=
  out ← tree_node_create v;
  tree_node_insert_child_node par out;;
  mret out.

(** The loop of [tree_node_find_parent] over the children, the recursive call as
    [rec]. *)
Fixpoint find_parent_in (rec : Z → St tree_state Z) (haystack needle : Z) (cs : list Z)
    : St tree_state Z :=
  match cs with
  | [] => mret NULL
  | c :: cs' =>
      if c =? needle then mret haystack
      else found ← rec c;
           if negb (found =? NULL) then mret found
           else find_parent_in rec haystack needle cs'
  end.

Fixpoint tree_node_find_parent (fuel : nat) (haystack needle : Z) : St tree_state Z :=
  match fuel with
  | O => λ _, Timeout
  | S f => n ← rd haystack;
           find_parent_in (λ c, tree_node_find_parent f c needle) haystack needle (children n)
  end.

Definition tree_find_parent (fuel : nat) (node : Z) : St tree_state Z :=
  r ← gets root;
  if r =? NULL then mret NULL else tree_node_find_parent fuel r node.

Fixpoint sum_counts (rec : Z → St tree_state Z) (out : Z) (cs : list Z) : St tree_state Z :=
  match cs with
  | [] => mret out
  | c :: cs' => k ← rec c; sum_counts rec (u64 (out + k)) cs'
  end.

Fixpoint tree_count_children (fuel : nat) (node : Z) : St tree_state Z :=
  match fuel with
  | O => λ _, Timeout
  | S f => if node =? NULL then mret 0
           else n ← rd node;
                sum_counts (tree_count_children f) (u64 (Z.of_nat (length (children n))))
                  (children n)
  end.

Definition tree_node_parent_remove (fuel : nat) (par node : Z) : St tree_state unit :=
  k ← tree_count_children fuel node;
  modify (λ t, with_nodes t (u64 (nodes t - u64 (k + 1))));;
  delete_child par node;;
  tree_node_free fuel node.

Definition tree_node_remove (fuel : nat) (node : Z) : St tree_state unit :=
  n ← rd node;
  let par := parent n in
  (if par =? NULL then
     r ← gets root;
     if node =? r then
       modify (λ t, with_nodes t 0);;
       modify (λ t, with_root t NULL);;
       tree_node_free fuel node
     else mret tt
   else mret tt);;
  tree_node_parent_remove fuel par node.

(** [list_merge(target->children, node->children)]. *)
Definition merge_children (target node : Z) : St tree_state unit :=
  n ← rd node;
  wr target (λ p, set_children (children p ++ children n) p).

Definition tree_remove (node : Z) : St tree_state unit :=
  n ← rd node;
  let par := parent n in
  if par =? NULL then mret tt
  else
    modify (λ t, with_nodes t (u64 (nodes t - 1)));;
    delete_child par node;;
    n ← rd node;
    foreach (children n) (λ c, wr c (set_parent par));;
    merge_children par node;;
    free_tree_node node.

Definition tree_remove_reparent_root (node : Z) : St tree_state unit :=
  n ← rd node;
  let par := parent n in
  if par =? NULL then mret tt
  else
    modify (λ t, with_nodes t (u64 (nodes t - 1)));;
    delete_child par node;;
    n ← rd node;
    r ← gets root;
    foreach (children n) (λ c, wr c (set_parent r));;
    merge_children r node;;
    free_tree_node node.

Definition tree_break_off (node : Z) : St tree_state unit :=
  n ← rd node;
  let par := parent n in
  if par =? NULL then mret tt else delete_child par node.

Fixpoint find_in (rec : Z → St tree_state Z) (cs : list Z) : St tree_state Z :=
  match cs with
  | [] => mret NULL
  | c :: cs' => found ← rec c; if negb (found =? NULL) then mret found else find_in rec cs'
  end.

Fixpoint tree_node_find (fuel : nat) (node search : Z) (comparator : Z → Z → bool)
    : St tree_state Z :=
  match fuel with
  | O => λ _, Timeout
  | S f => n ← rd node;
           if comparator (value n) search then mret node
           else find_in (λ c, tree_node_find f c search comparator) (children n)
  end.

Definition tree_find (fuel : nat) (v : Z) (comparator : Z → Z → bool) : St tree_state Z :=
  r ← gets root; tree_node_find fuel r v comparator.
End Ops.

(** ** The invariant *)

Inductive under (h : gmap Z tree_node_t) (r : Z) : Z → Prop :=
  | under_root : under h r r
  | under_child c m : h !! c = Some m → under h r (parent m) → under h r c.

Record wf (t : tree_state) : Prop := {
  wf_null : heap t !! NULL = None;
  wf_root : ∃ n, heap t !! root t = Some n ∧ parent n = NULL;
  wf_down : ∀ a n c, heap t !! a = Some n → c ∈ children n →
    ∃ m, heap t !! c = Some m ∧ parent m = a;
  wf_up : ∀ c m, heap t !! c = Some m → c ≠ root t →
    ∃ n, heap t !! parent m = Some n ∧ c ∈ children n;
  wf_nodup : ∀ a n, heap t !! a = Some n → NoDup (children n);
  wf_under : ∀ a n, heap t !! a = Some n → under (heap t) (root t) a;
  wf_count : nodes t = u64 (Z.of_nat (size (heap t)))
}.

Lemma wf_parent_nonnull t c m :
  wf t → heap t !! c = Some m → c ≠ root t → parent m ≠ NULL.
Proof.
  intros W Hc Hr E. destruct (wf_up t W c m Hc Hr) as (n & Hn & _).
  rewrite E, (wf_null t W) in Hn. done.
Qed.

(** No node but the root can be its own parent, since every node descends from the
    root. *)
Lemma wf_parent_ne t c m : wf t → heap t !! c = Some m → c ≠ root t → parent m ≠ c.
Proof.
  intros W Hc Hr E. pose proof (wf_under t W c m Hc) as Hu.
  cut (∀ a, under (heap t) (root t) a → a ≠ c); [intros Hn; by apply (Hn c)|].
  clear Hu. induction 1 as [|d m' Hd _ IH]; [congruence|]. intros ->. apply IH. congruence.
Qed.

Lemma rd_eq t a n : heap t !! a = Some n → rd a t = Done (n, t).
Proof. unfold rd. by intros ->. Qed.
Lemma wr_eq t a f n :
  heap t !! a = Some n → wr a f t = Done (tt, with_heap t (<[a := f n]> (heap t))).
Proof. unfold wr. by intros ->. Qed.
Lemma free_tree_node_eq t a n :
  heap t !! a = Some n → free_tree_node a t = Done (tt, with_heap t (delete a (heap t))).
Proof. unfold free_tree_node. by intros ->. Qed.

Lemma remove_first_elem c d cs : NoDup cs → d ∈ remove_first c cs ↔ d ∈ cs ∧ d ≠ c.
Proof.
  induction cs as [|e cs IH]; simpl; [set_solver|]. intros [Hn Hd]%NoDup_cons.
  destruct (Z.eqb_spec e c) as [->|Hne]; [set_solver|]. rewrite !elem_of_cons, IH by done. naive_solver.
Qed.

Lemma remove_first_nodup c cs : NoDup cs → NoDup (remove_first c cs).
Proof.
  induction cs as [|e cs IH]; simpl; [done|]. intros [Hn Hd]%NoDup_cons.
  destruct (Z.eqb_spec e c) as [->|Hne]; [done|]. apply NoDup_cons. split; [|by apply IH].
  intros ?%remove_first_elem; [|done]. naive_solver.
Qed.

Lemma under_mono h h' r a :
  (∀ c m, h !! c = Some m → ∃ m', h' !! c = Some m' ∧ parent m' = parent m) →
  under h r a → under h' r a.
Proof.
  intros Hp. induction 1 as [|c m Hc _ IH]; [constructor|].
  destruct (Hp c m Hc) as (m' & Hm' & E). econstructor; [exact Hm'|by rewrite E].
Qed.

Section Specs.
Context {ML : Malloc}.

(** ** Insertion *)

Lemma tree_set_root_spec v :
  ∃ r t, tree_set_root v tree_create = Done (tt, t) ∧ wf t ∧ root t = r ∧
    heap t = {[ r := TreeNode v [] NULL ]} ∧ nodes t = 1.
Proof.
  set (r := malloc ∅). exists r. eexists. split; [unfold tree_set_root; done|].
  change (dom (heap tree_create)) with (dom (∅ : gmap Z tree_node_t)). rewrite dom_empty_L.
  fold r. split; [|done]. pose proof (malloc_nonnull ∅ : r ≠ NULL) as Hr.
  split; simpl.
  - by rewrite lookup_insert_ne.
  - eexists. split; [apply lookup_insert_eq|done].
  - intros a n c [[<- <-]|[_ ?]]%lookup_insert_Some; [set_solver|done].
  - intros c m [[<- <-]|[_ ?]]%lookup_insert_Some; done.
  - intros a n [[<- <-]|[_ ?]]%lookup_insert_Some; [constructor|done].
  - intros a n [[<- <-]|[_ ?]]%lookup_insert_Some; [constructor|done].
  - by rewrite insert_empty, map_size_singleton.
Qed.

Lemma tree_node_insert_child_spec t par v n :
  wf t → heap t !! par = Some n →
  ∃ out t', tree_node_insert_child par v t = Done (out, t') ∧ wf t' ∧ root t' = root t ∧
    heap t !! out = None ∧
    heap t' = <[out := TreeNode v [] par]> (<[par := set_children (children n ++ [out]) n]> (heap t)).
Proof.
  intros W Hpar. set (out := malloc (dom (heap t))).
  assert (Hout : heap t !! out = None) by apply not_elem_of_dom, malloc_fresh.
  assert (Hnn : out ≠ NULL) by apply malloc_nonnull.
  assert (Hne : out ≠ par) by congruence.
  exists out. eexists. split.
  { unfold tree_node_insert_child.
    rewrite (St_bind_done _ _ _ out (with_heap t (<[out := TreeNode v [] NULL]> (heap t)))) by done.
    erewrite St_bind_done; [done|]. unfold tree_node_insert_child_node.
    erewrite St_bind_done; [|apply rd_eq; simpl; by rewrite lookup_insert_ne].
    erewrite St_bind_done; [|eapply wr_eq; simpl; by rewrite lookup_insert_ne].
    erewrite St_bind_done; [done|eapply wr_eq; simpl; by rewrite lookup_insert_ne, lookup_insert_eq]. }
  simpl. set (h' := <[out := set_parent par (TreeNode v [] NULL)]>
    (<[par := set_children (children n ++ [out]) n]> (<[out := TreeNode v [] NULL]> (heap t)))).
  assert (Eh : h' = <[out := TreeNode v [] par]> (<[par := set_children (children n ++ [out]) n]> (heap t))).
  { unfold h'. rewrite (insert_insert_ne _ par out) by done. by rewrite insert_insert_eq. }
  rewrite Eh. clear h' Eh.
  set (h' := <[out := TreeNode v [] par]> (<[par := set_children (children n ++ [out]) n]> (heap t))).
  assert (Hlk : ∀ a m, h' !! a = Some m →
    (a = out ∧ m = TreeNode v [] par) ∨ (a = par ∧ m = set_children (children n ++ [out]) n) ∨
    (a ≠ out ∧ a ≠ par ∧ heap t !! a = Some m)).
  { intros a m. unfold h'. rewrite !lookup_insert_Some. naive_solver. }
  assert (Hold : ∀ a m, heap t !! a = Some m → ∃ m', h' !! a = Some m' ∧ parent m' = parent m ∧
     children m' = if decide (a = par) then children n ++ [out] else children m).
  { intros a m Ha. unfold h'. rewrite lookup_insert_ne by congruence.
    destruct (decide (a = par)) as [->|Hap]; [rewrite lookup_insert_eq|rewrite lookup_insert_ne by done]; naive_solver. }
  assert (Hund : ∀ a, under (heap t) (root t) a → under h' (root t) a).
  { intros a. apply under_mono. intros c m Hc. destruct (Hold c m Hc) as (m' & ? & ? & _). eauto. }
  assert (Hsz : size h' = S (size (heap t))).
  { unfold h'. rewrite map_size_insert_None.
    - f_equal. apply map_size_insert_Some. eauto.
    - by rewrite lookup_insert_ne. }
  split_and!; try done.
  destruct (wf_root t W) as (rn & Hrn & Hrp).
  split; simpl; fold h'.
  - unfold h'. rewrite !lookup_insert_ne; [apply (wf_null t W)| |done].
    intros ->. by rewrite (wf_null t W) in Hpar.
  - destruct (Hold _ _ Hrn) as (m' & ? & ? & _). exists m'. split; [done|congruence].
  - intros a m c Ha Hc. destruct (Hlk a m Ha) as [[-> ->]|[[-> ->]|(? & ? & Ha')]]; [set_solver| |].
    + simpl in Hc. apply elem_of_app in Hc as [Hc| ->%list_elem_of_singleton].
      * destruct (wf_down t W _ _ _ Hpar Hc) as (m & Hm & Ep). destruct (Hold _ _ Hm) as (m' & ? & ? & _).
        exists m'. split; [done|congruence].
      * eexists. split; [apply lookup_insert_eq|done].
    + destruct (wf_down t W _ _ _ Ha' Hc) as (m2 & Hm & Ep). destruct (Hold _ _ Hm) as (m' & ? & ? & _).
      exists m'. split; [done|congruence].
  - intros c m Hc Hr. destruct (Hlk c m Hc) as [[-> ->]|[[-> ->]|(? & ? & Hc')]].
    + simpl. destruct (Hold par n Hpar) as (m' & Hm' & _ & Ec). exists m'. split; [done|].
      rewrite Ec, decide_True by done. apply elem_of_app. right. by left.
    + destruct (wf_up t W par n Hpar Hr) as (p & Hp & Hin). destruct (Hold _ _ Hp) as (m' & Hm' & _ & Ec).
      exists m'. split; [done|]. rewrite Ec. case_decide as E; [|done].
      apply elem_of_app. left. simpl in *. congruence.
    + destruct (wf_up t W c m Hc' Hr) as (p & Hp & Hin). destruct (Hold _ _ Hp) as (m' & Hm' & _ & Ec).
      exists m'. split; [done|]. rewrite Ec. case_decide as E; [|done].
      apply elem_of_app. left. rewrite E in Hp. congruence.
  - intros a m Ha. destruct (Hlk a m Ha) as [[-> ->]|[[-> ->]|(? & ? & Ha')]]; [constructor| |by eapply wf_nodup].
    simpl. apply NoDup_app. split_and!; [by eapply wf_nodup| |apply NoDup_singleton].
    intros c Hc ->%list_elem_of_singleton. destruct (wf_down t W _ _ _ Hpar Hc) as (m & Hm & _). congruence.
  - intros a m Ha. destruct (Hlk a m Ha) as [[-> ->]|[[-> ->]|(? & ? & Ha')]].
    + eapply under_child; [apply lookup_insert_eq|]. simpl. by eapply Hund, wf_under.
    + by eapply Hund, wf_under.
    + by eapply Hund, wf_under.
  - rewrite Hsz, (wf_count t W). unfold u64. rewrite Zplus_mod_idemp_l. f_equal. lia.
Qed.
End Specs.

(** ** Removal *)

Lemma foreach_set_parent cs p t :
  (∀ c, c ∈ cs → is_Some (heap t !! c)) →
  ∃ h', foreach cs (λ c, wr c (set_parent p)) t = Done (tt, with_heap t h') ∧
    ∀ a, h' !! a = (if bool_decide (a ∈ cs) then set_parent p else id) <$> heap t !! a.
Proof.
  revert t. induction cs as [|c cs IH]; intros t Hcs.
  - exists (heap t). split; [by destruct t|]. intros a. simpl. by rewrite option_fmap_id.
  - destruct (Hcs c) as [n Hn]; [by left|].
    destruct (IH (with_heap t (<[c := set_parent p n]> (heap t)))) as (h' & E & Hh).
    { intros d Hd. simpl. rewrite lookup_insert. case_decide; [eauto|]. apply Hcs. by right. }
    exists h'. simpl. rewrite (St_bind_done _ _ _ _ _ (wr_eq _ _ _ _ Hn)). split; [done|].
    intros a. rewrite Hh. simpl. rewrite lookup_insert. case_decide as Ea.
    + subst a. rewrite Hn, (bool_decide_eq_true_2 (c ∈ c :: cs)) by (by left).
      simpl. by case_bool_decide.
    + rewrite (bool_decide_ext (a ∈ c :: cs) (a ∈ cs)); [done|].
      rewrite elem_of_cons. naive_solver.
Qed.

(** The nodes after [node] is unlinked from [par], its children given the parent
    [target] and appended to the children of [target], and [node] freed. *)
Definition spliced (h : gmap Z tree_node_t) (par node target : Z) (n : tree_node_t) (a : Z)
    : option tree_node_t :=
  if decide (a = node) then None
  else (λ m, TreeNode (value m)
          ((if decide (a = par) then remove_first node (children m) else children m) ++
           (if decide (a = target) then children n else []))
          (if bool_decide (a ∈ children n) then target else parent m)) <$> h !! a.

Lemma splice_spec t k par node target n :
  wf t → heap t !! node = Some n → node ≠ root t → parent n = par → target ≠ node →
  is_Some (heap t !! target) →
  ∃ t1 h', delete_child par node (with_nodes t k) = Done (tt, t1) ∧
    rd node t1 = Done (n, t1) ∧ root t1 = root t ∧
    (foreach (children n) (λ c, wr c (set_parent target));;
     merge_children target node;;
     free_tree_node node) t1 = Done (tt, with_heap (with_nodes t k) h') ∧
    ∀ a, h' !! a = spliced (heap t) par node target n a.
Proof.
  intros W Hn Hr Hp Ht [tn Htn].
  destruct (wf_up t W node n Hn Hr) as (pn & Hpn & Hin). rewrite Hp in Hpn.
  assert (Hnp : node ≠ par).
  { rewrite <-Hp. apply not_eq_sym. by eapply wf_parent_ne. }
  assert (Hself : node ∉ children n).
  { intros Hs. destruct (wf_down t W _ _ _ Hn Hs) as (m & Hm & Em). congruence. }
  set (t1 := with_heap (with_nodes t k) (<[par := set_children (remove_first node (children pn)) pn]> (heap t))).
  assert (E1 : delete_child par node (with_nodes t k) = Done (tt, t1)).
  { unfold delete_child. rewrite (St_bind_done _ _ _ _ _ (rd_eq (with_nodes t k) _ _ Hpn)).
    rewrite bool_decide_eq_true_2 by done. by erewrite (wr_eq (with_nodes t k)). }
  assert (Hn1 : heap t1 !! node = Some n) by (simpl; by rewrite lookup_insert_ne).
  destruct (foreach_set_parent (children n) target t1) as (h2 & E2 & Hh2).
  { intros c Hc. destruct (wf_down t W _ _ _ Hn Hc) as (m & Hm & _). simpl.
    rewrite lookup_insert. case_decide; eauto. }
  exists t1. rewrite (St_bind_done _ _ _ _ _ E2).
  assert (Hn2 : h2 !! node = Some n).
  { rewrite Hh2, Hn1, bool_decide_eq_false_2 by done. done. }
  assert (is_Some (h2 !! target)) as [tn2 Htn2].
  { rewrite Hh2. simpl. rewrite lookup_insert. case_decide; simpl; [eauto|]. rewrite Htn. simpl. eauto. }
  set (h3 := <[target := set_children (children tn2 ++ children n) tn2]> h2).
  rewrite (St_bind_done _ _ _ tt (with_heap (with_nodes t k) h3)).
  2:{ unfold merge_children. rewrite (St_bind_done _ _ _ n (with_heap t1 h2)) by (by apply rd_eq).
      by erewrite (wr_eq (with_heap t1 h2)). }
  erewrite (free_tree_node_eq (with_heap (with_nodes t k) h3)) by (simpl; unfold h3; rewrite lookup_insert_ne; [exact Hn2|done]).
  eexists. split_and!; [done|by apply rd_eq|done|done|]. intros a. simpl. unfold spliced, h3.
  destruct (decide (a = node)) as [->|Hna]; [by rewrite lookup_delete_eq|].
  rewrite lookup_delete_ne by done.
  assert (Hh2a : h2 !! a = (if bool_decide (a ∈ children n) then set_parent target else id) <$>
     ((if decide (a = par) then set_children (remove_first node (children pn)) else id) <$> heap t !! a)).
  { rewrite Hh2. simpl. rewrite lookup_insert. destruct (decide (a = par)) as [->|Hap].
    - rewrite decide_True by done. by rewrite Hpn.
    - rewrite decide_False by done. by rewrite option_fmap_id. }
  destruct (decide (a = target)) as [->|Hat].
  - rewrite lookup_insert_eq. rewrite Hh2a, Htn in Htn2. rewrite Htn. simpl in *. injection Htn2 as <-.
    f_equal. destruct (decide (target = par)) as [Ep|Ep]; case_bool_decide; try done;
      (assert (pn = tn) as -> by congruence); done.
  - rewrite lookup_insert_ne by done. rewrite Hh2a. destruct (heap t !! a) as [m|] eqn:Ha; [|done].
    simpl. f_equal. rewrite app_nil_r. destruct (decide (a = par)) as [Ep|Ep]; case_bool_decide;
      try (by destruct m); (assert (pn = m) as -> by congruence); by destruct m.
Qed.

Lemma spliced_Some h par node target n a m' :
  spliced h par node target n a = Some m' →
  a ≠ node ∧ ∃ m, h !! a = Some m ∧
    children m' = (if decide (a = par) then remove_first node (children m) else children m) ++
                  (if decide (a = target) then children n else []) ∧
    parent m' = (if bool_decide (a ∈ children n) then target else parent m).
Proof.
  unfold spliced. destruct (decide (a = node)); [done|]. intros (m & Hm & ->)%fmap_Some. eauto 10.
Qed.

Lemma spliced_intro h par node target n a m :
  h !! a = Some m → a ≠ node → ∃ m', spliced h par node target n a = Some m' ∧
    value m' = value m ∧
    children m' = (if decide (a = par) then remove_first node (children m) else children m) ++
                  (if decide (a = target) then children n else []) ∧
    parent m' = (if bool_decide (a ∈ children n) then target else parent m).
Proof. intros Hm Hne. unfold spliced. rewrite decide_False, Hm by done. simpl. eauto. Qed.

Lemma spliced_size (h h' : gmap Z tree_node_t) par node target n k :
  h !! node = Some k → (∀ a, h' !! a = spliced h par node target n a) → size h = S (size h').
Proof.
  intros Hn Hh. replace (size h') with (size (delete node h)).
  - rewrite map_size_delete_Some by eauto. pose proof (map_size_ne_0_lookup_2 h node) as Hs.
    assert (size h ≠ 0%nat) by (apply Hs; eauto). lia.
  - rewrite <-!size_dom. f_equal. apply set_eq. intros a. rewrite !elem_of_dom, Hh.
    unfold spliced. destruct (decide (a = node)) as [->|]; [by rewrite lookup_delete_eq|].
    by rewrite lookup_delete_ne, fmap_is_Some by done.
Qed.

Lemma splice_wf t par node target n h' t' :
  wf t → heap t !! node = Some n → node ≠ root t → parent n = par → target ≠ node →
  is_Some (heap t !! target) → target = par ∨ target = root t →
  (∀ a, h' !! a = spliced (heap t) par node target n a) →
  heap t' = h' → root t' = root t → nodes t' = u64 (nodes t - 1) → wf t'.
Proof.
  intros W Hn Hr Hp Htn [tm Htm] Hto Hh Et Er Ec.
  assert (Hnn : node ≠ NULL) by (intros ->; by rewrite (wf_null t W) in Hn).
  destruct (wf_root t W) as (rn & Hrn & Hrp).
  assert (Hkids : ∀ c m, heap t !! c = Some m → c ∈ children n ↔ parent m = node ∧ c ≠ root t).
  { intros c m Hc. split.
    - intros Hin. destruct (wf_down t W _ _ _ Hn Hin) as (m2 & Hm2 & E). split; [congruence|].
      intros ->. congruence.
    - intros [E Hcr]. destruct (wf_up t W c m Hc Hcr) as (k & Hk & Hin). congruence. }
  assert (Hpk : ∀ a m c, heap t !! a = Some m → c ∈ children m → c ∈ children n → a = node).
  { intros a m c Ha Hc Hcn. destruct (wf_down t W _ _ _ Ha Hc) as (m1 & H1 & E1).
    destruct (wf_down t W _ _ _ Hn Hcn) as (m2 & H2 & E2). congruence. }
  assert (Hrest : ∀ a m c, heap t !! a = Some m →
    c ∈ (if decide (a = par) then remove_first node (children m) else children m) ↔
    c ∈ children m ∧ c ≠ node).
  { intros a m c Ha. pose proof (wf_nodup t W a m Ha). case_decide as E; [by apply remove_first_elem|].
    split; [|by intros [? _]]. intros Hc. split; [done|]. intros ->.
    destruct (wf_down t W _ _ _ Ha Hc) as (m1 & H1 & E1). congruence. }
  split; rewrite ?Et, ?Er.
  - rewrite Hh. unfold spliced. by rewrite decide_False, (wf_null t W).
  - destruct (spliced_intro _ par node target n _ _ Hrn) as (m' & Hm' & _ & _ & E); [done|].
    exists m'. rewrite Hh. split; [done|]. rewrite E, bool_decide_eq_false_2; [done|].
    intros [_ ?]%(Hkids _ _ Hrn). done.
  - intros a m' c. rewrite Hh. intros (Hna & m & Hm & Ech & _)%spliced_Some. rewrite Ech.
    intros [[Hc Hcn]%(Hrest a m c Hm)|Hc]%elem_of_app.
    + destruct (wf_down t W _ _ _ Hm Hc) as (k & Hk & Ek).
      destruct (spliced_intro _ par node target n _ _ Hk Hcn) as (k' & Hk' & _ & _ & E).
      exists k'. rewrite Hh. split; [done|]. rewrite E, bool_decide_eq_false_2; [done|].
      intros Hcc. by apply Hna, (Hpk a m c).
    + case_decide as Ea; [|set_solver]. subst a.
      destruct (wf_down t W _ _ _ Hn Hc) as (k & Hk & Ek).
      assert (c ≠ node) as Hcn. { intros ->. apply (wf_parent_ne t node n W Hn Hr). congruence. }
      destruct (spliced_intro _ par node target n _ _ Hk Hcn) as (k' & Hk' & _ & _ & E).
      exists k'. rewrite Hh. split; [done|]. by rewrite E, bool_decide_eq_true_2.
  - intros c m'. rewrite Hh. intros (Hcn & m & Hm & _ & Epar)%spliced_Some Hcr. rewrite Epar, Hh.
    case_bool_decide as Hck.
    + destruct (spliced_intro _ par node target n _ _ Htm Htn) as (k' & Hk' & _ & E & _).
      exists k'. split; [done|]. rewrite E, (decide_True (P := target = target)) by done.
      apply elem_of_app. by right.
    + destruct (wf_up t W c m Hm Hcr) as (k & Hk & Hin).
      assert (parent m ≠ node) as Hpn by (intros E; by apply Hck, (Hkids c m)).
      destruct (spliced_intro _ par node target n _ _ Hk Hpn) as (k' & Hk' & _ & E & _).
      exists k'. split; [done|]. rewrite E. apply elem_of_app. left. by apply Hrest.
  - intros a m'. rewrite Hh. intros (Hna & m & Hm & -> & _)%spliced_Some.
    apply NoDup_app. split_and!.
    + case_decide; [apply remove_first_nodup|]; by eapply wf_nodup.
    + intros c [Hc Hcn]%(Hrest a m c Hm). case_decide; [|set_solver]. intros Hcc.
      by apply Hna, (Hpk a m c).
    + case_decide; [by eapply wf_nodup|constructor].
  - intros a m'. rewrite Hh. intros (Hna & m & Hm & _)%spliced_Some.
    pose proof (wf_under t W a m Hm) as Hu. clear m Hm m'.
    cut (under h' (root t) (if decide (a = node) then target else a)); [by rewrite decide_False|].
    clear Hna. induction Hu as [|c m Hc _ IH].
    { rewrite decide_False by done. constructor. }
    destruct (decide (c = node)) as [E|E].
    + subst c. destruct Hto as [->| ->]; [|constructor]. assert (parent m = par) as Em by congruence.
      by rewrite Em, decide_False in IH.
    + destruct (spliced_intro _ par node target n _ _ Hc E) as (m' & Hm' & _ & _ & Ep).
      rewrite <-Hh in Hm'. destruct (decide (c = root t)) as [->|Hcr]; [constructor|].
      eapply under_child; [exact Hm'|]. rewrite Ep. case_bool_decide as Hk.
      * apply (Hkids c m Hc) in Hk as [Hk _]. by rewrite Hk, decide_True in IH.
      * rewrite decide_False in IH; [done|]. intros Hk'. by apply Hk, (Hkids c m Hc).
  - pose proof (spliced_size _ _ _ _ _ _ _ Hn Hh) as Hs. rewrite Ec, (wf_count t W), Hs. unfold u64.
    rewrite Zminus_mod_idemp_l. f_equal. lia.
Qed.

(** [tree_remove]: the children of the node are moved to its parent. *)
Lemma tree_remove_spec t node n :
  wf t → heap t !! node = Some n → node ≠ root t →
  ∃ t', tree_remove node t = Done (tt, t') ∧ wf t' ∧ root t' = root t ∧
    nodes t' = u64 (nodes t - 1) ∧
    ∀ a, heap t' !! a = spliced (heap t) (parent n) node (parent n) n a.
Proof.
  intros W Hn Hr. pose proof (wf_parent_nonnull t node n W Hn Hr) as Hpn.
  destruct (wf_up t W node n Hn Hr) as (pn & Hp & Hin).
  pose proof (wf_parent_ne t node n W Hn Hr) as Hne.
  destruct (splice_spec t (u64 (nodes t - 1)) (parent n) node (parent n) n W Hn Hr eq_refl Hne)
    as (t1 & h' & E1 & E2 & E3 & E4 & Hh); [eauto|].
  eexists. unfold tree_remove. split_and!.
  - rewrite (St_bind_done _ _ _ _ _ (rd_eq _ _ _ Hn)). cbv zeta.
    rewrite (proj2 (Z.eqb_neq _ _) Hpn).
    rewrite (St_bind_done _ _ _ tt (with_nodes t (u64 (nodes t - 1)))) by done. rewrite (St_bind_done _ _ _ _ _ E1), (St_bind_done _ _ _ _ _ E2). exact E4.
  - eapply (splice_wf t (parent n) node (parent n) n h'); done || eauto.
  - done.
  - done.
  - done.
Qed.

(** [tree_remove_reparent_root]: the children of the node are moved to the root. *)
Lemma tree_remove_reparent_root_spec t node n :
  wf t → heap t !! node = Some n → node ≠ root t →
  ∃ t', tree_remove_reparent_root node t = Done (tt, t') ∧ wf t' ∧ root t' = root t ∧
    nodes t' = u64 (nodes t - 1) ∧
    ∀ a, heap t' !! a = spliced (heap t) (parent n) node (root t) n a.
Proof.
  intros W Hn Hr. pose proof (wf_parent_nonnull t node n W Hn Hr) as Hpn.
  destruct (wf_root t W) as (rn & Hrn & _).
  destruct (splice_spec t (u64 (nodes t - 1)) (parent n) node (root t) n W Hn Hr eq_refl
    (not_eq_sym Hr)) as (t1 & h' & E1 & E2 & E3 & E4 & Hh); [eauto|].
  eexists. unfold tree_remove_reparent_root. split_and!.
  - rewrite (St_bind_done _ _ _ _ _ (rd_eq _ _ _ Hn)). cbv zeta.
    rewrite (proj2 (Z.eqb_neq _ _) Hpn).
    rewrite (St_bind_done _ _ _ tt (with_nodes t (u64 (nodes t - 1)))) by done. 
    rewrite (St_bind_done _ _ _ _ _ E1), (St_bind_done _ _ _ _ _ E2).
    rewrite (St_bind_done _ _ _ (root t) t1) by (unfold gets; by rewrite E3). exact E4.
  - eapply (splice_wf t (parent n) node (root t) n h'); done || eauto.
  - done.
  - done.
  - done.
Qed.

(** ** Searching *)

(** A mathematical tree: address, value and subtrees of each node. *)
Inductive rose : Type := Rose (a v : Z) (cs : list rose).

Definition raddr (t : rose) : Z := match t with Rose a _ _ => a end.

Fixpoint preorder (t : rose) : list (Z * Z) :=
  match t with Rose a v cs => (a, v) :: concat (map preorder cs) end.

Fixpoint depth (t : rose) : nat :=
  match t with Rose _ _ cs => S (foldr Nat.max O (map depth cs)) end.

Fixpoint repr (h : gmap Z tree_node_t) (t : rose) : Prop :=
  match t with
  | Rose a v cs => a ≠ NULL ∧ (∃ p, h !! a = Some (TreeNode v (map raddr cs) p)) ∧
                   foldr and True (map (repr h) cs)
  end.

(** The first node, in preorder, whose value the comparator accepts. *)
Fixpoint first_match (p : Z → bool) (l : list (Z * Z)) : Z :=
  match l with
  | [] => NULL
  | (a, v) :: l' => if p v then a else first_match p l'
  end.

Lemma first_match_app p l1 l2 :
  Forall (λ x, x.1 ≠ NULL) l1 →
  first_match p (l1 ++ l2) =
    if first_match p l1 =? NULL then first_match p l2 else first_match p l1.
Proof.
  induction 1 as [|[a v] l1 Ha _ IH]; simpl; [done|]. destruct (p v); [|done].
  simpl in Ha. by rewrite (proj2 (Z.eqb_neq _ _) Ha).
Qed.

Lemma foldr_and_Forall {A} (P : A → Prop) l : foldr and True (map P l) ↔ Forall P l.
Proof. induction l as [|x l IH]; simpl; [by split|]. by rewrite Forall_cons, IH. Qed.

Lemma depth_children a v cs f :
  (depth (Rose a v cs) ≤ S f)%nat ↔ Forall (λ c, (depth c ≤ f)%nat) cs.
Proof.
  simpl. induction cs as [|c cs IH]; simpl.
  - split; [constructor|lia].
  - rewrite Forall_cons, <-IH. lia.
Qed.

Lemma repr_nonnull h f t : (depth t ≤ f)%nat → repr h t → Forall (λ x, x.1 ≠ NULL) (preorder t).
Proof.
  revert t. induction f as [|f IH]; intros [a v cs] Hd Hr; [simpl in Hd; lia|].
  apply depth_children in Hd. destruct Hr as (Ha & _ & Hcs%foldr_and_Forall). simpl.
  constructor; [done|]. induction cs as [|c cs IHcs]; simpl; [constructor|].
  apply Forall_cons in Hd as [? ?], Hcs as [? ?]. apply Forall_app. auto.
Qed.

Lemma find_in_spec p rec t cs :
  Forall (λ c, rec (raddr c) t = Done (first_match p (preorder c), t)) cs →
  Forall (λ c, Forall (λ x, x.1 ≠ NULL) (preorder c)) cs →
  find_in rec (map raddr cs) t = Done (first_match p (concat (map preorder cs)), t).
Proof.
  induction 1 as [|c cs Hc _ IH]; intros Hn; [done|]. apply Forall_cons in Hn as [Hn1 Hn2].
  simpl. rewrite (St_bind_done _ _ _ _ _ Hc), first_match_app by done.
  destruct (first_match p (preorder c) =? NULL); simpl; [by apply IH|done].
Qed.

Lemma tree_node_find_spec fuel t tr s cmp :
  repr (heap t) tr → (depth tr ≤ fuel)%nat →
  tree_node_find fuel (raddr tr) s cmp t =
    Done (first_match (λ v, cmp v s) (preorder tr), t).
Proof.
  revert tr. induction fuel as [|fuel IH]; intros [a v cs] Hr Hd; [simpl in Hd; lia|].
  apply depth_children in Hd. destruct Hr as (Ha & [p Hp] & Hcs%foldr_and_Forall).
  cbn [tree_node_find raddr]. rewrite (St_bind_done _ _ _ _ _ (rd_eq _ _ _ Hp)). cbn [value children preorder first_match].
  destruct (cmp v s); [done|]. apply find_in_spec.
  - rewrite Forall_forall in *. intros c Hc. apply IH; auto.
  - rewrite Forall_forall in *. intros c Hc. eapply repr_nonnull; auto.
Qed.

Lemma sum_counts_spec rec t cs out :
  Forall (λ c, rec (raddr c) t = Done (Z.of_nat (length (preorder c)) - 1, t)) cs →
  Forall (λ c, preorder c ≠ []) cs →
  0 ≤ out → out + Z.of_nat (length (concat (map preorder cs))) < 2 ^ 64 →
  sum_counts rec out (map raddr cs) t =
    Done (out + Z.of_nat (length (concat (map preorder cs))) - Z.of_nat (length cs), t).
Proof.
  intros H. revert out. induction H as [|c cs Hc _ IH]; intros out Hne Ho Hb; simpl in *.
  - unfold mret, St_ret. do 2 f_equal. lia.
  - apply Forall_cons in Hne as [Hne Hnes]. rewrite (St_bind_done _ _ _ _ _ Hc). rewrite length_app in *.
    assert (length (preorder c) ≠ 0%nat) by (by destruct (preorder c)).
    rewrite u64_small by lia. rewrite IH by (done || lia). do 2 f_equal. lia.
Qed.

Lemma tree_count_children_spec fuel t tr :
  repr (heap t) tr → (depth tr ≤ fuel)%nat → Z.of_nat (length (preorder tr)) * 2 < 2 ^ 64 →
  tree_count_children fuel (raddr tr) t = Done (Z.of_nat (length (preorder tr)) - 1, t).
Proof.
  revert tr. induction fuel as [|fuel IH]; intros [a v cs] Hr Hd Hb; [simpl in Hd; lia|].
  apply depth_children in Hd. destruct Hr as (Ha & [p Hp] & Hcs%foldr_and_Forall).
  cbn [tree_count_children raddr]. rewrite (proj2 (Z.eqb_neq _ _) Ha).
  rewrite (St_bind_done _ _ _ _ _ (rd_eq _ _ _ Hp)). cbn [children preorder length] in *.
  rewrite length_map.
  assert (Hpos : Forall (λ c, preorder c ≠ []) cs) by (apply Forall_forall; by intros []).
  assert (length cs ≤ length (concat (map preorder cs)))%nat.
  { clear -Hpos. induction Hpos as [|c cs Hc _ IH]; simpl; [lia|]. rewrite length_app.
    destruct (preorder c); [done|]. simpl. lia. }
  rewrite u64_small by lia. rewrite sum_counts_spec; [do 2 f_equal; lia| |done|lia|lia].
  rewrite Forall_forall in *. intros c Hc. apply IH; auto.
  assert (length (preorder c) ≤ length (concat (map preorder cs)))%nat; [|lia].
  apply list_elem_of_split in Hc as (l1 & l2 & ->). rewrite map_app, concat_app. simpl.
  rewrite !length_app. lia.
Qed.

(** ** A well-formed tree is one

    The nodes from [a] up to the root. *)
Inductive ancestors (h : gmap Z tree_node_t) (r : Z) : Z → list Z → Prop :=
  | anc_root : ancestors h r r [r]
  | anc_child c m l : h !! c = Some m → c ≠ r → ancestors h r (parent m) l → ancestors h r c (c :: l).

Section repr.
Context (t : tree_state) (W : wf t).

Lemma ancestors_unique a l : ancestors (heap t) (root t) a l → ∀ l', ancestors (heap t) (root t) a l' → l = l'.
Proof using.
  induction 1 as [|c m l Hc Hr _ IH]; intros l' H'; inversion H'; subst; try done.
  f_equal. apply IH. congruence.
Qed.

Lemma ancestors_suffix a l b : ancestors (heap t) (root t) a l → b ∈ l →
  ∃ l', ancestors (heap t) (root t) b l' ∧ (length l' ≤ length l)%nat.
Proof using.
  induction 1 as [|c m l Hc Hr H IH]; [intros ->%list_elem_of_singleton; by exists [root t]; split; [constructor|]|].
  intros [->|Hb]%elem_of_cons; [by exists (c :: l); split; [econstructor|]|].
  destruct (IH Hb) as (l' & ? & ?). exists l'. split; [done|cbn; lia].
Qed.

Lemma ancestors_nodup a l : ancestors (heap t) (root t) a l → NoDup l ∧ ∀ b, b ∈ l → is_Some (heap t !! b).
Proof using W.
  induction 1 as [|c m l Hc Hr H [IH1 IH2]].
  - destruct (wf_root t W) as (n & Hn & _). split; [apply NoDup_singleton|]. intros b ->%list_elem_of_singleton. by exists n.
  - split.
    + constructor; [|done]. intros Hin. destruct (ancestors_suffix _ _ _ H Hin) as (l' & Hl' & Hlen).
      assert (E := ancestors_unique c (c :: l) ltac:(by econstructor) l' Hl'). subst l'. cbn in Hlen. lia.
    + intros b [->|Hb]%elem_of_cons; [by exists m|by apply IH2].
Qed.

Lemma ancestors_length a l : ancestors (heap t) (root t) a l → (length l ≤ size (heap t))%nat.
Proof using W.
  intros H. destruct (ancestors_nodup a l H) as [N I]. rewrite <-size_dom, <-(size_list_to_set (C := gset Z)) by done.
  apply subseteq_size. intros b Hb%elem_of_list_to_set. apply elem_of_dom. by apply I.
Qed.

Lemma under_ancestors a : under (heap t) (root t) a → is_Some (heap t !! a) → ∃ l, ancestors (heap t) (root t) a l.
Proof using W.
  induction 1 as [|c m Hc _ IH]; intros Ha; [exists [root t]; constructor|].
  destruct (decide (c = root t)) as [->|Hr]; [exists [root t]; constructor|].
  destruct (wf_up t W c m Hc Hr) as (n & Hn & _). destruct IH as [l Hl]; [by exists n|]. exists (c :: l). by econstructor.
Qed.

Lemma build n a l m : ancestors (heap t) (root t) a l → heap t !! a = Some m → (size (heap t) - length l ≤ n)%nat →
  ∃ tr, repr (heap t) tr ∧ raddr tr = a ∧ (depth tr ≤ S n)%nat.
Proof using W.
  revert a l m. induction n as [|n IH]; intros a l m Ha Hm Hn.
  all: assert (Hkid : ∀ c, c ∈ children m → ∃ mc, heap t !! c = Some mc ∧ ancestors (heap t) (root t) c (c :: l)).
  1, 3: intros c Hc; destruct (wf_down t W _ _ _ Hm Hc) as (mc & Hmc & Hp); exists mc; split; [done|];
    apply (anc_child _ _ c mc); [done| |by rewrite Hp]; intros ->; destruct (wf_root t W) as (r & Hr & Hr0);
    assert (r = mc) as -> by congruence; rewrite Hr0 in Hp; subst a; by rewrite (wf_null t W) in Hm.
  - destruct (children m) as [|c cs] eqn:Ec.
    + exists (Rose a (value m) []). split_and!; [|done|done]. split_and!; [|exists (parent m); rewrite Hm; by destruct m; cbn in *; subst|done].
      intros ->. by rewrite (wf_null t W) in Hm.
    + destruct (Hkid c) as (mc & _ & Hc); [by left|]. apply ancestors_length in Hc. cbn in Hc. lia.
  - assert (Hl : ∃ trs, map raddr trs = children m ∧ Forall (repr (heap t)) trs ∧ Forall (λ c, (depth c ≤ S n)%nat) trs).
    { clear Hm. induction (children m) as [|c cs IHc]; [by exists []|].
      destruct IHc as (trs & H1 & H2 & H3); [intros d Hd; apply Hkid; by right|].
      destruct (Hkid c) as (mc & Hmc & Hc); [by left|]. destruct (IH c (c :: l) mc Hc Hmc) as (tr & ? & ? & ?); [cbn; lia|].
      exists (tr :: trs). cbn. split_and!; [by f_equal|by constructor|by constructor]. }
    destruct Hl as (trs & H1 & H2 & H3). exists (Rose a (value m) trs). split_and!; [|done|].
    + split_and!; [intros ->; by rewrite (wf_null t W) in Hm|exists (parent m); rewrite H1, Hm; by destruct m|by apply foldr_and_Forall].
    + by apply depth_children.
Qed.

Lemma preorder_closed f tr a v : (depth tr ≤ f)%nat → repr (heap t) tr → (a, v) ∈ preorder tr →
  ∃ n, heap t !! a = Some n ∧ value n = v ∧ ∀ c mc, c ∈ children n → heap t !! c = Some mc → (c, value mc) ∈ preorder tr.
Proof using.
  revert tr. induction f as [|f IH]; intros [b w cs] Hd Hr Hin; [cbn in Hd; lia|]. apply depth_children in Hd.
  destruct Hr as (Hb & [p Hp] & Hcs%foldr_and_Forall). cbn [preorder] in Hin |- *. apply elem_of_cons in Hin as [[= -> ->]|Hin].
  - eexists. split_and!; [exact Hp|done|]. cbn [children]. intros c mc Hc Hmc. right.
    apply list_elem_of_In, in_map_iff in Hc as (tc & <- & Htc%list_elem_of_In). apply list_elem_of_In, in_concat.
    exists (preorder tc). split; [apply in_map; by apply list_elem_of_In|].
    rewrite Forall_forall in Hcs. destruct tc as [c' v' cs']. destruct (Hcs _ Htc) as (_ & [p' Hp'] & _). cbn [raddr] in Hmc.
    assert (mc = TreeNode v' (map raddr cs') p') as -> by congruence. by left.
  - apply list_elem_of_In, in_concat in Hin as (l & Hl & Hin). apply in_map_iff in Hl as (tc & <- & Htc).
    rewrite Forall_forall in Hd, Hcs. apply list_elem_of_In in Htc, Hin.
    destruct (IH tc (Hd _ Htc) (Hcs _ Htc) Hin) as (n & Hn & Hv & Hch). exists n. split_and!; [done|done|].
    intros c mc Hc Hmc. right. apply list_elem_of_In, in_concat. exists (preorder tc).
    split; [apply in_map; by apply list_elem_of_In|]. by apply list_elem_of_In, (Hch c).
Qed.

Lemma wf_repr : ∃ tr, repr (heap t) tr ∧ raddr tr = root t ∧ (depth tr ≤ size (heap t))%nat ∧
  ∀ a v, (a, v) ∈ preorder tr ↔ ∃ n, heap t !! a = Some n ∧ value n = v.
Proof using W.
  destruct (wf_root t W) as (r & Hr & _).
  assert (Hs : (0 < size (heap t))%nat).
  { assert (size (heap t) ≠ 0%nat); [|lia]. by apply (map_size_ne_0_lookup_2 _ (root t)). }
  destruct (build (size (heap t) - 1) (root t) [root t] r) as (tr & H1 & H2 & H3); [constructor|done|cbn; lia|].
  exists tr. split_and!; [done|done|lia|]. intros a v. split.
  - intros Hin. destruct (preorder_closed (depth tr) tr a v (le_n _) H1 Hin) as (n & ? & ? & _). by exists n.
  - intros (n & Hn & <-). assert (U := wf_under t W a n Hn). revert n Hn. induction U as [|c m Hc _ IH]; intros n Hn.
    + destruct tr as [a v cs]. cbn in H2. subst a. destruct H1 as (_ & [p Hp] & _).
      assert (n = TreeNode v (map raddr cs) p) as -> by congruence. by left.
    + assert (m = n) as -> by congruence. destruct (decide (c = root t)) as [->|Hcr].
      * destruct tr as [a v cs]. cbn in H2. subst a. destruct H1 as (_ & [p Hp] & _).
        assert (n = TreeNode v (map raddr cs) p) as -> by congruence. by left.
      * destruct (wf_up t W c n Hn Hcr) as (pm & Hpm & Hin). specialize (IH pm Hpm).
        destruct (preorder_closed (depth tr) tr _ _ (le_n _) H1 IH) as (pm' & Hpm' & _ & Hch). assert (pm' = pm) as -> by congruence.
        by apply Hch.
Qed.
End repr.

(** [tree_node_remove] of the root goes on, after freeing it, to remove it from the
    children of its null parent. *)
Lemma tree_node_remove_root_spec fuel t n :
  wf t → heap t !! root t = Some n → children n = [] →
  tree_node_remove (S fuel) (root t) t = Fault.
Proof.
  intros W Hr Hch. pose proof (wf_null t W) as Hnull.
  destruct (wf_root t W) as (n' & Hn' & Hp). assert (n' = n) as -> by congruence.
  assert (root t ≠ NULL) as Hnn by congruence.
  unfold tree_node_remove. rewrite (St_bind_done _ _ _ _ _ (rd_eq _ _ _ Hr)). cbv zeta.
  rewrite Hp. simpl (NULL =? NULL). cbv iota.
  set (t1 := with_heap (with_root (with_nodes t 0) NULL) (delete (root t) (heap t))).
  rewrite (St_bind_done _ _ _ tt t1).
  - unfold tree_node_parent_remove. apply St_bind_fault. cbn [tree_count_children].
    rewrite (proj2 (Z.eqb_neq _ _) Hnn). apply St_bind_fault. unfold rd, t1. simpl.
    by rewrite lookup_delete_eq.
  - rewrite (St_bind_done _ _ _ (root t) t) by done. rewrite Z.eqb_refl.
    rewrite (St_bind_done _ _ _ tt (with_nodes t 0)) by done.
    rewrite (St_bind_done _ _ _ tt (with_root (with_nodes t 0) NULL)) by done.
    cbn [tree_node_free]. rewrite (proj2 (Z.eqb_neq _ _) Hnn).
    rewrite (St_bind_done _ _ _ n (with_root (with_nodes t 0) NULL)) by (by apply rd_eq).
    rewrite Hch. rewrite (St_bind_done _ _ _ tt (with_root (with_nodes t 0) NULL)) by done.
    by erewrite (free_tree_node_eq (with_root (with_nodes t 0) NULL)).
Qed.

(** ** Reachable trees *)

(** The operations the kernel runs on the process tree: children are added to live
    nodes, and nodes other than the root are removed. *)
Inductive tree_step `{!Malloc} : tree_state → tree_state → Prop :=
  | step_insert t t' par v out :
      is_Some (heap t !! par) →
      tree_node_insert_child par v t = Done (out, t') → tree_step t t'
  | step_remove t t' node :
      is_Some (heap t !! node) → node ≠ root t →
      tree_remove node t = Done (tt, t') → tree_step t t'
  | step_reparent t t' node :
      is_Some (heap t !! node) → node ≠ root t →
      tree_remove_reparent_root node t = Done (tt, t') → tree_step t t'.

Lemma tree_step_wf `{!Malloc} t t' : tree_step t t' → wf t → wf t'.
Proof.
  destruct 1 as [t t' par v out [n Hn] E|t t' node [n Hn] Hr E|t t' node [n Hn] Hr E]; intros W.
  - destruct (tree_node_insert_child_spec t par v n W Hn) as (o & t2 & E2 & W2 & _). congruence.
  - destruct (tree_remove_spec t node n W Hn Hr) as (t2 & E2 & W2 & _). congruence.
  - destruct (tree_remove_reparent_root_spec t node n W Hn Hr) as (t2 & E2 & W2 & _). congruence.
Qed.

(** ** The theorems *)

(** C29: every tree reached from [tree_set_root] by inserting children and removing
    nodes (with [tree_remove] or [tree_remove_reparent_root]) is well-formed: parent
    pointers and children lists agree, all nodes descend from the root, no node is
    listed twice, and [tree->nodes] is the number of nodes modulo 2^64. *)
Theorem tree_reachable_wf `{!Malloc} v t0 t :
  tree_set_root v tree_create = Done (tt, t0) → rtc tree_step t0 t → wf t.
Proof.
  intros E0 Hsteps. destruct (tree_set_root_spec v) as (r & t1 & E1 & W & _).
  assert (t1 = t0) as -> by congruence. clear E0 E1.
  induction Hsteps as [|t1 t2 t3 Hs _ IH]; [done|]. by eapply IH, tree_step_wf.
Qed.

Lemma tree_reachable_wf_witness :
  ∃ r c t, wf t ∧ heap t = {[ r := TreeNode 7 [c] NULL; c := TreeNode 8 [] r ]}.
Proof.
  destruct (tree_set_root_spec 7) as (r & t0 & E0 & W & Er & Eh & _).
  destruct (tree_node_insert_child_spec t0 r 8 (TreeNode 7 [] NULL) W) as (c & t1 & E1 & _ & _ & Hc & H1).
  { rewrite Eh. apply lookup_insert_eq. }
  exists r, c, t1. split.
  - apply (tree_reachable_wf 7 t0 t1 E0). apply rtc_once.
    apply (step_insert t0 t1 r 8 c); [|exact E1]. rewrite Eh, lookup_singleton_eq. by eexists.
  - rewrite H1, Eh, insert_singleton_eq. unfold set_children. simpl.
    rewrite <-(insert_empty c), <-(insert_empty r). apply insert_insert_ne. rewrite Eh in Hc.
    intros ->. rewrite lookup_singleton_eq in Hc. discriminate Hc.
Defined.

(** [tree_remove] unlinks a node other than the root, appends its children in
    order to those of its parent and makes the parent theirs; every other node is
    unchanged and the node is freed.  [tree_remove_reparent_root] does the same with
    the root as the new parent.  Both keep the tree well-formed. *)
Theorem tree_remove_correct t node n :
  wf t → heap t !! node = Some n → node ≠ root t →
  (∃ t', tree_remove node t = Done (tt, t') ∧ wf t' ∧ root t' = root t ∧
     ∀ a, heap t' !! a = spliced (heap t) (parent n) node (parent n) n a) ∧
  (∃ t', tree_remove_reparent_root node t = Done (tt, t') ∧ wf t' ∧ root t' = root t ∧
     ∀ a, heap t' !! a = spliced (heap t) (parent n) node (root t) n a).
Proof.
  intros W Hn Hr. split.
  - destruct (tree_remove_spec t node n W Hn Hr) as (t' & ? & ? & ? & _ & ?). eauto.
  - destruct (tree_remove_reparent_root_spec t node n W Hn Hr) as (t' & ? & ? & ? & _ & ?). eauto.
Qed.

(** A root 16 with children 32 and 48; 64 and 80 are children of 32. *)
Definition demo : tree_state :=
  Tree 5 16 (list_to_map [(16, TreeNode 1 [32; 48] NULL); (32, TreeNode 2 [64; 80] 16);
    (48, TreeNode 3 [] 16); (64, TreeNode 4 [] 32); (80, TreeNode 5 [] 32)]) [].

Lemma demo_lookup a n :
  heap demo !! a = Some n →
  (a = 16 ∧ n = TreeNode 1 [32; 48] NULL) ∨ (a = 32 ∧ n = TreeNode 2 [64; 80] 16) ∨
  (a = 48 ∧ n = TreeNode 3 [] 16) ∨ (a = 64 ∧ n = TreeNode 4 [] 32) ∨ (a = 80 ∧ n = TreeNode 5 [] 32).
Proof.
  intros H%elem_of_list_to_map_2. repeat (apply elem_of_cons in H as [H|H]; [simplify_eq; tauto|]).
  by apply not_elem_of_nil in H.
Qed.

Lemma demo_wf : wf demo.
Proof.
  assert (U16 : under (heap demo) 16 16) by constructor.
  assert (U32 : under (heap demo) 16 32) by (eapply under_child; [reflexivity|done]).
  split.
  - done.
  - by eexists.
  - intros a n c H%demo_lookup Hc. destruct_or! H; destruct H as [-> ->]; simpl in Hc;
      repeat (apply elem_of_cons in Hc as [->|Hc]; [by eexists|]); by apply not_elem_of_nil in Hc.
  - intros c m H%demo_lookup Hr. destruct_or! H; destruct H as [-> ->]; simpl; try done;
      (eexists; split; [reflexivity|]; apply (bool_decide_unpack _); reflexivity).
  - intros a n H%demo_lookup. destruct_or! H; destruct H as [-> ->]; simpl;
      apply (bool_decide_unpack _); reflexivity.
  - intros a n H%demo_lookup. destruct_or! H; destruct H as [-> ->]; try done;
      (eapply under_child; [reflexivity|done]).
  - done.
Qed.

Lemma tree_remove_correct_witness :
  (∃ t', tree_remove 32 demo = Done (tt, t') ∧ wf t' ∧ root t' = 16 ∧
     ∀ a, heap t' !! a = spliced (heap demo) 16 32 16 (TreeNode 2 [64; 80] 16) a) ∧
  (∃ t', tree_remove_reparent_root 32 demo = Done (tt, t') ∧ wf t' ∧ root t' = 16 ∧
     ∀ a, heap t' !! a = spliced (heap demo) 16 32 16 (TreeNode 2 [64; 80] 16) a) ∧
  spliced (heap demo) 16 32 16 (TreeNode 2 [64; 80] 16) 16 = Some (TreeNode 1 [48; 64; 80] NULL).
Proof.
  destruct (tree_remove_correct demo 32 (TreeNode 2 [64; 80] 16) demo_wf ltac:(done) ltac:(done))
    as [H1 H2].
  split_and!; [exact H1|exact H2|by vm_compute].
Defined.

(** on a heap that represents a tree of depth at most the fuel,
    [tree_node_find] returns the first node in preorder whose value the comparator
    accepts (null if there is none), and [tree_count_children] the number of proper
    descendants. *)
Theorem tree_search_correct fuel t tr s cmp :
  repr (heap t) tr → (depth tr ≤ fuel)%nat → Z.of_nat (length (preorder tr)) * 2 < 2 ^ 64 →
  tree_node_find fuel (raddr tr) s cmp t = Done (first_match (λ v, cmp v s) (preorder tr), t) ∧
  tree_count_children fuel (raddr tr) t = Done (Z.of_nat (length (preorder tr)) - 1, t).
Proof.
  intros Hr Hd Hb. split; [by apply tree_node_find_spec|by apply tree_count_children_spec].
Qed.

Lemma tree_search_correct_witness :
  tree_node_find 3 16 5 Z.eqb demo = Done (80, demo) ∧
  tree_count_children 3 16 demo = Done (4, demo).
Proof.
  apply (tree_search_correct 3 demo
    (Rose 16 1 [Rose 32 2 [Rose 64 4 []; Rose 80 5 []]; Rose 48 3 []]) 5 Z.eqb);
    [|simpl; lia|simpl; lia].
  simpl. repeat split; try (by eexists); done.
Defined.

(** [tree_node_remove] of a childless root faults. *)
Theorem tree_node_remove_root_faults fuel t n :
  wf t → heap t !! root t = Some n → children n = [] →
  tree_node_remove (S fuel) (root t) t = Fault.
Proof. apply tree_node_remove_root_spec. Qed.
