(* ===== verification/RingBuffer.v ===== *)
(** * Ring buffers and pipes ([src/kernel/misc/ringbuffer.c], [src/kernel/vfs/unixpipe.c])

    A blocking read or write is a sequence of rounds: each round runs under the
    buffer's lock, then the call returns or its process goes to sleep on a wait queue
    and, once woken, goes round again.  [read_round] and [write_round] are the loop
    bodies of [ring_buffer_read] and [ring_buffer_write]; [step] interleaves the
    rounds of any number of processes with wake-ups, signals and the control
    operations.  Wait queues hold the processes that sleep on them
    ([wakeup_queue], [sleep_on_unlocking] of [src/kernel/sys/process.c]).

    The theorems: a round implements the operation of a bounded queue; over every
    interleaving what was read, followed by what is in the buffer, is what was
    written; and no process sleeps on a queue whose condition holds. *)
From S2P Require Import Prelude.
Local Open Scope Z_scope.

(** ** Data *)

Record ring_buffer_t : Type := RB {
  buffer : list Z;
  write_ptr : Z;
  read_ptr : Z;
  size : Z;
  wait_queue_readers : list Z;
  wait_queue_writers : list Z;
  internal_stop : Z;
  alert_waiters : option (list Z);
  discard : Z;
  soft_stop : Z;
  (** processes told by [process_alert_node] that the buffer changed, latest first *)
  alerted : list Z
}.

Definition with_buffer (rb : ring_buffer_t) (b : list Z) : ring_buffer_t :=
  RB b (write_ptr rb) (read_ptr rb) (size rb) (wait_queue_readers rb) (wait_queue_writers rb)
     (internal_stop rb) (alert_waiters rb) (discard rb) (soft_stop rb) (alerted rb).
Definition with_write_ptr (rb : ring_buffer_t) (p : Z) : ring_buffer_t :=
  RB (buffer rb) p (read_ptr rb) (size rb) (wait_queue_readers rb) (wait_queue_writers rb)
     (internal_stop rb) (alert_waiters rb) (discard rb) (soft_stop rb) (alerted rb).
Definition with_read_ptr (rb : ring_buffer_t) (p : Z) : ring_buffer_t :=
  RB (buffer rb) (write_ptr rb) p (size rb) (wait_queue_readers rb) (wait_queue_writers rb)
     (internal_stop rb) (alert_waiters rb) (discard rb) (soft_stop rb) (alerted rb).
Definition with_readers (rb : ring_buffer_t) (q : list Z) : ring_buffer_t :=
  RB (buffer rb) (write_ptr rb) (read_ptr rb) (size rb) q (wait_queue_writers rb)
     (internal_stop rb) (alert_waiters rb) (discard rb) (soft_stop rb) (alerted rb).
Definition with_writers (rb : ring_buffer_t) (q : list Z) : ring_buffer_t :=
  RB (buffer rb) (write_ptr rb) (read_ptr rb) (size rb) (wait_queue_readers rb) q
     (internal_stop rb) (alert_waiters rb) (discard rb) (soft_stop rb) (alerted rb).
Definition with_internal_stop (rb : ring_buffer_t) (v : Z) : ring_buffer_t :=
  RB (buffer rb) (write_ptr rb) (read_ptr rb) (size rb) (wait_queue_readers rb)
     (wait_queue_writers rb) v (alert_waiters rb) (discard rb) (soft_stop rb) (alerted rb).
Definition with_soft_stop (rb : ring_buffer_t) (v : Z) : ring_buffer_t :=
  RB (buffer rb) (write_ptr rb) (read_ptr rb) (size rb) (wait_queue_readers rb)
     (wait_queue_writers rb) (internal_stop rb) (alert_waiters rb) (discard rb) v (alerted rb).
Definition with_alerts (rb : ring_buffer_t) (w : option (list Z)) (a : list Z) : ring_buffer_t :=
  RB (buffer rb) (write_ptr rb) (read_ptr rb) (size rb) (wait_queue_readers rb)
     (wait_queue_writers rb) (internal_stop rb) w (discard rb) (soft_stop rb) a.

(** ** Operations *)

Definition ring_buffer_unread (rb : ring_buffer_t) : Z :=
  if read_ptr rb =? write_ptr rb then 0
  else if write_ptr rb <? read_ptr rb then
    u64 (u64 (size rb - read_ptr rb) + write_ptr rb)
  else u64 (write_ptr rb - read_ptr rb).

Definition ring_buffer_size (rb : ring_buffer_t) : Z := ring_buffer_unread rb.

Definition ring_buffer_available (rb : ring_buffer_t) : Z :=
  if read_ptr rb =? write_ptr rb then u64 (size rb - 1)
  else if write_ptr rb <? read_ptr rb then u64 (read_ptr rb - write_ptr rb - 1)
  else u64 (u64 (size rb - write_ptr rb) + read_ptr rb - 1).

Definition ring_buffer_increment_read (rb : ring_buffer_t) : ring_buffer_t :=
  let p := u64 (read_ptr rb + 1) in
  with_read_ptr rb (if p =? size rb then 0 else p).

Definition ring_buffer_increment_write (rb : ring_buffer_t) : ring_buffer_t :=
  let p := u64 (write_ptr rb + 1) in
  with_write_ptr rb (if p =? size rb then 0 else p).

(** [wakeup_queue] pops every sleeper. *)
Definition wakeup_readers (rb : ring_buffer_t) : ring_buffer_t := with_readers rb [].
Definition wakeup_writers (rb : ring_buffer_t) : ring_buffer_t := with_writers rb [].

Definition ring_buffer_alert_waiters (rb : ring_buffer_t) : ring_buffer_t :=
  match alert_waiters rb with
  | None => rb
  | Some ws => with_alerts rb (Some []) (reverse ws ++ alerted rb)
  end.

(** The list of waiters, created on first use; a process is listed once. *)
Definition ring_buffer_select_wait (rb : ring_buffer_t) (process : Z) : ring_buffer_t :=
  let ws := default [] (alert_waiters rb) in
  with_alerts rb (Some (if bool_decide (process ∈ ws) then ws else ws ++ [process])) (alerted rb).

Definition ring_buffer_discard (rb : ring_buffer_t) : ring_buffer_t :=
  with_read_ptr rb (write_ptr rb).

Definition ring_buffer_interrupt (rb : ring_buffer_t) : ring_buffer_t :=
  wakeup_writers (wakeup_readers (with_internal_stop rb 1)).

Definition ring_buffer_eof (rb : ring_buffer_t) : ring_buffer_t :=
  wakeup_writers (wakeup_readers (with_soft_stop rb 1)).

(** The buffer's storage goes first, then the sleepers are woken and the waiters told. *)
Definition ring_buffer_destroy (rb : ring_buffer_t) : ring_buffer_t :=
  let rb := ring_buffer_alert_waiters (wakeup_readers (wakeup_writers (with_buffer rb []))) in
  with_alerts rb None (alerted rb).

Definition ring_buffer_create (mem : list Z) (size : Z) : ring_buffer_t :=
  RB mem 0 0 size [] [] 0 None 0 0 [].

(** The inner loop of [ring_buffer_read]: the bytes put in the caller's buffer. *)
Definition read_loop (fuel : nat) (want : Z) (rb : ring_buffer_t)
    : outcome (ring_buffer_t * list Z) :=
  loopO fuel (λ '(rb, got),
    if (0 <? ring_buffer_unread rb) && (Z.of_nat (length got) <? want) then
      b ← of_option (buffer rb !! Z.to_nat (read_ptr rb));
      Done (inl (ring_buffer_increment_read rb, got ++ [b]))
    else Done (inr (rb, got))) (rb, []).

(** The inner loop of [ring_buffer_write]: [src] is the caller's buffer. *)
Definition write_loop (fuel : nat) (src : list Z) (written : Z) (rb : ring_buffer_t)
    : outcome (ring_buffer_t * Z) :=
  loopO fuel (λ '(rb, written),
    if (0 <? ring_buffer_available rb) && (written <? Z.of_nat (length src)) then
      b ← of_option (src !! Z.to_nat written);
      if bool_decide (Z.to_nat (write_ptr rb) < length (buffer rb))%nat then
        Done (inl (ring_buffer_increment_write
                     (with_buffer rb (<[Z.to_nat (write_ptr rb) := b]> (buffer rb))), written + 1))
      else Fault
    else Done (inr (rb, written))) (rb, written).

(** How a round ends. *)
Inductive verdict : Type :=
  | Return (r : Z)
  | Asleep.

(** One round of [while (collected == 0)] for process [pid]. *)
Definition read_round (fuel : nat) (pid want : Z) (rb : ring_buffer_t)
    : outcome (ring_buffer_t * list Z * verdict) :=
  '(rb, got) ← read_loop fuel want rb;
  let rb := wakeup_writers rb in
  if Z.of_nat (length got) =? 0 then
    if negb (internal_stop rb =? 0) || negb (soft_stop rb =? 0) then
      Done (with_soft_stop rb 0, got, Return 0)
    else Done (with_readers rb (wait_queue_readers rb ++ [pid]), got, Asleep)
  else Done (wakeup_writers rb, got, Return (Z.of_nat (length got))).

(** [sleep_on_unlocking] has returned: the call ends, or goes round again. *)
Definition read_resume (interrupted : bool) : option Z :=
  if interrupted then Some (u64 (- ERESTARTSYS)) else None.

(** The end of [ring_buffer_write], after its loop. *)
Definition write_finish (rb : ring_buffer_t) : ring_buffer_t :=
  ring_buffer_alert_waiters (wakeup_readers rb).

(** One round of [while (written < size)] for process [pid]; the loop is left when
    everything is written. *)
Definition write_round (fuel : nat) (pid : Z) (src : list Z) (written : Z) (rb : ring_buffer_t)
    : outcome (ring_buffer_t * Z * verdict) :=
  if written <? Z.of_nat (length src) then
    '(rb, written) ← write_loop fuel src written rb;
    let rb := ring_buffer_alert_waiters (wakeup_readers rb) in
    if written <? Z.of_nat (length src) then
      if negb (discard rb =? 0) then Done (write_finish rb, written, Return written)
      else Done (with_writers rb (wait_queue_writers rb ++ [pid]), written, Asleep)
    else Done (write_finish rb, written, Return written)
  else Done (write_finish rb, written, Return written).

(** [sleep_on_unlocking] has returned. *)
Definition write_resume (interrupted : bool) (written : Z) (rb : ring_buffer_t)
    : ring_buffer_t * option Z :=
  if interrupted then
    if written =? 0 then (rb, Some (u64 (- ERESTARTSYS)))
    else (write_finish rb, Some written)
  else if negb (internal_stop rb =? 0) then (write_finish rb, Some written)
  else (rb, None).

(** ** The bounded queue a buffer holds *)

Record wf (rb : ring_buffer_t) : Prop := {
  wf_size : 1 ≤ size rb < 2 ^ 63;
  wf_length : Z.of_nat (length (buffer rb)) = size rb;
  wf_read : 0 ≤ read_ptr rb < size rb;
  wf_write : 0 ≤ write_ptr rb < size rb
}.

(** The byte at distance [i] from the read position. *)
Definition slot (rb : ring_buffer_t) (i : Z) : nat := Z.to_nat ((read_ptr rb + i) mod size rb).

Definition contents (rb : ring_buffer_t) : list Z :=
  (λ i, buffer rb !!! slot rb i) <$> seqZ 0 ((write_ptr rb - read_ptr rb) mod size rb).

Lemma mod_small_add a n : 0 ≤ a < n → (a + n) mod n = a.
Proof. intros H. replace (a + n) with (a + 1 * n) by lia. rewrite Z.mod_add by lia. by apply Z.mod_small. Qed.

Lemma mod_case a n : - n < a < n → a mod n = if a <? 0 then a + n else a.
Proof.
  intros H. destruct (Z.ltb_spec a 0); [|apply Z.mod_small; lia].
  rewrite <-(Z.mod_add a 1 n) by lia. replace (a + 1 * n) with (a + n) by lia. apply Z.mod_small. lia.
Qed.

Lemma mod_case2 a n : 0 ≤ a < 2 * n → a mod n = if a <? n then a else a - n.
Proof.
  intros H. destruct (Z.ltb_spec a n); [apply Z.mod_small; lia|].
  rewrite <-(Z.mod_add a (-1) n) by lia. replace (a + -1 * n) with (a - n) by lia. apply Z.mod_small. lia.
Qed.

Lemma unread_eq rb :
  wf rb → ring_buffer_unread rb = (write_ptr rb - read_ptr rb) mod size rb.
Proof.
  intros [? ? ? ?]. unfold ring_buffer_unread.
  rewrite (mod_case (write_ptr rb - read_ptr rb)) by lia. bool_cases; try lia;
    rewrite ?(u64_small (size rb - read_ptr rb)) by lia; rewrite u64_small; lia.
Qed.

Lemma unread_length rb : wf rb → ring_buffer_unread rb = Z.of_nat (length (contents rb)).
Proof.
  intros W. rewrite unread_eq by done. unfold contents. rewrite length_fmap, length_seqZ.
  destruct W. pose proof (Z.mod_pos_bound (write_ptr rb - read_ptr rb) (size rb)). lia.
Qed.

Lemma available_eq rb : wf rb → ring_buffer_available rb = size rb - 1 - ring_buffer_unread rb.
Proof.
  intros W. rewrite unread_eq by done. destruct W. unfold ring_buffer_available.
  rewrite (mod_case (write_ptr rb - read_ptr rb)) by lia. bool_cases; try lia;
    rewrite ?(u64_small (size rb - write_ptr rb)) by lia; rewrite u64_small; lia.
Qed.

Lemma increment_read_eq rb :
  wf rb → ring_buffer_increment_read rb = with_read_ptr rb ((read_ptr rb + 1) mod size rb).
Proof.
  intros []. unfold ring_buffer_increment_read. f_equal. rewrite u64_small by lia.
  rewrite mod_case2 by lia. bool_cases; lia.
Qed.

Lemma increment_write_eq rb :
  wf rb → ring_buffer_increment_write rb = with_write_ptr rb ((write_ptr rb + 1) mod size rb).
Proof.
  intros []. unfold ring_buffer_increment_write. f_equal. rewrite u64_small by lia.
  rewrite mod_case2 by lia. bool_cases; lia.
Qed.

Lemma read_step rb :
  wf rb → 0 < ring_buffer_unread rb →
  ∃ b, buffer rb !! Z.to_nat (read_ptr rb) = Some b ∧
    wf (ring_buffer_increment_read rb) ∧
    contents rb = b :: contents (ring_buffer_increment_read rb).
Proof.
  intros W Hu. rewrite unread_eq in Hu by done. rewrite increment_read_eq by done. destruct W.
  destruct (lookup_lt_is_Some_2 (buffer rb) (Z.to_nat (read_ptr rb))) as [b Hb]; [lia|].
  exists b. split_and!; [done|split; simpl; try done; apply Z.mod_pos_bound; lia|].
  unfold contents. cbn [write_ptr read_ptr size buffer with_read_ptr].
  set (u := (write_ptr rb - read_ptr rb) mod size rb) in *.
  replace ((write_ptr rb - (read_ptr rb + 1) mod size rb) mod size rb) with (u - 1).
  2:{ unfold u in *. rewrite (mod_case (write_ptr rb - read_ptr rb)) in * by lia.
      rewrite (mod_case2 (read_ptr rb + 1)) by lia.
      destruct (Z.ltb_spec (read_ptr rb + 1) (size rb)), (Z.ltb_spec (write_ptr rb - read_ptr rb) 0);
        rewrite mod_case by lia; bool_cases; lia. }
  rewrite (seqZ_cons 0 u) by lia. rewrite fmap_cons. f_equal.
  - unfold slot. rewrite Z.add_0_r, Z.mod_small by lia. by apply list_lookup_total_correct.
  - replace (Z.succ 0) with (1 + 0) by lia. rewrite <-fmap_add_seqZ, <-list_fmap_compose.
    replace (Z.pred u) with (u - 1) by lia. apply list_fmap_ext. intros i x Hx. simpl.
    unfold slot. simpl. do 2 f_equal. rewrite Z.add_mod_idemp_l by lia. f_equal. lia.
Qed.

Lemma write_step rb b :
  wf rb → 0 < ring_buffer_available rb →
  let rb' := ring_buffer_increment_write
               (with_buffer rb (<[Z.to_nat (write_ptr rb) := b]> (buffer rb))) in
  (Z.to_nat (write_ptr rb) < length (buffer rb))%nat ∧ wf rb' ∧ contents rb' = contents rb ++ [b].
Proof.
  intros W Ha rb'. rewrite available_eq, unread_eq in Ha by done. unfold rb'.
  rewrite increment_write_eq.
  2:{ destruct W. split; simpl; try done. by rewrite length_insert. }
  destruct W. split_and!; [lia|split; simpl; rewrite ?length_insert; try done; apply Z.mod_pos_bound; lia|].
  unfold contents. cbn [write_ptr read_ptr size buffer with_write_ptr with_buffer].
  set (u := (write_ptr rb - read_ptr rb) mod size rb) in *.
  assert (Hu : 0 ≤ u) by (apply Z.mod_pos_bound; lia).
  replace (((write_ptr rb + 1) mod size rb - read_ptr rb) mod size rb) with (u + 1).
  2:{ unfold u in *. rewrite (mod_case (write_ptr rb - read_ptr rb)) in * by lia.
      rewrite (mod_case2 (write_ptr rb + 1)) by lia.
      destruct (Z.ltb_spec (write_ptr rb + 1) (size rb)), (Z.ltb_spec (write_ptr rb - read_ptr rb) 0);
        rewrite mod_case by lia; bool_cases; lia. }
  assert (Hw : (read_ptr rb + u) mod size rb = write_ptr rb).
  { unfold u. rewrite Z.add_mod_idemp_r by lia. replace (read_ptr rb + (write_ptr rb - read_ptr rb))
      with (write_ptr rb) by lia. apply Z.mod_small. lia. }
  rewrite (seqZ_app 0 u 1) by lia. rewrite fmap_app. f_equal.
  - apply list_fmap_ext. intros i x [-> Hi]%lookup_seqZ. unfold slot. simpl.
    apply list_lookup_total_insert_ne. intros E.
    rewrite (mod_case2 (read_ptr rb + u)) in Hw by lia.
    rewrite (mod_case2 (read_ptr rb + Z.of_nat i)) in E by lia.
    destruct (Z.ltb_spec (read_ptr rb + u) (size rb)), (Z.ltb_spec (read_ptr rb + Z.of_nat i) (size rb)); lia.
  - change (seqZ (0 + u) 1) with [u]. simpl. unfold slot. cbn [read_ptr size with_write_ptr with_buffer]. rewrite Hw.
    f_equal. apply list_lookup_total_insert_eq. lia.
Qed.

Lemma contents_bound rb : wf rb → Z.of_nat (length (contents rb)) < size rb.
Proof.
  intros W. rewrite <-unread_length, unread_eq by done. destruct W. apply Z.mod_pos_bound. lia.
Qed.

(** Everything but the stored bytes. *)
Definition ctl (rb : ring_buffer_t) :=
  (size rb, wait_queue_readers rb, wait_queue_writers rb, internal_stop rb, alert_waiters rb,
   discard rb, soft_stop rb, alerted rb).

Lemma read_loop_spec fuel want rb :
  wf rb → 0 ≤ want → (length (contents rb) < fuel)%nat →
  ∃ rb', read_loop fuel want rb = Done (rb', take (Z.to_nat want) (contents rb)) ∧ wf rb' ∧
    contents rb' = drop (Z.to_nat want) (contents rb) ∧ ctl rb' = ctl rb.
Proof.
  intros W Hw Hf. unfold read_loop.
  cut (∀ got, Z.of_nat (length got) ≤ want → ∃ rb',
    loopO fuel (λ '(rb, got),
      if (0 <? ring_buffer_unread rb) && (Z.of_nat (length got) <? want) then
        b ← of_option (buffer rb !! Z.to_nat (read_ptr rb));
        Done (inl (ring_buffer_increment_read rb, got ++ [b]))
      else Done (inr (rb, got))) (rb, got) =
    Done (rb', got ++ take (Z.to_nat want - length got) (contents rb)) ∧ wf rb' ∧
    contents rb' = drop (Z.to_nat want - length got) (contents rb) ∧ ctl rb' = ctl rb).
  { intros H. destruct (H []) as (rb' & E & ? & Ec & ?); [simpl; lia|]. exists rb'.
    simpl in E, Ec. rewrite Nat.sub_0_r in E, Ec. done. }
  revert rb W Hf. induction fuel as [|fuel IH]; intros rb W Hf got Hg; [lia|].
  destruct (decide (0 < ring_buffer_unread rb ∧ Z.of_nat (length got) < want)) as [[Hu Hl]|Hn].
  - destruct (read_step rb W Hu) as (b & Hb & W' & Ec).
    destruct (IH _ W' ltac:(rewrite Ec in Hf; simpl in Hf; lia) (got ++ [b])) as (rb' & E & Wr & Ecr & Ectl).
    { rewrite length_app. simpl. lia. }
    rewrite length_app in E, Ecr. simpl length in E, Ecr.
    exists rb'. rewrite (loopO_step _ _ _ (ring_buffer_increment_read rb, got ++ [b])).
    2:{ rewrite Hb, (proj2 (Z.ltb_lt _ _) Hu), (proj2 (Z.ltb_lt _ _) Hl). done. }
    rewrite E, Ec. replace (Z.to_nat want - length got)%nat with (S (Z.to_nat want - (length got + 1))) by lia.
    simpl. rewrite <-app_assoc in *. split_and!; try done.
  - exists rb. rewrite (loopO_exit _ _ _ (rb, got)).
    2:{ rewrite (proj2 (andb_false_iff _ _)); [done|]. rewrite !Z.ltb_ge. lia. }
    rewrite unread_length in Hn by done.
    destruct (decide (length (contents rb) = 0%nat)) as [E%nil_length_inv|Hne].
    + rewrite E, take_nil, drop_nil, app_nil_r. done.
    + replace (Z.to_nat want - length got)%nat with 0%nat by lia. rewrite take_0, app_nil_r. done.
Qed.

Lemma write_loop_spec fuel src written rb :
  wf rb → 0 ≤ written ≤ Z.of_nat (length src) → (Z.to_nat (size rb) < fuel)%nat →
  let k := Z.min (size rb - 1 - Z.of_nat (length (contents rb))) (Z.of_nat (length src) - written) in
  ∃ rb', write_loop fuel src written rb = Done (rb', written + k) ∧ wf rb' ∧
    contents rb' = contents rb ++ take (Z.to_nat k) (drop (Z.to_nat written) src) ∧
    ctl rb' = ctl rb.
Proof.
  intros W Hw Hf. cbv zeta. unfold write_loop.
  assert (Hroom : (Z.to_nat (size rb) - length (contents rb) < fuel)%nat) by lia. clear Hf.
  revert rb written W Hw Hroom. induction fuel as [|fuel IH]; intros rb written W Hw Hf; [lia|].
  set (k := Z.min _ _).
  pose proof (contents_bound rb W) as Hb. pose proof (wf_size rb W) as Hs.
  destruct (decide (0 < ring_buffer_available rb ∧ written < Z.of_nat (length src))) as [[Hu Hl]|Hn].
  - destruct (lookup_lt_is_Some_2 src (Z.to_nat written)) as [b Hbyte]; [lia|].
    destruct (write_step rb b W Hu) as (Hp & W' & Ec).
    set (rb1 := ring_buffer_increment_write _) in *.
    assert (Esz : size rb1 = size rb) by done.
    assert (Ectl1 : ctl rb1 = ctl rb) by done.
    destruct (IH rb1 (written + 1) W') as (rb' & E & Wr & Ecr & Ectl).
    { lia. }
    { rewrite Esz, Ec, length_app. simpl. lia. }
    rewrite Esz, Ec, length_app in E, Ecr. simpl length in E, Ecr. exists rb'.
    rewrite (loopO_step _ _ _ (rb1, written + 1)).
    2:{ rewrite Hbyte, (proj2 (Z.ltb_lt _ _) Hu), (proj2 (Z.ltb_lt _ _) Hl). osimpl.
        by rewrite bool_decide_eq_true_2. }
    rewrite available_eq, unread_length in Hu by done. rewrite E.
    split_and!; [f_equal; f_equal; unfold k; lia|done| |congruence].
    rewrite Ecr, <-app_assoc. f_equal.
    rewrite (drop_S src b (Z.to_nat written)) by done.
    replace (Z.to_nat k) with (S (Z.to_nat (k - 1))) by (unfold k; lia). cbn [take app]. f_equal.
    f_equal; [unfold k; lia|f_equal; lia].
  - exists rb. rewrite (loopO_exit _ _ _ (rb, written)).
    2:{ rewrite (proj2 (andb_false_iff _ _)); [done|]. rewrite !Z.ltb_ge. lia. }
    rewrite available_eq, unread_length in Hn by done.
    replace k with 0 by (unfold k; lia). rewrite Z.add_0_r, take_0, app_nil_r. done.
Qed.

Lemma contents_eq rb rb' :
  buffer rb' = buffer rb → read_ptr rb' = read_ptr rb → write_ptr rb' = write_ptr rb →
  size rb' = size rb → contents rb' = contents rb ∧ (wf rb → wf rb').
Proof.
  intros E1 E2 E3 E4. unfold contents, slot. rewrite E1, E2, E3, E4. split; [done|].
  intros [? ? ? ?]. split; congruence.
Qed.

Lemma alert_waiters_same rb :
  buffer (ring_buffer_alert_waiters rb) = buffer rb ∧
  read_ptr (ring_buffer_alert_waiters rb) = read_ptr rb ∧
  write_ptr (ring_buffer_alert_waiters rb) = write_ptr rb ∧
  size (ring_buffer_alert_waiters rb) = size rb ∧
  wait_queue_readers (ring_buffer_alert_waiters rb) = wait_queue_readers rb ∧
  wait_queue_writers (ring_buffer_alert_waiters rb) = wait_queue_writers rb ∧
  internal_stop (ring_buffer_alert_waiters rb) = internal_stop rb ∧
  discard (ring_buffer_alert_waiters rb) = discard rb.
Proof. unfold ring_buffer_alert_waiters. by destruct (alert_waiters rb). Qed.

Lemma alert_contents rb :
  contents (ring_buffer_alert_waiters rb) = contents rb ∧ (wf rb → wf (ring_buffer_alert_waiters rb)).
Proof. destruct (alert_waiters_same rb) as (? & ? & ? & ? & _). by apply contents_eq. Qed.

Lemma write_finish_contents rb :
  contents (write_finish rb) = contents rb ∧ (wf rb → wf (write_finish rb)) ∧
  wait_queue_readers (write_finish rb) = [] ∧
  wait_queue_writers (write_finish rb) = wait_queue_writers rb ∧ size (write_finish rb) = size rb.
Proof.
  unfold write_finish. destruct (alert_contents (wakeup_readers rb)) as [E W].
  destruct (alert_waiters_same (wakeup_readers rb)) as (_ & _ & _ & Es & Er & Ew & _).
  split_and!; [by rewrite E|by intros Hw; apply W; destruct Hw|done|done|done].
Qed.

(** Fuel for the loops of a round: one more than the size of the buffer. *)
Definition enough (rb : ring_buffer_t) : nat := S (S (Z.to_nat (size rb))).

Lemma enough_read rb : wf rb → (length (contents rb) < enough rb)%nat.
Proof. intros W. pose proof (contents_bound rb W). unfold enough. lia. Qed.

Lemma read_round_spec pid want rb :
  wf rb → 0 ≤ want →
  ∃ rb' v, read_round (enough rb) pid want rb = Done (rb', take (Z.to_nat want) (contents rb), v) ∧
    wf rb' ∧ contents rb' = drop (Z.to_nat want) (contents rb) ∧ wait_queue_writers rb' = [] ∧
    size rb' = size rb ∧
    (if decide (take (Z.to_nat want) (contents rb) = []) then
       if negb (internal_stop rb =? 0) || negb (soft_stop rb =? 0) then
         v = Return 0 ∧ wait_queue_readers rb' = wait_queue_readers rb ∧ soft_stop rb' = 0
       else v = Asleep ∧ wait_queue_readers rb' = wait_queue_readers rb ++ [pid]
     else v = Return (Z.of_nat (length (take (Z.to_nat want) (contents rb)))) ∧
          wait_queue_readers rb' = wait_queue_readers rb).
Proof.
  intros W Hw. destruct (read_loop_spec (enough rb) want rb W Hw (enough_read rb W)) as (rb1 & E & W1 & Ec & Ectl).
  unfold ctl in Ectl. injection Ectl as Esz Eqr Eqw Eis Eal Edi Ess Ead.
  unfold read_round. rewrite E. osimpl. set (got := take _ _) in *.
  destruct (decide (got = [])) as [->|Hne].
  - simpl. rewrite Eis, Ess. destruct (_ || _).
    + eexists _, _. split; [done|]. split_and!; try done; by destruct W1.
    + eexists _, _. split; [done|]. split_and!; try done; [by destruct W1|..]; simpl; congruence.
  - destruct (Z.eqb_spec (Z.of_nat (length got)) 0) as [E0|_].
    { assert (length got = 0%nat) as ?%nil_length_inv by lia. done. }
    eexists _, _. split; [done|]. split_and!; try done. by destruct W1.
Qed.

Lemma write_round_spec pid src written rb :
  wf rb → 0 ≤ written ≤ Z.of_nat (length src) →
  let k := Z.min (size rb - 1 - Z.of_nat (length (contents rb))) (Z.of_nat (length src) - written) in
  ∃ rb' v, write_round (enough rb) pid src written rb = Done (rb', written + k, v) ∧ wf rb' ∧
    contents rb' = contents rb ++ take (Z.to_nat k) (drop (Z.to_nat written) src) ∧
    wait_queue_readers rb' = [] ∧ size rb' = size rb ∧
    (if (written + k <? Z.of_nat (length src)) && (discard rb =? 0) then
       v = Asleep ∧ wait_queue_writers rb' = wait_queue_writers rb ++ [pid]
     else v = Return (written + k) ∧ wait_queue_writers rb' = wait_queue_writers rb).
Proof.
  intros W Hw k. pose proof (contents_bound rb W) as Hb. pose proof (wf_size rb W) as Hs.
  unfold write_round. destruct (Z.ltb_spec written (Z.of_nat (length src))) as [Hl|Hl].
  - destruct (write_loop_spec (enough rb) src written rb W Hw ltac:(unfold enough; lia))
      as (rb1 & E & W1 & Ec & Ectl). fold k in E, Ec.
    unfold ctl in Ectl. injection Ectl as Esz Eqr Eqw Eis Eal Edi Ess Ead.
    rewrite E. osimpl. set (rb2 := ring_buffer_alert_waiters (wakeup_readers rb1)).
    destruct (alert_waiters_same (wakeup_readers rb1)) as (_ & _ & _ & Es & Er & Ew & _ & Ed).
    destruct (alert_contents (wakeup_readers rb1)) as [Ec2 W2]. fold rb2 in Es, Er, Ew, Ed, Ec2, W2.
    assert (wf rb2) as W2' by (apply W2; by destruct W1).
    change (contents (wakeup_readers rb1)) with (contents rb1) in Ec2. simpl in Es, Er, Ew, Ed.
    destruct (write_finish_contents rb2) as (F1 & F2 & F3 & F4 & F5).
    rewrite Ed, Edi. destruct (written + k <? Z.of_nat (length src)); simpl.
    + destruct (discard rb =? 0); simpl.
      * eexists _, _. split; [done|]. destruct (contents_eq rb2 (with_writers rb2 (wait_queue_writers rb2 ++ [pid])))
          as [G1 G2]; [done..|]. split_and!; [by apply G2|congruence|done|simpl; congruence|done|].
        simpl. congruence.
      * eexists _, _. split; [done|]. split_and!; [by apply F2|congruence|done|congruence|done|congruence].
    + eexists _, _. split; [done|]. split_and!; [by apply F2|congruence|done|congruence|done|congruence].
  - destruct (write_finish_contents rb) as (F1 & F2 & F3 & F4 & F5).
    assert (k = 0) as -> by (unfold k; lia). rewrite Z.add_0_r.
    rewrite (proj2 (Z.ltb_ge _ _)) by done. simpl.
    eexists _, _. split; [done|]. rewrite app_nil_r. split_and!; try done. by apply F2.
Qed.

(** ** Interleavings *)

Inductive thread : Type :=
  | Reading (want : Z)
  | ReadAsleep (want : Z)
  | Writing (src : list Z) (written : Z)
  | WriteAsleep (src : list Z) (written : Z)
  | Finished (r : Z).

(** The buffer, the calls in progress by process, and the history: the bytes put in
    the buffer and the bytes taken from it. *)
Record sys : Type := Sys {
  ring : ring_buffer_t;
  threads : gmap Z thread;
  ins : list Z;
  outs : list Z
}.

(** A signal takes a process off the queue it sleeps on. *)
Definition unqueue (pid : Z) (q : list Z) : list Z := filter (λ p, p ≠ pid) q.

Definition after (v : verdict) (t : thread) : thread :=
  match v with Return r => Finished r | Asleep => t end.

(** [discards] says whether [ring_buffer_discard] may be called. *)
Inductive step (discards : bool) : sys → sys → Prop :=
  | s_start_read s pid want :
      threads s !! pid = None → 0 ≤ want →
      step discards s (Sys (ring s) (<[pid := Reading want]> (threads s)) (ins s) (outs s))
  | s_start_write s pid src :
      threads s !! pid = None →
      step discards s (Sys (ring s) (<[pid := Writing src 0]> (threads s)) (ins s) (outs s))
  | s_read s pid want rb got v :
      threads s !! pid = Some (Reading want) →
      read_round (enough (ring s)) pid want (ring s) = Done (rb, got, v) →
      step discards s (Sys rb (<[pid := after v (ReadAsleep want)]> (threads s)) (ins s) (outs s ++ got))
  | s_read_wake s pid want :
      threads s !! pid = Some (ReadAsleep want) → pid ∉ wait_queue_readers (ring s) →
      read_resume false = None →
      step discards s (Sys (ring s) (<[pid := Reading want]> (threads s)) (ins s) (outs s))
  | s_read_signal s pid want r :
      threads s !! pid = Some (ReadAsleep want) → read_resume true = Some r →
      step discards s
        (Sys (with_readers (ring s) (unqueue pid (wait_queue_readers (ring s))))
             (<[pid := Finished r]> (threads s)) (ins s) (outs s))
  | s_write s pid src written rb written' v :
      threads s !! pid = Some (Writing src written) →
      write_round (enough (ring s)) pid src written (ring s) = Done (rb, written', v) →
      step discards s
        (Sys rb (<[pid := after v (WriteAsleep src written')]> (threads s))
             (ins s ++ take (Z.to_nat (written' - written)) (drop (Z.to_nat written) src)) (outs s))
  | s_write_wake s pid src written rb o :
      threads s !! pid = Some (WriteAsleep src written) → pid ∉ wait_queue_writers (ring s) →
      write_resume false written (ring s) = (rb, o) →
      step discards s
        (Sys rb (<[pid := from_option Finished (Writing src written) o]> (threads s)) (ins s) (outs s))
  | s_write_signal s pid src written rb o :
      threads s !! pid = Some (WriteAsleep src written) →
      write_resume true written
        (with_writers (ring s) (unqueue pid (wait_queue_writers (ring s)))) = (rb, o) →
      step discards s
        (Sys rb (<[pid := from_option Finished (Writing src written) o]> (threads s)) (ins s) (outs s))
  | s_interrupt s :
      step discards s (Sys (ring_buffer_interrupt (ring s)) (threads s) (ins s) (outs s))
  | s_eof s :
      step discards s (Sys (ring_buffer_eof (ring s)) (threads s) (ins s) (outs s))
  | s_select s pid :
      step discards s (Sys (ring_buffer_select_wait (ring s) pid) (threads s) (ins s) (outs s))
  | s_discard s :
      discards = true →
      step discards s
        (Sys (ring_buffer_discard (ring s)) (threads s) (ins s) (outs s ++ contents (ring s))).

Definition start (mem : list Z) : sys :=
  Sys (ring_buffer_create mem (Z.of_nat (length mem))) ∅ [] [].

(** The calls in progress make sense. *)
Definition thread_ok (t : thread) : Prop :=
  match t with
  | Reading want | ReadAsleep want => 0 ≤ want
  | Writing src w | WriteAsleep src w => 0 ≤ w ≤ Z.of_nat (length src)
  | Finished _ => True
  end.

Record inv (s : sys) : Prop := {
  inv_wf : wf (ring s);
  inv_threads : map_Forall (λ _ t, thread_ok t) (threads s);
  inv_fifo : ins s = outs s ++ contents (ring s)
}.

Lemma create_wf mem : mem ≠ [] → Z.of_nat (length mem) < 2 ^ 63 →
  wf (ring_buffer_create mem (Z.of_nat (length mem))) ∧
  contents (ring_buffer_create mem (Z.of_nat (length mem))) = [].
Proof.
  intros Hm Hl. assert (length mem ≠ 0%nat) by (by destruct mem).
  split; [split; simpl; lia|]. done.
Qed.

Lemma write_resume_contents i w rb rb' o :
  write_resume i w rb = (rb', o) →
  contents rb' = contents rb ∧ (wf rb → wf rb') ∧ size rb' = size rb ∧
  (wait_queue_readers rb' = [] ∨ wait_queue_readers rb' = wait_queue_readers rb) ∧
  wait_queue_writers rb' = wait_queue_writers rb.
Proof.
  unfold write_resume. destruct (write_finish_contents rb) as (F1 & F2 & F3 & F4 & F5).
  destruct i, (w =? 0), (internal_stop rb =? 0); simpl; intros [= <- <-]; split_and!; eauto.
Qed.

(** Changing only the wait queues, flags and waiters. *)
Ltac same_bytes rb rb' :=
  destruct (contents_eq rb rb') as [? ?]; [done..|].

Lemma step_inv d s s' : step d s s' → inv s → inv s'.
Proof.
  intros Hst [W T F].
  assert (Tget : ∀ pid t, threads s !! pid = Some t → thread_ok t) by (intros; by eapply (T pid)).
  destruct Hst as [s pid want _ Hw|s pid src _|s pid want rb got v Ht E|s pid want Ht _ _
    |s pid want r Ht _|s pid src w rb w' v Ht E|s pid src w rb o Ht _ E|s pid src w rb o Ht E
    |s|s|s pid|s _].
  - split; simpl; [done| |done]. by apply map_Forall_insert_2.
  - split; simpl; [done| |done]. apply map_Forall_insert_2; [simpl; lia|done].
  - apply Tget in Ht as Hok. simpl in Hok.
    destruct (read_round_spec pid want (ring s) W ltac:(lia)) as (rb2 & v2 & E2 & W2 & Ec & _).
    rewrite E in E2. simplify_eq. split; simpl; [done| |].
    + apply map_Forall_insert_2; [by destruct v2|done].
    + rewrite F, Ec, <-app_assoc, take_drop. done.
  - split; simpl; [done| |done]. apply map_Forall_insert_2; [by apply Tget in Ht|done].
  - split; simpl; [by destruct W| |done]. by apply map_Forall_insert_2.
  - apply Tget in Ht as Hok. simpl in Hok.
    destruct (write_round_spec pid src w (ring s) W Hok) as (rb2 & v2 & E2 & W2 & Ec & _).
    pose proof (contents_bound _ W). pose proof (wf_size _ W).
    rewrite E in E2. simplify_eq. split; simpl; [done| |].
    + apply map_Forall_insert_2; [|done]. destruct v2; simpl; [done|lia].
    + rewrite F, Ec, <-app_assoc. do 4 f_equal. lia.
  - destruct (write_resume_contents _ _ _ _ _ E) as (Ec & Wr & _). split; simpl.
    + by apply Wr.
    + apply map_Forall_insert_2; [|done]. destruct o; simpl; [done|]. by apply Tget in Ht.
    + by rewrite Ec.
  - destruct (write_resume_contents _ _ _ _ _ E) as (Ec & Wr & _). split; simpl.
    + apply Wr. by destruct W.
    + apply map_Forall_insert_2; [|done]. destruct o; simpl; [done|]. by apply Tget in Ht.
    + by rewrite Ec.
  - split; simpl; [by destruct W|done|done].
  - split; simpl; [by destruct W|done|done].
  - split; simpl; [by destruct W|done|done].
  - split; simpl; [by destruct W|done|]. rewrite F.
    assert (contents (ring_buffer_discard (ring s)) = []) as ->; [|by rewrite app_nil_r].
    unfold contents. cbn [read_ptr write_ptr size ring_buffer_discard with_read_ptr].
    rewrite Z.sub_diag, Z.mod_0_l by (destruct W; lia). done.
Qed.

(** No process sleeps while what it waits for is there; a reader of no bytes waits for nothing. *)
Definition reader_waits (s : sys) (pid : Z) : Prop :=
  ∃ want, threads s !! pid = Some (ReadAsleep want) ∧ (want = 0 ∨ contents (ring s) = []).
Record awake (s : sys) : Prop := {
  awake_readers : Forall (reader_waits s) (wait_queue_readers (ring s));
  awake_writers : wait_queue_writers (ring s) ≠ [] →
    Z.of_nat (length (contents (ring s))) = size (ring s) - 1
}.

(** The other readers that sleep. *)
Lemma readers_stay s rb ths i o q : (∀ p w, threads s !! p = Some (ReadAsleep w) → ths !! p = Some (ReadAsleep w)) →
  (contents (ring s) = [] → contents rb = []) → Forall (reader_waits s) q → Forall (reader_waits (Sys rb ths i o)) q.
Proof.
  intros Ht Hc Hq. eapply Forall_impl; [exact Hq|]. intros p (w & Hp & Hw). exists w. split; [by apply Ht|simpl; tauto].
Qed.

Lemma insert_stays (ths : gmap Z thread) pid t : (∀ w, ths !! pid ≠ Some (ReadAsleep w)) →
  ∀ p w, ths !! p = Some (ReadAsleep w) → <[pid := t]> ths !! p = Some (ReadAsleep w).
Proof. intros H p w Hp. rewrite lookup_insert_ne; [done|]. intros ->. by destruct (H w). Qed.

Lemma unqueue_nonempty pid q : unqueue pid q ≠ [] → q ≠ [].
Proof. by intros H ->. Qed.

Lemma step_awake s s' : step false s s' → inv s → awake s → awake s'.
Proof.
  intros Hst [W T F] [Ar Aw].
  assert (Tget : ∀ pid t, threads s !! pid = Some t → thread_ok t) by (intros; by eapply (T pid)).
  destruct Hst as [s pid want Hn Hw|s pid src Hn|s pid want rb got v Ht E|s pid want Ht Hnq _
    |s pid want r Ht _|s pid src w rb w' v Ht E|s pid src w rb o Ht _ E|s pid src w rb o Ht E
    |s|s|s pid|s Hd]; try (split; [by constructor|done]).
  - split; [|exact Aw]. apply (readers_stay s); [|done|done]. apply insert_stays. congruence.
  - split; [|exact Aw]. apply (readers_stay s); [|done|done]. apply insert_stays. congruence.
  - apply Tget in Ht as Hok. simpl in Hok.
    destruct (read_round_spec pid want (ring s) W Hok) as (rb2 & v2 & E2 & _ & Ec & Eqw & _ & Hv).
    rewrite E in E2. simplify_eq. split; simpl; [|by rewrite Eqw].
    assert (Hold : Forall (reader_waits (Sys rb2 (<[pid := after v2 (ReadAsleep want)]> (threads s)) (ins s)
      (outs s ++ take (Z.to_nat want) (contents (ring s))))) (wait_queue_readers (ring s))).
    { apply (readers_stay s); [apply insert_stays; congruence| |done]. intros Hc. by rewrite Ec, Hc, drop_nil. }
    destruct (decide (take (Z.to_nat want) (contents (ring s)) = [])) as [Hz|Hz].
    + destruct (_ || _); [by destruct Hv as (_ & -> & _)|]. destruct Hv as [-> ->]. apply Forall_app. split; [done|].
      apply Forall_singleton. exists want. simpl. rewrite lookup_insert_eq. split; [done|].
      apply take_nil_inv in Hz as [Hz|Hz]; [left; lia|right]. by rewrite Ec, Hz, drop_nil.
    + by destruct Hv as [_ ->].
  - split; [|exact Aw]. rewrite Forall_forall in Ar. apply Forall_forall. simpl. intros p Hp. destruct (Ar p Hp) as (w & Hpw & Hw).
    exists w. simpl. rewrite lookup_insert_ne; [done|]. by intros ->.
  - split; [|exact Aw]. rewrite Forall_forall in Ar. apply Forall_forall. simpl. intros p [Hne Hp]%list_elem_of_filter.
    destruct (Ar p Hp) as (w & Hpw & Hw). exists w. simpl. by rewrite lookup_insert_ne.
  - apply Tget in Ht. simpl in Ht.
    destruct (write_round_spec pid src w (ring s) W Ht) as (rb2 & v2 & E2 & W2 & Ec & Eqr & Esz & Hv).
    pose proof (contents_bound _ W) as Hb. pose proof (wf_size _ W).
    rewrite E in E2. simplify_eq. split; simpl; [by rewrite Eqr|]. intros Hq.
    rewrite Ec, Esz, length_app, length_take, length_drop.
    destruct (Z.ltb_spec (w + Z.min (size (ring s) - 1 - Z.of_nat (length (contents (ring s))))
      (Z.of_nat (length src) - w)) (Z.of_nat (length src))) as [Hl|Hl]; [lia|].
    cbn [andb] in Hv. destruct Hv as [_ Eq]. rewrite Eq in Hq. apply Aw in Hq. lia.
  - destruct (write_resume_contents _ _ _ _ _ E) as (Ec & _ & Es & Er & Ew).
    split; simpl; [|by rewrite Ec, Es, Ew]. destruct Er as [->| ->]; [done|].
    apply (readers_stay s); [apply insert_stays; congruence|by rewrite Ec|done].
  - destruct (write_resume_contents _ _ _ _ _ E) as (Ec & _ & Es & Er & Ew). simpl in Er, Ew, Es.
    split; simpl; [|rewrite Ec, Es, Ew; intros ?%unqueue_nonempty; by apply Aw]. destruct Er as [->| ->]; [done|].
    apply (readers_stay s); [apply insert_stays; congruence|by rewrite Ec|done].
  - split; [|exact Aw]. by apply (readers_stay s).
  - done.
Qed.

(** ** Pipes *)

Record unix_pipe : Type := UnixPipe {
  read_closed : Z;
  write_closed : Z;
  pipe_buffer : ring_buffer_t
}.

(** [send_signal(pid, SIGPIPE, 1)] is recorded with its target. *)
Definition SIGPIPE : Z := 13.

Definition UNIX_PIPE_BUFFER : Z := 4096.

Definition make_unix_pipe (mem : list Z) : unix_pipe :=
  UnixPipe 0 0 (ring_buffer_create mem UNIX_PIPE_BUFFER).

(** The first round of a read or write on the pipe; later rounds are those of the
    ring buffer. *)
Definition read_unixpipe (fuel : nat) (pid : Z) (self : unix_pipe) (want : Z)
    : outcome (unix_pipe * list Z * verdict) :=
  if negb (write_closed self =? 0) && (ring_buffer_unread (pipe_buffer self) =? 0) then
    Done (self, [], Return 0)
  else
    '(rb, got, v) ← read_round fuel pid want (pipe_buffer self);
    Done (UnixPipe (read_closed self) (write_closed self) rb, got, v).

Definition write_unixpipe (fuel : nat) (pid : Z) (self : unix_pipe) (src : list Z)
    : outcome (unix_pipe * Z * verdict * list (Z * Z)) :=
  if negb (read_closed self =? 0) then Done (self, 0, Return (- EPIPE), [(pid, SIGPIPE)])
  else
    '(rb, w, v) ← write_round fuel pid src 0 (pipe_buffer self);
    Done (UnixPipe (read_closed self) (write_closed self) rb, w, v, []).

Definition close_read_pipe (self : unix_pipe) : unix_pipe :=
  UnixPipe 1 (write_closed self)
    (if write_closed self =? 0 then ring_buffer_interrupt (pipe_buffer self)
     else pipe_buffer self).

Definition close_write_pipe (self : unix_pipe) : unix_pipe :=
  UnixPipe (read_closed self) 1
    (if read_closed self =? 0 then
       let rb := ring_buffer_interrupt (pipe_buffer self) in
       if ring_buffer_unread rb =? 0 then ring_buffer_alert_waiters rb else rb
     else pipe_buffer self).

Definition check_pipe (self : unix_pipe) : Z :=
  if 0 <? ring_buffer_unread (pipe_buffer self) then 0
  else if negb (write_closed self =? 0) then 0 else 1.

Definition wait_pipe (self : unix_pipe) (process : Z) : unix_pipe * Z :=
  (UnixPipe (read_closed self) (write_closed self)
     (ring_buffer_select_wait (pipe_buffer self) process), 0).

Definition pipe_contents (self : unix_pipe) : list Z := contents (pipe_buffer self).

Lemma interrupt_contents rb :
  contents (ring_buffer_interrupt rb) = contents rb ∧ (wf rb → wf (ring_buffer_interrupt rb)).
Proof. by apply contents_eq. Qed.

Lemma close_write_pipe_contents self :
  pipe_contents (close_write_pipe self) = pipe_contents self ∧
  (wf (pipe_buffer self) → wf (pipe_buffer (close_write_pipe self))) ∧
  (read_closed self = 0 → wait_queue_readers (pipe_buffer (close_write_pipe self)) = []).
Proof.
  unfold pipe_contents, close_write_pipe. simpl.
  destruct (Z.eqb_spec (read_closed self) 0); [|done].
  destruct (interrupt_contents (pipe_buffer self)) as [Ei Wi]. case_match; [|done].
  destruct (alert_contents (ring_buffer_interrupt (pipe_buffer self))) as [Ea Wa].
  destruct (alert_waiters_same (ring_buffer_interrupt (pipe_buffer self))) as (_ & _ & _ & _ & Er & _).
  split_and!; [congruence|auto|done].
Qed.

(** ** The theorems *)

(** A round of [ring_buffer_read] takes the first [want] bytes of the queue and
    returns their number, 0 on a stopped empty buffer, or puts the process to sleep
    on an empty one; a round of [ring_buffer_write] appends the bytes that fit, and
    either all are written, or the buffer is full and the process sleeps (or the
    write is cut short on a buffer that discards).  [ring_buffer_unread] and
    [ring_buffer_available] are the length of the queue and its complement. *)
Theorem ring_buffer_round_correct pid want src rb :
  wf rb → 0 ≤ want →
  ring_buffer_unread rb = Z.of_nat (length (contents rb)) ∧
  ring_buffer_available rb = size rb - 1 - Z.of_nat (length (contents rb)) ∧
  (∃ rb' v, read_round (enough rb) pid want rb = Done (rb', take (Z.to_nat want) (contents rb), v) ∧
     wf rb' ∧ contents rb' = drop (Z.to_nat want) (contents rb) ∧
     v = if decide (take (Z.to_nat want) (contents rb) = []) then
           if negb (internal_stop rb =? 0) || negb (soft_stop rb =? 0) then Return 0 else Asleep
         else Return (Z.of_nat (length (take (Z.to_nat want) (contents rb))))) ∧
  (let k := Z.min (size rb - 1 - Z.of_nat (length (contents rb))) (Z.of_nat (length src)) in
   ∃ rb' v, write_round (enough rb) pid src 0 rb = Done (rb', k, v) ∧ wf rb' ∧
     contents rb' = contents rb ++ take (Z.to_nat k) src ∧
     v = if (k <? Z.of_nat (length src)) && (discard rb =? 0) then Asleep else Return k).
Proof.
  intros W Hw. split_and!.
  - by apply unread_length.
  - rewrite available_eq, unread_length by done. done.
  - destruct (read_round_spec pid want rb W Hw) as (rb' & v & E & W' & Ec & _ & _ & Hv).
    exists rb', v. split_and!; try done. case_decide; [|by destruct Hv].
    destruct (_ || _); by destruct Hv.
  - destruct (write_round_spec pid src 0 rb W ltac:(lia)) as (rb' & v & E & W' & Ec & _ & _ & Hv).
    rewrite !Z.sub_0_r, Z.add_0_l in *. exists rb', v. split_and!; try done.
    destruct (_ && _); by destruct Hv.
Qed.

(** A buffer of five bytes holding three, wrapped around the end. *)
Definition demo_rb : ring_buffer_t := RB [30; 40; 0; 10; 20] 1 3 5 [] [] 0 None 0 0 [].

Lemma demo_rb_wf : wf demo_rb.
Proof. by split. Qed.

Lemma ring_buffer_round_correct_witness :
  contents demo_rb = [10; 20; 30] ∧
  ring_buffer_unread demo_rb = 3 ∧ ring_buffer_available demo_rb = 1 ∧
  (∃ rb' v, read_round (enough demo_rb) 7 2 demo_rb = Done (rb', [10; 20], v) ∧
     wf rb' ∧ contents rb' = [30] ∧ v = Return 2) ∧
  (∃ rb' v, write_round (enough demo_rb) 7 [1; 2] 0 demo_rb = Done (rb', 1, v) ∧
     wf rb' ∧ contents rb' = [10; 20; 30; 1] ∧ v = Asleep).
Proof.
  split; [reflexivity|].
  exact (ring_buffer_round_correct 7 2 [1; 2] demo_rb demo_rb_wf ltac:(lia)).
Defined.

(** C10: over every interleaving of reads, writes, wake-ups, signals, interruptions
    and discards by any number of processes, the bytes taken out so far followed by
    the bytes in the buffer are exactly the bytes put in, in order. *)
Theorem ring_buffer_fifo d mem s :
  mem ≠ [] → Z.of_nat (length mem) < 2 ^ 63 → rtc (step d) (start mem) s →
  wf (ring s) ∧ ins s = outs s ++ contents (ring s).
Proof.
  intros Hm Hl Hs. assert (inv (start mem)) as I.
  { destruct (create_wf mem Hm Hl) as [W Ec]. split; simpl; [done|apply map_Forall_empty|].
    by rewrite Ec. }
  assert (inv s) as [W _ F]; [|done].
  induction Hs as [|s1 s2 s3 Hst _ IH]; [done|]. by eapply IH, step_inv.
Qed.

(** Process 1 writes two bytes into a buffer with room for one and falls asleep. *)
Definition demo_s1 : sys := Sys (ring_buffer_create [0; 0] 2) {[ 1 := Writing [8; 9] 0 ]} [] [].
Definition demo_s2 : sys :=
  Sys (RB [8; 0] 1 0 2 [] [1] 0 None 0 0 []) {[ 1 := WriteAsleep [8; 9] 1 ]} [8] [].

Lemma demo_steps d : rtc (step d) (start [0; 0]) demo_s2.
Proof.
  eapply (rtc_l _ _ demo_s1); [by apply s_start_write|].
  apply rtc_once.
  pose proof (s_write d demo_s1 1 [8; 9] 0 (RB [8; 0] 1 0 2 [] [1] 0 None 0 0 []) 1 Asleep eq_refl eq_refl) as H.
  simpl in H. by rewrite insert_singleton_eq in H.
Qed.

Lemma ring_buffer_fifo_witness : wf (ring demo_s2) ∧ [8] = [] ++ contents (ring demo_s2).
Proof. exact (ring_buffer_fifo true [0; 0] demo_s2 ltac:(done) ltac:(done) (demo_steps true)). Defined.

(** C7: no lost wake-ups: over every interleaving without [ring_buffer_discard], a
    process that is queued as a sleeping reader is asleep in its read, and the buffer is empty or the
    read is of no bytes (such a read sleeps whatever the buffer holds,
    [ring_buffer_read_of_nothing_sleeps]); and a process is queued as a
    sleeping writer only while the buffer is full. *)
Theorem ring_buffer_no_lost_wakeup mem s :
  mem ≠ [] → Z.of_nat (length mem) < 2 ^ 63 → rtc (step false) (start mem) s →
  (∀ pid, pid ∈ wait_queue_readers (ring s) →
     ∃ want, threads s !! pid = Some (ReadAsleep want) ∧ (want = 0 ∨ ring_buffer_unread (ring s) = 0)) ∧
  (wait_queue_writers (ring s) ≠ [] → ring_buffer_available (ring s) = 0).
Proof.
  intros Hm Hl Hs. destruct (create_wf mem Hm Hl) as [W Ec].
  assert (inv (start mem)) as I.
  { split; simpl; [done|apply map_Forall_empty|]. by rewrite Ec. }
  assert (awake (start mem)) as A by (split; [by constructor|done]).
  assert (inv s ∧ awake s) as [[Ws _ _] [Ar Aw]].
  { clear W Ec. induction Hs as [|s1 s2 s3 Hst _ IH]; [done|]. apply IH.
    - by eapply step_inv.
    - by eapply step_awake. }
  rewrite available_eq, unread_length by done. split.
  - intros pid Hq. rewrite Forall_forall in Ar. destruct (Ar pid Hq) as (want & Ht & Hw). exists want. split; [done|].
    destruct Hw as [|Hc]; [by left|right; by rewrite Hc].
  - intros Hq. rewrite (Aw Hq). lia.
Qed.

(** Process 1 reads two bytes from an empty buffer. *)
Definition demo_s3 : sys := Sys (RB [0; 0] 0 0 2 [1] [] 0 None 0 0 []) {[ 1 := ReadAsleep 2 ]} [] [].

Lemma demo_read_steps : rtc (step false) (start [0; 0]) demo_s3.
Proof.
  eapply rtc_l; [by apply (s_start_read _ _ 1 2)|]. apply rtc_once.
  pose proof (s_read false (Sys (ring_buffer_create [0; 0] 2) {[ 1 := Reading 2 ]} [] []) 1 2 (RB [0; 0] 0 0 2 [1] [] 0 None 0 0 []) [] Asleep eq_refl eq_refl) as H.
  simpl in H. by rewrite insert_singleton_eq in H.
Qed.

Lemma ring_buffer_no_lost_wakeup_witness :
  wait_queue_readers (ring demo_s3) = [1] ∧ ring_buffer_unread (ring demo_s3) = 0 ∧
  wait_queue_writers (ring demo_s2) = [1] ∧ ring_buffer_available (ring demo_s2) = 0.
Proof.
  destruct (ring_buffer_no_lost_wakeup [0; 0] demo_s3 ltac:(done) ltac:(done) demo_read_steps) as [Hr _].
  destruct (ring_buffer_no_lost_wakeup [0; 0] demo_s2 ltac:(done) ltac:(done) (demo_steps false)) as [_ Hw].
  destruct (Hr 1 ltac:(by left)) as (want & Ht & Hu). split_and!; [done| |done|by apply Hw].
  destruct Hu as [->|Hu]; [|exact Hu]. discriminate Ht.
Defined.

(** A read of no bytes collects none, so that its process sleeps while the buffer holds some. *)
Example ring_buffer_read_of_nothing_sleeps :
  read_round (enough demo_rb) 7 0 demo_rb = Done (with_readers demo_rb [7], [], Asleep) ∧ ring_buffer_unread (with_readers demo_rb [7]) = 3.
Proof. split; reflexivity. Qed.

(** [ring_buffer_discard] wakes nobody: a writer can be left asleep on an empty
    buffer. *)
Theorem ring_buffer_discard_strands_writer :
  ∃ s, rtc (step true) (start [0; 0]) s ∧ wait_queue_writers (ring s) = [1] ∧
    ring_buffer_available (ring s) = 1.
Proof.
  eexists. split; [eapply rtc_r; [apply demo_steps|by apply s_discard]|done].
Qed.

(** Once the write end of a pipe is closed, a read never sleeps: it returns the
    bytes still in the pipe, in order, and 0 when there are none; a write to a pipe
    whose read end is closed transfers nothing, returns [-EPIPE] and signals
    [SIGPIPE] to the writer. *)
Theorem unixpipe_hangup pid want src self :
  wf (pipe_buffer self) → 0 < want →
  (read_closed self = 0 →
   ∃ self', read_unixpipe (enough (pipe_buffer (close_write_pipe self))) pid
       (close_write_pipe self) want =
     Done (self', take (Z.to_nat want) (pipe_contents self),
           Return (Z.of_nat (length (take (Z.to_nat want) (pipe_contents self))))) ∧
     pipe_contents self' = drop (Z.to_nat want) (pipe_contents self)) ∧
  (∀ fuel, write_unixpipe fuel pid (close_read_pipe self) src =
     Done (close_read_pipe self, 0, Return (- EPIPE), [(pid, SIGPIPE)])).
Proof.
  intros W Hw. split; [|done]. intros Hr.
  destruct (close_write_pipe_contents self) as (Ec & Wc & _). specialize (Wc W).
  unfold read_unixpipe. unfold pipe_contents in *. simpl (write_closed _). cbn [negb Z.eqb andb].
  rewrite unread_length, Ec by done.
  destruct (Z.eqb_spec (Z.of_nat (length (contents (pipe_buffer self)))) 0) as [E0|E0].
  - assert (length (contents (pipe_buffer self)) = 0%nat) as E%nil_length_inv by lia.
    rewrite E in *. exists (close_write_pipe self). rewrite take_nil, drop_nil. done.
  - destruct (read_round_spec pid want _ Wc ltac:(lia)) as (rb' & v & E & _ & Ec' & _ & _ & Hv).
    rewrite E. osimpl. rewrite Ec in *.
    destruct (decide (take (Z.to_nat want) (contents (pipe_buffer self)) = [])) as [Hz|Hz].
    { apply take_nil_inv in Hz as [Hz|Hz]; [lia|]. rewrite Hz in E0. done. }
    destruct Hv as [-> _]. eexists. split; [done|]. done.
Qed.

Lemma unixpipe_hangup_witness :
  (0 = 0 →
   ∃ self', read_unixpipe (enough (pipe_buffer (close_write_pipe (UnixPipe 0 0 demo_rb)))) 7
       (close_write_pipe (UnixPipe 0 0 demo_rb)) 2 = Done (self', [10; 20], Return 2) ∧
     pipe_contents self' = [30]) ∧
  (∀ fuel, write_unixpipe fuel 7 (close_read_pipe (UnixPipe 0 0 demo_rb)) [1] =
     Done (close_read_pipe (UnixPipe 0 0 demo_rb), 0, Return (- EPIPE), [(7, SIGPIPE)])).
Proof. exact (unixpipe_hangup 7 2 [1] (UnixPipe 0 0 demo_rb) demo_rb_wf ltac:(lia)). Defined.
