(* ===== verification/Vfs.v ===== *)
(** * The virtual file system ([src/kernel/vfs/vfs.c])

    Strings are the lists of their bytes; KString shows that [strcmp], [strlen] and
    [strtok_r] compute on them what is used here.  A path that the code chops by
    writing terminators over its separators is the sequence of its components, and a
    pointer into it is the sequence of the components that remain.

    A file system is an instance of [FileSystem]: the operations its nodes carry as
    function pointers, [None] for a null pointer, over the file system's own state.
    The functions of this file that go through a node use only that interface; Tmpfs
    is an instance. *)
From S2P Require Import Prelude KString.
Local Open Scope Z_scope.

(** ** Constants *)

Definition FS_FILE : Z := 0x01.
Definition FS_DIRECTORY : Z := 0x02.
Definition FS_SYMLINK : Z := 0x20.

Definition O_NOFOLLOW : Z := 0x1000.
Definition O_PATH : Z := 0x2000.

Definition MAX_SYMLINK_DEPTH : Z := 8.
Definition MAX_SYMLINK_SIZE : Z := 4096.

Definition SEP : Z := 47.
Definition PATH_UP : list Z := str "..".
Definition PATH_DOT : list Z := str ".".

(** ** Data *)

Record process_t : Type := Process {
  user : Z;
  user_group : Z;
  supplementary_group_list : list Z;
  wd_name : list Z
}.

Record fs_node_t : Type := FsNode {
  mount : Z;
  mask : Z;
  uid : Z;
  gid : Z;
  flags : Z;
  inode : Z;
  refcount : Z
}.

Definition with_refcount (n : fs_node_t) (r : Z) : fs_node_t :=
  FsNode (mount n) (mask n) (uid n) (gid n) (flags n) (inode n) r.

(** [n->flags & f]. *)
Definition has_flag (n : fs_node_t) (f : Z) : bool := negb (Z.land (flags n) f =? 0).
Definition flag_set (fl f : Z) : bool := negb (Z.land fl f =? 0).

(** The function pointers of a node. *)
Class FileSystem (W : Type) := {
  fs_open : fs_node_t → option (Z → St W unit);
  fs_finddir : fs_node_t → option (list Z → St W (option fs_node_t));
  (** the value returned and the bytes stored in the caller's buffer *)
  fs_readlink : fs_node_t → option (Z → St W (Z * list Z));
  fs_create : fs_node_t → option (process_t → list Z → Z → St W Z);
  fs_mkdir : fs_node_t → option (process_t → list Z → Z → St W Z);
  fs_unlink : fs_node_t → option (list Z → St W Z);
  fs_symlink : fs_node_t → option (process_t → list Z → list Z → St W Z);
  (** the operation of the mount point of the two directories *)
  fs_rename : Z → option (fs_node_t → list Z → fs_node_t → list Z → St W Z)
}.

(** ** Permissions *)

Definition has_permission (p : process_t) (node : option fs_node_t) (permission_bit : Z) : Z :=
  match node with
  | None => 0
  | Some node =>
      if (user p =? 0) && negb (permission_bit =? 1) then 1
      else
        let permissions := mask node in
        let my := Z.land permissions 7 in
        let user_perm := Z.land (Z.shiftr permissions 6) 7 in
        let group_perm := Z.land (Z.shiftr permissions 3) 7 in
        let my := if user p =? uid node then Z.lor my user_perm else my in
        let my :=
          if user_group p =? gid node then Z.lor my group_perm
          else fold_left (λ my g, if g =? gid node then Z.lor my group_perm else my)
                 (supplementary_group_list p) my in
        Z.land permission_bit my
  end.

Definition allowed (p : process_t) (node : option fs_node_t) (bit : Z) : bool :=
  negb (has_permission p node bit =? 0).

(** ** Paths *)

(** The loop [for (pch = strtok_r(path, "/", &save); pch; pch = strtok_r(NULL, ...))]. *)
Fixpoint tokens (fuel : nat) (s : list Z) : list (list Z) :=
  match fuel with
  | O => []
  | S f => match strtok [SEP] s with
           | None => []
           | Some (t, rest) => t :: tokens f rest
           end
  end.

Definition tokenize_path (s : list Z) : list (list Z) := tokens (S (length s)) s.

(** One element of the path pushed on the stack. *)
Definition push (out : list (list Z)) (pch : list Z) : list (list Z) :=
  if bool_decide (pch = PATH_UP) then take (length out - 1) out
  else if bool_decide (pch = PATH_DOT) then out
  else out ++ [pch].

Definition canonicalize_path (cwd input : list Z) : list Z :=
  let out :=
    match input with
    | c :: _ => if negb (c =? SEP) then tokenize_path cwd else []
    | [] => []
    end in
  let out := fold_left push (tokenize_path input) out in
  let size := foldr (λ c n, Z.of_nat (length c) + 1 + n) 0 out in
  if size =? 0 then [SEP] else concat (map (cons SEP) out).

(** The string chopped at its separators. *)
Fixpoint chop (s : list Z) : list (list Z) :=
  match s with
  | [] => [[]]
  | c :: s' => if c =? SEP then [] :: chop s'
               else match chop s' with
                    | t :: ts => (c :: t) :: ts
                    | [] => [[c]]
                    end
  end.

Definition fs_basename (path : list Z) : list Z :=
  let len := length path in
  (* trailing slashes *)
  let fix back (n : nat) : nat :=
    match n with
    | O => O
    | S n' => if bool_decide (path !! n = Some SEP) then back n' else n
    end in
  let fix slash (n : nat) : nat :=
    match n with
    | O => O
    | S n' => if bool_decide (path !! n = Some SEP) then S n else slash n'
    end in
  drop_while (Z.eqb SEP) (drop (slash (back (len - 1)%nat)) path).

(** The last component as [create_file_fs] and its siblings find it: from the last
    separator that is not the first character. *)
Definition last_component (path : list Z) : list Z :=
  let fix slash (n : nat) : nat :=
    match n with
    | O => O
    | S n' => if bool_decide (path !! n = Some SEP) then S n else slash n'
    end in
  drop (slash (length path - 1)%nat) path.

(** ** Mount points *)

(** The tree of [struct vfs_entry]. *)
Inductive mtree : Type :=
  MNode (name : list Z) (file : option fs_node_t) (device fs_type : option (list Z))
        (children : list mtree).

Definition mname (t : mtree) : list Z := match t with MNode n _ _ _ _ => n end.
Definition mfile (t : mtree) : option fs_node_t := match t with MNode _ f _ _ _ => f end.
Definition mchildren (t : mtree) : list mtree := match t with MNode _ _ _ _ cs => cs end.

Definition new_entry (name : list Z) : mtree := MNode name None None None [].

(** [foreach(child, node->children) if (!strcmp(ent->name, at))]: the first child of
    that name, with the children before and after it. *)
Fixpoint find_child (at_ : list Z) (cs : list mtree) : option (list mtree * mtree * list mtree) :=
  match cs with
  | [] => None
  | c :: cs' =>
      if bool_decide (mname c = at_) then Some ([], c, cs')
      else match find_child at_ cs' with
           | Some (l, d, r) => Some (c :: l, d, r)
           | None => None
           end
  end.

(** The walk of [vfs_mount] down the tree, making the entries that are missing. *)
Fixpoint mount_at (t : mtree) (comps : list (list Z)) (local_root : fs_node_t)
    (type options : list Z) : mtree :=
  match t, comps with
  | MNode n _ _ _ cs, [] => MNode n (Some local_root) (Some options) (Some type) cs
  | MNode n f d ty cs, c :: comps' =>
      match find_child c cs with
      | Some (l, ch, r) => MNode n f d ty (l ++ mount_at ch comps' local_root type options :: r)
      | None => MNode n f d ty (cs ++ [mount_at (new_entry c) comps' local_root type options])
      end
  end.

(** The components [vfs_mount] goes through: the loop ends when [at] is at the end of
    the path, so an empty component at the end is not one. *)
Definition mount_components (path : list Z) : list (list Z) :=
  let l := chop (drop 1 path) in
  match last l with Some [] => take (length l - 1) l | _ => l end.

Section Vfs.
Context {W : Type} `{!FileSystem W}.

Record vfs_state : Type := Vfs {
  fs_root : option fs_node_t;
  fs_tree : mtree;
  world : W
}.

Definition vfs_install (w : W) : vfs_state := Vfs None (MNode (str "[root]") None None None []) w.

(** [None] is the null return on a path that is not absolute. *)
Definition vfs_mount (path : list Z) (local_root : fs_node_t) (type options : list Z)
    (s : vfs_state) : option vfs_state :=
  match path with
  | c :: _ =>
      if negb (c =? SEP) then None
      else
        let local_root := with_refcount local_root (-1) in
        if bool_decide (head (chop (drop 1 path)) = Some []) then
          match fs_tree s with
          | MNode n _ _ _ cs =>
              Some (Vfs (Some local_root) (MNode n (Some local_root) (Some options) (Some type) cs)
                        (world s))
          end
        else Some (Vfs (fs_root s)
                       (mount_at (fs_tree s) (mount_components path) local_root type options)
                       (world s))
  | [] => None
  end.

(** The descent of [get_mount_point]: the deepest mounted file on the path, the
    components below it and its depth. *)
Fixpoint mount_walk (node : mtree) (comps : list (list Z)) (depth : Z)
    (best : option fs_node_t * list (list Z) * Z) : option fs_node_t * list (list Z) * Z :=
  match comps with
  | [] => best
  | at_ :: comps' =>
      match find_child at_ (mchildren node) with
      | None => best
      | Some (_, tchild, _) =>
          let best := match mfile tchild with
                      | Some f => (Some f, comps', depth)
                      | None => best
                      end in
          mount_walk tchild comps' (depth + 1) best
      end
  end.

Definition get_mount_point (s : vfs_state) (comps : list (list Z))
    : option fs_node_t * list (list Z) * Z :=
  let '(f, rest, d) := mount_walk (fs_tree s) comps 1 (fs_root s, comps, 0) in
  ((λ n, with_refcount n 0) <$> f, rest, d).

(** ** Opening files *)

Definition in_world {A} (m : St W A) : St vfs_state A := λ s,
  match m (world s) with
  | Done (a, w) => Done (a, Vfs (fs_root s) (fs_tree s) w)
  | Fault => Fault
  | Timeout => Timeout
  end.

Definition open_fs (node : fs_node_t) (fl : Z) : St vfs_state fs_node_t :=
  let node := if 0 <=? refcount node then with_refcount node (refcount node + 1) else node in
  match fs_open node with
  | Some f => in_world (f fl);; mret node
  | None => mret node
  end.

Definition finddir_fs (node : fs_node_t) (name : list Z) : St vfs_state (option fs_node_t) :=
  if has_flag node FS_DIRECTORY then
    match fs_finddir node with
    | Some f => in_world (f name)
    | None => mret None
    end
  else mret None.

Definition readlink_fs (node : fs_node_t) (size : Z) : St vfs_state (Z * list Z) :=
  match fs_readlink node with
  | Some f => in_world (f size)
  | None => mret (- EINVAL, [])
  end.

(** The components before the one at depth [depth], as an absolute path; empty when
    [depth] is 0 or 1. *)
Definition relpath (comps : list (list Z)) (depth : Z) : list Z :=
  concat (map (cons SEP) (take (Z.to_nat (depth - 1)) comps)).

(** The bytes of the buffer up to its terminator. *)
Definition cstring (buf : list Z) : list Z := take_while (λ c, negb (c =? 0)) buf.

(** The [do ... while (depth < path_depth + 1)] loop of [kopen_recur]; [recur] is the
    recursive call on the target of a symbolic link. *)
Fixpoint kopen_loop (recur : list Z → list Z → St vfs_state (option fs_node_t))
    (p : process_t) (fl symlink_depth : Z) (comps : list (list Z)) (path_depth : Z)
    (rest : list (list Z)) (depth : Z) (node_ptr : fs_node_t)
    : St vfs_state (option fs_node_t) :=
  let resolved : St vfs_state (option fs_node_t) :=
    if has_flag node_ptr FS_SYMLINK &&
       negb (flag_set fl O_NOFOLLOW && flag_set fl O_PATH && (depth =? path_depth))
    then
      if flag_set fl O_NOFOLLOW && (depth =? path_depth - 1) then mret None
      else if MAX_SYMLINK_DEPTH <=? symlink_depth then mret None
      else
        '(len, buf) ← readlink_fs node_ptr MAX_SYMLINK_SIZE;
        if len <? 0 then mret None
        else if negb (bool_decide (buf !! Z.to_nat len = Some 0)) then mret None
        else recur (cstring buf) (relpath comps depth)
    else mret (Some node_ptr) in
  o ← resolved;
  match o with
  | None => mret None
  | Some node_ptr =>
      match rest with
      | [] => n ← open_fs node_ptr fl; mret (Some n)
      | at_ :: rest' =>
          if depth =? path_depth then n ← open_fs node_ptr fl; mret (Some n)
          else if negb (allowed p (Some node_ptr) 1) then mret None
          else
            next ← finddir_fs node_ptr at_;
            match next with
            | None => mret None
            | Some node_ptr =>
                if depth + 1 <? path_depth + 1 then
                  kopen_loop recur p fl symlink_depth comps path_depth rest' (depth + 1) node_ptr
                else mret None
            end
      end
  end.

Fixpoint kopen_recur (fuel : nat) (p : process_t) (filename : list Z) (fl symlink_depth : Z)
    (relative_to : list Z) : St vfs_state (option fs_node_t) :=
  match fuel with
  | O => λ _, Timeout
  | S f =>
      let path := canonicalize_path relative_to filename in
      if Z.of_nat (length path) =? 1 then
        s ← get;
        match fs_root s with
        | None => fault
        | Some r => n ← open_fs (with_refcount r 0) fl; mret (Some n)
        end
      else
        let path_depth := Z.of_nat (length (filter (λ c, c = SEP) path)) in
        let comps := chop (drop 1 path) in
        s ← get;
        let '(node_ptr, rest, depth) := get_mount_point s comps in
        match node_ptr with
        | None => mret None
        | Some node_ptr =>
            kopen_loop (λ target rel, kopen_recur f p target 0 (symlink_depth + 1) rel)
              p fl symlink_depth comps path_depth rest depth node_ptr
        end
  end.

(** The recursion follows at most [MAX_SYMLINK_DEPTH] links. *)
Definition kopen (p : process_t) (filename : list Z) (fl : Z) : St vfs_state (option fs_node_t) :=
  kopen_recur (S (Z.to_nat MAX_SYMLINK_DEPTH)) p filename fl 0 (wd_name p).

(** ** Operations by path *)

(** [snprintf(parent_path, strlen(path) + 4, "%s/..", path)]. *)
Definition parent_path (path : list Z) : list Z := path ++ str "/..".

Definition file_get_parent (p : process_t) (path : list Z) : St vfs_state (option fs_node_t) :=
  kopen p (parent_path path) 0.

Definition create_file_fs (p : process_t) (name : list Z) (permission : Z) : St vfs_state Z :=
  let path := canonicalize_path (wd_name p) name in
  let f_path := drop_while (Z.eqb SEP) (last_component path) in
  parent ← kopen p (parent_path path) 0;
  match parent with
  | None => mret (- ENOENT)
  | Some n =>
      if negb (allowed p parent 2) || negb (allowed p parent 1) then mret (- EACCES)
      else match fs_create n with
           | Some f => in_world (f p f_path permission)
           | None => mret (- EINVAL)
           end
  end.

Definition unlink_fs (p : process_t) (name : list Z) : St vfs_state Z :=
  let path := canonicalize_path (wd_name p) name in
  let f_path := drop_while (Z.eqb SEP) (last_component path) in
  parent ← kopen p (parent_path path) 0;
  match parent with
  | None => mret (- ENOENT)
  | Some n =>
      if negb (allowed p parent 2) || negb (allowed p parent 1) then mret (- EACCES)
      else match fs_unlink n with
           | Some f => in_world (f f_path)
           | None => mret (- EINVAL)
           end
  end.

Definition mkdir_fs (p : process_t) (name : list Z) (permission : Z) : St vfs_state Z :=
  let path := canonicalize_path (wd_name p) name in
  if bool_decide (name = []) then mret (- EINVAL)
  else
    let f_path := drop_while (Z.eqb SEP) (last_component path) in
    parent ← kopen p (parent_path path) 0;
    match parent with
    | None => mret (- ENOENT)
    | Some n =>
        if bool_decide (f_path = []) then mret (- EEXIST)
        else match fs_mkdir n with
             | Some f => in_world (f p f_path permission)
             | None => mret (- EROFS)
             end
    end.

Definition symlink_fs (p : process_t) (target name : list Z) : St vfs_state Z :=
  let path := canonicalize_path (wd_name p) name in
  let f_path := last_component path in
  parent ← kopen p (parent_path path) 0;
  match parent with
  | None => mret (- ENOENT)
  | Some n =>
      if negb (allowed p parent 2) || negb (allowed p parent 1) then mret (- EACCES)
      else match fs_symlink n with
           | Some f => in_world (f p target f_path)
           | None => mret (- EINVAL)
           end
  end.

Definition rename_file_fs (p : process_t) (src dest : list Z) : St vfs_state Z :=
  if bool_decide (src = []) || bool_decide (dest = []) then mret (- ENOENT)
  else
    src_parent ← file_get_parent p src;
    match src_parent with
    | None => mret (- ENOENT)
    | Some sp =>
        dest_parent ← file_get_parent p dest;
        match dest_parent with
        | None => mret (- ENOENT)
        | Some dp =>
            if mount sp =? NULL then mret (- EROFS)
            else if negb (mount sp =? mount dp) then mret (- EXDEV)
            else match fs_rename (mount sp) with
            | None => mret (- ENOTSUP)
            | Some f =>
                if negb (allowed p src_parent 2) || negb (allowed p src_parent 1) then mret (- EACCES)
                else if negb (allowed p dest_parent 2) || negb (allowed p dest_parent 1)
                then mret (- EACCES)
                else
                  let src_name := fs_basename src in
                  let dest_name := fs_basename dest in
                  if bool_decide (src_name = []) || bool_decide (dest_name = []) then mret (- EINVAL)
                  else if bool_decide (head src_name = Some SEP) || bool_decide (head dest_name = Some SEP)
                  then mret (- EINVAL)
                  else in_world (f sp src_name dp dest_name)
            end
        end
    end.
End Vfs.

(** ** Canonical paths *)

Definition join (cs : list (list Z)) : list Z := concat (map (cons SEP) cs).

(** A path component: not empty and without separators. *)
Definition comp_ok (c : list Z) : Prop := c ≠ [] ∧ SEP ∉ c.

(** Neither [.] nor [..]. *)
Definition plain (c : list Z) : Prop := c ≠ PATH_DOT ∧ c ≠ PATH_UP.

Lemma in_sep c : in_set [SEP] c = bool_decide (c = SEP).
Proof. unfold in_set. apply bool_decide_ext. apply list_elem_of_singleton. Qed.

Lemma drop_while_none {A} (f : A → bool) l :
  match l with [] => True | x :: _ => f x = false end → drop_while f l = l.
Proof. destruct l as [|x l]; simpl; [done|]. by intros ->. Qed.

Lemma take_while_app {A} (f : A → bool) l1 l2 :
  Forall (λ x, f x = true) l1 → match l2 with [] => True | x :: _ => f x = false end →
  take_while f (l1 ++ l2) = l1 ∧ drop_while f (l1 ++ l2) = l2.
Proof.
  intros H1 H2. induction H1 as [|x l1 Hx _ [IH1 IH2]]; simpl.
  - destruct l2 as [|y l2]; simpl; [done|]. by rewrite H2.
  - rewrite Hx. by rewrite IH1, IH2.
Qed.

Lemma join_head cs : match join cs with [] => True | x :: _ => x = SEP end.
Proof. by destruct cs. Qed.

Lemma tokens_join cs fuel s :
  Forall comp_ok cs → drop_while (in_set [SEP]) s = drop 1 (join cs) →
  (length cs < fuel)%nat → tokens fuel s = cs.
Proof.
  intros Hcs. revert fuel s. induction Hcs as [|c cs [Hne Hns] Hcs IH]; intros fuel s Hs Hf;
    (destruct fuel as [|fuel]; [simpl in Hf; lia|]); cbn [tokens]; unfold strtok; rewrite Hs.
  - done.
  - change (drop 1 (join (c :: cs))) with (c ++ join cs). destruct (take_while_app (λ b, negb (in_set [SEP] b)) c (join cs)) as [E1 E2].
    { apply Forall_forall. intros x Hx. rewrite in_sep, bool_decide_eq_false_2; [done|].
      by intros ->. }
    { pose proof (join_head cs) as H. destruct (join cs); [done|]. subst.
      by rewrite in_sep, bool_decide_eq_true_2. }
    destruct (c ++ join cs) as [|x l] eqn:E; [by destruct c|].
    rewrite E1, E2. f_equal. apply IH; [|simpl in Hf; lia].
    apply drop_while_none. destruct cs as [|d cs]; [done|]. apply Forall_cons in Hcs as [[Hd Hd'] _].
    simpl. rewrite ?drop_0. destruct d as [|y d]; [done|]. simpl. rewrite in_sep.
    apply bool_decide_eq_false_2. intros ->. apply Hd'. left.
Qed.

Lemma length_join cs : (length cs ≤ length (join cs))%nat.
Proof. induction cs as [|c cs IH]; simpl; [lia|]. rewrite length_app. fold (join cs). lia. Qed.

Lemma tokenize_join cs : Forall comp_ok cs → tokenize_path (join cs) = cs.
Proof.
  intros Hcs. apply tokens_join; [done| |pose proof (length_join cs); lia].
  destruct cs as [|c cs]; [done|]. change (join (c :: cs)) with (SEP :: c ++ join cs).
  cbn [drop_while drop]. rewrite in_sep, bool_decide_eq_true_2 by done.
  rewrite ?drop_0. apply drop_while_none. apply Forall_cons in Hcs as [[Hd Hd'] _].
  destruct c as [|y d]; [done|]. cbn. rewrite (in_sep y).
  apply bool_decide_eq_false_2. intros ->. apply Hd'. left.
Qed.

Lemma tokens_ok fuel s : Forall comp_ok (tokens fuel s).
Proof.
  revert s. induction fuel as [|fuel IH]; intros s; simpl; [constructor|].
  unfold strtok. destruct (drop_while (in_set [SEP]) s) as [|x l] eqn:E; [constructor|].
  pose proof (drop_while_head _ _ _ _ E) as Hx. constructor; [|apply IH]. split.
  - simpl. by rewrite Hx.
  - intros Hin. pose proof (take_while_all (λ b, negb (in_set [SEP] b)) (x :: l)) as Ha.
    rewrite Forall_forall in Ha. specialize (Ha _ Hin). by rewrite in_sep, bool_decide_eq_true_2 in Ha.
Qed.

(** The components a path resolves to, against a working directory. *)
Definition resolved_comps (cwd input : list Z) : list (list Z) :=
  fold_left push (tokenize_path input)
    (match input with
     | c :: _ => if negb (c =? SEP) then tokenize_path cwd else []
     | [] => []
     end).

Lemma push_all (P : list Z → Prop) l out :
  Forall P out → Forall (λ c, plain c → P c) l → Forall P (fold_left push l out).
Proof.
  revert out. induction l as [|c l IH]; intros out Ho Hl; simpl; [done|].
  apply Forall_cons in Hl as [Hc Hl]. apply IH; [|done]. unfold push.
  case_bool_decide as E1; [by apply Forall_take|]. case_bool_decide as E2; [done|].
  apply Forall_app. split; [done|]. constructor; [|done]. by apply Hc.
Qed.

Lemma resolved_ok cwd input : Forall comp_ok (resolved_comps cwd input).
Proof.
  apply push_all; [|eapply Forall_impl; [apply tokens_ok|done]].
  destruct input as [|c input]; [done|]. case_match; [apply tokens_ok|done].
Qed.

Lemma canonicalize_join cwd input :
  canonicalize_path cwd input =
    if bool_decide (resolved_comps cwd input = []) then [SEP] else join (resolved_comps cwd input).
Proof.
  unfold canonicalize_path. fold (resolved_comps cwd input). cbv zeta.
  destruct (resolved_comps cwd input) as [|c cs]; [done|]. simpl foldr.
  rewrite bool_decide_eq_false_2 by done.
  assert (0 ≤ foldr (λ c n, Z.of_nat (length c) + 1 + n) 0 cs) by (induction cs; simpl; lia).
  destruct (Z.eqb_spec (Z.of_nat (length c) + 1 + foldr (λ c n, Z.of_nat (length c) + 1 + n) 0 cs) 0); [lia|done].
Qed.

Lemma push_plain l out : Forall plain l → fold_left push l out = out ++ l.
Proof.
  intros H. revert out. induction H as [|c l [H1 H2] _ IH]; intros out; simpl; [by rewrite app_nil_r|].
  rewrite IH. unfold push. rewrite !bool_decide_eq_false_2 by done. by rewrite <-app_assoc.
Qed.

Lemma tokenize_canonical cwd input :
  tokenize_path (canonicalize_path cwd input) = resolved_comps cwd input.
Proof.
  rewrite canonicalize_join. case_bool_decide as E; [by rewrite E|].
  apply tokenize_join, resolved_ok.
Qed.

Lemma canonicalize_head cwd input : head (canonicalize_path cwd input) = Some SEP.
Proof.
  rewrite canonicalize_join. case_bool_decide as E; [done|]. by destruct (resolved_comps cwd input).
Qed.

Lemma chop_app c s : SEP ∉ c → chop (c ++ s) = match chop s with t :: ts => (c ++ t) :: ts | [] => [c] end.
Proof.
  induction c as [|x c IH]; intros Hc; simpl.
  - by destruct (chop s) eqn:E; [destruct s as [|y s]; simpl in E; repeat case_match|].
  - rewrite (proj2 (Z.eqb_neq x SEP)) by set_solver. rewrite IH by set_solver. by destruct (chop s).
Qed.

(** A canonical path chopped at its separators gives its components. *)
Lemma chop_join c cs : Forall comp_ok (c :: cs) → chop (drop 1 (join (c :: cs))) = c :: cs.
Proof.
  simpl. rewrite ?drop_0. fold (join cs). revert c. induction cs as [|d cs IH]; intros c Hc.
  - apply Forall_cons in Hc as [[_ Hc] _]. simpl. rewrite chop_app by done. simpl. by rewrite app_nil_r.
  - apply Forall_cons in Hc as [[_ Hc] Hcs]. rewrite chop_app by done.
    change (join (d :: cs)) with (SEP :: d ++ join cs). simpl. rewrite IH by done. by rewrite app_nil_r.
Qed.

(** ** A reference for paths

    Independent of the stack and of [strtok_r]: the components of a string are the
    non-empty pieces between its separators, and a relative path, read from its end,
    amounts to climbing [up] levels and then going [down] some components, a [..]
    taking away the component before it. *)
Definition components (s : list Z) : list (list Z) := filter (λ c, c ≠ []) (chop s).

Fixpoint displacement (cs : list (list Z)) : nat * list (list Z) :=
  match cs with
  | [] => (0%nat, [])
  | c :: cs' =>
      let '(up, down) := displacement cs' in
      if bool_decide (c = PATH_DOT) then (up, down)
      else if bool_decide (c = PATH_UP) then (S up, down)
      else match up with
           | O => (O, c :: down)
           | S up' => (up', down)
           end
  end.

(** Where a path leads: from the root when it starts with a separator or is empty,
    else from the working directory; climbing stops at the root. *)
Definition destination (cwd input : list Z) : list (list Z) :=
  let base := match head input with
              | Some c => if decide (c = SEP) then [] else components cwd
              | None => []
              end in
  let '(up, down) := displacement (components input) in
  take (length base - up) base ++ down.

Lemma push_displacement cs out :
  fold_left push cs out =
    take (length out - (displacement cs).1) out ++ (displacement cs).2.
Proof.
  revert out. induction cs as [|c cs IH]; intros out; simpl.
  - rewrite Nat.sub_0_r, firstn_all. by rewrite app_nil_r.
  - rewrite IH. clear IH. destruct (displacement cs) as [up down]. unfold push. simpl.
    case_bool_decide as E1; [|case_bool_decide as E2].
    + rewrite bool_decide_eq_false_2 by (subst; done). simpl.
      rewrite take_take, length_take. do 2 f_equal. lia.
    + done.
    + destruct up as [|up]; simpl; rewrite length_app; simpl.
      * rewrite (take_ge (out ++ [c])), take_ge by (rewrite ?length_app; simpl; lia).
        by rewrite <-app_assoc.
      * rewrite take_app_le by lia. do 2 f_equal. lia.
Qed.

Lemma components_seps s : components (drop_while (in_set [SEP]) s) = components s.
Proof.
  unfold components. induction s as [|c s IH]; simpl; [done|].
  rewrite in_sep. case_bool_decide as E; simpl.
  - subst. rewrite IH. simpl. done.
  - done.
Qed.

(** The first word of a string is its first component. *)
Lemma components_word x l (w := take_while (λ b, negb (in_set [SEP] b)) (x :: l))
    (r := drop_while (λ b, negb (in_set [SEP] b)) (x :: l)) :
  negb (in_set [SEP] x) = true → components (x :: l) = w :: components (drop 1 r).
Proof.
  intros Hx. assert (Hns : SEP ∉ w).
  { intros Hin. pose proof (take_while_all (λ b, negb (in_set [SEP] b)) (x :: l)) as Ha.
    rewrite Forall_forall in Ha. specialize (Ha _ Hin). by rewrite in_sep, bool_decide_eq_true_2 in Ha. }
  assert (Hne : w ≠ []) by (unfold w; cbn [take_while]; by rewrite Hx).
  rewrite <-(take_drop_while (λ b, negb (in_set [SEP] b)) (x :: l)). fold w r. unfold components.
  rewrite chop_app by done. destruct r as [|y r'] eqn:E; simpl.
  - rewrite app_nil_r, filter_cons_True by done. done.
  - apply drop_while_head in E. rewrite in_sep, negb_false_iff, bool_decide_eq_true in E. subst y.
    simpl. rewrite app_nil_r, filter_cons_True by done. by rewrite ?drop_0.
Qed.

Lemma tokens_components fuel s : (length s < fuel)%nat → tokens fuel s = components s.
Proof.
  revert s. induction fuel as [|fuel IH]; intros s Hf; [lia|]. cbn [tokens].
  rewrite <-components_seps. unfold strtok.
  assert (Hl : (length (drop_while (in_set [SEP]) s) ≤ length s)%nat).
  { rewrite <-(length_take_drop_while (in_set [SEP]) s). lia. }
  destruct (drop_while (in_set [SEP]) s) as [|x l] eqn:E; [done|].
  pose proof (drop_while_head _ _ _ _ E) as Hx. rewrite IH.
  - symmetry. apply components_word. by rewrite Hx.
  - pose proof (length_take_drop_while (λ b, negb (in_set [SEP] b)) (x :: l)) as Hw.
    rewrite length_drop. cbn [take_while] in Hw. rewrite Hx in Hw. cbn [negb length] in *. lia.
Qed.

Lemma tokenize_components s : tokenize_path s = components s.
Proof. apply tokens_components. lia. Qed.

Lemma resolved_destination cwd input : resolved_comps cwd input = destination cwd input.
Proof.
  unfold resolved_comps, destination. rewrite !tokenize_components, push_displacement.
  destruct input as [|c input]; cbn [head]; [by destruct (displacement _)|].
  destruct (Z.eqb_spec c SEP); cbn [negb];
    [rewrite decide_True by done|rewrite decide_False by done]; by destruct (displacement _).
Qed.

Lemma seps_join cs : Forall comp_ok cs → length (filter (λ c, c = SEP) (join cs)) = length cs.
Proof.
  induction 1 as [|c cs [_ Hc] _ IH]; [done|].
  change (join (c :: cs)) with ((SEP :: c) ++ join cs). rewrite filter_app, length_app, IH.
  rewrite filter_cons_True by done. simpl. f_equal. 
  assert (∀ l, SEP ∉ l → filter (λ c, c = SEP) l = []) as Hf; [|by rewrite Hf].
  clear. induction l as [|x l IH]; intros Hl; [done|].
  rewrite filter_cons_False by set_solver. apply IH. set_solver.
Qed.

(** ** Permissions *)

Lemma testbit_land7 x k : 0 ≤ k ≤ 2 → Z.testbit (Z.land x 7) k = Z.testbit x k.
Proof.
  intros Hk. rewrite Z.land_spec. assert (k = 0 ∨ k = 1 ∨ k = 2) as [->|[->| ->]] by lia;
    by rewrite andb_true_r.
Qed.

Lemma testbit_perm x k j : 0 ≤ k ≤ 2 → 0 ≤ j → Z.testbit (Z.land (Z.shiftr x j) 7) k = Z.testbit x (k + j).
Proof. intros Hk Hj. rewrite testbit_land7 by done. apply Z.shiftr_spec. lia. Qed.

(** The supplementary groups: the loop may add the group bits several times. *)
Lemma fold_groups_testbit gs g my gp k :
  Z.testbit (fold_left (λ my x, if x =? g then Z.lor my gp else my) gs my) k =
    Z.testbit my k || (bool_decide (g ∈ gs) && Z.testbit gp k).
Proof.
  revert my. induction gs as [|x gs IH]; intros my; simpl; [by rewrite orb_false_r|].
  rewrite IH. destruct (Z.eqb_spec x g) as [->|Hne].
  - rewrite Z.lor_spec, (bool_decide_eq_true_2 (g ∈ g :: gs)) by (by left).
    simpl. rewrite <-orb_assoc. f_equal. by destruct (Z.testbit gp k), (bool_decide (g ∈ gs)).
  - f_equal. f_equal. apply bool_decide_ext. rewrite elem_of_cons. naive_solver.
Qed.

Lemma allowed_spec p n k :
  0 ≤ k ≤ 2 →
  allowed p (Some n) (2 ^ k) =
    ((user p =? 0) && negb (k =? 0)) || Z.testbit (mask n) k ||
    ((user p =? uid n) && Z.testbit (mask n) (k + 6)) ||
    (((user_group p =? gid n) || bool_decide (gid n ∈ supplementary_group_list p)) &&
     Z.testbit (mask n) (k + 3)).
Proof.
  intros Hk. unfold allowed, has_permission.
  replace (2 ^ k =? 1) with (k =? 0).
  2:{ assert (k = 0 ∨ k = 1 ∨ k = 2) as [->|[->| ->]] by lia; done. }
  destruct ((user p =? 0) && negb (k =? 0)); [done|]. cbv zeta. cbn [orb].
  rewrite <-(Z.shiftl_1_l k), (Z.land_comm (Z.shiftl 1 k)), land_bit_zero, negb_involutive by lia.
  set (my := if user p =? uid n then _ else _).
  assert (Emy : Z.testbit my k = Z.testbit (mask n) k || ((user p =? uid n) && Z.testbit (mask n) (k + 6))).
  { unfold my. destruct (user p =? uid n); rewrite ?Z.lor_spec, ?testbit_perm, testbit_land7 by lia;
      [done|by rewrite orb_false_r]. }
  destruct (user_group p =? gid n).
  - rewrite Z.lor_spec, Emy, testbit_perm by lia. done.
  - rewrite fold_groups_testbit, Emy, testbit_perm by lia. done.
Qed.

(** ** Mount points *)

(** The file mounted at exactly the given components. *)
Fixpoint exact (t : mtree) (comps : list (list Z)) : option fs_node_t :=
  match comps with
  | [] => mfile t
  | c :: comps' => match find_child c (mchildren t) with
                   | Some (_, ch, _) => exact ch comps'
                   | None => None
                   end
  end.

Lemma find_child_Some c cs l d r :
  find_child c cs = Some (l, d, r) → cs = l ++ d :: r ∧ mname d = c ∧ Forall (λ x, mname x ≠ c) l.
Proof.
  revert l. induction cs as [|x cs IH]; intros l; simpl; [done|]. case_bool_decide as E.
  - intros [= <- <- <-]. done.
  - destruct (find_child c cs) as [[[l' d'] r']|] eqn:F; [|done]. intros [= <- <- <-].
    destruct (IH l' eq_refl) as (-> & ? & ?). split_and!; [done|done|by constructor].
Qed.

Lemma find_child_None c cs : find_child c cs = None ↔ Forall (λ x, mname x ≠ c) cs.
Proof.
  induction cs as [|x cs IH]; simpl; [by split|]. rewrite Forall_cons, <-IH.
  case_bool_decide; [naive_solver|]. destruct (find_child c cs) as [[[]]|]; naive_solver.
Qed.

Lemma find_child_middle c l d r :
  Forall (λ x, mname x ≠ c) l → mname d = c → find_child c (l ++ d :: r) = Some (l, d, r).
Proof.
  intros Hl Hd. induction Hl as [|x l Hx _ IH]; simpl; [by rewrite bool_decide_eq_true_2|].
  rewrite bool_decide_eq_false_2 by done. by rewrite IH.
Qed.

Definition child_named (c : list Z) (cs : list mtree) : option mtree :=
  (λ x, x.1.2) <$> find_child c cs.

(** Looking for another name skips the child. *)
Lemma find_child_other c l d d' r :
  mname d ≠ c → mname d' ≠ c →
  child_named c (l ++ d :: r) = child_named c (l ++ d' :: r).
Proof.
  intros Hd Hd'. unfold child_named. induction l as [|x l IH]; simpl.
  - rewrite !bool_decide_eq_false_2 by done. destruct (find_child c r) as [[[]]|]; done.
  - case_bool_decide; [done|]. revert IH.
    destruct (find_child c (l ++ d :: r)) as [[[]]|], (find_child c (l ++ d' :: r)) as [[[]]|]; simpl; congruence.
Qed.

Lemma mname_mount_at t comps n ty o : mname (mount_at t comps n ty o) = mname t.
Proof. destruct t, comps; simpl; [done|]. by repeat case_match. Qed.

Lemma exact_cons t c q :
  exact t (c :: q) = child_named c (mchildren t) ≫= λ ch, exact ch q.
Proof. unfold child_named. simpl. by destruct (find_child c (mchildren t)) as [[[]]|]. Qed.

Lemma exact_new_entry c q : exact (new_entry c) q = None.
Proof. by destruct q. Qed.

(** Mounting changes what is mounted at its path and nowhere else. *)
Lemma exact_mount_at comps t n ty o q :
  exact (mount_at t comps n ty o) q = if decide (q = comps) then Some n else exact t q.
Proof.
  revert t q. induction comps as [|c comps IH]; intros [nm f d tp cs] q.
  - destruct q as [|c q]; [done|]. by rewrite decide_False.
  - cbn [mount_at]. destruct (find_child c cs) as [[[l ch] r]|] eqn:E.
    + destruct (find_child_Some _ _ _ _ _ E) as (-> & Hch & Hl).
      destruct q as [|c' q]; [done|]. rewrite !exact_cons. cbn [mchildren].
      destruct (decide (c' = c)) as [->|Hne].
      * unfold child_named. rewrite find_child_middle, E by (done || by rewrite mname_mount_at). simpl.
        rewrite IH. destruct (decide (q = comps)) as [->|]; [by rewrite decide_True|].
        rewrite decide_False by congruence. done.
      * rewrite (find_child_other c' l _ ch r) by (rewrite ?mname_mount_at; congruence).
        by rewrite decide_False by congruence.
    + pose proof (proj1 (find_child_None _ _) E) as Hno.
      destruct q as [|c' q]; [done|]. rewrite !exact_cons. cbn [mchildren].
      destruct (decide (c' = c)) as [->|Hne].
      * unfold child_named. rewrite find_child_middle, E by (done || by rewrite mname_mount_at). simpl.
        rewrite IH, exact_new_entry. destruct (decide (q = comps)) as [->|]; [by rewrite decide_True|].
        by rewrite decide_False by congruence.
      * rewrite decide_False by congruence. f_equal.
        assert (∀ l, child_named c' (l ++ [mount_at (new_entry c) comps n ty o]) =
                     child_named c' l) as ->; [|done].
        intros l. unfold child_named. induction l as [|x l IHl]; simpl.
        { rewrite bool_decide_eq_false_2; [done|]. rewrite mname_mount_at. simpl. congruence. }
        case_bool_decide; [done|]. revert IHl.
        destruct (find_child c' (l ++ _)) as [[[]]|], (find_child c' l) as [[[]]|]; simpl; congruence.
Qed.

(** The answer of [get_mount_point]: the longest prefix of the path something is
    mounted at. *)
Definition deepest {A} (t : mtree) (root : A) (q : list (list Z)) (inj : fs_node_t → A)
    (r : A * list (list Z) * Z) : Prop :=
  let '(f, rest, d) := r in
  0 ≤ d ≤ Z.of_nat (length q) ∧ rest = drop (Z.to_nat d) q ∧
  (if d =? 0 then f = root
   else ∃ n, exact t (take (Z.to_nat d) q) = Some n ∧ f = inj n) ∧
  (∀ k, (Z.to_nat d < k ≤ length q)%nat → exact t (take k q) = None).

Lemma mount_walk_spec comps node depth best :
  (mount_walk node comps depth best = best ∧
   ∀ k, (1 ≤ k ≤ length comps)%nat → exact node (take k comps) = None) ∨
  (∃ k n, (1 ≤ k ≤ length comps)%nat ∧ exact node (take k comps) = Some n ∧
     mount_walk node comps depth best = (Some n, drop k comps, depth + Z.of_nat k - 1) ∧
     ∀ j, (k < j ≤ length comps)%nat → exact node (take j comps) = None).
Proof.
  revert node depth best. induction comps as [|c comps IH]; intros node depth best.
  - left. split; [done|]. simpl. lia.
  - assert (Htake : ∀ k, (1 ≤ k)%nat → take k (c :: comps) = c :: take (k - 1) comps).
    { intros [|k] Hk; [lia|]. simpl. by rewrite Nat.sub_0_r. }
    cbn [mount_walk]. destruct (find_child c (mchildren node)) as [[[l ch] r]|] eqn:E.
    2:{ left. split; [done|]. intros k Hk. rewrite Htake by lia. simpl. by rewrite E. }
    assert (Hex : ∀ k, (1 ≤ k)%nat → exact node (take k (c :: comps)) = exact ch (take (k - 1) comps)).
    { intros k Hk. rewrite Htake by done. simpl. by rewrite E. }
    set (best' := match mfile ch with Some f => (Some f, comps, depth) | None => best end).
    destruct (IH ch (depth + 1) best') as [[-> Hn]|(k & n & Hk & Hx & -> & Hn)].
    + unfold best'. destruct (mfile ch) as [f|] eqn:Ef.
      * right. exists 1%nat, f. split_and!; [simpl; lia|simpl; lia| |cbn [drop]; rewrite ?drop_0; f_equal; lia|].
        { rewrite Hex by lia. done. }
        intros j Hj. rewrite Hex by lia. simpl in Hj. apply Hn. lia.
      * left. split; [done|]. intros j Hj. rewrite Hex by lia. simpl in Hj.
        destruct (decide (j = 1%nat)) as [->|]; [done|]. apply Hn. lia.
    + right. exists (S k), n. split_and!; [simpl; lia|simpl; lia| |cbn [drop]; f_equal; lia|].
      * rewrite Hex by lia. by replace (S k - 1)%nat with k by lia.
      * intros j Hj. rewrite Hex by lia. simpl in Hj. apply Hn. lia.
Qed.

Section Mounts.
Context {W : Type} `{!FileSystem W}.

Lemma get_mount_point_spec (s : vfs_state (W:=W)) q :
  deepest (fs_tree s) ((λ n, with_refcount n 0) <$> fs_root s) q (λ n, Some (with_refcount n 0))
    (get_mount_point s q).
Proof.
  unfold get_mount_point, deepest.
  destruct (mount_walk_spec q (fs_tree s) 1 (fs_root s, q, 0)) as [[-> Hn]|(k & n & Hk & Hx & -> & Hn)].
  - split_and!; [lia|lia|done|done|]. intros k Hk. apply Hn. lia.
  - replace (1 + Z.of_nat k - 1) with (Z.of_nat k) by lia. rewrite Nat2Z.id.
    rewrite (proj2 (Z.eqb_neq _ _)) by lia. split_and!; [lia|lia|done|by exists n|done].
Qed.
End Mounts.

(** ** Termination *)

(** A computation that always ends (with a value or a fault). *)
Definition live {S A} (m : St S A) : Prop := ∀ s, m s ≠ Timeout.

Lemma live_ret {S A} (a : A) : live (mret a : St S A).
Proof. done. Qed.

Lemma live_bind {S A B} (m : St S A) (f : A → St S B) : live m → (∀ a, live (f a)) → live (m ≫= f).
Proof.
  intros Hm Hf s. unfold mbind, St_bind. specialize (Hm s). destruct (m s) as [[a s']| |]; [|done|done].
  apply Hf.
Qed.

#[export] Hint Resolve live_ret live_bind : linaix.

Section Opening.
Context {W : Type} `{FS : !FileSystem W}.

(** The operations of the file system end. *)
Record responsive : Prop := {
  open_live : ∀ n f fl, fs_open n = Some f → live (f fl);
  finddir_live : ∀ n f name, fs_finddir n = Some f → live (f name);
  readlink_live : ∀ n f sz, fs_readlink n = Some f → live (f sz)
}.

Lemma in_world_live {A} (m : St W A) : live m → live (in_world m).
Proof. intros Hm s. unfold in_world. specialize (Hm (world s)). by destruct (m (world s)) as [[]| |]. Qed.

Lemma open_fs_live n fl : responsive → live (open_fs n fl).
Proof.
  intros R. unfold open_fs. cbv zeta. case_match eqn:E; [|done].
  apply live_bind; [|done]. by eapply in_world_live, open_live.
Qed.

Lemma finddir_fs_live n name : responsive → live (finddir_fs n name).
Proof.
  intros R. unfold finddir_fs. case_match; [|done]. case_match eqn:E; [|done].
  by eapply in_world_live, finddir_live.
Qed.

Lemma readlink_fs_live n sz : responsive → live (readlink_fs n sz).
Proof.
  intros R. unfold readlink_fs. case_match eqn:E; [|done]. by eapply in_world_live, readlink_live.
Qed.

Lemma kopen_loop_live recur p fl sd comps pd rest depth node :
  responsive → (sd < MAX_SYMLINK_DEPTH → ∀ t r, live (recur t r)) →
  live (kopen_loop recur p fl sd comps pd rest depth node).
Proof.
  intros R Hrec. revert depth node.
  assert (Hopen : ∀ n, live (n ← open_fs n fl; mret (Some n))).
  { intros n. apply live_bind; [by apply open_fs_live|done]. }
  induction rest as [|c rest IH]; intros depth node; cbn [kopen_loop]; apply live_bind.
  1,3: case_match; [|done]; case_match; [done|];
    destruct (Z.leb_spec MAX_SYMLINK_DEPTH sd); [done|];
    apply live_bind; [by apply readlink_fs_live|]; intros [len buf]; case_match; [done|];
    case_match; [done|]; by apply Hrec.
  - intros [n|]; [apply Hopen|done].
  - intros [n|]; [|done]. case_match; [apply Hopen|]. case_match; [done|].
    apply live_bind; [by apply finddir_fs_live|]. intros [n'|]; [|done]. case_match; [apply IH|done].
Qed.

Lemma kopen_recur_live fuel p filename fl sd rel :
  responsive → (0 < fuel)%nat → 0 ≤ sd → MAX_SYMLINK_DEPTH < Z.of_nat fuel + sd →
  live (kopen_recur fuel p filename fl sd rel).
Proof.
  intros R. revert filename fl sd rel. induction fuel as [|fuel IH]; intros filename fl sd rel Hf Hs Hd; [lia|].
  cbn [kopen_recur]. cbv zeta. case_match.
  - apply live_bind; [done|]. intros s. case_match; [|done].
    apply live_bind; [by apply open_fs_live|done].
  - apply live_bind; [done|]. intros s. destruct (get_mount_point s _) as [[[n|] rest] d]; [|done].
    apply kopen_loop_live; [done|]. intros Hlt t r. apply IH; lia.
Qed.

(** ** Paths without symbolic links *)

(** The walk down a path: search permission on every directory passed, then the
    entry of that name, and the last node is opened. *)
Fixpoint resolve (p : process_t) (fl : Z) (rest : list (list Z)) (node : fs_node_t)
    : St vfs_state (option fs_node_t) :=
  match rest with
  | [] => n ← open_fs node fl; mret (Some n)
  | c :: rest' =>
      if negb (allowed p (Some node) 1) then mret None
      else next ← finddir_fs node c;
           match next with
           | None => mret None
           | Some n => resolve p fl rest' n
           end
  end.

(** The nodes this walk meets, the first and the last included, are no symbolic links. *)
Fixpoint no_link_met (p : process_t) (rest : list (list Z)) (node : fs_node_t)
    (s : vfs_state) : Prop :=
  has_flag node FS_SYMLINK = false ∧
  match rest with
  | [] => True
  | c :: rest' =>
      allowed p (Some node) 1 = true →
      ∀ n s', finddir_fs node c s = Done (Some n, s') → no_link_met p rest' n s'
  end.

Lemma no_link_met_node p rest node s : no_link_met p rest node s → has_flag node FS_SYMLINK = false.
Proof. by destruct rest; intros []. Qed.

Lemma kopen_loop_resolve recur p fl sd comps pd rest depth node s :
  no_link_met p rest node s → depth + Z.of_nat (length rest) = pd →
  kopen_loop recur p fl sd comps pd rest depth node s = resolve p fl rest node s.
Proof.
  revert depth node s. induction rest as [|c rest IH]; intros depth node s [Hl Hr] Hd;
    cbn [kopen_loop resolve]; rewrite Hl; cbn [andb].
  - done.
  - rewrite (St_bind_done _ _ s (Some node) s) by done. cbv beta iota.
    simpl in Hd. rewrite (proj2 (Z.eqb_neq depth pd)) by lia.
    destruct (allowed p (Some node) 1) eqn:Ea; cbn [negb]; [|done].
    destruct (finddir_fs node c s) as [[[n|] s']| |] eqn:E.
    + rewrite !(St_bind_done _ _ _ _ _ E). cbv beta iota.
      rewrite (proj2 (Z.ltb_lt _ _)) by lia. apply IH; [by apply Hr|lia].
    + by rewrite !(St_bind_done _ _ _ _ _ E).
    + by rewrite !(St_bind_fault _ _ _ E).
    + by rewrite !(St_bind_timeout _ _ _ E).
Qed.

(** The number of components below the mount point. *)
Lemma kopen_resolve p filename fl s n rest d :
  resolved_comps (wd_name p) filename ≠ [] →
  get_mount_point s (resolved_comps (wd_name p) filename) = (Some n, rest, d) →
  no_link_met p rest n s →
  kopen p filename fl s = resolve p fl rest n s.
Proof.
  intros Hne Hm Hno. unfold kopen. change (Z.to_nat MAX_SYMLINK_DEPTH) with 8%nat. cbn [kopen_recur]. cbv zeta.
  pose proof (resolved_ok (wd_name p) filename) as Hok.
  rewrite canonicalize_join, bool_decide_eq_false_2 by done.
  set (cs := resolved_comps (wd_name p) filename) in *.
  destruct cs as [|c cs']; [done|].
  assert (Hlen : Z.of_nat (length (join (c :: cs'))) ≠ 1).
  { apply Forall_cons in Hok as [[Hc _] _]. change (join (c :: cs')) with (SEP :: c ++ join cs').
    simpl. rewrite length_app. destruct c; [done|]. simpl. lia. }
  rewrite (proj2 (Z.eqb_neq _ _) Hlen), (chop_join c cs' Hok), seps_join by done.
  rewrite (St_bind_done _ _ s s s) by done. rewrite Hm.
  apply kopen_loop_resolve; [done|].
  pose proof (get_mount_point_spec s (c :: cs')) as Hdeep. rewrite Hm in Hdeep.
  destruct Hdeep as (Hd & -> & _). rewrite length_drop. lia.
Qed.
End Opening.
Arguments responsive W {FS}.

(** ** Reference counts

    A node shared by several descriptors: its reference count, [None] once it is
    freed, and how often its [close] was called.  Touching a freed node is a
    [Fault]. *)
Record shared_node : Type := Shared {
  count : option Z;
  closes : nat
}.

Definition vfs_lock (n : shared_node) : outcome shared_node :=
  match count n with
  | None => Fault
  | Some _ => Done (Shared (Some (-1)) (closes n))
  end.

Definition clone_fs (n : shared_node) : outcome shared_node :=
  match count n with
  | None => Fault
  | Some r => Done (if 0 <=? r then Shared (Some (r + 1)) (closes n) else n)
  end.

Definition close_fs (n : shared_node) : outcome shared_node :=
  match count n with
  | None => Fault
  | Some r =>
      if r =? -1 then Done n
      else if r - 1 =? 0 then Done (Shared None (S (closes n)))
      else Done (Shared (Some (r - 1)) (closes n))
  end.

Inductive ref_op : Type := Clone | Close.

Definition ref_delta (o : ref_op) : Z := match o with Clone => 1 | Close => -1 end.

Fixpoint run_refs (os : list ref_op) (n : shared_node) : outcome shared_node :=
  match os with
  | [] => Done n
  | o :: os' => n ← match o with Clone => clone_fs n | Close => close_fs n end; run_refs os' n
  end.

(** The references held after a sequence of operations. *)
Definition balance (os : list ref_op) : Z := foldr (λ o n, ref_delta o + n) 0 os.

Lemma balance_cons o os : balance (o :: os) = ref_delta o + balance os.
Proof. done. Qed.

Lemma run_refs_spec os r k :
  0 < r → (∀ j, (j < length os)%nat → 0 < r + balance (take j os)) →
  run_refs os (Shared (Some r) k) =
    Done (if r + balance os =? 0 then Shared None (S k) else Shared (Some (r + balance os)) k).
Proof.
  revert r. induction os as [|o os IH]; intros r Hr Hpre.
  { unfold balance. simpl. rewrite Z.add_0_r, (proj2 (Z.eqb_neq r 0)) by lia. done. }
  destruct (decide (os = [])) as [->|Hne].
  - unfold balance. destruct o; simpl; unfold clone_fs, close_fs; simpl.
    + bool_cases; try lia. done.
    + bool_cases; try lia; done.
  - assert (0 < r + ref_delta o) as Hr'.
    { specialize (Hpre 1%nat). simpl in Hpre. destruct os; [done|]. rewrite ?take_0 in Hpre.
      unfold balance in Hpre. simpl in Hpre. lia. }
    cbn [run_refs]. rewrite (outcome_bind_done _ _ (Shared (Some (r + ref_delta o)) k)).
    + rewrite IH; [rewrite balance_cons, Z.add_assoc; done|done|].
      intros j Hj. specialize (Hpre (S j)). cbn [take length] in Hpre.
      rewrite balance_cons in Hpre. lia.
    + destruct o; unfold clone_fs, close_fs; simpl in *.
      * by rewrite (proj2 (Z.leb_le 0 r)) by lia.
      * rewrite (proj2 (Z.eqb_neq r (-1))), (proj2 (Z.eqb_neq (r - 1) 0)) by lia. done.
Qed.

(** ** A small file system, for concrete runs

    The root directory 1 holds the directory [a] (2) and the symbolic link [l] (4) to
    [/a]; [a] holds the file [f] (3). *)
Definition demo_node (i fl : Z) : fs_node_t := FsNode 1 493 0 0 fl i 0.

#[export] Instance demo_fs (links : bool) : FileSystem unit := {|
  fs_open := λ _, None;
  fs_finddir := λ n, Some (λ name, mret
    (if (inode n =? 1) && bool_decide (name = str "a") then Some (demo_node 2 FS_DIRECTORY)
     else if (inode n =? 1) && links && bool_decide (name = str "l") then Some (demo_node 4 FS_SYMLINK)
     else if (inode n =? 2) && bool_decide (name = str "f") then Some (demo_node 3 FS_FILE)
     else None));
  fs_readlink := λ n, if inode n =? 4 then Some (λ _, mret (2, str "/a" ++ [0])) else None;
  fs_create := λ _, None;
  fs_mkdir := λ _, None;
  fs_unlink := λ _, None;
  fs_symlink := λ _, None;
  fs_rename := λ _, None
|}.

Definition demo_root : fs_node_t := demo_node 1 FS_DIRECTORY.
Definition demo_vfs : vfs_state (W:=unit) :=
  Vfs (Some demo_root) (MNode (str "[root]") (Some demo_root) None None []) tt.
Definition demo_proc : process_t := Process 1000 1000 [] (str "/a").

(** ** The theorems *)

(** C17: [canonicalize_path] writes the path's [destination]: [/] for the root, else
    each component after a separator.  The destination is read off the strings'
    [components] (their non-empty pieces between separators): the input counts from the
    root when it starts with a separator or is empty, from the working directory
    otherwise; [.] says nothing, [..] cancels the component before it or climbs a level
    of the working directory, and stops at the root.  If the working directory has no
    [.] or [..] neither has the result, and canonicalizing the result again, against any
    working directory, gives the same string. *)
Theorem canonicalize_path_correct cwd input :
  let out := canonicalize_path cwd input in
  out = (if decide (destination cwd input = []) then [SEP] else join (destination cwd input)) ∧
  components out = destination cwd input ∧ Forall comp_ok (destination cwd input) ∧
  (Forall plain (components cwd) →
   Forall plain (destination cwd input) ∧ ∀ cwd', canonicalize_path cwd' out = out).
Proof.
  intros out. rewrite <-!resolved_destination, <-!tokenize_components. split_and!.
  - unfold out. rewrite canonicalize_join.
    by case_bool_decide; [rewrite decide_True|rewrite decide_False].
  - apply tokenize_canonical.
  - apply resolved_ok.
  - intros Hcwd. assert (Forall plain (resolved_comps cwd input)) as Hp.
    { apply push_all; [|by apply Forall_true].
      destruct input as [|c input]; [done|]. by case_match. }
    split; [done|]. intros cwd'. unfold out at 1. rewrite (canonicalize_join cwd').
    assert (resolved_comps cwd' (canonicalize_path cwd input) = resolved_comps cwd input) as ->.
    + unfold resolved_comps at 1. rewrite tokenize_canonical.
      pose proof (canonicalize_head cwd input) as Hh.
      destruct (canonicalize_path cwd input) as [|c l]; [done|]. simpl in Hh. injection Hh as ->.
      simpl. by rewrite push_plain.
    + unfold out. by rewrite canonicalize_join.
Qed.

Lemma canonicalize_path_correct_witness :
  canonicalize_path (str "/home/local") (str "../x/./y//") = str "/home/x/y" ∧
  ∀ cwd', canonicalize_path cwd' (str "/home/x/y") = str "/home/x/y".
Proof.
  split; [reflexivity|].
  destruct (canonicalize_path_correct (str "/home/local") (str "../x/./y//")) as (_ & _ & _ & H).
  apply H. vm_compute. repeat constructor; discriminate.
Defined.

(** [has_permission] grants read, write or search permission (bit [2^k]) exactly
    when the caller is root and it is not search permission, or the bit is set for
    everyone, or for the owner and the caller owns the node, or for the group and
    the caller is in it (by its own or a supplementary group). *)
Theorem has_permission_correct p n k :
  0 ≤ k ≤ 2 →
  (has_permission p (Some n) (2 ^ k) ≠ 0 ↔
   (user p = 0 ∧ k ≠ 0) ∨ Z.testbit (mask n) k = true ∨
   (user p = uid n ∧ Z.testbit (mask n) (k + 6) = true) ∨
   ((user_group p = gid n ∨ gid n ∈ supplementary_group_list p) ∧
    Z.testbit (mask n) (k + 3) = true)) ∧
  has_permission p None (2 ^ k) = 0.
Proof.
  intros Hk. split; [|done]. pose proof (allowed_spec p n k Hk) as H.
  transitivity (allowed p (Some n) (2 ^ k) = true).
  - unfold allowed. rewrite negb_true_iff, Z.eqb_neq. done.
  - rewrite H, !orb_true_iff, !andb_true_iff, !orb_true_iff, negb_true_iff, !Z.eqb_eq, Z.eqb_neq,
      bool_decide_eq_true. tauto.
Qed.

Lemma has_permission_correct_witness :
  (has_permission demo_proc (Some demo_root) (2 ^ 1) ≠ 0 ↔
   (1000 = 0 ∧ 1 ≠ 0) ∨ false = true ∨ (1000 = 0 ∧ true = true) ∨
   ((1000 = 0 ∨ 0 ∈ []) ∧ false = true)) ∧
  has_permission demo_proc None (2 ^ 1) = 0.
Proof. exact (has_permission_correct demo_proc demo_root 1 ltac:(lia)). Defined.

(** [vfs_mount] at an absolute path other than the root makes the node the one
    mounted at exactly that path and leaves every other mount as it was;
    [get_mount_point] finds, for any path, the mount at its longest mounted prefix,
    with the components below it and its depth. *)
Theorem vfs_mount_correct {W : Type} `{!FileSystem W} path n type options (s s' : vfs_state (W:=W)) :
  vfs_mount path n type options s = Some s' → head (chop (drop 1 path)) ≠ Some [] →
  (∀ q, exact (fs_tree s') q =
     if decide (q = mount_components path) then Some (with_refcount n (-1)) else exact (fs_tree s) q) ∧
  (∀ q, deepest (fs_tree s') ((λ n, with_refcount n 0) <$> fs_root s') q
     (λ n, Some (with_refcount n 0)) (get_mount_point s' q)) ∧
  fs_root s' = fs_root s.
Proof.
  intros Hm Hroot. unfold vfs_mount in Hm. destruct path as [|c path]; [done|].
  destruct (negb (c =? SEP)); [done|]. rewrite bool_decide_eq_false_2 in Hm by done.
  injection Hm as <-. split_and!; [|apply get_mount_point_spec|done].
  intros q. apply exact_mount_at.
Qed.

Lemma vfs_mount_correct_witness :
  let s' := Vfs (Some demo_root)
    (mount_at (fs_tree demo_vfs) [str "dev"; str "pts"]
       (with_refcount (demo_node 9 FS_DIRECTORY) (-1)) (str "pts") []) tt in
  (∀ q, exact (fs_tree s') q =
     if decide (q = [str "dev"; str "pts"]) then Some (with_refcount (demo_node 9 FS_DIRECTORY) (-1))
     else exact (fs_tree demo_vfs) q) ∧
  (∀ q, deepest (fs_tree s') ((λ n, with_refcount n 0) <$> fs_root s') q
     (λ n, Some (with_refcount n 0)) (get_mount_point s' q)) ∧
  fs_root s' = fs_root demo_vfs.
Proof.
  intros s'.
  exact (vfs_mount_correct (FileSystem0 := demo_fs true) (str "/dev/pts") (demo_node 9 FS_DIRECTORY)
           (str "pts") [] demo_vfs s' ltac:(reflexivity) ltac:(vm_compute; discriminate)).
Defined.


Lemma demo_responsive links : responsive unit (FS := demo_fs links).
Proof.
  split; simpl; [done|by intros n f name [= <-]|]. intros n f sz. case_match; [|done]. by intros [= <-].
Qed.


(** C14: for a path other than the root, on whose walk no symbolic link is met (the
    file system may hold links elsewhere), [kopen] is the plain walk from the mount
    point of the path's [destination] from the working directory: search permission is
    required on every directory passed, a missing entry or permission gives null, and
    the last node is opened. *)
Theorem kopen_walks {W : Type} `{FS : !FileSystem W} p filename fl (s : vfs_state (W:=W)) n rest d :
  destination (wd_name p) filename ≠ [] →
  get_mount_point s (destination (wd_name p) filename) = (Some n, rest, d) →
  no_link_met p rest n s →
  kopen p filename fl s = resolve p fl rest n s.
Proof. rewrite <-resolved_destination. apply kopen_resolve. Qed.

Lemma kopen_walks_witness :
  kopen (FileSystem0 := demo_fs true) demo_proc (str "../l/.././a/f") 0 demo_vfs =
  Done (Some (with_refcount (demo_node 3 FS_FILE) 1), demo_vfs).
Proof.
  rewrite (kopen_walks (FS := demo_fs true) demo_proc (str "../l/.././a/f") 0 demo_vfs
             demo_root [str "a"; str "f"] 0).
  - reflexivity.
  - by vm_compute.
  - reflexivity.
  - split; [reflexivity|]. intros _ n s' E. vm_compute in E. injection E as <- <-.
    split; [reflexivity|]. intros _ n' s'' E. vm_compute in E. injection E as <- <-.
    by split.
Defined.

(** A shared node whose references are cloned and closed keeps the count of the
    references that are left, and is closed and freed exactly once, by the close that
    drops the last; no operation touches it after that. *)
Theorem refcount_correct os r k :
  0 < r → (∀ j, (j < length os)%nat → 0 < r + balance (take j os)) →
  run_refs os (Shared (Some r) k) =
    Done (if r + balance os =? 0 then Shared None (S k) else Shared (Some (r + balance os)) k).
Proof. apply run_refs_spec. Qed.

Lemma refcount_correct_witness :
  run_refs [Clone; Close; Close] (Shared (Some 1) 0) = Done (Shared None 1).
Proof.
  apply (refcount_correct [Clone; Close; Close] 1 0); [lia|].
  intros [|[|[|j]]] Hj; vm_compute; try done. simpl in Hj. lia.
Defined.

(** With [O_NOFOLLOW] the last component is followed all the same, and a link that is
    the last but one is refused: the code compares the depth with
    [path_depth - 1] where the last component has depth [path_depth]. *)
Theorem kopen_nofollow_off_by_one :
  kopen (FileSystem0 := demo_fs true) demo_proc (str "/l") O_NOFOLLOW demo_vfs =
    Done (Some (FsNode 1 493 0 0 FS_DIRECTORY 2 2), demo_vfs) ∧
  kopen (FileSystem0 := demo_fs true) demo_proc (str "/l/f") 0 demo_vfs =
    Done (Some (FsNode 1 493 0 0 FS_FILE 3 1), demo_vfs) ∧
  kopen (FileSystem0 := demo_fs true) demo_proc (str "/l/f") O_NOFOLLOW demo_vfs =
    Done (None, demo_vfs).
Proof. by vm_compute. Qed.

(** A mount path that starts with two separators is taken for the root. *)
Theorem vfs_mount_double_slash {W : Type} `{!FileSystem W} n type options (s : vfs_state (W:=W)) :
  ∃ s', vfs_mount (str "//tmp") n type options s = Some s' ∧
    fs_root s' = Some (with_refcount n (-1)).
Proof. unfold vfs_mount. simpl. destruct (fs_tree s). eauto. Qed.
