(* ===== verification/TmpfsFile.v ===== *)
(** * File contents in tmpfs ([src/kernel/vfs/tmpfs.c])

    A file is an array of physical frames.  Memory is a map from addresses to bytes,
    into which the frames are mapped ([mmu_map_from_physical]); a [memcpy] is the map
    after the copy, which KString shows [memcpy] computes.  A frame is allocated by an
    instance of [FrameAlloc] (the physical allocator of [mmu.c]) and keeps the bytes
    it held before.

    [content m t i] is the byte at offset [i] of the file.  The theorems describe
    [read_tmpfs], [write_tmpfs] and [truncate_tmpfs] by it, block boundaries included,
    and show that the operations keep the block table well-formed. *)
From S2P Require Import Prelude KString.
Local Open Scope Z_scope.

Definition BLOCKSIZE : Z := 0x1000.

(** The window through which the kernel sees physical memory. *)
Definition HIGH_MAP_REGION : Z := 0xffffff8000000000.
Definition mmu_map_from_physical (frame_address : Z) : Z := Z.lor frame_address HIGH_MAP_REGION.

(** The physical allocator as tmpfs sees it ([mmu_allocate_a_frame]): while fewer than
    [capacity] frames are in use it gives one that is not; when there is none it halts
    the system. *)
Class FrameAlloc := {
  capacity : nat;
  mmu_allocate_a_frame : gset Z → option Z;
  frame_alloc : ∀ X, (size X < capacity)%nat → ∃ f, mmu_allocate_a_frame X = Some f;
  frame_fresh : ∀ X f, mmu_allocate_a_frame X = Some f → f ∉ X ∧ 0 < f < 2 ^ 27
}.

(** ** Data *)

Definition TMPFS_TYPE_FILE : Z := 1.
Definition TMPFS_TYPE_DIR : Z := 2.
Definition TMPFS_TYPE_LINK : Z := 3.

Record tmpfs_file : Type := File {
  name : list Z;
  type : Z;
  mask : Z;
  uid : Z;
  gid : Z;
  atime : Z;
  mtime : Z;
  ctime : Z;
  mount : Z;
  flength : Z;
  block_count : Z;
  pointers : Z;
  blocks : list Z;
  target : list Z
}.

Definition with_times (t : tmpfs_file) (a m : Z) : tmpfs_file :=
  File (name t) (type t) (mask t) (uid t) (gid t) a m (ctime t) (mount t) (flength t)
       (block_count t) (pointers t) (blocks t) (target t).
Definition with_flength (t : tmpfs_file) (n : Z) : tmpfs_file :=
  File (name t) (type t) (mask t) (uid t) (gid t) (atime t) (mtime t) (ctime t) (mount t) n
       (block_count t) (pointers t) (blocks t) (target t).
Definition with_blocks (t : tmpfs_file) (count ptrs : Z) (bs : list Z) : tmpfs_file :=
  File (name t) (type t) (mask t) (uid t) (gid t) (atime t) (mtime t) (ctime t) (mount t)
       (flength t) count ptrs bs (target t).

(** Memory, the frames in use, [tmpfs_total_blocks] and the file operated on. *)
Record fstate : Type := FS {
  memory : mem;
  frames : gset Z;
  tmpfs_total_blocks : Z;
  file : tmpfs_file
}.

Definition with_memory (s : fstate) (m : mem) : fstate :=
  FS m (frames s) (tmpfs_total_blocks s) (file s).
Definition with_file (s : fstate) (t : tmpfs_file) : fstate :=
  FS (memory s) (frames s) (tmpfs_total_blocks s) t.

(** [tmpfs_file_new]. *)
Definition tmpfs_file_new (nm : list Z) (now : Z) : tmpfs_file :=
  File nm TMPFS_TYPE_FILE 0 0 0 now now now NULL 0 0 2 [0; 0] [].

(** ** Memory operations *)

(** The memory after [memcpy(d, s, n)], and after [memset(d, c, n)]. *)
Definition mcopy (m : mem) (d s n : Z) : mem := λ x,
  if (d <=? x) && (x <? d + n) then m (s + (x - d)) else m x.
Definition mfill (m : mem) (d c n : Z) : mem := λ x,
  if (d <=? x) && (x <? d + n) then c else m x.

(** A pointer into the null page faults. *)
Definition null_page (p : Z) : bool := p <? BLOCKSIZE.

Definition memcpy_at (d s n : Z) : St fstate unit :=
  if (0 <? n) && (null_page d || null_page s) then fault
  else modify (λ st, with_memory st (mcopy (memory st) d s n)).
Definition memset_at (d c n : Z) : St fstate unit :=
  if (0 <? n) && null_page d then fault
  else modify (λ st, with_memory st (mfill (memory st) d c n)).

(** [mmu_frame_release(frame * 0x1000); tmpfs_total_blocks--]. *)
Definition release_block (b : Z) : St fstate unit :=
  modify (λ st, FS (memory st) (frames st ∖ {[b]}) (tmpfs_total_blocks st - 1) (file st)).

Section Files.
Context `{!FrameAlloc}.

(** ** Blocks *)

(** [realloc] leaves the new half of the array unset. *)
Definition tmpfs_file_blocks_embiggen (t : tmpfs_file) : tmpfs_file :=
  let p := u64 (pointers t * 2) in
  with_blocks t (block_count t) p
    (blocks t ++ replicate (Z.to_nat p - length (blocks t)) 0).

(** One round of the allocating loop. *)
Definition grow_one (create : Z) : St fstate unit := λ st,
  match mmu_allocate_a_frame (frames st) with
  | None => Fault
  | Some index =>
      let m := if create =? 2
               then mfill (memory st) (mmu_map_from_physical (Z.shiftl index 12)) 0 BLOCKSIZE
               else memory st in
      let t := file st in
      if bool_decide (Z.to_nat (block_count t) < length (blocks t))%nat then
        Done (tt, FS m ({[index]} ∪ frames st) (tmpfs_total_blocks st + 1)
                (with_blocks t (u64 (block_count t + 1)) (pointers t)
                   (<[Z.to_nat (block_count t) := index]> (blocks t))))
      else Fault
  end.

Definition tmpfs_file_getset_block (fuel : nat) (blockid create : Z) : St fstate Z :=
  r ← (if negb (create =? 0) then
         loopM fuel (λ _ : unit,
           st ← get;
           if pointers (file st) <=? blockid
           then put (with_file st (tmpfs_file_blocks_embiggen (file st)));; mret (inl tt)
           else mret (inr tt)) tt;;
         loopM fuel (λ _ : unit,
           st ← get;
           if block_count (file st) <=? blockid then grow_one create;; mret (inl tt)
           else mret (inr tt)) tt;;
         mret true
       else
         st ← get;
         mret (negb (block_count (file st) <=? blockid)));
  if r : bool then
    st ← get;
    match blocks (file st) !! Z.to_nat blockid with
    | Some b => mret (mmu_map_from_physical (Z.shiftl b 12))
    | None => fault
    end
  else mret NULL.

(** ** Operations *)

Definition read_tmpfs (fuel : nat) (now offset size buffer : Z) : St fstate Z :=
  st ← get;
  put (with_file st (with_times (file st) now (mtime (file st))));;
  let t := file st in
  let end_ := if flength t <? u64 (offset + size) then flength t else u64 (offset + size) in
  let start_block := u64 (Z.quot offset BLOCKSIZE) in
  let end_block := end_ / BLOCKSIZE in
  let end_size := u64 (end_ - u64 (end_block * BLOCKSIZE)) in
  let size_to_read := u64 (end_ - offset) in
  if (start_block =? end_block) && (u64 offset =? end_) then mret 0
  else if start_block =? end_block then
    buf ← tmpfs_file_getset_block fuel start_block 0;
    memcpy_at buffer (buf + u64 offset mod BLOCKSIZE) size_to_read;;
    mret size_to_read
  else
    blocks_read ← loopM fuel (λ '(block_offset, blocks_read),
      if block_offset <? end_block then
        (if block_offset =? start_block then
           buf ← tmpfs_file_getset_block fuel block_offset 0;
           memcpy_at buffer (buf + u64 offset mod BLOCKSIZE) (BLOCKSIZE - Z.rem offset BLOCKSIZE)
         else
           buf ← tmpfs_file_getset_block fuel block_offset 0;
           memcpy_at (buffer + BLOCKSIZE * blocks_read - Z.rem offset BLOCKSIZE) buf BLOCKSIZE);;
        mret (inl (block_offset + 1, blocks_read + 1))
      else mret (inr blocks_read)) (start_block, 0);
    (if negb (end_size =? 0) then
       buf ← tmpfs_file_getset_block fuel end_block 0;
       memcpy_at (buffer + BLOCKSIZE * blocks_read - Z.rem offset BLOCKSIZE) buf end_size
     else mret tt);;
    mret size_to_read.

Definition write_tmpfs (fuel : nat) (now offset size buffer : Z) : St fstate Z :=
  st ← get;
  let t := with_times (file st) now now in
  put (with_file st
         (if flength t <? u64 (offset + size) then with_flength t (u64 (offset + size)) else t));;
  let end_ := u64 (offset + size) in
  let start_block := u64 (Z.quot offset BLOCKSIZE) in
  let end_block := end_ / BLOCKSIZE in
  let end_size := u64 (end_ - u64 (end_block * BLOCKSIZE)) in
  let size_to_read := u64 (end_ - offset) in
  if start_block =? end_block then
    buf ← tmpfs_file_getset_block fuel start_block 1;
    memcpy_at (buf + u64 offset mod BLOCKSIZE) buffer size_to_read;;
    mret size_to_read
  else
    blocks_read ← loopM fuel (λ '(block_offset, blocks_read),
      if block_offset <? end_block then
        (if block_offset =? start_block then
           buf ← tmpfs_file_getset_block fuel block_offset 1;
           memcpy_at (buf + u64 offset mod BLOCKSIZE) buffer (BLOCKSIZE - Z.rem offset BLOCKSIZE)
         else
           buf ← tmpfs_file_getset_block fuel block_offset 1;
           memcpy_at buf (buffer + BLOCKSIZE * blocks_read - Z.rem offset BLOCKSIZE) BLOCKSIZE);;
        mret (inl (block_offset + 1, blocks_read + 1))
      else mret (inr blocks_read)) (start_block, 0);
    (if negb (end_size =? 0) then
       buf ← tmpfs_file_getset_block fuel end_block 1;
       memcpy_at buf (buffer + BLOCKSIZE * blocks_read - Z.rem offset BLOCKSIZE) end_size
     else mret tt);;
    mret size_to_read.

(** Release the blocks [i, n) and clear their slots. *)
Definition release_range (fuel : nat) (first n : Z) : St fstate unit :=
  loopM fuel (λ i,
    if i <? n then
      st ← get;
      match blocks (file st) !! Z.to_nat i with
      | None => fault
      | Some b =>
          release_block b;;
          st ← get;
          put (with_file st (with_blocks (file st) (block_count (file st)) (pointers (file st))
                 (<[Z.to_nat i := 0]> (blocks (file st)))));;
          mret (inl (i + 1))
      end
    else mret (inr tt)) first.

(** [node_atime] is the access time held by the caller's node. *)
Definition truncate_tmpfs (fuel : nat) (node_atime size : Z) : St fstate Z :=
  st ← get;
  let t := file st in
  (if size =? flength t then mret tt
   else
     let old_end_block := flength t / BLOCKSIZE in
     let old_end_size := flength t - old_end_block * BLOCKSIZE in
     let old_blocks := old_end_block + truth (negb (old_end_size =? 0)) in
     let new_end_block := size / BLOCKSIZE in
     let new_end_size := size - new_end_block * BLOCKSIZE in
     let new_blocks := new_end_block + truth (negb (new_end_size =? 0)) in
     if flength t <? size then
       (if old_end_block =? new_end_block then
          buf ← tmpfs_file_getset_block fuel old_end_block 0;
          memset_at (buf + old_end_size) 0 (new_end_size - old_end_size)
        else
          tmpfs_file_getset_block fuel new_end_block 2;;
          buf ← tmpfs_file_getset_block fuel old_end_block 0;
          memset_at (buf + old_end_size) 0 (BLOCKSIZE - old_end_size));;
       st ← get; put (with_file st (with_flength (file st) size))
     else if size =? 0 then
       release_range fuel 0 (block_count t);;
       st ← get;
       put (with_file st (with_flength (with_blocks (file st) 0 (pointers (file st))
              (blocks (file st))) 0))
     else
       (if new_blocks <? old_blocks then
          release_range fuel new_blocks old_blocks;;
          st ← get;
          put (with_file st (with_blocks (file st) new_blocks (pointers (file st)) (blocks (file st))))
        else mret tt);;
       st ← get; put (with_file st (with_flength (file st) size)));;
  st ← get;
  put (with_file st (with_times (file st) (atime (file st)) node_atime));;
  mret 0.

(** [tmpfs_file_free]: the frames of the file. *)
Definition tmpfs_file_free (fuel : nat) : St fstate unit :=
  st ← get;
  loopM fuel (λ i,
    if i <? block_count (file st) then
      match blocks (file st) !! Z.to_nat i with
      | None => fault
      | Some b => release_block b;; mret (inl (i + 1))
      end
    else mret (inr tt)) 0.

Definition open_tmpfs (now : Z) : St fstate unit :=
  modify (λ st, with_file st (with_times (file st) now (mtime (file st)))).

Definition chmod_tmpfs (mode : Z) (t : tmpfs_file) : tmpfs_file :=
  File (name t) (type t) mode (uid t) (gid t) (atime t) (mtime t) (ctime t) (mount t)
       (flength t) (block_count t) (pointers t) (blocks t) (target t).

Definition chown_tmpfs (u g : Z) (t : tmpfs_file) : tmpfs_file :=
  File (name t) (type t) (mask t) (if negb (u =? -1) then u else uid t)
       (if negb (g =? -1) then g else gid t) (atime t) (mtime t) (ctime t) (mount t)
       (flength t) (block_count t) (pointers t) (blocks t) (target t).
End Files.

(** ** The block table *)

(** Where a frame is seen. *)
Definition faddr (b : Z) : Z := HIGH_MAP_REGION + b * BLOCKSIZE.

Lemma land_low x k n : 0 ≤ x < 2 ^ n → 0 ≤ n → Z.land x (Z.shiftl k n) = 0.
Proof.
  intros Hx Hn. apply Z.bits_inj'. intros i Hi. rewrite Z.land_spec, Z.bits_0.
  destruct (decide (i < n)).
  - rewrite Z.shiftl_spec_low by done. apply andb_false_r.
  - destruct (decide (x = 0)) as [->|]; [by rewrite Z.bits_0|].
    rewrite Z.bits_above_log2; [done|lia|]. apply Z.log2_lt_pow2; [lia|].
    eapply Z.lt_le_trans; [apply Hx|]. apply Z.pow_le_mono_r; lia.
Qed.

Lemma mmu_map_frame b : 0 ≤ b < 2 ^ 27 → mmu_map_from_physical (Z.shiftl b 12) = faddr b.
Proof.
  intros Hb. unfold mmu_map_from_physical, faddr, BLOCKSIZE. rewrite Z.shiftl_mul_pow2 by lia.
  pose proof (Z.add_lor_land (b * 2 ^ 12) HIGH_MAP_REGION) as H.
  change HIGH_MAP_REGION with (Z.shiftl 0x1ffffff 39) in H at 2. rewrite land_low in H by lia. lia.
Qed.

(** The frames of a file. *)
Definition fblocks (t : tmpfs_file) : list Z := take (Z.to_nat (block_count t)) (blocks t).

Record wfb (s : fstate) : Prop := {
  wfb_pointers : 0 < pointers (file s) ≤ 2 ^ 40;
  wfb_slots : Z.of_nat (length (blocks (file s))) = pointers (file s);
  wfb_count : 0 ≤ block_count (file s) ≤ pointers (file s);
  wfb_nodup : NoDup (fblocks (file s));
  wfb_used : ∀ b, b ∈ fblocks (file s) → b ∈ frames s ∧ 0 < b < 2 ^ 27
}.

Lemma fblocks_length s : wfb s → Z.of_nat (length (fblocks (file s))) = block_count (file s).
Proof. intros []. unfold fblocks. rewrite length_take. lia. Qed.

Lemma fblocks_lookup s k b :
  wfb s → 0 ≤ k < block_count (file s) →
  blocks (file s) !! Z.to_nat k = Some b ↔ fblocks (file s) !! Z.to_nat k = Some b.
Proof. intros W Hk. unfold fblocks. rewrite lookup_take_lt by lia. done. Qed.

Lemma fblocks_some s k :
  wfb s → 0 ≤ k < block_count (file s) → ∃ b, fblocks (file s) !! Z.to_nat k = Some b.
Proof.
  intros W Hk. apply lookup_lt_is_Some_2. pose proof (fblocks_length s W). lia.
Qed.

Section Blocks.
Context {FA : FrameAlloc}.

Lemma getset_none fuel k s :
  block_count (file s) ≤ k → tmpfs_file_getset_block fuel k 0 s = Done (NULL, s).
Proof.
  intros Hk. unfold tmpfs_file_getset_block. simpl.
  rewrite (St_bind_done _ _ s false s); [done|].
  rewrite (St_bind_done _ _ s s s) by done. by rewrite (proj2 (Z.leb_le _ _)).
Qed.

Lemma getset_existing fuel k b s :
  wfb s → 0 ≤ k < block_count (file s) → fblocks (file s) !! Z.to_nat k = Some b →
  tmpfs_file_getset_block fuel k 0 s = Done (faddr b, s).
Proof.
  intros W Hk Hb. unfold tmpfs_file_getset_block. simpl.
  rewrite (St_bind_done _ _ s true s).
  2:{ rewrite (St_bind_done _ _ s s s) by done. by rewrite (proj2 (Z.leb_gt _ _)) by lia. }
  rewrite (St_bind_done _ _ s s s) by done. pose proof (fblocks_lookup s k b W Hk) as [_ E].
  rewrite (E Hb). destruct (wfb_used s W b) as [_ Hr]; [by eapply list_elem_of_lookup_2|].
  rewrite mmu_map_frame by lia. done.
Qed.

(** The state after blocks were added to a file: the old ones are kept in place, the
    new ones were free, and memory changes only in them, when they are cleared. *)
Record grown (create : Z) (s s' : fstate) : Prop := {
  grown_prefix : fblocks (file s) `prefix_of` fblocks (file s');
  grown_frames : frames s ⊆ frames s';
  grown_new : ∀ b, b ∈ fblocks (file s') → b ∉ fblocks (file s) → b ∉ frames s;
  grown_size : Z.of_nat (size (frames s')) - block_count (file s') =
    Z.of_nat (size (frames s)) - block_count (file s);
  grown_memory : ∀ x, memory s' x = memory s x ∨
    (create = 2 ∧ memory s' x = 0 ∧ ∃ b, b ∈ fblocks (file s') ∧ b ∉ fblocks (file s) ∧
       faddr b ≤ x < faddr b + BLOCKSIZE);
  grown_zero : create = 2 → ∀ b x, b ∈ fblocks (file s') → b ∉ fblocks (file s) →
    faddr b ≤ x < faddr b + BLOCKSIZE → memory s' x = 0;
  grown_same : flength (file s') = flength (file s) ∧ atime (file s') = atime (file s) ∧
    mtime (file s') = mtime (file s)
}.

Lemma grown_refl create s : grown create s s.
Proof. split; try done. intros x. by left. Qed.

Lemma faddr_disjoint b b' x :
  faddr b ≤ x < faddr b + BLOCKSIZE → faddr b' ≤ x < faddr b' + BLOCKSIZE → b = b'.
Proof. unfold faddr, BLOCKSIZE. lia. Qed.

Lemma grown_trans create s1 s2 s3 :
  wfb s1 → wfb s2 → wfb s3 → grown create s1 s2 → grown create s2 s3 → grown create s1 s3.
Proof.
  intros W1 W2 W3 [P1 F1 N1 S1 M1 Z1 E1] [P2 F2 N2 S2 M2 Z2 E2].
  assert (Hsub : ∀ b, b ∈ fblocks (file s1) → b ∈ fblocks (file s2)).
  { intros b Hb. destruct P1 as [k ->]. apply elem_of_app. by left. }
  assert (Hsub2 : ∀ b, b ∈ fblocks (file s2) → b ∈ fblocks (file s3)).
  { intros b Hb. destruct P2 as [k ->]. apply elem_of_app. by left. }
  split.
  - by transitivity (fblocks (file s2)).
  - set_solver.
  - intros b Hb Hn. destruct (decide (b ∈ fblocks (file s2))) as [H|H]; [by apply N1|].
    pose proof (N2 b Hb H). set_solver.
  - lia.
  - intros x. destruct (M2 x) as [E|(Hc & E & b & Hb & Hn & Hx)].
    + rewrite E. destruct (M1 x) as [E'|(Hc & E' & b & Hb & Hn & Hx)]; [by left|].
      right. split_and!; [done|done|]. exists b. split_and!; auto; lia.
    + right. split_and!; [done|done|]. exists b. split_and!; auto; lia.
  - intros Hc b x Hb Hn Hx. destruct (decide (b ∈ fblocks (file s2))) as [H|H].
    + destruct (M2 x) as [->|(_ & E & _)]; [by eapply Z1|done].
    + by eapply Z2.
  - destruct E1 as (-> & -> & ->) in E2. done.
Qed.

Lemma embiggen_wfb s :
  wfb s → pointers (file s) < 2 ^ 39 →
  let s' := with_file s (tmpfs_file_blocks_embiggen (file s)) in
  wfb s' ∧ grown 1 s s' ∧ grown 2 s s' ∧ block_count (file s') = block_count (file s) ∧
  pointers (file s') = pointers (file s) * 2 ∧ fblocks (file s') = fblocks (file s).
Proof.
  intros W Hp s'. pose proof W as [? ? ? ? ?].
  assert (Ep : pointers (file s') = pointers (file s) * 2).
  { simpl. apply u64_small. lia. }
  assert (Eb : fblocks (file s') = fblocks (file s)).
  { unfold fblocks. simpl. rewrite take_app_le by lia. done. }
  assert (Hg : ∀ c, grown c s s').
  { intros c. split; rewrite ?Eb; try done. intros x. by left. }
  split_and!; auto. split; rewrite ?Ep, ?Eb; try done; [lia| |simpl; lia].
  simpl. rewrite length_app, length_replicate, u64_small by lia. lia.
Qed.

Lemma grow_one_wfb create s :
  wfb s → create = 1 ∨ create = 2 → block_count (file s) < pointers (file s) →
  (size (frames s) < capacity)%nat →
  ∃ s', grow_one create s = Done (tt, s') ∧ wfb s' ∧ grown create s s' ∧
    block_count (file s') = block_count (file s) + 1 ∧ pointers (file s') = pointers (file s).
Proof.
  intros W Hc Hbc Hcap. pose proof W as [Hp Hl Hb Hnd Hu].
  destruct (frame_alloc (frames s) Hcap) as [f Hf]. destruct (frame_fresh _ _ Hf) as [Hfresh Hr].
  unfold grow_one. rewrite Hf. cbv zeta. rewrite bool_decide_eq_true_2 by lia.
  rewrite (mmu_map_frame f), u64_small by lia. eexists. split; [done|].
  set (s' := FS _ _ _ _).
  assert (Eb : fblocks (file s') = fblocks (file s) ++ [f]).
  { unfold fblocks, s'. cbn [file block_count blocks with_blocks].
    replace (Z.to_nat (block_count (file s) + 1)) with (S (Z.to_nat (block_count (file s)))) by lia.
    rewrite (take_S_r _ _ f) by (apply list_lookup_insert_eq; lia).
    f_equal. apply take_insert_ge. lia. }
  assert (Hnf : f ∉ fblocks (file s)) by (intros [? _]%Hu; done).
  assert (Hfin : f ∈ fblocks (file s')) by (rewrite Eb; apply elem_of_app; right; by left).
  assert (Hnew : ∀ b, b ∈ fblocks (file s') → b ∉ fblocks (file s) → b = f).
  { rewrite Eb. intros b [?| ->%list_elem_of_singleton]%elem_of_app; done. }
  split_and!; [| |done|done].
  - split; rewrite ?Eb; simpl; try (rewrite ?length_insert; lia).
    + apply NoDup_app. split_and!; [done| |apply NoDup_singleton].
      by intros b Hb' ->%list_elem_of_singleton.
    + intros b [Hb'| ->%list_elem_of_singleton]%elem_of_app; [|set_solver].
      destruct (Hu b Hb'). set_solver.
  - split.
    + rewrite Eb. by apply prefix_app_r.
    + simpl. set_solver.
    + intros b Hb' Hn. by rewrite (Hnew b Hb' Hn).
    + simpl. rewrite size_union, size_singleton by set_solver. lia.
    + intros x. simpl. destruct (Z.eqb_spec create 2) as [E2|]; [|by left].
      unfold mfill. destruct ((faddr f <=? x) && (x <? faddr f + BLOCKSIZE)) eqn:E; [|by left].
      right. split_and!; [done|done|]. exists f. split_and!; [exact Hfin|done|lia|lia].
    + intros -> b x Hb' Hn Hx. rewrite (Hnew b Hb' Hn) in Hx. simpl. unfold mfill.
      by rewrite (proj2 (andb_true_iff _ _)) by (rewrite Z.leb_le, Z.ltb_lt; done).
    + done.
Qed.
End Blocks.

Section Create.
Context {FA : FrameAlloc}.

Lemma grow_pointers fuel k create s :
  wfb s → create = 1 ∨ create = 2 → 0 ≤ k < 2 ^ 38 → (Z.to_nat k + 1 < fuel)%nat →
  ∃ s1, loopM fuel (λ _ : unit,
           st ← get;
           if pointers (file st) <=? k
           then put (with_file st (tmpfs_file_blocks_embiggen (file st)));; mret (inl tt)
           else mret (inr tt)) tt s = Done (tt, s1) ∧
    wfb s1 ∧ grown create s s1 ∧ block_count (file s1) = block_count (file s) ∧
    k < pointers (file s1).
Proof.
  intros W Hc Hk Hf. set (body1 := λ _ : unit, st ← get; if pointers (file st) <=? k then _ else _).
  destruct (loopM_total body1
    (λ _ s1, wfb s1 ∧ grown create s s1 ∧ block_count (file s1) = block_count (file s))
    (λ _ s1, Z.to_nat (k + 1 - pointers (file s1)))
    (λ _ s1, wfb s1 ∧ grown create s s1 ∧ block_count (file s1) = block_count (file s) ∧
       k < pointers (file s1))) with (fuel := fuel) (x := tt) (s := s) as ([] & s1 & E1 & H1); [|..|eauto].
  - intros [] s1 (W1 & G1 & E1). unfold body1. rewrite (St_bind_done _ _ s1 s1 s1) by done.
    destruct (Z.leb_spec (pointers (file s1)) k) as [Hle|Hlt]; [|right; by exists tt, s1].
    left. exists tt. destruct (embiggen_wfb s1 W1 ltac:(lia)) as (W2 & Ga & Gb & B2 & P2 & F2).
    eexists. split; [done|]. pose proof (wfb_pointers s1 W1). split_and!; [done| |congruence|lia].
    eapply grown_trans; [exact W|exact W1|exact W2|done|]. by destruct Hc as [->| ->].
  - split_and!; [done|apply grown_refl|done].
  - pose proof (wfb_pointers s W). lia.
Qed.

Lemma grow_blocks fuel k create s :
  wfb s → create = 1 ∨ create = 2 → k < pointers (file s) → (Z.to_nat k + 1 < fuel)%nat → 0 ≤ k →
  Z.of_nat (size (frames s)) + (k + 1 - block_count (file s)) ≤ Z.of_nat capacity →
  ∃ s2, loopM fuel (λ _ : unit,
           st ← get;
           if block_count (file st) <=? k then grow_one create;; mret (inl tt)
           else mret (inr tt)) tt s = Done (tt, s2) ∧
    wfb s2 ∧ grown create s s2 ∧ block_count (file s2) = Z.max (block_count (file s)) (k + 1).
Proof.
  intros W Hc Hp Hf Hk Hcap.
  set (body2 := λ _ : unit, st ← get; if block_count (file st) <=? k then _ else _).
  destruct (loopM_total body2
    (λ _ s2, wfb s2 ∧ grown create s s2 ∧ k < pointers (file s2) ∧
       block_count (file s) ≤ block_count (file s2) ≤ Z.max (block_count (file s)) (k + 1))
    (λ _ s2, Z.to_nat (k + 1 - block_count (file s2)))
    (λ _ s2, wfb s2 ∧ grown create s s2 ∧
       block_count (file s2) = Z.max (block_count (file s)) (k + 1)))
    with (fuel := fuel) (x := tt) (s := s) as ([] & s2 & E2 & H2); [|..|eauto].
  - intros [] s2 (W2 & G2 & P2 & B2). unfold body2. rewrite (St_bind_done _ _ s2 s2 s2) by done.
    destruct (Z.leb_spec (block_count (file s2)) k) as [Hle|Hlt].
    + left. exists tt. pose proof (grown_size _ _ _ G2).
      destruct (grow_one_wfb create s2 W2 Hc ltac:(lia) ltac:(lia)) as (s3 & E3 & W3 & G3 & B3 & P3).
      exists s3. rewrite (St_bind_done _ _ _ _ _ E3). split_and!; try done; try lia.
      by eapply grown_trans; [exact W|exact W2|exact W3|..].
    + right. exists tt, s2. split_and!; try done. lia.
  - split_and!; [done|apply grown_refl|done|lia|lia].
  - pose proof (wfb_count s W). lia.
Qed.

(** [getset_block] with [create]: the block exists afterwards. *)
Lemma getset_create fuel k create s :
  wfb s → create = 1 ∨ create = 2 → 0 ≤ k < 2 ^ 38 → (Z.to_nat k + 1 < fuel)%nat →
  Z.of_nat (size (frames s)) + (k + 1 - block_count (file s)) ≤ Z.of_nat capacity →
  ∃ b s', tmpfs_file_getset_block fuel k create s = Done (faddr b, s') ∧ wfb s' ∧
    grown create s s' ∧ block_count (file s') = Z.max (block_count (file s)) (k + 1) ∧
    fblocks (file s') !! Z.to_nat k = Some b.
Proof.
  intros W Hc Hk Hf Hcap.
  destruct (grow_pointers fuel k create s W Hc Hk Hf) as (s1 & E1 & W1 & G1 & B1 & P1).
  pose proof (grown_size _ _ _ G1).
  destruct (grow_blocks fuel k create s1 W1 Hc P1 Hf ltac:(lia) ltac:(lia)) as (s2 & E2 & W2 & G2 & B2).
  destruct (fblocks_some s2 k W2) as [b Hb]; [lia|].
  exists b, s2. unfold tmpfs_file_getset_block. rewrite (proj2 (Z.eqb_neq create 0)) by lia. cbn [negb].
  rewrite (St_bind_done _ _ s true s2).
  2:{ by rewrite (St_bind_done _ _ _ _ _ E1), (St_bind_done _ _ _ _ _ E2). }
  rewrite (St_bind_done _ _ s2 s2 s2) by done.
  pose proof (fblocks_lookup s2 k b W2 ltac:(lia)) as [_ Eb]. rewrite (Eb Hb).
  destruct (wfb_used s2 W2 b) as [_ Hr]; [by eapply list_elem_of_lookup_2|].
  rewrite mmu_map_frame by lia. split_and!; try done; [|lia].
  by eapply grown_trans; [exact W|exact W1|exact W2|..].
Qed.
End Create.

(** ** Contents *)

(** The byte at offset [i] of the file; [at_block] is the address of a byte of a
    block. *)
Definition fbyte (t : tmpfs_file) (i : Z) : Z :=
  faddr (default 0 (fblocks t !! Z.to_nat (i / BLOCKSIZE))) + i mod BLOCKSIZE.

Definition content (m : mem) (t : tmpfs_file) (i : Z) : Z := m (fbyte t i).

Record wf (s : fstate) : Prop := {
  wf_blocks : wfb s;
  wf_length : 0 ≤ flength (file s) ≤ block_count (file s) * BLOCKSIZE
}.

Lemma fbyte_in s i :
  wfb s → 0 ≤ i < block_count (file s) * BLOCKSIZE →
  ∃ b, fblocks (file s) !! Z.to_nat (i / BLOCKSIZE) = Some b ∧
    fbyte (file s) i = faddr b + i mod BLOCKSIZE ∧ b ∈ fblocks (file s) ∧
    faddr b ≤ fbyte (file s) i < faddr b + BLOCKSIZE ∧ HIGH_MAP_REGION ≤ faddr b.
Proof.
  intros W Hi. destruct (fblocks_some s (i / BLOCKSIZE) W) as [b Hb].
  { split; [apply Z.div_pos; unfold BLOCKSIZE; lia|]. apply Z.div_lt_upper_bound; unfold BLOCKSIZE in *; lia. }
  exists b. unfold fbyte. rewrite Hb. simpl.
  pose proof (Z.mod_pos_bound i BLOCKSIZE ltac:(unfold BLOCKSIZE; lia)).
  pose proof (list_elem_of_lookup_2 _ _ _ Hb) as Hin. destruct (wfb_used s W b Hin).
  split_and!; try done; unfold faddr, BLOCKSIZE in *; lia.
Qed.

(** Different offsets are different addresses. *)
Lemma fbyte_inj s i j :
  wfb s → 0 ≤ i < block_count (file s) * BLOCKSIZE → 0 ≤ j < block_count (file s) * BLOCKSIZE →
  fbyte (file s) i = fbyte (file s) j → i = j.
Proof.
  intros W Hi Hj E. destruct (fbyte_in s i W Hi) as (b & Hb & Eb & _ & Rb & _).
  destruct (fbyte_in s j W Hj) as (c & Hc & Ec & _ & Rc & _).
  assert (b = c) as ->. { eapply faddr_disjoint; [exact Rb|]. rewrite E. exact Rc. }
  assert (i / BLOCKSIZE = j / BLOCKSIZE) as Hq.
  { pose proof (NoDup_lookup _ _ _ _ (wfb_nodup s W) Hb Hc).
    assert (0 ≤ i / BLOCKSIZE) by (apply Z.div_pos; unfold BLOCKSIZE in *; lia).
    assert (0 ≤ j / BLOCKSIZE) by (apply Z.div_pos; unfold BLOCKSIZE in *; lia). lia. }
  assert (i mod BLOCKSIZE = j mod BLOCKSIZE) by lia.
  pose proof (Z.div_mod i BLOCKSIZE ltac:(unfold BLOCKSIZE; lia)).
  pose proof (Z.div_mod j BLOCKSIZE ltac:(unfold BLOCKSIZE; lia)). lia.
Qed.

(** The bytes of one block are contiguous. *)
Lemma fbyte_block s k b j :
  wfb s → fblocks (file s) !! Z.to_nat k = Some b → 0 ≤ k → 0 ≤ j < BLOCKSIZE →
  fbyte (file s) (k * BLOCKSIZE + j) = faddr b + j.
Proof.
  intros W Hb Hk Hj. unfold fbyte.
  replace ((k * BLOCKSIZE + j) / BLOCKSIZE) with k.
  - rewrite Hb. simpl. f_equal. rewrite Z.add_comm, Z.mod_add by (unfold BLOCKSIZE; lia).
    apply Z.mod_small. lia.
  - rewrite Z.add_comm, Z.div_add by (unfold BLOCKSIZE; lia). rewrite Z.div_small by lia. lia.
Qed.

Lemma fbyte_prefix t t' i :
  fblocks t `prefix_of` fblocks t' → 0 ≤ i → i / BLOCKSIZE < Z.of_nat (length (fblocks t)) →
  fbyte t' i = fbyte t i.
Proof.
  intros Hp Hi Hl. unfold fbyte. assert (0 ≤ i / BLOCKSIZE) by (apply Z.div_pos; unfold BLOCKSIZE; lia).
  destruct (lookup_lt_is_Some_2 (fblocks t) (Z.to_nat (i / BLOCKSIZE))) as [b Hb]; [lia|].
  by rewrite Hb, (prefix_lookup_Some _ _ _ _ Hb Hp).
Qed.

(** ** Reading *)

Section Reading.
Context {FA : FrameAlloc}.

(** The bytes [offset, e) of the file [t] in memory [m] are in the caller's buffer of
    state [s1], and memory outside the [n] bytes of the buffer is [m]. *)
Record read_upto (m : mem) (s0 : fstate) (offset n buffer e : Z) (s1 : fstate) : Prop := {
  ru_file : file s1 = file s0 ∧ frames s1 = frames s0 ∧
    tmpfs_total_blocks s1 = tmpfs_total_blocks s0;
  ru_out : ∀ x, ¬ (buffer ≤ x < buffer + n) → memory s1 x = m x;
  ru_in : ∀ i, offset ≤ i < e → memory s1 (buffer + (i - offset)) = content m (file s0) i
}.

Lemma wfb_file s s' : file s' = file s → frames s' = frames s → wfb s → wfb s'.
Proof. intros E1 E2 []. split; by rewrite ?E1, ?E2. Qed.

Lemma read_chunk fuel m s0 offset n buffer k j c s1 :
  wfb s0 → 0 ≤ k < block_count (file s0) → 0 ≤ j → 0 ≤ c → j + c ≤ BLOCKSIZE →
  0 ≤ offset ≤ k * BLOCKSIZE + j → k * BLOCKSIZE + j + c ≤ offset + n →
  BLOCKSIZE ≤ buffer → buffer + n ≤ HIGH_MAP_REGION →
  read_upto m s0 offset n buffer (k * BLOCKSIZE + j) s1 →
  ∃ buf s2, tmpfs_file_getset_block fuel k 0 s1 = Done (buf, s1) ∧
    memcpy_at (buffer + (k * BLOCKSIZE + j - offset)) (buf + j) c s1 = Done (tt, s2) ∧
    read_upto m s0 offset n buffer (k * BLOCKSIZE + j + c) s2.
Proof.
  intros W Hk Hj Hc Hjc Ho Hn Hb1 Hb2 [(Ef & Er & Et) Hout Hin].
  assert (W1 : wfb s1) by (by eapply wfb_file).
  destruct (fblocks_some s1 k W1) as [b Hb]; [by rewrite Ef|].
  exists (faddr b). rewrite (getset_existing fuel k b) by (done || by rewrite Ef).
  destruct (wfb_used s1 W1 b) as [_ Hr]; [by eapply list_elem_of_lookup_2|].
  eexists. split; [done|]. unfold memcpy_at.
  assert (BLOCKSIZE ≤ faddr b) by (unfold faddr, BLOCKSIZE, HIGH_MAP_REGION in *; lia).
  unfold null_page. rewrite (proj2 (Z.ltb_ge (buffer + _) _)), (proj2 (Z.ltb_ge (faddr b + j) _)) by lia.
  rewrite andb_false_r. split; [done|]. split; simpl.
  - done.
  - intros x Hx. unfold mcopy. destruct (_ && _) eqn:E; [lia|]. by apply Hout.
  - intros i Hi. unfold mcopy. destruct (_ && _) eqn:E.
    + rewrite Ef in Hb. assert (W0 : wfb s0) by done.
      rewrite Hout by (unfold faddr, BLOCKSIZE, HIGH_MAP_REGION in *; lia).
      unfold content. replace i with (k * BLOCKSIZE + (i - k * BLOCKSIZE)) by lia.
      rewrite (fbyte_block s0 k b) by (done || lia). f_equal. lia.
    + apply Hin. lia.
Qed.

Lemma offset_split offset :
  0 ≤ offset < 2 ^ 64 →
  u64 (Z.quot offset BLOCKSIZE) = offset / BLOCKSIZE ∧ u64 offset mod BLOCKSIZE = offset mod BLOCKSIZE ∧
  Z.rem offset BLOCKSIZE = offset mod BLOCKSIZE ∧
  offset = offset / BLOCKSIZE * BLOCKSIZE + offset mod BLOCKSIZE ∧
  0 ≤ offset mod BLOCKSIZE < BLOCKSIZE ∧ 0 ≤ offset / BLOCKSIZE.
Proof.
  intros Ho. assert (0 < BLOCKSIZE) as Hb by done.
  rewrite Z.quot_div_nonneg, Z.rem_mod_nonneg by lia.
  pose proof (Z.div_mod offset BLOCKSIZE ltac:(lia)). pose proof (Z.mod_pos_bound offset BLOCKSIZE Hb).
  assert (0 ≤ offset / BLOCKSIZE) by (apply Z.div_pos; lia).
  rewrite (u64_small offset) by lia. rewrite u64_small by (unfold BLOCKSIZE in *; lia).
  split_and!; try done; lia.
Qed.

Lemma read_tmpfs_spec fuel now offset size buffer s :
  wf s → 0 ≤ offset ≤ flength (file s) → 0 ≤ size → offset + size < 2 ^ 63 →
  BLOCKSIZE ≤ buffer → buffer + size ≤ HIGH_MAP_REGION →
  (Z.to_nat (flength (file s) / BLOCKSIZE) + 1 < fuel)%nat →
  let n := Z.min size (flength (file s) - offset) in
  ∃ s', read_tmpfs fuel now offset size buffer s = Done (n, s') ∧ wf s' ∧
    file s' = with_times (file s) now (mtime (file s)) ∧ frames s' = frames s ∧
    (∀ i, 0 ≤ i < n → memory s' (buffer + i) = content (memory s) (file s) (offset + i)) ∧
    (∀ x, ¬ (buffer ≤ x < buffer + n) → memory s' x = memory s x).
Proof.
  intros [W Hl] Ho Hs Hsum Hb1 Hb2 Hf n.
  set (s0 := with_file s (with_times (file s) now (mtime (file s)))).
  assert (W0 : wfb s0) by (by destruct W).
  assert (Hn : 0 ≤ n ≤ size) by (unfold n; lia).
  assert (R0 : read_upto (memory s) s0 offset n buffer offset s0) by (split; [done|done|lia]).
  assert (Hfin : ∀ s', read_upto (memory s) s0 offset n buffer (offset + n) s' → wf s' ∧
    file s' = with_times (file s) now (mtime (file s)) ∧ frames s' = frames s ∧
    (∀ i, 0 ≤ i < n → memory s' (buffer + i) = content (memory s) (file s) (offset + i)) ∧
    (∀ x, ¬ (buffer ≤ x < buffer + n) → memory s' x = memory s x)).
  { intros s' [(E1 & E2 & E3) Hout Hin]. split_and!; try done.
    - split; [by eapply wfb_file|]. by rewrite E1.
    - intros i Hi. specialize (Hin (offset + i) ltac:(lia)).
      replace (offset + i - offset) with i in Hin by lia. done. }
  pose proof (wfb_count s W) as Hbc. pose proof (wfb_pointers s W) as Hpt.
  destruct (offset_split offset ltac:(unfold BLOCKSIZE in *; lia)) as (Eq & Em & Erm & Eo & Hm & Hq).
  unfold read_tmpfs. rewrite (St_bind_done _ _ s s s) by done. rewrite (St_bind_done _ _ s tt s0) by done.
  cbv zeta. rewrite (u64_small (offset + size)) by lia. rewrite Eq, Em, Erm, (u64_small offset) by lia.
  replace (if flength (file s) <? offset + size then flength (file s) else offset + size) with (offset + n)
    by (unfold n; destruct (Z.ltb_spec (flength (file s)) (offset + size)); lia).
  destruct (offset_split (offset + n) ltac:(unfold BLOCKSIZE in *; lia)) as (_ & _ & _ & Ee & He & Hqe).
  set (k0 := offset / BLOCKSIZE) in *. set (k1 := (offset + n) / BLOCKSIZE) in *.
  set (j0 := offset mod BLOCKSIZE) in *. set (j1 := (offset + n) mod BLOCKSIZE) in *.
  rewrite (u64_small (k1 * BLOCKSIZE)), (u64_small (offset + n - k1 * BLOCKSIZE)),
    (u64_small (offset + n - offset)) by (unfold BLOCKSIZE in *; lia).
  replace (offset + n - k1 * BLOCKSIZE) with j1 by lia. replace (offset + n - offset) with n by lia.
  destruct (Z.eqb_spec k0 k1) as [Ek|Ek]; cbn [andb].
  - destruct (Z.eqb_spec offset (offset + n)) as [En|En].
    + assert (n = 0) as En0 by lia. rewrite En0 in *. exists s0. split; [done|]. apply Hfin.
      by rewrite Z.add_0_r.
    + destruct (read_chunk fuel (memory s) s0 offset n buffer k0 j0 n s0) as (buf & s2 & E1 & E2 & R2);
        try done; try (unfold BLOCKSIZE in *; simpl; lia); [by rewrite <-Eo|].
      rewrite (St_bind_done _ _ _ _ _ E1).
      replace (buffer + (k0 * BLOCKSIZE + j0 - offset)) with buffer in E2 by lia.
      rewrite (St_bind_done _ _ _ _ _ E2). exists s2. split; [done|]. apply Hfin. by rewrite Eo at 2.
  - assert (k0 < k1) as Hlt.
    { unfold k0, k1 in *. pose proof (Z.div_le_mono offset (offset + n) BLOCKSIZE ltac:(done) ltac:(lia)). lia. }
    assert (Hk1 : k1 ≤ flength (file s) / BLOCKSIZE) by (apply Z.div_le_mono; [done|unfold n; lia]).
    assert (Hfl : flength (file s) / BLOCKSIZE * BLOCKSIZE ≤ flength (file s)).
    { pose proof (Z.mul_div_le (flength (file s)) BLOCKSIZE ltac:(done)). lia. }
    match goal with |- context [loopM fuel ?body (k0, 0)] => set (bd := body) end.
    destruct (loopM_total bd
      (λ '(bo, br) s1, k0 ≤ bo ≤ k1 ∧ br = bo - k0 ∧
         read_upto (memory s) s0 offset n buffer (Z.max offset (bo * BLOCKSIZE)) s1)
      (λ '(bo, br) s1, Z.to_nat (k1 - bo))
      (λ br s1, br = k1 - k0 ∧ read_upto (memory s) s0 offset n buffer (k1 * BLOCKSIZE) s1))
      with (fuel := fuel) (x := (k0, 0)) (s := s0) as (br & s1 & E & -> & R1).
    { intros [bo br] s1 (Hbo & -> & R1). unfold bd.
      destruct (Z.ltb_spec bo k1) as [Hb|Hb].
      - left. exists (bo + 1, bo - k0 + 1). destruct (Z.eqb_spec bo k0) as [->|Hne].
        + rewrite Z.max_l in R1 by (unfold BLOCKSIZE in *; lia). rewrite Eo in R1 at 2.
          destruct (read_chunk fuel (memory s) s0 offset n buffer k0 j0 (BLOCKSIZE - j0) s1) as (buf & s2 & E1 & E2 & R2);
            try done; try (unfold BLOCKSIZE in *; simpl; lia).
          exists s2. replace (buffer + (k0 * BLOCKSIZE + j0 - offset)) with buffer in E2 by lia.
          rewrite (St_bind_done _ _ s1 tt s2) by (by rewrite (St_bind_done _ _ _ _ _ E1)).
          split; [done|]. split; [|lia]. split_and!; [lia..|].
          rewrite Z.max_r by (unfold BLOCKSIZE in *; lia).
          by replace ((k0 + 1) * BLOCKSIZE) with (k0 * BLOCKSIZE + j0 + (BLOCKSIZE - j0)) by lia.
        + rewrite Z.max_r in R1 by (unfold BLOCKSIZE in *; lia).
          destruct (read_chunk fuel (memory s) s0 offset n buffer bo 0 BLOCKSIZE s1) as (buf & s2 & E1 & E2 & R2);
            try done; try (unfold BLOCKSIZE in *; simpl; lia); [by rewrite Z.add_0_r|].
          exists s2. rewrite !Z.add_0_r in *.
          replace (buffer + (bo * BLOCKSIZE - offset)) with (buffer + BLOCKSIZE * (bo - k0) - j0) in E2 by lia.
          rewrite (St_bind_done _ _ s1 tt s2) by (by rewrite (St_bind_done _ _ _ _ _ E1)).
          split; [done|]. split; [|lia]. split_and!; [lia..|].
          rewrite Z.max_r by (unfold BLOCKSIZE in *; lia).
          by replace ((bo + 1) * BLOCKSIZE) with (bo * BLOCKSIZE + BLOCKSIZE) by lia.
      - right. assert (bo = k1) as -> by lia. exists (k1 - k0), s1. split_and!; [done|done|].
        rewrite Z.max_r in R1 by (unfold BLOCKSIZE in *; lia). done. }
    { split_and!; [lia..|]. rewrite Z.max_l by (unfold BLOCKSIZE in *; lia). done. }
    { lia. }
    rewrite (St_bind_done _ _ _ _ _ E). destruct (Z.eqb_spec j1 0) as [E0|E0]; cbn [negb].
    + rewrite (St_bind_done _ _ s1 tt s1) by done. exists s1. split; [done|]. apply Hfin.
      by replace (offset + n) with (k1 * BLOCKSIZE) by lia.
    + destruct (read_chunk fuel (memory s) s0 offset n buffer k1 0 j1 s1) as (buf & s2 & E1 & E2 & R2);
        try done; try (unfold BLOCKSIZE in *; simpl; lia); [by rewrite Z.add_0_r|].
      rewrite !Z.add_0_r in *.
      replace (buffer + (k1 * BLOCKSIZE - offset)) with (buffer + BLOCKSIZE * (k1 - k0) - j0) in E2 by lia.
      rewrite (St_bind_done _ _ s1 tt s2) by (by rewrite (St_bind_done _ _ _ _ _ E1)).
      exists s2. split; [done|]. apply Hfin. by rewrite Ee.
Qed.
End Reading.

(** ** Writing *)

Section Writing.
Context {FA : FrameAlloc}.

(** Blocks were added to the file; memory is not constrained. *)
Record ext (s s' : fstate) : Prop := {
  ext_prefix : fblocks (file s) `prefix_of` fblocks (file s');
  ext_frames : frames s ⊆ frames s';
  ext_new : ∀ b, b ∈ fblocks (file s') → b ∉ fblocks (file s) → b ∉ frames s;
  ext_size : Z.of_nat (size (frames s')) - block_count (file s') =
    Z.of_nat (size (frames s)) - block_count (file s);
  ext_same : flength (file s') = flength (file s) ∧ atime (file s') = atime (file s) ∧
    mtime (file s') = mtime (file s)
}.

Lemma ext_refl s : ext s s.
Proof. by split. Qed.

Lemma ext_grown c s1 s2 s3 : ext s1 s2 → grown c s2 s3 → ext s1 s3.
Proof.
  intros [P1 F1 N1 S1 E1] [P2 F2 N2 S2 _ _ E2]. split.
  - by transitivity (fblocks (file s2)).
  - set_solver.
  - intros b Hb Hn. destruct (decide (b ∈ fblocks (file s2))) as [Hi|Hi]; [by apply N1|].
    pose proof (N2 b Hb Hi). set_solver.
  - lia.
  - destruct E1 as (-> & -> & ->) in E2. done.
Qed.

Lemma ext_memory s1 s2 m : ext s1 s2 → ext s1 (with_memory s2 m).
Proof. intros []. by split. Qed.

(** The bytes [offset, e) of the file are those of the buffer at [buffer] in memory
    [m]; all other memory is [m]. *)
Record write_upto (m : mem) (s0 : fstate) (offset buffer e : Z) (s1 : fstate) : Prop := {
  wu_wfb : wfb s1;
  wu_ext : ext s0 s1;
  wu_room : offset < e → e ≤ block_count (file s1) * BLOCKSIZE;
  wu_in : ∀ i, offset ≤ i < e → memory s1 (fbyte (file s1) i) = m (buffer + (i - offset));
  wu_out : ∀ x, (∀ i, offset ≤ i < e → x ≠ fbyte (file s1) i) → memory s1 x = m x
}.

Lemma fbyte_grown c s s' i :
  wfb s → grown c s s' → 0 ≤ i < block_count (file s) * BLOCKSIZE →
  fbyte (file s') i = fbyte (file s) i.
Proof.
  intros W G Hi. apply fbyte_prefix; [apply G|lia|]. rewrite fblocks_length by done.
  apply Z.div_lt_upper_bound; unfold BLOCKSIZE in *; lia.
Qed.

Lemma write_chunk fuel m s0 offset n buffer k j c s1 :
  0 ≤ k < 2 ^ 38 → 0 ≤ j → 0 ≤ c → j + c ≤ BLOCKSIZE →
  0 ≤ offset ≤ k * BLOCKSIZE + j → k * BLOCKSIZE + j + c ≤ offset + n →
  BLOCKSIZE ≤ buffer → buffer + n ≤ HIGH_MAP_REGION → (Z.to_nat k + 1 < fuel)%nat →
  Z.of_nat (size (frames s0)) + (k + 1 - block_count (file s0)) ≤ Z.of_nat capacity →
  write_upto m s0 offset buffer (k * BLOCKSIZE + j) s1 →
  ∃ buf s2 s3, tmpfs_file_getset_block fuel k 1 s1 = Done (buf, s2) ∧
    memcpy_at (buf + j) (buffer + (k * BLOCKSIZE + j - offset)) c s2 = Done (tt, s3) ∧
    write_upto m s0 offset buffer (k * BLOCKSIZE + j + c) s3 ∧
    k < block_count (file s3) ∧ block_count (file s1) ≤ block_count (file s3).
Proof.
  intros Hk Hj Hc Hjc Ho Hn Hb1 Hb2 Hf Hcap [W1 X1 Hroom Hin Hout].
  pose proof (ext_size _ _ X1). pose proof (wfb_count _ W1) as Hcnt.
  destruct (getset_create fuel k 1 s1 W1 ltac:(by left) Hk Hf ltac:(lia)) as (b & s2 & E & W2 & G & Ec & Hb).
  assert (Hmem : ∀ x, memory s2 x = memory s1 x).
  { intros x. destruct (grown_memory _ _ _ G x) as [?|[? _]]; [done|lia]. }
  assert (Hfb : ∀ i, offset ≤ i < k * BLOCKSIZE + j → fbyte (file s2) i = fbyte (file s1) i).
  { intros i Hi. eapply fbyte_grown; [done|exact G|lia]. }
  assert (Hblk : ∀ i, k * BLOCKSIZE + j ≤ i < k * BLOCKSIZE + j + c →
    fbyte (file s2) i = faddr b + j + (i - (k * BLOCKSIZE + j))).
  { intros i Hi. replace i with (k * BLOCKSIZE + (i - k * BLOCKSIZE)) at 1 by lia.
    rewrite (fbyte_block s2 k b) by (done || lia). lia. }
  destruct (wfb_used s2 W2 b) as [_ Hr]; [by eapply list_elem_of_lookup_2|].
  assert (BLOCKSIZE ≤ faddr b) by (unfold faddr, BLOCKSIZE, HIGH_MAP_REGION in *; lia).
  exists (faddr b), s2. eexists. split; [done|]. unfold memcpy_at, null_page.
  rewrite (proj2 (Z.ltb_ge (buffer + _) _)), (proj2 (Z.ltb_ge (faddr b + j) _)) by lia.
  rewrite andb_false_r. split; [done|]. split; [|simpl; lia]. split.
  - by eapply wfb_file; [..|exact W2].
  - apply ext_memory. by eapply ext_grown.
  - intros _. simpl. rewrite Ec. unfold BLOCKSIZE in *. lia.
  - intros i Hi. simpl. unfold mcopy. destruct (_ && _) eqn:Er.
    + destruct (decide (i < k * BLOCKSIZE + j)) as [Hlt|Hge].
      * exfalso. set (i' := k * BLOCKSIZE + j + (fbyte (file s2) i - (faddr b + j))).
        assert (i = i') as Hi'; [|unfold i' in *; lia].
        eapply (fbyte_inj s2); [done|rewrite Ec; unfold BLOCKSIZE in *; lia|rewrite Ec; unfold i', BLOCKSIZE in *; lia|].
        rewrite (Hblk i') by (unfold i'; lia). unfold i'. lia.
      * rewrite Hblk by lia. rewrite Hmem, Hout; [f_equal; lia|].
        intros i2 Hi2. rewrite <-Hfb by done.
        destruct (fbyte_in s2 i2 W2) as (? & _ & _ & _ & ? & ?); [rewrite Ec; unfold BLOCKSIZE in *; lia|].
        unfold HIGH_MAP_REGION, BLOCKSIZE in *. lia.
    + destruct (decide (i < k * BLOCKSIZE + j)) as [Hlt|Hge].
      * rewrite Hmem, Hfb by lia. apply Hin. lia.
      * rewrite Hblk in Er by lia. lia.
  - intros x Hx. simpl in *. unfold mcopy. destruct (_ && _) eqn:Er.
    + exfalso. apply (Hx (k * BLOCKSIZE + j + (x - (faddr b + j)))); [lia|]. rewrite Hblk by lia. lia.
    + rewrite Hmem. apply Hout. intros i Hi. rewrite <-Hfb by done. apply Hx. lia.
Qed.

Lemma write_tmpfs_spec fuel now offset size buffer s :
  wf s → 0 ≤ offset → 0 ≤ size → offset + size < 2 ^ 50 →
  BLOCKSIZE ≤ buffer → buffer + size ≤ HIGH_MAP_REGION →
  (Z.to_nat ((offset + size) / BLOCKSIZE) + 1 < fuel)%nat →
  Z.of_nat (base.size (frames s)) + ((offset + size) / BLOCKSIZE + 1 - block_count (file s))
    ≤ Z.of_nat capacity →
  ∃ s', write_tmpfs fuel now offset size buffer s = Done (size, s') ∧ wf s' ∧
    flength (file s') = Z.max (flength (file s)) (offset + size) ∧
    atime (file s') = now ∧ mtime (file s') = now ∧
    fblocks (file s) `prefix_of` fblocks (file s') ∧
    (∀ b, b ∈ fblocks (file s') → b ∉ fblocks (file s) → b ∉ frames s) ∧
    (∀ i, offset ≤ i < offset + size →
       content (memory s') (file s') i = memory s (buffer + (i - offset))) ∧
    (∀ x, (∀ i, offset ≤ i < offset + size → x ≠ fbyte (file s') i) → memory s' x = memory s x).
Proof.
  intros [W Hl] Ho Hs Hsum Hb1 Hb2 Hf Hcap.
  set (t0 := with_times (file s) now now).
  set (s0 := with_file s (if flength t0 <? offset + size then with_flength t0 (offset + size) else t0)).
  assert (Efb : fblocks (file s0) = fblocks (file s)).
  { unfold s0, fblocks. simpl. by destruct (flength (file s) <? offset + size). }
  assert (Ebc : block_count (file s0) = block_count (file s)).
  { unfold s0. simpl. by destruct (flength (file s) <? offset + size). }
  assert (Efl : flength (file s0) = Z.max (flength (file s)) (offset + size)).
  { unfold s0. simpl. destruct (Z.ltb_spec (flength (file s)) (offset + size)); simpl; lia. }
  assert (Etm : atime (file s0) = now ∧ mtime (file s0) = now).
  { unfold s0. simpl. by destruct (flength (file s) <? offset + size). }
  assert (W0 : wfb s0).
  { destruct W as [? ? ? ? ?]. unfold s0. simpl. destruct (flength (file s) <? offset + size); by split. }
  assert (R0 : write_upto (memory s) s0 offset buffer offset s0).
  { split; [done|apply ext_refl|lia|lia|done]. }
  assert (Hfin : ∀ s', write_upto (memory s) s0 offset buffer (offset + size) s' →
    offset + size ≤ block_count (file s') * BLOCKSIZE → block_count (file s) ≤ block_count (file s') →
    wf s' ∧ flength (file s') = Z.max (flength (file s)) (offset + size) ∧
    atime (file s') = now ∧ mtime (file s') = now ∧
    fblocks (file s) `prefix_of` fblocks (file s') ∧
    (∀ b, b ∈ fblocks (file s') → b ∉ fblocks (file s) → b ∉ frames s) ∧
    (∀ i, offset ≤ i < offset + size →
       content (memory s') (file s') i = memory s (buffer + (i - offset))) ∧
    (∀ x, (∀ i, offset ≤ i < offset + size → x ≠ fbyte (file s') i) → memory s' x = memory s x)).
  { intros s' [W' [P' F' N' S' (E1 & E2 & E3)] _ Hin Hout] Hroom Hmono. rewrite Efb in *.
    destruct Etm as [Ea Emt]. split_and!; try done; try congruence.
    split; [done|]. rewrite E1, Efl. unfold BLOCKSIZE in *. lia. }
  pose proof (wfb_count s W) as Hbc. pose proof (wfb_pointers s W) as Hpt.
  destruct (offset_split offset ltac:(lia)) as (Eq & Em & Erm & Eo & Hm & Hq).
  unfold write_tmpfs. rewrite (St_bind_done _ _ s s s) by done. cbv zeta.
  rewrite (u64_small (offset + size)) by lia. fold t0.
  rewrite (St_bind_done _ _ s tt s0) by done.
  rewrite Eq, Em, Erm.
  destruct (offset_split (offset + size) ltac:(lia)) as (_ & _ & _ & Ee & He & Hqe).
  set (k0 := offset / BLOCKSIZE) in *. set (k1 := (offset + size) / BLOCKSIZE) in *.
  set (j0 := offset mod BLOCKSIZE) in *. set (j1 := (offset + size) mod BLOCKSIZE) in *.
  rewrite (u64_small (k1 * BLOCKSIZE)), (u64_small (offset + size - k1 * BLOCKSIZE)),
    (u64_small (offset + size - offset)) by (unfold BLOCKSIZE in *; lia).
  replace (offset + size - k1 * BLOCKSIZE) with j1 by lia. replace (offset + size - offset) with size by lia.
  assert (Hk01 : k0 ≤ k1) by (apply Z.div_le_mono; [done|lia]).
  assert (Hcap0 : ∀ k, k ≤ k1 → Z.of_nat (base.size (frames s0)) + (k + 1 - block_count (file s0)) ≤ Z.of_nat capacity).
  { intros k Hk. rewrite Ebc. simpl. lia. }
  destruct (Z.eqb_spec k0 k1) as [Ek|Ek].
  - rewrite Eo in R0 at 2.
    destruct (write_chunk fuel (memory s) s0 offset size buffer k0 j0 size s0) as (buf & s2 & s3 & E1 & E2 & R2 & Hk & Hmono);
      try done; try (unfold BLOCKSIZE in *; lia); [apply Hcap0; lia|].
    rewrite (St_bind_done _ _ _ _ _ E1).
    replace (buffer + (k0 * BLOCKSIZE + j0 - offset)) with buffer in E2 by lia.
    rewrite (St_bind_done _ _ _ _ _ E2). exists s3. split; [done|]. rewrite <-Eo in R2.
    apply Hfin; [done|unfold BLOCKSIZE in *; lia|lia].
  - assert (k0 < k1) as Hlt by lia.
    match goal with |- context [loopM fuel ?body (k0, 0)] => set (bd := body) end.
    destruct (loopM_total bd
      (λ '(bo, br) s1, k0 ≤ bo ≤ k1 ∧ br = bo - k0 ∧ block_count (file s) ≤ block_count (file s1) ∧
         write_upto (memory s) s0 offset buffer (Z.max offset (bo * BLOCKSIZE)) s1)
      (λ '(bo, br) s1, Z.to_nat (k1 - bo))
      (λ br s1, br = k1 - k0 ∧ block_count (file s) ≤ block_count (file s1) ∧
         write_upto (memory s) s0 offset buffer (k1 * BLOCKSIZE) s1))
      with (fuel := fuel) (x := (k0, 0)) (s := s0) as (br & s1 & E & -> & Hm1 & R1).
    { intros [bo br] s1 (Hbo & -> & Hmo & R1). unfold bd.
      destruct (Z.ltb_spec bo k1) as [Hb|Hb].
      - left. exists (bo + 1, bo - k0 + 1). destruct (Z.eqb_spec bo k0) as [->|Hne].
        + rewrite Z.max_l in R1 by (unfold BLOCKSIZE in *; lia). rewrite Eo in R1 at 2.
          destruct (write_chunk fuel (memory s) s0 offset size buffer k0 j0 (BLOCKSIZE - j0) s1)
            as (buf & s2 & s3 & E1 & E2 & R2 & Hk & Hmono);
            try done; try (unfold BLOCKSIZE in *; lia); [apply Hcap0; lia|].
          exists s3. replace (buffer + (k0 * BLOCKSIZE + j0 - offset)) with buffer in E2 by lia.
          rewrite (St_bind_done _ _ s1 tt s3) by (by rewrite (St_bind_done _ _ _ _ _ E1)).
          split; [done|]. split; [|lia]. split_and!; [lia..|].
          rewrite Z.max_r by (unfold BLOCKSIZE in *; lia).
          by replace ((k0 + 1) * BLOCKSIZE) with (k0 * BLOCKSIZE + j0 + (BLOCKSIZE - j0)) by lia.
        + rewrite Z.max_r in R1 by (unfold BLOCKSIZE in *; lia). rewrite <-(Z.add_0_r (bo * BLOCKSIZE)) in R1.
          destruct (write_chunk fuel (memory s) s0 offset size buffer bo 0 BLOCKSIZE s1)
            as (buf & s2 & s3 & E1 & E2 & R2 & Hk & Hmono);
            try done; try (unfold BLOCKSIZE in *; lia); [apply Hcap0; lia|].
          exists s3. rewrite !Z.add_0_r in *.
          replace (buffer + (bo * BLOCKSIZE - offset)) with (buffer + BLOCKSIZE * (bo - k0) - j0) in E2 by lia.
          rewrite (St_bind_done _ _ s1 tt s3) by (by rewrite (St_bind_done _ _ _ _ _ E1)).
          split; [done|]. split; [|lia]. split_and!; [lia..|].
          rewrite Z.max_r by (unfold BLOCKSIZE in *; lia).
          by replace ((bo + 1) * BLOCKSIZE) with (bo * BLOCKSIZE + BLOCKSIZE) by lia.
      - right. assert (bo = k1) as -> by lia. exists (k1 - k0), s1. split_and!; [done|done|done|].
        rewrite Z.max_r in R1 by (unfold BLOCKSIZE in *; lia). done. }
    { split_and!; [lia..|]. rewrite Z.max_l by (unfold BLOCKSIZE in *; lia). done. }
    { lia. }
    rewrite (St_bind_done _ _ _ _ _ E). destruct (Z.eqb_spec j1 0) as [E0|E0]; cbn [negb].
    + rewrite (St_bind_done _ _ s1 tt s1) by done. exists s1. split; [done|].
      assert (offset < k1 * BLOCKSIZE) by (unfold BLOCKSIZE in *; lia).
      assert (k1 * BLOCKSIZE = offset + size) as Ek1 by lia. rewrite Ek1 in R1.
      apply Hfin; [done| |done]. apply (wu_room _ _ _ _ _ _ R1). lia.
    + rewrite <-(Z.add_0_r (k1 * BLOCKSIZE)) in R1.
      destruct (write_chunk fuel (memory s) s0 offset size buffer k1 0 j1 s1)
        as (buf & s2 & s3 & E1 & E2 & R2 & Hk & Hmono);
        try done; try (unfold BLOCKSIZE in *; lia); [apply Hcap0; lia|].
      rewrite !Z.add_0_r in *.
      replace (buffer + (k1 * BLOCKSIZE - offset)) with (buffer + BLOCKSIZE * (k1 - k0) - j0) in E2 by lia.
      rewrite (St_bind_done _ _ s1 tt s3) by (by rewrite (St_bind_done _ _ _ _ _ E1)).
      exists s3. split; [done|]. rewrite <-Ee in R2. apply Hfin; [done| |lia].
      apply (wu_room _ _ _ _ _ _ R2).
      assert (offset < k1 * BLOCKSIZE) by (unfold BLOCKSIZE in *; lia). lia.
Qed.
End Writing.

(** ** Truncation *)

Section Truncating.
Context {FA : FrameAlloc}.

(** Everything of the file but its blocks and length. *)
Definition fmeta (t : tmpfs_file) :=
  (name t, type t, mask t, uid t, gid t, atime t, mtime t, ctime t, mount t, target t, pointers t).

Lemma release_range_spec fuel first n s :
  wfb s → 0 ≤ first ≤ n → n ≤ block_count (file s) → (Z.to_nat n < fuel)%nat →
  ∃ s', release_range fuel first n s = Done (tt, s') ∧ memory s' = memory s ∧
    fmeta (file s') = fmeta (file s) ∧ flength (file s') = flength (file s) ∧
    block_count (file s') = block_count (file s) ∧
    length (blocks (file s')) = length (blocks (file s)) ∧
    (∀ k, (k < Z.to_nat first)%nat → blocks (file s') !! k = blocks (file s) !! k) ∧
    (∀ b, b ∈ frames s' ↔ b ∈ frames s ∧
       ∀ k, first ≤ k < n → blocks (file s) !! Z.to_nat k ≠ Some b).
Proof.
  intros W Hr Hn Hf. pose proof (wfb_slots s W) as Hsl. pose proof (wfb_count s W) as Hc. unfold release_range.
  set (body := λ i, if i <? n then _ else _).
  destruct (loopM_total body
    (λ i s', first ≤ i ≤ n ∧ memory s' = memory s ∧
      fmeta (file s') = fmeta (file s) ∧ flength (file s') = flength (file s) ∧
      block_count (file s') = block_count (file s) ∧
      length (blocks (file s')) = length (blocks (file s)) ∧
      (∀ k, (k < Z.to_nat first ∨ Z.to_nat i ≤ k)%nat → blocks (file s') !! k = blocks (file s) !! k) ∧
      (∀ b, b ∈ frames s' ↔ b ∈ frames s ∧
         ∀ k, first ≤ k < i → blocks (file s) !! Z.to_nat k ≠ Some b))
    (λ i s', Z.to_nat (n - i))
    (λ _ s', memory s' = memory s ∧
      fmeta (file s') = fmeta (file s) ∧ flength (file s') = flength (file s) ∧
      block_count (file s') = block_count (file s) ∧
      length (blocks (file s')) = length (blocks (file s)) ∧
      (∀ k, (k < Z.to_nat first)%nat → blocks (file s') !! k = blocks (file s) !! k) ∧
      (∀ b, b ∈ frames s' ↔ b ∈ frames s ∧
         ∀ k, first ≤ k < n → blocks (file s) !! Z.to_nat k ≠ Some b)))
    with (fuel := fuel) (x := first) (s := s) as ([] & s' & E & H); [| |lia|eauto].
  - intros i s' (Hi & E1 & E2 & E3 & E4 & E5 & E6 & E7). unfold body.
    destruct (Z.ltb_spec i n) as [Hlt|Hge].
    + left. exists (i + 1). destruct (lookup_lt_is_Some_2 (blocks (file s)) (Z.to_nat i)) as [b Hb]; [lia|].
      rewrite (St_bind_done _ _ s' s' s') by done. rewrite E6, Hb by lia.
      eexists. split; [done|]. split; [|lia]. simpl.
      split_and!; try done; try lia.
      * by rewrite length_insert.
      * intros k Hk. rewrite list_lookup_insert_ne by lia. apply E6. lia.
      * intros c. rewrite elem_of_difference, elem_of_singleton, E7. split.
        -- intros [[Hc1 Hc2] Hcb]. split; [done|]. intros k Hk.
           destruct (decide (k = i)) as [->|]; [congruence|]. apply Hc2. lia.
        -- intros [Hc1 Hc2]. split_and!; [done|intros k Hk; apply Hc2; lia|].
           intros ->. by apply (Hc2 i); [lia|].
    + right. assert (i = n) as -> by lia. exists tt, s'. split_and!; try done.
      intros k Hk. apply E6. by left.
  - split_and!; try done; try lia. intros b. split; [|by intros []]. intros Hb. split; [done|]. lia.
Qed.

(** The number of blocks that hold the bytes of the file. *)
Definition blocks_for (n : Z) : Z := n / BLOCKSIZE + truth (negb (n - n / BLOCKSIZE * BLOCKSIZE =? 0)).

Lemma blocks_for_spec n : 0 ≤ n → n ≤ blocks_for n * BLOCKSIZE < n + BLOCKSIZE ∧ 0 ≤ blocks_for n.
Proof.
  intros Hn. unfold blocks_for. pose proof (Z.div_mod n BLOCKSIZE ltac:(done)).
  pose proof (Z.mod_pos_bound n BLOCKSIZE ltac:(done)). assert (0 ≤ n / BLOCKSIZE) by (apply Z.div_pos; done).
  destruct (Z.eqb_spec (n - n / BLOCKSIZE * BLOCKSIZE) 0); simpl; unfold BLOCKSIZE in *; lia.
Qed.

(** Shrinking: the file keeps its first [size] bytes, and the frames past them are
    given back. *)
Lemma truncate_shrink_spec fuel node_atime size s :
  wf s → 0 ≤ size < flength (file s) → block_count (file s) = blocks_for (flength (file s)) →
  (Z.to_nat (block_count (file s)) < fuel)%nat →
  ∃ s', truncate_tmpfs fuel node_atime size s = Done (0, s') ∧ wf s' ∧
    flength (file s') = size ∧ mtime (file s') = node_atime ∧
    block_count (file s') = blocks_for size ∧ memory s' = memory s ∧
    (∀ i, 0 ≤ i < size → content (memory s') (file s') i = content (memory s) (file s) i) ∧
    (∀ b, b ∈ frames s' ↔ b ∈ frames s ∧ b ∉ drop (Z.to_nat (blocks_for size)) (fblocks (file s))).
Proof.
  intros [W Hl] Hs Ht Hf. pose proof (wfb_slots s W) as Hsl. pose proof (wfb_count s W) as Hc.
  destruct (blocks_for_spec size ltac:(lia)) as [Hn Hn0].
  destruct (blocks_for_spec (flength (file s)) ltac:(lia)) as [Hold _].
  assert (Hle : blocks_for size ≤ blocks_for (flength (file s))) by (unfold BLOCKSIZE in *; lia).
  destruct (release_range_spec fuel (blocks_for size) (block_count (file s)) s W ltac:(lia) ltac:(lia) Hf)
    as (s1 & E & Em & Eme & El & Ebc & Elen & Epre & Efr).
  unfold fmeta in Eme. injection Eme as E1 E2 E3 E4 E5 E6 E7 E8 E9 E10 E11.
  (* the state all three ways end in *)
  set (s2 := with_file s1 (with_flength (with_blocks (file s1) (blocks_for size) (pointers (file s1))
               (blocks (file s1))) size)).
  assert (Hfb : fblocks (file s2) = take (Z.to_nat (blocks_for size)) (fblocks (file s))).
  { unfold fblocks, s2. simpl. rewrite take_take, Nat.min_l by lia. apply list_eq. intros k.
    destruct (decide (k < Z.to_nat (blocks_for size))%nat) as [Hk|Hk].
    - rewrite !lookup_take_lt by done. by apply Epre.
    - rewrite !lookup_take_ge by lia. done. }
  assert (Hrun : truncate_tmpfs fuel node_atime size s =
    Done (0, with_file s2 (with_times (file s2) (atime (file s2)) node_atime))).
  { unfold truncate_tmpfs. rewrite (St_bind_done _ _ s s s) by done. cbv zeta.
    rewrite (proj2 (Z.eqb_neq size _)), (proj2 (Z.ltb_ge (flength (file s)) size)) by lia.
    fold (blocks_for (flength (file s))). fold (blocks_for size). rewrite <-Ht.
    rewrite (St_bind_done _ _ s tt s2); [done|]. destruct (Z.eqb_spec size 0) as [E0|E0].
    - assert (blocks_for size = 0) as Eb0 by (by rewrite E0). rewrite Eb0 in *.
      rewrite (St_bind_done _ _ _ _ _ E). unfold s2. by rewrite Eb0, E0.
    - destruct (Z.ltb_spec (blocks_for size) (block_count (file s))) as [Hlt|Hge].
      + rewrite (St_bind_done _ _ s tt
          (with_file s1 (with_blocks (file s1) (blocks_for size) (pointers (file s1)) (blocks (file s1)))));
          [done|]. by rewrite (St_bind_done _ _ _ _ _ E).
      + rewrite (St_bind_done _ _ s tt s) by done.
        assert (s1 = s) as ->.
        { revert E. unfold release_range.
          destruct fuel as [|fuel]; [lia|]. cbn [loopM]. rewrite (proj2 (Z.ltb_ge _ _)) by lia.
          rewrite (St_bind_done _ _ s (inr tt) s) by done. intros [= <-]. done. }
        unfold s2. assert (blocks_for size = block_count (file s)) as -> by lia.
        by destruct s as [? ? ? []]. }
  exists (with_file s2 (with_times (file s2) (atime (file s2)) node_atime)). rewrite Hrun.
  assert (Hin : ∀ b, b ∈ fblocks (file s2) → b ∈ fblocks (file s)).
  { intros b. rewrite Hfb. intros (k & Hk)%list_elem_of_lookup. apply lookup_take_Some in Hk as [Hk _].
    by eapply list_elem_of_lookup_2. }
  split_and!; try done.
  - split; [|simpl; unfold BLOCKSIZE in *; lia]. split; try done.
    + simpl. rewrite E11. apply W.
    + simpl. rewrite Elen, E11. done.
    + simpl. rewrite E11. lia.
    + change (NoDup (fblocks (file s2))). rewrite Hfb. eapply sublist_NoDup; [apply (wfb_nodup s W)|].
      apply sublist_take.
    + intros b Hb. destruct (wfb_used s W b (Hin b Hb)) as [Hu Hrg]. split; [|done].
      simpl. apply Efr. split; [done|]. intros k Hk Hkb. change (b ∈ fblocks (file s2)) in Hb. rewrite Hfb in Hb.
      apply list_elem_of_lookup in Hb as [k' Hk']. apply lookup_take_Some in Hk' as [Hk' Hlt].
      apply (fblocks_lookup s k b W) in Hkb; [|lia].
      pose proof (NoDup_lookup _ _ _ _ (wfb_nodup s W) Hkb Hk'). lia.
  - intros i Hi. simpl. rewrite Em. unfold content. f_equal. symmetry. apply fbyte_prefix.
    + change (fblocks (file s2) `prefix_of` fblocks (file s)). rewrite Hfb. apply prefix_take.
    + lia.
    + change (i / BLOCKSIZE < Z.of_nat (length (fblocks (file s2)))). rewrite Hfb, length_take.
      pose proof (fblocks_length s W). assert (i / BLOCKSIZE < blocks_for size); [|lia].
      apply Z.div_lt_upper_bound; [done|]. unfold BLOCKSIZE in *. lia.
  - intros b. simpl. rewrite Efr. split; intros [Hb Hk]; (split; [done|]).
    + intros (k & Hd)%list_elem_of_lookup. rewrite lookup_drop in Hd.
      pose proof (lookup_lt_Some _ _ _ Hd) as Hlt. pose proof (fblocks_length s W).
      apply (Hk (blocks_for size + Z.of_nat k)); [lia|].
      apply (fblocks_lookup s); [done|lia|].
      by replace (Z.to_nat (blocks_for size + Z.of_nat k)) with (Z.to_nat (blocks_for size) + k)%nat by lia.
    + intros k Hkr Hkb. apply Hk. apply (fblocks_lookup s k b W) in Hkb; [|lia].
      apply list_elem_of_lookup. exists (Z.to_nat k - Z.to_nat (blocks_for size))%nat. rewrite lookup_drop.
      by replace (Z.to_nat (blocks_for size) + (Z.to_nat k - Z.to_nat (blocks_for size)))%nat with (Z.to_nat k) by lia.
Qed.

(** A [memset] within one block of the file, seen on its contents. *)
Lemma memset_block s k b j c :
  wfb s → fblocks (file s) !! Z.to_nat k = Some b → 0 ≤ k → 0 ≤ j → 0 ≤ c → j + c ≤ BLOCKSIZE →
  memset_at (faddr b + j) 0 c s = Done (tt, with_memory s (mfill (memory s) (faddr b + j) 0 c)) ∧
  ∀ i, 0 ≤ i < block_count (file s) * BLOCKSIZE →
    content (mfill (memory s) (faddr b + j) 0 c) (file s) i =
      if decide (k * BLOCKSIZE + j ≤ i < k * BLOCKSIZE + j + c) then 0
      else content (memory s) (file s) i.
Proof.
  intros W Hb Hk Hj Hc Hjc. pose proof (list_elem_of_lookup_2 _ _ _ Hb) as Hin.
  destruct (wfb_used s W b Hin) as [_ Hr]. split.
  - unfold memset_at, null_page. rewrite (proj2 (Z.ltb_ge (faddr b + j) _)).
    + by rewrite andb_false_r.
    + unfold faddr, BLOCKSIZE, HIGH_MAP_REGION in *. lia.
  - intros i Hi. unfold content, mfill. destruct (_ && _) eqn:E; case_decide as Hd; try done.
    + exfalso. destruct (fbyte_in s i W Hi) as (b' & Hb' & Eb' & _ & Rb' & _).
      assert (b' = b) as -> by (eapply faddr_disjoint; [exact Rb'|lia]).
      pose proof (NoDup_lookup _ _ _ _ (wfb_nodup s W) Hb' Hb) as Eq.
      assert (0 ≤ i / BLOCKSIZE) by (apply Z.div_pos; [lia|done]).
      pose proof (Z.div_mod i BLOCKSIZE ltac:(done)). assert (i / BLOCKSIZE = k) as Ek by lia.
      rewrite Ek in *. lia.
    + exfalso. replace i with (k * BLOCKSIZE + (i - k * BLOCKSIZE)) in E by lia.
      rewrite (fbyte_block s k b) in E by (done || lia). lia.
Qed.

(** Growing: the old bytes are kept and the new ones are zero. *)
Lemma truncate_grow_spec fuel node_atime size s :
  wf s → flength (file s) < size < 2 ^ 50 → block_count (file s) = blocks_for (flength (file s)) →
  flength (file s) / BLOCKSIZE ≠ size / BLOCKSIZE ∨ flength (file s) mod BLOCKSIZE ≠ 0 →
  (Z.to_nat (size / BLOCKSIZE) + 1 < fuel)%nat →
  Z.of_nat (base.size (frames s)) + (size / BLOCKSIZE + 1 - block_count (file s)) ≤ Z.of_nat capacity →
  ∃ s', truncate_tmpfs fuel node_atime size s = Done (0, s') ∧ wf s' ∧
    flength (file s') = size ∧ mtime (file s') = node_atime ∧
    (∀ i, 0 ≤ i < flength (file s) → content (memory s') (file s') i = content (memory s) (file s) i) ∧
    (∀ i, flength (file s) ≤ i < size → content (memory s') (file s') i = 0).
Proof.
  intros [W Hl] Hs Ht Hcase Hf Hcap. set (L := flength (file s)) in *.
  pose proof (wfb_count s W) as Hc.
  destruct (offset_split L ltac:(lia)) as (_ & _ & _ & EL & Hm & Hq).
  destruct (offset_split size ltac:(lia)) as (_ & _ & _ & ES & HmS & HqS).
  set (k0 := L / BLOCKSIZE) in *. set (j0 := L mod BLOCKSIZE) in *.
  set (k1 := size / BLOCKSIZE) in *. set (j1 := size mod BLOCKSIZE) in *.
  assert (Hk01 : k0 ≤ k1) by (apply Z.div_le_mono; [done|lia]).
  assert (Ebc : block_count (file s) = k0 + truth (negb (j0 =? 0))).
  { rewrite Ht. unfold blocks_for. fold k0. by replace (L - k0 * BLOCKSIZE) with j0 by lia. }
  assert (Hdone : ∀ s1, wfb s1 → size ≤ block_count (file s1) * BLOCKSIZE →
    (∀ i, 0 ≤ i < L → content (memory s1) (file s1) i = content (memory s) (file s) i) →
    (∀ i, L ≤ i < size → content (memory s1) (file s1) i = 0) →
    (if k0 =? k1 then
       buf ← tmpfs_file_getset_block fuel k0 0; memset_at (buf + j0) 0 (j1 - j0)
     else
       tmpfs_file_getset_block fuel k1 2;;
       buf ← tmpfs_file_getset_block fuel k0 0; memset_at (buf + j0) 0 (BLOCKSIZE - j0)) s = Done (tt, s1) →
    ∃ s', truncate_tmpfs fuel node_atime size s = Done (0, s') ∧ wf s' ∧
      flength (file s') = size ∧ mtime (file s') = node_atime ∧
      (∀ i, 0 ≤ i < L → content (memory s') (file s') i = content (memory s) (file s) i) ∧
      (∀ i, L ≤ i < size → content (memory s') (file s') i = 0)).
  { intros s1 W1 Hroom Hold Hnew E. unfold truncate_tmpfs. rewrite (St_bind_done _ _ s s s) by done.
    cbv zeta. fold L. fold k0. fold k1. replace (L - k0 * BLOCKSIZE) with j0 by lia.
    replace (size - k1 * BLOCKSIZE) with j1 by lia.
    rewrite (proj2 (Z.eqb_neq size L)), (proj2 (Z.ltb_lt L size)) by lia.
    eexists. split.
    - erewrite St_bind_done; [done|]. erewrite St_bind_done; [done|]. exact E.
    - simpl. split_and!; try done. split; [by destruct W1|]. simpl. lia. }
  destruct (Z.eqb_spec k0 k1) as [Ek|Ek].
  - assert (j0 ≠ 0) as Hj0 by (destruct Hcase; lia).
    rewrite (proj2 (Z.eqb_neq j0 0)) in Ebc by done. simpl in Ebc.
    destruct (fblocks_some s k0 W) as [b Hb]; [lia|].
    destruct (memset_block s k0 b j0 (j1 - j0) W Hb) as [E Hcont]; [lia|lia|lia|lia|].
    eapply (Hdone (with_memory s (mfill (memory s) (faddr b + j0) 0 (j1 - j0)))).
    + by destruct W.
    + simpl. unfold BLOCKSIZE in *. lia.
    + intros i Hi. simpl. rewrite Hcont by (unfold BLOCKSIZE in *; lia). rewrite decide_False by lia. done.
    + intros i Hi. simpl. rewrite Hcont by (unfold BLOCKSIZE in *; lia). rewrite decide_True by lia. done.
    + rewrite (St_bind_done _ _ _ _ _ (getset_existing fuel k0 b s W ltac:(lia) Hb)). exact E.
  - destruct (getset_create fuel k1 2 s W ltac:(by right) ltac:(unfold BLOCKSIZE in *; lia) Hf ltac:(lia))
      as (b1 & s1 & E1 & W1 & G1 & Ec1 & Hb1).
    assert (0 ≤ truth (negb (j0 =? 0)) ≤ 1) as Htr by (destruct (j0 =? 0); simpl; lia).
    destruct (fblocks_some s1 k0 W1) as [b Hb]; [lia|].
    destruct (memset_block s1 k0 b j0 (BLOCKSIZE - j0) W1 Hb) as [E Hcont]; [lia|lia|lia|lia|].
    eapply (Hdone (with_memory s1 (mfill (memory s1) (faddr b + j0) 0 (BLOCKSIZE - j0)))).
    + by destruct W1.
    + simpl. rewrite Ec1. unfold BLOCKSIZE in *. lia.
    + intros i Hi. simpl. rewrite Hcont by (rewrite Ec1; unfold BLOCKSIZE in *; lia). rewrite decide_False by lia.
      destruct (fbyte_in s i W) as (bi & Hbi & _ & Hini & Ri & _); [unfold L, BLOCKSIZE in *; lia|].
      unfold content. rewrite (fbyte_grown 2 s s1) by (done || (unfold L, BLOCKSIZE in *; lia)).
      destruct (grown_memory _ _ _ G1 (fbyte (file s) i)) as [?|(_ & _ & b' & _ & Hn & Hr)]; [done|].
      exfalso. apply Hn. by rewrite <-(faddr_disjoint _ _ _ Ri Hr).
    + intros i Hi. simpl. rewrite Hcont by (rewrite Ec1; unfold BLOCKSIZE in *; lia).
      case_decide as Hd; [done|]. assert (k0 * BLOCKSIZE + BLOCKSIZE ≤ i) as Hi2 by lia.
      destruct (fbyte_in s1 i W1) as (bi & Hbi & _ & Hini & Ri & _); [rewrite Ec1; unfold BLOCKSIZE in *; lia|].
      unfold content. apply (grown_zero _ _ _ G1 eq_refl bi); [done| |done].
      intros [k' Hk']%list_elem_of_lookup.
      pose proof (prefix_lookup_Some _ _ _ _ Hk' (grown_prefix _ _ _ G1)) as Hk2.
      pose proof (NoDup_lookup _ _ _ _ (wfb_nodup s1 W1) Hbi Hk2) as Eq.
      apply lookup_lt_Some in Hk'. pose proof (fblocks_length s W).
      assert (k0 + 1 ≤ i / BLOCKSIZE) by (apply Z.div_le_lower_bound; [done|lia]). lia.
    + rewrite (St_bind_done _ _ _ _ _ E1).
      rewrite (St_bind_done _ _ _ _ _ (getset_existing fuel k0 b s1 W1 ltac:(lia) Hb)). exact E.
Qed.

(** Growing a file that ends at a block boundary, within the next block: the block
    is not there, and the null pointer is written through. *)
Lemma truncate_boundary_spec fuel node_atime size s :
  wf s → flength (file s) < size < 2 ^ 50 → block_count (file s) = blocks_for (flength (file s)) →
  flength (file s) / BLOCKSIZE = size / BLOCKSIZE → flength (file s) mod BLOCKSIZE = 0 →
  truncate_tmpfs fuel node_atime size s = Fault.
Proof.
  intros [W Hl] Hs Ht Hk Hm. destruct (offset_split (flength (file s)) ltac:(lia)) as (_ & _ & _ & EL & _ & _).
  destruct (offset_split size ltac:(lia)) as (_ & _ & _ & ES & HmS & _).
  unfold truncate_tmpfs. rewrite (St_bind_done _ _ s s s) by done. cbv zeta.
  rewrite (proj2 (Z.eqb_neq size _)), (proj2 (Z.ltb_lt (flength (file s)) size)), Hk, Z.eqb_refl by lia.
  apply St_bind_fault, St_bind_fault.
  rewrite (St_bind_done _ _ s NULL s).
  - unfold memset_at. rewrite (proj2 (andb_true_iff _ _)); [done|]. unfold null_page.
    rewrite !Z.ltb_lt. unfold BLOCKSIZE, NULL in *. lia.
  - apply getset_none. rewrite Ht. unfold blocks_for. rewrite Hk.
    rewrite (proj2 (Z.eqb_eq _ _)) by lia. simpl. lia.
Qed.
End Truncating.

(** ** A small allocator and file, for concrete runs *)

#[export] Instance small_frames : FrameAlloc.
Proof.
  refine {| capacity := 8%nat;
            mmu_allocate_a_frame := λ X, snd <$> list.list_find (λ f, f ∉ X) (seqZ 1 8) |}.
  - intros X HX. destruct (list.list_find (λ f, f ∉ X) (seqZ 1 8)) as [[i f]|] eqn:E; [by exists f|].
    exfalso. apply list_find_None in E.
    assert ((list_to_set (seqZ 1 8) : gset Z) ⊆ X) as Hsub.
    { intros f Hf%elem_of_list_to_set. rewrite Forall_forall in E. specialize (E f Hf).
      destruct (decide (f ∈ X)); [done|]. by destruct E. }
    apply subseteq_size in Hsub. change (size (list_to_set (seqZ 1 8) : gset Z)) with 8%nat in Hsub. lia.
  - intros X f ([i g] & E & ->)%fmap_Some. apply list_find_Some in E as (Hl & Hf & _). simpl.
    split; [done|]. apply list_elem_of_lookup_2, elem_of_seqZ in Hl. lia.
Defined.

Definition demo_memory : mem := λ x, if (65536 <=? x) && (x <? 65536 + 5) then x - 65535 else 0.
Definition demo_state : fstate := FS demo_memory ∅ 0 (tmpfs_file_new (str "a") 0).

Lemma demo_state_wf : wf demo_state.
Proof. split; [|simpl; lia]. split; simpl; try lia; [constructor|set_solver]. Qed.

(** ** The theorems *)

(** [read_tmpfs] at an offset inside the file returns the number of bytes up to
    the end of the request or of the file, and puts exactly those bytes of the file
    in the buffer, however they are spread over blocks; nothing else changes but the
    access time. *)
Theorem read_tmpfs_correct `{!FrameAlloc} fuel now offset size buffer s :
  wf s → 0 ≤ offset ≤ flength (file s) → 0 ≤ size → offset + size < 2 ^ 63 →
  BLOCKSIZE ≤ buffer → buffer + size ≤ HIGH_MAP_REGION →
  (Z.to_nat (flength (file s) / BLOCKSIZE) + 1 < fuel)%nat →
  let n := Z.min size (flength (file s) - offset) in
  ∃ s', read_tmpfs fuel now offset size buffer s = Done (n, s') ∧ wf s' ∧
    file s' = with_times (file s) now (mtime (file s)) ∧ frames s' = frames s ∧
    (∀ i, 0 ≤ i < n → memory s' (buffer + i) = content (memory s) (file s) (offset + i)) ∧
    (∀ x, ¬ (buffer ≤ x < buffer + n) → memory s' x = memory s x).
Proof. apply read_tmpfs_spec. Qed.

Lemma read_tmpfs_correct_witness :
  ∃ s', read_tmpfs 3 9 0 100 65536 demo_state = Done (0, s') ∧ wf s' ∧
    file s' = with_times (file demo_state) 9 0 ∧ frames s' = ∅ ∧
    (∀ i, 0 ≤ i < 0 → memory s' (65536 + i) = content demo_memory (file demo_state) (0 + i)) ∧
    (∀ x, ¬ (65536 ≤ x < 65536 + 0) → memory s' x = demo_memory x).
Proof.
  exact (read_tmpfs_correct 3 9 0 100 65536 demo_state demo_state_wf ltac:(simpl; lia) ltac:(lia)
           ltac:(lia) ltac:(unfold BLOCKSIZE; lia) ltac:(unfold HIGH_MAP_REGION; lia) ltac:(vm_compute; lia)).
Defined.

(** C12: [write_tmpfs] makes the bytes of the buffer the bytes of the file at the
    offset and extends the file when it writes past its end; the file keeps its old
    blocks, the ones it adds were not in use, and no other memory changes, in
    particular no other byte of the file. *)
Theorem write_tmpfs_correct `{!FrameAlloc} fuel now offset size buffer s :
  wf s → 0 ≤ offset → 0 ≤ size → offset + size < 2 ^ 50 →
  BLOCKSIZE ≤ buffer → buffer + size ≤ HIGH_MAP_REGION →
  (Z.to_nat ((offset + size) / BLOCKSIZE) + 1 < fuel)%nat →
  Z.of_nat (base.size (frames s)) + ((offset + size) / BLOCKSIZE + 1 - block_count (file s))
    ≤ Z.of_nat capacity →
  ∃ s', write_tmpfs fuel now offset size buffer s = Done (size, s') ∧ wf s' ∧
    flength (file s') = Z.max (flength (file s)) (offset + size) ∧
    fblocks (file s) `prefix_of` fblocks (file s') ∧
    (∀ b, b ∈ fblocks (file s') → b ∉ fblocks (file s) → b ∉ frames s) ∧
    (∀ i, offset ≤ i < offset + size →
       content (memory s') (file s') i = memory s (buffer + (i - offset))) ∧
    (∀ i, 0 ≤ i < flength (file s) → ¬ (offset ≤ i < offset + size) →
       content (memory s') (file s') i = content (memory s) (file s) i) ∧
    (∀ x, (∀ i, offset ≤ i < offset + size → x ≠ fbyte (file s') i) → memory s' x = memory s x).
Proof.
  intros W Ho Hs Hsum Hb1 Hb2 Hf Hcap. pose proof W as [Wb Hl].
  destruct (write_tmpfs_spec fuel now offset size buffer s W Ho Hs Hsum Hb1 Hb2 Hf Hcap)
    as (s' & E & W' & El & _ & _ & Hp & Hn & Hin & Hout). exists s'. split_and!; try done.
  intros i Hi Hno. assert (fbyte (file s') i = fbyte (file s) i) as Ei.
  { apply fbyte_prefix; [done|lia|]. rewrite fblocks_length by done.
    apply Z.div_lt_upper_bound; unfold BLOCKSIZE in *; lia. }
  unfold content. rewrite Ei, Hout; [done|]. intros j Hj Hij. destruct W' as [Wb' Hl'].
  apply Hno. replace i with j; [done|]. rewrite El in Hl'.
  apply (fbyte_inj s'); [done|lia|lia|]. by rewrite Ei.
Qed.

Lemma write_tmpfs_correct_witness :
  ∃ s', write_tmpfs 3 9 0 5 65536 demo_state = Done (5, s') ∧ wf s' ∧ flength (file s') = 5 ∧
    [] `prefix_of` fblocks (file s') ∧
    (∀ b, b ∈ fblocks (file s') → b ∉ [] → b ∉ (∅ : gset Z)) ∧
    (∀ i, 0 ≤ i < 0 + 5 → content (memory s') (file s') i = demo_memory (65536 + (i - 0))) ∧
    (∀ i, 0 ≤ i < 0 → ¬ (0 ≤ i < 0 + 5) →
       content (memory s') (file s') i = content demo_memory (file demo_state) i) ∧
    (∀ x, (∀ i, 0 ≤ i < 0 + 5 → x ≠ fbyte (file s') i) → memory s' x = demo_memory x).
Proof.
  exact (write_tmpfs_correct 3 9 0 5 65536 demo_state demo_state_wf ltac:(lia) ltac:(lia)
           ltac:(lia) ltac:(unfold BLOCKSIZE; lia) ltac:(unfold HIGH_MAP_REGION; lia)
           ltac:(vm_compute; lia) ltac:(vm_compute; discriminate)).
Defined.

(** [truncate_tmpfs] to a smaller size keeps the bytes below it and gives back
    exactly the frames past the last block that is left; to a larger size it keeps
    all bytes and the new ones are zero, unless the file ends at a block boundary and
    the new size is within the next block: then it writes through a null pointer. *)
Theorem truncate_tmpfs_correct `{!FrameAlloc} fuel node_atime size s :
  wf s → 0 ≤ size < 2 ^ 50 → block_count (file s) = blocks_for (flength (file s)) →
  (Z.to_nat (Z.max (block_count (file s)) (size / BLOCKSIZE)) + 1 < fuel)%nat →
  Z.of_nat (base.size (frames s)) + (size / BLOCKSIZE + 1 - block_count (file s)) ≤ Z.of_nat capacity →
  (size < flength (file s) →
   ∃ s', truncate_tmpfs fuel node_atime size s = Done (0, s') ∧ wf s' ∧ flength (file s') = size ∧
     (∀ i, 0 ≤ i < size → content (memory s') (file s') i = content (memory s) (file s) i) ∧
     (∀ b, b ∈ frames s' ↔ b ∈ frames s ∧ b ∉ drop (Z.to_nat (blocks_for size)) (fblocks (file s)))) ∧
  (flength (file s) < size →
   if decide (flength (file s) / BLOCKSIZE = size / BLOCKSIZE ∧ flength (file s) mod BLOCKSIZE = 0)
   then truncate_tmpfs fuel node_atime size s = Fault
   else ∃ s', truncate_tmpfs fuel node_atime size s = Done (0, s') ∧ wf s' ∧ flength (file s') = size ∧
     (∀ i, 0 ≤ i < flength (file s) → content (memory s') (file s') i = content (memory s) (file s) i) ∧
     (∀ i, flength (file s) ≤ i < size → content (memory s') (file s') i = 0)).
Proof.
  intros W Hs Ht Hf Hcap. pose proof (wfb_count s (wf_blocks s W)). split.
  - intros Hlt. destruct (truncate_shrink_spec fuel node_atime size s W ltac:(lia) Ht ltac:(lia))
      as (s' & E & W' & El & _ & _ & _ & Hc & Hfr). exists s'. done.
  - intros Hlt. case_decide as Hd.
    + apply truncate_boundary_spec; tauto || lia.
    + assert (flength (file s) / BLOCKSIZE ≠ size / BLOCKSIZE ∨ flength (file s) mod BLOCKSIZE ≠ 0)
        by (destruct (decide (flength (file s) / BLOCKSIZE = size / BLOCKSIZE)); tauto).
      destruct (truncate_grow_spec fuel node_atime size s W ltac:(lia) Ht ltac:(done) ltac:(lia) Hcap)
        as (s' & E & W' & El & _ & Hc & Hz). exists s'. done.
Qed.

Lemma truncate_tmpfs_correct_witness :
  truncate_tmpfs 4 9 100 demo_state = Fault ∧
  ∃ s', truncate_tmpfs 4 9 5000 demo_state = Done (0, s') ∧ wf s' ∧ flength (file s') = 5000 ∧
     (∀ i, 0 ≤ i < 0 → content (memory s') (file s') i = content demo_memory (file demo_state) i) ∧
     (∀ i, 0 ≤ i < 5000 → content (memory s') (file s') i = 0).
Proof.
  split.
  - exact (proj2 (truncate_tmpfs_correct 4 9 100 demo_state demo_state_wf ltac:(lia) ltac:(done)
             ltac:(vm_compute; lia) ltac:(vm_compute; discriminate)) ltac:(simpl; lia)).
  - exact (proj2 (truncate_tmpfs_correct 4 9 5000 demo_state demo_state_wf ltac:(lia) ltac:(done)
             ltac:(vm_compute; lia) ltac:(vm_compute; discriminate)) ltac:(simpl; lia)).
Defined.

(** A read that starts past the end of the file, in its last block, copies and
    returns [2^64] minus the distance to the end. *)
Theorem read_tmpfs_past_end `{!FrameAlloc} fuel now offset size buffer s :
  wf s → flength (file s) < offset → 0 ≤ size → offset + size < 2 ^ 63 → BLOCKSIZE ≤ buffer →
  offset / BLOCKSIZE = flength (file s) / BLOCKSIZE → offset / BLOCKSIZE < block_count (file s) →
  ∃ s', read_tmpfs fuel now offset size buffer s = Done (2 ^ 64 - (offset - flength (file s)), s').
Proof.
  intros [W Hl] Ho Hs Hsum Hb Hk Hbc.
  set (s0 := with_file s (with_times (file s) now (mtime (file s)))).
  assert (W0 : wfb s0) by (by destruct W).
  destruct (offset_split offset ltac:(lia)) as (Eq & Em & Erm & Eo & Hm & Hq).
  destruct (fblocks_some s0 (offset / BLOCKSIZE) W0) as [b Hblk]; [simpl; lia|].
  destruct (wfb_used s0 W0 b) as [_ Hr]; [by eapply list_elem_of_lookup_2|].
  unfold read_tmpfs. rewrite (St_bind_done _ _ s s s) by done. rewrite (St_bind_done _ _ s tt s0) by done.
  cbv zeta. rewrite (u64_small (offset + size)), Eq, Em, (u64_small offset) by lia.
  rewrite (proj2 (Z.ltb_lt (flength (file s)) (offset + size))) by lia.
  rewrite <-Hk, Z.eqb_refl, (proj2 (Z.eqb_neq offset (flength (file s)))) by lia. cbn [andb].
  rewrite (St_bind_done _ _ _ _ _ (getset_existing fuel (offset / BLOCKSIZE) b s0 W0 ltac:(simpl; lia) Hblk)).
  assert (u64 (flength (file s) - offset) = 2 ^ 64 - (offset - flength (file s))) as ->.
  { unfold u64. rewrite <-(Z.mod_add _ 1) by lia. rewrite Z.mod_small; lia. }
  unfold memcpy_at, null_page.
  rewrite (proj2 (Z.ltb_ge buffer _)), (proj2 (Z.ltb_ge (faddr b + _) _)), andb_false_r
    by (unfold faddr, BLOCKSIZE, HIGH_MAP_REGION in *; lia).
  eexists. done.
Qed.
