(* ===== verification/Tmpfs.v ===== *)
(** * Directories in tmpfs ([src/kernel/vfs/tmpfs.c])

    The files and directories of a tmpfs by address; a directory's list of entries is
    the sequence of the addresses it holds.  The operations on directories are
    translated whole: their searches, checks and error returns, and for [rename_tmpfs]
    every branch.  The blocks of a file are those of TmpfsFile.

    [wf] states that entries are live, that names in a directory are distinct and are
    proper names, and that nothing is listed twice; the theorems show what the
    operations do and that they keep it.  [tmpfs_fs] is the tmpfs as a file system of
    the VFS. *)
From S2P Require Import Prelude KString Vfs TmpfsFile.
Local Open Scope Z_scope.

(** ** Data *)

Record tmpfs_dir : Type := Dir {
  dname : list Z;
  dmask : Z;
  duid : Z;
  dgid : Z;
  datime : Z;
  dmtime : Z;
  dctime : Z;
  dmount : Z;
  files : list Z;
  dparent : Z
}.

(** What an entry points to: a file or symbolic link, or a directory.  The code tells
    them apart by the [type] field both structures start with. *)
Inductive entry : Type :=
  | EFile (f : tmpfs_file)
  | EDir (d : tmpfs_dir).

Record tmpfs : Type := Tmpfs {
  entries : gmap Z entry;
  (** frames given back by [tmpfs_file_free] *)
  released : list Z;
  clock : Z
}.

Definition ename (e : entry) : list Z :=
  match e with EFile f => name f | EDir d => dname d end.
Definition etype (e : entry) : Z :=
  match e with EFile f => type f | EDir _ => TMPFS_TYPE_DIR end.

Definition with_name (e : entry) (n : list Z) : entry :=
  match e with
  | EFile f => EFile (File n (type f) (TmpfsFile.mask f) (TmpfsFile.uid f) (TmpfsFile.gid f)
                 (atime f) (mtime f) (ctime f) (TmpfsFile.mount f) (flength f) (block_count f)
                 (pointers f) (blocks f) (target f))
  | EDir d => EDir (Dir n (dmask d) (duid d) (dgid d) (datime d) (dmtime d) (dctime d) (dmount d)
                 (files d) (dparent d))
  end.

Definition with_files (d : tmpfs_dir) (fs : list Z) : tmpfs_dir :=
  Dir (dname d) (dmask d) (duid d) (dgid d) (datime d) (dmtime d) (dctime d) (dmount d) fs (dparent d).

Definition set_entries (t : tmpfs) (es : gmap Z entry) : tmpfs := Tmpfs es (released t) (clock t).

Definition rd_entry (a : Z) : St tmpfs entry := λ t,
  match entries t !! a with Some e => Done (e, t) | None => Fault end.
Definition rd_dir (a : Z) : St tmpfs tmpfs_dir := λ t,
  match entries t !! a with Some (EDir d) => Done (d, t) | _ => Fault end.
Definition wr_entry (a : Z) (e : entry) : St tmpfs unit :=
  modify (λ t, set_entries t (<[a := e]> (entries t))).
Definition free_entry (a : Z) : St tmpfs unit :=
  modify (λ t, set_entries t (delete a (entries t))).

(** [foreach(f, d->files) if (!strcmp(name, t->name))]: the first entry of that name
    by the comparison [eq], with its position. *)
Fixpoint find_entry (eq : list Z → list Z → bool) (nm : list Z) (fs : list Z) (i : nat)
    : St tmpfs (option (nat * Z * entry)) :=
  match fs with
  | [] => mret None
  | a :: fs' =>
      e ← rd_entry a;
      if eq nm (ename e) then mret (Some (i, a, e)) else find_entry eq nm fs' (S i)
  end.

(** [!strcmp(a, b)]. *)
Definition streq (a b : list Z) : bool := strcmp_ref a b =? 0.

(** [!path_comp(a, b)]: equal up to the first separator of either. *)
Fixpoint path_comp (a b : list Z) : Z :=
  let stop (l : list Z) := match l with [] => true | c :: _ => c =? SEP end in
  match a, b with
  | x :: a', y :: b' =>
      if negb (x =? SEP) && negb (y =? SEP) then
        if negb (x =? y) then 1 else path_comp a' b'
      else if stop a && stop b then 0 else 1
  | _, _ => if stop a && stop b then 0 else 1
  end.

Definition patheq (a b : list Z) : bool := path_comp a b =? 0.

Definition endswith (s : list Z) (ch : Z) : bool :=
  bool_decide (1 < length s)%nat && bool_decide (last s = Some ch).

Definition path_dup (path : list Z) : list Z := take_while (λ c, negb (c =? SEP)) path.

Section Ops.
Context {ML : Malloc}.

(** Allocate an entry. *)
Definition new_entry (e : entry) : St tmpfs Z := λ t,
  let a := malloc (dom (entries t)) in
  Done (a, set_entries t (<[a := e]> (entries t))).

Definition now : St tmpfs Z := gets clock.

Definition tmpfs_dir_new (nm : list Z) (par mnt : Z) : St tmpfs tmpfs_dir :=
  n ← now; mret (Dir nm 0 0 0 n n n mnt [] par).

(** [spin_lock(d->lock); foreach ... if (!strcmp(name, t->name)) return -EEXIST]. *)
Definition exists_in (d : Z) (nm : list Z) : St tmpfs bool :=
  x ← rd_dir d;
  r ← find_entry streq nm (files x) 0;
  mret (match r with Some _ => true | None => false end).

Definition list_insert_entry (d a : Z) : St tmpfs unit :=
  x ← rd_dir d; wr_entry d (EDir (with_files x (files x ++ [a]))).

Definition create_tmpfs (parent : fs_node_t) (p : process_t) (nm : list Z) (permission : Z)
    : St tmpfs Z :=
  let d := inode parent in
  b ← exists_in d nm;
  if b : bool then mret (- EEXIST)
  else
    n ← now;
    let t := tmpfs_file_new nm n in
    a ← new_entry (EFile (File nm TMPFS_TYPE_FILE permission (user p) (user_group p) n n n
                     (Vfs.mount parent) (flength t) (block_count t) (pointers t) (blocks t) []));
    list_insert_entry d a;;
    mret 0.

Definition symlink_tmpfs (parent : fs_node_t) (p : process_t) (tgt nm : list Z) : St tmpfs Z :=
  let d := inode parent in
  b ← exists_in d nm;
  if b : bool then mret (- EEXIST)
  else
    n ← now;
    let t := tmpfs_file_new nm n in
    a ← new_entry (EFile (File nm TMPFS_TYPE_LINK 511 (user p) (user p) n n n (Vfs.mount parent)
                     (Z.of_nat (length tgt)) (block_count t) (pointers t) (blocks t) tgt));
    list_insert_entry d a;;
    mret 0.

Definition mkdir_tmpfs (parent : fs_node_t) (p : process_t) (nm : list Z) (permission : Z)
    : St tmpfs Z :=
  if bool_decide (nm = []) then mret (- EINVAL)
  else
    let d := inode parent in
    b ← exists_in d nm;
    if b : bool then mret (- EEXIST)
    else if negb (allowed p (Some parent) 2) || negb (allowed p (Some parent) 1) then mret (- EACCES)
    else
      x ← rd_dir d;
      o ← tmpfs_dir_new nm d (dmount x);
      a ← new_entry (EDir (Dir nm permission (user p) (user p) (datime o) (dmtime o) (dctime o)
                       (dmount o) [] d));
      list_insert_entry d a;;
      mret 0.

(** Whether a directory has entries, in which case it is not freed. *)
Definition try_free_dir (d : tmpfs_dir) : Z := truth (negb (bool_decide (files d = []))).

(** [tmpfs_file_free]: the frames of the file are given back. *)
Definition file_free (f : tmpfs_file) : St tmpfs unit :=
  modify (λ t, Tmpfs (entries t) (fblocks f ++ released t) (clock t)).

Definition unlink_tmpfs (node : fs_node_t) (nm : list Z) : St tmpfs Z :=
  let d := inode node in
  x ← rd_dir d;
  r ← find_entry streq nm (files x) 0;
  match r with
  | None => mret (- ENOENT)
  | Some (i, a, e) =>
      let busy := match e with EDir sub => negb (try_free_dir sub =? 0) | EFile _ => false end in
      if busy then mret (- ENOTEMPTY)
      else
        match e with EFile f => file_free f | EDir _ => mret tt end;;
        free_entry a;;
        x ← rd_dir d;
        wr_entry d (EDir (with_files x (delete i (files x))));;
        mret 0
  end.

(** The walk up the parent directories in [rename_tmpfs]: is [src] one of them? *)
Fixpoint is_ancestor (fuel : nat) (src pd : Z) : St tmpfs bool :=
  match fuel with
  | O => λ _, Timeout
  | S f => if pd =? NULL then mret false
           else if pd =? src then mret true
           else d ← rd_dir pd; is_ancestor f src (dparent d)
  end.

Definition rename_tmpfs (fuel : nat) (src_dir : fs_node_t) (src_name : list Z)
    (dest_dir : fs_node_t) (dest_name : list Z) : St tmpfs Z :=
  let ds := inode src_dir in
  let dd := inode dest_dir in
  xs ← rd_dir ds;
  r ← find_entry patheq src_name (files xs) 0;
  match r with
  | None => mret (- ENOENT)
  | Some (si, src_file, se) =>
      if negb (etype se =? TMPFS_TYPE_DIR) && endswith src_name SEP then mret (- ENOTDIR)
      else
        xd ← rd_dir dd;
        r ← find_entry patheq dest_name (files xd) 0;
        let bad_dest := match r with
                        | Some (_, _, de) => negb (etype de =? TMPFS_TYPE_DIR) && endswith dest_name SEP
                        | None => false
                        end in
        if bad_dest then mret (- ENOTDIR)
        else
          anc ← (if etype se =? TMPFS_TYPE_DIR then is_ancestor fuel src_file dd else mret false);
          if anc : bool then mret (- EINVAL)
          else match r with
          | None =>
              if endswith dest_name SEP && negb (etype se =? TMPFS_TYPE_DIR) then mret (- ENOTDIR)
              else
                wr_entry src_file (with_name se (path_dup dest_name));;
                list_insert_entry dd src_file;;
                x ← rd_dir ds;
                wr_entry ds (EDir (with_files x (delete si (files x))));;
                mret 0
          | Some (di, dest_file, de) =>
              if src_file =? dest_file then mret 0
              else
                let err :=
                  match de with
                  | EDir dest => if negb (bool_decide (files dest = [])) then - ENOTEMPTY
                                 else if negb (etype se =? TMPFS_TYPE_DIR) then - EISDIR else 0
                  | EFile _ => if etype se =? TMPFS_TYPE_DIR then - ENOTDIR else 0
                  end in
                if negb (err =? 0) then mret err
                else
                  wr_entry src_file (with_name se (path_dup dest_name));;
                  (* list_delete(ds->files, src_node); dest_node->value = src_file: the list
                     node of the destination, wherever it is after the deletion *)
                  x ← rd_dir ds;
                  wr_entry ds (EDir (with_files x (delete si (files x))));;
                  x ← rd_dir dd;
                  let di' := if (dd =? ds) && bool_decide (si < di)%nat then (di - 1)%nat else di in
                  wr_entry dd (EDir (with_files x (<[di' := src_file]> (files x))));;
                  match de with EFile f => file_free f | EDir _ => mret tt end;;
                  mret 0
          end
  end.

(** ** Nodes *)

Definition tmpfs_from_file (a : Z) (f : tmpfs_file) : fs_node_t :=
  FsNode (TmpfsFile.mount f) (TmpfsFile.mask f) (TmpfsFile.uid f) (TmpfsFile.gid f) FS_FILE a 0.

Definition tmpfs_from_link (a : Z) (f : tmpfs_file) : fs_node_t :=
  FsNode (TmpfsFile.mount f) (TmpfsFile.mask f) (TmpfsFile.uid f) (TmpfsFile.gid f)
    (Z.lor FS_FILE FS_SYMLINK) a 0.

Definition tmpfs_from_dir (a : Z) (d : tmpfs_dir) : fs_node_t :=
  FsNode (dmount d) (dmask d) (duid d) (dgid d) FS_DIRECTORY a 0.

Definition finddir_tmpfs (node : fs_node_t) (nm : list Z) : St tmpfs (option fs_node_t) :=
  x ← rd_dir (inode node);
  r ← find_entry streq nm (files x) 0;
  mret (match r with
        | None => None
        | Some (_, a, EFile f) =>
            if type f =? TMPFS_TYPE_FILE then Some (tmpfs_from_file a f)
            else if type f =? TMPFS_TYPE_LINK then Some (tmpfs_from_link a f)
            else None
        | Some (_, a, EDir d) => Some (tmpfs_from_dir a d)
        end).

(** The name and inode of the entry at a position; [.] and [..] come first. *)
Definition readdir_tmpfs (node : fs_node_t) (index : Z) : St tmpfs (option (Z * list Z)) :=
  if index =? 0 then mret (Some (0, PATH_DOT))
  else if index =? 1 then mret (Some (0, PATH_UP))
  else
    x ← rd_dir (inode node);
    let index := u64 (index - 2) in
    if Z.of_nat (length (files x)) <=? index then mret None
    else match files x !! Z.to_nat index with
         | None => mret None
         | Some a => e ← rd_entry a; mret (Some (a, ename e))
         end.

Definition readlink_tmpfs (node : fs_node_t) (size : Z) : St tmpfs (Z * list Z) :=
  e ← rd_entry (inode node);
  match e with
  | EDir _ => mret (-1, [])
  | EFile t =>
      if negb (type t =? TMPFS_TYPE_LINK) then mret (-1, [])
      else if size =? 0 then fault (* memcpy(buf, t->target, (size_t)-1) *)
      else if size <? Z.of_nat (length (target t)) + 1 then
        mret (size - 2, take (Z.to_nat (size - 1)) (target t) ++ [0])
      else mret (Z.of_nat (length (target t)), target t ++ [0])
  end.

(** The mount point has the address of the root directory. *)
Definition tmpfs_create (nm : list Z) : St tmpfs fs_node_t :=
  n ← now;
  a ← new_entry (EDir (Dir nm 511 0 0 n n n NULL [] NULL));
  x ← rd_dir a;
  wr_entry a (EDir (Dir (dname x) (dmask x) (duid x) (dgid x) (datime x) (dmtime x) (dctime x) a
                      (files x) (dparent x)));;
  mret (FsNode a 511 0 0 FS_DIRECTORY a 0).
End Ops.

(** ** Listings *)

Definition name_of (t : tmpfs) (a : Z) : list Z := default [] (ename <$> entries t !! a).

(** [a] is an entry of the directory [d]. *)
Definition listed (t : tmpfs) (d a : Z) : Prop :=
  ∃ x, entries t !! d = Some (EDir x) ∧ a ∈ files x.

Definition valid_name (n : list Z) : Prop := Forall (λ c, 0 < c < 256) n ∧ SEP ∉ n.

Record wf (t : tmpfs) : Prop := {
  wf_live : ∀ d a, listed t d a → is_Some (entries t !! a);
  wf_nodup : ∀ d x, entries t !! d = Some (EDir x) → NoDup (files x);
  wf_one : ∀ d d' a, listed t d a → listed t d' a → d = d';
  wf_names : ∀ d a b, listed t d a → listed t d b → name_of t a = name_of t b → a = b;
  wf_valid : ∀ d a, listed t d a → valid_name (name_of t a);
  wf_irrefl : ∀ d a, listed t d a → a ≠ d;
  wf_null : entries t !! NULL = None;
  wf_kind : ∀ a f, entries t !! a = Some (EFile f) → type f = TMPFS_TYPE_FILE ∨ type f = TMPFS_TYPE_LINK
}.

(** The entry of a given name in a directory. *)
Definition dir_lookup (t : tmpfs) (d : Z) (n : list Z) : option Z :=
  match entries t !! d with
  | Some (EDir x) => snd <$> list.list_find (λ a, name_of t a = n) (files x)
  | _ => None
  end.

Lemma dir_lookup_Some t d n a :
  wf t → dir_lookup t d n = Some a ↔ listed t d a ∧ name_of t a = n.
Proof.
  intros W. unfold dir_lookup, listed. split.
  - destruct (entries t !! d) as [[f|x]|]; try done.
    intros ([i b] & E & ->)%fmap_Some. apply list_find_Some in E as (Hl & Hn & _). simpl.
    split; [|done]. exists x. split; [done|]. by eapply list_elem_of_lookup_2.
  - intros [(x & Hx & Ha) Hn]. rewrite Hx.
    destruct (list_find_elem_of (λ a, name_of t a = n) (files x) a Ha Hn) as [[i b] E].
    rewrite E. simpl. f_equal. apply list_find_Some in E as (Hl & Hb & _).
    apply (wf_names t W d); [|by exists x|congruence].
    exists x. split; [done|]. by eapply list_elem_of_lookup_2.
Qed.

Lemma option_Z_eq (o1 o2 : option Z) : (∀ a, o1 = Some a ↔ o2 = Some a) → o1 = o2.
Proof.
  intros H. destruct o1 as [a|]; [symmetry; by apply H|]. destruct o2 as [b|]; [|done]. by apply H.
Qed.

(** A tree after the entries [X] were taken out and, if [ins] is [(d, s)], [s] was put
    in [d] under the name [n]. *)
Record relisted (t t' : tmpfs) (X : list Z) (ins : option (Z * Z)) (n : list Z) : Prop := {
  re_listed : ∀ d a, listed t' d a ↔ (listed t d a ∧ a ∉ X) ∨ ins = Some (d, a);
  re_live : ∀ a, is_Some (entries t !! a) → a ∉ X → is_Some (entries t' !! a);
  re_live_s : ∀ d s, ins = Some (d, s) → is_Some (entries t' !! s);
  re_nodup : ∀ d x, entries t' !! d = Some (EDir x) → NoDup (files x);
  re_null : entries t' !! NULL = None;
  re_kind : ∀ a f, entries t' !! a = Some (EFile f) → type f = TMPFS_TYPE_FILE ∨ type f = TMPFS_TYPE_LINK;
  re_names : ∀ d a, listed t d a → a ∉ X → name_of t' a = name_of t a;
  re_name_s : ∀ d s, ins = Some (d, s) → name_of t' s = n
}.

(** What may be put in a directory: not the directory itself, under a proper name no
    entry that stays has, and no entry of a directory that is not taken out. *)
Definition fits (t : tmpfs) (X : list Z) (ins : option (Z * Z)) (n : list Z) : Prop :=
  ∀ d s, ins = Some (d, s) →
    s ≠ d ∧ valid_name n ∧ (∀ d', listed t d' s → s ∈ X) ∧ (∀ a, listed t d a → name_of t a = n → a ∈ X).

Lemma relisted_keeps t t' X ins n : wf t → relisted t t' X ins n → fits t X ins n → wf t'.
Proof.
  intros W [Rl Rv Rs Rn R0 Rk Rm Rx] Hf. split.
  - intros d a [[H Hx]| ->]%Rl; [|by eapply Rs]. apply Rv; [|done]. by eapply wf_live.
  - done.
  - intros d d' a [[H Hx]|E]%Rl [[H' Hx']|E']%Rl; [by eapply wf_one| | |congruence].
    + exfalso. apply (Hf _ _ E') in H; naive_solver.
    + exfalso. apply (Hf _ _ E) in H'; naive_solver.
  - intros d a b [[H Hx]|E]%Rl [[H' Hx']|E']%Rl; [| | |congruence].
    + rewrite (Rm d a), (Rm d b) by done. by eapply wf_names.
    + rewrite (Rm d a), (Rx _ _ E') by done. intros Hn. exfalso.
      destruct (Hf _ _ E') as (_ & _ & _ & Hc). naive_solver.
    + rewrite (Rm d b), (Rx _ _ E) by done. intros Hn. exfalso.
      destruct (Hf _ _ E) as (_ & _ & _ & Hc). naive_solver.
  - intros d a [[H Hx]|E]%Rl; [rewrite (Rm d a) by done; by eapply wf_valid|].
    rewrite (Rx _ _ E). by eapply Hf.
  - intros d a [[H Hx]|E]%Rl; [by eapply wf_irrefl|]. by eapply Hf.
  - done.
  - done.
Qed.

(** The directories after such a change. *)
Definition relookup (t : tmpfs) (X : list Z) (ins : option (Z * Z)) (n : list Z) (d : Z) (m : list Z) : option Z :=
  match ins with
  | Some (dd, s) => if decide (d = dd ∧ m = n) then Some s
                    else a ← dir_lookup t d m; if decide (a ∈ X) then None else Some a
  | None => a ← dir_lookup t d m; if decide (a ∈ X) then None else Some a
  end.

Lemma stays t (X : list Z) d m a : wf t →
  (b ← dir_lookup t d m; if decide (b ∈ X) then None else Some b) = Some a ↔
  (listed t d a ∧ a ∉ X) ∧ name_of t a = m.
Proof.
  intros W. rewrite bind_Some. setoid_rewrite (λ b, dir_lookup_Some t d m b W). split.
  - intros (b & [Hl Hn] & E). case_decide; naive_solver.
  - intros [[Hl Hx] Hn]. exists a. split; [done|]. by rewrite decide_False.
Qed.

Lemma relisted_wf t t' X ins n :
  wf t → relisted t t' X ins n → fits t X ins n →
  wf t' ∧ ∀ d m, dir_lookup t' d m = relookup t X ins n d m.
Proof.
  intros W R Hf. pose proof (relisted_keeps _ _ _ _ _ W R Hf) as W'. split; [done|].
  destruct R as [Rl Rv Rs Rn R0 Rk Rm Rx].
  assert (Hst : ∀ d m a, (listed t d a ∧ a ∉ X) ∧ name_of t' a = m ↔
    (b ← dir_lookup t d m; if decide (b ∈ X) then None else Some b) = Some a).
  { intros d m a. rewrite stays by done. split; intros [[H Hx] Hn]; (split; [done|]).
    - by rewrite (Rm d a) in Hn. - by rewrite (Rm d a). }
  intros d m. apply option_Z_eq. intros a. rewrite (dir_lookup_Some t' d m a W'), Rl.
  unfold relookup. destruct ins as [[dd s]|]; [|rewrite <-Hst; naive_solver].
  destruct (Hf dd s eq_refl) as (Hne & Hv & Hs & Hc). specialize (Rx dd s eq_refl).
  case_decide as Hd; [destruct Hd as [-> ->]|rewrite <-Hst].
  - split; [|intros [= ->]; by split; [right|]].
    intros [[[H Hx]|[= ->]] Hn]; [|done]. rewrite (Rm dd a) in Hn by done. exfalso. naive_solver.
  - split; [|naive_solver]. intros [[H|[= -> ->]] Hn]; [done|]. exfalso. naive_solver.
Qed.

(** ** Searching a directory *)

Lemma find_entry_spec eq n fs i t :
  Forall (λ a, is_Some (entries t !! a)) fs →
  ∃ r, find_entry eq n fs i t = Done (r, t) ∧
    match r with
    | Some (j, a, e) => (i ≤ j)%nat ∧ fs !! (j - i)%nat = Some a ∧ entries t !! a = Some e ∧ eq n (ename e) = true
    | None => ∀ a, a ∈ fs → eq n (name_of t a) = false
    end.
Proof.
  intros Hl. revert i. induction Hl as [|a fs [e He] Hl IH]; intros i; simpl.
  { exists None. split; [done|]. set_solver. }
  unfold mbind, St_bind, rd_entry. rewrite He. destruct (eq n (ename e)) eqn:E.
  - exists (Some (i, a, e)). split; [done|]. rewrite Nat.sub_diag. split_and!; done || lia.
  - destruct (IH (S i)) as (r & -> & Hr). exists r. split; [done|].
    destruct r as [[[j b] f]|].
    + destruct Hr as (Hj & Hb & Hf & Ef). split_and!; [lia| |done|done].
      replace (j - i)%nat with (S (j - S i)) by lia. done.
    + intros b [->|Hb]%elem_of_cons; [|by apply Hr]. unfold name_of. by rewrite He.
Qed.

Lemma streq_eq a b :
  Forall (λ c, 0 < c < 256) a → Forall (λ c, 0 < c < 256) b → streq a b = true ↔ a = b.
Proof. intros Ha Hb. unfold streq. rewrite Z.eqb_eq. by apply strcmp_ref_0. Qed.

(** [path_comp] against a proper name compares the part before the separator. *)
Lemma patheq_eq a b : SEP ∉ b → patheq a b = true ↔ path_dup a = b.
Proof.
  unfold patheq. rewrite Z.eqb_eq. unfold path_dup. revert b. induction a as [|x a IH]; intros b Hb.
  - destruct b as [|y b]; simpl; [done|]. rewrite (proj2 (Z.eqb_neq y SEP)) by set_solver. simpl. split; done.
  - destruct b as [|y b]; simpl.
    + rewrite andb_true_r. destruct (x =? SEP); simpl; (split; done).
    + rewrite (proj2 (Z.eqb_neq y SEP)) by set_solver. destruct (x =? SEP) eqn:Ex; simpl; [split; done|].
      destruct (Z.eqb_spec x y) as [->|Hne]; simpl; [|split; [done|congruence]].
      rewrite (IH b) by set_solver. naive_solver.
Qed.

Lemma path_dup_no_sep a : SEP ∉ path_dup a.
Proof.
  intros H. pose proof (take_while_all (λ c, negb (c =? SEP)) a) as Ha. rewrite Forall_forall in Ha.
  specialize (Ha SEP H). by rewrite Z.eqb_refl in Ha.
Qed.

(** The search of a directory of a well-formed tree, by either comparison. *)
Lemma find_in_dir eq n key t d x :
  wf t → entries t !! d = Some (EDir x) →
  (∀ b, valid_name b → eq n b = true ↔ b = key) →
  ∃ r, find_entry eq n (files x) 0 t = Done (r, t) ∧
    match r with
    | Some (j, a, e) => files x !! j = Some a ∧ entries t !! a = Some e ∧ ename e = key ∧
        listed t d a ∧ dir_lookup t d key = Some a
    | None => dir_lookup t d key = None
    end.
Proof.
  intros W Hx Heq.
  assert (Hin : ∀ a, a ∈ files x → listed t d a) by (intros a Ha; by exists x).
  destruct (find_entry_spec eq n (files x) 0 t) as (r & E & Hr).
  { apply Forall_forall. intros a Ha. by eapply wf_live, Hin. }
  exists r. split; [done|]. destruct r as [[[j a] e]|].
  - destruct Hr as (_ & Hj & He & Hn). rewrite Nat.sub_0_r in Hj.
    assert (Ha : listed t d a) by (by eapply Hin, list_elem_of_lookup_2).
    assert (name_of t a = ename e) as Ena by (unfold name_of; by rewrite He).
    assert (ename e = key) as Ek. { apply Heq; [|done]. rewrite <-Ena. by eapply wf_valid. }
    split_and!; try done. apply dir_lookup_Some; [done|]. split; [done|congruence].
  - destruct (dir_lookup t d key) as [a|] eqn:El; [|done].
    apply (dir_lookup_Some t d key a W) in El as [(x' & Hx' & Ha) Hn].
    assert (x' = x) as -> by congruence. specialize (Hr a Ha).
    assert (eq n (name_of t a) = true); [|congruence]. apply Heq; [by eapply wf_valid, Hin|done].
Qed.

(** ** New entries *)

(** A fresh entry without children. *)
Definition childless (e : entry) : Prop :=
  match e with
  | EFile f => type f = TMPFS_TYPE_FILE ∨ type f = TMPFS_TYPE_LINK
  | EDir d => files d = []
  end.

Definition add_entry (t : tmpfs) (d : Z) (x : tmpfs_dir) (a : Z) (e : entry) : tmpfs :=
  set_entries t (<[d := EDir (with_files x (files x ++ [a]))]> (<[a := e]> (entries t))).

Lemma add_entry_relisted t d x a e :
  wf t → entries t !! d = Some (EDir x) → entries t !! a = None → a ≠ NULL → childless e →
  relisted t (add_entry t d x a e) [] (Some (d, a)) (ename e).
Proof.
  intros W Hx Ha Hnull He. assert (Hne : a ≠ d) by congruence.
  assert (Hna : ∀ d', ¬ listed t d' a) by (intros d' H%(wf_live t W); destruct H; congruence).
  assert (Hother : ∀ b, b ≠ a → b ≠ d → entries (add_entry t d x a e) !! b = entries t !! b)
    by (intros; simpl; by rewrite !lookup_insert_ne).
  assert (Hd : entries (add_entry t d x a e) !! d = Some (EDir (with_files x (files x ++ [a]))))
    by (simpl; by rewrite lookup_insert_eq).
  assert (Hae : entries (add_entry t d x a e) !! a = Some e)
    by (simpl; by rewrite lookup_insert_ne, lookup_insert_eq by done).
  split.
  - intros d' b. unfold listed. split.
    + intros (y & Hy & Hb). destruct (decide (d' = d)) as [->|Hd'].
      * rewrite Hd in Hy. injection Hy as <-. simpl in Hb. set_solver.
      * destruct (decide (d' = a)) as [->|Hda].
        -- rewrite Hae in Hy. injection Hy as ->. simpl in He. rewrite He in Hb. set_solver.
        -- rewrite Hother in Hy by done. left. split; [by exists y|set_solver].
    + intros [[(y & Hy & Hb) _]|[= <- <-]].
      * destruct (decide (d' = d)) as [->|Hd'].
        -- eexists. split; [done|]. simpl. assert (y = x) as -> by congruence. set_solver.
        -- exists y. rewrite Hother; [done| |done]. congruence.
      * eexists. split; [done|]. simpl. set_solver.
  - intros b Hb _. simpl. by apply lookup_insert_is_Some', or_intror, lookup_insert_is_Some', or_intror.
  - intros ? ? [= <- <-]. by rewrite Hae.
  - intros d' y Hy. destruct (decide (d' = d)) as [->|Hd'].
    + rewrite Hd in Hy. injection Hy as <-. simpl. apply NoDup_app. split_and!; [by eapply wf_nodup| |apply NoDup_singleton].
      intros b Hb ->%list_elem_of_singleton. apply (Hna d). by exists x.
    + destruct (decide (d' = a)) as [->|Hda].
      * rewrite Hae in Hy. injection Hy as ->. simpl in He. rewrite He. apply NoDup_nil_2.
      * rewrite Hother in Hy by done. by eapply wf_nodup.
  - rewrite Hother; [by apply wf_null|done|]. intros <-. by rewrite (wf_null t W) in Hx.
  - intros b f Hb. destruct (decide (b = d)) as [->|Hbd]; [congruence|].
    destruct (decide (b = a)) as [->|Hba]; [|rewrite Hother in Hb by done; by eapply wf_kind].
    rewrite Hae in Hb. by injection Hb as ->.
  - intros d' b Hl _. unfold name_of. destruct (decide (b = d)) as [->|Hbd].
    + by rewrite Hd, Hx.
    + rewrite Hother; [done| |done]. intros ->. by apply (Hna d').
  - intros ? ? [= <- <-]. unfold name_of. by rewrite Hae.
Qed.

Section New.
Context {ML : Malloc}.

Lemma exists_in_spec t d x nm :
  wf t → entries t !! d = Some (EDir x) → Forall (λ c, 0 < c < 256) nm →
  exists_in d nm t = Done (bool_decide (is_Some (dir_lookup t d nm)), t).
Proof.
  intros W Hx Hn. destruct (find_in_dir streq nm nm t d x W Hx) as (r & E & Hr).
  { intros b [Hb _]. rewrite streq_eq by done. split; congruence. }
  unfold exists_in, rd_dir, mbind, St_bind. rewrite Hx, E. destruct r as [[[j a] e]|].
  - destruct Hr as (_ & _ & _ & _ & ->). done.
  - rewrite Hr. done.
Qed.

(** The address of a new entry and the tree it is added to. *)
Definition added (t t' : tmpfs) (d : Z) (nm : list Z) (e : entry) : Prop :=
  ∃ a, entries t !! a = None ∧ a ≠ NULL ∧ entries t' !! a = Some e ∧ wf t' ∧
    (∀ d' m, dir_lookup t' d' m = if decide (d' = d ∧ m = nm) then Some a else dir_lookup t d' m) ∧
    (∀ b, b ≠ a → b ≠ d → entries t' !! b = entries t !! b).

Lemma new_entry_added t d x e nm :
  wf t → entries t !! d = Some (EDir x) → childless e → valid_name nm → ename e = nm →
  dir_lookup t d nm = None →
  ∃ t', (a ← new_entry e; list_insert_entry d a;; mret 0) t = Done (0, t') ∧ added t t' d nm e.
Proof.
  intros W Hx He Hv <- Hl. set (a := malloc (dom (entries t))).
  assert (Ha : entries t !! a = None) by (apply not_elem_of_dom, malloc_fresh).
  assert (Hne : a ≠ d) by congruence.
  exists (add_entry t d x a e). split.
  { unfold new_entry, list_insert_entry, rd_dir, wr_entry, mbind, St_bind, modify. simpl. fold a.
    by rewrite lookup_insert_ne, Hx by done. }
  destruct (relisted_wf _ _ _ _ _ W (add_entry_relisted t d x a e W Hx Ha (malloc_nonnull _) He)) as [W' Hlk].
  { intros ? ? [= <- <-]. split_and!; [done|done| |].
    - intros d' H%(wf_live t W). destruct H; congruence.
    - intros b Hb Hn. exfalso. assert (dir_lookup t d (ename e) = Some b); [|congruence].
      by apply dir_lookup_Some. }
  exists a. split_and!; [done|apply malloc_nonnull| |done| |].
  - simpl. by rewrite lookup_insert_ne, lookup_insert_eq by done.
  - intros d' m. rewrite Hlk. unfold relookup. case_decide; [done|].
    destruct (dir_lookup t d' m); done.
  - intros b Hb Hd. simpl. by rewrite !lookup_insert_ne by done.
Qed.

(** The inode a new file or link starts as. *)
Definition new_file (nm : list Z) (ty mask u g n mnt len : Z) (tgt : list Z) : tmpfs_file :=
  let t := tmpfs_file_new nm n in
  File nm ty mask u g n n n mnt len (block_count t) (pointers t) (blocks t) tgt.

(** Creating a file, a symbolic link or a directory in a tmpfs directory.  An
    existing name gives [-EEXIST], an empty directory name [-EINVAL] and missing
    permissions [-EACCES], all without a change; otherwise the call returns 0, the new
    entry stands at an address that was free, has the documented contents and owner, is
    what its name is bound to, and nothing else in any directory changes; the tree stays
    well-formed. *)
Theorem tmpfs_new_entries_correct t parent x p nm permission tgt :
  wf t → entries t !! inode parent = Some (EDir x) → valid_name nm →
  let d := inode parent in
  match dir_lookup t d nm with
  | Some _ => create_tmpfs parent p nm permission t = Done (- EEXIST, t) ∧
              symlink_tmpfs parent p tgt nm t = Done (- EEXIST, t) ∧
              mkdir_tmpfs parent p nm permission t =
                Done (if decide (nm = []) then - EINVAL else - EEXIST, t)
  | None =>
      (∃ t', create_tmpfs parent p nm permission t = Done (0, t') ∧
        added t t' d nm (EFile (new_file nm TMPFS_TYPE_FILE permission (user p) (user_group p) (clock t)
                           (Vfs.mount parent) 0 []))) ∧
      (∃ t', symlink_tmpfs parent p tgt nm t = Done (0, t') ∧
        added t t' d nm (EFile (new_file nm TMPFS_TYPE_LINK 511 (user p) (user p) (clock t)
                           (Vfs.mount parent) (Z.of_nat (length tgt)) tgt))) ∧
      (if decide (nm = []) then mkdir_tmpfs parent p nm permission t = Done (- EINVAL, t)
       else if allowed p (Some parent) 2 && allowed p (Some parent) 1 then
         ∃ t', mkdir_tmpfs parent p nm permission t = Done (0, t') ∧
           added t t' d nm (EDir (Dir nm permission (user p) (user p) (clock t) (clock t) (clock t)
                              (dmount x) [] d))
       else mkdir_tmpfs parent p nm permission t = Done (- EACCES, t))
  end.
Proof.
  intros W Hx Hv d. pose proof (exists_in_spec t d x nm W Hx (proj1 Hv)) as Hex.
  unfold create_tmpfs, symlink_tmpfs, mkdir_tmpfs. fold d.
  destruct (dir_lookup t d nm) as [b|] eqn:El.
  - split_and!; [| |case_decide; [by rewrite bool_decide_true|rewrite bool_decide_false by done]];
      unfold mbind, St_bind; rewrite Hex; done.
  - assert (Hmk : ∀ e, childless e → ename e = nm →
      ∃ t', (a ← new_entry e; list_insert_entry d a;; mret 0) t = Done (0, t') ∧ added t t' d nm e)
      by (intros; by eapply new_entry_added).
    split_and!.
    + match goal with |- ∃ t', _ ∧ added _ _ _ _ ?e => destruct (Hmk e) as (t' & E & A) end; [by left|done|].
      exists t'. split; [|exact A]. rewrite <-E.
      unfold mbind at 1, St_bind at 1. by rewrite Hex.
    + match goal with |- ∃ t', _ ∧ added _ _ _ _ ?e => destruct (Hmk e) as (t' & E & A) end; [by right|done|].
      exists t'. split; [|exact A]. rewrite <-E.
      unfold mbind at 1, St_bind at 1. by rewrite Hex.
    + case_decide; [by rewrite bool_decide_true|rewrite bool_decide_false by done].
      destruct (allowed p (Some parent) 2 && allowed p (Some parent) 1) eqn:Ep.
      * apply andb_true_iff in Ep as [E1 E2].
        edestruct (Hmk (EDir (Dir nm permission (user p) (user p) (clock t) (clock t) (clock t) (dmount x) [] d)))
          as (t' & E & A); [done|done|]. exists t'. split; [|exact A]. rewrite <-E.
        unfold mbind at 1, St_bind at 1. rewrite Hex, E1, E2. simpl.
        unfold mbind at 1, St_bind at 1, rd_dir at 1. change (inode parent) with d in Hx. by rewrite Hx.
      * unfold mbind at 1, St_bind at 1. rewrite Hex. simpl.
        apply andb_false_iff in Ep as [-> | ->]; simpl; [done|by rewrite orb_true_r].
Qed.
End New.

(** ** Taking entries out and moving them *)

Lemma delete_elem (l : list Z) i a :
  NoDup l → l !! i = Some a → NoDup (delete i l) ∧ ∀ b, b ∈ delete i l ↔ b ∈ l ∧ b ≠ a.
Proof.
  intros Hn Hi. rewrite delete_take_drop. pose proof (take_drop_middle l i a Hi) as E.
  rewrite <-E in Hn. apply NoDup_app in Hn as (H1 & H2 & [H3 H4]%NoDup_cons).
  split; [apply NoDup_app; set_solver|]. intros b. rewrite <-E at 3. set_solver.
Qed.

Lemma replace_elem (l : list Z) i a s :
  NoDup l → l !! i = Some a → s ∉ l →
  NoDup (<[i := s]> l) ∧ ∀ b, b ∈ <[i := s]> l ↔ (b ∈ l ∧ b ≠ a) ∨ b = s.
Proof.
  intros Hn Hi Hs. pose proof (take_drop_middle l i a Hi) as E.
  rewrite insert_take_drop by (by eapply lookup_lt_Some).
  rewrite <-E in Hn, Hs. apply NoDup_app in Hn as (H1 & H2 & [H3 H4]%NoDup_cons).
  split; [apply NoDup_app; split_and!; [done|set_solver|apply NoDup_cons; set_solver]|].
  intros b. rewrite <-E at 3. set_solver.
Qed.

(** An entry leaves the tree. *)
Lemma removed_relisted t t' d x i a :
  wf t → entries t !! d = Some (EDir x) → files x !! i = Some a →
  (∀ y, entries t !! a = Some (EDir y) → files y = []) →
  entries t' = <[d := EDir (with_files x (delete i (files x)))]> (delete a (entries t)) →
  relisted t t' [a] None [].
Proof.
  intros W Hx Hi Hempty E.
  assert (Hl : listed t d a) by (exists x; split; [done|by eapply list_elem_of_lookup_2]).
  destruct (delete_elem (files x) i a) as [Hnd Hdel]; [by eapply wf_nodup|done|].
  pose proof (wf_irrefl t W d a Hl) as Hne.
  assert (Hd : entries t' !! d = Some (EDir (with_files x (delete i (files x)))))
    by (by rewrite E, lookup_insert_eq).
  assert (Ho : ∀ b, b ≠ d → b ≠ a → entries t' !! b = entries t !! b)
    by (intros; by rewrite E, lookup_insert_ne, lookup_delete_ne).
  assert (Ha : entries t' !! a = None) by (by rewrite E, lookup_insert_ne, lookup_delete_eq by done).
  split; [|..|done].
  - intros d' b. unfold listed. destruct (decide (d' = d)) as [->|Hd'].
    + rewrite Hd, Hx. split.
      * intros (y & [= <-] & Hb). simpl in Hb. apply Hdel in Hb. left. split; [exists x|]; set_solver.
      * intros [[(y & [= <-] & Hb) Hba]|?]; [|done]. eexists. split; [done|]. simpl. apply Hdel. set_solver.
    + destruct (decide (d' = a)) as [->|Hda].
      * rewrite Ha. split; [naive_solver|]. intros [[(y & Hy & Hb) _]|?]; [|done].
        rewrite (Hempty y Hy) in Hb. set_solver.
      * rewrite Ho by done. split; [|naive_solver]. intros (y & Hy & Hb). left. split; [by exists y|].
        intros ->%list_elem_of_singleton. apply Hd'. apply (wf_one t W d' d a); [by exists y|done].
  - intros b Hb Hba. destruct (decide (b = d)) as [->|?]; [by rewrite Hd|]. rewrite Ho; set_solver.
  - done.
  - intros d' y Hy. destruct (decide (d' = d)) as [->|Hd']; [rewrite Hd in Hy; by injection Hy as <-|].
    destruct (decide (d' = a)) as [->|Hda]; [congruence|]. rewrite Ho in Hy by done. by eapply wf_nodup.
  - destruct (decide (NULL = a)) as [->|?]; [done|]. rewrite Ho; [by apply wf_null| |done].
    intros <-. by rewrite (wf_null t W) in Hx.
  - intros b f Hb. destruct (decide (b = d)) as [->|?]; [congruence|].
    destruct (decide (b = a)) as [->|?]; [congruence|]. rewrite Ho in Hb by done. by eapply wf_kind.
  - intros d' b Hb Hba. unfold name_of. destruct (decide (b = d)) as [->|?]; [by rewrite Hd, Hx|].
    rewrite Ho; set_solver.
Qed.

(** Unlinking.  A missing name gives [-ENOENT] and a directory with entries
    [-ENOTEMPTY], both without a change; otherwise the call returns 0, the entry is
    freed (a file's blocks go back to the frame allocator), its name is unbound, nothing
    else in any directory changes and the tree stays well-formed. *)
Theorem unlink_tmpfs_correct t node x nm :
  wf t → entries t !! inode node = Some (EDir x) → Forall (λ c, 0 < c < 256) nm →
  let d := inode node in
  match dir_lookup t d nm with
  | None => unlink_tmpfs node nm t = Done (- ENOENT, t)
  | Some a =>
      match entries t !! a with
      | Some (EDir (Dir _ _ _ _ _ _ _ _ (_ :: _) _)) => unlink_tmpfs node nm t = Done (- ENOTEMPTY, t)
      | Some e =>
          ∃ t', unlink_tmpfs node nm t = Done (0, t') ∧ wf t' ∧ entries t' !! a = None ∧
            released t' = match e with EFile f => fblocks f ++ released t | EDir _ => released t end ∧
            (∀ d' m, dir_lookup t' d' m = if decide (d' = d ∧ m = nm) then None else dir_lookup t d' m) ∧
            (∀ b, b ≠ a → b ≠ d → entries t' !! b = entries t !! b)
      | None => False
      end
  end.
Proof.
  intros W Hx Hn d. change (inode node) with d in Hx.
  destruct (find_in_dir streq nm nm t d x W Hx) as (r & E & Hr).
  { intros b [Hb _]. rewrite streq_eq by done. split; congruence. }
  assert (Hrun : unlink_tmpfs node nm t =
    (match r with
     | None => mret (- ENOENT)
     | Some (i, a, e) =>
         if match e with EDir sub => negb (try_free_dir sub =? 0) | EFile _ => false end
         then mret (- ENOTEMPTY)
         else (match e with EFile f => file_free f | EDir _ => mret tt end;;
               free_entry a;; x ← rd_dir d; wr_entry d (EDir (with_files x (delete i (files x))));; mret 0)
     end) t).
  { unfold unlink_tmpfs. fold d. unfold mbind at 1, St_bind at 1, rd_dir at 1. rewrite Hx.
    unfold mbind at 1, St_bind at 1. by rewrite E. }
  rewrite Hrun. clear Hrun E. destruct r as [[[i a] e]|]; [|by rewrite Hr].
  destruct Hr as (Hi & He & Hen & Hl & ->). rewrite He.
  pose proof (wf_irrefl t W d a Hl) as Hne.
  assert (Hok : (∀ y, e = EDir y → files y = []) → ∀ R,
    ∃ t', (free_entry a;; x ← rd_dir d; wr_entry d (EDir (with_files x (delete i (files x))));; mret 0)
       (Tmpfs (entries t) R (clock t)) = Done (0, t') ∧ wf t' ∧ entries t' !! a = None ∧ released t' = R ∧
       (∀ d' m, dir_lookup t' d' m = if decide (d' = d ∧ m = nm) then None else dir_lookup t d' m) ∧
       (∀ b, b ≠ a → b ≠ d → entries t' !! b = entries t !! b)).
  { intros Hemp R.
    set (t' := Tmpfs (<[d := EDir (with_files x (delete i (files x)))]> (delete a (entries t))) R (clock t)).
    exists t'. split.
    { unfold free_entry, rd_dir, wr_entry, mbind, St_bind, modify. simpl.
      by rewrite lookup_delete_ne, Hx by done. }
    destruct (relisted_wf t t' [a] None [] W) as [W' Hlk].
    { eapply removed_relisted; try done. intros y Hy. apply Hemp. congruence. }
    { by intros ? ?. }
    split_and!; [done|simpl; by rewrite lookup_insert_ne, lookup_delete_eq by done|done| |].
    - intros d' m. rewrite Hlk. simpl. case_decide as Hd.
      + destruct Hd as [-> ->]. erewrite (proj2 (dir_lookup_Some t d nm a W)).
        * simpl. by rewrite decide_True by set_solver.
        * split; [done|]. unfold name_of. by rewrite He.
      + destruct (dir_lookup t d' m) as [b|] eqn:Eb; [|done]. simpl. rewrite decide_False; [done|].
        intros ->%list_elem_of_singleton. apply (dir_lookup_Some t d' m a W) in Eb as [Hla Hm].
        apply Hd. split; [by apply (wf_one t W d' d a)|]. unfold name_of in Hm. rewrite He in Hm. simpl in Hm. congruence.
    - intros b Hb Hbd. simpl. by rewrite lookup_insert_ne, lookup_delete_ne by done. }
  destruct e as [f|y].
  - by apply (Hok ltac:(done) (fblocks f ++ released t)).
  - destruct y as [? ? ? ? ? ? ? ? [|b l] ?]; [|done].
    destruct t as [es rel cl]. apply (Hok ltac:(by intros ? [= <-]) rel).
Qed.

(** ** Renaming *)

(** The tree after [src], renamed to [n], moved from [ds] to [dd]. *)
Lemma moved_relisted t t' ds dd xs xd src se n ls ld X :
  wf t → entries t !! ds = Some (EDir xs) → entries t !! dd = Some (EDir xd) →
  listed t ds src → entries t !! src = Some se → src ≠ dd →
  src ∈ X → (∀ b, b ∈ X → b = src ∨ listed t dd b) →
  NoDup ld → (∀ b, b ∈ ld ↔ (b ∈ files xd ∧ b ∉ X) ∨ b = src) →
  (ds ≠ dd → NoDup ls ∧ ∀ b, b ∈ ls ↔ b ∈ files xs ∧ b ≠ src) →
  entries t' = <[dd := EDir (with_files xd ld)]> (<[ds := EDir (with_files xs ls)]>
                 (<[src := with_name se n]> (entries t))) →
  relisted t t' X (Some (dd, src)) n.
Proof.
  intros W Hs Hd Hl He Hne HsX HX Hnd Hld Hls E.
  pose proof (wf_irrefl t W ds src Hl) as Hne'.
  (* the entries of a directory before and after *)
  assert (Hfiles : ∀ d x, entries t' !! d = Some (EDir x) → ∃ y, entries t !! d = Some (EDir y) ∧
    NoDup (files x) ∧ ∀ b, b ∈ files x ↔ (b ∈ files y ∧ b ∉ X) ∨ (d = dd ∧ b = src)).
  { intros d x Hx. rewrite E in Hx. destruct (decide (d = dd)) as [->|Hdd].
    { rewrite lookup_insert_eq in Hx. injection Hx as <-. exists xd. split; [done|]. split; [done|].
      intros b. simpl. rewrite Hld. naive_solver. }
    rewrite lookup_insert_ne in Hx by done.
    assert (Hother : ∀ y b, entries t !! d = Some (EDir y) → d ≠ ds → b ∈ files y → b ∉ X).
    { intros y b Hy Hds Hb HbX. assert (listed t d b) as Hdb by (by exists y).
      destruct (HX b HbX) as [->|Hb'];
        [apply Hds, (wf_one t W d ds src)|apply Hdd, (wf_one t W d dd b)]; done. }
    destruct (decide (d = ds)) as [->|Hds].
    { rewrite lookup_insert_eq in Hx. injection Hx as <-. exists xs. destruct (Hls Hdd) as [Hn1 Hn2].
      split_and!; [done|done|]. intros b. simpl. rewrite Hn2. split; [|intros [?|?]; set_solver].
      intros [Hb Hbs]. left. split; [done|]. intros [?|Hb']%HX; [done|]. apply Hdd.
      apply (wf_one t W ds dd b); [by exists xs|done]. }
    rewrite lookup_insert_ne in Hx by done. destruct (decide (d = src)) as [->|Hsrc].
    - rewrite lookup_insert_eq in Hx. destruct se as [f|y]; [done|]. injection Hx as <-. exists y.
      split_and!; [done|exact (wf_nodup t W src y He)|]. intros b. simpl. specialize (Hother y b He Hds). naive_solver.
    - rewrite lookup_insert_ne in Hx by done. exists x. split_and!; [done|by eapply (wf_nodup t W)|].
      intros b. specialize (Hother x b Hx Hds). naive_solver. }
  assert (Hdir : ∀ d y, entries t !! d = Some (EDir y) → ∃ x, entries t' !! d = Some (EDir x)).
  { intros d y Hy. rewrite E. destruct (decide (d = dd)) as [->|?]; [rewrite lookup_insert_eq; eauto|].
    rewrite lookup_insert_ne by done. destruct (decide (d = ds)) as [->|?]; [rewrite lookup_insert_eq; eauto|].
    rewrite lookup_insert_ne by done. destruct (decide (d = src)) as [->|?].
    - rewrite lookup_insert_eq. assert (se = EDir y) as -> by congruence. simpl. eauto.
    - rewrite lookup_insert_ne; eauto. }
  assert (Hsrc : entries t' !! src = Some (with_name se n))
    by (by rewrite E, !lookup_insert_ne, lookup_insert_eq by done).
  split.
  - intros d b. split.
    + intros (x & Hx & Hb). destruct (Hfiles d x Hx) as (y & Hy & _ & Hf).
      destruct (proj1 (Hf b) Hb) as [[Hb' HbX]|[-> ->]]; [left|by right]. split; [by exists y|done].
    + intros [[(y & Hy & Hb) HbX]|[= <- <-]].
      * destruct (Hdir d y Hy) as [x Hx]. destruct (Hfiles d x Hx) as (y' & Hy' & _ & Hf).
        exists x. split; [done|]. apply Hf. left. split; [congruence|done].
      * destruct (Hdir dd xd Hd) as [x Hx]. destruct (Hfiles dd x Hx) as (y' & Hy' & _ & Hf).
        exists x. split; [done|]. apply Hf. by right.
  - intros b Hb _. rewrite E. rewrite !lookup_insert_is_Some'. tauto.
  - intros ? ? [= <- <-]. by rewrite Hsrc.
  - intros d x Hx. by destruct (Hfiles d x Hx) as (y & _ & ? & _).
  - pose proof (wf_null t W). rewrite E, !lookup_insert_ne by congruence. done.
  - intros b f Hb. destruct (decide (b = src)) as [->|Hbs].
    + rewrite Hsrc in Hb. destruct se as [g|y]; [|done]. injection Hb as <-. exact (wf_kind t W src g He).
    + rewrite E in Hb. destruct (decide (b = dd)) as [->|?]; [by rewrite lookup_insert_eq in Hb|].
      rewrite lookup_insert_ne in Hb by done. destruct (decide (b = ds)) as [->|?]; [by rewrite lookup_insert_eq in Hb|].
      rewrite !lookup_insert_ne in Hb by done. by eapply (wf_kind t W).
  - intros d b Hb HbX. assert (b ≠ src) by congruence. unfold name_of. rewrite E.
    destruct (decide (b = dd)) as [->|?]; [by rewrite lookup_insert_eq, Hd|].
    rewrite lookup_insert_ne by done. destruct (decide (b = ds)) as [->|?]; [by rewrite lookup_insert_eq, Hs|].
    by rewrite !lookup_insert_ne by done.
  - intros ? ? [= <- <-]. unfold name_of. rewrite Hsrc. by destruct se.
Qed.

Lemma delete_app_l (l k : list Z) i : (i < length l)%nat → delete i (l ++ k) = delete i l ++ k.
Proof. revert i. induction l as [|a l IH]; intros [|i] Hi; simpl in *; [lia|lia|done|]. f_equal. apply IH. lia. Qed.

Section Rename.
Variables (t : tmpfs) (ds dd : Z) (xs xd : tmpfs_dir) (si : nat) (src : Z) (se : entry) (n : list Z).
Hypothesis (W : wf t).
Hypothesis (Hs : entries t !! ds = Some (EDir xs)).
Hypothesis (Hd : entries t !! dd = Some (EDir xd)).
Hypothesis (Hsi : files xs !! si = Some src).
Hypothesis (He : entries t !! src = Some se).
Hypothesis (Hne : src ≠ dd).

Lemma src_listed : listed t ds src.
Proof using Hs Hsi. exists xs. split; [done|]. by eapply list_elem_of_lookup_2. Qed.

Lemma src_ne : src ≠ ds.
Proof using W Hs Hsi. by eapply wf_irrefl, src_listed. Qed.

(** The tail of [rename_tmpfs] when the destination is a new name. *)
Definition move_tail : St tmpfs Z :=
  wr_entry src (with_name se n);;
  list_insert_entry dd src;;
  x ← rd_dir ds;
  wr_entry ds (EDir (with_files x (delete si (files x))));;
  mret 0.

Lemma move_tail_spec :
  ∃ t', move_tail t = Done (0, t') ∧ relisted t t' [src] (Some (dd, src)) n ∧
    entries t' !! src = Some (with_name se n).
Proof using W Hs Hd Hsi He Hne.
  pose proof src_ne as Hne'. pose proof src_listed as Hl.
  destruct (delete_elem (files xs) si src (wf_nodup t W ds xs Hs) Hsi) as [Hn1 Hn2].
  unfold move_tail, list_insert_entry, wr_entry, rd_dir, modify, mbind, St_bind. simpl.
  rewrite (lookup_insert_ne _ src dd), Hd by done. simpl. destruct (decide (ds = dd)) as [->|Hds].
  - assert (xd = xs) as -> by congruence. rewrite lookup_insert_eq. simpl.
    eexists. split; [done|]. split; [|simpl; by rewrite !lookup_insert_ne, lookup_insert_eq by done].
    eapply (moved_relisted t _ dd dd xs xs src se n _ (delete si (files xs) ++ [src])); try done.
    + set_solver. + set_solver.
    + apply NoDup_app. split_and!; [done| |apply NoDup_singleton]. set_solver.
    + intros b. rewrite elem_of_app, Hn2, list_elem_of_singleton. set_solver.
    + simpl. by rewrite delete_app_l by (by eapply lookup_lt_Some).
  - rewrite lookup_insert_ne, lookup_insert_ne, Hs by done. simpl.
    eexists. split; [done|]. split; [|simpl; by rewrite !lookup_insert_ne, lookup_insert_eq by done].
    eapply (moved_relisted t _ ds dd xs xd src se n (delete si (files xs)) (files xd ++ [src])); try done.
    + set_solver. + set_solver.
    + apply NoDup_app. split_and!; [by eapply wf_nodup| |apply NoDup_singleton].
      intros b Hb ->%list_elem_of_singleton. apply Hds, (wf_one t W ds dd src); [done|by exists xd].
    + intros b. rewrite elem_of_app, list_elem_of_singleton. split; [|set_solver].
      intros [Hb| ->]; [|by right]. left. split; [done|]. intros ->.
      apply Hds, (wf_one t W ds dd src); [done|by exists xd].
    + simpl. by rewrite insert_insert_ne by done.
Qed.

Variables (di : nat) (dest : Z).
Hypothesis (Hdi : files xd !! di = Some dest).
Hypothesis (Hnd : src ≠ dest).

(** The tail when an entry is replaced. *)
Definition replace_tail : St tmpfs unit :=
  wr_entry src (with_name se n);;
  x ← rd_dir ds;
  wr_entry ds (EDir (with_files x (delete si (files x))));;
  x ← rd_dir dd;
  let di' := if (dd =? ds) && bool_decide (si < di)%nat then (di - 1)%nat else di in
  wr_entry dd (EDir (with_files x (<[di' := src]> (files x)))).

Lemma replace_tail_spec :
  ∃ es, replace_tail t = Done (tt, set_entries t es) ∧ es !! src = Some (with_name se n) ∧
    ∀ t', entries t' = es → relisted t t' [src; dest] (Some (dd, src)) n.
Proof using W Hs Hd Hsi He Hne Hdi Hnd.
  pose proof src_ne as Hne'. pose proof src_listed as Hl.
  assert (Hld : listed t dd dest) by (exists xd; split; [done|by eapply list_elem_of_lookup_2]).
  destruct (delete_elem (files xs) si src (wf_nodup t W ds xs Hs) Hsi) as [Hn1 Hn2].
  unfold replace_tail, wr_entry, rd_dir, modify, mbind, St_bind. simpl.
  rewrite (lookup_insert_ne _ src ds), Hs by done. simpl.
  destruct (Z.eqb_spec dd ds) as [E|Hds]; simpl.
  - revert Hdi Hld. rewrite <-E in *. intros Hdi' Hld. assert (xd = xs) as -> by congruence.
    rewrite lookup_insert_eq. simpl.
    set (di' := if bool_decide (si < di)%nat then (di - 1)%nat else di).
    assert (Hdi2 : delete si (files xs) !! di' = Some dest).
    { unfold di'. destruct (decide (si < di)%nat) as [Hlt|Hge].
      - rewrite bool_decide_true by done. rewrite list_lookup_delete_ge by lia. by replace (S (di - 1)) with di by lia.
      - rewrite bool_decide_false by done. rewrite list_lookup_delete_lt; [done|].
        assert (si ≠ di) by congruence. lia. }
    destruct (replace_elem (delete si (files xs)) di' dest src Hn1 Hdi2) as [Hr1 Hr2]; [rewrite Hn2; naive_solver|].
    eexists. split; [done|]. split; [by rewrite !lookup_insert_ne, lookup_insert_eq by done|]. intros t' Et.
    eapply (moved_relisted t t' dd dd xs xs src se n _ (<[di' := src]> (delete si (files xs)))); try done.
    + set_solver. + set_solver.
    + intros b. rewrite Hr2, Hn2. set_solver.
  - rewrite lookup_insert_ne, lookup_insert_ne, Hd by done. simpl.
    assert (Hsd : src ∉ files xd).
    { intros Hin. apply Hds, (wf_one t W dd ds src); [by exists xd|done]. }
    destruct (replace_elem (files xd) di dest src (wf_nodup t W dd xd Hd) Hdi Hsd) as [Hr1 Hr2].
    eexists. split; [done|]. split; [by rewrite !lookup_insert_ne, lookup_insert_eq by done|]. intros t' Et.
    eapply (moved_relisted t t' ds dd xs xd src se n (delete si (files xs)) (<[di := src]> (files xd))); try done.
    + set_solver. + set_solver.
    + intros b. rewrite Hr2. set_solver.
Qed.
End Rename.

Definition is_dir (e : entry) : bool := match e with EDir _ => true | EFile _ => false end.

Lemma etype_dir t a e : wf t → entries t !! a = Some e → (etype e =? TMPFS_TYPE_DIR) = is_dir e.
Proof. intros W He. destruct e as [f|d]; simpl; [|done]. by destruct (wf_kind t W a f He) as [-> | ->]. Qed.

Definition is_empty (e : entry) : bool :=
  match e with EDir d => bool_decide (files d = []) | EFile _ => true end.

(** When a rename is allowed: a trailing slash demands a directory, a directory does not
    move below itself, and what is replaced is of the same kind and empty. *)
Definition rename_allowed (src : Z) (se : entry) (dest : option (Z * entry))
    (src_slash dest_slash below : bool) : bool :=
  (is_dir se || negb src_slash) && negb below &&
  match dest with
  | None => is_dir se || negb dest_slash
  | Some (a, de) => (is_dir de || negb dest_slash) &&
                    ((src =? a) || (Bool.eqb (is_dir se) (is_dir de) && is_empty de))
  end.

Definition errors : list Z := [- ENOTDIR; - EINVAL; - ENOTEMPTY; - EISDIR].

(** The directories after [src] was moved to the name [n] of [dd]. *)
Definition moved_lookup (t : tmpfs) (src dd : Z) (n : list Z) (d : Z) (m : list Z) : option Z :=
  if decide (d = dd ∧ m = n) then Some src
  else if decide (dir_lookup t d m = Some src) then None
  else dir_lookup t d m.

Lemma relookup_moved t src dd n X d m :
  wf t → src ∈ X → (∀ b, b ∈ X → b = src ∨ dir_lookup t dd n = Some b) →
  relookup t X (Some (dd, src)) n d m = moved_lookup t src dd n d m.
Proof.
  intros W Hs HX. unfold relookup, moved_lookup. case_decide as Hd; [done|].
  destruct (dir_lookup t d m) as [b|] eqn:Eb; [|by rewrite decide_False].
  change (Some b ≫= ?f) with (f b). cbv beta. destruct (decide (b ∈ X)) as [Hb|Hb].
  - destruct (HX b Hb) as [->|Hb']; [by rewrite decide_True|]. exfalso. apply Hd.
    apply (dir_lookup_Some t d m b W) in Eb as [Hl Hm]. apply (dir_lookup_Some t dd n b W) in Hb' as [Hl' Hm'].
    split; [by apply (wf_one t W d dd b)|congruence].
  - rewrite decide_False; [done|]. by intros [= ->].
Qed.

Lemma valid_path_dup p : Forall (λ c, 0 < c < 256) p → valid_name (path_dup p).
Proof.
  intros Hp. split; [|apply path_dup_no_sep]. unfold path_dup.
  induction Hp as [|c p Hc Hp IH]; simpl; [done|]. destruct (negb (c =? SEP)); by constructor.
Qed.

(** [within t src d]: the parent pointers lead from the directory [d] to [src]. *)
Inductive within (t : tmpfs) (src : Z) : Z → Prop :=
  | within_here : within t src src
  | within_up d x : entries t !! d = Some (EDir x) → within t src (dparent x) → within t src d.

(** [rooted t d]: the parent pointers lead from [d], over directories that are there, to the
    root, which has none. *)
Inductive rooted (t : tmpfs) : Z → Prop :=
  | rooted_end : rooted t NULL
  | rooted_up d x : entries t !! d = Some (EDir x) → rooted t (dparent x) → rooted t d.

(** The walk up the parents ends, and finds out whether [src] is one of them. *)
Lemma is_ancestor_spec t pd : wf t → rooted t pd → ∃ fuel0, ∀ src, src ≠ NULL →
  ∃ b, (b = true ↔ within t src pd) ∧ ∀ fuel, (fuel0 ≤ fuel)%nat → is_ancestor fuel src pd t = Done (b, t).
Proof.
  intros W. induction 1 as [|d x Hx _ (f0 & IH)].
  - exists 1%nat. intros src Hs. exists false. split; [|by intros [|f] Hf; [lia|]].
    split; [done|]. inversion 1 as [|? x Hx]; subst; [done|]. by rewrite (wf_null t W) in Hx.
  - exists (S f0). intros src Hs. assert (Hd : d ≠ NULL) by (intros ->; by rewrite (wf_null t W) in Hx).
    destruct (decide (d = src)) as [->|Hne].
    + exists true. split; [by split; [constructor|]|]. intros [|f] Hf; [lia|]. simpl.
      by rewrite (proj2 (Z.eqb_neq src NULL)), Z.eqb_refl by done.
    + destruct (IH src Hs) as (b & Hb & E). exists b. split.
      * rewrite Hb. split; [by econstructor|]. inversion 1; subst; [done|]. by simplify_eq.
      * intros [|f] Hf; [lia|]. simpl. rewrite (proj2 (Z.eqb_neq d NULL)), (proj2 (Z.eqb_neq d src)) by done.
        unfold mbind, St_bind, rd_dir. rewrite Hx. apply E. lia.
Qed.

Lemma with_name_id e : with_name e (ename e) = e.
Proof. destruct e as [[]|[]]; done. Qed.

(** What [rename_tmpfs] does once the two names are looked up and the parents walked. *)
Definition rename_rest (ds dd : Z) (si : nat) (src : Z) (se : entry) (n : list Z)
    (src_slash dest_slash below : bool) (r : option (nat * Z * entry)) : St tmpfs Z :=
  let bad_dest := match r with Some (_, _, de) => negb (is_dir de) && dest_slash | None => false end in
  if negb (is_dir se) && src_slash then mret (- ENOTDIR)
  else if bad_dest then mret (- ENOTDIR)
  else if below then mret (- EINVAL)
  else match r with
  | None => if dest_slash && negb (is_dir se) then mret (- ENOTDIR) else move_tail ds dd si src se n
  | Some (di, dest, de) =>
      if src =? dest then mret 0
      else
        let err := match de with
                   | EDir y => if negb (bool_decide (files y = [])) then - ENOTEMPTY
                               else if negb (is_dir se) then - EISDIR else 0
                   | EFile _ => if is_dir se then - ENOTDIR else 0
                   end in
        if negb (err =? 0) then mret err
        else replace_tail ds dd si src se n di;;
             match de with EFile f => file_free f | EDir _ => mret tt end;; mret 0
  end.

Lemma rename_runs fuel t src_dir xs src_name dest_dir xd dest_name si src se r below :
  let ds := inode src_dir in let dd := inode dest_dir in let n := path_dup dest_name in
  wf t → entries t !! ds = Some (EDir xs) → entries t !! dd = Some (EDir xd) →
  entries t !! src = Some se →
  (if is_dir se then is_ancestor fuel src dd t = Done (below, t) else below = false) →
  find_entry patheq src_name (files xs) 0 t = Done (Some (si, src, se), t) →
  find_entry patheq dest_name (files xd) 0 t = Done (r, t) →
  (∀ i a e, r = Some (i, a, e) → entries t !! a = Some e) →
  rename_tmpfs fuel src_dir src_name dest_dir dest_name t =
    rename_rest ds dd si src se n (endswith src_name SEP) (endswith dest_name SEP) below r t.
Proof.
  intros ds dd n W Hs Hd He Hb E1 E2 Hr. unfold rename_tmpfs, rename_rest. fold ds dd n.
  unfold mbind at 1, St_bind at 1, rd_dir at 1. rewrite Hs. unfold mbind at 1, St_bind at 1. rewrite E1.
  rewrite (etype_dir t src se W He). destruct (negb (is_dir se) && endswith src_name SEP); [done|].
  unfold mbind at 1, St_bind at 1, rd_dir at 1. rewrite Hd. unfold mbind at 1, St_bind at 1. rewrite E2.
  replace (match r with Some (_, _, de) => negb (etype de =? TMPFS_TYPE_DIR) && endswith dest_name SEP | None => false end)
    with (match r with Some (_, _, de) => negb (is_dir de) && endswith dest_name SEP | None => false end)
    by (destruct r as [[[i a] e]|]; [by rewrite (etype_dir t a e W (Hr _ _ _ eq_refl))|done]).
  match goal with |- (if ?b then _ else _) t = _ => destruct b end; [done|].
  unfold mbind at 1, St_bind at 1.
  assert ((if is_dir se then is_ancestor fuel src dd else mret false) t = Done (below, t)) as ->
    by (destruct (is_dir se); [done|by subst]).
  destruct below; [done|]. destruct r as [[[di dest] de]|]; [|done].
  destruct (src =? dest); [done|].
  match goal with |- (if ?b then _ else _) t = _ => destruct b end; [done|].
  unfold replace_tail, wr_entry, rd_dir, modify, mbind, St_bind. simpl.
  repeat (case_match; simplify_eq/=; try done).
Qed.

(** Renaming an entry to the name it has. *)
Lemma moved_lookup_same t src dd n d m :
  wf t → dir_lookup t dd n = Some src → moved_lookup t src dd n d m = dir_lookup t d m.
Proof.
  intros W H. unfold moved_lookup. case_decide as Hd; [destruct Hd as [-> ->]; done|].
  case_decide as Hs; [|done]. exfalso. apply Hd.
  apply (dir_lookup_Some t d m src W) in Hs as [Hl Hm]. apply (dir_lookup_Some t dd n src W) in H as [Hl' Hm'].
  split; [by apply (wf_one t W d dd src)|congruence].
Qed.

Lemma replace_ok t ds dd xs xd si src se n di dest de :
  wf t → entries t !! ds = Some (EDir xs) → entries t !! dd = Some (EDir xd) →
  files xs !! si = Some src → entries t !! src = Some se → src ≠ dd →
  files xd !! di = Some dest → src ≠ dest →
  ∃ t', (replace_tail ds dd si src se n di;;
         match de with EFile f => file_free f | EDir _ => mret tt end;; mret 0) t = Done (0, t') ∧
    entries t' !! src = Some (with_name se n) ∧ relisted t t' [src; dest] (Some (dd, src)) n.
Proof.
  intros W Hs Hd Hsi He Hne Hdi Hsd.
  destruct (replace_tail_spec t ds dd xs xd si src se n W Hs Hd Hsi He Hne di dest Hdi Hsd) as (es & E & Hes & R).
  unfold mbind at 1, St_bind at 1. rewrite E. destruct de as [f|y]; (eexists; split; [done|split; [done|by apply R]]).
Qed.

Lemma rename_rest_spec t ds dd xs xd si src se n src_slash dest_slash below r :
  wf t → entries t !! ds = Some (EDir xs) → entries t !! dd = Some (EDir xd) →
  files xs !! si = Some src → entries t !! src = Some se → valid_name n →
  (below = false → src ≠ dd) →
  match r with
  | Some (di, dest, de) => files xd !! di = Some dest ∧ entries t !! dest = Some de ∧ dir_lookup t dd n = Some dest
  | None => dir_lookup t dd n = None
  end →
  let run := rename_rest ds dd si src se n src_slash dest_slash below r t in
  if rename_allowed src se ((λ x : nat * Z * entry, (x.1.2, x.2)) <$> r) src_slash dest_slash below
  then ∃ t', run = Done (0, t') ∧ wf t' ∧ entries t' !! src = Some (with_name se n) ∧
         ∀ d m, dir_lookup t' d m = moved_lookup t src dd n d m
  else ∃ e, run = Done (e, t) ∧ e ∈ errors.
Proof.
  intros W Hs Hd Hsi He Hv Hne Hr. unfold rename_allowed, rename_rest.
  assert (Hin : ∀ e, e ∈ errors → ∃ e', (mret e : St tmpfs Z) t = Done (e', t) ∧ e' ∈ errors) by (intros e H; by exists e).
  destruct below; [|specialize (Hne eq_refl)].
  { rewrite andb_false_r. simpl. repeat case_match; (apply Hin; set_solver). }
  assert (Hfin : ∀ X t', relisted t t' X (Some (dd, src)) n → src ∈ X →
    (∀ b, b ∈ X → b = src ∨ dir_lookup t dd n = Some b) → (∀ a, dir_lookup t dd n = Some a → a ∈ X) →
    wf t' ∧ ∀ d m, dir_lookup t' d m = moved_lookup t src dd n d m).
  { intros X t' R HsX HX HX'. destruct (relisted_wf t t' X _ n W R) as [W' Hlk].
    - intros ? ? [= <- <-]. split_and!; [done|done|done|]. intros a Ha Hn. apply HX'. by apply dir_lookup_Some.
    - split; [done|]. intros d m. rewrite Hlk. by apply relookup_moved. }
  destruct r as [[[di dest] de]|]; simpl.
  - destruct Hr as (Hdi & Hde & Hlk).
    destruct (Z.eqb_spec src dest) as [<-|Hsd]; simpl.
    + assert (de = se) as -> by congruence.
      assert (ename se = n) as <-.
      { apply (dir_lookup_Some t dd n src W) in Hlk as [_ Hm]. unfold name_of in Hm. by rewrite He in Hm. }
      destruct (is_dir se), src_slash, dest_slash; simpl; try (apply Hin; set_solver);
        (exists t; split_and!; [done|done|by rewrite with_name_id|intros; by rewrite moved_lookup_same]).
    + destruct (replace_ok t ds dd xs xd si src se n di dest de) as (t' & E & Ht' & R); try done.
      destruct (Hfin _ t' R) as [W' Hm']; [set_solver|set_solver|set_solver|].
      destruct (is_dir se), src_slash, dest_slash, de as [f|y]; simpl;
        try case_bool_decide; simpl; try (apply Hin; set_solver); by exists t'.
  - destruct (move_tail_spec t ds dd xs xd si src se n) as (t' & E & R & Ht'); try done.
    destruct (Hfin _ t' R) as [W' Hm']; [set_solver|set_solver|set_solver|].
    destruct (is_dir se), src_slash, dest_slash; simpl; try (apply Hin; set_solver); by exists t'.
Qed.

(** C1: renaming within a tmpfs.  A missing source gives [-ENOENT]; otherwise the call
    succeeds exactly when [rename_allowed] says so: a trailing slash demands a directory, what is
    replaced is of the same kind and empty, and a directory is not moved to where its own parent
    pointers lead up to it ([within]).  An error leaves the tree as it
    was.  After a success the destination name is bound to the source, the source's old
    name is unbound, every other name is as before, the moved entry keeps its contents
    and the tree is well-formed.  The parent pointers from the destination must lead to the
    root ([rooted]); an earlier rename and the removal of the old parent can leave one that does
    not, where the walk reads freed memory ([rename_tmpfs_dangling_parent]). *)
Theorem rename_tmpfs_correct t src_dir xs src_name dest_dir xd dest_name :
  wf t → entries t !! inode src_dir = Some (EDir xs) → entries t !! inode dest_dir = Some (EDir xd) →
  Forall (λ c, 0 < c < 256) src_name → Forall (λ c, 0 < c < 256) dest_name →
  let ds := inode src_dir in let dd := inode dest_dir in let n := path_dup dest_name in
  rooted t dd → ∃ fuel0, ∀ fuel, (fuel0 ≤ fuel)%nat →
  match dir_lookup t ds (path_dup src_name) with
  | None => rename_tmpfs fuel src_dir src_name dest_dir dest_name t = Done (- ENOENT, t)
  | Some src =>
      ∀ se below, entries t !! src = Some se → (below = true ↔ is_dir se = true ∧ within t src dd) →
      if rename_allowed src se (a ← dir_lookup t dd n; e ← entries t !! a; Some (a, e))
           (endswith src_name SEP) (endswith dest_name SEP) below
      then ∃ t', rename_tmpfs fuel src_dir src_name dest_dir dest_name t = Done (0, t') ∧ wf t' ∧
             entries t' !! src = Some (with_name se n) ∧
             ∀ d m, dir_lookup t' d m = moved_lookup t src dd n d m
      else ∃ e, rename_tmpfs fuel src_dir src_name dest_dir dest_name t = Done (e, t) ∧ e ∈ errors
  end.
Proof.
  intros W Hs Hd Hsn Hdn ds dd n Hroot. change (inode src_dir) with ds in Hs. change (inode dest_dir) with dd in Hd.
  destruct (is_ancestor_spec t dd W Hroot) as (fuel0 & Hanc). exists (S fuel0). intros fuel Hfuel.
  assert (Hcmp : ∀ p b, valid_name b → patheq p b = true ↔ b = path_dup p).
  { intros p b [_ Hb]. rewrite patheq_eq by done. split; congruence. }
  destruct (find_in_dir patheq src_name (path_dup src_name) t ds xs W Hs (Hcmp src_name)) as (r & E & Hr).
  destruct r as [[[si src] se]|]; cycle 1.
  { rewrite Hr. unfold rename_tmpfs. fold ds. unfold mbind at 1, St_bind at 1, rd_dir at 1. rewrite Hs.
    unfold mbind at 1, St_bind at 1. by rewrite E. }
  destruct Hr as (Hsi & He & Hen & Hl & ->). intros se' below He' Hbelow.
  assert (se' = se) as -> by congruence. clear He'.
  assert (Hsrc : src ≠ NULL) by (intros ->; by rewrite (wf_null t W) in He).
  assert (Hb : if is_dir se then is_ancestor fuel src dd t = Done (below, t) else below = false).
  { destruct (Hanc src Hsrc) as (b & Hbw & Eb). destruct (is_dir se).
    - rewrite Eb by lia. do 2 f_equal. apply eq_true_iff_eq. rewrite Hbelow, Hbw. naive_solver.
    - apply not_true_iff_false. rewrite Hbelow. naive_solver. }
  destruct (find_in_dir patheq dest_name n t dd xd W Hd (Hcmp dest_name)) as (r & E2 & Hr).
  assert (Hrun : rename_tmpfs fuel src_dir src_name dest_dir dest_name t =
    rename_rest ds dd si src se n (endswith src_name SEP) (endswith dest_name SEP) below r t).
  { apply (rename_runs fuel t src_dir xs src_name dest_dir xd dest_name); try done.
    intros i a e ->. by destruct Hr as (_ & ? & _). }
  rewrite !Hrun.
  replace (a ← dir_lookup t dd n; e ← entries t !! a; Some (a, e)) with
    ((λ x : nat * Z * entry, (x.1.2, x.2)) <$> r).
  2:{ destruct r as [[[di dest] de]|]; [|by rewrite Hr]. destruct Hr as (_ & Hde & _ & _ & ->).
      simpl. by rewrite Hde. }
  apply (rename_rest_spec t ds dd xs xd); try done.
  - by apply valid_path_dup.
  - intros -> <-. destruct se as [f|y]; [congruence|]. destruct fuel as [|fuel]; [lia|].
    simpl in Hb. rewrite Z.eqb_refl, (proj2 (Z.eqb_neq _ _)) in Hb; [done|].
    intros E0. rewrite E0 in He. by rewrite (wf_null t W) in He.
  - destruct r as [[[di dest] de]|]; [|done]. naive_solver.
Qed.

(** ** Looking up and listing *)

Definition node_at (t : tmpfs) (a : Z) : option fs_node_t :=
  e ← entries t !! a;
  Some (match e with
        | EFile f => if type f =? TMPFS_TYPE_LINK then tmpfs_from_link a f else tmpfs_from_file a f
        | EDir d => tmpfs_from_dir a d
        end).

Lemma node_at_inode t a n : node_at t a = Some n → inode n = a.
Proof. unfold node_at. destruct (entries t !! a) as [[f|d]|]; simpl; [case_match| |]; naive_solver. Qed.

Lemma finddir_tmpfs_spec t node x nm :
  wf t → entries t !! inode node = Some (EDir x) → Forall (λ c, 0 < c < 256) nm →
  finddir_tmpfs node nm t = Done (dir_lookup t (inode node) nm ≫= node_at t, t).
Proof.
  intros W Hx Hn. destruct (find_in_dir streq nm nm t (inode node) x W Hx) as (r & E & Hr).
  { intros b [Hb _]. rewrite streq_eq by done. split; congruence. }
  unfold finddir_tmpfs, mbind at 1, St_bind at 1, rd_dir at 1. rewrite Hx.
  unfold mbind at 1, St_bind at 1. rewrite E. destruct r as [[[i a] e]|]; [|by rewrite Hr].
  destruct Hr as (_ & He & _ & _ & ->). simpl. unfold node_at. rewrite He. simpl.
  destruct e as [f|d]; [|done]. by destruct (wf_kind t W a f He) as [-> | ->].
Qed.

(** Looking up and listing a directory agree.  [finddir_tmpfs] gives the node of
    the entry a name is bound to, and nothing for an unbound name; [readdir_tmpfs] gives
    [.] and [..] first, then at each index below the number of entries one entry whose
    name [finddir_tmpfs] resolves to the same inode, every bound name at exactly one
    index, and nothing beyond. *)
Theorem tmpfs_listing_correct t node x :
  wf t → entries t !! inode node = Some (EDir x) → Z.of_nat (length (files x)) < 2 ^ 64 - 2 →
  (∀ nm, Forall (λ c, 0 < c < 256) nm →
     finddir_tmpfs node nm t = Done (dir_lookup t (inode node) nm ≫= node_at t, t)) ∧
  readdir_tmpfs node 0 t = Done (Some (0, PATH_DOT), t) ∧
  readdir_tmpfs node 1 t = Done (Some (0, PATH_UP), t) ∧
  (∀ i, (i < length (files x))%nat → ∃ a nm n,
     readdir_tmpfs node (Z.of_nat i + 2) t = Done (Some (a, nm), t) ∧
     finddir_tmpfs node nm t = Done (Some n, t) ∧ inode n = a) ∧
  (∀ i, Z.of_nat (length (files x)) ≤ i → i + 2 < 2 ^ 64 → readdir_tmpfs node (i + 2) t = Done (None, t)) ∧
  (∀ nm a, dir_lookup t (inode node) nm = Some a → exists! i,
     (i < length (files x))%nat ∧ readdir_tmpfs node (Z.of_nat i + 2) t = Done (Some (a, nm), t)).
Proof.
  intros W Hx Hlen. set (d := inode node) in *.
  assert (Hat : ∀ i, (0 ≤ i) → i + 2 < 2 ^ 64 → readdir_tmpfs node (i + 2) t =
    (if Z.of_nat (length (files x)) <=? i then Done (None, t)
     else match files x !! Z.to_nat i with
          | None => Done (None, t)
          | Some a => match entries t !! a with Some e => Done (Some (a, ename e), t) | None => Fault end
          end)).
  { intros i Hi Hi2. unfold readdir_tmpfs. rewrite !(proj2 (Z.eqb_neq _ _)) by lia.
    unfold mbind at 1, St_bind at 1, rd_dir at 1. fold d. rewrite Hx.
    replace (i + 2 - 2) with i by lia. replace (u64 i) with i by (unfold u64; rewrite Z.mod_small; lia).
    destruct (_ <=? i); [done|]. destruct (files x !! Z.to_nat i) as [a|]; [|done].
    unfold mbind, St_bind, rd_entry. by destruct (entries t !! a). }
  assert (Hin : ∀ i a, files x !! i = Some a → listed t d a)
    by (intros i a Hi; exists x; split; [done|by eapply list_elem_of_lookup_2]).
  assert (Hrd : ∀ i a, files x !! i = Some a → readdir_tmpfs node (Z.of_nat i + 2) t = Done (Some (a, name_of t a), t)).
  { intros i a Hi. pose proof (lookup_lt_Some _ _ _ Hi). rewrite Hat by lia.
    rewrite (proj2 (Z.leb_gt _ _)), Nat2Z.id, Hi by lia. unfold name_of.
    destruct (wf_live t W d a (Hin i a Hi)) as [e ->]. done. }
  split_and!; [intros; by eapply finddir_tmpfs_spec|done|done| | |].
  - intros i Hi. destruct (lookup_lt_is_Some_2 (files x) i Hi) as [a Ha].
    destruct (wf_live t W d a (Hin i a Ha)) as [e He].
    exists a, (name_of t a), (match e with
        | EFile f => if type f =? TMPFS_TYPE_LINK then tmpfs_from_link a f else tmpfs_from_file a f
        | EDir d => tmpfs_from_dir a d
        end). split_and!; [by apply Hrd| |destruct e; [case_match|]; done].
    rewrite (finddir_tmpfs_spec t node x) by (done || by eapply wf_valid, Hin). fold d.
    rewrite (proj2 (dir_lookup_Some t d _ a W)) by (split; [by eapply Hin|done]).
    simpl. unfold node_at. by rewrite He.
  - intros i Hi Hi2. rewrite Hat by lia. by rewrite (proj2 (Z.leb_le _ _)) by lia.
  - intros nm a Hl. apply (dir_lookup_Some t d nm a W) in Hl as [(x' & Hx' & Ha) <-].
    assert (x' = x) as -> by congruence. apply list_elem_of_lookup_1 in Ha as [i Hi]. exists i. split.
    + split; [by eapply lookup_lt_Some|by apply Hrd].
    + intros j [Hj Hr]. destruct (lookup_lt_is_Some_2 (files x) j Hj) as [b Hb]. rewrite (Hrd j b Hb) in Hr.
      injection Hr as -> _. by eapply (NoDup_lookup (files x)); [eapply wf_nodup|..].
Qed.

(** ** The tmpfs as a file system of the VFS *)

(** The operations in the nodes that [tmpfs_from_file], [tmpfs_from_link] and
    [tmpfs_from_dir] fill in; [fuel] bounds the walk up the parents in a rename. *)
#[export] Instance tmpfs_fs {ML : Malloc} (fuel : nat) : FileSystem tmpfs := {|
  fs_open := λ n, if has_flag n FS_DIRECTORY then None else Some (λ _,
    e ← rd_entry (inode n); k ← now;
    match e with
    | EFile f => wr_entry (inode n) (EFile (File (name f) (type f) (TmpfsFile.mask f) (TmpfsFile.uid f)
        (TmpfsFile.gid f) k (mtime f) (ctime f) (TmpfsFile.mount f) (flength f) (block_count f)
        (pointers f) (blocks f) (target f)))
    | EDir _ => fault
    end);
  fs_finddir := λ n, if has_flag n FS_DIRECTORY then Some (finddir_tmpfs n) else None;
  fs_readlink := λ n, if has_flag n FS_SYMLINK then Some (readlink_tmpfs n) else None;
  fs_create := λ n, if has_flag n FS_DIRECTORY then Some (create_tmpfs n) else None;
  fs_mkdir := λ n, if has_flag n FS_DIRECTORY then Some (mkdir_tmpfs n) else None;
  fs_unlink := λ n, if has_flag n FS_DIRECTORY then Some (unlink_tmpfs n) else None;
  fs_symlink := λ n, if has_flag n FS_DIRECTORY then Some (symlink_tmpfs n) else None;
  fs_rename := λ _, Some (rename_tmpfs fuel)
|}.

(** ** A tree to try the theorems on *)

Definition empty_tmpfs : tmpfs := Tmpfs ∅ [] 7.
Definition root_user : process_t := Process 0 0 [] (str "/").
Definition node_of (a : Z) : fs_node_t := FsNode 1 511 0 0 FS_DIRECTORY a 0.

(** The root directory 1 with the directory [a] (2), the file [f] (3) and, in [a], the
    link [l] (4). *)
Definition demo_build : St tmpfs unit :=
  r ← tmpfs_create (str "tmp");
  mkdir_tmpfs r root_user (str "a") 493;;
  create_tmpfs r root_user (str "f") 420;;
  symlink_tmpfs (node_of 2) root_user (str "../f") (str "l");;
  mret tt.

Definition demo_tmpfs : tmpfs :=
  match demo_build empty_tmpfs with Done (_, t) => t | _ => empty_tmpfs end.

Definition dir_at (t : tmpfs) (a : Z) : tmpfs_dir :=
  match entries t !! a with Some (EDir d) => d | _ => Dir [] 0 0 0 0 0 0 0 [] 0 end.

Lemma check_entries (f : Z → entry → bool) t :
  forallb (λ p, f p.1 p.2) (map_to_list (entries t)) = true → ∀ a e, entries t !! a = Some e → f a e = true.
Proof.
  intros H a e He. rewrite forallb_forall in H. apply (H (a, e)).
  by apply list_elem_of_In, elem_of_map_to_list.
Qed.

Lemma demo_listed d a :
  listed demo_tmpfs d a ↔ (d = 1 ∧ (a = 2 ∨ a = 3)) ∨ (d = 2 ∧ a = 4).
Proof.
  split.
  - intros (x & Hx & Ha).
    assert (E : (if d =? 1 then bool_decide (files x = [2; 3])
                 else if d =? 2 then bool_decide (files x = [4]) else false) = true).
    { apply (check_entries (λ d e, match e with
        | EDir x => if d =? 1 then bool_decide (files x = [2; 3])
                    else if d =? 2 then bool_decide (files x = [4]) else false
        | EFile _ => true end) demo_tmpfs ltac:(by vm_compute) _ _ Hx). }
    clear Hx. destruct (Z.eqb_spec d 1) as [->|_]; [|destruct (Z.eqb_spec d 2) as [->|_]; [|done]];
      apply bool_decide_eq_true in E; rewrite E, ?elem_of_cons in Ha; set_solver.
  - intros [[-> [->| ->]]|[-> ->]]; (eexists; split; [by vm_compute|apply (bool_decide_unpack _); by vm_compute]).
Qed.

Lemma demo_tmpfs_wf : wf demo_tmpfs.
Proof.
  split.
  - intros d a [[-> [->| ->]]|[-> ->]]%demo_listed; vm_compute; by eexists.
  - intros d x Hx. apply (bool_decide_unpack _), Is_true_eq_left.
    apply (check_entries (λ d e, match e with EDir x => bool_decide (NoDup (files x)) | EFile _ => true end)
             demo_tmpfs ltac:(by vm_compute) _ _ Hx).
  - intros d d' a H%demo_listed H'%demo_listed. lia.
  - intros d a b H%demo_listed H'%demo_listed Hn.
    destruct H as [[-> [->| ->]]|[-> ->]], H' as [[? [->| ->]]|[? ->]]; vm_compute in Hn;
      (reflexivity || discriminate Hn || lia).
  - intros d a [[-> [->| ->]]|[-> ->]]%demo_listed; (split; apply (bool_decide_unpack _); by vm_compute).
  - intros d a H%demo_listed. lia.
  - by vm_compute.
  - intros a f Hf.
    pose proof (check_entries (λ d e, match e with EFile f => (type f =? 1) || (type f =? 3) | EDir _ => true end)
             demo_tmpfs ltac:(by vm_compute) _ _ Hf) as E. simpl in E.
    apply orb_true_iff in E as [E%Z.eqb_eq|E%Z.eqb_eq]; [by left|by right].
Qed.

(** ** Witnesses *)

Lemma tmpfs_new_entries_correct_witness :
  ∃ t', mkdir_tmpfs (node_of 2) root_user (str "d") 493 demo_tmpfs = Done (0, t') ∧
    added demo_tmpfs t' 2 (str "d") (EDir (Dir (str "d") 493 0 0 7 7 7 1 [] 2)).
Proof.
  pose proof (tmpfs_new_entries_correct demo_tmpfs (node_of 2) (dir_at demo_tmpfs 2) root_user (str "d") 493 (str "x")
    demo_tmpfs_wf ltac:(by vm_compute) ltac:(split; apply (bool_decide_unpack _); by vm_compute)) as H.
  cbv zeta in H. replace (dir_lookup demo_tmpfs (inode (node_of 2)) (str "d")) with (@None Z) in H by (by vm_compute).
  apply proj2, proj2 in H. rewrite decide_False in H by done.
  match type of H with if ?b then _ else _ => replace b with true in H by (by vm_compute) end.
  replace (dmount (dir_at demo_tmpfs 2)) with 1 in H by (by vm_compute).
  replace (clock demo_tmpfs) with 7 in H by (by vm_compute). exact H.
Defined.

Lemma unlink_tmpfs_correct_witness :
  unlink_tmpfs (node_of 1) (str "a") demo_tmpfs = Done (- ENOTEMPTY, demo_tmpfs) ∧
  ∃ t', unlink_tmpfs (node_of 1) (str "f") demo_tmpfs = Done (0, t') ∧ entries t' !! 3 = None.
Proof.
  split.
  - pose proof (unlink_tmpfs_correct demo_tmpfs (node_of 1) (dir_at demo_tmpfs 1) (str "a")
      demo_tmpfs_wf ltac:(by vm_compute) ltac:(apply (bool_decide_unpack _); by vm_compute)) as H. cbv zeta in H.
    replace (dir_lookup demo_tmpfs (inode (node_of 1)) (str "a")) with (Some 2) in H by (by vm_compute).
    replace (entries demo_tmpfs !! 2) with (Some (EDir (Dir (str "a") 493 0 0 7 7 7 1 [4] 1))) in H by (by vm_compute).
    exact H.
  - pose proof (unlink_tmpfs_correct demo_tmpfs (node_of 1) (dir_at demo_tmpfs 1) (str "f")
      demo_tmpfs_wf ltac:(by vm_compute) ltac:(apply (bool_decide_unpack _); by vm_compute)) as H. cbv zeta in H.
    replace (dir_lookup demo_tmpfs (inode (node_of 1)) (str "f")) with (Some 3) in H by (by vm_compute).
    replace (entries demo_tmpfs !! 3) with
      (Some (EFile (new_file (str "f") TMPFS_TYPE_FILE 420 0 0 7 1 0 []))) in H by (by vm_compute).
    destruct H as (t' & E & _ & H & _). exists t'. split; [exact E|exact H].
Defined.

Lemma demo_rooted : rooted demo_tmpfs 2.
Proof.
  apply (rooted_up _ 2 (dir_at demo_tmpfs 2)); [by vm_compute|].
  apply (rooted_up _ _ (dir_at demo_tmpfs 1)); [by vm_compute|]. apply rooted_end.
Qed.

Lemma rename_tmpfs_correct_witness :
  (∃ fuel t', rename_tmpfs fuel (node_of 1) (str "f") (node_of 2) (str "l") demo_tmpfs = Done (0, t') ∧
    dir_lookup t' 2 (str "l") = Some 3 ∧ dir_lookup t' 1 (str "f") = None) ∧
  ∃ fuel e, rename_tmpfs fuel (node_of 1) (str "a") (node_of 2) (str "x") demo_tmpfs = Done (e, demo_tmpfs) ∧ e ∈ errors.
Proof.
  split.
  - destruct (rename_tmpfs_correct demo_tmpfs (node_of 1) (dir_at demo_tmpfs 1) (str "f") (node_of 2)
      (dir_at demo_tmpfs 2) (str "l") demo_tmpfs_wf ltac:(by vm_compute) ltac:(by vm_compute)
      ltac:(apply (bool_decide_unpack _); by vm_compute) ltac:(apply (bool_decide_unpack _); by vm_compute) demo_rooted) as (fuel & H).
    specialize (H fuel ltac:(lia)). cbv zeta in H.
    replace (dir_lookup demo_tmpfs (inode (node_of 1)) (path_dup (str "f"))) with (Some 3) in H by (by vm_compute).
    specialize (H (EFile (new_file (str "f") TMPFS_TYPE_FILE 420 0 0 7 1 0 [])) false ltac:(by vm_compute) ltac:(naive_solver)).
    match type of H with if ?b then _ else _ => replace b with true in H by (by vm_compute) end.
    destruct H as (t' & E & _ & _ & Hl). exists fuel, t'. split; [exact E|]. rewrite !Hl. split; by vm_compute.
  - destruct (rename_tmpfs_correct demo_tmpfs (node_of 1) (dir_at demo_tmpfs 1) (str "a") (node_of 2)
      (dir_at demo_tmpfs 2) (str "x") demo_tmpfs_wf ltac:(by vm_compute) ltac:(by vm_compute)
      ltac:(apply (bool_decide_unpack _); by vm_compute) ltac:(apply (bool_decide_unpack _); by vm_compute) demo_rooted) as (fuel & H).
    specialize (H fuel ltac:(lia)). cbv zeta in H.
    replace (dir_lookup demo_tmpfs (inode (node_of 1)) (path_dup (str "a"))) with (Some 2) in H by (by vm_compute).
    specialize (H (EDir (dir_at demo_tmpfs 2)) true ltac:(by vm_compute) ltac:(split; [intros _; split; [done|apply within_here]|done])).
    match type of H with if ?b then _ else _ => replace b with false in H by (by vm_compute) end. by exists fuel.
Defined.

Lemma tmpfs_listing_correct_witness :
  ∃ a nm n, readdir_tmpfs (node_of 1) 3 demo_tmpfs = Done (Some (a, nm), demo_tmpfs) ∧
    finddir_tmpfs (node_of 1) nm demo_tmpfs = Done (Some n, demo_tmpfs) ∧ inode n = a.
Proof.
  destruct (tmpfs_listing_correct demo_tmpfs (node_of 1) (dir_at demo_tmpfs 1) demo_tmpfs_wf
    ltac:(by vm_compute) ltac:(by vm_compute)) as (_ & _ & _ & H & _).
  exact (H 1%nat ltac:(vm_compute; lia)).
Defined.

(** ** What [rename_tmpfs] does not do *)

(** A rename leaves the moved directory's [parent] as it was.  After [a] moves into [b],
    [b] can therefore move into [a]: the check for moving a directory below itself
    follows the old parents.  Both directories then hold each other and neither is
    reachable from the root. *)
Example rename_tmpfs_cycle :
  ∃ t, (r ← tmpfs_create (str "tmp");
        mkdir_tmpfs r root_user (str "a") 493;;
        mkdir_tmpfs r root_user (str "b") 493;;
        rename_tmpfs 9 r (str "a") (node_of 3) (str "a");;
        rename_tmpfs 9 r (str "b") (node_of 2) (str "b")) empty_tmpfs = Done (0, t) ∧
    files (dir_at t 1) = [] ∧ dir_lookup t 3 (str "a") = Some 2 ∧ dir_lookup t 2 (str "b") = Some 3.
Proof. eexists. split_and!; by vm_compute. Qed.

(** And after the old parent is removed, the walk up the parents reads freed memory. *)
Example rename_tmpfs_dangling_parent :
  (r ← tmpfs_create (str "tmp");
   mkdir_tmpfs r root_user (str "a") 493;;
   mkdir_tmpfs (node_of 2) root_user (str "c") 493;;
   mkdir_tmpfs r root_user (str "x") 493;;
   rename_tmpfs 9 (node_of 2) (str "c") r (str "c");;
   unlink_tmpfs r (str "a");;
   rename_tmpfs 9 r (str "x") (node_of 3) (str "x")) empty_tmpfs = Fault.
Proof. by vm_compute. Qed.

#[local] Instance demo_tmpfs_fs : FileSystem tmpfs := tmpfs_fs 9.

(** A path through the VFS and a tmpfs mounted at the root: the file made by
    [create_file_fs] below a directory made by [mkdir_fs] is the one [kopen] opens. *)
Example tmpfs_through_vfs :
  let V := vfs_state (W := tmpfs) in
  match (tmpfs_create (str "tmp") empty_tmpfs : outcome (fs_node_t * tmpfs)) with
  | Done (r, w) =>
      let s : V := Vfs (Some r) (MNode (str "[root]") (Some r) None None []) w in
      match (mkdir_fs root_user (str "/d") 493;; create_file_fs root_user (str "/d/f") 420;;
             kopen root_user (str "/d/../d/f") 0) s with
      | Done (Some n, s') => inode n = 3 ∧ dir_lookup (world s') 2 (str "f") = Some 3
      | _ => False
      end
  | _ => False
  end.
Proof. by vm_compute. Qed.
