(* ===== verification/Tty.v ===== *)
(** * Terminals ([src/kernel/vfs/tty.c])

    The line discipline of a pseudo-terminal: [input_process] handles one byte typed at
    the master, [output_process] one byte written by the slave, [pty_ioctl] the modes and
    the job control of the terminal.  The two callbacks [write_in] and [write_out], the
    ring buffer's [ring_buffer_eof] and [ring_buffer_discard] and [group_send_signal]
    are recorded as events in the order they are called; whether a call of [write_in]
    blocks on a full buffer is the business of RingBuffer.

    The editing buffer is the array of the code, with its index arithmetic and signed
    characters; an access outside it faults.  [tty_refines_editor] compares it with an
    editor on lists. *)
From S2P Require Import Prelude.
Local Open Scope Z_scope.

(** ** Constants *)

Definition VEOF : nat := 1.
Definition VEOL : nat := 2.
Definition VERASE : nat := 3.
Definition VINTR : nat := 4.
Definition VKILL : nat := 5.
Definition VMIN : nat := 6.
Definition VQUIT : nat := 7.
Definition VSUSP : nat := 10.
Definition VLNEXT : nat := 12.
Definition VWERASE : nat := 13.

Definition ICRNL : Z := 2.
Definition IGNCR : Z := 8.
Definition INLCR : Z := 32.
Definition ISTRIP : Z := 128.
Definition IUCLC : Z := 256.
Definition BRKINT : Z := 1.

Definition OPOST : Z := 1.
Definition OLCUC : Z := 2.
Definition ONLCR : Z := 4.
Definition ONLRET : Z := 32.

Definition ISIG : Z := 1.
Definition ICANON : Z := 2.
Definition ECHO : Z := 8.
Definition ECHOE : Z := 16.
Definition ECHOK : Z := 32.
Definition ECHONL : Z := 64.
Definition TOSTOP : Z := 256.
Definition IEXTEN : Z := 512.
Definition ECHOCTL : Z := 1024.

Definition SIGINT : Z := 2.
Definition SIGQUIT : Z := 3.
Definition SIGWINCH : Z := 20.
Definition SIGTSTP : Z := 24.
Definition SIGTTIN : Z := 26.
Definition SIGTTOU : Z := 37.

Definition TTY_BUFFER_SIZE : Z := 4096.
Definition NCCS : nat := 32.

Definition BS : Z := 8.
Definition NL : Z := 10.
Definition CR : Z := 13.
Definition SPACE : Z := 32.

(** ** Data *)

Record termios : Type := Termios {
  c_iflag : Z;
  c_oflag : Z;
  c_cflag : Z;
  c_lflag : Z;
  c_cc : list Z
}.

(** The calls a terminal makes. *)
Inductive event : Type :=
  | In (c : Z)
  | Out (c : Z)
  | Eof
  | Discard
  | Signal (group sig : Z).

Record pty_t : Type := Pty {
  tios : termios;
  winsize : Z;
  (** signed characters *)
  canon_buffer : list Z;
  canon_bufsize : Z;
  canon_buflen : Z;
  ct_proc : Z;
  fg_proc : Z;
  next_is_verbatim : bool;
  owner_uid : Z;
  events : list event
}.

Definition with_buf (p : pty_t) (b : list Z) (n : Z) : pty_t :=
  Pty (tios p) (winsize p) b (canon_bufsize p) n (ct_proc p) (fg_proc p) (next_is_verbatim p) (owner_uid p) (events p).
Definition with_verbatim (p : pty_t) (v : bool) : pty_t :=
  Pty (tios p) (winsize p) (canon_buffer p) (canon_bufsize p) (canon_buflen p) (ct_proc p) (fg_proc p) v (owner_uid p) (events p).
Definition with_event (p : pty_t) (e : event) : pty_t :=
  Pty (tios p) (winsize p) (canon_buffer p) (canon_bufsize p) (canon_buflen p) (ct_proc p) (fg_proc p)
    (next_is_verbatim p) (owner_uid p) (events p ++ [e]).
Definition with_tios (p : pty_t) (t : termios) : pty_t :=
  Pty t (winsize p) (canon_buffer p) (canon_bufsize p) (canon_buflen p) (ct_proc p) (fg_proc p)
    (next_is_verbatim p) (owner_uid p) (events p).
Definition with_procs (p : pty_t) (ct fg : Z) : pty_t :=
  Pty (tios p) (winsize p) (canon_buffer p) (canon_bufsize p) (canon_buflen p) ct fg
    (next_is_verbatim p) (owner_uid p) (events p).
Definition with_winsize (p : pty_t) (w : Z) : pty_t :=
  Pty (tios p) w (canon_buffer p) (canon_bufsize p) (canon_buflen p) (ct_proc p) (fg_proc p)
    (next_is_verbatim p) (owner_uid p) (events p).
Definition with_owner (p : pty_t) (u : Z) : pty_t :=
  Pty (tios p) (winsize p) (canon_buffer p) (canon_bufsize p) (canon_buflen p) (ct_proc p) (fg_proc p)
    (next_is_verbatim p) u (events p).

Definition is_set (flags f : Z) : bool := negb (Z.land flags f =? 0).
Definition lflag (p : pty_t) (f : Z) : bool := is_set (c_lflag (tios p)) f.
Definition iflag (p : pty_t) (f : Z) : bool := is_set (c_iflag (tios p)) f.
Definition oflag (p : pty_t) (f : Z) : bool := is_set (c_oflag (tios p)) f.
Definition cc (t : termios) (i : nat) : Z := nth i (c_cc t) 0.

(** ** Operations *)

Definition emit (e : event) : St pty_t unit := modify (λ p, with_event p e).
Definition IN (c : Z) : St pty_t unit := emit (In (u8 c)).
Definition OUT (c : Z) : St pty_t unit := emit (Out (u8 c)).

(** [pty->canon_buffer[i]] *)
Definition rd_canon (i : Z) : St pty_t Z := λ p,
  if i <? 0 then Fault
  else match canon_buffer p !! Z.to_nat i with Some c => Done (c, p) | None => Fault end.
Definition wr_canon (i c : Z) : St pty_t unit := λ p,
  if (0 <=? i) && (i <? Z.of_nat (length (canon_buffer p)))
  then Done (tt, with_buf p (<[Z.to_nat i := i8 c]> (canon_buffer p)) (canon_buflen p))
  else Fault.
Definition set_buflen (n : Z) : St pty_t unit := modify (λ p, with_buf p (canon_buffer p) (u64 n)).

(** The loop of [dump_input_buffer], with the pointer [c] as an index. *)
Fixpoint dump_from (fuel : nat) (c : Z) : St pty_t unit :=
  match fuel with
  | O => λ _, Timeout
  | S f =>
      n ← gets canon_buflen;
      if 0 <? n then
        x ← rd_canon c;
        IN x;;
        set_buflen (n - 1);;
        dump_from f (c + 1)
      else mret tt
  end.

Definition dump_input_buffer : St pty_t unit := λ p, dump_from (S (length (canon_buffer p))) 0 p.

Definition clear_input_buffer : St pty_t unit :=
  set_buflen 0;; wr_canon 0 0.

Definition tty_output_process_slave (c : Z) : St pty_t unit := λ p,
  (if negb (oflag p OPOST) then OUT c
   else if (c =? NL) && oflag p ONLCR then OUT NL;; OUT CR
   else if (c =? CR) && oflag p ONLRET then mret tt
   else if (97 <=? c) && (c <=? 122) && oflag p OLCUC then OUT (c + 65 - 97)
   else OUT c) p.

Definition output_process (c : Z) : St pty_t unit := tty_output_process_slave c.

Definition is_control (c : Z) : bool := (c <? SPACE) || (c =? 0x7F).

(** [for (int i = 0; i < vwidth; ++i)] in [erase_one]. *)
Fixpoint backspaces (vwidth : nat) : St pty_t unit :=
  match vwidth with
  | O => mret tt
  | S w => output_process BS;; output_process SPACE;; output_process BS;; backspaces w
  end.

Definition erase_one (erase : bool) : St pty_t unit :=
  n ← gets canon_buflen;
  if 0 <? n then
    set_buflen (n - 1);;
    x ← rd_canon (n - 1);
    wr_canon (n - 1) 0;;
    e ← gets (λ p, lflag p ECHO);
    if e && erase then backspaces (if is_control x then 2 else 1) else mret tt
  else mret tt.

(** The echo of a control character as [^X], of another as itself. *)
Definition echo_caret (c : Z) : St pty_t unit := λ p,
  (if lflag p ECHOCTL && is_control c then output_process 94;; output_process ((64 + c) mod 128)
   else output_process c) p.

Definition echo_caret_nl (c : Z) : St pty_t unit := λ p,
  (if lflag p ECHOCTL && is_control c && negb (c =? NL)
   then output_process 94;; output_process ((64 + c) mod 128)
   else output_process c) p.

Definition when_ (b : pty_t → bool) (m : St pty_t unit) : St pty_t unit := λ p,
  if b p then m p else Done (tt, p).

(** [while (pty->canon_buflen && test(pty->canon_buffer[pty->canon_buflen-1])) erase_one(...)]. *)
Fixpoint erase_while (fuel : nat) (test : Z → bool) (erase : bool) : St pty_t unit :=
  match fuel with
  | O => λ _, Timeout
  | S f =>
      n ← gets canon_buflen;
      if n =? 0 then mret tt
      else
        x ← rd_canon (n - 1);
        if test x then erase_one erase;; erase_while f test erase else mret tt
  end.

(** [while (pty->canon_buflen > 0) erase_one(...)]. *)
Fixpoint erase_all (fuel : nat) (erase : bool) : St pty_t unit :=
  match fuel with
  | O => λ _, Timeout
  | S f =>
      n ← gets canon_buflen;
      if 0 <? n then erase_one erase;; erase_all f erase else mret tt
  end.

Definition loop_fuel (p : pty_t) : nat := S (length (canon_buffer p)).

(** [if (pty->canon_buflen < pty->canon_bufsize) pty->canon_buffer[pty->canon_buflen++] = c]. *)
Definition put_canon (c : Z) : St pty_t unit := λ p,
  if canon_buflen p <? canon_bufsize p
  then (wr_canon (canon_buflen p) c;; set_buflen (canon_buflen p + 1)) p
  else Done (tt, p).

Definition verbatim_input (c : Z) : St pty_t unit :=
  modify (λ p, with_verbatim p false);;
  put_canon c;;
  when_ (λ p, lflag p ECHO) (echo_caret c).

(** The signal a character stands for. *)
Definition signal_of (t : termios) (c : Z) : option Z :=
  if c =? cc t VINTR then Some SIGINT
  else if c =? cc t VQUIT then Some SIGQUIT
  else if c =? cc t VSUSP then Some SIGTSTP
  else None.

Definition signal_input (c sig : Z) : St pty_t unit :=
  when_ (λ p, lflag p ECHO) (echo_caret c);;
  clear_input_buffer;;
  g ← gets fg_proc;
  if g =? 0 then mret tt else emit (Signal g sig).

(** The input translations; [None] drops the character. *)
Definition translate (t : termios) (c : Z) : option Z :=
  let on f := is_set (c_iflag t) f in
  let c := if on ISTRIP then Z.land c 0x7F else c in
  if on IGNCR && (c =? CR) then None
  else
    let c := if on INLCR && (c =? NL) then CR
             else if on ICRNL && (c =? CR) then NL else c in
    Some (if on IUCLC && (65 <=? c) && (c <=? 90) then c - 65 + 97 else c).

(** [if ((c_lflag & ECHO) && !(c_lflag & flag))]: echo the editing character itself. *)
Definition echo_edit (flag c : Z) : St pty_t unit :=
  when_ (λ p, lflag p ECHO && negb (lflag p flag)) (echo_caret c).

Definition canon_input (c : Z) : St pty_t unit := λ p,
  let t := tios p in
  (if (c =? cc t VLNEXT) && lflag p IEXTEN then
     modify (λ p, with_verbatim p true);; output_process 94;; output_process BS
   else if c =? cc t VKILL then
     erase_all (loop_fuel p) (lflag p ECHOK);; echo_edit ECHOK c
   else if c =? cc t VERASE then
     erase_one (lflag p ECHOE);; echo_edit ECHOE c
   else if (c =? cc t VWERASE) && lflag p IEXTEN then
     erase_while (loop_fuel p) (λ x, x =? SPACE) (lflag p ECHOE);;
     erase_while (loop_fuel p) (λ x, negb (x =? SPACE)) (lflag p ECHOE);;
     echo_edit ECHOE c
   else if c =? cc t VEOF then
     if negb (canon_buflen p =? 0) then dump_input_buffer else emit Eof
   else
     put_canon c;;
     when_ (λ p, lflag p ECHO) (echo_caret_nl c);;
     if (c =? NL) || (negb (cc t VEOL =? 0) && (c =? cc t VEOL)) then
       when_ (λ p, negb (lflag p ECHO) && lflag p ECHONL) (output_process c);;
       n ← gets canon_buflen;
       wr_canon (n - 1) c;;
       dump_input_buffer
     else mret tt) p.

Definition tty_input_process (c : Z) : St pty_t unit := λ p,
  if next_is_verbatim p then verbatim_input c p
  else
    let sig := if lflag p ISIG then signal_of (tios p) c else None in
    match sig with
    | Some s => signal_input c s p
    | None =>
        match translate (tios p) c with
        | None => Done (tt, p)
        | Some c =>
            if lflag p ICANON then canon_input c p
            else (when_ (λ p, lflag p ECHO) (echo_caret_nl c);; IN c) p
        end
    end.

Fixpoint input_bytes (buffer : list Z) : St pty_t unit :=
  match buffer with
  | [] => mret tt
  | c :: cs => tty_input_process c;; input_bytes cs
  end.

Definition write_pty_master (buffer : list Z) : St pty_t Z :=
  input_bytes buffer;; mret (Z.of_nat (length buffer)).

(** ** Modes and job control *)

(** The calling process: its id, session, job, user, and the signals it blocks or
    ignores. *)
Record caller : Type := Caller {
  pid : Z;
  session : Z;
  job : Z;
  cuser : Z;
  ignoring : Z → bool
}.

(** The requests, with what their argument points to; [None] is a null pointer. *)
Inductive request : Type :=
  | IOCTLDTYPE
  | IOCTLTTYNAME (arg : bool)
  | IOCTLTTYLOGIN (uid : option Z)
  | TIOCSWINSZ (w : option Z)
  | TIOCGWINSZ (arg : bool)
  | TCGETS (arg : bool)
  | TIOCSPGRP (g : option Z)
  | TIOCGPGRP (arg : bool)
  | TIOCSCTTY (arg : option Z)
  | TCSETS (t : option termios)
  | TCSETSW (t : option termios)
  | TCSETSF (t : option termios)
  | Other.

(** What a request stores through its argument. *)
Inductive answer : Type :=
  | Nothing
  | AName (n : list Z)
  | AWinsize (w : Z)
  | ATermios (t : termios)
  | AGroup (g : Z).

Definition tcset (t : termios) : St pty_t (Z * answer) :=
  modify (λ p, with_tios p t);; mret (0, Nothing).

(** [name] is what the callback [fill_name] stores. *)
Definition pty_ioctl (name : list Z) (me : caller) (r : request) : St pty_t (Z * answer) := λ p,
  let fail e : St pty_t (Z * answer) := mret (- e, Nothing) in
  (match r with
   | IOCTLDTYPE => mret (2, Nothing)
   | IOCTLTTYNAME a => if a then mret (0, AName name) else fail EINVAL
   | IOCTLTTYLOGIN a =>
       if negb (cuser me =? 0) then fail EPERM
       else match a with
            | None => fail EINVAL
            | Some u => modify (λ p, with_owner p u);; mret (0, Nothing)
            end
   | TIOCSWINSZ a =>
       match a with
       | None => fail EINVAL
       | Some w =>
           modify (λ p, with_winsize p w);;
           (if fg_proc p =? 0 then mret tt else emit (Signal (fg_proc p) SIGWINCH));;
           mret (0, Nothing)
       end
   | TIOCGWINSZ a => if a then mret (0, AWinsize (winsize p)) else fail EINVAL
   | TCGETS a => if a then mret (0, ATermios (tios p)) else fail EINVAL
   | TIOCSPGRP a =>
       match a with
       | None => fail EINVAL
       | Some g => modify (λ p, with_procs p (ct_proc p) g);; mret (0, Nothing)
       end
   | TIOCGPGRP a => if a then mret (0, AGroup (fg_proc p)) else fail EINVAL
   | TIOCSCTTY a =>
       if (session me =? pid me) && (ct_proc p =? session me) then mret (0, Nothing)
       else if negb (session me =? pid me) then fail EPERM
       else if negb (ct_proc p =? 0) &&
               (negb (bool_decide (a = Some 1)) || negb (cuser me =? 0)) then fail EPERM
       else modify (λ p, with_procs p (session me) (fg_proc p));; mret (0, Nothing)
   | TCSETS a | TCSETSW a =>
       match a with
       | None => fail EINVAL
       | Some t =>
           (if negb (is_set (c_lflag t) ICANON) && lflag p ICANON then dump_input_buffer else mret tt);;
           tcset t
       end
   | TCSETSF a =>
       clear_input_buffer;;
       emit Discard;;
       match a with
       | None => fault (* memcpy from the null pointer *)
       | Some t => tcset t
       end
   | Other => fail EINVAL
   end) p.

(** Whether a process of the terminal's session is not in its foreground job. *)
Definition background (p : pty_t) (me : caller) : bool :=
  (ct_proc p =? session me) && negb (fg_proc p =? 0) && negb (job me =? fg_proc p).

(** [read_pty_slave]: [rd i n] is the result of the [i]-th call of [ring_buffer_read]
    for [n] bytes, the bytes read or an error. *)
Fixpoint read_vmin (fuel : nat) (rd : nat → Z → list Z + Z) (i : nat) (size vmin : Z) (got : list Z)
    : outcome (Z * list Z) :=
  match fuel with
  | O => Timeout
  | S f =>
      if Z.of_nat (length got) <? vmin then
        match rd i (size - Z.of_nat (length got)) with
        | inr e => Done (if bool_decide (got = []) then - e else Z.of_nat (length got), got)
        | inl bs => read_vmin f rd (S i) size vmin (got ++ bs)
        end
      else Done (Z.of_nat (length got), got)
  end.

Definition read_pty_slave (fuel : nat) (rd : nat → Z → list Z + Z) (me : caller) (size : Z)
    : St pty_t (Z * list Z) := λ p,
  let once := match rd 0%nat size with
              | inl bs => Done ((Z.of_nat (length bs), bs), p)
              | inr e => Done ((- e, []), p)
              end in
  if background p me then
    if ignoring me SIGTTIN then Done ((- EIO, []), p)
    else (emit (Signal (job me) SIGTTIN);; mret (- ERESTARTSYS, [])) p
  else if lflag p ICANON then once
  else if cc (tios p) VMIN =? 0 then once
  else
    r ← read_vmin fuel rd 0 size (Z.min (cc (tios p) VMIN) size) [];
    Done (r, p).

Fixpoint write_slave_bytes (buffer : list Z) : St pty_t unit :=
  match buffer with
  | [] => mret tt
  | c :: cs => tty_output_process_slave c;; write_slave_bytes cs
  end.

Definition write_pty_slave (me : caller) (buffer : list Z) : St pty_t Z := λ p,
  if lflag p TOSTOP && background p me && negb (ignoring me SIGTTOU)
  then (emit (Signal (job me) SIGTTOU);; mret (- ERESTARTSYS)) p
  else (write_slave_bytes buffer;; mret (Z.of_nat (length buffer))) p.

(** [pty_new]: the modes and buffers of a new terminal; the contents [mem] of the
    allocated editing buffer are arbitrary. *)
Definition default_cc : list Z :=
  [0; 4; 0; 0x7f; 3; 21; 1; 28; 17; 19; 26; 0; 22; 23] ++ replicate 18 0.

Definition default_termios : termios :=
  Termios (Z.lor ICRNL BRKINT) (Z.lor ONLCR OPOST) 0xbf
    (foldr Z.lor 0 [ECHO; ECHOE; ECHOK; ICANON; ISIG; IEXTEN; ECHOCTL]) default_cc.

Definition pty_new (mem : list Z) (size : option Z) : pty_t :=
  Pty default_termios (default (25 + 80 * 65536) size) mem (TTY_BUFFER_SIZE - 2) 0 0 0 false 0 [].

(** ** An editor on lists *)

(** What reaches the reader of the terminal and its processes. *)
Definition is_input (e : event) : bool := match e with Out _ => false | _ => true end.
Definition input_events (es : list event) : list event := List.filter is_input es.

Record editor : Type := Editor { line : list Z; literal : bool }.

Definition add_char (cap : Z) (l : list Z) (c : Z) : list Z :=
  if Z.of_nat (length l) <? cap then l ++ [c] else l.

Definition drop_last (l : list Z) : list Z := take (length l - 1) l.

(** The last word: the spaces at the end, then what is not a space. *)
Fixpoint drop_while_last (p : Z → bool) (r : list Z) : list Z :=
  match r with [] => [] | c :: r' => if p c then drop_while_last p r' else r end.
Definition erase_trailing (p : Z → bool) (l : list Z) : list Z := reverse (drop_while_last p (reverse l)).
Definition erase_word (l : list Z) : list Z :=
  erase_trailing (λ x, negb (x =? SPACE)) (erase_trailing (λ x, x =? SPACE) l).

Definition ends_line (t : termios) (c : Z) : bool :=
  (c =? NL) || (negb (cc t VEOL =? 0) && (c =? cc t VEOL)).

(** One byte: the editor afterwards and what it hands on. *)
Definition edit_canon (t : termios) (cap : Z) (e : editor) (c : Z) : editor * list event :=
  if (c =? cc t VLNEXT) && is_set (c_lflag t) IEXTEN then (Editor (line e) true, [])
  else if c =? cc t VKILL then (Editor [] false, [])
  else if c =? cc t VERASE then (Editor (drop_last (line e)) false, [])
  else if (c =? cc t VWERASE) && is_set (c_lflag t) IEXTEN then (Editor (erase_word (line e)) false, [])
  else if c =? cc t VEOF then
    (Editor [] false, if bool_decide (line e = []) then [Eof] else In <$> line e)
  else
    let l := add_char cap (line e) c in
    if ends_line t c then (Editor [] false, In <$> (drop_last l ++ [c])) else (Editor l false, []).

Definition edit (t : termios) (cap fg : Z) (e : editor) (c : Z) : editor * list event :=
  if literal e then (Editor (add_char cap (line e) c) false, [])
  else match (if is_set (c_lflag t) ISIG then signal_of t c else None) with
  | Some s => (Editor [] false, if fg =? 0 then [] else [Signal fg s])
  | None =>
      match translate t c with
      | None => (e, [])
      | Some c => if is_set (c_lflag t) ICANON then edit_canon t cap e c else (e, [In c])
      end
  end.

Fixpoint edits (t : termios) (cap fg : Z) (e : editor) (cs : list Z) : editor * list event :=
  match cs with
  | [] => (e, [])
  | c :: cs =>
      let '(e1, o1) := edit t cap fg e c in
      let '(e2, o2) := edits t cap fg e1 cs in (e2, o1 ++ o2)
  end.

Definition byte_ (c : Z) : Prop := 0 ≤ c < 256.

(** The terminal [p] holds the line [l] in its buffer. *)
Record rep (t : termios) (cap fg : Z) (p : pty_t) (l : list Z) (v : bool) (io : list event) : Prop := {
  rp_tios : tios p = t;
  rp_cap : canon_bufsize p = cap;
  rp_fg : fg_proc p = fg;
  rp_v : next_is_verbatim p = v;
  rp_len : canon_buflen p = Z.of_nat (length l);
  rp_buf : take (length l) (canon_buffer p) = i8 <$> l;
  rp_fit : Z.of_nat (length l) ≤ cap;
  rp_room : 0 < cap ∧ cap < Z.of_nat (length (canon_buffer p)) < 2 ^ 63;
  rp_bytes : Forall byte_ l;
  rp_io : input_events (events p) = io
}.

(** ** Steps of the terminal *)

Section Steps.
Variables (t : termios) (cap fg : Z).

(** A step that returns and changes the line, the literal flag and the events. *)
Definition leads (m : St pty_t unit) (l : list Z) (v : bool) (io : list event)
    (l' : list Z) (v' : bool) (io' : list event) : Prop :=
  ∀ p, rep t cap fg p l v io → ∃ p', m p = Done (tt, p') ∧ rep t cap fg p' l' v' io'.

Lemma leads_ret l v io : leads (mret tt) l v io l v io.
Proof. intros p H. by exists p. Qed.

Lemma leads_seq m1 m2 l0 v0 io0 l1 v1 io1 l2 v2 io2 :
  leads m1 l0 v0 io0 l1 v1 io1 → leads m2 l1 v1 io1 l2 v2 io2 → leads (m1;; m2) l0 v0 io0 l2 v2 io2.
Proof.
  intros H1 H2 p H. destruct (H1 p H) as (p1 & E1 & R1). destruct (H2 p1 R1) as (p2 & E2 & R2).
  exists p2. split; [|done]. unfold mbind, St_bind. by rewrite E1.
Qed.

Lemma input_events_app a b : input_events (a ++ b) = input_events a ++ input_events b.
Proof. apply List.filter_app. Qed.

Lemma leads_emit e l v io : leads (emit e) l v io l v (io ++ input_events [e]).
Proof.
  intros p []. eexists. split; [done|]. split; simpl; try done. rewrite input_events_app. by subst.
Qed.

Lemma leads_out c l v io : leads (OUT c) l v io l v io.
Proof. pose proof (leads_emit (Out (u8 c)) l v io) as H. simpl in H. by rewrite app_nil_r in H. Qed.

(** A step chosen by the state. *)
Lemma leads_by (m : St pty_t unit) l v io l' v' io' (f : pty_t → St pty_t unit) :
  (∀ p, m p = f p p) → (∀ p, leads (f p) l v io l' v' io') → leads m l v io l' v' io'.
Proof. intros E H p Hp. rewrite E. by apply H. Qed.

Lemma leads_output c l v io : leads (output_process c) l v io l v io.
Proof.
  intros p H. unfold output_process, tty_output_process_slave.
  repeat case_match; [by apply leads_out| |by apply leads_ret|by apply leads_out|by apply leads_out].
  by apply (leads_seq _ _ _ _ _ _ _ _ _ _ _ (leads_out NL l v io) (leads_out CR l v io)).
Qed.

Lemma leads_caret c l v io : leads (echo_caret c) l v io l v io.
Proof.
  intros p H. unfold echo_caret. case_match; [|by apply leads_output].
  by apply (leads_seq _ _ _ _ _ _ _ _ _ _ _ (leads_output _ l v io) (leads_output _ l v io)).
Qed.

Lemma leads_caret_nl c l v io : leads (echo_caret_nl c) l v io l v io.
Proof.
  intros p H. unfold echo_caret_nl. case_match; [|by apply leads_output].
  by apply (leads_seq _ _ _ _ _ _ _ _ _ _ _ (leads_output _ l v io) (leads_output _ l v io)).
Qed.

Lemma leads_when b m l v io : leads m l v io l v io → leads (when_ b m) l v io l v io.
Proof. intros H p Hp. unfold when_. case_match; [by apply H|by exists p]. Qed.

Lemma leads_backspaces n l v io : leads (backspaces n) l v io l v io.
Proof.
  induction n as [|n IH]; simpl; [apply leads_ret|].
  repeat (eapply leads_seq; [apply leads_output|]). done.
Qed.

Lemma leads_verbatim b l v io : leads (modify (λ p, with_verbatim p b)) l v io l b io.
Proof. intros p []. eexists. split; [done|]. by split. Qed.

Lemma rep_canon p l v io i c :
  rep t cap fg p l v io → l !! i = Some c → canon_buffer p !! i = Some (i8 c).
Proof.
  intros R Hi. pose proof (lookup_lt_Some _ _ _ Hi).
  rewrite <-(lookup_take_lt _ (length l)), (rp_buf _ _ _ _ _ _ _ R), list_lookup_fmap, Hi by done. done.
Qed.

(** A write to the editing buffer and a new length of the line. *)
Lemma rep_write p l v io i x l' :
  rep t cap fg p l v io → take (length l') (<[i := x]> (canon_buffer p)) = i8 <$> l' →
  Z.of_nat (length l') ≤ cap → Forall byte_ l' →
  rep t cap fg (with_buf p (<[i := x]> (canon_buffer p)) (Z.of_nat (length l'))) l' v io.
Proof. intros [] Ht Hl Hb. split; simpl; try done. by rewrite length_insert. Qed.

Lemma leads_put c l v io : byte_ c → leads (put_canon c) l v io (add_char cap l c) v io.
Proof.
  intros Hc p R. pose proof R as []. unfold put_canon, add_char. rewrite rp_len0, rp_cap0.
  destruct (Z.ltb_spec (Z.of_nat (length l)) cap) as [Hlt|Hge]; [|by exists p].
  unfold mbind, St_bind, wr_canon. rewrite (proj2 (Z.leb_le _ _)), (proj2 (Z.ltb_lt _ _)) by lia. simpl.
  unfold set_buflen, modify. eexists. split; [done|]. simpl.
  replace (u64 (Z.of_nat (length l) + 1)) with (Z.of_nat (length (l ++ [c])))
    by (rewrite u64_small, length_app by lia; simpl; lia).
  apply (rep_write p l); try done.
  - rewrite Nat2Z.id, length_app, Nat.add_1_r.
    rewrite (take_S_r _ _ (i8 c)) by (apply list_lookup_insert_eq; lia).
    by rewrite take_insert_ge, rp_buf0, fmap_app by lia.
  - rewrite length_app. simpl. lia.
  - apply Forall_app. by rewrite Forall_singleton.
Qed.

Lemma drop_last_snoc l c : drop_last (l ++ [c]) = l.
Proof. unfold drop_last. rewrite length_app, take_app_le, take_ge; simpl; done || lia. Qed.

Lemma erase_one_run p l c v io erase :
  rep t cap fg p (l ++ [c]) v io →
  ∃ p', rep t cap fg p' l v io ∧ events p' = events p ∧
    erase_one erase p =
      (if lflag p ECHO && erase then backspaces (if is_control (i8 c) then 2 else 1) p' else Done (tt, p')).
Proof.
  intros R. pose proof R as []. rewrite length_app in *. simpl in *.
  assert (Hc : canon_buffer p !! length l = Some (i8 c)).
  { eapply rep_canon; [done|]. by rewrite lookup_app_r, Nat.sub_diag by lia. }
  exists (with_buf p (<[length l := i8 0]> (canon_buffer p)) (Z.of_nat (length l))). split.
  { apply (rep_write p (l ++ [c])); try done; [|lia|by apply Forall_app in rp_bytes0 as [? _]].
    rewrite take_insert_ge by lia. apply (f_equal (take (length l))) in rp_buf0.
    rewrite take_take, Nat.min_l in rp_buf0 by lia. rewrite rp_buf0.
    by rewrite fmap_app, take_app_le, take_ge by (rewrite length_fmap; lia). }
  split; [done|].
  unfold erase_one, mbind, St_bind, gets. rewrite rp_len0, (proj2 (Z.ltb_lt _ _)) by lia.
  unfold set_buflen, modify, rd_canon, wr_canon. simpl.
  replace (Z.of_nat (length l + 1) - 1) with (Z.of_nat (length l)) by lia.
  rewrite (proj2 (Z.ltb_ge _ _)), Nat2Z.id, Hc by lia. simpl.
  rewrite (proj2 (Z.leb_le _ _)), (proj2 (Z.ltb_lt _ _)), u64_small by lia. simpl.
  unfold lflag at 1. simpl. fold (lflag p ECHO). by destruct (lflag p ECHO && erase).
Qed.

Lemma leads_erase_one er l c v io : leads (erase_one er) (l ++ [c]) v io l v io.
Proof.
  intros p R. destruct (erase_one_run p l c v io er R) as (p' & R' & _ & ->).
  case_match; [by apply leads_backspaces|by exists p'].
Qed.

Lemma leads_erase er l v io : leads (erase_one er) l v io (drop_last l) v io.
Proof.
  destruct l as [|c l _] using rev_ind; [|rewrite drop_last_snoc; apply leads_erase_one].
  intros p []. eexists p. split; [|by split]. unfold erase_one, mbind, St_bind, gets. by rewrite rp_len0.
Qed.

Lemma leads_erase_all er l v io fuel :
  (length l < fuel)%nat → leads (erase_all fuel er) l v io [] v io.
Proof.
  revert l. induction fuel as [|f IH]; intros l Hf; [lia|]. simpl. intros p R.
  unfold mbind at 1, St_bind at 1, gets. rewrite (rp_len _ _ _ _ _ _ _ R).
  destruct l as [|c l _] using rev_ind; [by exists p|]. rewrite length_app in *. simpl in *.
  rewrite (proj2 (Z.ltb_lt _ _)) by lia.
  apply (leads_seq _ _ _ _ _ _ _ _ _ _ _ (leads_erase_one er l c v io) (IH l ltac:(lia)) p R).
Qed.

Lemma i8_byte_space c : byte_ c → (i8 c =? SPACE) = (c =? SPACE).
Proof.
  unfold byte_, i8, SPACE. intros Hc. destruct (Z.eqb_spec c 32) as [->|Hn]; [done|].
  apply Z.eqb_neq. intros E. apply Hn.
  destruct (decide (c < 128)); [rewrite Z.mod_small in E; lia|].
  replace (c + 2 ^ 7) with (c - 128 + 1 * 2 ^ 8) in E by lia. rewrite Z.mod_add, Z.mod_small in E by lia. lia.
Qed.

Lemma erase_trailing_snoc q l c :
  erase_trailing q (l ++ [c]) = if q c then erase_trailing q l else l ++ [c].
Proof.
  unfold erase_trailing. rewrite reverse_snoc. simpl. destruct (q c); [done|].
  by rewrite reverse_cons, reverse_involutive.
Qed.

Lemma leads_erase_while er test q l v io fuel :
  (∀ c, byte_ c → test (i8 c) = q c) → (length l < fuel)%nat →
  leads (erase_while fuel test er) l v io (erase_trailing q l) v io.
Proof.
  intros Hq. revert l. induction fuel as [|f IH]; intros l Hf; [lia|]. simpl. intros p R.
  unfold mbind at 1, St_bind at 1, gets. rewrite (rp_len _ _ _ _ _ _ _ R).
  destruct l as [|c l _] using rev_ind; [by exists p|]. rewrite length_app in *. simpl in *.
  rewrite (proj2 (Z.eqb_neq _ _)) by lia.
  unfold mbind at 1, St_bind at 1, rd_canon. rewrite (proj2 (Z.ltb_ge _ _)) by lia.
  replace (Z.to_nat (Z.of_nat (length l + 1) - 1)) with (length l) by lia.
  rewrite (rep_canon p _ v io (length l) c R) by (by rewrite lookup_app_r, Nat.sub_diag by lia).
  rewrite erase_trailing_snoc. pose proof (rp_bytes _ _ _ _ _ _ _ R) as Hb. apply Forall_app, proj2 in Hb. rewrite Forall_singleton in Hb.
  rewrite (Hq c Hb). destruct (q c); [|by exists p].
  apply (leads_seq _ _ _ _ _ _ _ _ _ _ _ (leads_erase_one er l c v io) (IH l ltac:(lia)) p R).
Qed.

Lemma u8_i8 c : byte_ c → u8 (i8 c) = c.
Proof.
  unfold byte_, u8, i8. intros Hc. destruct (decide (c < 128)).
  - rewrite (Z.mod_small (c + _)) by lia. rewrite Z.mod_small; lia.
  - replace (c + 2 ^ 7) with (c - 128 + 1 * 2 ^ 8) by lia. rewrite Z.mod_add, (Z.mod_small (c - 128)) by lia.
    replace (c - 128 - 2 ^ 7) with (c + (-1) * 2 ^ 8) by lia. rewrite Z.mod_add, Z.mod_small; lia.
Qed.

Lemma dump_from_run l : ∀ fuel c p,
  canon_buflen p = Z.of_nat (length l) → 0 ≤ c → Z.of_nat (length l) < 2 ^ 64 → Forall byte_ l →
  (∀ i x, l !! i = Some x → canon_buffer p !! (Z.to_nat c + i)%nat = Some (i8 x)) → (length l < fuel)%nat →
  dump_from fuel c p = Done (tt, Pty (tios p) (winsize p) (canon_buffer p) (canon_bufsize p) 0 (ct_proc p)
    (fg_proc p) (next_is_verbatim p) (owner_uid p) (events p ++ (In <$> l))).
Proof.
  induction l as [|x l IH]; intros [|f] c p Hn Hc Hm Hb Hr Hf; simpl in *; try lia;
    unfold mbind at 1, St_bind at 1, gets; rewrite Hn.
  { simpl. rewrite app_nil_r. unfold mret, St_ret. destruct p. simpl in *. by subst. }
  rewrite (proj2 (Z.ltb_lt _ _)) by lia. apply Forall_cons in Hb as [Hx Hb].
  unfold mbind at 1, St_bind at 1, rd_canon. rewrite (proj2 (Z.ltb_ge _ _)) by lia.
  pose proof (Hr 0%nat x eq_refl) as Hx0. rewrite Nat.add_0_r in Hx0. rewrite Hx0.
  unfold mbind, St_bind, IN, emit, set_buflen, modify. rewrite u8_i8 by done.
  rewrite IH; simpl.
  - by rewrite <-app_assoc.
  - rewrite u64_small; lia.
  - lia. - lia. - done.
  - intros i y Hi. rewrite <-(Hr (S i) y Hi). f_equal. lia.
  - lia.
Qed.

Lemma input_events_In l : input_events (In <$> l) = In <$> l.
Proof. induction l as [|c l IH]; [done|]. rewrite fmap_cons. unfold input_events in *. simpl. by f_equal. Qed.

Lemma leads_dump l v io : leads dump_input_buffer l v io [] v (io ++ (In <$> l)).
Proof.
  intros p R. pose proof R as []. eexists. unfold dump_input_buffer. split.
  - apply (dump_from_run l); try done; try lia. intros i x Hi. by eapply rep_canon.
  - split; simpl; try done; try lia. rewrite input_events_app. f_equal; [done|apply input_events_In].
Qed.

Lemma leads_clear l v io : leads clear_input_buffer l v io [] v io.
Proof.
  intros p R. pose proof R as []. unfold clear_input_buffer, set_buflen, wr_canon, mbind, St_bind, modify. simpl.
  rewrite (proj2 (Z.ltb_lt _ _)) by lia. eexists. split; [done|]. split; simpl; try done; try lia.
  by rewrite length_insert.
Qed.

(** The end of a line: the last character is stored again, then the line is handed on. *)
Lemma leads_finish c l v io :
  byte_ c → l ≠ [] →
  leads (n ← gets canon_buflen; wr_canon (n - 1) c;; dump_input_buffer) l v io [] v (io ++ (In <$> (drop_last l ++ [c]))).
Proof.
  intros Hc Hl p R. destruct l as [|x l _] using rev_ind; [done|]. rewrite drop_last_snoc. clear Hl.
  pose proof R as []. rewrite length_app in *. simpl in *.
  unfold mbind at 1, St_bind at 1, gets. rewrite rp_len0.
  unfold mbind at 1, St_bind at 1, wr_canon. rewrite (proj2 (Z.leb_le _ _)), (proj2 (Z.ltb_lt _ _)) by lia. simpl.
  apply (leads_dump (l ++ [c]) v io).
  replace (canon_buflen p) with (Z.of_nat (length (l ++ [c]))) by (rewrite rp_len0, length_app; done).
  replace (Z.to_nat (Z.of_nat (length l + 1) - 1)) with (length l) by lia.
  apply (rep_write p (l ++ [x])); try done; rewrite ?length_app; simpl; try lia.
  - rewrite Nat.add_1_r, (take_S_r _ _ (i8 c)) by (apply list_lookup_insert_eq; lia).
    rewrite take_insert_ge by lia. apply (f_equal (take (length l))) in rp_buf0.
    rewrite take_take, Nat.min_l in rp_buf0 by lia. rewrite rp_buf0.
    by rewrite !fmap_app, take_app_le, take_ge by (rewrite length_fmap; lia).
  - apply Forall_app in rp_bytes0 as [? _]. apply Forall_app. by rewrite Forall_singleton.
Qed.

Lemma translate_byte c c' : byte_ c → translate t c = Some c' → byte_ c'.
Proof.
  unfold translate, byte_. intros Hc.
  set (s := if is_set (c_iflag t) ISTRIP then Z.land c 127 else c).
  assert (Hs : 0 ≤ s < 256).
  { unfold s. case_match; [|done]. change 127 with (Z.ones 7). rewrite Z.land_ones by lia.
    pose proof (Z.mod_pos_bound c (2 ^ 7) ltac:(lia)). lia. }
  case_match; [done|]. intros [= <-]. unfold CR, NL.
  repeat case_match; repeat match goal with H : (_ && _) = true |- _ => apply andb_true_iff in H as [? ?] end;
    try (rewrite ?Z.leb_le in *); lia.
Qed.

Lemma leads_nil m l v io l' v' : leads m l v io l' v' io → leads m l v io l' v' (io ++ []).
Proof. by rewrite app_nil_r. Qed.

Lemma add_char_ne l c : 0 < cap → add_char cap l c ≠ [].
Proof.
  intros Hcap. unfold add_char. case_match eqn:E; [by destruct l|].
  apply Z.ltb_ge in E. destruct l; simpl in *; [lia|done].
Qed.

Lemma drop_while_last_length q (r : list Z) : (length (drop_while_last q r) ≤ length r)%nat.
Proof. induction r as [|c r IH]; simpl; [done|]. case_match; simpl; lia. Qed.

Lemma erase_trailing_length q l : (length (erase_trailing q l) ≤ length l)%nat.
Proof.
  unfold erase_trailing. rewrite length_reverse. etrans; [apply drop_while_last_length|]. by rewrite length_reverse.
Qed.

Lemma seq_assoc (m1 m2 m3 : St pty_t unit) p : (m1;; m2;; m3) p = ((m1;; m2);; m3) p.
Proof. unfold mbind, St_bind. by destruct (m1 p) as [[[] p1]| |]. Qed.

Lemma leads_canon c l io :
  byte_ c → let r := edit_canon t cap (Editor l false) c in
  leads (canon_input c) l false io (line r.1) (literal r.1) (io ++ r.2).
Proof.
  intros Hc r p R. unfold canon_input. unfold lflag. rewrite (rp_tios _ _ _ _ _ _ _ R).
  assert (Hfuel : (length l < loop_fuel p)%nat).
  { unfold loop_fuel. destruct R. lia. }
  subst r. unfold edit_canon. simpl line.
  destruct ((c =? cc t VLNEXT) && is_set (c_lflag t) IEXTEN).
  { revert R. apply leads_nil. eapply leads_seq; [apply leads_verbatim|].
    eapply leads_seq; apply leads_output. }
  destruct (c =? cc t VKILL).
  { revert R. apply leads_nil. eapply leads_seq; [by apply leads_erase_all|apply leads_when, leads_caret]. }
  destruct (c =? cc t VERASE).
  { revert R. apply leads_nil. eapply leads_seq; [apply leads_erase|apply leads_when, leads_caret]. }
  destruct ((c =? cc t VWERASE) && is_set (c_lflag t) IEXTEN).
  { revert R. apply leads_nil.
    eapply leads_seq; [by apply (leads_erase_while _ _ (λ x, x =? SPACE)); [apply i8_byte_space|]|].
    eapply leads_seq; [|apply leads_when, leads_caret].
    apply (leads_erase_while _ _ (λ x, negb (x =? SPACE))); [intros; by rewrite i8_byte_space|].
    eapply Nat.le_lt_trans; [apply erase_trailing_length|done]. }
  destruct (c =? cc t VEOF).
  { rewrite (rp_len _ _ _ _ _ _ _ R). destruct l as [|x l]; simpl; revert R; [apply leads_emit|apply leads_dump]. }
  fold (ends_line t c).
  assert (Hput : leads (put_canon c;; when_ (λ p, lflag p ECHO) (echo_caret_nl c)) l false io (add_char cap l c) false io).
  { eapply leads_seq; [by apply leads_put|apply leads_when, leads_caret_nl]. }
  pose proof (proj1 (rp_room _ _ _ _ _ _ _ R)) as Hcap.
  rewrite seq_assoc. destruct (ends_line t c); simpl; revert R.
  - eapply leads_seq; [exact Hput|]. eapply leads_seq; [apply leads_when, leads_output|].
    apply leads_finish; [done|]. by apply add_char_ne.
  - apply leads_nil. eapply leads_seq; [exact Hput|apply leads_ret].
Qed.

Lemma leads_input c e io :
  byte_ c → let r := edit t cap fg e c in
  leads (tty_input_process c) (line e) (literal e) io (line r.1) (literal r.1) (io ++ r.2).
Proof.
  intros Hc r p R. unfold tty_input_process. rewrite (rp_v _ _ _ _ _ _ _ R). subst r. unfold edit.
  destruct e as [l v]. simpl in *. destruct v.
  { simpl. revert R. apply leads_nil. eapply leads_seq; [apply leads_verbatim|].
    eapply leads_seq; [by apply leads_put|apply leads_when, leads_caret]. }
  unfold lflag. rewrite (rp_tios _ _ _ _ _ _ _ R).
  destruct (if is_set (c_lflag t) ISIG then signal_of t c else None) as [s|].
  { simpl. revert p R. fold (leads (signal_input c s) l false io [] false (io ++ (if fg =? 0 then [] else [Signal fg s]))).
    eapply leads_seq; [apply leads_when, leads_caret|]. eapply leads_seq; [apply leads_clear|].
    intros p R. unfold mbind, St_bind, gets. rewrite (rp_fg _ _ _ _ _ _ _ R).
    destruct (fg =? 0); revert p R; [apply leads_nil, leads_ret|apply leads_emit]. }
  destruct (translate t c) as [c'|] eqn:E; [|exists p; simpl; by rewrite app_nil_r].
  pose proof (translate_byte c c' Hc E) as Hc'.
  destruct (is_set (c_lflag t) ICANON); [by apply leads_canon|]. simpl. revert R.
  assert (leads (when_ (λ p, lflag p ECHO) (echo_caret_nl c');; IN c') l false io l false (io ++ [In c'])) as H.
  { eapply leads_seq; [apply leads_when, leads_caret_nl|]. unfold IN.
    replace (u8 c') with c' by (unfold u8; rewrite Z.mod_small; [done|exact Hc']). apply leads_emit. }
  apply H.
Qed.

Lemma leads_inputs cs e io :
  Forall byte_ cs → let r := edits t cap fg e cs in
  leads (input_bytes cs) (line e) (literal e) io (line r.1) (literal r.1) (io ++ r.2).
Proof.
  intros Hcs. revert e io. induction Hcs as [|c cs Hc Hcs IH]; intros e io; simpl.
  { apply leads_nil, leads_ret. }
  pose proof (leads_input c e io Hc) as H1. destruct (edit t cap fg e c) as [e1 o1] eqn:E1. simpl in H1.
  specialize (IH e1 (io ++ o1)). destruct (edits t cap fg e1 cs) as [e2 o2] eqn:E2. simpl in *.
  eapply leads_seq; [exact H1|]. by rewrite app_assoc.
Qed.
End Steps.

(** C5: the line discipline is an editor on lists.  For every mode of the terminal and
    every sequence of bytes typed at the master, [write_pty_master] returns (it neither
    runs outside the editing buffer nor loops), the buffer then holds the line the
    editor [edits] has, and the bytes, end-of-file marks and signals handed to the
    reader and the foreground job are the editor's, in order. *)
Theorem tty_refines_editor t cap fg p e io cs :
  rep t cap fg p (line e) (literal e) io → Forall byte_ cs →
  let r := edits t cap fg e cs in
  ∃ p', write_pty_master cs p = Done (Z.of_nat (length cs), p') ∧
    rep t cap fg p' (line r.1) (literal r.1) (io ++ r.2).
Proof.
  intros R Hcs r. destruct (leads_inputs t cap fg cs e io Hcs p R) as (p' & E & R').
  exists p'. split; [|done]. unfold write_pty_master, mbind, St_bind. by rewrite E.
Qed.

Lemma pty_new_rep size mem :
  length mem = Z.to_nat TTY_BUFFER_SIZE →
  rep default_termios 4094 0 (pty_new mem size) [] false [].
Proof. intros Hm. split; simpl; try done. rewrite Hm. unfold TTY_BUFFER_SIZE. lia. Qed.

(** [l], [s], backspace, [s], return: the reader gets [ls] and a newline. *)
Lemma tty_refines_editor_witness :
  ∃ p', write_pty_master [108; 120; 127; 115; 13] (pty_new (replicate 4096 0) None) = Done (5, p') ∧
    rep default_termios 4094 0 p' [] false [In 108; In 115; In 10].
Proof.
  destruct (tty_refines_editor default_termios 4094 0 (pty_new (replicate 4096 0) None) (Editor [] false) []
    [108; 120; 127; 115; 13] (pty_new_rep None (replicate 4096 0) ltac:(by rewrite length_replicate))
    ltac:(repeat (apply Forall_cons; split; [unfold byte_; lia|]); by apply Forall_nil)) as (p' & E & R).
  exists p'. split; [exact E|]. vm_compute in R. exact R.
Defined.

(** ** What is seen *)

(** The columns the cursor moves by: a backspace goes left, a byte from the space up
    takes a column. *)
Definition column (e : event) : Z :=
  match e with Out c => if c =? BS then -1 else if SPACE <=? c then 1 else 0 | _ => 0 end.
Definition columns (es : list event) : Z := foldr (λ e n, column e + n) 0 es.

Lemma columns_app a b : columns (a ++ b) = columns a + columns b.
Proof. induction a as [|e a IH]; simpl; [done|]. lia. Qed.

(** An echo with the modes of a new terminal. *)
Lemma output_default c p :
  tios p = default_termios → byte_ c → c ≠ NL → output_process c p = Done (tt, with_event p (Out c)).
Proof.
  intros Ht Hc Hn. unfold output_process, tty_output_process_slave, oflag. rewrite Ht.
  rewrite (proj2 (Z.eqb_neq c NL)) by done. simpl. rewrite !andb_false_r.
  unfold OUT, emit, modify, u8. by rewrite Z.mod_small.
Qed.

Lemma backspaces_default w p :
  tios p = default_termios → ∃ p', backspaces w p = Done (tt, p') ∧ tios p' = default_termios ∧
    columns (events p') = columns (events p) - Z.of_nat w.
Proof.
  revert p. induction w as [|w IH]; intros p Ht; simpl; [exists p; split_and!; [done|done|lia]|].
  unfold mbind, St_bind. rewrite !output_default by (done || (unfold byte_, BS, SPACE; lia)).
  edestruct (IH (with_event (with_event (with_event p (Out BS)) (Out SPACE)) (Out BS))) as (p' & E & Ht' & Hc); [done|].
  exists p'. split_and!; [done|done|]. rewrite Hc. simpl. rewrite !columns_app. simpl. unfold column. simpl. lia.
Qed.

Definition special : list Z := [3; 4; 10; 13; 21; 22; 23; 26; 28; 127].

Lemma echo_default c p :
  tios p = default_termios → byte_ c → c ∉ special →
  ∃ p', when_ (λ p, lflag p ECHO) (echo_caret_nl c) p = Done (tt, p') ∧
    columns (events p') = columns (events p) + (if c <? SPACE then 2 else 1).
Proof.
  intros Ht Hc Hs. unfold when_, lflag. rewrite Ht. simpl. unfold echo_caret_nl, lflag. rewrite Ht.
  assert (c ≠ NL ∧ c ≠ 127) as [H1 H2] by (unfold special, NL in *; set_solver).
  rewrite (proj2 (Z.eqb_neq c NL)) by done. rewrite andb_true_r. simpl. unfold is_control.
  rewrite (proj2 (Z.eqb_neq c 127)) by done. rewrite orb_false_r.
  destruct (Z.ltb_spec c SPACE) as [Hlt|Hge]; unfold byte_, SPACE in *.
  - rewrite Z.mod_small by lia. unfold mbind, St_bind.
    rewrite !output_default by (done || (unfold byte_, NL in *; lia)).
    eexists. split; [done|]. simpl. rewrite !columns_app. simpl. unfold column, BS, SPACE.
    rewrite (proj2 (Z.eqb_neq (64 + c) 8)), (proj2 (Z.leb_le 32 (64 + c))) by lia. simpl. lia.
  - rewrite output_default by done. eexists. split; [done|]. simpl. rewrite !columns_app. simpl. unfold column, BS, SPACE.
    rewrite (proj2 (Z.eqb_neq c 8)), (proj2 (Z.leb_le 32 c)) by lia. lia.
Qed.

(** An ordinary character in the modes of a new terminal. *)
Lemma input_default c p :
  tios p = default_termios → next_is_verbatim p = false → byte_ c → c ∉ special →
  tty_input_process c p = (put_canon c;; when_ (λ p, lflag p ECHO) (echo_caret_nl c)) p.
Proof.
  intros Ht Hv Hc Hs. unfold special in Hs.
  assert (∀ x, x ∈ [3; 4; 10; 13; 21; 22; 23; 26; 28; 127] → (c =? x) = false) as Hx.
  { intros x Hx. apply Z.eqb_neq. intros ->. done. }
  unfold tty_input_process, lflag. rewrite Hv, Ht. simpl. unfold signal_of, cc. simpl.
  rewrite (Hx 3), (Hx 28), (Hx 26) by set_solver. unfold translate. simpl. unfold CR. rewrite (Hx 13) by set_solver.
  simpl. unfold canon_input, lflag, cc. rewrite Ht. simpl.
  rewrite (Hx 22), (Hx 21), (Hx 127), (Hx 23), (Hx 4) by set_solver. unfold NL. rewrite (Hx 10) by set_solver. simpl.
  unfold mbind, St_bind. destruct (put_canon c p) as [[[] p1]| |]; [|done|done].
  by destruct (when_ _ _ p1) as [[[] p2]| |].
Qed.

(** An erased character leaves the screen.  In the modes of a new terminal, typing
    an ordinary character and then the erase character leaves the line as it was and
    the cursor in the column it was, for every character below 128, control characters
    echoed as [^X] included.  For a byte from 128 up the cursor ends one column too far
    left: the buffer holds signed characters, so [erase_one] takes the byte for a
    control character and rubs out two columns where one was echoed. *)
Theorem tty_erase_undoes_echo cap fg p l io c :
  rep default_termios cap fg p l false io → Z.of_nat (length l) < cap → byte_ c → c ∉ special →
  ∃ p', write_pty_master [c; 0x7f] p = Done (2, p') ∧ rep default_termios cap fg p' l false io ∧
    columns (events p') = columns (events p) + (if c <? 128 then 0 else -1).
Proof.
  intros R Hl Hc Hs. unfold write_pty_master, input_bytes, mbind, St_bind.
  rewrite (input_default c p (rp_tios _ _ _ _ _ _ _ R) (rp_v _ _ _ _ _ _ _ R) Hc Hs). unfold mbind, St_bind.
  destruct (leads_put default_termios cap fg c l false io Hc p R) as (p1 & E1 & R1).
  assert (Hev1 : events p1 = events p).
  { revert E1. unfold put_canon, wr_canon, set_buflen, modify, mbind, St_bind. repeat case_match; naive_solver. }
  rewrite E1. unfold add_char in R1. rewrite (proj2 (Z.ltb_lt _ _)) in R1 by done.
  destruct (echo_default c p1 (rp_tios _ _ _ _ _ _ _ R1) Hc Hs) as (p2 & E2 & Hcol2).
  destruct (leads_when default_termios cap fg (λ p, lflag p ECHO) _ _ _ _ (leads_caret_nl _ _ _ c _ _ _) p1 R1) as (p2' & E2' & R2).
  rewrite E2 in E2'. injection E2' as <-. rewrite E2.
  unfold tty_input_process, lflag. rewrite (rp_v _ _ _ _ _ _ _ R2), (rp_tios _ _ _ _ _ _ _ R2). simpl.
  unfold canon_input, lflag. rewrite (rp_tios _ _ _ _ _ _ _ R2). simpl.
  match goal with |- context [erase_one ?er] =>
    destruct (erase_one_run default_termios cap fg p2 l c false io er R2) as (p3 & R3 & Hev3 & E3) end.
  unfold mbind, St_bind. rewrite E3. unfold lflag. rewrite (rp_tios _ _ _ _ _ _ _ R2). simpl.
  destruct (backspaces_default (if is_control (i8 c) then 2 else 1) p3 (rp_tios _ _ _ _ _ _ _ R3)) as (p4 & E4 & Ht4 & Hcol4).
  destruct (leads_backspaces default_termios cap fg (if is_control (i8 c) then 2 else 1) l false io p3 R3) as (p4' & E4' & R4).
  rewrite E4 in E4'. injection E4' as <-. rewrite E4. unfold echo_edit, when_, lflag. rewrite Ht4. simpl.
  exists p4. split_and!; [done|done|]. rewrite Hcol4, Hev3, Hcol2, Hev1.
  assert (c ≠ 127) by (unfold special in Hs; set_solver).
  unfold is_control, SPACE, i8, byte_ in *. destruct (Z.ltb_spec c 128).
  - rewrite Z.mod_small by lia. replace (c + 2 ^ 7 - 2 ^ 7) with c by lia.
    rewrite (proj2 (Z.eqb_neq c 127)) by done. rewrite orb_false_r. destruct (Z.ltb_spec c 32); simpl; lia.
  - replace (c + 2 ^ 7) with (c - 128 + 1 * 2 ^ 8) by lia. rewrite Z.mod_add, Z.mod_small by lia.
    rewrite (proj2 (Z.ltb_lt (c - 128 - 2 ^ 7) 32)), (proj2 (Z.ltb_ge c 32)) by lia. simpl. lia.
Qed.

Lemma tty_erase_undoes_echo_witness :
  ∃ p', write_pty_master [1; 0x7f] (pty_new (replicate 4096 0) None) = Done (2, p') ∧
    rep default_termios 4094 0 p' [] false [] ∧ columns (events p') = 0.
Proof.
  apply (tty_erase_undoes_echo 4094 0 (pty_new (replicate 4096 0) None) [] [] 1
    (pty_new_rep None (replicate 4096 0) ltac:(by rewrite length_replicate)) ltac:(simpl; lia)
    ltac:(unfold byte_; lia) ltac:(apply (bool_decide_unpack _); by vm_compute)).
Defined.

(** ** Job control and reading *)

(** Who may use a terminal.  [TIOCSCTTY] makes the terminal the controlling one of
    the caller's session exactly when the caller leads the session and the terminal is
    free, already its own, or taken from another session by root with the argument 1;
    otherwise [-EPERM], nothing changed.  A process of the session outside the
    foreground job that reads gets [SIGTTIN] for its job and is restarted, or [-EIO]
    when it ignores the signal, and reads nothing; one that writes while [TOSTOP] is set
    gets [SIGTTOU] unless it ignores it, and writes nothing; other writers hand over
    every byte. *)
Theorem tty_job_control name me p a fuel rd size buffer :
  (∃ r p', pty_ioctl name me (TIOCSCTTY a) p = Done ((r, Nothing), p') ∧
    (if decide (session me = pid me ∧
                (ct_proc p = session me ∨ ct_proc p = 0 ∨ (cuser me = 0 ∧ a = Some 1)))
     then r = 0 ∧ p' = with_procs p (session me) (fg_proc p)
     else r = - EPERM ∧ p' = p)) ∧
  (background p me = true →
    read_pty_slave fuel rd me size p =
      if ignoring me SIGTTIN then Done ((- EIO, []), p)
      else Done ((- ERESTARTSYS, []), with_event p (Signal (job me) SIGTTIN))) ∧
  (∃ r p', write_pty_slave me buffer p = Done (r, p') ∧
    if lflag p TOSTOP && background p me && negb (ignoring me SIGTTOU)
    then r = - ERESTARTSYS ∧ p' = with_event p (Signal (job me) SIGTTOU)
    else r = Z.of_nat (length buffer) ∧ input_events (events p') = input_events (events p)).
Proof.
  split_and!.
  - unfold pty_ioctl. match goal with |- context [decide ?P] => destruct (decide P) as [Hd|Hd] end;
      destruct (Z.eqb_spec (session me) (pid me)) as [E1|E1], (Z.eqb_spec (ct_proc p) (session me)) as [E2|E2];
      cbn [andb negb]; try tauto; try (by eexists _, _).
    + eexists _, _. split; [done|]. split; [done|]. destruct p. simpl in *. by subst.
    + destruct Hd as (_ & [?|[E3|[E3 E4]]]); [done| |].
      * rewrite E3. by eexists _, _.
      * rewrite (proj2 (Z.eqb_eq _ _) E3), (bool_decide_true (a = Some 1)), andb_false_r by done. by eexists _, _.
    + rewrite (proj2 (Z.eqb_neq (ct_proc p) 0)) by tauto.
      replace (negb (bool_decide (a = Some 1)) || negb (cuser me =? 0)) with true; [by eexists _, _|].
      case_bool_decide; [|done]. simpl. destruct (Z.eqb_spec (cuser me) 0); [tauto|done].
  - intros Hb. unfold read_pty_slave. rewrite Hb. by destruct (ignoring me SIGTTIN).
  - unfold write_pty_slave. case_match; [by eexists _, _|].
    assert (∃ p', write_slave_bytes buffer p = Done (tt, p') ∧ input_events (events p') = input_events (events p))
      as (p' & E & Hi).
    { clear. revert p. induction buffer as [|c cs IH]; intros p; simpl; [by exists p|].
      assert (∃ p1, tty_output_process_slave c p = Done (tt, p1) ∧ input_events (events p1) = input_events (events p))
        as (p1 & E1 & H1).
      { unfold tty_output_process_slave. repeat case_match; eexists; (split; [done|]); simpl;
          rewrite ?input_events_app; simpl; by rewrite ?app_nil_r. }
      destruct (IH p1) as (p2 & E2 & H2). exists p2. split; [|congruence]. unfold mbind, St_bind. by rewrite E1. }
    exists (Z.of_nat (length buffer)), p'. split; [|done]. unfold mbind, St_bind. by rewrite E.
Qed.

Definition demo_caller : caller := Caller 7 7 9 1000 (λ _, false).

Lemma tty_job_control_witness :
  background (with_procs (pty_new [] None) 7 8) demo_caller = true ∧
  read_pty_slave 1 (λ _ _, inr 0) demo_caller 10 (with_procs (pty_new [] None) 7 8) =
    Done ((- ERESTARTSYS, []), with_event (with_procs (pty_new [] None) 7 8) (Signal 9 SIGTTIN)).
Proof.
  split; [done|].
  exact (proj1 (proj2 (tty_job_control [] demo_caller (with_procs (pty_new [] None) 7 8) None 1 (λ _ _, inr 0) 10 []))
    ltac:(by vm_compute)).
Defined.

Lemma read_vmin_spec rd size vmin : ∀ fuel i got,
  (∀ i n, 0 < n → match rd i n with inl bs => 0 < Z.of_nat (length bs) ≤ n | inr e => True end) →
  vmin ≤ size → Z.of_nat (length got) ≤ size → (Z.to_nat (vmin - Z.of_nat (length got)) < fuel)%nat →
  ∃ r bs, read_vmin fuel rd i size vmin got = Done (r, bs) ∧ Z.of_nat (length bs) ≤ size ∧ got `prefix_of` bs ∧
    ((r = Z.of_nat (length bs) ∧ vmin ≤ r) ∨
     (∃ j n e, rd j n = inr e ∧ r = if decide (bs = []) then - e else Z.of_nat (length bs))).
Proof.
  induction fuel as [|f IH]; intros i got Hrd Hv Hg Hf; [lia|]. simpl.
  destruct (Z.ltb_spec (Z.of_nat (length got)) vmin) as [Hlt|Hge].
  - pose proof (Hrd i (size - Z.of_nat (length got)) ltac:(lia)) as Hr.
    destruct (rd i (size - Z.of_nat (length got))) as [bs|e] eqn:E.
    + destruct (IH (S i) (got ++ bs)) as (r & out & Eo & Hl & Hp & Hd); try done; try (rewrite length_app; lia).
      exists r, out. split_and!; try done. etrans; [by eexists|done].
    + eexists _, _. split; [done|]. split_and!; [lia|done|]. right. exists i, (size - Z.of_nat (length got)), e.
      split; [done|]. by repeat case_decide; case_bool_decide.
  - eexists _, _. split; [done|]. split_and!; [lia|done|]. left. split; [done|lia].
Qed.

(** Reading in raw mode.  When [ICANON] is off and the process may read, with every
    call of [ring_buffer_read] returning at least one byte, at most as many as asked
    for, or an error, [read_pty_slave] returns, never more than [size] bytes, and either
    at least the smaller of [VMIN] and [size], or, after an error, the bytes it has, or
    the error when it has none. *)
Theorem read_pty_slave_raw fuel rd me size p :
  background p me = false → lflag p ICANON = false → 0 < cc (tios p) VMIN < 256 → 0 ≤ size →
  (∀ i n, 0 < n → match rd i n with inl bs => 0 < Z.of_nat (length bs) ≤ n | inr e => True end) →
  (256 ≤ fuel)%nat →
  ∃ r bs, read_pty_slave fuel rd me size p = Done ((r, bs), p) ∧ Z.of_nat (length bs) ≤ size ∧
    ((r = Z.of_nat (length bs) ∧ Z.min (cc (tios p) VMIN) size ≤ r) ∨
     (∃ j n e, rd j n = inr e ∧ r = if decide (bs = []) then - e else Z.of_nat (length bs))).
Proof.
  intros Hb Hi Hv Hs Hrd Hf. unfold read_pty_slave. rewrite Hb, Hi, (proj2 (Z.eqb_neq _ 0)) by lia.
  destruct (read_vmin_spec rd size (Z.min (cc (tios p) VMIN) size) fuel 0 [] Hrd) as (r & bs & E & Hl & _ & Hd);
    simpl; try lia.
  exists r, bs. by rewrite E.
Qed.

Lemma read_pty_slave_raw_witness :
  ∃ r bs, read_pty_slave 256 (λ i n, if (i =? 0)%nat then inl [65] else inr 4) demo_caller 8
    (with_tios (pty_new [] None) (Termios 0 0 0 0 (replicate 32 3))) =
      Done ((r, bs), with_tios (pty_new [] None) (Termios 0 0 0 0 (replicate 32 3))) ∧ Z.of_nat (length bs) ≤ 8.
Proof.
  destruct (read_pty_slave_raw 256 (λ i n, if (i =? 0)%nat then inl [65] else inr 4) demo_caller 8
    (with_tios (pty_new [] None) (Termios 0 0 0 0 (replicate 32 3)))) as (r & bs & E & Hl & _);
    [by vm_compute|by vm_compute|vm_compute; done|lia|intros [|i] n Hn; simpl; [lia|done]|lia|].
  by exists r, bs.
Defined.
