(* ===== verification/Frames.v ===== *)
(** * Physical frames ([src/kernel/arch/x86_64/mmu.c])

    The bitmap allocator of 4 KiB frames with its search hint [lowest_available], and
    the table of reference counts of shared frames.  The bitmap is the array of 32-bit
    words of the code; a word outside it or a fatal error ([arch_fatal]) is a [Fault].
    The functions that run under [frame_alloc_lock] are one step each.

    [frames_refine] compares any sequence of allocations and releases with a finite set
    of frames and a search for its first gap. *)
From S2P Require Import Prelude.
Local Open Scope Z_scope.

Definition PAGE_SHIFT : Z := 12.
Definition PAGE_SIZE : Z := 0x1000.

Definition INDEX_FROM_BIT (b : Z) : Z := Z.shiftr b 5.
Definition OFFSET_FROM_BIT (b : Z) : Z := Z.land b 0x1F.

Record frame_state : Type := Frames {
  frames : list Z;
  nframes : Z;
  lowest_available : Z;
  mem_refcounts : list Z
}.

Definition with_frames (s : frame_state) (w : list Z) : frame_state :=
  Frames w (nframes s) (lowest_available s) (mem_refcounts s).
Definition with_lowest (s : frame_state) (n : Z) : frame_state :=
  Frames (frames s) (nframes s) n (mem_refcounts s).
Definition with_refcounts (s : frame_state) (r : list Z) : frame_state :=
  Frames (frames s) (nframes s) (lowest_available s) r.

(** ** The bitmap *)

Definition rd_word (i : Z) : St frame_state Z := λ s,
  match frames s !! Z.to_nat i with Some w => Done (w, s) | None => Fault end.
Definition wr_word (i w : Z) : St frame_state unit := λ s,
  if bool_decide (Z.to_nat i < length (frames s))%nat
  then Done (tt, with_frames s (<[Z.to_nat i := u32 w]> (frames s))) else Fault.

Definition mmu_frame_set (frame_addr : Z) : St frame_state unit := λ s,
  if frame_addr <? u64 (nframes s * PAGE_SIZE) then
    let frame := Z.shiftr frame_addr 12 in
    let index := INDEX_FROM_BIT frame in
    let offset := OFFSET_FROM_BIT frame in
    (w ← rd_word index; wr_word index (Z.lor w (Z.shiftl 1 offset))) s
  else Done (tt, s).

Definition mmu_frame_clear (frame_addr : Z) : St frame_state unit := λ s,
  if frame_addr <? u64 (nframes s * PAGE_SIZE) then
    let frame := Z.shiftr frame_addr PAGE_SHIFT in
    let index := INDEX_FROM_BIT frame in
    let offset := OFFSET_FROM_BIT frame in
    (w ← rd_word index;
     wr_word index (Z.land w (Z.lnot (Z.shiftl 1 offset)));;
     modify (λ s, if frame <? lowest_available s then with_lowest s frame else s)) s
  else Done (tt, s).

Definition mmu_frame_test (frame_addr : Z) : St frame_state Z := λ s,
  if negb (frame_addr <? u64 (nframes s * PAGE_SIZE)) then Done (1, s)
  else
    let frame := Z.shiftr frame_addr PAGE_SHIFT in
    let index := INDEX_FROM_BIT frame in
    let offset := OFFSET_FROM_BIT frame in
    (w ← rd_word index; mret (truth (negb (Z.land w (Z.shiftl 1 offset) =? 0)))) s.

Definition mmu_frame_release (frame_addr : Z) : St frame_state unit := mmu_frame_clear frame_addr.

(** [for (int j = 0; j < n; ++j) if (mmu_frame_test(i + PAGE_SIZE * j)) bad = j + 1]. *)
Fixpoint test_run (k : nat) (j i bad : Z) : St frame_state Z :=
  match k with
  | O => mret bad
  | S k => t ← mmu_frame_test (u64 (i + PAGE_SIZE * j));
           test_run k (j + 1) i (if negb (t =? 0) then j + 1 else bad)
  end.

(** The loop over the addresses [i]; without a run of free frames the error is fatal. *)
Fixpoint first_n_from (fuel : nat) (n i : Z) : St frame_state Z :=
  match fuel with
  | O => λ _, Timeout
  | S f =>
      s ← get;
      if i <? u64 (nframes s * PAGE_SIZE) then
        bad ← test_run (Z.to_nat n) 0 i 0;
        if bad =? 0 then mret (i / PAGE_SIZE) else first_n_from f n (i + PAGE_SIZE)
      else fault
  end.

Definition mmu_first_n_frames (n : Z) : St frame_state Z := λ s,
  first_n_from (S (Z.to_nat (nframes s))) n 0 s.

(** [for (j = 0; j < (sizeof(uint32_t)*8); ++j) if (!(frames[i] & testFrame))]. *)
Fixpoint find_bit (k : nat) (j w : Z) : option Z :=
  match k with
  | O => None
  | S k => if Z.land w (Z.shiftl 1 j) =? 0 then Some j else find_bit k (j + 1) w
  end.

Fixpoint first_frame_from (fuel : nat) (i : Z) : St frame_state Z :=
  match fuel with
  | O => λ _, Timeout
  | S f =>
      s ← get;
      if i <? INDEX_FROM_BIT (nframes s) then
        w ← rd_word i;
        match (if w =? 2 ^ 32 - 1 then None else find_bit 32 0 w) with
        | Some j =>
            let out := Z.shiftl i 5 + j in
            modify (λ s, with_lowest s (out + 1));;
            mret out
        | None => first_frame_from f (i + 1)
        end
      else fault
  end.

Definition mmu_first_frame : St frame_state Z := λ s,
  first_frame_from (S (Z.to_nat (INDEX_FROM_BIT (nframes s)))) (INDEX_FROM_BIT (lowest_available s)) s.

Definition mmu_allocate_a_frame : St frame_state Z :=
  index ← mmu_first_frame;
  mmu_frame_set (u64 (Z.shiftl index PAGE_SHIFT));;
  mret index.

Fixpoint set_run (k : nat) (i index : Z) : St frame_state unit :=
  match k with
  | O => mret tt
  | S k => mmu_frame_set (u64 (Z.shiftl (index + i) PAGE_SHIFT));; set_run k (i + 1) index
  end.

Definition mmu_allocate_n_frames (n : Z) : St frame_state Z :=
  index ← mmu_first_n_frames n;
  set_run (Z.to_nat n) 0 index;;
  mret index.

Fixpoint count_bits (k : nat) (j w : Z) : Z :=
  match k with
  | O => 0
  | S k => truth (negb (Z.land w (Z.shiftl 1 j) =? 0)) + count_bits k (j + 1) w
  end.

Fixpoint count_words (k : nat) (i : Z) : St frame_state Z :=
  match k with
  | O => mret 0
  | S k => w ← rd_word i; r ← count_words k (i + 1); mret (count_bits 32 0 w + r)
  end.

(** The memory in use in KiB, less [unavailable_memory]. *)
Definition mmu_used_memory (unavailable_memory : Z) : St frame_state Z := λ s,
  (ret ← count_words (Z.to_nat (INDEX_FROM_BIT (nframes s))) 0;
   mret (u64 (ret * 4 - unavailable_memory))) s.

(** ** Reference counts *)

Definition refcount_inc (frame : Z) : St frame_state Z := λ s,
  if nframes s <=? frame then Fault
  else match mem_refcounts s !! Z.to_nat frame with
       | None => Fault
       | Some c => if c =? 255 then Done (1, s)
                   else Done (0, with_refcounts s (<[Z.to_nat frame := u8 (c + 1)]> (mem_refcounts s)))
       end.

Definition refcount_dec (frame : Z) : St frame_state Z := λ s,
  if nframes s <=? frame then Fault
  else match mem_refcounts s !! Z.to_nat frame with
       | None => Fault
       | Some c => if c =? 0 then Fault
                   else Done (u8 (c - 1), with_refcounts s (<[Z.to_nat frame := u8 (c - 1)]> (mem_refcounts s)))
       end.

(** ** Representation *)

Definition used (s : frame_state) (f : Z) : bool :=
  Z.testbit (frames s !!! Z.to_nat (f / 32)) (f mod 32).

(** The frames the search of [mmu_first_frame] covers: whole words only. *)
Definition searched (s : frame_state) : Z := 32 * (nframes s / 32).

Record wf (s : frame_state) : Prop := {
  wf_nframes : 0 ≤ nframes s < 2 ^ 28;
  wf_words : nframes s / 32 < Z.of_nat (length (frames s));
  wf_word : Forall (λ w, 0 ≤ w < 2 ^ 32) (frames s);
  (** nothing below the hint is free *)
  wf_hint : 0 ≤ lowest_available s ∧ ∀ f, 0 ≤ f < lowest_available s → f < searched s → used s f = true
}.

(** [U] is the set of frames in use. *)
Record represents (s : frame_state) (U : gset Z) : Prop := {
  rep_wf : wf s;
  rep_used : ∀ f, 0 ≤ f < nframes s → used s f = bool_decide (f ∈ U);
  rep_range : ∀ f, f ∈ U → 0 ≤ f < nframes s
}.

(** ** The bitmap as a set *)

Lemma frame_addr f : 0 ≤ f < 2 ^ 28 → u64 (Z.shiftl f PAGE_SHIFT) = f * PAGE_SIZE.
Proof. intros H. unfold PAGE_SHIFT, PAGE_SIZE. rewrite Z.shiftl_mul_pow2, u64_small; lia. Qed.

Lemma addr_frame f : Z.shiftr (f * PAGE_SIZE) 12 = f.
Proof. unfold PAGE_SIZE. rewrite Z.shiftr_div_pow2 by lia. by rewrite Z.div_mul. Qed.

Lemma index_div f : INDEX_FROM_BIT f = f / 32.
Proof. unfold INDEX_FROM_BIT. by rewrite Z.shiftr_div_pow2. Qed.

Lemma offset_mod f : OFFSET_FROM_BIT f = f mod 32.
Proof. unfold OFFSET_FROM_BIT. change 0x1F with (Z.ones 5). by rewrite Z.land_ones. Qed.

Lemma in_bitmap s f : wf s → 0 ≤ f < nframes s → (Z.to_nat (f / 32) < length (frames s))%nat.
Proof.
  intros [Hn Hw _ _] Hf. assert (f / 32 ≤ nframes s / 32) by (apply Z.div_le_mono; lia).
  assert (0 ≤ f / 32) by (apply Z.div_pos; lia). lia.
Qed.

Lemma rd_word_spec s i : (Z.to_nat i < length (frames s))%nat → rd_word i s = Done (frames s !!! Z.to_nat i, s).
Proof.
  intros H. unfold rd_word. destruct (lookup_lt_is_Some_2 (frames s) (Z.to_nat i) H) as [w E].
  rewrite E. by rewrite (list_lookup_total_correct _ _ _ E).
Qed.

(** A write of one bit: what [op] makes of bit [f] of its word and of no other. *)
Lemma used_write s f w b :
  0 ≤ f → (Z.to_nat (f / 32) < length (frames s))%nat →
  (∀ k, 0 ≤ k < 32 → Z.testbit w k =
     if k =? f mod 32 then b else Z.testbit (frames s !!! Z.to_nat (f / 32)) k) →
  ∀ g, 0 ≤ g → used (with_frames s (<[Z.to_nat (f / 32) := u32 w]> (frames s))) g =
    if g =? f then b else used s g.
Proof.
  intros Hf Hlen Hw g Hg. unfold used. simpl. pose proof (Z.mod_pos_bound g 32 ltac:(lia)) as Hm.
  assert (0 ≤ g / 32 ∧ 0 ≤ f / 32) as [] by (split; apply Z.div_pos; lia).
  destruct (decide (g / 32 = f / 32)) as [E|E].
  - rewrite E, list_lookup_total_insert_eq by done. unfold u32.
    rewrite Z.mod_pow2_bits_low, Hw by lia.
    destruct (Z.eqb_spec g f) as [->|Hne]; [by rewrite Z.eqb_refl|].
    rewrite (proj2 (Z.eqb_neq _ _)); [done|]. intros Em. apply Hne.
    rewrite (Z.div_mod g 32), (Z.div_mod f 32) by lia. lia.
  - rewrite list_lookup_total_insert_ne by lia. rewrite (proj2 (Z.eqb_neq g f)); [done|]. intros ->. done.
Qed.

Lemma Forall_word s i w : Forall (λ w, 0 ≤ w < 2 ^ 32) (frames s) →
  Forall (λ w, 0 ≤ w < 2 ^ 32) (<[i := u32 w]> (frames s)).
Proof. intros H. apply Forall_insert; [done|]. apply Z.mod_pos_bound. lia. Qed.

Lemma in_memory s f : wf s → 0 ≤ f < nframes s → f * PAGE_SIZE <? u64 (nframes s * PAGE_SIZE) = true.
Proof. intros [Hn _ _ _] Hf. unfold PAGE_SIZE. rewrite u64_small by lia. apply Z.ltb_lt. lia. Qed.

Lemma frame_set_spec s f :
  wf s → 0 ≤ f < nframes s →
  ∃ s', mmu_frame_set (f * PAGE_SIZE) s = Done (tt, s') ∧ wf s' ∧
    nframes s' = nframes s ∧ lowest_available s' = lowest_available s ∧ mem_refcounts s' = mem_refcounts s ∧
    ∀ g, 0 ≤ g → used s' g = (g =? f) || used s g.
Proof.
  intros W Hf. pose proof (in_bitmap s f W Hf) as Hb. unfold mmu_frame_set.
  rewrite (in_memory s f W Hf), addr_frame, index_div, offset_mod. cbv zeta.
  unfold mbind, St_bind. rewrite rd_word_spec by done. unfold wr_word. rewrite bool_decide_true by done.
  eexists. split; [done|].
  assert (Hu : ∀ g, 0 ≤ g → used (with_frames s (<[Z.to_nat (f / 32) := u32
    (Z.lor (frames s !!! Z.to_nat (f / 32)) (Z.shiftl 1 (f mod 32)))]> (frames s))) g = (g =? f) || used s g).
  { intros g Hg. rewrite (used_write s f _ true); [by destruct (g =? f)|lia|done| |done].
    intros k Hk. pose proof (Z.mod_pos_bound f 32 ltac:(lia)). rewrite lor_bit_spec by lia.
    destruct (k =? f mod 32); [apply orb_true_r|apply orb_false_r]. }
  destruct W as [Hn Hw Hww [Hh0 Hh]]. split_and!; try done. split; simpl; try done.
  - by rewrite length_insert.
  - by apply Forall_word.
  - split; [done|]. intros g Hg Hs. rewrite Hu by lia. rewrite Hh by done. apply orb_true_r.
Qed.

Lemma frame_clear_spec s f :
  wf s → 0 ≤ f < nframes s →
  ∃ s', mmu_frame_clear (f * PAGE_SIZE) s = Done (tt, s') ∧ wf s' ∧
    nframes s' = nframes s ∧ mem_refcounts s' = mem_refcounts s ∧
    ∀ g, 0 ≤ g → used s' g = negb (g =? f) && used s g.
Proof.
  intros W Hf. pose proof (in_bitmap s f W Hf) as Hb. unfold mmu_frame_clear.
  rewrite (in_memory s f W Hf). unfold PAGE_SHIFT. rewrite addr_frame, index_div, offset_mod. cbv zeta.
  unfold mbind, St_bind. rewrite rd_word_spec by done. unfold wr_word. rewrite bool_decide_true by done.
  set (s1 := with_frames s _). unfold modify. eexists. split; [done|].
  assert (Hu : ∀ g, 0 ≤ g → used s1 g = negb (g =? f) && used s g).
  { intros g Hg. unfold s1. rewrite (used_write s f _ false); [by destruct (g =? f)|lia|done| |done].
    intros k Hk. pose proof (Z.mod_pos_bound f 32 ltac:(lia)).
    rewrite Z.land_spec, Z.lnot_spec by lia.
    rewrite <-(Z.lor_0_l (Z.shiftl 1 (f mod 32))), lor_bit_spec, Z.bits_0 by lia. simpl.
    destruct (k =? f mod 32); simpl; [apply andb_false_r|apply andb_true_r]. }
  assert (Hu' : ∀ g n, used (with_lowest s1 n) g = used s1 g) by done.
  destruct W as [Hn Hw Hww [Hh0 Hh]].
  assert (Hwf : ∀ n, (0 ≤ n ∧ ∀ g, 0 ≤ g < n → g < searched s1 → used s1 g = true) → wf (with_lowest s1 n)).
  { intros n Hn'. split; simpl; try done; [by rewrite length_insert|by apply Forall_word]. }
  destruct (Z.ltb_spec f (lowest_available s1)) as [Hlt|Hge]; simpl; split_and!; try done.
  - apply Hwf. split; [lia|]. intros g Hg Hs. rewrite Hu by lia.
    rewrite (proj2 (Z.eqb_neq g f)) by lia. apply Hh; [|done]. simpl in Hlt. lia.
  - apply (Hwf (lowest_available s1)). split; [done|]. intros g Hg Hs. rewrite Hu by lia.
    rewrite (proj2 (Z.eqb_neq g f)) by (simpl in *; lia). by apply Hh.
Qed.

Lemma frame_test_spec s f :
  wf s → 0 ≤ f < 2 ^ 51 →
  mmu_frame_test (f * PAGE_SIZE) s = Done (truth (if f <? nframes s then used s f else true), s).
Proof.
  intros W Hf. unfold mmu_frame_test. destruct (Z.ltb_spec f (nframes s)) as [Hlt|Hge].
  - pose proof (in_bitmap s f W ltac:(lia)) as Hb. rewrite (in_memory s f W ltac:(lia)). simpl.
    unfold PAGE_SHIFT. rewrite addr_frame, index_div, offset_mod. unfold mbind, St_bind.
    rewrite rd_word_spec by done. unfold mret, St_ret. pose proof (Z.mod_pos_bound f 32 ltac:(lia)).
    rewrite land_bit_zero by lia. by rewrite negb_involutive.
  - destruct W as [Hn _ _ _]. unfold PAGE_SIZE. rewrite u64_small by lia.
    by rewrite (proj2 (Z.ltb_ge _ _)) by lia.
Qed.

(** ** The searches *)

Lemma find_bit_spec k j w :
  0 ≤ j →
  match find_bit k j w with
  | Some b => j ≤ b < j + Z.of_nat k ∧ Z.testbit w b = false ∧ ∀ i, j ≤ i < b → Z.testbit w i = true
  | None => ∀ i, j ≤ i < j + Z.of_nat k → Z.testbit w i = true
  end.
Proof.
  revert j. induction k as [|k IH]; intros j Hj; simpl; [intros i; lia|].
  rewrite land_bit_zero by lia. destruct (Z.testbit w j) eqn:E; simpl.
  - specialize (IH (j + 1) ltac:(lia)). destruct (find_bit k (j + 1) w) as [b|].
    + destruct IH as (Hb & Hw & Hi). split_and!; [lia|lia|done|]. intros i Hi'.
      destruct (decide (i = j)) as [->|]; [done|]. apply Hi. lia.
    + intros i Hi. destruct (decide (i = j)) as [->|]; [done|]. apply IH. lia.
  - split_and!; [lia|lia|done|]. intros i. lia.
Qed.

(** The shortcut for a full word changes nothing. *)
Lemma full_word w : 0 ≤ w → (if w =? 2 ^ 32 - 1 then None else find_bit 32 0 w) = find_bit 32 0 w.
Proof.
  intros Hw. destruct (Z.eqb_spec w (2 ^ 32 - 1)) as [->|]; [|done].
  by vm_compute.
Qed.

Lemma used_bit s i b : 0 ≤ i → 0 ≤ b < 32 → used s (32 * i + b) = Z.testbit (frames s !!! Z.to_nat i) b.
Proof.
  intros Hi Hb. unfold used. replace ((32 * i + b) / 32) with i by (apply (Z.div_unique _ _ _ b); lia).
  by replace ((32 * i + b) mod 32) with b by (apply (Z.mod_unique _ _ i); lia).
Qed.

Definition least_free (s : frame_state) (f : Z) : Prop :=
  0 ≤ f < searched s ∧ used s f = false ∧ ∀ g, 0 ≤ g < f → used s g = true.

Lemma first_frame_from_step s fuel i :
  wf s → 0 ≤ i →
  first_frame_from (S fuel) i s =
    if i <? nframes s / 32 then
      match find_bit 32 0 (frames s !!! Z.to_nat i) with
      | Some b => Done (32 * i + b, with_lowest s (32 * i + b + 1))
      | None => first_frame_from fuel (i + 1) s
      end
    else Fault.
Proof.
  intros [Hn Hw Hww Hh] Hi. cbn [first_frame_from]. unfold mbind at 1, St_bind at 1, get. rewrite index_div.
  destruct (Z.ltb_spec i (nframes s / 32)) as [Hlt|Hge]; [|done].
  unfold mbind at 1, St_bind at 1. rewrite rd_word_spec by lia. rewrite full_word.
  - destruct (find_bit 32 0 (frames s !!! Z.to_nat i)) as [b|]; [|done].
    unfold mbind, St_bind, modify, mret, St_ret. rewrite Z.shiftl_mul_pow2 by lia.
    by replace (i * 2 ^ 5 + b) with (32 * i + b) by lia.
  - rewrite Forall_lookup in Hww. destruct (lookup_lt_is_Some_2 (frames s) (Z.to_nat i)) as [w E]; [lia|].
    rewrite (list_lookup_total_correct _ _ _ E). by apply (Hww _ _ E).
Qed.

Lemma first_frame_from_spec s : wf s → ∀ fuel i,
  0 ≤ i → (Z.to_nat (nframes s / 32 - i) < fuel)%nat →
  (∀ g, 0 ≤ g < 32 * i → g < searched s → used s g = true) →
  (∃ f, least_free s f ∧ first_frame_from fuel i s = Done (f, with_lowest s (f + 1))) ∨
  ((∀ f, 0 ≤ f < searched s → used s f = true) ∧ first_frame_from fuel i s = Fault).
Proof.
  intros W. induction fuel as [|fuel IH]; intros i Hi Hf Hbelow; [lia|].
  rewrite (first_frame_from_step s fuel i W Hi). unfold least_free, searched in *.
  destruct (Z.ltb_spec i (nframes s / 32)) as [Hlt|Hge].
  - pose proof (find_bit_spec 32 0 (frames s !!! Z.to_nat i) ltac:(lia)) as Hb.
    assert (Hbit : ∀ g, 32 * i ≤ g < 32 * i + 32 → used s g = Z.testbit (frames s !!! Z.to_nat i) (g - 32 * i)).
    { intros g Hg. rewrite <-used_bit by lia. f_equal. lia. }
    destruct (find_bit 32 0 (frames s !!! Z.to_nat i)) as [b|].
    + destruct Hb as (Hb & Hz & Hones). left. exists (32 * i + b). split; [|done].
      split_and!; [lia|lia|by rewrite used_bit by lia|].
      intros g Hg. destruct (decide (g < 32 * i)); [apply Hbelow; lia|]. rewrite Hbit by lia. apply Hones. lia.
    + apply IH; [lia|lia|]. intros g Hg Hs. destruct (decide (g < 32 * i)); [apply Hbelow; lia|].
      rewrite Hbit by lia. apply Hb. lia.
  - right. split; [|done]. intros f Hfr. apply Hbelow; lia.
Qed.

Lemma first_frame_spec s :
  wf s →
  (∃ f, least_free s f ∧ mmu_first_frame s = Done (f, with_lowest s (f + 1))) ∨
  ((∀ f, 0 ≤ f < searched s → used s f = true) ∧ mmu_first_frame s = Fault).
Proof.
  intros W. unfold mmu_first_frame. rewrite !index_div. pose proof W as [Hn _ _ [Hh0 Hh]].
  pose proof (Z.div_pos (lowest_available s) 32 Hh0 ltac:(lia)).
  pose proof (Z.mul_div_le (lowest_available s) 32 ltac:(lia)).
  apply first_frame_from_spec; [done|done| |].
  - assert (0 ≤ nframes s / 32) by (apply Z.div_pos; lia). lia.
  - intros g Hg Hs. apply Hh; [lia|done].
Qed.

(** Marking a frame does not look at the hint. *)
Lemma frame_set_lowest a n s :
  mmu_frame_set a (with_lowest s n) =
    match mmu_frame_set a s with
    | Done (u, s') => Done (u, with_lowest s' n) | Fault => Fault | Timeout => Timeout
    end.
Proof.
  unfold mmu_frame_set, mbind, St_bind, rd_word, wr_word, with_lowest. cbn [nframes frames].
  destruct (_ <? _); [|done]. destruct (frames s !! _) as [w|]; [|done]. by destruct (bool_decide _).
Qed.

(** A taken hint with the frame marked keeps the invariant. *)
Lemma allocate_spec s :
  wf s →
  (∃ f s', least_free s f ∧ mmu_allocate_a_frame s = Done (f, s') ∧ wf s' ∧ nframes s' = nframes s ∧
     mem_refcounts s' = mem_refcounts s ∧ ∀ g, 0 ≤ g → used s' g = (g =? f) || used s g) ∨
  ((∀ f, 0 ≤ f < searched s → used s f = true) ∧ mmu_allocate_a_frame s = Fault).
Proof.
  intros W. unfold mmu_allocate_a_frame.
  destruct (first_frame_spec s W) as [(f & (Hf & Hfree & Hmin) & E)|[Hall E]]; [left|right; split; [exact Hall|unfold mbind, St_bind; by rewrite E]].
  pose proof W as [Hn Hw Hww [Hh0 Hh]]. unfold searched in *.
  assert (Hfn : 0 ≤ f < nframes s) by (pose proof (Z.mul_div_le (nframes s) 32); lia).
  (* run the marking on the state with the old hint *)
  destruct (frame_set_spec s f W Hfn) as (s0 & E0 & W0 & Hn0 & Hl0 & Hr0 & Hu0).
  exists f, (with_lowest s0 (f + 1)). split; [done|].
  assert (Eset : mmu_frame_set (f * PAGE_SIZE) (with_lowest s (f + 1)) = Done (tt, with_lowest s0 (f + 1))).
  { by rewrite frame_set_lowest, E0. }
  split; [unfold mbind, St_bind; by rewrite E, frame_addr, Eset by lia|]. split_and!; try done.
  destruct W0 as [Hn1 Hw1 Hww1 [Hh2 Hh3]]. split; simpl; try done. split; [lia|].
  intros g Hg Hs. change (used (with_lowest s0 (f + 1)) g) with (used s0 g). rewrite Hu0 by lia.
  destruct (Z.eqb_spec g f) as [->|]; [done|]. simpl. apply Hmin. lia.
Qed.

(** A run of free frames. *)
Definition free_run (s : frame_state) (n f : Z) : Prop :=
  ∀ j, 0 ≤ j < n → f + j < nframes s ∧ used s (f + j) = false.

Lemma test_run_spec s f : wf s → 0 ≤ f < 2 ^ 28 → ∀ k j bad,
  0 ≤ j → 0 ≤ bad → j + Z.of_nat k < 2 ^ 32 →
  ∃ r, test_run k j (f * PAGE_SIZE) bad s = Done (r, s) ∧
    (r = 0 ↔ bad = 0 ∧ ∀ i, j ≤ i < j + Z.of_nat k → f + i < nframes s ∧ used s (f + i) = false).
Proof.
  intros W Hf. induction k as [|k IH]; intros j bad Hj Hbad Hk.
  { exists bad. split; [done|]. split; [intros ->; split; [done|lia]|tauto]. }
  simpl. unfold mbind, St_bind.
  replace (u64 (f * PAGE_SIZE + PAGE_SIZE * j)) with ((f + j) * PAGE_SIZE)
    by (unfold PAGE_SIZE; rewrite u64_small; lia).
  rewrite frame_test_spec by (done || lia).
  edestruct (IH (j + 1) _ ltac:(lia) (ltac:(case_match; lia) : 0 ≤ (if negb (truth (if f + j <? nframes s then used s (f + j) else true) =? 0) then j + 1 else bad)))
    as (r & E & Hr); [lia|]. exists r. split; [exact E|]. rewrite Hr. clear E Hr IH.
  destruct (Z.ltb_spec (f + j) (nframes s)) as [Hlt|Hge]; [destruct (used s (f + j)) eqn:Eu|]; simpl.
  - split; [intros [? _]; lia|]. intros [_ H]. destruct (H j) as [_ ?]; [lia|congruence].
  - split; intros [-> H]; (split; [done|]); intros i Hi; [|apply H; lia].
    destruct (decide (i = j)) as [->|]; [done|]. apply H. lia.
  - split; [intros [? _]; lia|]. intros [_ H]. destruct (H j); lia.
Qed.

Lemma first_n_from_spec s n : wf s → 0 ≤ n < 2 ^ 31 → ∀ fuel f,
  0 ≤ f ≤ nframes s → (Z.to_nat (nframes s - f) < fuel)%nat → (∀ g, 0 ≤ g < f → ¬ free_run s n g) →
  (∃ i, 0 ≤ i < nframes s ∧ free_run s n i ∧ (∀ g, 0 ≤ g < i → ¬ free_run s n g) ∧
     first_n_from fuel n (f * PAGE_SIZE) s = Done (i, s)) ∨
  ((∀ g, 0 ≤ g < nframes s → ¬ free_run s n g) ∧ first_n_from fuel n (f * PAGE_SIZE) s = Fault).
Proof.
  intros W Hn. pose proof W as [Hnf _ _ _]. induction fuel as [|fuel IH]; intros f Hf Hfuel Hno; [lia|].
  destruct (decide (f < nframes s)) as [Hlt|Hge].
  - destruct (test_run_spec s f W ltac:(lia) (Z.to_nat n) 0 0) as (r & Er & Hr); [lia|lia|lia|].
    assert (Hstep : first_n_from (S fuel) n (f * PAGE_SIZE) s =
      if r =? 0 then Done (f, s) else first_n_from fuel n ((f + 1) * PAGE_SIZE) s).
    { cbn [first_n_from]. unfold mbind at 1, St_bind at 1, get. rewrite (in_memory s f W) by lia.
      unfold mbind at 1, St_bind at 1. rewrite Er. destruct (r =? 0).
      - unfold mret, St_ret, PAGE_SIZE. by rewrite Z.div_mul.
      - by replace (f * PAGE_SIZE + PAGE_SIZE) with ((f + 1) * PAGE_SIZE) by (unfold PAGE_SIZE; lia). }
    assert (Hiff : r = 0 ↔ free_run s n f).
    { rewrite Hr. unfold free_run. split; [intros [_ H] j Hj; apply H; lia|]. intros H.
      split; [done|]. intros i Hi. apply H. lia. }
    rewrite Hstep. destruct (Z.eqb_spec r 0) as [E|E].
    + left. exists f. split_and!; [lia|lia|by apply Hiff|done|done].
    + apply IH; [lia|lia|]. intros g Hg. destruct (decide (g = f)) as [->|]; [tauto|]. apply Hno. lia.
  - assert (f = nframes s) as -> by lia. right. split; [intros g Hg; apply Hno; lia|].
    cbn [first_n_from]. unfold mbind at 1, St_bind at 1, get, PAGE_SIZE. rewrite u64_small by lia.
    by rewrite Z.ltb_irrefl.
Qed.

Lemma set_run_spec : ∀ k s i f,
  wf s → 0 ≤ f → 0 ≤ i → f + i + Z.of_nat k ≤ nframes s →
  ∃ s', set_run k i f s = Done (tt, s') ∧ wf s' ∧ nframes s' = nframes s ∧ mem_refcounts s' = mem_refcounts s ∧
    ∀ g, 0 ≤ g → used s' g = (f + i <=? g) && (g <? f + i + Z.of_nat k) || used s g.
Proof.
  induction k as [|k IH]; intros s i f W Hf Hi Hk.
  { exists s. split_and!; try done. intros g Hg. destruct (Z.leb_spec (f + i) g), (Z.ltb_spec g (f + i + Z.of_nat 0)); simpl; done || lia. }
  pose proof (wf_nframes s W). simpl. unfold mbind, St_bind. rewrite frame_addr by lia.
  destruct (frame_set_spec s (f + i) W ltac:(lia)) as (s1 & -> & W1 & Hn1 & _ & Hr1 & Hu1).
  destruct (IH s1 (i + 1) f W1 Hf ltac:(lia) ltac:(lia)) as (s2 & -> & W2 & Hn2 & Hr2 & Hu2).
  exists s2. split_and!; [done|done|congruence|congruence|]. intros g Hg. rewrite Hu2, Hu1 by done.
  destruct (Z.leb_spec (f + (i + 1)) g), (Z.ltb_spec g (f + (i + 1) + Z.of_nat k)), (Z.eqb_spec g (f + i)),
    (Z.leb_spec (f + i) g), (Z.ltb_spec g (f + i + Z.of_nat (S k))); simpl; done || lia.
Qed.

(** ** Against a finite set *)

(** The first frame below [n] that is not in use, and the first run of [k] frames. *)
Definition first_gap (U : gset Z) (n : Z) : option Z :=
  snd <$> list.list_find (λ f, f ∉ U) (seqZ 0 n).
Definition gap_run (U : gset Z) (n k f : Z) : Prop :=
  Forall (λ j, f + j < n ∧ f + j ∉ U) (seqZ 0 k).
#[export] Instance gap_run_dec U n k f : Decision (gap_run U n k f).
Proof. unfold gap_run. apply _. Defined.
Definition first_gap_run (U : gset Z) (n k : Z) : option Z :=
  snd <$> list.list_find (gap_run U n k) (seqZ 0 n).

Lemma find_seqZ (P : Z → Prop) `{∀ x, Decision (P x)} n :
  match snd <$> list.list_find P (seqZ 0 n) with
  | Some f => 0 ≤ f < n ∧ P f ∧ ∀ g, 0 ≤ g < f → ¬ P g
  | None => ∀ g, 0 ≤ g < n → ¬ P g
  end.
Proof.
  destruct (list.list_find P (seqZ 0 n)) as [[i f]|] eqn:E; simpl.
  - apply list_find_Some in E as (Hl & HP & Hmin). apply lookup_seqZ in Hl as [-> Hi].
    split_and!; [lia|lia|done|]. intros g Hg. apply (Hmin (Z.to_nat g)); [|lia]. apply lookup_seqZ. lia.
  - apply list_find_None in E. rewrite Forall_forall in E. intros g Hg. apply E.
    apply elem_of_seqZ. lia.
Qed.

Inductive frame_op : Type :=
  | Allocate
  | AllocateN (n : Z)
  | Release (f : Z).

Definition exec_frame_op (o : frame_op) : St frame_state Z :=
  match o with
  | Allocate => mmu_allocate_a_frame
  | AllocateN n => mmu_allocate_n_frames n
  | Release f => mmu_frame_release (u64 (Z.shiftl f PAGE_SHIFT));; mret 0
  end.

(** The same on a set: the result and the frames in use, or no result when no frame can
    be found.  Single frames come from whole words of the bitmap. *)
Definition set_op (n : Z) (U : gset Z) (o : frame_op) : option (Z * gset Z) :=
  match o with
  | Allocate => f ← first_gap U (32 * (n / 32)); Some (f, {[f]} ∪ U)
  | AllocateN k => f ← first_gap_run U n k; Some (f, list_to_set (seqZ f k) ∪ U)
  | Release f => Some (0, U ∖ {[f]})
  end.

Definition op_ok (o : frame_op) : Prop :=
  match o with Allocate => True | AllocateN n => 0 ≤ n < 2 ^ 31 | Release f => 0 ≤ f < 2 ^ 28 end.

Fixpoint exec_frame_ops (os : list frame_op) : St frame_state (list Z) :=
  match os with
  | [] => mret []
  | o :: os => r ← exec_frame_op o; rs ← exec_frame_ops os; mret (r :: rs)
  end.

Fixpoint set_ops (n : Z) (U : gset Z) (os : list frame_op) : option (list Z * gset Z) :=
  match os with
  | [] => Some ([], U)
  | o :: os => x ← set_op n U o; y ← set_ops n x.2 os; Some (x.1 :: y.1, y.2)
  end.

Lemma searched_le s : wf s → searched s ≤ nframes s.
Proof. intros _. unfold searched. pose proof (Z.mul_div_le (nframes s) 32). lia. Qed.

Lemma set_op_sound s U o :
  represents s U → op_ok o →
  match set_op (nframes s) U o with
  | Some (r, U') => ∃ s', exec_frame_op o s = Done (r, s') ∧ represents s' U' ∧
      nframes s' = nframes s ∧ mem_refcounts s' = mem_refcounts s
  | None => exec_frame_op o s = Fault
  end.
Proof.
  intros [W Hu Hr] Ho. pose proof (searched_le s W) as Hs. pose proof (wf_nframes s W) as Hn.
  destruct o as [|k|f]; simpl in *.
  - pose proof (find_seqZ (λ f, f ∉ U) (searched s)) as Hg. fold (searched s). fold (first_gap U (searched s)) in Hg.
    destruct (allocate_spec s W) as [(f & s' & (Hf & Hfree & Hmin) & E & W' & Hn' & Hr' & Hu')|[Hall E]].
    + assert (first_gap U (searched s) = Some f) as ->.
      { assert (HfU : f ∉ U) by (rewrite Hu in Hfree by lia; by apply bool_decide_eq_false in Hfree).
        destruct (first_gap U (searched s)) as [g|]; [|by destruct (Hg f)].
        destruct Hg as (Hg1 & Hg2 & Hg3). f_equal. destruct (Z.lt_trichotomy f g) as [Hlt|[?|Hlt]]; [|done|].
        - exfalso. apply (Hg3 f); [lia|done].
        - exfalso. apply Hg2. specialize (Hmin g ltac:(lia)). rewrite Hu in Hmin by lia.
          by apply bool_decide_eq_true in Hmin. }
      simpl. exists s'. split_and!; [done| |done|done]. split; [done| |].
      * intros g Hgr. rewrite Hu' by lia. rewrite Hn' in Hgr. rewrite Hu by done.
        destruct (Z.eqb_spec g f) as [->|]; simpl; [symmetry; apply bool_decide_eq_true; set_solver|].
        apply bool_decide_ext. set_solver.
      * intros g [->%elem_of_singleton|HgU]%elem_of_union; [lia|]. rewrite Hn'. by apply Hr.
    + destruct (first_gap U (searched s)) as [g|]; [|done]. destruct Hg as (Hg1 & Hg2 & _). exfalso. apply Hg2.
      specialize (Hall g Hg1). rewrite Hu in Hall by lia. by apply bool_decide_eq_true in Hall.
  - pose proof (find_seqZ (gap_run U (nframes s) k) (nframes s)) as Hg. fold (first_gap_run U (nframes s) k) in Hg.
    assert (Hiff : ∀ g, 0 ≤ g → gap_run U (nframes s) k g ↔ free_run s k g).
    { intros g Hg0. unfold gap_run, free_run. rewrite Forall_forall. split.
      - intros H j Hj. destruct (H j) as [H1 H2]; [apply elem_of_seqZ; lia|]. split; [done|].
        rewrite Hu by lia. by apply bool_decide_eq_false.
      - intros H j Hj%elem_of_seqZ. destruct (H j) as [H1 H2]; [lia|]. split; [done|].
        rewrite Hu in H2 by lia. by apply bool_decide_eq_false in H2. }
    unfold mmu_allocate_n_frames, mmu_first_n_frames, mbind, St_bind.
    destruct (first_n_from_spec s k W ltac:(lia) (S (Z.to_nat (nframes s))) 0) as [(f & Hf & Hrun & Hmin & E)|[Hno E]];
      [lia|lia|lia| |]; rewrite Z.mul_0_l in E; rewrite E.
    + assert (first_gap_run U (nframes s) k = Some f) as ->.
      { destruct (first_gap_run U (nframes s) k) as [g|].
        - destruct Hg as (Hg1 & Hg2 & Hg3). f_equal. destruct (Z.lt_trichotomy f g) as [Hlt|[?|Hlt]]; [|done|].
          + exfalso. apply (Hg3 f); [lia|]. apply Hiff; [lia|done].
          + exfalso. apply (Hmin g); [lia|]. by apply Hiff; [lia|].
        - exfalso. apply (Hg f); [done|]. apply Hiff; [lia|done]. }
      simpl.
      assert (Hfk : f + 0 + Z.of_nat (Z.to_nat k) ≤ nframes s).
      { destruct (decide (k = 0)) as [->|]; [lia|]. destruct (Hrun (k - 1)); lia. }
      destruct (set_run_spec (Z.to_nat k) s 0 f W ltac:(lia) ltac:(lia) Hfk) as (s' & E' & W' & Hn' & Hr' & Hu').
      rewrite E'. exists s'. split_and!; [done| |done|done]. split; [done| |].
      * intros g Hgr. rewrite Hn' in Hgr. rewrite Hu', Hu by lia.
        destruct (decide (f ≤ g < f + k)) as [Hin|Hout].
        -- rewrite (proj2 (Z.leb_le _ _)), (proj2 (Z.ltb_lt _ _)) by lia. simpl. symmetry. apply bool_decide_eq_true.
           apply elem_of_union_l, elem_of_list_to_set, elem_of_seqZ. lia.
        -- replace ((f + 0 <=? g) && (g <? f + 0 + Z.of_nat (Z.to_nat k))) with false
             by (symmetry; apply andb_false_iff; rewrite Z.leb_gt, Z.ltb_ge; lia). simpl.
           apply bool_decide_ext. rewrite elem_of_union, elem_of_list_to_set, elem_of_seqZ. intuition lia.
      * intros g. rewrite Hn', elem_of_union, elem_of_list_to_set, elem_of_seqZ.
        intros [?|?]; [lia|by apply Hr].
    + destruct (first_gap_run U (nframes s) k) as [g|]; [|done]. destruct Hg as (Hg1 & Hg2 & _).
      exfalso. apply (Hno g); [lia|]. apply Hiff; [lia|done].
  - unfold mmu_frame_release, mbind, St_bind. rewrite frame_addr by lia.
    destruct (decide (f < nframes s)) as [Hlt|Hge].
    + destruct (frame_clear_spec s f W ltac:(lia)) as (s' & -> & W' & Hn' & Hr' & Hu').
      exists s'. split_and!; [done| |done|done]. split; [done| |].
      * intros g Hgr. rewrite Hn' in Hgr. rewrite Hu', Hu by lia.
        destruct (Z.eqb_spec g f) as [->|]; simpl; [symmetry; apply bool_decide_eq_false; set_solver|].
        apply bool_decide_ext. set_solver.
      * intros g [Hg _]%elem_of_difference. rewrite Hn'. by apply Hr.
    + exists s. split_and!; [|split; [done| |]|done|done].
      * unfold mmu_frame_clear, PAGE_SIZE. rewrite u64_small by lia. by rewrite (proj2 (Z.ltb_ge _ _)) by lia.
      * intros g Hgr. rewrite Hu by done. apply bool_decide_ext. assert (g ≠ f) by lia. set_solver.
      * intros g [Hg _]%elem_of_difference. by apply Hr.
Qed.

(** C30: the frame allocator implements a finite set of frames.  Any sequence of
    [mmu_allocate_a_frame], [mmu_allocate_n_frames] and [mmu_frame_release] returns what
    the search of a set returns (the first free frame of the whole words of the bitmap,
    the first run of free frames), marks or clears exactly those frames, and ends in the
    fatal error exactly when the set has no such frame; the search hint never hides a
    free frame, and no reference count changes. *)
Theorem frames_refine s U os :
  represents s U → Forall op_ok os →
  match set_ops (nframes s) U os with
  | Some (rs, U') => ∃ s', exec_frame_ops os s = Done (rs, s') ∧ represents s' U' ∧
      mem_refcounts s' = mem_refcounts s
  | None => exec_frame_ops os s = Fault
  end.
Proof.
  intros HR Hos. revert s U HR. induction Hos as [|o os Ho Hos IH]; intros s U HR; simpl.
  { exists s. by split_and!. }
  pose proof (set_op_sound s U o HR Ho) as H. destruct (set_op (nframes s) U o) as [[r U1]|]; simpl.
  - destruct H as (s1 & E1 & R1 & Hn1 & Hc1). specialize (IH s1 U1 R1). rewrite Hn1 in IH.
    unfold mbind, St_bind, mret, St_ret, option_bind. rewrite E1.
    destruct (set_ops (nframes s) U1 os) as [[rs U2]|]; simpl.
    + destruct IH as (s2 & E2 & R2 & Hc2). exists s2. rewrite E2. split_and!; [done|done|congruence].
    + by rewrite IH.
  - unfold mbind, St_bind. by rewrite H.
Qed.

Definition demo_frames : frame_state := Frames [2 ^ 32 - 1; 7] 48 0 [].

Lemma demo_represents : represents demo_frames (list_to_set (seqZ 0 35)).
Proof.
  split.
  - split; simpl; [lia|by vm_compute|by repeat (apply Forall_cons; split; [lia|]); apply Forall_nil|].
    split; [lia|]. intros f Hf. lia.
  - intros f Hf. simpl in Hf.
    assert (H : Forall (λ f, used demo_frames f = bool_decide (f ∈ (list_to_set (seqZ 0 35) : gset Z))) (seqZ 0 48)).
    { apply (bool_decide_unpack _). by vm_compute. }
    rewrite Forall_forall in H. apply H, elem_of_seqZ. lia.
  - intros f Hf%elem_of_list_to_set%elem_of_seqZ. simpl. lia.
Qed.

Lemma frames_refine_witness :
  ∃ s', exec_frame_ops [AllocateN 2; Release 3; Allocate; AllocateN 1] demo_frames = Done ([35; 0; 3; 37], s').
Proof.
  pose proof (frames_refine demo_frames (list_to_set (seqZ 0 35)) [AllocateN 2; Release 3; Allocate; AllocateN 1]
    demo_represents) as H.
  assert (Hok : Forall op_ok [AllocateN 2; Release 3; Allocate; AllocateN 1]).
  { repeat (apply Forall_cons; split; [simpl; (lia || done)|]). by apply Forall_nil. }
  specialize (H Hok). destruct (set_ops _ _ _) as [[rs U']|] eqn:E; [|by vm_compute in E].
  destruct H as (s' & E' & _). exists s'. rewrite E'. f_equal. f_equal.
  apply (f_equal (fmap fst)) in E. vm_compute in E. by injection E as <-.
Defined.
