(* ===== verification/Mmu.v ===== *)
(** * Page tables and copy-on-write ([src/kernel/arch/x86_64/mmu.c])

    Physical memory is read and written here by whole page table entries and whole pages
    only, so it is a function from the index of an 8-byte word to its value; the entry
    [e] of the table in frame [t] is the word [512 * t + e].  A [union PML *] is the
    index of the word it points to ([mmu_map_from_physical] adds a constant to turn a
    physical into a virtual address, and nothing here depends on the constant); a null
    pointer is [None].  Entries are the raw 64-bit values, their fields the bits the
    structure gives them.  Stale translations ([mmu_invalidate]) are not modelled, nor is
    the set-up of the boot page tables.

    The theorems show what address translation gives after a page is mapped, that
    copy-on-write keeps the reference counts equal to the number of references, and what
    a validated user pointer guarantees. *)
From S2P Require Import Prelude Frames.
Local Open Scope Z_scope.

(** ** Entries *)

Definition PRESENT : Z := 0.
Definition WRITABLE : Z := 1.
Definition USER : Z := 2.
Definition WRITETHROUGH : Z := 3.
Definition NOCACHE : Z := 4.
Definition SIZE : Z := 7.
Definition COW_PENDING : Z := 9.
Definition NX : Z := 63.

Definition bit (raw k : Z) : bool := Z.testbit raw k.
Definition put_bit (raw k : Z) (b : bool) : Z := if b then Z.setbit raw k else Z.clearbit raw k.
(** The 28-bit field [page]. *)
Definition page_of (raw : Z) : Z := Z.land (Z.shiftr raw 12) (Z.ones 28).
Definition put_page (raw f : Z) : Z :=
  Z.lor (Z.ldiff raw (Z.shiftl (Z.ones 28) 12)) (Z.shiftl (Z.land f (Z.ones 28)) 12).

Definition USER_PML_ACCESS : Z := 0x07.
Definition PDP_MASK : Z := 0x3fffffff.
Definition PD_MASK : Z := 0x1fffff.
Definition PT_MASK : Z := 0xFFF.
Definition PAGE_LOW_MASK : Z := 0xFFF.
Definition ENTRY_MASK : Z := 0x1FF.
Definition CANONICAL_MASK : Z := 0xFFFFffffFFFF.
Definition PHYS_MASK : Z := 0x7fffffffff.

Definition MMU_FLAG_KERNEL : Z := 0x01.
Definition MMU_FLAG_WRITABLE : Z := 0x02.
Definition MMU_FLAG_NOCACHE : Z := 0x04.
Definition MMU_FLAG_WRITETHROUGH : Z := 0x08.
Definition MMU_FLAG_SPEC : Z := 0x10.
Definition MMU_FLAG_NOEXECUTE : Z := 0x20.
Definition MMU_GET_MAKE : Z := 0x01.
Definition MMU_PTR_NULL : Z := 1.
Definition MMU_PTR_WRITE : Z := 2.

Definition USER_DEVICE_MAP : Z := 0x0000400000000000.
Definition USER_SHM_HIGH : Z := 0x0000500000000000.

Definition has (flags f : Z) : bool := negb (Z.land flags f =? 0).

(** ** State *)

Record mmu_state : Type := Mmu {
  alloc : frame_state;
  pm : Z → Z;
  (** [this_core->current_pml]: the frame of the root table *)
  current_pml : Z;
  heapStart : Z;
  mmio_base_address : Z;
  module_base_address : Z
}.

Definition with_alloc (s : mmu_state) (a : frame_state) : mmu_state :=
  Mmu a (pm s) (current_pml s) (heapStart s) (mmio_base_address s) (module_base_address s).
Definition with_pm (s : mmu_state) (m : Z → Z) : mmu_state :=
  Mmu (alloc s) m (current_pml s) (heapStart s) (mmio_base_address s) (module_base_address s).
Definition with_heap (s : mmu_state) (h : Z) : mmu_state :=
  Mmu (alloc s) (pm s) (current_pml s) h (mmio_base_address s) (module_base_address s).
Definition with_mmio (s : mmu_state) (b : Z) : mmu_state :=
  Mmu (alloc s) (pm s) (current_pml s) (heapStart s) b (module_base_address s).
Definition with_module (s : mmu_state) (b : Z) : mmu_state :=
  Mmu (alloc s) (pm s) (current_pml s) (heapStart s) (mmio_base_address s) b.

Definition in_alloc {A} (m : St frame_state A) : St mmu_state A := λ s,
  match m (alloc s) with
  | Done (x, a) => Done (x, with_alloc s a) | Fault => Fault | Timeout => Timeout
  end.

Definition upd (m : Z → Z) (a v : Z) : Z → Z := λ x, if x =? a then v else m x.
(** [memset(p, 0, n)] and [memcpy(d, s, n)] of [n] words. *)
Definition zero_words (m : Z → Z) (p n : Z) : Z → Z := λ x, if (p <=? x) && (x <? p + n) then 0 else m x.
Definition copy_words (m : Z → Z) (d s n : Z) : Z → Z := λ x,
  if (d <=? x) && (x <? d + n) then m (s + (x - d)) else m x.

Definition rd (p : Z) : St mmu_state Z := gets (λ s, pm s p).
Definition wr (p v : Z) : St mmu_state unit := modify (λ s, with_pm s (upd (pm s) p v)).
Definition zero_page (f : Z) : St mmu_state unit :=
  modify (λ s, with_pm s (zero_words (pm s) (512 * f) 512)).
Definition copy_page (d f : Z) : St mmu_state unit :=
  modify (λ s, with_pm s (copy_words (pm s) (512 * d) (512 * f) 512)).

(** The table an entry points to. *)
Definition entry_in (raw e : Z) : Z := 512 * page_of raw + e.

(** The four indices of a virtual address. *)
Definition page_addr (virtAddr : Z) : Z := Z.shiftr (Z.land virtAddr CANONICAL_MASK) PAGE_SHIFT.
Definition pml4_entry (v : Z) : Z := Z.land (Z.shiftr (page_addr v) 27) ENTRY_MASK.
Definition pdp_entry (v : Z) : Z := Z.land (Z.shiftr (page_addr v) 18) ENTRY_MASK.
Definition pd_entry (v : Z) : Z := Z.land (Z.shiftr (page_addr v) 9) ENTRY_MASK.
Definition pt_entry (v : Z) : Z := Z.land (page_addr v) ENTRY_MASK.

(** ** Mapping pages *)

Definition set_flags (raw flags : Z) : Z :=
  let raw := put_bit raw SIZE false in
  let raw := put_bit raw PRESENT true in
  let raw := put_bit raw WRITABLE (has flags MMU_FLAG_WRITABLE) in
  let raw := put_bit raw USER (negb (has flags MMU_FLAG_KERNEL)) in
  let raw := put_bit raw NOCACHE (has flags MMU_FLAG_NOCACHE) in
  let raw := put_bit raw WRITETHROUGH (has flags MMU_FLAG_WRITETHROUGH) in
  let raw := put_bit raw SIZE (has flags MMU_FLAG_SPEC) in
  put_bit raw NX (has flags MMU_FLAG_NOEXECUTE).

Definition mmu_frame_allocate (page flags : Z) : St mmu_state unit :=
  raw ← rd page;
  (if page_of raw =? 0 then
     index ← in_alloc mmu_first_frame;
     in_alloc (mmu_frame_set (u64 (Z.shiftl index PAGE_SHIFT)));;
     wr page (put_page raw index)
   else mret tt);;
  raw ← rd page;
  wr page (set_flags raw flags).

Definition mmu_frame_map_address (page flags physAddr : Z) : St mmu_state unit :=
  in_alloc (mmu_frame_set physAddr);;
  raw ← rd page;
  wr page (put_page raw (Z.shiftr physAddr PAGE_SHIFT));;
  mmu_frame_allocate page flags.

Definition mmu_get_page_other (root virtAddr : Z) : St mmu_state (option Z) :=
  r4 ← rd (512 * root + pml4_entry virtAddr);
  if negb (bit r4 PRESENT) then mret None
  else
    r3 ← rd (entry_in r4 (pdp_entry virtAddr));
    if negb (bit r3 PRESENT) then mret None
    else if bit r3 SIZE then mret None
    else
      r2 ← rd (entry_in r3 (pd_entry virtAddr));
      if negb (bit r2 PRESENT) then mret None
      else if bit r2 SIZE then mret None
      else mret (Some (entry_in r2 (pt_entry virtAddr))).

Definition mmu_map_to_physical (root virtAddr : Z) : St mmu_state Z :=
  r4 ← rd (512 * root + pml4_entry virtAddr);
  if negb (bit r4 PRESENT) then mret (u64 (-1))
  else
    r3 ← rd (entry_in r4 (pdp_entry virtAddr));
    if negb (bit r3 PRESENT) then mret (u64 (-2))
    else if bit r3 SIZE then mret (Z.lor (Z.shiftl (page_of r3) PAGE_SHIFT) (Z.land virtAddr PDP_MASK))
    else
      r2 ← rd (entry_in r3 (pd_entry virtAddr));
      if negb (bit r2 PRESENT) then mret (u64 (-3))
      else if bit r2 SIZE then mret (Z.lor (Z.shiftl (page_of r2) PAGE_SHIFT) (Z.land virtAddr PD_MASK))
      else
        r1 ← rd (entry_in r2 (pt_entry virtAddr));
        if negb (bit r1 PRESENT) then mret (u64 (-4))
        else mret (Z.lor (Z.shiftl (page_of r1) PAGE_SHIFT) (Z.land virtAddr PT_MASK)).

(** A new table under the entry [p]: an allocated, zeroed frame. *)
Definition new_table (p : Z) : St mmu_state unit :=
  index ← in_alloc mmu_first_frame;
  let newPage := u64 (Z.shiftl index PAGE_SHIFT) in
  in_alloc (mmu_frame_set newPage);;
  zero_page (Z.shiftr newPage PAGE_SHIFT);;
  wr p (Z.lor newPage USER_PML_ACCESS).

(** One level of [mmu_get_page]: the entry [p] is made present if asked for; [false] when
    it is not present and may not be made. *)
Definition ensure (p flags : Z) : St mmu_state bool :=
  raw ← rd p;
  if negb (bit raw PRESENT) then
    if negb (has flags MMU_GET_MAKE) then mret false
    else new_table p;; mret true
  else mret true.

Definition mmu_get_page (virtAddr flags : Z) : St mmu_state (option Z) :=
  root ← gets current_pml;
  let p4 := 512 * root + pml4_entry virtAddr in
  ok ← ensure p4 flags;
  if negb ok then mret None
  else
    r4 ← rd p4;
    let p3 := entry_in r4 (pdp_entry virtAddr) in
    ok ← ensure p3 flags;
    if negb ok then mret None
    else
      r3 ← rd p3;
      if bit r3 SIZE then mret None
      else
        let p2 := entry_in r3 (pd_entry virtAddr) in
        ok ← ensure p2 flags;
        if negb ok then mret None
        else
          r2 ← rd p2;
          if bit r2 SIZE then mret None
          else mret (Some (entry_in r2 (pt_entry virtAddr))).

(** ** Sharing and releasing pages *)

Definition refcount_of (f : Z) : St mmu_state Z := λ s,
  match mem_refcounts (alloc s) !! Z.to_nat f with Some c => Done (c, s) | None => Fault end.
Definition set_refcount (f c : Z) : St mmu_state unit :=
  modify (λ s, with_alloc s (with_refcounts (alloc s) (<[Z.to_nat f := c]> (mem_refcounts (alloc s))))).

(** [pin] and [pout] are [&pt_in[l]] and [&pt_out[l]]. *)
Definition copy_page_maybe (pin pout : Z) : St mmu_state Z :=
  raw ← rd pin;
  if bit raw WRITABLE then
    c ← refcount_of (page_of raw);
    if negb (c =? 0) then fault
    else
      set_refcount (page_of raw) 2;;
      wr pin (put_bit (put_bit raw WRITABLE false) COW_PENDING true);;
      raw ← rd pin;
      wr pout raw;;
      mret 0
  else
    full ← in_alloc (refcount_inc (page_of raw));
    (if negb (full =? 0) then
       index ← in_alloc mmu_first_frame;
       let newPage := u64 (Z.shiftl index PAGE_SHIFT) in
       copy_page (Z.shiftr newPage PAGE_SHIFT) (page_of raw);;
       wr pout (put_bit (put_bit (put_page (put_bit (put_bit 0 PRESENT true) USER true)
                  (Z.shiftr newPage PAGE_SHIFT)) WRITABLE true) COW_PENDING false)
     else
       raw ← rd pin;
       wr pout raw);;
    mret 0.

Definition free_page_maybe (p : Z) : St mmu_state Z :=
  raw ← rd p;
  if bit raw WRITABLE then
    c ← refcount_of (page_of raw);
    if negb (c =? 0) then fault
    else in_alloc (mmu_frame_clear (u64 (Z.shiftl (page_of raw) PAGE_SHIFT)));; mret 0
  else
    c ← in_alloc (refcount_dec (page_of raw));
    (if c =? 0 then in_alloc (mmu_frame_clear (u64 (Z.shiftl (page_of raw) PAGE_SHIFT))) else mret tt);;
    mret 0.

(** [for (size_t i = 0; i < n; ++i) body(i)]. *)
Fixpoint for_each (n : nat) (i : Z) (body : Z → St mmu_state unit) : St mmu_state unit :=
  match n with O => mret tt | S n => body i;; for_each n (i + 1) body end.

(** The user address of four indices. *)
Definition address_of (i j k l : Z) : Z :=
  Z.lor (Z.lor (Z.shiftl i 39) (Z.shiftl j 30)) (Z.lor (Z.shiftl k 21) (Z.shiftl l 12)).
Definition shared_region (a : Z) : bool := (USER_DEVICE_MAP <=? a) && (a <=? USER_SHM_HIGH).

(** A new table under [p], without the check of [ensure]: [mmu_clone] zeroes it, too. *)
Definition clone_table (p : Z) : St mmu_state Z :=
  index ← in_alloc mmu_first_frame;
  let newPage := u64 (Z.shiftl index PAGE_SHIFT) in
  in_alloc (mmu_frame_set newPage);;
  zero_page (Z.shiftr newPage PAGE_SHIFT);;
  wr p (Z.lor newPage USER_PML_ACCESS);;
  mret (Z.shiftr newPage PAGE_SHIFT).

(** One level of the copy: every present entry of the table [tin] gets a new table, which
    [below] fills. *)
Definition clone_level (n : nat) (tin tout : Z) (below : Z → Z → Z → St mmu_state unit) : St mmu_state unit :=
  for_each n 0 (λ e,
    raw ← rd (512 * tin + e);
    if bit raw PRESENT then
      t ← clone_table (512 * tout + e);
      below e (page_of raw) t
    else mret tt).

Definition clone_pages (i j k tin tout : Z) : St mmu_state unit :=
  for_each 512 0 (λ l,
    if shared_region (address_of i j k l) then mret tt
    else
      raw ← rd (512 * tin + l);
      if bit raw PRESENT then
        if bit raw USER then copy_page_maybe (512 * tin + l) (512 * tout + l);; mret tt
        else wr (512 * tout + l) raw
      else mret tt).

Definition mmu_clone (from : option Z) : St mmu_state Z :=
  cur ← gets current_pml;
  let from := default cur from in
  index ← in_alloc mmu_first_frame;
  let newPage := u64 (Z.shiftl index PAGE_SHIFT) in
  in_alloc (mmu_frame_set newPage);;
  let out := Z.shiftr newPage PAGE_SHIFT in
  modify (λ s, with_pm s (zero_words (pm s) (512 * out) 256));;
  modify (λ s, with_pm s (copy_words (pm s) (512 * out + 256) (512 * from + 256) 256));;
  clone_level 256 from out (λ i pdp_in pdp_out,
    clone_level 512 pdp_in pdp_out (λ j pd_in pd_out,
      clone_level 512 pd_in pd_out (λ k pt_in pt_out,
        clone_pages i j k pt_in pt_out)));;
  mret out.

(** A scan of the lower half: [visit] at every present table entry, [leaf] at every entry
    of a page table, and [leave] after a table was scanned. *)
Definition scan_level (n : nat) (t : Z) (below : Z → Z → St mmu_state unit) (leave : Z → St mmu_state unit)
    : St mmu_state unit :=
  for_each n 0 (λ e,
    raw ← rd (512 * t + e);
    if bit raw PRESENT then
      below e (page_of raw);;
      raw ← rd (512 * t + e);
      leave (page_of raw)
    else mret tt).

Definition free_pages (i j k t : Z) : St mmu_state unit :=
  for_each 512 0 (λ l,
    if shared_region (address_of i j k l) then mret tt
    else
      raw ← rd (512 * t + l);
      if bit raw PRESENT && bit raw USER then free_page_maybe (512 * t + l);; mret tt else mret tt).

Definition clear_table (f : Z) : St mmu_state unit :=
  in_alloc (mmu_frame_clear (u64 (Z.shiftl f PAGE_SHIFT))).

Definition mmu_free (from : option Z) : St mmu_state unit :=
  match from with
  | None => mret tt
  | Some from =>
      scan_level 256 from (λ i pdp,
        scan_level 512 pdp (λ j pd,
          scan_level 512 pd (λ k pt, free_pages i j k pt) clear_table) clear_table) clear_table;;
      in_alloc (mmu_frame_clear (Z.land (u64 (Z.shiftl from PAGE_SHIFT)) PHYS_MASK))
  end.

(** The entries at every level, and whether the walk reached the last. *)
Definition mmu_get_page_deep (virtAddr : Z) : St mmu_state (Z * option Z * option Z * option Z) :=
  root ← gets current_pml;
  let p4 := 512 * root + pml4_entry virtAddr in
  r4 ← rd p4;
  if negb (bit r4 PRESENT) then mret (p4, None, None, None)
  else
    let p3 := entry_in r4 (pdp_entry virtAddr) in
    r3 ← rd p3;
    if negb (bit r3 PRESENT) then mret (p4, Some p3, None, None)
    else
      let p2 := entry_in r3 (pd_entry virtAddr) in
      r2 ← rd p2;
      if negb (bit r2 PRESENT) then mret (p4, Some p3, Some p2, None)
      else mret (p4, Some p3, Some p2, Some (entry_in r2 (pt_entry virtAddr))).

Fixpoint any_present (n : nat) (p : Z) : St mmu_state bool :=
  match n with
  | O => mret false
  | S n => raw ← rd p; if bit raw PRESENT then mret true else any_present n (p + 1)
  end.

(** [bits.page << PAGE_SHIFT] without a cast to [uintptr_t]: a bit-field of 28 bits is
    promoted to [int] before the shift. *)
Definition narrow_address (page : Z) : Z := u64 (i32 (Z.shiftl page PAGE_SHIFT)).

Definition maybe_release_directory (parent child : Z) : St mmu_state bool :=
  let table := 512 * (child / 512) in
  b ← any_present 512 table;
  if b : bool then mret false
  else
    raw ← rd parent;
    wr parent 0;;
    in_alloc (mmu_frame_clear (narrow_address (page_of raw)));;
    mret true.

Definition unmap_one (p4 p3 p2 pt : Z) : St mmu_state unit :=
  raw ← rd pt;
  if bit raw PRESENT && bit raw USER then
    free_page_maybe pt;;
    wr pt (put_bit (put_bit raw PRESENT false) WRITABLE false);;
    r1 ← maybe_release_directory p2 pt;
    if r1 : bool then
      r2 ← maybe_release_directory p3 p2;
      if r2 : bool then maybe_release_directory p4 p3;; mret tt else mret tt
    else mret tt
  else mret tt.

Fixpoint unmap_from (fuel : nat) (a stop : Z) : St mmu_state unit :=
  match fuel with
  | O => λ _, Timeout
  | S f =>
      if a <? stop then
        (if shared_region a then mret tt
         else
           r ← mmu_get_page_deep a;
           match r with
           | (p4, Some p3, Some p2, Some pt) => unmap_one p4 p3 p2 pt
           | _ => mret tt
           end);;
        unmap_from f (u64 (a + PAGE_SIZE)) stop
      else mret tt
  end.

Definition mmu_unmap_user (fuel : nat) (addr size : Z) : St mmu_state unit :=
  unmap_from fuel addr (u64 (addr + size)).

(** ** Kernel regions *)

(** Map pages from [p] on: [page] makes each entry's contents. *)
Fixpoint map_pages (n : nat) (p : Z) (page : Z → Z → St mmu_state unit) (i : Z) : St mmu_state unit :=
  match n with
  | O => mret tt
  | S n =>
      e ← mmu_get_page (u64 (p + i)) MMU_GET_MAKE;
      match e with
      | None => fault
      | Some e => page e i;; map_pages n p page (i + PAGE_SIZE)
      end
  end.

Definition sbrk (bytes : Z) : St mmu_state Z := λ s,
  if heapStart s =? NULL then Fault
  else if bytes =? 0 then Done (heapStart s, s)
  else if negb (Z.land bytes PAGE_LOW_MASK =? 0) then Fault
  else if 0x1F00000 <? bytes then Fault
  else
    (map_pages (Z.to_nat (bytes / PAGE_SIZE)) (heapStart s)
       (λ e _, mmu_frame_allocate e (Z.lor MMU_FLAG_WRITABLE MMU_FLAG_KERNEL)) 0;;
     modify (λ s, with_heap s (u64 (heapStart s + bytes)));;
     mret (heapStart s)) s.

Definition mmu_map_mmio_region (physical_address size : Z) : St mmu_state Z := λ s,
  if negb (Z.land size PAGE_LOW_MASK =? 0) then Fault
  else
    (map_pages (Z.to_nat (size / PAGE_SIZE)) (mmio_base_address s)
       (λ e i, mmu_frame_map_address e
          (Z.lor (Z.lor MMU_FLAG_KERNEL MMU_FLAG_WRITABLE) (Z.lor MMU_FLAG_NOCACHE MMU_FLAG_WRITETHROUGH))
          (u64 (physical_address + i))) 0;;
     modify (λ s, with_mmio s (u64 (mmio_base_address s + size)));;
     mret (mmio_base_address s)) s.

Definition mmu_map_module (size : Z) : St mmu_state Z := λ s,
  let size := if negb (Z.land size PAGE_LOW_MASK =? 0)
              then u64 (size + (PAGE_LOW_MASK + 1) - Z.land size PAGE_LOW_MASK) else size in
  (map_pages (Z.to_nat (size / PAGE_SIZE)) (module_base_address s)
     (λ e _, mmu_frame_allocate e (Z.lor MMU_FLAG_KERNEL MMU_FLAG_WRITABLE)) 0;;
   modify (λ s, with_module s (u64 (module_base_address s + size)));;
   mret (module_base_address s)) s.

Fixpoint clear_pages (n : nat) (p : Z) : St mmu_state unit :=
  match n with
  | O => mret tt
  | S n =>
      e ← mmu_get_page p 0;
      match e with
      | None => fault
      | Some e => raw ← rd e; in_alloc (mmu_frame_clear (narrow_address (page_of raw)));;
                  clear_pages n (u64 (p + 0x1000))
      end
  end.

Definition mmu_unmap_module (start_address size : Z) : St mmu_state unit :=
  if negb (Z.land size PAGE_LOW_MASK =? 0) || negb (Z.land start_address PAGE_LOW_MASK =? 0) then fault
  else
    let end_address := u64 (start_address + size) in
    clear_pages (if start_address <? end_address then Z.to_nat (size / PAGE_SIZE) else 0) start_address;;
    modify (λ s, if end_address =? module_base_address s then with_module s start_address else s).

(** ** Counting pages *)

Fixpoint sum_each (n : nat) (i : Z) (body : Z → St mmu_state Z) : St mmu_state Z :=
  match n with O => mret 0 | S n => a ← body i; b ← sum_each n (i + 1) body; mret (a + b) end.

Definition count_level (n : nat) (t own : Z) (below : Z → Z → St mmu_state Z) : St mmu_state Z :=
  sum_each n 0 (λ e,
    raw ← rd (512 * t + e);
    if bit raw PRESENT then r ← below e (page_of raw); mret (own + r) else mret 0).

Definition count_pages (shared : bool) (i j k t : Z) : St mmu_state Z :=
  sum_each 512 0 (λ l,
    if Bool.eqb (shared_region (address_of i j k l)) shared then
      raw ← rd (512 * t + l);
      mret (truth (bit raw PRESENT && bit raw USER))
    else mret 0).

Definition mmu_count_user (from : Z) : St mmu_state Z :=
  count_level 256 from 1 (λ i pdp, count_level 512 pdp 1 (λ j pd,
    count_level 512 pd 1 (λ k pt, count_pages false i j k pt))).

Definition mmu_count_shm (from : Z) : St mmu_state Z :=
  count_level 256 from 0 (λ i pdp, count_level 512 pdp 0 (λ j pd,
    count_level 512 pd 0 (λ k pt, count_pages true i j k pt))).

(** ** Page faults and user pointers *)

(** The part of [mmu_copy_on_write] that knows the entry. *)
Definition cow_entry (page : Z) : St mmu_state Z :=
  raw ← rd page;
  if negb (bit raw COW_PENDING) then mret 1
  else
    refs ← in_alloc (refcount_dec (page_of raw));
    if refs =? 0 then
      wr page (put_bit (put_bit raw WRITABLE true) COW_PENDING false);;
      mret 0
    else
      fresh_frame ← in_alloc mmu_first_frame;
      in_alloc (mmu_frame_set (u64 (Z.shiftl fresh_frame PAGE_SHIFT)));;
      copy_page fresh_frame (page_of raw);;
      raw ← rd page;
      wr page (put_bit (put_bit (put_page raw fresh_frame) WRITABLE true) COW_PENDING false);;
      mret 0.

Definition mmu_copy_on_write (address : Z) : St mmu_state Z :=
  page ← mmu_get_page address 0;
  match page with
  | None => fault (* page->bits of a null pointer *)
  | Some page => cow_entry page
  end.

(** The loop over the pages [page <= page_end] of a user pointer; [directory] is the root
    table of the current process. *)
Fixpoint validate_pages (fuel : nat) (directory page page_end flags : Z) : St mmu_state Z :=
  match fuel with
  | O => λ _, Timeout
  | S f =>
      if page_end <? page then mret 1
      else
        let high := Z.land page 0xffff800000000 in
        if negb (high =? 0) && negb (high =? 0xffff800000000) then mret 0
        else
          e ← mmu_get_page_other directory (u64 (Z.shiftl page 12));
          match e with
          | None => mret 0
          | Some e =>
              raw ← rd e;
              if negb (bit raw PRESENT) then mret 0
              else if negb (bit raw USER) then mret 0
              else
                bad ← (if negb (bit raw WRITABLE) && has flags MMU_PTR_WRITE
                       then mmu_copy_on_write (u64 (Z.shiftl page 12)) else mret 0);
                if negb (bad =? 0) then mret 0
                else validate_pages f directory (page + 1) page_end flags
          end
  end.

Definition mmu_validate_user_pointer (fuel : nat) (directory addr size flags : Z) : St mmu_state Z :=
  if (addr =? NULL) && negb (has flags MMU_PTR_NULL) then mret 0
  else if 0x800000000000 <? size then mret 0
  else
    let base := addr in
    let stop := if size =? 0 then base else u64 (base + (size - 1)) in
    validate_pages fuel directory (Z.shiftr base 12) (Z.shiftr stop 12) flags.

(** ** Fields of an entry *)

Lemma bit_put_bit raw k b j : 0 ≤ k → 0 ≤ j → bit (put_bit raw k b) j = if j =? k then b else bit raw j.
Proof.
  intros Hk Hj. unfold bit, put_bit. destruct (Z.eqb_spec j k) as [->|Hne]; destruct b.
  - by apply Z.setbit_eq. - by apply Z.clearbit_eq.
  - by apply Z.setbit_neq; [|congruence]. - by apply Z.clearbit_neq; congruence.
Qed.

Lemma page_of_bit raw i : 0 ≤ i → Z.testbit (page_of raw) i = (i <? 28) && bit raw (i + 12).
Proof.
  intros Hi. unfold page_of, bit. rewrite Z.land_spec, Z.shiftr_spec by done.
  rewrite Z.testbit_ones_nonneg by lia. apply andb_comm.
Qed.

Lemma page_of_range raw : 0 ≤ page_of raw < 2 ^ 28.
Proof. unfold page_of. rewrite Z.land_ones by lia. apply Z.mod_pos_bound. lia. Qed.

Lemma page_of_ext raw raw' : (∀ i, 12 ≤ i < 40 → bit raw i = bit raw' i) → page_of raw = page_of raw'.
Proof.
  intros H. apply Z.bits_inj'. intros i Hi. rewrite !page_of_bit by done.
  destruct (Z.ltb_spec i 28); simpl; [apply H; lia|done].
Qed.

Lemma page_of_put_bit raw k b : 0 ≤ k → k < 12 ∨ 40 ≤ k → page_of (put_bit raw k b) = page_of raw.
Proof.
  intros Hk Hr. apply page_of_ext. intros i Hi. rewrite bit_put_bit by lia.
  by rewrite (proj2 (Z.eqb_neq i k)) by lia.
Qed.

Lemma put_page_bit raw f i : 0 ≤ f < 2 ^ 28 → 0 ≤ i →
  bit (put_page raw f) i = if (12 <=? i) && (i <? 40) then Z.testbit f (i - 12) else bit raw i.
Proof.
  intros Hf Hi. unfold bit, put_page. rewrite Z.lor_spec, Z.ldiff_spec, !Z.shiftl_spec by done.
  destruct (Z.leb_spec 12 i), (Z.ltb_spec i 40); simpl.
  - rewrite Z.testbit_ones_nonneg, Z.land_spec, Z.testbit_ones_nonneg by lia.
    rewrite (proj2 (Z.ltb_lt _ _)) by lia. simpl. by rewrite andb_false_r, andb_true_r.
  - rewrite Z.testbit_ones_nonneg, Z.land_spec, Z.testbit_ones_nonneg by lia.
    rewrite (proj2 (Z.ltb_ge _ _)) by lia. simpl. by rewrite andb_true_r, andb_false_r, orb_false_r.
  - rewrite !(Z.testbit_neg_r _ (i - 12)) by lia. by rewrite andb_true_r, orb_false_r.
  - lia.
Qed.

Lemma page_of_put_page raw f : 0 ≤ f < 2 ^ 28 → page_of (put_page raw f) = f.
Proof.
  intros Hf. apply Z.bits_inj'. intros i Hi. rewrite page_of_bit, put_page_bit by lia.
  destruct (Z.ltb_spec i 28); simpl.
  - rewrite (proj2 (Z.leb_le _ _)), (proj2 (Z.ltb_lt _ _)) by lia. simpl. f_equal. lia.
  - symmetry. destruct (decide (f = 0)) as [->|]; [apply Z.bits_0|]. apply Z.bits_above_log2; [lia|].
    assert (Z.log2 f < 28) by (apply Z.log2_lt_pow2; lia). lia.
Qed.

(** A frame's address with flags in its low bits. *)
Lemma address_flags f x i : 0 ≤ f < 2 ^ 28 → 0 ≤ x < 2 ^ 12 → 0 ≤ i →
  bit (Z.lor (u64 (Z.shiftl f PAGE_SHIFT)) x) i = if i <? 12 then Z.testbit x i else Z.testbit f (i - 12).
Proof.
  intros Hf Hx Hi. unfold bit. rewrite frame_addr by done. unfold PAGE_SIZE.
  change 0x1000 with (2 ^ 12). rewrite <-Z.shiftl_mul_pow2 by lia. rewrite Z.lor_spec, Z.shiftl_spec by done.
  destruct (Z.ltb_spec i 12); [by rewrite Z.testbit_neg_r by lia|].
  destruct (decide (x = 0)) as [->|]; [by rewrite Z.bits_0, orb_false_r|].
  rewrite (Z.bits_above_log2 x i), orb_false_r; [done|lia|].
  assert (Z.log2 x < 12) by (apply Z.log2_lt_pow2; lia). lia.
Qed.

Lemma page_of_address f x : 0 ≤ f < 2 ^ 28 → 0 ≤ x < 2 ^ 12 →
  page_of (Z.lor (u64 (Z.shiftl f PAGE_SHIFT)) x) = f.
Proof.
  intros Hf Hx. apply Z.bits_inj'. intros i Hi. rewrite page_of_bit, address_flags by lia.
  rewrite (proj2 (Z.ltb_ge (i + 12) 12)) by lia. replace (i + 12 - 12) with i by lia.
  destruct (Z.ltb_spec i 28); simpl; [done|]. symmetry.
  destruct (decide (f = 0)) as [->|]; [apply Z.bits_0|]. apply Z.bits_above_log2; [lia|].
  assert (Z.log2 f < 28) by (apply Z.log2_lt_pow2; lia). lia.
Qed.

Lemma address_page f : 0 ≤ f < 2 ^ 28 → Z.shiftr (u64 (Z.shiftl f PAGE_SHIFT)) PAGE_SHIFT = f.
Proof. intros Hf. rewrite frame_addr by done. apply addr_frame. Qed.

(** ** Trees of tables *)

(** The walk of the indices [path] from the table in frame [t]: the entry it ends at. *)
Fixpoint walk (m : Z → Z) (path : list Z) (t : Z) : option Z :=
  match path with
  | [] => None
  | e :: p =>
      match p with
      | [] => Some (512 * t + e)
      | _ => let r := m (512 * t + e) in
             if bit r PRESENT && negb (bit r SIZE) then walk m p (page_of r) else None
      end
  end.

Lemma walk_one m e t : walk m [e] t = Some (512 * t + e).
Proof. done. Qed.

Lemma walk_cons m e e2 p t :
  walk m (e :: e2 :: p) t =
  if bit (m (512 * t + e)) PRESENT && negb (bit (m (512 * t + e)) SIZE)
  then walk m (e2 :: p) (page_of (m (512 * t + e))) else None.
Proof. done. Qed.

(** What the walk gives: no page, a large page, or the entry of a page. *)
Inductive translation : Type := Missing | Large | Mapped (raw : Z).

Fixpoint trans (m : Z → Z) (path : list Z) (t : Z) : translation :=
  match path with
  | [] => Missing
  | e :: p =>
      let r := m (512 * t + e) in
      if negb (bit r PRESENT) then Missing
      else match p with
           | [] => Mapped r
           | _ => if bit r SIZE then Large else trans m p (page_of r)
           end
  end.

Lemma trans_one m e t :
  trans m [e] t = if negb (bit (m (512 * t + e)) PRESENT) then Missing else Mapped (m (512 * t + e)).
Proof. done. Qed.

Lemma trans_cons m e e2 p t :
  trans m (e :: e2 :: p) t =
  if negb (bit (m (512 * t + e)) PRESENT) then Missing
  else if bit (m (512 * t + e)) SIZE then Large else trans m (e2 :: p) (page_of (m (512 * t + e))).
Proof. done. Qed.

Definition index_ok (e : Z) : Prop := 0 ≤ e < 512.
Definition path_ok (n : nat) (p : list Z) : Prop := length p = S n ∧ Forall index_ok p.

(** The frame [t] holds a table [n] levels above the page tables; [F] is the set of the
    frames of its tables, none of which is used twice. *)
Fixpoint tbl (m : Z → Z) (n : nat) (t : Z) (F : Z → Prop) : Prop :=
  match n with
  | O => ∀ f, F f ↔ f = t
  | S n => ∃ G : Z → Z → Prop,
      (∀ f, F f ↔ f = t ∨ ∃ e, index_ok e ∧ G e f) ∧
      (∀ e, index_ok e → ¬ G e t) ∧
      (∀ e e' f, index_ok e → index_ok e' → G e f → G e' f → e = e') ∧
      (∀ e, index_ok e → let r := m (512 * t + e) in
         if bit r PRESENT && negb (bit r SIZE) then tbl m n (page_of r) (G e) else ∀ f, ¬ G e f)
  end.

Definition in_frame (w f : Z) : Prop := 512 * f ≤ w < 512 * f + 512.

Lemma in_frame_inj w f f' : in_frame w f → in_frame w f' → f = f'.
Proof. unfold in_frame. lia. Qed.

Lemma entry_in_frame t e : index_ok e → in_frame (512 * t + e) t.
Proof. unfold index_ok, in_frame. lia. Qed.

(** Memory agrees on the frames in [F]. *)
Definition agree (m m' : Z → Z) (F : Z → Prop) : Prop := ∀ f w, F f → in_frame w f → m' w = m w.

Lemma tbl_root m n t F : tbl m n t F → F t.
Proof. destruct n; simpl; [intros H; by apply H|intros (G & H & _); apply H; by left]. Qed.

Lemma tbl_agree m m' n : ∀ t F, tbl m n t F → agree m m' F → tbl m' n t F.
Proof.
  induction n as [|n IH]; intros t F H A; [done|]. destruct H as (G & HF & Ht & Hd & He).
  exists G. split_and!; try done. intros e Hi. specialize (He e Hi). cbv zeta in He |- *.
  assert (E : m' (512 * t + e) = m (512 * t + e)) by (apply (A t); [apply HF; by left|by apply entry_in_frame]).
  rewrite E. destruct (_ && _); [|done]. apply IH; [done|]. intros f w Hf. apply A. apply HF. right. by exists e.
Qed.

Lemma path_leaf p : path_ok 0 p → ∃ e, p = [e] ∧ index_ok e.
Proof. intros [Hl Hp]. destruct p as [|e []]; try done. exists e. split; [done|]. by apply Forall_cons in Hp as []. Qed.

Lemma path_step n p : path_ok (S n) p → ∃ e e2 p', p = e :: e2 :: p' ∧ index_ok e ∧ path_ok n (e2 :: p').
Proof.
  intros [Hl Hp]. destruct p as [|e [|e2 p]]; try done. apply Forall_cons in Hp as [Hi Hp].
  exists e, e2, p. split_and!; [done..|]. split; [|done]. simpl in *. lia.
Qed.

Lemma walk_agree m m' n : ∀ t F p, tbl m n t F → agree m m' F → path_ok n p → walk m' p t = walk m p t.
Proof.
  induction n as [|n IH]; intros t F p H A Hp.
  { by destruct (path_leaf p Hp) as (e & -> & _). }
  destruct (path_step n p Hp) as (e & e2 & p' & -> & Hi & Hp'). destruct H as (G & HF & Ht & Hd & He).
  specialize (He e Hi). rewrite !walk_cons. cbv zeta in He.
  assert (E : m' (512 * t + e) = m (512 * t + e)) by (apply (A t); [apply HF; by left|by apply entry_in_frame]).
  rewrite E. destruct (bit (m (512 * t + e)) PRESENT && negb (bit (m (512 * t + e)) SIZE)); [|done].
  apply (IH _ (G e)); [done| |done]. intros f w Hf. apply A. apply HF. right. by exists e.
Qed.

(** The entry found lies in one of the table's frames. *)
Lemma walk_in m n : ∀ t F p s, tbl m n t F → path_ok n p → walk m p t = Some s → ∃ f, F f ∧ in_frame s f.
Proof.
  induction n as [|n IH]; intros t F p s H Hp Hw.
  { destruct (path_leaf p Hp) as (e & -> & Hi). injection Hw as <-. exists t. split; [by apply H|by apply entry_in_frame]. }
  destruct (path_step n p Hp) as (e & e2 & p' & -> & Hi & Hp'). destruct H as (G & HF & Ht & Hd & He).
  specialize (He e Hi). rewrite walk_cons in Hw. cbv zeta in He.
  destruct (bit (m (512 * t + e)) PRESENT && negb (bit (m (512 * t + e)) SIZE)); [|done].
  destruct (IH _ (G e) _ s He Hp' Hw) as (f & Hf & Hs).
  exists f. split; [|done]. apply HF. right. by exists e.
Qed.

Lemma trans_agree m m' n : ∀ t F p, tbl m n t F → agree m m' F → path_ok n p → trans m' p t = trans m p t.
Proof.
  induction n as [|n IH]; intros t F p H A Hp.
  { destruct (path_leaf p Hp) as (e & -> & He). rewrite !trans_one.
    by rewrite (A t (512 * t + e) (proj2 (H t) eq_refl) (entry_in_frame t e He)). }
  destruct (path_step n p Hp) as (e & e2 & p' & -> & Hi & Hp'). destruct H as (G & HF & Ht & Hd & He).
  specialize (He e Hi). rewrite !trans_cons. cbv zeta in He.
  assert (E : m' (512 * t + e) = m (512 * t + e)) by (apply (A t); [apply HF; by left|by apply entry_in_frame]).
  rewrite E. destruct (bit (m (512 * t + e)) PRESENT), (bit (m (512 * t + e)) SIZE); try done. cbn [negb andb] in He |- *.
  apply (IH _ (G e)); [done| |done]. intros f w Hf. apply A. apply HF. right. by exists e.
Qed.

Lemma tbl_ext m n : ∀ t F F', tbl m n t F → (∀ f, F f ↔ F' f) → tbl m n t F'.
Proof.
  destruct n as [|n]; intros t F F' H E.
  - intros f. by rewrite <-E, (H f).
  - destruct H as (G & HF & H). exists G. split; [|done]. intros f. by rewrite <-E, HF.
Qed.

(** Replacing the table below the entry [e] by a larger one. *)
Lemma graft m m' n t F (G : Z → Z → Prop) e G' :
  index_ok e →
  (∀ f, F f ↔ f = t ∨ ∃ e, index_ok e ∧ G e f) →
  (∀ e, index_ok e → ¬ G e t) →
  (∀ e e' f, index_ok e → index_ok e' → G e f → G e' f → e = e') →
  (∀ e, index_ok e → let r := m (512 * t + e) in
     if bit r PRESENT && negb (bit r SIZE) then tbl m n (page_of r) (G e) else ∀ f, ¬ G e f) →
  bit (m (512 * t + e)) PRESENT && negb (bit (m (512 * t + e)) SIZE) = true →
  tbl m' n (page_of (m (512 * t + e))) G' → (∀ f, G e f → G' f) → (∀ f, G' f → G e f ∨ ¬ F f) →
  agree m m' (λ f, F f ∧ ¬ G e f) →
  (∀ p, path_ok n p → trans m' p (page_of (m (512 * t + e))) = trans m p (page_of (m (512 * t + e)))) →
  tbl m' (S n) t (λ f, F f ∨ G' f) ∧ ∀ p, path_ok (S n) p → trans m' p t = trans m p t.
Proof.
  intros Hi HF Ht Hd He Eb Hsub Hinc Hnew A Htr.
  assert (Hoth : ∀ e', index_ok e' → e' ≠ e → agree m m' (G e')).
  { intros e' Hi' Hne f w Hf. apply A. split; [apply HF; right; by exists e'|].
    intros Hf'. apply Hne. by apply (Hd e' e f). }
  assert (Hroot : ∀ e', index_ok e' → m' (512 * t + e') = m (512 * t + e')).
  { intros e' Hi'. apply (A t); [|by apply entry_in_frame]. split; [apply HF; by left|by apply Ht]. }
  assert (HG' : ∀ e' f, index_ok e' → e' ≠ e → G e' f → ¬ G' f).
  { intros e' f Hi' Hne Hf Hf'. destruct (Hnew f Hf') as [H|H]; [apply Hne; by apply (Hd e' e f)|].
    apply H, HF. right. by exists e'. }
  split.
  - exists (λ e' f, if decide (e' = e) then G' f else G e' f). split_and!.
    + intros f. rewrite HF. split.
      * intros [[?|(e' & Hi' & Hf)]|Hf]; [by left| |].
        -- right. exists e'. split; [done|]. destruct (decide (e' = e)) as [->|]; [by apply Hinc|done].
        -- right. exists e. split; [done|]. by rewrite decide_True.
      * intros [?|(e' & Hi' & Hf)]; [left; by left|]. destruct (decide (e' = e)) as [->|]; [by right|].
        left. right. by exists e'.
    + intros e' Hi'. destruct (decide (e' = e)); [|by apply Ht]. intros Hf.
      destruct (Hnew t Hf) as [H|H]; [by apply (Ht e)|apply H, HF; by left].
    + intros e1 e2 f H1 H2. destruct (decide (e1 = e)) as [->|], (decide (e2 = e)) as [->|]; try done.
      * intros Hf Hf'. by destruct (HG' e2 f).
      * intros Hf Hf'. by destruct (HG' e1 f).
      * by apply Hd.
    + intros e' Hi'. cbv zeta. rewrite Hroot by done. specialize (He e' Hi'). cbv zeta in He.
      destruct (decide (e' = e)) as [->|Hne]; [by rewrite Eb|].
      destruct (_ && _); [|done]. apply (tbl_agree m); [done|]. by apply Hoth.
  - intros p Hp. destruct (path_step n p Hp) as (e' & e2 & q & -> & Hi' & Hq). rewrite !trans_cons, Hroot by done.
    specialize (He e' Hi'). cbv zeta in He. destruct (decide (e' = e)) as [->|Hne]; [by rewrite Htr|].
    destruct (bit (m (512 * t + e')) PRESENT), (bit (m (512 * t + e')) SIZE); try done. cbn [negb andb] in He |- *.
    apply (trans_agree m m' n _ (G e')); [done|by apply Hoth|done].
Qed.

(** A write to the entry of one page changes the translation of that page only. *)
Lemma write_leaf m m' n : ∀ t F p s, tbl m n t F → path_ok n p → walk m p t = Some s →
  (∀ w, w ≠ s → m' w = m w) →
  tbl m' n t F ∧ trans m' p t = (if negb (bit (m' s) PRESENT) then Missing else Mapped (m' s)) ∧
  ∀ p', path_ok n p' → p' ≠ p → trans m' p' t = trans m p' t.
Proof.
  induction n as [|n IH]; intros t F p s H Hp Hw Hm.
  { destruct (path_leaf p Hp) as (e & -> & Hi). injection Hw as <-. split_and!; [done| |].
    - by rewrite trans_one.
    - intros p' Hp' Hne. destruct (path_leaf p' Hp') as (e' & -> & Hi'). rewrite !trans_one.
      assert (Hn : 512 * t + e' ≠ 512 * t + e) by (intros E; apply Hne; f_equal; lia).
      by rewrite Hm. }
  pose proof H as (G & HF & Ht & Hd & He). destruct (path_step n p Hp) as (e & e2 & q & -> & Hi & Hq).
  rewrite walk_cons in Hw. pose proof (He e Hi) as Hsub. cbv zeta in Hsub.
  destruct (bit (m (512 * t + e)) PRESENT && negb (bit (m (512 * t + e)) SIZE)) eqn:Eb; [|done].
  destruct (walk_in m n _ _ _ s Hsub Hq Hw) as (fs & Hfs & Hsfs).
  assert (Hother : ∀ f w, ¬ G e f → in_frame w f → m' w = m w).
  { intros f w Hf Hwf. apply Hm. intros ->. by rewrite (in_frame_inj s f fs Hwf Hsfs) in Hf. }
  assert (Hroot : ∀ e', index_ok e' → m' (512 * t + e') = m (512 * t + e')).
  { intros e' He'. apply (Hother t); [by apply Ht|by apply entry_in_frame]. }
  pose proof Eb as [EP ES]%andb_true_iff. apply negb_true_iff in ES.
  destruct (IH (page_of (m (512 * t + e))) (G e) (e2 :: q) s Hsub Hq Hw Hm) as (Htbl & Htr & Htr'). split_and!.
  - exists G. split_and!; try done. intros e' He'. cbv zeta. rewrite Hroot by done. specialize (He e' He'). cbv zeta in He.
    destruct (decide (e' = e)) as [->|Hne]; [by rewrite Eb|].
    destruct (bit (m (512 * t + e')) PRESENT && negb (bit (m (512 * t + e')) SIZE)); [|done].
    apply (tbl_agree m); [done|].
    intros f w Hf. apply Hother. intros Hf'. apply Hne. by apply (Hd e' e f).
  - rewrite trans_cons, Hroot, EP, ES by done. exact Htr.
  - intros p' Hp' Hne. destruct (path_step n p' Hp') as (e' & e2' & q' & -> & Hi' & Hq').
    rewrite !trans_cons, Hroot by done. specialize (He e' Hi'). cbv zeta in He.
    destruct (decide (e' = e)) as [->|Hne'].
    { rewrite EP, ES. apply Htr'; [done|congruence]. }
    destruct (bit (m (512 * t + e')) PRESENT), (bit (m (512 * t + e')) SIZE); try done. cbn [negb andb] in He |- *.
    apply (trans_agree m _ n _ (G e')); [done| |done]. intros f w Hf. apply Hother.
    intros H'. apply Hne'. by apply (Hd e' e f).
Qed.

(** ** Making the tables of a page *)

Definition free_frames (a : frame_state) (U : gset Z) : gset Z := list_to_set (seqZ 0 (searched a)) ∖ U.

(** The states that differ in the frames and in memory only. *)
Definition with_both (s : mmu_state) (a : frame_state) (m : Z → Z) : mmu_state := with_pm (with_alloc s a) m.

Lemma allocate_run a U :
  represents a U → (1 ≤ size (free_frames a U))%nat →
  ∃ f a0 a', f ∉ U ∧ 0 ≤ f < nframes a ∧ mmu_first_frame a = Done (f, a0) ∧
    mmu_frame_set (u64 (Z.shiftl f PAGE_SHIFT)) a0 = Done (tt, a') ∧ represents a' ({[f]} ∪ U) ∧
    nframes a' = nframes a ∧ mem_refcounts a' = mem_refcounts a ∧
    size (free_frames a U) = S (size (free_frames a' ({[f]} ∪ U))).
Proof.
  intros R Hsz. pose proof (set_op_sound a U Allocate R I) as H. cbn [set_op exec_frame_op] in H.
  pose proof (find_seqZ (λ f, f ∉ U) (searched a)) as Hg. fold (searched a) in H. fold (first_gap U (searched a)) in Hg.
  pose proof (searched_le a (rep_wf a U R)) as Hle.
  destruct (first_gap U (searched a)) as [f|].
  - destruct Hg as (Hf & HfU & _). destruct H as (a' & E & R' & Hn & Hr).
    unfold mmu_allocate_a_frame, mbind, St_bind in E.
    destruct (mmu_first_frame a) as [[g a0]| |] eqn:E1; try done.
    destruct (mmu_frame_set (u64 (Z.shiftl g PAGE_SHIFT)) a0) as [[[] a1]| |] eqn:E2; try done.
    injection E as -> ->. exists f, a0, a'. split_and!; [done|lia|lia|done|done|exact R'|done|done|].
    assert (free_frames a' ({[f]} ∪ U) = free_frames a U ∖ {[f]}) as ->.
    { unfold free_frames, searched. rewrite Hn. set_solver. }
    rewrite size_difference, size_singleton; [lia|].
    unfold free_frames. apply singleton_subseteq_l, elem_of_difference. split; [|done]. apply elem_of_list_to_set, elem_of_seqZ. lia.
  - exfalso. assert (free_frames a U ≡ ∅) as E.
    { unfold free_frames. intros f. split; [|set_solver]. intros [H1%elem_of_list_to_set%elem_of_seqZ H2]%elem_of_difference.
      exfalso. apply (Hg f); [lia|done]. }
    apply size_empty_iff in E. lia.
Qed.

(** The memory after a table was made in frame [f] for the entry [p]. *)
Definition table_made (m : Z → Z) (f p : Z) : Z → Z :=
  upd (zero_words m (512 * f) 512) p (Z.lor (u64 (Z.shiftl f PAGE_SHIFT)) USER_PML_ACCESS).

Lemma new_table_run s U p :
  represents (alloc s) U → (1 ≤ size (free_frames (alloc s) U))%nat →
  ∃ f a, f ∉ U ∧ 0 ≤ f < 2 ^ 28 ∧ new_table p s = Done (tt, with_both s a (table_made (pm s) f p)) ∧
    represents a ({[f]} ∪ U) ∧ nframes a = nframes (alloc s) ∧ mem_refcounts a = mem_refcounts (alloc s) ∧
    size (free_frames (alloc s) U) = S (size (free_frames a ({[f]} ∪ U))).
Proof.
  intros R Hsz. destruct (allocate_run (alloc s) U R Hsz) as (f & a0 & a & HfU & Hf & E1 & E2 & R' & Hn & Hr & Hsz').
  pose proof (wf_nframes _ (rep_wf _ _ R)) as Hb. exists f, a. split_and!; try done; try lia.
  unfold new_table, in_alloc, zero_page, wr, modify, mbind, St_bind. rewrite E1. cbn [alloc with_alloc].
  rewrite E2. rewrite address_page by lia. done.
Qed.

Lemma zero_in_frame m f w : in_frame w f → zero_words m (512 * f) 512 w = 0.
Proof.
  intros [H1 H2]. unfold zero_words. by rewrite (proj2 (Z.leb_le _ _)), (proj2 (Z.ltb_lt _ _)) by lia.
Qed.
Lemma zero_out_frame m f w : ¬ in_frame w f → zero_words m (512 * f) 512 w = m w.
Proof.
  intros H. unfold zero_words, in_frame in *. destruct (Z.leb_spec (512 * f) w), (Z.ltb_spec w (512 * f + 512)); try done. lia.
Qed.

(** The entry a made table hangs on. *)
Lemma table_entry f : 0 ≤ f < 2 ^ 28 → let r := Z.lor (u64 (Z.shiftl f PAGE_SHIFT)) USER_PML_ACCESS in
  bit r PRESENT = true ∧ bit r SIZE = false ∧ page_of r = f.
Proof. intros Hf r. unfold r, USER_PML_ACCESS. rewrite !address_flags, page_of_address by (done || lia). by vm_compute. Qed.

(** A table of zeros. *)
Lemma zero_table m n f : (∀ w, in_frame w f → m w = 0) →
  tbl m n f (eq f) ∧ ∀ p, path_ok n p → trans m p f = Missing.
Proof.
  intros Hz. assert (H0 : ∀ e, index_ok e → m (512 * f + e) = 0) by (intros e He; by apply Hz, entry_in_frame).
  destruct n as [|n]; split.
  - intros g. split; congruence.
  - intros p Hp. destruct (path_leaf p Hp) as (e & -> & He). rewrite trans_one, H0 by done. done.
  - exists (λ _ _, False). split_and!.
    + intros g. split; [intros ->; by left|by intros [->|(e & _ & [])]].
    + by intros e _ [].
    + by intros e e' g _ _ [].
    + intros e He. cbv zeta. rewrite H0 by done. by intros g [].
  - intros p Hp. destruct (path_step n p Hp) as (e & e2 & q & -> & He & _). rewrite trans_cons, H0 by done. done.
Qed.

(** Making a table changes no translation. *)
Lemma made_trans m n t F f e :
  tbl m (S n) t F → index_ok e → ¬ F f → 0 ≤ f < 2 ^ 28 → bit (m (512 * t + e)) PRESENT = false →
  let m' := table_made m f (512 * t + e) in
  tbl m' (S n) t (λ g, F g ∨ g = f) ∧ (∀ p, path_ok (S n) p → trans m' p t = trans m p t) ∧
  (∀ g w, g ≠ f → g ≠ t → in_frame w g → m' w = m w).
Proof.
  intros (G & HF & Ht & Hd & He) Hi HfF Hf Eb m'. destruct (table_entry f Hf) as (EP & ES & Epage).
  assert (Hft : f ≠ t) by (intros ->; apply HfF, HF; by left).
  assert (Hme : m' (512 * t + e) = Z.lor (u64 (Z.shiftl f PAGE_SHIFT)) USER_PML_ACCESS).
  { unfold m', table_made, upd. by rewrite Z.eqb_refl. }
  assert (Hm : ∀ w g, g ≠ f → in_frame w g → w ≠ 512 * t + e → m' w = m w).
  { intros w g Hg Hw Hne. unfold m', table_made, upd. rewrite (proj2 (Z.eqb_neq _ _) Hne).
    apply zero_out_frame. intros Hw'. apply Hg. by apply (in_frame_inj w). }
  assert (Hz : ∀ w, in_frame w f → m' w = 0).
  { intros w Hw. unfold m', table_made, upd. destruct (Z.eqb_spec w (512 * t + e)) as [->|].
    - exfalso. apply Hft. apply (in_frame_inj _ _ _ Hw). by apply entry_in_frame.
    - by apply zero_in_frame. }
  assert (Hroot : ∀ e', index_ok e' → e' ≠ e → m' (512 * t + e') = m (512 * t + e')).
  { intros e' Hi' Hne. apply (Hm _ t); [done|by apply entry_in_frame|]. lia. }
  assert (HA : ∀ e', index_ok e' → agree m m' (G e')).
  { intros e' Hi' g w Hg Hw. apply (Hm w g); [|done|].
    - intros ->. apply HfF, HF. right. by exists e'.
    - intros ->. apply (Ht e' Hi'). by rewrite (in_frame_inj _ _ _ (entry_in_frame t e Hi) Hw). }
  assert (HGe : ∀ g, ¬ G e g) by (specialize (He e Hi); cbv zeta in He; by rewrite Eb in He).
  destruct (zero_table m' n f Hz) as [Hzt Hztr]. split_and!.
  - exists (λ e' g, if decide (e' = e) then g = f else G e' g). split_and!.
    + intros g. rewrite HF. split.
      * intros [[?|(e' & Hi' & Hg)]| ->]; [by left| |].
        -- right. exists e'. split; [done|]. destruct (decide (e' = e)) as [->|]; [by destruct (HGe g)|done].
        -- right. exists e. split; [done|]. by rewrite decide_True.
      * intros [?|(e' & Hi' & Hg)]; [left; by left|]. destruct (decide (e' = e)); [by right|]. left. right. by exists e'.
    + intros e' Hi'. destruct (decide (e' = e)); [congruence|by apply Ht].
    + intros e1 e2 g H1 H2. destruct (decide (e1 = e)) as [->|], (decide (e2 = e)) as [->|]; try done.
      * intros -> Hg. destruct HfF. apply HF. right. by exists e2.
      * intros Hg ->. destruct HfF. apply HF. right. by exists e1.
      * by apply Hd.
    + intros e' Hi'. cbv zeta. destruct (decide (e' = e)) as [->|Hne].
      * rewrite Hme, EP, ES, Epage. apply (tbl_ext m' n f (eq f)); [done|]. intros g. split; congruence.
      * rewrite Hroot by done. specialize (He e' Hi'). cbv zeta in He.
        destruct (_ && _); [|done]. apply (tbl_agree m); [done|by apply HA].
  - intros p Hp. destruct (path_step n p Hp) as (e' & e2 & q & -> & Hi' & Hq). rewrite !trans_cons.
    destruct (decide (e' = e)) as [->|Hne]; [rewrite Hme, EP, ES, Epage, Eb; by apply Hztr|].
    rewrite Hroot by done. specialize (He e' Hi'). cbv zeta in He.
    destruct (bit (m (512 * t + e')) PRESENT), (bit (m (512 * t + e')) SIZE); try done. cbn [negb andb] in He |- *.
    apply (trans_agree m m' n _ (G e')); [done|by apply HA|done].
  - intros g w Hgf Hgt Hw. apply (Hm w g); [done|done|]. intros ->. apply Hgt.
    by rewrite (in_frame_inj _ _ _ Hw (entry_in_frame t e Hi)).
Qed.

(** [mmu_get_page] over a list of indices. *)
Fixpoint get_path (path : list Z) (t flags : Z) : St mmu_state (option Z) :=
  match path with
  | [] => mret None
  | e :: p =>
      match p with
      | [] => mret (Some (512 * t + e))
      | _ =>
          ok ← ensure (512 * t + e) flags;
          if negb ok then mret None
          else
            r ← rd (512 * t + e);
            if bit r SIZE then mret None else get_path p (page_of r) flags
      end
  end.

Lemma get_path_cons e e2 p t flags :
  get_path (e :: e2 :: p) t flags =
  (ok ← ensure (512 * t + e) flags;
   if negb ok then mret None
   else
     r ← rd (512 * t + e);
     if bit r SIZE then mret None else get_path (e2 :: p) (page_of r) flags).
Proof. done. Qed.

Lemma get_path_present s e e2 p t flags :
  bit (pm s (512 * t + e)) PRESENT = true →
  get_path (e :: e2 :: p) t flags s =
  if bit (pm s (512 * t + e)) SIZE then Done (None, s)
  else get_path (e2 :: p) (page_of (pm s (512 * t + e))) flags s.
Proof.
  intros EP. rewrite get_path_cons. unfold ensure, rd, gets, mbind, St_bind. rewrite EP. cbn [negb].
  unfold mret, St_ret. cbn [negb]. by destruct (bit (pm s (512 * t + e)) SIZE).
Qed.

Lemma get_path_absent s s1 e e2 p t :
  bit (pm s (512 * t + e)) PRESENT = false → new_table (512 * t + e) s = Done (tt, s1) →
  bit (pm s1 (512 * t + e)) PRESENT = true →
  get_path (e :: e2 :: p) t MMU_GET_MAKE s = get_path (e :: e2 :: p) t MMU_GET_MAKE s1.
Proof.
  intros EP Erun EP1. rewrite !get_path_cons.
  assert (ensure (512 * t + e) MMU_GET_MAKE s = Done (true, s1)) as E.
  { unfold ensure, rd, gets, mbind, St_bind. rewrite EP. cbn [negb].
    change (has MMU_GET_MAKE MMU_GET_MAKE) with true. cbn [negb]. by rewrite Erun. }
  assert (ensure (512 * t + e) MMU_GET_MAKE s1 = Done (true, s1)) as E1.
  { unfold ensure, rd, gets, mbind, St_bind. by rewrite EP1. }
  unfold mbind, St_bind. by rewrite E, E1.
Qed.

(** [s'] and its table extend [s] and its table with at most [k] new frames: no
    translation changes, and neither does any frame in use outside the table. *)
Record extends (k n : nat) (t : Z) (s : mmu_state) (U : gset Z) (F : Z → Prop)
    (s' : mmu_state) (U' : gset Z) (F' : Z → Prop) : Prop := {
  ex_rep : represents (alloc s') U';
  ex_tbl : tbl (pm s') n t F';
  ex_in : ∀ f, F' f → f ∈ U';
  ex_used : U ⊆ U';
  ex_keeps : ∀ f, F f → F' f;
  ex_new : ∀ f, F' f → F f ∨ f ∉ U;
  ex_state : s' = with_both s (alloc s') (pm s');
  ex_nframes : nframes (alloc s') = nframes (alloc s);
  ex_refs : mem_refcounts (alloc s') = mem_refcounts (alloc s);
  ex_frames : ∀ f w, f ∈ U → ¬ F f → in_frame w f → pm s' w = pm s w;
  ex_trans : ∀ p, path_ok n p → trans (pm s') p t = trans (pm s) p t;
  ex_room : (size (free_frames (alloc s) U) ≤ k + size (free_frames (alloc s') U'))%nat
}.

Lemma with_both_id s : s = with_both s (alloc s) (pm s).
Proof. by destruct s. Qed.

Lemma extends_refl n t s U F : represents (alloc s) U → tbl (pm s) n t F → (∀ f, F f → f ∈ U) →
  extends 0 n t s U F s U F.
Proof. intros R H HU. split; try done; [intros f Hf; by left|apply with_both_id]. Qed.

Lemma extends_weaken k k' n t s U F s' U' F' : (k ≤ k')%nat → extends k n t s U F s' U' F' → extends k' n t s U F s' U' F'.
Proof. intros Hk []. split; try done. clear -Hk ex_room0. lia. Qed.

Lemma extends_trans k1 k2 n t s U F s1 U1 F1 s2 U2 F2 :
  extends k1 n t s U F s1 U1 F1 → extends k2 n t s1 U1 F1 s2 U2 F2 → extends (k1 + k2) n t s U F s2 U2 F2.
Proof.
  intros A B. pose proof (ex_used _ _ _ _ _ _ _ _ _ A) as HU. pose proof (ex_new _ _ _ _ _ _ _ _ _ A) as HN.
  destruct A as [R1 T1 I1 _ K1 _ S1 N1 C1 Fr1 Tr1 Ro1], B as [R2 T2 I2 U2' K2 N2' S2 N2 C2 Fr2 Tr2 Ro2].
  split; try done; try congruence; try (etrans; done).
  - auto.
  - intros f Hf. destruct (N2' f Hf) as [H|H]; [by apply HN|right; set_solver].
  - rewrite S2, S1 at 1. done.
  - intros f w Hf HF Hw. rewrite (Fr2 f w); [by apply (Fr1 f)|set_solver| |done].
    intros H. by destruct (HN f H).
  - intros p Hp. by rewrite Tr2, Tr1.
  - lia.
Qed.

(** Every level of the walk is made, with one frame for each at most. *)
Lemma get_path_make n : ∀ s U t F p,
  represents (alloc s) U → tbl (pm s) n t F → (∀ f, F f → f ∈ U) → path_ok n p →
  (n ≤ size (free_frames (alloc s) U))%nat →
  ∃ r s' U' F', get_path p t MMU_GET_MAKE s = Done (r, s') ∧ extends n n t s U F s' U' F' ∧
    match r with Some a => walk (pm s') p t = Some a | None => trans (pm s) p t = Large end.
Proof.
  induction n as [|n IH]; intros s U t F p R T HU Hp Hsz.
  { destruct (path_leaf p Hp) as (e & -> & _). exists (Some (512 * t + e)), s, U, F.
    split_and!; [done|by apply extends_refl|done]. }
  destruct (path_step n p Hp) as (e & e2 & q & -> & Hi & Hq).
  (* an entry that is present *)
  assert (Hpres : ∀ s U F, represents (alloc s) U → tbl (pm s) (S n) t F → (∀ f, F f → f ∈ U) →
    bit (pm s (512 * t + e)) PRESENT = true → (n ≤ size (free_frames (alloc s) U))%nat →
    ∃ r s' U' F', get_path (e :: e2 :: q) t MMU_GET_MAKE s = Done (r, s') ∧ extends n (S n) t s U F s' U' F' ∧
      match r with
      | Some a => walk (pm s') (e :: e2 :: q) t = Some a
      | None => trans (pm s) (e :: e2 :: q) t = Large
      end).
  { clear s U F R T HU Hsz. intros s U F R T HU EP Hsz.
    rewrite get_path_present by done.
    destruct (bit (pm s (512 * t + e)) SIZE) eqn:ES.
    { exists None, s, U, F. split_and!; [done| |by rewrite trans_cons, EP, ES].
      apply (extends_weaken 0); [lia|]. by apply extends_refl. }
    pose proof T as (G & HF & Ht & Hd & He). pose proof (He e Hi) as Hsub. cbv zeta in Hsub. rewrite EP, ES in Hsub.
    cbn [negb andb] in Hsub.
    destruct (IH s U (page_of (pm s (512 * t + e))) (G e) (e2 :: q) R Hsub) as (r & s' & U' & G' & Erun & X & Hr);
      [intros f Hf; apply HU, HF; right; by exists e|done|done|].
    destruct (graft (pm s) (pm s') n t F G e G') as [T' Tr']; try done.
    - by rewrite EP, ES. - apply X. - apply X.
    - intros f Hf. destruct (ex_new _ _ _ _ _ _ _ _ _ X f Hf) as [?|Hn]; [by left|]. right. intros H. by apply Hn, HU.
    - intros f w [Hf HG] Hw. by apply (ex_frames _ _ _ _ _ _ _ _ _ X f); [apply HU| |].
    - apply X.
    - exists r, s', U', (λ f, F f ∨ G' f). split_and!; [done| |].
      + destruct X as [R1 T1 I1 U1 K1 N1 S1 Nf1 C1 Fr1 Tr1 Ro1]. split; try done.
        * intros f [Hf|Hf]; [apply U1; by apply HU|by apply I1].
        * intros f Hf. by left.
        * intros f [?|Hf]; [by left|]. destruct (N1 f Hf) as [H|?]; [|by right]. left. apply HF. right. by exists e.
        * intros f w Hf HFf Hw. apply (Fr1 f); [done| |done]. intros HG. apply HFf, HF. right. by exists e.
      + assert (Hee : pm s' (512 * t + e) = pm s (512 * t + e)).
        { apply (ex_frames _ _ _ _ _ _ _ _ _ X t); [apply HU, HF; by left|by apply Ht|by apply entry_in_frame]. }
        destruct r as [a|]; [rewrite walk_cons, Hee, EP, ES; exact Hr|rewrite trans_cons, EP, ES; exact Hr]. }
  destruct (bit (pm s (512 * t + e)) PRESENT) eqn:EP.
  { destruct (Hpres s U F R T HU EP ltac:(lia)) as (r & s' & U' & F' & E & X & Hr).
    exists r, s', U', F'. split_and!; [done| |done]. by apply (extends_weaken n); [lia|]. }
  destruct (new_table_run s U (512 * t + e) R ltac:(lia)) as (f & a & HfU & Hf & Erun & Ra & Hna & Hra & Hsza).
  assert (HfF : ¬ F f) by (intros H; by apply HfU, HU).
  destruct (made_trans (pm s) n t F f e T Hi HfF Hf EP) as (Tm & Trm & Frm).
  set (s1 := with_both s a (table_made (pm s) f (512 * t + e))) in *.
  assert (EP1 : bit (pm s1 (512 * t + e)) PRESENT = true).
  { unfold s1. cbn. unfold table_made, upd. rewrite Z.eqb_refl. apply (table_entry f Hf). }
  assert (X1 : extends 1 (S n) t s U F s1 ({[f]} ∪ U) (λ g, F g ∨ g = f)).
  { split; try done.
    - intros g [Hg| ->]; [apply elem_of_union_r; by apply HU|set_solver].
    - set_solver. - intros g Hg. by left. - intros g [?| ->]; [by left|by right].
    - intros g w Hg HgF Hw. apply (Frm g w); [by intros ->| |done]. intros ->. apply HgF. by eapply tbl_root.
    - change (alloc s1) with a. lia. }
  destruct (Hpres s1 ({[f]} ∪ U) (λ g, F g ∨ g = f)) as (r & s' & U' & F' & E & X & Hr);
    [apply X1|apply X1|apply X1|done|change (alloc s1) with a; lia|].
  exists r, s', U', F'. split_and!.
  - rewrite <-E. by apply get_path_absent.
  - exact (extends_trans 1 n (S n) t s U F s1 _ _ s' U' F' X1 X).
  - destruct r; [done|]. rewrite <-Hr. symmetry. by apply X1.
Qed.

(** ** Addresses *)

Definition va_path (va : Z) : list Z := [pml4_entry va; pdp_entry va; pd_entry va; pt_entry va].

Lemma entry_mask x : Z.land x ENTRY_MASK = x mod 512.
Proof. unfold ENTRY_MASK. change 0x1FF with (Z.ones 9). by rewrite Z.land_ones by lia. Qed.

Lemma page_addr_div va : page_addr va = (va / PAGE_SIZE) mod 2 ^ 36.
Proof.
  unfold page_addr, CANONICAL_MASK, PAGE_SHIFT, PAGE_SIZE. change 0xFFFFffffFFFF with (Z.ones 48).
  rewrite Z.land_ones, Z.shiftr_div_pow2 by lia. change 0x1000 with (2 ^ 12).
  change (2 ^ 48) with (2 ^ 12 * 2 ^ 36). rewrite Z.rem_mul_r by lia.
  rewrite Z.mul_comm, Z.div_add by lia. rewrite Z.div_small; [lia|]. apply Z.mod_pos_bound. lia.
Qed.

Lemma va_path_ok va : path_ok 3 (va_path va).
Proof.
  split; [done|]. unfold va_path, pml4_entry, pdp_entry, pd_entry, pt_entry. rewrite !entry_mask.
  assert (H : ∀ x, index_ok (x mod 512)) by (intros x; apply Z.mod_pos_bound; lia).
  repeat (apply Forall_cons; split; [apply H|]). by apply Forall_nil.
Qed.

(** The four indices determine the page. *)
Lemma va_path_inj va va' : va_path va = va_path va' → page_addr va = page_addr va'.
Proof.
  assert (H : ∀ x, page_addr x = 134217728 * pml4_entry x + 262144 * pdp_entry x + 512 * pd_entry x + pt_entry x).
  { intros x. assert (Hr : 0 ≤ page_addr x < 2 ^ 36) by (rewrite page_addr_div; apply Z.mod_pos_bound; lia).
    unfold pml4_entry, pdp_entry, pd_entry, pt_entry. rewrite !entry_mask, !Z.shiftr_div_pow2 by lia.
    change (2 ^ 27) with 134217728. change (2 ^ 18) with 262144. change (2 ^ 9) with 512.
    change (2 ^ 36) with 68719476736 in Hr. Z.div_mod_to_equations. lia. }
  intros E. rewrite (H va), (H va'). injection E as -> -> -> ->. done.
Qed.

Lemma lor_low f x : 0 ≤ x < 2 ^ 12 → Z.lor (Z.shiftl f PAGE_SHIFT) x = f * PAGE_SIZE + x.
Proof.
  intros Hx. unfold PAGE_SHIFT, PAGE_SIZE. change 0x1000 with (2 ^ 12). rewrite <-Z.shiftl_mul_pow2 by lia.
  symmetry. rewrite Z.add_nocarry_lxor, Z.lxor_lor; try done; apply Z.bits_inj'; intros i Hi;
    rewrite Z.land_spec, Z.shiftl_spec, Z.bits_0 by lia;
    (destruct (Z.ltb_spec i 12); [by rewrite Z.testbit_neg_r by lia|]);
    (rewrite andb_comm; destruct (decide (x = 0)) as [->|]; [by rewrite Z.bits_0|]);
    (rewrite (Z.bits_above_log2 x i); [done|lia|]);
    (assert (Z.log2 x < 12) by (apply Z.log2_lt_pow2; lia)); lia.
Qed.

(** The translation of an address in a mapped page. *)
Lemma mapped_address s root va r :
  trans (pm s) (va_path va) root = Mapped r →
  mmu_map_to_physical root va s = Done (page_of r * PAGE_SIZE + va mod PAGE_SIZE, s).
Proof.
  unfold va_path. rewrite !trans_cons, trans_one. unfold mmu_map_to_physical, entry_in, rd, gets, mbind, St_bind.
  set (r4 := pm s (512 * root + pml4_entry va)). destruct (bit r4 PRESENT); cbn [negb]; [|done].
  destruct (bit r4 SIZE); [done|]. set (r3 := pm s (512 * page_of r4 + pdp_entry va)).
  destruct (bit r3 PRESENT); cbn [negb]; [|done]. destruct (bit r3 SIZE); [done|].
  set (r2 := pm s (512 * page_of r3 + pd_entry va)). destruct (bit r2 PRESENT); cbn [negb]; [|done].
  destruct (bit r2 SIZE); [done|]. set (r1 := pm s (512 * page_of r2 + pt_entry va)).
  destruct (bit r1 PRESENT); cbn [negb]; [|done]. intros [= ->]. unfold PT_MASK. change 0xFFF with (Z.ones 12).
  rewrite Z.land_ones, lor_low by (try apply Z.mod_pos_bound; lia). done.
Qed.

(** [mmu_get_page] is the walk that makes its tables, unless its first entry is the
    large page no processor has there. *)
Lemma mmu_get_page_path s U va :
  represents (alloc s) U → (1 ≤ size (free_frames (alloc s) U))%nat →
  trans (pm s) (va_path va) (current_pml s) ≠ Large →
  mmu_get_page va MMU_GET_MAKE s = get_path (va_path va) (current_pml s) MMU_GET_MAKE s.
Proof.
  intros R Hsz HL. unfold mmu_get_page, va_path. rewrite get_path_cons.
  set (p4 := 512 * current_pml s + pml4_entry va).
  assert (Hex : ∃ s1, ensure p4 MMU_GET_MAKE s = Done (true, s1) ∧ bit (pm s1 p4) SIZE = false).
  { unfold ensure, rd, gets, mbind, St_bind. destruct (bit (pm s p4) PRESENT) eqn:EP; cbn [negb].
    - exists s. split; [done|]. apply not_true_iff_false. intros ES. apply HL. unfold va_path.
      rewrite trans_cons. fold p4. by rewrite EP, ES.
    - change (has MMU_GET_MAKE MMU_GET_MAKE) with true. cbn [negb].
      destruct (new_table_run s U p4 R Hsz) as (f & a & _ & Hf & E & _). rewrite E. eexists. split; [done|].
      cbn. unfold table_made, upd. rewrite Z.eqb_refl. by apply (table_entry f). }
  destruct Hex as (s1 & E & ES). unfold gets at 1, mbind at 1, St_bind at 1. fold p4.
  rewrite !(St_bind_done _ _ _ _ _ E). cbn [negb].
  assert (Erd : rd p4 s1 = Done (pm s1 p4, s1)) by done. rewrite !(St_bind_done _ _ _ _ _ Erd), ES.
  rewrite !get_path_cons. done.
Qed.

(** ** Mapping a page *)

Lemma mark_run a U f :
  represents a U → 0 ≤ f < 2 ^ 28 →
  ∃ a' U', mmu_frame_set (f * PAGE_SIZE) a = Done (tt, a') ∧ represents a' U' ∧ U ⊆ U' ∧
    nframes a' = nframes a ∧ mem_refcounts a' = mem_refcounts a ∧
    (size (free_frames a U) ≤ 1 + size (free_frames a' U'))%nat.
Proof.
  intros R Hf. pose proof R as [W Hu Hr]. destruct (decide (f < nframes a)) as [Hlt|Hge].
  - destruct (frame_set_spec a f W ltac:(lia)) as (a' & E & W' & Hn & _ & Hc & Hu').
    exists a', ({[f]} ∪ U). split_and!; [done| |set_solver|done|done|].
    + split; [done| |].
      * intros g Hg. rewrite Hn in Hg. rewrite Hu', Hu by lia.
        destruct (Z.eqb_spec g f) as [->|]; simpl; [symmetry; apply bool_decide_eq_true; set_solver|].
        apply bool_decide_ext. set_solver.
      * intros g [->%elem_of_singleton|Hg]%elem_of_union; [lia|]. rewrite Hn. by apply Hr.
    + assert (free_frames a U ⊆ {[f]} ∪ free_frames a' ({[f]} ∪ U)) as Hsub.
      { unfold free_frames, searched. rewrite Hn. intros g Hg. destruct (decide (g = f)); set_solver. }
      apply subseteq_size in Hsub. etrans; [exact Hsub|]. rewrite size_union_alt, size_singleton.
      apply le_n_S, subseteq_size. set_solver.
  - exists a, U. split_and!; try done; [|lia]. unfold mmu_frame_set, PAGE_SIZE.
    pose proof (wf_nframes a W). rewrite u64_small by lia. by rewrite (proj2 (Z.ltb_ge _ _)) by lia.
Qed.

(** What [flags] make of an entry for the frame [f]. *)
Record page_entry (r f flags : Z) : Prop := {
  pe_page : page_of r = f;
  pe_present : bit r PRESENT = true;
  pe_writable : bit r WRITABLE = has flags MMU_FLAG_WRITABLE;
  pe_user : bit r USER = negb (has flags MMU_FLAG_KERNEL);
  pe_nocache : bit r NOCACHE = has flags MMU_FLAG_NOCACHE;
  pe_writethrough : bit r WRITETHROUGH = has flags MMU_FLAG_WRITETHROUGH;
  pe_nx : bit r NX = has flags MMU_FLAG_NOEXECUTE
}.

Lemma set_flags_entry raw f flags : page_of raw = f → page_entry (set_flags raw flags) f flags.
Proof.
  intros Hf. unfold set_flags. split; rewrite ?bit_put_bit by done; try done.
  rewrite !page_of_put_bit; [done|..]; unfold SIZE, PRESENT, WRITABLE, USER, NOCACHE, WRITETHROUGH, NX; lia.
Qed.

Lemma upd_same m a v : upd m a v a = v.
Proof. unfold upd. by rewrite Z.eqb_refl. Qed.

Lemma frame_map_run s U pg flags f :
  represents (alloc s) U → 0 < f < 2 ^ 28 →
  ∃ a' U' m', mmu_frame_map_address pg flags (f * PAGE_SIZE) s = Done (tt, with_both s a' m') ∧
    represents a' U' ∧ U ⊆ U' ∧ nframes a' = nframes (alloc s) ∧ mem_refcounts a' = mem_refcounts (alloc s) ∧
    (size (free_frames (alloc s) U) ≤ 1 + size (free_frames a' U'))%nat ∧
    page_entry (m' pg) f flags ∧ ∀ w, w ≠ pg → m' w = pm s w.
Proof.
  intros R Hf. destruct (mark_run (alloc s) U f R ltac:(lia)) as (a' & U' & E & R' & HU & Hn & Hc & Hsz).
  assert (Hpg : page_of (put_page (pm s pg) f) = f) by (apply page_of_put_page; lia).
  exists a', U', (upd (upd (pm s) pg (put_page (pm s pg) f)) pg (set_flags (put_page (pm s pg) f) flags)).
  split_and!; try done.
  - unfold mmu_frame_map_address, mmu_frame_allocate, in_alloc, mbind, St_bind. rewrite E.
    unfold rd, wr, gets, modify. cbn [pm with_alloc with_pm]. unfold PAGE_SHIFT. rewrite addr_frame.
    rewrite !upd_same, Hpg. rewrite (proj2 (Z.eqb_neq f 0)) by lia.
    unfold mret, St_ret. cbn [pm with_alloc with_pm]. by rewrite !upd_same.
  - rewrite upd_same. by apply set_flags_entry.
  - intros w Hw. unfold upd. by rewrite !(proj2 (Z.eqb_neq _ _) Hw).
Qed.

(** An address space: the tables of the current root, all of them frames in use. *)
Record space (s : mmu_state) (U : gset Z) : Prop := {
  sp_rep : represents (alloc s) U;
  sp_tbl : ∃ F, tbl (pm s) 3 (current_pml s) F ∧ ∀ f, F f → f ∈ U
}.

Definition xlate (s : mmu_state) (va : Z) : translation := trans (pm s) (va_path va) (current_pml s).

(** [s'] maps the page of [va] to [f] and is otherwise the address space of [s]. *)
Lemma map_page_run s U va flags f :
  space s U → xlate s va ≠ Large → 0 < f < 2 ^ 28 → (4 ≤ size (free_frames (alloc s) U))%nat →
  ∃ e s1 s' U' r, mmu_get_page va MMU_GET_MAKE s = Done (Some e, s1) ∧
    mmu_frame_map_address e flags (f * PAGE_SIZE) s1 = Done (tt, s') ∧ space s' U' ∧ U ⊆ U' ∧
    s' = with_both s (alloc s') (pm s') ∧
    (size (free_frames (alloc s) U) ≤ 4 + size (free_frames (alloc s') U'))%nat ∧
    xlate s' va = Mapped r ∧ page_entry r f flags ∧
    ∀ va', page_addr va' ≠ page_addr va → xlate s' va' = xlate s va'.
Proof.
  intros [R (F & T & HF)] HL Hf Hsz.
  destruct (get_path_make 3 s U (current_pml s) F (va_path va) R T HF (va_path_ok va) ltac:(lia))
    as (o & s1 & U1 & F1 & E & X & Ho).
  rewrite <-mmu_get_page_path with (U := U) in E by (done || lia).
  destruct o as [e|]; [|done]. pose proof (ex_state _ _ _ _ _ _ _ _ _ X) as Hs1.
  destruct (frame_map_run s1 U1 e flags f (ex_rep _ _ _ _ _ _ _ _ _ X) Hf)
    as (a' & U' & m' & E' & R' & HU' & Hn & Hc & Hsz' & Hpe & Hm').
  destruct (write_leaf (pm s1) m' 3 (current_pml s) F1 (va_path va) e) as (T' & Tr & Tr');
    [apply X|apply va_path_ok|done|done|].
  exists e, s1, (with_both s1 a' m'), U', (m' e). rewrite (pe_present _ _ _ Hpe) in Tr.
  assert (Hcur : current_pml s1 = current_pml s) by (by rewrite Hs1).
  split_and!; try done.
  - split; [done|]. exists F1. change (current_pml (with_both s1 a' m')) with (current_pml s1). rewrite Hcur.
    split; [done|]. intros g Hg. apply HU'. by apply X.
  - etrans; [apply X|done].
  - rewrite Hs1. done.
  - pose proof (ex_room _ _ _ _ _ _ _ _ _ X). change (alloc (with_both s1 a' m')) with a'. lia.
  - unfold xlate. change (current_pml (with_both s1 a' m')) with (current_pml s1). by rewrite Hcur.
  - intros va' Hne. unfold xlate. change (current_pml (with_both s1 a' m')) with (current_pml s1). rewrite Hcur.
    change (pm (with_both s1 a' m')) with m'. rewrite Tr'; [apply X, va_path_ok|apply va_path_ok|].
    intros Ep. by apply Hne, va_path_inj.
Qed.

Lemma xlate_page s va va' : page_addr va = page_addr va' → xlate s va = xlate s va'.
Proof. intros E. unfold xlate, va_path, pml4_entry, pdp_entry, pd_entry, pt_entry. by rewrite E. Qed.

Lemma page_addr_start P : page_addr (P * PAGE_SIZE) = P mod 2 ^ 36.
Proof. rewrite page_addr_div. unfold PAGE_SIZE. by rewrite Z.div_mul. Qed.

Lemma page_addr_within P j : 0 ≤ j < PAGE_SIZE → page_addr (P * PAGE_SIZE + j) = P mod 2 ^ 36.
Proof. intros Hj. rewrite page_addr_div. unfold PAGE_SIZE in *. by rewrite Z.div_add_l, Z.div_small, Z.add_0_r by lia. Qed.

Lemma near_pages a b n : 0 ≤ a → 0 ≤ b → a ≠ b → Z.abs (a - b) < n → n ≤ 2 ^ 36 → a mod 2 ^ 36 ≠ b mod 2 ^ 36.
Proof.
  intros Ha Hb Hne Hd Hn E. assert (H : (a - b) mod 2 ^ 36 = 0) by (by rewrite Zminus_mod, E, Z.sub_diag).
  apply Z.mod_divide in H as [q Hq]; [|lia]. destruct (decide (q = 0)) as [->|]; [lia|]. nia.
Qed.

Lemma map_pages_step n p page i s e s1 s2 :
  mmu_get_page (u64 (p + i)) MMU_GET_MAKE s = Done (Some e, s1) → page e i s1 = Done (tt, s2) →
  map_pages (S n) p page i s = map_pages n p page (i + PAGE_SIZE) s2.
Proof. intros E1 E2. cbn [map_pages]. rewrite (St_bind_done _ _ _ _ _ E1). by rewrite (St_bind_done _ _ _ _ _ E2). Qed.

Lemma map_pages_run flags P Q : 0 ≤ P → 0 < Q → ∀ n s U I,
  space s U → 0 ≤ I → Q + I + Z.of_nat n ≤ 2 ^ 28 → P + I + Z.of_nat n ≤ 2 ^ 52 → Z.of_nat n ≤ 2 ^ 36 →
  (4 * n ≤ size (free_frames (alloc s) U))%nat →
  (∀ k, I ≤ k < I + Z.of_nat n → xlate s ((P + k) * PAGE_SIZE) ≠ Large) →
  ∃ s' U', map_pages n (P * PAGE_SIZE)
      (λ e i, mmu_frame_map_address e flags (u64 (Q * PAGE_SIZE + i))) (I * PAGE_SIZE) s = Done (tt, s') ∧
    space s' U' ∧ s' = with_both s (alloc s') (pm s') ∧
    (∀ k, I ≤ k < I + Z.of_nat n →
       ∃ r, xlate s' ((P + k) * PAGE_SIZE) = Mapped r ∧ page_entry r (Q + k) flags) ∧
    (∀ va, (∀ k, I ≤ k < I + Z.of_nat n → page_addr va ≠ page_addr ((P + k) * PAGE_SIZE)) →
       xlate s' va = xlate s va).
Proof.
  intros HP HQ n. induction n as [|n IH]; intros s U I Sp HI HQb HPb Hn Hsz HL.
  { exists s, U. split_and!; [done|done|apply with_both_id|intros k Hk; lia|done]. }
  assert (Hdist : ∀ k, I < k < I + Z.of_nat (S n) → page_addr ((P + k) * PAGE_SIZE) ≠ page_addr ((P + I) * PAGE_SIZE)).
  { intros k Hk. rewrite !page_addr_start. apply (near_pages _ _ (Z.of_nat (S n))); lia. }
  destruct (map_page_run s U ((P + I) * PAGE_SIZE) flags (Q + I) Sp) as
    (e & s0 & s1 & U1 & r & E1 & E2 & Sp1 & HU & Hs1 & Hsz1 & Hx & Hpe & Hoth); [apply HL; lia|lia|lia|].
  destruct (IH s1 U1 (I + 1) Sp1) as (s' & U' & E & Sp' & Hs' & Hmap & Hoth'); [lia|lia|lia|lia|lia| |].
  { intros k Hk. rewrite Hoth; [apply HL; lia|]. apply Hdist. lia. }
  exists s', U'. split_and!.
  - rewrite <-E. replace ((I + 1) * PAGE_SIZE) with (I * PAGE_SIZE + PAGE_SIZE) by lia.
    apply map_pages_step with (e := e) (s1 := s0); unfold PAGE_SIZE in *.
    + rewrite u64_small by lia. by rewrite <-Z.mul_add_distr_r.
    + rewrite u64_small by lia. by rewrite <-Z.mul_add_distr_r.
  - done.
  - rewrite Hs', Hs1. done.
  - intros k Hk. destruct (decide (k = I)) as [->|Hne]; [|apply Hmap; lia].
    exists r. split; [|done]. rewrite Hoth'; [done|]. intros k' Hk'. apply not_eq_sym, Hdist. lia.
  - intros va Hva. rewrite Hoth' by (intros k Hk; apply Hva; lia). apply Hoth, Hva. lia.
Qed.

(** C20: [mmu_map_mmio_region] stops the kernel when the size is no multiple of a page,
    and maps any other region under these conditions: the address space has no large
    page at the mapping base and four free frames for each page (three levels of tables,
    and the frame itself when it is memory); the base and the physical address are page
    aligned; the physical region starts above page 0 and ends by [2 ^ 40], so that every
    frame number is not 0 and fits the 28 bits of an entry
    ([mmu_map_mmio_region_page_zero] is what happens otherwise); and the mapping does not
    run over the end of the address space.  Then the call returns the old base and moves
    the base behind the region; from then on every address of the region translates
    ([mmu_map_to_physical]) to the physical address asked for, through an entry that is
    present, writable, not accessible to users and not cached; every other page of the
    address space, whatever tables were made, translates as before. *)
Theorem mmu_map_mmio_region_maps s U physical_address size :
  let base := mmio_base_address s in
  (0 ≤ size → ¬ (PAGE_SIZE | size) → mmu_map_mmio_region physical_address size s = Fault) ∧
  (space s U →
  (PAGE_SIZE | base) → (PAGE_SIZE | physical_address) → (PAGE_SIZE | size) →
  0 ≤ base → base + size ≤ 2 ^ 64 → 0 ≤ size < 2 ^ 48 →
  0 < physical_address → physical_address + size ≤ 2 ^ 40 →
  4 * (size / PAGE_SIZE) ≤ Z.of_nat (stdpp.base.size (free_frames (alloc s) U)) →
  (∀ i, 0 ≤ i < size → xlate s (base + i) ≠ Large) →
  ∃ s' U', mmu_map_mmio_region physical_address size s = Done (base, s') ∧ space s' U' ∧
    mmio_base_address s' = u64 (base + size) ∧
    (∀ i, 0 ≤ i < size →
       mmu_map_to_physical (current_pml s) (base + i) s' = Done (physical_address + i, s') ∧
       ∃ r, xlate s' (base + i) = Mapped r ∧
         bit r PRESENT = true ∧ bit r WRITABLE = true ∧ bit r USER = false ∧ bit r NOCACHE = true) ∧
    (∀ va, (∀ i, 0 ≤ i < size → page_addr va ≠ page_addr (base + i)) → xlate s' va = xlate s va)).
Proof.
  intros base. split.
  { intros H0 Hd. unfold mmu_map_mmio_region, PAGE_LOW_MASK. change 0xFFF with (Z.ones 12).
    rewrite Z.land_ones by lia. change (2 ^ 12) with PAGE_SIZE.
    destruct (Z.eqb_spec (size mod PAGE_SIZE) 0) as [E|]; [|done].
    by destruct Hd; apply Z.mod_divide. }
  intros Sp [P HP] [Q HQ] [n Hn] H0 Hb Hs Hq Hqb Hsz HL.
  assert (Hn' : size / PAGE_SIZE = n) by (rewrite Hn; by apply Z.div_mul).
  assert (Hps : PAGE_SIZE = 4096) by done.
  destruct (map_pages_run (Z.lor (Z.lor MMU_FLAG_KERNEL MMU_FLAG_WRITABLE) (Z.lor MMU_FLAG_NOCACHE MMU_FLAG_WRITETHROUGH))
    P Q ltac:(lia) ltac:(lia) (Z.to_nat n) s U 0 Sp) as (s' & U' & E & Sp' & Hs' & Hmap & Hoth);
    [lia|lia|lia|lia|lia| |].
  { intros k Hk. specialize (HL (k * PAGE_SIZE) ltac:(lia)). rewrite HP in HL. by rewrite Z.mul_add_distr_r. }
  assert (Hstart : ∀ i, 0 ≤ i < size → page_addr (base + i) = page_addr ((P + i / PAGE_SIZE) * PAGE_SIZE)).
  { intros i Hi. rewrite page_addr_start. rewrite <-(page_addr_within _ (i mod PAGE_SIZE)) by (apply Z.mod_pos_bound; lia).
    f_equal. rewrite HP. pose proof (Z.div_mod i PAGE_SIZE ltac:(lia)). lia. }
  assert (Hk : ∀ i, 0 ≤ i < size → 0 ≤ i / PAGE_SIZE < 0 + Z.of_nat (Z.to_nat n)).
  { intros i Hi. split; [apply Z.div_pos; lia|]. apply Z.div_lt_upper_bound; lia. }
  exists (with_mmio s' (u64 (base + size))), U'. split_and!.
  - unfold mmu_map_mmio_region, PAGE_LOW_MASK. change 0xFFF with (Z.ones 12). rewrite Z.land_ones by lia.
    change (2 ^ 12) with PAGE_SIZE.
    assert (Hm : size mod PAGE_SIZE = 0) by (rewrite Hn; apply Z.mod_mul; lia). rewrite Hm.
    assert (Hb' : mmio_base_address s' = base) by (by rewrite Hs').
    cbn [negb Z.eqb]. rewrite Hn'. fold base. rewrite HP, HQ. rewrite (St_bind_done _ _ _ _ _ E), <-HP, <-Hb'. done.
  - destruct Sp' as [R' (F & T & HF)]. split; [done|by exists F].
  - done.
  - intros i Hi. destruct (Hmap (i / PAGE_SIZE) (Hk i Hi)) as (r & Hx & Hpe).
    rewrite <-(xlate_page s' _ _ (Hstart i Hi)) in Hx. split.
    + assert (Hx' : trans (pm (with_mmio s' (u64 (base + size)))) (va_path (base + i)) (current_pml s) = Mapped r).
      { unfold xlate in Hx. by rewrite Hs' in Hx. }
      rewrite (mapped_address _ _ _ _ Hx'), (pe_page _ _ _ Hpe). do 2 f_equal.
      assert (Hmod : (base + i) mod PAGE_SIZE = i mod PAGE_SIZE) by (rewrite HP, Z.add_comm; apply Z.mod_add; lia).
      rewrite Hmod, HQ. pose proof (Z.div_mod i PAGE_SIZE ltac:(lia)). lia.
    + exists r. split; [done|]. by destruct Hpe as [_ -> -> -> -> _ _].
  - intros va Hva. change (xlate (with_mmio s' (u64 (base + size))) va) with (xlate s' va).
    apply Hoth. intros k Hk'. specialize (Hva (k * PAGE_SIZE) ltac:(lia)). rewrite HP in Hva.
    by rewrite Z.mul_add_distr_r.
Qed.

(** ** Copy-on-write as private copies *)

(** The entries in [S] that map the frame [f]. *)
Definition refs (m : Z → Z) (S : gset Z) (f : Z) : gset Z := filter (λ a, page_of (m a) = f) S.

(** The user entries [S] of all address spaces and the reference counts: a frame without
    a count has at most one entry, which is writable; the count of any other is the
    number of its entries, all of them read-only and pending.  Tables are not user
    pages. *)
Record cow (s : mmu_state) (U S : gset Z) : Prop := {
  cow_rep : represents (alloc s) U;
  cow_entry_frame : ∀ a, a ∈ S → a / 512 ∈ U;
  cow_page : ∀ a, a ∈ S → page_of (pm s a) ∈ U;
  cow_tables : ∀ a b, a ∈ S → b ∈ S → a / 512 ≠ page_of (pm s b);
  cow_pending : ∀ a, a ∈ S → bit (pm s a) COW_PENDING = negb (bit (pm s a) WRITABLE);
  cow_counts : ∀ f, 0 ≤ f < nframes (alloc s) →
    ∃ c, mem_refcounts (alloc s) !! Z.to_nat f = Some c ∧ 0 ≤ c < 256 ∧
      (if c =? 0 then (size (refs (pm s) S f) ≤ 1)%nat else Z.of_nat (size (refs (pm s) S f)) = c) ∧
      ∀ a, a ∈ refs (pm s) S f → bit (pm s a) WRITABLE = (c =? 0)
}.

(** The words of the page an entry maps. *)
Definition page_word (s : mmu_state) (a i : Z) : Z := pm s (512 * page_of (pm s a) + i).

(** Every entry has a page of its own: [A]. *)
Record private (s : mmu_state) (U S : gset Z) (A : Z → Z → Z) : Prop := {
  pr_cow : cow s U S;
  pr_words : ∀ a i, a ∈ S → 0 ≤ i < 512 → page_word s a i = A a i
}.

Lemma in_frame_div w f : in_frame w f ↔ w / 512 = f.
Proof. unfold in_frame. split; intros H; [|Z.div_mod_to_equations; lia]. symmetry. apply (Z.div_unique w 512 f (w - 512 * f)); lia. Qed.

Lemma elem_of_refs m S f a : a ∈ refs m S f ↔ page_of (m a) = f ∧ a ∈ S.
Proof. unfold refs. by rewrite elem_of_filter. Qed.

Lemma refs_ext m m' S f : (∀ a, a ∈ S → page_of (m' a) = page_of (m a)) → refs m' S f = refs m S f.
Proof. intros H. apply leibniz_equiv. intros a. rewrite !elem_of_refs. split; intros [H1 H2]; split; try done; [rewrite <-H by done|rewrite H by done]; done. Qed.

(** The count of a frame in use by an entry. *)
Lemma cow_count s U S a : cow s U S → a ∈ S →
  let f := page_of (pm s a) in
  0 ≤ f < nframes (alloc s) ∧ 0 ≤ f < 2 ^ 28 ∧
  ∃ c, mem_refcounts (alloc s) !! Z.to_nat f = Some c ∧ 0 ≤ c < 256 ∧ bit (pm s a) WRITABLE = (c =? 0) ∧
    (if c =? 0 then refs (pm s) S f = {[a]} else Z.of_nat (size (refs (pm s) S f)) = c) ∧
    ∀ b, b ∈ S → page_of (pm s b) = f → bit (pm s b) WRITABLE = (c =? 0).
Proof.
  intros C Ha f. pose proof (rep_range _ _ (cow_rep _ _ _ C) f (cow_page _ _ _ C a Ha)) as Hf.
  split; [done|]. split; [apply page_of_range|].
  destruct (cow_counts _ _ _ C f Hf) as (c & E & Hc & Hsz & Hw). exists c.
  assert (Haf : a ∈ refs (pm s) S f) by (by apply elem_of_refs).
  split_and!; [done|lia|lia|by apply Hw| |].
  - destruct (c =? 0); [|done]. apply leibniz_equiv. intros b. rewrite elem_of_singleton. split; [|by intros ->].
    intros Hb. destruct (decide (b = a)) as [|Hne]; [done|]. exfalso.
    assert (Hs : ({[a; b]} : gset Z) ⊆ refs (pm s) S f) by (apply union_subseteq; split; by apply singleton_subseteq_l). apply subseteq_size in Hs.
    rewrite size_union, !size_singleton in Hs by (apply disjoint_singleton_l; rewrite elem_of_singleton; by apply not_eq_sym). lia.
  - intros b Hb Ef. apply Hw. by apply elem_of_refs.
Qed.

Lemma refcount_inc_run a f c : 0 ≤ f < nframes a → mem_refcounts a !! Z.to_nat f = Some c → 0 ≤ c < 255 →
  refcount_inc f a = Done (0, with_refcounts a (<[Z.to_nat f := c + 1]> (mem_refcounts a))).
Proof.
  intros Hf E Hc. unfold refcount_inc. rewrite (proj2 (Z.leb_gt _ _)), E by lia.
  rewrite (proj2 (Z.eqb_neq _ _)), u8_small by lia. done.
Qed.

Lemma refcount_dec_run a f c : 0 ≤ f < nframes a → mem_refcounts a !! Z.to_nat f = Some c → 0 < c < 256 →
  refcount_dec f a = Done (c - 1, with_refcounts a (<[Z.to_nat f := c - 1]> (mem_refcounts a))).
Proof.
  intros Hf E Hc. unfold refcount_dec. rewrite (proj2 (Z.leb_gt _ _)), E by lia.
  rewrite (proj2 (Z.eqb_neq _ _)), u8_small by lia. done.
Qed.

Lemma represents_refs a U r : represents a U → represents (with_refcounts a r) U.
Proof. intros [[Hn Hw Hww Hh] Hu Hr]. split; [split; done|done|done]. Qed.

(** The counts after a step that changes the count of [f] to [c] and leaves the entries
    of the other frames alone. *)
Definition count_ok (m : Z → Z) (S : gset Z) (f c : Z) : Prop :=
  0 ≤ c < 256 ∧ (if c =? 0 then (size (refs m S f) ≤ 1)%nat else Z.of_nat (size (refs m S f)) = c) ∧
  ∀ a, a ∈ refs m S f → bit (m a) WRITABLE = (c =? 0).

Lemma count_ok_ext m m' S S' f c :
  refs m' S' f = refs m S f → (∀ a, a ∈ refs m S f → bit (m' a) WRITABLE = bit (m a) WRITABLE) →
  count_ok m S f c → count_ok m' S' f c.
Proof. intros E Hw (Hc & Hs & Ha). unfold count_ok. rewrite E. split; [done|]. split; [done|]. intros a Hin. by rewrite Hw, Ha. Qed.

Lemma counts_step (r : list Z) m m' S S' n f c :
  (∀ g, 0 ≤ g < n → ∃ k, r !! Z.to_nat g = Some k ∧ count_ok m S g k) → 0 ≤ f < n → count_ok m' S' f c →
  (∀ g k, 0 ≤ g < n → g ≠ f → r !! Z.to_nat g = Some k → count_ok m S g k → count_ok m' S' g k) →
  ∀ g, 0 ≤ g < n → ∃ k, <[Z.to_nat f := c]> r !! Z.to_nat g = Some k ∧ count_ok m' S' g k.
Proof.
  intros H Hf Hc Ho g Hg. destruct (H g Hg) as (k & E & Hk). destruct (decide (g = f)) as [->|Hne].
  - exists c. split; [|done]. apply list_lookup_insert_eq. by apply lookup_lt_Some in E.
  - exists k. split; [|by apply Ho]. rewrite list_lookup_insert_ne; [done|]. lia.
Qed.

(** A store to a page that is writable. *)
Lemma store_private s U S A a i v :
  private s U S A → a ∈ S → bit (pm s a) WRITABLE = true → 0 ≤ i < 512 →
  private (with_pm s (upd (pm s) (512 * page_of (pm s a) + i) v)) U S
    (λ b j, if (b =? a) && (j =? i) then v else A b j).
Proof.
  intros [C HA] Ha Hw Hi. set (p := 512 * page_of (pm s a) + i). set (s' := with_pm s _).
  destruct (cow_count s U S a C Ha) as (_ & _ & c & Ec & _ & Hwc & Hsz & _). rewrite Hw in Hwc. rewrite <-Hwc in Hsz.
  assert (Hpf : p / 512 = page_of (pm s a)) by (apply in_frame_div; unfold in_frame, p; lia).
  assert (Hs : ∀ b, b ∈ S → pm s' b = pm s b).
  { intros b Hb. cbn. unfold upd. destruct (Z.eqb_spec b p) as [->|]; [|done].
    by destruct (cow_tables _ _ _ C p a Hb Ha). }
  split.
  - destruct C as [R He Hp Ht Hpe Hcs]. split; [done|done| | | |].
    + intros b Hb. rewrite Hs by done. by apply Hp.
    + intros b b' Hb Hb'. rewrite Hs by done. by apply Ht.
    + intros b Hb. rewrite Hs by done. by apply Hpe.
    + intros f Hf. destruct (Hcs f Hf) as (k & E & Hk). exists k. split; [done|].
      apply (count_ok_ext (pm s) (pm s') S S); [by apply refs_ext; intros b Hb; rewrite Hs| |done].
      intros b [_ Hb]%elem_of_refs. by rewrite Hs.
  - intros b j Hb Hj. unfold page_word. rewrite (Hs b Hb). cbn. unfold upd.
    destruct (Z.eqb_spec b a) as [->|Hne]; simpl.
    + destruct (Z.eqb_spec j i) as [->|Hji]; [by rewrite Z.eqb_refl|].
      rewrite (proj2 (Z.eqb_neq _ p)) by (unfold p; lia). by apply HA.
    + destruct (Z.eqb_spec (512 * page_of (pm s b) + j) p) as [Ep|]; [|by apply HA].
      exfalso. assert (Hin : b ∈ refs (pm s) S (page_of (pm s a))).
      { apply elem_of_refs. split; [|done]. rewrite <-Hpf, <-Ep. symmetry. apply in_frame_div. unfold in_frame. lia. }
      rewrite Hsz in Hin. set_solver.
Qed.

Lemma refs_size1 m S f a : a ∈ refs m S f → size (refs m S f) = 1%nat → refs m S f = {[a]}.
Proof.
  intros Ha H1. apply size_1_elem_of in H1 as [x Hx]. apply leibniz_equiv_iff in Hx. rewrite Hx in Ha |- *.
  apply elem_of_singleton in Ha. by subst.
Qed.

(** One entry of [S] changes. *)
Section swap.
Context (m m' : Z → Z) (S : gset Z) (a : Z).
Hypothesis (Ha : a ∈ S) (Hm : ∀ b, b ∈ S → b ≠ a → m' b = m b).

Lemma refs_swap_other g : g ≠ page_of (m' a) → g ≠ page_of (m a) → refs m' S g = refs m S g.
Proof.
  intros H1 H2. apply leibniz_equiv. intros b. rewrite !elem_of_refs. destruct (decide (b = a)) as [->|Hb].
  - split; intros [E _]; [by destruct H1|by destruct H2].
  - split; intros [E Hin]; (split; [|done]); [by rewrite <-Hm|by rewrite Hm].
Qed.

Lemma refs_swap_old : page_of (m' a) ≠ page_of (m a) → refs m' S (page_of (m a)) = refs m S (page_of (m a)) ∖ {[a]}.
Proof.
  intros H. apply leibniz_equiv. intros b. rewrite elem_of_difference, !elem_of_refs, elem_of_singleton.
  destruct (decide (b = a)) as [->|Hb]; [split; [intros [E _]; by destruct H|by intros [_ []]]|].
  split; [intros [E Hin]|intros [[E Hin] _]]; [rewrite Hm in E by done|rewrite <-Hm in E by done]; done.
Qed.

Lemma refs_swap_new : refs m S (page_of (m' a)) ⊆ {[a]} → refs m' S (page_of (m' a)) = {[a]}.
Proof.
  intros H. apply leibniz_equiv. intros b. rewrite elem_of_refs, elem_of_singleton.
  split; [|by intros ->]. intros [E Hin]. destruct (decide (b = a)) as [|Hb]; [done|].
  rewrite Hm in E by done. assert (Hin' : b ∈ refs m S (page_of (m' a))) by (by apply elem_of_refs). set_solver.
Qed.

Lemma count_ok_swap g k : g ≠ page_of (m' a) → g ≠ page_of (m a) → count_ok m S g k → count_ok m' S g k.
Proof.
  intros H1 H2. apply count_ok_ext; [by apply refs_swap_other|].
  intros b [E Hb]%elem_of_refs. rewrite Hm; [done|done|]. intros ->. by apply H2.
Qed.

Lemma count_ok_alone : refs m S (page_of (m' a)) ⊆ {[a]} → bit (m' a) WRITABLE = true → count_ok m' S (page_of (m' a)) 0.
Proof.
  intros H Hw. unfold count_ok. rewrite refs_swap_new by done. split; [lia|]. split; [rewrite size_singleton; simpl; lia|].
  by intros b ->%elem_of_singleton.
Qed.
End swap.

(** The entry [a] gets a writable page of its own with the contents [A a]. *)
Lemma swap_private s U S A a al' m' U' :
  private s U S A → a ∈ S → represents al' U' → U ⊆ U' → nframes al' = nframes (alloc s) →
  (∀ b, b ∈ S → b ≠ a → m' b = pm s b) →
  page_of (m' a) ∈ U' → (∀ b, b ∈ S → b / 512 ≠ page_of (m' a)) →
  bit (m' a) WRITABLE = true → bit (m' a) COW_PENDING = false →
  (∀ i, 0 ≤ i < 512 → m' (512 * page_of (m' a) + i) = A a i) →
  (∀ b i, b ∈ S → b ≠ a → 0 ≤ i < 512 → m' (512 * page_of (pm s b) + i) = pm s (512 * page_of (pm s b) + i)) →
  (∀ f, 0 ≤ f < nframes (alloc s) → ∃ c, mem_refcounts al' !! Z.to_nat f = Some c ∧ count_ok m' S f c) →
  private (with_both s al' m') U' S A.
Proof.
  intros [C HA] Ha R HU Hn Hm Hpa Hta Hw Hcp Hwa Hwb Hc. split; [split|]; cbn [pm alloc with_both with_pm with_alloc].
  - done.
  - intros b Hb. apply HU. by apply C.
  - intros b Hb. destruct (decide (b = a)) as [->|]; [done|]. rewrite Hm by done. apply HU. by apply C.
  - intros b b' Hb Hb'. destruct (decide (b' = a)) as [->|]; [by apply Hta|]. rewrite (Hm b') by done. by apply (cow_tables _ _ _ C).
  - intros b Hb. destruct (decide (b = a)) as [->|]; [by rewrite Hw, Hcp|]. rewrite Hm by done. by apply C.
  - by rewrite Hn.
  - intros b i Hb Hi. unfold page_word. cbn [pm alloc with_both with_pm with_alloc].
    destruct (decide (b = a)) as [->|]; [by apply Hwa|]. rewrite (Hm b), Hwb by done. by apply HA.
Qed.

Definition own (r : Z) : Z := put_bit (put_bit r WRITABLE true) COW_PENDING false.

Lemma own_bits r : bit (own r) WRITABLE = true ∧ bit (own r) COW_PENDING = false ∧ page_of (own r) = page_of r.
Proof.
  unfold own. rewrite !bit_put_bit by done. split_and!; [done|done|].
  rewrite !page_of_put_bit by (unfold WRITABLE, COW_PENDING; lia). done.
Qed.

Lemma word_frame f i : 0 ≤ i < 512 → (512 * f + i) / 512 = f.
Proof. intros Hi. apply in_frame_div. unfold in_frame. lia. Qed.

Lemma upd_frame m a v f i : a / 512 ≠ f → 0 ≤ i < 512 → upd m a v (512 * f + i) = m (512 * f + i).
Proof. intros H Hi. unfold upd. destruct (Z.eqb_spec (512 * f + i) a) as [E|]; [|done]. exfalso. apply H. by rewrite <-E, word_frame. Qed.

Lemma copy_frame m d f w : w / 512 ≠ d → copy_words m (512 * d) (512 * f) 512 w = m w.
Proof.
  intros H. unfold copy_words. assert (Hn : ¬ in_frame w d) by (by rewrite in_frame_div). unfold in_frame in Hn.
  destruct (Z.leb_spec (512 * d) w), (Z.ltb_spec w (512 * d + 512)); try done. lia.
Qed.

Lemma copy_words_in m d f i : 0 ≤ i < 512 → copy_words m (512 * d) (512 * f) 512 (512 * d + i) = m (512 * f + i).
Proof. intros Hi. unfold copy_words. rewrite (proj2 (Z.leb_le _ _)), (proj2 (Z.ltb_lt _ _)) by lia. simpl. f_equal. lia. Qed.

(** A fault at an entry that waits for it. *)
Section cow_fault.
Context (s : mmu_state) (U S : gset Z) (A : Z → Z → Z) (a c : Z).
Let f := page_of (pm s a).
Hypothesis (P : private s U S A) (Ha : a ∈ S) (Hw : bit (pm s a) WRITABLE = false).
Hypothesis (Ec : mem_refcounts (alloc s) !! Z.to_nat f = Some c).

Lemma fault_pending : bit (pm s a) COW_PENDING = true.
Proof. by rewrite (cow_pending _ _ _ (pr_cow _ _ _ _ P) a Ha), Hw. Qed.

Lemma fault_count : 0 < c < 256 ∧ 0 ≤ f < nframes (alloc s) ∧ Z.of_nat (size (refs (pm s) S f)) = c ∧
  a ∈ refs (pm s) S f ∧ ∀ b, b ∈ S → page_of (pm s b) = f → bit (pm s b) WRITABLE = false.
Proof.
  destruct (cow_count s U S a (pr_cow _ _ _ _ P) Ha) as (Hf & _ & k & Ek & Hk & Hwk & Hsz & Hall).
  fold f in Hf, Ek, Hsz, Hall. rewrite Ec in Ek. injection Ek as <-. rewrite Hw in Hwk. rewrite <-Hwk in Hsz, Hall.
  symmetry in Hwk. apply Z.eqb_neq in Hwk. split; [lia|]. split; [done|]. split; [done|]. split; [|done].
  by apply elem_of_refs.
Qed.

Lemma fault_dec : refcount_dec f (alloc s) =
  Done (c - 1, with_refcounts (alloc s) (<[Z.to_nat f := c - 1]> (mem_refcounts (alloc s)))).
Proof. destruct fault_count as (Hc & Hf & _). by apply refcount_dec_run. Qed.

(** The last reference keeps the page. *)
Lemma cow_last : c = 1 →
  let s' := with_both s (with_refcounts (alloc s) (<[Z.to_nat f := c - 1]> (mem_refcounts (alloc s))))
              (upd (pm s) a (own (pm s a))) in
  cow_entry a s = Done (0, s') ∧ private s' U S A ∧ bit (pm s' a) WRITABLE = true.
Proof using All.
  intros Hc1 s'. assert (Hc0 : c - 1 = 0) by lia. pose proof fault_count as (_ & Hf & Hsz & Haf & _). pose proof (pr_cow _ _ _ _ P) as C.
  assert (Hm : ∀ b, b ∈ S → b ≠ a → upd (pm s) a (own (pm s a)) b = pm s b).
  { intros b _ Hb. unfold upd. by rewrite (proj2 (Z.eqb_neq _ _) Hb). }
  assert (Hpg : page_of (upd (pm s) a (own (pm s a)) a) = f) by (rewrite upd_same; apply own_bits).
  split_and!; [| |cbn [s' pm with_both with_pm]; rewrite upd_same; apply own_bits].
  - unfold cow_entry, rd, gets, in_alloc, mbind, St_bind. rewrite fault_pending. cbn [negb]. fold f.
    rewrite fault_dec, (proj2 (Z.eqb_eq (c - 1) 0)) by done. done.
  - apply (swap_private s U S A a); try done; rewrite ?Hpg; rewrite ?upd_same; try apply own_bits.
    + apply represents_refs, C.
    + by apply C.
    + intros b Hb. by apply (cow_tables _ _ _ C).
    + intros i Hi. rewrite upd_frame; [by apply P| |done]. by apply (cow_tables _ _ _ C).
    + intros b i Hb _ Hi. apply upd_frame; [|done]. by apply (cow_tables _ _ _ C).
    + apply (counts_step _ (pm s) _ S S); [apply C|done| |].
      * rewrite Hc0, <-Hpg. apply (count_ok_alone (pm s)); [done|done| |rewrite upd_same; apply own_bits].
        rewrite Hpg, (refs_size1 _ _ _ a Haf); [done|]. lia.
      * intros g k Hg Hne _. by apply (count_ok_swap (pm s) _ S a); rewrite ?Hpg.
Qed.

(** Any other gets a copy of it. *)
Lemma cow_fresh : c ≠ 1 → (1 ≤ size (free_frames (alloc s) U))%nat →
  ∃ s' U', cow_entry a s = Done (0, s') ∧ private s' U' S A ∧ bit (pm s' a) WRITABLE = true.
Proof using All.
  intros Hc1 Hfree. pose proof fault_count as (Hc & Hf & Hsz & Haf & Hall). pose proof (pr_cow _ _ _ _ P) as C.
  set (al := with_refcounts (alloc s) (<[Z.to_nat f := c - 1]> (mem_refcounts (alloc s)))).
  assert (Ral : represents al U) by (apply represents_refs, C).
  destruct (allocate_run al U Ral Hfree) as (f' & a0 & al' & HfU & Hf' & E1 & E2 & R' & Hn' & Hr' & _).
  pose proof (wf_nframes _ (rep_wf _ _ Ral)) as Hn28.
  set (mc := copy_words (pm s) (512 * f') (512 * f) 512).
  assert (HSf : ∀ b, b ∈ S → b / 512 ≠ f') by (intros b Hb E; apply HfU; rewrite <-E; by apply C).
  assert (HpS : ∀ b, b ∈ S → page_of (pm s b) ≠ f') by (intros b Hb E; apply HfU; rewrite <-E; by apply C).
  set (m' := upd mc a (own (put_page (pm s a) f'))).
  assert (Hma : m' a = own (put_page (pm s a) f')) by (apply upd_same).
  assert (Hpa : page_of (m' a) = f').
  { rewrite Hma. rewrite (proj2 (proj2 (own_bits _))). apply page_of_put_page. lia. }
  assert (Hm : ∀ b, b ∈ S → b ≠ a → m' b = pm s b).
  { intros b Hb Hne. unfold m', upd. rewrite (proj2 (Z.eqb_neq _ _) Hne). by apply copy_frame, HSf. }
  assert (E0 : refs (pm s) S f' ⊆ ∅) by (intros b [E Hb]%elem_of_refs; by destruct (HpS b Hb)).
  exists (with_both s al' m'), ({[f']} ∪ U).
  split_and!; [| |cbn [pm with_both with_pm]; rewrite Hma; apply own_bits].
  - unfold cow_entry, rd, gets, in_alloc, mbind, St_bind. rewrite fault_pending. cbn [negb]. fold f.
    rewrite fault_dec, (proj2 (Z.eqb_neq _ _)) by lia. cbn [alloc with_alloc]. fold al. rewrite E1.
    cbn [alloc with_alloc]. rewrite E2. unfold copy_page, wr, modify. cbn [pm with_alloc with_pm]. fold mc.
    assert (Hmca : mc a = pm s a) by (by apply copy_frame, HSf). by rewrite Hmca.
  - apply (swap_private s U S A a); rewrite ?Hpa; rewrite ?Hma; try apply own_bits; try done.
    + apply union_subseteq_r.
    + by apply elem_of_union_l, elem_of_singleton.
    + intros i Hi. unfold m'. rewrite upd_frame by (done || by apply HSf). unfold mc. rewrite copy_words_in by done. by apply P.
    + intros b i Hb Hba Hi. unfold m'. rewrite upd_frame; [|by apply (cow_tables _ _ _ C)|done].
      apply copy_frame. rewrite word_frame by done. by apply HpS.
    + rewrite Hr'. apply (counts_step _ (pm s) m' S S); [apply C|done| |].
      * assert (Hof : page_of (m' a) ≠ page_of (pm s a)) by (rewrite Hpa; by apply not_eq_sym, HpS).
        unfold count_ok, f. rewrite refs_swap_old by done. fold f.
        rewrite size_difference, size_singleton by (by apply singleton_subseteq_l). rewrite (proj2 (Z.eqb_neq (c - 1) 0)) by lia.
        split; [lia|]. split; [lia|]. intros b [[Eb Hb]%elem_of_refs Hne]%elem_of_difference.
        rewrite elem_of_singleton in Hne. rewrite Hm by done. by apply Hall.
      * intros g k Hg Hne _ Hok. destruct (decide (g = f')) as [->|Hgf]; [|by apply (count_ok_swap (pm s) m' S a); rewrite ?Hpa].
        destruct Hok as (Hk & Hsz0 & _).
        assert (E0' : refs (pm s) S f' = ∅) by (by apply leibniz_equiv, equiv_empty). rewrite E0', size_empty in Hsz0.
        assert (k = 0) as -> by (destruct (Z.eqb_spec k 0); [done|lia]). rewrite <-Hpa.
        apply (count_ok_alone (pm s)); [done|done|rewrite Hpa, E0'; apply empty_subseteq|rewrite Hma; apply own_bits].
Qed.
End cow_fault.

Lemma cow_entry_private s U S A a :
  private s U S A → a ∈ S → bit (pm s a) WRITABLE = false → (1 ≤ size (free_frames (alloc s) U))%nat →
  ∃ s' U', cow_entry a s = Done (0, s') ∧ private s' U' S A ∧ bit (pm s' a) WRITABLE = true.
Proof.
  intros P Ha Hw Hfree. destruct (cow_count s U S a (pr_cow _ _ _ _ P) Ha) as (_ & _ & c & Ec & _).
  destruct (decide (c = 1)) as [E|E]; [|by apply (cow_fresh s U S A a c)].
  destruct (cow_last s U S A a c P Ha Hw Ec E) as (E1 & P' & Hw'). by eexists _, U.
Qed.

(** ** Sharing and releasing *)

Definition shared (r : Z) : Z := put_bit (put_bit r WRITABLE false) COW_PENDING true.

Lemma shared_bits r : bit (shared r) WRITABLE = false ∧ bit (shared r) COW_PENDING = true ∧ page_of (shared r) = page_of r.
Proof.
  unfold shared. rewrite !bit_put_bit by done. split_and!; [done|done|].
  rewrite !page_of_put_bit by (unfold WRITABLE, COW_PENDING; lia). done.
Qed.

Lemma refs_union m S f a : a ∉ S → refs m ({[a]} ∪ S) f = (if decide (page_of (m a) = f) then {[a]} else ∅) ∪ refs m S f.
Proof.
  intros Ha. apply leibniz_equiv. intros b. rewrite elem_of_union, !elem_of_refs, elem_of_union, elem_of_singleton.
  destruct (decide (page_of (m a) = f)) as [E|E].
  - rewrite elem_of_singleton. split; [intros [Eb [->|Hb]]; [by left|by right]|intros [->|[]]; [split; [done|by left]|split; [done|by right]]].
  - rewrite elem_of_empty. split; [intros [Eb [->|Hb]]; [by destruct E|by right]|intros [[]|[]]; split; [done|by right]].
Qed.

(** The entries [a] and [b] both become [r], a read-only entry for the page of [a]. *)
Lemma share_private s U S A a b r m' :
  private s U S A → a ∈ S → b ∉ S → b / 512 ∈ U → (∀ x, x ∈ S → b / 512 ≠ page_of (pm s x)) →
  bit r WRITABLE = false → bit r COW_PENDING = true → page_of r = page_of (pm s a) →
  (∀ x, m' x = if decide (x = a ∨ x = b) then r else pm s x) →
  let f := page_of (pm s a) in
  let k := Z.of_nat (size (refs (pm s) S f)) + 1 in
  k < 256 → (∀ x, x ∈ refs (pm s) S f → x ≠ a → bit (pm s x) WRITABLE = false) →
  private (with_both s (with_refcounts (alloc s) (<[Z.to_nat f := k]> (mem_refcounts (alloc s)))) m')
    U ({[b]} ∪ S) (λ x i, if x =? b then A a i else A x i).
Proof.
  intros P Ha Hb HbU Hbt Hrw Hrc Hrp Hm f k Hk Hro. pose proof P as [C HA].
  pose proof (rep_range _ _ (cow_rep _ _ _ C) f (cow_page _ _ _ C a Ha)) as Hf.
  assert (Hab : a ≠ b) by (by intros ->).
  assert (HmS : ∀ x, x ∈ S → page_of (m' x) = page_of (pm s x)).
  { intros x Hx. rewrite Hm. destruct (decide (x = a ∨ x = b)) as [[->| ->]|]; done. }
  assert (Hmb : page_of (m' b) = f) by (rewrite Hm; rewrite decide_True by (by right); done).
  assert (Hx : ∀ x, x ∈ {[b]} ∪ S → x = b ∨ x ≠ b ∧ x ∈ S).
  { intros x [->%elem_of_singleton|Hx]%elem_of_union; [by left|]. right. split; [by intros ->|done]. }
  assert (Hrefs : ∀ g, refs m' ({[b]} ∪ S) g = (if decide (f = g) then {[b]} else ∅) ∪ refs (pm s) S g).
  { intros g. by rewrite refs_union, Hmb, (refs_ext (pm s) m'). }
  split; [split|]; cbn [pm alloc with_both with_pm with_alloc].
  - apply represents_refs, C.
  - intros x [->|[_ HxS]]%Hx; [done|by apply C].
  - intros x [->|[_ HxS]]%Hx; [rewrite Hmb|rewrite HmS by done]; by apply C.
  - intros x y Hx' [->|[_ HyS]]%Hx; [rewrite Hmb|rewrite (HmS y) by done];
      (destruct (Hx x Hx') as [->|[_ HxS]]; [by apply Hbt|by apply (cow_tables _ _ _ C)]).
  - intros x Hx'. rewrite Hm. destruct (decide (x = a ∨ x = b)) as [|Hne]; [by rewrite Hrw, Hrc|].
    destruct (Hx x Hx') as [->|[_ HxS]]; [by destruct Hne; right|by apply C].
  - apply (counts_step _ (pm s) m' S ({[b]} ∪ S)); [apply C|done| |].
    + unfold count_ok. rewrite Hrefs, decide_True by done.
      assert (Haf : a ∈ refs (pm s) S f) by (by apply elem_of_refs).
      rewrite size_union, size_singleton by (apply disjoint_singleton_l; intros [_ Hb']%elem_of_refs; done).
      rewrite (proj2 (Z.eqb_neq k 0)) by (unfold k; lia). split; [lia|]. split; [unfold k; lia|].
      intros x Hxr. rewrite Hm. destruct (decide (x = a ∨ x = b)) as [|Hne]; [done|].
      apply elem_of_union in Hxr as [->%elem_of_singleton|Hxr]; [by destruct Hne; right|].
      apply Hro; [done|]. intros ->. by destruct Hne; left.
    + intros g j Hg Hne _. apply count_ok_ext; [rewrite Hrefs, decide_False by (by apply not_eq_sym); apply (left_id_L ∅ (∪))|].
      intros x [Ex HxS]%elem_of_refs. rewrite Hm. rewrite decide_False; [done|]. by intros [->| ->].
  - assert (Hwd : ∀ g i, 0 ≤ i < 512 → a / 512 ≠ g → b / 512 ≠ g → m' (512 * g + i) = pm s (512 * g + i)).
    { intros g i Hi H1 H2. rewrite Hm, decide_False; [done|].
      intros [E|E]; [apply H1|apply H2]; rewrite <-E; by apply word_frame. }
    intros x i Hx' Hi. unfold page_word. cbn [pm alloc with_both with_pm with_alloc].
    destruct (Hx x Hx') as [->|[Hxb HxS]].
    + rewrite Z.eqb_refl, Hmb, Hwd; [by apply HA|done|by apply (cow_tables _ _ _ C)|by apply Hbt].
    + rewrite (proj2 (Z.eqb_neq _ _)), (HmS x), Hwd; try done; [by apply HA|by apply (cow_tables _ _ _ C)|by apply Hbt].
Qed.

Lemma copy_page_private s U S A a b :
  private s U S A → a ∈ S → b ∉ S → b / 512 ∈ U → (∀ x, x ∈ S → b / 512 ≠ page_of (pm s x)) →
  mem_refcounts (alloc s) !! Z.to_nat (page_of (pm s a)) ≠ Some 255 →
  ∃ s', copy_page_maybe a b s = Done (0, s') ∧
    private s' U ({[b]} ∪ S) (λ x i, if x =? b then A a i else A x i).
Proof.
  intros P Ha Hb HbU Hbt H255. pose proof (pr_cow _ _ _ _ P) as C.
  assert (Hab : a ≠ b) by (by intros ->).
  destruct (cow_count s U S a C Ha) as (Hf & _ & c & Ec & Hc & Hwc & Hsz & Hall).
  set (f := page_of (pm s a)) in *. rewrite Ec in H255. assert (c ≠ 255) by congruence.
  unfold copy_page_maybe, rd, gets, refcount_of, set_refcount, in_alloc, modify, wr, mbind, St_bind. fold f.
  destruct (bit (pm s a) WRITABLE) eqn:Hw; symmetry in Hwc.
  - pose proof Hwc as Hc0. apply Z.eqb_eq in Hc0. rewrite Hwc in Hsz.
    rewrite Ec, Hwc. cbn [negb]. unfold mret, St_ret. eexists. split; [reflexivity|].
    destruct (shared_bits (pm s a)) as (B1 & B2 & B3). cbn [pm with_pm with_alloc]. rewrite upd_same.
    pose proof (share_private s U S A a b (shared (pm s a))
      (upd (upd (pm s) a (shared (pm s a))) b (shared (pm s a))) P Ha Hb HbU Hbt B1 B2 B3) as H'. cbv zeta in H'.
    fold f in H'. rewrite Hsz, size_singleton in H'. apply H'; [|lia|].
    + intros x. unfold upd. destruct (Z.eqb_spec x b), (Z.eqb_spec x a), (decide (x = a ∨ x = b)) as [[]|]; try done; tauto.
    + by intros x ->%elem_of_singleton.
  - pose proof Hwc as Hc0. apply Z.eqb_neq in Hc0. rewrite Hwc in Hsz.
    rewrite (refcount_inc_run _ _ c Hf Ec) by lia. cbn [negb Z.eqb]. unfold mret, St_ret. eexists. split; [reflexivity|].
    cbn [pm with_pm with_alloc].
    assert (Hcp : bit (pm s a) COW_PENDING = true) by (by rewrite (cow_pending _ _ _ C a Ha), Hw).
    pose proof (share_private s U S A a b (pm s a) (upd (pm s) b (pm s a)) P Ha Hb HbU Hbt Hw Hcp eq_refl) as H'.
    cbv zeta in H'. fold f in H'. rewrite Hsz in H'. apply H'; [|lia|].
    + intros x. unfold upd. destruct (Z.eqb_spec x b), (decide (x = a ∨ x = b)) as [[]|]; subst; try done; tauto.
    + intros x [Ex Hx]%elem_of_refs _. rewrite Hall by done. done.
Qed.

Lemma clear_run a U f : represents a U → 0 ≤ f < 2 ^ 28 →
  ∃ a', mmu_frame_clear (u64 (Z.shiftl f PAGE_SHIFT)) a = Done (tt, a') ∧ represents a' (U ∖ {[f]}) ∧
    nframes a' = nframes a ∧ mem_refcounts a' = mem_refcounts a.
Proof.
  intros R Hf. destruct (set_op_sound a U (Release f) R Hf) as (a' & E & H).
  exists a'. split; [|done]. cbn [exec_frame_op] in E. unfold mmu_frame_release, mbind, St_bind in E.
  destruct (mmu_frame_clear _ a) as [[[] a1]| |]; [|done|done]. by injection E as ->.
Qed.

Lemma refs_remove m S f a : refs m (S ∖ {[a]}) f = refs m S f ∖ {[a]}.
Proof.
  apply leibniz_equiv. intros b. rewrite elem_of_refs, !elem_of_difference, elem_of_refs. tauto.
Qed.

(** An entry goes; its page goes with the last entry. *)
Lemma remove_private s U S A a al' U' k :
  let f := page_of (pm s a) in
  private s U S A → a ∈ S → represents al' U' → nframes al' = nframes (alloc s) → U ∖ {[f]} ⊆ U' →
  mem_refcounts al' = <[Z.to_nat f := k]> (mem_refcounts (alloc s)) →
  count_ok (pm s) (S ∖ {[a]}) f k → (refs (pm s) S f = {[a]} ∧ (∀ x, x ∈ S → x / 512 ∈ U') ∨ U' = U) →
  private (with_alloc s al') U' (S ∖ {[a]}) A.
Proof.
  intros f P Ha R Hn HU Hr Hk Hor. pose proof P as [C HA].
  pose proof (rep_range _ _ (cow_rep _ _ _ C) f (cow_page _ _ _ C a Ha)) as Hf.
  assert (Hx : ∀ x, x ∈ S ∖ {[a]} → x ∈ S ∧ x ≠ a) by (intros x [H1 H2]%elem_of_difference; by rewrite elem_of_singleton in H2).
  split; [split|]; cbn [pm alloc with_pm with_alloc].
  - done.
  - intros x [HxS _]%Hx. destruct Hor as [[_ H]| ->]; [by apply H|by apply C].
  - intros x [HxS Hxa]%Hx. destruct Hor as [[H _]| ->]; [|by apply C]. apply HU, elem_of_difference. split; [by apply C|].
    rewrite elem_of_singleton. intros E. assert (Hin : x ∈ refs (pm s) S f) by (by apply elem_of_refs).
    rewrite H, elem_of_singleton in Hin. done.
  - intros x y [HxS _]%Hx [HyS _]%Hx. by apply (cow_tables _ _ _ C).
  - intros x [HxS _]%Hx. by apply C.
  - rewrite Hn, Hr. apply (counts_step _ (pm s) (pm s) S); [apply C|done|done|].
    intros g j Hg Hne _. apply count_ok_ext; [|done]. rewrite refs_remove. apply leibniz_equiv. intros x.
    rewrite elem_of_difference, elem_of_singleton. split; [by intros []|]. intros Hin. split; [done|].
    intros ->. apply elem_of_refs in Hin as [E _]. by apply Hne.
  - intros x i [HxS _]%Hx Hi. by apply HA.
Qed.

Lemma insert_same (r : list Z) i c : r !! i = Some c → <[i := c]> r = r.
Proof. apply list_insert_id. Qed.

Lemma free_page_private s U S A a :
  private s U S A → a ∈ S →
  ∃ s' U', free_page_maybe a s = Done (0, s') ∧ private s' U' (S ∖ {[a]}) A.
Proof.
  intros P Ha. pose proof (pr_cow _ _ _ _ P) as C.
  destruct (cow_count s U S a C Ha) as (Hf & Hf28 & c & Ec & Hc & Hwc & Hsz & Hall).
  set (f := page_of (pm s a)) in *.
  assert (Htab : ∀ x, x ∈ S → x / 512 ∈ U ∖ {[f]}).
  { intros x Hx. apply elem_of_difference. split; [by apply C|]. rewrite elem_of_singleton. by apply (cow_tables _ _ _ C). }
  assert (Hgone : refs (pm s) S f = {[a]} → count_ok (pm s) (S ∖ {[a]}) f 0).
  { intros H. assert (E0 : refs (pm s) (S ∖ {[a]}) f = ∅) by (rewrite refs_remove, H; apply difference_diag_L).
    unfold count_ok. rewrite E0, size_empty. split; [lia|]. split; [simpl; lia|]. intros x Hx. by apply elem_of_empty in Hx. }
  unfold free_page_maybe, rd, gets, refcount_of, in_alloc, mbind, St_bind. fold f.
  destruct (bit (pm s a) WRITABLE) eqn:Hw; symmetry in Hwc; rewrite Hwc in Hsz.
  - pose proof Hwc as Hc0. apply Z.eqb_eq in Hc0. rewrite Ec, Hwc. cbn [negb].
    destruct (clear_run (alloc s) U f (cow_rep _ _ _ C) Hf28) as (al' & E & R' & Hn & Hr). rewrite E.
    unfold mret, St_ret. eexists _, _. split; [reflexivity|].
    apply (remove_private s U S A a al' _ 0); fold f; try done; [|by apply Hgone|by left].
    rewrite Hr. symmetry. apply insert_same. congruence.
  - pose proof Hwc as Hc0. apply Z.eqb_neq in Hc0.
    rewrite (refcount_dec_run _ _ c Hf Ec) by lia. cbn [alloc with_alloc].
    set (al := with_refcounts _ _). assert (Ral : represents al U) by apply represents_refs, C.
    destruct (Z.eqb_spec (c - 1) 0) as [Hlast|Hmore].
    + destruct (clear_run al U f Ral Hf28) as (al' & E & R' & Hn & Hr).
      cbn [alloc with_alloc]. rewrite E.
      unfold mret, St_ret. eexists _, _. split; [reflexivity|].
      assert (H1 : refs (pm s) S f = {[a]}) by (apply refs_size1; [by apply elem_of_refs|lia]).
      apply (remove_private s U S A a al' _ (c - 1)); fold f; try done; [rewrite Hlast; by apply Hgone|by left].
    + unfold mret, St_ret. eexists _, _. split; [reflexivity|].
      apply (remove_private s U S A a al U (c - 1)); fold f; try done; [apply subseteq_difference_l; done| |by right].
      unfold count_ok. rewrite refs_remove, size_difference, size_singleton by (apply singleton_subseteq_l; by apply elem_of_refs).
      rewrite (proj2 (Z.eqb_neq (c - 1) 0)) by lia. split; [lia|]. split; [lia|].
      intros x [[Ex Hx]%elem_of_refs _]%elem_of_difference. by rewrite Hall.
Qed.

(** ** The contract of copy-on-write *)

Inductive page_op : Type :=
  | Share (a b : Z)
  | Write (a i v : Z)
  | Drop (a : Z).

(** A write to a page that is not writable goes through the page fault first. *)
Definition exec_page_op (o : page_op) : St mmu_state Z :=
  match o with
  | Share a b => copy_page_maybe a b
  | Write a i v =>
      raw ← rd a;
      r ← (if bit raw WRITABLE then mret 0 else cow_entry a);
      if negb (r =? 0) then mret r
      else
        raw ← rd a;
        wr (512 * page_of raw + i) v;;
        mret 0
  | Drop a => free_page_maybe a
  end.

(** The same on private pages. *)
Definition private_op (S : gset Z) (A : Z → Z → Z) (o : page_op) : gset Z * (Z → Z → Z) :=
  match o with
  | Share a b => ({[b]} ∪ S, λ x i, if x =? b then A a i else A x i)
  | Write a i v => (S, λ x j, if (x =? a) && (j =? i) then v else A x j)
  | Drop a => (S ∖ {[a]}, A)
  end.

Definition page_op_ok (s : mmu_state) (U S : gset Z) (o : page_op) : Prop :=
  match o with
  | Share a b => a ∈ S ∧ b ∉ S ∧ b / 512 ∈ U ∧ (∀ x, x ∈ S → b / 512 ≠ page_of (pm s x)) ∧
      mem_refcounts (alloc s) !! Z.to_nat (page_of (pm s a)) ≠ Some 255
  | Write a i v => a ∈ S ∧ 0 ≤ i < 512 ∧ (1 ≤ size (free_frames (alloc s) U))%nat
  | Drop a => a ∈ S
  end.

(** C4: copy-on-write is copying.  In any state in which the reference counts are those
    of the user entries (see [cow]), sharing an entry with another address space
    ([copy_page_maybe]), writing through an entry with the page fault that a read-only
    entry causes ([cow_entry], the body of [mmu_copy_on_write]) and dropping an entry
    ([free_page_maybe]) succeed and do to every entry's page what the same operation does
    when each entry has a page of its own: no write is seen through another entry, no
    contents are lost with another entry, and the counts stay those of the entries.  A
    write needs a free frame, an entry can be shared until its page has 255
    references. *)
Theorem cow_refines_copying s U S A o :
  private s U S A → page_op_ok s U S o →
  ∃ s' U', exec_page_op o s = Done (0, s') ∧
    private s' U' (private_op S A o).1 (private_op S A o).2.
Proof.
  intros P. destruct o as [a b|a i v|a]; cbn [page_op_ok exec_page_op private_op fst snd].
  - intros (Ha & Hb & HbU & Hbt & H255).
    destruct (copy_page_private s U S A a b P Ha Hb HbU Hbt H255) as (s' & E & P'). by exists s', U.
  - intros (Ha & Hi & Hfree). rewrite (St_bind_done (rd a) _ s (pm s a) s eq_refl).
    assert (Hst : ∃ s1 U1, (if bit (pm s a) WRITABLE then mret 0 else cow_entry a) s = Done (0, s1) ∧
      private s1 U1 S A ∧ bit (pm s1 a) WRITABLE = true).
    { destruct (bit (pm s a) WRITABLE) eqn:Hw; [by exists s, U|by apply (cow_entry_private s U)]. }
    destruct Hst as (s1 & U1 & E & P1 & Hw1). rewrite (St_bind_done _ _ _ _ _ E). cbn [negb Z.eqb].
    eexists _, U1. split; [reflexivity|]. by apply store_private.
  - intros Ha. by apply (free_page_private s U).
Qed.

(** ** User pointers *)

(** No entry of a root table is a large page. *)
Definition plain_root (s : mmu_state) (root : Z) : Prop :=
  ∀ va, bit (pm s (512 * root + pml4_entry va)) SIZE = false.

(** The page of [va] is mapped for users. *)
Definition user_page (s : mmu_state) (root va : Z) : Prop :=
  ∃ r, trans (pm s) (va_path va) root = Mapped r ∧ bit r USER = true.

Definition canonical (a : Z) : Prop := 0 ≤ a < 2 ^ 47 ∨ 2 ^ 64 - 2 ^ 47 ≤ a < 2 ^ 64.

Lemma get_page_other_spec s root va :
  plain_root s root →
  match mmu_get_page_other root va s with
  | Done (Some e, s') => s' = s ∧ trans (pm s) (va_path va) root =
      if negb (bit (pm s e) PRESENT) then Missing else Mapped (pm s e)
  | Done (None, s') => s' = s ∧ ∀ r, trans (pm s) (va_path va) root ≠ Mapped r
  | _ => False
  end.
Proof.
  intros Hroot. specialize (Hroot va). unfold va_path. rewrite !trans_cons, trans_one.
  unfold mmu_get_page_other, entry_in, rd, gets, mbind, St_bind, mret, St_ret. rewrite Hroot.
  destruct (bit (pm s (512 * root + pml4_entry va)) PRESENT); cbn [negb]; [|done].
  set (r4 := pm s (512 * root + pml4_entry va)).
  destruct (bit (pm s (512 * page_of r4 + pdp_entry va)) PRESENT); cbn [negb]; [|done].
  set (r3 := pm s (512 * page_of r4 + pdp_entry va)). destruct (bit r3 SIZE); [done|].
  destruct (bit (pm s (512 * page_of r3 + pd_entry va)) PRESENT); cbn [negb]; [|done].
  set (r2 := pm s (512 * page_of r3 + pd_entry va)). by destruct (bit r2 SIZE).
Qed.

Lemma high_bits page : 0 ≤ page < 2 ^ 52 →
  (Z.land page 0xffff800000000 = 0 ∨ Z.land page 0xffff800000000 = 0xffff800000000) ↔ canonical (page * PAGE_SIZE).
Proof.
  intros Hp. assert (E : Z.land page 0xffff800000000 = page / 2 ^ 35 * 2 ^ 35).
  { assert (Hm : page / 2 ^ 35 = (page / 2 ^ 35) mod 2 ^ 17).
    { symmetry. apply Z.mod_small. split; [apply Z.div_pos; lia|]. apply Z.div_lt_upper_bound; lia. }
    rewrite Hm. rewrite <-Z.shiftr_div_pow2, <-Z.land_ones, <-Z.shiftl_mul_pow2 by lia.
    change 0xffff800000000 with (Z.shiftl (Z.ones 17) 35). apply Z.bits_inj'. intros i Hi.
    rewrite Z.land_spec, !Z.shiftl_spec by done. destruct (Z.ltb_spec i 35).
    - rewrite !(Z.testbit_neg_r _ (i - 35)) by lia. apply andb_false_r.
    - rewrite Z.land_spec, Z.shiftr_spec by lia. f_equal. f_equal. lia. }
  rewrite E. unfold canonical, PAGE_SIZE.
  pose proof (Z.div_mod page (2 ^ 35) ltac:(lia)) as Hd. pose proof (Z.mod_pos_bound page (2 ^ 35) ltac:(lia)).
  lia.
Qed.

(** The pages of the loop. *)
Lemma validate_pages_reads s root flags stop : plain_root s root → has flags MMU_PTR_WRITE = false → stop < 2 ^ 52 →
  ∀ fuel page, 0 ≤ page → (Z.to_nat (stop + 1 - page) < fuel)%nat →
  ∃ r, validate_pages fuel root page stop flags s = Done (truth r, s) ∧
    (r = true ↔ ∀ p, page ≤ p ≤ stop → canonical (p * PAGE_SIZE) ∧ user_page s root (p * PAGE_SIZE)).
Proof.
  intros Hroot Hf Hstop. induction fuel as [|fuel IH]; intros page Hp Hfuel; [lia|]. cbn [validate_pages].
  destruct (Z.ltb_spec stop page) as [Hlt|Hge].
  { exists true. split; [done|]. split; [|done]. intros _ p Hpp. lia. }
  assert (Hno : ∀ P : Prop, ¬ (canonical (page * PAGE_SIZE) ∧ user_page s root (page * PAGE_SIZE)) →
    ∃ r, Done (0, s) = Done (truth r, s) ∧
    (r = true ↔ ∀ p, page ≤ p ≤ stop → canonical (p * PAGE_SIZE) ∧ user_page s root (p * PAGE_SIZE))).
  { intros _ H. exists false. split; [done|]. split; [done|]. intros H'. destruct H. apply H'. lia. }
  pose proof (high_bits page ltac:(lia)) as Hcan.
  destruct (negb (Z.land page 0xffff800000000 =? 0) && negb (Z.land page 0xffff800000000 =? 0xffff800000000)) eqn:Eh.
  { apply andb_true_iff in Eh as [E1%negb_true_iff%Z.eqb_neq E2%negb_true_iff%Z.eqb_neq].
    apply (Hno True). intros [H%Hcan _]. by destruct H. }
  apply andb_false_iff in Eh. assert (Hc : canonical (page * PAGE_SIZE)).
  { apply Hcan. destruct Eh as [E%negb_false_iff%Z.eqb_eq|E%negb_false_iff%Z.eqb_eq]; [by left|by right]. }
  assert (Ea : u64 (Z.shiftl page 12) = page * PAGE_SIZE).
  { unfold PAGE_SIZE. rewrite Z.shiftl_mul_pow2, u64_small; lia. }
  rewrite Ea. pose proof (get_page_other_spec s root (page * PAGE_SIZE) Hroot) as Hg.
  unfold rd, gets, mbind, St_bind, mret, St_ret.
  destruct (mmu_get_page_other root (page * PAGE_SIZE) s) as [[[e|] s']| |]; try done; destruct Hg as [-> Hg].
  2: { apply (Hno True). intros [_ (r & Hr & _)]. by destruct (Hg r). }
  destruct (bit (pm s e) PRESENT) eqn:EP; cbn [negb] in Hg |- *.
  2: { apply (Hno True). intros [_ (r & Hr & _)]. by rewrite Hg in Hr. }
  destruct (bit (pm s e) USER) eqn:EU; cbn [negb].
  2: { apply (Hno True). intros [_ (r & Hr & Hu)]. rewrite Hg in Hr. injection Hr as <-. by rewrite EU in Hu. }
  rewrite Hf, andb_false_r. cbn [negb Z.eqb].
  destruct (IH (page + 1)) as (r & E & Hr); [lia|lia|]. exists r. rewrite E. split; [done|]. rewrite Hr. split.
  - intros H p Hpp. destruct (decide (p = page)) as [->|]; [|apply H; lia]. split; [done|]. by exists (pm s e).
  - intros H p Hpp. apply H. lia.
Qed.

Lemma canonical_page a : 0 ≤ a < 2 ^ 64 → canonical (a / PAGE_SIZE * PAGE_SIZE) ↔ canonical a.
Proof.
  intros Ha. unfold canonical, PAGE_SIZE. pose proof (Z.div_mod a 0x1000 ltac:(lia)).
  pose proof (Z.mod_pos_bound a 0x1000 ltac:(lia)). lia.
Qed.

Lemma page_number a : 0 ≤ a < 2 ^ 64 → 0 ≤ a / PAGE_SIZE < 2 ^ 52.
Proof.
  intros Ha. assert (Hps : PAGE_SIZE = 4096) by done.
  split; [apply Z.div_pos; lia|]. apply Z.div_lt_upper_bound; lia.
Qed.

(** A page that meets a range has a byte of it. *)
Lemma page_meets addr n p : 0 ≤ addr → 1 ≤ n → addr / PAGE_SIZE ≤ p ≤ (addr + n - 1) / PAGE_SIZE →
  ∃ a, a / PAGE_SIZE = p ∧ addr ≤ a < addr + n.
Proof.
  intros Ha Hn [H1 H2]. assert (Hps : PAGE_SIZE = 4096) by done.
  destruct (decide (addr ≤ p * PAGE_SIZE)) as [Hle|Hlt].
  - exists (p * PAGE_SIZE). split; [by apply Z.div_mul; lia|].
    pose proof (Z.mul_div_le (addr + n - 1) PAGE_SIZE ltac:(lia)). nia.
  - exists addr. split; [|lia]. assert (p ≤ addr / PAGE_SIZE) by (apply Z.div_le_lower_bound; lia). lia.
Qed.

(** What [mmu_validate_user_pointer] says of a pointer that is read.  When the range
    does not run over the end of the address space, the check changes nothing and
    returns 1 exactly when the pointer is not NULL (unless [MMU_PTR_NULL] is given), the
    size is at most 2^47 and every byte of the range has a canonical address in a page
    that is present and a user page.  The fuel the loop needs is the number of pages. *)
Theorem mmu_validate_user_pointer_reads s directory addr size flags fuel :
  plain_root s directory → has flags MMU_PTR_WRITE = false →
  0 ≤ addr < 2 ^ 64 → 0 ≤ size → addr + size ≤ 2 ^ 64 → size / PAGE_SIZE + 3 ≤ Z.of_nat fuel →
  ∃ r, mmu_validate_user_pointer fuel directory addr size flags s = Done (truth r, s) ∧
    (r = true ↔
      (addr = NULL → has flags MMU_PTR_NULL = true) ∧ size ≤ 2 ^ 47 ∧
      ∀ a, addr ≤ a < addr + size `max` 1 → canonical a ∧ user_page s directory a).
Proof.
  intros Hroot Hf Ha Hs Hend Hfuel. assert (Hps : PAGE_SIZE = 4096) by done.
  unfold mmu_validate_user_pointer. change 0x800000000000 with (2 ^ 47).
  destruct ((addr =? NULL) && negb (has flags MMU_PTR_NULL)) eqn:En.
  { apply andb_true_iff in En as [E1%Z.eqb_eq E2%negb_true_iff]. exists false. split; [done|]. split; [done|].
    intros [H _]. rewrite H in E2; done. }
  destruct (Z.ltb_spec (2 ^ 47) size) as [Hbig|Hsmall].
  { exists false. split; [done|]. split; [done|]. lia. }
  set (stop := if size =? 0 then addr else u64 (addr + (size - 1))).
  assert (Hstop : stop = addr + size `max` 1 - 1).
  { unfold stop. destruct (Z.eqb_spec size 0) as [->|]; [lia|]. rewrite u64_small; lia. }
  assert (Hpages : (Z.to_nat (stop / PAGE_SIZE + 1 - addr / PAGE_SIZE) < fuel)%nat).
  { clear -Ha Hs Hfuel Hps Hstop. pose proof (Z.div_mod addr PAGE_SIZE ltac:(lia)).
    pose proof (Z.mod_pos_bound addr PAGE_SIZE ltac:(lia)). pose proof (Z.div_mod size PAGE_SIZE ltac:(lia)).
    pose proof (Z.mod_pos_bound size PAGE_SIZE ltac:(lia)). pose proof (Z.mul_div_le stop PAGE_SIZE ltac:(lia)).
    pose proof (Z.div_pos addr PAGE_SIZE ltac:(lia) ltac:(lia)). lia. }
  cbv zeta. rewrite !Z.shiftr_div_pow2 by lia. change (2 ^ 12) with PAGE_SIZE.
  destruct (validate_pages_reads s directory flags (stop / PAGE_SIZE) Hroot Hf) with (fuel := fuel) (page := addr / PAGE_SIZE)
    as (r & E & Hr); [apply page_number; lia|apply Z.div_pos; lia|exact Hpages|].
  exists r. split; [exact E|]. rewrite Hr.
  assert (Hpage : ∀ a, 0 ≤ a < 2 ^ 64 → (canonical (a / PAGE_SIZE * PAGE_SIZE) ↔ canonical a) ∧
    (user_page s directory (a / PAGE_SIZE * PAGE_SIZE) ↔ user_page s directory a)).
  { intros a Hra. split; [by apply canonical_page|].
    assert (Ep : va_path (a / PAGE_SIZE * PAGE_SIZE) = va_path a).
    { unfold va_path, pml4_entry, pdp_entry, pd_entry, pt_entry. by rewrite page_addr_start, page_addr_div. }
    unfold user_page. by rewrite Ep. }
  split.
  - intros H. split; [intros ->; by apply negb_false_iff|]. split; [done|]. intros a Har.
    destruct (Hpage a ltac:(lia)) as [H1 H2]. destruct (H (a / PAGE_SIZE)) as [Hc Hu];
      [split; apply Z.div_le_mono; lia|]. split; [by apply H1|by apply H2].
  - intros (_ & _ & H) p Hp.
    rewrite Hstop in Hp. destruct (page_meets addr (size `max` 1) p) as (a & Hpa & Har); [lia|lia|lia|].
    destruct (Hpage a ltac:(lia)) as [H1 H2]. destruct (H a Har) as [Hc Hu].
    rewrite Hpa in H1, H2. split; [by apply H1|by apply H2].
Qed.

(** A range that runs over the end of the address space is accepted unseen. *)
Example mmu_validate_user_pointer_wraps s directory flags :
  mmu_validate_user_pointer 1 directory 0xfffffffffffff000 0x2000 flags s = Done (1, s).
Proof. done. Qed.


(** ** Examples *)

Definition demo_alloc (r : list Z) : frame_state := Frames [2 ^ 32 - 1; 7; 0; 0] 96 0 r.
Definition demo_used : gset Z := list_to_set (seqZ 0 35).

Lemma demo_alloc_represents r : represents (demo_alloc r) demo_used.
Proof.
  split.
  - split; simpl; [lia|by vm_compute|by repeat (apply Forall_cons; split; [lia|]); apply Forall_nil|].
    split; [lia|]. intros f Hf. lia.
  - intros f Hf. change (used (demo_alloc r) f) with (used (demo_alloc []) f). change (nframes (demo_alloc r)) with 96 in Hf.
    assert (H : Forall (λ f, used (demo_alloc []) f = bool_decide (f ∈ demo_used)) (seqZ 0 96)).
    { apply (bool_decide_unpack _). by vm_compute. }
    rewrite Forall_forall in H. apply H, elem_of_seqZ. lia.
  - intros f Hf%elem_of_list_to_set%elem_of_seqZ. simpl. lia.
Qed.

Lemma demo_alloc_free r : (61 ≤ size (free_frames (demo_alloc r) demo_used))%nat.
Proof.
  assert (Hl : size (list_to_set (seqZ 35 61) : gset Z) = 61%nat).
  { rewrite size_list_to_set by apply NoDup_seqZ. by rewrite length_seqZ. }
  rewrite <-Hl. unfold free_frames. apply subseteq_size. intros f Hf%elem_of_list_to_set%elem_of_seqZ.
  apply elem_of_difference. split; [apply elem_of_list_to_set, elem_of_seqZ; change (searched (demo_alloc r)) with 96; lia|].
  intros Hf'%elem_of_list_to_set%elem_of_seqZ. lia.
Qed.

(** An empty address space with its root table in frame 5. *)
Definition demo_space : mmu_state := Mmu (demo_alloc []) (λ _, 0) 5 NULL 0xffffff1fc0000000 0xffffff0000000000.

Lemma demo_space_ok : space demo_space demo_used.
Proof.
  split; [apply demo_alloc_represents|]. destruct (zero_table (λ _, 0) 3 5) as [T _]; [done|].
  exists (eq 5). split; [exact T|]. intros f <-. apply elem_of_list_to_set, elem_of_seqZ. lia.
Qed.

Lemma demo_space_missing va : xlate demo_space va = Missing.
Proof. done. Qed.

Lemma mmu_map_mmio_region_maps_witness :
  ∃ s', mmu_map_mmio_region 0xfd000000 0x2000 demo_space = Done (0xffffff1fc0000000, s') ∧
    mmu_map_to_physical 5 0xffffff1fc0001abc s' = Done (0xfd001abc, s') ∧
    xlate s' 0xffffff1fc0002000 = Missing ∧
    mmu_map_mmio_region 0xfd000000 0x2001 demo_space = Fault.
Proof.
  assert (D : ∀ k, (PAGE_SIZE | k * PAGE_SIZE)) by (intros k; by exists k).
  assert (Hsz : 4 * (0x2000 / PAGE_SIZE) ≤ Z.of_nat (size (free_frames (alloc demo_space) demo_used))).
  { change (alloc demo_space) with (demo_alloc []). pose proof (demo_alloc_free []).
    change (4 * (0x2000 / PAGE_SIZE)) with 8. lia. }
  destruct (proj2 (mmu_map_mmio_region_maps demo_space demo_used 0xfd000000 0x2000) demo_space_ok
    (D 0xffffff1fc0000) (D 0xfd000) (D 2) ltac:(simpl; lia) ltac:(simpl; lia) ltac:(lia) ltac:(lia) ltac:(lia) Hsz)
    as (s' & U' & E & _ & _ & Hm & Ho); [by intros i _|].
  exists s'. split; [exact E|]. split; [exact (proj1 (Hm 0x1abc ltac:(lia)))|].
  split; [|apply (mmu_map_mmio_region_maps demo_space demo_used); [lia|intros [n Hn]; rewrite (eq_refl : PAGE_SIZE = 4096) in Hn; lia]].
  - rewrite Ho; [exact (demo_space_missing _)|]. intros i Hi.
      change (mmio_base_address demo_space) with (0xffffff1fc0000 * PAGE_SIZE).
      change 0xffffff1fc0002000 with (0xffffff1fc0002 * PAGE_SIZE). rewrite page_addr_start, page_addr_div.
      assert (Hps : PAGE_SIZE = 4096) by done. rewrite Z.div_add_l by lia.
      assert (Hi' : i / PAGE_SIZE < 2) by (apply Z.div_lt_upper_bound; lia).
      assert (0 ≤ i / PAGE_SIZE) by (apply Z.div_pos; lia). apply (near_pages _ _ 3); lia.
Defined.

(** The base a region is mapped at, and where the address [i] bytes into it leads. *)
Definition demo_region (physical_address i : Z) : outcome (Z * Z) :=
  r ← mmu_map_mmio_region physical_address 0x1000 demo_space;
  '(a, _) ← mmu_map_to_physical 5 (r.1 + i) r.2;
  mret (r.1, a).

(** The physical page 0 cannot be mapped: an entry with frame number 0 is taken to be
    unset and gets the first free frame (38 here, after the three tables); nor can one from
    [2 ^ 40] on, whose frame number is cut to 28 bits (page 1 here). *)
Example mmu_map_mmio_region_page_zero :
  demo_region 0 0xabc = Done (0xffffff1fc0000000, 38 * 4096 + 0xabc) ∧
  demo_region (2 ^ 40 + 0x1000) 0xabc = Done (0xffffff1fc0000000, 0x1abc).
Proof. by vm_compute. Qed.

(** One writable page in frame 34, its entry in the table in frame 33. *)
Definition demo_entry : Z := 512 * 33 + 1.
Definition demo_cow : mmu_state :=
  Mmu (demo_alloc (replicate 96 0)) (upd (λ _, 0) demo_entry (34 * 4096 + 7)) 5 NULL 0 0.

Lemma demo_private : private demo_cow demo_used {[demo_entry]} (λ _ _, 0).
Proof.
  split; [split|].
  - apply demo_alloc_represents.
  - intros a ->%elem_of_singleton. by apply (bool_decide_unpack _).
  - intros a ->%elem_of_singleton. by apply (bool_decide_unpack _).
  - by intros a b ->%elem_of_singleton ->%elem_of_singleton.
  - by intros a ->%elem_of_singleton.
  - intros f Hf. exists 0. split; [apply lookup_replicate; simpl in Hf; split; [done|lia]|]. split; [lia|]. split.
    + simpl. etrans; [apply (subseteq_size _ {[demo_entry]})|by rewrite size_singleton].
      intros a [_ Ha]%elem_of_refs. done.
    + by intros a [_ ->%elem_of_singleton]%elem_of_refs.
  - intros a i ->%elem_of_singleton Hi. unfold page_word. change (page_of (pm demo_cow demo_entry)) with 34.
    unfold demo_cow, upd, demo_entry. cbn [pm]. by rewrite (proj2 (Z.eqb_neq _ _)) by lia.
Qed.

Lemma cow_refines_copying_witness :
  let b := 512 * 33 + 2 in
  ∃ s' U', exec_page_op (Share demo_entry b) demo_cow = Done (0, s') ∧
    private s' U' ({[b]} ∪ {[demo_entry]}) (λ x i, if x =? b then 0 else 0).
Proof.
  apply (cow_refines_copying demo_cow demo_used {[demo_entry]} (λ _ _, 0) (Share demo_entry (512 * 33 + 2)) demo_private).
  split_and!.
  - by apply elem_of_singleton. - by rewrite elem_of_singleton. - by apply (bool_decide_unpack _).
  - by intros x ->%elem_of_singleton. - by vm_compute.
Defined.

(** The page of [demo_cow] hung into a table for user addresses. *)
Definition demo_user : mmu_state :=
  Mmu (demo_alloc []) (upd (upd (upd (upd (λ _, 0) (512 * 5) (6 * 4096 + 7)) (512 * 6) (7 * 4096 + 7)) (512 * 7)
    (33 * 4096 + 7)) demo_entry (34 * 4096 + 7)) 5 NULL 0 0.

Lemma mmu_validate_user_pointer_reads_witness :
  ∃ r, mmu_validate_user_pointer 4 5 0x1800 0x800 0 demo_user = Done (truth r, demo_user) ∧ r = true.
Proof.
  destruct (mmu_validate_user_pointer_reads demo_user 5 0x1800 0x800 0 4) as (r & E & H);
    [|done|done|done|done|done|].
  - intros va. unfold demo_user. cbn [pm]. unfold upd.
    repeat (destruct (_ =? _); [done|]). done.
  - exists r. split; [exact E|]. apply H. split; [done|]. split; [done|]. intros a Ha.
    split; [left; lia|]. assert (Ep : va_path a = va_path 0x1000).
    { unfold va_path, pml4_entry, pdp_entry, pd_entry, pt_entry. assert (page_addr a = page_addr 0x1000) as ->; [|done].
      replace a with (1 * PAGE_SIZE + (a - PAGE_SIZE)) by lia.
      rewrite page_addr_within; [done|]. unfold PAGE_SIZE. lia. }
    unfold user_page. rewrite Ep. exists (34 * 4096 + 7). split; reflexivity.
Defined.

(** At 255 references the copy lands in a frame that is not marked as used. *)
Definition demo_full : mmu_state :=
  Mmu (demo_alloc (<[34%nat := 255]> (replicate 96 0))) (upd (λ _, 0) demo_entry (34 * 4096 + 0x205)) 5 NULL 0 0.

Example copy_page_maybe_at_255 :
  match copy_page_maybe demo_entry (512 * 33 + 2) demo_full with
  | Done (r, s') => r = 0 ∧ page_of (pm s' (512 * 33 + 2)) = 35 ∧ used (alloc s') 35 = false ∧
      bit (pm s' (512 * 33 + 2)) PRESENT = true
  | _ => False
  end.
Proof. by vm_compute. Qed.

(** [mmu_unmap_module] frees the frames and keeps the entries: the next module at the same
    addresses runs in a frame that is free for others. *)
Example mmu_map_module_reuses_freed :
  match (base ← mmu_map_module 0x1000;
         mmu_unmap_module base 0x1000;;
         again ← mmu_map_module 0x1000;
         a ← mmu_map_to_physical 5 again;
         mret (base, again, a)) demo_space with
  | Done ((base, again, a), s') => base = again ∧ a = 0x26000 ∧ used (alloc s') 0x26 = false
  | _ => False
  end.
Proof. by vm_compute. Qed.

(** The address [maybe_release_directory] and [mmu_unmap_module] make of a frame number is
    that of the frame only below 2 GiB: a frame from 4 GiB on frees another one. *)
Example narrow_address_wraps f : 0 ≤ f < 2 ^ 19 →
  narrow_address f = f * PAGE_SIZE ∧ narrow_address (2 ^ 20 + f) = f * PAGE_SIZE.
Proof.
  intros Hf. unfold narrow_address, PAGE_SHIFT, PAGE_SIZE, i32. rewrite !Z.shiftl_mul_pow2 by lia.
  assert (E : (2 ^ 20 + f) * 2 ^ 12 + 2 ^ 31 = f * 2 ^ 12 + 2 ^ 31 + 1 * 2 ^ 32) by lia.
  rewrite E, Z.mod_add, Z.mod_small by lia. rewrite u64_small; lia.
Qed.
