(* ===== verification/TmpfsFrames.v ===== *)
(** * The frame allocator under tmpfs

    TmpfsFile is proved against [FrameAlloc], what a file needs of the physical
    allocator.  Here the allocator of Frames discharges it: [memory_frames] answers for
    a set of frames in use as the search of [mmu_first_frame] does, and
    [memory_frames_refines] is the step of [mmu_allocate_a_frame] that gives the answer.
    Frame 0 is in use from the start ([mmu_init] marks the first megabyte). *)
From S2P Require Import Prelude Frames TmpfsFile.
Local Open Scope Z_scope.

(** A set of fewer than [n] frames leaves a gap below [n]. *)
Lemma first_gap_exists U n : 0 ≤ n → Z.of_nat (size U) < n → ∃ f, first_gap U n = Some f.
Proof.
  intros Hn Hs. pose proof (find_seqZ (λ f, f ∉ U) n) as H. fold (first_gap U n) in H.
  destruct (first_gap U n) as [f|]; [by exists f|]. exfalso.
  assert (Hsub : (list_to_set (seqZ 0 n) : gset Z) ⊆ U).
  { intros f Hf%elem_of_list_to_set%elem_of_seqZ. destruct (decide (f ∈ U)) as [|Hno]; [done|].
    destruct (H f); [lia|done]. }
  apply subseteq_size in Hsub. rewrite size_list_to_set, length_seqZ in Hsub by apply NoDup_seqZ. lia.
Qed.

Lemma first_gap_spec U n f : first_gap U n = Some f → 0 ≤ f < n ∧ f ∉ U.
Proof.
  intros E. pose proof (find_seqZ (λ f, f ∉ U) n) as H. fold (first_gap U n) in H. rewrite E in H.
  by destruct H as (H1 & H2 & _).
Qed.

Section memory_frames.
(** The frames of the whole words of the bitmap: at most 512 GiB. *)
Context (n : Z) (Hn : 0 < n ≤ 2 ^ 27).

#[export] Program Instance memory_frames : FrameAlloc := {|
  capacity := Z.to_nat (n - 1);
  TmpfsFile.mmu_allocate_a_frame := λ X, first_gap ({[0]} ∪ X) n
|}.
Next Obligation.
  intros X HX. apply first_gap_exists; [lia|]. rewrite size_union_alt, size_singleton.
  assert (Hd : (size (X ∖ {[0%Z]}) ≤ size X)%nat) by (apply subseteq_size, subseteq_difference_l; done). lia.
Qed.
Next Obligation.
  intros X f [Hf Hno]%first_gap_spec. rewrite elem_of_union, elem_of_singleton in Hno.
  split; [intros H; by apply Hno; right|]. assert (f ≠ 0) by (intros ->; apply Hno; by left). lia.
Qed.

(** With frame 0 and the files' frames in use, the kernel's allocator gives the frame
    the interface gives. *)
Lemma memory_frames_refines s X f :
  represents s ({[0]} ∪ X) → searched s = n → TmpfsFile.mmu_allocate_a_frame X = Some f →
  ∃ s', Frames.mmu_allocate_a_frame s = Done (f, s') ∧ represents s' ({[0]} ∪ ({[f]} ∪ X)).
Proof.
  intros R Hs E. pose proof (set_op_sound s _ Allocate R I) as H. cbn [set_op exec_frame_op] in H.
  fold (searched s) in H. rewrite Hs in H. cbn in E. rewrite E in H. cbn in H.
  destruct H as (s' & E' & R' & _). exists s'. split; [done|].
  assert ({[0]} ∪ ({[f]} ∪ X) = {[f]} ∪ ({[0]} ∪ X)) as -> by set_solver. done.
Qed.
End memory_frames.
