(* ===== verification/KMalloc.v ===== *)
(** * The kernel heap ([src/kernel/misc/malloc.c])

    The slab allocator: small requests are cut from one-page bins, a list of bins for
    each of nine sizes, the free cells of a bin linked through their first words; large
    requests get runs of pages, the free ones in a skip list ordered by size.  All of it
    lives in the memory it manages, modelled as a function from the addresses of 8-byte
    words to their values (the allocator reads and writes aligned words only); an access
    to the first page or a failed assertion is a [Fault].  [mem_lock] is held by the
    operation that runs, so taking it twice hangs ([Timeout] with any fuel).  [sbrk] is
    that of [mmu.c], which Mmu models with the page tables: it moves the break and never takes
    pages back; running out of physical memory is a fault of Mmu's and not seen here.

    KMallocList has the lemmas on its lists, KMallocHeap its invariant and theorems. *)
From S2P Require Import Prelude.
Local Open Scope Z_scope.

Definition NUM_BINS : Z := 10.
Definition SMALLEST_BIN_LOG : Z := 3.
Definition BIG_BIN : Z := NUM_BINS - 1.
Definition PAGE_SIZE : Z := 0x1000.
Definition PAGE_MASK : Z := PAGE_SIZE - 1.
Definition SKIP_P : Z := 2 ^ 31 - 1.
Definition SKIP_MAX_LEVEL : Z := 6.
Definition BIN_MAGIC : Z := 0xDEFAD00D.

(** ** Data

    [klmalloc_bin_header] and [klmalloc_big_bin_header]: their sizes and the offsets of
    their fields. *)

Definition bin_header : Z := 32.
Definition big_bin_header : Z := 96.
Definition NEXT : Z := 0.
Definition HEAD : Z := 8.
Definition SIZE : Z := 16.
Definition MAGIC : Z := 24.
Definition PREV : Z := 32.
Definition FORWARD (i : Z) : Z := 40 + 8 * i.

Record heap : Type := Heap {
  (** the word at an address *)
  words : Z → Z;
  (** [klmalloc_bin_head[i].first] *)
  bin_heads : list Z;
  (** the address of [klmalloc_big_bins.head], and [klmalloc_big_bins.level] *)
  big_bins : Z;
  level : Z;
  newest_big : Z;
  (** the four words of the random generator *)
  rng : Z * Z * Z * Z;
  brk : Z;
  mem_lock : bool
}.

Definition with_words (h : heap) (m : Z → Z) : heap :=
  Heap m (bin_heads h) (big_bins h) (level h) (newest_big h) (rng h) (brk h) (mem_lock h).
Definition with_bin_heads (h : heap) (l : list Z) : heap :=
  Heap (words h) l (big_bins h) (level h) (newest_big h) (rng h) (brk h) (mem_lock h).
Definition with_level (h : heap) (l : Z) : heap :=
  Heap (words h) (bin_heads h) (big_bins h) l (newest_big h) (rng h) (brk h) (mem_lock h).
Definition with_newest (h : heap) (a : Z) : heap :=
  Heap (words h) (bin_heads h) (big_bins h) (level h) a (rng h) (brk h) (mem_lock h).
Definition with_rng (h : heap) (r : Z * Z * Z * Z) : heap :=
  Heap (words h) (bin_heads h) (big_bins h) (level h) (newest_big h) r (brk h) (mem_lock h).
Definition with_brk (h : heap) (b : Z) : heap :=
  Heap (words h) (bin_heads h) (big_bins h) (level h) (newest_big h) (rng h) b (mem_lock h).
Definition with_lock (h : heap) (b : bool) : heap :=
  Heap (words h) (bin_heads h) (big_bins h) (level h) (newest_big h) (rng h) (brk h) b.

Definition upd (m : Z → Z) (a v : Z) : Z → Z := λ x, if x =? a then v else m x.

Definition rd (a : Z) : St heap Z := λ h, if a <? PAGE_SIZE then Fault else Done (words h a, h).
Definition wr (a v : Z) : St heap unit := λ h,
  if a <? PAGE_SIZE then Fault else Done (tt, with_words h (upd (words h) a v)).
Definition hang {A} : St heap A := λ _, Timeout.
Definition assert_ (b : bool) : St heap unit := if b then mret tt else fault.

(** [sbrk] of a number of bytes ([src/kernel/arch/x86_64/mmu.c]). *)
Definition sbrk (bytes : Z) : St heap Z := λ h,
  if negb (bytes mod PAGE_SIZE =? 0) then Fault
  else if 0x1F00000 <? bytes then Fault
  else Done (brk h, with_brk h (u64 (brk h + bytes))).

Definition spin_lock : St heap unit := λ h, if mem_lock h then Timeout else Done (tt, with_lock h true).
Definition spin_unlock : St heap unit := modify (λ h, with_lock h false).

(** ** Bins *)

Definition klmalloc_adjust_bin (bin : Z) : Z :=
  if bin <=? SMALLEST_BIN_LOG then 0
  else
    let bin := bin - (SMALLEST_BIN_LOG + 1) in
    if BIG_BIN <? bin then BIG_BIN else bin.

(** [64 - __builtin_clzl(size)] is one more than the logarithm of the size. *)
Definition klmalloc_bin_size (size : Z) : Z :=
  klmalloc_adjust_bin (Z.log2 size + 1 + truth (negb (Z.land size (size - 1) =? 0))).

Definition bin_first (b : Z) : St heap Z := λ h,
  match bin_heads h !! Z.to_nat b with Some p => Done (p, h) | None => Fault end.
Definition set_bin_first (b p : Z) : St heap unit := modify (λ h, with_bin_heads h (<[Z.to_nat b := p]> (bin_heads h))).

Definition klmalloc_list_decouple (b node : Z) : St heap unit :=
  next ← rd (node + NEXT);
  set_bin_first b next;;
  wr (node + NEXT) NULL.

Definition klmalloc_list_insert (b node : Z) : St heap unit :=
  f ← bin_first b;
  wr (node + NEXT) f;;
  set_bin_first b node.

Definition klmalloc_list_head (b : Z) : St heap Z := bin_first b.

(** ** The skip list of free large blocks *)

Definition klmalloc_skip_rand : St heap Z := λ h,
  let '(x, y, z, w) := rng h in
  let t := Z.lxor x (u32 (Z.shiftl x 11)) in
  let w' := Z.lxor (Z.lxor (Z.lxor w (Z.shiftr w 19)) t) (Z.shiftr t 8) in
  Done (w', with_rng h (y, z, w, w')).

Fixpoint random_level_from (fuel : nat) (lv : Z) : St heap Z :=
  match fuel with
  | O => hang
  | S f =>
      r ← klmalloc_skip_rand;
      if (r <? SKIP_P) && (lv <? SKIP_MAX_LEVEL) then random_level_from f (lv + 1) else mret lv
  end.
Definition klmalloc_random_level : St heap Z := random_level_from 7 0.

Definition whole_pages (size : Z) : bool := (size + big_bin_header) mod PAGE_SIZE =? 0.

(** [while (node->forward[i] && node->forward[i]->size < size) node = node->forward[i];] *)
Fixpoint skip_walk (fuel : nat) (i size node : Z) : St heap Z :=
  match fuel with
  | O => hang
  | S f =>
      n ← rd (node + FORWARD i);
      if n =? NULL then mret node
      else
        sz ← rd (n + SIZE);
        if sz <? size then
          assert_ (whole_pages sz);;
          skip_walk f i size n
        else mret node
  end.

(** The loop over the levels [k - 1] to 0; [update] is the array it fills. *)
Fixpoint skip_down (fuel k : nat) (size node : Z) (update : list Z) : St heap (Z * list Z) :=
  match k with
  | O => mret (node, update)
  | S k =>
      node ← skip_walk fuel (Z.of_nat k) size node;
      skip_down fuel k size node (<[k := node]> update)
  end.

Definition levels : St heap nat := gets (λ h, Z.to_nat (level h + 1)).
Definition no_update : list Z := replicate 7 NULL.

Definition klmalloc_skip_list_findbest (fuel : nat) (search_size : Z) : St heap Z :=
  start ← gets big_bins;
  k ← levels;
  '(node, _) ← skip_down fuel k search_size start no_update;
  node ← rd (node + FORWARD 0);
  (if negb (node =? NULL) then
     assert_ (node mod PAGE_SIZE =? 0);;
     sz ← rd (node + SIZE);
     assert_ (whole_pages sz)
   else mret tt);;
  mret node.

(** The assertions on the head of a block. *)
Definition check_head (value : Z) : St heap unit :=
  assert_ (negb (value =? NULL));;
  hd ← rd (value + HEAD);
  assert_ (negb (hd =? NULL));;
  assert_ (value <? hd);;
  sz ← rd (value + SIZE);
  assert_ (if NUM_BINS <? sz then hd <? u64 (value + sz) else hd <? u64 (value + PAGE_SIZE)).

(** [for (i = 0; i <= lv; ++i)]: the new node behind the one in [update]. *)
Fixpoint link_levels (n : nat) (i value : Z) (update : list Z) : St heap unit :=
  match n with
  | O => mret tt
  | S n =>
      let u := update !!! Z.to_nat i in
      next ← rd (u + FORWARD i);
      wr (value + FORWARD i) next;;
      (if negb (next =? NULL) then sz ← rd (next + SIZE); assert_ (whole_pages sz) else mret tt);;
      wr (u + FORWARD i) value;;
      link_levels n (i + 1) value update
  end.

(** [for (i = klmalloc_big_bins.level + 1; i <= lv; ++i) update[i] = &klmalloc_big_bins.head;] *)
Fixpoint head_levels (n : nat) (i head : Z) (update : list Z) : list Z :=
  match n with
  | O => update
  | S n => head_levels n (i + 1) head (<[Z.to_nat i := head]> update)
  end.

Definition klmalloc_skip_list_insert (fuel : nat) (value : Z) : St heap unit :=
  check_head value;;
  assert_ (value mod PAGE_SIZE =? 0);;
  sz ← rd (value + SIZE);
  assert_ (whole_pages sz);;
  assert_ (negb (sz =? 0));;
  start ← gets big_bins;
  k ← levels;
  '(node, update) ← skip_down fuel k sz start no_update;
  node ← rd (node + FORWARD 0);
  if negb (node =? value) then
    lv ← klmalloc_random_level;
    old ← gets level;
    update ← (if old <? lv then
                modify (λ h, with_level h lv);;
                mret (head_levels (Z.to_nat (lv - old)) (old + 1) start update)
              else mret update);
    link_levels (Z.to_nat (lv + 1)) 0 value update
  else mret tt.

Fixpoint unlink_levels (n : nat) (i node : Z) (update : list Z) : St heap unit :=
  match n with
  | O => mret tt
  | S n =>
      let u := update !!! Z.to_nat i in
      f ← rd (u + FORWARD i);
      if negb (f =? node) then mret tt
      else
        next ← rd (node + FORWARD i);
        wr (u + FORWARD i) next;;
        (if negb (next =? NULL) then
           assert_ (next mod PAGE_SIZE =? 0);;
           sz ← rd (next + SIZE);
           assert_ (whole_pages sz)
         else mret tt);;
        unlink_levels n (i + 1) node update
  end.

(** [while (klmalloc_big_bins.level > 0 && head.forward[level] == NULL) --level;] *)
Fixpoint lower_level (n : nat) : St heap unit :=
  lv ← gets level;
  head ← gets big_bins;
  if lv <=? 0 then mret tt
  else
    f ← rd (head + FORWARD lv);
    if negb (f =? NULL) then mret tt
    else
      match n with
      | O => hang
      | S n => modify (λ h, with_level h (lv - 1));; lower_level n
      end.

(** [while (node != value) node = node->forward[0];]: the tests for [node != value] behind
    the loop are never taken. *)
Fixpoint seek (fuel : nat) (node value : Z) : St heap unit :=
  if node =? value then mret tt
  else match fuel with
       | O => hang
       | S f => n ← rd (node + FORWARD 0); seek f n value
       end.

Definition klmalloc_skip_list_delete (fuel : nat) (value : Z) : St heap unit :=
  check_head value;;
  sz ← rd (value + SIZE);
  start ← gets big_bins;
  k ← levels;
  '(node, update) ← skip_down fuel k sz start no_update;
  node ← rd (node + FORWARD 0);
  seek fuel node value;;
  unlink_levels k 0 value update;;
  lower_level 7.

(** ** The stack of free cells *)

Definition klmalloc_stack_pop (header : Z) : St heap Z :=
  check_head header;;
  hd ← rd (header + HEAD);
  sz ← rd (header + SIZE);
  assert_ ((NUM_BINS <? sz) || (u64 (header + bin_header - 1) <? hd));;
  next ← rd hd;
  wr (header + HEAD) next;;
  mret hd.

Definition klmalloc_stack_push (header ptr : Z) : St heap unit :=
  assert_ (negb (ptr =? NULL));;
  assert_ (header <? ptr);;
  sz ← rd (header + SIZE);
  assert_ (if NUM_BINS <? sz then ptr <? u64 (header + sz)
           else (Z.land (u64 (ptr - bin_header)) (Z.shiftl 1 (sz + SMALLEST_BIN_LOG) - 1) =? 0) &&
                (ptr <? u64 (header + PAGE_SIZE)));;
  hd ← rd (header + HEAD);
  wr ptr hd;;
  wr (header + HEAD) ptr.

Definition klmalloc_stack_empty (header : Z) : St heap bool :=
  hd ← rd (header + HEAD); mret (hd =? NULL).

(** ** Allocation *)

(** [for (i = 0; i < available; ++i) base[i << b] = &base[(i + 1) << b];] *)
Fixpoint fill_stack (n : nat) (i base b : Z) : St heap unit :=
  match n with
  | O => mret tt
  | S n => wr (base + 8 * Z.shiftl i b) (base + 8 * Z.shiftl (i + 1) b);; fill_stack n (i + 1) base b
  end.

(** A new bin of one page. *)
Definition new_bin (b : Z) : St heap Z :=
  a ← sbrk PAGE_SIZE;
  wr (a + MAGIC) BIN_MAGIC;;
  assert_ (a mod PAGE_SIZE =? 0);;
  wr (a + HEAD) (a + bin_header);;
  klmalloc_list_insert b a;;
  let adj := SMALLEST_BIN_LOG + b in
  let available := Z.shiftr (PAGE_SIZE - bin_header) adj - 1 in
  base ← rd (a + HEAD);
  fill_stack (Z.to_nat available) 0 base b;;
  wr (base + 8 * Z.shiftl available b) NULL;;
  wr (a + SIZE) b;;
  mret a.

Definition klmalloc (fuel : nat) (size : Z) : St heap Z :=
  if size =? 0 then mret NULL
  else
    let bucket_id := klmalloc_bin_size size in
    if bucket_id <? BIG_BIN then
      a ← klmalloc_list_head bucket_id;
      a ← (if a =? NULL then new_bin bucket_id
           else magic ← rd (a + MAGIC); assert_ (magic =? BIN_MAGIC);; mret a);
      item ← klmalloc_stack_pop a;
      e ← klmalloc_stack_empty a;
      (if e : bool then klmalloc_list_decouple bucket_id a else mret tt);;
      mret item
    else
      a ← klmalloc_skip_list_findbest fuel size;
      if negb (a =? NULL) then
        sz ← rd (a + SIZE);
        assert_ (size <=? sz);;
        klmalloc_skip_list_delete fuel a;;
        klmalloc_stack_pop a
      else
        let pages := u64 (size + big_bin_header) / PAGE_SIZE + 1 in
        a ← sbrk (u64 (PAGE_SIZE * pages));
        wr (a + MAGIC) BIN_MAGIC;;
        assert_ (a mod PAGE_SIZE =? 0);;
        wr (a + SIZE) (u64 (pages * PAGE_SIZE - big_bin_header));;
        sz ← rd (a + SIZE);
        assert_ (whole_pages sz);;
        prev ← gets newest_big;
        wr (a + PREV) prev;;
        (if negb (prev =? NULL) then wr (prev + NEXT) a else mret tt);;
        modify (λ h, with_newest h a);;
        wr (a + NEXT) NULL;;
        wr (a + HEAD) NULL;;
        mret (a + big_bin_header).

Definition klfree (fuel : nat) (ptr : Z) : St heap unit :=
  if ptr =? NULL then mret tt
  else
    let ptr := if ptr mod PAGE_SIZE =? 0 then ptr - 1 else ptr in
    let header := ptr - ptr mod PAGE_SIZE in
    magic ← rd (header + MAGIC);
    if negb (magic =? BIN_MAGIC) then mret tt
    else
      bucket_id ← rd (header + SIZE);
      if NUM_BINS <? bucket_id then
        hd ← rd (header + HEAD);
        assert_ (hd =? NULL);;
        assert_ (whole_pages bucket_id);;
        klmalloc_stack_push header (header + big_bin_header);;
        hd ← rd (header + HEAD);
        assert_ (negb (hd =? NULL));;
        klmalloc_skip_list_insert fuel header
      else
        e ← klmalloc_stack_empty header;
        (if e : bool then klmalloc_list_insert bucket_id header else mret tt);;
        klmalloc_stack_push header ptr.

Definition klvalloc (fuel : nat) (size : Z) : St heap Z :=
  let true_size := u64 (size + PAGE_SIZE - big_bin_header) in
  result ← klmalloc fuel true_size;
  let out := u64 (result + (PAGE_SIZE - big_bin_header)) in
  assert_ (out mod PAGE_SIZE =? 0);;
  mret out.

(** [memcpy] of whole words, and [memset] with zero, which may end inside a word. *)
Definition copy_words (d s n : Z) : St heap unit := modify (λ h,
  with_words h (λ x, if (d <=? x) && (x <? d + n) then words h (s + (x - d)) else words h x)).
Definition zero_words (d n : Z) : St heap unit := modify (λ h,
  with_words h (λ x,
    if (d <=? x) && (x <? d + n) then
      if x + 8 <=? d + n then 0
      else let k := 8 * (d + n - x) in Z.shiftl (Z.shiftr (words h x) k) k
    else words h x)).

(** [free] locks, checks the pointer and frees. *)
Definition free (fuel : nat) (ptr : Z) : St heap unit :=
  spin_lock;;
  if ptr <? 0xffffff0000000000 then hang (* while (1) {} *)
  else klfree fuel ptr;; spin_unlock.

Definition klrealloc (fuel : nat) (ptr size : Z) : St heap Z :=
  if ptr =? NULL then klmalloc fuel size
  else if size =? 0 then free fuel ptr;; mret NULL
  else
    let header_old := ptr - ptr mod PAGE_SIZE in
    magic ← rd (header_old + MAGIC);
    if negb (magic =? BIN_MAGIC) then fault
    else
      old_size ← rd (header_old + SIZE);
      let old_size := if old_size <? BIG_BIN then Z.shiftl 1 (SMALLEST_BIN_LOG + old_size) else old_size in
      if size <=? old_size then mret ptr
      else
        newptr ← klmalloc fuel size;
        if negb (newptr =? NULL) then
          copy_words newptr ptr old_size;;
          klfree fuel ptr;;
          mret newptr
        else mret NULL.

Definition klcalloc (fuel : nat) (nmemb size : Z) : St heap Z :=
  ptr ← klmalloc fuel (u64 (nmemb * size));
  (if negb (ptr =? NULL) then zero_words ptr (u64 (nmemb * size)) else mret tt);;
  mret ptr.

Definition malloc (fuel : nat) (size : Z) : St heap Z :=
  spin_lock;; out ← klmalloc fuel size; spin_unlock;; mret out.
Definition realloc (fuel : nat) (ptr size : Z) : St heap Z :=
  spin_lock;; out ← klrealloc fuel ptr size; spin_unlock;; mret out.
Definition calloc (fuel : nat) (nmemb size : Z) : St heap Z :=
  spin_lock;; out ← klcalloc fuel nmemb size; spin_unlock;; mret out.
Definition valloc (fuel : nat) (size : Z) : St heap Z :=
  spin_lock;; out ← klvalloc fuel size; spin_unlock;; mret out.
