(* ===== verification/KMallocList.v ===== *)
(** * The heap's lists

    What the code of KMalloc does to its linked structures: chains of pointers in the
    memory, and the skip list of free large blocks.  [skip_ok m H lv X] says that the
    memory [m] holds at the head [H] a skip list of [lv + 1] levels whose nodes are [X],
    in the order of their sizes; [findbest_run], [insert_run] and [delete_run] are what
    the three operations do to it. *)
From S2P Require Import Prelude KMalloc.
Local Open Scope Z_scope.

(** ** Chains

    [chain m off h xs]: from the node [h] the pointers at offset [off] lead through the
    nodes [xs] to a null pointer. *)

Fixpoint seg (m : Z → Z) (off h : Z) (xs : list Z) : Prop :=
  match xs with
  | [] => True
  | x :: xs => m (h + off) = x ∧ x ≠ NULL ∧ seg m off x xs
  end.
Fixpoint chain (m : Z → Z) (off h : Z) (xs : list Z) : Prop :=
  match xs with
  | [] => m (h + off) = NULL
  | x :: xs => m (h + off) = x ∧ x ≠ NULL ∧ chain m off x xs
  end.

Definition last_or (h : Z) (xs : list Z) : Z := default h (last xs).

Lemma last_or_cons h x xs : last_or h (x :: xs) = last_or x xs.
Proof. unfold last_or. rewrite last_cons. by destruct (last xs). Qed.

Lemma last_or_snoc h xs x : last_or h (xs ++ [x]) = x.
Proof. unfold last_or. by rewrite last_snoc. Qed.

Lemma last_or_in h xs : last_or h xs = h ∨ last_or h xs ∈ xs.
Proof.
  destruct (last xs) as [x|] eqn:E; unfold last_or; rewrite E; [right|by left].
  apply last_Some in E as [l ->]. apply elem_of_app. right. by left.
Qed.

Lemma chain_app m off xs ys : ∀ h, chain m off h (xs ++ ys) ↔ seg m off h xs ∧ chain m off (last_or h xs) ys.
Proof.
  induction xs as [|x xs IH]; intros h; simpl; [unfold last_or; simpl; tauto|].
  rewrite IH, last_or_cons. tauto.
Qed.

Lemma chain_next m off h xs : chain m off h xs → m (h + off) = hd NULL xs.
Proof. destruct xs; simpl; tauto. Qed.

Lemma chain_after m off h xs ys : chain m off h (xs ++ ys) → m (last_or h xs + off) = hd NULL ys.
Proof. intros [_ H]%chain_app. by apply chain_next. Qed.

Lemma chain_frame m m' off xs : ∀ h, (∀ x, x ∈ h :: xs → m' (x + off) = m (x + off)) →
  chain m off h xs → chain m' off h xs.
Proof.
  induction xs as [|x xs IH]; intros h H; simpl; rewrite (H h) by (by left); [done|].
  intros (E & Hx & C). split_and!; [done|done|]. apply IH; [|done]. intros y Hy. apply H. by right.
Qed.

Lemma seg_frame m m' off xs : ∀ h, (∀ x, x ∈ h :: xs → x ≠ last_or h xs → m' (x + off) = m (x + off)) →
  NoDup (h :: xs) → seg m off h xs → seg m' off h xs.
Proof.
  induction xs as [|x xs IH]; intros h H N; simpl; [done|]. intros (E & Hx & C).
  apply NoDup_cons in N as [Hh N]. rewrite last_or_cons in H.
  assert (Hlast : h ≠ last_or x xs).
  { intros ->. apply Hh. destruct (last_or_in x xs) as [->|?]; [by left|by right]. }
  split_and!; [rewrite H by (done || by left); done|done|]. apply IH; [|done|done].
  intros y Hy Hne. apply H; [by right|done].
Qed.

Lemma seg_nonnull m off xs : ∀ h x, seg m off h xs → x ∈ xs → x ≠ NULL.
Proof.
  induction xs as [|y xs IH]; intros h x; simpl; [by intros _ ?%elem_of_nil|].
  intros (_ & Hy & C) [->|Hx]%elem_of_cons; [done|by apply (IH y)].
Qed.

Lemma chain_nonnull m off xs : ∀ h x, chain m off h xs → x ∈ xs → x ≠ NULL.
Proof.
  induction xs as [|y xs IH]; intros h x; simpl; [by intros _ ?%elem_of_nil|].
  intros (_ & Hy & C) [->|Hx]%elem_of_cons; [done|by apply (IH y)].
Qed.

(** A node goes in behind the last of [xs]. *)
Lemma chain_insert m m' off h xs ys v :
  NoDup (h :: xs ++ ys) → v ∉ h :: xs ++ ys → v ≠ NULL → chain m off h (xs ++ ys) →
  m' (last_or h xs + off) = v → m' (v + off) = m (last_or h xs + off) →
  (∀ x, x ∈ h :: xs ++ ys → x ≠ last_or h xs → m' (x + off) = m (x + off)) →
  chain m' off h (xs ++ v :: ys).
Proof.
  intros N Hv Hv0 C E1 E2 H. apply chain_app in C as [S C]. apply chain_app. split.
  - apply (seg_frame m); [|rewrite app_comm_cons in N; apply NoDup_app in N as [N _]; exact N|done].
    intros x Hx Hne. apply H; [|done]. rewrite app_comm_cons. apply elem_of_app. by left.
  - simpl. split_and!; [done|done|].
    assert (Hn : ∀ y, y ∈ ys → y ≠ last_or h xs).
    { intros y Hy ->. rewrite app_comm_cons in N. apply NoDup_app in N as (_ & N & _). apply (N (last_or h xs)); [|done].
      destruct (last_or_in h xs) as [->|?]; [by left|by right]. }
    destruct ys as [|y ys]; simpl in *; [by rewrite E2|].
    destruct C as (E & Hy & C). split_and!; [by rewrite E2|done|].
    apply (chain_frame m); [|done]. intros z Hz. apply H; [|by apply Hn].
    apply elem_of_cons. right. apply elem_of_app. by right.
Qed.

(** The node behind the last of [xs] goes. *)
Lemma chain_delete m m' off h xs ys v :
  NoDup (h :: xs ++ v :: ys) → chain m off h (xs ++ v :: ys) →
  m' (last_or h xs + off) = m (v + off) →
  (∀ x, x ∈ h :: xs ++ v :: ys → x ≠ last_or h xs → m' (x + off) = m (x + off)) →
  chain m' off h (xs ++ ys).
Proof.
  intros N C E1 H. apply chain_app in C as [S C]. simpl in C. destruct C as (E & Hv & C).
  assert (Hn : ∀ y, y ∈ v :: ys → y ≠ last_or h xs).
  { intros y Hy ->. rewrite app_comm_cons in N. apply NoDup_app in N as (_ & N & _). apply (N (last_or h xs)); [|done].
    destruct (last_or_in h xs) as [->|?]; [by left|by right]. }
  apply chain_app. split.
  - apply (seg_frame m); [|rewrite app_comm_cons in N; apply NoDup_app in N as [N _]; exact N|done].
    intros x Hx Hne. apply H; [|done]. rewrite app_comm_cons. apply elem_of_app. by left.
  - destruct ys as [|y ys]; simpl in *; [by rewrite E1|]. destruct C as (Ey & Hy & C).
    split_and!; [by rewrite E1|done|]. apply (chain_frame m); [|done].
    intros z Hz. apply H; [|apply Hn; by right]. apply elem_of_cons. right. apply elem_of_app. right. by right.
Qed.

(** ** Runs *)

Lemma rd_run a h : PAGE_SIZE ≤ a → rd a h = Done (words h a, h).
Proof. intros H. unfold rd. by rewrite (proj2 (Z.ltb_ge _ _)) by lia. Qed.

Lemma wr_run a v h : PAGE_SIZE ≤ a → wr a v h = Done (tt, with_words h (upd (words h) a v)).
Proof. intros H. unfold wr. by rewrite (proj2 (Z.ltb_ge _ _)) by lia. Qed.

Lemma assert_run b h : b = true → assert_ b h = Done (tt, h).
Proof. by intros ->. Qed.

(** One read, write or assertion of a run. *)
Ltac offsets := unfold NULL, NEXT, HEAD, SIZE, MAGIC, PREV, FORWARD, bin_header, big_bin_header, SKIP_MAX_LEVEL, PAGE_SIZE in *.
Ltac rd_step := erewrite St_bind_done by (apply rd_run; offsets; lia).
Ltac wr_step := erewrite St_bind_done by (apply wr_run; offsets; lia).
Ltac assert_step H := rewrite (St_bind_done _ _ _ _ _ (assert_run _ _ H)).

Lemma upd_eq m a v : upd m a v a = v.
Proof. unfold upd. by rewrite Z.eqb_refl. Qed.

Lemma upd_ne m a v x : x ≠ a → upd m a v x = m x.
Proof. intros H. unfold upd. by rewrite (proj2 (Z.eqb_neq _ _) H). Qed.

(** ** The skip list *)

(** A free block: its address, size and height in the list. *)
Record snode : Type := SNode { sa : Z; ss : Z; sh : Z }.

Definition at_level (i : Z) (X : list snode) : list snode := filter (λ x, i ≤ sh x) X.
Definition below (s : Z) (X : list snode) : list snode := filter (λ x, ss x < s) X.
Definition above (s : Z) (X : list snode) : list snode := filter (λ x, ¬ ss x < s) X.

Definition by_size (x y : snode) : Prop := ss x ≤ ss y.

Record skip_ok (m : Z → Z) (H lv : Z) (X : list snode) : Prop := {
  sk_sorted : StronglySorted by_size X;
  sk_nodup : NoDup (sa <$> X);
  sk_level : 0 ≤ lv ≤ SKIP_MAX_LEVEL;
  sk_heights : ∀ x, x ∈ X → 0 ≤ sh x ≤ lv;
  sk_head : PAGE_SIZE ≤ H;
  sk_addr : ∀ x, x ∈ X → sa x mod PAGE_SIZE = 0 ∧ H + big_bin_header ≤ sa x;
  sk_size : ∀ x, x ∈ X → m (sa x + SIZE) = ss x ∧ whole_pages (ss x) = true;
  sk_chain : ∀ i, 0 ≤ i ≤ SKIP_MAX_LEVEL → chain m (FORWARD i) H (sa <$> at_level i X)
}.

Lemma sorted_filter (P : snode → Prop) `{∀ x, Decision (P x)} X :
  StronglySorted by_size X → StronglySorted by_size (filter P X).
Proof.
  induction 1 as [|x X HX IH Hx]; [constructor|]. rewrite filter_cons. destruct (decide (P x)); [|done].
  constructor; [done|]. rewrite Forall_forall in Hx |- *. intros y Hy. apply Hx.
  by apply list_elem_of_filter in Hy as [_ ?].
Qed.

Lemma split_size s X : StronglySorted by_size X → X = below s X ++ above s X.
Proof.
  induction 1 as [|x X HX IH Hx]; [done|]. unfold below, above. rewrite !filter_cons.
  destruct (decide (ss x < s)) as [Hlt|Hge].
  - rewrite (decide_False (P := ¬ ss x < s)) by tauto. simpl. f_equal. exact IH.
  - rewrite (decide_True (P := ¬ ss x < s)) by tauto.
    assert (E : ∀ y, y ∈ X → ¬ ss y < s) by (rewrite Forall_forall in Hx; intros y Hy; specialize (Hx y Hy); unfold by_size in Hx; lia).
    assert (E1 : filter (λ y, ss y < s) X = []).
    { clear -E. induction X as [|y X IH]; [done|]. rewrite filter_cons_False by (apply E; by left). apply IH. intros z Hz. apply E. by right. }
    assert (E2 : filter (λ y, ¬ ss y < s) X = X).
    { clear -E. induction X as [|y X IH]; [done|]. rewrite filter_cons_True by (apply E; by left). f_equal. apply IH. intros z Hz. apply E. by right. }
    by rewrite E1, E2.
Qed.

Lemma below_app s X Y : below s (X ++ Y) = below s X ++ below s Y.
Proof. apply filter_app. Qed.

Lemma below_all s X : Forall (λ x, ss x < s) X → below s X = X.
Proof. induction 1; [done|]. unfold below. rewrite filter_cons_True by done. by f_equal. Qed.

Lemma below_none s X : Forall (λ x, ¬ ss x < s) X → below s X = [].
Proof. induction 1; [done|]. unfold below. by rewrite filter_cons_False. Qed.

Section skip.
Context (m : Z → Z) (H lv : Z) (X : list snode) (OK : skip_ok m H lv X).

Definition prev (s i : Z) : Z := last_or H (sa <$> below s (at_level i X)).

Lemma level_sorted i : StronglySorted by_size (at_level i X).
Proof using OK. apply sorted_filter, OK. Qed.

Lemma level_in i x : x ∈ at_level i X ↔ i ≤ sh x ∧ x ∈ X.
Proof. unfold at_level. by rewrite list_elem_of_filter. Qed.

Lemma level_0 : at_level 0 X = X.
Proof using OK.
  pose proof (sk_heights _ _ _ _ OK) as Hh. clear OK. induction X as [|x Y IH]; [done|].
  unfold at_level. rewrite filter_cons_True by (apply Hh; by left). f_equal. apply IH. intros y Hy. apply Hh. by right.
Qed.

Lemma level_above i : lv < i → at_level i X = [].
Proof using OK.
  intros Hi. pose proof (sk_heights _ _ _ _ OK) as Hh. clear OK. induction X as [|x Y IH]; [done|].
  unfold at_level. rewrite filter_cons_False by (specialize (Hh x ltac:(by left)); lia). apply IH. intros y Hy. apply Hh. by right.
Qed.

Lemma level_nodup i : NoDup (H :: (sa <$> at_level i X)).
Proof using OK.
  constructor.
  - intros ([x s] & E & Hx)%list_elem_of_fmap. apply level_in in Hx as [_ Hx]. destruct (sk_addr _ _ _ _ OK _ Hx) as [_ Ha].
    unfold big_bin_header in Ha. simpl in *. lia.
  - apply (sublist_NoDup _ (sa <$> X)); [apply OK|]. unfold at_level. apply fmap_sublist, sublist_filter.
Qed.

Lemma node_page x : x ∈ X → PAGE_SIZE ≤ sa x.
Proof using OK.
  intros Hx. destruct (sk_addr _ _ _ _ OK x Hx). pose proof (sk_head _ _ _ _ OK). unfold big_bin_header in *. lia.
Qed.

Lemma level_page i p : p = H ∨ p ∈ sa <$> at_level i X → PAGE_SIZE ≤ p.
Proof using OK.
  intros [->|(x & -> & Hx)%list_elem_of_fmap]; [apply OK|]. apply level_in in Hx as [_ Hx]. by apply node_page.
Qed.

(** Walking along one level. *)
Lemma skip_walk_run h i s : words h = m → 0 ≤ i ≤ SKIP_MAX_LEVEL → ∀ suf pre fuel,
  at_level i X = pre ++ suf → Forall (λ x, ss x < s) pre → (length suf < fuel)%nat →
  skip_walk fuel i s (last_or H (sa <$> pre)) h = Done (prev s i, h).
Proof using OK.
  intros Hm Hi suf. induction suf as [|x suf IH]; intros pre fuel E Hpre Hf; (destruct fuel as [|fuel]; [simpl in Hf; lia|]).
  - cbn [skip_walk]. pose proof (sk_chain _ _ _ _ OK i Hi) as C. rewrite E, fmap_app in C. apply chain_after in C.
    assert (Hp : PAGE_SIZE ≤ last_or H (sa <$> pre)).
    { apply (level_page i). rewrite E, app_nil_r. apply last_or_in. }
    rd_step. rewrite Hm, C. simpl.
    unfold prev. rewrite E, app_nil_r, below_all by done. done.
  - cbn [skip_walk]. pose proof (sk_chain _ _ _ _ OK i Hi) as C. rewrite E, fmap_app in C. pose proof C as C0. apply chain_after in C.
    assert (Hin : x ∈ X) by (apply (level_in i); rewrite E; apply elem_of_app; right; by left).
    assert (Hp : PAGE_SIZE ≤ last_or H (sa <$> pre)).
    { apply (level_page i). destruct (last_or_in H (sa <$> pre)) as [->|Hl]; [by left|right].
      rewrite E, fmap_app. apply elem_of_app. by left. }
    rd_step. rewrite Hm, C. cbn [fmap list_fmap hd].
    pose proof (node_page x Hin) as Hxp. rewrite (proj2 (Z.eqb_neq (sa x) NULL)) by (unfold NULL, PAGE_SIZE in *; lia).
    rd_step. rewrite Hm.
    destruct (sk_size _ _ _ _ OK x Hin) as [Hs Hw]. rewrite Hs.
    destruct (Z.ltb_spec (ss x) s) as [Hlt|Hge].
    + assert_step Hw.
      specialize (IH (pre ++ [x]) fuel). rewrite fmap_app in IH. cbn [fmap list_fmap] in IH. rewrite last_or_snoc in IH.
      apply IH; [by rewrite E, <-app_assoc| |simpl in Hf; lia]. apply Forall_app. split; [done|]. by apply Forall_singleton.
    + unfold prev. rewrite E, below_app, below_all by done. rewrite (below_none s (x :: suf)); [by rewrite app_nil_r|].
      pose proof (level_sorted i) as S. rewrite E in S. apply Forall_cons. split; [lia|].
      apply StronglySorted_app_1_r in S. inversion S as [|? ? _ Hx]; subst. rewrite Forall_forall in Hx |- *.
      intros y Hy. specialize (Hx y Hy). unfold by_size in Hx. lia.
Qed.

(** The node a level is entered at is one of its nodes, and not beyond the size. *)
Lemma enter_level s i : ∃ pre suf, at_level i X = pre ++ suf ∧ Forall (λ x, ss x < s) pre ∧
  last_or H (sa <$> pre) = prev s (i + 1).
Proof using OK.
  unfold prev. destruct (decide (below s (at_level (i + 1) X) = [])) as [E0|Hne].
  { exists [], (at_level i X). by rewrite E0. }
  destruct (exists_last Hne) as (l0 & y0 & E0). rewrite E0, fmap_app. cbn [fmap list_fmap]. rewrite last_or_snoc.
  assert (Hy : y0 ∈ below s (at_level (i + 1) X)) by (rewrite E0; apply elem_of_app; right; by left).
  unfold below in Hy. apply list_elem_of_filter in Hy as [Hlt Hy]. apply level_in in Hy as [Hh Hy].
  assert (Hyi : y0 ∈ at_level i X) by (apply level_in; split; [lia|done]).
  apply list_elem_of_split in Hyi as (l1 & l2 & E). exists (l1 ++ [y0]), l2. split_and!.
  - by rewrite E, <-app_assoc.
  - apply Forall_app. split; [|by apply Forall_singleton]. pose proof (level_sorted i) as S. rewrite E in S.
    rewrite Forall_forall. intros x Hx. assert (by_size x y0) as Hle.
    { apply (StronglySorted_app_1_elem_of by_size l1 (y0 :: l2)); [done|done|by left]. }
    unfold by_size in Hle. lia.
  - rewrite fmap_app. cbn [fmap list_fmap]. by rewrite last_or_snoc.
Qed.

Lemma skip_down_run h s fuel : words h = m → (length X < fuel)%nat → ∀ k update,
  Z.of_nat k ≤ lv + 1 → (7 ≤ length update)%nat →
  ∃ update', skip_down fuel k s (prev s (Z.of_nat k)) update h = Done ((prev s 0, update'), h) ∧
    length update' = length update ∧ (∀ j, (j < k)%nat → update' !! j = Some (prev s (Z.of_nat j))) ∧
    (∀ j, (k ≤ j)%nat → update' !! j = update !! j).
Proof using OK.
  intros Hm Hf k. induction k as [|k IH]; intros update Hk Hl.
  { exists update. split_and!; try done. intros j Hj. lia. }
  cbn [skip_down]. pose proof (sk_level _ _ _ _ OK) as Hlv.
  destruct (enter_level s (Z.of_nat k)) as (pre & suf & E & Hpre & Hlast).
  assert (Hlen : (length suf ≤ length X)%nat).
  { assert (Hs : at_level (Z.of_nat k) X `sublist_of` X) by (unfold at_level; apply sublist_filter).
    apply sublist_length in Hs. rewrite E, length_app in Hs. lia. }
  assert (W : skip_walk fuel (Z.of_nat k) s (prev s (Z.of_nat (S k))) h = Done (prev s (Z.of_nat k), h)).
  { replace (Z.of_nat (S k)) with (Z.of_nat k + 1) by lia. rewrite <-Hlast. apply skip_walk_run with (suf := suf); try done; lia. }
  rewrite (St_bind_done _ _ _ _ _ W).
  destruct (IH (<[k := prev s (Z.of_nat k)]> update)) as (u' & E' & Hl' & Hu & Hu'); [lia|by rewrite length_insert|].
  exists u'. rewrite length_insert in Hl'. split_and!; [done|done| |].
  - intros j Hj. destruct (decide (j = k)) as [->|Hne]; [|apply Hu; lia].
    rewrite Hu' by lia. apply list_lookup_insert_eq. unfold SKIP_MAX_LEVEL in Hlv. lia.
  - intros j Hj. rewrite Hu' by lia. apply list_lookup_insert_ne. lia.
Qed.

Lemma prev_top s : prev s (lv + 1) = H.
Proof using OK. unfold prev. by rewrite level_above by lia. Qed.

(** What stands behind the node the search ends at. *)
Lemma prev_next s i : 0 ≤ i ≤ SKIP_MAX_LEVEL →
  PAGE_SIZE ≤ prev s i ∧ m (prev s i + FORWARD i) = hd NULL (sa <$> above s (at_level i X)).
Proof using OK.
  intros Hi. split.
  - apply (level_page i). unfold prev. destruct (last_or_in H (sa <$> below s (at_level i X))) as [->|Hl]; [by left|right].
    apply list_elem_of_fmap in Hl as (x & -> & Hx). apply list_elem_of_fmap. exists x. split; [done|].
    unfold below in Hx. by apply list_elem_of_filter in Hx as [_ ?].
  - pose proof (sk_chain _ _ _ _ OK i Hi) as C. rewrite (split_size s (at_level i X)) in C by apply level_sorted.
    rewrite fmap_app in C. by apply chain_after in C.
Qed.
End skip.

(** ** Putting a block into the skip list *)

Definition isnode (H p : Z) : Prop := p = H ∨ p mod PAGE_SIZE = 0 ∧ H + big_bin_header ≤ p.

Lemma page_apart p q : p mod PAGE_SIZE = 0 → q mod PAGE_SIZE = 0 → Z.abs (p - q) < PAGE_SIZE → p = q.
Proof. unfold PAGE_SIZE. intros Hp Hq. Z.div_mod_to_equations. lia. Qed.

Lemma forward_inj H p q i j : isnode H p → isnode H q → 0 ≤ i ≤ SKIP_MAX_LEVEL → 0 ≤ j ≤ SKIP_MAX_LEVEL →
  p + FORWARD i = q + FORWARD j → p = q ∧ i = j.
Proof.
  intros Hp Hq Hi Hj E. assert (p = q) as ->; [|split; [done|unfold FORWARD in E; lia]].
  destruct Hp as [->|[Hp Hp']], Hq as [->|[Hq Hq']]; [done| | |].
  - offsets. lia. - offsets. lia. - apply page_apart; [done|done|]. offsets. lia.
Qed.

(** The words at the front of a block are no forward pointers. *)
Lemma forward_front H p q j o : isnode H p → q mod PAGE_SIZE = 0 → H + big_bin_header ≤ q → 0 ≤ j ≤ SKIP_MAX_LEVEL →
  0 ≤ o < FORWARD 0 → q + o ≠ p + FORWARD j.
Proof.
  intros [->|[Hp Hp']] Hq Hq' Hj Ho E; [offsets; lia|].
  assert (p = q) as -> by (apply page_apart; [done|done|]; offsets; lia). offsets. lia.
Qed.

(** Memory that differs from [m] in forward pointers of nodes only. *)
Definition links_only (m m' : Z → Z) (H : Z) (nodes : list Z) : Prop :=
  ∀ x, (∀ p j, p = H ∨ p ∈ nodes → 0 ≤ j ≤ SKIP_MAX_LEVEL → x ≠ p + FORWARD j) → m' x = m x.

Lemma random_level_run h : ∀ fuel l, 0 ≤ l ≤ SKIP_MAX_LEVEL → SKIP_MAX_LEVEL < l + Z.of_nat fuel →
  ∃ l' r, random_level_from fuel l h = Done (l', with_rng h r) ∧ 0 ≤ l' ≤ SKIP_MAX_LEVEL.
Proof.
  intros fuel. revert h. induction fuel as [|f IH]; intros h l Hl Hf; [lia|]. cbn [random_level_from].
  unfold klmalloc_skip_rand. destruct (rng h) as [[[x y] z] w] eqn:Er.
  set (t := Z.lxor x (u32 (Z.shiftl x 11))). set (w' := Z.lxor (Z.lxor (Z.lxor w (Z.shiftr w 19)) t) (Z.shiftr t 8)).
  unfold mbind, St_bind. rewrite Er. fold t. fold w'.
  destruct ((w' <? SKIP_P) && (l <? SKIP_MAX_LEVEL)) eqn:E.
  - apply andb_true_iff in E as [_ E%Z.ltb_lt].
    destruct (IH (with_rng h (y, z, w, w')) (l + 1)) as (l' & r & E' & Hl'); [lia|lia|]. by exists l', r.
  - by exists l, (y, z, w, w').
Qed.

Lemma head_levels_lookup H : ∀ n i u j, 0 ≤ i → (Z.to_nat i + n ≤ length u)%nat →
  head_levels n i H u !! j = if decide (Z.to_nat i ≤ j < Z.to_nat i + n)%nat then Some H else u !! j.
Proof.
  intros n. induction n as [|n IH]; intros i u j Hi Hl; cbn [head_levels].
  { by rewrite decide_False by lia. }
  rewrite IH by (try rewrite length_insert; lia). destruct (decide (j = Z.to_nat i)) as [->|Hne].
  - rewrite decide_False, decide_True by lia. apply list_lookup_insert_eq. lia.
  - destruct (decide (Z.to_nat (i + 1) ≤ j < Z.to_nat (i + 1) + n)%nat).
    + by rewrite decide_True by lia.
    + rewrite decide_False by lia. apply list_lookup_insert_ne. lia.
Qed.

Lemma filter_comm (P Q : snode → Prop) `{∀ x, Decision (P x)} `{∀ x, Decision (Q x)} (X : list snode) :
  filter P (filter Q X) = filter Q (filter P X).
Proof.
  induction X as [|x X IH]; [done|]. rewrite !(filter_cons _ x).
  destruct (decide (P x)), (decide (Q x)); rewrite ?filter_cons, ?IH; by rewrite ?decide_True, ?decide_False by done.
Qed.

Section insert.
Context (m : Z → Z) (H lv : Z) (X : list snode) (OK : skip_ok m H lv X).
Context (v : snode) (Hva : sa v mod PAGE_SIZE = 0) (HvH : H + big_bin_header ≤ sa v) (HvX : sa v ∉ sa <$> X).
Context (Hvh : 0 ≤ sh v ≤ SKIP_MAX_LEVEL).
Context (Hvs : m (sa v + SIZE) = ss v) (Hvw : whole_pages (ss v) = true).
Let s := ss v.

Definition inserted : list snode := below s X ++ v :: above s X.

Lemma inserted_in x : x ∈ inserted ↔ x = v ∨ x ∈ X.
Proof using OK.
  clear Hvh Hvw. unfold inserted. rewrite (split_size s X) at 3 by apply OK. rewrite !elem_of_app, elem_of_cons. tauto.
Qed.

Lemma inserted_level i : at_level i inserted =
  below s (at_level i X) ++ (if decide (i ≤ sh v) then [v] else []) ++ above s (at_level i X).
Proof.
  unfold inserted, at_level at 1. rewrite filter_app, filter_cons. fold (at_level i (below s X)).
  unfold below, above, at_level. rewrite !(filter_comm (λ x, i ≤ sh x)).
  by destruct (decide (i ≤ sh v)).
Qed.

Lemma node_is x : x ∈ X → isnode H (sa x).
Proof. intros Hx. right. by apply (sk_addr _ _ _ _ OK). Qed.

Lemma prev_is i : isnode H (prev H X s i).
Proof.
  unfold prev. destruct (last_or_in H (sa <$> below s (at_level i X))) as [->|Hl]; [by left|].
  apply list_elem_of_fmap in Hl as (x & -> & Hx). unfold below in Hx. apply list_elem_of_filter in Hx as [_ Hx].
  apply level_in in Hx as [_ Hx]. by apply node_is.
Qed.

Lemma prev_in i : prev H X s i = H ∨ prev H X s i ∈ sa <$> X.
Proof.
  unfold prev. destruct (last_or_in H (sa <$> below s (at_level i X))) as [->|Hl]; [by left|right].
  apply list_elem_of_fmap in Hl as (x & -> & Hx). unfold below in Hx. apply list_elem_of_filter in Hx as [_ Hx].
  apply level_in in Hx as [_ Hx]. by apply list_elem_of_fmap_2.
Qed.

(** The memory with the levels below [i] linked. *)
Record linked (i : Z) (m' : Z → Z) : Prop := {
  li_chain : ∀ j, 0 ≤ j ≤ SKIP_MAX_LEVEL →
    chain m' (FORWARD j) H (sa <$> if j <? i then at_level j inserted else at_level j X);
  li_frame : links_only m m' H (sa v :: (sa <$> X))
}.

Lemma level_fresh i : sa v ∉ H :: (sa <$> at_level i X).
Proof.
  intros [E|(x & E & Hx)%list_elem_of_fmap]%elem_of_cons; [offsets; lia|].
  apply level_in in Hx as [_ Hx]. apply HvX. rewrite E. by apply list_elem_of_fmap_2.
Qed.

Lemma above_first i x l : above s (at_level i X) = x :: l → x ∈ X.
Proof.
  intros E. assert (Hx : x ∈ above s (at_level i X)) by (rewrite E; by left).
  unfold above in Hx. apply list_elem_of_filter in Hx as [_ Hx]. by apply level_in in Hx as [_ ?].
Qed.

Lemma front_kept m' nodes x o : (∀ y, y ∈ nodes → isnode H y) → links_only m m' H nodes →
  x mod PAGE_SIZE = 0 → H + big_bin_header ≤ x → 0 ≤ o < FORWARD 0 → m' (x + o) = m (x + o).
Proof.
  intros Hn F Hx HxH Ho. apply F. intros p j Hp Hj. apply (forward_front H); try done.
  destruct Hp as [->|Hp]; [by left|by apply Hn].
Qed.

Lemma all_nodes y : y ∈ sa v :: (sa <$> X) → isnode H y.
Proof.
  intros [->|(x & -> & Hx)%list_elem_of_fmap]%elem_of_cons; [by right|by apply node_is].
Qed.

(** One level. *)
Lemma link_one i m1 : 0 ≤ i ≤ sh v → linked i m1 →
  let next := hd NULL (sa <$> above s (at_level i X)) in
  let u := prev H X s i in
  m1 (u + FORWARD i) = next ∧
  linked (i + 1) (upd (upd m1 (sa v + FORWARD i) next) (u + FORWARD i) (sa v)).
Proof.
  intros Hi [C F] next u. assert (Hi6 : 0 ≤ i ≤ SKIP_MAX_LEVEL) by lia.
  pose proof (C i Hi6) as Ci. rewrite (proj2 (Z.ltb_ge i i)) in Ci by lia.
  rewrite (split_size s (at_level i X)) in Ci by (by apply (level_sorted m H lv)). rewrite fmap_app in Ci.
  pose proof (chain_after _ _ _ _ _ Ci) as Hnext. fold (prev H X s i) in Hnext. fold u next in Hnext. split; [done|].
  pose proof (prev_is i : isnode H u) as Hu. assert (Hv : isnode H (sa v)) by (by right).
  assert (Huv : u ≠ sa v).
  { intros E. destruct (prev_in i) as [E'|Hin]; [change (u = H) in E'; offsets; lia|]. apply HvX. rewrite <-E. exact Hin. }
  set (m2 := upd (upd m1 (sa v + FORWARD i) next) (u + FORWARD i) (sa v)).
  assert (Hm2 : ∀ x j, isnode H x → 0 ≤ j ≤ SKIP_MAX_LEVEL → (x ≠ u ∧ x ≠ sa v) ∨ j ≠ i → m2 (x + FORWARD j) = m1 (x + FORWARD j)).
  { intros x j Hx Hj Hne. unfold m2.
    rewrite !upd_ne; [done| |]; intros E.
    - destruct (forward_inj H x (sa v) j i Hx Hv Hj Hi6 E). destruct Hne as [[? ?]|?]; congruence.
    - destruct (forward_inj H x u j i Hx Hu Hj Hi6 E). destruct Hne as [[? ?]|?]; congruence. }
  split.
  - intros j Hj. destruct (decide (j = i)) as [->|Hne].
    + rewrite (proj2 (Z.ltb_lt i (i + 1))) by lia. rewrite inserted_level, decide_True by lia. rewrite !fmap_app.
      cbn [fmap list_fmap app].
      assert (El : (sa <$> below s (at_level i X)) ++ (sa <$> above s (at_level i X)) = sa <$> at_level i X).
      { rewrite <-fmap_app, <-split_size; [done|]. by apply (level_sorted m H lv). }
      apply (chain_insert m1).
      * rewrite El. apply (level_nodup m H lv X OK).
      * rewrite El. apply level_fresh.
      * unfold NULL. pose proof (sk_head _ _ _ _ OK). offsets. lia.
      * exact Ci.
      * fold (prev H X s i) u. unfold m2. by rewrite upd_eq.
      * fold (prev H X s i) u. rewrite Hnext. unfold m2. rewrite upd_ne, upd_eq; [done|].
        intros E. apply Huv. by destruct (forward_inj H _ _ _ _ Hv Hu Hi6 Hi6 E).
      * fold (prev H X s i) u. intros x Hx Hxu. apply Hm2; [|done|].
        -- rewrite El in Hx. apply elem_of_cons in Hx as [->|(y & -> & Hy)%list_elem_of_fmap]; [by left|].
           apply level_in in Hy as [_ Hy]. by apply node_is.
        -- left. split; [done|]. intros ->. apply (level_fresh i). by rewrite <-El.
    + assert (E : (j <? i + 1) = (j <? i)) by (destruct (Z.ltb_spec j (i + 1)), (Z.ltb_spec j i); lia || done).
      rewrite E. apply (chain_frame m1); [|by apply C]. intros x Hx. apply Hm2; [|done|by right].
      apply elem_of_cons in Hx as [->|(y & -> & Hy)%list_elem_of_fmap]; [by left|].
      destruct (j <? i); apply level_in in Hy as [_ Hy]; [|by apply node_is].
      apply inserted_in in Hy as [->|Hy]; [done|by apply node_is].
  - intros x Hx. unfold m2. rewrite !upd_ne; [by apply F|..].
    + apply Hx; [|done]. right. by left.
    + apply Hx; [|done]. destruct (prev_in i) as [E|E]; [by left|right; by right].
Qed.

Lemma link_levels_run update : (∀ j, 0 ≤ j ≤ sh v → update !!! Z.to_nat j = prev H X s j) →
  ∀ n i h, 0 ≤ i → i + Z.of_nat n = sh v + 1 → linked i (words h) →
  ∃ m', link_levels n i (sa v) update h = Done (tt, with_words h m') ∧ linked (sh v + 1) m'.
Proof.
  intros Hu n. induction n as [|n IH]; intros i h Hi Hn L.
  { exists (words h). split; [by destruct h|]. by replace (sh v + 1) with i by lia. }
  cbn [link_levels]. rewrite Hu by lia.
  destruct (link_one i (words h) ltac:(lia) L) as [Hnext L'].
  assert (Hup : PAGE_SIZE ≤ prev H X s i) by (apply (prev_next m H lv X OK s i); lia).
  pose proof (sk_head _ _ _ _ OK) as HH.
  set (next := hd NULL (sa <$> above s (at_level i X))) in *. set (u := prev H X s i) in *.
  rd_step. rewrite Hnext. wr_step.
  assert (Hcheck : ∀ h', (∀ x, x ≠ sa v + FORWARD i → words h' x = words h x) →
    (if negb (next =? NULL) then sz ← rd (next + SIZE); assert_ (whole_pages sz) else mret tt) h' = Done (tt, h')).
  { intros h' Hh'. destruct (Z.eqb_spec next NULL) as [->|Hn0]; cbn [negb]; [done|].
    unfold next in *. destruct (above s (at_level i X)) as [|x l] eqn:Ea; [done|]. cbn [fmap list_fmap hd] in *.
    pose proof (above_first i x l Ea) as Hx. destruct (sk_addr _ _ _ _ OK x Hx) as [Hxm HxH].
    destruct (sk_size _ _ _ _ OK x Hx) as [Hxs Hxw]. rd_step. apply assert_run.
    rewrite Hh'. 2: { apply (forward_front H); [by right|done|done|lia|offsets; lia]. }
    rewrite (front_kept _ _ (sa x) SIZE all_nodes (li_frame _ _ L)) by (done || offsets; lia). by rewrite Hxs. }
  erewrite St_bind_done by (apply Hcheck; intros x Hx; cbn [words with_words]; by rewrite upd_ne).
  wr_step. cbn [words with_words].
  destruct (IH (i + 1) (with_words (with_words h (upd (words h) (sa v + FORWARD i) next))
      (upd (upd (words h) (sa v + FORWARD i) next) (u + FORWARD i) (sa v)))) as (m' & E & L''); [lia|lia|exact L'|].
  exists m'. by rewrite E.
Qed.

Lemma linked_ok m' lv' : linked (sh v + 1) m' → lv' = Z.max lv (sh v) → skip_ok m' H lv' inserted.
Proof.
  intros [C F] ->. pose proof (sk_level _ _ _ _ OK) as Hlv. split.
  - unfold inserted. assert (S := sk_sorted _ _ _ _ OK). apply StronglySorted_app. split_and!.
    + intros x y Hx Hy. unfold below in Hx. apply list_elem_of_filter in Hx as [Hx _]. unfold by_size.
      apply elem_of_cons in Hy as [->|Hy]; [unfold s in *; lia|].
      unfold above in Hy. apply list_elem_of_filter in Hy as [Hy _]. lia.
    + by apply sorted_filter.
    + constructor; [by apply sorted_filter|]. rewrite Forall_forall. intros y Hy. unfold above in Hy.
      apply list_elem_of_filter in Hy as [Hy _]. unfold by_size, s in *. lia.
  - unfold inserted. rewrite fmap_app. cbn [fmap list_fmap]. rewrite <-Permutation_middle, <-fmap_app, <-split_size by apply OK.
    constructor; [done|apply OK].
  - lia.
  - intros x [->|Hx]%inserted_in; [lia|]. pose proof (sk_heights _ _ _ _ OK x Hx). lia.
  - apply OK.
  - intros x [->|Hx]%inserted_in; [done|]. by apply (sk_addr _ _ _ _ OK).
  - intros x Hx. assert (Hxa : sa x mod PAGE_SIZE = 0 ∧ H + big_bin_header ≤ sa x).
    { apply inserted_in in Hx as [->|Hx]; [done|by apply (sk_addr _ _ _ _ OK)]. }
    rewrite (front_kept m' _ (sa x) SIZE all_nodes F) by (tauto || offsets; lia).
    apply inserted_in in Hx as [->|Hx]; [done|by apply (sk_size _ _ _ _ OK)].
  - intros i Hi. specialize (C i Hi). destruct (Z.ltb_spec i (sh v + 1)); [done|].
    rewrite inserted_level, decide_False by lia. simpl. rewrite <-split_size; [done|]. by apply (level_sorted m H lv).
Qed.
End insert.

(** What the assertions on a block ask. *)
Record head_ok (h : heap) (a hd sz : Z) : Prop := {
  ho_page : PAGE_SIZE ≤ a;
  ho_head : words h (a + HEAD) = hd;
  ho_size : words h (a + SIZE) = sz;
  ho_above : a < hd;
  ho_below : if NUM_BINS <? sz then hd < a + sz ∧ a + sz < 2 ^ 64 else hd < a + PAGE_SIZE ∧ a + PAGE_SIZE < 2 ^ 64;
  ho_nonneg : 0 ≤ sz
}.

Lemma check_head_run h a hd sz : head_ok h a hd sz → check_head a h = Done (tt, h).
Proof.
  intros [Hp Eh Es Ha Hb H0]. unfold check_head. offsets.
  assert_step (proj2 (negb_true_iff _) (proj2 (Z.eqb_neq a 0) ltac:(lia))). rd_step. offsets. rewrite Eh.
  assert_step (proj2 (negb_true_iff _) (proj2 (Z.eqb_neq hd 0) ltac:(lia))).
  assert_step (proj2 (Z.ltb_lt a hd) Ha). rd_step. offsets. rewrite Es. apply assert_run.
  destruct (NUM_BINS <? sz); rewrite u64_small by lia; apply Z.ltb_lt; lia.
Qed.

Lemma search_run h X s fuel : skip_ok (words h) (big_bins h) (level h) X → (length X < fuel)%nat →
  ∃ update, skip_down fuel (Z.to_nat (level h + 1)) s (big_bins h) no_update h =
      Done ((prev (big_bins h) X s 0, update), h) ∧ length update = 7%nat ∧
    (∀ j, 0 ≤ j ≤ level h → update !!! Z.to_nat j = prev (big_bins h) X s j).
Proof.
  intros OK Hf. pose proof (sk_level _ _ _ _ OK) as Hlv.
  destruct (skip_down_run (words h) (big_bins h) (level h) X OK h s fuel eq_refl Hf (Z.to_nat (level h + 1)) no_update)
    as (u & E & Hl & Hu & _); [lia|done|].
  rewrite Z2Nat.id in E by lia. rewrite (prev_top (words h) (big_bins h) (level h) X OK) in E.
  exists u. split_and!; [done|done|]. intros j Hj. apply list_lookup_total_correct.
  rewrite (Hu (Z.to_nat j)) by lia. by rewrite Z2Nat.id by lia.
Qed.

(** The first free block that is large enough. *)
Definition best (s : Z) (X : list snode) : Z := hd NULL (sa <$> above s X).

Lemma best_found h X s : skip_ok (words h) (big_bins h) (level h) X →
  PAGE_SIZE ≤ prev (big_bins h) X s 0 ∧ words h (prev (big_bins h) X s 0 + FORWARD 0) = best s X.
Proof.
  intros OK. destruct (prev_next (words h) (big_bins h) (level h) X OK s 0) as [H1 H2]; [unfold SKIP_MAX_LEVEL; lia|].
  split; [done|]. rewrite H2. by rewrite (level_0 _ _ _ _ OK).
Qed.

Lemma findbest_run fuel h X s : skip_ok (words h) (big_bins h) (level h) X → (length X < fuel)%nat →
  klmalloc_skip_list_findbest fuel s h = Done (best s X, h).
Proof.
  intros OK Hf. destruct (search_run h X s fuel OK Hf) as (u & E & _). destruct (best_found h X s OK) as [Hp Hb].
  unfold klmalloc_skip_list_findbest. rewrite (St_bind_done (gets big_bins) _ h (big_bins h) h eq_refl).
  rewrite (St_bind_done levels _ h (Z.to_nat (level h + 1)) h eq_refl).
  rewrite (St_bind_done _ _ _ _ _ E). rd_step. rewrite Hb. unfold best. destruct (above s X) as [|x l] eqn:Ea.
  { done. }
  cbn [fmap list_fmap hd]. assert (Hx : x ∈ X).
  { assert (Hx : x ∈ above s X) by (rewrite Ea; by left). unfold above in Hx. by apply list_elem_of_filter in Hx as [_ ?]. }
  destruct (sk_addr _ _ _ _ OK x Hx) as [Hm Ha]. destruct (sk_size _ _ _ _ OK x Hx) as [Hs Hw].
  pose proof (node_page _ _ _ _ OK x Hx) as Hxp.
  rewrite (proj2 (Z.eqb_neq (sa x) NULL)) by (offsets; lia). cbn [negb].
  assert (Hck : (assert_ (sa x mod PAGE_SIZE =? 0);; sz ← rd (sa x + SIZE); assert_ (whole_pages sz)) h = Done (tt, h)).
  { assert_step (proj2 (Z.eqb_eq _ _) Hm). rd_step. rewrite Hs. by apply assert_run. }
  rewrite (St_bind_done _ _ _ _ _ Hck). done.
Qed.

Lemma insert_run fuel h X a s hd :
  skip_ok (words h) (big_bins h) (level h) X → (length X < fuel)%nat →
  head_ok h a hd s → a mod PAGE_SIZE = 0 → big_bins h + big_bin_header ≤ a → a ∉ sa <$> X →
  whole_pages s = true → s ≠ 0 →
  ∃ lv m' l' r, klmalloc_skip_list_insert fuel a h = Done (tt, with_level (with_rng (with_words h m') r) l') ∧
    skip_ok m' (big_bins h) l' (inserted X (SNode a s lv)) ∧ links_only (words h) m' (big_bins h) (a :: (sa <$> X)).
Proof.
  intros OK Hf Ho Hm HH HX Hw Hs0. pose proof (ho_page _ _ _ _ Ho) as Hap. pose proof (ho_size _ _ _ _ Ho) as Hsz.
  destruct (search_run h X s fuel OK Hf) as (u & E & Hl & Hu). destruct (best_found h X s OK) as [Hp Hb].
  destruct (random_level_run h 7 0) as (lv & r & Er & Hlv); [unfold SKIP_MAX_LEVEL; lia|unfold SKIP_MAX_LEVEL; lia|].
  set (old := level h) in *. pose proof (sk_level _ _ _ _ OK) as Hold.
  set (u' := if old <? lv then head_levels (Z.to_nat (lv - old)) (old + 1) (big_bins h) u else u).
  assert (Hu' : ∀ j, 0 ≤ j ≤ lv → u' !!! Z.to_nat j = prev (big_bins h) X s j).
  { intros j Hj. unfold u'. destruct (Z.ltb_spec old lv); [|apply Hu; lia]. destruct (decide (j ≤ old)).
    - apply list_lookup_total_correct. rewrite head_levels_lookup, decide_False by (unfold SKIP_MAX_LEVEL in *; lia).
      rewrite <-Hu by lia. apply list_lookup_lookup_total_lt. unfold SKIP_MAX_LEVEL in *. lia.
    - assert (prev (big_bins h) X s j = big_bins h) as ->.
      { unfold prev. by rewrite (level_above _ _ _ _ OK) by (fold old; lia). }
      apply list_lookup_total_correct. rewrite head_levels_lookup, decide_True by (unfold SKIP_MAX_LEVEL in *; lia). done. }
  set (l' := Z.max old lv). set (h1 := with_level (with_rng h r) l').
  assert (L0 : linked (words h) (big_bins h) X (SNode a s lv) 0 (words h1)).
  { split; [|by intros x _]. intros j Hj. rewrite (proj2 (Z.ltb_ge j 0)) by lia. by apply OK. }
  destruct (link_levels_run (words h) (big_bins h) old X OK (SNode a s lv) Hm HH HX Hlv u' Hu'
    (Z.to_nat (lv + 1)) 0 h1) as (m' & Elink & L'); [lia|simpl; lia|exact L0|].
  exists lv, m', l', r. split.
  - unfold klmalloc_skip_list_insert. rewrite (St_bind_done _ _ _ _ _ (check_head_run _ _ _ _ Ho)).
    assert_step (proj2 (Z.eqb_eq _ _) Hm). rd_step. rewrite Hsz. assert_step Hw.
    assert_step (proj2 (negb_true_iff _) (proj2 (Z.eqb_neq s 0) Hs0)).
    rewrite (St_bind_done (gets big_bins) _ h (big_bins h) h eq_refl).
    rewrite (St_bind_done levels _ h (Z.to_nat (level h + 1)) h eq_refl).
    rewrite (St_bind_done _ _ _ _ _ E). rd_step. rewrite Hb.
    assert (Hne : best s X ≠ a).
    { unfold best. destruct (above s X) as [|x l] eqn:Ea; simpl; [offsets; lia|]. intros <-. apply HX.
      apply list_elem_of_fmap_2. assert (Hx : x ∈ above s X) by (rewrite Ea; by left). unfold above in Hx.
      by apply list_elem_of_filter in Hx as [_ ?]. }
    rewrite (proj2 (Z.eqb_neq _ _) Hne). cbn [negb]. unfold klmalloc_random_level.
    rewrite (St_bind_done _ _ _ _ _ Er). rewrite (St_bind_done (gets level) _ (with_rng h r) old (with_rng h r) eq_refl).
    assert (Eup : (if old <? lv then modify (λ h, with_level h lv);; mret (head_levels (Z.to_nat (lv - old)) (old + 1) (big_bins h) u)
      else mret u) (with_rng h r) = Done (u', h1)).
    { unfold u', h1, l'. destruct (Z.ltb_spec old lv).
      - rewrite Z.max_r by lia. done.
      - rewrite Z.max_l by lia. by destruct h. }
    rewrite (St_bind_done _ _ _ _ _ Eup). etransitivity; [exact Elink|by destruct h].
  - split; [|apply L']. apply (linked_ok (words h) (big_bins h) old X OK (SNode a s lv)); done.
Qed.

(** ** Taking a block out of the skip list *)

Lemma above_in s X x : x ∈ above s X → x ∈ X.
Proof. unfold above. by intros [_ ?]%list_elem_of_filter. Qed.

Section delete.
Context (m : Z → Z) (H lv : Z) (X : list snode) (OK : skip_ok m H lv X).
Context (x : snode) (post : list snode) (Hx : above (ss x) X = x :: post).
Let s := ss x.

Definition deleted : list snode := below s X ++ post.

Lemma delete_split : X = below s X ++ x :: post.
Proof using OK Hx. rewrite <-Hx. apply split_size, OK. Qed.

Lemma taken_elem : x ∈ X.
Proof using Hx. apply (above_in (ss x)). rewrite Hx. by left. Qed.

Lemma deleted_perm : X ≡ₚ x :: deleted.
Proof using OK Hx. rewrite delete_split at 1. by rewrite <-Permutation_middle. Qed.

Lemma deleted_in y : y ∈ deleted → y ∈ X.
Proof using OK Hx. intros Hy. rewrite deleted_perm. by right. Qed.

Lemma delete_level i : at_level i X = below s (at_level i X) ++ (if decide (i ≤ sh x) then [x] else []) ++ at_level i post.
Proof using OK Hx.
  rewrite (split_size s (at_level i X)) at 1 by (by apply (level_sorted m H lv)). f_equal.
  unfold above at 1, at_level. rewrite filter_comm. fold (above s X). unfold s. rewrite Hx, filter_cons.
  by destruct (decide (i ≤ sh x)).
Qed.

Lemma deleted_level i : at_level i deleted = below s (at_level i X) ++ at_level i post.
Proof. unfold deleted, at_level. rewrite filter_app. f_equal. unfold below. apply filter_comm. Qed.

Record unlinked (i : Z) (m' : Z → Z) : Prop := {
  ul_chain : ∀ j, 0 ≤ j ≤ SKIP_MAX_LEVEL →
    chain m' (FORWARD j) H (sa <$> if j <? i then at_level j deleted else at_level j X);
  ul_frame : links_only m m' H (sa <$> X)
}.

Lemma node_isnode y : y ∈ H :: (sa <$> X) → isnode H y.
Proof using OK.
  intros [->|(z & -> & Hz)%list_elem_of_fmap]%elem_of_cons; [by left|right; by apply (sk_addr _ _ _ _ OK)].
Qed.

Lemma prev_cases i : prev H X s i = H ∨ prev H X s i ∈ sa <$> X.
Proof.
  unfold prev. destruct (last_or_in H (sa <$> below s (at_level i X))) as [->|Hl]; [by left|right].
  apply list_elem_of_fmap in Hl as (z & -> & Hz). apply list_elem_of_fmap_2.
  unfold below in Hz. apply list_elem_of_filter in Hz as [_ Hz]. by apply level_in in Hz as [_ ?].
Qed.

(** Before its turn, a level still has [x] behind the node of the search. *)
Lemma unlink_front i m1 : 0 ≤ i ≤ SKIP_MAX_LEVEL → unlinked i m1 →
  m1 (prev H X s i + FORWARD i) = (if decide (i ≤ sh x) then sa x else hd NULL (sa <$> at_level i post)) ∧
  (i ≤ sh x → m1 (sa x + FORWARD i) = hd NULL (sa <$> at_level i post)).
Proof using OK Hx.
  intros Hi [C F]. specialize (C i Hi). rewrite (proj2 (Z.ltb_ge i i)) in C by lia.
  rewrite delete_level, fmap_app in C. split; [apply chain_after in C|intros Hh].
  - fold (prev H X s i) in C. rewrite C. by destruct (decide (i ≤ sh x)).
  - rewrite decide_True in C by done. cbn [app] in C. rewrite fmap_cons in C.
    rewrite cons_middle, app_assoc in C. apply chain_after in C. by rewrite last_or_snoc in C.
Qed.

Lemma unlink_one i m1 : 0 ≤ i ≤ sh x → unlinked i m1 →
  unlinked (i + 1) (upd m1 (prev H X s i + FORWARD i) (m1 (sa x + FORWARD i))).
Proof using OK Hx.
  intros Hi U. pose proof (sk_level _ _ _ _ OK) as Hlv. pose proof (sk_heights _ _ _ _ OK x taken_elem) as Hh.
  assert (Hi6 : 0 ≤ i ≤ SKIP_MAX_LEVEL) by lia. destruct U as [C F]. pose proof (C i Hi6) as Ci.
  rewrite (proj2 (Z.ltb_ge i i)) in Ci by lia. pose proof (level_nodup m H lv X OK i) as N.
  set (u := prev H X s i).
  assert (Hu : isnode H u) by (apply node_isnode, elem_of_cons; destruct (prev_cases i); tauto).
  set (m2 := upd m1 (u + FORWARD i) (m1 (sa x + FORWARD i))).
  assert (Hm2 : ∀ y j, y ∈ H :: (sa <$> X) → 0 ≤ j ≤ SKIP_MAX_LEVEL → y ≠ u ∨ j ≠ i → m2 (y + FORWARD j) = m1 (y + FORWARD j)).
  { intros y j Hy Hj Hne. apply upd_ne. intros E.
    destruct (forward_inj H y u j i (node_isnode y Hy) Hu Hj Hi6 E). destruct Hne; congruence. }
  assert (Hsub : ∀ j y, y ∈ H :: (sa <$> at_level j X) → y ∈ H :: (sa <$> X)).
  { intros j y [->|(z & -> & Hz)%list_elem_of_fmap]%elem_of_cons; [by left|]. right. apply list_elem_of_fmap_2.
    by apply level_in in Hz as [_ ?]. }
  split.
  - intros j Hj. destruct (decide (j = i)) as [->|Hne].
    + rewrite (proj2 (Z.ltb_lt i (i + 1))) by lia. rewrite deleted_level. rewrite fmap_app.
      pose proof (delete_level i) as El. rewrite decide_True in El by lia. rewrite El in Ci, N. rewrite fmap_app in Ci, N.
      apply (chain_delete m1 m2 _ _ _ _ (sa x)).
      * exact N. * exact Ci.
      * fold (prev H X s i). apply upd_eq.
      * fold (prev H X s i). intros y Hy Hyu. apply Hm2; [|done|by left]. apply (Hsub i). by rewrite El, fmap_app.
    + assert (E : (j <? i + 1) = (j <? i)) by (destruct (Z.ltb_spec j (i + 1)), (Z.ltb_spec j i); lia || done).
      rewrite E. apply (chain_frame m1); [|by apply C]. intros y Hy. apply Hm2; [|done|by right].
      apply elem_of_cons in Hy as [->|(z & -> & Hz)%list_elem_of_fmap]; [by left|]. right. apply list_elem_of_fmap_2.
      destruct (j <? i); apply level_in in Hz as [_ Hz]; [by apply deleted_in|done].
  - intros y Hy. unfold m2. rewrite upd_ne; [by apply F|]. apply Hy; [apply prev_cases|done].
Qed.

Lemma unlink_kept m' y o : links_only m m' H (sa <$> X) → isnode H y → y ≠ H → 0 ≤ o < FORWARD 0 → m' (y + o) = m (y + o).
Proof using OK.
  intros F [->|[Hy HyH]] Hne Ho; [done|]. apply F. intros p j Hp Hj. apply (forward_front H); try done.
  destruct Hp as [->|Hp]; [by left|apply node_isnode; by right].
Qed.

Lemma unlink_levels_run update : (∀ j, 0 ≤ j ≤ lv → update !!! Z.to_nat j = prev H X s j) →
  ∀ n i h, 0 ≤ i ≤ sh x + 1 → i + Z.of_nat n = lv + 1 → unlinked i (words h) →
  ∃ m', unlink_levels n i (sa x) update h = Done (tt, with_words h m') ∧ unlinked (sh x + 1) m'.
Proof using OK Hx.
  intros Hup n. pose proof (sk_level _ _ _ _ OK) as Hlv. pose proof (sk_heights _ _ _ _ OK x taken_elem) as Hh.
  pose proof (node_page _ _ _ _ OK x taken_elem) as Hxp.
  induction n as [|n IH]; intros i h Hi Hn U.
  { exists (words h). split; [by destruct h|]. by replace (sh x + 1) with i by lia. }
  cbn [unlink_levels]. rewrite Hup by lia. destruct (unlink_front i (words h) ltac:(lia) U) as [Ef En].
  assert (Hpp : PAGE_SIZE ≤ prev H X s i) by (apply (prev_next m H lv X OK s i); lia).
  rd_step. rewrite Ef. destruct (decide (i ≤ sh x)) as [Hle|Hgt].
  - rewrite Z.eqb_refl. cbn [negb]. rd_step. wr_step. pose proof (unlink_one i (words h) ltac:(lia) U) as U'.
    set (h2 := with_words h _). rewrite (En Hle).
    assert (Hck : (if negb (hd NULL (sa <$> at_level i post) =? NULL)
      then assert_ (hd NULL (sa <$> at_level i post) mod PAGE_SIZE =? 0);; sz ← rd (hd NULL (sa <$> at_level i post) + SIZE); assert_ (whole_pages sz)
      else mret tt) h2 = Done (tt, h2)).
    { destruct (at_level i post) as [|y l] eqn:Ea; [done|]. cbn [fmap list_fmap hd].
      assert (Hy : y ∈ X).
      { apply deleted_in, elem_of_app. right. apply (level_in post i). rewrite Ea. by left. }
      destruct (sk_addr _ _ _ _ OK y Hy) as [Hm Ha]. destruct (sk_size _ _ _ _ OK y Hy) as [Hs Hw].
      pose proof (node_page _ _ _ _ OK y Hy) as Hyp. rewrite (proj2 (Z.eqb_neq (sa y) NULL)) by (offsets; lia). cbn [negb].
      assert_step (proj2 (Z.eqb_eq _ _) Hm). rd_step. apply assert_run.
      change (words h2) with (upd (words h) (prev H X s i + FORWARD i) (words h (sa x + FORWARD i))).
      rewrite (unlink_kept _ (sa y) SIZE (ul_frame _ _ U')); [by rewrite Hs|by right|offsets; lia|offsets; lia]. }
    rewrite (St_bind_done _ _ _ _ _ Hck). destruct (IH (i + 1) h2) as (m' & E & U''); [lia|lia|exact U'|].
    exists m'. by rewrite E.
  - assert (i = sh x + 1) as -> by lia. exists (words h). split; [|done].
    rewrite (proj2 (Z.eqb_neq _ (sa x))); [by destruct h|].
    pose proof (sk_nodup _ _ _ _ OK) as N. rewrite delete_split, fmap_app, fmap_cons in N.
    apply NoDup_app in N as (_ & _ & N). apply NoDup_cons in N as [N _].
    destruct (at_level (sh x + 1) post) as [|y l] eqn:Ea; cbn [fmap list_fmap hd]; [offsets; lia|].
    intros E. apply N. rewrite <-E. apply list_elem_of_fmap_2, (level_in post (sh x + 1)). rewrite Ea. by left.
Qed.

Lemma unlinked_ok m' : unlinked (sh x + 1) m' → skip_ok m' H lv deleted.
Proof using OK Hx.
  intros [C F]. split.
  - pose proof (sk_sorted _ _ _ _ OK) as S. rewrite delete_split in S.
    apply StronglySorted_app in S as (S1 & S2 & S3). apply StronglySorted_inv in S3 as [S3 _].
    apply StronglySorted_app. split_and!; [|done|done]. intros y z Hy Hz. apply S1; [done|by right].
  - pose proof (sk_nodup _ _ _ _ OK) as N. rewrite deleted_perm, fmap_cons in N. by apply NoDup_cons in N as [_ ?].
  - apply OK.
  - intros y Hy. by apply (sk_heights _ _ _ _ OK), deleted_in.
  - apply OK.
  - intros y Hy. by apply (sk_addr _ _ _ _ OK), deleted_in.
  - intros y Hy%deleted_in. destruct (sk_addr _ _ _ _ OK y Hy). rewrite (unlink_kept m' (sa y) SIZE F).
    + by apply (sk_size _ _ _ _ OK). + by right. + offsets. lia. + offsets. lia.
  - intros i Hi. specialize (C i Hi). destruct (Z.ltb_spec i (sh x + 1)) as [|Hge]; [done|].
    rewrite deleted_level. rewrite delete_level, decide_False in C by lia. exact C.
Qed.
End delete.

Lemma lower_level_run n : ∀ h X, skip_ok (words h) (big_bins h) (level h) X → level h ≤ Z.of_nat n →
  ∃ l', lower_level n h = Done (tt, with_level h l') ∧ skip_ok (words h) (big_bins h) l' X.
Proof.
  induction n as [|n IH]; intros h X OK Hn; pose proof (sk_level _ _ _ _ OK) as Hlv; pose proof (sk_head _ _ _ _ OK) as Hp;
    unfold lower_level; fold lower_level; rewrite (St_bind_done (gets level) _ h (level h) h eq_refl),
      (St_bind_done (gets big_bins) _ h (big_bins h) h eq_refl); destruct (Z.leb_spec (level h) 0) as [Hle|Hgt];
    try (exists (level h); split; [by destruct h|done]); [lia|].
  rd_step. pose proof (sk_chain _ _ _ _ OK (level h) Hlv) as C. destruct (Z.eqb_spec (words h (big_bins h + FORWARD (level h))) NULL) as [E|E];
    cbn [negb]; [|exists (level h); split; [by destruct h|done]].
  assert (E0 : at_level (level h) X = []).
  { destruct (at_level (level h) X) as [|y l]; [done|]. cbn [fmap list_fmap chain] in C. destruct C as (C & Hy & _). congruence. }
  rewrite (St_bind_done (modify (λ h, with_level h (level h - 1))) _ h tt (with_level h (level h - 1)) eq_refl)
    || rewrite (St_bind_done _ _ h tt (with_level h (level h - 1)) eq_refl).
  destruct (IH (with_level h (level h - 1)) X) as (l' & El & OK').
  { destruct OK as [S N L Hh HH Ha Hs C']. split; try done; [cbn; lia|].
    intros y Hy. specialize (Hh y Hy). cbn [level with_level]. destruct (decide (sh y = level h)) as [Ey|]; [|lia].
    assert (Hin : y ∈ at_level (level h) X) by (apply level_in; split; [lia|done]). rewrite E0 in Hin. by apply elem_of_nil in Hin. }
  { cbn [level with_level]. lia. }
  exists l'. split; [by rewrite El|exact OK'].
Qed.

Lemma delete_run fuel h X x post c :
  skip_ok (words h) (big_bins h) (level h) X → (length X < fuel)%nat →
  above (ss x) X = x :: post → head_ok h (sa x) c (ss x) →
  ∃ m' l', klmalloc_skip_list_delete fuel (sa x) h = Done (tt, with_level (with_words h m') l') ∧
    skip_ok m' (big_bins h) l' (deleted X x post) ∧ links_only (words h) m' (big_bins h) (sa <$> X).
Proof.
  intros OK Hf Hx Ho. destruct (search_run h X (ss x) fuel OK Hf) as (u & E & Hl & Hu).
  destruct (best_found h X (ss x) OK) as [Hp Hb]. pose proof (sk_level _ _ _ _ OK) as Hlv.
  assert (U0 : unlinked (words h) (big_bins h) X x post 0 (words h)).
  { split; [|by intros y _]. intros j Hj. rewrite (proj2 (Z.ltb_ge j 0)) by lia. by apply OK. }
  assert (Hh : 0 ≤ sh x) by (apply (sk_heights _ _ _ _ OK), (above_in (ss x)); rewrite Hx; by left).
  destruct (unlink_levels_run _ _ _ _ OK x post Hx u Hu (Z.to_nat (level h + 1)) 0 h) as (m' & Eu & U); [lia|lia|done|].
  pose proof (unlinked_ok _ _ _ _ OK x post Hx m' U) as OK'.
  destruct (lower_level_run 7 (with_words h m') (deleted X x post) OK') as (l' & Elow & OK'').
  { cbn [level with_words]. unfold SKIP_MAX_LEVEL in *. lia. }
  exists m', l'. split; [|by split; [|apply U]].
  unfold klmalloc_skip_list_delete. rewrite (St_bind_done _ _ _ _ _ (check_head_run _ _ _ _ Ho)).
  pose proof (ho_page _ _ _ _ Ho) as Hap. rd_step. rewrite (ho_size _ _ _ _ Ho).
  rewrite (St_bind_done (gets big_bins) _ h (big_bins h) h eq_refl).
  rewrite (St_bind_done levels _ h (Z.to_nat (level h + 1)) h eq_refl).
  rewrite (St_bind_done _ _ _ _ _ E). rd_step. rewrite Hb. unfold best. rewrite Hx. cbn [fmap list_fmap hd].
  assert (Es : seek fuel (sa x) (sa x) h = Done (tt, h)) by (destruct fuel; cbn [seek]; by rewrite Z.eqb_refl).
  rewrite (St_bind_done _ _ _ _ _ Es), (St_bind_done _ _ _ _ _ Eu). exact Elow.
Qed.
