(* ===== verification/KMallocHeap.v ===== *)
(** * The heap's contract

    [inv h G X] is the invariant of the heap for a map [G] of its pages and the skip list
    [X]: the pages lie apart between the start of the heap and the break, a bin's header
    and the stack of its free cells are in order, the list of a bin holds the pages with
    free cells, the skip list the free large blocks.  [heap_rep h B] forgets the pages: the
    heap is at rest with the live blocks [B].  The theorems are what [malloc], [free],
    [realloc], [calloc] and [valloc] promise in terms of [B]. *)
From S2P Require Import Prelude KMalloc KMallocList.
Local Open Scope Z_scope.

(** * The heap's invariant *)

Definition HEAP_START : Z := 0xffffff0000000000.

(** From the pointer [p] the pointers at offset [off] lead through [xs] to null. *)
Fixpoint listed (m : Z → Z) (off p : Z) (xs : list Z) : Prop :=
  match xs with
  | [] => p = NULL
  | x :: xs => p = x ∧ x ≠ NULL ∧ listed m off (m (x + off)) xs
  end.

Lemma listed_frame m m' off xs : ∀ p, (∀ x, x ∈ xs → m' (x + off) = m (x + off)) →
  listed m off p xs → listed m' off p xs.
Proof.
  induction xs as [|x xs IH]; intros p Hm; [done|]. intros (-> & Hx & L). split_and!; [done|done|].
  rewrite Hm by (by left). apply IH; [|done]. intros y Hy. apply Hm. by right.
Qed.

Lemma listed_head m off p xs : listed m off p xs → p = hd NULL xs.
Proof. by destruct xs; [|intros (-> & _)]. Qed.

(** A run of pages: a bin of cells of [2 ^ (3 + b)] bytes with the stack of its free
    ones, or a large block of [s] bytes, free or not. *)
Inductive page : Type :=
  | Small (b : Z) (st : list Z)
  | Big (s : Z) (unused : bool).

Definition cell (b : Z) : Z := 2 ^ (SMALLEST_BIN_LOG + b).
Definition span (P : page) : Z := match P with Small _ _ => PAGE_SIZE | Big s _ => s + big_bin_header end.
Definition is_cell (a b c : Z) : Prop :=
  ∃ k, 0 ≤ k < (PAGE_SIZE - bin_header) / cell b ∧ c = a + bin_header + k * cell b.

Definition page_ok (m : Z → Z) (a : Z) (P : page) : Prop :=
  m (a + MAGIC) = BIN_MAGIC ∧
  match P with
  | Small b st => 0 ≤ b < BIG_BIN ∧ m (a + SIZE) = b ∧ listed m 0 (m (a + HEAD)) st ∧ NoDup st ∧ ∀ c, c ∈ st → is_cell a b c
  | Big s f => 0 < s ∧ whole_pages s = true ∧ m (a + SIZE) = s ∧
      m (a + HEAD) = (if f then a + big_bin_header else NULL) ∧ (if f then m (a + big_bin_header) = NULL else True)
  end.

(** The words of a run of pages that matter, bar the links of the lists of large
    blocks. *)
Definition body (a : Z) (P : page) (x : Z) : Prop :=
  match P with
  | Small _ _ => a ≤ x < a + PAGE_SIZE
  | Big s _ => a + HEAD ≤ x < a + PREV ∨ a + big_bin_header ≤ x < a + big_bin_header + s
  end.

Definition bin_ok (h : heap) (G : gmap Z page) (b : Z) (l : list Z) : Prop :=
  NoDup l ∧ listed (words h) NEXT (bin_heads h !!! Z.to_nat b) l ∧
  ∀ a, a ∈ l ↔ ∃ st, G !! a = Some (Small b st) ∧ st ≠ [].

Record inv (h : heap) (G : gmap Z page) (X : list snode) : Prop := {
  in_skip : skip_ok (words h) (big_bins h) (level h) X;
  in_free : ∀ a s, (∃ v, v ∈ X ∧ sa v = a ∧ ss v = s) ↔ G !! a = Some (Big s true);
  in_low : big_bins h + big_bin_header ≤ HEAP_START;
  in_brk : brk h mod PAGE_SIZE = 0 ∧ HEAP_START ≤ brk h < 2 ^ 64;
  in_pages : ∀ a P, G !! a = Some P →
    a mod PAGE_SIZE = 0 ∧ HEAP_START ≤ a ∧ a + span P ≤ brk h ∧ page_ok (words h) a P;
  in_apart : ∀ a b P Q, G !! a = Some P → G !! b = Some Q → a < b → a + span P ≤ b;
  in_heads : length (bin_heads h) = 9%nat;
  in_bins : ∀ b, 0 ≤ b < BIG_BIN → ∃ l, bin_ok h G b l;
  in_newest : newest_big h = NULL ∨ ∃ s f, G !! newest_big h = Some (Big s f)
}.

(** ** Cells *)

Lemma bins_all (P : Z → Prop) : Forall P [0;1;2;3;4;5;6;7;8] → ∀ b, 0 ≤ b < BIG_BIN → P b.
Proof.
  rewrite Forall_forall. intros H b Hb. apply H. unfold BIG_BIN, NUM_BINS in Hb.
  rewrite !elem_of_cons. lia.
Qed.

Lemma cell_facts b : 0 ≤ b < BIG_BIN → 0 < cell b ∧ cell b mod 8 = 0 ∧ 8 ≤ cell b ≤ 2048.
Proof.
  revert b. apply bins_all. repeat (apply Forall_cons; split; [by vm_compute|]). by apply Forall_nil.
Qed.

Lemma cell_bounds a b c : 0 ≤ b < BIG_BIN → is_cell a b c → a + bin_header ≤ c ∧ c + cell b ≤ a + PAGE_SIZE ∧ (c - a) mod 8 = 0.
Proof.
  intros Hb (k & Hk & ->). destruct (cell_facts b Hb) as (H0 & H8 & _). unfold bin_header, PAGE_SIZE in *.
  assert (((4096 - 32) / cell b) * cell b ≤ 4096 - 32) by (rewrite Z.mul_comm; apply Z.mul_div_le; lia).
  split_and!; [nia|nia|]. replace (a + 32 + k * cell b - a) with (32 + k * cell b) by lia.
  apply Z.mod_divide; [lia|]. apply Z.mod_divide in H8; [|lia]. apply Z.divide_add_r; [by exists 4|by apply Z.divide_mul_r].
Qed.

Lemma cells_apart a b c d : 0 ≤ b < BIG_BIN → is_cell a b c → is_cell a b d → c ≠ d → c + cell b ≤ d ∨ d + cell b ≤ c.
Proof.
  intros Hb (k & Hk & ->) (j & Hj & ->) Hne. destruct (cell_facts b Hb) as (H0 & _).
  destruct (Z.lt_total k j) as [|[->|]]; [left; nia|done|right; nia].
Qed.

Lemma span_pos m a P : page_ok m a P → PAGE_SIZE ≤ span P.
Proof.
  intros (_ & H). destruct P as [b st|s f]; simpl; [lia|]. destruct H as (Hs & Hw & _).
  unfold whole_pages in Hw. apply Z.eqb_eq in Hw. offsets. Z.div_mod_to_equations. lia.
Qed.

Lemma page_ok_frame m m' a P : (∀ x, body a P x → m' x = m x) → page_ok m a P → page_ok m' a P.
Proof.
  intros Hm [HM H]. destruct P as [b st|s f]; simpl in Hm.
  - destruct H as (Hb & Hs & L & N & Hc). split; [rewrite Hm; [done|offsets; lia]|]. split; [done|]. split_and!; try done.
    + rewrite Hm; [done|offsets; lia].
    + rewrite (Hm (a + HEAD)) by (offsets; lia). apply (listed_frame m); [|done]. intros c Hin.
      destruct (cell_bounds a b c Hb (Hc c Hin)) as (? & ? & _). destruct (cell_facts b Hb) as (? & _). apply Hm. offsets. lia.
  - destruct H as (Hs & Hw & Hz & Hh & Hf). split; [rewrite Hm; [done|offsets; lia]|]. split_and!; try done.
    + rewrite Hm; [done|offsets; lia]. + rewrite Hm; [done|offsets; lia].
    + destruct f; [|done]. rewrite Hm; [done|offsets; lia].
Qed.

Lemma skip_ok_frame m m' H lv X : (∀ i x, 0 ≤ i ≤ SKIP_MAX_LEVEL → x ∈ H :: (sa <$> X) → m' (x + FORWARD i) = m (x + FORWARD i)) →
  (∀ v, v ∈ X → m' (sa v + SIZE) = m (sa v + SIZE)) → skip_ok m H lv X → skip_ok m' H lv X.
Proof.
  intros HF HS [S N L Hh HH Had Hs C]. split; try done.
  - intros v Hv. rewrite HS by done. by apply Hs.
  - intros i Hi. apply (chain_frame m); [|by apply C]. intros x Hx. apply HF; [done|].
    apply elem_of_cons in Hx as [->|(v & -> & Hv)%list_elem_of_fmap]; [by left|]. right. apply list_elem_of_fmap_2.
    by apply level_in in Hv as [_ ?].
Qed.

(** ** The frame

    What an operation on the run at [a] leaves alone: the words of every other run,
    bar links of large blocks. *)

Definition elsewhere (G : gmap Z page) (a : Z) (m m' : Z → Z) : Prop :=
  ∀ b Q x, b ≠ a → G !! b = Some Q → body b Q x → m' x = m x.

Lemma body_span m a P x : page_ok m a P → body a P x → a ≤ x < a + span P.
Proof.
  intros (_ & H). destruct P; simpl; [lia|]. destruct H as (Hs & _). offsets. lia.
Qed.

Section frame.
Context (h : heap) (G : gmap Z page) (X : list snode) (I : inv h G X).

Lemma inv_ok a P : G !! a = Some P → page_ok (words h) a P.
Proof using I. intros H. apply (in_pages _ _ _ I a P H). Qed.

Lemma inv_span a P : G !! a = Some P → PAGE_SIZE ≤ span P.
Proof using I. intros H. by apply (span_pos (words h) a), inv_ok. Qed.

(** An address lies in one run of pages at most. *)
Lemma runs_apart a b P Q x : G !! a = Some P → G !! b = Some Q → a ≤ x < a + span P → b ≤ x < b + span Q → a = b.
Proof using I.
  intros Ha Hb HxP HxQ. destruct (Z.lt_total a b) as [Hlt|[?|Hlt]]; [|done|].
  - pose proof (in_apart _ _ _ I _ _ _ _ Ha Hb Hlt). lia.
  - pose proof (in_apart _ _ _ I _ _ _ _ Hb Ha Hlt). lia.
Qed.

Lemma node_run v : v ∈ X → G !! sa v = Some (Big (ss v) true).
Proof using I. intros Hv. apply (in_free _ _ _ I). by exists v. Qed.

(** Writes within one run. *)
Lemma within_elsewhere a P m' : G !! a = Some P → (∀ x, x < a ∨ a + span P ≤ x → m' x = words h x) →
  elsewhere G a (words h) m'.
Proof using I.
  intros Ha Hm b Q x Hne Hb Hx. apply Hm. pose proof (body_span _ _ _ _ (inv_ok b Q Hb) Hx) as Hxb.
  destruct (decide (a ≤ x < a + span P)) as [Hin|]; [|lia]. exfalso. apply Hne. symmetry. by apply (runs_apart a b P Q x).
Qed.

(** Writes above the break. *)
Lemma above_elsewhere a m' : (∀ x, x < brk h → m' x = words h x) → elsewhere G a (words h) m'.
Proof using I.
  intros Hm b Q x Hne Hb Hx. apply Hm. pose proof (body_span _ _ _ _ (inv_ok b Q Hb) Hx).
  destruct (in_pages _ _ _ I b Q Hb) as (_ & _ & ? & _). lia.
Qed.

(** Writes to the links of large blocks. *)
Lemma links_body nodes m m' : links_only m m' (big_bins h) nodes →
  (∀ p, p ∈ nodes → ∃ s f, G !! p = Some (Big s f)) → ∀ b Q x, G !! b = Some Q → body b Q x → m' x = m x.
Proof using I.
  intros L Hn b Q x Hb Hx. apply L. intros p j Hp Hj ->.
  pose proof (inv_ok b Q Hb) as Ok. pose proof (body_span _ _ _ _ Ok Hx) as Hxb.
  destruct Hp as [->|Hp].
  - pose proof (in_low _ _ _ I). destruct (in_pages _ _ _ I b Q Hb) as (_ & ? & _). offsets. lia.
  - destruct (Hn p Hp) as (s & f & Ep). assert (p = b) as ->.
    { apply (runs_apart p b (Big s f) Q (p + FORWARD j)); [done|done| |done].
      pose proof (inv_span _ _ Ep). simpl in *. offsets. lia. }
    rewrite Ep in Hb. injection Hb as <-. simpl in Hx. offsets. lia.
Qed.

Lemma elsewhere_page m' a b Q : elsewhere G a (words h) m' → b ≠ a → G !! b = Some Q → page_ok m' b Q.
Proof using I. intros E Hne Hb. apply (page_ok_frame (words h)); [|by apply inv_ok]. intros x Hx. by apply (E b Q). Qed.

(** The list of a bin the run at [a] is not of, or whose link stays. *)
Lemma elsewhere_bin m' a b l : elsewhere G a (words h) m' → (a ∈ l → m' (a + NEXT) = words h (a + NEXT)) →
  (∀ c, c ∈ l → ∃ st, G !! c = Some (Small b st)) → ∀ p, listed (words h) NEXT p l → listed m' NEXT p l.
Proof using I.
  intros E Ha Hl p. apply listed_frame. intros c Hc. destruct (decide (c = a)) as [->|Hne]; [by apply Ha|].
  destruct (Hl c Hc) as (st & Ec). apply (E c _ _ Hne Ec). simpl. offsets. lia.
Qed.

Lemma elsewhere_skip m' a : elsewhere G a (words h) m' → a ∉ sa <$> X →
  (∀ i x, 0 ≤ i ≤ SKIP_MAX_LEVEL → x ∈ big_bins h :: (sa <$> X) → m' (x + FORWARD i) = words h (x + FORWARD i)) →
  skip_ok m' (big_bins h) (level h) X.
Proof using I.
  intros E Ha HF. apply (skip_ok_frame (words h)); [done| |apply I]. intros v Hv.
  apply (E (sa v) (Big (ss v) true)); [|by apply node_run|simpl; offsets; lia].
  intros <-. apply Ha. by apply list_elem_of_fmap_2.
Qed.
End frame.

(** ** Requests and bins *)

Lemma power_of_two size : 0 < size → Z.land size (size - 1) = 0 → size = 2 ^ Z.log2 size.
Proof.
  intros H0 E. destruct (Z.log2_spec size H0) as [Hlo Hhi]. pose proof (Z.log2_nonneg size) as Hk.
  destruct (Z.eq_dec size (2 ^ Z.log2 size)) as [|Hne]; [done|exfalso].
  assert (El : Z.log2 (size - 1) = Z.log2 size) by (apply Z.log2_unique; lia).
  assert (T : Z.testbit (Z.land size (size - 1)) (Z.log2 size) = true).
  { rewrite Z.land_spec, Z.bit_log2 by done. rewrite <-El at 1. apply Z.bit_log2.
    assert (0 < 2 ^ Z.log2 size) by (apply Z.pow_pos_nonneg; lia). lia. }
  by rewrite E, Z.bits_0 in T.
Qed.

Lemma bin_size_fits size : 0 < size →
  let b := klmalloc_bin_size size in 0 ≤ b ∧ (b < BIG_BIN → size ≤ cell b).
Proof.
  intros H0. cbv zeta. unfold klmalloc_bin_size. destruct (Z.log2_spec size H0) as [Hlo Hhi]. pose proof (Z.log2_nonneg size) as Hk.
  set (t := truth (negb (Z.land size (size - 1) =? 0))).
  assert (Ht : 0 ≤ t ≤ 1 ∧ size ≤ 2 ^ (Z.log2 size + t)).
  { unfold t, truth. destruct (Z.eqb_spec (Z.land size (size - 1)) 0) as [E|E]; cbn [negb].
    - split; [lia|]. rewrite Z.add_0_r. by rewrite <-power_of_two.
    - split; [lia|]. unfold Z.succ in Hhi. lia. }
  destruct Ht as [Ht Hle]. unfold klmalloc_adjust_bin, BIG_BIN, NUM_BINS, SMALLEST_BIN_LOG, cell, SMALLEST_BIN_LOG.
  destruct (Z.leb_spec (Z.log2 size + 1 + t) 3).
  - split; [lia|]. intros _. assert (2 ^ (Z.log2 size + t) ≤ 2 ^ (3 + 0)) by (apply Z.pow_le_mono_r; lia). lia.
  - destruct (Z.ltb_spec (10 - 1) (Z.log2 size + 1 + t - (3 + 1))); [lia|]. split; [lia|]. intros _.
    replace (3 + (Z.log2 size + 1 + t - (3 + 1))) with (Z.log2 size + t) by lia. done.
Qed.

(** ** Operations on one small bin *)

Section small.
Context (h : heap) (G : gmap Z page) (X : list snode) (I : inv h G X).

(** What [h'] is when an operation has changed the run at [a] to a bin of [b]. *)
Record small_change (a b : Z) (st l : list Z) (h' : heap) : Prop := {
  sc_bin : 0 ≤ b < BIG_BIN;
  sc_page : page_ok (words h') a (Small b st);
  sc_frame : ∀ x, x < a ∨ a + PAGE_SIZE ≤ x → words h' x = words h x;
  sc_was : match G !! a with
    | Some P => (∃ st0, P = Small b st0) ∧ brk h' = brk h
    | None => a = brk h ∧ brk h' = brk h + PAGE_SIZE ∧ brk h + PAGE_SIZE < 2 ^ 64
    end;
  sc_heads : length (bin_heads h') = 9%nat ∧ ∀ b', 0 ≤ b' < BIG_BIN → b' ≠ b →
    bin_heads h' !!! Z.to_nat b' = bin_heads h !!! Z.to_nat b';
  sc_list : bin_ok h' (<[a := Small b st]> G) b l;
  sc_rest : big_bins h' = big_bins h ∧ level h' = level h ∧ newest_big h' = newest_big h
}.

Section change.
Context (a b : Z) (st l : list Z) (h' : heap) (S : small_change a b st l h').

Lemma small_elsewhere : elsewhere G a (words h) (words h').
Proof using I S.
  pose proof (sc_was _ _ _ _ _ S) as W. destruct (G !! a) as [P|] eqn:Ha.
  - destruct W as [[st0 ->] _]. apply (within_elsewhere h G X I a (Small b st0)); [done|]. intros x Hx. by apply S.
  - destruct W as [-> _]. apply (above_elsewhere h G X I). intros x Hx. apply S. lia.
Qed.

Lemma small_address : a mod PAGE_SIZE = 0 ∧ HEAP_START ≤ a ∧ a + PAGE_SIZE ≤ brk h' ∧ HEAP_START ≤ brk h' < 2 ^ 64 ∧
  brk h' mod PAGE_SIZE = 0 ∧ brk h ≤ brk h'.
Proof using I S.
  pose proof (sc_was _ _ _ _ _ S) as W. pose proof (in_brk _ _ _ I) as [B1 B2]. destruct (G !! a) as [P|] eqn:Ha.
  - destruct W as [[st0 ->] ->]. destruct (in_pages _ _ _ I a _ Ha) as (? & ? & ? & _). simpl in *. split_and!; done || lia.
  - destruct W as (-> & -> & Hlt). split_and!; try done; try (offsets; lia).
    rewrite Z.add_mod, B1 by done. done.
Qed.

Lemma small_not_big s f : G !! a ≠ Some (Big s f).
Proof using S. intros E. pose proof (sc_was _ _ _ _ _ S) as W. rewrite E in W. destruct W as [[st0 ?] _]. done. Qed.

Lemma small_apart p P : p ≠ a → G !! p = Some P → (p < a → p + span P ≤ a) ∧ (a < p → a + PAGE_SIZE ≤ p).
Proof using I S.
  intros Hne Hp. pose proof (sc_was _ _ _ _ _ S) as W. destruct (G !! a) as [Q|] eqn:Ha.
  - destruct W as [[st0 ->] _]. split; intros Hlt.
    + by apply (in_apart _ _ _ I p a P (Small b st0)).
    + by apply (in_apart _ _ _ I a p (Small b st0) P).
  - destruct W as (-> & _). destruct (in_pages _ _ _ I p P Hp) as (? & ? & ? & Ok). pose proof (span_pos _ _ _ Ok). offsets.
    split; lia.
Qed.

Lemma small_skip : skip_ok (words h') (big_bins h') (level h') X.
Proof using I S.
  destruct (sc_rest _ _ _ _ _ S) as (-> & -> & _). apply (elsewhere_skip h G X I _ a small_elsewhere).
  - intros (v & E & Hv)%list_elem_of_fmap. apply (small_not_big (ss v) true). rewrite E. by apply (node_run h G X I).
  - intros i x Hi Hx. apply S. pose proof (in_low _ _ _ I). destruct small_address as (_ & ? & _).
    apply elem_of_cons in Hx as [->|(v & -> & Hv)%list_elem_of_fmap]; [offsets; lia|].
    pose proof (node_run h G X I v Hv) as Hr. assert (Hne : sa v ≠ a) by (intros E; rewrite E in Hr; by apply small_not_big in Hr).
    destruct (small_apart (sa v) _ Hne Hr) as [H1 H2]. pose proof (inv_span h G X I _ _ Hr). simpl in *. offsets. lia.
Qed.

Lemma small_bins b' : 0 ≤ b' < BIG_BIN → ∃ l', bin_ok h' (<[a := Small b st]> G) b' l'.
Proof using I S.
  intros Hb. destruct (decide (b' = b)) as [->|Hne]; [exists l; apply S|].
  destruct (in_bins _ _ _ I b' Hb) as (l' & N & L & E). exists l'. split; [done|]. split.
  - rewrite (proj2 (sc_heads _ _ _ _ _ S)) by done.
    apply (elsewhere_bin h G X I (words h') a b' l'); [apply small_elsewhere| |intros c Hc; apply E in Hc as (s & ? & _); by exists s|done].
    intros (s & Hs & _)%E. pose proof (sc_was _ _ _ _ _ S) as W. rewrite Hs in W. destruct W as [[s' [= ? ?]] _]. congruence.
  - intros c. rewrite E. destruct (decide (c = a)) as [->|Hca].
    + rewrite lookup_insert_eq. pose proof (sc_was _ _ _ _ _ S) as W. split.
      * intros (s & Hs & _). rewrite Hs in W. destruct W as [[s' [= ? ?]] _]. congruence.
      * intros (s & [= ? ?] & _). congruence.
    + by rewrite lookup_insert_ne by done.
Qed.

Lemma small_inv : inv h' (<[a := Small b st]> G) X.
Proof using I S.
  destruct small_address as (Am & Ah & Ab & Bb & Bm & Ble). pose proof (sc_rest _ _ _ _ _ S) as (Rb & Rl & Rn). split.
  - apply small_skip.
  - intros p s. rewrite (in_free _ _ _ I). destruct (decide (p = a)) as [->|Hne].
    + rewrite lookup_insert_eq. split; [|done]. intros E. by apply small_not_big in E.
    + by rewrite lookup_insert_ne by done.
  - rewrite Rb. apply I.
  - done.
  - intros p P. destruct (decide (p = a)) as [->|Hne].
    + rewrite lookup_insert_eq. intros [= <-]. split_and!; [done|done|done|apply S].
    + rewrite lookup_insert_ne by done. intros Hp. destruct (in_pages _ _ _ I p P Hp) as (? & ? & ? & _).
      split_and!; [done|done|lia|]. by apply (elsewhere_page h G X I _ a p P small_elsewhere).
  - intros p q P Q. destruct (decide (p = a)) as [->|Hpa], (decide (q = a)) as [->|Hqa].
    + lia.
    + rewrite lookup_insert_eq, lookup_insert_ne by done. intros [= <-] Hq Hlt. by apply (small_apart q Q).
    + rewrite lookup_insert_eq, lookup_insert_ne by done. intros Hp _ Hlt. by apply (small_apart p P).
    + rewrite !lookup_insert_ne by done. apply I.
  - apply S.
  - apply small_bins.
  - rewrite Rn. destruct (in_newest _ _ _ I) as [?|(s & f & E)]; [by left|right]. exists s, f.
    rewrite lookup_insert_ne; [done|]. intros Ea. rewrite <-Ea in E. by apply small_not_big in E.
Qed.
End change.
End small.

(** ** Taking a cell *)

Lemma listed_0 m p c st : listed m 0 p (c :: st) → p = c ∧ c ≠ NULL ∧ listed m 0 (m c) st.
Proof. intros (-> & Hc & L). by rewrite Z.add_0_r in L. Qed.

Lemma listed_starts m off p l : listed m off p l → p ≠ NULL → ∃ l0, l = p :: l0 ∧ listed m off (m (p + off)) l0.
Proof. destruct l as [|x l]; simpl; [done|]. intros (-> & _ & L) _. by exists l. Qed.

Lemma list_set_total (l : list Z) (i : nat) v : (i < length l)%nat → <[i := v]> l !!! i = v.
Proof. intros H. by apply list_lookup_total_correct, list_lookup_insert_eq. Qed.

Lemma list_set_total_ne (l : list Z) (i j : nat) v : i ≠ j → <[i := v]> l !!! j = l !!! j.
Proof. intros H. rewrite !list_lookup_total_alt. by rewrite list_lookup_insert_ne. Qed.

Lemma bin_first_run h b : (Z.to_nat b < length (bin_heads h))%nat → bin_first b h = Done (bin_heads h !!! Z.to_nat b, h).
Proof.
  intros H. unfold bin_first. destruct (lookup_lt_is_Some_2 _ _ H) as [p E]. rewrite E.
  by rewrite (list_lookup_total_correct _ _ _ E).
Qed.

Lemma inv_stack h G X a b st : inv h G X → G !! a = Some (Small b st) →
  0 ≤ b < BIG_BIN ∧ words h (a + SIZE) = b ∧ words h (a + MAGIC) = BIN_MAGIC ∧
  listed (words h) 0 (words h (a + HEAD)) st ∧ NoDup st ∧ (∀ c, c ∈ st → is_cell a b c).
Proof. intros I Ha. destruct (inv_ok h G X I a _ Ha) as (HM & Hb & Hs & L & N & C). done. Qed.

Lemma small_range h G X a b st : inv h G X → G !! a = Some (Small b st) →
  a mod PAGE_SIZE = 0 ∧ HEAP_START ≤ a ∧ a + PAGE_SIZE < 2 ^ 64.
Proof. intros I Ha. destruct (in_pages _ _ _ I a _ Ha) as (? & ? & ? & _). pose proof (in_brk _ _ _ I). simpl in *. lia. Qed.

Lemma stack_pop_small h G X a b c st : inv h G X → G !! a = Some (Small b (c :: st)) →
  klmalloc_stack_pop a h = Done (c, with_words h (upd (words h) (a + HEAD) (words h c))).
Proof.
  intros I Ha. destruct (inv_stack _ _ _ _ _ _ I Ha) as (Hb & Hs & _ & L & _ & C).
  destruct (small_range _ _ _ _ _ _ I Ha) as (_ & Hlo & Hhi). apply listed_0 in L as (Hh & _ & _).
  destruct (cell_bounds a b c Hb (C c ltac:(by left))) as (Hc1 & Hc2 & _). destruct (cell_facts b Hb) as (Hc0 & _).
  unfold HEAP_START, BIG_BIN, NUM_BINS in *.
  assert (Ho : head_ok h a c b).
  { split; try done; try (offsets; lia). unfold NUM_BINS. rewrite (proj2 (Z.ltb_ge 10 b)) by lia. offsets. lia. }
  unfold klmalloc_stack_pop. rewrite (St_bind_done _ _ _ _ _ (check_head_run _ _ _ _ Ho)).
  rd_step. rewrite Hh. rd_step. rewrite Hs.
  assert (Hbelow : (NUM_BINS <? b) || (u64 (a + bin_header - 1) <? c) = true).
  { apply orb_true_intro. right. rewrite u64_small by (offsets; lia). apply Z.ltb_lt. offsets. lia. }
  assert_step Hbelow.
  rd_step. wr_step. done.
Qed.

(** The list of the bin of a run with free cells, and without. *)
Lemma bin_list h G X a b : inv h G X → 0 ≤ b < BIG_BIN → bin_heads h !!! Z.to_nat b = a → a ≠ NULL →
  ∃ l, bin_ok h G b (a :: l).
Proof.
  intros I Hb Ea Hn. destruct (in_bins _ _ _ I b Hb) as (l & N & L & E). rewrite Ea in L.
  destruct (listed_starts _ _ _ _ L Hn) as (l0 & -> & _). exists l0. split; [done|]. by rewrite Ea.
Qed.

Lemma heads_bound h G X b : inv h G X → 0 ≤ b < BIG_BIN → (Z.to_nat b < length (bin_heads h))%nat.
Proof. intros I Hb. rewrite (in_heads _ _ _ I). unfold BIG_BIN, NUM_BINS in *. lia. Qed.

Lemma runs_separate h G X a b P Q : inv h G X → G !! a = Some P → G !! b = Some Q → a ≠ b →
  a + PAGE_SIZE ≤ b ∨ b + PAGE_SIZE ≤ a.
Proof.
  intros I Ha Hb Hne. pose proof (inv_span h G X I _ _ Ha). pose proof (inv_span h G X I _ _ Hb).
  destruct (Z.lt_total a b) as [Hlt|[?|Hlt]]; [left|done|right].
  - pose proof (in_apart _ _ _ I _ _ _ _ Ha Hb Hlt). lia.
  - pose proof (in_apart _ _ _ I _ _ _ _ Hb Ha Hlt). lia.
Qed.

Definition take_cell (b a : Z) : St heap Z :=
  item ← klmalloc_stack_pop a;
  e ← klmalloc_stack_empty a;
  (if e : bool then klmalloc_list_decouple b a else mret tt);;
  mret item.

Section take.
Context (h : heap) (G : gmap Z page) (X : list snode) (I : inv h G X).
Context (a b c : Z) (st : list Z) (Ha : G !! a = Some (Small b (c :: st))) (Hhd : bin_heads h !!! Z.to_nat b = a).

Definition popped : Z → Z := upd (words h) (a + HEAD) (words h c).

Lemma popped_page m' : (∀ x, x ≠ a + NEXT → m' x = popped x) → page_ok m' a (Small b st).
Proof using I Ha.
  intros Hm. destruct (inv_stack _ _ _ _ _ _ I Ha) as (Hb & Hs & HM & L & N & C).
  apply listed_0 in L as (Hh & _ & L). apply NoDup_cons in N as [_ N].
  split; [rewrite Hm by (offsets; lia); unfold popped; by rewrite upd_ne by (offsets; lia)|].
  split; [done|]. split; [rewrite Hm by (offsets; lia); unfold popped; by rewrite upd_ne by (offsets; lia)|].
  split_and!; [|done|intros d Hd; apply C; by right].
  rewrite Hm by (offsets; lia). unfold popped at 1. rewrite upd_eq. apply (listed_frame (words h)); [|done].
  intros d Hd. destruct (cell_bounds a b d Hb (C d ltac:(by right))) as (? & _).
  rewrite Hm by (offsets; lia). unfold popped. by rewrite upd_ne by (offsets; lia).
Qed.

Lemma take_starts h' (R : St heap unit) : R (with_words h popped) = Done (tt, h') →
  (st = [] → R = klmalloc_list_decouple b a) → (st ≠ [] → R = mret tt) → take_cell b a h = Done (c, h').
Proof using I Ha.
  intros Run E1 E2. destruct (inv_stack _ _ _ _ _ _ I Ha) as (Hb & _ & _ & L & _).
  destruct (small_range _ _ _ _ _ _ I Ha) as (_ & Hlo & _). unfold HEAP_START in Hlo. apply listed_0 in L as (_ & _ & L).
  unfold take_cell. rewrite (St_bind_done _ _ _ _ _ (stack_pop_small _ _ _ _ _ _ _ I Ha)).
  assert (Run1 : klmalloc_stack_empty a (with_words h popped) = Done (words h c =? NULL, with_words h popped)).
  { unfold klmalloc_stack_empty. rd_step. change (words (with_words h popped)) with popped. unfold popped. by rewrite upd_eq. }
  rewrite (St_bind_done _ _ _ _ _ Run1). assert (ER : (if words h c =? NULL then klmalloc_list_decouple b a else mret tt) = R).
  { destruct st as [|d st']; simpl in L; [by rewrite L, E1|]. destruct L as (-> & Hd & _). by rewrite (proj2 (Z.eqb_neq d NULL) Hd), E2. }
  rewrite ER. by rewrite (St_bind_done _ _ _ _ _ Run).
Qed.

Lemma take_last : st = [] → ∃ h', take_cell b a h = Done (c, h') ∧
  inv h' (<[a := Small b st]> G) X ∧ mem_lock h' = mem_lock h ∧ brk h' = brk h ∧
  ∀ x, x ≠ a + HEAD → x ≠ a + NEXT → words h' x = words h x.
Proof using I Ha Hhd.
  intros Est. destruct (inv_stack _ _ _ _ _ _ I Ha) as (Hb & _). pose proof (heads_bound _ _ _ _ I Hb) as Hlen.
  destruct (small_range _ _ _ _ _ _ I Ha) as (_ & Hlo & _). unfold HEAP_START in Hlo.
  destruct (bin_list _ _ _ _ _ I Hb Hhd ltac:(unfold NULL; lia)) as (l & BN & BL & BE).
  set (m' := upd popped (a + NEXT) NULL).
  set (h' := with_words (with_bin_heads h (<[Z.to_nat b := words h (a + NEXT)]> (bin_heads h))) m').
  assert (Hm' : ∀ x, x ≠ a + HEAD → x ≠ a + NEXT → words h' x = words h x).
  { intros x H1 H2. change (words h') with m'. unfold m', popped. by rewrite !upd_ne. }
  exists h'. split; [|split_and!; [|done|done|exact Hm']].
  { apply (take_starts h' (klmalloc_list_decouple b a)); [|done|done].
    unfold klmalloc_list_decouple. rd_step. change (words (with_words h popped)) with popped.
    assert (popped (a + NEXT) = words h (a + NEXT)) as -> by (unfold popped; rewrite upd_ne; [done|offsets; lia]).
    unfold set_bin_first. erewrite St_bind_done by reflexivity. rewrite wr_run by (offsets; lia). by destruct h. }
  apply (small_inv h G X I a b st l h'). simpl in BL. destruct BL as (_ & _ & BL). split; [done| | | | | |done].
  - apply popped_page. intros x Hx. by apply upd_ne.
  - intros x Hx. apply Hm'; offsets; lia.
  - rewrite Ha. split; [by exists (c :: st)|done].
  - split; [cbn; rewrite length_insert; apply I|]. intros b' Hb' Hne. cbn. apply list_set_total_ne. lia.
  - apply NoDup_cons in BN as [Hal BN]. split; [done|]. split.
    + change (bin_heads h') with (<[Z.to_nat b := words h (a + NEXT)]> (bin_heads h)). rewrite list_set_total by done.
      apply (listed_frame (words h)); [|done]. intros y Hy.
      assert (Hya : y ≠ a) by (by intros ->). destruct (proj1 (BE y) ltac:(by right)) as (s & Ey & _).
      destruct (runs_separate h G X y a _ _ I Ey Ha Hya); apply Hm'; offsets; lia.
    + intros y. destruct (decide (y = a)) as [->|Hya].
      * rewrite lookup_insert_eq. split; [done|]. by intros (s & [= <-] & ?).
      * rewrite lookup_insert_ne by done. rewrite <-BE, elem_of_cons. tauto.
Qed.

Lemma take_more : st ≠ [] → ∃ h', take_cell b a h = Done (c, h') ∧
  inv h' (<[a := Small b st]> G) X ∧ mem_lock h' = mem_lock h ∧ brk h' = brk h ∧
  ∀ x, x ≠ a + HEAD → x ≠ a + NEXT → words h' x = words h x.
Proof using I Ha Hhd.
  intros Est. destruct (inv_stack _ _ _ _ _ _ I Ha) as (Hb & _).
  destruct (small_range _ _ _ _ _ _ I Ha) as (_ & Hlo & _). unfold HEAP_START in Hlo.
  destruct (bin_list _ _ _ _ _ I Hb Hhd ltac:(unfold NULL; lia)) as (l & BN & BL & BE).
  assert (Hm' : ∀ x, x ≠ a + HEAD → popped x = words h x) by (intros x H1; unfold popped; by rewrite upd_ne).
  exists (with_words h popped). split; [by apply (take_starts _ (mret tt))|]. split_and!; [|done|done|by intros x H1 _; apply Hm'].
  apply (small_inv h G X I a b st (a :: l) (with_words h popped)). split; [done| | | | | |done].
  - by apply popped_page.
  - intros x Hx. apply Hm'. offsets. lia.
  - rewrite Ha. split; [by exists (c :: st)|done].
  - split; [apply I|done].
  - split; [done|]. split.
    + apply (listed_frame (words h)); [|done]. intros y Hy. destruct (proj1 (BE y) Hy) as (s & Ey & _).
      apply Hm'. intros E. assert (y = a) as ->; [|offsets; lia].
      apply (runs_apart h G X I y a _ _ (y + NEXT) Ey Ha); simpl; offsets; lia.
    + intros y. destruct (decide (y = a)) as [->|Hya].
      * rewrite lookup_insert_eq. split; [intros _; by exists st|]. intros _. by left.
      * rewrite lookup_insert_ne by done. apply BE.
Qed.

Lemma take_run : ∃ h', take_cell b a h = Done (c, h') ∧
  inv h' (<[a := Small b st]> G) X ∧ mem_lock h' = mem_lock h ∧ brk h' = brk h ∧
  ∀ x, x ≠ a + HEAD → x ≠ a + NEXT → words h' x = words h x.
Proof using I Ha Hhd. destruct (decide (st = [])); [by apply take_last|by apply take_more]. Qed.
End take.

(** ** A new bin *)

Fixpoint cells_from (base w k : Z) (n : nat) : list Z :=
  match n with O => [] | S n => base + k * w :: cells_from base w (k + 1) n end.

Definition new_cells (a b : Z) : list Z :=
  cells_from (a + bin_header) (cell b) 0 (Z.to_nat ((PAGE_SIZE - bin_header) / cell b)).

Lemma cells_from_in base w n : ∀ k c, c ∈ cells_from base w k n ↔ ∃ j, k ≤ j < k + Z.of_nat n ∧ c = base + j * w.
Proof.
  induction n as [|n IH]; intros k c; cbn [cells_from].
  - split; [by intros ?%elem_of_nil|]. intros (j & Hj & _). lia.
  - rewrite elem_of_cons, IH. split.
    + intros [->|(j & Hj & ->)]; [exists k|exists j]; (split; [lia|done]).
    + intros (j & Hj & ->). destruct (decide (j = k)) as [->|]; [by left|]. right. exists j. split; [lia|done].
Qed.

Lemma cells_from_nodup base w n : 0 < w → ∀ k, NoDup (cells_from base w k n).
Proof.
  intros Hw. induction n as [|n IH]; intros k; cbn [cells_from]; constructor; [|done].
  intros (j & Hj & E)%cells_from_in. nia.
Qed.

Lemma cells_from_listed m base w n : 0 < w → 0 < base → ∀ k, 0 ≤ k →
  (∀ j, k ≤ j < k + Z.of_nat n → m (base + j * w) = base + (j + 1) * w) → m (base + (k + Z.of_nat n) * w) = NULL →
  listed m 0 (base + k * w) (cells_from base w k (S n)).
Proof.
  intros Hw Hb. induction n as [|n IH]; intros k Hk Hm Hl; cbn [cells_from listed];
    (split; [done|]; split; [unfold NULL; nia|]); rewrite Z.add_0_r.
  - by rewrite Z.add_0_r in Hl.
  - rewrite Hm by lia. apply IH; [lia|intros j Hj; apply Hm; lia|]. by replace (k + 1 + Z.of_nat n) with (k + Z.of_nat (S n)) by lia.
Qed.

Lemma new_cells_is a b c : 0 ≤ b < BIG_BIN → c ∈ new_cells a b ↔ is_cell a b c.
Proof.
  intros Hb. unfold new_cells, is_cell. rewrite cells_from_in. destruct (cell_facts b Hb) as (H0 & _).
  assert (0 ≤ (PAGE_SIZE - bin_header) / cell b) by (apply Z.div_pos; [done|lia]).
  split; intros (k & Hk & ->); exists k; (split; [lia|done]).
Qed.

Lemma shift_cell i b : 0 ≤ b → 8 * Z.shiftl i b = i * cell b.
Proof.
  intros Hb. rewrite Z.shiftl_mul_pow2 by done. unfold cell, SMALLEST_BIN_LOG. rewrite Z.pow_add_r by lia. lia.
Qed.

Lemma fill_run base b n : 0 ≤ b < BIG_BIN → PAGE_SIZE ≤ base → ∀ i h, 0 ≤ i →
  ∃ m', fill_stack n i base b h = Done (tt, with_words h m') ∧
    (∀ j, i ≤ j < i + Z.of_nat n → m' (base + j * cell b) = base + (j + 1) * cell b) ∧
    (∀ x, (∀ j, i ≤ j < i + Z.of_nat n → x ≠ base + j * cell b) → m' x = words h x).
Proof.
  intros Hb Hp. destruct (cell_facts b Hb) as (H0 & _). induction n as [|n IH]; intros i h Hi; cbn [fill_stack].
  { exists (words h). split; [by destruct h|]. split; [intros; lia|done]. }
  rewrite !shift_cell by lia. assert (0 ≤ i * cell b) by nia. erewrite St_bind_done by (apply wr_run; lia).
  destruct (IH (i + 1) (with_words h (upd (words h) (base + i * cell b) (base + (i + 1) * cell b)))) as (m' & E & H1 & H2); [lia|].
  exists m'. split; [by rewrite E|]. split.
  - intros j Hj. destruct (decide (j = i)) as [->|]; [|apply H1; lia].
    rewrite H2 by (intros k Hk E2; nia). apply upd_eq.
  - intros x Hx. rewrite H2 by (intros j Hj; apply Hx; lia). apply upd_ne, Hx. lia.
Qed.

Lemma cells_available b : 0 ≤ b < BIG_BIN →
  (PAGE_SIZE - bin_header) / cell b = Z.of_nat (S (Z.to_nat (Z.shiftr (PAGE_SIZE - bin_header) (SMALLEST_BIN_LOG + b) - 1))).
Proof. revert b. apply bins_all. repeat (apply Forall_cons; split; [by vm_compute|]). by apply Forall_nil. Qed.

Lemma sbrk_run h n : n mod PAGE_SIZE = 0 → 0 ≤ n ≤ 0x1F00000 → 0 ≤ brk h → brk h + n < 2 ^ 64 →
  sbrk n h = Done (brk h, with_brk h (brk h + n)).
Proof.
  intros Hm Hn Hb Hlt. unfold sbrk. rewrite Hm. cbn [Z.eqb negb]. rewrite (proj2 (Z.ltb_ge 0x1F00000 n)) by lia.
  by rewrite u64_small by lia.
Qed.

Section new.
Context (h : heap) (G : gmap Z page) (X : list snode) (I : inv h G X).
Context (b : Z) (Hb : 0 ≤ b < BIG_BIN) (Hhd : bin_heads h !!! Z.to_nat b = NULL) (Hroom : brk h + PAGE_SIZE < 2 ^ 64).

(** The memory a new bin leaves. *)
Record fresh_bin (m : Z → Z) : Prop := {
  fb_magic : m (brk h + MAGIC) = BIN_MAGIC;
  fb_head : m (brk h + HEAD) = brk h + bin_header;
  fb_next : m (brk h + NEXT) = NULL;
  fb_size : m (brk h + SIZE) = b;
  fb_cells : listed m 0 (brk h + bin_header) (new_cells (brk h) b);
  fb_frame : ∀ x, x < brk h ∨ brk h + PAGE_SIZE ≤ x → m x = words h x
}.

Lemma new_bin_fills : ∃ m, new_bin b h = Done (brk h,
    with_words (with_bin_heads (with_brk h (brk h + PAGE_SIZE)) (<[Z.to_nat b := brk h]> (bin_heads h))) m) ∧ fresh_bin m.
Proof using I Hb Hhd Hroom.
  destruct (in_brk _ _ _ I) as [Bm [Blo _]]. unfold HEAP_START in Blo. unfold new_bin.
  rewrite (St_bind_done _ _ _ _ _ (sbrk_run h PAGE_SIZE eq_refl ltac:(unfold PAGE_SIZE; lia) ltac:(lia) Hroom)).
  set (a := brk h) in *. wr_step. assert_step (proj2 (Z.eqb_eq _ _) Bm). wr_step.
  set (m1 := upd (words h) (a + MAGIC) BIN_MAGIC). set (m2 := upd m1 (a + HEAD) (a + bin_header)).
  set (h3 := with_words (with_bin_heads (with_brk h (a + PAGE_SIZE)) (<[Z.to_nat b := a]> (bin_heads h))) (upd m2 (a + NEXT) NULL)).
  assert (Run : klmalloc_list_insert b a (with_words (with_words (with_brk h (a + PAGE_SIZE)) m1) m2) = Done (tt, h3)).
  { unfold klmalloc_list_insert. erewrite St_bind_done by (apply bin_first_run, (heads_bound h G X b I Hb)).
    wr_step. cbn [bin_heads with_words with_brk]. rewrite Hhd. done. }
  erewrite St_bind_done by exact Run. rd_step.
  assert (words h3 (a + HEAD) = a + bin_header) as -> by (cbn; unfold m2; rewrite upd_ne, upd_eq; [done|offsets; lia]).
  set (n := Z.to_nat (Z.shiftr (PAGE_SIZE - bin_header) (SMALLEST_BIN_LOG + b) - 1)).
  destruct (fill_run (a + bin_header) b n Hb ltac:(offsets; lia) 0 h3 ltac:(lia)) as (m4 & E4 & F1 & F2).
  rewrite (St_bind_done _ _ _ _ _ E4). pose proof (cells_available b Hb) as Hav. fold n in Hav.
  destruct (cell_facts b Hb) as (C0 & _). rewrite shift_cell by lia.
  assert (En : Z.shiftr (PAGE_SIZE - bin_header) (SMALLEST_BIN_LOG + b) - 1 = Z.of_nat n).
  { unfold n. rewrite Z2Nat.id; [done|]. clear -Hb. revert b Hb. apply bins_all.
    repeat (apply Forall_cons; split; [by vm_compute|]). by apply Forall_nil. }
  rewrite En. assert (Hin : ∀ j, 0 ≤ j ≤ Z.of_nat n → is_cell a b (a + bin_header + j * cell b)).
  { intros j Hj. exists j. split; [lia|done]. }
  pose proof (λ j Hj, cell_bounds a b _ Hb (Hin j Hj)) as Hcb.
  destruct (Hcb (Z.of_nat n) ltac:(lia)) as (Hn1 & Hn2 & _). wr_step. wr_step.
  eexists. split; [reflexivity|]. cbn [words with_words]. set (last := a + bin_header + Z.of_nat n * cell b) in *.
  set (m5 := upd m4 last NULL). set (m6 := upd m5 (a + SIZE) b).
  assert (Hm : ∀ x, x < a + bin_header ∨ a + PAGE_SIZE ≤ x → x ≠ a + SIZE → m6 x = words h3 x).
  { intros x Hx Hs. unfold m6, m5. rewrite !upd_ne by lia. apply F2. intros j Hj ->.
    destruct (Hcb j ltac:(lia)) as (? & ? & _). lia. }
  assert (Hcell : ∀ j, 0 ≤ j ≤ Z.of_nat n → j ≠ Z.of_nat n → m6 (a + bin_header + j * cell b) = a + bin_header + (j + 1) * cell b).
  { intros j Hj Hjn. destruct (Hcb j Hj) as (? & _). unfold m6, m5. rewrite !upd_ne by (unfold last; offsets; nia). apply F1. lia. }
  split.
  - rewrite Hm by (offsets; lia). cbn. unfold m2, m1. by rewrite !upd_ne, upd_eq by (offsets; lia).
  - rewrite Hm by (offsets; lia). cbn. unfold m2. by rewrite upd_ne, upd_eq by (offsets; lia).
  - rewrite Hm by (offsets; lia). cbn. by rewrite upd_eq.
  - unfold m6. by rewrite upd_eq.
  - unfold new_cells. fold a. rewrite Hav, Nat2Z.id. replace (a + bin_header) with (a + bin_header + 0 * cell b) at 1 by lia.
    apply cells_from_listed; [done|offsets; lia|lia|intros j Hj; apply Hcell; lia|].
    unfold m6, m5. rewrite upd_ne by (unfold last in *; offsets; lia). by rewrite upd_eq.
  - intros x Hx. fold a in Hx. rewrite Hm by (offsets; lia). cbn. unfold m2, m1. by rewrite !upd_ne by (offsets; lia).
Qed.

Lemma no_run : G !! brk h = None.
Proof using I.
  destruct (G !! brk h) as [P|] eqn:E; [|done]. destruct (in_pages _ _ _ I _ _ E) as (_ & _ & H & _).
  pose proof (inv_span h G X I _ _ E). offsets. lia.
Qed.

Lemma new_bin_run : ∃ h', new_bin b h = Done (brk h, h') ∧
  inv h' (<[brk h := Small b (new_cells (brk h) b)]> G) X ∧ mem_lock h' = mem_lock h ∧ brk h' = brk h + PAGE_SIZE ∧
  bin_heads h' !!! Z.to_nat b = brk h ∧ ∀ x, x < brk h → words h' x = words h x.
Proof using I Hb Hhd Hroom.
  destruct new_bin_fills as (m & E & F). eexists. split; [exact E|]. set (h' := with_words _ m).
  pose proof (heads_bound h G X b I Hb) as Hlen. destruct (cell_facts b Hb) as (C0 & _).
  assert (Hh' : bin_heads h' !!! Z.to_nat b = brk h) by (by apply list_set_total).
  assert (Hn0 : new_cells (brk h) b ≠ []) by (unfold new_cells; rewrite (cells_available b Hb), Nat2Z.id; done).
  destruct (in_brk _ _ _ I) as [_ [Blo _]].
  split_and!; [|done|done|done|intros x Hx; apply F; by left].
  apply (small_inv h G X I (brk h) b _ [brk h] h'). split; [done| | | | | |done].
  - split; [apply F|]. split; [done|]. split; [apply F|]. split_and!.
    + change (words h') with m. rewrite (fb_head _ F). apply F.
    + by apply cells_from_nodup. + intros c. by apply new_cells_is.
  - apply F.
  - by rewrite no_run.
  - split; [cbn; rewrite length_insert; apply I|]. intros b' Hb' Hne. cbn. apply list_set_total_ne. lia.
  - split; [apply NoDup_singleton|]. rewrite Hh'. split.
    + simpl. split; [done|]. split; [unfold NULL, HEAP_START in *; lia|]. apply (fb_next _ F).
    + intros y. rewrite list_elem_of_singleton. split.
      * intros ->. rewrite lookup_insert_eq. by eexists.
      * destruct (decide (y = brk h)) as [|Hy]; [done|]. rewrite lookup_insert_ne by done. intros (s & Hs & Hs0).
        destruct (in_bins _ _ _ I b Hb) as (l & _ & L & BE). rewrite Hhd in L.
        assert (Hl : y ∈ l) by (apply BE; by exists s). destruct l as [|z l]; [by apply elem_of_nil in Hl|].
        simpl in L. destruct L as (<- & ? & _). done.
Qed.
End new.

(** ** Blocks *)

(** The live blocks: [n] bytes at [p]. *)
Definition block (G : gmap Z page) (p n : Z) : Prop :=
  (∃ a b st, G !! a = Some (Small b st) ∧ is_cell a b p ∧ p ∉ st ∧ n = cell b) ∨
  (∃ a, G !! a = Some (Big n false) ∧ p = a + big_bin_header).

Lemma block_run h G X p n : inv h G X → block G p n → ∃ a P, G !! a = Some P ∧ (∀ x, p ≤ x < p + n → body a P x) ∧
  a + bin_header ≤ p ∧ p + n ≤ a + span P ∧ 8 ≤ n ∧ (p - a) mod 8 = 0.
Proof.
  intros I [(a & b & st & Ha & Hc & _ & ->)|(a & Ha & ->)]; eexists a, _; (split; [exact Ha|]); simpl.
  - destruct (inv_stack _ _ _ _ _ _ I Ha) as (Hb & _). destruct (cell_bounds a b p Hb Hc) as (? & ? & ?).
    destruct (cell_facts b Hb) as (? & ? & ?). unfold bin_header in *. split_and!; try lia; done.
  - destruct (inv_ok h G X I a _ Ha) as (_ & Hs & Hw & _). pose proof (inv_span h G X I _ _ Ha). simpl in *. offsets.
    split_and!; try lia. replace (a + 96 - a) with 96 by lia. done.
Qed.

(** A live block holds no header. *)
Lemma header_apart h G X a P q k x : inv h G X → G !! a = Some P → block G q k → q ≤ x < q + k →
  ¬ a ≤ x < a + bin_header.
Proof.
  intros I Ha Hq Hx Hin. destruct (block_run _ _ _ _ _ I Hq) as (c & Q & Hc & Hbody & H1 & H2 & _).
  pose proof (body_span _ _ _ _ (inv_ok h G X I c Q Hc) (Hbody x Hx)) as Hs. pose proof (inv_span h G X I _ _ Ha).
  assert (c = a) as ->; [|lia]. apply (runs_apart h G X I c a Q P x Hc Ha Hs). offsets. lia.
Qed.

(** A cell holds nothing of the other live blocks. *)
Lemma cell_apart h G X a b st p q k x : inv h G X → G !! a = Some (Small b st) → is_cell a b p →
  block G q k → q ≠ p → q ≤ x < q + k → ¬ p ≤ x < p + cell b.
Proof.
  intros I Ha Hp Hq Hne Hx Hin. destruct (inv_stack _ _ _ _ _ _ I Ha) as (Hb & _).
  destruct (cell_bounds a b p Hb Hp) as (? & ? & _). destruct Hq as [(d & b' & st' & Hd & Hcq & _ & ->)|(d & Hd & ->)].
  - destruct (inv_stack _ _ _ _ _ _ I Hd) as (Hb' & _). destruct (cell_bounds d b' q Hb' Hcq) as (? & ? & _).
    assert (d = a) as -> by (apply (runs_apart h G X I d a _ _ x Hd Ha); simpl; offsets; lia).
    rewrite Ha in Hd. injection Hd as <- <-. destruct (cells_apart a b q p Hb Hcq Hp Hne); lia.
  - pose proof (inv_span h G X I _ _ Hd). simpl in *.
    assert (d = a) as ->; [|congruence]. apply (runs_apart h G X I d a _ _ x Hd Ha); simpl; offsets; lia.
Qed.

(** A free cell is no live block. *)
Lemma free_not_block h G X a b st c k : inv h G X → G !! a = Some (Small b st) → c ∈ st → ¬ block G c k.
Proof.
  intros I Ha Hin. destruct (inv_stack _ _ _ _ _ _ I Ha) as (Hb & _ & _ & _ & _ & C). pose proof (C c Hin) as Cc.
  destruct (cell_bounds a b c Hb Cc) as (? & ? & _). destruct (cell_facts b Hb).
  intros [(d & b' & st' & Hd & Hcq & Hst & _)|(d & Hd & E)].
  - destruct (inv_stack _ _ _ _ _ _ I Hd) as (Hb' & _). destruct (cell_bounds d b' c Hb' Hcq) as (? & ? & _). destruct (cell_facts b' Hb').
    assert (d = a) as -> by (apply (runs_apart h G X I d a _ _ c Hd Ha); simpl; offsets; lia).
    rewrite Ha in Hd. injection Hd as <- <-. done.
  - pose proof (inv_ok h G X I _ _ Hd) as (_ & ? & _).
    assert (d = a) as ->; [|congruence]. apply (runs_apart h G X I d a _ _ c Hd Ha); simpl; offsets; lia.
Qed.

(** A live block holds nothing of a free large run, and no links of any. *)
Lemma unused_apart h G X a s p n x : inv h G X → G !! a = Some (Big s true) → block G p n → p ≤ x < p + n → ¬ a ≤ x < a + span (Big s true).
Proof.
  intros I Ha Hp Hx Hin. destruct Hp as [(d & b & st & Hd & Hc & _ & ->)|(d & Hd & ->)].
  - destruct (inv_stack _ _ _ _ _ _ I Hd) as (Hb & _). destruct (cell_bounds d b p Hb Hc) as (? & ? & _).
    assert (d = a) as ->; [|congruence]. apply (runs_apart h G X I d a _ _ x Hd Ha); simpl in *; offsets; lia.
  - assert (d = a) as ->; [|congruence]. apply (runs_apart h G X I d a _ _ x Hd Ha); simpl in *; offsets; lia.
Qed.

Lemma links_apart h G X a s p n x : inv h G X → G !! a = Some (Big s true) → block G p n → p ≤ x < p + n → ¬ a ≤ x < a + big_bin_header.
Proof.
  intros I Ha Hp Hx Hin. apply (unused_apart h G X a s p n x I Ha Hp Hx). pose proof (inv_ok h G X I _ _ Ha) as (_ & ? & _). simpl. lia.
Qed.

(** Taking a cell makes it live. *)
Lemma block_take h G X a b c st : inv h G X → G !! a = Some (Small b (c :: st)) →
  (∀ q k, block (<[a := Small b st]> G) q k ↔ block G q k ∨ (q = c ∧ k = cell b)) ∧ (∀ k, ¬ block G c k).
Proof.
  intros I Ha. destruct (inv_stack _ _ _ _ _ _ I Ha) as (Hb & _ & _ & _ & N & C).
  apply NoDup_cons in N as [Hc _]. pose proof (C c ltac:(by left)) as Cc. split; [|intros k; apply (free_not_block h G X a b (c :: st) c k I Ha); by left].
  intros q k. split.
  - intros [(d & b' & st' & Hd & Hcq & Hst & ->)|(d & Hd & ->)].
      * destruct (decide (d = a)) as [->|Hne].
        -- rewrite lookup_insert_eq in Hd. injection Hd as <- <-. destruct (decide (q = c)) as [->|Hqc]; [by right|].
           left. left. exists a, b, (c :: st). rewrite elem_of_cons. split_and!; [done|done|tauto|done].
        -- rewrite lookup_insert_ne in Hd by done. left. left. by exists d, b', st'.
      * left. right. exists d. split; [|done]. destruct (decide (d = a)) as [->|Hne].
        -- by rewrite lookup_insert_eq in Hd. -- by rewrite lookup_insert_ne in Hd.
  - intros [[(d & b' & st' & Hd & Hcq & Hst & ->)|(d & Hd & ->)]|[-> ->]].
      * left. destruct (decide (d = a)) as [->|Hne].
        -- rewrite Ha in Hd. injection Hd as <- <-. exists a, b, st. rewrite lookup_insert_eq.
           rewrite elem_of_cons in Hst. split_and!; [done|done|tauto|done].
        -- exists d, b', st'. by rewrite lookup_insert_ne.
      * right. exists d. rewrite lookup_insert_ne; [done|congruence].
      * left. exists a, b, st. by rewrite lookup_insert_eq.
Qed.

(** A new bin has no live cells. *)
Lemma block_new h G X b q k : inv h G X → 0 ≤ b < BIG_BIN →
  block (<[brk h := Small b (new_cells (brk h) b)]> G) q k ↔ block G q k.
Proof.
  intros I Hb. pose proof (no_run h G X I) as Hn. split.
  - intros [(d & b' & st' & Hd & Hcq & Hst & ->)|(d & Hd & ->)]; (destruct (decide (d = brk h)) as [->|Hne];
      [rewrite lookup_insert_eq in Hd|rewrite lookup_insert_ne in Hd by done]).
    + injection Hd as <- <-. by rewrite new_cells_is in Hst.
    + left. by exists d, b', st'. + done. + right. by exists d.
  - intros [(d & b' & st' & Hd & Hcq & Hst & ->)|(d & Hd & ->)].
    + left. exists d, b', st'. rewrite lookup_insert_ne; [done|congruence].
    + right. exists d. rewrite lookup_insert_ne; [done|congruence].
Qed.

(** What an allocation does. *)
Record allocated (h : heap) (G : gmap Z page) (h' : heap) (G' : gmap Z page) (p n : Z) : Prop := {
  al_blocks : ∀ q k, block G' q k ↔ block G q k ∨ (q = p ∧ k = n);
  al_fresh : ∀ k, ¬ block G p k;
  al_keeps : ∀ q k x, block G q k → q ≤ x < q + k → words h' x = words h x;
  al_lock : mem_lock h' = mem_lock h;
  al_brk : brk h ≤ brk h' ≤ brk h + 0x1F00000
}.

Lemma bin_head_cases h G X b : inv h G X → 0 ≤ b < BIG_BIN → bin_heads h !!! Z.to_nat b ≠ NULL →
  ∃ c st, G !! (bin_heads h !!! Z.to_nat b) = Some (Small b (c :: st)).
Proof.
  intros I Hb Hn. destruct (bin_list _ _ _ _ _ I Hb eq_refl Hn) as (l & _ & _ & E).
  destruct (proj1 (E _) ltac:(by left)) as (st & Hst & Hst0). destruct st as [|c st]; [done|]. by exists c, st.
Qed.

Lemma klmalloc_small fuel h G X size : inv h G X → 0 < size → klmalloc_bin_size size < BIG_BIN →
  brk h + 0x1F00000 < 2 ^ 64 →
  ∃ p n h' G', klmalloc fuel size h = Done (p, h') ∧ inv h' G' X ∧ allocated h G h' G' p n ∧ size ≤ n.
Proof.
  intros I Hs Hlt Hroom. destruct (bin_size_fits size Hs) as [Hb0 Hfit]. set (b := klmalloc_bin_size size) in *.
  assert (Hb : 0 ≤ b < BIG_BIN) by lia. specialize (Hfit Hlt). unfold klmalloc. rewrite (proj2 (Z.eqb_neq size 0)) by lia.
  fold b. rewrite (proj2 (Z.ltb_lt _ _) Hlt). unfold klmalloc_list_head.
  rewrite (St_bind_done _ _ _ _ _ (bin_first_run h b (heads_bound h G X b I Hb))).
  destruct (in_brk _ _ _ I) as [_ [Blo _]].
  destruct (Z.eqb_spec (bin_heads h !!! Z.to_nat b) NULL) as [E0|E0].
  - destruct (new_bin_run h G X I b Hb E0 ltac:(unfold PAGE_SIZE; lia)) as (h1 & R1 & I1 & L1 & B1 & Hd1 & F1).
    rewrite (St_bind_done _ _ _ _ _ R1). set (G1 := <[brk h := _]> G) in *.
    destruct (bin_head_cases h1 G1 X b I1 Hb) as (c & st & Hc).
    { rewrite Hd1. unfold NULL, HEAP_START in *. lia. }
    rewrite Hd1 in Hc. destruct (take_run h1 G1 X I1 (brk h) b c st Hc Hd1) as (h2 & R2 & I2 & L2 & B2 & F2).
    exists c, (cell b), h2, (<[brk h := Small b st]> G1). fold (take_cell b (brk h)).
    split; [exact R2|]. split; [done|]. split; [|done]. destruct (block_take h1 G1 X _ _ _ _ I1 Hc) as [T1 T2]. split.
    + intros q k. rewrite T1. unfold G1. by rewrite (block_new h G X b q k I Hb).
    + intros k Hk. apply (T2 k). unfold G1. by rewrite (block_new h G X b c k I Hb).
    + intros q k x Hq Hx. destruct (block_run _ _ _ _ _ I Hq) as (d & P & Hd & _ & Hq1 & Hq2 & _).
      destruct (in_pages _ _ _ I d P Hd) as (_ & _ & ? & _). rewrite F2 by (offsets; lia). apply F1. lia.
    + congruence. + rewrite B2, B1. unfold PAGE_SIZE. lia.
  - destruct (bin_head_cases h G X b I Hb E0) as (c & st & Hc). set (a := bin_heads h !!! Z.to_nat b) in *.
    destruct (inv_stack _ _ _ _ _ _ I Hc) as (_ & _ & HM & _ & _ & C). destruct (small_range _ _ _ _ _ _ I Hc) as (_ & Hlo & _).
    assert (Rm : (magic ← rd (a + MAGIC); assert_ (magic =? BIN_MAGIC);; mret a) h = Done (a, h)).
    { unfold HEAP_START in Hlo. rd_step. rewrite HM. done. }
    rewrite (St_bind_done _ _ _ _ _ Rm).
    destruct (take_run h G X I a b c st Hc eq_refl) as (h2 & R2 & I2 & L2 & B2 & F2).
    exists c, (cell b), h2, (<[a := Small b st]> G). fold (take_cell b a).
    split; [exact R2|]. split; [done|]. split; [|done]. destruct (block_take h G X _ _ _ _ I Hc) as [T1 T2]. split; [done|done| |done|lia].
    intros q k x Hq Hx. pose proof (header_apart h G X a _ q k x I Hc Hq Hx). apply F2; offsets; lia.
Qed.

(** ** Large blocks *)

Lemma free_pages h G X : inv h G X → (length X ≤ Z.to_nat ((brk h - HEAP_START) / PAGE_SIZE))%nat.
Proof.
  intros I. set (n := Z.to_nat ((brk h - HEAP_START) / PAGE_SIZE)).
  set (page_no := λ v, Z.to_nat ((sa v - HEAP_START) / PAGE_SIZE)).
  assert (Hv : ∀ v, v ∈ X → sa v mod PAGE_SIZE = 0 ∧ HEAP_START ≤ sa v ∧ sa v + PAGE_SIZE ≤ brk h).
  { intros v Hv. pose proof (node_run h G X I v Hv) as E. destruct (in_pages _ _ _ I _ _ E) as (? & ? & ? & _).
    pose proof (inv_span h G X I _ _ E). split_and!; [done|done|lia]. }
  assert (Hs : page_no <$> X ⊆+ seq 0 n).
  { apply NoDup_submseteq.
    - pose proof (sk_nodup _ _ _ _ (in_skip _ _ _ I)) as N. clear -Hv N. induction X as [|v Y IH]; [constructor|].
      rewrite fmap_cons in *. apply NoDup_cons in N as [N1 N2]. apply NoDup_cons. split; [|apply IH; [intros w Hw; apply Hv; by right|done]].
      intros (w & E & Hw)%list_elem_of_fmap. apply N1, list_elem_of_fmap. exists w. split; [|done].
      destruct (Hv v ltac:(by left)) as (Hm & Hl & _), (Hv w ltac:(by right)) as (Hm' & Hl' & _).
      unfold page_no, HEAP_START, PAGE_SIZE in *. apply Z2Nat.inj in E; [|apply Z.div_pos; lia|apply Z.div_pos; lia].
      clear -E Hm Hm'. Z.div_mod_to_equations. lia.
    - intros y (v & -> & Hin)%list_elem_of_fmap. destruct (Hv v Hin) as (Hm & Hl & Hh). apply elem_of_seq.
      split; [lia|]. unfold page_no, n. apply Z2Nat.inj_lt; [apply Z.div_pos; unfold PAGE_SIZE in *; lia|apply Z.div_pos; unfold PAGE_SIZE in *; lia|].
      unfold PAGE_SIZE, HEAP_START in *. destruct (in_brk _ _ _ I) as [Bm _]. unfold PAGE_SIZE in Bm. clear -Hm Bm Hl Hh.
      Z.div_mod_to_equations. lia. }
  apply submseteq_length in Hs. by rewrite length_fmap, length_seq in Hs.
Qed.

Section large.
Context (h : heap) (G : gmap Z page) (X : list snode) (I : inv h G X).

(** What [h'] is when an operation has changed the large run at [a]. *)
Record large_change (a s : Z) (f : bool) (X' : list snode) (h' : heap) : Prop := {
  lc_page : page_ok (words h') a (Big s f);
  lc_frame : elsewhere G a (words h) (words h');
  lc_was : match G !! a with
    | Some P => (∃ f0, P = Big s f0) ∧ brk h' = brk h
    | None => a = brk h ∧ brk h' = brk h + (s + big_bin_header) ∧ brk h' < 2 ^ 64
    end;
  lc_heads : bin_heads h' = bin_heads h;
  lc_skip : skip_ok (words h') (big_bins h') (level h') X';
  lc_free : ∀ p t, (∃ v, v ∈ X' ∧ sa v = p ∧ ss v = t) ↔ <[a := Big s f]> G !! p = Some (Big t true);
  lc_big : big_bins h' = big_bins h;
  lc_newest : newest_big h' = newest_big h ∨ newest_big h' = a
}.

Lemma large_inv a s f X' h' : large_change a s f X' h' → inv h' (<[a := Big s f]> G) X'.
Proof using I.
  intros [Pg F W Hd Sk Fr Bg Nw]. pose proof (span_pos _ _ _ Pg) as Hspan. simpl in Hspan.
  pose proof (in_brk _ _ _ I) as [B1 B2].
  assert (Wm : whole_pages s = true) by apply Pg. unfold whole_pages in Wm. apply Z.eqb_eq in Wm.
  assert (A : a mod PAGE_SIZE = 0 ∧ HEAP_START ≤ a ∧ a + (s + big_bin_header) ≤ brk h' ∧ brk h' mod PAGE_SIZE = 0 ∧
    HEAP_START ≤ brk h' < 2 ^ 64 ∧ brk h ≤ brk h').
  { destruct (G !! a) as [P|] eqn:Ha.
    - destruct W as [[f0 ->] ->]. destruct (in_pages _ _ _ I a _ Ha) as (? & ? & ? & _). simpl in *. split_and!; done || lia.
    - destruct W as (-> & Eb & Hlt). offsets. split_and!; try done; try lia. rewrite Eb, Z.add_mod, B1, Wm by done. done. }
  destruct A as (A1 & A2 & A3 & A4 & A5 & A6).
  assert (Ap : ∀ p P, p ≠ a → G !! p = Some P → (p < a → p + span P ≤ a) ∧ (a < p → a + (s + big_bin_header) ≤ p)).
  { intros p P Hne Hp. destruct (G !! a) as [Q|] eqn:Ha.
    - destruct W as [[f0 ->] _]. split; intros Hlt.
      + by apply (in_apart _ _ _ I p a P (Big s f0)). + by apply (in_apart _ _ _ I a p (Big s f0) P).
    - destruct W as (-> & _). destruct (in_pages _ _ _ I p P Hp) as (? & ? & ? & Ok). pose proof (span_pos _ _ _ Ok). offsets. split; lia. }
  assert (Ns : ∀ b st, G !! a ≠ Some (Small b st)).
  { intros b st E. rewrite E in W. by destruct W as [[f0 ?] _]. }
  split; try done.
  - rewrite Bg. apply I.
  - intros p P. destruct (decide (p = a)) as [->|Hne]; [rewrite lookup_insert_eq; by intros [= <-]|].
    rewrite lookup_insert_ne by done. intros Hp. destruct (in_pages _ _ _ I p P Hp) as (? & ? & ? & _).
    split_and!; [done|done|lia|]. by apply (elsewhere_page h G X I _ a p P F).
  - intros p q P Q. destruct (decide (p = a)) as [->|Hpa], (decide (q = a)) as [->|Hqa]; [lia| | |].
    + rewrite lookup_insert_eq, lookup_insert_ne by done. intros [= <-] Hq Hlt. by apply (Ap q Q).
    + rewrite lookup_insert_eq, lookup_insert_ne by done. intros Hp _ Hlt. by apply (Ap p P).
    + rewrite !lookup_insert_ne by done. apply I.
  - rewrite Hd. apply I.
  - intros b Hb. destruct (in_bins _ _ _ I b Hb) as (l & N & L & E). exists l. split; [done|]. rewrite Hd. split.
    + apply (elsewhere_bin h G X I (words h') a b l F); [|intros c Hc; apply E in Hc as (st & ? & _); by exists st|done].
      intros (st & Hst & _)%E. by apply Ns in Hst.
    + intros c. rewrite E. destruct (decide (c = a)) as [->|Hca]; [|by rewrite lookup_insert_ne by done].
      rewrite lookup_insert_eq. split; [intros (st & Hst & _); by apply Ns in Hst|by intros (st & ? & _)].
  - destruct Nw as [->| ->]; [|right; exists s, f; by rewrite lookup_insert_eq].
    destruct (in_newest _ _ _ I) as [?|(t & g & E)]; [by left|right].
    destruct (decide (newest_big h = a)) as [->|Hne]; [exists s, f; by rewrite lookup_insert_eq|].
    exists t, g. by rewrite lookup_insert_ne.
Qed.

(** The nodes of the skip list are large runs. *)
Lemma nodes_large p : p ∈ sa <$> X → ∃ s f, G !! p = Some (Big s f).
Proof using I. intros (v & -> & Hv)%list_elem_of_fmap. exists (ss v), true. by apply (node_run h G X I). Qed.

Lemma free_head a s : G !! a = Some (Big s true) → head_ok h a (a + big_bin_header) s.
Proof using I.
  intros Ha. destruct (in_pages _ _ _ I a _ Ha) as (_ & Hlo & Hhi & Ok). pose proof (span_pos _ _ _ Ok) as Hsp.
  destruct Ok as (_ & Hs & _ & Es & Eh & _). pose proof (in_brk _ _ _ I) as [_ [_ ?]]. simpl in *. unfold HEAP_START in *.
  split; try done; try (offsets; lia). unfold NUM_BINS. offsets. rewrite (proj2 (Z.ltb_lt 10 s)) by lia. lia.
Qed.

(** A word at the front of a run is none of the skip list's. *)
Lemma front_skip m' H l X' a o : skip_ok m' H l X' → a mod PAGE_SIZE = 0 → H + big_bin_header ≤ a → 0 ≤ o < FORWARD 0 →
  o ≠ SIZE → ∀ y, skip_ok (upd m' (a + o) y) H l X'.
Proof using.
  intros OK Ha HH Ho Hne y. apply (skip_ok_frame m'); [| |done].
  - intros i x Hi Hx. apply upd_ne. intros E. apply (forward_front H x a i o); [|done|done|done|done|done].
    apply elem_of_cons in Hx as [->|(v & -> & Hv)%list_elem_of_fmap]; [by left|right]. by apply (sk_addr _ _ _ _ OK).
  - intros v Hv. apply upd_ne. intros E. destruct (sk_addr _ _ _ _ OK v Hv) as [Hm _]. apply Hne.
    assert (sa v = a) as Ea; [|lia]. apply page_apart; [done|done|]. offsets. lia.
Qed.

Lemma above_best s x post : above s X = x :: post → above (ss x) X = x :: post.
Proof using I.
  intros E. pose proof (sk_sorted _ _ _ _ (in_skip _ _ _ I)) as S. pose proof (split_size s X S) as EX. rewrite E in EX.
  assert (Hx : ¬ ss x < s).
  { assert (Hx : x ∈ above s X) by (rewrite E; by left). unfold above in Hx. by apply list_elem_of_filter in Hx as [? _]. }
  rewrite EX. unfold above. rewrite filter_app. rewrite EX in S. apply StronglySorted_app in S as (_ & _ & S).
  apply StronglySorted_inv in S as [_ S]. rewrite filter_cons_True by lia.
  assert (E1 : filter (λ y, ¬ ss y < ss x) (below s X) = []).
  { unfold below. rewrite list_filter_filter. clear -Hx. induction X as [|y Y IH]; [done|].
    rewrite filter_cons_False; [done|lia]. }
  assert (E2 : filter (λ y, ¬ ss y < ss x) post = post).
  { clear -S. induction S as [|y Y Hy HY IH]; [done|]. unfold by_size in Hy. rewrite filter_cons_True by lia. by rewrite IH. }
  by rewrite E1, E2.
Qed.

Lemma deleted_free x post : above (ss x) X = x :: post →
  ∀ p t, (∃ v, v ∈ deleted X x post ∧ sa v = p ∧ ss v = t) ↔ <[sa x := Big (ss x) false]> G !! p = Some (Big t true).
Proof using I.
  intros Hab p t. pose proof (in_skip _ _ _ I) as OK. pose proof (deleted_perm _ _ _ _ OK x post Hab) as P.
  pose proof (sk_nodup _ _ _ _ OK) as N. rewrite P, fmap_cons in N. apply NoDup_cons in N as [N _].
  destruct (decide (p = sa x)) as [->|Hne].
  - rewrite lookup_insert_eq. split; [|done]. intros (v & Hv & Ev & _). exfalso. apply N. rewrite <-Ev. by apply list_elem_of_fmap_2.
  - rewrite lookup_insert_ne by done. rewrite <-(in_free _ _ _ I). split; intros (v & Hv & Ev & Es); exists v; (split; [|done]).
    + rewrite P. by right. + rewrite P in Hv. apply elem_of_cons in Hv as [->|]; done.
Qed.

(** Taking the best free block. *)
Lemma klmalloc_reuse fuel size x post : (length X < fuel)%nat → above size X = x :: post →
  ∃ h' X', (klmalloc_skip_list_delete fuel (sa x);; klmalloc_stack_pop (sa x)) h = Done (sa x + big_bin_header, h') ∧
    inv h' (<[sa x := Big (ss x) false]> G) X' ∧ mem_lock h' = mem_lock h ∧ brk h' = brk h ∧
    (∀ b Q y, G !! b = Some Q → body b Q y → y ≠ sa x + HEAD → words h' y = words h y).
Proof using I.
  intros Hf Hab0. pose proof (in_skip _ _ _ I) as OK. pose proof (above_best size x post Hab0) as Hab.
  assert (Hx : x ∈ X) by (apply (above_in size); rewrite Hab0; by left). pose proof (node_run h G X I x Hx) as Ha.
  set (a := sa x) in *. set (s := ss x) in *. pose proof (free_head a s Ha) as Ho.
  destruct (delete_run fuel h X x post _ OK Hf Hab Ho) as (m1 & l1 & R1 & OK1 & F1). fold a in R1.
  destruct (in_pages _ _ _ I a _ Ha) as (Am & Alo & _ & AM & As & Aw & Az & Ah & Af).
  pose proof (λ b Q y, links_body h G X I _ _ m1 F1 nodes_large b Q y) as B1.
  pose proof (λ y, B1 a (Big s true) y Ha) as Ba. simpl in Ba.
  assert (M96 : m1 (a + big_bin_header) = NULL) by (rewrite Ba; [done|offsets; lia]).
  assert (MH : m1 (a + HEAD) = a + big_bin_header) by (rewrite Ba; [done|offsets; lia]).
  assert (MS : m1 (a + SIZE) = s) by (rewrite Ba; [done|offsets; lia]).
  unfold HEAP_START in Alo. pose proof (in_low _ _ _ I) as Hlow. unfold HEAP_START in Hlow.
  set (h1 := with_level (with_words h m1) l1) in *.
  set (h2 := with_words h1 (upd m1 (a + HEAD) NULL)).
  assert (Ho1 : head_ok h1 a (a + big_bin_header) s) by (destruct Ho; by split).
  assert (Hnb : (NUM_BINS <? s) = true).
  { apply Z.ltb_lt. pose proof (inv_span h G X I _ _ Ha). simpl in *. unfold NUM_BINS. offsets. lia. }
  assert (R2 : klmalloc_stack_pop a h1 = Done (a + big_bin_header, h2)).
  { unfold klmalloc_stack_pop. rewrite (St_bind_done _ _ _ _ _ (check_head_run _ _ _ _ Ho1)).
    rd_step. rd_step. change (words h1) with m1. rewrite MH, MS, Hnb. cbn [orb assert_].
    rewrite (St_bind_done (assert_ true) _ h1 tt h1 eq_refl). rd_step. change (words h1) with m1. rewrite M96. wr_step. done. }
  assert (Keep : ∀ b Q y, G !! b = Some Q → body b Q y → y ≠ a + HEAD → words h2 y = words h y).
  { intros b Q y Hb Hy Hne. change (words h2) with (upd m1 (a + HEAD) NULL). rewrite upd_ne by done. by apply (B1 b Q). }
  exists h2, (deleted X x post). split; [rewrite (St_bind_done _ _ _ _ _ R1); exact R2|]. split_and!; [|done|done|exact Keep].
  apply large_inv. split; [| | |done| |by apply deleted_free|done|by left].
  - change (words h2) with (upd m1 (a + HEAD) NULL). split; [rewrite upd_ne, Ba by (offsets; lia); done|].
    split_and!; [done|done|by rewrite upd_ne by (offsets; lia)|by rewrite upd_eq|done].
  - intros b Q y Hne Hb Hy. apply (Keep b Q); [done|done|]. intros ->. apply Hne.
    apply (runs_apart h G X I b a Q (Big s true) (a + HEAD) Hb Ha); [by apply (body_span (words h)), Hy; apply (inv_ok h G X I)|].
    simpl. offsets. lia.
  - rewrite Ha. split; [by exists true|done].
  - apply front_skip; [exact OK1|done|change (big_bins h2) with (big_bins h); offsets; lia|offsets; lia|done].
Qed.
End large.

(** Growing the heap by a large run. *)
Section grow.
Context (h : heap) (G : gmap Z page) (X : list snode) (I : inv h G X).
Context (size : Z) (Hs : 0 < size) (Hmax : size < 0x1F00000 - big_bin_header) (Hroom : brk h + 0x1F00000 < 2 ^ 64).

(** The end of [klmalloc]. *)
Definition grow (size : Z) : St heap Z :=
  let pages := u64 (size + big_bin_header) / PAGE_SIZE + 1 in
  a ← sbrk (u64 (PAGE_SIZE * pages));
  wr (a + MAGIC) BIN_MAGIC;;
  assert_ (a mod PAGE_SIZE =? 0);;
  wr (a + SIZE) (u64 (pages * PAGE_SIZE - big_bin_header));;
  sz ← rd (a + SIZE);
  assert_ (whole_pages sz);;
  prev ← gets newest_big;
  wr (a + PREV) prev;;
  (if negb (prev =? NULL) then wr (prev + NEXT) a else mret tt);;
  modify (λ h, with_newest h a);;
  wr (a + NEXT) NULL;;
  wr (a + HEAD) NULL;;
  mret (a + big_bin_header).

Definition grown : Z := ((size + big_bin_header) / PAGE_SIZE + 1) * PAGE_SIZE - big_bin_header.

Lemma grown_fits : size ≤ grown ∧ whole_pages grown = true ∧ 0 < grown ∧ grown + big_bin_header ≤ 0x1F00000.
Proof using Hs Hmax.
  unfold grown, whole_pages. rewrite Z.sub_add, Z_mod_mult. offsets.
  pose proof (Z.mul_div_le (size + 96) 4096 ltac:(lia)). pose proof (Z.mul_succ_div_gt (size + 96) 4096 ltac:(lia)).
  assert ((size + 96) / 4096 < 7936) by (apply Z.div_lt_upper_bound; lia).
  split_and!; try done; lia.
Qed.

Lemma newest_addr : newest_big h ≠ NULL → ∃ s f, G !! newest_big h = Some (Big s f).
Proof using I. intros Hn. by destruct (in_newest _ _ _ I). Qed.

(** The memory a new large run leaves. *)
Record fresh_large (m : Z → Z) : Prop := {
  fl_magic : m (brk h + MAGIC) = BIN_MAGIC;
  fl_head : m (brk h + HEAD) = NULL;
  fl_size : m (brk h + SIZE) = grown;
  fl_frame : ∀ x, x < brk h → (newest_big h ≠ NULL → x ≠ newest_big h + NEXT) → m x = words h x
}.

Lemma grow_fills : ∃ m, grow size h =
    Done (brk h + big_bin_header, with_words (with_newest (with_brk h (brk h + (grown + big_bin_header))) (brk h)) m) ∧ fresh_large m.
Proof using I Hs Hmax Hroom.
  destruct grown_fits as (Hg & Hw & Hg0 & Hg1). destruct (in_brk _ _ _ I) as [Bm [Blo _]]. unfold HEAP_START in Blo.
  unfold grow. rewrite (u64_small (size + big_bin_header)) by (offsets; lia).
  set (pages := (size + big_bin_header) / PAGE_SIZE + 1).
  assert (Ep : PAGE_SIZE * pages = grown + big_bin_header) by (unfold grown; fold pages; offsets; lia).
  assert (Ep' : pages * PAGE_SIZE - big_bin_header = grown) by done. rewrite Ep, Ep', !u64_small by (offsets; lia).
  set (g := grown) in *.
  assert (Gm : (g + big_bin_header) mod PAGE_SIZE = 0) by (unfold whole_pages in Hw; by apply Z.eqb_eq in Hw).
  rewrite (St_bind_done _ _ _ _ _ (sbrk_run h (g + big_bin_header) Gm ltac:(offsets; lia) ltac:(lia) ltac:(lia))).
  set (a := brk h) in *. wr_step. assert_step (proj2 (Z.eqb_eq _ _) Bm). wr_step. rd_step.
  set (m2 := upd (upd (words h) (a + MAGIC) BIN_MAGIC) (a + SIZE) g).
  change (words _) with m2 at 1. assert (m2 (a + SIZE) = g) as -> by (unfold m2; by rewrite upd_eq).
  assert_step Hw. erewrite St_bind_done by reflexivity. cbn [newest_big with_words with_brk]. wr_step.
  set (h3 := with_words (with_words (with_words (with_brk h (a + (g + big_bin_header))) (upd (words h) (a + MAGIC) BIN_MAGIC)) m2) (upd m2 (a + PREV) (newest_big h))).
  set (m4 := if negb (newest_big h =? NULL) then upd (words h3) (newest_big h + NEXT) a else words h3).
  assert (Run : (if negb (newest_big h =? NULL) then wr (newest_big h + NEXT) a else mret tt) h3 = Done (tt, with_words h3 m4)).
  { unfold m4. destruct (Z.eqb_spec (newest_big h) NULL) as [E|E]; cbn [negb]; [by destruct h|]. apply wr_run.
    destruct (newest_addr E) as (s & f & En). destruct (in_pages _ _ _ I _ _ En) as (_ & ? & _). unfold HEAP_START in *. offsets. lia. }
  erewrite St_bind_done by exact Run. erewrite St_bind_done by reflexivity. wr_step. wr_step.
  eexists. split; [reflexivity|]. cbn [words with_words with_newest].
  assert (M4 : ∀ x, (newest_big h ≠ NULL → x ≠ newest_big h + NEXT) → m4 x = upd m2 (a + PREV) (newest_big h) x).
  { intros x Hx. unfold m4. destruct (Z.eqb_spec (newest_big h) NULL); cbn [negb]; [done|]. by apply upd_ne, Hx. }
  assert (Hin : ∀ o, 0 ≤ o → newest_big h ≠ NULL → a + o ≠ newest_big h + NEXT).
  { intros o Ho Hn. destruct (newest_addr Hn) as (s & f & En). destruct (in_pages _ _ _ I _ _ En) as (_ & _ & ? & _).
    pose proof (inv_span h G X I _ _ En). unfold a. offsets. lia. }
  split.
  - rewrite !upd_ne by (offsets; lia). rewrite M4 by (apply Hin; offsets; lia). unfold m2. by rewrite !upd_ne, upd_eq by (offsets; lia).
  - by rewrite upd_eq.
  - rewrite !upd_ne by (offsets; lia). rewrite M4 by (apply Hin; offsets; lia). unfold m2. by rewrite upd_ne, upd_eq by (offsets; lia).
  - intros x Hx Hn. fold a in Hx. rewrite !upd_ne by (offsets; lia). rewrite M4 by done. unfold m2. by rewrite !upd_ne by (offsets; lia).
Qed.

Lemma grow_run : ∃ h', grow size h = Done (brk h + big_bin_header, h') ∧
  inv h' (<[brk h := Big grown false]> G) X ∧ mem_lock h' = mem_lock h ∧ brk h' = brk h + (grown + big_bin_header) ∧
  ∀ b Q x, G !! b = Some Q → body b Q x → words h' x = words h x.
Proof using I Hs Hmax Hroom.
  destruct grow_fills as (m & E & F). destruct grown_fits as (Hg & Hw & Hg0 & Hg1). pose proof (no_run h G X I) as Hn.
  eexists. split; [exact E|]. set (h' := with_words _ m). pose proof (in_low _ _ _ I) as Hlow. destruct (in_brk _ _ _ I) as [_ [Blo _]].
  assert (Fb : ∀ b Q x, G !! b = Some Q → body b Q x → m x = words h x).
  { intros b Q x Hb Hx. pose proof (body_span _ _ _ _ (inv_ok h G X I b Q Hb) Hx) as Hxb.
    destruct (in_pages _ _ _ I b Q Hb) as (_ & _ & ? & _). apply (fl_frame _ F); [lia|].
    intros Hnn ->. destruct (newest_addr Hnn) as (s & f & En). pose proof (inv_span h G X I _ _ En).
    assert (newest_big h = b) as Eb by (apply (runs_apart h G X I _ b _ Q (newest_big h + NEXT) En Hb); [offsets; lia|exact Hxb]).
    rewrite <-Eb, En in Hb. injection Hb as <-. rewrite <-Eb in Hx. simpl in Hx. offsets. lia. }
  split_and!; [|done|done|exact Fb].
  apply (large_inv h G X I (brk h) grown false X h'). split; [| | |done| | |done|by right].
  - split; [apply F|]. split_and!; [done|done|apply F|apply F|done].
  - intros b Q x _ Hb Hx. by apply (Fb b Q).
  - rewrite Hn. cbn. split_and!; [done|done|lia].
  - change (big_bins h') with (big_bins h). apply (skip_ok_frame (words h)); [| |apply I].
    + intros i x Hi Hx. apply (fl_frame _ F).
      * apply elem_of_cons in Hx as [->|(v & -> & Hv)%list_elem_of_fmap]; [unfold HEAP_START in *; offsets; lia|].
        pose proof (node_run h G X I v Hv) as Er. destruct (in_pages _ _ _ I _ _ Er) as (_ & _ & ? & _).
        pose proof (inv_span h G X I _ _ Er). offsets. lia.
      * intros Hnn Ex. destruct (newest_addr Hnn) as (s & f & En). destruct (in_pages _ _ _ I _ _ En) as (Em & ? & _).
        apply (forward_front (big_bins h) x (newest_big h) i NEXT); [|done|lia|done|unfold NEXT, FORWARD; lia|by symmetry].
        apply elem_of_cons in Hx as [->|(v & -> & Hv)%list_elem_of_fmap]; [by left|right].
        by apply (sk_addr _ _ _ _ (in_skip _ _ _ I)).
    + intros v Hv. apply (Fb (sa v) _ _ (node_run h G X I v Hv)). simpl. offsets. lia.
  - intros p t. rewrite (in_free _ _ _ I). destruct (decide (p = brk h)) as [->|]; [by rewrite lookup_insert_eq, Hn|].
    by rewrite lookup_insert_ne.
Qed.
End grow.

(** Making a large run live. *)
Lemma block_large h G X a s : inv h G X → G !! a = Some (Big s true) ∨ a = brk h →
  (∀ q k, block (<[a := Big s false]> G) q k ↔ block G q k ∨ (q = a + big_bin_header ∧ k = s)) ∧
  (∀ k, ¬ block G (a + big_bin_header) k).
Proof.
  intros I Ha. assert (Hd : ∀ d P, G !! d = Some P → (∀ t, P ≠ Big t true) → d ≠ a).
  { intros d P Hd Ht ->. destruct Ha as [E| ->]; [rewrite E in Hd; by injection Hd as <-; destruct (Ht s)|].
    pose proof (no_run h G X I). congruence. }
  split.
  - intros q k. split.
    + intros [(d & b & st & E & H)|(d & E & ->)]; (destruct (decide (d = a)) as [->|Hne];
        [rewrite lookup_insert_eq in E|rewrite lookup_insert_ne in E by done]).
      * done. * left. left. by exists d, b, st. * injection E as <-. by right. * left. right. by exists d.
    + intros [[(d & b & st & E & H)|(d & E & ->)]|[-> ->]].
      * left. exists d, b, st. rewrite lookup_insert_ne; [done|]. symmetry. by apply (Hd d _ E).
      * right. exists d. rewrite lookup_insert_ne; [done|]. symmetry. by apply (Hd d _ E).
      * right. exists a. by rewrite lookup_insert_eq.
  - intros k Hk. destruct (block_run _ _ _ _ _ I Hk) as (d & P & E & Hb & H1 & H2 & H3 & _).
    pose proof (body_span _ _ _ _ (inv_ok h G X I d P E) (Hb (a + big_bin_header) ltac:(lia))) as Hs.
    destruct Ha as [Ha| ->].
    + assert (d = a) as -> by (apply (runs_apart h G X I d a P _ _ E Ha Hs); pose proof (inv_span h G X I _ _ Ha); simpl in *; offsets; lia).
      destruct Hk as [(c & b & st & Ec & Hc & _)|(c & Ec & Eq)].
      * destruct (inv_stack _ _ _ _ _ _ I Ec) as (Hbb & _). destruct (cell_bounds c b _ Hbb Hc) as (? & ? & _). destruct (cell_facts b Hbb).
        assert (c = a) as ->; [|congruence]. apply (runs_apart h G X I c a _ _ (a + big_bin_header) Ec Ha); [simpl; offsets; lia|].
        pose proof (inv_span h G X I _ _ Ha). simpl in *. offsets. lia.
      * assert (c = a) as -> by lia. congruence.
    + destruct (in_pages _ _ _ I d P E) as (_ & _ & ? & _). offsets. lia.
Qed.

Lemma klmalloc_large fuel h G X size : inv h G X → 0 < size → BIG_BIN ≤ klmalloc_bin_size size →
  size < 0x1F00000 - big_bin_header → brk h + 0x1F00000 < 2 ^ 64 → (length X < fuel)%nat →
  ∃ p n h' G' X', klmalloc fuel size h = Done (p, h') ∧ inv h' G' X' ∧ allocated h G h' G' p n ∧ size ≤ n.
Proof.
  intros I Hs Hb Hmax Hroom Hf. unfold klmalloc. rewrite (proj2 (Z.eqb_neq size 0)) by lia.
  rewrite (proj2 (Z.ltb_ge _ _) Hb). rewrite (St_bind_done _ _ _ _ _ (findbest_run fuel h X size (in_skip _ _ _ I) Hf)).
  unfold best. destruct (above size X) as [|x post] eqn:Ea.
  - cbn [fmap list_fmap hd]. rewrite Z.eqb_refl. cbn [negb]. fold (grow size).
    destruct (grow_run h G X I size Hs Hmax Hroom) as (h' & R & I' & L & B & K). destruct (grown_fits size Hs Hmax) as (Hg & _ & _ & Hg1).
    destruct (block_large h G X (brk h) (grown size) I ltac:(by right)) as [T1 T2].
    eexists _, _, h', _, X. split; [exact R|]. split; [exact I'|]. split; [|exact Hg]. split; [done|done| |done|offsets; lia].
    intros q k y Hq Hy. destruct (block_run _ _ _ _ _ I Hq) as (c & Q & Hc & Hbody & _). by apply (K c Q), Hbody.
  - cbn [fmap list_fmap hd]. assert (Hx : x ∈ above size X) by (rewrite Ea; by left).
    pose proof (node_run h G X I x (above_in _ _ _ Hx)) as Hr. unfold above in Hx. apply list_elem_of_filter in Hx as [Hge _].
    destruct (inv_ok h G X I _ _ Hr) as (_ & _ & _ & Es & _). destruct (in_pages _ _ _ I _ _ Hr) as (_ & Hlo & _). unfold HEAP_START in Hlo.
    rewrite (proj2 (Z.eqb_neq (sa x) NULL)) by (unfold NULL; lia). cbn [negb]. rd_step. rewrite Es.
    assert_step (proj2 (Z.leb_le size (ss x)) ltac:(lia)).
    destruct (klmalloc_reuse h G X I fuel size x post Hf Ea) as (h' & X' & R & I' & L & B & K).
    destruct (block_large h G X (sa x) (ss x) I ltac:(by left)) as [T1 T2].
    eexists _, (ss x), h', _, X'. split; [exact R|]. split; [exact I'|]. split; [|lia]. split; [done|done| |done|lia].
    intros q k y Hq Hy. destruct (block_run _ _ _ _ _ I Hq) as (c & Q & Hc & Hbody & _). apply (K c Q); [done|by apply Hbody|].
    intros ->. apply (header_apart h G X (sa x) _ q k _ I Hr Hq Hy). offsets. lia.
Qed.

Lemma klmalloc_run fuel h G X size : inv h G X → 0 < size < 0x1F00000 - big_bin_header → brk h + 0x1F00000 < 2 ^ 64 →
  (length X < fuel)%nat →
  ∃ p n h' G' X', klmalloc fuel size h = Done (p, h') ∧ inv h' G' X' ∧ allocated h G h' G' p n ∧ size ≤ n.
Proof.
  intros I [Hs Hmax] Hroom Hf. destruct (Z.lt_ge_cases (klmalloc_bin_size size) BIG_BIN) as [Hb|Hb].
  - destruct (klmalloc_small fuel h G X size I Hs Hb Hroom) as (p & n & h' & G' & H). by exists p, n, h', G', X.
  - by apply (klmalloc_large fuel h G X size).
Qed.

(** ** Giving a cell back *)

Lemma push_mask a b c : 0 ≤ b < BIG_BIN → a mod PAGE_SIZE = 0 → 0 ≤ a → a + PAGE_SIZE < 2 ^ 64 → is_cell a b c →
  Z.land (u64 (c - bin_header)) (Z.shiftl 1 (b + SMALLEST_BIN_LOG) - 1) = 0.
Proof.
  intros Hb Hm Ha Hhi Hc. destruct (cell_bounds a b c Hb Hc) as (H1 & H2 & _). destruct (cell_facts b Hb) as (H0 & _).
  rewrite u64_small by (offsets; lia). rewrite Z.shiftl_1_l, <-Z.sub_1_r, <-Z.ones_equiv || rewrite Z.shiftl_1_l.
  unfold SMALLEST_BIN_LOG in *. replace (2 ^ (b + 3) - 1) with (Z.ones (b + 3)) by (rewrite Z.ones_equiv; lia).
  rewrite Z.land_ones by lia. destruct Hc as (k & Hk & ->). unfold cell, SMALLEST_BIN_LOG in *.
  replace (a + bin_header + k * 2 ^ (3 + b) - bin_header) with (a + k * 2 ^ (3 + b)) by lia. rewrite (Z.add_comm b 3).
  rewrite Z_mod_plus_full. apply Z.mod_divide; [lia|]. apply Z.mod_divide in Hm; [|done].
  apply (Z.divide_trans _ PAGE_SIZE); [|done]. clear -Hb. revert b Hb. apply bins_all.
  repeat (apply Forall_cons; split; [apply Z.mod_divide; by vm_compute|]). by apply Forall_nil.
Qed.

Definition put_cell (b a c : Z) : St heap unit :=
  e ← klmalloc_stack_empty a;
  (if e : bool then klmalloc_list_insert b a else mret tt);;
  klmalloc_stack_push a c.

Section put.
Context (h : heap) (G : gmap Z page) (X : list snode) (I : inv h G X).
Context (a b c : Z) (st : list Z) (Ha : G !! a = Some (Small b st)) (Hc : is_cell a b c) (Hst : c ∉ st).

Lemma stack_push_small h1 : words h1 (a + SIZE) = b →
  klmalloc_stack_push a c h1 =
    Done (tt, with_words h1 (upd (upd (words h1) c (words h1 (a + HEAD))) (a + HEAD) c)).
Proof using I Ha Hc.
  intros E. destruct (inv_stack _ _ _ _ _ _ I Ha) as (Hb & _). destruct (small_range _ _ _ _ _ _ I Ha) as (Hm & Hlo & Hhi).
  destruct (cell_bounds a b c Hb Hc) as (H1 & H2 & _). destruct (cell_facts b Hb) as (H0 & _). unfold HEAP_START in Hlo.
  unfold klmalloc_stack_push. assert_step (proj2 (negb_true_iff _) (proj2 (Z.eqb_neq c NULL) ltac:(unfold NULL; offsets; lia))).
  assert_step (proj2 (Z.ltb_lt a c) ltac:(offsets; lia)). rd_step. rewrite E.
  rewrite (proj2 (Z.ltb_ge NUM_BINS b)) by (unfold BIG_BIN, NUM_BINS in *; lia).
  rewrite (push_mask a b c Hb Hm ltac:(lia) Hhi Hc). rewrite u64_small by (offsets; lia).
  rewrite (proj2 (Z.ltb_lt c (a + PAGE_SIZE))) by lia. rewrite (St_bind_done _ _ h1 tt h1 eq_refl). rd_step. wr_step. wr_step || idtac.
  rewrite wr_run by (offsets; lia). done.
Qed.

(** The page with the cell on its stack. *)
Lemma pushed_page m' : m' (a + HEAD) = c → m' c = words h (a + HEAD) →
  (∀ x, a ≤ x < a + PAGE_SIZE → x ≠ a + HEAD → x ≠ a + NEXT → x ≠ c → m' x = words h x) → page_ok m' a (Small b (c :: st)).
Proof using I Ha Hc Hst.
  intros E1 E2 Hm. destruct (inv_stack _ _ _ _ _ _ I Ha) as (Hb & Hs & HM & L & N & C).
  destruct (small_range _ _ _ _ _ _ I Ha) as (_ & Hlo & _). unfold HEAP_START in Hlo.
  destruct (cell_bounds a b c Hb Hc) as (H1 & H2 & _). destruct (cell_facts b Hb) as (H0 & _).
  split; [rewrite Hm by (offsets; lia); done|]. split; [done|]. split; [rewrite Hm by (offsets; lia); done|].
  split; [|split; [by apply NoDup_cons|by intros d [->|Hd]%elem_of_cons; [|apply C]]].
  simpl. split; [done|]. split; [unfold NULL; offsets; lia|]. rewrite Z.add_0_r, E2. apply (listed_frame (words h)); [|done].
  intros d Hd. destruct (cell_bounds a b d Hb (C d Hd)) as (? & ? & _). rewrite Z.add_0_r.
  assert (d ≠ c) by (by intros ->). apply Hm; offsets; lia.
Qed.

Lemma put_run : ∃ h', put_cell b a c h = Done (tt, h') ∧ inv h' (<[a := Small b (c :: st)]> G) X ∧
  mem_lock h' = mem_lock h ∧ brk h' = brk h ∧ ∀ x, x ≠ a + HEAD → x ≠ a + NEXT → x ≠ c → words h' x = words h x.
Proof using I Ha Hc Hst.
  destruct (inv_stack _ _ _ _ _ _ I Ha) as (Hb & Hs & HM & L & _). pose proof (heads_bound _ _ _ _ I Hb) as Hlen.
  destruct (small_range _ _ _ _ _ _ I Ha) as (_ & Hlo & _). unfold HEAP_START in Hlo.
  destruct (cell_bounds a b c Hb Hc) as (H1 & H2 & _). destruct (cell_facts b Hb) as (H0 & _).
  destruct (in_bins _ _ _ I b Hb) as (l & BN & BL & BE). pose proof (listed_head _ _ _ _ L) as EH.
  set (f := bin_heads h !!! Z.to_nat b) in *.
  set (h1 := match st with
    | [] => with_bin_heads (with_words h (upd (words h) (a + NEXT) f)) (<[Z.to_nat b := a]> (bin_heads h))
    | _ => h end).
  set (l1 := match st with [] => a :: l | _ => l end).
  assert (R1 : (if words h (a + HEAD) =? NULL then klmalloc_list_insert b a else mret tt) h = Done (tt, h1)).
  { rewrite EH. unfold h1. destruct st as [|d st']; cbn [hd].
    - rewrite Z.eqb_refl. unfold klmalloc_list_insert. rewrite (St_bind_done _ _ _ _ _ (bin_first_run h b Hlen)). wr_step. done.
    - destruct L as (_ & Hd & _). by rewrite (proj2 (Z.eqb_neq d NULL) Hd). }
  assert (M1 : ∀ x, x ≠ a + NEXT → words h1 x = words h x).
  { intros x Hx. unfold h1. destruct st; [|done]. cbn. by rewrite upd_ne. }
  set (m' := upd (upd (words h1) c (words h1 (a + HEAD))) (a + HEAD) c).
  assert (M' : ∀ x, x ≠ a + HEAD → x ≠ a + NEXT → x ≠ c → m' x = words h x).
  { intros x X1 X2 X3. unfold m'. rewrite !upd_ne by done. by apply M1. }
  exists (with_words h1 m'). split; [|split_and!; [|by unfold h1; destruct st|by unfold h1; destruct st|exact M']].
  { unfold put_cell, klmalloc_stack_empty. erewrite St_bind_done by (rd_step; reflexivity). rewrite (St_bind_done _ _ _ _ _ R1).
    apply stack_push_small. rewrite M1; [done|offsets; lia]. }
  apply (small_inv h G X I a b (c :: st) l1). split; [done| | | | | |by unfold h1; destruct st].
  - apply pushed_page; cbn [words with_words].
    + unfold m'. by rewrite upd_eq.
    + unfold m'. rewrite upd_ne, upd_eq by (offsets; lia). apply M1. offsets. lia.
    + intros x _. apply M'.
  - intros x Hx. apply M'; offsets; lia.
  - rewrite Ha. split; [by exists st|unfold h1; by destruct st].
  - unfold h1. destruct st; cbn; [|split; [apply I|done]]. rewrite length_insert. split; [apply I|].
    intros b' Hb' Hne. apply list_set_total_ne. lia.
  - assert (Hsep : ∀ y, y ∈ l → y ≠ a → m' (y + NEXT) = words h (y + NEXT)).
    { intros y Hy Hya. destruct (proj1 (BE y) Hy) as (s & Ey & _).
      destruct (runs_separate h G X y a _ _ I Ey Ha Hya); apply M'; offsets; lia. }
    split; [|split].
    + unfold l1. destruct st; [|done]. apply NoDup_cons. split; [|done]. intros (s & Es & Hs0)%BE. rewrite Ha in Es. by injection Es as <-.
    + change (words (with_words h1 m')) with m'. unfold l1, h1. destruct st as [|d st'] eqn:Est; cbn [bin_heads with_words with_bin_heads].
      * rewrite list_set_total by done. simpl. split; [done|]. split; [unfold NULL; lia|].
        assert (m' (a + NEXT) = f) as -> by (unfold m'; rewrite !upd_ne by (offsets; lia); unfold h1; cbn; by rewrite upd_eq).
        apply (listed_frame (words h)); [|done]. intros y Hy. apply Hsep; [done|]. intros ->.
        apply BE in Hy as (s & Es & Hs0). rewrite Ha in Es. by injection Es as <-.
      * apply (listed_frame (words h)); [|done]. intros y Hy. destruct (decide (y = a)) as [->|]; [|by apply Hsep].
        unfold m'. rewrite !upd_ne by (offsets; lia). done.
    + intros y. destruct (decide (y = a)) as [->|Hya].
      * rewrite lookup_insert_eq. split; [intros _; by exists (c :: st)|]. intros _. unfold l1. destruct st as [|d st']; [by left|].
        apply BE. by exists (d :: st').
      * rewrite lookup_insert_ne by done. rewrite <-BE. unfold l1. destruct st; [|done]. rewrite elem_of_cons. tauto.
Qed.

Lemma block_put q k : block (<[a := Small b (c :: st)]> G) q k ↔ block G q k ∧ q ≠ c.
Proof using I Ha Hc Hst.
  destruct (inv_stack _ _ _ _ _ _ I Ha) as (Hb & _). destruct (cell_bounds a b c Hb Hc) as (H1 & H2 & _).
  destruct (cell_facts b Hb) as (H0 & _). split.
  - intros [(d & b' & st' & Hd & Hcq & Hst' & ->)|(d & Hd & ->)]; (destruct (decide (d = a)) as [->|Hne];
      [rewrite lookup_insert_eq in Hd|rewrite lookup_insert_ne in Hd by done]).
    + injection Hd as <- <-. rewrite elem_of_cons in Hst'. split; [left; exists a, b, st; tauto|tauto].
    + split; [left; by exists d, b', st'|]. intros ->. destruct (inv_stack _ _ _ _ _ _ I Hd) as (Hb' & _).
      destruct (cell_bounds d b' c Hb' Hcq) as (? & ? & _). destruct (cell_facts b' Hb').
      apply Hne. apply (runs_apart h G X I d a _ _ c Hd Ha); simpl; offsets; lia.
    + done.
    + split; [right; by exists d|]. intros <-. pose proof (inv_ok h G X I _ _ Hd) as (_ & ? & _).
      apply Hne. apply (runs_apart h G X I d a _ _ (d + big_bin_header) Hd Ha); simpl; offsets; lia.
  - intros [[(d & b' & st' & Hd & Hcq & Hst' & ->)|(d & Hd & ->)] Hq].
    + left. destruct (decide (d = a)) as [->|Hne].
      * rewrite Ha in Hd. injection Hd as <- <-. exists a, b, (c :: st). rewrite lookup_insert_eq, elem_of_cons. split_and!; [done|done|tauto|done].
      * exists d, b', st'. by rewrite lookup_insert_ne.
    + right. exists d. rewrite lookup_insert_ne; [done|congruence].
Qed.
End put.

(** ** Giving a large block back *)

Section release.
Context (h : heap) (G : gmap Z page) (X : list snode) (I : inv h G X).
Context (a s : Z) (Ha : G !! a = Some (Big s false)).

Definition release (fuel : nat) (a s : Z) : St heap unit :=
  hd ← rd (a + HEAD);
  assert_ (hd =? NULL);;
  assert_ (whole_pages s);;
  klmalloc_stack_push a (a + big_bin_header);;
  hd ← rd (a + HEAD);
  assert_ (negb (hd =? NULL));;
  klmalloc_skip_list_insert fuel a.

Definition released : Z → Z := upd (upd (words h) (a + big_bin_header) NULL) (a + HEAD) (a + big_bin_header).

Lemma not_a_node : a ∉ sa <$> X.
Proof using I Ha. intros (v & -> & Hv)%list_elem_of_fmap. pose proof (node_run h G X I v Hv). congruence. Qed.

Lemma released_skip : skip_ok released (big_bins h) (level h) X.
Proof using I Ha.
  destruct (in_pages _ _ _ I a _ Ha) as (Am & Alo & _). pose proof (in_low _ _ _ I) as Hlow. pose proof not_a_node as Hn.
  apply front_skip; [|done|lia|offsets; lia|done].
  apply (skip_ok_frame (words h)); [| |apply I].
  - intros i x Hi Hx. apply upd_ne. intros E. apply elem_of_cons in Hx as [->|Hx]; [offsets; lia|].
    apply Hn. apply list_elem_of_fmap in Hx as (v & -> & Hv). destruct (sk_addr _ _ _ _ (in_skip _ _ _ I) v Hv) as [Hm _].
    assert (sa v = a) as <- by (apply page_apart; [done|done|]; offsets; lia). by apply list_elem_of_fmap_2.
  - intros v Hv. apply upd_ne. intros E. destruct (sk_addr _ _ _ _ (in_skip _ _ _ I) v Hv) as [Hm _].
    apply Hn. assert (sa v = a) as <- by (apply page_apart; [done|done|]; offsets; lia). by apply list_elem_of_fmap_2.
Qed.

Lemma inserted_free lv p t : (∃ v, v ∈ inserted X (SNode a s lv) ∧ sa v = p ∧ ss v = t) ↔
  <[a := Big s true]> G !! p = Some (Big t true).
Proof using I Ha.
  split.
  - intros (v & [->|Hv]%(inserted_in _ _ _ _ (in_skip _ _ _ I)) & <- & <-); [by rewrite lookup_insert_eq|].
    rewrite lookup_insert_ne; [by apply (node_run h G X I)|]. intros Ea. apply not_a_node. rewrite Ea. by apply list_elem_of_fmap_2.
  - destruct (decide (p = a)) as [->|Hne].
    + rewrite lookup_insert_eq. intros [= <-]. exists (SNode a s lv). split; [|done]. apply (inserted_in _ _ _ _ (in_skip _ _ _ I)); by left.
    + rewrite lookup_insert_ne by done. intros (v & Hv & ?)%(in_free _ _ _ I). exists v. split; [|done].
      apply (inserted_in _ _ _ _ (in_skip _ _ _ I)); by right.
Qed.

Lemma release_run fuel : (length X < fuel)%nat →
  ∃ h' X', release fuel a s h = Done (tt, h') ∧ inv h' (<[a := Big s true]> G) X' ∧ mem_lock h' = mem_lock h ∧
    brk h' = brk h ∧ ∀ b Q x, b ≠ a → G !! b = Some Q → body b Q x → words h' x = words h x.
Proof using I Ha.
  intros Hf. destruct (in_pages _ _ _ I a _ Ha) as (Am & Alo & Ahi & AM & As & Aw & Az & Ah & _). simpl in Ahi.
  pose proof (in_brk _ _ _ I) as [_ [_ Bhi]]. pose proof (in_low _ _ _ I) as Hlow. unfold HEAP_START in Alo, Hlow.
  pose proof (inv_span h G X I _ _ Ha) as Hsp. simpl in Hsp.
  set (p := a + big_bin_header) in *. set (h1 := with_words h released).
  assert (Hnb : (NUM_BINS <? s) = true) by (apply Z.ltb_lt; unfold NUM_BINS; offsets; lia).
  assert (R1 : klmalloc_stack_push a p h = Done (tt, h1)).
  { unfold klmalloc_stack_push. assert_step (proj2 (negb_true_iff _) (proj2 (Z.eqb_neq p NULL) ltac:(unfold p; offsets; lia))).
    assert_step (proj2 (Z.ltb_lt a p) ltac:(unfold p; offsets; lia)). rd_step. rewrite Az, Hnb.
    assert (Hlt : (p <? u64 (a + s)) = true).
    { rewrite u64_small by (offsets; lia). apply Z.ltb_lt. unfold p. unfold whole_pages in Aw. apply Z.eqb_eq in Aw. offsets. lia. }
    assert_step Hlt. rd_step. rewrite Ah. unfold p. wr_step. rewrite wr_run by (offsets; lia). done. }
  assert (Ho : head_ok h1 a p s).
  { split; change (words h1) with released; unfold released; fold p.
    - offsets. lia.
    - by rewrite upd_eq.
    - by rewrite !upd_ne by (unfold p; offsets; lia).
    - unfold p. offsets. lia.
    - rewrite Hnb. unfold p. offsets. lia.
    - lia. }
  destruct (insert_run fuel h1 X a s p released_skip Hf Ho Am ltac:(change (big_bins h1) with (big_bins h); offsets; lia) not_a_node Aw ltac:(lia))
    as (lv & m' & l' & r & R2 & OK' & F).
  change (words h1) with released in F. change (big_bins h1) with (big_bins h) in *.
  assert (Hn : ∀ q, q ∈ a :: (sa <$> X) → ∃ t f, G !! q = Some (Big t f)).
  { intros q [->|Hq]%elem_of_cons; [by exists s, false|by apply (nodes_large h G X I)]. }
  assert (Own : ∀ o, HEAD ≤ o < PREV ∨ o = big_bin_header → m' (a + o) = released (a + o)).
  { intros o Ho'. apply F. intros q j Hq Hj E. assert (q = a) as ->; [|offsets; lia].
    destruct Hq as [->|Hq]; [offsets; lia|]. destruct (Hn q Hq) as (t & f & Eq). destruct (in_pages _ _ _ I q _ Eq) as (Hqm & _).
    apply page_apart; [done|done|]. offsets. lia. }
  assert (Keep : ∀ b Q x, b ≠ a → G !! b = Some Q → body b Q x → m' x = words h x).
  { intros b Q x Hne Hb Hx. rewrite (links_body h G X I _ _ m' F Hn b Q x Hb Hx).
    pose proof (body_span _ _ _ _ (inv_ok h G X I b Q Hb) Hx) as Hxb. unfold released.
    rewrite !upd_ne; [done| |]; intros ->; apply Hne, (runs_apart h G X I b a Q _ _ Hb Ha Hxb); simpl; offsets; lia. }
  exists (with_level (with_rng (with_words h1 m') r) l'), (inserted X (SNode a s lv)). split; [|split; [|split_and!; [| |exact Keep]]].
  { unfold release. rd_step. rewrite Ah. rewrite (St_bind_done _ _ h tt h eq_refl). assert_step Aw. fold p.
    rewrite (St_bind_done _ _ _ _ _ R1). rd_step. rewrite (ho_head _ _ _ _ Ho).
    assert_step (proj2 (negb_true_iff _) (proj2 (Z.eqb_neq p NULL) ltac:(unfold p; offsets; lia))). exact R2. }
  2: done. 2: done.
  apply (large_inv h G X I). split; cbn [words bin_heads big_bins level newest_big brk with_level with_rng with_words h1].
  - split; [rewrite Own by (offsets; lia); unfold released; by rewrite !upd_ne by (offsets; lia)|]. split_and!; [lia|done| | |].
    + rewrite Own by (offsets; lia). apply (ho_size _ _ _ _ Ho).
    + rewrite Own by (offsets; lia). apply (ho_head _ _ _ _ Ho).
    + rewrite Own by (by right). unfold released. by rewrite upd_ne, upd_eq by (offsets; lia).
  - exact Keep.
  - rewrite Ha. split; [by exists false|done].
  - done.
  - exact OK'.
  - apply inserted_free.
  - done.
  - by left.
Qed.

Lemma block_release q k : block (<[a := Big s true]> G) q k ↔ block G q k ∧ q ≠ a + big_bin_header.
Proof using I Ha.
  split.
  - intros Hq. destruct Hq as [(d & b & st & Hd & Hc & Hst & ->)|(d & Hd & ->)]; (destruct (decide (d = a)) as [->|Hne];
      [by rewrite lookup_insert_eq in Hd|rewrite lookup_insert_ne in Hd by done]).
    + split; [left; by exists d, b, st|]. intros ->. destruct (inv_stack _ _ _ _ _ _ I Hd) as (Hb & _).
      destruct (cell_bounds d b _ Hb Hc) as (? & ? & _). destruct (cell_facts b Hb). pose proof (inv_span h G X I _ _ Ha).
      apply Hne, (runs_apart h G X I d a _ _ (a + big_bin_header) Hd Ha); simpl in *; offsets; lia.
    + split; [right; by exists d|]. offsets. lia.
  - intros [[(d & b & st & Hd & H)|(d & Hd & ->)] Hq].
    + left. exists d, b, st. rewrite lookup_insert_ne; [done|congruence].
    + right. exists d. rewrite lookup_insert_ne; [done|congruence].
Qed.
End release.

(** ** [klfree] *)

Lemma page_of a p : a mod PAGE_SIZE = 0 → a < p < a + PAGE_SIZE → p mod PAGE_SIZE = p - a.
Proof. unfold PAGE_SIZE. intros. Z.div_mod_to_equations. lia. Qed.

Lemma klfree_run fuel h G X p n : inv h G X → block G p n → (length X < fuel)%nat →
  ∃ h' G' X', klfree fuel p h = Done (tt, h') ∧ inv h' G' X' ∧ (∀ q k, block G' q k ↔ block G q k ∧ q ≠ p) ∧
    mem_lock h' = mem_lock h ∧ brk h' = brk h ∧
    ∀ q k x, block G q k → q ≠ p → q ≤ x < q + k → words h' x = words h x.
Proof.
  intros I Hp Hf. destruct (block_run _ _ _ _ _ I Hp) as (a0 & P0 & Ha0 & _ & Hlo0 & _). clear a0 P0 Ha0 Hlo0.
  destruct Hp as [(a & b & st & Ha & Hc & Hst & ->)|(a & Ha & ->)].
  - destruct (inv_stack _ _ _ _ _ _ I Ha) as (Hb & Hs & HM & _). destruct (small_range _ _ _ _ _ _ I Ha) as (Hm & Hlo & _).
    destruct (cell_bounds a b p Hb Hc) as (H1 & H2 & _). destruct (cell_facts b Hb) as (H0 & _). unfold HEAP_START in Hlo.
    destruct (put_run h G X I a b p st Ha Hc Hst) as (h' & R & I' & L & B & K).
    exists h', (<[a := Small b (p :: st)]> G), X. split; [|split_and!; [done| |done|done|]].
    + unfold klfree. rewrite (proj2 (Z.eqb_neq p NULL)) by (unfold NULL; offsets; lia).
      rewrite (page_of a p Hm) by (offsets; lia). rewrite (proj2 (Z.eqb_neq (p - a) 0)) by (offsets; lia).
      rewrite (page_of a p Hm) by (offsets; lia). replace (p - (p - a)) with a by lia. rd_step. rewrite HM. cbn [Z.eqb negb].
      rewrite Z.eqb_refl. cbn [negb]. rd_step. rewrite Hs.
      rewrite (proj2 (Z.ltb_ge NUM_BINS b)) by (unfold BIG_BIN, NUM_BINS in *; lia). exact R.
    + intros q k. by apply (block_put h G X I).
    + intros q k x Hq Hne Hx. pose proof (header_apart h G X a _ q k x I Ha Hq Hx).
      pose proof (cell_apart h G X a b st p q k x I Ha Hc Hq Hne Hx). apply K; offsets; lia.
  - destruct (in_pages _ _ _ I a _ Ha) as (Hm & Hlo & _ & HM & Hs0 & Hw & Hs & _). unfold HEAP_START in Hlo.
    pose proof (inv_span h G X I _ _ Ha) as Hsp. simpl in Hsp.
    destruct (release_run h G X I a n Ha fuel Hf) as (h' & X' & R & I' & L & B & K).
    exists h', (<[a := Big n true]> G), X'. split; [|split_and!; [done| |done|done|]].
    + unfold klfree. rewrite (proj2 (Z.eqb_neq _ NULL)) by (unfold NULL; offsets; lia).
      rewrite (page_of a _ Hm) by (offsets; lia). rewrite (proj2 (Z.eqb_neq _ 0)) by (offsets; lia).
      rewrite (page_of a _ Hm) by (offsets; lia). replace (a + big_bin_header - (a + big_bin_header - a)) with a by lia. rd_step. rewrite HM.
      rewrite Z.eqb_refl. cbn [negb]. rd_step. rewrite Hs.
      rewrite (proj2 (Z.ltb_lt NUM_BINS n)) by (unfold NUM_BINS; offsets; lia). exact R.
    + intros q k. by apply (block_release h G X I).
    + intros q k x Hq Hne Hx. destruct (block_run _ _ _ _ _ I Hq) as (c & Q & Hcq & Hbody & Hq1 & Hq2 & Hk & _).
      apply (K c Q); [|done|by apply Hbody]. intros ->. rewrite Ha in Hcq. injection Hcq as <-.
      destruct Hq as [(d & b & st & Hd & Hc & _ & ->)|(d & Hd & ->)].
      * pose proof (Hbody q ltac:(lia)) as Hqb. pose proof (body_span _ _ _ _ (inv_ok h G X I _ _ Ha) Hqb) as Hqs.
        destruct (inv_stack _ _ _ _ _ _ I Hd) as (Hb & _). destruct (cell_bounds d b q Hb Hc) as (? & ? & _).
        assert (d = a) as ->; [|congruence]. apply (runs_apart h G X I d a _ _ q Hd Ha); simpl in *; offsets; lia.
      * assert (d = a) as ->; [|done]. pose proof (inv_span h G X I _ _ Hd).
        pose proof (body_span _ _ _ _ (inv_ok h G X I _ _ Ha) (Hbody _ ltac:(split; [apply Z.le_refl|lia]))) as Hqs.
        apply (runs_apart h G X I d a _ _ (d + big_bin_header) Hd Ha); simpl in *; offsets; lia.
Qed.

(** * The contract of the heap

    [heap_rep h B]: the heap is at rest and [B] maps the address of every live block to
    the bytes it has. *)

Definition heap_rep (h : heap) (B : gmap Z Z) : Prop :=
  mem_lock h = false ∧ ∃ G X, inv h G X ∧ ∀ p n, B !! p = Some n ↔ block G p n.

(** Enough fuel for the free large blocks a heap up to [b] can have, and for those of [h]
    when it grows once more. *)
Definition fuel_for (b : Z) (fuel : nat) : Prop := (Z.to_nat ((b - HEAP_START) / PAGE_SIZE) < fuel)%nat.
Definition enough (h : heap) (fuel : nat) : Prop := fuel_for (brk h + 0x1F00000) fuel.

(** What [sbrk] accepts, and the room it needs. *)
Definition request (h : heap) (size : Z) : Prop := 0 < size < 0x1F00000 - big_bin_header ∧ brk h + 0x1F00000 < 2 ^ 64.

(** The blocks lie apart, above the heap's start, on words. *)
Definition separate (B : gmap Z Z) : Prop :=
  (∀ p n, B !! p = Some n → HEAP_START ≤ p ∧ p mod 8 = 0 ∧ 8 ≤ n) ∧
  ∀ p n q k, B !! p = Some n → B !! q = Some k → p ≠ q → p + n ≤ q ∨ q + k ≤ p.

(** [h'] holds what [h] holds in the blocks of [B]. *)
Definition contents_kept (B : gmap Z Z) (h h' : heap) : Prop :=
  ∀ q k x, B !! q = Some k → q ≤ x < q + k → words h' x = words h x.

Lemma blocks_apart h G X p n q k : inv h G X → block G p n → block G q k → p ≠ q → p + n ≤ q ∨ q + k ≤ p.
Proof.
  intros I Hp Hq Hne. destruct (Z_le_gt_dec (p + n) q) as [|H1]; [by left|].
  destruct (Z_le_gt_dec (q + k) p) as [|H2]; [by right|exfalso].
  destruct (block_run _ _ _ _ _ I Hp) as (a & P & Ha & Bp & _ & _ & Hn & _).
  destruct (block_run _ _ _ _ _ I Hq) as (c & Q & Hc & Bq & _ & _ & Hk & _). set (x := Z.max p q).
  pose proof (body_span _ _ _ _ (inv_ok h G X I _ _ Ha) (Bp x ltac:(lia))) as Xp.
  pose proof (body_span _ _ _ _ (inv_ok h G X I _ _ Hc) (Bq x ltac:(lia))) as Xq.
  assert (a = c) as <- by exact (runs_apart h G X I a c P Q x Ha Hc Xp Xq).
  destruct Hp as [(d & b & st & Hd & Hcell & _ & ->)|(d & Hd & ->)].
  - by apply (cell_apart h G X d b st p q k x I Hd Hcell Hq); [congruence|lia|lia].
  - destruct Hq as [(e & b & st & He & Hcell & _ & ->)|(e & He & ->)].
    + by apply (cell_apart h G X e b st q (d + big_bin_header) n x I He Hcell); [right; by exists d|done|lia|lia].
    + assert (d = e) as ->; [|done]. pose proof (inv_span h G X I _ _ Hd). pose proof (inv_span h G X I _ _ He).
      apply (runs_apart h G X I d e _ _ x Hd He); simpl in *; offsets; lia.
Qed.

Lemma heap_rep_separate h B : heap_rep h B → separate B.
Proof.
  intros (_ & G & X & I & E). split.
  - intros p n Hp%E. destruct (block_run _ _ _ _ _ I Hp) as (a & P & Ha & _ & Hlo & _ & Hn & Hm).
    destruct (in_pages _ _ _ I _ _ Ha) as (Ham & ? & _). split; [offsets; lia|]. split; [|done].
    unfold PAGE_SIZE in Ham. clear -Hm Ham. Z.div_mod_to_equations. lia.
  - intros p n q k Hp%E Hq%E. by apply (blocks_apart h G X).
Qed.

(** Bytes written inside a live block are no business of the heap's. *)
Lemma inv_write h G X p n m' : inv h G X → block G p n → (∀ x, ¬ p ≤ x < p + n → m' x = words h x) →
  inv (with_words h m') G X.
Proof.
  intros I Hp Hm.
  assert (Hh : ∀ a P o, G !! a = Some P → 0 ≤ o < bin_header → m' (a + o) = words h (a + o)).
  { intros a P o Ha Ho. apply Hm. intros Hx. apply (header_apart h G X a P p n _ I Ha Hp Hx). lia. }
  assert (Hf : ∀ a s o, G !! a = Some (Big s true) → 0 ≤ o < span (Big s true) → m' (a + o) = words h (a + o)).
  { intros a s o Ha Ho. apply Hm. intros Hx. apply (unused_apart h G X a s p n _ I Ha Hp Hx). lia. }
  assert (Hpages : ∀ a P, G !! a = Some P → page_ok m' a P).
  { intros a P Ha. pose proof (inv_ok h G X I a P Ha) as [HM Ok]. split; [by rewrite (Hh a P) by (done || offsets; lia)|].
    destruct P as [b st|s f].
    - destruct Ok as (Hb & Hs & L & N & C). split; [done|]. rewrite !(Hh a _ _ Ha) by (offsets; lia). split_and!; try done.
      apply (listed_frame (words h)); [|done]. intros c Hc. rewrite Z.add_0_r. apply Hm. intros Hx.
      destruct (cell_facts b Hb). apply (cell_apart h G X a b st c p n c I Ha (C c Hc) Hp); [|done|lia].
      intros ->. by apply (free_not_block h G X a b st c n I Ha).
    - destruct Ok as (Hs & Hw & Hz & Hd & H96). rewrite !(Hh a _ _ Ha) by (offsets; lia). split_and!; try done.
      destruct f; [|done]. by rewrite (Hf a s) by (done || simpl; offsets; lia). }
  destruct I as [Sk Fr Lo Bk Pg Ap Hd Bn Nw] eqn:EI. split; try done.
  - apply (skip_ok_frame (words h)); [| |done].
    + intros i x Hi Hx. apply elem_of_cons in Hx as [->|(v & -> & Hv)%list_elem_of_fmap].
      * apply Hm. intros Hx. destruct (block_run _ _ _ _ _ I Hp) as (a & P & Ha & _ & Hlo & _).
        destruct (Pg a P Ha) as (_ & ? & _). cbn in *. offsets. lia.
      * apply (Hf _ (ss v)); [by apply (node_run h G X I)|]. pose proof (inv_span h G X I _ _ (node_run h G X I v Hv)). offsets. lia.
    + intros v Hv. apply (Hf _ (ss v)); [by apply (node_run h G X I)|]. pose proof (inv_span h G X I _ _ (node_run h G X I v Hv)). offsets. lia.
  - intros a P Ha. destruct (Pg a P Ha) as (? & ? & ? & _). split_and!; try done. by apply Hpages.
  - intros b Hb. destruct (Bn b Hb) as (l & N & L & E). exists l. split; [done|]. split; [|done].
    apply (listed_frame (words h)); [|done]. intros c (st & Hc & _)%E. apply (Hh c _ NEXT Hc). offsets. lia.
Qed.

Lemma initial_inv w r m0 : PAGE_SIZE ≤ w → w + big_bin_header ≤ HEAP_START →
  (∀ i, 0 ≤ i ≤ SKIP_MAX_LEVEL → m0 (w + FORWARD i) = NULL) →
  inv (Heap m0 (replicate 9 NULL) w 0 NULL r HEAP_START false) ∅ [].
Proof.
  intros Hw Hlow H0. split; try done.
  - split; try done; try (by intros x ?%elem_of_nil).
    + constructor. + constructor.
  - intros a s. rewrite lookup_empty. split; [|done]. by intros (v & ?%elem_of_nil & _).
  - intros b Hb. exists []. split; [constructor|]. split; [|intros a; rewrite lookup_empty; split; [by intros ?%elem_of_nil|by intros (? & ? & _)]].
    cbn [bin_heads]. apply list_lookup_total_correct. apply lookup_replicate_2. unfold BIG_BIN, NUM_BINS in Hb. lia.
  - by left.
Qed.

Lemma fuel_less b b' fuel : b' ≤ b → fuel_for b fuel → fuel_for b' fuel.
Proof.
  unfold fuel_for. intros Hb Hf. assert ((b' - HEAP_START) / PAGE_SIZE ≤ (b - HEAP_START) / PAGE_SIZE) by (apply Z.div_le_mono; [done|lia]). lia.
Qed.

Lemma fuel_nodes h fuel G X : inv h G X → fuel_for (brk h) fuel → (length X < fuel)%nat.
Proof. intros I Hf. pose proof (free_pages h G X I). unfold fuel_for in Hf. lia. Qed.

(** Under the lock, what an operation does to the heap. *)
Definition locked (h : heap) (B : gmap Z Z) : Prop := heap_rep (with_lock h false) B.

Lemma locked_rep h B : mem_lock h = false → heap_rep h B → locked (with_lock h true) B.
Proof. intros L. unfold locked. by destruct h; simpl in *; subst. Qed.

Lemma locked_inv h B : locked h B ↔ ∃ G X, inv h G X ∧ ∀ p n, B !! p = Some n ↔ block G p n.
Proof.
  split.
  - intros (_ & G & X & I & E). exists G, X. split; [|done]. destruct I. by split.
  - intros (G & X & I & E). split; [done|]. exists G, X. split; [|done]. destruct I. by split.
Qed.

Lemma klmalloc_locked fuel h B size : locked h B → request h size → fuel_for (brk h) fuel →
  ∃ p n h', klmalloc fuel size h = Done (p, h') ∧ locked h' (<[p := n]> B) ∧ B !! p = None ∧ size ≤ n ∧
    contents_kept B h h' ∧ mem_lock h' = mem_lock h ∧ brk h ≤ brk h' ≤ brk h + 0x1F00000.
Proof.
  intros (G & X & I & E)%locked_inv [Hs Hr] Hf.
  destruct (klmalloc_run fuel h G X size I Hs Hr (fuel_nodes _ _ _ _ I Hf)) as (p & n & h' & G' & X' & R & I' & A & Hn).
  exists p, n, h'. assert (Hp : B !! p = None).
  { destruct (B !! p) as [k|] eqn:Ep; [|done]. apply E in Ep. by apply (al_fresh _ _ _ _ _ _ A) in Ep. }
  split_and!; [done| |done|done| |apply A|apply A|apply A].
  - apply locked_inv. exists G', X'. split; [done|]. intros q k. rewrite (al_blocks _ _ _ _ _ _ A), <-E.
    destruct (decide (q = p)) as [->|Hne].
    + rewrite lookup_insert_eq, Hp. split; [intros [= ->]; by right|by intros [?|[_ ->]]].
    + rewrite lookup_insert_ne by done. split; [by left|by intros [?|[? _]]].
  - intros q k x Hq%E. by apply (al_keeps _ _ _ _ _ _ A).
Qed.

Lemma klfree_locked fuel h B p n : locked h B → B !! p = Some n → fuel_for (brk h) fuel →
  ∃ h', klfree fuel p h = Done (tt, h') ∧ locked h' (delete p B) ∧ contents_kept (delete p B) h h' ∧
    mem_lock h' = mem_lock h ∧ brk h' = brk h.
Proof.
  intros (G & X & I & E)%locked_inv Hp%E Hf.
  destruct (klfree_run fuel h G X p n I Hp (fuel_nodes _ _ _ _ I Hf)) as (h' & G' & X' & R & I' & Bl & L & Bk & K).
  exists h'. split_and!; [done| | |done|done].
  - apply locked_inv. exists G', X'. split; [done|]. intros q k. rewrite Bl, <-E, lookup_delete_Some. naive_solver.
  - intros q k x [Hne Hq%E]%lookup_delete_Some. by apply (K q k).
Qed.

Lemma write_locked h B p n m' : locked h B → B !! p = Some n → (∀ x, ¬ p ≤ x < p + n → m' x = words h x) →
  locked (with_words h m') B.
Proof.
  intros (G & X & I & E)%locked_inv Hp%E Hm. apply locked_inv. exists G, X. split; [|done]. by apply (inv_write h G X p n).
Qed.

Lemma locked_apart h B p n q k : locked h B → B !! p = Some n → B !! q = Some k → p ≠ q → p + n ≤ q ∨ q + k ≤ p.
Proof. intros H. by apply (heap_rep_separate _ _ H). Qed.

Lemma locked_above h B p n : locked h B → B !! p = Some n → HEAP_START ≤ p ∧ p mod 8 = 0 ∧ 8 ≤ n.
Proof. intros H. by apply (heap_rep_separate _ _ H). Qed.

(** Entering and leaving the lock. *)
Lemma spin_lock_run h : mem_lock h = false → spin_lock h = Done (tt, with_lock h true).
Proof. unfold spin_lock. by intros ->. Qed.

Lemma kept_trans B h1 h2 h3 : contents_kept B h1 h2 → contents_kept B h2 h3 → contents_kept B h1 h3.
Proof. intros H1 H2 q k x Hq Hx. rewrite (H2 q k x Hq Hx). by apply (H1 q k x). Qed.

Lemma kept_less B B' h h' : B' ⊆ B → contents_kept B h h' → contents_kept B' h h'.
Proof. intros Hs H q k x Hq. apply (H q k x). by apply (lookup_weaken _ _ _ _ Hq). Qed.

Lemma enough_for h fuel : enough h fuel → fuel_for (brk h) fuel.
Proof. apply fuel_less. lia. Qed.

Lemma malloc_run fuel h B size : heap_rep h B → request h size → enough h fuel →
  ∃ p n h', malloc fuel size h = Done (p, h') ∧ heap_rep h' (<[p := n]> B) ∧ B !! p = None ∧ size ≤ n ∧
    contents_kept B h h' ∧ brk h ≤ brk h' ≤ brk h + 0x1F00000.
Proof.
  intros H Hr Hf. assert (L : mem_lock h = false) by apply H.
  destruct (klmalloc_locked fuel (with_lock h true) B size (locked_rep _ _ L H) Hr (enough_for h fuel Hf)) as (p & n & h' & R & H' & Hp & Hn & K & _ & Bk).
  exists p, n, (with_lock h' false). split_and!; [|done|done|done|done|apply Bk|apply Bk].
  unfold malloc. by rewrite (St_bind_done _ _ _ _ _ (spin_lock_run h L)), (St_bind_done _ _ _ _ _ R).
Qed.

(** C3: [malloc] of a request [sbrk] can serve never fails an assertion and gives a block
    that is not live, at least as large as asked, on a word boundary and apart from every
    live block (bins, page lists, skip list and all keep their invariant); the contents of
    the live blocks are what they were. *)
Theorem malloc_correct fuel h B size : heap_rep h B → request h size → enough h fuel →
  ∃ p n h', malloc fuel size h = Done (p, h') ∧ heap_rep h' (<[p := n]> B) ∧ B !! p = None ∧ size ≤ n ∧
    separate (<[p := n]> B) ∧ contents_kept B h h'.
Proof.
  intros H Hr Hf. destruct (malloc_run fuel h B size H Hr Hf) as (p & n & h' & R & H' & Hp & Hn & K & _).
  exists p, n, h'. pose proof (heap_rep_separate _ _ H'). done.
Qed.

(** C19: [free] of a live block ends its life and nothing else: the heap goes on with the
    other blocks, whose contents are untouched. *)
Theorem free_correct fuel h B p n : heap_rep h B → B !! p = Some n → enough h fuel →
  ∃ h', free fuel p h = Done (tt, h') ∧ heap_rep h' (delete p B) ∧ contents_kept (delete p B) h h'.
Proof.
  intros H Hp Hf. assert (L : mem_lock h = false) by apply H. pose proof (locked_rep _ _ L H) as HL.
  destruct (klfree_locked fuel (with_lock h true) B p n HL Hp (enough_for h fuel Hf)) as (h' & R & H' & K & _).
  exists (with_lock h' false). split_and!; [|done|done]. destruct (locked_above _ _ _ _ HL Hp) as [Hlo _].
  unfold free. rewrite (St_bind_done _ _ _ _ _ (spin_lock_run h L)). rewrite (proj2 (Z.ltb_ge p 0xffffff0000000000)) by done.
  by rewrite (St_bind_done _ _ _ _ _ R).
Qed.

(** The header of a live block. *)
Lemma block_header h G X p n : inv h G X → block G p n →
  let a := p - p mod PAGE_SIZE in
  PAGE_SIZE ≤ a ∧ words h (a + MAGIC) = BIN_MAGIC ∧
  (if words h (a + SIZE) <? BIG_BIN then Z.shiftl 1 (SMALLEST_BIN_LOG + words h (a + SIZE)) else words h (a + SIZE)) = n.
Proof.
  intros I [(a & b & st & Ha & Hc & _ & ->)|(a & Ha & ->)]; cbv zeta.
  - destruct (inv_stack _ _ _ _ _ _ I Ha) as (Hb & Hs & HM & _). destruct (small_range _ _ _ _ _ _ I Ha) as (Hm & Hlo & _).
    destruct (cell_bounds a b p Hb Hc) as (H1 & H2 & _). destruct (cell_facts b Hb) as (H0 & _). unfold HEAP_START in Hlo.
    rewrite (page_of a p Hm) by (offsets; lia). replace (p - (p - a)) with a by lia. split; [offsets; lia|]. split; [done|].
    rewrite Hs, (proj2 (Z.ltb_lt b BIG_BIN)) by lia. by rewrite Z.shiftl_1_l.
  - destruct (in_pages _ _ _ I a _ Ha) as (Hm & Hlo & _ & HM & Hs0 & Hw & Hs & _). unfold HEAP_START in Hlo.
    pose proof (inv_span h G X I _ _ Ha) as Hsp. simpl in Hsp.
    rewrite (page_of a _ Hm) by (offsets; lia). replace (a + big_bin_header - (a + big_bin_header - a)) with a by lia.
    split; [offsets; lia|]. split; [done|]. rewrite Hs. by rewrite (proj2 (Z.ltb_ge n BIG_BIN)) by (unfold BIG_BIN, NUM_BINS; offsets; lia).
Qed.

(** The end of [klrealloc]: another block, the contents, the old block freed. *)
Lemma move_locked fuel h B p n size : locked h B → B !! p = Some n → n ≤ size → request h size → enough h fuel →
  ∃ p' n' h', (newptr ← klmalloc fuel size;
      if negb (newptr =? NULL) then copy_words newptr p n;; klfree fuel p;; mret newptr else mret NULL) h = Done (p', h') ∧
    locked h' (<[p' := n']> (delete p B)) ∧ size ≤ n' ∧ (∀ i, 0 ≤ i < n → words h' (p' + i) = words h (p + i)) ∧
    contents_kept (delete p B) h h'.
Proof.
  intros HL Hp Hns Hr Hf. destruct (klmalloc_locked fuel h B size HL Hr (enough_for h fuel Hf)) as (q & k & h1 & R1 & H1 & Hq & Hk & K1 & _ & B1).
  assert (Hqp : q ≠ p) by congruence. pose proof (lookup_insert_eq B q k) as Eq.
  assert (Ep : <[q := k]> B !! p = Some n) by (by rewrite lookup_insert_ne).
  destruct (locked_above _ _ _ _ H1 Eq) as (Hlo & _). unfold HEAP_START in Hlo.
  set (m2 := λ x, if (q <=? x) && (x <? q + n) then words h1 (p + (x - q)) else words h1 x). set (h2 := with_words h1 m2).
  assert (M2 : ∀ x, ¬ q ≤ x < q + k → m2 x = words h1 x).
  { intros x Hx. unfold m2. destruct (Z.leb_spec q x), (Z.ltb_spec x (q + n)); done || lia. }
  assert (H2 : locked h2 (<[q := k]> B)) by by apply (write_locked h1 _ q k m2 H1 Eq).
  destruct (klfree_locked fuel h2 (<[q := k]> B) p n H2 Ep) as (h3 & R3 & H3 & K3 & _ & B3).
  { apply (fuel_less (brk h + 0x1F00000)); [cbn; lia|done]. }
  rewrite delete_insert_ne in H3, K3 by done. exists q, k, h3. split_and!; [|done|done| |].
  - rewrite (St_bind_done _ _ _ _ _ R1). rewrite (proj2 (Z.eqb_neq q NULL)) by (unfold NULL; lia). cbn [negb].
    rewrite (St_bind_done (copy_words q p n) _ h1 tt h2 eq_refl). by rewrite (St_bind_done _ _ _ _ _ R3).
  - intros i Hi. rewrite (K3 q k (q + i)); [|by rewrite lookup_insert_eq|lia]. change (words h2) with m2. unfold m2.
    rewrite (proj2 (Z.leb_le q (q + i))), (proj2 (Z.ltb_lt (q + i) (q + n))) by lia. cbn [andb].
    replace (p + (q + i - q)) with (p + i) by lia. apply (K1 p n); [done|lia].
  - intros r j x Hrj Hx. pose proof Hrj as [Hrp Hr0]%lookup_delete_Some. assert (Hrq : q ≠ r) by congruence.
    rewrite (K3 r j x); [|by rewrite lookup_insert_ne|done]. change (words h2) with m2. rewrite M2; [by apply (K1 r j x)|].
    pose proof (locked_apart _ _ q k r j H1 Eq ltac:(by rewrite lookup_insert_ne) Hrq). lia.
Qed.

(** What [realloc] comes to on a live block. *)
Lemma realloc_starts fuel h B p n size r h' : heap_rep h B → B !! p = Some n → size ≠ 0 →
  (if size <=? n then mret p else
     newptr ← klmalloc fuel size;
     if negb (newptr =? NULL) then copy_words newptr p n;; klfree fuel p;; mret newptr else mret NULL) (with_lock h true) = Done (r, h') →
  realloc fuel p size h = Done (r, with_lock h' false).
Proof.
  intros H Hp Hs R. assert (L : mem_lock h = false) by apply H. set (h0 := with_lock h true) in *.
  pose proof (locked_rep _ _ L H : locked h0 B) as HL. destruct (locked_above _ _ _ _ HL Hp) as (Hlo & _). unfold HEAP_START in Hlo.
  assert (Hd := proj1 (locked_inv h0 B) HL). destruct Hd as (G & X & I & E).
  destruct (block_header h0 G X p n I (proj1 (E p n) Hp)) as (Ha & HM & Hn). set (a := p - p mod PAGE_SIZE) in *.
  unfold realloc. rewrite (St_bind_done _ _ _ _ _ (spin_lock_run h L)). fold h0.
  assert (R' : klrealloc fuel p size h0 = Done (r, h')).
  { unfold klrealloc. rewrite (proj2 (Z.eqb_neq p NULL)) by (unfold NULL; lia).
    rewrite (proj2 (Z.eqb_neq size 0)) by lia. fold a. rd_step. rewrite HM, Z.eqb_refl. cbn [negb]. rd_step. rewrite Hn. exact R. }
  by rewrite (St_bind_done _ _ _ _ _ R').
Qed.

(** [realloc] of a live block to a size that is not zero, and that [malloc] could be
    asked for if it is larger than the block ([request]: below [0x1F00000] less the header,
    with room above the break), leaves a block at least that large in its place, which
    holds what the old one held; the others stay as they are. *)
Theorem realloc_correct fuel h B p n size : heap_rep h B → B !! p = Some n → 0 < size →
  (n < size → request h size) → enough h fuel →
  ∃ p' n' h', realloc fuel p size h = Done (p', h') ∧ heap_rep h' (<[p' := n']> (delete p B)) ∧ size ≤ n' ∧
    (∀ i, 0 ≤ i < n → words h' (p' + i) = words h (p + i)) ∧ contents_kept (delete p B) h h'.
Proof.
  intros H Hp Hpos Hr Hf. assert (L : mem_lock h = false) by apply H. assert (Hs : size ≠ 0) by lia.
  pose proof (λ r h', realloc_starts fuel h B p n size r h' H Hp Hs) as Start. destruct (Z.leb_spec size n) as [Hle|Hgt].
  - exists p, n, (with_lock (with_lock h true) false). split; [by apply Start|]. rewrite insert_delete_id by done.
    split_and!; [by apply (locked_rep _ _ L H)|done|done|by intros q k x _].
  - destruct (move_locked fuel (with_lock h true) B p n size (locked_rep _ _ L H) Hp ltac:(lia) (Hr Hgt) Hf) as (p' & n' & h' & R & H' & Hn & M & K).
    exists p', n', (with_lock h' false). split; [by apply Start|done].
Qed.

(** [calloc] gives a block of zeros: every word of the bytes asked for is zero, the low
    bytes of the last one included, and otherwise it is [malloc]. *)
Theorem calloc_correct fuel h B nmemb size : heap_rep h B → request h (nmemb * size) → enough h fuel →
  ∃ p n h', calloc fuel nmemb size h = Done (p, h') ∧ heap_rep h' (<[p := n]> B) ∧ B !! p = None ∧ nmemb * size ≤ n ∧
    (∀ x, p ≤ x < p + nmemb * size → words h' x mod 2 ^ (8 * Z.min 8 (p + nmemb * size - x)) = 0) ∧ contents_kept B h h'.
Proof.
  intros H Hr Hf. assert (L : mem_lock h = false) by apply H. set (N := nmemb * size) in *. assert (HN : 0 < N < 0x1F00000) by (destruct Hr; offsets; lia).
  destruct (klmalloc_locked fuel (with_lock h true) B N (locked_rep _ _ L H) Hr (enough_for h fuel Hf)) as (p & n & h1 & R & H1 & Hp & Hn & K & _).
  pose proof (lookup_insert_eq B p n) as Ep. destruct (locked_above _ _ _ _ H1 Ep) as (Hlo & _). unfold HEAP_START in Hlo.
  set (m2 := λ x, if (p <=? x) && (x <? p + N) then
      if x + 8 <=? p + N then 0 else let k := 8 * (p + N - x) in Z.shiftl (Z.shiftr (words h1 x) k) k else words h1 x).
  assert (M2 : ∀ x, ¬ p ≤ x < p + n → m2 x = words h1 x).
  { intros x Hx. unfold m2. destruct (Z.leb_spec p x), (Z.ltb_spec x (p + N)); done || lia. }
  exists p, n, (with_lock (with_words h1 m2) false). split_and!; [|by apply (write_locked h1 _ p n m2 H1 Ep)|done|done| |].
  - unfold calloc. rewrite (St_bind_done _ _ _ _ _ (spin_lock_run h L)). unfold klcalloc. fold N. rewrite u64_small by lia.
    assert (R2 : (ptr ← klmalloc fuel N; (if negb (ptr =? NULL) then zero_words ptr N else mret tt);; mret ptr) (with_lock h true) =
      Done (p, with_words h1 m2)).
    { rewrite (St_bind_done _ _ _ _ _ R). by rewrite (proj2 (Z.eqb_neq p NULL)) by (unfold NULL; lia). }
    by rewrite (St_bind_done _ _ _ _ _ R2).
  - intros x Hx. change (m2 x mod 2 ^ (8 * Z.min 8 (p + N - x)) = 0). unfold m2.
    rewrite (proj2 (Z.leb_le p x)), (proj2 (Z.ltb_lt x (p + N))) by lia. cbn [andb].
    destruct (Z.leb_spec (x + 8) (p + N)); [by rewrite Z.mod_0_l by (apply Z.pow_nonzero; lia)|].
    rewrite Z.min_r by lia. cbv zeta. rewrite Z.shiftl_mul_pow2 by lia. apply Z_mod_mult.
  - intros q k x Hq Hx. change (m2 x = words h x). assert (Hpq : p ≠ q) by congruence.
    rewrite M2; [by apply (K q k)|]. pose proof (locked_apart _ _ p n q k H1 Ep ltac:(by rewrite lookup_insert_ne) Hpq). lia.
Qed.

(** The address of a large block and its page-aligned part are freed alike. *)
Lemma klfree_aligned fuel h G X a n : inv h G X → G !! a = Some (Big n false) →
  klfree fuel (a + PAGE_SIZE) h = klfree fuel (a + big_bin_header) h.
Proof.
  intros I Ha. destruct (in_pages _ _ _ I a _ Ha) as (Hm & Hlo & _ & HM & _ & _ & Hs & _). unfold HEAP_START in Hlo.
  pose proof (inv_span h G X I _ _ Ha) as Hsp. simpl in Hsp.
  assert (K : ∀ p, a < p ≤ a + PAGE_SIZE → klfree fuel p h = release fuel a n h).
  { intros p Hp. unfold klfree. rewrite (proj2 (Z.eqb_neq p NULL)) by (unfold NULL; offsets; lia).
    assert (Ep : (let q := if p mod PAGE_SIZE =? 0 then p - 1 else p in q - q mod PAGE_SIZE) = a).
    { cbv zeta. destruct (decide (p = a + PAGE_SIZE)) as [->|].
      - replace ((a + PAGE_SIZE) mod PAGE_SIZE) with 0 by (rewrite Z.add_mod, Hm by done; done). cbn [Z.eqb].
        rewrite (page_of a (a + PAGE_SIZE - 1) Hm) by (offsets; lia). lia.
      - rewrite (page_of a p Hm) by lia. rewrite (proj2 (Z.eqb_neq (p - a) 0)) by lia. rewrite (page_of a p Hm) by lia. lia. }
    cbv zeta in Ep |- *. rewrite Ep. rd_step. rewrite HM, Z.eqb_refl. cbn [negb]. rd_step. rewrite Hs.
    by rewrite (proj2 (Z.ltb_lt NUM_BINS n)) by (unfold NUM_BINS; offsets; lia). }
  rewrite !K by (offsets; lia). done.
Qed.

(** [valloc] gives a page boundary with the bytes asked for behind it, inside a large
    block; [free] of that boundary is [free] of the block. *)
Theorem valloc_correct fuel h B size : heap_rep h B → 0 < size → request h (size + (PAGE_SIZE - big_bin_header)) → enough h fuel →
  ∃ p n h', valloc fuel size h = Done (p + (PAGE_SIZE - big_bin_header), h') ∧ heap_rep h' (<[p := n]> B) ∧ B !! p = None ∧
    (p + (PAGE_SIZE - big_bin_header)) mod PAGE_SIZE = 0 ∧ size + (PAGE_SIZE - big_bin_header) ≤ n ∧ contents_kept B h h' ∧
    ∀ fuel', free fuel' (p + (PAGE_SIZE - big_bin_header)) h' = free fuel' p h'.
Proof.
  intros H Hs0 Hr Hf. assert (L : mem_lock h = false) by apply H. set (N := size + (PAGE_SIZE - big_bin_header)) in *.
  destruct (klmalloc_locked fuel (with_lock h true) B N (locked_rep _ _ L H) Hr (enough_for h fuel Hf)) as (p & n & h1 & R & H1 & Hp & Hn & K & L1 & _).
  pose proof (proj1 (locked_inv _ _) H1) as (G & X & I & E). pose proof (proj1 (E p n) (lookup_insert_eq B p n)) as Bp.
  destruct Bp as [(a & b & st & Ha & _ & _ & ->)|(a & Ha & ->)].
  { destruct (inv_stack _ _ _ _ _ _ I Ha) as (Hb & _). destruct (cell_facts b Hb) as (_ & _ & ?). unfold N in Hn. offsets. lia. }
  destruct (in_pages _ _ _ I a _ Ha) as (Hm & Hlo & Hhi & _). pose proof (in_brk _ _ _ I) as [_ [_ Bhi]].
  pose proof (inv_span h1 G X I _ _ Ha) as Hsp. simpl in Hsp, Hhi. unfold HEAP_START in Hlo. destruct Hr as [Hr _].
  assert (Hal : (a + PAGE_SIZE) mod PAGE_SIZE = 0) by (rewrite Z.add_mod, Hm by done; done).
  assert (Eal : a + big_bin_header + (PAGE_SIZE - big_bin_header) = a + PAGE_SIZE) by (offsets; lia).
  exists (a + big_bin_header), n, (with_lock h1 false). rewrite Eal. split_and!; [|done|done|done|done|done|].
  - unfold valloc. rewrite (St_bind_done _ _ _ _ _ (spin_lock_run h L)).
    assert (R2 : klvalloc fuel size (with_lock h true) = Done (a + PAGE_SIZE, h1)).
    { unfold klvalloc. rewrite u64_small by (unfold N in *; offsets; lia). replace (size + PAGE_SIZE - big_bin_header) with N by (unfold N; lia).
      rewrite (St_bind_done _ _ _ _ _ R). rewrite Eal, u64_small by (unfold N in *; offsets; lia). by rewrite Hal. }
    by rewrite (St_bind_done _ _ _ _ _ R2).
  - intros f. unfold free. rewrite !(St_bind_done _ _ _ _ _ (spin_lock_run (with_lock h1 false) eq_refl)).
    rewrite !(proj2 (Z.ltb_ge _ 0xffffff0000000000)) by (offsets; lia).
    assert (I' : inv (with_lock (with_lock h1 false) true) G X) by (destruct I; by split).
    unfold mbind, St_bind. by rewrite (klfree_aligned f _ G X a n I' Ha).
Qed.

(** ** What goes wrong *)

(** [realloc] with size zero calls [free] with the heap's lock held, and [free] takes
    it again: the call never returns, whatever the pointer. *)
Theorem realloc_zero_deadlocks fuel ptr h : ptr ≠ NULL → realloc fuel ptr 0 h = Timeout.
Proof.
  intros Hp. unfold realloc, mbind, St_bind, spin_lock. destruct (mem_lock h); [done|].
  unfold klrealloc. rewrite (proj2 (Z.eqb_neq ptr NULL) Hp). done.
Qed.

(** [free] of a null pointer stops the kernel in a loop. *)
Lemma free_null_hangs fuel h : free fuel NULL h = Timeout.
Proof. unfold free, mbind, St_bind, spin_lock. by destruct (mem_lock h). Qed.

(** ** A heap *)

Definition heap0 : heap :=
  Heap (λ _, 0) (replicate 9 NULL) 0x200000 0 NULL (123456789, 362436069, 521288629, 88675123) HEAP_START false.

Lemma heap0_rep : heap_rep heap0 ∅.
Proof.
  split; [done|]. exists ∅, []. split; [by apply initial_inv|]. intros p n. rewrite lookup_empty. split; [done|].
  by intros [(a & b & st & Ha & _)|(a & Ha & _)].
Qed.

Lemma fuel_pages b n : (b - HEAP_START) / PAGE_SIZE < n → 0 < n → fuel_for b (Z.to_nat n).
Proof. unfold fuel_for. generalize ((b - HEAP_START) / PAGE_SIZE). lia. Qed.

Lemma heap0_enough : enough heap0 (Z.to_nat 8000).
Proof. by apply fuel_pages. Qed.

Lemma heap0_request size : 0 < size < 0x1EFFFA0 → request heap0 size.
Proof. intros H. split; [offsets; lia|by vm_compute]. Qed.

Lemma malloc_correct_witness :
  ∃ p n h', malloc (Z.to_nat 8000) 24 heap0 = Done (p, h') ∧ heap_rep h' (<[p := n]> ∅) ∧ (∅ : gmap Z Z) !! p = None ∧ 24 ≤ n ∧
    separate (<[p := n]> ∅) ∧ contents_kept ∅ heap0 h'.
Proof. exact (malloc_correct (Z.to_nat 8000) heap0 ∅ 24 heap0_rep (heap0_request 24 ltac:(lia)) heap0_enough). Defined.

Lemma calloc_correct_witness :
  ∃ p n h', calloc (Z.to_nat 8000) 3 1001 heap0 = Done (p, h') ∧ heap_rep h' (<[p := n]> ∅) ∧ (∅ : gmap Z Z) !! p = None ∧ 3 * 1001 ≤ n ∧
    (∀ x, p ≤ x < p + 3 * 1001 → words h' x mod 2 ^ (8 * Z.min 8 (p + 3 * 1001 - x)) = 0) ∧ contents_kept ∅ heap0 h'.
Proof. exact (calloc_correct (Z.to_nat 8000) heap0 ∅ 3 1001 heap0_rep (heap0_request 3003 ltac:(lia)) heap0_enough). Defined.

Lemma valloc_correct_witness :
  ∃ p n h', valloc (Z.to_nat 8000) 4096 heap0 = Done (p + (PAGE_SIZE - big_bin_header), h') ∧ heap_rep h' (<[p := n]> ∅) ∧ (∅ : gmap Z Z) !! p = None ∧
    (p + (PAGE_SIZE - big_bin_header)) mod PAGE_SIZE = 0 ∧ 4096 + (PAGE_SIZE - big_bin_header) ≤ n ∧ contents_kept ∅ heap0 h' ∧
    ∀ fuel', free fuel' (p + (PAGE_SIZE - big_bin_header)) h' = free fuel' p h'.
Proof. exact (valloc_correct (Z.to_nat 8000) heap0 ∅ 4096 heap0_rep ltac:(lia) (heap0_request 8096 ltac:(lia)) heap0_enough). Defined.

Lemma realloc_zero_deadlocks_witness : realloc (Z.to_nat 8000) (HEAP_START + 32) 0 heap0 = Timeout.
Proof. exact (realloc_zero_deadlocks (Z.to_nat 8000) (HEAP_START + 32) heap0 ltac:(vm_compute; congruence)). Defined.

(** A heap with one live block. *)
Lemma heap1 size : 0 < size < 0x1EFFFA0 → ∃ p n h, malloc (Z.to_nat 8000) size heap0 = Done (p, h) ∧
  heap_rep h {[p := n]} ∧ size ≤ n ∧ enough h (Z.to_nat 16000) ∧ ∀ t, 0 < t < 0x1EFFFA0 → request h t.
Proof.
  intros Hs. destruct (malloc_run (Z.to_nat 8000) heap0 ∅ size heap0_rep (heap0_request _ Hs) heap0_enough) as (p & n & h & R & H & _ & Hn & _ & [_ B]).
  exists p, n, h. change (brk heap0) with HEAP_START in B. unfold HEAP_START in B. split_and!; [done|done|done| |].
  - apply (fuel_less (HEAP_START + 0x1F00000 + 0x1F00000)); [unfold HEAP_START; lia|by apply fuel_pages].
  - intros t Ht. split; [offsets; lia|]. lia.
Qed.

Lemma free_correct_witness : ∃ p n h h', malloc (Z.to_nat 8000) 5000 heap0 = Done (p, h) ∧
  free (Z.to_nat 16000) p h = Done (tt, h') ∧ heap_rep h' (delete p {[p := n]}) ∧ contents_kept (delete p {[p := n]}) h h'.
Proof.
  destruct (heap1 5000 ltac:(lia)) as (p & n & h & R & H & _ & Hf & _).
  destruct (free_correct (Z.to_nat 16000) h {[p := n]} p n H (lookup_singleton_eq p n) Hf) as (h' & H'). exists p, n, h, h'. exact (conj R H').
Defined.

Lemma realloc_correct_witness : ∃ p n h p' n' h', malloc (Z.to_nat 8000) 100 heap0 = Done (p, h) ∧
  realloc (Z.to_nat 16000) p 9000 h = Done (p', h') ∧ heap_rep h' (<[p' := n']> (delete p {[p := n]})) ∧ 9000 ≤ n' ∧
  (∀ i, 0 ≤ i < n → words h' (p' + i) = words h (p + i)) ∧ contents_kept (delete p {[p := n]}) h h'.
Proof.
  destruct (heap1 100 ltac:(lia)) as (p & n & h & R & H & _ & Hf & Hr).
  destruct (realloc_correct (Z.to_nat 16000) h {[p := n]} p n 9000 H (lookup_singleton_eq p n) ltac:(lia) (λ _, Hr 9000 ltac:(lia)) Hf) as (p' & n' & h' & H').
  exists p, n, h, p', n', h'. exact (conj R H').
Defined.

(** A run of the code: two cells of a bin, the first given back and taken again; a large
    block given back and the best of two taken. *)
Definition result {A} (r : outcome (A * heap)) : option A := match r with Done (x, _) => Some x | _ => None end.

Example small_run :
  result ((p ← malloc 9 20; q ← malloc 9 17; free 9 p;; r ← malloc 9 32; mret (p - HEAP_START, q - HEAP_START, r - HEAP_START)) heap0) =
    Some (32, 64, 32).
Proof. by vm_compute. Qed.

Example large_run :
  result ((p ← malloc 9 9000; q ← malloc 9 5000; g ← malloc 9 1; free 9 p;; free 9 q;; r ← malloc 9 4500; s ← malloc 9 4500;
     mret (p - HEAP_START, q - HEAP_START, r - HEAP_START, s - HEAP_START)) heap0) = Some (96, 12384, 12384, 96).
Proof. by vm_compute. Qed.

(** A request whose size wraps around gets a block of one page. *)
Example malloc_wraps : result ((p ← malloc 9 (2 ^ 64 - 96); words_ ← gets words; mret (words_ (p - p mod PAGE_SIZE + SIZE))) heap0) = Some 4000.
Proof. by vm_compute. Qed.

(** [calloc] does not check its product. *)
Example calloc_wraps : result ((p ← calloc 9 (2 ^ 61) 9; words_ ← gets words; mret (words_ (p - p mod PAGE_SIZE + SIZE))) heap0) =
  result ((p ← calloc 9 (2 ^ 61) 1; words_ ← gets words; mret (words_ (p - p mod PAGE_SIZE + SIZE))) heap0).
Proof. by vm_compute. Qed.

(** [realloc] of what [valloc] gave takes the block's own bytes for a header. *)
Example realloc_valloc_faults : (p ← valloc 9 5000; realloc 9 p 6000) heap0 = Fault.
Proof. by vm_compute. Qed.
