(* ===== verification/Process.v ===== *)
(** * Processes ([src/kernel/sys/process.c])

    The scheduler and the process tree: the ready queue, wait queues, timed sleeps and
    the waits on several nodes, waiting for children and their removal.  A process is a
    record at an address; its tree node is a node of KTree, whose operations are called
    as they are.  The nodes [sched_node] and [sleep_node] live inside the process, so a
    queue is the sequence of its processes and the owner of a node a field; to append a
    node that is in a list already would corrupt both lists and is a [Fault] here.  A node
    of [sleep_queue] is named by its sleeper.

    A function that switches away ends at the switch ([switch_next]): what it does when
    its process runs again is a definition of its own.  Locks taken and released make the
    part between one step.  Left out: the page directories, kernel stacks, file
    descriptors and times of processes, and the check that a queue node's address lies in
    the kernel heap. *)
From S2P Require Import Prelude KTree.
Local Open Scope Z_scope.

Definition PROC_FLAG_IS_TASKLET : Z := 0x01.
Definition PROC_FLAG_FINISHED : Z := 0x02.
Definition PROC_FLAG_STARTED : Z := 0x04.
Definition PROC_FLAG_RUNNING : Z := 0x08.
Definition PROC_FLAG_SLEEP_INT : Z := 0x10.
Definition PROC_FLAG_SUSPENDED : Z := 0x20.
Definition PROC_FLAG_TRACE_SYSCALLS : Z := 0x40.
Definition PROC_FLAG_TRACE_SIGNALS : Z := 0x80.
Definition PROC_FLAG_RESTORE_SIGMASK : Z := 0x100.
Definition WNOHANG : Z := 1.
Definition WUNTRACED : Z := 2.
Definition WSTOPPED : Z := 4.
Definition WNOKERN : Z := 16.
Definition ECHILD : Z := 10.
Definition EINTR : Z := 4.
Definition EBADF : Z := 9.
Definition USER_ROOT_UID : Z := 0.

(** ** Data *)

Record signal_config : Type := SigConfig { handler : Z; mask : Z; sa_flags : Z }.

Record process : Type := Proc {
  id : Z;
  group : Z;
  job : Z;
  session : Z;
  status : Z;
  flags : Z;
  owner : Z;
  user : Z;
  tree_entry : Z;
  wait_queue : Z;
  (** the values of the nodes of the list, when there is one *)
  node_waits : option (list Z);
  (** [sched_node.owner] is not null: it is in [process_queue] *)
  sched_queued : bool;
  (** [sleep_node.owner] *)
  sleep_owner : Z;
  (** the sleeper of the node *)
  timed_sleep_node : Z;
  (** the sleeper of the node *)
  timeout_node : Z;
  awoken_index : Z;
  signals : list signal_config;
  blocked_signals : Z;
  pending_signals : Z;
  awaited_signals : Z;
  interrupted_system_call : Z;
  restored_signals : Z;
  tracer : Z;
  (** the processes it traces, when it has the list *)
  tracees : option (list Z)
}.

Definition with_group (v : Z) (p : process) : process :=
  Proc (id p) v (job p) (session p) (status p) (flags p) (owner p) (user p) (tree_entry p) (wait_queue p) (node_waits
    p) (sched_queued p) (sleep_owner p) (timed_sleep_node p) (timeout_node p) (awoken_index p) (signals p)
    (blocked_signals p) (pending_signals p) (awaited_signals p) (interrupted_system_call p) (restored_signals
    p) (tracer p) (tracees p).
Definition with_status (v : Z) (p : process) : process :=
  Proc (id p) (group p) (job p) (session p) v (flags p) (owner p) (user p) (tree_entry p) (wait_queue p) (node_waits
    p) (sched_queued p) (sleep_owner p) (timed_sleep_node p) (timeout_node p) (awoken_index p) (signals p)
    (blocked_signals p) (pending_signals p) (awaited_signals p) (interrupted_system_call p) (restored_signals
    p) (tracer p) (tracees p).
Definition with_flags (v : Z) (p : process) : process :=
  Proc (id p) (group p) (job p) (session p) (status p) v (owner p) (user p) (tree_entry p) (wait_queue p) (node_waits
    p) (sched_queued p) (sleep_owner p) (timed_sleep_node p) (timeout_node p) (awoken_index p) (signals p)
    (blocked_signals p) (pending_signals p) (awaited_signals p) (interrupted_system_call p) (restored_signals
    p) (tracer p) (tracees p).
Definition with_owner (v : Z) (p : process) : process :=
  Proc (id p) (group p) (job p) (session p) (status p) (flags p) v (user p) (tree_entry p) (wait_queue p) (node_waits
    p) (sched_queued p) (sleep_owner p) (timed_sleep_node p) (timeout_node p) (awoken_index p) (signals p)
    (blocked_signals p) (pending_signals p) (awaited_signals p) (interrupted_system_call p) (restored_signals
    p) (tracer p) (tracees p).
Definition with_tree_entry (v : Z) (p : process) : process :=
  Proc (id p) (group p) (job p) (session p) (status p) (flags p) (owner p) (user p) v (wait_queue p) (node_waits p)
    (sched_queued p) (sleep_owner p) (timed_sleep_node p) (timeout_node p) (awoken_index p) (signals p)
    (blocked_signals p) (pending_signals p) (awaited_signals p) (interrupted_system_call p) (restored_signals
    p) (tracer p) (tracees p).
Definition with_node_waits (v : option (list Z)) (p : process) : process :=
  Proc (id p) (group p) (job p) (session p) (status p) (flags p) (owner p) (user p) (tree_entry p) (wait_queue p) v
    (sched_queued p) (sleep_owner p) (timed_sleep_node p) (timeout_node p) (awoken_index p) (signals p)
    (blocked_signals p) (pending_signals p) (awaited_signals p) (interrupted_system_call p) (restored_signals
    p) (tracer p) (tracees p).
Definition with_sched_queued (v : bool) (p : process) : process :=
  Proc (id p) (group p) (job p) (session p) (status p) (flags p) (owner p) (user p) (tree_entry p) (wait_queue p)
    (node_waits p) v (sleep_owner p) (timed_sleep_node p) (timeout_node p) (awoken_index p) (signals p)
    (blocked_signals p) (pending_signals p) (awaited_signals p) (interrupted_system_call p) (restored_signals
    p) (tracer p) (tracees p).
Definition with_sleep_owner (v : Z) (p : process) : process :=
  Proc (id p) (group p) (job p) (session p) (status p) (flags p) (owner p) (user p) (tree_entry p) (wait_queue p)
    (node_waits p) (sched_queued p) v (timed_sleep_node p) (timeout_node p) (awoken_index p) (signals p)
    (blocked_signals p) (pending_signals p) (awaited_signals p) (interrupted_system_call p) (restored_signals
    p) (tracer p) (tracees p).
Definition with_timed_sleep_node (v : Z) (p : process) : process :=
  Proc (id p) (group p) (job p) (session p) (status p) (flags p) (owner p) (user p) (tree_entry p) (wait_queue p)
    (node_waits p) (sched_queued p) (sleep_owner p) v (timeout_node p) (awoken_index p) (signals p)
    (blocked_signals p) (pending_signals p) (awaited_signals p) (interrupted_system_call p) (restored_signals
    p) (tracer p) (tracees p).
Definition with_timeout_node (v : Z) (p : process) : process :=
  Proc (id p) (group p) (job p) (session p) (status p) (flags p) (owner p) (user p) (tree_entry p) (wait_queue p)
    (node_waits p) (sched_queued p) (sleep_owner p) (timed_sleep_node p) v (awoken_index p) (signals p)
    (blocked_signals p) (pending_signals p) (awaited_signals p) (interrupted_system_call p) (restored_signals
    p) (tracer p) (tracees p).
Definition with_awoken_index (v : Z) (p : process) : process :=
  Proc (id p) (group p) (job p) (session p) (status p) (flags p) (owner p) (user p) (tree_entry p) (wait_queue p)
    (node_waits p) (sched_queued p) (sleep_owner p) (timed_sleep_node p) (timeout_node p) v (signals p)
    (blocked_signals p) (pending_signals p) (awaited_signals p) (interrupted_system_call p) (restored_signals
    p) (tracer p) (tracees p).
Definition with_signals (v : list signal_config) (p : process) : process :=
  Proc (id p) (group p) (job p) (session p) (status p) (flags p) (owner p) (user p) (tree_entry p) (wait_queue p)
    (node_waits p) (sched_queued p) (sleep_owner p) (timed_sleep_node p) (timeout_node p) (awoken_index p) v
    (blocked_signals p) (pending_signals p) (awaited_signals p) (interrupted_system_call p) (restored_signals
    p) (tracer p) (tracees p).
Definition with_blocked_signals (v : Z) (p : process) : process :=
  Proc (id p) (group p) (job p) (session p) (status p) (flags p) (owner p) (user p) (tree_entry p) (wait_queue p)
    (node_waits p) (sched_queued p) (sleep_owner p) (timed_sleep_node p) (timeout_node p) (awoken_index p)
    (signals p) v (pending_signals p) (awaited_signals p) (interrupted_system_call p) (restored_signals p)
    (tracer p) (tracees p).
Definition with_pending_signals (v : Z) (p : process) : process :=
  Proc (id p) (group p) (job p) (session p) (status p) (flags p) (owner p) (user p) (tree_entry p) (wait_queue p)
    (node_waits p) (sched_queued p) (sleep_owner p) (timed_sleep_node p) (timeout_node p) (awoken_index p)
    (signals p) (blocked_signals p) v (awaited_signals p) (interrupted_system_call p) (restored_signals p)
    (tracer p) (tracees p).
Definition with_awaited_signals (v : Z) (p : process) : process :=
  Proc (id p) (group p) (job p) (session p) (status p) (flags p) (owner p) (user p) (tree_entry p) (wait_queue p)
    (node_waits p) (sched_queued p) (sleep_owner p) (timed_sleep_node p) (timeout_node p) (awoken_index p)
    (signals p) (blocked_signals p) (pending_signals p) v (interrupted_system_call p) (restored_signals p)
    (tracer p) (tracees p).
Definition with_interrupted_system_call (v : Z) (p : process) : process :=
  Proc (id p) (group p) (job p) (session p) (status p) (flags p) (owner p) (user p) (tree_entry p) (wait_queue p)
    (node_waits p) (sched_queued p) (sleep_owner p) (timed_sleep_node p) (timeout_node p) (awoken_index p)
    (signals p) (blocked_signals p) (pending_signals p) (awaited_signals p) v (restored_signals p) (tracer p)
    (tracees p).
Definition with_restored_signals (v : Z) (p : process) : process :=
  Proc (id p) (group p) (job p) (session p) (status p) (flags p) (owner p) (user p) (tree_entry p) (wait_queue p)
    (node_waits p) (sched_queued p) (sleep_owner p) (timed_sleep_node p) (timeout_node p) (awoken_index p)
    (signals p) (blocked_signals p) (pending_signals p) (awaited_signals p) (interrupted_system_call p) v
    (tracer p) (tracees p).
Definition with_tracer (v : Z) (p : process) : process :=
  Proc (id p) (group p) (job p) (session p) (status p) (flags p) (owner p) (user p) (tree_entry p) (wait_queue p)
    (node_waits p) (sched_queued p) (sleep_owner p) (timed_sleep_node p) (timeout_node p) (awoken_index p)
    (signals p) (blocked_signals p) (pending_signals p) (awaited_signals p) (interrupted_system_call p)
    (restored_signals p) v (tracees p).
Definition with_tracees (v : option (list Z)) (p : process) : process :=
  Proc (id p) (group p) (job p) (session p) (status p) (flags p) (owner p) (user p) (tree_entry p) (wait_queue p)
    (node_waits p) (sched_queued p) (sleep_owner p) (timed_sleep_node p) (timeout_node p) (awoken_index p)
    (signals p) (blocked_signals p) (pending_signals p) (awaited_signals p) (interrupted_system_call p)
    (restored_signals p) (tracer p) v.

(** [flags & f], [flags |= f] and [flags &= ~f]. *)
Definition has (p : process) (f : Z) : bool := negb (Z.land (flags p) f =? 0).
Definition raise (f : Z) (p : process) : process := with_flags (Z.lor (flags p) f) p.
Definition lower (f : Z) (p : process) : process := with_flags (Z.ldiff (flags p) f) p.

Record sleeper_t : Type := Sleeper { end_tick : Z; end_subtick : Z; sl_process : Z; is_fswait : Z }.

Record core : Type := Core { current_process : Z; previous_process : Z; kernel_idle_task : Z }.

Record kernel : Type := Kernel {
  procs : gmap Z process;
  process_list : list Z;
  process_tree : tree_state;
  process_queue : list Z;
  (** the wait queues *)
  queues : gmap Z (list Z);
  sleep_queue : list Z;
  sleepers : gmap Z sleeper_t;
  reap_queue : list Z;
  cores : gmap Z core;
  next_pid : Z
}.

(** [initialize_process_tree], over the static data of before it: [processor_local_data] of
    32 cores, the number of the next process. *)
Definition initialize_process_tree : kernel :=
  Kernel ∅ [] tree_create [] ∅ [] ∅ [] (list_to_map ((λ i, (Z.of_nat i, Core NULL NULL NULL)) <$> seq 0 32)) 2.

(** The address of [sleep_queue], which no wait queue has. *)
Definition SLEEP_QUEUE : Z := 1.

Definition with_procs (x : gmap Z process) (k : kernel) : kernel :=
  Kernel x (process_list k) (process_tree k) (process_queue k) (queues k) (sleep_queue k) (sleepers k) (reap_queue k) (cores k) (next_pid k).
Definition with_process_list (x : list Z) (k : kernel) : kernel :=
  Kernel (procs k) x (process_tree k) (process_queue k) (queues k) (sleep_queue k) (sleepers k) (reap_queue k) (cores k) (next_pid k).
Definition with_process_tree (x : tree_state) (k : kernel) : kernel :=
  Kernel (procs k) (process_list k) x (process_queue k) (queues k) (sleep_queue k) (sleepers k) (reap_queue k) (cores k) (next_pid k).
Definition with_process_queue (x : list Z) (k : kernel) : kernel :=
  Kernel (procs k) (process_list k) (process_tree k) x (queues k) (sleep_queue k) (sleepers k) (reap_queue k) (cores k) (next_pid k).
Definition with_queues (x : gmap Z (list Z)) (k : kernel) : kernel :=
  Kernel (procs k) (process_list k) (process_tree k) (process_queue k) x (sleep_queue k) (sleepers k) (reap_queue k) (cores k) (next_pid k).
Definition with_sleep (x : list Z) (y : gmap Z sleeper_t) (k : kernel) : kernel :=
  Kernel (procs k) (process_list k) (process_tree k) (process_queue k) (queues k) x y (reap_queue k) (cores k) (next_pid k).
Definition with_reap_queue (x : list Z) (k : kernel) : kernel :=
  Kernel (procs k) (process_list k) (process_tree k) (process_queue k) (queues k) (sleep_queue k) (sleepers k) x (cores k) (next_pid k).
Definition with_cores (x : gmap Z core) (k : kernel) : kernel :=
  Kernel (procs k) (process_list k) (process_tree k) (process_queue k) (queues k) (sleep_queue k) (sleepers k) (reap_queue k) x (next_pid k).

Definition with_next_pid (x : Z) (k : kernel) : kernel :=
  Kernel (procs k) (process_list k) (process_tree k) (process_queue k) (queues k) (sleep_queue k) (sleepers k) (reap_queue k) (cores k) x.

Definition proc (a : Z) : St kernel process := λ k,
  match procs k !! a with Some p => Done (p, k) | None => Fault end.
Definition set (a : Z) (f : process → process) : St kernel unit := λ k,
  match procs k !! a with Some p => Done (tt, with_procs (<[a := f p]> (procs k)) k) | None => Fault end.
Definition queue (q : Z) : St kernel (list Z) := λ k,
  match queues k !! q with Some l => Done (l, k) | None => Fault end.
Definition set_queue (q : Z) (l : list Z) : St kernel unit := modify (λ k, with_queues (<[q := l]> (queues k)) k).
Definition sleeper (s : Z) : St kernel sleeper_t := λ k,
  match sleepers k !! s with Some x => Done (x, k) | None => Fault end.
Definition in_tree {A} (f : St tree_state A) : St kernel A := λ k,
  match f (process_tree k) with Done (x, t) => Done (x, with_process_tree t k) | Fault => Fault | Timeout => Timeout end.

(** [list_append], [list_pop] and [list_delete] on a wait queue. *)
Definition queue_append (q a : Z) : St kernel unit :=
  p ← proc a;
  l ← queue q;
  if negb (sleep_owner p =? NULL) then fault
  else set a (with_sleep_owner q);; set_queue q (l ++ [a]).
Definition queue_delete (q a : Z) : St kernel unit :=
  l ← queue q;
  if bool_decide (a ∈ l) then set_queue q (remove_first a l);; set a (with_sleep_owner NULL) else fault.
Definition queue_pop (q : Z) : St kernel (option Z) :=
  l ← queue q;
  match last l with
  | None => mret None
  | Some a => queue_delete q a;; mret (Some a)
  end.

(** [list_delete(sleep_queue, node)] and [free] of its sleeper. *)
Definition sleep_delete (s : Z) : St kernel unit := λ k,
  if bool_decide (s ∈ sleep_queue k) then Done (tt, with_sleep (remove_first s (sleep_queue k)) (delete s (sleepers k)) k)
  else Fault.

Section Ops.
Context `{!Malloc}.
(** [this_core->cpu_id] *)
Context (cpu : Z).

Definition this_core : St kernel core := λ k,
  match cores k !! cpu with Some c => Done (c, k) | None => Fault end.
Definition current : St kernel Z := c ← this_core; mret (current_process c).

(** ** The ready queue *)

Definition make_process_ready (a : Z) : St kernel unit :=
  p ← proc a;
  (if negb (sleep_owner p =? NULL) then
     if sleep_owner p =? SLEEP_QUEUE then
       if negb (timed_sleep_node p =? NULL) then
         sleep_delete (timed_sleep_node p);;
         set a (with_sleep_owner NULL)
       else mret tt
     else
       set a (raise PROC_FLAG_SLEEP_INT);;
       queue_delete (sleep_owner p) a
   else mret tt);;
  p ← proc a;
  if sched_queued p then mret tt
  else
    modify (λ k, with_process_queue (process_queue k ++ [a]) k);;
    set a (with_sched_queued true).

Definition next_ready_process : St kernel Z :=
  c ← this_core;
  q ← gets process_queue;
  match q with
  | [] => mret (kernel_idle_task c)
  | a :: rest =>
      modify (with_process_queue rest);;
      set a (with_sched_queued false);;
      p ← proc a;
      if has p PROC_FLAG_RUNNING && negb (owner p =? cpu) then
        modify (λ k, with_process_queue (process_queue k ++ [a]) k);;
        set a (with_sched_queued true);;
        mret (kernel_idle_task c)
      else
        (if negb (has p PROC_FLAG_FINISHED) then set a (raise PROC_FLAG_RUNNING) else mret tt);;
        set a (with_owner cpu);;
        mret a
  end.

(** [do next_ready_process while it is finished]. *)
Fixpoint next_unfinished (fuel : nat) : St kernel Z :=
  match fuel with
  | O => λ _, Timeout
  | S f =>
      a ← next_ready_process;
      p ← proc a;
      if has p PROC_FLAG_FINISHED then next_unfinished f else mret a
  end.

(** [arch_restore_context]: the process that ran is running no more. *)
Definition arch_restore_context : St kernel unit :=
  c ← this_core;
  if previous_process c =? current_process c then mret tt
  else set (previous_process c) (lower PROC_FLAG_RUNNING).

Definition switch_next (fuel : nat) : St kernel unit :=
  c ← this_core;
  modify (λ k, with_cores (<[cpu := Core (current_process c) (current_process c) (kernel_idle_task c)]> (cores k)) k);;
  a ← next_unfinished fuel;
  modify (λ k, with_cores (<[cpu := Core a (current_process c) (kernel_idle_task c)]> (cores k)) k);;
  set a (raise PROC_FLAG_STARTED);;
  arch_restore_context.

Definition switch_task (fuel : nat) (reschedule : bool) : St kernel unit :=
  c ← this_core;
  if current_process c =? NULL then mret tt
  else if current_process c =? kernel_idle_task c then fault
  else
    p ← proc (current_process c);
    if negb (has p PROC_FLAG_RUNNING) then switch_next fuel
    else
      (if reschedule then make_process_ready (current_process c) else mret tt);;
      switch_next fuel.

Definition process_is_ready (p : process) : bool := sched_queued p && negb (has p PROC_FLAG_RUNNING).

(** ** Wait queues *)

Fixpoint wakeup_loop (fuel : nat) (interrupted : bool) (q : Z) (awoken : Z) : St kernel Z :=
  match fuel with
  | O => λ _, Timeout
  | S f =>
      a ← queue_pop q;
      match a with
      | None => mret awoken
      | Some a =>
          p ← proc a;
          (if negb (has p PROC_FLAG_FINISHED) then
             (if interrupted then set a (raise PROC_FLAG_SLEEP_INT) else mret tt);;
             make_process_ready a
           else mret tt);;
          wakeup_loop f interrupted q (i32 (awoken + 1))
      end
  end.

Definition wakeup_queue (fuel : nat) (q : Z) : St kernel Z := wakeup_loop fuel false q 0.
Definition wakeup_queue_interrupted (fuel : nat) (q : Z) : St kernel Z := wakeup_loop fuel true q 0.

Definition wakeup_queue_one (q : Z) : St kernel Z :=
  a ← queue_pop q;
  match a with
  | None => mret 0
  | Some a =>
      p ← proc a;
      (if negb (has p PROC_FLAG_FINISHED) then make_process_ready a else mret tt);;
      mret 1
  end.

(** [sleep_on] up to its switch, and its result when the process runs again: [None] when
    it slept in the queue it was in already. *)
Definition sleep_on (fuel : nat) (q : Z) : St kernel bool :=
  a ← current;
  p ← proc a;
  if negb (sleep_owner p =? NULL) then switch_task fuel false;; mret false
  else
    set a (lower PROC_FLAG_SLEEP_INT);;
    queue_append q a;;
    switch_task fuel false;;
    mret true.
Definition sleep_on_resume (queued : bool) : St kernel Z :=
  if queued then a ← current; p ← proc a; mret (truth (has p PROC_FLAG_SLEEP_INT)) else mret 0.

Definition sleep_on_unlocking (fuel : nat) (q : Z) : St kernel unit :=
  a ← current;
  set a (lower PROC_FLAG_SLEEP_INT);;
  queue_append q a;;
  switch_task fuel false.

(** ** Timed sleeps *)

(** [candidate->end_tick > seconds || ...]: later than the given time. *)
Definition later (x : sleeper_t) (seconds subseconds : Z) : bool :=
  (seconds <? end_tick x) || ((end_tick x =? seconds) && (subseconds <? end_subtick x)).

(** The loop that looks for the first later sleeper, and [list_insert_after]. *)
Fixpoint sleep_insert (l : list Z) (s seconds subseconds : Z) : St kernel (list Z) :=
  match l with
  | [] => mret [s]
  | c :: l =>
      x ← sleeper c;
      if later x seconds subseconds then mret (s :: c :: l)
      else r ← sleep_insert l s seconds subseconds; mret (c :: r)
  end.

Definition new_sleeper (x : sleeper_t) : St kernel Z := λ k,
  let s := malloc (dom (sleepers k)) in
  Done (s, with_sleep (sleep_queue k) (<[s := x]> (sleepers k)) k).

Definition sleep_until (a seconds subseconds : Z) : St kernel unit :=
  c ← current;
  pc ← proc c;
  if negb (sleep_owner pc =? NULL) then mret tt
  else
    set a (with_sleep_owner SLEEP_QUEUE);;
    s ← new_sleeper (Sleeper seconds subseconds a 0);
    l ← gets sleep_queue;
    l ← sleep_insert l s seconds subseconds;
    modify (λ k, with_sleep l (sleepers k) k);;
    set a (with_timed_sleep_node s).

Definition is_valid_process (a : Z) : St kernel bool := gets (λ k, bool_decide (a ∈ process_list k)).

(** ** Waiting for several nodes *)

Definition SUBSECONDS_PER_SECOND : Z := 1000000.

(** [relative_time] ([src/kernel/arch/x86_64/cmos.c]) when the clock shows [timer_ticks],
    [timer_subticks]. *)
Definition relative_time (timer_ticks timer_subticks seconds subseconds : Z) : Z * Z :=
  let t := u64 (subseconds + timer_subticks) in
  if SUBSECONDS_PER_SECOND <=? t
  then (u64 (timer_ticks + seconds + t / SUBSECONDS_PER_SECOND), t mod SUBSECONDS_PER_SECOND)
  else (u64 (timer_ticks + seconds), u64 (timer_subticks + subseconds)).

(** [list_insert(process->node_waits, v)] *)
Definition node_wait (a v : Z) : St kernel unit :=
  p ← proc a;
  match node_waits p with
  | Some ws => set a (with_node_waits (Some (ws ++ [v])))
  | None => fault
  end.

Definition process_timeout_sleep (a timeout : Z) (now : Z * Z) : St kernel unit :=
  let '(s, ss) := relative_time now.1 now.2 0 (u64 (i32 (timeout * 1000))) in
  t ← new_sleeper (Sleeper s ss a 1);
  node_wait a t;;
  l ← gets sleep_queue;
  l ← sleep_insert l t s ss;
  modify (λ k, with_sleep l (sleepers k) k);;
  set a (with_timeout_node t).

(** [selectcheck_fs] and [selectwait_fs] call the node's own functions. *)
Context (selectcheck : Z → St kernel Z) (selectwait : Z → Z → St kernel Z).

(** The first loop: what it returns, or the index behind the last node. *)
Fixpoint check_nodes (nodes : list Z) (index : Z) : St kernel (Z + Z) :=
  match nodes with
  | [] => mret (inr index)
  | n :: nodes =>
      result ← selectcheck n;
      if result <? 0 then mret (inl (- EBADF))
      else if result =? 0 then mret (inl index)
      else check_nodes nodes (i32 (index + 1))
  end.

Fixpoint wait_nodes (nodes : list Z) (a : Z) : St kernel unit :=
  match nodes with
  | [] => mret tt
  | n :: nodes => selectwait n a;; wait_nodes nodes a
  end.

(** Up to its switch: [Some] of what it returns at once. *)
Definition process_wait_nodes (fuel : nat) (a : Z) (nodes : list Z) (timeout : Z) (now : Z * Z) : St kernel (option Z) :=
  c ← check_nodes nodes 0;
  match c with
  | inl result => mret (Some result)
  | inr index =>
      if timeout =? 0 then mret (Some index)
      else
        set a (with_node_waits (Some []));;
        wait_nodes nodes a;;
        (if 0 <? timeout then process_timeout_sleep a timeout now else set a (with_timeout_node NULL));;
        set a (with_awoken_index (-1));;
        switch_task fuel false;;
        mret None
  end.
Definition process_wait_nodes_resume (a : Z) : St kernel Z := p ← proc a; mret (awoken_index p).

Definition process_awaken_from_fswait (a index : Z) : St kernel unit :=
  set a (with_awoken_index index);;
  set a (with_node_waits None);;
  p ← proc a;
  sq ← gets sleep_queue;
  (if negb (timeout_node p =? NULL) && bool_decide (timeout_node p ∈ sq) then
     x ← sleeper (timeout_node p);
     if negb (is_fswait x =? -1) then sleep_delete (timeout_node p) else mret tt
   else mret tt);;
  set a (with_timeout_node NULL);;
  make_process_ready a.

Definition process_awaken_signal (a : Z) : St kernel unit :=
  p ← proc a;
  match node_waits p with
  | Some _ => process_awaken_from_fswait a (- EINTR)
  | None => mret tt
  end.

(** The position of a value. *)
Fixpoint index_of (v : Z) (l : list Z) (index : Z) : option Z :=
  match l with
  | [] => None
  | x :: l => if x =? v then Some index else index_of v l (index + 1)
  end.

Definition process_alert_node_locked (a v : Z) : St kernel Z :=
  valid ← is_valid_process a;
  if negb valid then mret 0
  else
    p ← proc a;
    match node_waits p with
    | None => mret 0
    | Some ws =>
        match index_of v ws 0 with
        | Some index => process_awaken_from_fswait a index;; mret 0
        | None => mret (-1)
        end
    end.
Definition process_alert_node (a v : Z) : St kernel Z := process_alert_node_locked a v.

(** The sleeper at the head of the queue gives up its place. *)
Definition wake_sleeper (s : Z) (x : sleeper_t) : St kernel unit :=
  if negb (is_fswait x =? 0) then
    modify (λ k, with_sleep (sleep_queue k) (<[s := Sleeper (end_tick x) (end_subtick x) (sl_process x) (-1)]> (sleepers k)) k);;
    process_alert_node_locked (sl_process x) s;; mret tt
  else
    set (sl_process x) (with_sleep_owner NULL);;
    set (sl_process x) (with_timed_sleep_node NULL);;
    p ← proc (sl_process x);
    if negb (process_is_ready p) then make_process_ready (sl_process x) else mret tt.

(** [free(proc); free(list_dequeue(sleep_queue));] *)
Definition sleep_dequeue (s : Z) : St kernel unit := modify (λ k,
  with_sleep (tail (sleep_queue k)) (delete s (sleepers k)) k).

Fixpoint wakeup_sleepers (fuel : nat) (seconds subseconds : Z) : St kernel unit :=
  match fuel with
  | O => λ _, Timeout
  | S f =>
      sq ← gets sleep_queue;
      match sq with
      | [] => mret tt
      | s :: _ =>
          x ← sleeper s;
          if negb (later x seconds subseconds) then
            wake_sleeper s x;;
            sleep_dequeue s;;
            wakeup_sleepers f seconds subseconds
          else mret tt
      end
  end.

(** ** The process tree *)

Definition process_compare (k : kernel) (a pid : Z) : bool :=
  match procs k !! a with Some p => id p =? pid | None => false end.

Definition process_from_pid (fuel : nat) (pid : Z) : St kernel Z := λ k,
  if pid <? 0 then Done (NULL, k)
  else
    (entry ← in_tree (tree_find fuel pid (process_compare k));
     if negb (entry =? NULL) then n ← in_tree (KTree.rd entry); mret (value n) else mret NULL) k.

Definition process_get_parent (a : Z) : St kernel Z :=
  p ← proc a;
  n ← in_tree (KTree.rd (tree_entry p));
  if negb (parent n =? NULL) then m ← in_tree (KTree.rd (parent n)); mret (value m) else mret NULL.

Definition get_next_pid : St kernel Z := λ k, Done (next_pid k, with_next_pid (i32 (next_pid k + 1)) k).

Definition list_create : St kernel Z := λ k,
  let q := malloc (dom (queues k) ∪ {[SLEEP_QUEUE]}) in Done (q, with_queues (<[q := []]> (queues k)) k).

(** A process as [calloc] gives it, with the fields its creator copies. *)
Definition new_process (pid group job session user flags wait_queue : Z) : process :=
  Proc pid group job session 0 flags 0 user NULL wait_queue None false NULL NULL NULL 0
    (replicate 39 (SigConfig 0 0 0)) 0 0 0 0 0 0 None.

Definition alloc_process (p : process) : St kernel Z := λ k,
  let a := malloc (dom (procs k)) in Done (a, with_procs (<[a := p]> (procs k)) k).

(** The end of [spawn_process] and of [spawn_worker_thread]: into the tree and the list. *)
Definition enter_tree (a par : Z) : St kernel unit :=
  pp ← proc par;
  entry ← in_tree (tree_node_create a);
  set a (with_tree_entry entry);;
  in_tree (tree_node_insert_child_node (tree_entry pp) entry);;
  modify (λ k, with_process_list (process_list k ++ [a]) k).

(** [spawn_kidle] and [spawn_init]: the idle process of a core is in no list, init is the
    root of the tree. *)
Definition spawn_kidle : St kernel Z :=
  q ← list_create;
  alloc_process (new_process (-1) 0 0 0 USER_ROOT_UID (Z.lor (Z.lor PROC_FLAG_IS_TASKLET PROC_FLAG_STARTED) PROC_FLAG_RUNNING) q).

Definition spawn_init : St kernel Z :=
  q ← list_create;
  a ← alloc_process (new_process 1 0 1 1 USER_ROOT_UID (Z.lor PROC_FLAG_STARTED PROC_FLAG_RUNNING) q);
  in_tree (tree_set_root a);;
  entry ← in_tree (gets root);
  set a (with_tree_entry entry);;
  modify (λ k, with_process_list (process_list k ++ [a]) k);;
  mret a.

(** [tasking_start] on the first core, and what the start of another core does up to its
    [switch_next] ([src/kernel/arch/x86_64/smp.c]). *)
Definition tasking_start : St kernel unit :=
  c ← this_core;
  a ← spawn_init;
  idle ← spawn_kidle;
  modify (λ k, with_cores (<[cpu := Core a (previous_process c) idle]> (cores k)) k).

Definition ap_main : St kernel unit :=
  c ← this_core;
  idle ← spawn_kidle;
  modify (λ k, with_cores (<[cpu := Core idle (previous_process c) idle]> (cores k)) k).

Definition spawn_process (par : Z) : St kernel Z :=
  pid ← get_next_pid;
  pp ← proc par;
  q ← list_create;
  a ← alloc_process (new_process pid pid (job pp) (session pp) (user pp) 0 q);
  enter_tree a par;;
  mret a.

Definition fork : St kernel Z :=
  par ← current;
  a ← spawn_process par;
  pp ← proc par;
  set a (with_signals (signals pp));;
  set a (with_blocked_signals (blocked_signals pp));;
  (if has pp PROC_FLAG_IS_TASKLET then set a (raise PROC_FLAG_IS_TASKLET) else mret tt);;
  make_process_ready a;;
  p ← proc a;
  mret (id p).

(** A thread: a process of the caller's group. *)
Definition clone : St kernel Z :=
  par ← current;
  a ← spawn_process par;
  pp ← proc par;
  set a (with_signals (signals pp));;
  set a (with_blocked_signals (blocked_signals pp));;
  set a (with_group (if negb (group pp =? 0) then group pp else id pp));;
  (if has pp PROC_FLAG_IS_TASKLET then set a (raise PROC_FLAG_IS_TASKLET) else mret tt);;
  make_process_ready a;;
  p ← proc a;
  mret (id p).

Definition spawn_worker_thread : St kernel Z :=
  pid ← get_next_pid;
  par ← current;
  q ← list_create;
  a ← alloc_process (new_process pid pid pid pid 0 (Z.lor PROC_FLAG_IS_TASKLET PROC_FLAG_STARTED) q);
  enter_tree a par;;
  make_process_ready a;;
  mret a.

(** ** Removing a process *)

Definition process_reap (a : Z) : St kernel unit :=
  proc a;;
  modify (λ k, with_procs (delete a (procs k)) k).

Definition process_is_owned (a : Z) (k : kernel) : bool :=
  bool_decide (map_Exists (λ _ c, previous_process c = a ∨ current_process c = a) (cores k)).

(** The processes at the head of [reap_queue] that no core uses any more. *)
Fixpoint reap_unowned (l : list Z) : St kernel unit :=
  match l with
  | [] => mret tt
  | a :: l =>
      owned ← gets (process_is_owned a);
      if negb owned then
        modify (λ k, with_reap_queue (tail (reap_queue k)) k);;
        process_reap a;;
        reap_unowned l
      else mret tt
  end.

Definition process_reap_later (a : Z) : St kernel unit :=
  l ← gets reap_queue;
  reap_unowned l;;
  modify (λ k, with_reap_queue (reap_queue k ++ [a]) k).

Definition used_elsewhere (a : Z) (k : kernel) : bool :=
  bool_decide (map_Exists (λ i c, i ≠ cpu ∧ (previous_process c = a ∨ current_process c = a)) (cores k)).

Definition process_delete (fuel : nat) (a : Z) : St kernel unit :=
  c ← current;
  if a =? c then fault
  else
    p ← proc a;
    let entry := tree_entry p in
    if entry =? NULL then mret tt
    else
      r ← in_tree (gets root);
      if r =? entry then mret tt
      else
        n ← in_tree (KTree.rd entry);
        let has_children := i32 (Z.of_nat (length (children n))) in
        in_tree (tree_remove_reparent_root entry);;
        l ← gets process_list;
        (if bool_decide (a ∈ l) then modify (with_process_list (remove_first a l)) else fault);;
        (if negb (has_children =? 0) then
           m ← in_tree (KTree.rd r);
           init ← proc (value m);
           wakeup_queue fuel (wait_queue init);; mret tt
         else mret tt);;
        set a (with_tree_entry NULL);;
        used ← gets (used_elsewhere a);
        if used : bool then process_reap_later a else process_reap a.

(** ** Waiting for children *)

Definition wait_candidate (par : process) (pid options : Z) (p : process) : bool :=
  if negb (Z.land options WNOKERN =? 0) && has p PROC_FLAG_IS_TASKLET then false
  else if pid <? -1 then (job p =? i32 (- pid)) || (id p =? i32 (- pid))
  else if pid =? 0 then job p =? id par
  else if 0 <? pid then id p =? pid
  else true.

(** A child that [waitpid] reports: finished, or stopped when the options ask for it. *)
Definition reportable (options : Z) (p : process) : bool :=
  has p PROC_FLAG_FINISHED ||
  (has p PROC_FLAG_SUSPENDED && (Z.land (status p) 0xFF =? 0x7F) &&
   (negb (Z.land options WSTOPPED =? 0) ||
    ((Z.land (Z.shiftr (status p) 16) 0xFF =? 0xFF) && negb (Z.land options WUNTRACED =? 0)))).

(** The loop over the children: whether one matches, and the first to report. *)
Fixpoint scan_children (par : process) (pid options : Z) (cs : list Z) (matched : bool) : St kernel (bool * option Z) :=
  match cs with
  | [] => mret (matched, None)
  | c :: cs =>
      n ← in_tree (KTree.rd c);
      if value n =? NULL then scan_children par pid options cs matched
      else
        p ← proc (value n);
        if wait_candidate par pid options p then
          if reportable options p then mret (true, Some (value n)) else scan_children par pid options cs true
        else scan_children par pid options cs matched
  end.

Fixpoint scan_tracees (par : process) (pid options : Z) (l : list Z) (matched : bool) : St kernel (bool * option Z) :=
  match l with
  | [] => mret (matched, None)
  | a :: l =>
      p ← proc a;
      if wait_candidate par pid options p then
        if has p (Z.lor PROC_FLAG_SUSPENDED PROC_FLAG_FINISHED) then mret (true, Some a)
        else scan_tracees par pid options l true
      else scan_tracees par pid options l matched
  end.

(** [while (candidate->flags & PROC_FLAG_RUNNING);]: until another core has switched. *)
Definition spin : St kernel unit := λ _, Timeout.

Inductive wait_result : Type :=
  | Returned (r : Z) (status : option Z)
  | Sleeping.

(** One round of the loop of [waitpid], up to its sleep. *)
Definition waitpid_round (fuel : nat) (pid options : Z) : St kernel wait_result :=
  a ← current;
  par ← proc a;
  n ← in_tree (KTree.rd (tree_entry par));
  '(is_parent, candidate) ← scan_children par pid options (children n) false;
  '(has_children, candidate) ← (match candidate, tracees par with
    | None, Some l => scan_tracees par pid options l is_parent
    | _, _ => mret (is_parent, candidate)
    end);
  if negb has_children then mret (Returned (- ECHILD) None)
  else
    match candidate with
    | Some b =>
        p ← proc b;
        set b (with_status (Z.ldiff (status p) 0xFF));;
        (if is_parent && has p PROC_FLAG_FINISHED then
           if has p PROC_FLAG_RUNNING then spin else process_delete fuel b
         else mret tt);;
        mret (Returned (id p) (Some (status p)))
    | None =>
        if negb (Z.land options WNOHANG =? 0) then mret (Returned 0 None)
        else sleep_on_unlocking fuel (wait_queue par);; mret Sleeping
    end.

(** What follows the sleep: out with -EINTR, or another round. *)
Definition waitpid_resume (fuel : nat) (pid options : Z) : St kernel wait_result :=
  a ← current;
  p ← proc a;
  if has p PROC_FLAG_SLEEP_INT then mret (Returned (- EINTR) None) else waitpid_round fuel pid options.
End Ops.
