(* ===== verification/ProcessQueues.v ===== *)
(** * The queues of the scheduler

    [wf e k]: the queues of Process and the processes agree, but for the sleeper [e]
    ([NULL] for none), which an operation under way may leave behind.  Every operation
    keeps it; the theorems say what waking, sleeping and scheduling do. *)
From S2P Require Import Prelude KTree Process.
Local Open Scope Z_scope.

(** [s] is due no later than [t]. *)
Definition no_later (m : gmap Z sleeper_t) (s t : Z) : Prop :=
  ∀ x y, m !! s = Some x → m !! t = Some y → later x (end_tick y) (end_subtick y) = false.

(** The valid processes and those to reap exist, each in one of the lists and once. *)
Definition list_ok (ps : gmap Z process) (pl rl : list Z) : Prop := NoDup (pl ++ rl) ∧ ∀ a, a ∈ pl ++ rl → is_Some (ps !! a).

(** The ready queue has the processes whose [sched_node] is in it, each once. *)
Definition ready_ok (ps : gmap Z process) (rq : list Z) : Prop :=
  NoDup rq ∧ ∀ a, a ∈ rq ↔ ∃ p, ps !! a = Some p ∧ sched_queued p = true.

(** A wait queue has the processes whose [sleep_node] it owns, each once. *)
Definition wait_ok (ps : gmap Z process) (qs : gmap Z (list Z)) : Prop := ∀ q l, qs !! q = Some l →
  q ≠ NULL ∧ q ≠ SLEEP_QUEUE ∧ NoDup l ∧ ∀ a, a ∈ l ↔ ∃ p, ps !! a = Some p ∧ sleep_owner p = q.
Definition owner_ok (ps : gmap Z process) (qs : gmap Z (list Z)) : Prop := ∀ a p, ps !! a = Some p →
  sleep_owner p ≠ NULL → sleep_owner p ≠ SLEEP_QUEUE → is_Some (qs !! sleep_owner p).

(** The sleep queue is sorted; a sleeper in it that is not for waiting on nodes has its
    process, but for [e]. *)
Definition sleep_ok (e : Z) (ps : gmap Z process) (sq : list Z) (m : gmap Z sleeper_t) : Prop :=
  NoDup sq ∧ StronglySorted (no_later m) sq ∧
  ∀ s, s ∈ sq → s ≠ NULL ∧ ∃ x, m !! s = Some x ∧ (s ≠ e → is_fswait x ≠ -1 ∧
    (is_fswait x = 0 → ∃ p, ps !! sl_process x = Some p ∧ sleep_owner p = SLEEP_QUEUE ∧ timed_sleep_node p = s)).
Definition timed_ok (ps : gmap Z process) (sq : list Z) (m : gmap Z sleeper_t) : Prop := ∀ a p, ps !! a = Some p →
  sleep_owner p = SLEEP_QUEUE →
  timed_sleep_node p ∈ sq ∧ ∃ x, m !! timed_sleep_node p = Some x ∧ sl_process x = a ∧ is_fswait x = 0.

(** The timeout of a wait on nodes. *)
Definition fswait_ok (ps : gmap Z process) (pl : list Z) (sq : list Z) (m : gmap Z sleeper_t) : Prop := ∀ a p ws,
  ps !! a = Some p → node_waits p = Some ws → timeout_node p ≠ NULL →
  timeout_node p ∈ sq ∧ timeout_node p ∈ ws ∧ a ∈ pl ∧
  ∃ x, m !! timeout_node p = Some x ∧ sl_process x = a ∧ is_fswait x ≠ 0.

Record wf_except (e : Z) (k : kernel) : Prop := {
  ws_list : list_ok (procs k) (process_list k) (reap_queue k);
  ws_ready : ready_ok (procs k) (process_queue k);
  ws_wait : wait_ok (procs k) (queues k);
  ws_owner : owner_ok (procs k) (queues k);
  ws_sleep : sleep_ok e (procs k) (sleep_queue k) (sleepers k);
  ws_timed : timed_ok (procs k) (sleep_queue k) (sleepers k);
  ws_fswait : fswait_ok (procs k) (process_list k) (sleep_queue k) (sleepers k)
}.
Notation wf := (wf_except NULL).

(** What an operation on queues leaves alone. *)
Record same_rest (k k' : kernel) : Prop := {
  sr_list : process_list k' = process_list k;
  sr_tree : process_tree k' = process_tree k;
  sr_reap : reap_queue k' = reap_queue k;
  sr_cores : cores k' = cores k;
  sr_pid : next_pid k' = next_pid k
}.

#[export] Instance same_rest_preorder : PreOrder same_rest.
Proof. split; [by intros k; split|]. intros k1 k2 k3 [] []. split; congruence. Qed.

(** ** Steps *)

Lemma proc_run k a p : procs k !! a = Some p → proc a k = Done (p, k).
Proof. unfold proc. by intros ->. Qed.
Lemma set_run k a p f : procs k !! a = Some p → set a f k = Done (tt, with_procs (<[a := f p]> (procs k)) k).
Proof. unfold set. by intros ->. Qed.
Lemma queue_run k q l : queues k !! q = Some l → queue q k = Done (l, k).
Proof. unfold queue. by intros ->. Qed.
Lemma sleeper_run k s x : sleepers k !! s = Some x → sleeper s k = Done (x, k).
Proof. unfold sleeper. by intros ->. Qed.

Ltac pstep H := rewrite (St_bind_done _ _ _ _ _ H).
Ltac pset := erewrite St_bind_done by (apply set_run; cbn [procs with_procs with_queues with_sleep with_process_queue with_cores]; first [eassumption|apply lookup_insert_eq]).

Lemma remove_first_length a l : a ∈ l → length l = S (length (remove_first a l)).
Proof.
  induction l as [|b l IH]; [by intros ?%elem_of_nil|]. cbn [remove_first]. destruct (Z.eqb_spec b a) as [|Hne]; [done|].
  intros [?|Ha]%elem_of_cons; [congruence|]. cbn [length]. by rewrite IH.
Qed.

Lemma remove_first_sorted R a l : StronglySorted R l → StronglySorted R (remove_first a l).
Proof.
  induction 1 as [|b l S IH F]; [constructor|]. cbn [remove_first]. destruct (b =? a); [done|]. constructor; [done|].
  rewrite Forall_forall in F |- *. intros x Hx. apply F. clear -Hx. induction l as [|c l IH]; [done|]. cbn [remove_first] in Hx.
  destruct (c =? a); [by right|]. apply elem_of_cons in Hx as [->|Hx]; [by left|right; by apply IH].
Qed.

Lemma remove_first_middle a l1 l2 : a ∉ l1 → remove_first a (l1 ++ a :: l2) = l1 ++ l2.
Proof.
  induction l1 as [|b l IH]; intros H; cbn [app remove_first]; [by rewrite Z.eqb_refl|].
  destruct (Z.eqb_spec b a) as [->|]; [by destruct H; left|]. f_equal. apply IH. intros ?. apply H. by right.
Qed.

Lemma no_later_delete m s l : s ∉ l → StronglySorted (no_later m) l → StronglySorted (no_later (delete s m)) l.
Proof.
  intros Hs. induction 1 as [|b l S IH F]; [constructor|]. constructor; [apply IH; intros ?; apply Hs; by right|].
  rewrite Forall_forall in F |- *. intros t Ht x y Hx Hy. apply lookup_delete_Some in Hx as [_ Hx], Hy as [_ Hy].
  by apply (F t Ht).
Qed.

Lemma queue_delete_run k q l a p : queues k !! q = Some l → a ∈ l → procs k !! a = Some p →
  queue_delete q a k =
  Done (tt, with_procs (<[a := with_sleep_owner NULL p]> (procs k)) (with_queues (<[q := remove_first a l]> (queues k)) k)).
Proof.
  intros Hq Hin Ha. unfold queue_delete. pstep (queue_run _ _ _ Hq). rewrite bool_decide_eq_true_2 by done. cbn.
  by apply (set_run (with_queues _ k)).
Qed.

(** ** Changes that keep the invariant *)

(** A lookup in the processes with one changed. *)
Lemma insert_cases (m : gmap Z process) a p b q : <[a := p]> m !! b = Some q → (b = a ∧ q = p) ∨ (b ≠ a ∧ m !! b = Some q).
Proof. intros [[<- <-]|[? ?]]%lookup_insert_Some; [by left|by right]. Qed.

Lemma exists_insert (ps : gmap Z process) a p p' (P : process → Prop) b : ps !! a = Some p → (P p' ↔ P p) →
  (∃ q, <[a := p']> ps !! b = Some q ∧ P q) ↔ ∃ q, ps !! b = Some q ∧ P q.
Proof.
  intros Ha E. destruct (decide (b = a)) as [->|Hne].
  - rewrite lookup_insert_eq, Ha. split; intros (q & [= <-] & HP); eexists; (split; [done|tauto]).
  - by rewrite lookup_insert_ne.
Qed.

(** Changes of a process that a part of the invariant does not see. *)
Section same.
Context (ps : gmap Z process) (a : Z) (p p' : process) (Ha : ps !! a = Some p).

Lemma list_same pl rl : list_ok ps pl rl → list_ok (<[a := p']> ps) pl rl.
Proof using. intros [N L]. split; [done|]. intros b Hb. rewrite lookup_insert_is_Some'. right. by apply L. Qed.

Lemma ready_same rq : sched_queued p' = sched_queued p → ready_ok ps rq → ready_ok (<[a := p']> ps) rq.
Proof using Ha. intros E [? R]. split; [done|]. intros b. rewrite R. symmetry. eapply exists_insert; [done|]. by rewrite E. Qed.

Lemma wait_same qs : sleep_owner p' = sleep_owner p ∨ sleep_owner p = SLEEP_QUEUE ∧ sleep_owner p' = NULL ∨
    sleep_owner p = NULL ∧ sleep_owner p' = SLEEP_QUEUE →
  wait_ok ps qs → wait_ok (<[a := p']> ps) qs.
Proof using Ha.
  intros E Q q l Hq. destruct (Q q l Hq) as (? & ? & ? & Hl). split_and!; try done. intros b. rewrite Hl. symmetry.
  eapply exists_insert; [done|]. destruct E as [->|[[-> ->]|[-> ->]]]; [done|split; congruence..].
Qed.

Lemma owner_same qs : sleep_owner p' = sleep_owner p ∨ sleep_owner p' = NULL ∨ sleep_owner p' = SLEEP_QUEUE →
  owner_ok ps qs → owner_ok (<[a := p']> ps) qs.
Proof using Ha.
  intros E O b q [[-> ->]|[_ Hb]]%insert_cases; [|by apply (O b)]. destruct E as [->|[->| ->]]; [|done..]. by apply (O a).
Qed.

Lemma sleep_same e sq m : sleep_owner p ≠ SLEEP_QUEUE ∨ sleep_owner p' = sleep_owner p ∧ timed_sleep_node p' = timed_sleep_node p →
  sleep_ok e ps sq m → sleep_ok e (<[a := p']> ps) sq m.
Proof using Ha.
  intros E (? & ? & S). split_and!; [done|done|]. intros s Hs. destruct (S s Hs) as (? & x & ? & Hn). split; [done|].
  exists x. split; [done|]. intros Hse. destruct (Hn Hse) as [? Hp]. split; [done|]. intros Hf.
  destruct (Hp Hf) as (y & Hy & Hy1 & Hy2). destruct (decide (sl_process x = a)) as [Hx|Hx].
  - rewrite Hx in Hy |- *. rewrite lookup_insert_eq. exists p'. assert (y = p) as -> by congruence. destruct E as [?|[-> ->]]; done.
  - exists y. by rewrite lookup_insert_ne.
Qed.

Lemma timed_same sq m : sleep_owner p' ≠ SLEEP_QUEUE ∨ sleep_owner p' = sleep_owner p ∧ timed_sleep_node p' = timed_sleep_node p →
  timed_ok ps sq m → timed_ok (<[a := p']> ps) sq m.
Proof using Ha.
  intros E T b q [[-> ->]|[_ Hb]]%insert_cases; [|by apply T]. destruct E as [?|[-> ->]]; [done|]. by apply T.
Qed.

Lemma fswait_same pl sq m : node_waits p' = None ∨ timeout_node p' = NULL ∨
    node_waits p' = node_waits p ∧ timeout_node p' = timeout_node p →
  fswait_ok ps pl sq m → fswait_ok (<[a := p']> ps) pl sq m.
Proof using Ha.
  intros E F b q ws [[-> ->]|[_ Hb]]%insert_cases; [|by apply F]. destruct E as [->|[->|[-> ->]]]; [done..|]. by apply (F a p).
Qed.
End same.
#[local] Hint Resolve list_same ready_same wait_same owner_same sleep_same timed_same fswait_same : core.

(** A sleeper that leaves the sleep queue. *)
Section remove.
Context (ps : gmap Z process) (sq : list Z) (m : gmap Z sleeper_t) (s : Z).

Lemma sleep_remove e e' : e' = e ∨ e = s → sleep_ok e ps sq m → sleep_ok e' ps (remove_first s sq) (delete s m).
Proof using.
  intros He (N & S & H). split_and!; [by apply remove_first_nodup| |].
  - apply no_later_delete; [by rewrite remove_first_elem; [intros [_ ?]|]|by apply remove_first_sorted].
  - intros t [Ht Hne]%remove_first_elem; [|done]. destruct (H t Ht) as (? & x & ? & Hx). split; [done|]. exists x.
    rewrite lookup_delete_ne by done. split; [done|]. intros ?. apply Hx. destruct He; congruence.
Qed.

Lemma timed_remove : NoDup sq → (∀ a p, ps !! a = Some p → sleep_owner p = SLEEP_QUEUE → timed_sleep_node p ≠ s) →
  timed_ok ps sq m → timed_ok ps (remove_first s sq) (delete s m).
Proof using.
  intros N Hs T a p Ha Ho. destruct (T a p Ha Ho) as (? & ?). specialize (Hs a p Ha Ho).
  rewrite remove_first_elem, lookup_delete_ne by done. done.
Qed.

Lemma fswait_remove pl : NoDup sq → (∀ a p ws, ps !! a = Some p → node_waits p = Some ws → timeout_node p ≠ s) →
  fswait_ok ps pl sq m → fswait_ok ps pl (remove_first s sq) (delete s m).
Proof using.
  intros N Hs F a p ws Ha Hw Ht. destruct (F a p ws Ha Hw Ht) as (? & ? & ? & ?). specialize (Hs a p ws Ha Hw).
  rewrite remove_first_elem, lookup_delete_ne by done. done.
Qed.
End remove.

(** A sleeper that joins it: fresh, and in its place. *)
Section add.
Context (ps : gmap Z process) (sq sq' : list Z) (m : gmap Z sleeper_t) (s : Z) (x : sleeper_t).
Context (Hp : Permutation sq' (s :: sq)) (Hs : StronglySorted (no_later (<[s := x]> m)) sq') (Hm : m !! s = None).

Lemma sleep_add e p : sleep_ok e ps sq m → s ≠ NULL → is_fswait x ≠ -1 →
  (is_fswait x = 0 → ps !! sl_process x = Some p ∧ sleep_owner p = SLEEP_QUEUE ∧ timed_sleep_node p = s) →
  sleep_ok e ps sq' (<[s := x]> m).
Proof using Hp Hs Hm.
  intros (N & _ & H) Hn Hf Hx. assert (Hsq : s ∉ sq).
  { intros Hin. destruct (H s Hin) as (_ & y & Hy & _). congruence. }
  split_and!; [rewrite Hp; by constructor|done|]. intros t Ht. rewrite Hp in Ht. apply elem_of_cons in Ht as [->|Ht].
  - split; [done|]. exists x. rewrite lookup_insert_eq. split; [done|]. intros _. split; [done|]. intros H0. by exists p; apply Hx.
  - destruct (H t Ht) as (? & y & ? & ?). split; [done|]. exists y. rewrite lookup_insert_ne by congruence. done.
Qed.

Lemma timed_add : timed_ok ps sq m → timed_ok ps sq' (<[s := x]> m).
Proof using Hp Hm.
  intros T a p Ha Ho. destruct (T a p Ha Ho) as (? & y & ? & ?). rewrite Hp. split; [by right|]. exists y.
  rewrite lookup_insert_ne by congruence. done.
Qed.

Lemma fswait_add pl : fswait_ok ps pl sq m → fswait_ok ps pl sq' (<[s := x]> m).
Proof using Hp Hm.
  intros F a p ws Ha Hw Ht. destruct (F a p ws Ha Hw Ht) as (? & ? & ? & y & ? & ?). rewrite Hp. split_and!; [by right|done|done|].
  exists y. rewrite lookup_insert_ne by congruence. done.
Qed.
End add.

Lemma queued_not_elem ps rq a p : ready_ok ps rq → ps !! a = Some p → sched_queued p = false → a ∉ rq.
Proof. intros [_ R] Ha E. rewrite R. intros (x & Hx & ?). simplify_eq. congruence. Qed.

Section changes.
Context (e : Z) (k : kernel) (W : wf_except e k).
Context (a : Z) (p : process) (Ha : procs k !! a = Some p).

(** Two records of a process with the same nodes. *)
Definition same_nodes (p p' : process) : Prop :=
  sched_queued p' = sched_queued p ∧ sleep_owner p' = sleep_owner p ∧ timed_sleep_node p' = timed_sleep_node p ∧
  timeout_node p' = timeout_node p ∧ node_waits p' = node_waits p.

Lemma same_wf p' : same_nodes p p' → wf_except e (with_procs (<[a := p']> (procs k)) k).
Proof using W Ha. intros (? & ? & ? & ? & ?). destruct W. split; cbn; eauto 6. Qed.

(** Out of a wait queue. *)
Lemma unwait_wf q l : sleep_owner p = q → queues k !! q = Some l →
  wf_except e (with_procs (<[a := with_sleep_owner NULL p]> (procs k)) (with_queues (<[q := remove_first a l]> (queues k)) k)).
Proof using W Ha.
  intros Ho Hq. destruct W as [P R Q O S T F]. destruct (Q q l Hq) as (Q0 & QS & Ql & Qa).
  assert (sleep_owner p ≠ SLEEP_QUEUE) by congruence.
  split; cbn [procs process_queue queues sleep_queue sleepers process_list reap_queue with_procs with_queues]; eauto.
  - intros r m [[<- <-]|[Hr Hm]]%lookup_insert_Some.
    + split_and!; [done|done|by apply remove_first_nodup|]. intros b. rewrite remove_first_elem, Qa by done. split.
      * intros [(x & Hx & Hs) Hba]. exists x. by rewrite lookup_insert_ne.
      * intros (x & [[-> ->]|[Hba Hx]]%insert_cases & Hs); [cbn in Hs; congruence|]. split; [by exists x|done].
    + destruct (Q r m Hm) as (? & ? & ? & Hl). split_and!; try done. intros b. rewrite Hl. symmetry. eapply exists_insert; [done|].
      cbn. rewrite Ho. split; intros <-; congruence.
  - intros b x [[-> ->]|[_ Hb]]%insert_cases H1 H2; [done|]. rewrite lookup_insert_is_Some'. right. by apply (O b).
Qed.

(** Out of the sleep queue. *)
Lemma untime_wf : sleep_owner p = SLEEP_QUEUE →
  wf_except e (with_procs (<[a := with_sleep_owner NULL p]> (procs k))
    (with_sleep (remove_first (timed_sleep_node p) (sleep_queue k)) (delete (timed_sleep_node p) (sleepers k)) k)).
Proof using W Ha.
  intros Ho. destruct W as [P R Q O S T F]. destruct (T a p Ha Ho) as (Tin & x0 & Hx0 & Hxa & Hx00).
  split; cbn [procs process_queue queues sleep_queue sleepers process_list reap_queue with_procs with_sleep]; eauto.
  - destruct S as (N & S & H). destruct (sleep_remove (procs k) _ _ (timed_sleep_node p) e e (or_introl eq_refl) (conj N (conj S H))) as (N' & S' & H').
    split_and!; [done|done|]. intros s Hs. destruct (H' s Hs) as (? & x & Hx & Hn). split; [done|]. exists x. split; [done|].
    intros Hse. destruct (Hn Hse) as [? Hy]. split; [done|]. intros Hf. destruct (Hy Hf) as (y & Hy0 & Hy1 & Hy2). exists y.
    rewrite lookup_insert_ne; [done|]. intros E. rewrite <-E, Ha in Hy0. injection Hy0 as <-.
    apply remove_first_elem in Hs as [_ Hs]; [|done]. by apply Hs.
  - apply timed_remove; [apply S| |eapply timed_same; [done|by left|done]].
    intros b x [[-> ->]|[Hb Hx]]%insert_cases Hs; [discriminate Hs|]. intros E. destruct (T b x Hx Hs) as (_ & y & Hy & ? & ?). congruence.
  - apply fswait_remove; [apply S| |eapply fswait_same; [done|by right; right|done]].
    intros b x ws [[-> ->]|[Hb Hx]]%insert_cases Hs; intros E; cbn in *.
    + destruct (F a p ws Ha Hs) as (_ & _ & _ & y & Hy & ? & ?); [|congruence]. rewrite E. by apply S.
    + destruct (F b x ws Hx Hs) as (_ & _ & _ & y & Hy & ? & ?); [|congruence]. rewrite E. by apply S.
Qed.

(** Into the ready queue, and out of it. *)
Lemma enqueue_wf : sched_queued p = false →
  wf_except e (with_procs (<[a := with_sched_queued true p]> (procs k)) (with_process_queue (process_queue k ++ [a]) k)).
Proof using W Ha.
  intros Hq. destruct W as [P R Q O S T F]. assert (Hn := queued_not_elem _ _ _ _ R Ha Hq).
  split; cbn [procs process_queue queues sleep_queue sleepers process_list reap_queue with_procs with_process_queue]; eauto 6.
  destruct R as [R1 R2]. split; [apply NoDup_app; split_and!; [done|by intros x Hx ->%list_elem_of_singleton|apply NoDup_singleton]|].
  intros b. rewrite elem_of_app, list_elem_of_singleton, R2. destruct (decide (b = a)) as [->|Hne].
  - rewrite lookup_insert_eq. split; [intros _; by eexists|by right].
  - rewrite lookup_insert_ne by done. naive_solver.
Qed.

Lemma dequeue_wf rest : process_queue k = a :: rest →
  wf_except e (with_procs (<[a := with_sched_queued false p]> (procs k)) (with_process_queue rest k)).
Proof using W Ha.
  intros Hq. destruct W as [P R Q O S T F].
  split; cbn [procs process_queue queues sleep_queue sleepers process_list reap_queue with_procs with_process_queue]; eauto 6.
  rewrite Hq in R. destruct R as [[R0 R1]%NoDup_cons R2]. split; [done|]. intros b. specialize (R2 b).
  rewrite elem_of_cons in R2. destruct (decide (b = a)) as [->|Hne].
  - rewrite lookup_insert_eq. split; [done|]. intros (x & [= <-] & Hx). discriminate Hx.
  - rewrite lookup_insert_ne by done. naive_solver.
Qed.

(** Into a wait queue. *)
Lemma enwait_wf q l : sleep_owner p = NULL → queues k !! q = Some l →
  wf_except e (with_queues (<[q := l ++ [a]]> (queues k)) (with_procs (<[a := with_sleep_owner q p]> (procs k)) k)).
Proof using W Ha.
  intros Ho Hq. destruct W as [P R Q O S T F]. destruct (Q q l Hq) as (Q0 & QS & Ql & Qa).
  assert (Hn : a ∉ l) by (rewrite Qa; intros (x & Hx & <-); simplify_eq).
  assert (sleep_owner p ≠ SLEEP_QUEUE) by (rewrite Ho; done).
  split; cbn [procs process_queue queues sleep_queue sleepers process_list reap_queue with_procs with_queues]; eauto 6.
  - intros r m [[<- <-]|[Hr Hm]]%lookup_insert_Some.
    + split_and!; [done|done|apply NoDup_app; split_and!; [done|by intros x Hx ->%list_elem_of_singleton|apply NoDup_singleton]|].
      intros b. rewrite elem_of_app, list_elem_of_singleton, Qa. destruct (decide (b = a)) as [->|Hne].
      * rewrite lookup_insert_eq. split; [intros _; by eexists|by right].
      * rewrite lookup_insert_ne by done. naive_solver.
    + destruct (Q r m Hm) as (? & ? & ? & Hl). split_and!; try done. intros b. rewrite Hl. symmetry. eapply exists_insert; [done|].
      cbn. rewrite Ho. split; congruence.
  - intros b x [[-> ->]|[_ Hb]]%insert_cases H1 H2; rewrite lookup_insert_is_Some'; [by left|right; by apply (O b)].
Qed.
End changes.

(** ** Making a process ready *)

(** It waits no more: a wait cut short is an interrupted one. *)
Definition awake (p : process) : process :=
  if sleep_owner p =? NULL then p
  else with_sleep_owner NULL (if sleep_owner p =? SLEEP_QUEUE then p else raise PROC_FLAG_SLEEP_INT p).

(** [k'] is [k] after [make_process_ready]: the process is out of the queue it waited in
    and in the ready queue, in the place it had there or at the end. *)
Record made_ready (a : Z) (p : process) (k k' : kernel) : Prop := {
  mr_procs : procs k' = <[a := with_sched_queued true (awake p)]> (procs k);
  mr_ready : process_queue k' = if sched_queued p then process_queue k else process_queue k ++ [a];
  mr_queues : queues k' = remove_first a <$> queues k;
  mr_sleep : sleep_queue k' = if sleep_owner p =? SLEEP_QUEUE then remove_first (timed_sleep_node p) (sleep_queue k) else sleep_queue k;
  mr_sleepers : sleepers k' = if sleep_owner p =? SLEEP_QUEUE then delete (timed_sleep_node p) (sleepers k) else sleepers k;
  mr_rest : same_rest k k'
}.

Lemma remove_first_notin a l : a ∉ l → remove_first a l = l.
Proof.
  induction l as [|b l IH]; intros H; [done|]. cbn [remove_first]. destruct (Z.eqb_spec b a) as [->|]; [by destruct H; left|].
  f_equal. apply IH. intros ?. apply H. by right.
Qed.

Lemma with_sched_queued_id p : sched_queued p = true → with_sched_queued true p = p.
Proof. destruct p. cbn. by intros ->. Qed.

Lemma awake_queued p : sched_queued (awake p) = sched_queued p.
Proof. unfold awake. by repeat case_match. Qed.

(** The queues without a process that is in one of them at most. *)
Lemma remove_from_queues e k a p : wf_except e k → procs k !! a = Some p →
  remove_first a <$> queues k =
  match queues k !! sleep_owner p with Some l => <[sleep_owner p := remove_first a l]> (queues k) | None => queues k end.
Proof.
  intros [_ _ Q _ _ _ _] Ha. apply map_eq. intros q. rewrite lookup_fmap.
  assert (Hn : q ≠ sleep_owner p → remove_first a <$> queues k !! q = queues k !! q).
  { intros Hne. destruct (queues k !! q) as [l|] eqn:E; [|done]. cbn. f_equal. apply remove_first_notin.
    rewrite (proj2 (proj2 (proj2 (Q q l E)))). intros (x & Hx & <-). simplify_eq. }
  destruct (queues k !! sleep_owner p) as [l|] eqn:E; destruct (decide (q = sleep_owner p)) as [->|Hne].
  - by rewrite lookup_insert_eq, E.
  - rewrite lookup_insert_ne by done. by apply Hn.
  - by rewrite E.
  - by apply Hn.
Qed.

Section ready.
Context `{!Malloc}.

(** The first half: out of the wait. *)
Definition stop_waiting (a : Z) (p : process) (k : kernel) : kernel :=
  if sleep_owner p =? NULL then k
  else if sleep_owner p =? SLEEP_QUEUE then
    with_procs (<[a := awake p]> (procs k))
      (with_sleep (remove_first (timed_sleep_node p) (sleep_queue k)) (delete (timed_sleep_node p) (sleepers k)) k)
  else with_procs (<[a := awake p]> (procs k)) (with_queues (remove_first a <$> queues k) k).

Lemma stop_waiting_wf e k a p : wf_except e k → procs k !! a = Some p →
  wf_except e (stop_waiting a p k) ∧ procs (stop_waiting a p k) = <[a := awake p]> (procs k).
Proof using.
  intros W Ha. unfold stop_waiting, awake. destruct (Z.eqb_spec (sleep_owner p) NULL) as [|H0]; [by rewrite insert_id|].
  destruct (Z.eqb_spec (sleep_owner p) SLEEP_QUEUE) as [H1|H1]; [split; [by apply untime_wf|done]|]. split; [|done].
  destruct (ws_owner e k W a p Ha H0 H1) as [l Hl]. rewrite (remove_from_queues e k a p W Ha), Hl.
  assert (W' := same_wf e k W a p Ha (raise PROC_FLAG_SLEEP_INT p) ltac:(by split_and!)).
  assert (W'' := unwait_wf e _ W' a _ (lookup_insert_eq _ _ _) (sleep_owner p) l eq_refl Hl).
  cbn [procs with_procs] in W''. by rewrite insert_insert_eq in W''.
Qed.

Lemma make_process_ready_run e k a p : wf_except e k → procs k !! a = Some p →
  ∃ k', make_process_ready a k = Done (tt, k') ∧ wf_except e k' ∧ made_ready a p k k'.
Proof using.
  intros W Ha. destruct (stop_waiting_wf e k a p W Ha) as [W1 P1]. set (k1 := stop_waiting a p k) in *.
  assert (H1 : procs k1 !! a = Some (awake p)) by (by rewrite P1, lookup_insert_eq).
  assert (R1 : process_queue k1 = process_queue k ∧ queues k1 = remove_first a <$> queues k ∧
    sleep_queue k1 = (if sleep_owner p =? SLEEP_QUEUE then remove_first (timed_sleep_node p) (sleep_queue k) else sleep_queue k) ∧
    sleepers k1 = (if sleep_owner p =? SLEEP_QUEUE then delete (timed_sleep_node p) (sleepers k) else sleepers k) ∧ same_rest k k1).
  { assert (Hr := remove_from_queues e k a p W Ha). destruct W as [_ _ Q _ _ _ _]. subst k1. unfold stop_waiting.
    destruct (Z.eqb_spec (sleep_owner p) NULL) as [E|H0].
    - rewrite E in Hr |- *. destruct (queues k !! NULL) as [l|] eqn:El; [by destruct (Q _ _ El)|]. by rewrite Hr.
    - destruct (Z.eqb_spec (sleep_owner p) SLEEP_QUEUE) as [E|]; [|by split_and!].
      rewrite E in Hr. destruct (queues k !! SLEEP_QUEUE) as [l|] eqn:El; [by destruct (Q _ _ El) as (? & ? & ?)|]. by rewrite Hr. }
  destruct R1 as (Rq & Rw & Rs & Rm & Rr).
  assert (Hrun : make_process_ready a k = (p ← proc a;
    if sched_queued p then mret tt
    else modify (λ k, with_process_queue (process_queue k ++ [a]) k);; set a (with_sched_queued true)) k1).
  { unfold make_process_ready. pstep (proc_run _ _ _ Ha). subst k1. unfold stop_waiting.
    assert (Hr := remove_from_queues e k a p W Ha).
    destruct (Z.eqb_spec (sleep_owner p) NULL) as [E|H0]; cbn [negb]; [done|].
    destruct (Z.eqb_spec (sleep_owner p) SLEEP_QUEUE) as [E|H2].
    - destruct (ws_timed e k W a p Ha E) as (Hin & _). destruct (proj2 (proj2 (ws_sleep e k W)) _ Hin) as [Hn0 _].
      rewrite (proj2 (Z.eqb_neq _ _) Hn0). cbn [negb].
      assert (Hd : sleep_delete (timed_sleep_node p) k = Done (tt, with_sleep (remove_first (timed_sleep_node p) (sleep_queue k))
        (delete (timed_sleep_node p) (sleepers k)) k)) by (unfold sleep_delete; by rewrite bool_decide_eq_true_2).
      erewrite St_bind_done by (pstep Hd; apply set_run, Ha). unfold awake.
      by rewrite (proj2 (Z.eqb_neq _ _) H0), E.
    - destruct (ws_owner e k W a p Ha H0 H2) as [l Hl]. rewrite Hl in Hr.
      assert (Hin : a ∈ l) by (apply (proj2 (proj2 (proj2 (ws_wait e k W _ _ Hl)))); by exists p).
      erewrite St_bind_done; cycle 1; [pset; eapply queue_delete_run; [exact Hl|exact Hin|apply lookup_insert_eq]|].
      cbn [procs with_procs queues with_queues]. rewrite insert_insert_eq. unfold awake.
      by rewrite (proj2 (Z.eqb_neq _ _) H0), (proj2 (Z.eqb_neq _ _) H2), Hr. }
  rewrite Hrun. clear Hrun. clearbody k1. pstep (proc_run _ _ _ H1). rewrite awake_queued. assert (Hq := awake_queued p).
  destruct (sched_queued p) eqn:Es.
  - exists k1. split_and!; [done|done|]. split; rewrite ?Es; try done. by rewrite with_sched_queued_id by congruence.
  - eexists. split; [erewrite St_bind_done by done; apply set_run; cbn [procs with_process_queue]; exact H1|]. split; [exact (enqueue_wf e k1 W1 a (awake p) H1 Hq)|].
    split; cbn [procs process_queue queues sleep_queue sleepers with_procs with_process_queue]; rewrite ?Es; try done.
    + by rewrite P1, insert_insert_eq.
    + by rewrite Rq.
    + destruct Rr. by split.
Qed.
End ready.
