(* ===== verification/ProcessWait.v ===== *)
(** * Sleeping and waking

    The operations of Process on wait queues, timed sleeps and waits for nodes: each keeps
    the invariant of ProcessQueues, and what it does to the processes. *)
From S2P Require Import Prelude KTree Process ProcessQueues.
Local Open Scope Z_scope.

(** ** The order of the sleep queue *)

Lemma sorted_mono (R R' : Z → Z → Prop) l : (∀ x y, R x y → R' x y) → StronglySorted R l → StronglySorted R' l.
Proof. intros H. induction 1 as [|x l S IH F]; constructor; [done|]. eapply Forall_impl; [exact F|]. intros y. apply H. Qed.

Lemma later_trans x y t u : later x (end_tick y) (end_subtick y) = false → later y t u = false → later x t u = false.
Proof. unfold later. intros. bool_cases; try done; lia. Qed.
Lemma later_total x y t u : later x t u = true → later y t u = false → later y (end_tick x) (end_subtick x) = false.
Proof. unfold later. intros. bool_cases; try done; lia. Qed.

(** The new sleeper goes behind those that are not later. *)
Lemma sleep_insert_run m l s x t u : m !! s = Some x → end_tick x = t → end_subtick x = u →
  StronglySorted (no_later m) l → (∀ c, c ∈ l → is_Some (m !! c)) →
  ∃ l1 l2, l = l1 ++ l2 ∧ (∀ k, sleepers k = m → sleep_insert l s t u k = Done (l1 ++ s :: l2, k)) ∧
    StronglySorted (no_later m) (l1 ++ s :: l2) ∧
    (∀ c y, c ∈ l1 → m !! c = Some y → later y t u = false) ∧
    (∀ c y, c ∈ l2 → m !! c = Some y → later y t u = true).
Proof.
  intros Hs Ht Hu. subst t u. induction 1 as [|c l S IH F]; intros Hin.
  - exists [], []. split_and!; [done|done|by repeat constructor|by intros ? ? ?%elem_of_nil..].
  - destruct (Hin c (list_elem_of_here _ _)) as [y Hy].
    assert (Hr : ∀ k (f : sleeper_t → St kernel (list Z)), sleepers k = m → (sleeper c ≫= f) k = f y k)
      by (intros k f E; apply St_bind_done, sleeper_run; by rewrite E).
    assert (Hl : ∀ d, d ∈ l → ∃ z, m !! d = Some z ∧ later y (end_tick z) (end_subtick z) = false).
    { intros d Hd. destruct (Hin d) as [z Hz]; [by right|]. exists z. split; [done|].
      rewrite Forall_forall in F. by apply (F d Hd). }
    destruct (later y (end_tick x) (end_subtick x)) eqn:E.
    + exists [], (c :: l). cbn [app].
      assert (Hall : ∀ d z, d ∈ c :: l → m !! d = Some z → later z (end_tick x) (end_subtick x) = true).
      { intros d z Hd Hz. apply not_false_is_true. intros E'. apply elem_of_cons in Hd as [->|Hd]; [simplify_eq; congruence|].
        destruct (Hl d Hd) as (z' & Hz' & E2). simplify_eq. rewrite (later_trans _ _ _ _ E2 E') in E. done. }
      split_and!; [done| | |by intros ? ? ?%elem_of_nil|done].
      { intros k Hk. cbn [sleep_insert]. by rewrite Hr, E by done. }
      constructor; [by constructor|]. apply Forall_forall. intros d Hd x' z Hx Hz. simplify_eq.
      specialize (Hall d z Hd Hz). revert Hall. unfold later. bool_cases; try done; lia.
    + destruct IH as (l1 & l2 & -> & Hrun & Hsort & H1 & H2); [intros d Hd; apply Hin; by right|].
      exists (c :: l1), l2. split_and!; [done| | | |done].
      * intros k Hk. cbn [sleep_insert]. rewrite Hr, E by done. by rewrite (St_bind_done _ _ _ _ _ (Hrun k Hk)).
      * cbn [app]. constructor; [done|]. apply Forall_forall. intros d Hd y' z Hy' Hz. simplify_eq.
        rewrite elem_of_app, elem_of_cons in Hd. destruct Hd as [Hd|[->|Hd]]; [|by simplify_eq|];
          (destruct (Hl d) as (z' & Hz' & ?); [rewrite elem_of_app; tauto|by simplify_eq]).
      * intros d z [->|Hd]%elem_of_cons Hz; [by simplify_eq|by apply (H1 d)].
Qed.

Section sleeping.
Context `{M : !Malloc}.
Context (cpu : Z).

(** A new sleeper, and its place in the sleep queue. *)
Lemma add_sleeper_run e k x : wf_except e k →
  ∃ s l1 l2, sleepers k !! s = None ∧ s ≠ NULL ∧ sleep_queue k = l1 ++ l2 ∧
    (∀ k', sleepers k' = sleepers k → new_sleeper x k' = Done (s, with_sleep (sleep_queue k') (<[s := x]> (sleepers k)) k')) ∧
    (∀ k', sleepers k' = <[s := x]> (sleepers k) →
      sleep_insert (sleep_queue k) s (end_tick x) (end_subtick x) k' = Done (l1 ++ s :: l2, k')) ∧
    StronglySorted (no_later (<[s := x]> (sleepers k))) (l1 ++ s :: l2) ∧
    (∀ c y, c ∈ l1 → sleepers k !! c = Some y → later y (end_tick x) (end_subtick x) = false) ∧
    (∀ c y, c ∈ l2 → sleepers k !! c = Some y → later y (end_tick x) (end_subtick x) = true).
Proof using Type.
  intros W. set (s := malloc (dom (sleepers k))). assert (Hs : sleepers k !! s = None) by (apply not_elem_of_dom, malloc_fresh).
  destruct (ws_sleep e k W) as (_ & S & H). set (m := <[s := x]> (sleepers k)).
  assert (Hne : ∀ c, c ∈ sleep_queue k → m !! c = sleepers k !! c).
  { intros c Hc. destruct (H c Hc) as (_ & y & Hy & _). apply lookup_insert_ne. congruence. }
  assert (Sm : StronglySorted (no_later m) (sleep_queue k)).
  { clear -S Hne. revert Hne. induction S as [|c l S IH F]; intros Hne; constructor.
    - apply IH. intros d Hd. apply Hne. by right.
    - rewrite Forall_forall in F |- *. intros d Hd y z.
      rewrite (Hne c (list_elem_of_here _ _)), (Hne d (list_elem_of_further _ _ _ Hd)). by apply (F d Hd). }
  destruct (sleep_insert_run m (sleep_queue k) s x (end_tick x) (end_subtick x)) as (l1 & l2 & Hl & Hrun & Hsort & H1 & H2);
    [apply lookup_insert_eq|done|done|done| |].
  { intros c Hc. rewrite Hne by done. destruct (H c Hc) as (_ & y & Hy & _). by exists y. }
  exists s, l1, l2. split_and!; [done|apply malloc_nonnull|done| |done|done| |].
  - intros k' E. unfold new_sleeper. by rewrite E.
  - intros c y Hc. rewrite <-Hne; [by apply H1|]. rewrite Hl. apply elem_of_app. by left.
  - intros c y Hc. rewrite <-Hne; [by apply H2|]. rewrite Hl. apply elem_of_app. by right.
Qed.

(** [sleep_until]: nothing when the current process waits in a queue already; otherwise it
    joins the sleep queue behind the sleepers that are not later. *)
Lemma sleep_until_run k c a p seconds subseconds : wf k → cores k !! cpu = Some c → current_process c = a → procs k !! a = Some p →
  ∃ k', sleep_until cpu a seconds subseconds k = Done (tt, k') ∧ wf k' ∧ same_rest k k' ∧ process_queue k' = process_queue k ∧
    queues k' = queues k ∧
    if sleep_owner p =? NULL then
      ∃ s l1 l2, sleep_queue k = l1 ++ l2 ∧ sleep_queue k' = l1 ++ s :: l2 ∧
        sleepers k' = <[s := Sleeper seconds subseconds a 0]> (sleepers k) ∧
        procs k' = <[a := with_timed_sleep_node s (with_sleep_owner SLEEP_QUEUE p)]> (procs k) ∧
        (∀ c y, c ∈ l1 → sleepers k !! c = Some y → later y seconds subseconds = false) ∧
        (∀ c y, c ∈ l2 → sleepers k !! c = Some y → later y seconds subseconds = true)
    else k' = k.
Proof using Type.
  intros W Hc Hca Ha. set (x := Sleeper seconds subseconds a 0).
  unfold sleep_until, current, this_core. erewrite St_bind_done by (erewrite St_bind_done by (by rewrite Hc); cbn; by rewrite Hca).
  rewrite (St_bind_done _ _ _ _ _ (proc_run _ _ _ Ha)).
  destruct (Z.eqb_spec (sleep_owner p) NULL) as [H0|H0]; cbn [negb]; [|by exists k].
  destruct (add_sleeper_run NULL k x W) as (s & l1 & l2 & Hs & Hn & Hl & Hnew & Hins & Hsort & H1 & H2).
  eexists. split.
  { erewrite St_bind_done by (apply set_run, Ha). rewrite (St_bind_done _ _ _ _ _ (Hnew (with_procs _ k) eq_refl)).
    erewrite St_bind_done by reflexivity. erewrite St_bind_done by (by apply Hins). erewrite St_bind_done by reflexivity.
    apply set_run. cbn [procs with_sleep with_procs]. apply lookup_insert_eq. }
  cbn [procs with_sleep with_procs sleepers]. rewrite insert_insert_eq.
  split_and!; [|by split|done|done|by exists s, l1, l2; split_and!].
  assert (Hp : Permutation (l1 ++ s :: l2) (s :: sleep_queue k)) by (by rewrite Hl, Permutation_middle).
  destruct W as [P R Q O S T F].
  split; cbn [procs process_queue queues sleep_queue sleepers process_list reap_queue with_procs with_sleep].
  - by apply list_same.
  - by eapply ready_same.
  - eapply wait_same; [done| |done]. by right; right.
  - eapply owner_same; [done| |done]. by right; right.
  - eapply sleep_add; [exact Hp|done|done| |done|done|]. 
    + eapply sleep_same; [done|by left; rewrite H0|done].
    + intros _. cbn. by rewrite lookup_insert_eq.
  - intros b q [[-> ->]|[Hne Hb]]%insert_cases Ho.
    + cbn. rewrite lookup_insert_eq. split; [apply elem_of_app; right; by left|]. by eexists.
    + eapply timed_add; [exact Hp|done|done|done|done].
  - eapply fswait_add; [exact Hp|done|]. eapply fswait_same; [done| |done]. by right; right.
Qed.

(** ** Waits on nodes *)

(** The record of a process whose wait on nodes is over. *)
Definition unwaited (index : Z) (p : process) : process :=
  with_timeout_node NULL (with_node_waits None (with_awoken_index index p)).

(** The timeout of a wait that ends early leaves the sleep queue. *)
Definition drop_timeout (p : process) (k : kernel) : kernel :=
  if negb (timeout_node p =? NULL) && bool_decide (timeout_node p ∈ sleep_queue k) &&
     match sleepers k !! timeout_node p with Some x => negb (is_fswait x =? -1) | None => false end
  then with_sleep (remove_first (timeout_node p) (sleep_queue k)) (delete (timeout_node p) (sleepers k)) k else k.

Lemma drop_timeout_wf e k a p ws index : wf_except e k → procs k !! a = Some p → node_waits p = Some ws →
  wf_except e (with_procs (<[a := unwaited index p]> (procs k)) (drop_timeout p k)).
Proof using Type.
  intros W Ha Hws. assert (Hsame : wf_except e (with_procs (<[a := unwaited index p]> (procs k)) k)).
  { destruct W as [P R Q O S T F]. split; cbn; eauto 6 using list_same, ready_same, wait_same, owner_same, sleep_same, timed_same, fswait_same. }
  unfold drop_timeout. destruct (Z.eqb_spec (timeout_node p) NULL) as [|H0]; [done|]. cbn [negb andb].
  destruct (ws_fswait e k W a p ws Ha Hws H0) as (Hin & _ & _ & x & Hx & Hxa & Hx0).
  rewrite bool_decide_eq_true_2, Hx by done. cbn [andb]. destruct (is_fswait x =? -1); [done|]. cbn [negb].
  destruct Hsame as [P R Q O S T F].
  split; cbn [procs process_queue queues sleep_queue sleepers process_list reap_queue with_procs with_sleep] in *; [done..| | |].
  - eapply sleep_remove; [by left|done].
  - apply timed_remove; [apply S| |done]. intros b q Hb Ho E. destruct (T b q Hb Ho) as (_ & y & Hy & _ & Hy0).
    rewrite E in Hy. simplify_eq.
  - apply fswait_remove; [apply S| |done]. intros b q vs Hb Hv E.
    destruct (F b q vs Hb Hv) as (_ & _ & _ & y & Hy & Hyb & _); [by rewrite E|]. rewrite E in Hy. simplify_eq.
    rewrite lookup_insert_eq in Hb. by simplify_eq.
Qed.

Lemma drop_timeout_rest p k : procs (drop_timeout p k) = procs k ∧ process_queue (drop_timeout p k) = process_queue k ∧
  queues (drop_timeout p k) = queues k ∧ same_rest k (drop_timeout p k).
Proof using. unfold drop_timeout. by case_match; split_and!; try split. Qed.

Lemma awaken_from_fswait_run e k a p ws index : wf_except e k → procs k !! a = Some p → node_waits p = Some ws →
  ∃ k', process_awaken_from_fswait a index k = Done (tt, k') ∧ wf_except e k' ∧
    made_ready a (unwaited index p) (with_procs (<[a := unwaited index p]> (procs k)) (drop_timeout p k)) k'.
Proof using Type.
  intros W Ha Hws. assert (W1 := drop_timeout_wf e k a p ws index W Ha Hws).
  set (k1 := with_procs (<[a := unwaited index p]> (procs k)) (drop_timeout p k)) in *.
  assert (H1 : procs k1 !! a = Some (unwaited index p)) by apply lookup_insert_eq.
  destruct (make_process_ready_run e k1 a _ W1 H1) as (k' & Hrun & W' & Hm). exists k'. split_and!; [|done|done].
  rewrite <-Hrun. unfold process_awaken_from_fswait.
  erewrite St_bind_done by apply set_run, Ha. erewrite St_bind_done by (apply set_run, lookup_insert_eq).
  cbn [procs with_procs]. rewrite insert_insert_eq.
  erewrite St_bind_done by (apply proc_run, lookup_insert_eq). erewrite St_bind_done by reflexivity.
  set (k2 := with_procs _ _). set (p2 := with_node_waits _ _).
  assert (H2 : (if negb (timeout_node p2 =? NULL) && bool_decide (timeout_node p2 ∈ sleep_queue k2)
     then x ← sleeper (timeout_node p2); if negb (is_fswait x =? -1) then sleep_delete (timeout_node p2) else mret ()
     else mret ()) k2 = Done (tt, with_procs (procs k2) (drop_timeout p k))).
  { unfold drop_timeout. change (timeout_node p2) with (timeout_node p). change (sleep_queue k2) with (sleep_queue k).
    destruct (negb (timeout_node p =? NULL)) eqn:E0; [|by destruct k]. cbn [andb].
    case_bool_decide as Hin; [|by destruct k]. cbn [andb].
    destruct (proj2 (proj2 (ws_sleep e k W)) _ Hin) as (_ & x & Hx & _). rewrite Hx.
    erewrite St_bind_done by (apply sleeper_run, Hx). destruct (is_fswait x =? -1); cbn [negb]; [by destruct k|].
    unfold sleep_delete. cbn [sleep_queue k2 with_procs]. by rewrite bool_decide_eq_true_2. }
  rewrite (St_bind_done _ _ _ _ _ H2). erewrite St_bind_done by (apply set_run; cbn; apply lookup_insert_eq).
  cbn [procs with_procs]. subst k2 p2. cbn [procs with_procs]. rewrite insert_insert_eq. done.
Qed.

(** ** The sleepers that are due *)

(** In the ready queue and waiting for nothing. *)
Definition in_ready (c : Z) (k : kernel) : Prop :=
  ∃ p, procs k !! c = Some p ∧ sched_queued p = true ∧ sleep_owner p = NULL.

Lemma awake_owner p : sleep_owner (awake p) = NULL.
Proof using. unfold awake. by repeat case_match; apply Z.eqb_eq. Qed.
Lemma awake_fields p : node_waits (awake p) = node_waits p ∧ timeout_node (awake p) = timeout_node p ∧
  awoken_index (awake p) = awoken_index p.
Proof using. unfold awake. by repeat case_match. Qed.

Lemma made_ready_in a p k k' : made_ready a p k k' → in_ready a k'.
Proof using.
  intros []. exists (with_sched_queued true (awake p)). split_and!; [by rewrite mr_procs, lookup_insert_eq|done|].
  apply awake_owner.
Qed.

Lemma index_of_elem v l n : v ∈ l → is_Some (index_of v l n).
Proof using.
  revert n. induction l as [|x l IH]; intros n; [by intros ?%elem_of_nil|]. cbn. destruct (Z.eqb_spec x v); [done|].
  intros [->|H]%elem_of_cons; [done|by apply IH].
Qed.
Lemma index_of_in v l n i : index_of v l n = Some i → v ∈ l.
Proof using.
  revert n. induction l as [|x l IH]; intros n; [done|]. cbn. destruct (Z.eqb_spec x v) as [->|]; [by left|].
  intros H. right. by eapply IH.
Qed.

(** The head of the sleep queue leaves it. *)
Lemma sleep_dequeue_wf s r k : wf_except s k → sleep_queue k = s :: r →
  (∀ a p, procs k !! a = Some p → sleep_owner p = SLEEP_QUEUE → timed_sleep_node p ≠ s) →
  (∀ a p ws, procs k !! a = Some p → node_waits p = Some ws → timeout_node p ≠ s) →
  wf (with_sleep r (delete s (sleepers k)) k).
Proof using Type.
  intros [P R Q O S T F] Hq Ht Hf. assert (Hr : remove_first s (sleep_queue k) = r) by (rewrite Hq; cbn; by rewrite Z.eqb_refl).
  rewrite <-Hr. split; cbn [procs process_queue queues sleep_queue sleepers process_list reap_queue with_sleep]; [done..| | |].
  - eapply sleep_remove; [by right|done].
  - apply timed_remove; [apply S|done|done].
  - apply fswait_remove; [apply S|done|done].
Qed.

Record woke (s : Z) (x : sleeper_t) (k k' : kernel) : Prop := {
  wo_wf : wf k';
  wo_rest : same_rest k k';
  wo_queue : ∃ r, sleep_queue k = s :: r ∧ sublist (sleep_queue k') r;
  wo_sleepers : ∀ t, t ∈ sleep_queue k' → sleepers k' !! t = sleepers k !! t;
  wo_left : ∀ t y, t ∈ sleep_queue k → t ≠ s → t ∉ sleep_queue k' → sleepers k !! t = Some y →
    sl_process y = sl_process x ∧ in_ready (sl_process x) k';
  wo_other : ∀ c, c ≠ sl_process x → procs k' !! c = procs k !! c;
  wo_timed : is_fswait x = 0 → in_ready (sl_process x) k' ∧
    ∀ p, procs k !! sl_process x = Some p → ∃ p', procs k' !! sl_process x = Some p' ∧
      node_waits p' = node_waits p ∧ timeout_node p' = timeout_node p ∧ awoken_index p' = awoken_index p;
  wo_fswait : is_fswait x ≠ 0 → ∀ p, procs k !! sl_process x = Some p →
    match (if bool_decide (sl_process x ∈ process_list k) then node_waits p ≫= λ ws, index_of s ws 0 else None) with
    | Some i => in_ready (sl_process x) k' ∧ ∃ p', procs k' !! sl_process x = Some p' ∧ node_waits p' = None ∧ awoken_index p' = i
    | None => procs k' !! sl_process x = Some p
    end
}.

Section wake.
Context (s : Z) (r : list Z) (x : sleeper_t) (k : kernel).
Context (W : wf k) (Hq : sleep_queue k = s :: r) (Hx : sleepers k !! s = Some x).

Lemma head_nonnull : s ≠ NULL.
Proof using W Hq. apply (ws_sleep _ _ W). rewrite Hq. by left. Qed.

Lemma wake_timed : is_fswait x = 0 → ∃ k', (wake_sleeper s x;; sleep_dequeue s) k = Done (tt, k') ∧ woke s x k k'.
Proof using W Hq Hx.
  intros Hf. pose proof W as [P R Q O S T F]. pose proof S as (N & _ & S3). set (b := sl_process x).
  assert (Hin : s ∈ sleep_queue k) by (rewrite Hq; by left).
  destruct (S3 s Hin) as (H0 & x' & Hx' & Hp). simplify_eq. destruct (Hp H0) as [_ Hp']. destruct (Hp' Hf) as (p & Hb & Ho & Ht).
  clear Hp Hp'. fold b in Hb. set (p1 := with_timed_sleep_node NULL (with_sleep_owner NULL p)).
  set (k1 := with_procs (<[b := p1]> (procs k)) k).
  assert (Hb1 : procs k1 !! b = Some p1) by apply lookup_insert_eq.
  assert (W1 : wf_except s k1).
  { split; cbn; [by apply list_same|by eapply ready_same|eapply wait_same; eauto|eapply owner_same; eauto| |eapply timed_same; eauto; by left|eapply fswait_same; eauto].
    split_and!; [done|apply S|]. intros t Hts. destruct (S3 t Hts) as (Ht0 & y & Hy & Hn). split; [done|]. exists y. split; [done|].
    intros Hse. destruct (Hn Ht0) as [? Hz]. split; [done|]. intros Hfy. destruct (Hz Hfy) as (z & Hz1 & Hz2 & Hz3). exists z.
    rewrite lookup_insert_ne; [done|]. intros E. rewrite <-E in Hz1. simplify_eq. }
  assert (H2 : ∃ k2, (if negb (process_is_ready p1) then make_process_ready b else mret tt) k1 = Done (tt, k2) ∧ wf_except s k2 ∧
    procs k2 = <[b := with_sched_queued true p1]> (procs k) ∧ sleep_queue k2 = sleep_queue k ∧ sleepers k2 = sleepers k ∧ same_rest k k2).
  { destruct (process_is_ready p1) eqn:E; cbn [negb].
    - exists k1. apply andb_prop in E as [E _]. split_and!; [done|done| |done|done|by split].
      by rewrite with_sched_queued_id.
    - destruct (make_process_ready_run s k1 b p1 W1 Hb1) as (k2 & Hrun & W2 & []). exists k2. split_and!; try done.
      + rewrite mr_procs. cbn. by rewrite insert_insert_eq.
      + destruct mr_rest. by split. }
  destruct H2 as (k2 & Hrun & W2 & P2 & Q2 & M2 & R2).
  exists (with_sleep r (delete s (sleepers k2)) k2). split.
  { assert (Hwake : wake_sleeper s x k = Done (tt, k2)).
    { unfold wake_sleeper. rewrite Hf. cbn [Z.eqb negb]. fold b. erewrite St_bind_done by apply set_run, Hb.
      erewrite St_bind_done by (apply set_run, lookup_insert_eq). cbn [procs with_procs]. rewrite insert_insert_eq.
      erewrite St_bind_done by (apply proc_run, lookup_insert_eq). exact Hrun. }
    rewrite (St_bind_done _ _ _ _ _ Hwake). unfold sleep_dequeue, modify. by rewrite Q2, Hq. }
  assert (Hready : in_ready b (with_sleep r (delete s (sleepers k2)) k2)).
  { exists (with_sched_queued true p1). by split; [cbn; rewrite P2, lookup_insert_eq|]. }
  split; cbn [sleep_queue sleepers procs with_sleep process_list].
  - apply sleep_dequeue_wf; [done|by rewrite Q2| |].
    + intros c q Hc Hco Hct. destruct (ws_timed _ _ W2 c q Hc Hco) as (_ & y & Hy & Hyc & _).
      rewrite Hct, M2, Hx in Hy. injection Hy as <-. rewrite P2 in Hc. subst c. rewrite lookup_insert_eq in Hc. by injection Hc as <-.
    + intros c q ws Hc Hw Hct. destruct (ws_fswait _ _ W2 c q ws Hc Hw) as (_ & _ & _ & y & Hy & _ & Hyf); [by rewrite Hct|].
      rewrite Hct, M2 in Hy. congruence.
  - destruct R2. by split.
  - by exists r.
  - intros t Htr. rewrite M2. apply lookup_delete_ne. intros <-. rewrite Hq in N. apply NoDup_cons in N as [? _]. done.
  - intros t y Htq Hne Hnot. rewrite Hq in Htq. by apply elem_of_cons in Htq as [?|?].
  - intros c Hc. by rewrite P2, lookup_insert_ne.
  - intros _. split; [done|]. intros p' Hp'. change (procs k !! b = Some p') in Hp'. rewrite Hb in Hp'. injection Hp' as <-.
    exists (with_sched_queued true p1). by rewrite P2, lookup_insert_eq.
  - done.
Qed.

(** The mark of a timeout that has passed. *)
Definition mark : kernel :=
  with_sleep (sleep_queue k) (<[s := Sleeper (end_tick x) (end_subtick x) (sl_process x) (-1)]> (sleepers k)) k.

Lemma mark_wf : is_fswait x ≠ 0 → wf_except s mark.
Proof using W Hq Hx.
  intros Hf. destruct W as [P R Q O S T F]. destruct S as (N & S & S3). unfold mark.
  split; cbn [procs process_queue queues sleep_queue sleepers process_list reap_queue with_sleep]; [done..| | |].
  - split_and!; [done| |].
    + eapply sorted_mono; [|exact S]. intros t u H y z Hy Hz.
      assert (Ht : ∀ v w, <[s := Sleeper (end_tick x) (end_subtick x) (sl_process x) (-1)]> (sleepers k) !! v = Some w →
        ∃ w', sleepers k !! v = Some w' ∧ end_tick w' = end_tick w ∧ end_subtick w' = end_subtick w).
      { intros v w [[<- <-]|[_ Hv]]%lookup_insert_Some; [by exists x|by exists w]. }
      destruct (Ht t y Hy) as (y' & Hy' & E1 & E2), (Ht u z Hz) as (z' & Hz' & E3 & E4).
      specialize (H y' z' Hy' Hz'). unfold later in *. congruence.
    + intros t Hts. destruct (S3 t Hts) as (Ht0 & y & Hy & Hn). split; [done|]. destruct (decide (t = s)) as [->|Hne].
      * eexists. rewrite lookup_insert_eq. split; [done|]. by intros [].
      * exists y. rewrite lookup_insert_ne by done. split; [done|]. intros _. by apply Hn.
  - intros a p Ha Ho. destruct (T a p Ha Ho) as (? & y & Hy & ? & ?). split; [done|]. exists y.
    rewrite lookup_insert_ne; [done|]. intros E. rewrite <-E in Hy. simplify_eq.
  - intros a p ws Ha Hw Ht. destruct (F a p ws Ha Hw Ht) as (? & ? & ? & y & Hy & ? & ?). split_and!; try done.
    destruct (decide (s = timeout_node p)) as [E|Hne].
    + rewrite <-E in Hy |- *. simplify_eq. eexists. by rewrite lookup_insert_eq.
    + exists y. by rewrite lookup_insert_ne.
Qed.

(** Alerting the process of a timeout. *)
Lemma wake_alert : is_fswait x ≠ 0 →
  ∃ k2, process_alert_node_locked (sl_process x) s mark = Done (if bool_decide (sl_process x ∈ process_list k) then
      match procs k !! sl_process x ≫= node_waits with Some ws => if index_of s ws 0 then 0 else -1 | None => 0 end else 0, k2) ∧
    wf_except s k2 ∧
    match (if bool_decide (sl_process x ∈ process_list k) then (procs k !! sl_process x ≫= node_waits) ≫= λ ws, index_of s ws 0 else None) with
    | Some i => ∃ p, procs k !! sl_process x = Some p ∧
        made_ready (sl_process x) (unwaited i p) (with_procs (<[sl_process x := unwaited i p]> (procs mark)) (drop_timeout p mark)) k2
    | None => k2 = mark
    end.
Proof using W Hq Hx.
  intros Hf. set (b := sl_process x) in *. assert (W1 := mark_wf Hf). unfold process_alert_node_locked.
  erewrite St_bind_done by reflexivity. change (process_list mark) with (process_list k).
  case_bool_decide as Hv; cbn [negb]; [|by exists mark].
  destruct (proj2 (ws_list _ _ W) b) as [p Hp]; [apply elem_of_app; by left|].
  rewrite (St_bind_done _ _ _ _ _ (proc_run mark b p Hp)), Hp. cbn [mbind option_bind].
  destruct (node_waits p) as [ws|] eqn:Ew; [|by exists mark]. cbn [mbind option_bind].
  destruct (index_of s ws 0) as [i|] eqn:Ei; [|by exists mark].
  destruct (awaken_from_fswait_run s mark b p ws i W1 Hp Ew) as (k2 & Hrun & W2 & Hm).
  exists k2. rewrite (St_bind_done _ _ _ _ _ Hrun). split_and!; [done|done|]. by exists p.
Qed.

(** The sleep queue while its head is being woken: others leave it only with the process. *)
Definition shrunk (sq : list Z) (m : gmap Z sleeper_t) : Prop :=
  ∃ r', sq = s :: r' ∧ sublist r' r ∧ (∀ t, t ∈ r' → m !! t = sleepers k !! t) ∧ m !! s = sleepers mark !! s ∧
    ∀ t y, t ∈ r → t ∉ r' → sleepers k !! t = Some y → sl_process y = sl_process x.

Lemma remove_first_sublist t l : sublist (remove_first t l) l.
Proof using.
  induction l as [|c l IH]; [constructor|]. cbn [remove_first]. destruct (c =? t); [by constructor|by constructor].
Qed.

Lemma shrunk_remove sq m t : shrunk sq m → t ≠ s → (∀ y, sleepers k !! t = Some y → sl_process y = sl_process x) →
  shrunk (remove_first t sq) (delete t m).
Proof using W Hq.
  intros (r' & -> & Hsub & Hm & Hs & Hl) Hne Ht. cbn [remove_first]. rewrite (proj2 (Z.eqb_neq s t)) by done.
  assert (N : NoDup r').
  { eapply sublist_NoDup; [|exact Hsub]. destruct (ws_sleep _ _ W) as (N & _). rewrite Hq in N. by apply NoDup_cons in N as [_ ?]. }
  exists (remove_first t r'). split_and!; [done|by etrans; [apply remove_first_sublist|]| | |].
  - intros u [Hu Hut]%remove_first_elem; [|done]. rewrite lookup_delete_ne by done. by apply Hm.
  - by rewrite lookup_delete_ne.
  - intros u y Hu Hnot Hy. destruct (decide (u = t)) as [->|]; [by apply Ht|]. apply (Hl u); [done| |done].
    intros ?. apply Hnot. by apply remove_first_elem.
Qed.

Lemma shrunk_mark : shrunk (sleep_queue mark) (sleepers mark).
Proof using W Hq.
  unfold mark. cbn [sleep_queue sleepers with_sleep]. exists r. split_and!; [done|done| |done|done].
  intros t Ht. apply lookup_insert_ne. intros E. destruct (ws_sleep _ _ W) as (N & _). rewrite Hq, E in N. by apply NoDup_cons in N as [? _].
Qed.

Lemma shrunk_woken i p k2 ws : is_fswait x ≠ 0 → procs k !! sl_process x = Some p → node_waits p = Some ws →
  made_ready (sl_process x) (unwaited i p) (with_procs (<[sl_process x := unwaited i p]> (procs mark)) (drop_timeout p mark)) k2 →
  shrunk (sleep_queue k2) (sleepers k2).
Proof using W Hq Hx.
  intros Hf Hp Hws [_ _ _ HS HM _]. rewrite HS, HM. cbn [sleep_owner timed_sleep_node unwaited with_timeout_node with_node_waits
    with_awoken_index sleep_queue sleepers with_procs].
  assert (Hd : shrunk (sleep_queue (drop_timeout p mark)) (sleepers (drop_timeout p mark))).
  { unfold drop_timeout. destruct (Z.eqb_spec (timeout_node p) NULL) as [|H0]; [apply shrunk_mark|]. cbn [negb andb].
    case_bool_decide; [|apply shrunk_mark]. cbn [andb]. destruct (sleepers mark !! timeout_node p) as [y|] eqn:E; [|apply shrunk_mark].
    destruct (Z.eqb_spec (is_fswait y) (-1)); cbn [negb]; [apply shrunk_mark|]. cbn [sleep_queue sleepers with_sleep].
    apply shrunk_remove; [apply shrunk_mark| |].
    - intros E'. unfold mark in E. cbn in E. rewrite E', lookup_insert_eq in E. by simplify_eq.
    - destruct (ws_fswait _ _ W _ _ _ Hp Hws H0) as (_ & _ & _ & z & Hz & ? & _). intros. by simplify_eq. }
  destruct (Z.eqb_spec (sleep_owner p) SLEEP_QUEUE) as [Ho|]; [|done].
  destruct (ws_timed _ _ W _ _ Hp Ho) as (_ & z & Hz & ? & Hz0). apply shrunk_remove; [done| |intros; by simplify_eq].
  intros E. rewrite E in Hz. by simplify_eq.
Qed.

Lemma wake_fswait : is_fswait x ≠ 0 → ∃ k', (wake_sleeper s x;; sleep_dequeue s) k = Done (tt, k') ∧ woke s x k k'.
Proof using W Hq Hx.
  intros Hf. destruct (wake_alert Hf) as (k2 & Hrun & W2 & H2). set (b := sl_process x) in *.
   set (o := if bool_decide (b ∈ process_list k) then _ else None : option Z) in H2.
  exists (with_sleep (tail (sleep_queue k2)) (delete s (sleepers k2)) k2). split.
  { unfold wake_sleeper. rewrite (proj2 (Z.eqb_neq _ _) Hf). cbn [negb].
    erewrite St_bind_done; [reflexivity|]. erewrite St_bind_done by reflexivity. change (with_sleep _ _ k) with mark.
    by rewrite (St_bind_done _ _ _ _ _ Hrun). }
  clear Hrun.
  assert (Hs : shrunk (sleep_queue k2) (sleepers k2) ∧ same_rest k k2 ∧
    (∀ c q, procs k2 !! c = Some q → c ≠ b → procs k !! c = Some q) ∧ (∀ c, c ≠ b → procs k2 !! c = procs k !! c)).
  { destruct o as [i|] eqn:E; subst o; [|subst k2; split_and!; [apply shrunk_mark|by split|done|done]].
    destruct H2 as (p & Hp & Hm). rewrite Hp in E. cbn [mbind option_bind] in E. destruct (node_waits p) as [ws|] eqn:Ew; [|by case_bool_decide].
    split; [by eapply shrunk_woken|]. destruct Hm as [mr_procs _ _ _ _ mr_rest].
    assert (P2 : ∀ c, c ≠ b → procs k2 !! c = procs k !! c) by (intros c Hc; rewrite mr_procs; cbn; by rewrite !lookup_insert_ne by done).
    split_and!; [|by intros c q Hcq Hc; rewrite <-P2|done].
    destruct (drop_timeout_rest p mark) as (_ & _ & _ & [? ? ? ? ?]), mr_rest. split; cbn in *; congruence. }
  destruct Hs as ((r' & Hr' & Hsub & Hm & Hms & Hl) & R2 & P2 & P2').
  rewrite Hr'. cbn [tail]. unfold mark in Hms. cbn [sleepers with_sleep] in Hms. rewrite lookup_insert_eq in Hms.
  assert (Hready : ∀ t, t ∈ r → t ∉ r' → in_ready b k2).
  { intros t Ht Hnot. destruct o as [i|].
    - destruct H2 as (p & _ & H2). by eapply made_ready_in.
    - subst k2. unfold mark in Hr'. cbn in Hr'. rewrite Hq in Hr'. by injection Hr' as <-. }
  split; cbn [sleep_queue sleepers procs with_sleep process_list].
  - apply sleep_dequeue_wf; [done|done| |].
    + intros c q Hc Hco Hct. destruct (ws_timed _ _ W2 c q Hc Hco) as (_ & y & Hy & _ & Hy0). rewrite Hct, Hms in Hy. by simplify_eq.
    + intros c q ws Hc Hw Hct.
      destruct (ws_fswait _ _ W2 c q ws Hc Hw) as (_ & Hin & Hv & y & Hy & Hyc & _); [rewrite Hct; apply head_nonnull|].
      rewrite Hct in Hin, Hy. rewrite Hms in Hy. injection Hy as <-. cbn in Hyc. fold b in Hyc. subst c.
      rewrite (sr_list _ _ R2) in Hv. subst o. rewrite bool_decide_eq_true_2 in H2 by done. destruct (procs k !! b) as [p|] eqn:Hp.
      * cbn [mbind option_bind] in H2. destruct (node_waits p) as [vs|] eqn:Ew; cbn [mbind option_bind] in H2.
        -- destruct (index_of s vs 0) as [i|] eqn:Ei.
           ++ destruct H2 as (p' & Hp' & []). rewrite mr_procs, lookup_insert_eq in Hc. injection Hc as <-.
              cbn in Hw. by rewrite (proj1 (awake_fields _)) in Hw.
           ++ subst k2. unfold mark in Hc. cbn in Hc. assert (q = p) as -> by congruence. rewrite Ew in Hw. injection Hw as ->.
              destruct (index_of_elem s ws 0 Hin). congruence.
        -- subst k2. unfold mark in Hc. cbn in Hc. congruence.
      * cbn [mbind option_bind] in H2. subst k2. unfold mark in Hc. cbn in Hc. congruence.
  - destruct R2. by split.
  - by exists r.
  - intros t Ht. rewrite lookup_delete_ne; [by apply Hm|]. intros E. destruct (ws_sleep _ _ W2) as (N & _).
    rewrite Hr', E in N. by apply NoDup_cons in N as [? _].
  - intros t y Ht Hne Hnot Hy. rewrite Hq in Ht. apply elem_of_cons in Ht as [?|Ht]; [done|].
    split; [by eapply Hl|]. destruct (Hready t Ht Hnot) as (p & ? & ?). by exists p.
  - done.
  - done.
  - intros _ p Hp. fold b in Hp. subst o. rewrite Hp in H2. cbn [mbind option_bind] in H2.
    destruct (if bool_decide _ then _ else _) as [i|]; [|by subst k2].
    destruct H2 as (p' & Hp' & H2). split; [by eapply made_ready_in in H2 as (z & ? & ?); exists z|].
    destruct H2. exists (with_sched_queued true (awake (unwaited i p'))). fold b. rewrite mr_procs, lookup_insert_eq.
    destruct (awake_fields (unwaited i p')) as (E1 & _ & E3). split_and!; [done|exact E1|exact E3].
Qed.
End wake.

Lemma wake_head s r x k : wf k → sleep_queue k = s :: r → sleepers k !! s = Some x →
  ∃ k', (wake_sleeper s x;; sleep_dequeue s) k = Done (tt, k') ∧ woke s x k k'.
Proof using Type. intros. destruct (Z.eqb_spec (is_fswait x) 0); [by eapply wake_timed|by eapply wake_fswait]. Qed.

Lemma woke_ready s x k k' c : woke s x k k' → in_ready c k → in_ready c k'.
Proof using.
  intros [] (p & Hp & Hq & Ho). destruct (decide (c = sl_process x)) as [->|Hne].
  - destruct (decide (is_fswait x = 0)) as [Hf|Hf]; [by apply wo_timed0|]. specialize (wo_fswait0 Hf p Hp).
    destruct (if bool_decide (sl_process x ∈ process_list k) then _ else _) as [i|]; [apply wo_fswait0|by exists p].
  - exists p. by rewrite wo_other0.
Qed.

Lemma woke_unwaited s x k k' c p : woke s x k k' → procs k !! c = Some p → node_waits p = None →
  ∃ p', procs k' !! c = Some p' ∧ node_waits p' = None ∧ awoken_index p' = awoken_index p.
Proof using.
  intros [] Hp Hw. destruct (decide (c = sl_process x)) as [->|Hne].
  - destruct (decide (is_fswait x = 0)) as [Hf|Hf].
    + destruct (proj2 (wo_timed0 Hf) p Hp) as (p' & Hp' & E1 & _ & E2). exists p'. by rewrite E1, E2.
    + specialize (wo_fswait0 Hf p Hp). rewrite Hw in wo_fswait0. cbn [mbind option_bind] in wo_fswait0.
      exists p. by case_bool_decide.
  - exists p. by rewrite wo_other0.
Qed.

(** A wait on nodes is untouched by another's sleeper. *)
Lemma woke_waiting s x k k' a p ws : wf k → woke s x k k' → procs k !! a = Some p → node_waits p = Some ws → timeout_node p ≠ NULL →
  timeout_node p ≠ s → s ∉ ws →
  ∃ p', procs k' !! a = Some p' ∧ node_waits p' = Some ws ∧ timeout_node p' = timeout_node p.
Proof using.
  intros W [] Hp Hw H0 Hne Hs. destruct (decide (a = sl_process x)) as [->|Ha]; [|exists p; by rewrite wo_other0].
  destruct (decide (is_fswait x = 0)) as [Hf|Hf].
  - destruct (proj2 (wo_timed0 Hf) p Hp) as (p' & Hp' & E1 & E2 & _). exists p'. by rewrite E1, E2.
  - specialize (wo_fswait0 Hf p Hp). rewrite Hw in wo_fswait0. cbn [mbind option_bind] in wo_fswait0. exists p.
    case_bool_decide; [|done]. destruct (index_of s ws 0) as [i|] eqn:E; [|done]. by apply index_of_in in E.
Qed.

(** What [wakeup_sleepers] does. *)
Record sleepers_woken (t u : Z) (k k' : kernel) : Prop := {
  sw_wf : wf k';
  sw_rest : same_rest k k';
  sw_later : ∀ s x, s ∈ sleep_queue k' → sleepers k' !! s = Some x → later x t u = true;
  sw_timed : ∀ s x, s ∈ sleep_queue k → sleepers k !! s = Some x → later x t u = false → is_fswait x = 0 → in_ready (sl_process x) k';
  sw_fswait : ∀ a p ws x, procs k !! a = Some p → node_waits p = Some ws → timeout_node p ≠ NULL →
    sleepers k !! timeout_node p = Some x → later x t u = false →
    (∀ s, s ∈ sleep_queue k → s ∈ ws → s = timeout_node p) →
    in_ready a k' ∧ ∃ p', procs k' !! a = Some p' ∧ node_waits p' = None ∧ Some (awoken_index p') = index_of (timeout_node p) ws 0;
  sw_other : ∀ a, (∀ s x, s ∈ sleep_queue k → sleepers k !! s = Some x → later x t u = false → sl_process x ≠ a) →
    procs k' !! a = procs k !! a;
  sw_ready : ∀ c, in_ready c k → in_ready c k';
  sw_unwaited : ∀ c p, procs k !! c = Some p → node_waits p = None →
    ∃ p', procs k' !! c = Some p' ∧ node_waits p' = None ∧ awoken_index p' = awoken_index p
}.

Lemma sleepers_woken_stop t u k : wf k → (∀ s x, s ∈ sleep_queue k → sleepers k !! s = Some x → later x t u = true) →
  sleepers_woken t u k k.
Proof using Type.
  intros W H. assert (Hno : ∀ s x, s ∈ sleep_queue k → sleepers k !! s = Some x → later x t u = false → False).
  { intros s x Hs Hx E. by rewrite (H s x Hs Hx) in E. }
  split; try done; [intros s x Hs Hx E _; by destruct (Hno s x)| |by intros c p ? ?; exists p].
  intros a p ws x Ha Hw H0 Hx E _. destruct (ws_fswait _ _ W a p ws Ha Hw H0) as [Hin _]. by destruct (Hno _ x Hin).
Qed.

Lemma sleepers_woken_step s x t u k k1 k' : wf k → sleepers k !! s = Some x → later x t u = false →
  woke s x k k1 → sleepers_woken t u k1 k' → sleepers_woken t u k k'.
Proof using Type.
  intros W Hx Hdue Hw []. pose proof Hw as []. destruct wo_queue0 as (r & Hq & Hsub).
  assert (Hin : ∀ v, v ∈ sleep_queue k1 → v ∈ sleep_queue k).
  { intros v Hv. rewrite Hq. right. by eapply elem_of_sublist. }
  split; [done|by etrans|done| | | | |].
  - intros v y Hv Hy Hd Hf. destruct (decide (v = s)) as [->|Hne].
    + simplify_eq. by apply sw_ready0, wo_timed0.
    + destruct (decide (v ∈ sleep_queue k1)) as [Hv1|Hv1].
      * apply (sw_timed0 v); [done| |done|done]. by rewrite wo_sleepers0.
      * destruct (wo_left0 v y Hv Hne Hv1 Hy) as [-> ?]. by apply sw_ready0.
  - intros a p ws y Ha Hws H0 Hy Hd Honly. destruct (ws_fswait _ _ W a p ws Ha Hws H0) as (Htq & Htw & Hv & y' & Hy' & Hya & Hyf).
    simplify_eq. destruct (decide (timeout_node p = s)) as [E|Hne].
    + subst s. simplify_eq. specialize (wo_fswait0 Hyf p Ha). rewrite bool_decide_eq_true_2, Hws in wo_fswait0 by done.
      cbn [mbind option_bind] in wo_fswait0. destruct (index_of_elem (timeout_node p) ws 0 Htw) as [i Hi]. rewrite Hi in wo_fswait0 |- *.
      destruct wo_fswait0 as (Hr & p' & Hp' & Hn & <-). split; [by apply sw_ready0|].
      destruct (sw_unwaited0 _ p' Hp' Hn) as (p2 & ? & ? & <-). by exists p2.
    + destruct (woke_waiting s x k k1 _ p ws W Hw Ha Hws H0 Hne) as (p1 & Hp1 & Hw1 & Ht1).
      { intros Hs. apply Hne. symmetry. apply Honly; [rewrite Hq; by left|done]. }
      rewrite <-Ht1 in *. apply (sw_fswait0 _ p1 ws y); [done..| |done|].
      * rewrite wo_sleepers0; [done|]. by destruct (ws_fswait _ _ wo_wf0 _ p1 ws Hp1 Hw1 H0).
      * intros v Hv1 Hv2. apply Honly; [by apply Hin|done].
  - intros a Ha. rewrite sw_other0.
    + apply wo_other0. intros ->. apply (Ha s x); [rewrite Hq; by left|done..].
    + intros v y Hv Hy. apply (Ha v y); [by apply Hin|]. by rewrite <-wo_sleepers0.
  - intros c Hc. by eapply sw_ready0, woke_ready.
  - intros c p Hc Hn. destruct (woke_unwaited s x k k1 c p Hw Hc Hn) as (p1 & H1 & H2 & <-). by apply sw_unwaited0.
Qed.

Lemma wakeup_sleepers_run fuel t u k : wf k → (length (sleep_queue k) < fuel)%nat →
  ∃ k', wakeup_sleepers fuel t u k = Done (tt, k') ∧ sleepers_woken t u k k'.
Proof using Type.
  revert k. induction fuel as [|fuel IH]; intros k W Hl; [lia|]. cbn [wakeup_sleepers]. erewrite St_bind_done by reflexivity.
  destruct (sleep_queue k) as [|s r] eqn:Hq.
  { exists k. split; [done|]. apply sleepers_woken_stop; [done|]. rewrite Hq. by intros ? ? ?%elem_of_nil. }
  destruct (ws_sleep _ _ W) as (N & S & S3). destruct (S3 s) as (_ & x & Hx & _); [rewrite Hq; by left|].
  rewrite (St_bind_done _ _ _ _ _ (sleeper_run _ _ _ Hx)). destruct (later x t u) eqn:E; cbn [negb].
  - exists k. split; [done|]. apply sleepers_woken_stop; [done|]. rewrite Hq in S. apply StronglySorted_inv in S as [_ F].
    rewrite Forall_forall in F. intros v y Hv Hy. rewrite Hq in Hv. apply elem_of_cons in Hv as [->|Hv]; [by simplify_eq|].
    apply not_false_is_true. intros E'. specialize (F v Hv x y Hx Hy). rewrite (later_trans _ _ _ _ F E') in E. done.
  - destruct (wake_head s r x k W Hq Hx) as (k1 & Hrun & Hw). pose proof Hw as [W1 _ (r0 & Hq0 & Hsub) _ _ _ _ _].
    rewrite Hq in Hq0. injection Hq0 as <-. apply sublist_length in Hsub. cbn [length] in Hl.
    destruct (IH k1 W1) as (k' & Hrun' & Hs); [lia|]. exists k'. split; [|by eapply sleepers_woken_step].
    rewrite <-Hrun'. unfold mbind at 1, St_bind at 1. unfold mbind, St_bind in Hrun. destruct (wake_sleeper s x k) as [[[] k2]| |]; [|done..].
    by rewrite (St_bind_done _ _ _ _ _ Hrun).
Qed.

(** ** Waking a queue *)

Lemma i32_add n m : i32 (i32 n + m) = i32 (n + m).
Proof using.
  unfold i32. apply Z.sub_cancel_r.
  replace ((n + 2 ^ 31) mod 2 ^ 32 - 2 ^ 31 + m + 2 ^ 31) with ((n + 2 ^ 31) mod 2 ^ 32 + m) by lia.
  rewrite Z.add_mod_idemp_l by lia. f_equal. lia.
Qed.

Lemma i32_idem n : i32 (i32 n) = i32 n.
Proof using. rewrite <-(Z.add_0_r (i32 n)), i32_add. by rewrite !Z.add_0_r. Qed.

Lemma filter_ext_in (P Q : Z → bool) (l : list Z) : (∀ b, b ∈ l → P b = Q b) → filter (λ b, P b = true) l = filter (λ b, Q b = true) l.
Proof using.
  induction l as [|b l IH]; intros H; [done|]. rewrite !filter_cons, (H b) by (by left). rewrite IH; [done|].
  intros c Hc. apply H. by right.
Qed.

(** What becomes of a process in the queue. *)
Definition wake_up (interrupted : bool) (p : process) : process :=
  let p := with_sleep_owner NULL p in
  if has p PROC_FLAG_FINISHED then p
  else with_sched_queued true (if interrupted then raise PROC_FLAG_SLEEP_INT p else p).

(** It is put in the ready queue by that. *)
Definition newly (ps : gmap Z process) (a : Z) : bool :=
  match ps !! a with Some p => negb (has p PROC_FLAG_FINISHED) && negb (sched_queued p) | None => false end.

Record queue_woken (interrupted : bool) (q : Z) (l : list Z) (k k' : kernel) : Prop := {
  qw_wf : wf k';
  qw_rest : same_rest k k';
  qw_queues : queues k' = <[q := []]> (queues k);
  qw_procs : ∀ a, procs k' !! a = (if bool_decide (a ∈ l) then wake_up interrupted <$> procs k !! a else procs k !! a);
  qw_ready : process_queue k' = process_queue k ++ filter (λ a, newly (procs k) a = true) (reverse l);
  qw_sleep : sleep_queue k' = sleep_queue k ∧ sleepers k' = sleepers k
}.

Lemma queue_pop_run q l a k p : wf k → queues k !! q = Some (l ++ [a]) → procs k !! a = Some p →
  let k1 := with_procs (<[a := with_sleep_owner NULL p]> (procs k)) (with_queues (<[q := l]> (queues k)) k) in
  queue_pop q k = Done (Some a, k1) ∧ wf k1 ∧ a ∉ l.
Proof using Type.
  intros W Hq Ha. assert (Hin : a ∈ l ++ [a]) by (apply elem_of_app; right; by left).
  destruct (ws_wait _ _ W q _ Hq) as (_ & _ & N & Hl). apply NoDup_app in N as (_ & N & _).
  assert (Hn : a ∉ l) by (intros H; apply (N a H); by left).
  assert (Ho : sleep_owner p = q) by (apply Hl in Hin as (p' & ? & ?); by simplify_eq).
  assert (Hrem : remove_first a (l ++ [a]) = l) by (rewrite remove_first_middle by done; apply app_nil_r).
  assert (W1 := unwait_wf NULL k W a p Ha q _ Ho Hq). rewrite Hrem in W1.
  split_and!; [|done|done]. unfold queue_pop. rewrite (St_bind_done _ _ _ _ _ (queue_run _ _ _ Hq)), last_snoc.
  rewrite (St_bind_done _ _ _ _ _ (queue_delete_run k q _ a p Hq Hin Ha)). by rewrite Hrem.
Qed.

(** One process out of the queue. *)
Lemma wake_last_run interrupted q l a k p : wf k → queues k !! q = Some (l ++ [a]) → procs k !! a = Some p →
  ∃ k1 k2, queue_pop q k = Done (Some a, k1) ∧ procs k1 !! a = Some (with_sleep_owner NULL p) ∧
    (if negb (has p PROC_FLAG_FINISHED) then
       (if interrupted : bool then set a (raise PROC_FLAG_SLEEP_INT) else mret tt);; make_process_ready a
     else mret tt) k1 = Done (tt, k2) ∧ wf k2 ∧ same_rest k k2 ∧ queues k2 = <[q := l]> (queues k) ∧
    procs k2 = <[a := wake_up interrupted p]> (procs k) ∧
    process_queue k2 = process_queue k ++ (if newly (procs k) a then [a] else []) ∧
    sleep_queue k2 = sleep_queue k ∧ sleepers k2 = sleepers k.
Proof using Type.
  intros W Hq Ha. destruct (queue_pop_run q l a k p W Hq Ha) as (Hpop & W1 & Hn). cbv zeta in Hpop, W1.
  set (k1 := with_procs _ _) in *. exists k1. assert (H1 : procs k1 !! a = Some (with_sleep_owner NULL p)) by apply lookup_insert_eq.
  unfold newly. rewrite Ha. unfold wake_up. change (has (with_sleep_owner NULL p)) with (has p).
  destruct (has p PROC_FLAG_FINISHED); cbn [negb andb].
  { exists k1. rewrite app_nil_r. by split_and!. }
  set (p1 := if interrupted then raise PROC_FLAG_SLEEP_INT (with_sleep_owner NULL p) else with_sleep_owner NULL p).
  set (k1' := with_procs (<[a := p1]> (procs k1)) k1).
  assert (Hset : (if interrupted : bool then set a (raise PROC_FLAG_SLEEP_INT) else mret tt) k1 = Done (tt, k1')).
  { subst k1' p1. destruct interrupted; [by apply set_run|]. by rewrite insert_id. }
  assert (W1' : wf k1') by (apply (same_wf NULL k1 W1 a _ H1); subst p1; by destruct interrupted; split_and!).
  assert (H1' : procs k1' !! a = Some p1) by apply lookup_insert_eq.
  destruct (make_process_ready_run NULL k1' a p1 W1' H1') as (k2 & Hrun & W2 & []). exists k2.
  assert (Eo : sleep_owner p1 = NULL) by (subst p1; by destruct interrupted).
  assert (Eq : sched_queued p1 = sched_queued p) by (subst p1; by destruct interrupted).
  assert (Ep : awake p1 = p1) by (unfold awake; by rewrite Eo). rewrite Ep in mr_procs. rewrite Eo in mr_sleep, mr_sleepers.
  assert (Eqs : remove_first a <$> queues k1' = queues k1').
  { rewrite (remove_from_queues NULL k1' a p1 W1' H1'), Eo. destruct (queues k1' !! NULL) as [m|] eqn:E; [|done].
    by destruct (ws_wait _ _ W1' _ _ E). }
  split_and!; [done|done| |done| | | | |done|done].
  - by rewrite (St_bind_done _ _ _ _ _ Hset).
  - destruct mr_rest. by split.
  - by rewrite mr_queues, Eqs.
  - rewrite mr_procs. cbn. by rewrite !insert_insert_eq.
  - rewrite mr_ready, Eq. cbn. by destruct (sched_queued p); cbn; rewrite ?app_nil_r.
Qed.

Lemma wakeup_loop_run fuel interrupted q l n k : wf k → queues k !! q = Some l → (length l < fuel)%nat → i32 n = n →
  ∃ k', wakeup_loop fuel interrupted q n k = Done (i32 (n + Z.of_nat (length l)), k') ∧ queue_woken interrupted q l k k'.
Proof using Type.
  revert l n k. induction fuel as [|fuel IH]; intros l n k W Hq Hl Hn; [lia|]. cbn [wakeup_loop].
  destruct l as [|a l _] using rev_ind.
  { exists k. split; [|split; try done].
    - unfold queue_pop. erewrite St_bind_done by (erewrite St_bind_done by apply queue_run, Hq; reflexivity). cbn.
      by rewrite Z.add_0_r, Hn.
    - by rewrite insert_id.
    - by rewrite reverse_nil, filter_nil, app_nil_r. }
  destruct (ws_wait _ _ W q _ Hq) as (_ & _ & N & Hin). destruct (proj1 (Hin a)) as (p & Ha & _); [apply elem_of_app; right; by left|].
  destruct (wake_last_run interrupted q l a k p W Hq Ha) as (k1 & k2 & Hpop & H1 & Hw & W2 & R2 & Q2 & P2 & RQ2 & S2 & M2).
  rewrite (St_bind_done _ _ _ _ _ Hpop), (St_bind_done _ _ _ _ _ (proc_run _ _ _ H1)).
  change (has (with_sleep_owner NULL p)) with (has p). rewrite (St_bind_done _ _ _ _ _ Hw).
  rewrite length_app in Hl. cbn in Hl.
  destruct (IH l (i32 (n + 1)) k2 W2) as (k' & Hrun & []); [by rewrite Q2, lookup_insert_eq|lia|apply i32_idem|].
  exists k'. rewrite Hrun. split; [by rewrite i32_add, length_app; do 3 f_equal; cbn; lia|].
  assert (Hnl : a ∉ l) by (apply NoDup_app in N as (_ & N & _); intros H; apply (N a H); by left).
  split; [done|by etrans| | | |destruct qw_sleep0; split; congruence].
  - by rewrite qw_queues0, Q2, insert_insert_eq.
  - intros b. rewrite qw_procs0, P2. destruct (decide (b = a)) as [->|Hne].
    + rewrite bool_decide_eq_false_2, bool_decide_eq_true_2, lookup_insert_eq, Ha by (try done; apply elem_of_app; right; by left). done.
    + rewrite lookup_insert_ne by done. by rewrite (bool_decide_ext (b ∈ l ++ [a]) (b ∈ l)) by (rewrite elem_of_app, list_elem_of_singleton; tauto).
  - rewrite qw_ready0, RQ2, reverse_snoc, filter_cons, <-app_assoc. f_equal.
    assert (E : filter (λ b, newly (procs k2) b = true) (reverse l) = filter (λ b, newly (procs k) b = true) (reverse l)).
    { apply filter_ext_in. intros b Hb. rewrite elem_of_reverse in Hb. unfold newly. rewrite P2, lookup_insert_ne; [done|]. intros E; apply Hnl; by rewrite E. }
    rewrite E. by destruct (newly (procs k) a).
Qed.
End sleeping.
