(* ===== verification/Scheduler.v ===== *)
(** * The scheduler

    Switching tasks, and the invariant of ProcessQueues over every operation of Process:
    [sched_step] is one of them, on some processor, up to where it returns or switches away. *)
From S2P Require Import Prelude KTree Process ProcessQueues ProcessWait.
Local Open Scope Z_scope.

(** ** Operations that keep the invariant *)

Definition keeps {A} (f : St kernel A) : Prop := ∀ k x k', wf k → f k = Done (x, k') → wf k'.

Lemma keeps_ret {A} (x : A) : keeps (mret x).
Proof. by intros k y k' W [= <- <-]. Qed.
Lemma keeps_gets {A} (f : kernel → A) : keeps (gets f).
Proof. by intros k y k' W [= <- <-]. Qed.
Lemma keeps_fault {A} : keeps (@fault kernel A).
Proof. done. Qed.
Lemma keeps_timeout {A} : keeps ((λ _, Timeout) : St kernel A).
Proof. done. Qed.
Lemma keeps_bind {A B} (f : St kernel A) (g : A → St kernel B) : keeps f → (∀ x, keeps (g x)) → keeps (f ≫= g).
Proof.
  intros Hf Hg k y k' W. unfold mbind, St_bind. destruct (f k) as [[x k1]| |] eqn:E; [|done..].
  apply Hg. by eapply Hf.
Qed.
Lemma keeps_proc a : keeps (proc a).
Proof. intros k y k' W. unfold proc. case_match; [|done]. by intros [= <- <-]. Qed.
Lemma keeps_queue q : keeps (queue q).
Proof. intros k y k' W. unfold queue. case_match; [|done]. by intros [= <- <-]. Qed.
Lemma keeps_sleeper s : keeps (sleeper s).
Proof. intros k y k' W. unfold sleeper. case_match; [|done]. by intros [= <- <-]. Qed.
Lemma keeps_in_tree {A} (f : St tree_state A) : keeps (in_tree f).
Proof.
  intros k y k' W. unfold in_tree. destruct (f (process_tree k)) as [[x t]| |]; [|done..]. intros [= <- <-].
  destruct W. by split.
Qed.
Lemma keeps_cores f : keeps (modify (λ k, with_cores (f k) k)).
Proof. intros k y k' W [= <- <-]. destruct W. by split. Qed.
Lemma keeps_set a f : (∀ p, same_nodes p (f p)) → keeps (set a f).
Proof.
  intros H k y k' W. unfold set. destruct (procs k !! a) as [p|] eqn:Ha; [|done]. intros [= <- <-]. by apply (same_wf NULL k W a p Ha).
Qed.

Create HintDb keeps.
#[export] Hint Resolve keeps_ret keeps_gets keeps_fault keeps_timeout keeps_proc keeps_queue keeps_sleeper keeps_in_tree keeps_cores : keeps.
Ltac keeps_solve :=
  repeat first
    [ progress eauto with keeps
    | apply keeps_set; intros ?; by split_and!
    | apply keeps_bind; [|intros ?]
    | match goal with |- keeps (match ?x with _ => _ end) => destruct x end
    | progress intros ].

(** ** Flags *)

Lemma has_raise f g p : has (raise f p) g = has p g || negb (Z.land f g =? 0).
Proof.
  unfold has, raise. cbn [flags with_flags]. rewrite Z.land_lor_distr_l.
  destruct (Z.eqb_spec (Z.land (flags p) g) 0) as [->|H1]; [by rewrite Z.lor_0_l|]. cbn [negb orb].
  destruct (Z.eqb_spec (Z.lor (Z.land (flags p) g) (Z.land f g)) 0) as [E|]; [|done]. by apply Z.lor_eq_0_l in E.
Qed.
Lemma has_lower f g p : Z.land f g = 0 → has (lower f p) g = has p g.
Proof.
  intros H. unfold has, lower. cbn [flags with_flags]. do 2 f_equal. apply Z.bits_inj'. intros i Hi.
  rewrite !Z.land_spec, Z.ldiff_spec. assert (E : Z.testbit (Z.land f g) i = false) by (rewrite H; apply Z.bits_0).
  rewrite Z.land_spec in E. destruct (Z.testbit f i), (Z.testbit g i); cbn in *; rewrite ?andb_true_r, ?andb_false_r; done.
Qed.
Lemma has_lower_same f p : has (lower f p) f = false.
Proof. unfold has, lower. cbn [flags with_flags]. by rewrite Z.land_ldiff. Qed.

Section ops.
Context `{M : !Malloc}.
Context (cpu : Z).

Lemma keeps_this_core : keeps (this_core cpu).
Proof using. intros k y k' W. unfold this_core. case_match; [|done]. by intros [= <- <-]. Qed.
#[local] Hint Resolve keeps_this_core : keeps.

Lemma keeps_current : keeps (current cpu).
Proof using. unfold current. keeps_solve. Qed.
#[local] Hint Resolve keeps_current : keeps.

Lemma keeps_make_process_ready a : keeps (make_process_ready a).
Proof using.
  intros k y k' W. destruct (procs k !! a) as [p|] eqn:Ha.
  - destruct (make_process_ready_run NULL k a p W Ha) as (k1 & -> & W1 & _). by intros [= <- <-].
  - unfold make_process_ready, mbind, St_bind, proc. by rewrite Ha.
Qed.
#[local] Hint Resolve keeps_make_process_ready : keeps.

Lemma keeps_queue_delete q a : keeps (queue_delete q a).
Proof using.
  intros k y k' W. unfold queue_delete. destruct (queues k !! q) as [l|] eqn:Hq.
  - destruct (decide (a ∈ l)) as [Hin|Hin].
    + destruct (proj1 (proj2 (proj2 (proj2 (ws_wait _ _ W q l Hq))) a) Hin) as (p & Ha & Ho). fold (queue_delete q a).
      rewrite (queue_delete_run k q l a p Hq Hin Ha). intros [= <- <-]. by eapply unwait_wf.
    + rewrite (St_bind_done _ _ _ _ _ (queue_run _ _ _ Hq)). by rewrite bool_decide_eq_false_2.
  - unfold mbind, St_bind, queue. by rewrite Hq.
Qed.
#[local] Hint Resolve keeps_queue_delete : keeps.

Lemma keeps_queue_append q a : keeps (queue_append q a).
Proof using.
  intros k y k' W. unfold queue_append, mbind, St_bind, proc. destruct (procs k !! a) as [p|] eqn:Ha; [|done].
  unfold queue. destruct (queues k !! q) as [l|] eqn:Hq; [|done]. destruct (Z.eqb_spec (sleep_owner p) NULL); cbn [negb]; [|done].
  unfold set. rewrite Ha. intros [= <- <-]. by apply enwait_wf.
Qed.
#[local] Hint Resolve keeps_queue_append : keeps.

Lemma keeps_wakeup_loop fuel interrupted q n : keeps (wakeup_loop fuel interrupted q n).
Proof using.
  revert n. induction fuel as [|fuel IH]; intros n; cbn [wakeup_loop]; [apply keeps_timeout|]. unfold queue_pop. keeps_solve.
Qed.
Lemma keeps_wakeup_queue_one q : keeps (wakeup_queue_one q).
Proof using. unfold wakeup_queue_one, queue_pop. keeps_solve. Qed.
#[local] Hint Resolve keeps_wakeup_loop : keeps.

(** ** Picking the next process *)

(** It runs on another processor still. *)
Definition busy (p : process) : bool := has p PROC_FLAG_RUNNING && negb (owner p =? cpu).

(** A process as it is picked. *)
Definition picked (p : process) : process :=
  with_owner cpu (if has p PROC_FLAG_FINISHED then with_sched_queued false p else raise PROC_FLAG_RUNNING (with_sched_queued false p)).

Lemma next_ready_process_run k c : wf k → cores k !! cpu = Some c →
  match process_queue k with
  | [] => next_ready_process cpu k = Done (kernel_idle_task c, k)
  | a :: rest => ∃ p, procs k !! a = Some p ∧ sched_queued p = true ∧
      if busy p then ∃ k', next_ready_process cpu k = Done (kernel_idle_task c, k') ∧ wf k' ∧
        k' = with_process_queue (rest ++ [a]) k
      else ∃ k', next_ready_process cpu k = Done (a, k') ∧ wf k' ∧
        k' = with_procs (<[a := picked p]> (procs k)) (with_process_queue rest k)
  end.
Proof using.
  intros W Hc. unfold next_ready_process, this_core. destruct (process_queue k) as [|a rest] eqn:Hq.
  { erewrite St_bind_done by (by rewrite Hc). erewrite St_bind_done by reflexivity. by rewrite Hq. }
  destruct (proj1 (proj2 (ws_ready _ _ W) a)) as (p & Ha & Hs); [rewrite Hq; by left|]. exists p. split_and!; [done|done|].
  assert (W1 := dequeue_wf NULL k W a p Ha rest Hq). set (k1 := with_procs _ _) in W1.
  assert (H1 : procs k1 !! a = Some (with_sched_queued false p)) by apply lookup_insert_eq.
  unfold busy. destruct (has p PROC_FLAG_RUNNING && negb (owner p =? cpu)) eqn:E.
  - exists (with_process_queue (rest ++ [a]) k).
    assert (Hk : with_procs (<[a := with_sched_queued true (with_sched_queued false p)]> (procs k1)) (with_process_queue (process_queue k1 ++ [a]) k1)
      = with_process_queue (rest ++ [a]) k).
    { subst k1. cbn. rewrite insert_insert_eq.
      change (with_sched_queued true (with_sched_queued false p)) with (with_sched_queued true p).
      rewrite with_sched_queued_id by done. rewrite insert_id by done. by destruct k. }
    split_and!; [|rewrite <-Hk; by apply (enqueue_wf NULL k1 W1 a _ H1)|done].
    erewrite St_bind_done by (by rewrite Hc). erewrite St_bind_done by reflexivity. rewrite Hq.
    erewrite St_bind_done by reflexivity. rewrite (St_bind_done _ _ _ _ k1) by (by apply (set_run (with_process_queue rest k))).
    rewrite (St_bind_done _ _ _ _ _ (proc_run _ _ _ H1)). change (has (with_sched_queued false p)) with (has p).
    change (owner (with_sched_queued false p)) with (owner p). rewrite E. erewrite St_bind_done by reflexivity.
    erewrite St_bind_done by (apply set_run; exact H1). cbn [procs with_process_queue]. by rewrite Hk.
  - exists (with_procs (<[a := picked p]> (procs k)) (with_process_queue rest k)).
    set (p2 := if has p PROC_FLAG_FINISHED then with_sched_queued false p else raise PROC_FLAG_RUNNING (with_sched_queued false p)).
    set (k2 := with_procs (<[a := p2]> (procs k)) (with_process_queue rest k)).
    assert (Hk2 : (if negb (has p PROC_FLAG_FINISHED) then set a (raise PROC_FLAG_RUNNING) else mret tt) k1 = Done (tt, k2)).
    { subst k2 p2. destruct (has p PROC_FLAG_FINISHED); cbn [negb]; [done|]. rewrite (set_run _ _ _ _ H1).
      subst k1. cbn. by rewrite insert_insert_eq. }
    split_and!; [| |done].
    + erewrite St_bind_done by (by rewrite Hc). erewrite St_bind_done by reflexivity. rewrite Hq.
      erewrite St_bind_done by reflexivity. rewrite (St_bind_done _ _ _ _ k1) by (by apply (set_run (with_process_queue rest k))).
      rewrite (St_bind_done _ _ _ _ _ (proc_run _ _ _ H1)). change (has (with_sched_queued false p)) with (has p).
      change (owner (with_sched_queued false p)) with (owner p). rewrite E. rewrite (St_bind_done _ _ _ _ _ Hk2).
      erewrite St_bind_done by (apply set_run, lookup_insert_eq). subst k2. cbn [procs with_procs]. by rewrite insert_insert_eq.
    + assert (W2 := same_wf NULL k1 W1 a _ H1 (picked p)). subst k1. cbn [procs with_procs] in W2. rewrite insert_insert_eq in W2.
      apply W2. unfold picked. by destruct (has p PROC_FLAG_FINISHED); split_and!.
Qed.

Lemma keeps_next_ready_process : keeps (next_ready_process cpu).
Proof using.
  intros k y k' W. destruct (cores k !! cpu) as [c|] eqn:Hc.
  - assert (H := next_ready_process_run k c W Hc). destruct (process_queue k) as [|a rest]; [rewrite H; by intros [= <- <-]|].
    destruct H as (p & _ & _ & H). destruct (busy p); destruct H as (k1 & -> & W1 & _); by intros [= <- <-].
  - unfold next_ready_process, mbind, St_bind, this_core. by rewrite Hc.
Qed.
#[local] Hint Resolve keeps_next_ready_process : keeps.

Lemma keeps_next_unfinished fuel : keeps (next_unfinished cpu fuel).
Proof using. induction fuel as [|fuel IH]; cbn [next_unfinished]; [apply keeps_timeout|]. keeps_solve. Qed.
#[local] Hint Resolve keeps_next_unfinished : keeps.

Lemma keeps_arch_restore_context : keeps (arch_restore_context cpu).
Proof using. unfold arch_restore_context. keeps_solve. Qed.
#[local] Hint Resolve keeps_arch_restore_context : keeps.

Lemma keeps_switch_next fuel : keeps (switch_next cpu fuel).
Proof using. unfold switch_next. keeps_solve. Qed.
#[local] Hint Resolve keeps_switch_next : keeps.

Lemma keeps_switch_task fuel reschedule : keeps (switch_task cpu fuel reschedule).
Proof using. unfold switch_task. keeps_solve. Qed.
#[local] Hint Resolve keeps_switch_task : keeps.

Lemma keeps_sleep_on fuel q : keeps (sleep_on cpu fuel q).
Proof using. unfold sleep_on. keeps_solve. Qed.
Lemma keeps_sleep_on_unlocking fuel q : keeps (sleep_on_unlocking cpu fuel q).
Proof using. unfold sleep_on_unlocking. keeps_solve. Qed.

(** [next_unfinished]: finished processes are dropped up to the first that can run. *)
Lemma next_unfinished_run fuel k c pi : wf k → cores k !! cpu = Some c → procs k !! kernel_idle_task c = Some pi →
  has pi PROC_FLAG_FINISHED = false → (length (process_queue k) < fuel)%nat →
  ∃ a k' p', next_unfinished cpu fuel k = Done (a, k') ∧ wf k' ∧ same_rest k k' ∧ procs k' !! a = Some p' ∧
    has p' PROC_FLAG_FINISHED = false ∧
    ∃ dropped rest, process_queue k = dropped ++ rest ∧
      (∀ b p, b ∈ dropped → procs k !! b = Some p → has p PROC_FLAG_FINISHED = true) ∧
      match rest with
      | [] => a = kernel_idle_task c ∧ process_queue k' = []
      | b :: rest => ∃ p, procs k !! b = Some p ∧
          if busy p then a = kernel_idle_task c ∧ process_queue k' = rest ++ [b]
          else a = b ∧ p' = picked p ∧ process_queue k' = rest
      end.
Proof using.
  revert k. induction fuel as [|fuel IH]; intros k W Hc Hpi Hfi Hl; [lia|]. cbn [next_unfinished].
  assert (H := next_ready_process_run k c W Hc). destruct (process_queue k) as [|b rest] eqn:Hq.
  { exists (kernel_idle_task c), k, pi. rewrite (St_bind_done _ _ _ _ _ H), (St_bind_done _ _ _ _ _ (proc_run _ _ _ Hpi)), Hfi.
    split_and!; [done|done|done|done|done|]. exists [], []. split_and!; [done|by intros ? ? ?%elem_of_nil|done|done]. }
  destruct H as (p & Hb & Hs & H). destruct (busy p) eqn:Ebusy; destruct H as (k1 & Hrun & W1 & ->).
  { exists (kernel_idle_task c), (with_process_queue (rest ++ [b]) k), pi.
    rewrite (St_bind_done _ _ _ _ _ Hrun), (St_bind_done _ _ _ _ _ (proc_run (with_process_queue _ k) _ _ Hpi)), Hfi.
    split_and!; [done|done|by split|done|done|]. exists [], (b :: rest). split_and!; [done|by intros ? ? ?%elem_of_nil|].
    exists p. by rewrite Ebusy. }
  set (k1 := with_procs _ _) in *. assert (Hb1 : procs k1 !! b = Some (picked p)) by apply lookup_insert_eq.
  rewrite (St_bind_done _ _ _ _ _ Hrun), (St_bind_done _ _ _ _ _ (proc_run _ _ _ Hb1)).
  assert (Efin : has (picked p) PROC_FLAG_FINISHED = has p PROC_FLAG_FINISHED).
  { unfold picked. change (has (with_owner cpu ?x) PROC_FLAG_FINISHED) with (has x PROC_FLAG_FINISHED).
    destruct (has p PROC_FLAG_FINISHED) eqn:E; [done|]. rewrite has_raise. by change (has (with_sched_queued false p)) with (has p); rewrite E. }
  rewrite Efin. destruct (has p PROC_FLAG_FINISHED) eqn:Ef.
  - destruct (IH k1) as (a & k' & p' & Hrun' & W' & R' & Ha & Hfa & dropped & rest' & Hq' & Hd & Hr); [done|done| |done| |].
    { subst k1. cbn. rewrite lookup_insert_ne; [done|]. intros ->. congruence. }
    { cbn in *. lia. }
    exists a, k', p'. split_and!; [done|done|destruct R'; by split|done|done|].
    exists (b :: dropped), rest'. subst k1. cbn [process_queue with_process_queue procs with_procs] in *. split_and!; [by rewrite Hq'| |].
    + intros d q [->|Hdd]%elem_of_cons Hdq; [by simplify_eq|]. destruct (decide (d = b)) as [->|Hne]; [by simplify_eq|].
      apply (Hd d q Hdd). by rewrite lookup_insert_ne.
    + destruct rest' as [|d rest']; [done|]. destruct Hr as (q & Hdq & Hr). apply insert_cases in Hdq as [[-> ->]|[_ Hdq]]; [|by exists q].
      destruct (ws_ready _ _ W) as (N & _). rewrite Hq, Hq' in N. apply NoDup_cons in N as [N _]. destruct N.
      apply elem_of_app. right. by left.
  - exists b, k1, (picked p). split_and!; [done|done|by split|done|congruence|]. exists [], (b :: rest).
    split_and!; [done|by intros ? ? ?%elem_of_nil|]. exists p. by rewrite Ebusy.
Qed.

(** The head of the queue, when it can run. *)
Lemma next_unfinished_head fuel k c h rest p : wf k → cores k !! cpu = Some c → process_queue k = h :: rest →
  procs k !! h = Some p → busy p = false → has p PROC_FLAG_FINISHED = false →
  next_unfinished cpu (S fuel) k = Done (h, with_procs (<[h := picked p]> (procs k)) (with_process_queue rest k)).
Proof using.
  intros W Hc Hq Hp Hb Hf. assert (H := next_ready_process_run k c W Hc). rewrite Hq in H.
  destruct H as (p' & Hp' & _ & H). assert (p' = p) as -> by congruence. rewrite Hb in H. destruct H as (k1 & Hrun & _ & ->).
  cbn [next_unfinished]. rewrite (St_bind_done _ _ _ _ _ Hrun).
  erewrite St_bind_done by (apply proc_run, lookup_insert_eq). unfold picked at 1. rewrite Hf.
  change (has (with_owner cpu ?x)) with (has x). rewrite has_raise. change (has (with_sched_queued false p)) with (has p).
  by rewrite Hf.
Qed.

(** ** Round robin *)

(** The processes of the ready queue can all run, and the current process runs here. *)
Record fair (k : kernel) (c : core) (p : process) : Prop := {
  fr_wf : wf k;
  fr_core : cores k !! cpu = Some c;
  fr_current : procs k !! current_process c = Some p;
  fr_running : has p PROC_FLAG_RUNNING = true ∧ has p PROC_FLAG_FINISHED = false ∧ owner p = cpu ∧
    sched_queued p = false ∧ sleep_owner p = NULL;
  fr_idle : current_process c ≠ kernel_idle_task c ∧ kernel_idle_task c ∉ process_queue k;
  fr_nonnull : current_process c ≠ NULL ∧ NULL ∉ process_queue k;
  fr_ready : ∀ b q, b ∈ process_queue k → procs k !! b = Some q →
    has q PROC_FLAG_RUNNING = false ∧ has q PROC_FLAG_FINISHED = false ∧ sleep_owner q = NULL
}.

(** A switch away from a process that stays ready. *)
Lemma switch_task_yield fuel k c p : fair k c p → (0 < fuel)%nat →
  ∃ k' c' p', switch_task cpu fuel true k = Done (tt, k') ∧ fair k' c' p' ∧
    kernel_idle_task c' = kernel_idle_task c ∧
    current_process c' :: process_queue k' = tail (current_process c :: process_queue k) ++ [current_process c].
Proof using.
  intros [W Hc Ha (Hrun & Hfin & Hown & Hsq & Hso) [Hi Hiq] [Hn Hnq] Hr] Hf. set (a := current_process c) in *.
  destruct (make_process_ready_run NULL k a p W Ha) as (k1 & Hmk & W1 & []).
  assert (Eaw : awake p = p) by (unfold awake; by rewrite Hso). rewrite Eaw in mr_procs. rewrite Hsq in mr_ready.
  destruct mr_rest as [Rl Rt Rr Rc Rp]. assert (Hc1 : cores k1 !! cpu = Some c) by congruence.
  set (k2 := with_cores (<[cpu := Core a a (kernel_idle_task c)]> (cores k1)) k1).
  assert (W2 : wf k2) by (by apply (keeps_cores (λ _, <[cpu := Core a a (kernel_idle_task c)]> (cores k1)) k1 tt)).
  assert (Hhead : ∃ h rest, process_queue k ++ [a] = h :: rest) by (destruct (process_queue k); by do 2 eexists).
  destruct Hhead as (h & rest & Hq). assert (Hq2 : process_queue k2 = h :: rest) by (cbn; by rewrite mr_ready, Hq).
  destruct (proj1 (proj2 (ws_ready _ _ W2) h)) as (ph & Hh2 & Hsh); [rewrite Hq2; by left|].
  assert (Hh : procs k1 !! h = Some ph) by exact Hh2. rewrite mr_procs in Hh.
  assert (Hph : (h = a ∧ ph = with_sched_queued true p) ∨
    (h ≠ a ∧ h ∈ process_queue k ∧ procs k !! h = Some ph ∧ has ph PROC_FLAG_RUNNING = false)).
  { apply insert_cases in Hh as [[-> ->]|[Hne Hh]]; [by left|right]. assert (Hin : h ∈ process_queue k ++ [a]) by (rewrite Hq; by left).
    apply elem_of_app in Hin as [Hin|Hin%list_elem_of_singleton]; [|done]. split_and!; [done..|]. by apply (Hr h). }
  assert (Hok : busy ph = false ∧ has ph PROC_FLAG_FINISHED = false ∧ sleep_owner ph = NULL).
  { unfold busy. destruct Hph as [[-> ->]|(Hne & Hin & Hhk & Hrh)].
    - change (has (with_sched_queued true p)) with (has p). cbn [owner sleep_owner with_sched_queued]. by rewrite Hown, Z.eqb_refl, andb_false_r.
    - rewrite Hrh. destruct (Hr h ph Hin Hhk) as (? & ? & ?). done. }
  destruct Hok as (Hb & Hfh & Hoh).
  set (k3 := with_procs (<[h := picked ph]> (procs k2)) (with_process_queue rest k2)).
  set (p3 := raise PROC_FLAG_STARTED (picked ph)).
  set (k4 := with_procs (<[h := p3]> (procs k3)) (with_cores (<[cpu := Core h a (kernel_idle_task c)]> (cores k3)) k3)).
  set (ps' := if a =? h then procs k4 else <[a := lower PROC_FLAG_RUNNING (with_sched_queued true p)]> (procs k4)).
  exists (with_procs ps' k4), (Core h a (kernel_idle_task c)), p3.
  assert (Hsw : switch_task cpu fuel true k = Done (tt, with_procs ps' k4)).
  { unfold switch_task. erewrite St_bind_done by (unfold this_core; by rewrite Hc). fold a.
    rewrite (proj2 (Z.eqb_neq _ _) Hn), (proj2 (Z.eqb_neq _ _) Hi), (St_bind_done _ _ _ _ _ (proc_run _ _ _ Ha)), Hrun. cbn [negb].
    rewrite (St_bind_done _ _ _ _ _ Hmk). unfold switch_next. erewrite St_bind_done by (unfold this_core; by rewrite Hc1).
    erewrite St_bind_done by reflexivity. fold a. destruct fuel as [|fuel]; [lia|].
    rewrite (St_bind_done _ _ _ _ _ (next_unfinished_head fuel k2 _ h rest ph W2 (lookup_insert_eq _ _ _) Hq2 Hh2 Hb Hfh)). fold k3.
    erewrite St_bind_done by reflexivity.
    erewrite St_bind_done by (apply (set_run (with_cores _ k3)); cbn [procs with_cores]; apply lookup_insert_eq).
    change (with_procs _ (with_cores _ k3)) with k4.
    unfold arch_restore_context. erewrite St_bind_done by (unfold this_core; cbn; by rewrite lookup_insert_eq). cbn [previous_process current_process].
    subst ps'. destruct (Z.eqb_spec a h) as [|Hne]; [by destruct k4|].
    apply set_run. subst k4 k3. cbn. rewrite lookup_insert_ne, lookup_insert_ne, mr_procs by done. apply lookup_insert_eq. }
  assert (Hsub : ∀ b, b ∈ h :: rest → b = a ∨ b ∈ process_queue k).
  { intros b. rewrite <-Hq, elem_of_app, list_elem_of_singleton. tauto. }
  destruct (ws_ready _ _ W2) as (N & _). rewrite Hq2 in N. apply NoDup_cons in N as [Nh N].
  split_and!; [done| |done|by cbn; rewrite <-Hq].
  split; cbn [current_process kernel_idle_task process_queue procs cores with_procs with_cores with_process_queue k4 k3].
  - exact (keeps_switch_task fuel true k tt _ W Hsw).
  - apply lookup_insert_eq.
  - subst ps'. destruct (Z.eqb_spec a h); [apply lookup_insert_eq|]. rewrite lookup_insert_ne by done. apply lookup_insert_eq.
  - subst p3. unfold picked. rewrite Hfh, !has_raise. change (has (with_owner cpu ?x)) with (has x). rewrite !has_raise.
    change (has (with_sched_queued false ph)) with (has ph). by rewrite Hfh, orb_true_r.
  - split; [destruct (Hsub h) as [->|]; [by left|done|congruence]|].
    intros Hin. destruct (Hsub (kernel_idle_task c)) as [|]; [by right|congruence|done].
  - split; [destruct (Hsub h) as [->|]; [by left|done|congruence]|].
    intros Hin. destruct (Hsub NULL) as [|]; [by right|congruence|done].
  - intros b q Hin Hbq. assert (Hbh : b ≠ h) by congruence.
    assert (Hbq' : if a =? h then procs k1 !! b = Some q else <[a := lower PROC_FLAG_RUNNING (with_sched_queued true p)]> (procs k1) !! b = Some q).
    { subst ps' k4 k3. cbn in Hbq. destruct (a =? h); [|destruct (decide (b = a)) as [->|]].
      - by rewrite !lookup_insert_ne in Hbq.
      - rewrite lookup_insert_eq in Hbq |- *. exact Hbq.
      - rewrite !lookup_insert_ne in Hbq by done. by rewrite lookup_insert_ne. }
    rewrite mr_procs in Hbq'. destruct (decide (b = a)) as [->|Hba].
    + rewrite (proj2 (Z.eqb_neq _ _) Hbh), lookup_insert_eq in Hbq'. injection Hbq' as <-.
      rewrite has_lower_same, has_lower by done. done.
    + assert (Hbk : procs k !! b = Some q) by (destruct (a =? h); by rewrite !lookup_insert_ne in Hbq' by done).
      apply (Hr b); [|done]. destruct (Hsub b) as [|]; [by right|done|done].
Qed.

(** Every process of the system yields in turn. *)
Fixpoint yields (fuel n : nat) : St kernel unit :=
  match n with
  | O => mret tt
  | S n => switch_task cpu fuel true;; yields fuel n
  end.

Lemma yields_rotate fuel n k c p : fair k c p → (0 < fuel)%nat →
  ∃ k' c' p', yields fuel n k = Done (tt, k') ∧ fair k' c' p' ∧
    current_process c' :: process_queue k' = Nat.iter n (λ l, tail l ++ take 1 l) (current_process c :: process_queue k).
Proof using.
  intros Hf Hfuel. revert k c p Hf. induction n as [|n IH]; intros k c p Hf; [by exists k, c, p|].
  destruct (switch_task_yield fuel k c p Hf Hfuel) as (k1 & c1 & p1 & H1 & Hf1 & _ & Hq1).
  destruct (IH k1 c1 p1 Hf1) as (k' & c' & p' & Hrun & Hf' & Hq'). exists k', c', p'. cbn [yields].
  rewrite (St_bind_done _ _ _ _ _ H1). split_and!; [done|done|]. rewrite Hq', Hq1, Nat.iter_succ_r. done.
Qed.

(** ** Timed sleeps and waits on nodes *)

Lemma sleep_until_wf k c seconds subseconds k' : wf k → cores k !! cpu = Some c →
  sleep_until cpu (current_process c) seconds subseconds k = Done (tt, k') → wf k'.
Proof using.
  intros W Hc. destruct (procs k !! current_process c) as [p|] eqn:Ha.
  - destruct (sleep_until_run cpu k c _ p seconds subseconds W Hc eq_refl Ha) as (k1 & -> & W1 & _). by intros [= <-].
  - unfold sleep_until, current, this_core, mbind, St_bind, proc. rewrite Hc. cbn. by rewrite Ha.
Qed.

Lemma keeps_process_awaken_from_fswait a index k k' p ws : wf k → procs k !! a = Some p → node_waits p = Some ws →
  process_awaken_from_fswait a index k = Done (tt, k') → wf k'.
Proof using.
  intros W Ha Hw. destruct (awaken_from_fswait_run NULL k a p ws index W Ha Hw) as (k1 & -> & W1 & _). by intros [= <-].
Qed.

Lemma keeps_process_awaken_signal a : keeps (process_awaken_signal a).
Proof using.
  intros k [] k' W. unfold process_awaken_signal. unfold mbind at 1, St_bind at 1. unfold proc at 1.
  destruct (procs k !! a) as [p|] eqn:Ha; [|done]. destruct (node_waits p) as [ws|] eqn:Hw.
  - by apply (keeps_process_awaken_from_fswait a _ k k' p ws).
  - by intros [= <-].
Qed.
#[local] Hint Resolve keeps_process_awaken_signal : keeps.

Lemma keeps_process_alert_node_locked a v : keeps (process_alert_node_locked a v).
Proof using.
  intros k r k' W. unfold process_alert_node_locked. unfold mbind at 1, St_bind at 1. unfold is_valid_process, gets.
  destruct (negb _); [by intros [= <- <-]|]. unfold mbind at 1, St_bind at 1. unfold proc at 1.
  destruct (procs k !! a) as [p|] eqn:Ha; [|done]. destruct (node_waits p) as [ws|] eqn:Hw; [|by intros [= <- <-]].
  destruct (index_of v ws 0) as [i|]; [|by intros [= <- <-]].
  destruct (awaken_from_fswait_run NULL k a p ws i W Ha Hw) as (k1 & Hrun & W1 & _).
  rewrite (St_bind_done _ _ _ _ _ Hrun). by intros [= <- <-].
Qed.

Lemma keeps_wakeup_sleepers fuel t u : keeps (wakeup_sleepers fuel t u).
Proof using.
  induction fuel as [|fuel IH]; [apply keeps_timeout|]. intros k [] k' W. cbn [wakeup_sleepers].
  erewrite St_bind_done by reflexivity. destruct (sleep_queue k) as [|s r] eqn:Hq; [by intros [= <-]|].
  unfold mbind at 1, St_bind at 1. unfold sleeper at 1. destruct (sleepers k !! s) as [x|] eqn:Hx; [|done].
  destruct (negb (later x t u)); [|by intros [= <-]].
  destruct (wake_head s r x k W Hq Hx) as (k1 & Hrun & []). unfold mbind, St_bind in Hrun |- *.
  destruct (wake_sleeper s x k) as [[[] k2]| |]; [|done..]. rewrite Hrun. by apply IH.
Qed.

(** ** New processes *)

Lemma keeps_list_create : keeps list_create.
Proof using.
  intros k q k' [P R Q O S T F] [= <- <-]. set (q := malloc _).
  assert (Hq : q ∉ dom (queues k) ∪ {[SLEEP_QUEUE]}) by apply malloc_fresh.
  apply not_elem_of_union in Hq as [Hq Hqs]. rewrite not_elem_of_dom in Hq. rewrite elem_of_singleton in Hqs.
  split; cbn [procs process_queue queues sleep_queue sleepers process_list reap_queue with_queues]; try done.
  - intros q' l [[<- <-]|[_ Hl]]%lookup_insert_Some; [|by apply Q]. split_and!; [apply malloc_nonnull|done|constructor|].
    intros a. split; [by intros ?%elem_of_nil|]. intros (p & Ha & Ho).
    assert (E : is_Some (queues k !! sleep_owner p)); [|rewrite Ho, Hq in E; by destruct E].
    apply (O a p Ha); rewrite Ho; [apply malloc_nonnull|done].
  - intros a p Ha H1 H2. rewrite lookup_insert_is_Some'. right. by apply (O a).
Qed.

Lemma keeps_alloc_process p : sched_queued p = false → sleep_owner p = NULL → node_waits p = None → keeps (alloc_process p).
Proof using.
  intros H1 H2 H3 k a k' W [= <- <-]. set (a := malloc _).
  assert (Ha : procs k !! a = None) by (apply not_elem_of_dom, malloc_fresh). destruct W as [P R Q O S T F].
  assert (E : ∀ (X : process → Prop) b, ¬ X p → (∃ q, <[a := p]> (procs k) !! b = Some q ∧ X q) ↔ ∃ q, procs k !! b = Some q ∧ X q).
  { intros X b HX. destruct (decide (b = a)) as [->|Hne]; [rewrite lookup_insert_eq, Ha|by rewrite lookup_insert_ne].
    split; [by intros (q & [= <-] & ?)|by intros (q & ? & _)]. }
  split; cbn [procs process_queue queues sleep_queue sleepers process_list reap_queue with_procs].
  - by apply list_same.
  - destruct R as [? R]. split; [done|]. intros b. rewrite R, E; [done|congruence].
  - intros q l Hl. destruct (Q q l Hl) as (? & ? & ? & Hin). split_and!; try done. intros b. rewrite Hin, E; [done|congruence].
  - intros b q [[-> ->]|[_ Hb]]%insert_cases; [by rewrite H2|by apply (O b)].
  - destruct S as (? & ? & S). split_and!; [done|done|]. intros s Hs. destruct (S s Hs) as (? & x & ? & Hn). split; [done|].
    exists x. split; [done|]. intros Hse. destruct (Hn Hse) as [? Hy]. split; [done|]. intros Hf. rewrite E; [by apply Hy|].
    rewrite H2. by intros [].
  - intros b q [[-> ->]|[_ Hb]]%insert_cases; [by rewrite H2|by apply T].
  - intros b q ws [[-> ->]|[_ Hb]]%insert_cases Hw; [congruence|by apply F].
Qed.

Lemma in_tree_procs {A} (f : St tree_state A) k x k' : in_tree f k = Done (x, k') →
  procs k' = procs k ∧ process_list k' = process_list k ∧ reap_queue k' = reap_queue k.
Proof using. unfold in_tree. destruct (f (process_tree k)) as [[? ?]| |]; [|done..]. by intros [= _ <-]. Qed.

(** A process that is in neither list joins the process list. *)
Lemma join_list_wf a k : wf k → a ∉ process_list k ++ reap_queue k → is_Some (procs k !! a) → wf (with_process_list (process_list k ++ [a]) k).
Proof using.
  intros [[N P] R Q O S T F] Hn Ha.
  assert (Hperm : Permutation ((process_list k ++ [a]) ++ reap_queue k) (a :: process_list k ++ reap_queue k))
    by (rewrite <-app_assoc; cbn; by rewrite Permutation_middle).
  split; cbn [procs process_queue queues sleep_queue sleepers process_list reap_queue with_process_list]; try done.
  - split; [rewrite Hperm; by constructor|]. intros b Hb. rewrite Hperm in Hb. apply elem_of_cons in Hb as [->|Hb]; [done|by apply P].
  - intros b q ws Hb Hw Ht. destruct (F b q ws Hb Hw Ht) as (? & ? & ? & ?). split_and!; try done. apply elem_of_app. by left.
Qed.

(** Taking its place in the tree before that. *)
Lemma enter_list_wf {A B} (f : St tree_state A) (g : A → St tree_state B) (e : A → Z) a k u k' : wf k →
  a ∉ process_list k ++ reap_queue k →
  (x ← in_tree f; set a (with_tree_entry (e x));; in_tree (g x);; modify (λ k, with_process_list (process_list k ++ [a]) k)) k = Done (u, k') →
  wf k'.
Proof using.
  intros W Hn. unfold mbind, St_bind.
  destruct (in_tree f k) as [[x k1]| |] eqn:E1; [|done..]. assert (W1 := keeps_in_tree _ _ _ _ W E1).
  apply in_tree_procs in E1 as (P1 & L1 & R1). unfold set. destruct (procs k1 !! a) as [p|] eqn:Ha; [|done].
  assert (W2 := same_wf NULL k1 W1 a p Ha (with_tree_entry (e x) p) ltac:(by split_and!)). set (k2 := with_procs _ k1) in *.
  destruct (in_tree _ k2) as [[u' k3]| |] eqn:E; [|done..]. assert (W3 := keeps_in_tree _ _ _ _ W2 E).
  apply in_tree_procs in E as (P3 & L3 & R3). intros [= <- <-]. apply join_list_wf; [done|by rewrite L3, R3; cbn; rewrite L1, R1|].
  rewrite P3. subst k2. cbn. rewrite lookup_insert_eq. by eexists.
Qed.

Lemma enter_tree_wf a par k u k' : wf k → a ∉ process_list k ++ reap_queue k → enter_tree a par k = Done (u, k') → wf k'.
Proof using.
  intros W Hn. unfold enter_tree, mbind at 1, St_bind at 1. destruct (proc par k) as [[pp k0]| |] eqn:E0; [|done..].
  unfold proc in E0. destruct (procs k !! par) as [pp0|]; [|done]. injection E0 as <- <-. by apply (enter_list_wf _ _ (λ x, x)).
Qed.

Lemma new_address k : wf k → malloc (dom (procs k)) ∉ process_list k ++ reap_queue k.
Proof using.
  intros W Hin. destruct (proj2 (ws_list _ _ W) _ Hin) as [q Hq]. apply elem_of_dom_2 in Hq. by apply malloc_fresh in Hq.
Qed.

(** A new process joins them. *)
Lemma keeps_add_process {A} p par (f : Z → St kernel A) : sched_queued p = false → sleep_owner p = NULL → node_waits p = None →
  (∀ a, keeps (f a)) → keeps (a ← alloc_process p; enter_tree a par;; f a).
Proof using.
  intros H1 H2 H3 Hf k x k' W. unfold mbind at 1, St_bind at 1.
  destruct (alloc_process p k) as [[a k1]| |] eqn:Ea; [|done..]. assert (W1 := keeps_alloc_process p H1 H2 H3 _ _ _ W Ea).
  unfold mbind at 1, St_bind at 1. destruct (enter_tree a par k1) as [[[] k2]| |] eqn:E; [|done..]. apply Hf.
  apply (enter_tree_wf a par k1 tt k2 W1); [|done]. injection Ea as <- <-. exact (new_address k W).
Qed.

(** At the start every queue is empty. *)
Lemma initial_wf : wf initialize_process_tree.
Proof.
  split; cbn [procs process_queue queues sleep_queue sleepers process_list reap_queue initialize_process_tree]; try done.
  - split; [constructor|]. by intros a ?%elem_of_nil.
  - split; [constructor|]. intros a. split; [by intros ?%elem_of_nil|]. by intros (p & ? & _).
  - split_and!; [constructor|constructor|]. by intros s ?%elem_of_nil.
Qed.

Lemma keeps_get_next_pid : keeps get_next_pid.
Proof using. intros k x k' [] [= <- <-]. by split. Qed.
#[local] Hint Resolve keeps_list_create keeps_get_next_pid : keeps.

Lemma keeps_spawn_process par : keeps (spawn_process par).
Proof using.
  unfold spawn_process. do 3 (apply keeps_bind; [auto with keeps|intros ?]). apply keeps_add_process; auto with keeps.
Qed.
#[local] Hint Resolve keeps_spawn_process : keeps.

Lemma keeps_spawn_kidle : keeps spawn_kidle.
Proof using. unfold spawn_kidle. apply keeps_bind; [auto with keeps|intros q]. by apply keeps_alloc_process. Qed.
#[local] Hint Resolve keeps_spawn_kidle : keeps.

Lemma keeps_spawn_init : keeps spawn_init.
Proof using.
  unfold spawn_init. apply keeps_bind; [auto with keeps|intros q]. intros k x k' W. unfold mbind at 1, St_bind at 1.
  destruct (alloc_process _ k) as [[a k1]| |] eqn:Ea; [|done..]. assert (W1 : wf k1) by (by eapply keeps_alloc_process, Ea).
  assert (Hn : a ∉ process_list k1 ++ reap_queue k1) by (injection Ea as <- <-; exact (new_address k W)). clear Ea W.
  unfold mbind at 1, St_bind at 1. destruct (in_tree _ k1) as [[[] k2]| |] eqn:E2; [|done..].
  assert (W2 := keeps_in_tree _ _ _ _ W1 E2). apply in_tree_procs in E2 as (_ & L2 & R2). rewrite <-L2, <-R2 in Hn.
  unfold in_tree, mbind, St_bind, gets. cbn. unfold set. cbn. destruct (procs k2 !! a) as [p|] eqn:Ha; [|done]. intros [= <- <-].
  apply (join_list_wf a (with_procs (<[a := with_tree_entry (root (process_tree k2)) p]> (procs k2)) (with_process_tree (process_tree k2) k2)));
    [|done|cbn; rewrite lookup_insert_eq; by eexists].
  refine (same_wf NULL (with_process_tree _ k2) _ a p Ha (with_tree_entry _ p) _); [by destruct W2|by split_and!].
Qed.
#[local] Hint Resolve keeps_spawn_init : keeps.

Lemma keeps_tasking_start : keeps (tasking_start cpu).
Proof using. unfold tasking_start. keeps_solve. Qed.

Lemma keeps_ap_main : keeps (ap_main cpu).
Proof using. unfold ap_main. keeps_solve. Qed.

Lemma keeps_fork : keeps (fork cpu).
Proof using. unfold fork. keeps_solve. Qed.

Lemma keeps_clone : keeps (clone cpu).
Proof using. unfold clone. keeps_solve. Qed.

Lemma keeps_spawn_worker_thread : keeps (spawn_worker_thread cpu).
Proof using.
  unfold spawn_worker_thread. do 3 (apply keeps_bind; [auto with keeps|intros ?]). apply keeps_add_process; keeps_solve.
Qed.

(** The nodes' functions only add to the waits of the process, and checking changes nothing. *)
Definition registers (a : Z) (k k' : kernel) : Prop := k' = k ∨ ∃ p ws v,
  procs k !! a = Some p ∧ node_waits p = Some ws ∧
  k' = with_procs (<[a := with_node_waits (Some (ws ++ [v])) p]> (procs k)) k.

Context (selectcheck : Z → St kernel Z) (selectwait : Z → Z → St kernel Z).
Context (Hcheck : ∀ n k r k', selectcheck n k = Done (r, k') → k' = k).
Context (Hwait : ∀ n a k r k', selectwait n a k = Done (r, k') → registers a k k').

(** Waiting on nodes with the timeout yet to be set. *)
Definition wf_waiting (a : Z) (k : kernel) : Prop := ∃ p ws, procs k !! a = Some p ∧ node_waits p = Some ws ∧
  a ∈ process_list k ∧ wf (with_procs (<[a := with_timeout_node NULL p]> (procs k)) k).

Lemma wf_waiting_start a p k : wf k → procs k !! a = Some p → a ∈ process_list k →
  wf_waiting a (with_procs (<[a := with_node_waits (Some []) p]> (procs k)) k).
Proof using.
  intros W Ha Hl. exists (with_node_waits (Some []) p), []. cbn. split_and!; [apply lookup_insert_eq|done|done|].
  rewrite insert_insert_eq. destruct W as [P R Q O S T F].
  split; cbn; eauto 6 using list_same, ready_same, wait_same, owner_same, sleep_same, timed_same, fswait_same.
Qed.

Lemma wf_waiting_registers a k k' : wf_waiting a k → registers a k k' → wf_waiting a k'.
Proof using.
  intros (p & ws & Ha & Hw & Hl & W) [->|(p' & ws' & v & Hp' & Hws' & ->)]; [by exists p, ws|]. assert (p' = p) as -> by congruence.
  assert (ws' = ws) as -> by congruence. clear Hp' Hws'.
  exists (with_node_waits (Some (ws ++ [v])) p), (ws ++ [v]). cbn. split_and!; [apply lookup_insert_eq|done|done|].
  rewrite insert_insert_eq. destruct W as [P R Q O S T F]. set (p0 := with_timeout_node NULL p) in *.
  assert (H0 : <[a := p0]> (procs k) !! a = Some p0) by apply lookup_insert_eq.
  set (p1 := with_timeout_node NULL (with_node_waits (Some (ws ++ [v])) p)).
  rewrite <-(insert_insert_eq _ a p1 p0).
  split; cbn in *; eauto 6 using list_same, ready_same, wait_same, owner_same, sleep_same, timed_same, fswait_same.
Qed.

Lemma wf_waiting_timeout a timeout now k k' : wf_waiting a k → process_timeout_sleep a timeout now k = Done (tt, k') → wf k'.
Proof using.
  intros (p & ws & Ha & Hw & Hl & W). unfold process_timeout_sleep. destruct (relative_time _ _ _ _) as [t u].
  destruct (add_sleeper_run NULL _ (Sleeper t u a 1) W) as (s & l1 & l2 & Hs & Hn & Hq & Hnew & Hins & Hsort & _).
  cbn [sleepers sleep_queue with_procs end_tick end_subtick] in *. rewrite (St_bind_done _ _ _ _ _ (Hnew k eq_refl)).
  set (k1 := with_sleep _ _ k). set (p1 := with_node_waits (Some (ws ++ [s])) p). set (k2 := with_procs (<[a := p1]> (procs k)) k1).
  assert (Hnw : node_wait a s k1 = Done (tt, k2)).
  { unfold node_wait. rewrite (St_bind_done _ _ _ _ _ (proc_run k1 a p Ha)), Hw. by apply (set_run k1). }
  rewrite (St_bind_done _ _ _ _ _ Hnw). erewrite St_bind_done by reflexivity. change (sleep_queue k2) with (sleep_queue k).
  rewrite (St_bind_done _ _ _ _ _ (Hins k2 eq_refl)). erewrite St_bind_done by reflexivity.
  erewrite set_run by apply lookup_insert_eq. cbn [procs with_procs with_sleep k2 k1]. rewrite insert_insert_eq. intros [= <-].
  destruct W as [P R Q O S T F]. cbn [procs process_queue queues sleep_queue sleepers process_list reap_queue with_procs] in *.
  set (p0 := with_timeout_node NULL p) in *. set (p2 := with_timeout_node s p1).
  assert (H0 : <[a := p0]> (procs k) !! a = Some p0) by apply lookup_insert_eq.
  assert (Hp : Permutation (l1 ++ s :: l2) (s :: sleep_queue k)) by (by rewrite Hq, Permutation_middle).
  rewrite <-(insert_insert_eq _ a p2 p0).
  split; cbn [procs process_queue queues sleep_queue sleepers process_list reap_queue with_procs with_sleep];
    [by apply list_same|by eapply ready_same|by eapply wait_same; eauto|by eapply owner_same; eauto| | |].
  - eapply (sleep_add _ _ _ _ _ _ Hp Hsort Hs NULL p2); [eapply sleep_same; eauto|done|done|done].
  - eapply timed_add; [exact Hp|done|]. eapply timed_same; eauto.
  - intros b q vs [[-> ->]|[Hne Hb]]%insert_cases Hv Ht.
    + cbn in Hv. injection Hv as <-. cbn. split_and!; [rewrite Hp; by left|apply elem_of_app; right; by left|done|].
      rewrite lookup_insert_eq. by eexists.
    + eapply fswait_add; [exact Hp|done|exact F|exact Hb|done|done].
Qed.

Lemma process_wait_nodes_wf fuel a nodes timeout now k r k' : wf k → a ∈ process_list k →
  process_wait_nodes cpu selectcheck selectwait fuel a nodes timeout now k = Done (r, k') → wf k'.
Proof using Hcheck Hwait.
  intros W Hl. unfold process_wait_nodes.
  assert (Hc : ∀ ns i k r k', check_nodes selectcheck ns i k = Done (r, k') → k' = k).
  { intros ns. clear -Hcheck. induction ns as [|n ns IH]; intros i k r k'; cbn [check_nodes]; [by intros [= _ <-]|].
    unfold mbind, St_bind. destruct (selectcheck n k) as [[v k1]| |] eqn:E; [|done..]. apply Hcheck in E as ->.
    destruct (v <? 0); [by intros [= _ <-]|]. destruct (v =? 0); [by intros [= _ <-]|apply IH]. }
  assert (Hw : ∀ ns k u k', wf_waiting a k → wait_nodes selectwait ns a k = Done (u, k') → wf_waiting a k').
  { intros ns. clear -Hwait. induction ns as [|n ns IH]; intros k u k'; cbn [wait_nodes]; [by intros ? [= _ <-]|].
    unfold mbind, St_bind. destruct (selectwait n a k) as [[v k1]| |] eqn:E; [|done..]. intros H. apply IH.
    by eapply wf_waiting_registers, Hwait. }
  unfold mbind at 1, St_bind at 1. destruct (check_nodes selectcheck nodes 0 k) as [[[v|i] k1]| |] eqn:E; [| |done..];
    apply Hc in E as ->; [by intros [= _ <-]|]. destruct (timeout =? 0); [by intros [= _ <-]|].
  unfold mbind at 1, St_bind at 1. unfold set at 1. destruct (procs k !! a) as [p|] eqn:Ha; [|done].
  assert (W1 := wf_waiting_start a p k W Ha Hl). set (k1 := with_procs _ k) in *. unfold mbind at 1, St_bind at 1.
  destruct (wait_nodes selectwait nodes a k1) as [[[] k2]| |] eqn:E; [|done..]. apply Hw in E; [|done]. clear W1 k1.
  assert (Hrest : ∀ k3, wf k3 → (set a (with_awoken_index (-1));; switch_task cpu fuel false;; mret None) k3 = Done (r, k') → wf k').
  { intros k3 W3 H3. assert (K : keeps (set a (with_awoken_index (-1));; switch_task cpu fuel false;; mret (@None Z))) by keeps_solve.
    by eapply K. }
  unfold mbind at 1, St_bind at 1. destruct (0 <? timeout).
  - destruct (process_timeout_sleep a timeout now k2) as [[[] k3]| |] eqn:E3; [|done..]. apply Hrest. by eapply wf_waiting_timeout.
  - destruct E as (p2 & ws & Ha2 & _ & _ & W2). rewrite (set_run _ _ _ _ Ha2). by apply Hrest.
Qed.
End ops.
