(* ===== verification/ProcessTree.v ===== *)
(** * Children: reaping and waiting

    The process tree of Process as a tree of KTree, [process_delete] and the queue of
    processes to reap, and [waitpid]. *)
From S2P Require Import Prelude KTree Process ProcessQueues ProcessWait Scheduler.
Local Open Scope Z_scope.

(** The tree has a node for each valid process, and no other. *)
Record tree_ok (k : kernel) : Prop := {
  to_tree : KTree.wf (process_tree k);
  to_entry : ∀ a p, a ∈ process_list k → procs k !! a = Some p →
    ∃ n, heap (process_tree k) !! tree_entry p = Some n ∧ value n = a;
  to_node : ∀ e n, heap (process_tree k) !! e = Some n → value n ≠ NULL ∧ value n ∈ process_list k ∧
    ∃ p, procs k !! value n = Some p ∧ tree_entry p = e
}.

(** A process that has ended is in no queue: it ended while it ran. *)
Definition idle (p : process) : Prop := sched_queued p = false ∧ sleep_owner p = NULL ∧ node_waits p = None.

Section tree.
Context `{M : !Malloc}.
Context (cpu : Z).

(** ** Reaping *)

Lemma delete_process_wf k a p rl : wf k → procs k !! a = Some p → idle p →
  NoDup (process_list k ++ rl) → (∀ b, b ∈ process_list k ++ rl → b ∈ process_list k ++ reap_queue k ∧ b ≠ a) →
  wf (with_procs (delete a (procs k)) (with_reap_queue rl k)).
Proof using.
  intros [[_ P] R Q O S T F] Ha (H1 & H2 & H3) Nl Hl.
  assert (E : ∀ (X : process → Prop) b, ¬ X p → (∃ q, delete a (procs k) !! b = Some q ∧ X q) ↔ ∃ q, procs k !! b = Some q ∧ X q).
  { intros X b HX. destruct (decide (b = a)) as [->|Hne]; [rewrite lookup_delete_eq, Ha|by rewrite lookup_delete_ne].
    split; [by intros (q & ? & _)|by intros (q & [= <-] & ?)]. }
  split; cbn [procs process_queue queues sleep_queue sleepers process_list reap_queue with_procs with_reap_queue].
  - split; [done|]. intros b Hb. destruct (Hl b Hb) as [? ?]. rewrite lookup_delete_ne by done. by apply P.
  - destruct R as [? R]. split; [done|]. intros b. rewrite R, E; [done|congruence].
  - intros q l Hq. destruct (Q q l Hq) as (? & ? & ? & Hin). split_and!; try done. intros b. rewrite Hin, E; [done|congruence].
  - intros b q [_ Hb]%lookup_delete_Some. by apply (O b).
  - destruct S as (? & ? & S). split_and!; [done|done|]. intros s Hs. destruct (S s Hs) as (? & x & ? & Hn). split; [done|].
    exists x. split; [done|]. intros Hse. destruct (Hn Hse) as [? Hy]. split; [done|]. intros Hf. rewrite E; [by apply Hy|].
    rewrite H2. by intros [].
  - intros b q [_ Hb]%lookup_delete_Some. by apply T.
  - intros b q ws [_ Hb]%lookup_delete_Some Hw. by apply F.
Qed.

(** The processes that no processor uses leave the head of the queue. *)
Lemma reap_unowned_run l k : wf k → reap_queue k = l → (∀ a p, a ∈ l → procs k !! a = Some p → idle p) →
  ∃ l1 l2 k', l = l1 ++ l2 ∧ reap_unowned l k = Done (tt, k') ∧ wf k' ∧
    k' = with_procs (foldl (λ m a, delete a m) (procs k) l1) (with_reap_queue l2 k) ∧
    (∀ a, a ∈ l1 → process_is_owned a k = false) ∧ (∀ a, head l2 = Some a → process_is_owned a k = true).
Proof using.
  revert k. induction l as [|a l IH]; intros k W Hl Hidle.
  { exists [], [], k. split_and!; [done|done|done|by destruct k; cbn in *; subst|by intros ? ?%elem_of_nil|done]. }
  cbn [reap_unowned]. erewrite St_bind_done by reflexivity. destruct (process_is_owned a k) eqn:E; cbn [negb].
  { exists [], (a :: l), k. split_and!; [done|done|done|by destruct k; cbn in *; subst|by intros ? ?%elem_of_nil|].
    intros b [= <-]. done. }
  assert (Hin : a ∈ process_list k ++ reap_queue k) by (rewrite Hl; apply elem_of_app; right; by left).
  destruct (ws_list _ _ W) as [N P]. destruct (P a Hin) as [p Ha]. rewrite Hl in N.
  assert (Ip := Hidle a p (list_elem_of_here _ _) Ha).
  set (k1 := with_procs (delete a (procs k)) (with_reap_queue l k)).
  assert (Hal : a ∉ process_list k ++ l ∧ NoDup (process_list k ++ l)).
  { rewrite <-Permutation_middle in N. by apply NoDup_cons in N. }
  assert (W1 : wf k1).
  { eapply delete_process_wf; [done|done|done|apply Hal|]. intros b Hb. split.
    - rewrite Hl. apply elem_of_app in Hb as [?|?]; apply elem_of_app; [by left|right; by right].
    - intros ->. by destruct Hal. }
  erewrite St_bind_done by reflexivity. rewrite Hl. cbn [tail].
  assert (Hreap : process_reap a (with_reap_queue l k) = Done (tt, k1)).
  { unfold process_reap. by rewrite (St_bind_done _ _ _ _ _ (proc_run (with_reap_queue l k) a p Ha)). }
  rewrite (St_bind_done _ _ _ _ _ Hreap).
  destruct (IH k1 W1 eq_refl) as (l1 & l2 & k' & -> & Hrun & W' & -> & H1 & H2).
  { intros b q Hb Hq. change (delete a (procs k) !! b = Some q) in Hq. apply lookup_delete_Some in Hq as [Hne Hq]. apply (Hidle b); [by right|done]. }
  exists (a :: l1), l2. eexists. split_and!; [done|exact Hrun|done|done| |exact H2].
  intros b [->|Hb]%elem_of_cons; [done|]. by apply (H1 b).
Qed.

(** [free] of a dead process now, or later when another processor is on its stack. *)
Lemma reap_run k a p : wf k → procs k !! a = Some p → idle p → a ∉ process_list k ++ reap_queue k →
  (∀ b q, b ∈ reap_queue k → procs k !! b = Some q → idle q) →
  ∃ k', (used ← gets (used_elsewhere cpu a); if used : bool then process_reap_later a else process_reap a) k = Done (tt, k') ∧ wf k' ∧
    process_list k' = process_list k ∧ process_tree k' = process_tree k ∧ cores k' = cores k ∧ next_pid k' = next_pid k ∧
    queues k' = queues k ∧ process_queue k' = process_queue k ∧ sleep_queue k' = sleep_queue k ∧
    (∀ b, b ∉ reap_queue k → b ≠ a → procs k' !! b = procs k !! b) ∧
    (if used_elsewhere cpu a k then a ∈ reap_queue k' else procs k' !! a = None).
Proof using.
  intros W Ha Ip Hn Hidle. assert (Hn' := Hn). rewrite not_elem_of_app in Hn. destruct Hn as [Hnl Hnr].
  destruct (ws_list _ _ W) as [N P].
  erewrite St_bind_done by reflexivity. destruct (used_elsewhere cpu a k) eqn:E.
  - unfold process_reap_later. erewrite St_bind_done by reflexivity.
    destruct (reap_unowned_run (reap_queue k) k W eq_refl Hidle) as (l1 & l2 & k1 & Hl & Hrun & W1 & -> & _ & _).
    set (k1 := with_procs _ _) in *. rewrite (St_bind_done _ _ _ _ _ Hrun). eexists. split; [reflexivity|].
    assert (Hdel : ∀ b l (m : gmap Z process), b ∉ l → foldl (λ m a, delete a m) m l !! b = m !! b).
    { intros b l. induction l as [|d l IH]; intros m Hb; [done|]. apply not_elem_of_cons in Hb as [Hbd Hb]. cbn.
      by rewrite IH, lookup_delete_ne. }
    rewrite Hl in Hnr. apply not_elem_of_app in Hnr as [Hn1 Hn2].
    split_and!; try done; [|by intros b Hb _; apply Hdel; rewrite Hl in Hb; apply not_elem_of_app in Hb as [? ?]|apply elem_of_app; right; by left].
    destruct W1 as [[N1 P1] R Q O S T F].
    split; cbn [procs process_queue queues sleep_queue sleepers process_list reap_queue with_reap_queue with_procs k1] in *; try done.
    assert (Hperm : Permutation (process_list k ++ l2 ++ [a]) (a :: process_list k ++ l2)).
    { rewrite app_assoc, Permutation_app_comm. done. }
    split.
    + rewrite Hperm. constructor; [|done]. by apply not_elem_of_app.
    + intros b Hb. rewrite Hperm in Hb. apply elem_of_cons in Hb as [->|Hb]; [|by apply P1]. rewrite Hdel by done. by exists p.
  - unfold process_reap. rewrite (St_bind_done _ _ _ _ _ (proc_run k a p Ha)). eexists. split; [reflexivity|].
    split_and!; try done; [|intros b _ Hb; by apply lookup_delete_ne|apply lookup_delete_eq].
    assert (W1 := delete_process_wf k a p (reap_queue k) W Ha Ip N). destruct k. apply W1. intros b Hb. split; [done|].
    by intros ->.
Qed.

(** ** [process_delete] *)

Lemma wake_up_entry b p : tree_entry (wake_up b p) = tree_entry p ∧ id (wake_up b p) = id p.
Proof using. unfold wake_up. by repeat case_match. Qed.

(** The process leaves the process list. *)
Lemma unlist_wf k a p : wf k → procs k !! a = Some p → idle p → wf (with_process_list (remove_first a (process_list k)) k).
Proof using.
  intros [[N P] R Q O S T F] Ha (_ & _ & H3).
  split; cbn [procs process_queue queues sleep_queue sleepers process_list reap_queue with_process_list]; try done.
  - split.
    + apply NoDup_app in N as (N1 & N2 & N3). apply NoDup_app. split_and!; [by apply remove_first_nodup| |done].
      intros b [Hb _]%remove_first_elem; [|done]. by apply N2.
    + intros b Hb. apply P. apply NoDup_app in N as (N1 & _). apply elem_of_app in Hb as [Hb|Hb]; apply elem_of_app; [|by right].
      apply remove_first_elem in Hb as [? _]; [by left|done].
  - intros b q ws Hb Hw Ht. destruct (F b q ws Hb Hw Ht) as (? & ? & ? & ?). split_and!; try done.
    apply NoDup_app in N as (N1 & _). apply remove_first_elem; [done|]. split; [done|]. intros ->. congruence.
Qed.

(** The process tree when [a], whose node is [n], has left the tree and the list. *)
Lemma unlinked_tree k a p n k' : tree_ok k → NoDup (process_list k) → a ∈ process_list k → procs k !! a = Some p →
  heap (process_tree k) !! tree_entry p = Some n → KTree.wf (process_tree k') →
  (∀ e, heap (process_tree k') !! e = spliced (heap (process_tree k)) (parent n) (tree_entry p) (root (process_tree k)) n e) →
  process_list k' = remove_first a (process_list k) →
  (∀ b q, b ≠ a → b ∈ process_list k → procs k !! b = Some q → ∃ q', procs k' !! b = Some q' ∧ tree_entry q' = tree_entry q) →
  (∀ b, b ∈ process_list k → is_Some (procs k !! b)) → tree_ok k'.
Proof using.
  intros [TW TE TN] N1 Hal Ha Hn TW' Hsp EL Hpr PL. split; [done| |].
  - intros b q'. rewrite EL, Hsp. intros [Hbl Hb]%remove_first_elem Hq'; [|done].
    destruct (PL b Hbl) as [q Hq]. destruct (Hpr b q Hb Hbl Hq) as (q2 & Hq2 & He). simplify_eq. rewrite He.
    destruct (TE b q Hbl Hq) as (m & Hm & Hv).
    destruct (spliced_intro (heap (process_tree k)) (parent n) (tree_entry p) (root (process_tree k)) n _ m Hm) as (m' & Hm' & Hv' & _).
    + intros E. rewrite E in Hm. assert (m = n) as -> by congruence. destruct (TE a p Hal Ha) as (n' & Hn' & Hva). congruence.
    + exists m'. split; [done|congruence].
  - intros e n'. rewrite EL, Hsp. intros Hn'. destruct (spliced_Some _ _ _ _ _ _ _ Hn') as (Hne & m & Hm & _).
    destruct (spliced_intro (heap (process_tree k)) (parent n) (tree_entry p) (root (process_tree k)) n _ m Hm Hne) as (m' & Hm' & Hv' & _).
    assert (m' = n') as -> by congruence. rewrite Hv'. destruct (TN e m Hm) as (H0 & Hml & q & Hq & Hqe).
    assert (Hma : value m ≠ a) by (intros E; rewrite E in Hq; congruence).
    destruct (Hpr _ q Hma Hml Hq) as (q' & Hq' & He'). split_and!; [done|by apply remove_first_elem|]. exists q'. split; [done|congruence].
Qed.

(** What is left of the tree and of the processes when [a], whose node is [n], is gone. *)
Record deleted (a : Z) (p : process) (n : tree_node_t) (woken : list Z) (k k' : kernel) : Prop := {
  dl_wf : wf k';
  dl_tree : tree_ok k';
  dl_list : process_list k' = remove_first a (process_list k);
  dl_nodes : root (process_tree k') = root (process_tree k) ∧
    ∀ e, heap (process_tree k') !! e = spliced (heap (process_tree k)) (parent n) (tree_entry p) (root (process_tree k)) n e;
  dl_procs : ∀ b, b ≠ a → b ∈ process_list k →
    procs k' !! b = if bool_decide (b ∈ woken) then wake_up false <$> procs k !! b else procs k !! b;
  dl_gone : if used_elsewhere cpu a k then a ∈ reap_queue k' else procs k' !! a = None;
  dl_cores : cores k' = cores k;
  dl_pid : next_pid k' = next_pid k
}.

Lemma process_delete_run fuel k c a p n r init pi ql : wf k → tree_ok k → cores k !! cpu = Some c → current_process c ≠ a →
  a ∈ process_list k → procs k !! a = Some p → idle p →
  heap (process_tree k) !! tree_entry p = Some n → tree_entry p ≠ root (process_tree k) →
  heap (process_tree k) !! root (process_tree k) = Some r → value r = init → procs k !! init = Some pi →
  queues k !! wait_queue pi = Some ql → (length ql < fuel)%nat → Z.of_nat (length (children n)) < 2 ^ 31 →
  (∀ b q, b ∈ reap_queue k → procs k !! b = Some q → idle q) →
  ∃ k', process_delete cpu fuel a k = Done (tt, k') ∧
    deleted a p n (if bool_decide (children n = []) then [] else ql) k k'.
Proof using.
  intros W [TW TE TN] Hc Hca Hal Ha Ip Hn Hroot Hr Hinit Hpi Hql Hfuel Hlen Hreap.
  destruct (tree_remove_reparent_root_spec _ _ _ TW Hn Hroot) as (t' & Htree & TW' & Hroot' & _ & Hsp).
  set (k1 := with_process_tree t' k). set (k2 := with_process_list (remove_first a (process_list k)) k1).
  assert (W1 : wf k1) by (by destruct W). assert (W2 : wf k2) by exact (unlist_wf k1 a p W1 Ha Ip).
  destruct (ws_list _ _ W) as [NL PL]. assert (NL' := NL). apply NoDup_app in NL as (N1 & N2 & N3).
  assert (Haql : a ∉ ql).
  { intros Hin. destruct (ws_wait _ _ W _ _ Hql) as (Hq0 & _ & _ & Hin'). apply Hin' in Hin as (p' & Hp' & Ho).
    destruct Ip as (_ & Ho' & _). congruence. }
  set (woken := if bool_decide (children n = []) then [] else ql).
  (* the new parent is told *)
  assert (H3 : ∃ k3, (if negb (i32 (Z.of_nat (length (children n))) =? 0) then
       m ← in_tree (KTree.rd (root (process_tree k))); init ← proc (value m); wakeup_queue fuel (wait_queue init);; mret tt
     else mret tt) k2 = Done (tt, k3) ∧ wf k3 ∧ same_rest k2 k3 ∧
     ∀ b, procs k3 !! b = (if bool_decide (b ∈ woken) then wake_up false <$> procs k !! b else procs k !! b)).
  { subst woken. destruct (children n) as [|ch chs] eqn:Ech; cbn [length negb].
    { exists k2. split_and!; [done|done|done|]. intros b.
      rewrite (bool_decide_eq_true_2 (@nil Z = [])) by done. by rewrite bool_decide_eq_false_2 by apply not_elem_of_nil. }
    rewrite i32_small by (cbn [length] in Hlen; lia). rewrite (proj2 (Z.eqb_neq _ 0)) by lia. cbn [negb]. rewrite (bool_decide_eq_false_2 (ch :: chs = [])) by done.
    destruct (wakeup_loop_run fuel false (wait_queue pi) ql 0 k2 W2 Hql Hfuel eq_refl) as (k3 & Hrun & []).
    exists k3. split_and!; [|done|done|done].
    assert (Hrd : ∃ m, in_tree (KTree.rd (root (process_tree k))) k2 = Done (m, k2) ∧ value m = init).
    { destruct (spliced_intro (heap (process_tree k)) (parent n) (tree_entry p) (root (process_tree k)) n _ r Hr (not_eq_sym Hroot))
        as (m & Hm & Hv & _). rewrite <-Hsp in Hm. exists m. unfold in_tree. change (process_tree k2) with t'. rewrite (rd_eq _ _ _ Hm). split; [done|congruence]. }
    destruct Hrd as (m & Hrd & Hm). rewrite (St_bind_done _ _ _ _ _ Hrd), Hm.
    rewrite (St_bind_done _ _ _ _ _ (proc_run k2 init pi Hpi)). unfold wakeup_queue. by rewrite (St_bind_done _ _ _ _ _ Hrun). }
  destruct H3 as (k3 & Hwake & W3 & [L3 T3 R3 C3 P3] & Hp3). cbn in L3, T3, R3, C3, P3.
  assert (Ha3 : procs k3 !! a = Some p).
  { rewrite Hp3, bool_decide_eq_false_2; [done|]. subst woken. case_bool_decide; [apply not_elem_of_nil|done]. }
  set (p4 := with_tree_entry NULL p). set (k4 := with_procs (<[a := p4]> (procs k3)) k3).
  assert (W4 : wf k4) by (apply (same_wf NULL k3 W3 a p Ha3 p4); by split_and!).
  assert (Hna : a ∉ process_list k4 ++ reap_queue k4).
  { cbn. rewrite L3, R3, not_elem_of_app. split; [|by apply N2]. rewrite remove_first_elem by done. by intros [_ ?]. }
  destruct (reap_run k4 a p4 W4 (lookup_insert_eq _ _ _) Ip Hna) as
    (k' & Hrun & W' & EL & ET & EC & EP & EQ & ERQ & ESQ & Hother & Hgone).
  { intros b q Hb Hq. cbn in Hb, Hq. rewrite R3 in Hb. rewrite lookup_insert_ne in Hq; [|intros ->; by apply (N2 b)].
    rewrite Hp3 in Hq. case_bool_decide as Hbw; [|by apply (Hreap b)].
    exfalso. assert (Hbq : b ∈ ql) by (subst woken; case_bool_decide; [by apply not_elem_of_nil in Hbw|done]).
    destruct (ws_wait _ _ W _ _ Hql) as (Hq0 & _ & _ & Hin'). apply Hin' in Hbq as (p' & Hp' & Ho).
    destruct (Hreap b p' Hb Hp') as (_ & ? & _). congruence. }
  exists k'. split.
  { unfold process_delete, current, this_core.
    erewrite St_bind_done by (erewrite St_bind_done by (by rewrite Hc); reflexivity).
    rewrite (proj2 (Z.eqb_neq _ _) (not_eq_sym Hca)), (St_bind_done _ _ _ _ _ (proc_run k a p Ha)).
    assert (He0 : tree_entry p ≠ NULL) by (intros E; rewrite E, (wf_null _ TW) in Hn; done).
    rewrite (proj2 (Z.eqb_neq _ _) He0).
    assert (Hg : in_tree (gets root) k = Done (root (process_tree k), k)) by (unfold in_tree; cbn; by destruct k).
    rewrite (St_bind_done _ _ _ _ _ Hg), (proj2 (Z.eqb_neq _ _) (not_eq_sym Hroot)).
    assert (Hrd : in_tree (KTree.rd (tree_entry p)) k = Done (n, k)) by (unfold in_tree; rewrite (rd_eq _ _ _ Hn); by destruct k).
    rewrite (St_bind_done _ _ _ _ _ Hrd). cbv zeta.
    assert (Hrem : in_tree (tree_remove_reparent_root (tree_entry p)) k = Done (tt, k1)) by (unfold in_tree; by rewrite Htree).
    rewrite (St_bind_done _ _ _ _ _ Hrem). erewrite St_bind_done by reflexivity. change (process_list k1) with (process_list k).
    rewrite bool_decide_eq_true_2 by done. erewrite St_bind_done by reflexivity. fold k2.
    rewrite (St_bind_done _ _ _ _ _ Hwake), (St_bind_done _ _ _ _ _ (set_run _ _ _ _ Ha3)). exact Hrun. }
  assert (Hin4 : ∀ b, b ≠ a → b ∈ process_list k → procs k' !! b = procs k3 !! b).
  { intros b Hb Hbl. rewrite Hother; [by apply lookup_insert_ne| |done]. cbn. rewrite R3. by apply N2. }
  split; [done| |by rewrite EL; cbn; rewrite L3|by rewrite ET; cbn; rewrite T3| | |by rewrite EC; cbn; rewrite C3|by rewrite EP; cbn; rewrite P3].
  - eapply unlinked_tree; [by split|done|exact Hal|exact Ha|exact Hn|by rewrite ET; cbn; rewrite T3|by rewrite ET; cbn; rewrite T3|
      by rewrite EL; cbn; rewrite L3| |intros b Hb; apply PL, elem_of_app; by left].
    intros b q Hb Hbl Hq. rewrite Hin4, Hp3, Hq by done. case_bool_decide; [|by exists q].
    exists (wake_up false q). split; [done|apply wake_up_entry].
  - intros b Hb Hbl. by rewrite Hin4, Hp3.
  - assert (E : used_elsewhere cpu a k4 = used_elsewhere cpu a k) by (unfold used_elsewhere; cbn; by rewrite C3). by rewrite <-E.
Qed.

(** ** [waitpid] *)

(** The nodes [cs] are those of the processes [l]. *)
Definition nodes_of (k : kernel) (cs : list Z) (l : list (Z * process)) : Prop :=
  Forall2 (λ c x, ∃ m, heap (process_tree k) !! c = Some m ∧ value m = x.1 ∧ x.1 ≠ NULL ∧ procs k !! x.1 = Some x.2) cs l.
Definition procs_of (k : kernel) (cs : list Z) (l : list (Z * process)) : Prop :=
  Forall2 (λ c x, c = x.1 ∧ procs k !! c = Some x.2) cs l.

(** The processes of a list that match, and the first of them to report. *)
Definition some_match (par : process) (pid options : Z) (l : list (Z * process)) : bool :=
  existsb (λ x, wait_candidate par pid options x.2) l.
Definition first_report (par : process) (pid options : Z) (report : process → bool) (l : list (Z * process)) : option (Z * process) :=
  List.find (λ x, wait_candidate par pid options x.2 && report x.2) l.

Lemma nodes_of_lookup k cs l x : nodes_of k cs l → x ∈ l → procs k !! x.1 = Some x.2.
Proof using. intros H. revert x. apply Forall_forall. eapply Forall2_Forall_r; [exact H|]. apply Forall_forall. by intros c _ y (m & _ & _ & _ & ?). Qed.
Lemma procs_of_lookup k cs l x : procs_of k cs l → x ∈ l → procs k !! x.1 = Some x.2.
Proof using. intros H. revert x. apply Forall_forall. eapply Forall2_Forall_r; [exact H|]. apply Forall_forall. by intros c _ y [<- ?]. Qed.

Lemma nodes_of_tree k n : tree_ok k → (∀ c, c ∈ children n → is_Some (heap (process_tree k) !! c)) → ∃ l, nodes_of k (children n) l.
Proof using.
  intros [_ _ TN] Hc. induction (children n) as [|c cs IH]; [exists []; constructor|].
  destruct IH as [l Hl]; [intros d Hd; apply Hc; by right|]. destruct (Hc c) as [m Hm]; [by left|].
  destruct (TN c m Hm) as (H0 & _ & p & Hp & _). exists ((value m, p) :: l). constructor; [by exists m|done].
Qed.

Lemma scan_children_run par pid options cs l m k : nodes_of k cs l →
  scan_children par pid options cs m k =
  Done ((m || some_match par pid options l, fst <$> first_report par pid options (reportable options) l), k).
Proof using.
  intros H. revert m. induction H as [|c [b p] cs l (n & Hn & Hv & H0 & Hp) _ IH]; intros m; [by rewrite orb_false_r|].
  cbn [fst snd] in *. subst b. cbn [scan_children].
  assert (Hrd : in_tree (KTree.rd c) k = Done (n, k)) by (unfold in_tree; rewrite (rd_eq _ _ _ Hn); by destruct k).
  rewrite (St_bind_done _ _ _ _ _ Hrd), (proj2 (Z.eqb_neq _ _) H0), (St_bind_done _ _ _ _ _ (proc_run k _ p Hp)).
  unfold some_match, first_report. cbn [existsb List.find snd]. destruct (wait_candidate par pid options p); cbn [andb orb].
  - destruct (reportable options p); [by rewrite orb_true_r|]. rewrite IH. by rewrite orb_true_r.
  - apply IH.
Qed.

Lemma scan_tracees_run par pid options cs l m k : procs_of k cs l →
  scan_tracees par pid options cs m k =
  Done ((m || some_match par pid options l,
    fst <$> first_report par pid options (λ p, has p (Z.lor PROC_FLAG_SUSPENDED PROC_FLAG_FINISHED)) l), k).
Proof using.
  intros H. revert m. induction H as [|c [b p] cs l [Hc Hp] _ IH]; intros m; [by rewrite orb_false_r|].
  cbn [fst snd] in *. subst b. cbn [scan_tracees]. rewrite (St_bind_done _ _ _ _ _ (proc_run k _ p Hp)).
  unfold some_match, first_report. cbn [existsb List.find snd]. destruct (wait_candidate par pid options p); cbn [andb orb].
  - destruct (has p _); [by rewrite orb_true_r|]. rewrite IH. by rewrite orb_true_r.
  - apply IH.
Qed.

Lemma find_match par pid options report l x : first_report par pid options report l = Some x → some_match par pid options l = true ∧ x ∈ l.
Proof using.
  unfold first_report. intros H. apply List.find_some in H as [Hin H]. apply andb_prop in H as [H _]. split.
  - apply existsb_exists. by exists x.
  - by apply list_elem_of_In.
Qed.

(** What a round of [waitpid] answers. *)
Definition wait_report (par : process) (pid options : Z) (kids trs : list (Z * process)) : option (Z * process) :=
  match first_report par pid options (reportable options) kids with
  | Some x => Some x
  | None => first_report par pid options (λ p, has p (Z.lor PROC_FLAG_SUSPENDED PROC_FLAG_FINISHED)) trs
  end.

(** Its status is handed over. *)
Definition reported (p : process) : process := with_status (Z.ldiff (status p) 0xFF) p.

Lemma waitpid_round_run fuel k c par pn pid options kids trs : cores k !! cpu = Some c →
  procs k !! current_process c = Some par → heap (process_tree k) !! tree_entry par = Some pn →
  nodes_of k (children pn) kids → procs_of k (default [] (tracees par)) trs →
  waitpid_round cpu fuel pid options k =
  if negb (some_match par pid options (kids ++ trs)) then Done (Returned (- ECHILD) None, k)
  else match wait_report par pid options kids trs with
  | None => if negb (Z.land options WNOHANG =? 0) then Done (Returned 0 None, k)
            else (sleep_on_unlocking cpu fuel (wait_queue par);; mret Sleeping) k
  | Some (b, p) =>
      let k1 := with_procs (<[b := reported p]> (procs k)) k in
      if some_match par pid options kids && has p PROC_FLAG_FINISHED then
        if has p PROC_FLAG_RUNNING then Timeout
        else (process_delete cpu fuel b;; mret (Returned (id p) (Some (status p)))) k1
      else Done (Returned (id p) (Some (status p)), k1)
  end.
Proof using.
  intros Hc Hpar Hpn Hk Ht. unfold waitpid_round, current, this_core.
  erewrite St_bind_done by (erewrite St_bind_done by (by rewrite Hc); reflexivity).
  rewrite (St_bind_done _ _ _ _ _ (proc_run k _ par Hpar)).
  assert (Hrd : in_tree (KTree.rd (tree_entry par)) k = Done (pn, k)) by (unfold in_tree; rewrite (rd_eq _ _ _ Hpn); by destruct k).
  rewrite (St_bind_done _ _ _ _ _ Hrd), (St_bind_done _ _ _ _ _ (scan_children_run par pid options _ kids false k Hk)). cbn [orb].
  assert (Happ : some_match par pid options (kids ++ trs) = some_match par pid options kids || some_match par pid options trs)
    by (unfold some_match; apply existsb_app).
  set (im := some_match par pid options kids) in *.
  set (f1 := first_report par pid options (reportable options) kids).
  assert (Hscan : (match fst <$> f1, tracees par with
      | None, Some l => scan_tracees par pid options l im
      | _, _ => mret (im, fst <$> f1) end) k = Done ((some_match par pid options (kids ++ trs), fst <$> wait_report par pid options kids trs), k)).
  { unfold wait_report. fold f1. rewrite Happ. destruct f1 as [[b p]|] eqn:E; cbn [fmap option_fmap option_map].
    - apply find_match in E as [E _]. fold im in E. by rewrite E.
    - destruct (tracees par) as [l|] eqn:El; cbn [default] in Ht; [by rewrite (scan_tracees_run par pid options l trs im k Ht)|].
      apply Forall2_nil_inv_l in Ht as ->. by rewrite orb_false_r. }
  rewrite (St_bind_done _ _ _ _ _ Hscan). clear Hscan.
  destruct (some_match par pid options (kids ++ trs)); cbn [negb]; [|done].
  destruct (wait_report par pid options kids trs) as [[b p]|] eqn:E; cbn [fmap option_fmap option_map fst];
    [|by destruct (negb (Z.land options WNOHANG =? 0))].
  assert (Hb : procs k !! b = Some p).
  { unfold wait_report in E. fold f1 in E. destruct f1 as [x|] eqn:E1.
    - injection E as ->. apply find_match in E1 as [_ Hin]. exact (nodes_of_lookup k _ kids (b, p) Hk Hin).
    - apply find_match in E as [_ Hin]. exact (procs_of_lookup k _ trs (b, p) Ht Hin). }
  rewrite (St_bind_done _ _ _ _ _ (proc_run k b p Hb)).
  assert (Hset : set b (with_status (Z.ldiff (status p) 255)) k = Done (tt, with_procs (<[b := reported p]> (procs k)) k)) by exact (set_run k b p (with_status (Z.ldiff (status p) 255)) Hb).
  rewrite (St_bind_done _ _ _ _ _ Hset). cbv zeta. destruct (im && has p PROC_FLAG_FINISHED); [|done].
  by destruct (has p PROC_FLAG_RUNNING).
Qed.

(** A child found among the nodes of its parent. *)
Lemma kid_facts k par pn kids b p : tree_ok k → heap (process_tree k) !! tree_entry par = Some pn →
  nodes_of k (children pn) kids → (b, p) ∈ kids →
  b ∈ process_list k ∧ procs k !! b = Some p ∧ tree_entry p ≠ root (process_tree k) ∧ tree_entry p ≠ tree_entry par ∧
  ∃ n, heap (process_tree k) !! tree_entry p = Some n ∧ value n = b ∧ parent n = tree_entry par.
Proof using.
  intros [TW TE TN] Hpn Hk Hin. assert (Hb := nodes_of_lookup k _ kids _ Hk Hin). cbn in Hb.
  assert (Hc : ∃ c m, c ∈ children pn ∧ heap (process_tree k) !! c = Some m ∧ value m = b).
  { apply list_elem_of_lookup in Hin as [i Hi]. destruct (Forall2_lookup_r _ _ _ _ _ Hk Hi) as (c & Hc & m & Hm & Hv & _).
    exists c, m. split_and!; [by eapply list_elem_of_lookup_2|done|done]. }
  destruct Hc as (c & m & Hc & Hm & Hv). destruct (TN c m Hm) as (H0 & Hl & q & Hq & He). rewrite Hv in *. assert (q = p) as -> by congruence.
  subst c. destruct (wf_down _ TW _ _ _ Hpn Hc) as (m' & Hm' & Hp). assert (m' = m) as -> by congruence.
  assert (Hr : tree_entry p ≠ root (process_tree k)).
  { intros E. destruct (wf_root _ TW) as (r & Hr & Hr0). rewrite E in Hm. assert (r = m) as -> by congruence. rewrite Hp in Hr0.
    rewrite Hr0 in Hpn. by rewrite (wf_null _ TW) in Hpn. }
  split_and!; [done|done|done| |by exists m]. rewrite <-Hp. by eapply not_eq_sym, wf_parent_ne.
Qed.

(** A finished child is taken away. *)
Lemma waitpid_reap_run fuel k c par pn pid options kids trs b p r pi ql : wf k → tree_ok k → cores k !! cpu = Some c →
  procs k !! current_process c = Some par → heap (process_tree k) !! tree_entry par = Some pn →
  nodes_of k (children pn) kids → procs_of k (default [] (tracees par)) trs →
  first_report par pid options (reportable options) kids = Some (b, p) →
  has p PROC_FLAG_FINISHED = true → has p PROC_FLAG_RUNNING = false → idle p →
  heap (process_tree k) !! root (process_tree k) = Some r → procs k !! value r = Some pi →
  queues k !! wait_queue pi = Some ql → (length ql < fuel)%nat →
  (∀ n, heap (process_tree k) !! tree_entry p = Some n → Z.of_nat (length (children n)) < 2 ^ 31) →
  (∀ d q, d ∈ reap_queue k → procs k !! d = Some q → idle q) →
  ∃ n k', heap (process_tree k) !! tree_entry p = Some n ∧ parent n = tree_entry par ∧
    waitpid_round cpu fuel pid options k = Done (Returned (id p) (Some (status p)), k') ∧
    deleted b (reported p) n (if bool_decide (children n = []) then [] else ql) (with_procs (<[b := reported p]> (procs k)) k) k'.
Proof using.
  intros W T Hc Hpar Hpn Hk Ht Hrep Hfin Hrun Ip Hr Hpi Hql Hfuel Hlen Hreap.
  destruct (find_match _ _ _ _ _ _ Hrep) as [Hm Hin]. destruct (kid_facts k par pn kids b p T Hpn Hk Hin) as (Hbl & Hb & Hnr & Hne & n & Hn & Hv & Hnp).
  assert (Hrb : value r ≠ b).
  { intros E. destruct (to_node _ T _ _ Hr) as (_ & _ & q & Hq & He). congruence. }
  set (k1 := with_procs (<[b := reported p]> (procs k)) k).
  assert (W1 : wf k1) by (apply (same_wf NULL k W b p Hb (reported p)); by split_and!).
  assert (T1 : tree_ok k1).
  { destruct T as [TW TE TN]. split; [done| |].
    - intros d q Hd [[-> ->]|[Hdb Hq]]%insert_cases; [by exists n|by apply TE].
    - intros e m Hm'. destruct (TN e m Hm') as (H0 & Hl & q & Hq & He). split_and!; [done|done|]. cbn.
      destruct (decide (value m = b)) as [E|E]; [|by exists q; rewrite lookup_insert_ne by congruence].
      rewrite E in Hq |- *. exists (reported p). rewrite lookup_insert_eq. split; [done|]. assert (q = p) as -> by congruence. done. }
  assert (Hcb : current_process c ≠ b).
  { intros E. rewrite E in Hpar. congruence. }
  exists n.
  destruct (process_delete_run fuel k1 c b (reported p) n r (value r) pi ql W1 T1) as (k' & Hdel & Hd); try done.
  - apply lookup_insert_eq.
  - cbn. by rewrite lookup_insert_ne by congruence.
  - by apply Hlen.
  - intros d q Hd Hq. cbn in Hd, Hq. destruct (ws_list _ _ W) as [N _]. apply NoDup_app in N as (_ & N & _).
    rewrite lookup_insert_ne in Hq; [by apply (Hreap d)|]. intros ->. by apply (N d).
  - exists k'. split_and!; [done|done| |done].
    rewrite (waitpid_round_run fuel k c par pn pid options kids trs Hc Hpar Hpn Hk Ht).
    unfold wait_report. rewrite Hrep. unfold some_match in *. rewrite existsb_app, Hm. cbn [orb negb andb]. rewrite Hfin, Hrun.
    cbv zeta. fold k1. by rewrite (St_bind_done _ _ _ _ _ Hdel).
Qed.

(** ** [waitpid] keeps the invariant *)

(** [b] and the processes that wait to be freed are in no queue. *)
Definition tidy (b : Z) (k : kernel) : Prop :=
  Forall (λ d, match procs k !! d with Some q => idle q | None => True end) (b :: reap_queue k).
#[global] Instance tidy_dec b k : Decision (tidy b k).
Proof using. unfold tidy, idle. apply Forall_dec. intros d. destruct (procs k !! d); apply _. Defined.

(** [waitpid] removes the process [b], which has ended. *)
Definition removes (fuel : nat) (b : Z) (k k' : kernel) : Prop := ∃ p, procs k !! b = Some p ∧
  has p PROC_FLAG_FINISHED = true ∧ process_delete cpu fuel b (with_procs (<[b := reported p]> (procs k)) k) = Done (tt, k').

Lemma wakeup_loop_idle fuel interrupted q n k r k' : wf k → wakeup_loop fuel interrupted q n k = Done (r, k') →
  wf k' ∧ same_rest k k' ∧ ∀ b p, procs k !! b = Some p → idle p → procs k' !! b = Some p.
Proof using.
  revert n k. induction fuel as [|fuel IH]; intros n k W; [done|]. cbn [wakeup_loop].
  destruct (queues k !! q) as [l|] eqn:Hq; [|unfold queue_pop, mbind, St_bind, queue; by rewrite Hq].
  destruct l as [|a l _] using rev_ind.
  { unfold queue_pop. erewrite St_bind_done by (erewrite St_bind_done by apply queue_run, Hq; reflexivity).
    intros [= _ <-]. by split_and!. }
  destruct (ws_wait _ _ W q _ Hq) as (Hq0 & _ & _ & Hin). destruct (proj1 (Hin a)) as (p & Ha & Ho); [apply elem_of_app; right; by left|].
  destruct (wake_last_run interrupted q l a k p W Hq Ha) as (k1 & k2 & Hpop & H1 & Hw & W2 & R2 & _ & P2 & _).
  rewrite (St_bind_done _ _ _ _ _ Hpop), (St_bind_done _ _ _ _ _ (proc_run _ _ _ H1)).
  change (has (with_sleep_owner NULL p)) with (has p). rewrite (St_bind_done _ _ _ _ _ Hw).
  intros Hrun. destruct (IH _ _ W2 Hrun) as (W' & R' & H'). split_and!; [done|by etrans|].
  intros b x Hb Ix. apply H'; [|done]. rewrite P2, lookup_insert_ne; [done|]. intros ->.
  assert (x = p) as -> by congruence. destruct Ix as (_ & Ho' & _). congruence.
Qed.

Lemma process_delete_wf fuel a k p k' : wf k → procs k !! a = Some p → idle p →
  (∀ b q, b ∈ reap_queue k → procs k !! b = Some q → idle q) →
  process_delete cpu fuel a k = Done (tt, k') → wf k'.
Proof using.
  intros W Ha Ip Hreap. unfold process_delete, current, this_core. destruct (cores k !! cpu) as [c|] eqn:Hc;
    [|unfold mbind, St_bind; by rewrite Hc].
  erewrite St_bind_done by (erewrite St_bind_done by (by rewrite Hc); reflexivity). destruct (a =? current_process c); [done|].
  rewrite (St_bind_done _ _ _ _ _ (proc_run k a p Ha)). cbv zeta. destruct (tree_entry p =? NULL); [by intros [= <-]|].
  assert (Hg : in_tree (gets root) k = Done (root (process_tree k), k)) by (unfold in_tree; cbn; by destruct k).
  rewrite (St_bind_done _ _ _ _ _ Hg). destruct (root (process_tree k) =? tree_entry p); [by intros [= <-]|].
  unfold mbind at 1, St_bind at 1. destruct (in_tree (KTree.rd _) k) as [[n k0]| |] eqn:E0; [|done..].
  assert (k0 = k) as ->. { unfold in_tree, KTree.rd in E0. destruct (heap _ !! _); [|done]. injection E0 as _ <-. by destruct k. }
  unfold mbind at 1, St_bind at 1. destruct (in_tree (tree_remove_reparent_root _) k) as [[u k1]| |] eqn:E1; [|done..].
  assert (W1 := keeps_in_tree _ _ _ _ W E1). apply in_tree_procs in E1 as (P1 & L1 & R1).
  erewrite St_bind_done by reflexivity. rewrite L1.
  destruct (decide (a ∈ process_list k)) as [Hal|Hal]; [|by rewrite bool_decide_eq_false_2].
  rewrite bool_decide_eq_true_2 by done. erewrite St_bind_done by reflexivity.
  rewrite <-P1 in Ha. assert (W2 := unlist_wf k1 a p W1 Ha Ip). rewrite L1 in W2. set (k2 := with_process_list _ k1) in *.
  unfold mbind at 1, St_bind at 1. match goal with |- (match ?f k2 with _ => _ end = _ → _) => assert (H3 : ∀ v k3, f k2 = Done (v, k3) →
    wf k3 ∧ same_rest k2 k3 ∧ ∀ b q, procs k2 !! b = Some q → idle q → procs k3 !! b = Some q); [|destruct (f k2) as [[v k3]| |]; [|done..]] end.
  { intros v k3. destruct (negb _); [|by intros [= _ <-]]. unfold mbind at 1, St_bind at 1.
    destruct (in_tree (KTree.rd _) k2) as [[m k0]| |] eqn:E0'; [|done..].
    assert (k0 = k2) as ->. { unfold in_tree, KTree.rd in E0'. destruct (heap _ !! _); [|done]. by injection E0' as _ <-. }
    unfold mbind at 1, St_bind at 1. unfold proc at 1. destruct (procs k2 !! value m) as [pi|]; [|done].
    unfold mbind, St_bind, wakeup_queue. destruct (wakeup_loop fuel false (wait_queue pi) 0 k2) as [[r k3']| |] eqn:E3; [|done..].
    intros [= _ <-]. by apply wakeup_loop_idle in E3. }
  destruct (H3 v k3 eq_refl) as (W3 & [L3 _ R3 _ _] & Hi). assert (Ha3 := Hi a p Ha Ip). rewrite (St_bind_done _ _ _ _ _ (set_run _ _ _ _ Ha3)).
  destruct (ws_list _ _ W) as [N _]. apply NoDup_app in N as (N1 & N2 & N3).
  cbn [process_list reap_queue with_process_list k2] in L3, R3. rewrite R1 in R3.
  set (k4 := with_procs _ k3).
  assert (W4 : wf k4) by (apply (same_wf NULL k3 W3 a p Ha3); by split_and!).
  destruct (reap_run k4 a _ W4 (lookup_insert_eq _ _ _) Ip) as (k5 & Hrun & W5 & _).
  - cbn. rewrite L3, R3, not_elem_of_app. split; [|by apply N2]. rewrite remove_first_elem by done. by intros [_ ?].
  - intros b q Hb Hq. cbn in Hb, Hq. rewrite R3 in Hb. rewrite lookup_insert_ne in Hq; [|intros ->; by apply (N2 b)].
    destruct (ws_list _ _ W) as [_ PL]. destruct (PL b) as [q0 Hq0]; [apply elem_of_app; by right|].
    assert (Iq := Hreap b q0 Hb Hq0). rewrite <-P1 in Hq0. rewrite (Hi b q0 Hq0 Iq) in Hq. by injection Hq as <-.
  - rewrite Hrun. by intros [= <-].
Qed.

Lemma scan_children_same par pid options cs m k r k' : scan_children par pid options cs m k = Done (r, k') → k' = k.
Proof using.
  revert m. induction cs as [|c cs IH]; intros m; cbn [scan_children]; [by intros [= _ <-]|]. unfold mbind at 1, St_bind at 1.
  destruct (in_tree (KTree.rd c) k) as [[n k0]| |] eqn:E; [|done..].
  assert (k0 = k) as ->. { unfold in_tree, KTree.rd in E. destruct (heap _ !! _); [|done]. injection E as _ <-. by destruct k. }
  destruct (value n =? NULL); [apply IH|]. unfold mbind, St_bind, proc. destruct (procs k !! value n) as [p|]; [|done].
  destruct (wait_candidate par pid options p); [|apply IH]. destruct (reportable options p); [by intros [= _ <-]|apply IH].
Qed.
Lemma scan_tracees_same par pid options cs m k r k' : scan_tracees par pid options cs m k = Done (r, k') → k' = k.
Proof using.
  revert m. induction cs as [|c cs IH]; intros m; cbn [scan_tracees]; [by intros [= _ <-]|]. unfold mbind, St_bind, proc.
  destruct (procs k !! c) as [p|]; [|done]. destruct (wait_candidate par pid options p); [|apply IH].
  destruct (has p _); [by intros [= _ <-]|apply IH].
Qed.

(** What a round does to the state: nothing, a report, the removal of a process that has
    ended, or a sleep. *)
Lemma waitpid_round_cases fuel pid options k r k' : waitpid_round cpu fuel pid options k = Done (r, k') →
  k' = k ∨
  (∃ b p, procs k !! b = Some p ∧ let k1 := with_procs (<[b := reported p]> (procs k)) k in
    k' = k1 ∨ (has p PROC_FLAG_FINISHED = true ∧ process_delete cpu fuel b k1 = Done (tt, k'))) ∨
  (∃ q u, sleep_on_unlocking cpu fuel q k = Done (u, k')).
Proof using.
  unfold waitpid_round, current, this_core. destruct (cores k !! cpu) as [c|] eqn:Hc; [|unfold mbind, St_bind; by rewrite Hc].
  erewrite St_bind_done by (erewrite St_bind_done by (by rewrite Hc); reflexivity). unfold mbind at 1, St_bind at 1. unfold proc at 1.
  destruct (procs k !! current_process c) as [par|]; [|done]. unfold mbind at 1, St_bind at 1.
  destruct (in_tree (KTree.rd (tree_entry par)) k) as [[n k0]| |] eqn:E; [|done..].
  assert (k0 = k) as ->. { unfold in_tree, KTree.rd in E. destruct (heap _ !! _); [|done]. injection E as _ <-. by destruct k. }
  unfold mbind at 1, St_bind at 1. destruct (scan_children _ _ _ _ _ k) as [[[im cand] k0]| |] eqn:E1; [|done..]. apply scan_children_same in E1 as ->.
  unfold mbind at 1, St_bind at 1. match goal with |- (match ?f k with _ => _ end = _ → _) => destruct (f k) as [[[hc cand'] k0]| |] eqn:E2; [|done..] end.
  assert (k0 = k) as ->. { destruct cand; [by injection E2 as _ _ <-|]. destruct (tracees par); [by eapply scan_tracees_same|by injection E2 as _ _ <-]. }
  destruct hc; cbn [negb]; [|intros [= _ <-]; by left]. destruct cand' as [b|].
  - unfold mbind at 1, St_bind at 1. unfold proc at 1. destruct (procs k !! b) as [p|] eqn:Hb; [|done].
    rewrite (St_bind_done _ _ _ _ _ (set_run k b p (with_status (Z.ldiff (status p) 255)) Hb)). fold (reported p). intros H. right. left.
    exists b, p. split; [done|]. cbv zeta. set (k1 := with_procs _ k) in *. revert H.
    destruct (im && has p PROC_FLAG_FINISHED) eqn:Ef; [|intros [= _ <-]; by left]. destruct (has p PROC_FLAG_RUNNING); [done|].
    unfold mbind, St_bind. destruct (process_delete cpu fuel b k1) as [[[] k2]| |] eqn:Ed; [|done..]. intros [= _ <-]. right. split; [by apply andb_prop in Ef as [_ ?]|done].
  - destruct (negb _); [intros [= _ <-]; by left|]. unfold mbind, St_bind.
    destruct (sleep_on_unlocking cpu fuel (wait_queue par) k) as [[u k1]| |] eqn:Es; [|done..]. intros [= _ <-]. right. right. eauto.
Qed.

(** The round keeps the invariant, unless it removes a process while that, or one that
    waits to be freed, is in a queue. *)
Lemma waitpid_round_wf fuel pid options k r k' : wf k → waitpid_round cpu fuel pid options k = Done (r, k') →
  wf k' ∨ ∃ b, removes fuel b k k' ∧ ¬ tidy b k.
Proof using.
  intros W [->|[(b & p & Hb & H)|(q & u & Es)]]%waitpid_round_cases; [by left| |left; by eapply keeps_sleep_on_unlocking, Es].
  assert (W1 : wf (with_procs (<[b := reported p]> (procs k)) k)) by (apply (same_wf NULL k W b p Hb); by split_and!).
  destruct H as [->|[Ef Ed]]; [by left|]. destruct (decide (tidy b k)) as [D|D]; [left|right; exists b; split; [by exists p|done]].
  apply Forall_cons in D as [Ip D]. rewrite Hb in Ip.
  eapply (process_delete_wf fuel b _ _ k' W1); [apply lookup_insert_eq|exact Ip| |exact Ed].
  intros d q Hd [[-> ->]|[_ Hq]]%insert_cases; [done|]. rewrite Forall_forall in D. specialize (D d Hd). by rewrite Hq in D.
Qed.

(** ** The process of a number *)

Lemma first_match_cases p l : (first_match p l = NULL ∧ ∀ a v, (a, v) ∈ l → p v = true → a = NULL) ∨
  (∃ v, (first_match p l, v) ∈ l ∧ p v = true).
Proof using.
  induction l as [|[a v] l IH]; [left; split; [done|by intros ? ? ?%elem_of_nil]|]. cbn. destruct (p v) eqn:E.
  - right. exists v. split; [by left|done].
  - destruct IH as [[H1 H2]|(w & Hw & Hp)]; [left|right].
    + split; [done|]. intros b w [[= -> ->]|Hin]%elem_of_cons Hp; [congruence|by apply (H2 b w)].
    + exists w. split; [by right|done].
Qed.

Lemma process_from_pid_run fuel pid k : tree_ok k → 0 ≤ pid → (size (heap (process_tree k)) ≤ fuel)%nat →
  ∃ a, process_from_pid fuel pid k = Done (a, k) ∧
    ((a = NULL ∧ ∀ b p, b ∈ process_list k → procs k !! b = Some p → id p ≠ pid) ∨
     (a ≠ NULL ∧ a ∈ process_list k ∧ ∃ p, procs k !! a = Some p ∧ id p = pid)).
Proof using.
  intros [TW TE TN] Hpid Hfuel. destruct (wf_repr _ TW) as (tr & Hrepr & Hroot & Hdepth & Hpre).
  set (e := first_match (λ v, process_compare k v pid) (preorder tr)).
  assert (Hfind : in_tree (tree_find fuel pid (process_compare k)) k = Done (e, k)).
  { unfold in_tree, tree_find. erewrite St_bind_done by reflexivity. rewrite <-Hroot.
    rewrite tree_node_find_spec by (done || lia). by destruct k. }
  unfold process_from_pid. rewrite (proj2 (Z.ltb_ge _ _) Hpid), (St_bind_done _ _ _ _ _ Hfind).
  assert (Hcmp : ∀ v, process_compare k v pid = true → ∃ p, procs k !! v = Some p ∧ id p = pid).
  { intros v. unfold process_compare. destruct (procs k !! v) as [p|]; [|done]. intros ?%Z.eqb_eq. by exists p. }
  destruct (first_match_cases (λ v, process_compare k v pid) (preorder tr)) as [[H0 Hno]|(v & Hin & Hv)]; [fold e in H0|fold e in Hin].
  - exists NULL. rewrite H0. split; [done|]. left. split; [done|]. intros b p Hb Hp Hid.
    destruct (TE b p Hb Hp) as (n & Hn & Hval).
    assert (E : tree_entry p = NULL).
    { apply (Hno _ b); [apply Hpre; by exists n|]. unfold process_compare. rewrite Hp. by apply Z.eqb_eq. }
    rewrite E in Hn. by rewrite (wf_null _ TW) in Hn.
  - apply Hpre in Hin as (n & Hn & Hval). destruct (TN e n Hn) as (H0 & Hl & p & Hp & He).
    assert (He0 : e ≠ NULL) by (intros E; rewrite E, (wf_null _ TW) in Hn; done).
    rewrite (proj2 (Z.eqb_neq _ _) He0). cbn [negb].
    assert (Hrd : in_tree (KTree.rd e) k = Done (n, k)) by (unfold in_tree; rewrite (rd_eq _ _ _ Hn); by destruct k).
    rewrite (St_bind_done _ _ _ _ _ Hrd). exists (value n). split; [done|]. right. split_and!; [done|done|].
    rewrite Hval. by apply Hcmp.
Qed.
End tree.
