(* ===== verification/Signal.v ===== *)
(** * Signals ([src/kernel/sys/signal.c])

    Sending a signal, its delivery when a process returns to user space, waiting for
    signals, and the end of a process ([task_exit] of [src/kernel/sys/process.c]), over the
    processes of Process.  A signal set is a 64-bit word.  A function that switches away
    ends there and says so in its result; entering a handler does not return either.  Of
    the registers only the one with the number or result of the system call is kept. *)
From S2P Require Import Prelude KTree Process.
Local Open Scope Z_scope.

Definition ESRCH : Z := 3.
Definition ERESTARTSIGSUSPEND : Z := 511.
Definition SA_RESETHAND : Z := 8.
Definition SA_RESTART : Z := 16.
Definition SIGKILL : Z := 9.
Definition SIGCHLD : Z := 18.
Definition SIGSTOP : Z := 23.
Definition SIGCONT : Z := 25.
Definition NUMSIGNALS : Z := 38.

Definition SIG_DISP_Ign : Z := 0.
Definition SIG_DISP_Term : Z := 1.
Definition SIG_DISP_Core : Z := 2.
Definition SIG_DISP_Stop : Z := 3.
Definition SIG_DISP_Cont : Z := 4.

(** The default dispositions of the signals 0 to 37. *)
Definition sig_defaults : list Z :=
  [0; 1; 1; 2; 2; 2; 2; 2; 2; 1; 2; 2; 2; 1; 1; 1; 1; 1; 0; 0; 0; 0; 0; 3; 3; 4; 3; 3; 1; 1; 2; 2; 0; 1; 0; 0; 0; 3].
Definition sig_default (signum : Z) : Z := sig_defaults !!! Z.to_nat signum.

Definition shift_signal (signum : Z) : Z := Z.shiftl 1 signum.

#[export] Instance signal_config_inhabited : Inhabited signal_config := populate (SigConfig 0 0 0).

Definition config_of (p : process) (signum : Z) : signal_config := signals p !!! Z.to_nat signum.

(** The signals to handle now. *)
Definition PENDING (p : process) : Z :=
  Z.land (pending_signals p) (Z.lor (Z.lor (Z.lnot (blocked_signals p)) (shift_signal SIGSTOP)) (shift_signal SIGKILL)).

(** [pending_signals &= ~shift_signal(signal)]. *)
Definition take_signal (signum : Z) (p : process) : process :=
  with_pending_signals (Z.ldiff (pending_signals p) (shift_signal signum)) p.

Section Ops.
Context `{!Malloc}.
Context (cpu : Z).

(** ** Sending *)

Definition send_signal (fuel : nat) (pid signum : Z) (force_root : bool) : St kernel Z :=
  a ← process_from_pid fuel pid;
  if a =? NULL then mret (- ESRCH)
  else
    p ← proc a;
    c ← current cpu;
    me ← proc c;
    if negb force_root && negb (user p =? user me) && negb (user me =? USER_ROOT_UID) &&
       negb ((signum =? SIGCONT) && (session p =? session me)) then mret (- EPERM)
    else if has p PROC_FLAG_IS_TASKLET then mret (- EPERM)
    else if (NUMSIGNALS <=? signum) || (signum <? 0) then mret (- EINVAL)
    else if has p PROC_FLAG_FINISHED then mret (- ESRCH)
    else if signum =? 0 then mret 0
    else
      let awaited := negb (i32 (Z.land (awaited_signals p) (shift_signal signum)) =? 0) in
      let ignored := (handler (config_of p signum) =? 0) && (sig_default signum =? 0) in
      let blocked := negb (Z.land (blocked_signals p) (shift_signal signum) =? 0) &&
        negb (signum =? SIGKILL) && negb (signum =? SIGSTOP) in
      (if (sig_default signum =? SIG_DISP_Cont) && has p PROC_FLAG_SUSPENDED then
         set a (lower PROC_FLAG_SUSPENDED);;
         set a (with_status 0)
       else mret tt);;
      if negb awaited && negb blocked && ignored then mret 0
      else
        set a (λ p, with_pending_signals (Z.lor (pending_signals p) (shift_signal signum)) p);;
        if blocked && negb awaited then mret 0
        else
          process_awaken_signal a;;
          p ← proc a;
          (if negb (a =? c) && negb (process_is_ready p) then make_process_ready a else mret tt);;
          mret 0.

(** The loop over [process_list]: whether something was sent to and whether the current
    group is meant too. *)
Fixpoint send_all (fuel : nat) (job_ signum : Z) (force_root : bool) (my_group : Z) (l : list Z) (self sent : bool)
    : St kernel (bool * bool) :=
  match l with
  | [] => mret (self, sent)
  | a :: l =>
      p ← proc a;
      if (group p =? id p) && (job p =? job_) then
        if group p =? my_group then send_all fuel job_ signum force_root my_group l true sent
        else
          r ← send_signal fuel (group p) signum force_root;
          send_all fuel job_ signum force_root my_group l self (sent || (r =? 0))
      else send_all fuel job_ signum force_root my_group l self sent
  end.

Definition group_send_signal (fuel : nat) (group_ signum : Z) (force_root : bool) : St kernel Z :=
  if (NUMSIGNALS <=? signum) || (signum <? 0) then mret (- EINVAL)
  else
    c ← current cpu;
    me ← proc c;
    l ← gets process_list;
    '(self, sent) ← send_all fuel group_ signum force_root (group me) l false false;
    sent ← (if self : bool then
              r ← send_signal fuel (group me) signum force_root; mret (sent || (r =? 0))
            else mret sent);
    mret (if sent : bool then 0 else - ESRCH).

(** ** The end of a process *)

(** The tracees of a process that ends go on untraced, from the last of the list. *)
Fixpoint free_tracees (l : list Z) : St kernel unit :=
  match l with
  | [] => mret tt
  | a :: l =>
      valid ← is_valid_process a;
      (if valid : bool then
         set a (with_tracer 0);;
         set a (lower (Z.lor PROC_FLAG_TRACE_SIGNALS PROC_FLAG_TRACE_SYSCALLS));;
         p ← proc a;
         if has p PROC_FLAG_SUSPENDED then
           set a (with_status 0);;
           set a (lower PROC_FLAG_SUSPENDED);;
           make_process_ready a
         else mret tt
       else mret tt);;
      free_tracees l
  end.

(** [list_free] of the wait queue; nodes that are in it would be freed inside their
    processes. *)
Definition free_queue (q : Z) : St kernel unit :=
  l ← queue q;
  match l with
  | [] => modify (λ k, with_queues (delete q (queues k)) k)
  | _ => fault
  end.

Definition task_exit (fuel : nat) (retval : Z) : St kernel unit :=
  a ← current cpu;
  set a (with_status retval);;
  p ← proc a;
  free_queue (wait_queue p);;
  set a (with_node_waits None);;
  (match tracees p with
   | Some l => free_tracees (reverse l);; set a (with_tracees (Some []))
   | None => mret tt
   end);;
  par ← process_get_parent a;
  set a (raise PROC_FLAG_FINISHED);;
  p ← proc a;
  (if negb (tracer p =? 0) then
     t ← process_from_pid fuel (tracer p);
     if negb (t =? NULL) && negb (t =? par) then
       tp ← proc t;
       wakeup_queue fuel (wait_queue tp);; mret tt
     else mret tt
   else mret tt);;
  (if negb (par =? NULL) then
     pp ← proc par;
     if negb (has pp PROC_FLAG_FINISHED) then
       send_signal fuel (group pp) SIGCHLD true;;
       wakeup_queue fuel (wait_queue pp);; mret tt
     else mret tt
   else mret tt);;
  switch_next cpu fuel.

(** ** Delivery *)

(** [ptrace_signal] ([src/kernel/sys/ptrace.c]) up to its switch, and behind it. *)
Definition ptrace_signal (fuel : nat) (signum reason : Z) : St kernel unit :=
  a ← current cpu;
  set a (with_status (Z.lor (Z.lor 0x7F (i32 (Z.shiftl signum 8))) (i32 (Z.shiftl reason 16))));;
  set a (raise PROC_FLAG_SUSPENDED);;
  p ← proc a;
  t ← process_from_pid fuel (tracer p);
  (if negb (t =? NULL) then
     tp ← proc t;
     if negb (has tp PROC_FLAG_FINISHED) then wakeup_queue fuel (wait_queue tp);; mret tt else mret tt
   else mret tt);;
  switch_task cpu fuel false.
Definition ptrace_signal_resume : St kernel Z :=
  a ← current cpu;
  p ← proc a;
  set a (with_status 0);;
  mret (Z.shiftr (status p) 8).

(** The system call whose registers have the given number runs again. *)
Context (syscall_handler : Z → St kernel Z).

(** The register of the result, before and after. *)
Definition maybe_restart_system_call (rax signum : Z) (no_handler : bool) : St kernel Z :=
  if (signum <? 0) || (NUMSIGNALS <=? signum) then mret rax
  else
    a ← current cpu;
    p ← proc a;
    if negb (interrupted_system_call p =? 0) && (rax =? - ERESTARTSYS) then
      if (sig_default signum =? SIG_DISP_Cont) || negb (Z.land (sa_flags (config_of p signum)) SA_RESTART =? 0) then
        set a (with_interrupted_system_call 0);;
        syscall_handler (interrupted_system_call p)
      else
        set a (with_interrupted_system_call 0);;
        mret (- EINTR)
    else if negb (interrupted_system_call p =? 0) && (rax =? - ERESTARTSIGSUSPEND) then
      set a (with_interrupted_system_call 0);;
      rax ← (if no_handler : bool then syscall_handler (interrupted_system_call p) else mret (- EINTR));
      p ← proc a;
      (if has p PROC_FLAG_RESTORE_SIGMASK then
         set a (lower PROC_FLAG_RESTORE_SIGMASK);;
         set a (λ p, with_blocked_signals (restored_signals p) p)
       else mret tt);;
      mret rax
    else mret rax.

(** How the handling of a signal ends. *)
Inductive handled : Type :=
  (** it returns 0 ([again]) or 1, with the register *)
  | Handled (again : bool) (rax : Z)
  (** [arch_enter_signal_handler] *)
  | EnterHandler (h signum : Z)
  (** [task_exit] *)
  | Exited
  (** switched away: stopped by default, or in [ptrace_signal] with the configuration read
      before *)
  | Stopped
  | Traced (c : signal_config).

Definition ignore_signal (a rax signum : Z) : St kernel handled :=
  rax ← maybe_restart_system_call rax signum true;
  p ← proc a;
  mret (Handled (negb (PENDING p =? 0)) rax).

(** The default of a stop signal, up to its switch. *)
Definition stop_by_default (fuel : nat) (a signum : Z) : St kernel unit :=
  set a (raise PROC_FLAG_SUSPENDED);;
  set a (with_status (Z.lor (Z.lor 0x7F (Z.shiftl signum 8)) 0xFF0000));;
  par ← process_get_parent a;
  (if negb (par =? NULL) then
     pp ← proc par;
     if negb (has pp PROC_FLAG_FINISHED) then wakeup_queue fuel (wait_queue pp);; mret tt else mret tt
   else mret tt);;
  switch_task cpu fuel false.

(** [handle_signal] behind the tracing.  A signal below 0, from the tracer, indexes
    [sig_defaults] or the table of actions out of bounds. *)
Definition handle_config (fuel : nat) (a rax signum : Z) (config : signal_config) : St kernel handled :=
  p ← proc a;
  if has p PROC_FLAG_FINISHED then mret (Handled false rax)
  else if (signum =? 0) || (NUMSIGNALS <=? signum) then ignore_signal a rax signum
  else if (signum <? 0) && ((handler config =? 0) || negb ((handler config =? 1) || (Z.land (sa_flags config) SA_RESETHAND =? 0))) then fault
  else if handler config =? 0 then
    let dowhat := sig_default signum in
    if (dowhat =? SIG_DISP_Term) || (dowhat =? SIG_DISP_Core) then
      task_exit fuel (Z.lor (Z.shiftl (128 + signum) 8) signum);; mret Exited
    else if dowhat =? SIG_DISP_Stop then
      stop_by_default fuel a signum;;
      mret Stopped
    else ignore_signal a rax signum
  else if handler config =? 1 then ignore_signal a rax signum
  else
    (if negb (Z.land (sa_flags config) SA_RESETHAND =? 0) then
       set a (λ p, with_signals (<[Z.to_nat signum := SigConfig 0 (mask (config_of p signum)) (sa_flags (config_of p signum))]> (signals p)) p)
     else mret tt);;
    mret (EnterHandler (handler config) signum).

Definition handle_signal (fuel : nat) (a rax signum : Z) : St kernel handled :=
  p ← proc a;
  let config := config_of p signum in
  if has p PROC_FLAG_TRACE_SIGNALS then ptrace_signal fuel signum 0;; mret (Traced config)
  else handle_config fuel a rax signum config.

(** Back from the tracer. *)
Definition handle_traced (fuel : nat) (a rax : Z) (config : signal_config) : St kernel handled :=
  signum ← ptrace_signal_resume;
  handle_config fuel a rax signum config.

(** A stopped process that runs again: it stops again unless a signal is pending. *)
Definition stopped_resume (fuel : nat) (a rax : Z) : St kernel handled :=
  p ← proc a;
  if PENDING p =? 0 then switch_task cpu fuel false;; mret Stopped else mret (Handled true rax).

(** The lowest signal of a set from [signum] on. *)
Fixpoint first_signal (n : nat) (active signum : Z) : option Z :=
  match n with
  | O => None
  | S n =>
      if active =? 0 then None
      else if negb (Z.land active 1 =? 0) then Some signum
      else first_signal n (Z.shiftr active 1) (signum + 1)
  end.

Inductive checked : Type :=
  | Resume (rax : Z)
  | Left (h : handled).

Fixpoint process_check_signals (rounds fuel : nat) (rax : Z) : St kernel checked :=
  match rounds with
  | O => λ _, Timeout
  | S rounds =>
      a ← current cpu;
      if a =? NULL then mret (Resume rax)
      else
        p ← proc a;
        if has p PROC_FLAG_FINISHED then mret (Resume rax)
        else
          match first_signal (Z.to_nat NUMSIGNALS) (PENDING p) 0 with
          | None => mret (Resume rax)
          | Some signum =>
              set a (take_signal signum);;
              h ← handle_signal fuel a rax signum;
              match h with
              | Handled true rax => process_check_signals rounds fuel rax
              | Handled false rax => mret (Resume rax)
              | h => mret (Left h)
              end
          end
  end.

(** The platform has restored the registers of before the signal [signum]. *)
Definition return_from_signal_handler (rounds fuel : nat) (rax signum : Z) : St kernel checked :=
  a ← current cpu;
  p ← proc a;
  c ← (if negb (PENDING p =? 0) then process_check_signals rounds fuel rax else mret (Resume rax));
  match c with
  | Resume rax => rax ← maybe_restart_system_call rax signum false; mret (Resume rax)
  | Left h => mret (Left h)
  end.

(** ** Waiting for signals *)

Inductive await_result : Type :=
  | Got (signum : Z)
  | Interrupted
  | Awaiting.

(** One round of [signal_await], up to its switch. *)
Definition await_round (fuel : nat) (awaited : Z) : St kernel await_result :=
  a ← current cpu;
  p ← proc a;
  let maybe := Z.land awaited (pending_signals p) in
  match first_signal (Z.to_nat NUMSIGNALS) maybe 0 with
  | Some signum => set a (take_signal signum);; mret (Got signum)
  | None =>
      set a (with_awaited_signals awaited);;
      switch_task cpu fuel false;;
      mret Awaiting
  end.

(** Running again. *)
Definition await_resume (fuel : nat) (awaited : Z) : St kernel await_result :=
  a ← current cpu;
  set a (with_awaited_signals 0);;
  p ← proc a;
  if PENDING p =? 0 then await_round fuel awaited else mret Interrupted.

(** [while (!PENDING) switch_task(0);]: whether it waits. *)
Definition signal_wait (fuel : nat) : St kernel bool :=
  a ← current cpu;
  p ← proc a;
  if PENDING p =? 0 then switch_task cpu fuel false;; mret true else mret false.
End Ops.
