(* ===== verification/SignalProps.v ===== *)
(** * Signals and the end of processes: what they do

    Every operation of Signal keeps the invariant of the queues; which signals are sent,
    blocked and delivered; what the parent of a process that ends sees. *)
From S2P Require Import Prelude KTree Process ProcessQueues ProcessWait Scheduler ProcessTree Signal.
Local Open Scope Z_scope.

Section keeps.
Context `{M : !Malloc}.
Context (cpu : Z).
#[local] Hint Resolve keeps_this_core keeps_current keeps_make_process_ready keeps_queue_delete keeps_queue_append keeps_wakeup_loop
  keeps_next_ready_process keeps_switch_next keeps_switch_task keeps_process_awaken_signal : keeps.

Lemma keeps_process_from_pid fuel pid : keeps (process_from_pid fuel pid).
Proof using.
  intros k a k' W. unfold process_from_pid. destruct (pid <? 0); [by intros [= <- <-]|].
  match goal with |- ?f k = _ → _ => assert (K : keeps f) by keeps_solve end. by apply K.
Qed.
#[local] Hint Resolve keeps_process_from_pid : keeps.

Lemma keeps_process_get_parent a : keeps (process_get_parent a).
Proof using. unfold process_get_parent. keeps_solve. Qed.
#[local] Hint Resolve keeps_process_get_parent : keeps.

Lemma keeps_is_valid_process a : keeps (is_valid_process a).
Proof using. unfold is_valid_process. keeps_solve. Qed.
#[local] Hint Resolve keeps_is_valid_process : keeps.

Lemma keeps_send_signal fuel pid signum force_root : keeps (send_signal cpu fuel pid signum force_root).
Proof using. unfold send_signal. keeps_solve. Qed.
#[local] Hint Resolve keeps_send_signal : keeps.

Lemma keeps_group_send_signal fuel group_ signum force_root : keeps (group_send_signal cpu fuel group_ signum force_root).
Proof using.
  assert (H : ∀ l j g self sent, keeps (send_all cpu fuel j signum force_root g l self sent)).
  { induction l as [|a l IH]; intros j g self sent; cbn [send_all]; keeps_solve. }
  unfold group_send_signal. keeps_solve.
Qed.

Lemma keeps_free_tracees l : keeps (free_tracees l).
Proof using. induction l as [|a l IH]; cbn [free_tracees]; keeps_solve. Qed.
#[local] Hint Resolve keeps_free_tracees : keeps.

Lemma keeps_free_queue q : keeps (free_queue q).
Proof using.
  intros k [] k' W. unfold free_queue, mbind, St_bind, queue. destruct (queues k !! q) as [l|] eqn:Hq; [|done].
  destruct l as [|a l]; [|done]. intros [= <-]. destruct W as [P R Q O S T F].
  destruct (Q q _ Hq) as (_ & _ & _ & Hno).
  split; cbn [procs process_queue queues sleep_queue sleepers process_list reap_queue with_queues]; try done.
  - intros r l [_ Hl]%lookup_delete_Some. by apply Q.
  - intros a p Ha H1 H2. rewrite lookup_delete_ne; [by apply (O a)|]. intros E.
    apply (not_elem_of_nil a), Hno. by exists p.
Qed.

Lemma keeps_end_waits a : keeps (set a (with_node_waits None)).
Proof using.
  intros k [] k' W. unfold set. destruct (procs k !! a) as [p|] eqn:Ha; [|done]. intros [= <-]. destruct W as [P R Q O S T F].
  split; cbn; eauto 6 using list_same, ready_same, wait_same, owner_same, sleep_same, timed_same, fswait_same.
Qed.
#[local] Hint Resolve keeps_free_queue keeps_end_waits : keeps.

Lemma keeps_task_exit fuel retval : keeps (task_exit cpu fuel retval).
Proof using. unfold task_exit. unfold wakeup_queue. keeps_solve. Qed.
#[local] Hint Resolve keeps_task_exit : keeps.

Lemma keeps_ptrace_signal fuel signum reason : keeps (ptrace_signal cpu fuel signum reason).
Proof using. unfold ptrace_signal, wakeup_queue. keeps_solve. Qed.
Lemma keeps_ptrace_signal_resume : keeps (ptrace_signal_resume cpu).
Proof using. unfold ptrace_signal_resume. keeps_solve. Qed.
#[local] Hint Resolve keeps_ptrace_signal keeps_ptrace_signal_resume : keeps.

Lemma keeps_stopped_resume fuel a rax : keeps (stopped_resume cpu fuel a rax).
Proof using. unfold stopped_resume. keeps_solve. Qed.

Lemma keeps_await_round fuel awaited : keeps (await_round cpu fuel awaited).
Proof using. unfold await_round. keeps_solve. Qed.
#[local] Hint Resolve keeps_await_round : keeps.
Lemma keeps_await_resume fuel awaited : keeps (await_resume cpu fuel awaited).
Proof using. unfold await_resume. keeps_solve. Qed.
Lemma keeps_signal_wait fuel : keeps (signal_wait cpu fuel).
Proof using. unfold signal_wait. keeps_solve. Qed.
End keeps.

(** ** Sending a signal *)

Section sending.
Context `{M : !Malloc}.
Context (cpu : Z).

Definition permitted (me p : process) (signum : Z) (force_root : bool) : bool :=
  force_root || (user p =? user me) || (user me =? USER_ROOT_UID) || ((signum =? SIGCONT) && (session p =? session me)).

(** Awaited: the set of 64 bits is cut to an [int]. *)
Definition is_awaited (p : process) (signum : Z) : bool := negb (i32 (Z.land (awaited_signals p) (shift_signal signum)) =? 0).
Definition is_ignored (p : process) (signum : Z) : bool := (handler (config_of p signum) =? 0) && (sig_default signum =? 0).
Definition is_blocked (p : process) (signum : Z) : bool :=
  negb (Z.land (blocked_signals p) (shift_signal signum) =? 0) && negb (signum =? SIGKILL) && negb (signum =? SIGSTOP).

(** A stopped process that is continued. *)
Definition resumed (p : process) (signum : Z) : process :=
  if (sig_default signum =? SIG_DISP_Cont) && has p PROC_FLAG_SUSPENDED then with_status 0 (lower PROC_FLAG_SUSPENDED p) else p.
Definition with_pending (signum : Z) (p : process) : process :=
  with_pending_signals (Z.lor (pending_signals p) (shift_signal signum)) p.

(** In no wait queue and in no timed sleep. *)
Definition waits_nowhere (a : Z) (k : kernel) : Prop :=
  (∀ q l, queues k !! q = Some l → a ∉ l) ∧
  ∀ s x, s ∈ sleep_queue k → sleepers k !! s = Some x → is_fswait x = 0 → sl_process x ≠ a.

Lemma owner_waits_nowhere k a p : wf k → procs k !! a = Some p → sleep_owner p = NULL → waits_nowhere a k.
Proof using.
  intros W Ha Ho. split.
  - intros q l Hq Hin. destruct (ws_wait _ _ W q l Hq) as (Hq0 & _ & _ & H). apply H in Hin as (p' & Hp' & Ho'). congruence.
  - intros s x Hs Hx H0 <-. destruct (ws_sleep _ _ W) as (_ & _ & H). destruct (H s Hs) as (Hs0 & y & Hy & Hf).
    assert (y = x) as -> by congruence. destruct (proj2 (Hf Hs0) H0) as (p' & Hp' & Ho' & _). unfold SLEEP_QUEUE in Ho'. unfold NULL in Ho. congruence.
Qed.

(** Whether the receiver of a signal is made ready: when it waits on nodes, or is not the
    caller and not in the ready queue, or runs. *)
Definition is_woken (p : process) (a c : Z) : bool :=
  bool_decide (node_waits p ≠ None) || (negb (a =? c) && negb (process_is_ready p)).

(** The end of [send_signal]: the receiver is woken. *)
Lemma notify_run k a p c : wf k → procs k !! a = Some p →
  ∃ k' p', (process_awaken_signal a;; p ← proc a;
     (if negb (a =? c) && negb (process_is_ready p) then make_process_ready a else mret tt);; mret 0) k = Done (0, k') ∧ wf k' ∧
    procs k' !! a = Some p' ∧ node_waits p' = None ∧ pending_signals p' = pending_signals p ∧
    (if is_woken p a c then sched_queued p' = true ∧ sleep_owner p' = NULL else p' = p) ∧ (∀ b, b ≠ a → procs k' !! b = procs k !! b) ∧
    (node_waits p ≠ None → awoken_index p' = - EINTR).
Proof using Type.
  intros W Ha.
  assert (Haw : ∃ k1 p1, process_awaken_signal a k = Done (tt, k1) ∧ wf k1 ∧ procs k1 !! a = Some p1 ∧ node_waits p1 = None ∧
    pending_signals p1 = pending_signals p ∧ (∀ b, b ≠ a → procs k1 !! b = procs k !! b) ∧
    match node_waits p with None => p1 = p | Some _ => awoken_index p1 = - EINTR ∧ sched_queued p1 = true ∧ sleep_owner p1 = NULL end).
  { unfold process_awaken_signal. rewrite (St_bind_done _ _ _ _ _ (proc_run k a p Ha)). destruct (node_waits p) as [ws|] eqn:Hw.
    - destruct (awaken_from_fswait_run NULL k a p ws (- EINTR) W Ha Hw) as (k1 & Hrun & W1 & []). exists k1.
      destruct (awake_fields (unwaited (- EINTR) p)) as (E1 & _ & E3).
      eexists. split_and!; [exact Hrun|done|by rewrite mr_procs, lookup_insert_eq|done| | |exact E3|done|apply awake_owner].
      + cbn. unfold awake. by repeat case_match.
      + intros b Hb. rewrite mr_procs. cbn. by rewrite !lookup_insert_ne by done.
    - exists k, p. by split_and!. }
  destruct Haw as (k1 & p1 & Hrun & W1 & H1 & Hw1 & Hp1 & Ho1 & Hi1). rewrite (St_bind_done _ _ _ _ _ Hrun), (St_bind_done _ _ _ _ _ (proc_run k1 a p1 H1)).
  unfold is_woken. destruct (negb (a =? c) && negb (process_is_ready p1)) eqn:E.
  - destruct (make_process_ready_run NULL k1 a p1 W1 H1) as (k2 & Hmk & W2 & []). rewrite (St_bind_done _ _ _ _ _ Hmk). exists k2.
    destruct (awake_fields p1) as (E1 & _ & E3). eexists. split_and!; [done|done|by rewrite mr_procs, lookup_insert_eq|cbn; congruence| | | |].
    + cbn. rewrite <-Hp1. unfold awake. by repeat case_match.
    + assert (Hb : bool_decide (node_waits p ≠ None) || (negb (a =? c) && negb (process_is_ready p)) = true); [|rewrite Hb; split; [done|apply awake_owner]].
      destruct (node_waits p) as [ws|] eqn:Hw; [by rewrite bool_decide_eq_true_2|]. rewrite Hi1 in E. rewrite E. by rewrite orb_true_r.
    + intros b Hb. by rewrite mr_procs, lookup_insert_ne, Ho1 by done.
    + intros Hn. cbn. rewrite E3. by destruct (node_waits p) as [ws|]; [destruct Hi1 as [? _]|].
  - exists k1, p1. split_and!; try done; [|by intros Hn; destruct (node_waits p) as [ws|]; [destruct Hi1 as [? _]|]].
    destruct (node_waits p) as [ws|] eqn:Hw; [rewrite bool_decide_eq_true_2 by done; by destruct Hi1 as (_ & ? & ?)|].
    rewrite bool_decide_eq_false_2 by (by intros ?). rewrite Hi1 in E. by rewrite E.
Qed.

(** The answer of [send_signal] for the process found. *)
Lemma send_signal_run fuel pid signum force_root k c me a p : wf k → cores k !! cpu = Some c → procs k !! current_process c = Some me →
  process_from_pid fuel pid k = Done (a, k) → a ≠ NULL → procs k !! a = Some p →
  let delivered := with_procs (<[a := with_pending signum (resumed p signum)]> (procs k)) k in
  if negb (permitted me p signum force_root) || has p PROC_FLAG_IS_TASKLET then send_signal cpu fuel pid signum force_root k = Done (- EPERM, k)
  else if (NUMSIGNALS <=? signum) || (signum <? 0) then send_signal cpu fuel pid signum force_root k = Done (- EINVAL, k)
  else if has p PROC_FLAG_FINISHED then send_signal cpu fuel pid signum force_root k = Done (- ESRCH, k)
  else if signum =? 0 then send_signal cpu fuel pid signum force_root k = Done (0, k)
  else if negb (is_awaited p signum) && negb (is_blocked p signum) && is_ignored p signum
  then send_signal cpu fuel pid signum force_root k = Done (0, with_procs (<[a := resumed p signum]> (procs k)) k)
  else if is_blocked p signum && negb (is_awaited p signum) then send_signal cpu fuel pid signum force_root k = Done (0, delivered)
  else ∃ k' p', send_signal cpu fuel pid signum force_root k = Done (0, k') ∧ wf k' ∧ procs k' !! a = Some p' ∧
    pending_signals p' = Z.lor (pending_signals p) (shift_signal signum) ∧ node_waits p' = None ∧
    (node_waits p ≠ None → awoken_index p' = - EINTR) ∧ (∀ b, b ≠ a → procs k' !! b = procs k !! b) ∧
    if is_woken p a (current_process c) then sched_queued p' = true ∧ waits_nowhere a k'
    else p' = with_pending signum (resumed p signum).
Proof using Type.
  intros W Hc Hme Hpid Ha0 Ha. cbv zeta.
  assert (Hstart : ∀ (f : Z → process → Z → process → St kernel Z),
    (a ← process_from_pid fuel pid; if a =? NULL then mret (- ESRCH) else p ← proc a; c ← current cpu; me ← proc c; f a p c me) k
    = f a p (current_process c) me k).
  { intros f. rewrite (St_bind_done _ _ _ _ _ Hpid), (proj2 (Z.eqb_neq _ _) Ha0), (St_bind_done _ _ _ _ _ (proc_run k a p Ha)).
    unfold current, this_core. erewrite St_bind_done by (erewrite St_bind_done by (by rewrite Hc); reflexivity).
    by rewrite (St_bind_done _ _ _ _ _ (proc_run k _ me Hme)). }
  unfold send_signal. rewrite Hstart. clear Hstart.
  assert (Eperm : negb force_root && negb (user p =? user me) && negb (user me =? USER_ROOT_UID) &&
       negb ((signum =? SIGCONT) && (session p =? session me)) = negb (permitted me p signum force_root)).
  { unfold permitted. by destruct force_root, (user p =? user me), (user me =? USER_ROOT_UID), (signum =? SIGCONT), (session p =? session me). }
  rewrite Eperm. destruct (negb (permitted me p signum force_root)); [done|]. cbn [orb].
  destruct (has p PROC_FLAG_IS_TASKLET); [done|]. destruct ((NUMSIGNALS <=? signum) || (signum <? 0)); [done|].
  destruct (has p PROC_FLAG_FINISHED); [done|]. destruct (signum =? 0); [done|]. cbv zeta.
  fold (is_awaited p signum) (is_ignored p signum) (is_blocked p signum).
  set (k1 := with_procs (<[a := resumed p signum]> (procs k)) k).
  assert (Hres : (if (sig_default signum =? SIG_DISP_Cont) && has p PROC_FLAG_SUSPENDED then
         set a (lower PROC_FLAG_SUSPENDED);; set a (with_status 0) else mret tt) k = Done (tt, k1)).
  { subst k1. unfold resumed. destruct ((sig_default signum =? SIG_DISP_Cont) && has p PROC_FLAG_SUSPENDED); [|rewrite insert_id by done; by destruct k].
    rewrite (St_bind_done _ _ _ _ _ (set_run k a p _ Ha)). rewrite (set_run _ _ _ _ (lookup_insert_eq _ _ _)).
    cbn [procs with_procs]. by rewrite insert_insert_eq. }
  rewrite (St_bind_done _ _ _ _ _ Hres).
  assert (H1 : procs k1 !! a = Some (resumed p signum)) by apply lookup_insert_eq.
  destruct (negb (is_awaited p signum) && negb (is_blocked p signum) && is_ignored p signum); [done|].
  set (k2 := with_procs (<[a := with_pending signum (resumed p signum)]> (procs k)) k).
  assert (Hset : set a (λ p, with_pending_signals (Z.lor (pending_signals p) (shift_signal signum)) p) k1 = Done (tt, k2)).
  { rewrite (set_run k1 a _ _ H1). subst k1. cbn [procs with_procs]. by rewrite insert_insert_eq. }
  rewrite (St_bind_done _ _ _ _ _ Hset). destruct (is_blocked p signum && negb (is_awaited p signum)); [done|].
  assert (W2 : wf k2).
  { assert (W2 := same_wf NULL k W a p Ha (with_pending signum (resumed p signum))). apply W2.
    unfold resumed. by destruct ((sig_default signum =? SIG_DISP_Cont) && has p PROC_FLAG_SUSPENDED); split_and!. }
  destruct (notify_run k2 a _ (current_process c) W2 (lookup_insert_eq _ _ _)) as (k' & p' & Hrun & W' & Hp' & Hw & Hpend & Hs & Ho & Hi).
  assert (Er : pending_signals (resumed p signum) = pending_signals p ∧ node_waits (resumed p signum) = node_waits p ∧
    process_is_ready (resumed p signum) = process_is_ready p).
  { unfold resumed. destruct ((sig_default signum =? SIG_DISP_Cont) && has p PROC_FLAG_SUSPENDED); [|done].
    split_and!; [done|done|]. unfold process_is_ready. cbn [sched_queued with_status]. change (has (with_status 0 ?x)) with (has x). by rewrite has_lower by done. }
  destruct Er as (Er1 & Er2 & Er3). exists k', p'. rewrite Hrun. split_and!; [done|done|done|rewrite Hpend; cbn; by rewrite Er1|done| | |].
  - intros Hn. apply Hi. cbn. by rewrite Er2.
  - intros b Hb. rewrite Ho by done. cbn. by rewrite lookup_insert_ne.
  - assert (Ew : is_woken (with_pending signum (resumed p signum)) a (current_process c) = is_woken p a (current_process c)).
    { unfold is_woken, with_pending. cbn [node_waits with_pending_signals]. rewrite Er2.
      change (process_is_ready (with_pending_signals ?x ?y)) with (process_is_ready y). by rewrite Er3. }
    rewrite Ew in Hs. destruct (is_woken p a (current_process c)); [|done]. destruct Hs as [? Hs]. split; [done|]. by eapply owner_waits_nowhere.
Qed.
End sending.

(** ** Delivery *)

Definition deliverable (p : process) (j : Z) : bool :=
  Z.testbit (pending_signals p) j && (negb (Z.testbit (blocked_signals p) j) || (j =? SIGSTOP) || (j =? SIGKILL)).

Lemma shift_signal_testbit n j : 0 ≤ n → 0 ≤ j → Z.testbit (shift_signal n) j = (j =? n).
Proof.
  intros Hn Hj. unfold shift_signal. rewrite Z.shiftl_1_l, Z.eqb_sym. destruct (Z.eqb_spec n j) as [->|Hne].
  - by apply Z.pow2_bits_true.
  - by apply Z.pow2_bits_false.
Qed.

Lemma PENDING_testbit p j : 0 ≤ j → Z.testbit (PENDING p) j = deliverable p j.
Proof.
  intros Hj. unfold PENDING, deliverable. rewrite Z.land_spec, !Z.lor_spec, Z.lnot_spec by done.
  by rewrite !shift_signal_testbit by (done || unfold SIGSTOP, SIGKILL; lia).
Qed.

Lemma first_signal_spec n active s : 0 ≤ active →
  match first_signal n active s with
  | Some j => s ≤ j < s + Z.of_nat n ∧ Z.testbit active (j - s) = true ∧ ∀ i, s ≤ i < j → Z.testbit active (i - s) = false
  | None => ∀ i, s ≤ i < s + Z.of_nat n → Z.testbit active (i - s) = false
  end.
Proof.
  revert active s. induction n as [|n IH]; intros active s Ha; cbn [first_signal]; [intros i ?; lia|].
  destruct (Z.eqb_spec active 0) as [->|H0]; [intros i _; apply Z.bits_0|].
  assert (E0 : Z.land active 1 =? 0 = negb (Z.testbit active 0)).
  { rewrite Z.bit0_odd. change 1 with (Z.ones 1). rewrite Z.land_ones by lia. change (2 ^ 1) with 2. rewrite Zmod_odd.
    by destruct (Z.odd active). }
  rewrite E0, negb_involutive. destruct (Z.testbit active 0) eqn:Eb.
  - split_and!; [lia|lia|by rewrite Z.sub_diag|intros i ?; lia].
  - assert (Hs : ∀ i, s + 1 ≤ i → Z.testbit (Z.shiftr active 1) (i - (s + 1)) = Z.testbit active (i - s)).
    { intros i Hi. rewrite Z.shiftr_spec by lia. f_equal. lia. }
    specialize (IH (Z.shiftr active 1) (s + 1)). rewrite Z.shiftr_nonneg in IH. specialize (IH Ha).
    destruct (first_signal n (Z.shiftr active 1) (s + 1)) as [j|].
    + destruct IH as (Hj & Hbit & Hlow). rewrite Hs in Hbit by lia. split_and!; [lia|lia|done|].
      intros i Hi. destruct (decide (i = s)) as [->|]; [by rewrite Z.sub_diag|]. rewrite <-Hs by lia. apply Hlow. lia.
    + intros i Hi. destruct (decide (i = s)) as [->|]; [by rewrite Z.sub_diag|]. rewrite <-Hs by lia. apply IH. lia.
Qed.

(** The lowest deliverable signal. *)
Lemma lowest_signal p : 0 ≤ pending_signals p →
  match first_signal (Z.to_nat NUMSIGNALS) (PENDING p) 0 with
  | Some j => 0 ≤ j < NUMSIGNALS ∧ deliverable p j = true ∧ ∀ i, 0 ≤ i < j → deliverable p i = false
  | None => ∀ i, 0 ≤ i < NUMSIGNALS → deliverable p i = false
  end.
Proof.
  intros Hp. assert (HP : 0 ≤ PENDING p) by (unfold PENDING; apply Z.land_nonneg; by left).
  assert (H := first_signal_spec (Z.to_nat NUMSIGNALS) (PENDING p) 0 HP).
  assert (E : ∀ i, 0 ≤ i → Z.testbit (PENDING p) (i - 0) = deliverable p i) by (intros i Hi; rewrite Z.sub_0_r; by apply PENDING_testbit).
  change (Z.of_nat (Z.to_nat NUMSIGNALS)) with NUMSIGNALS in H. rewrite Z.add_0_l in H.
  destruct (first_signal _ _ _) as [j|].
  - destruct H as (Hj & Hb & Hl). rewrite E in Hb by lia. split_and!; [lia|lia|done|]. intros i Hi. rewrite <-E by lia. by apply Hl.
  - intros i Hi. rewrite <-E by lia. by apply H.
Qed.

(** What is done about a signal. *)
Inductive disposition : Type := Terminate | Stop | Ignore | Handle (h : Z).
Definition disposition_of (p : process) (j : Z) : disposition :=
  let h := handler (config_of p j) in
  if h =? 0 then
    if (sig_default j =? SIG_DISP_Term) || (sig_default j =? SIG_DISP_Core) then Terminate
    else if sig_default j =? SIG_DISP_Stop then Stop else Ignore
  else if h =? 1 then Ignore else Handle h.

(** A handler that is for one signal only. *)
Definition handler_taken (p : process) (j : Z) : process :=
  if negb (Z.land (sa_flags (config_of p j)) SA_RESETHAND =? 0)
  then with_signals (<[Z.to_nat j := SigConfig 0 (mask (config_of p j)) (sa_flags (config_of p j))]> (signals p)) p else p.

(** A bind, and what it is bound to. *)
Lemma St_bind_eq {S A B} (m : St S A) (f : A → St S B) s :
  (m ≫= f) s = match m s with Done (a, s') => f a s' | Fault => Fault | Timeout => Timeout end.
Proof. done. Qed.

Section delivery.
Context `{M : !Malloc}.
Context (cpu : Z) (syscall_handler : Z → St kernel Z).

Lemma current_run k c : cores k !! cpu = Some c → current cpu k = Done (current_process c, k).
Proof using. intros Hc. unfold current, this_core. by erewrite St_bind_done by (by rewrite Hc). Qed.

Lemma check_signals_none rounds fuel rax k c p : cores k !! cpu = Some c → procs k !! current_process c = Some p →
  0 ≤ pending_signals p → (∀ i, 0 ≤ i < NUMSIGNALS → deliverable p i = false) ∨ has p PROC_FLAG_FINISHED = true →
  process_check_signals cpu syscall_handler (S rounds) fuel rax k = Done (Resume rax, k).
Proof using.
  intros Hc Ha Hp Hno. cbn [process_check_signals]. rewrite (St_bind_done _ _ _ _ _ (current_run k c Hc)).
  destruct (current_process c =? NULL); [done|]. rewrite (St_bind_done _ _ _ _ _ (proc_run k _ p Ha)).
  destruct (has p PROC_FLAG_FINISHED); [done|]. destruct Hno as [Hno|]; [|done].
  assert (H := lowest_signal p Hp). destruct (first_signal _ _ _) as [j|]; [|done].
  destruct H as (Hj & Hd & _). rewrite Hno in Hd by done. done.
Qed.

Lemma lowest_first p j : 0 ≤ pending_signals p → 0 ≤ j < NUMSIGNALS → deliverable p j = true → (∀ i, 0 ≤ i < j → deliverable p i = false) →
  first_signal (Z.to_nat NUMSIGNALS) (PENDING p) 0 = Some j.
Proof using.
  intros Hp Hj Hd Hlow. assert (H := lowest_signal p Hp). destruct (first_signal _ _ _) as [i|].
  - destruct H as (Hi & Hdi & Hli). f_equal. destruct (Z.lt_trichotomy i j) as [Hlt|[->|Hgt]]; [|done|].
    + rewrite Hlow in Hdi by lia. done.
    + rewrite Hli in Hd by lia. done.
  - rewrite H in Hd by lia. done.
Qed.

(** A traced process stops for its tracer, with the signal in its status. *)
Lemma check_signals_traced rounds fuel rax k c a p j : cores k !! cpu = Some c → current_process c = a → a ≠ NULL →
  procs k !! a = Some p → has p PROC_FLAG_FINISHED = false → has p PROC_FLAG_TRACE_SIGNALS = true →
  0 ≤ pending_signals p → 0 ≤ j < NUMSIGNALS → deliverable p j = true → (∀ i, 0 ≤ i < j → deliverable p i = false) →
  process_check_signals cpu syscall_handler (S rounds) fuel rax k =
  (ptrace_signal cpu fuel j 0;; mret (Left (Traced (config_of p j)))) (with_procs (<[a := take_signal j p]> (procs k)) k).
Proof using.
  intros Hc Hca Ha0 Ha Hf Ht Hp Hj Hd Hlow. subst a. cbn [process_check_signals].
  rewrite (St_bind_done _ _ _ _ _ (current_run k c Hc)), (proj2 (Z.eqb_neq _ _) Ha0), (St_bind_done _ _ _ _ _ (proc_run k _ p Ha)), Hf.
  rewrite (lowest_first p j Hp Hj Hd Hlow), (St_bind_done _ _ _ _ _ (set_run k _ p _ Ha)). set (k1 := with_procs _ k).
  rewrite St_bind_eq. unfold handle_signal. rewrite (St_bind_done _ _ _ _ _ (proc_run k1 _ _ (lookup_insert_eq _ _ _))).
  change (has (take_signal j p)) with (has p). rewrite Ht. rewrite !St_bind_eq. destruct (ptrace_signal cpu fuel j 0 k1) as [[u k2]| |]; done.
Qed.

Lemma check_signals_run rounds fuel rax k c a p j : cores k !! cpu = Some c → current_process c = a → a ≠ NULL →
  procs k !! a = Some p → has p PROC_FLAG_FINISHED = false → has p PROC_FLAG_TRACE_SIGNALS = false →
  0 ≤ pending_signals p → 0 < j < NUMSIGNALS → deliverable p j = true → (∀ i, 0 ≤ i < j → deliverable p i = false) →
  let k1 := with_procs (<[a := take_signal j p]> (procs k)) k in
  process_check_signals cpu syscall_handler (S rounds) fuel rax k =
  match disposition_of p j with
  | Terminate => (task_exit cpu fuel (Z.lor (Z.shiftl (128 + j) 8) j);; mret (Left Exited)) k1
  | Stop =>
      (stop_by_default cpu fuel a j;; mret (Left Stopped)) k1
  | Handle h => Done (Left (EnterHandler h j), with_procs (<[a := handler_taken (take_signal j p) j]> (procs k)) k)
  | Ignore =>
      (rax ← maybe_restart_system_call cpu syscall_handler rax j true;
       p ← proc a;
       if PENDING p =? 0 then mret (Resume rax) else process_check_signals cpu syscall_handler rounds fuel rax) k1
  end.
Proof using.
  intros Hc Hca Ha0 Ha Hf Ht Hp Hj Hd Hlow. subst a. cbv zeta. cbn [process_check_signals].
  rewrite (St_bind_done _ _ _ _ _ (current_run k c Hc)), (proj2 (Z.eqb_neq _ _) Ha0), (St_bind_done _ _ _ _ _ (proc_run k _ p Ha)), Hf.
  assert (E := lowest_first p j Hp ltac:(lia) Hd Hlow).
  rewrite E. set (a := current_process c) in *. rewrite (St_bind_done _ _ _ _ _ (set_run k a p _ Ha)).
  set (k1 := with_procs _ k). assert (H1 : procs k1 !! a = Some (take_signal j p)) by apply lookup_insert_eq.
  assert (Hh : handle_signal cpu syscall_handler fuel a rax j k1 =
    match disposition_of p j with
    | Terminate => (task_exit cpu fuel (Z.lor (Z.shiftl (128 + j) 8) j);; mret Exited) k1
    | Stop =>
        (stop_by_default cpu fuel a j;; mret Stopped) k1
    | Handle h => Done (EnterHandler h j, with_procs (<[a := handler_taken (take_signal j p) j]> (procs k)) k)
    | Ignore => ignore_signal cpu syscall_handler a rax j k1
    end).
  { unfold handle_signal. rewrite (St_bind_done _ _ _ _ _ (proc_run k1 a _ H1)).
    change (has (take_signal j p)) with (has p). rewrite Ht. unfold handle_config.
    rewrite (St_bind_done _ _ _ _ _ (proc_run k1 a _ H1)). change (has (take_signal j p)) with (has p). rewrite Hf.
    rewrite (proj2 (Z.eqb_neq j 0)), (proj2 (Z.leb_gt NUMSIGNALS j)), (proj2 (Z.ltb_ge j 0)) by lia. cbn [orb andb]. unfold disposition_of.
    change (config_of (take_signal j p) j) with (config_of p j).
    destruct (handler (config_of p j) =? 0).
    { destruct (_ || _); [done|]. by destruct (sig_default j =? SIG_DISP_Stop). }
    destruct (handler (config_of p j) =? 1); [done|]. unfold handler_taken. change (config_of (take_signal j p) j) with (config_of p j).
    destruct (negb (Z.land (sa_flags (config_of p j)) SA_RESETHAND =? 0)).
    - rewrite (St_bind_done _ _ _ _ _ (set_run k1 a _ _ H1)). subst k1. cbn [procs with_procs]. by rewrite insert_insert_eq.
    - by erewrite St_bind_done by reflexivity. }
  rewrite St_bind_eq, Hh. destruct (disposition_of p j) as [| | |h].
  - rewrite !St_bind_eq. by destruct (task_exit _ _ _ k1) as [[? ?]| |].
  - rewrite !St_bind_eq. by destruct (stop_by_default _ _ _ _ k1) as [[? ?]| |].
  - unfold ignore_signal. rewrite !St_bind_eq.
    destruct (maybe_restart_system_call cpu syscall_handler rax j true k1) as [[rax' k2]| |]; [|done..]. rewrite !St_bind_eq.
    destruct (proc a k2) as [[p2 k3]| |]; [|done..]. cbn. by destruct (PENDING p2 =? 0).
  - done.
Qed.

Lemma ldiff_bound a b n : 0 ≤ n → 0 ≤ a < 2 ^ n → 0 ≤ Z.ldiff a b < 2 ^ n.
Proof using.
  intros Hn Ha. assert (E : Z.ldiff a b = Z.ldiff a b mod 2 ^ n); [|rewrite E; apply Z.mod_pos_bound; lia].
  apply Z.bits_inj'. intros i Hi. destruct (Z.lt_ge_cases i n).
  - by rewrite Z.mod_pow2_bits_low.
  - rewrite Z.mod_pow2_bits_high, Z.ldiff_spec by lia. rewrite <-(Z.mod_small _ _ Ha), Z.mod_pow2_bits_high by lia. done.
Qed.

(** All that is deliverable taken. *)
Definition taken_all (p : process) : process := with_pending_signals (Z.ldiff (pending_signals p) (PENDING p)) p.

Lemma take_deliverable p j i : 0 ≤ i → 0 ≤ j → deliverable (take_signal j p) i = deliverable p i && negb (i =? j).
Proof using.
  intros Hi Hj. unfold deliverable. cbn [take_signal pending_signals with_pending_signals blocked_signals].
  rewrite Z.ldiff_spec, shift_signal_testbit by done. by destruct (Z.testbit (pending_signals p) i), (i =? j), (_ || _).
Qed.

Lemma taken_all_step p j : 0 ≤ j → deliverable p j = true → taken_all (take_signal j p) = taken_all p.
Proof using.
  intros Hj Hd. unfold taken_all. cbn [take_signal pending_signals with_pending_signals].
  assert (E : Z.ldiff (Z.ldiff (pending_signals p) (shift_signal j)) (PENDING (take_signal j p)) = Z.ldiff (pending_signals p) (PENDING p)).
  { apply Z.bits_inj'. intros i Hi. rewrite !Z.ldiff_spec, !PENDING_testbit, shift_signal_testbit, take_deliverable by done.
    destruct (Z.eqb_spec i j) as [->|]; [rewrite Hd; by destruct (Z.testbit (pending_signals p) j)|].
    by destruct (Z.testbit (pending_signals p) i), (deliverable p i). }
  by rewrite E.
Qed.

Lemma check_signals_ignored rounds fuel rax k c a p s : cores k !! cpu = Some c → current_process c = a → a ≠ NULL →
  procs k !! a = Some p → has p PROC_FLAG_FINISHED = false → has p PROC_FLAG_TRACE_SIGNALS = false →
  0 ≤ pending_signals p < 2 ^ NUMSIGNALS → interrupted_system_call p = 0 →
  0 < s ≤ NUMSIGNALS → (∀ i, 0 ≤ i < s → deliverable p i = false) →
  (∀ j, s ≤ j < NUMSIGNALS → deliverable p j = true → disposition_of p j = Ignore) →
  NUMSIGNALS - s < Z.of_nat rounds →
  process_check_signals cpu syscall_handler rounds fuel rax k = Done (Resume rax, with_procs (<[a := taken_all p]> (procs k)) k).
Proof using.
  revert k p s. induction rounds as [|rounds IH]; intros k p s Hc Hca Ha0 Ha Hf Ht Hp Hi Hs Hlow Hign Hr.
  { lia. }
  assert (HL := lowest_signal p (proj1 Hp)). destruct (first_signal _ _ _) as [j|].
  - destruct HL as (Hj & Hd & Hl). assert (Hsj : s ≤ j).
    { apply Z.nlt_ge. intros Hlt. rewrite Hlow in Hd by lia. done. }
    rewrite (check_signals_run rounds fuel rax k c a p j) by (done || lia).
    rewrite (Hign j ltac:(lia) Hd). set (p1 := take_signal j p). set (k1 := with_procs _ k).
    assert (H1 : procs k1 !! a = Some p1) by apply lookup_insert_eq.
    assert (Hres : maybe_restart_system_call cpu syscall_handler rax j true k1 = Done (rax, k1)).
    { unfold maybe_restart_system_call. destruct (_ || _); [done|]. rewrite (St_bind_done _ _ _ _ _ (current_run k1 c Hc)), Hca.
      rewrite (St_bind_done _ _ _ _ _ (proc_run k1 a p1 H1)). change (interrupted_system_call p1) with (interrupted_system_call p). by rewrite Hi. }
    rewrite (St_bind_done _ _ _ _ _ Hres), (St_bind_done _ _ _ _ _ (proc_run k1 a p1 H1)).
    assert (E1 : with_procs (<[a := taken_all p1]> (procs k1)) k1 = with_procs (<[a := taken_all p]> (procs k)) k).
    { subst p1 k1. rewrite taken_all_step by (done || lia). cbn [procs with_procs]. by rewrite insert_insert_eq. }
    destruct (Z.eqb_spec (PENDING p1) 0) as [E0|E0].
    + assert (Ep : taken_all p1 = p1) by (unfold taken_all; rewrite E0, Z.ldiff_0_r; by destruct p1).
      rewrite <-E1, Ep, insert_id by done. by destruct k1.
    + rewrite (IH k1 p1 (j + 1)); [by rewrite E1|done|done|done|done|done|done| |done|lia| | |lia].
      * by apply ldiff_bound.
      * intros i Hii. subst p1. rewrite take_deliverable by lia. destruct (Z.eqb_spec i j) as [->|]; [by rewrite andb_false_r|].
        rewrite Hl by lia. done.
      * intros i Hii Hdi. subst p1. rewrite take_deliverable in Hdi by lia. apply andb_prop in Hdi as [Hdi _]. by apply Hign; [lia|].
  - rewrite (check_signals_none rounds fuel rax k c p); [|done|by rewrite Hca|lia|by left].
    assert (E : PENDING p = 0).
    { apply Z.bits_inj'. intros i Hii. rewrite Z.bits_0, PENDING_testbit by done. destruct (Z.lt_ge_cases i NUMSIGNALS) as [?|?]; [by apply HL|].
      unfold deliverable. rewrite <-(Z.mod_small _ _ Hp), Z.mod_pow2_bits_high by (unfold NUMSIGNALS in *; lia). done. }
    unfold taken_all. rewrite E, Z.ldiff_0_r.
    assert (Ep : with_pending_signals (pending_signals p) p = p) by (by destruct p). rewrite Ep, insert_id by done. by destruct k.
Qed.
End delivery.

(** ** Waiting for signals *)

Section awaiting.
Context `{M : !Malloc}.
Context (cpu : Z).

(** The lowest of the awaited signals that are pending. *)
Definition awaited_pending (awaited : Z) (p : process) (j : Z) : bool := Z.testbit awaited j && Z.testbit (pending_signals p) j.

Lemma await_round_run fuel awaited k c a p : cores k !! cpu = Some c → current_process c = a → procs k !! a = Some p →
  0 ≤ pending_signals p →
  match first_signal (Z.to_nat NUMSIGNALS) (Z.land awaited (pending_signals p)) 0 with
  | Some j => 0 ≤ j < NUMSIGNALS ∧ awaited_pending awaited p j = true ∧ (∀ i, 0 ≤ i < j → awaited_pending awaited p i = false) ∧
      await_round cpu fuel awaited k = Done (Got j, with_procs (<[a := take_signal j p]> (procs k)) k)
  | None => (∀ j, 0 ≤ j < NUMSIGNALS → awaited_pending awaited p j = false) ∧
      await_round cpu fuel awaited k =
        (switch_task cpu fuel false;; mret Awaiting) (with_procs (<[a := with_awaited_signals awaited p]> (procs k)) k)
  end.
Proof using.
  intros Hc Hca Ha Hp. assert (Hn : 0 ≤ Z.land awaited (pending_signals p)) by (apply Z.land_nonneg; by right).
  assert (H := first_signal_spec (Z.to_nat NUMSIGNALS) _ 0 Hn). change (Z.of_nat (Z.to_nat NUMSIGNALS)) with NUMSIGNALS in H.
  rewrite Z.add_0_l in H.
  assert (E : ∀ i, Z.testbit (Z.land awaited (pending_signals p)) (i - 0) = awaited_pending awaited p i)
    by (intros i; by rewrite Z.sub_0_r, Z.land_spec).
  assert (Hrun : await_round cpu fuel awaited k =
    match first_signal (Z.to_nat NUMSIGNALS) (Z.land awaited (pending_signals p)) 0 with
    | Some signum => (set a (take_signal signum);; mret (Got signum)) k
    | None => (set a (with_awaited_signals awaited);; switch_task cpu fuel false;; mret Awaiting) k end).
  { unfold await_round. rewrite (St_bind_done _ _ _ _ _ (current_run cpu k c Hc)), Hca, (St_bind_done _ _ _ _ _ (proc_run k a p Ha)).
    cbv zeta. by destruct (first_signal _ _ _). }
  rewrite Hrun. destruct (first_signal _ _ _) as [j|].
  - destruct H as (Hj & Hb & Hl). rewrite E in Hb. split_and!; [lia|lia|done| |].
    + intros i Hi. rewrite <-E. by apply Hl.
    + by rewrite (St_bind_done _ _ _ _ _ (set_run k a p _ Ha)).
  - split; [intros j Hj; rewrite <-E; by apply H|]. by rewrite (St_bind_done _ _ _ _ _ (set_run k a p _ Ha)).
Qed.

Lemma await_resume_run fuel awaited k c a p : cores k !! cpu = Some c → current_process c = a → procs k !! a = Some p →
  let p1 := with_awaited_signals 0 p in
  let k1 := with_procs (<[a := p1]> (procs k)) k in
  await_resume cpu fuel awaited k = if PENDING p =? 0 then await_round cpu fuel awaited k1 else Done (Interrupted, k1).
Proof using.
  intros Hc Hca Ha. cbv zeta. unfold await_resume. rewrite (St_bind_done _ _ _ _ _ (current_run cpu k c Hc)), Hca.
  rewrite (St_bind_done _ _ _ _ _ (set_run k a p _ Ha)).
  erewrite St_bind_done by (apply proc_run, lookup_insert_eq).
  change (PENDING (with_awaited_signals 0 p)) with (PENDING p). by destruct (PENDING p =? 0).
Qed.

(** What the test of [send_signal] for awaited signals says: signals from 32 on are lost. *)
Lemma is_awaited_eq p s : 0 < s < NUMSIGNALS → 0 ≤ awaited_signals p →
  is_awaited p s = Z.testbit (awaited_signals p) s && (s <? 32).
Proof using.
  intros Hs Ha. unfold is_awaited, shift_signal. rewrite Z.shiftl_1_l.
  assert (E : Z.land (awaited_signals p) (2 ^ s) = if Z.testbit (awaited_signals p) s then 2 ^ s else 0).
  { apply Z.bits_inj'. intros i Hi. rewrite Z.land_spec. destruct (decide (i = s)) as [->|Hne].
    - rewrite Z.pow2_bits_true by lia. destruct (Z.testbit (awaited_signals p) s) eqn:E; [by rewrite Z.pow2_bits_true by lia|by rewrite Z.bits_0].
    - rewrite Z.pow2_bits_false by lia. rewrite andb_false_r. destruct (Z.testbit (awaited_signals p) s); [by rewrite Z.pow2_bits_false by lia|by rewrite Z.bits_0]. }
  rewrite E. destruct (Z.testbit (awaited_signals p) s); cbn [andb]; [|done].
  destruct (Z.ltb_spec s 32) as [Hlt|Hge].
  - destruct (Z.eqb_spec (i32 (2 ^ s)) 0) as [E0|]; [exfalso|done]. destruct (decide (s = 31)) as [->|]; [discriminate E0|].
    assert (2 ^ s < 2 ^ 31) by (apply Z.pow_lt_mono_r; lia). rewrite i32_small in E0 by lia. lia.
  - replace (2 ^ s) with (2 ^ (s - 32) * 2 ^ 32) by (rewrite <-Z.pow_add_r by lia; f_equal; lia).
    unfold i32. by rewrite Z.add_comm, Z_mod_plus_full.
Qed.
End awaiting.

(** ** The end of a process *)

Section exit.
Context `{M : !Malloc}.
Context (cpu : Z).

(** SIGCHLD does nothing to the process. *)
Definition child_ignored (p : process) : bool :=
  negb (is_awaited p SIGCHLD) && negb (is_blocked p SIGCHLD) && is_ignored p SIGCHLD.

Lemma send_child_run fuel pid k c me : wf k → tree_ok k → cores k !! cpu = Some c → procs k !! current_process c = Some me →
  (size (heap (process_tree k)) ≤ fuel)%nat →
  (∀ b q, b ∈ process_list k → procs k !! b = Some q → id q = pid → child_ignored q = true) →
  ∃ r, send_signal cpu fuel pid SIGCHLD true k = Done (r, k).
Proof using Type.
  intros W T Hc Hme Hfuel Hign. destruct (Z.lt_ge_cases pid 0) as [Hneg|Hpos].
  { exists (- ESRCH). unfold send_signal, process_from_pid, mbind, St_bind. by rewrite (proj2 (Z.ltb_lt _ _) Hneg). }
  destruct (process_from_pid_run fuel pid k T Hpos Hfuel) as (a & Hpid & [[-> _]|(Ha0 & Hal & p & Hp & Hid)]).
  { exists (- ESRCH). unfold send_signal. by rewrite (St_bind_done _ _ _ _ _ Hpid). }
  assert (H := send_signal_run cpu fuel pid SIGCHLD true k c me a p W Hc Hme Hpid Ha0 Hp). cbv zeta in H.
  destruct (_ || _); [by eexists|]. destruct (_ || _); [by eexists|]. destruct (has p PROC_FLAG_FINISHED); [by eexists|].
  change (SIGCHLD =? 0) with false in H. cbv iota in H. assert (E := Hign a p Hal Hp Hid). unfold child_ignored in E. rewrite E in H.
  exists 0. rewrite H. change (resumed p SIGCHLD) with p. rewrite insert_id by done. by destruct k.
Qed.

Lemma task_exit_run fuel retval k c a p n pn pp ql : wf k → tree_ok k → cores k !! cpu = Some c → current_process c = a →
  a ∈ process_list k → procs k !! a = Some p → queues k !! wait_queue p = Some [] → tracees p = None → tracer p = 0 →
  heap (process_tree k) !! tree_entry p = Some n → heap (process_tree k) !! parent n = Some pn → parent n ≠ NULL → value pn ≠ a →
  procs k !! value pn = Some pp → has pp PROC_FLAG_FINISHED = false → wait_queue pp ≠ wait_queue p →
  queues k !! wait_queue pp = Some ql → (length ql < fuel)%nat → (size (heap (process_tree k)) ≤ fuel)%nat →
  (∀ b q, b ∈ process_list k → procs k !! b = Some q → id q = group pp → child_ignored q = true) →
  ∃ k1 p', task_exit cpu fuel retval k = switch_next cpu fuel k1 ∧ wf k1 ∧ cores k1 = cores k ∧
    procs k1 !! a = Some p' ∧ has p' PROC_FLAG_FINISHED = true ∧ status p' = retval ∧
    queues k1 !! wait_queue pp = Some [] ∧
    (∀ b q, b ∈ ql → b ≠ a → procs k !! b = Some q → has q PROC_FLAG_FINISHED = false →
      ∃ q', procs k1 !! b = Some q' ∧ sched_queued q' = true ∧ sleep_owner q' = NULL ∧ flags q' = flags q).
Proof using Type.
  intros W T Hc Hca Hal Ha Hq Htr Htc Hn Hpn Hpn0 Hpa Hpp Hpf Hqq Hql Hfuel Hsize Hign.
  set (p1 := with_status retval p). set (p2 := with_node_waits None p1). set (p3 := raise PROC_FLAG_FINISHED p2).
  set (k0 := with_queues (delete (wait_queue p) (queues k)) k).
  set (k3 := with_procs (<[a := p3]> (procs k)) k0).
  assert (Hwait : ∀ f : St kernel unit, (free_queue (wait_queue p);; f) (with_procs (<[a := p1]> (procs k)) k) = f (with_procs (<[a := p1]> (procs k)) k0)).
  { intros f. unfold free_queue. erewrite St_bind_done; [reflexivity|]. by rewrite (St_bind_done _ _ _ _ _ (queue_run (with_procs _ k) _ _ Hq)). }
  assert (W3 : wf k3).
  { assert (K : keeps (set a (with_status retval);; free_queue (wait_queue p);; set a (with_node_waits None);; set a (raise PROC_FLAG_FINISHED))).
    { pose proof (keeps_free_queue (wait_queue p)) as K1. pose proof (keeps_end_waits a) as K2. keeps_solve. }
    apply (K k tt k3 W). rewrite (St_bind_done _ _ _ _ _ (set_run k a p _ Ha)), Hwait.
    rewrite (St_bind_done _ _ _ _ _ (set_run (with_procs _ k0) a _ _ (lookup_insert_eq _ _ _))). cbn [procs with_procs]. rewrite insert_insert_eq.
    rewrite (set_run (with_procs _ _) a _ _ (lookup_insert_eq _ _ _)). cbn [procs with_procs]. by rewrite insert_insert_eq. }
  assert (T3 : tree_ok k3).
  { destruct T as [TW TE TN]. split; [done| |].
    - intros b q Hb [[-> ->]|[_ Hbq]]%insert_cases; [by apply (TE a p)|by apply TE].
    - intros e m Hm. destruct (TN e m Hm) as (H0 & Hl & q & Hqv & He). split_and!; [done|done|]. cbn.
      destruct (decide (value m = a)) as [E|E]; [|by exists q; rewrite lookup_insert_ne by done].
      rewrite E in Hqv |- *. exists p3. rewrite lookup_insert_eq. split; [done|]. assert (q = p) as -> by congruence. done. }
  assert (Hpp3 : procs k3 !! value pn = Some pp) by (cbn; by rewrite lookup_insert_ne).
  destruct (send_child_run fuel (group pp) k3 c p3 W3 T3 Hc) as [r Hsend]; [rewrite Hca; apply lookup_insert_eq|done| |].
  { intros b q Hb [[-> ->]|[_ Hbq]]%insert_cases Hid; [exact (Hign a p Hb Ha Hid)|exact (Hign b q Hb Hbq Hid)]. }
  assert (Hql3 : queues k3 !! wait_queue pp = Some ql) by (cbn; by rewrite lookup_delete_ne).
  destruct (wakeup_loop_run fuel false (wait_queue pp) ql 0 k3 W3 Hql3 Hfuel eq_refl) as (k1 & Hwake & []).
  assert (Hp3 : ∃ p', procs k1 !! a = Some p' ∧ has p' PROC_FLAG_FINISHED = true ∧ status p' = retval).
  { rewrite qw_procs. cbn [procs with_procs k3]. rewrite lookup_insert_eq. cbn [fmap option_fmap option_map].
    assert (Hf3 : has p3 PROC_FLAG_FINISHED = true) by (subst p3; rewrite has_raise; by rewrite orb_true_r).
    case_bool_decide; [|by exists p3]. exists (with_sleep_owner NULL p3). unfold wake_up.
    change (has (with_sleep_owner NULL p3)) with (has p3). by rewrite Hf3. }
  destruct Hp3 as (p' & Hp' & Hf' & Hs'). exists k1, p'. split_and!; try done.
  - unfold task_exit. rewrite (St_bind_done _ _ _ _ _ (current_run cpu k c Hc)), Hca.
    rewrite (St_bind_done _ _ _ _ _ (set_run k a p _ Ha)). fold p1.
    rewrite (St_bind_done _ _ _ _ _ (proc_run (with_procs _ k) a p1 (lookup_insert_eq _ _ _))).
    change (wait_queue p1) with (wait_queue p). rewrite Hwait.
    rewrite (St_bind_done _ _ _ _ _ (set_run (with_procs _ k0) a _ _ (lookup_insert_eq _ _ _))). cbn [procs with_procs]. rewrite insert_insert_eq.
    change (tracees p1) with (tracees p). rewrite Htr. fold p2. erewrite St_bind_done by reflexivity.
    set (k2 := with_procs (<[a := p2]> _) _).
    assert (Hpar : process_get_parent a k2 = Done (value pn, k2)).
    { unfold process_get_parent. rewrite (St_bind_done _ _ _ _ _ (proc_run k2 a p2 (lookup_insert_eq _ _ _))).
      assert (Hrd : ∀ e m, heap (process_tree k) !! e = Some m → in_tree (KTree.rd e) k2 = Done (m, k2)).
      { intros e m Hm. unfold in_tree. change (process_tree k2) with (process_tree k). by rewrite (rd_eq _ _ _ Hm). }
      change (tree_entry p2) with (tree_entry p). rewrite (St_bind_done _ _ _ _ _ (Hrd _ _ Hn)), (proj2 (Z.eqb_neq _ _) Hpn0). cbn [negb].
      by rewrite (St_bind_done _ _ _ _ _ (Hrd _ _ Hpn)). }
    rewrite (St_bind_done _ _ _ _ _ Hpar), (St_bind_done _ _ _ _ _ (set_run k2 a _ _ (lookup_insert_eq _ _ _))).
    subst k2. cbn [procs with_procs]. rewrite insert_insert_eq. change (with_procs _ (with_procs _ _)) with k3.
    rewrite (St_bind_done _ _ _ _ _ (proc_run k3 a p3 (lookup_insert_eq _ _ _))). change (tracer p3) with (tracer p). rewrite Htc. cbn [Z.eqb negb].
    erewrite St_bind_done by reflexivity.
    destruct (to_node _ T _ _ Hpn) as (Hv0 & _). rewrite (proj2 (Z.eqb_neq _ _) Hv0). cbn [negb].
    erewrite St_bind_done; [reflexivity|]. rewrite (St_bind_done _ _ _ _ _ (proc_run k3 _ pp Hpp3)), Hpf. cbn [negb].
    rewrite (St_bind_done _ _ _ _ _ Hsend). unfold wakeup_queue. by rewrite (St_bind_done _ _ _ _ _ Hwake).
  - by destruct qw_rest.
  - by rewrite qw_queues, lookup_insert_eq.
  - intros b q Hb Hba Hbq Hf. rewrite qw_procs, bool_decide_eq_true_2 by done. cbn [procs with_procs k3]. rewrite lookup_insert_ne, Hbq by done.
    eexists. split; [reflexivity|]. unfold wake_up. change (has (with_sleep_owner NULL q)) with (has q). by rewrite Hf.
Qed.
End exit.
