(* ===== verification/Family.v ===== *)
(** * The process tree

    What the operations of Process and Signal do to the tree of processes: all but the
    creation and the removal of a process leave it alone ([quiet]), and those keep the
    tree and the process list in agreement ([family]). *)
From S2P Require Import Prelude KTree Process ProcessQueues ProcessWait Scheduler ProcessTree Signal SignalProps.
Local Open Scope Z_scope.

(** The tree is a tree of the processes of the list; the others have no node. *)
Record family (k : kernel) : Prop := {
  fam_tree : tree_ok k;
  fam_out : ∀ a p, procs k !! a = Some p → a ∉ process_list k → tree_entry p = NULL
}.

(** The tree, the list and every process's node stay. *)
Definition same_family (k k' : kernel) : Prop :=
  process_tree k' = process_tree k ∧ process_list k' = process_list k ∧
  ∀ a, tree_entry <$> procs k' !! a = tree_entry <$> procs k !! a.
Definition quiet {A} (f : St kernel A) : Prop := ∀ k x k', f k = Done (x, k') → same_family k k'.

#[export] Instance same_family_preorder : PreOrder same_family.
Proof. split; [by intros k; split_and!|]. intros k1 k2 k3 (? & ? & E1) (? & ? & E2). split_and!; [congruence..|]. intros a. by rewrite E2. Qed.

Lemma same_family_entry k k' a p' : same_family k k' → procs k' !! a = Some p' →
  ∃ p, procs k !! a = Some p ∧ tree_entry p' = tree_entry p.
Proof. intros (_ & _ & E) Hp. specialize (E a). rewrite Hp in E. destruct (procs k !! a) as [p|]; [|done]. exists p. by injection E. Qed.
Lemma same_family_sym k k' : same_family k k' → same_family k' k.
Proof. intros (? & ? & E). by split_and!. Qed.

Lemma family_same k k' : same_family k k' → family k → family k'.
Proof.
  intros S [[TW TE TN] TO]. assert (S' := S). destruct S' as (Et & El & _). split; [split|].
  - by rewrite Et.
  - intros a p'. rewrite El, Et. intros Ha Hp. destruct (same_family_entry _ _ _ _ S Hp) as (p & Hp0 & ->). by apply (TE a p).
  - intros e n. rewrite El, Et. intros Hn. destruct (TN e n Hn) as (? & ? & p & Hp & He). split_and!; [done..|].
    destruct (same_family_entry _ _ _ _ (same_family_sym _ _ S) Hp) as (p' & Hp' & He'). exists p'. split; [done|congruence].
  - intros a p'. rewrite El. intros Hp Ha. destruct (same_family_entry _ _ _ _ S Hp) as (p & Hp0 & ->). by apply (TO a).
Qed.

Lemma quiet_ret {A} (x : A) : quiet (mret x).
Proof. by intros k y k' [= <- <-]. Qed.
Lemma quiet_gets {A} (f : kernel → A) : quiet (gets f).
Proof. by intros k y k' [= <- <-]. Qed.
Lemma quiet_fault {A} : quiet (@fault kernel A).
Proof. done. Qed.
Lemma quiet_timeout {A} : quiet ((λ _, Timeout) : St kernel A).
Proof. done. Qed.
Lemma quiet_bind {A B} (f : St kernel A) (g : A → St kernel B) : quiet f → (∀ x, quiet (g x)) → quiet (f ≫= g).
Proof.
  intros Hf Hg k y k'. unfold mbind, St_bind. destruct (f k) as [[x k1]| |] eqn:E; [|done..]. intros H.
  etrans; [by eapply Hf|by eapply Hg].
Qed.
Lemma quiet_set a f : (∀ p, tree_entry (f p) = tree_entry p) → quiet (set a f).
Proof.
  intros H k y k'. unfold set. destruct (procs k !! a) as [p|] eqn:Ha; [|done]. intros [= _ <-]. split_and!; [done..|].
  intros b. cbn. destruct (decide (b = a)) as [->|Hne]; [by rewrite lookup_insert_eq, Ha; cbn; rewrite H|by rewrite lookup_insert_ne].
Qed.
(** What does not change the processes. *)
Lemma quiet_same {A} (f : St kernel A) :
  (∀ k x k', f k = Done (x, k') → procs k' = procs k ∧ process_tree k' = process_tree k ∧ process_list k' = process_list k) → quiet f.
Proof. intros H k x k' E. destruct (H k x k' E) as (P & ? & ?). split_and!; [done..|]. intros a. by rewrite P. Qed.
Lemma quiet_rd e : quiet (in_tree (KTree.rd e)).
Proof.
  apply quiet_same. intros k x k'. unfold in_tree, KTree.rd. destruct (heap _ !! e); [|done]. by intros [= _ <-].
Qed.
Lemma quiet_find fuel pid cmp : quiet (in_tree (tree_find fuel pid cmp)).
Proof.
  assert (H : ∀ f e t x t', tree_node_find f e pid cmp t = Done (x, t') → t' = t).
  { intros f. induction f as [|f IH]; intros e t x t'; [done|]. cbn [tree_node_find]. unfold mbind at 1, St_bind at 1, KTree.rd at 1.
    destruct (heap t !! e) as [n|]; [|done]. destruct (cmp (value n) pid); [by intros [= _ <-]|]. revert x.
    induction (children n) as [|c cs IHc]; intros x; cbn [find_in]; [by intros [= _ <-]|]. unfold mbind, St_bind.
    destruct (tree_node_find f c pid cmp t) as [[y t1]| |] eqn:E; [|done..]. apply IH in E as ->.
    destruct (negb _); [by intros [= _ <-]|apply IHc]. }
  apply quiet_same. intros k x k'. unfold in_tree, tree_find. erewrite St_bind_done by reflexivity.
  destruct (tree_node_find _ _ _ _ _) as [[y t']| |] eqn:E; [|done..]. apply H in E as ->. by intros [= _ <-].
Qed.

Create HintDb quiet.
#[export] Hint Resolve quiet_ret quiet_gets quiet_fault quiet_timeout quiet_rd quiet_find : quiet.
Ltac same_tree :=
  apply quiet_same; intros ? ? ?; unfold proc, queue, set_queue, sleeper, this_core, is_valid_process, sleep_delete, sleep_dequeue, new_sleeper,
    get_next_pid, list_create, modify, gets, mret, St_ret, in_tree; repeat case_match; intros; simplify_eq; done.
Ltac quiet_solve :=
  repeat first
    [ progress eauto with quiet
    | apply quiet_set; intros []; done
    | apply quiet_bind; [|intros ?]
    | match goal with |- quiet (match ?x with _ => _ end) => destruct x end
    | same_tree
    | progress intros ].

Section quiet.
Context `{M : !Malloc}.
Context (cpu : Z).

Lemma quiet_make_process_ready a : quiet (make_process_ready a).
Proof using Type*. unfold make_process_ready, queue_delete. quiet_solve. Qed.
#[local] Hint Resolve quiet_make_process_ready : quiet.

Lemma quiet_current : quiet (current cpu).
Proof using Type*. unfold current. quiet_solve. Qed.
#[local] Hint Resolve quiet_current : quiet.

Lemma quiet_next_ready_process : quiet (next_ready_process cpu).
Proof using Type*. unfold next_ready_process. quiet_solve. Qed.
#[local] Hint Resolve quiet_next_ready_process : quiet.

Lemma quiet_next_unfinished fuel : quiet (next_unfinished cpu fuel).
Proof using Type*. induction fuel as [|fuel IH]; cbn [next_unfinished]; [apply quiet_timeout|]. quiet_solve. Qed.
#[local] Hint Resolve quiet_next_unfinished : quiet.

Lemma quiet_switch_next fuel : quiet (switch_next cpu fuel).
Proof using Type*. unfold switch_next, arch_restore_context. quiet_solve. Qed.
#[local] Hint Resolve quiet_switch_next : quiet.

Lemma quiet_switch_task fuel reschedule : quiet (switch_task cpu fuel reschedule).
Proof using Type*. unfold switch_task. quiet_solve. Qed.
#[local] Hint Resolve quiet_switch_task : quiet.

Lemma quiet_wakeup_loop fuel interrupted q n : quiet (wakeup_loop fuel interrupted q n).
Proof using Type*.
  revert n. induction fuel as [|fuel IH]; intros n; cbn [wakeup_loop]; [apply quiet_timeout|]. unfold queue_pop, queue_delete. quiet_solve.
Qed.
#[local] Hint Resolve quiet_wakeup_loop : quiet.

Lemma quiet_wakeup_queue_one q : quiet (wakeup_queue_one q).
Proof using Type*. unfold wakeup_queue_one, queue_pop, queue_delete. quiet_solve. Qed.

Lemma quiet_queue_append q a : quiet (queue_append q a).
Proof using Type*. unfold queue_append. quiet_solve. Qed.
#[local] Hint Resolve quiet_queue_append : quiet.

Lemma quiet_sleep_on fuel q : quiet (sleep_on cpu fuel q).
Proof using Type*. unfold sleep_on. quiet_solve. Qed.

Lemma quiet_sleep_on_unlocking fuel q : quiet (sleep_on_unlocking cpu fuel q).
Proof using Type*. unfold sleep_on_unlocking. quiet_solve. Qed.
#[local] Hint Resolve quiet_sleep_on_unlocking : quiet.

Lemma quiet_sleep_insert l s t u : quiet (sleep_insert l s t u).
Proof using Type*. induction l as [|c l IH]; cbn [sleep_insert]; quiet_solve. Qed.
#[local] Hint Resolve quiet_sleep_insert : quiet.

Lemma quiet_sleep_until a t u : quiet (sleep_until cpu a t u).
Proof using Type*. unfold sleep_until. quiet_solve. Qed.

Lemma quiet_process_timeout_sleep a timeout now : quiet (process_timeout_sleep a timeout now).
Proof using Type*. unfold process_timeout_sleep, node_wait. destruct (relative_time _ _ _ _). quiet_solve. Qed.
#[local] Hint Resolve quiet_process_timeout_sleep : quiet.

(** Waiting on nodes, whose own functions are quiet. *)
Lemma quiet_process_wait_nodes selectcheck selectwait fuel a nodes timeout now :
  (∀ n, quiet (selectcheck n)) → (∀ n b, quiet (selectwait n b)) →
  quiet (process_wait_nodes cpu selectcheck selectwait fuel a nodes timeout now).
Proof using Type*.
  intros Hc Hw. assert (Kc : ∀ ns i, quiet (check_nodes selectcheck ns i)).
  { intros ns. induction ns as [|n ns IH]; intros i; cbn [check_nodes]; quiet_solve. }
  assert (Kw : ∀ ns, quiet (wait_nodes selectwait ns a)).
  { intros ns. induction ns as [|n ns IH]; cbn [wait_nodes]; quiet_solve. }
  unfold process_wait_nodes. quiet_solve.
Qed.

Lemma quiet_process_awaken_from_fswait a i : quiet (process_awaken_from_fswait a i).
Proof using Type*. unfold process_awaken_from_fswait. quiet_solve. Qed.
#[local] Hint Resolve quiet_process_awaken_from_fswait : quiet.

Lemma quiet_process_awaken_signal a : quiet (process_awaken_signal a).
Proof using Type*. unfold process_awaken_signal. quiet_solve. Qed.
#[local] Hint Resolve quiet_process_awaken_signal : quiet.

Lemma quiet_process_alert_node_locked a v : quiet (process_alert_node_locked a v).
Proof using Type*. unfold process_alert_node_locked. quiet_solve. Qed.
#[local] Hint Resolve quiet_process_alert_node_locked : quiet.

Lemma quiet_wakeup_sleepers fuel t u : quiet (wakeup_sleepers fuel t u).
Proof using Type*. induction fuel as [|fuel IH]; cbn [wakeup_sleepers]; [apply quiet_timeout|]. unfold wake_sleeper. quiet_solve. Qed.

Lemma quiet_process_from_pid fuel pid : quiet (process_from_pid fuel pid).
Proof using Type*.
  intros k x k'. unfold process_from_pid. destruct (pid <? 0); [by intros [= _ <-]|]. revert x k'.
  match goal with |- ∀ x k', ?f k = _ → _ => assert (K : quiet f) by quiet_solve; intros x k'; apply K end.
Qed.
#[local] Hint Resolve quiet_process_from_pid : quiet.

Lemma quiet_process_get_parent a : quiet (process_get_parent a).
Proof using Type*. unfold process_get_parent. quiet_solve. Qed.
#[local] Hint Resolve quiet_process_get_parent : quiet.

(** ** Signals *)

Lemma quiet_send_signal fuel pid signum force_root : quiet (send_signal cpu fuel pid signum force_root).
Proof using Type*. unfold send_signal. quiet_solve. Qed.
#[local] Hint Resolve quiet_send_signal : quiet.

Lemma quiet_send_all fuel j signum force_root g l self sent : quiet (send_all cpu fuel j signum force_root g l self sent).
Proof using Type*. revert self sent. induction l as [|a l IH]; intros self sent; cbn [send_all]; quiet_solve. Qed.
#[local] Hint Resolve quiet_send_all : quiet.

Lemma quiet_group_send_signal fuel g signum force_root : quiet (group_send_signal cpu fuel g signum force_root).
Proof using Type*. unfold group_send_signal. quiet_solve. Qed.

Lemma quiet_free_tracees l : quiet (free_tracees l).
Proof using Type*. induction l as [|a l IH]; cbn [free_tracees]; quiet_solve. Qed.
#[local] Hint Resolve quiet_free_tracees : quiet.

Lemma quiet_task_exit fuel retval : quiet (task_exit cpu fuel retval).
Proof using Type*. unfold task_exit, free_queue, wakeup_queue. quiet_solve. Qed.
#[local] Hint Resolve quiet_task_exit : quiet.

Lemma quiet_ptrace_signal fuel signum reason : quiet (ptrace_signal cpu fuel signum reason).
Proof using Type*. unfold ptrace_signal, wakeup_queue. quiet_solve. Qed.
#[local] Hint Resolve quiet_ptrace_signal : quiet.

Lemma quiet_ptrace_signal_resume : quiet (ptrace_signal_resume cpu).
Proof using Type*. unfold ptrace_signal_resume. quiet_solve. Qed.
#[local] Hint Resolve quiet_ptrace_signal_resume : quiet.

Lemma quiet_await_round fuel awaited : quiet (await_round cpu fuel awaited).
Proof using Type*.
  unfold await_round. apply quiet_bind; [eauto with quiet|intros a]. apply quiet_bind; [quiet_solve|intros p]. cbv zeta.
  destruct (first_signal _ _ _) as [signum|]; quiet_solve.
Qed.
#[local] Hint Resolve quiet_await_round : quiet.

Lemma quiet_await_resume fuel awaited : quiet (await_resume cpu fuel awaited).
Proof using Type*. unfold await_resume. quiet_solve. Qed.

Lemma quiet_signal_wait fuel : quiet (signal_wait cpu fuel).
Proof using Type*. unfold signal_wait. quiet_solve. Qed.

Lemma quiet_stopped_resume fuel a rax : quiet (stopped_resume cpu fuel a rax).
Proof using Type*. unfold stopped_resume. quiet_solve. Qed.

(** ** Creation and removal *)

(** [f] keeps the queues and the tree in order. *)
Definition sound {A} (f : St kernel A) : Prop := ∀ k x k', wf k → family k → f k = Done (x, k') → wf k' ∧ family k'.

Create HintDb sound.
Lemma sound_quiet {A} (f : St kernel A) : keeps f → quiet f → sound f.
Proof using. intros K Q k x k' W F E. split; [by eapply K|]. eapply family_same; [by eapply Q|done]. Qed.
Lemma sound_bind {A B} (f : St kernel A) (g : A → St kernel B) : sound f → (∀ x, sound (g x)) → sound (f ≫= g).
Proof using.
  intros Hf Hg k y k' W F. unfold mbind, St_bind. destruct (f k) as [[x k1]| |] eqn:E; [|done..].
  destruct (Hf _ _ _ W F E). by apply Hg.
Qed.

Lemma alloc_family p k a k' : wf k → family k → tree_entry p = NULL → alloc_process p k = Done (a, k') →
  family k' ∧ a ∉ process_list k' ++ reap_queue k' ∧ a ≠ NULL.
Proof using.
  intros W [[TW TE TN] TO] Hp [= <- <-]. assert (Hn := new_address k W). set (a := malloc _) in *.
  assert (Ha : procs k !! a = None) by (apply not_elem_of_dom, malloc_fresh).
  split_and!; [split; [split|]|done|apply malloc_nonnull]; cbn.
  - done.
  - intros b q Hb [[-> ->]|[_ Hq]]%insert_cases; [|by apply (TE b q)]. destruct Hn. apply elem_of_app. by left.
  - intros e n He. destruct (TN e n He) as (? & ? & q & Hq & ?). split_and!; [done..|]. exists q. split; [|done].
    rewrite lookup_insert_ne; [done|]. intros E. by rewrite <-E, Ha in Hq.
  - intros b q [[-> ->]|[_ Hq]]%insert_cases Hb; [done|]. by apply (TO b).
Qed.

(** The new process becomes the last child of its parent. *)
Lemma enter_tree_run a par k pp n p : tree_ok k → procs k !! par = Some pp → procs k !! a = Some p →
  heap (process_tree k) !! tree_entry pp = Some n →
  ∃ e t', enter_tree a par k = Done (tt, with_process_list (process_list k ++ [a])
      (with_process_tree t' (with_procs (<[a := with_tree_entry e p]> (procs k)) k))) ∧
    KTree.wf t' ∧ heap (process_tree k) !! e = None ∧ root t' = root (process_tree k) ∧
    heap t' = <[e := TreeNode a [] (tree_entry pp)]> (<[tree_entry pp := set_children (children n ++ [e]) n]> (heap (process_tree k))).
Proof using.
  intros [TW _ _] Hpar Ha Hn.
  destruct (tree_node_insert_child_spec (process_tree k) (tree_entry pp) a n TW Hn) as (e & t' & Hrun & TW' & Hroot & He & Hh).
  exists e, t'. split_and!; [|done..].
  unfold tree_node_insert_child, mbind at 1, St_bind at 1 in Hrun.
  destruct (tree_node_create a (process_tree k)) as [[e0 t1]| |] eqn:E1; [|done..].
  unfold mbind at 1, St_bind at 1 in Hrun. destruct (tree_node_insert_child_node (tree_entry pp) e0 t1) as [[[] t2]| |] eqn:E2; [|done..].
  injection Hrun as -> ->. unfold enter_tree. rewrite (St_bind_done _ _ _ _ _ (proc_run _ _ _ Hpar)).
  erewrite St_bind_done by (unfold in_tree; rewrite E1; reflexivity).
  rewrite (St_bind_done _ _ _ _ _ (set_run (with_process_tree t1 k) a p _ Ha)).
  erewrite St_bind_done; [|unfold in_tree; cbn [process_tree with_process_tree with_procs]; rewrite E2; reflexivity]. done.
Qed.

Lemma enter_tree_family a par k u k' : wf k → family k → a ∉ process_list k ++ reap_queue k → a ≠ NULL →
  enter_tree a par k = Done (u, k') → family k'.
Proof using.
  intros W [T TO] Hna Ha0 E. assert (T' := T). destruct T' as [TW TE TN].
  apply not_elem_of_app in Hna as [Hna _].
  destruct (procs k !! par) as [pp|] eqn:Hpar; [|unfold enter_tree, mbind, St_bind, proc in E; by rewrite Hpar in E].
  destruct (heap (process_tree k) !! tree_entry pp) as [n|] eqn:Hn.
  2:{ (* a parent without a node *)
    exfalso. revert E. unfold enter_tree. rewrite (St_bind_done _ _ _ _ _ (proc_run _ _ _ Hpar)).
    set (e := malloc (dom (heap (process_tree k)))). set (t1 := with_heap (process_tree k) (<[e := TreeNode a [] NULL]> (heap (process_tree k)))).
    rewrite (St_bind_done _ _ k e (with_process_tree t1 k)) by done.
    unfold mbind at 1, St_bind at 1, set at 1. destruct (procs _ !! a) as [p|]; [|done].
    assert (H : heap t1 !! tree_entry pp = None).
    { cbn. rewrite lookup_insert_ne; [done|]. intros Ee.
      destruct (decide (par ∈ process_list k)) as [Hl|Hl]; [destruct (TE par pp Hl Hpar) as (? & ? & _); congruence|].
      rewrite (TO par pp Hpar Hl) in Ee. by apply malloc_nonnull in Ee. }
    unfold mbind, St_bind, in_tree, tree_node_insert_child_node, KTree.rd. cbn [process_tree with_process_tree with_procs].
    unfold mbind, St_bind. by rewrite H. }
  destruct (procs k !! a) as [p|] eqn:Ha.
  2:{ exfalso. revert E. unfold enter_tree. rewrite (St_bind_done _ _ _ _ _ (proc_run _ _ _ Hpar)). unfold mbind at 1, St_bind at 1.
    destruct (in_tree _ k) as [[e k1]| |] eqn:E1; [|done..]. apply in_tree_procs in E1 as (P1 & _). unfold mbind at 1, St_bind at 1, set at 1.
    by rewrite P1, Ha. }
  destruct (enter_tree_run a par k pp n p T Hpar Ha Hn) as (e & t' & Hrun & TW' & He & _ & Hh).
  rewrite E in Hrun. injection Hrun as _ ->. clear E.
  assert (Hold : ∀ x m, heap (process_tree k) !! x = Some m → ∃ m', heap t' !! x = Some m' ∧ value m' = value m).
  { intros x m Hm. rewrite Hh, lookup_insert_ne by congruence. destruct (decide (x = tree_entry pp)) as [->|Hx].
    - rewrite lookup_insert_eq. eexists. split; [done|]. cbn. congruence.
    - rewrite lookup_insert_ne by done. by exists m. }
  split; [split|]; cbn.
  - done.
  - intros b q [Hb| ->%list_elem_of_singleton]%elem_of_app Hq.
    + rewrite lookup_insert_ne in Hq by (intros ->; done). destruct (TE b q Hb Hq) as (m & Hm & Hv).
      destruct (Hold _ _ Hm) as (m' & ? & ?). exists m'. split; [done|congruence].
    + rewrite lookup_insert_eq in Hq. injection Hq as <-. cbn. rewrite Hh, lookup_insert_eq. by eexists.
  - intros x m. rewrite Hh. intros [[<- <-]|[Hx Hm]]%lookup_insert_Some; cbn.
    + split_and!; [done|apply elem_of_app; right; by left|]. rewrite lookup_insert_eq. by eexists.
    + assert (Hm0 : ∃ m0, heap (process_tree k) !! x = Some m0 ∧ value m = value m0).
      { apply lookup_insert_Some in Hm as [[<- <-]|[_ Hm]]; [by exists n|by exists m]. }
      destruct Hm0 as (m0 & Hm0 & ->). destruct (TN x m0 Hm0) as (? & Hl & q & Hq & He').
      split_and!; [done|apply elem_of_app; by left|]. exists q. split; [|done]. rewrite lookup_insert_ne; [done|].
      intros Ea. by rewrite <-Ea in Hl.
  - intros b q [[-> ->]|[_ Hq]]%insert_cases Hb; [destruct Hb; apply elem_of_app; right; by left|].
    apply (TO b q Hq). intros Hl. apply Hb, elem_of_app. by left.
Qed.

Lemma sound_add_process {A} p par (f : Z → St kernel A) : sched_queued p = false → sleep_owner p = NULL → node_waits p = None →
  tree_entry p = NULL → (∀ a, sound (f a)) → sound (a ← alloc_process p; enter_tree a par;; f a).
Proof using.
  intros H1 H2 H3 H4 Hf k x k' W F. unfold mbind at 1, St_bind at 1.
  destruct (alloc_process p k) as [[a k1]| |] eqn:Ea; [|done..]. assert (W1 := keeps_alloc_process p H1 H2 H3 _ _ _ W Ea).
  destruct (alloc_family _ _ _ _ W F H4 Ea) as (F1 & Hn & Ha0).
  unfold mbind at 1, St_bind at 1. destruct (enter_tree a par k1) as [[[] k2]| |] eqn:E; [|done..]. apply Hf.
  - by apply (enter_tree_wf a par k1 tt k2).
  - by apply (enter_tree_family a par k1 tt k2).
Qed.

Ltac sound_quietly := apply sound_quiet; [solve [auto with keeps]|solve [quiet_solve]].

#[local] Hint Resolve keeps_list_create keeps_get_next_pid keeps_make_process_ready keeps_current keeps_this_core : keeps.

Lemma sound_spawn_process par : sound (spawn_process par).
Proof using.
  unfold spawn_process. do 3 (apply sound_bind; [sound_quietly|intros ?]). apply sound_add_process; try done. intros a. sound_quietly.
Qed.

Lemma sound_fork : sound (fork cpu).
Proof using.
  unfold fork. apply sound_bind; [sound_quietly|intros par]. apply sound_bind; [apply sound_spawn_process|intros a].
  apply sound_quiet; [|quiet_solve]. keeps_solve.
Qed.

Lemma sound_clone : sound (clone cpu).
Proof using.
  unfold clone. apply sound_bind; [sound_quietly|intros par]. apply sound_bind; [apply sound_spawn_process|intros a].
  apply sound_quiet; [|quiet_solve]. keeps_solve.
Qed.

Lemma sound_spawn_worker_thread : sound (spawn_worker_thread cpu).
Proof using.
  unfold spawn_worker_thread. do 3 (apply sound_bind; [sound_quietly|intros ?]). apply sound_add_process; try done. intros a.
  apply sound_quiet; [keeps_solve|quiet_solve].
Qed.

(** An idle process is in no list. *)
Lemma sound_ap_main : sound (ap_main cpu).
Proof using.
  unfold ap_main, spawn_kidle. apply sound_bind; [sound_quietly|intros c]. apply sound_bind; [|intros idle; apply sound_quiet; [apply (keeps_cores (λ k, _))|quiet_solve]].
  apply sound_bind; [sound_quietly|intros q]. intros k a k' W F E. split; [by eapply keeps_alloc_process, E|].
  by apply (alloc_family _ _ _ _ W F) in E as [? _].
Qed.

(** Reaping removes processes that wait for it only. *)
Lemma reap_unowned_frame l k u k' : reap_unowned l k = Done (u, k') →
  process_list k' = process_list k ∧ process_tree k' = process_tree k ∧ procs k' ⊆ procs k ∧ ∀ b, b ∉ l → procs k' !! b = procs k !! b.
Proof using.
  revert k. induction l as [|a l IH]; intros k; cbn [reap_unowned]; [by intros [= _ <-]|]. erewrite St_bind_done by reflexivity.
  destruct (negb _); [|by intros [= _ <-]]. erewrite St_bind_done by reflexivity. unfold mbind at 1, St_bind at 1.
  destruct (process_reap a _) as [[[] k1]| |] eqn:E; [|done..]. intros H. apply IH in H as (-> & -> & Hs & Hl).
  unfold process_reap, mbind, St_bind, proc in E. destruct (procs _ !! a); [|done]. injection E as <-. split_and!; [done|done| |].
  - etrans; [exact Hs|]. apply delete_subseteq.
  - intros b Hb. apply not_elem_of_cons in Hb as [? Hb]. rewrite Hl by done. by apply lookup_delete_ne.
Qed.

Lemma reap_frame a k u k' : (used ← gets (used_elsewhere cpu a); if used : bool then process_reap_later a else process_reap a) k = Done (u, k') →
  process_list k' = process_list k ∧ process_tree k' = process_tree k ∧ procs k' ⊆ procs k ∧
  ∀ b, b ∉ reap_queue k → b ≠ a → procs k' !! b = procs k !! b.
Proof using.
  erewrite St_bind_done by reflexivity. destruct (used_elsewhere cpu a k).
  - unfold process_reap_later. erewrite St_bind_done by reflexivity. unfold mbind, St_bind.
    destruct (reap_unowned _ k) as [[[] k1]| |] eqn:E; [|done..]. intros [= _ <-]. apply reap_unowned_frame in E as (? & ? & ? & H).
    split_and!; try done. intros b Hb _. by apply H.
  - unfold process_reap, mbind, St_bind, proc. destruct (procs k !! a); [|done]. intros [= _ <-].
    split_and!; [done|done|apply delete_subseteq|]. intros b _ Hb. by apply lookup_delete_ne.
Qed.

(** The wake-up of the new parent. *)
Lemma quiet_tell fuel b e : quiet (if b : bool then m ← in_tree (KTree.rd e); init ← proc (value m); wakeup_queue fuel (wait_queue init);; mret tt else mret tt).
Proof using. unfold wakeup_queue. quiet_solve. Qed.

Lemma keeps_tell fuel b e : keeps (if b : bool then m ← in_tree (KTree.rd e); init ← proc (value m); wakeup_queue fuel (wait_queue init);; mret tt else mret tt).
Proof using. unfold wakeup_queue. assert (H := keeps_wakeup_loop). keeps_solve. Qed.

Lemma process_delete_family fuel a k p k' : wf k → family k → procs k !! a = Some p → idle p →
  process_delete cpu fuel a k = Done (tt, k') → family k'.
Proof using.
  intros W [T TO] Ha Ip. assert (T0 := T). destruct T0 as [TW TE TN].
  unfold process_delete, current, this_core. destruct (cores k !! cpu) as [c|] eqn:Hc; [|unfold mbind, St_bind; by rewrite Hc].
  erewrite St_bind_done by (erewrite St_bind_done by (by rewrite Hc); reflexivity). destruct (a =? current_process c); [done|].
  rewrite (St_bind_done _ _ _ _ _ (proc_run k a p Ha)). cbv zeta. destruct (tree_entry p =? NULL); [by intros [= <-]|].
  assert (Hg : in_tree (gets root) k = Done (root (process_tree k), k)) by (unfold in_tree; cbn; by destruct k).
  rewrite (St_bind_done _ _ _ _ _ Hg). destruct (Z.eqb_spec (root (process_tree k)) (tree_entry p)) as [|Hroot]; [by intros [= <-]|].
  destruct (heap (process_tree k) !! tree_entry p) as [n|] eqn:Hn; [|unfold mbind, St_bind, in_tree, KTree.rd; by rewrite Hn].
  assert (Hrd : in_tree (KTree.rd (tree_entry p)) k = Done (n, k)) by (unfold in_tree; rewrite (rd_eq _ _ _ Hn); by destruct k).
  rewrite (St_bind_done _ _ _ _ _ Hrd).
  destruct (tree_remove_reparent_root_spec _ _ _ TW Hn (not_eq_sym Hroot)) as (t' & Htree & TW' & _ & _ & Hsp).
  set (k1 := with_process_tree t' k). assert (Hrem : in_tree (tree_remove_reparent_root (tree_entry p)) k = Done (tt, k1)) by (unfold in_tree; by rewrite Htree).
  rewrite (St_bind_done _ _ _ _ _ Hrem). erewrite St_bind_done by reflexivity. change (process_list k1) with (process_list k).
  destruct (decide (a ∈ process_list k)) as [Hal|Hal]; [|by rewrite bool_decide_eq_false_2].
  rewrite bool_decide_eq_true_2 by done. erewrite St_bind_done by reflexivity. set (k2 := with_process_list _ k1).
  unfold mbind at 1, St_bind at 1. destruct (_ k2) as [[[] k3]| |] eqn:E3; [|done..]. apply quiet_tell in E3 as S3.
  assert (W3 : wf k3).
  { eapply keeps_tell, E3. apply (unlist_wf k1 a p); [by destruct W|done|done]. }
  assert (Ha2 : procs k2 !! a = Some p) by done.
  destruct (same_family_entry _ _ _ _ (same_family_sym _ _ S3) Ha2) as (p3 & Ha3 & _). rewrite (St_bind_done _ _ _ _ _ (set_run _ _ _ _ Ha3)).
  set (k4 := with_procs _ k3). intros Hr. apply reap_frame in Hr as (EL & ET & Hsub & Hother). assert (S3' := S3). destruct S3' as (T3 & L3 & _).
  cbn [process_list process_tree with_procs with_process_list with_process_tree k4 k2 k1] in EL, ET, T3, L3. rewrite L3 in EL. rewrite T3 in ET.
  destruct (ws_list _ _ W) as [N PL]. assert (N' := N). apply NoDup_app in N' as (N1 & N2 & _).
  assert (Hin : ∀ b, b ∈ process_list k' → b ∈ process_list k ∧ b ≠ a) by (intros b; rewrite EL; by apply remove_first_elem).
  assert (Hstay : ∀ b q, b ≠ a → b ∈ process_list k → procs k !! b = Some q → ∃ q', procs k' !! b = Some q' ∧ tree_entry q' = tree_entry q).
  { intros b q Hb Hbl Hq. assert (Hq2 : procs k2 !! b = Some q) by done.
    destruct (same_family_entry _ _ _ _ (same_family_sym _ _ S3) Hq2) as (q3 & Hq3 & ->). exists q3. split; [|done].
    rewrite Hother; [by rewrite <-Hq3; apply lookup_insert_ne| |done]. destruct (ws_list _ _ W3) as [N3 _]. apply NoDup_app in N3 as (_ & N3 & _).
    apply N3. rewrite L3. by apply remove_first_elem. }
  split.
  - eapply unlinked_tree; [exact T|exact N1|exact Hal|exact Ha|exact Hn|by rewrite ET|by rewrite ET|exact EL|exact Hstay|].
    intros b Hb. apply PL, elem_of_app. by left.
  - intros b q Hq Hb. eapply map_subseteq_spec in Hq; [|exact Hsub]. apply insert_cases in Hq as [[-> ->]|[Hne Hq]]; [done|].
    destruct (same_family_entry _ _ _ _ S3 Hq) as (q2 & Hq2 & ->). apply (TO b q2 Hq2). intros Hbl. apply Hb. rewrite EL.
    by apply remove_first_elem.
Qed.

Lemma waitpid_round_sound fuel pid options k r k' : wf k → family k → waitpid_round cpu fuel pid options k = Done (r, k') →
  (wf k' ∧ family k') ∨ ∃ b, removes cpu fuel b k k' ∧ ¬ tidy b k.
Proof using.
  intros W F E. destruct (waitpid_round_wf cpu fuel pid options k r k' W E) as [W'|?]; [|by right].
  apply waitpid_round_cases in E as [->|[(b & p & Hb & H)|(q & u & Es)]]; [by left| |].
  - assert (W1 : wf (with_procs (<[b := reported p]> (procs k)) k)) by (apply (same_wf NULL k W b p Hb); by split_and!).
    assert (F1 : family (with_procs (<[b := reported p]> (procs k)) k)).
    { eapply family_same; [|exact F]. assert (Q : quiet (set b reported)) by (by apply quiet_set). by apply (Q k tt), set_run. }
    destruct H as [->|[Ef Ed]]; [by left|]. destruct (decide (tidy b k)) as [D|D]; [left|right; exists b; split; [by exists p|done]].
    apply Forall_cons in D as [Ip _]. rewrite Hb in Ip. split; [done|].
    eapply (process_delete_family fuel b _ _ k' W1 F1); [apply lookup_insert_eq|exact Ip|exact Ed].
  - left. split; [done|]. eapply family_same; [by eapply quiet_sleep_on_unlocking|done].
Qed.

(** ** Start *)

(** The first process and the idle process of the first core. *)
Lemma tasking_start_run : ∃ k, tasking_start 0 initialize_process_tree = Done (tt, k) ∧ family k.
Proof using.
  set (k0 := initialize_process_tree). set (q := malloc (dom (queues k0) ∪ {[SLEEP_QUEUE]})).
  set (k1 := with_queues (<[q := []]> (queues k0)) k0). set (a := malloc (dom (procs k1))).
  set (p := new_process 1 0 1 1 USER_ROOT_UID (Z.lor PROC_FLAG_STARTED PROC_FLAG_RUNNING) q). set (k2 := with_procs (<[a := p]> (procs k1)) k1).
  destruct (tree_set_root_spec a) as (r & t & Hset & TW & Hr & Hh & _).
  set (k3 := with_process_tree t k2). set (k4 := with_procs (<[a := with_tree_entry r p]> (procs k3)) k3). set (k5 := with_process_list [a] k4).
  assert (Ha0 : a ≠ NULL) by apply malloc_nonnull.
  assert (Hinit : spawn_init k0 = Done (a, k5)).
  { unfold spawn_init. rewrite (St_bind_done _ _ k0 q k1), (St_bind_done _ _ k1 a k2) by done.
    rewrite (St_bind_done _ _ k2 tt k3) by (unfold in_tree; change (process_tree k2) with tree_create; by rewrite Hset).
    rewrite (St_bind_done _ _ k3 r k3) by (unfold in_tree, gets; cbn; by rewrite Hr).
    rewrite (St_bind_done _ _ k3 tt k4) by (by apply set_run, lookup_insert_eq). done. }
  assert (F5 : family k5).
  { split; [split; [done| |]|].
    - intros b b' ->%list_elem_of_singleton Hb. cbn in Hb. rewrite lookup_insert_eq in Hb. injection Hb as <-. cbn. rewrite Hh, lookup_singleton_eq. by eexists.
    - intros e n. cbn. rewrite Hh. intros [<- <-]%lookup_singleton_Some. cbn. split_and!; [done|by apply list_elem_of_singleton|].
      rewrite lookup_insert_eq. by eexists.
    - intros b b'. cbn. intros [[-> ->]|[Hne Hb]]%insert_cases Hl; [destruct Hl; by apply list_elem_of_singleton|].
      rewrite lookup_insert_ne in Hb by done. done. }
  assert (Hidle : ∃ idle k6, spawn_kidle k5 = Done (idle, k6)) by (unfold spawn_kidle; do 2 eexists; reflexivity).
  destruct Hidle as (idle & k6 & Hidle). eexists. split.
  - unfold tasking_start. rewrite (St_bind_done _ _ k0 (Core NULL NULL NULL) k0) by done.
    rewrite (St_bind_done _ _ _ _ _ Hinit), (St_bind_done _ _ _ _ _ Hidle). reflexivity.
  - assert (F6 : family k6).
    { unfold spawn_kidle in Hidle. unfold mbind, St_bind in Hidle. destruct (list_create k5) as [[q' k5']| |] eqn:E; [|done..].
      refine (proj1 (alloc_family _ _ _ _ _ _ _ Hidle)); [|eapply family_same, F5|done].
      - eapply keeps_list_create, E. eapply keeps_spawn_init, Hinit. exact initial_wf.
      - assert (Q : quiet list_create) by quiet_solve. by eapply Q. }
    eapply family_same, F6. by split_and!.
Qed.

(** ** Delivery, with any system call that is sound *)

Context (syscall_handler : Z → St kernel Z) (Hsys : ∀ n, sound (syscall_handler n)).

Ltac leaf := solve [apply sound_quiet; [solve [keeps_solve]|solve [quiet_solve]]].
Ltac sound_solve :=
  repeat first
    [ progress eauto with sound
    | leaf
    | apply sound_bind; [|intros ?]
    | match goal with |- sound (match ?x with _ => _ end) => destruct x end
    | progress intros ].

#[local] Hint Resolve keeps_proc keeps_process_get_parent keeps_task_exit keeps_switch_task keeps_wakeup_loop keeps_ptrace_signal
  keeps_ptrace_signal_resume : keeps.

Lemma sound_maybe_restart rax signum no_handler : sound (maybe_restart_system_call cpu syscall_handler rax signum no_handler).
Proof using Hsys. unfold maybe_restart_system_call. sound_solve. Qed.

Lemma sound_ignore_signal a rax signum : sound (ignore_signal cpu syscall_handler a rax signum).
Proof using Hsys. assert (H := sound_maybe_restart). unfold ignore_signal. sound_solve. Qed.

Lemma sound_handle_config fuel a rax signum config : sound (handle_config cpu syscall_handler fuel a rax signum config).
Proof using Hsys. assert (H := sound_ignore_signal). unfold handle_config, stop_by_default, wakeup_queue. sound_solve. Qed.

Lemma sound_handle_signal fuel a rax signum : sound (handle_signal cpu syscall_handler fuel a rax signum).
Proof using Hsys. assert (H := sound_handle_config). unfold handle_signal. sound_solve. Qed.

Lemma sound_handle_traced fuel a rax config : sound (handle_traced cpu syscall_handler fuel a rax config).
Proof using Hsys. assert (H := sound_handle_config). unfold handle_traced. sound_solve. Qed.

Lemma sound_process_check_signals rounds fuel rax : sound (process_check_signals cpu syscall_handler rounds fuel rax).
Proof using Hsys.
  assert (H := sound_handle_signal). revert rax. induction rounds as [|rounds IH]; intros rax; cbn [process_check_signals]; [done|].
  sound_solve.
Qed.

Lemma sound_return_from_signal_handler rounds fuel rax signum :
  sound (return_from_signal_handler cpu syscall_handler rounds fuel rax signum).
Proof using Hsys.
  assert (H1 := sound_process_check_signals). assert (H2 := sound_maybe_restart). unfold return_from_signal_handler. sound_solve.
Qed.
End quiet.
