(* ===== verification/Ptrace.v ===== *)
(** * Tracing ([src/kernel/sys/ptrace.c])

    A tracer attaches to a process, is woken when it stops and lets it go on, with the
    signal it gives.  [ptrace_signal], the stop, is in Signal.  The requests on registers and
    memory of the tracee are not modelled. *)
From S2P Require Import Prelude KTree Process ProcessQueues ProcessWait Scheduler ProcessTree Signal SignalProps Family.
Local Open Scope Z_scope.

Section Ops.
Context `{!Malloc}.
Context (cpu : Z).

Definition ptrace_trace (tracer_ tracee : Z) : St kernel unit :=
  set tracee (raise (Z.lor PROC_FLAG_TRACE_SYSCALLS PROC_FLAG_TRACE_SIGNALS));;
  t ← proc tracer_;
  (match tracees t with
   | None => set tracer_ (with_tracees (Some []))
   | Some _ => mret tt
   end);;
  set tracer_ (λ t, with_tracees (Some (default [] (tracees t) ++ [tracee])) t);;
  set tracee (with_tracer (id t)).

Definition ptrace_attach (fuel : nat) (pid : Z) : St kernel Z :=
  tracer_ ← current cpu;
  tracee ← process_from_pid fuel pid;
  if tracee =? NULL then mret (- ESRCH)
  else
    t ← proc tracer_;
    p ← proc tracee;
    if negb (user t =? 0) && negb (user t =? user p) then mret (- EPERM)
    else ptrace_trace tracer_ tracee;; mret 0.

Definition ptrace_self : St kernel Z :=
  tracee ← current cpu;
  tracer_ ← process_get_parent tracee;
  if tracer_ =? NULL then mret (- EINVAL)
  else ptrace_trace tracer_ tracee;; mret 0.

(** A stop that a signal made, by the tracer or by default: the high half says why. *)
Definition signal_stop (p : process) : bool :=
  negb (Z.land (Z.shiftr (status p) 8) 0xFF =? 0) &&
  ((Z.shiftr (status p) 16 =? 0) || (Z.shiftr (status p) 16 =? 0xFF)).

Definition signal_and_continue (fuel : nat) (pid tracee sig : Z) : St kernel unit :=
  set tracee (lower PROC_FLAG_SUSPENDED);;
  p ← proc tracee;
  if signal_stop p then
    set tracee (with_status (i32 (Z.shiftl sig 8)));;
    make_process_ready tracee
  else if negb (sig =? 0) then send_signal cpu fuel pid sig true;; mret tt
  else make_process_ready tracee.

(** A stopped tracee of the current process, or [NULL]. *)
Definition stopped_tracee (fuel : nat) (pid : Z) : St kernel Z :=
  tracee ← process_from_pid fuel pid;
  if tracee =? NULL then mret NULL
  else
    p ← proc tracee;
    c ← current cpu;
    me ← proc c;
    mret (if negb (tracer p =? id me) || negb (has p PROC_FLAG_SUSPENDED) then NULL else tracee).

Definition ptrace_continue (fuel : nat) (pid sig : Z) : St kernel Z :=
  tracee ← stopped_tracee fuel pid;
  if tracee =? NULL then mret (- ESRCH)
  else signal_and_continue fuel pid tracee sig;; mret 0.

Definition ptrace_detach (fuel : nat) (pid sig : Z) : St kernel Z :=
  tracee ← stopped_tracee fuel pid;
  if tracee =? NULL then mret (- ESRCH)
  else
    set tracee (with_tracer 0);;
    signal_and_continue fuel pid tracee sig;; mret 0.

Definition ptrace_signals_only (fuel : nat) (pid : Z) : St kernel Z :=
  tracee ← stopped_tracee fuel pid;
  if tracee =? NULL then mret (- ESRCH)
  else set tracee (lower PROC_FLAG_TRACE_SYSCALLS);; mret 0.

(** The trap flag of the tracee's registers is left out. *)
Definition ptrace_singlestep (fuel : nat) (pid sig : Z) : St kernel Z :=
  tracee ← stopped_tracee fuel pid;
  if tracee =? NULL then mret (- ESRCH)
  else
    set tracee (lower PROC_FLAG_SUSPENDED);;
    set tracee (with_status (i32 (Z.shiftl sig 8)));;
    make_process_ready tracee;;
    mret 0.
End Ops.

(** ** What tracing leaves in order *)

Section keeps.
Context `{M : !Malloc}.
Context (cpu : Z).

#[local] Hint Resolve keeps_current keeps_proc keeps_process_from_pid keeps_process_get_parent keeps_make_process_ready keeps_send_signal : keeps.
#[local] Hint Resolve quiet_current quiet_process_from_pid quiet_process_get_parent quiet_make_process_ready quiet_send_signal : quiet.

Lemma keeps_ptrace_trace t a : keeps (ptrace_trace t a).
Proof using. unfold ptrace_trace. keeps_solve. Qed.
Lemma quiet_ptrace_trace t a : quiet (ptrace_trace t a).
Proof using. unfold ptrace_trace. quiet_solve. Qed.
#[local] Hint Resolve keeps_ptrace_trace : keeps.
#[local] Hint Resolve quiet_ptrace_trace : quiet.

Lemma keeps_signal_and_continue fuel pid a sig : keeps (signal_and_continue cpu fuel pid a sig).
Proof using. unfold signal_and_continue. keeps_solve. Qed.
Lemma quiet_signal_and_continue fuel pid a sig : quiet (signal_and_continue cpu fuel pid a sig).
Proof using. unfold signal_and_continue. quiet_solve. Qed.
#[local] Hint Resolve keeps_signal_and_continue : keeps.
#[local] Hint Resolve quiet_signal_and_continue : quiet.

Lemma keeps_stopped_tracee fuel pid : keeps (stopped_tracee cpu fuel pid).
Proof using. unfold stopped_tracee. keeps_solve. Qed.
Lemma quiet_stopped_tracee fuel pid : quiet (stopped_tracee cpu fuel pid).
Proof using. unfold stopped_tracee. quiet_solve. Qed.
#[local] Hint Resolve keeps_stopped_tracee : keeps.
#[local] Hint Resolve quiet_stopped_tracee : quiet.

Lemma sound_ptrace_attach fuel pid : sound (ptrace_attach cpu fuel pid).
Proof using. unfold ptrace_attach. apply sound_quiet; [keeps_solve|quiet_solve]. Qed.
Lemma sound_ptrace_self : sound (ptrace_self cpu).
Proof using. unfold ptrace_self. apply sound_quiet; [keeps_solve|quiet_solve]. Qed.
Lemma sound_ptrace_continue fuel pid sig : sound (ptrace_continue cpu fuel pid sig).
Proof using. unfold ptrace_continue. apply sound_quiet; [keeps_solve|quiet_solve]. Qed.
Lemma sound_ptrace_detach fuel pid sig : sound (ptrace_detach cpu fuel pid sig).
Proof using. unfold ptrace_detach. apply sound_quiet; [keeps_solve|quiet_solve]. Qed.
Lemma sound_ptrace_signals_only fuel pid : sound (ptrace_signals_only cpu fuel pid).
Proof using. unfold ptrace_signals_only. apply sound_quiet; [keeps_solve|quiet_solve]. Qed.
Lemma sound_ptrace_singlestep fuel pid sig : sound (ptrace_singlestep cpu fuel pid sig).
Proof using. unfold ptrace_singlestep. apply sound_quiet; [keeps_solve|quiet_solve]. Qed.
End keeps.

(** ** A stop and its end *)

(** The status of a tracee that stops for a signal. *)
Definition stop_status (s : Z) : Z := Z.lor (Z.lor 0x7F (i32 (Z.shiftl s 8))) (i32 (Z.shiftl 0 16)).

(** Over the signals that exist. *)
Lemma stop_status_fields s : 0 ≤ s < NUMSIGNALS → Z.shiftr (stop_status s) 8 = s ∧ Z.shiftr (stop_status s) 16 = 0 ∧ Z.shiftr (i32 (Z.shiftl s 8)) 8 = s.
Proof.
  intros Hs. assert (H : Forall (λ s, Z.shiftr (stop_status s) 8 = s ∧ Z.shiftr (stop_status s) 16 = 0 ∧ Z.shiftr (i32 (Z.shiftl s 8)) 8 = s)
    (Z.of_nat <$> seq 0 38)) by (apply (bool_decide_unpack _); reflexivity).
  apply (proj1 (Forall_forall _ _) H). apply list_elem_of_fmap. exists (Z.to_nat s). unfold NUMSIGNALS in Hs. split; [lia|apply elem_of_seq; lia].
Qed.

Lemma signal_stop_status s p : 0 < s < NUMSIGNALS → status p = stop_status s → signal_stop p = true.
Proof.
  intros Hs Hp. destruct (stop_status_fields s) as (H8 & H16 & _); [lia|]. unfold signal_stop. rewrite Hp, H8, H16. cbn [Z.eqb orb]. rewrite andb_true_r.
  apply negb_true_iff, Z.eqb_neq. change 0xFF with (Z.ones 8). rewrite Z.land_ones, Z.mod_small by (unfold NUMSIGNALS in Hs; lia). lia.
Qed.

Section tracing.
Context `{M : !Malloc}.
Context (cpu : Z).

Lemma stopped_tracee_run fuel pid k c me a p : cores k !! cpu = Some c → procs k !! current_process c = Some me →
  process_from_pid fuel pid k = Done (a, k) → procs k !! a = Some p → a ≠ NULL →
  stopped_tracee cpu fuel pid k = Done (if (tracer p =? id me) && has p PROC_FLAG_SUSPENDED then a else NULL, k).
Proof using.
  intros Hc Hme Hfind Ha Ha0. unfold stopped_tracee. rewrite (St_bind_done _ _ _ _ _ Hfind), (proj2 (Z.eqb_neq _ _) Ha0), (St_bind_done _ _ _ _ _ (proc_run _ _ _ Ha)).
  rewrite (St_bind_done _ _ _ _ _ (current_run cpu k c Hc)), (St_bind_done _ _ _ _ _ (proc_run _ _ _ Hme)).
  by destruct (tracer p =? id me), (has p PROC_FLAG_SUSPENDED).
Qed.

(** The tracee goes on. *)
Lemma signal_and_continue_run fuel pid a sig s k p : wf k → procs k !! a = Some p → 0 < s < NUMSIGNALS → status p = stop_status s →
  ∃ k' p', signal_and_continue cpu fuel pid a sig k = Done (tt, k') ∧ wf k' ∧ procs k' !! a = Some p' ∧
    has p' PROC_FLAG_SUSPENDED = false ∧ status p' = i32 (Z.shiftl sig 8) ∧ sched_queued p' = true ∧ tracer p' = tracer p ∧
    ∀ b, b ≠ a → procs k' !! b = procs k !! b.
Proof using.
  intros W Ha Hs Hst. unfold signal_and_continue. set (p1 := lower PROC_FLAG_SUSPENDED p). rewrite (St_bind_done _ _ _ _ _ (set_run k a p _ Ha)). fold p1.
  set (k1 := with_procs _ k). assert (H1 : procs k1 !! a = Some p1) by apply lookup_insert_eq.
  rewrite (St_bind_done _ _ _ _ _ (proc_run _ _ _ H1)), (signal_stop_status s p1 Hs Hst).
  set (p2 := with_status (i32 (Z.shiftl sig 8)) p1). rewrite (St_bind_done _ _ _ _ _ (set_run k1 a p1 _ H1)). fold p2.
  set (k2 := with_procs _ k1). assert (H2 : procs k2 !! a = Some p2) by apply lookup_insert_eq.
  assert (W1 : wf k1) by (apply (same_wf NULL k W a p Ha); by split_and!).
  assert (W2 : wf k2) by (apply (same_wf NULL k1 W1 a p1 H1); by split_and!).
  destruct (make_process_ready_run NULL k2 a p2 W2 H2) as (k3 & Hrun & W3 & Hm). exists k3, (with_sched_queued true (awake p2)).
  split_and!; [done|done|by rewrite (mr_procs _ _ _ _ Hm); apply lookup_insert_eq| | |done| |].
  - change (has (with_sched_queued true (awake p2))) with (has (awake p2)).
    assert (Hsus : has p2 PROC_FLAG_SUSPENDED = false) by (change (has p2) with (has p1); apply has_lower_same).
    unfold awake. destruct (sleep_owner p2 =? NULL); [done|]. destruct (sleep_owner p2 =? SLEEP_QUEUE); [done|].
    change (has (raise PROC_FLAG_SLEEP_INT p2) PROC_FLAG_SUSPENDED = false). by rewrite has_raise, Hsus.
  - unfold awake. by repeat case_match.
  - unfold awake. by repeat case_match.
  - intros b Hb. rewrite (mr_procs _ _ _ _ Hm), lookup_insert_ne by done. cbn. by rewrite !lookup_insert_ne by done.
Qed.
End tracing.
