(* ===== verification/ProcessSystem.v ===== *)
(** * The process system

    The operations of Process and Signal as the steps of one system ([operation]): what every
    reachable state satisfies. *)
From S2P Require Import Prelude KTree Process ProcessQueues ProcessWait Scheduler ProcessTree Signal SignalProps Family Ptrace.
Local Open Scope Z_scope.

(** ** The words of a process

    The flags are 32 bits, the signal sets words, no signal from NUMSIGNALS on is pending,
    and there is a configuration for each signal. *)
Definition word_ok (p : process) : Prop :=
  0 ≤ flags p < 2 ^ 32 ∧ 0 ≤ pending_signals p < 2 ^ NUMSIGNALS ∧ 0 ≤ blocked_signals p < 2 ^ 64 ∧
  0 ≤ awaited_signals p < 2 ^ 64 ∧ 0 ≤ restored_signals p < 2 ^ 64 ∧ length (signals p) = 39%nat.

Definition words_ok (k : kernel) : Prop := map_Forall (λ _, word_ok) (procs k).

(** [f] keeps the words of every process. *)
Definition typed {A} (f : St kernel A) : Prop := ∀ k x k', words_ok k → f k = Done (x, k') → words_ok k'.

Lemma lor_bound a b n : 0 ≤ n → 0 ≤ a < 2 ^ n → 0 ≤ b < 2 ^ n → 0 ≤ Z.lor a b < 2 ^ n.
Proof.
  intros Hn Ha Hb. assert (E : Z.lor a b = Z.lor a b mod 2 ^ n); [|rewrite E; apply Z.mod_pos_bound; lia].
  apply Z.bits_inj'. intros i Hi. destruct (Z.lt_ge_cases i n); [by rewrite Z.mod_pow2_bits_low|].
  rewrite Z.mod_pow2_bits_high, Z.lor_spec by lia.
  rewrite <-(Z.mod_small _ _ Ha), <-(Z.mod_small _ _ Hb), !Z.mod_pow2_bits_high by lia. done.
Qed.

Lemma typed_ret {A} (x : A) : typed (mret x).
Proof. by intros k y k' W [= <- <-]. Qed.
Lemma typed_gets {A} (f : kernel → A) : typed (gets f).
Proof. by intros k y k' W [= <- <-]. Qed.
Lemma typed_fault {A} : typed (@fault kernel A).
Proof. done. Qed.
Lemma typed_timeout {A} : typed ((λ _, Timeout) : St kernel A).
Proof. done. Qed.
Lemma typed_bind {A B} (f : St kernel A) (g : A → St kernel B) : typed f → (∀ x, typed (g x)) → typed (f ≫= g).
Proof.
  intros Hf Hg k y k' W. unfold mbind, St_bind. destruct (f k) as [[x k1]| |] eqn:E; [|done..]. apply Hg. by eapply Hf.
Qed.
Lemma typed_proc {B} a (g : process → St kernel B) : (∀ p, word_ok p → typed (g p)) → typed (proc a ≫= g).
Proof.
  intros Hg k y k' W. unfold mbind, St_bind, proc. destruct (procs k !! a) as [p|] eqn:Ha; [|done]. apply Hg; [|done]. by apply (W a).
Qed.
Lemma typed_set a f : (∀ p, word_ok p → word_ok (f p)) → typed (set a f).
Proof.
  intros H k y k' W. unfold set. destruct (procs k !! a) as [p|] eqn:Ha; [|done]. intros [= _ <-].
  apply map_Forall_insert_2; [|done]. apply H. by apply (W a).
Qed.
(** What does not change the processes. *)
Lemma typed_same {A} (f : St kernel A) : (∀ k x k', f k = Done (x, k') → procs k' = procs k) → typed f.
Proof. intros H k x k' W E. unfold words_ok. by rewrite (H k x k' E). Qed.

Create HintDb typed.
#[export] Hint Resolve typed_ret typed_gets typed_fault typed_timeout : typed.
Ltac same_procs :=
  apply typed_same; intros ? ? ?; unfold queue, set_queue, sleeper, this_core, is_valid_process, sleep_delete, sleep_dequeue, new_sleeper,
    get_next_pid, list_create, modify, gets, mret, St_ret; repeat case_match; intros; simplify_eq; done.
Ltac word_field :=
  first [ done | by rewrite length_insert | apply lor_bound; [lia|done|split; by vm_compute] | apply ldiff_bound; [lia|done] | split; by vm_compute ].
Ltac word_solve := intros ? (? & ? & ? & ? & ? & ?); refine (conj _ (conj _ (conj _ (conj _ (conj _ _))))); cbn; word_field.
Ltac typed_solve :=
  repeat first
    [ progress eauto with typed
    | apply typed_set; by word_solve
    | apply typed_proc; intros ? ?
    | apply typed_bind; [|intros ?]
    | match goal with |- typed (match ?x with _ => _ end) => destruct x end
    | same_procs
    | progress intros ].

Section typed.
Context `{M : !Malloc}.
Context (cpu : Z).

Lemma typed_in_tree {A} (f : St tree_state A) : typed (in_tree f).
Proof using. apply typed_same. intros k x k' E. by destruct (in_tree_procs _ _ _ _ E) as [? _]. Qed.
#[local] Hint Resolve typed_in_tree : typed.

Lemma typed_make_process_ready a : typed (make_process_ready a).
Proof using Type*. unfold make_process_ready, queue_delete. typed_solve. Qed.
#[local] Hint Resolve typed_make_process_ready : typed.

Lemma typed_current : typed (current cpu).
Proof using Type*. unfold current. typed_solve. Qed.
#[local] Hint Resolve typed_current : typed.

Lemma typed_next_ready_process : typed (next_ready_process cpu).
Proof using Type*. unfold next_ready_process. typed_solve. Qed.
#[local] Hint Resolve typed_next_ready_process : typed.

Lemma typed_next_unfinished fuel : typed (next_unfinished cpu fuel).
Proof using Type*. induction fuel as [|fuel IH]; cbn [next_unfinished]; [apply typed_timeout|]. typed_solve. Qed.
#[local] Hint Resolve typed_next_unfinished : typed.

Lemma typed_switch_next fuel : typed (switch_next cpu fuel).
Proof using Type*. unfold switch_next, arch_restore_context. typed_solve. Qed.
#[local] Hint Resolve typed_switch_next : typed.

Lemma typed_switch_task fuel reschedule : typed (switch_task cpu fuel reschedule).
Proof using Type*. unfold switch_task. typed_solve. Qed.
#[local] Hint Resolve typed_switch_task : typed.

Lemma typed_wakeup_loop fuel interrupted q n : typed (wakeup_loop fuel interrupted q n).
Proof using Type*.
  revert n. induction fuel as [|fuel IH]; intros n; cbn [wakeup_loop]; [apply typed_timeout|]. unfold queue_pop, queue_delete. typed_solve.
Qed.
#[local] Hint Resolve typed_wakeup_loop : typed.

Lemma typed_wakeup_queue_one q : typed (wakeup_queue_one q).
Proof using Type*. unfold wakeup_queue_one, queue_pop, queue_delete. typed_solve. Qed.
#[local] Hint Resolve typed_wakeup_queue_one : typed.

Lemma typed_queue_append q a : typed (queue_append q a).
Proof using Type*. unfold queue_append. typed_solve. Qed.
#[local] Hint Resolve typed_queue_append : typed.

Lemma typed_sleep_on fuel q : typed (sleep_on cpu fuel q).
Proof using Type*. unfold sleep_on. typed_solve. Qed.
#[local] Hint Resolve typed_sleep_on : typed.

Lemma typed_sleep_on_unlocking fuel q : typed (sleep_on_unlocking cpu fuel q).
Proof using Type*. unfold sleep_on_unlocking. typed_solve. Qed.
#[local] Hint Resolve typed_sleep_on_unlocking : typed.

Lemma typed_sleep_insert l s t u : typed (sleep_insert l s t u).
Proof using Type*. induction l as [|c l IH]; cbn [sleep_insert]; typed_solve. Qed.
#[local] Hint Resolve typed_sleep_insert : typed.

Lemma typed_sleep_until a t u : typed (sleep_until cpu a t u).
Proof using Type*. unfold sleep_until. typed_solve. Qed.
#[local] Hint Resolve typed_sleep_until : typed.

Lemma typed_process_awaken_from_fswait a i : typed (process_awaken_from_fswait a i).
Proof using Type*. unfold process_awaken_from_fswait. typed_solve. Qed.
#[local] Hint Resolve typed_process_awaken_from_fswait : typed.

Lemma typed_process_awaken_signal a : typed (process_awaken_signal a).
Proof using Type*. unfold process_awaken_signal. typed_solve. Qed.
#[local] Hint Resolve typed_process_awaken_signal : typed.

Lemma typed_process_alert_node_locked a v : typed (process_alert_node_locked a v).
Proof using Type*. unfold process_alert_node_locked. typed_solve. Qed.
#[local] Hint Resolve typed_process_alert_node_locked : typed.

Lemma typed_wakeup_sleepers fuel t u : typed (wakeup_sleepers fuel t u).
Proof using Type*. induction fuel as [|fuel IH]; cbn [wakeup_sleepers]; [apply typed_timeout|]. unfold wake_sleeper. typed_solve. Qed.

Lemma typed_process_from_pid fuel pid : typed (process_from_pid fuel pid).
Proof using Type*.
  intros k a k' W. unfold process_from_pid. destruct (pid <? 0); [by intros [= <- <-]|].
  match goal with |- ?f k = _ → _ => assert (K : typed f) by typed_solve end. by apply K.
Qed.
#[local] Hint Resolve typed_process_from_pid : typed.

Lemma typed_process_get_parent a : typed (process_get_parent a).
Proof using Type*. unfold process_get_parent. typed_solve. Qed.
#[local] Hint Resolve typed_process_get_parent : typed.

Lemma typed_enter_tree a par : typed (enter_tree a par).
Proof using Type*. unfold enter_tree. typed_solve. Qed.
#[local] Hint Resolve typed_enter_tree : typed.

Lemma typed_alloc_process p : word_ok p → typed (alloc_process p).
Proof using Type*. intros Hp k x k' W [= _ <-]. by apply map_Forall_insert_2. Qed.
Lemma new_word_ok pid g j s u fl q : 0 ≤ fl < 2 ^ 32 → word_ok (new_process pid g j s u fl q).
Proof using. intros. refine (conj _ (conj _ (conj _ (conj _ (conj _ _))))); cbn; word_field. Qed.

Lemma typed_spawn_process par : typed (spawn_process par).
Proof using Type*. unfold spawn_process. typed_solve. by apply typed_alloc_process, new_word_ok. Qed.
#[local] Hint Resolve typed_spawn_process : typed.

Lemma typed_spawn_kidle : typed spawn_kidle.
Proof using Type*. unfold spawn_kidle. typed_solve. by apply typed_alloc_process, new_word_ok. Qed.
#[local] Hint Resolve typed_spawn_kidle : typed.

Lemma typed_spawn_init : typed spawn_init.
Proof using Type*. unfold spawn_init. typed_solve. by apply typed_alloc_process, new_word_ok. Qed.
#[local] Hint Resolve typed_spawn_init : typed.

Lemma typed_tasking_start : typed (tasking_start cpu).
Proof using Type*. unfold tasking_start. typed_solve. Qed.

Lemma typed_ap_main : typed (ap_main cpu).
Proof using Type*. unfold ap_main. typed_solve. Qed.

Lemma typed_fork : typed (fork cpu).
Proof using Type*.
  unfold fork. do 2 (apply typed_bind; [eauto with typed|intros ?]). apply typed_proc. intros pp (? & ? & ? & ? & ? & ?). typed_solve.
Qed.
#[local] Hint Resolve typed_fork : typed.

Lemma typed_clone : typed (clone cpu).
Proof using Type*.
  unfold clone. do 2 (apply typed_bind; [eauto with typed|intros ?]). apply typed_proc. intros pp (? & ? & ? & ? & ? & ?). typed_solve.
Qed.

Lemma typed_spawn_worker_thread : typed (spawn_worker_thread cpu).
Proof using Type*. unfold spawn_worker_thread. typed_solve. by apply typed_alloc_process, new_word_ok. Qed.
#[local] Hint Resolve typed_spawn_worker_thread : typed.

(** Waiting on nodes, whose own functions keep the words. *)
Lemma typed_process_timeout_sleep a timeout now : typed (process_timeout_sleep a timeout now).
Proof using Type*. unfold process_timeout_sleep, node_wait. destruct (relative_time _ _ _ _). typed_solve. Qed.
#[local] Hint Resolve typed_process_timeout_sleep : typed.

Lemma typed_process_wait_nodes selectcheck selectwait fuel a nodes timeout now :
  (∀ n, typed (selectcheck n)) → (∀ n b, typed (selectwait n b)) →
  typed (process_wait_nodes cpu selectcheck selectwait fuel a nodes timeout now).
Proof using Type*.
  intros Hc Hw. assert (Kc : ∀ ns i, typed (check_nodes selectcheck ns i)).
  { intros ns. induction ns as [|n ns IH]; intros i; cbn [check_nodes]; typed_solve. }
  assert (Kw : ∀ ns, typed (wait_nodes selectwait ns a)).
  { intros ns. induction ns as [|n ns IH]; cbn [wait_nodes]; typed_solve. }
  unfold process_wait_nodes. typed_solve.
Qed.

Lemma typed_process_reap a : typed (process_reap a).
Proof using Type*. intros k x k' W. unfold process_reap, mbind, St_bind, proc. destruct (procs k !! a); [|done]. intros [= _ <-]. by apply map_Forall_delete. Qed.
#[local] Hint Resolve typed_process_reap : typed.

Lemma typed_reap_unowned l : typed (reap_unowned l).
Proof using Type*. induction l as [|a l IH]; cbn [reap_unowned]; typed_solve. Qed.
#[local] Hint Resolve typed_reap_unowned : typed.

Lemma typed_process_delete fuel a : typed (process_delete cpu fuel a).
Proof using Type*. unfold process_delete, process_reap_later, wakeup_queue. typed_solve. Qed.
#[local] Hint Resolve typed_process_delete : typed.

Lemma typed_scan_children par pid options cs m : typed (scan_children par pid options cs m).
Proof using Type*. revert m. induction cs as [|c cs IH]; intros m; cbn [scan_children]; typed_solve. Qed.
#[local] Hint Resolve typed_scan_children : typed.

Lemma typed_scan_tracees par pid options cs m : typed (scan_tracees par pid options cs m).
Proof using Type*. revert m. induction cs as [|c cs IH]; intros m; cbn [scan_tracees]; typed_solve. Qed.
#[local] Hint Resolve typed_scan_tracees : typed.

Lemma typed_waitpid_round fuel pid options : typed (waitpid_round cpu fuel pid options).
Proof using Type*. unfold waitpid_round, spin. typed_solve. Qed.
#[local] Hint Resolve typed_waitpid_round : typed.
(** A signal of its range is added. *)
Lemma shift_signal_bound signum : 0 ≤ signum < NUMSIGNALS → 0 ≤ shift_signal signum < 2 ^ NUMSIGNALS.
Proof using. intros H. unfold shift_signal. rewrite Z.shiftl_1_l. split; [apply Z.pow_nonneg; lia|]. apply Z.pow_lt_mono_r; unfold NUMSIGNALS in *; lia. Qed.

Lemma typed_pend a signum : 0 ≤ signum < NUMSIGNALS →
  typed (set a (λ p, with_pending_signals (Z.lor (pending_signals p) (shift_signal signum)) p)).
Proof using.
  intros [? ?]%shift_signal_bound. apply typed_set. intros p (? & ? & ? & ? & ? & ?).
  refine (conj _ (conj _ (conj _ (conj _ (conj _ _))))); cbn [flags pending_signals blocked_signals awaited_signals restored_signals signals with_pending_signals]; try done.
  by apply lor_bound.
Qed.

Lemma typed_send_signal fuel pid signum force_root : typed (send_signal cpu fuel pid signum force_root).
Proof using Type*.
  unfold send_signal. apply typed_bind; [eauto with typed|intros a]. destruct (a =? NULL); [eauto with typed|].
  apply typed_proc; intros p _. apply typed_bind; [eauto with typed|intros c]. apply typed_proc; intros me _.
  destruct (_ && _); [eauto with typed|]. destruct (has p PROC_FLAG_IS_TASKLET); [eauto with typed|].
  destruct ((NUMSIGNALS <=? signum) || (signum <? 0)) eqn:E; [eauto with typed|].
  apply orb_false_iff in E as [E1%Z.leb_gt E2%Z.ltb_ge]. pose proof (typed_pend a signum (conj E2 E1)) as K. clear E1 E2.
  generalize dependent (λ p0, with_pending_signals (Z.lor (pending_signals p0) (shift_signal signum)) p0). intros f K.
  typed_solve.
Qed.
#[local] Hint Resolve typed_send_signal : typed.

Lemma typed_send_all fuel j signum force_root g l self sent : typed (send_all cpu fuel j signum force_root g l self sent).
Proof using Type*. revert self sent. induction l as [|a l IH]; intros self sent; cbn [send_all]; typed_solve. Qed.
#[local] Hint Resolve typed_send_all : typed.

Lemma typed_group_send_signal fuel g signum force_root : typed (group_send_signal cpu fuel g signum force_root).
Proof using Type*. unfold group_send_signal. typed_solve. Qed.
#[local] Hint Resolve typed_group_send_signal : typed.

Lemma typed_free_tracees l : typed (free_tracees l).
Proof using Type*. induction l as [|a l IH]; cbn [free_tracees]; typed_solve. Qed.
#[local] Hint Resolve typed_free_tracees : typed.

Lemma typed_task_exit fuel retval : typed (task_exit cpu fuel retval).
Proof using Type*. unfold task_exit, free_queue, wakeup_queue. typed_solve. Qed.
#[local] Hint Resolve typed_task_exit : typed.

Lemma typed_ptrace_signal fuel signum reason : typed (ptrace_signal cpu fuel signum reason).
Proof using Type*. unfold ptrace_signal, wakeup_queue. typed_solve. Qed.
#[local] Hint Resolve typed_ptrace_signal : typed.

Lemma typed_ptrace_signal_resume : typed (ptrace_signal_resume cpu).
Proof using Type*. unfold ptrace_signal_resume. typed_solve. Qed.
#[local] Hint Resolve typed_ptrace_signal_resume : typed.

Lemma typed_ptrace_trace t a : typed (ptrace_trace t a).
Proof using Type*. unfold ptrace_trace. typed_solve. Qed.
#[local] Hint Resolve typed_ptrace_trace : typed.
Lemma typed_ptrace_attach fuel pid : typed (ptrace_attach cpu fuel pid).
Proof using Type*. unfold ptrace_attach. typed_solve. Qed.
Lemma typed_ptrace_self : typed (ptrace_self cpu).
Proof using Type*. unfold ptrace_self. typed_solve. Qed.
Lemma typed_signal_and_continue fuel pid a sig : typed (signal_and_continue cpu fuel pid a sig).
Proof using Type*. unfold signal_and_continue. typed_solve. Qed.
#[local] Hint Resolve typed_signal_and_continue : typed.
Lemma typed_stopped_tracee fuel pid : typed (stopped_tracee cpu fuel pid).
Proof using Type*. unfold stopped_tracee. typed_solve. Qed.
#[local] Hint Resolve typed_stopped_tracee : typed.
Lemma typed_ptrace_continue fuel pid sig : typed (ptrace_continue cpu fuel pid sig).
Proof using Type*. unfold ptrace_continue. typed_solve. Qed.
Lemma typed_ptrace_detach fuel pid sig : typed (ptrace_detach cpu fuel pid sig).
Proof using Type*. unfold ptrace_detach. typed_solve. Qed.
Lemma typed_ptrace_signals_only fuel pid : typed (ptrace_signals_only cpu fuel pid).
Proof using Type*. unfold ptrace_signals_only. typed_solve. Qed.
Lemma typed_ptrace_singlestep fuel pid sig : typed (ptrace_singlestep cpu fuel pid sig).
Proof using Type*. unfold ptrace_singlestep. typed_solve. Qed.

Lemma typed_take a signum : typed (set a (take_signal signum)).
Proof using.
  apply typed_set. intros p (? & ? & ? & ? & ? & ?). unfold take_signal.
  refine (conj _ (conj _ (conj _ (conj _ (conj _ _))))); cbn [flags pending_signals blocked_signals awaited_signals restored_signals signals with_pending_signals]; try done.
  apply ldiff_bound; [unfold NUMSIGNALS; lia|done].
Qed.
#[local] Hint Resolve typed_take : typed.

Lemma typed_await a awaited : 0 ≤ awaited < 2 ^ 64 → typed (set a (with_awaited_signals awaited)).
Proof using. intros H. apply typed_set. intros p (? & ? & ? & ? & ? & ?). by refine (conj _ (conj _ (conj _ (conj _ (conj _ _))))). Qed.
#[local] Hint Resolve typed_await : typed.

Lemma typed_await_round fuel awaited : 0 ≤ awaited < 2 ^ 64 → typed (await_round cpu fuel awaited).
Proof using Type*. 
  intros Hw. unfold await_round. apply typed_bind; [eauto with typed|intros a]. apply typed_proc; intros p _. cbv zeta.
  destruct (first_signal _ _ _) as [signum|]; typed_solve.
Qed.

Lemma typed_await_resume fuel awaited : 0 ≤ awaited < 2 ^ 64 → typed (await_resume cpu fuel awaited).
Proof using Type*. intros Hw. pose proof (typed_await_round fuel awaited Hw) as K. unfold await_resume. typed_solve. Qed.

Lemma typed_signal_wait fuel : typed (signal_wait cpu fuel).
Proof using Type*. unfold signal_wait. typed_solve. Qed.
#[local] Hint Resolve typed_signal_wait : typed.

Lemma typed_stopped_resume fuel a rax : typed (stopped_resume cpu fuel a rax).
Proof using Type*. unfold stopped_resume. typed_solve. Qed.
#[local] Hint Resolve typed_stopped_resume : typed.

Context (syscall_handler : Z → St kernel Z) (Hsys : ∀ n, typed (syscall_handler n)).

Lemma typed_maybe_restart rax signum no_handler : typed (maybe_restart_system_call cpu syscall_handler rax signum no_handler).
Proof using Type*. unfold maybe_restart_system_call. typed_solve. Qed.
#[local] Hint Resolve typed_maybe_restart : typed.

Lemma typed_handle_config fuel a rax signum config : typed (handle_config cpu syscall_handler fuel a rax signum config).
Proof using Type*. unfold handle_config, ignore_signal, stop_by_default, wakeup_queue. typed_solve. Qed.
#[local] Hint Resolve typed_handle_config : typed.

Lemma typed_handle_signal fuel a rax signum : typed (handle_signal cpu syscall_handler fuel a rax signum).
Proof using Type*. unfold handle_signal. typed_solve. Qed.
#[local] Hint Resolve typed_handle_signal : typed.

Lemma typed_handle_traced fuel a rax config : typed (handle_traced cpu syscall_handler fuel a rax config).
Proof using Type*. unfold handle_traced. typed_solve. Qed.
#[local] Hint Resolve typed_handle_traced : typed.

Lemma typed_process_check_signals rounds fuel rax : typed (process_check_signals cpu syscall_handler rounds fuel rax).
Proof using Type*. revert rax. induction rounds as [|rounds IH]; intros rax; cbn [process_check_signals]; typed_solve. Qed.
#[local] Hint Resolve typed_process_check_signals : typed.

Lemma typed_return_from_signal_handler rounds fuel rax signum : typed (return_from_signal_handler cpu syscall_handler rounds fuel rax signum).
Proof using Type*. unfold return_from_signal_handler. typed_solve. Qed.
#[local] Hint Resolve typed_return_from_signal_handler : typed.
End typed.

(** ** The system

    An operation of any core; a system call that is restarted is any sequence of them. *)
Inductive operation `{!Malloc} : ∀ A, St kernel A → Prop :=
  | op_ret {A} (x : A) : operation A (mret x)
  | op_bind {A B} (f : St kernel A) (g : A → St kernel B) : operation A f → (∀ x, operation B (g x)) → operation B (f ≫= g)
  | op_ap_main cpu : operation _ (ap_main cpu)
  | op_fork cpu : operation _ (fork cpu)
  | op_clone cpu : operation _ (clone cpu)
  | op_spawn_worker_thread cpu : operation _ (spawn_worker_thread cpu)
  | op_list_create : operation _ list_create
  | op_make_process_ready a : operation _ (make_process_ready a)
  | op_switch_task cpu fuel reschedule : operation _ (switch_task cpu fuel reschedule)
  | op_switch_next cpu fuel : operation _ (switch_next cpu fuel)
  | op_wakeup_queue fuel q : operation _ (wakeup_queue fuel q)
  | op_wakeup_queue_interrupted fuel q : operation _ (wakeup_queue_interrupted fuel q)
  | op_wakeup_queue_one q : operation _ (wakeup_queue_one q)
  | op_sleep_on cpu fuel q : operation _ (sleep_on cpu fuel q)
  | op_sleep_on_unlocking cpu fuel q : operation _ (sleep_on_unlocking cpu fuel q)
  | op_wakeup_sleepers fuel seconds subseconds : operation _ (wakeup_sleepers fuel seconds subseconds)
  | op_process_awaken_signal a : operation _ (process_awaken_signal a)
  | op_process_alert_node a v : operation _ (process_alert_node a v)
  | op_process_from_pid fuel pid : operation _ (process_from_pid fuel pid)
  | op_send_signal cpu fuel pid signum force_root : operation _ (send_signal cpu fuel pid signum force_root)
  | op_group_send_signal cpu fuel group_ signum force_root : operation _ (group_send_signal cpu fuel group_ signum force_root)
  | op_task_exit cpu fuel retval : operation _ (task_exit cpu fuel retval)
  | op_ptrace_signal cpu fuel signum reason : operation _ (ptrace_signal cpu fuel signum reason)
  | op_ptrace_signal_resume cpu : operation _ (ptrace_signal_resume cpu)
  | op_ptrace_attach cpu fuel pid : operation _ (ptrace_attach cpu fuel pid)
  | op_ptrace_self cpu : operation _ (ptrace_self cpu)
  | op_ptrace_continue cpu fuel pid sig : operation _ (ptrace_continue cpu fuel pid sig)
  | op_ptrace_detach cpu fuel pid sig : operation _ (ptrace_detach cpu fuel pid sig)
  | op_ptrace_signals_only cpu fuel pid : operation _ (ptrace_signals_only cpu fuel pid)
  | op_ptrace_singlestep cpu fuel pid sig : operation _ (ptrace_singlestep cpu fuel pid sig)
  | op_check_signals cpu syscall_handler rounds fuel rax : (∀ n, operation Z (syscall_handler n)) →
      operation _ (process_check_signals cpu syscall_handler rounds fuel rax)
  | op_return_from_signal_handler cpu syscall_handler rounds fuel rax signum : (∀ n, operation Z (syscall_handler n)) →
      operation _ (return_from_signal_handler cpu syscall_handler rounds fuel rax signum)
  | op_handle_traced cpu syscall_handler fuel a rax config : (∀ n, operation Z (syscall_handler n)) →
      operation _ (handle_traced cpu syscall_handler fuel a rax config)
  | op_stopped_resume cpu fuel a rax : operation _ (stopped_resume cpu fuel a rax)
  | op_await_round cpu fuel awaited : 0 ≤ awaited < 2 ^ 64 → operation _ (await_round cpu fuel awaited)
  | op_await_resume cpu fuel awaited : 0 ≤ awaited < 2 ^ 64 → operation _ (await_resume cpu fuel awaited)
  | op_signal_wait cpu fuel : operation _ (signal_wait cpu fuel).

(** Those that are called in a state: a process puts itself to sleep, waits on nodes that only
    register, or waits for its children. *)
Inductive step `{!Malloc} (k k' : kernel) : Prop :=
  | step_operation {A} (f : St kernel A) x : operation A f → f k = Done (x, k') → step k k'
  | step_sleep_until cpu c seconds subseconds : cores k !! cpu = Some c →
      sleep_until cpu (current_process c) seconds subseconds k = Done (tt, k') → step k k'
  | step_process_wait_nodes cpu selectcheck selectwait fuel a nodes timeout now r :
      (∀ n k r k', selectcheck n k = Done (r, k') → k' = k) →
      (∀ n a k r k', selectwait n a k = Done (r, k') → registers a k k') →
      a ∈ process_list k →
      process_wait_nodes cpu selectcheck selectwait fuel a nodes timeout now k = Done (r, k') → step k k'
  | step_waitpid cpu fuel pid options r : waitpid_round cpu fuel pid options k = Done (r, k') → step k k'.

(** From the start of the first processor on. *)
Definition reachable `{!Malloc} (k : kernel) : Prop :=
  ∃ k0, tasking_start 0 initialize_process_tree = Done (tt, k0) ∧ rtc step k0 k.

(** Somewhere on the way to [k], from a kernel in order, a [waitpid] removed a process that had
    ended while a queue still held it or one that waits to be freed. *)
Definition removed_queued `{!Malloc} (k : kernel) : Prop := ∃ cpu fuel pid options r b k1 k2,
  reachable k1 ∧ wf k1 ∧ family k1 ∧ waitpid_round cpu fuel pid options k1 = Done (r, k2) ∧
  removes cpu fuel b k1 k2 ∧ ¬ tidy b k1 ∧ rtc step k2 k.

(** A kernel that operations alone lead to. *)
Definition operates `{!Malloc} (k k' : kernel) : Prop := ∃ A (f : St kernel A) x, operation A f ∧ f k = Done (x, k').
Definition operated `{!Malloc} (k : kernel) : Prop :=
  ∃ k0, tasking_start 0 initialize_process_tree = Done (tt, k0) ∧ rtc operates k0 k.

Section system.
Context `{M : !Malloc}.

#[local] Hint Resolve keeps_list_create keeps_make_process_ready keeps_switch_task keeps_switch_next keeps_wakeup_loop
  keeps_wakeup_queue_one keeps_sleep_on keeps_sleep_on_unlocking keeps_wakeup_sleepers keeps_process_awaken_signal
  keeps_process_alert_node_locked keeps_process_from_pid keeps_send_signal keeps_group_send_signal keeps_task_exit keeps_ptrace_signal
  keeps_ptrace_signal_resume keeps_stopped_resume keeps_await_round keeps_await_resume keeps_signal_wait keeps_ret : keeps.
#[local] Hint Resolve quiet_make_process_ready quiet_switch_task quiet_switch_next quiet_wakeup_loop
  quiet_wakeup_queue_one quiet_sleep_on quiet_sleep_on_unlocking quiet_wakeup_sleepers quiet_process_awaken_signal
  quiet_process_alert_node_locked quiet_process_from_pid quiet_send_signal quiet_group_send_signal quiet_task_exit quiet_ptrace_signal
  quiet_ptrace_signal_resume quiet_stopped_resume quiet_await_round quiet_await_resume quiet_signal_wait : quiet.
#[local] Hint Resolve sound_bind sound_ap_main sound_fork sound_clone sound_spawn_worker_thread sound_process_check_signals
  sound_return_from_signal_handler sound_handle_traced sound_ptrace_attach sound_ptrace_self sound_ptrace_continue sound_ptrace_detach
  sound_ptrace_signals_only sound_ptrace_singlestep : sound.
#[local] Hint Resolve typed_ap_main typed_fork typed_clone typed_spawn_worker_thread typed_make_process_ready
  typed_switch_task typed_switch_next typed_wakeup_loop typed_wakeup_queue_one typed_sleep_on typed_sleep_on_unlocking typed_wakeup_sleepers
  typed_process_awaken_signal typed_process_alert_node_locked typed_process_from_pid typed_send_signal typed_group_send_signal typed_task_exit
  typed_ptrace_signal typed_ptrace_signal_resume typed_process_check_signals typed_return_from_signal_handler typed_handle_traced
  typed_stopped_resume typed_await_round typed_await_resume typed_signal_wait typed_bind typed_ptrace_attach typed_ptrace_self
  typed_ptrace_continue typed_ptrace_detach typed_ptrace_signals_only typed_ptrace_singlestep : typed.

Lemma operation_sound {A} (f : St kernel A) : operation A f → sound f.
Proof.
  induction 1; unfold wakeup_queue, wakeup_queue_interrupted, process_alert_node;
    solve [eauto with sound|apply sound_quiet; [eauto with keeps|quiet_solve]].
Qed.

Lemma operation_typed {A} (f : St kernel A) : operation A f → typed f.
Proof.
  induction 1; unfold wakeup_queue, wakeup_queue_interrupted, process_alert_node; eauto with typed. same_procs.
Qed.

Lemma step_sound k k' : step k k' → wf k → family k →
  (wf k' ∧ family k') ∨ ∃ cpu fuel pid options r b, waitpid_round cpu fuel pid options k = Done (r, k') ∧ removes cpu fuel b k k' ∧ ¬ tidy b k.
Proof.
  intros [A f x Hf E|cpu c t u Hc E|cpu sc sw fuel a nodes timeout now r H1 H2 Ha E|cpu fuel pid options r E] W F.
  - left. by eapply operation_sound.
  - left. split; [by eapply sleep_until_wf|]. eapply family_same, F. by eapply quiet_sleep_until.
  - left. split; [by eapply (process_wait_nodes_wf cpu sc sw H1 H2)|]. eapply family_same, F. eapply quiet_process_wait_nodes; [| |exact E].
    + intros n k1 y k2 E1. by rewrite (H1 _ _ _ _ E1).
    + intros n b k1 y k2 E1. destruct (H2 _ _ _ _ _ E1) as [->|(p & ws & v & Hb & _ & ->)]; [done|].
      assert (Q : quiet (set b (with_node_waits (Some (ws ++ [v]))))) by (by apply quiet_set). by apply (Q k1 tt), set_run.
  - destruct (waitpid_round_sound cpu fuel pid options k r k' W F E) as [?|(b & ? & ?)]; [by left|right; by exists cpu, fuel, pid, options, r, b].
Qed.

Lemma step_words k k' : step k k' → words_ok k → words_ok k'.
Proof.
  intros [A f x Hf E|cpu c t u Hc E|cpu sc sw fuel a nodes timeout now r H1 H2 Ha E|cpu fuel pid options r E] W.
  - by eapply operation_typed.
  - by eapply typed_sleep_until.
  - eapply typed_process_wait_nodes; [| |done|done].
    + intros n k1 y k2 W1 E1. by rewrite (H1 _ _ _ _ E1).
    + intros n b k1 y k2 W1 E1. destruct (H2 _ _ _ _ _ E1) as [->|(p & ws & v & Hb & _ & ->)]; [done|].
      apply map_Forall_insert_2; [|done]. by apply (W1 b p).
  - by eapply typed_waitpid_round.
Qed.

Lemma start_sound : ∃ k, tasking_start 0 initialize_process_tree = Done (tt, k) ∧ wf k ∧ family k.
Proof.
  destruct (tasking_start_run) as (k & E & F). exists k. split_and!; [done| |done]. eapply keeps_tasking_start, E. exact initial_wf.
Qed.

Lemma reachable_sound k : reachable k → (wf k ∧ family k) ∨ removed_queued k.
Proof.
  intros (k0 & E0 & H). destruct start_sound as (k0' & E0' & W & F). assert (k0' = k0) as -> by congruence. clear E0'.
  assert (R : reachable k0) by (by exists k0). revert R W F. clear E0. induction H as [|k1 k2 k3 Hs Hr IH]; intros R W F; [by left|].
  destruct (step_sound _ _ Hs W F) as [[W2 F2]|(cpu & fuel & pid & options & r & b & Hw & Hrem & Ht)]; [|right; by exists cpu, fuel, pid, options, r, b, k1, k2].
  apply IH; [|done|done]. destruct R as (k0 & E0 & R). exists k0. split; [done|]. by eapply rtc_r.
Qed.

Lemma operated_reachable k : operated k → reachable k.
Proof.
  intros (k0 & E & H). exists k0. split; [done|]. clear E. induction H as [|k1 k2 k3 (A & f & x & Hf & E) _ IH]; [done|].
  eapply rtc_l; [by eapply step_operation|done].
Qed.

Lemma operated_sound k : operated k → wf k ∧ family k.
Proof.
  intros (k0 & E0 & H). destruct start_sound as (k0' & E0' & W & F). assert (k0' = k0) as -> by congruence. clear E0 E0'.
  induction H as [|k1 k2 k3 (A & f & x & Hf & E) _ IH]; [done|]. destruct (operation_sound f Hf _ _ _ W F E). by apply IH.
Qed.

Lemma reachable_words k : reachable k → words_ok k.
Proof.
  intros (k0 & E0 & H). assert (W0 : words_ok k0) by (eapply typed_tasking_start, E0; done). clear E0.
  induction H as [|k1 k2 k3 Hs _ IH]; [done|]. by eapply IH, step_words.
Qed.
End system.
