(* ===== verification/ProcessTheorems.v ===== *)
(** * What the process system promises

    The theorems on processes, scheduling, waiting and signals, each with an instance in a
    kernel that the operations themselves build. *)
From S2P Require Import Prelude KTree Process ProcessQueues ProcessWait Scheduler ProcessTree Signal SignalProps Family Ptrace ProcessSystem.
Local Open Scope Z_scope.

(** ** Kernels for the instances *)

(** The kernel behind an operation. *)
Definition after {A} (f : St kernel A) (k : kernel) : kernel := match f k with Done (_, k') => k' | _ => k end.

Lemma operated_after `{M : !Malloc} {A} (f : St kernel A) k : operation A f → operated k → operated (after f k).
Proof.
  intros Hf (k0 & E0 & H). exists k0. split; [done|]. unfold after. destruct (f k) as [[x k']| |] eqn:E; [|done..].
  eapply rtc_r; [exact H|]. by exists A, f, x.
Qed.

(** One core, init at 1 running, the idle process at 2 and two children at 3 and 4. *)
Definition demo_start : kernel := after (tasking_start 0) initialize_process_tree.
Definition demo : kernel := after (fork 0) (after (fork 0) demo_start).
(** Init and its first child sleep in the queue 4. *)
Definition demo_asleep : kernel := after (sleep_on 0 10 4) (after (sleep_on 0 10 4) demo).
(** The first child has exited with status 3, and init runs. *)
Definition demo_exited : kernel :=
  after (switch_task 0 10 true) (after (task_exit 0 10 768) (after (switch_task 0 10 true) demo)).

Ltac reach H := repeat match goal with
  | |- operated (after _ _) => apply operated_after;
    [first [apply op_fork|apply op_ap_main|apply op_switch_task|apply op_switch_next|apply op_task_exit|apply op_sleep_on|apply op_send_signal|apply op_ptrace_signal|apply op_ptrace_attach]|]
  | |- operated _ => exact H
  end.

Lemma demo_start_operated : operated demo_start.
Proof. destruct tasking_start_run as (k & E & _). exists k. split; [done|]. unfold demo_start, after. by rewrite E. Qed.
Lemma demo_operated : operated demo.
Proof. unfold demo. reach demo_start_operated. Qed.
Lemma demo_asleep_operated : operated demo_asleep.
Proof. unfold demo_asleep. reach demo_operated. Qed.
Lemma demo_exited_operated : operated demo_exited.
Proof. unfold demo_exited. reach demo_operated. Qed.

#[local] Opaque demo_start demo demo_asleep demo_exited.

(** ** Every reachable state *)

(** C2: In every reachable kernel, whatever the cores do and however their operations
    interleave, the queues and the tree are in order: each process is in the ready queue exactly
    when its node says so, and in at
    most one wait queue or the queue of timed sleeps, the one that owns its node, once; the
    timed sleeps are in order and each knows its sleeper; the process tree is a tree with
    one node for each process of the process list, which has no process twice.  There is one way
    out of it: on the way a [waitpid], called while all was in order, removed a process that had
    ended while a queue still held it or a process that waits to be freed
    ([finished_process_freed_in_queue] is such a way). *)
Theorem processes_well_formed `{M : !Malloc} k : reachable k → (wf k ∧ family k) ∨ removed_queued k.
Proof. apply reachable_sound. Qed.

Lemma processes_well_formed_witness : ((wf demo_asleep ∧ family demo_asleep) ∨ removed_queued demo_asleep) ∧
  process_list demo_asleep = [1; 3; 4] ∧ queues demo_asleep !! 4 = Some [1; 3] ∧ current_process <$> cores demo_asleep !! 0 = Some 4.
Proof.
  split_and!; [exact (processes_well_formed demo_asleep (operated_reachable _ demo_asleep_operated))|by vm_compute..].
Defined.

(** C33: In every reachable kernel the words of a process are of their types: the flags 32
    bits, the signal sets 64, a pending signal one of the NUMSIGNALS that exist, and the
    table of signal actions has an entry for each of them. *)
Theorem process_words `{M : !Malloc} k a p : reachable k → procs k !! a = Some p →
  0 ≤ flags p < 2 ^ 32 ∧ 0 ≤ pending_signals p < 2 ^ NUMSIGNALS ∧ 0 ≤ blocked_signals p < 2 ^ 64 ∧
  0 ≤ awaited_signals p < 2 ^ 64 ∧ 0 ≤ restored_signals p < 2 ^ 64 ∧ length (signals p) = 39%nat.
Proof. intros H Ha. by apply (reachable_words k H a). Qed.

Lemma process_words_witness : ∃ p, procs demo_exited !! 3 = Some p ∧ flags p = 6 ∧ (0 ≤ flags p < 2 ^ 32) ∧ length (signals p) = 39%nat.
Proof.
  assert (Hf : flags <$> procs demo_exited !! 3 = Some 6) by (by vm_compute). destruct (procs demo_exited !! 3) as [p|] eqn:E; [|done].
  destruct (process_words demo_exited 3 p (operated_reachable _ demo_exited_operated) E) as (H1 & _ & _ & _ & _ & H2).
  exists p. refine (conj eq_refl (conj _ (conj H1 H2))). by injection Hf.
Defined.

(** ** Sleeping and waking *)

(** [wakeup_queue] and [wakeup_queue_interrupted] wake all the sleepers of a queue,
    the last to come first: the queue is empty and what they return the number of its
    processes; each that has not ended is awake and joins the ready queue unless it is in
    it; under interruption it is told so; every other process, queue and sleep stays. *)
Theorem wakeup_queue_correct (fuel : nat) (interrupted : bool) q l k : wf k → queues k !! q = Some l → (length l < fuel)%nat →
  ∃ k', (if interrupted then wakeup_queue_interrupted else wakeup_queue) fuel q k = Done (i32 (Z.of_nat (length l)), k') ∧
    queue_woken interrupted q l k k'.
Proof. intros W Hq Hf. destruct interrupted; by apply (wakeup_loop_run _ _ _ _ 0). Qed.

Lemma wakeup_queue_correct_witness : ∃ k', wakeup_queue 10 4 demo_asleep = Done (2, k') ∧
  queue_woken false 4 [1; 3] demo_asleep k' ∧ process_queue k' = [3; 1].
Proof.
  destruct (operated_sound _ demo_asleep_operated) as [W _].
  destruct (wakeup_queue_correct 10 false 4 [1; 3] demo_asleep W) as (k' & Hrun & Hw); [by vm_compute|cbn; lia|].
  exists k'. split_and!; [exact Hrun|exact Hw|]. rewrite (qw_ready _ _ _ _ _ Hw). by vm_compute.
Defined.

(** C16: [wakeup_sleepers] at a time wakes exactly what is due: no sleeper that is due is
    left in the queue; a process that slept until a time that has come is in the ready
    queue; one that waited on nodes with a timeout that has come runs with the index of its
    timeout; a process none of whose sleeps is due keeps its state.  The loop ends with one
    round more than there are sleepers. *)
Theorem wakeup_sleepers_correct (fuel : nat) seconds subseconds k : wf k → (length (sleep_queue k) < fuel)%nat →
  ∃ k', wakeup_sleepers fuel seconds subseconds k = Done (tt, k') ∧ sleepers_woken seconds subseconds k k'.
Proof. apply wakeup_sleepers_run. Qed.

(** Init sleeps until second 5. *)
Definition demo_timed : kernel := after (sleep_until 0 1 5 0) demo.

Lemma demo_timed_wf : wf demo_timed.
Proof.
  destruct (operated_sound _ demo_operated) as [W _]. unfold demo_timed, after.
  destruct (sleep_until 0 1 5 0 demo) as [[[] k]| |] eqn:E; [|done..].
  by apply (sleep_until_wf 0 demo (Core 1 0 2) 5 0 k W).
Qed.

Lemma wakeup_sleepers_correct_witness : ∃ k', wakeup_sleepers 10 6 0 demo_timed = Done (tt, k') ∧
  sleepers_woken 6 0 demo_timed k' ∧ sleep_queue demo_timed = [1] ∧ in_ready 1 k'.
Proof.
  destruct (wakeup_sleepers_correct 10 6 0 demo_timed demo_timed_wf) as (k' & Hrun & Hw); [by vm_compute; lia|].
  assert (Hs : sleepers demo_timed !! 1 = Some (Sleeper 5 0 1 0)) by (by vm_compute).
  assert (Hq : sleep_queue demo_timed = [1]) by (by vm_compute).
  exists k'. split_and!; [exact Hrun|exact Hw|exact Hq|]. apply (sw_timed _ _ _ _ Hw 1 (Sleeper 5 0 1 0)); [|exact Hs|done|done].
  rewrite Hq. by left.
Defined.

#[local] Opaque demo_timed.

(** ** Scheduling *)

(** C6: The processes of a core take turns.  The ready queue holds processes that can run
    ([fair]: none of them has ended, runs elsewhere or is in a wait queue, and the core does not idle;
    what the scheduler does with the others is [next_process_correct]).  Then after [n] yields, [n] up to the length of
    the ready queue, the process at place [n] of the queue runs, and those before it and
    the one that ran first wait behind the others in their order, so a ready process runs
    after as many yields as there are processes before it. *)
Theorem round_robin cpu (fuel n : nat) k c p a : fair cpu k c p → (0 < fuel)%nat →
  (current_process c :: process_queue k) !! n = Some a →
  ∃ k' c', yields cpu fuel n k = Done (tt, k') ∧ cores k' !! cpu = Some c' ∧ current_process c' = a ∧
    a :: process_queue k' = drop n (current_process c :: process_queue k) ++ take n (current_process c :: process_queue k).
Proof.
  intros F Hf Hn. destruct (yields_rotate cpu fuel n k c p F Hf) as (k' & c' & p' & Hrun & F' & Hq).
  assert (R : ∀ l : list Z, (n ≤ length l)%nat → Nat.iter n (λ l, tail l ++ take 1 l) l = drop n l ++ take n l).
  { clear. induction n as [|n IH]; intros l Hl; [by rewrite app_nil_r|]. cbn [Nat.iter nat_rect]. 
    change (nat_rect _ _ _ n) with (Nat.iter n (λ l : list Z, tail l ++ take 1 l) l).
    destruct (lookup_lt_is_Some_2 l n Hl) as [x Hx]. rewrite IH, (drop_S _ _ _ Hx), (take_S_r _ _ _ Hx) by lia. cbn. by rewrite app_assoc. }
  assert (Hlen := lookup_lt_Some _ _ _ Hn). rewrite R in Hq by lia. clear R. rewrite (drop_S _ _ _ Hn) in Hq |- *. cbn in Hq |- *.
  injection Hq as Hc Hq. exists k', c'. split_and!; [done|apply (fr_core _ _ _ _ F')|done|]. by rewrite Hq.
Qed.

(** A fact on the process at an address, by evaluation. *)
Lemma proc_fact {B} (f : process → B) k a p x : f <$> procs k !! a = Some x → procs k !! a = Some p → f p = x.
Proof. intros H Ha. rewrite Ha in H. by injection H. Qed.

Lemma demo_fair : ∃ p, fair 0 demo (Core 1 0 2) p.
Proof.
  set (f := λ p : process, (has p PROC_FLAG_RUNNING, has p PROC_FLAG_FINISHED, owner p, sched_queued p, sleep_owner p)).
  assert (H1 : f <$> procs demo !! 1 = Some (true, false, 0, false, 0)) by (by vm_compute).
  destruct (procs demo !! 1) as [p|] eqn:E; [|done]. injection H1 as Hr Hfi Ho Hq Hs.
  exists p. assert (Hready : process_queue demo = [3; 4]) by (by vm_compute).
  refine (Build_fair 0 demo (Core 1 0 2) p (proj1 (operated_sound _ demo_operated)) _ E _ _ _ _); clear E; try rewrite Hready; try clear Hready.
  - by vm_compute.
  - exact (conj Hr (conj Hfi (conj Ho (conj Hq Hs)))).
  - split; [done|]. by intros [?|[?|?%elem_of_nil]%elem_of_cons]%elem_of_cons.
  - split; [done|]. by intros [?|[?|?%elem_of_nil]%elem_of_cons]%elem_of_cons.
  - set (g := λ p : process, (has p PROC_FLAG_RUNNING, has p PROC_FLAG_FINISHED, sleep_owner p)).
    assert (H3 : g <$> procs demo !! 3 = Some (false, false, 0)) by (by vm_compute).
    assert (H4 : g <$> procs demo !! 4 = Some (false, false, 0)) by (by vm_compute).
    intros b q Hin Hb. cut (g q = (false, false, 0)); [clear; intros H; injection H as H1 H2 H3; exact (conj H1 (conj H2 H3))|].
    apply elem_of_cons in Hin as [->|Hin]; [exact (proc_fact g demo _ q _ H3 Hb)|].
    apply elem_of_cons in Hin as [->|Hin]; [exact (proc_fact g demo _ q _ H4 Hb)|destruct (proj1 (elem_of_nil b) Hin)].
Qed.

Lemma round_robin_witness : ∃ k' c', yields 0 1 2 demo = Done (tt, k') ∧ cores k' !! 0 = Some c' ∧ current_process c' = 4 ∧
  process_queue k' = [1; 3].
Proof.
  destruct demo_fair as [p F]. assert (Hready : process_queue demo = [3; 4]) by (by vm_compute).
  destruct (round_robin 0 1 2 demo (Core 1 0 2) p 4 F) as (k' & c' & Hrun & Hc & Ha & Hq); [lia|by rewrite Hready|].
  rewrite Hready in Hq. exists k', c'. split_and!; [exact Hrun|exact Hc|exact Ha|by injection Hq].
Defined.

(** What [next_ready_process] gives the scheduler, called until it gives a process
    that has not ended, is the first of the ready queue that has not ended, marked as
    running on this core, or the idle process when there is none or that process still
    runs on another core (it then goes to the end of the queue).  A process that has ended
    or runs elsewhere is never switched to, the others keep their order, and the search
    ends after one round more than the queue is long. *)
Theorem next_process_correct cpu (fuel : nat) k c idle : wf k → cores k !! cpu = Some c → procs k !! kernel_idle_task c = Some idle →
  has idle PROC_FLAG_FINISHED = false → (length (process_queue k) < fuel)%nat →
  ∃ a k' p', next_unfinished cpu fuel k = Done (a, k') ∧ wf k' ∧ same_rest k k' ∧
    procs k' !! a = Some p' ∧ has p' PROC_FLAG_FINISHED = false ∧
    ∃ ended rest, process_queue k = ended ++ rest ∧
      (∀ b p, b ∈ ended → procs k !! b = Some p → has p PROC_FLAG_FINISHED = true) ∧
      match rest with
      | [] => a = kernel_idle_task c ∧ process_queue k' = []
      | b :: rest => ∃ p, procs k !! b = Some p ∧
          if busy cpu p then a = kernel_idle_task c ∧ process_queue k' = rest ++ [b]
          else a = b ∧ p' = picked cpu p ∧ process_queue k' = rest
      end.
Proof. apply next_unfinished_run. Qed.

Lemma next_process_correct_witness : ∃ a k' p', next_unfinished 0 10 demo = Done (a, k') ∧ wf k' ∧
  procs k' !! a = Some p' ∧ has p' PROC_FLAG_FINISHED = false ∧ a = 3.
Proof.
  destruct (operated_sound _ demo_operated) as [W _]. assert (Hready : process_queue demo = [3; 4]) by (by vm_compute).
  assert (Hi : (λ p, has p PROC_FLAG_FINISHED) <$> procs demo !! 2 = Some false) by (by vm_compute).
  destruct (procs demo !! 2) as [idle|] eqn:E; [|done].
  destruct (next_process_correct 0 10 demo (Core 1 0 2) idle W) as (a & k' & p' & H1 & H2 & _ & H3 & H4 & _);
    [by vm_compute|exact E|by injection Hi|rewrite Hready; cbn; lia|].
  exists a, k', p'. split_and!; [exact H1|exact H2|exact H3|exact H4|].
  assert (R : (match next_unfinished 0 10 demo with Done (a, _) => a | _ => 0 end) = 3) by (by vm_compute). by rewrite H1 in R.
Defined.

(** ** Children *)

(** A round of [waitpid] answers by the matching children and tracees: -ECHILD when
    there are none; the first child that has ended or, as the options ask, is stopped, and
    else the first tracee that is either, with its number and status, whose low byte is
    then cleared in the process; 0 at once under WNOHANG; and else the caller goes to sleep
    in its own wait queue.  The process of a child that has ended is removed, when it runs
    no more. *)
Theorem waitpid_correct cpu (fuel : nat) k c par node pid options kids trs :
  cores k !! cpu = Some c → procs k !! current_process c = Some par → heap (process_tree k) !! tree_entry par = Some node →
  nodes_of k (children node) kids → procs_of k (default [] (tracees par)) trs →
  waitpid_round cpu fuel pid options k =
    if negb (some_match par pid options (kids ++ trs)) then Done (Returned (- ECHILD) None, k)
    else match wait_report par pid options kids trs with
    | Some (b, p) =>
        let k1 := with_procs (<[b := reported p]> (procs k)) k in
        if some_match par pid options kids && has p PROC_FLAG_FINISHED then
          if has p PROC_FLAG_RUNNING then Timeout
          else (process_delete cpu fuel b;; mret (Returned (id p) (Some (status p)))) k1
        else Done (Returned (id p) (Some (status p)), k1)
    | None =>
        if negb (Z.land options WNOHANG =? 0) then Done (Returned 0 None, k)
        else (sleep_on_unlocking cpu fuel (wait_queue par);; mret Sleeping) k
    end.
Proof. apply waitpid_round_run. Qed.

(** The record at an address of a kernel that is evaluated. *)
Definition proc_at (k : kernel) (a : Z) : process := default (new_process 0 0 0 0 0 0 0) (procs k !! a).
Ltac evaluate := vm_compute; reflexivity.

Lemma demo_kids k : procs k !! 3 = Some (proc_at k 3) → procs k !! 4 = Some (proc_at k 4) →
  heap (process_tree k) !! 2 = Some (TreeNode 3 [] 1) → heap (process_tree k) !! 3 = Some (TreeNode 4 [] 1) →
  nodes_of k [2; 3] [(3, proc_at k 3); (4, proc_at k 4)].
Proof.
  intros H3 H4 E3 E4. constructor; [by eexists|]. constructor; [by eexists|constructor].
Qed.

Lemma waitpid_correct_witness :
  waitpid_round 0 10 (-1) WNOHANG demo = Done (Returned 0 None, demo) ∧
  waitpid_round 0 10 7 0 demo = Done (Returned (- ECHILD) None, demo).
Proof.
  assert (K : nodes_of demo [2; 3] [(3, proc_at demo 3); (4, proc_at demo 4)]) by (apply demo_kids; evaluate).
  assert (K' : procs_of demo (default [] (tracees (proc_at demo 1))) []) by (replace (tracees (proc_at demo 1)) with (@None (list Z)) by evaluate; constructor).
  assert (H : ∀ pid options, _) by exact (λ pid options, waitpid_correct 0 10 demo (Core 1 0 2) (proc_at demo 1) (TreeNode 1 [2; 3] 0) pid options
    [(3, proc_at demo 3); (4, proc_at demo 4)] [] ltac:(evaluate) ltac:(evaluate) ltac:(evaluate) K K').
  split; (rewrite H; evaluate).
Defined.

(** C9: [waitpid] on a child that has ended, runs on no core any more and is in no queue, as
    are the processes that wait to be freed, returns its number and its status, and the
    child is gone: out of the process list and, with its node, out of the tree, its own
    children are children of init, which is woken for them, and its memory is free, or
    queued to be freed while another core is still on its stack; nothing else changes but
    the wake-ups.  (While the child runs [waitpid] spins; a child that is freed in a queue is
    [finished_process_freed_in_queue].) *)
Theorem waitpid_reaps_child cpu (fuel : nat) k c par pn pid options kids trs b p r init ql : wf k → tree_ok k →
  cores k !! cpu = Some c → procs k !! current_process c = Some par → heap (process_tree k) !! tree_entry par = Some pn →
  nodes_of k (children pn) kids → procs_of k (default [] (tracees par)) trs →
  first_report par pid options (reportable options) kids = Some (b, p) →
  has p PROC_FLAG_FINISHED = true → has p PROC_FLAG_RUNNING = false → idle p →
  heap (process_tree k) !! root (process_tree k) = Some r → procs k !! value r = Some init → queues k !! wait_queue init = Some ql →
  (length ql < fuel)%nat → (∀ n, heap (process_tree k) !! tree_entry p = Some n → Z.of_nat (length (children n)) < 2 ^ 31) →
  (∀ d q, d ∈ reap_queue k → procs k !! d = Some q → idle q) →
  ∃ n k', heap (process_tree k) !! tree_entry p = Some n ∧ parent n = tree_entry par ∧
    waitpid_round cpu fuel pid options k = Done (Returned (id p) (Some (status p)), k') ∧
    deleted cpu b (reported p) n (if bool_decide (children n = []) then [] else ql) (with_procs (<[b := reported p]> (procs k)) k) k'.
Proof. apply waitpid_reap_run. Qed.

Lemma waitpid_reaps_child_witness : ∃ k', waitpid_round 0 10 (-1) 0 demo_exited = Done (Returned 2 (Some 768), k') ∧
  process_list k' = [1; 4] ∧ procs k' !! 3 = None.
Proof.
  set (k := demo_exited). destruct (operated_sound k demo_exited_operated) as [W [T _]].
  assert (K : nodes_of k [2; 3] [(3, proc_at k 3); (4, proc_at k 4)]) by (apply demo_kids; evaluate).
  assert (K' : procs_of k (default [] (tracees (proc_at k 1))) []) by (replace (tracees (proc_at k 1)) with (@None (list Z)) by evaluate; constructor).
  destruct (waitpid_reaps_child 0 10 k (Core 1 4 2) (proc_at k 1) (TreeNode 1 [2; 3] 0) (-1) 0 [(3, proc_at k 3); (4, proc_at k 4)] [] 3
    (proc_at k 3) (TreeNode 1 [2; 3] 0) (proc_at k 1) [] W T ltac:(evaluate) ltac:(evaluate) ltac:(evaluate) K K' ltac:(evaluate) ltac:(evaluate) ltac:(evaluate))
    as (n & k' & _ & _ & Hrun & [_ _ Hl _ _ Hg _ _]).
  - split_and!; evaluate.
  - evaluate.
  - evaluate.
  - evaluate.
  - cbn. lia.
  - intros n Hn. replace (heap (process_tree k) !! tree_entry (proc_at k 3)) with (Some (TreeNode 3 [] 1)) in Hn by evaluate. injection Hn as <-. cbn. lia.
  - intros d q Hd. replace (reap_queue k) with (@nil Z) in Hd by evaluate. destruct (proj1 (elem_of_nil d) Hd).
  - exists k'. split_and!.
    + rewrite Hrun. replace (id (proc_at k 3)) with 2 by evaluate. replace (status (proc_at k 3)) with 768 by evaluate. reflexivity.
    + rewrite Hl. evaluate.
    + match type of Hg with if ?b then _ else _ => replace b with false in Hg by evaluate end. exact Hg.
Defined.

(** The end of a process is seen by its parent: [task_exit] records the status, marks
    the process as finished, empties the parent's wait queue and makes all that waited in
    it ready, unless they have ended themselves, before it switches away for good; SIGCHLD,
    which the parent's group ignores, leaves nothing behind. *)
Theorem task_exit_wakes_parent cpu (fuel : nat) retval k c a p n pn pp ql : wf k → tree_ok k →
  cores k !! cpu = Some c → current_process c = a → a ∈ process_list k → procs k !! a = Some p →
  queues k !! wait_queue p = Some [] → tracees p = None → tracer p = 0 →
  heap (process_tree k) !! tree_entry p = Some n → heap (process_tree k) !! parent n = Some pn → parent n ≠ NULL → value pn ≠ a →
  procs k !! value pn = Some pp → has pp PROC_FLAG_FINISHED = false → wait_queue pp ≠ wait_queue p →
  queues k !! wait_queue pp = Some ql → (length ql < fuel)%nat → (size (heap (process_tree k)) ≤ fuel)%nat →
  (∀ b q, b ∈ process_list k → procs k !! b = Some q → id q = group pp → child_ignored q = true) →
  ∃ k1 p', task_exit cpu fuel retval k = switch_next cpu fuel k1 ∧ wf k1 ∧ cores k1 = cores k ∧
    procs k1 !! a = Some p' ∧ has p' PROC_FLAG_FINISHED = true ∧ status p' = retval ∧
    queues k1 !! wait_queue pp = Some [] ∧
    ∀ b q, b ∈ ql → b ≠ a → procs k !! b = Some q → has q PROC_FLAG_FINISHED = false →
      ∃ q', procs k1 !! b = Some q' ∧ sched_queued q' = true ∧ sleep_owner q' = NULL ∧ flags q' = flags q.
Proof. apply task_exit_run. Qed.

(** Init waits for its children, the first of them runs. *)
Definition demo_waiting : kernel := after (sleep_on_unlocking 0 10 2) demo.

Lemma demo_waiting_operated : operated demo_waiting.
Proof. unfold demo_waiting. apply operated_after; [apply op_sleep_on_unlocking|exact demo_operated]. Qed.
#[local] Opaque demo_waiting.

Lemma task_exit_wakes_parent_witness : ∃ k1 q, task_exit 0 10 768 demo_waiting = switch_next 0 10 k1 ∧
  procs k1 !! 1 = Some q ∧ sched_queued q = true.
Proof.
  set (k := demo_waiting). destruct (operated_sound k demo_waiting_operated) as [W [T _]].
  destruct (task_exit_wakes_parent 0 10 768 k (Core 3 1 2) 3 (proc_at k 3) (TreeNode 3 [] 1) (TreeNode 1 [2; 3] 0) (proc_at k 1) [1] W T
    ltac:(evaluate) ltac:(evaluate)) as (k1 & p' & Hrun & _ & _ & _ & _ & _ & _ & Hw).
  - apply (bool_decide_unpack _). evaluate.
  - evaluate.
  - evaluate.
  - evaluate.
  - evaluate.
  - evaluate.
  - evaluate.
  - discriminate.
  - discriminate.
  - evaluate.
  - evaluate.
  - vm_compute. discriminate.
  - evaluate.
  - cbn. lia.
  - apply (bool_decide_unpack _). evaluate.
  - intros b q Hb Hq. replace (process_list k) with [1; 3; 4] in Hb by evaluate. replace (group (proc_at k 1)) with 0 by evaluate. intros Hid.
    exfalso. assert (H : Forall (λ b, id (proc_at k b) ≠ 0) [1; 3; 4]) by (apply (bool_decide_unpack _); evaluate).
    apply (proj1 (Forall_forall _ _) H b Hb). unfold proc_at. rewrite Hq. exact Hid.
  - destruct (Hw 1 (proc_at k 1)) as (q & Hq & Hs & _); [by left|discriminate|evaluate|evaluate|].
    exists k1, q. exact (conj Hrun (conj Hq Hs)).
Defined.

(** [process_from_pid] finds the process with a number: with fuel for the nodes of
    the tree it returns, NULL when no process of the list has the number and else a process
    of the list that has it. *)
Theorem process_from_pid_correct (fuel : nat) pid k : tree_ok k → 0 ≤ pid → (size (heap (process_tree k)) ≤ fuel)%nat →
  ∃ a, process_from_pid fuel pid k = Done (a, k) ∧
    ((a = NULL ∧ ∀ b p, b ∈ process_list k → procs k !! b = Some p → id p ≠ pid) ∨
     (a ≠ NULL ∧ a ∈ process_list k ∧ ∃ p, procs k !! a = Some p ∧ id p = pid)).
Proof. apply process_from_pid_run. Qed.

Lemma process_from_pid_correct_witness : ∃ a p, process_from_pid 10 3 demo = Done (a, demo) ∧ procs demo !! a = Some p ∧ id p = 3.
Proof.
  destruct (operated_sound _ demo_operated) as [_ [T _]].
  destruct (process_from_pid_correct 10 3 demo T) as (a & Hrun & [[-> Hno]|(_ & _ & p & Hp & Hid)]).
  - lia.
  - apply (bool_decide_unpack _). evaluate.
  - destruct (Hno 4 (proc_at demo 4)); [apply (bool_decide_unpack _); evaluate|evaluate|evaluate].
  - exists a, p. exact (conj Hrun (conj Hp Hid)).
Defined.

(** ** Signals *)


Definition SIGUSR1 : Z := 16.



(** The running process of [demo] has SIGKILL and SIGUSR1 pending, which it blocks. *)
Definition demo_killed : kernel :=
  with_procs (<[1 := with_blocked_signals (2 ^ 64 - 1) (with_pending_signals (Z.lor (Z.shiftl 1 9) (Z.shiftl 1 16)) (proc_at demo 1))]> (procs demo)) demo.

#[local] Opaque demo_killed.

Lemma demo_killed_lowest i : 0 ≤ i < 9 → deliverable (proc_at demo_killed 1) i = false.
Proof.
  intros Hi. assert (H : Forall (λ i, deliverable (proc_at demo_killed 1) i = false) [0; 1; 2; 3; 4; 5; 6; 7; 8]) by (apply (bool_decide_unpack _); evaluate).
  apply (proj1 (Forall_forall _ _) H i). assert (Hc : i = 0 ∨ i = 1 ∨ i = 2 ∨ i = 3 ∨ i = 4 ∨ i = 5 ∨ i = 6 ∨ i = 7 ∨ i = 8) by lia.
  clear -Hc. set_solver.
Qed.


(** Signals whose action is to be ignored do not keep a process from user space: when
    all that are deliverable from [s] on are ignored, the loop takes every one of them and
    returns with the registers as they were; one round more than there are signals is
    enough. *)
Theorem check_signals_ignores cpu syscall_handler (rounds fuel : nat) rax k c a p s : cores k !! cpu = Some c → current_process c = a →
  a ≠ NULL → procs k !! a = Some p → has p PROC_FLAG_FINISHED = false → has p PROC_FLAG_TRACE_SIGNALS = false →
  0 ≤ pending_signals p < 2 ^ NUMSIGNALS → interrupted_system_call p = 0 → 0 < s ≤ NUMSIGNALS →
  (∀ i, 0 ≤ i < s → deliverable p i = false) →
  (∀ j, s ≤ j < NUMSIGNALS → deliverable p j = true → disposition_of p j = Ignore) → NUMSIGNALS - s < Z.of_nat rounds →
  process_check_signals cpu syscall_handler rounds fuel rax k = Done (Resume rax, with_procs (<[a := taken_all p]> (procs k)) k).
Proof. apply check_signals_ignored. Qed.

(** The running process of [demo] has SIGCHLD and SIGCONT pending. *)
Definition demo_told : kernel :=
  with_procs (<[1 := with_pending_signals (Z.lor (Z.shiftl 1 18) (Z.shiftl 1 25)) (proc_at demo 1)]> (procs demo)) demo.
#[local] Opaque demo_told.

Lemma demo_told_deliverable i : deliverable (proc_at demo_told 1) i = (i =? 18) || (i =? 25).
Proof.
  unfold deliverable. replace (pending_signals (proc_at demo_told 1)) with (Z.lor (2 ^ 18) (2 ^ 25)) by evaluate.
  replace (blocked_signals (proc_at demo_told 1)) with 0 by evaluate. rewrite Z.bits_0. cbn [negb orb]. rewrite andb_true_r, Z.lor_spec.
  rewrite !Z.pow2_bits_eqb by lia. by rewrite (Z.eqb_sym 18), (Z.eqb_sym 25).
Qed.

Lemma check_signals_ignores_witness : process_check_signals 0 (λ _, mret 0) 40 10 5 demo_told =
  Done (Resume 5, with_procs (<[1 := taken_all (proc_at demo_told 1)]> (procs demo_told)) demo_told).
Proof.
  refine (check_signals_ignores 0 (λ _, mret 0) 40 10 5 demo_told (Core 1 0 2) 1 (proc_at demo_told 1) 1 ltac:(evaluate) ltac:(evaluate)
    ltac:(discriminate) ltac:(evaluate) ltac:(evaluate) ltac:(evaluate) _ ltac:(evaluate) ltac:(unfold NUMSIGNALS; lia) _ _ ltac:(unfold NUMSIGNALS; lia)).
  - replace (pending_signals (proc_at demo_told 1)) with (Z.lor (2 ^ 18) (2 ^ 25)) by evaluate. vm_compute. split; [discriminate|reflexivity].
  - intros i Hi. rewrite demo_told_deliverable. apply orb_false_iff. split; apply Z.eqb_neq; lia.
  - intros j Hj. rewrite demo_told_deliverable. intros [E|E]%orb_prop; apply Z.eqb_eq in E as ->; evaluate.
Defined.

(** A round of [signal_await] takes the lowest awaited signal that is pending and
    returns it; when none is, the process is marked as awaiting and switches away; what
    the sender then sees is the awaited set cut to its low 32 bits. *)
Theorem signal_await_correct cpu (fuel : nat) awaited k c a p : cores k !! cpu = Some c → current_process c = a → procs k !! a = Some p →
  0 ≤ pending_signals p → 0 ≤ awaited →
  (∃ j, 0 ≤ j < NUMSIGNALS ∧ awaited_pending awaited p j = true ∧ (∀ i, 0 ≤ i < j → awaited_pending awaited p i = false) ∧
     await_round cpu fuel awaited k = Done (Got j, with_procs (<[a := take_signal j p]> (procs k)) k)) ∨
  ((∀ j, 0 ≤ j < NUMSIGNALS → awaited_pending awaited p j = false) ∧
   let p1 := with_awaited_signals awaited p in
   await_round cpu fuel awaited k = (switch_task cpu fuel false;; mret Awaiting) (with_procs (<[a := p1]> (procs k)) k) ∧
   ∀ s, 0 < s < NUMSIGNALS → is_awaited p1 s = Z.testbit awaited s && (s <? 32)).
Proof.
  intros Hc Hca Ha Hp Hw. pose proof (await_round_run cpu fuel awaited k c a p Hc Hca Ha Hp) as H.
  destruct (first_signal _ _ _) as [j|]; [left; by exists j|right]. destruct H as [H1 H2]. split; [done|]. cbv zeta. split; [exact H2|].
  intros s Hs. by apply (is_awaited_eq (with_awaited_signals awaited p)).
Qed.

Lemma signal_await_correct_witness :
  await_round 0 10 (2 ^ 25) demo_told = Done (Got 25, with_procs (<[1 := take_signal 25 (proc_at demo_told 1)]> (procs demo_told)) demo_told).
Proof.
  destruct (signal_await_correct 0 10 (2 ^ 25) demo_told (Core 1 0 2) 1 (proc_at demo_told 1) ltac:(evaluate) ltac:(evaluate) ltac:(evaluate))
    as [(j & Hj & Haw & _ & Hrun)|[Hno _]].
  - vm_compute. discriminate.
  - lia.
  - unfold awaited_pending in Haw. apply andb_true_iff in Haw as [Haw _]. rewrite Z.pow2_bits_eqb in Haw by lia. apply Z.eqb_eq in Haw as <-. exact Hrun.
  - assert (H := Hno 25 ltac:(unfold NUMSIGNALS; lia)). unfold awaited_pending in H.
    replace (pending_signals (proc_at demo_told 1)) with (Z.lor (2 ^ 18) (2 ^ 25)) in H by evaluate. discriminate H.
Defined.

(** C32: [ptrace_continue] of a process by its tracer, while it is stopped for a signal:
    the tracee is ready, no longer stopped, and when it runs
    again [ptrace_signal] returns the signal the tracer gives (0 for none, or a number below
    [NUMSIGNALS]) and clears the status; for anyone else, and for a process that is not stopped, whatever its status, it is -ESRCH and changes nothing. *)
Theorem ptrace_continue_correct cpu (fuel : nat) pid sig k c me a p : wf k → cores k !! cpu = Some c →
  procs k !! current_process c = Some me → process_from_pid fuel pid k = Done (a, k) → a ≠ NULL → procs k !! a = Some p →
  if (tracer p =? id me) && has p PROC_FLAG_SUSPENDED then
    ∀ s, 0 < s < NUMSIGNALS → status p = stop_status s → 0 ≤ sig < NUMSIGNALS →
    ∃ k' p', ptrace_continue cpu fuel pid sig k = Done (0, k') ∧ wf k' ∧ procs k' !! a = Some p' ∧
      has p' PROC_FLAG_SUSPENDED = false ∧ sched_queued p' = true ∧ (∀ b, b ≠ a → procs k' !! b = procs k !! b) ∧
      ∀ cpu2 k2 c2 p2, cores k2 !! cpu2 = Some c2 → current_process c2 = a → procs k2 !! a = Some p2 → status p2 = status p' →
        ptrace_signal_resume cpu2 k2 = Done (sig, with_procs (<[a := with_status 0 p2]> (procs k2)) k2)
  else ptrace_continue cpu fuel pid sig k = Done (- ESRCH, k).
Proof.
  intros W Hc Hme Hfind Ha0 Ha. unfold ptrace_continue.
  rewrite (St_bind_done _ _ _ _ _ (stopped_tracee_run cpu fuel pid k c me a p Hc Hme Hfind Ha Ha0)).
  destruct (_ && _); [|done]. intros s Hs Hst Hsig. rewrite (proj2 (Z.eqb_neq _ _) Ha0).
  destruct (signal_and_continue_run cpu fuel pid a sig s k p W Ha Hs Hst) as (k' & p' & Hrun & W' & Ha' & Hsus & Hst' & Hq & _ & Hb).
  exists k', p'. rewrite (St_bind_done _ _ _ _ _ Hrun). split_and!; try done. intros cpu2 k2 c2 p2 Hc2 <- Ha2 Hst2.
  unfold ptrace_signal_resume. rewrite (St_bind_done _ _ _ _ _ (current_run cpu2 k2 c2 Hc2)), (St_bind_done _ _ _ _ _ (proc_run _ _ _ Ha2)).
  rewrite (St_bind_done _ _ _ _ _ (set_run _ _ _ _ Ha2)), Hst2, Hst'. by destruct (stop_status_fields sig Hsig) as (_ & _ & ->).
Qed.

(** Init traces its first child, which has stopped for SIGUSR1. *)
Definition demo_stopped : kernel := after (switch_task 0 10 true) (after (ptrace_signal 0 10 SIGUSR1 0)
  (after (switch_task 0 10 true) (after (ptrace_attach 0 10 2) demo))).

Lemma demo_stopped_operated : operated demo_stopped.
Proof. unfold demo_stopped. reach demo_operated. Qed.
#[local] Opaque demo_stopped.

Lemma ptrace_continue_correct_witness :
  (∃ k' p', ptrace_continue 0 10 2 SIGKILL demo_stopped = Done (0, k') ∧
    procs k' !! 3 = Some p' ∧ has p' PROC_FLAG_SUSPENDED = false ∧ sched_queued p' = true) ∧
  ptrace_continue 0 10 3 SIGKILL demo_stopped = Done (- ESRCH, demo_stopped).
Proof.
  destruct (operated_sound _ demo_stopped_operated) as [W _]. split.
  - assert (H := ptrace_continue_correct 0 10 2 SIGKILL demo_stopped (Core 1 4 2) (proc_at demo_stopped 1) 3 (proc_at demo_stopped 3) W
      ltac:(evaluate) ltac:(evaluate) ltac:(evaluate) ltac:(discriminate) ltac:(evaluate)).
    match type of H with (if ?b then _ else _) => replace b with true in H by evaluate end.
    destruct (H SIGUSR1 ltac:(unfold NUMSIGNALS, SIGUSR1; lia) ltac:(evaluate) ltac:(unfold NUMSIGNALS, SIGKILL; lia)) as (k' & p' & Hrun & _ & Hp & Hsus & Hq & _).
    exists k', p'. exact (conj Hrun (conj Hp (conj Hsus Hq))).
  - assert (H := ptrace_continue_correct 0 10 3 SIGKILL demo_stopped (Core 1 4 2) (proc_at demo_stopped 1) 4 (proc_at demo_stopped 4) W
      ltac:(evaluate) ltac:(evaluate) ltac:(evaluate) ltac:(discriminate) ltac:(evaluate)).
    match type of H with (if ?b then _ else _) => replace b with false in H by evaluate end. exact H.
Defined.

(** ** What goes wrong *)

(** A process that awaits a signal from 32 on, blocked as [signal_await] asks, is not woken
    by it: the signal becomes pending and the process stays as it is. *)
Theorem awaited_signal_not_woken cpu (fuel : nat) pid signum k c me a p : wf k → cores k !! cpu = Some c →
  procs k !! current_process c = Some me → process_from_pid fuel pid k = Done (a, k) → a ≠ NULL → procs k !! a = Some p →
  permitted me p signum false = true → has p PROC_FLAG_IS_TASKLET = false → has p PROC_FLAG_FINISHED = false →
  32 <= signum < NUMSIGNALS → 0 ≤ awaited_signals p → Z.testbit (awaited_signals p) signum = true → is_blocked p signum = true →
  send_signal cpu fuel pid signum false k = Done (0, with_procs (<[a := with_pending signum (resumed p signum)]> (procs k)) k).
Proof.
  intros W Hc Hme Hfind Ha0 Ha Hperm Ht Hf Hs Hw Haw Hb. assert (H := send_signal_run cpu fuel pid signum false k c me a p W Hc Hme Hfind Ha0 Ha).
  assert (E : is_awaited p signum = false).
  { rewrite is_awaited_eq by lia. rewrite (proj2 (Z.ltb_ge signum 32)) by lia. apply andb_false_r. }
  cbv zeta in H. rewrite Hperm, Ht, Hf, E, Hb in H. rewrite (proj2 (Z.leb_gt _ _)), (proj2 (Z.ltb_ge signum 0)), (proj2 (Z.eqb_neq signum 0)) in H by lia.
  exact H.
Qed.

(** Two cores and three children; the first, which runs on the second core, is sent a
    signal, and exits before the ready queue comes to it. *)
Definition demo_signalled : kernel :=
  after (task_exit 1 10 0) (after (send_signal 0 10 2 SIGUSR1 false) (after (switch_next 1 10)
    (after (fork 0) (after (fork 0) (after (fork 0) (after (ap_main 1) demo_start)))))).

(** A signal makes its process ready even when it runs on another core: the process is in
    the ready queue while it runs.  When it ends so, its parent can free it while it is
    still in the queue. *)
Theorem finished_process_freed_in_queue : ∃ k k' r, reachable k ∧ waitpid_round 0 10 (-1) 0 k = Done (r, k') ∧ reachable k' ∧
  4 ∈ process_queue k' ∧ procs k' !! 4 = None.
Proof.
  set (k := after (switch_task 1 10 true) demo_signalled). set (k' := after (waitpid_round 0 10 (-1) 0) k).
  assert (R : reachable k) by (apply operated_reachable; unfold k, demo_signalled; reach demo_start_operated).
  assert (E : waitpid_round 0 10 (-1) 0 k = Done (Returned 2 (Some 0), k')) by evaluate.
  exists k, k', (Returned 2 (Some 0)). split_and!; [exact R|exact E| |apply (bool_decide_unpack _); evaluate|evaluate].
  destruct R as (k0 & E0 & R). exists k0. split; [done|]. eapply rtc_r; [exact R|]. by eapply step_waitpid.
Qed.

(** [ptrace_detach] leaves the tracee in the tracer's list, and nothing removes a tracee
    whose parent reaps it: the next [waitpid] of the tracer that finds no child to report
    reads a process that is gone. *)
Definition demo_tracee_reaped : kernel := after (waitpid_round 0 10 2 0) (after (switch_task 0 10 true) (after (task_exit 0 10 0) (after (switch_task 0 10 true)
  (after (ptrace_attach 0 10 2) demo)))).

Theorem waitpid_reads_reaped_tracee : process_list demo_tracee_reaped = [1; 4] ∧ tracees <$> procs demo_tracee_reaped !! 1 = Some (Some [3]) ∧
  waitpid_round 0 10 (-1) 0 demo_tracee_reaped = Fault.
Proof. split_and!; evaluate. Qed.
