(* ===== verification/Mutex.v ===== *)
(** * Sleeping mutexes ([src/kernel/sys/mutex.c])

    A mutex that is owned across sleeps: a process that finds it taken sleeps in its queue
    and tries again when it is woken.  The wait is one of Process; between the rounds of
    one process the others run, so exclusion is shown over all interleavings of their steps
    with those of the process system. *)
From S2P Require Import Prelude KTree Process ProcessQueues ProcessWait Scheduler ProcessTree Signal SignalProps Family ProcessSystem ProcessTheorems.
Local Open Scope Z_scope.

(** ** Data and operations *)

Record sched_mutex_t : Type := Mutex { m_status : Z; m_owner : Z; waiters : Z }.
Record mutex_state : Type := MutexState { kern : kernel; mutexes : gmap Z sched_mutex_t }.
Definition with_kern (k : kernel) (s : mutex_state) : mutex_state := MutexState k (mutexes s).

(** A computation on the kernel. *)
Definition in_kern {A} (f : St kernel A) : St mutex_state A := λ s,
  match f (kern s) with Done (x, k) => Done (x, with_kern k s) | Fault => Fault | Timeout => Timeout end.
Definition rd_mutex (m : Z) : St mutex_state sched_mutex_t := λ s,
  match mutexes s !! m with Some x => Done (x, s) | None => Fault end.
Definition wr_mutex (m : Z) (x : sched_mutex_t) : St mutex_state unit := modify (λ s,
  MutexState (kern s) (<[m := x]> (mutexes s))).

Section Ops.
Context `{!Malloc}.
Context (cpu : Z).

Definition mutex_init : St mutex_state Z := λ s,
  let m := malloc (dom (mutexes s)) in
  (q ← in_kern list_create; wr_mutex m (Mutex 0 NULL q);; mret m) s.

(** A round of the loop of [mutex_acquire]: whether the mutex is taken, or the process
    sleeps. *)
Definition mutex_acquire_round (fuel : nat) (m : Z) : St mutex_state bool :=
  x ← rd_mutex m;
  if negb (m_status x =? 0) then in_kern (sleep_on_unlocking cpu fuel (waiters x));; mret false
  else
    c ← in_kern (current cpu);
    wr_mutex m (Mutex 1 c (waiters x));;
    mret true.

Definition mutex_release (m : Z) : St mutex_state Z :=
  x ← rd_mutex m;
  c ← in_kern (current cpu);
  if negb (m_owner x =? c) then fault
  else
    wr_mutex m (Mutex 0 NULL (waiters x));;
    in_kern (wakeup_queue_one (waiters x));;
    mret 0.
End Ops.

(** ** Interleavings

    The processes that hold a mutex, as they know it: [(p, m)] is held from the return of
    [p]'s [mutex_acquire] of [m] to its [mutex_release]. *)
Inductive mutex_step `{!Malloc} : mutex_state * gset (Z * Z) → mutex_state * gset (Z * Z) → Prop :=
  | ms_kernel s H k' : step (kern s) k' → mutex_step (s, H) (with_kern k' s, H)
  | ms_init s H m s' : mutex_init s = Done (m, s') → mutex_step (s, H) (s', H)
  | ms_wait cpu fuel m s H s' : mutex_acquire_round cpu fuel m s = Done (false, s') → mutex_step (s, H) (s', H)
  | ms_acquire cpu fuel m c s H s' : cores (kern s) !! cpu = Some c → current_process c ≠ NULL →
      mutex_acquire_round cpu fuel m s = Done (true, s') → mutex_step (s, H) (s', {[(current_process c, m)]} ∪ H)
  | ms_release cpu m c s H s' : cores (kern s) !! cpu = Some c → current_process c ≠ NULL →
      mutex_release cpu m s = Done (0, s') → mutex_step (s, H) (s', H ∖ {[(current_process c, m)]}).

(** Who holds a mutex is who owns it. *)
Definition held_ok (s : mutex_state) (H : gset (Z * Z)) : Prop :=
  (∀ m x, mutexes s !! m = Some x → (m_status x = 0 ∧ m_owner x = NULL) ∨ (m_status x = 1 ∧ m_owner x ≠ NULL)) ∧
  ∀ p m, (p, m) ∈ H ↔ p ≠ NULL ∧ ∃ x, mutexes s !! m = Some x ∧ m_owner x = p.

Section exclusion.
Context `{M : !Malloc}.

Lemma in_kern_run {A} (f : St kernel A) s x k : f (kern s) = Done (x, k) → in_kern f s = Done (x, with_kern k s).
Proof using. unfold in_kern. by intros ->. Qed.
Lemma in_kern_inv {A} (f : St kernel A) s x s' : in_kern f s = Done (x, s') → mutexes s' = mutexes s ∧ f (kern s) = Done (x, kern s').
Proof using. unfold in_kern. destruct (f (kern s)) as [[y k]| |]; [|done..]. by intros [= -> <-]. Qed.
Lemma current_core cpu c k : cores k !! cpu = Some c → current cpu k = Done (current_process c, k).
Proof using. intros Hc. unfold current, this_core, mbind, St_bind. by rewrite Hc. Qed.

(** The effect of each on the mutexes. *)
Lemma mutex_init_inv s m s' : mutex_init s = Done (m, s') →
  mutexes s !! m = None ∧ ∃ q, mutexes s' = <[m := Mutex 0 NULL q]> (mutexes s) ∧ list_create (kern s) = Done (q, kern s').
Proof using.
  unfold mutex_init, mbind, St_bind. destruct (in_kern list_create s) as [[q s1]| |] eqn:E; [|done..]. apply in_kern_inv in E as [E1 E2].
  intros [= <- <-]. split; [apply not_elem_of_dom, malloc_fresh|]. exists q. cbn. by rewrite E1.
Qed.

Lemma mutex_acquire_inv cpu fuel m b s s' : mutex_acquire_round cpu fuel m s = Done (b, s') → ∃ x, mutexes s !! m = Some x ∧
  if b then m_status x = 0 ∧ ∃ c, cores (kern s) !! cpu = Some c ∧ kern s' = kern s ∧
    mutexes s' = <[m := Mutex 1 (current_process c) (waiters x)]> (mutexes s)
  else m_status x ≠ 0 ∧ mutexes s' = mutexes s ∧ ∃ u, sleep_on_unlocking cpu fuel (waiters x) (kern s) = Done (u, kern s').
Proof using.
  unfold mutex_acquire_round, mbind at 1, St_bind at 1, rd_mutex at 1. destruct (mutexes s !! m) as [x|] eqn:Hm; [|done]. intros H. exists x. split; [done|].
  destruct (Z.eqb_spec (m_status x) 0) as [E|E]; cbn [negb] in H.
  - unfold mbind at 1, St_bind at 1, in_kern at 1, current, this_core, mbind at 1, St_bind at 1 in H.
    destruct (cores (kern s) !! cpu) as [c|] eqn:Hc; [|done]. cbn in H. injection H as <- <-. split; [done|]. exists c. by split_and!.
  - unfold mbind, St_bind in H. destruct (in_kern _ s) as [[u s1]| |] eqn:Es; [|done..]. apply in_kern_inv in Es as [E1 E2]. injection H as <- <-.
    split_and!; [done|done|by exists u].
Qed.

Lemma mutex_release_inv cpu m r s s' : mutex_release cpu m s = Done (r, s') → ∃ x c k, mutexes s !! m = Some x ∧
  cores (kern s) !! cpu = Some c ∧ m_owner x = current_process c ∧ mutexes s' = <[m := Mutex 0 NULL (waiters x)]> (mutexes s) ∧
  wakeup_queue_one (waiters x) (kern s) = Done (k, kern s').
Proof using.
  unfold mutex_release, mbind at 1, St_bind at 1, rd_mutex at 1. destruct (mutexes s !! m) as [x|] eqn:Hm; [|done].
  unfold mbind at 1, St_bind at 1, in_kern at 1, current, this_core, mbind at 1, St_bind at 1.
  destruct (cores (kern s) !! cpu) as [c|] eqn:Hc; [|done]. cbn. destruct (Z.eqb_spec (m_owner x) (current_process c)) as [E|]; [|done]. cbn.
  unfold mbind, St_bind, wr_mutex, modify. destruct (in_kern _ _) as [[u s1]| |] eqn:Es; [|done..]. apply in_kern_inv in Es as [E1 E2].
  intros [= _ <-]. exists x, c, u. by split_and!.
Qed.

Lemma mutex_step_ok s H s' H' : mutex_step (s, H) (s', H') → held_ok s H → held_ok s' H'.
Proof using.
  intros St [Ho Hh]. inversion St as [? ? k' Hs|? ? m ? E|cpu fuel m ? ? ? E|cpu fuel m c ? ? ? Hc Hn E|cpu m c ? ? ? Hc Hn E]; subst; clear St.
  - done.
  - apply mutex_init_inv in E as (Hm & q & Es & _). unfold held_ok. rewrite Es. split.
    + intros m' x [[<- <-]|[_ Hx]]%lookup_insert_Some; [by left|by apply (Ho m')].
    + intros p m'. rewrite Hh. split; intros [Hp (x & Hx & Hpx)]; (split; [done|]).
      * exists x. split; [|done]. rewrite lookup_insert_ne; [done|]. intros ->. congruence.
      * apply lookup_insert_Some in Hx as [[<- <-]|[_ Hx]]; [by destruct Hp|by exists x].
  - apply mutex_acquire_inv in E as (x & _ & _ & Es & _). unfold held_ok. by rewrite Es.
  - apply mutex_acquire_inv in E as (x & Hx & Hs & c' & Hc' & _ & Es). assert (c' = c) as -> by congruence. unfold held_ok. rewrite Es.
    destruct (Ho m x Hx) as [[_ Hx0]|[? _]]; [|congruence]. split.
    + intros m' y [[<- <-]|[_ Hy]]%lookup_insert_Some; [by right|by apply (Ho m')].
    + intros p m'. rewrite elem_of_union, elem_of_singleton, Hh. split.
      * intros [[= -> ->]|[Hp (y & Hy & Hpy)]]; (split; [done|]); [eexists; split; [apply lookup_insert_eq|done]|].
        exists y. split; [|done]. rewrite lookup_insert_ne; [done|]. intros <-. congruence.
      * intros [Hp (y & [[<- <-]|[_ Hy]]%lookup_insert_Some & Hpy)]; [left; by subst p|right]. split; [done|by exists y].
  - apply mutex_release_inv in E as (x & c' & k & Hx & Hc' & Hxo & Es & _). assert (c' = c) as -> by congruence. unfold held_ok. rewrite Es. split.
    + intros m' y [[<- <-]|[_ Hy]]%lookup_insert_Some; [by left|by apply (Ho m')].
    + intros p m'. rewrite elem_of_difference, elem_of_singleton, Hh. split.
      * intros [[Hp (y & Hy & Hpy)] Hne]. split; [done|]. exists y. split; [|done]. rewrite lookup_insert_ne; [done|]. intros <-. apply Hne. congruence.
      * intros [Hp (y & [[<- <-]|[Hm Hy]]%lookup_insert_Some & Hpy)]; [by destruct Hp|]. split; [split; [done|by exists y]|]. congruence.
Qed.

(** The kernel underneath takes steps of its own only. *)
Lemma mutex_step_kernel s H s' H' : mutex_step (s, H) (s', H') → rtc step (kern s) (kern s').
Proof using.
  intros St. inversion St as [? ? k' Hs|? ? m ? E|cpu fuel m ? ? ? E|cpu fuel m c ? ? ? Hc Hn E|cpu m c ? ? ? Hc Hn E]; subst; clear St.
  - by apply rtc_once.
  - apply mutex_init_inv in E as (_ & q & _ & E). eapply rtc_once, step_operation, E. apply op_list_create.
  - apply mutex_acquire_inv in E as (x & _ & _ & _ & u & E). eapply rtc_once, step_operation, E. apply op_sleep_on_unlocking.
  - apply mutex_acquire_inv in E as (x & _ & _ & c' & _ & -> & _). done.
  - apply mutex_release_inv in E as (x & c' & k & _ & _ & _ & _ & E). eapply rtc_once, step_operation, E. apply op_wakeup_queue_one.
Qed.

Lemma mutex_steps_ok s H s' H' : rtc mutex_step (s, H) (s', H') → held_ok s H → reachable (kern s) → held_ok s' H' ∧ reachable (kern s').
Proof using.
  intros St. remember (s, H) as x eqn:Ex. remember (s', H') as y eqn:Ey. revert s H Ex. induction St as [z|z1 [s1 H1] z3 Hs _ IH]; intros s H -> Ho Hr.
  - injection Ey as -> ->. done.
  - apply (IH Ey s1 H1 eq_refl); [by eapply mutex_step_ok|]. destruct Hr as (k0 & E0 & Hr). exists k0. split; [done|].
    etrans; [exact Hr|by eapply mutex_step_kernel].
Qed.

(** C13: A mutex excludes: whatever the interleaving of processes that take and release
    mutexes with each other and with all else the kernel does, two processes never hold the
    same mutex, the one that holds it is its owner, and a mutex that exists is free exactly
    when nobody holds it. *)
Theorem mutex_exclusion k s H : reachable k → rtc mutex_step (MutexState k ∅, ∅) (s, H) →
  (∀ p q m, (p, m) ∈ H → (q, m) ∈ H → p = q) ∧
  ∀ m x, mutexes s !! m = Some x → (∀ p, (p, m) ∈ H → m_owner x = p) ∧ (m_status x = 0 ↔ ∀ p, (p, m) ∉ H).
Proof using.
  intros Hk St. destruct (mutex_steps_ok _ _ _ _ St) as [[Ho Hh] _]; [|done|].
  { split; [done|]. intros p m. split; [by intros ?%elem_of_empty|]. by intros [_ (x & ? & _)]. }
  split.
  - intros p q m [_ (x & Hx & <-)]%Hh [_ (y & Hy & <-)]%Hh. congruence.
  - intros m x Hx. split.
    + intros p [_ (y & Hy & <-)]%Hh. congruence.
    + destruct (Ho m x Hx) as [[-> E]|[-> E]].
      * split; [intros _ p [Hp (y & Hy & Hpy)]%Hh; congruence|done].
      * split; [done|]. intros Hno. destruct (Hno (m_owner x)). apply Hh. split; [done|by exists x].
Qed.

(** [mutex_release] by the owner frees the mutex and wakes the process that came last
    to its queue, which then is ready, unless it has ended; the others sleep on in their
    order.  Released by any other process, the assertion fails. *)
Theorem mutex_release_correct cpu m s x c l : wf (kern s) → mutexes s !! m = Some x → cores (kern s) !! cpu = Some c →
  queues (kern s) !! waiters x = Some l →
  if m_owner x =? current_process c then
    ∃ s', mutex_release cpu m s = Done (0, s') ∧ mutexes s' = <[m := Mutex 0 NULL (waiters x)]> (mutexes s) ∧ wf (kern s') ∧
      match last l with
      | None => kern s' = kern s
      | Some a => ∃ p, procs (kern s) !! a = Some p ∧ procs (kern s') = <[a := wake_up false p]> (procs (kern s)) ∧
          queues (kern s') = <[waiters x := take (length l - 1) l]> (queues (kern s)) ∧
          process_queue (kern s') = process_queue (kern s) ++ (if newly (procs (kern s)) a then [a] else [])
      end
  else mutex_release cpu m s = Fault.
Proof using.
  intros W Hx Hc Hq. unfold mutex_release. rewrite (St_bind_done _ _ s x s) by (unfold rd_mutex; by rewrite Hx).
  rewrite (St_bind_done _ _ _ _ _ (in_kern_run _ _ _ _ (current_core cpu c _ Hc))). destruct s as [k ms]; cbn in *.
  destruct (m_owner x =? current_process c); cbn [negb]; [|done].
  set (s1 := MutexState k (<[m := Mutex 0 NULL (waiters x)]> ms)).
  rewrite (St_bind_done (wr_mutex m _) _ _ tt s1) by done.
  destruct l as [|a l _] using rev_ind.
  - exists s1. split_and!; try done. assert (E : wakeup_queue_one (waiters x) k = Done (0, k)).
    { unfold wakeup_queue_one, queue_pop. by erewrite St_bind_done by (erewrite St_bind_done by apply queue_run, Hq; reflexivity). }
    by rewrite (St_bind_done _ _ _ _ _ (in_kern_run _ s1 _ _ E)).
  - rewrite last_snoc. destruct (ws_wait _ _ W _ _ Hq) as (_ & _ & _ & Hin). destruct (proj1 (Hin a)) as (p & Ha & _); [apply elem_of_app; right; by left|].
    destruct (wake_last_run false _ l a k p W Hq Ha) as (k1 & k2 & Hpop & H1 & Hw & W2 & _ & Q2 & P2 & R2 & _).
    assert (E : wakeup_queue_one (waiters x) k = Done (1, k2)).
    { unfold wakeup_queue_one. rewrite (St_bind_done _ _ _ _ _ Hpop), (St_bind_done _ _ _ _ _ (proc_run _ _ _ H1)).
      change (has (with_sleep_owner NULL p)) with (has p). assert (Hw' : (if negb (has p PROC_FLAG_FINISHED) then make_process_ready a else mret tt) k1 = Done (tt, k2)) by exact Hw.
      by rewrite (St_bind_done _ _ _ _ _ Hw'). }
    exists (with_kern k2 s1). split_and!; [|done|done|].
    + by rewrite (St_bind_done _ _ _ _ _ (in_kern_run _ s1 _ _ E)).
    + exists p. rewrite length_app. cbn. replace (length l + 1 - 1)%nat with (length l) by lia. rewrite take_app_length. by split_and!.
Qed.
End exclusion.

(** Init takes a mutex and yields; its first child sleeps for it. *)
Definition mutex_after {A} (f : St mutex_state A) (s : mutex_state) : mutex_state := match f s with Done (_, s') => s' | _ => s end.
Definition demo_taken : mutex_state := mutex_after (mutex_acquire_round 0 10 1) (mutex_after mutex_init (MutexState demo ∅)).
Definition demo_contended : mutex_state :=
  mutex_after (mutex_acquire_round 0 10 1) (with_kern (after (switch_task 0 10 true) (kern demo_taken)) demo_taken).

Lemma mutex_run {A} (f : St mutex_state A) x s : (match f s with Done (y, _) => Some y | _ => None end) = Some x → f s = Done (x, mutex_after f s).
Proof. unfold mutex_after. destruct (f s) as [[y s']| |]; [|done..]. by intros [= ->]. Qed.

Lemma demo_contended_steps : rtc mutex_step (MutexState demo ∅, ∅) (demo_contended, {[(1, 1)]}).
Proof.
  eapply rtc_l; [apply (ms_init _ _ 1), mutex_run; evaluate|]. fold demo_taken.
  eapply rtc_l; [apply (ms_acquire 0 10 1 (Core 1 0 2)); [evaluate|discriminate|apply mutex_run; evaluate]|]. fold demo_taken.
  eapply rtc_l; [apply (ms_kernel _ _ (after (switch_task 0 10 true) (kern demo_taken)))|].
  { apply (step_operation _ _ (switch_task 0 10 true) tt); [apply op_switch_task|]. unfold after.
    destruct (switch_task 0 10 true (kern demo_taken)) as [[[] k]| |] eqn:E; [done|by vm_compute in E..]. }
  eapply rtc_l; [apply (ms_wait 0 10 1), mutex_run; evaluate|]. fold demo_contended.
  rewrite union_empty_r_L. apply rtc_refl.
Qed.

Lemma mutex_exclusion_witness : ∃ x, mutexes demo_contended !! 1 = Some x ∧ m_owner x = 1.
Proof.
  destruct (mutex_exclusion demo demo_contended {[(1, 1)]} (operated_reachable _ demo_operated) demo_contended_steps) as [_ H].
  assert (E : m_owner <$> mutexes demo_contended !! 1 = Some 1) by evaluate.
  destruct (mutexes demo_contended !! 1) as [x|] eqn:Hx; [|discriminate E]. exists x. split; [reflexivity|].
  apply (proj1 (H 1 x Hx)). by apply elem_of_singleton.
Defined.

Lemma after_wf {A} (f : St mutex_state A) s : (∀ x s', f s = Done (x, s') → wf (kern s) → wf (kern s')) →
  wf (kern s) → wf (kern (mutex_after f s)).
Proof. intros H W. unfold mutex_after. destruct (f s) as [[x s']| |] eqn:E; [by eapply H|done..]. Qed.

Lemma acquire_wf cpu fuel m b s s' : mutex_acquire_round cpu fuel m s = Done (b, s') → wf (kern s) → wf (kern s').
Proof.
  intros (x & _ & H)%mutex_acquire_inv W. destruct b; [by destruct H as (_ & c & _ & -> & _)|]. destruct H as (_ & _ & u & E).
  by eapply keeps_sleep_on_unlocking, E.
Qed.

Lemma demo_contended_wf : wf (kern demo_contended).
Proof.
  assert (W : wf (kern demo_taken)).
  { apply after_wf; [intros x s'; apply acquire_wf|]. apply after_wf; [|exact (proj1 (operated_sound _ demo_operated))].
    intros x s' (_ & q & _ & E)%mutex_init_inv W. by eapply keeps_list_create, E. }
  apply after_wf; [intros x s'; apply acquire_wf|]. unfold after. cbn [kern with_kern].
  destruct (switch_task 0 10 true (kern demo_taken)) as [[u k]| |] eqn:E; [by eapply keeps_switch_task, E|done..].
Qed.

(** When init runs again. *)
Definition demo_back : mutex_state := with_kern (after (switch_task 0 10 true) (kern demo_contended)) demo_contended.

Lemma demo_back_wf : wf (kern demo_back).
Proof.
  unfold demo_back, after. cbn [kern with_kern]. destruct (switch_task 0 10 true (kern demo_contended)) as [[u k]| |] eqn:E; [|exact demo_contended_wf..].
  by eapply keeps_switch_task, E; exact demo_contended_wf.
Qed.

Lemma mutex_release_correct_witness : ∃ s', mutex_release 0 1 demo_back = Done (0, s') ∧ process_queue (kern s') = [4; 3].
Proof.
  destruct (mutexes demo_back !! 1) as [x|] eqn:Hx; [|exfalso; by vm_compute in Hx].
  assert (E : (λ x, (m_owner x, waiters x)) <$> mutexes demo_back !! 1 = Some (1, 6)) by evaluate. rewrite Hx in E. injection E as E1 E2.
  assert (H := mutex_release_correct 0 1 demo_back x (Core 1 4 2) [3] demo_back_wf Hx ltac:(evaluate)). rewrite E1, E2 in H.
  destruct (H ltac:(evaluate)) as (s' & Hrun & _ & _ & p & _ & _ & _ & Hq). exists s'. split; [exact Hrun|]. rewrite Hq. evaluate.
Defined.
