(* ===== verification/FdTable.v ===== *)
(** * File descriptor tables ([src/kernel/sys/process.c], [src/kernel/sys/syscall.c])

    The table of descriptors of a process, shared between its threads: appending, dup2,
    F_DUPFD, close, the copy at a fork and the release at the end.  The nodes it refers to
    are those of Vfs, with their reference counts; a [NULL] entry is free.  A cell that was
    allocated and never written is [None]. *)
From stdpp Require Import gmultiset.
From S2P Require Import Prelude Vfs.
Local Open Scope Z_scope.

(** ** Data *)

Record fd_table_t : Type := FdTable {
  entries : list (option Z);
  offsets : list (option Z);
  modes : list (option Z);
  fd_length : Z;
  capacity : Z;
  fd_refs : Z
}.

Record fd_state : Type := FdState { tables : gmap Z fd_table_t; fs_nodes : gmap Z shared_node }.

Definition with_entries (l : list (option Z)) (t : fd_table_t) : fd_table_t :=
  FdTable l (offsets t) (modes t) (fd_length t) (capacity t) (fd_refs t).
Definition with_offsets (l : list (option Z)) (t : fd_table_t) : fd_table_t :=
  FdTable (entries t) l (modes t) (fd_length t) (capacity t) (fd_refs t).
Definition with_modes (l : list (option Z)) (t : fd_table_t) : fd_table_t :=
  FdTable (entries t) (offsets t) l (fd_length t) (capacity t) (fd_refs t).
Definition with_fd_length (n : Z) (t : fd_table_t) : fd_table_t :=
  FdTable (entries t) (offsets t) (modes t) n (capacity t) (fd_refs t).
Definition with_fd_refs (n : Z) (t : fd_table_t) : fd_table_t :=
  FdTable (entries t) (offsets t) (modes t) (fd_length t) (capacity t) n.

Definition rd_tab (t : Z) : St fd_state fd_table_t := λ s,
  match tables s !! t with Some x => Done (x, s) | None => Fault end.
Definition wr_tab (t : Z) (f : fd_table_t → fd_table_t) : St fd_state unit := λ s,
  match tables s !! t with Some x => Done (tt, FdState (<[t := f x]> (tables s)) (fs_nodes s)) | None => Fault end.

(** A cell of an array; outside of it is a [Fault]. *)
Definition cell (l : list (option Z)) (i : Z) : option (option Z) := if 0 <=? i then l !! Z.to_nat i else None.
Definition get_cell (arr : fd_table_t → list (option Z)) (t i : Z) : St fd_state (option Z) :=
  x ← rd_tab t; match cell (arr x) i with Some v => mret v | None => fault end.
Definition put_cell (arr : fd_table_t → list (option Z)) (upd : list (option Z) → fd_table_t → fd_table_t) (t i : Z) (v : option Z)
    : St fd_state unit :=
  x ← rd_tab t;
  match cell (arr x) i with Some _ => wr_tab t (upd (<[Z.to_nat i := v]> (arr x))) | None => fault end.

(** An entry that was never written is no pointer. *)
Definition get_entry (t i : Z) : St fd_state Z :=
  v ← get_cell entries t i; match v with Some e => mret e | None => fault end.
Definition put_entry (t i e : Z) : St fd_state unit := put_cell entries with_entries t i (Some e).

(** [clone_fs], [close_fs] and [open_fs] of a node, or of none; the call of the node's own
    [open] is left out. *)
Definition on_node (f : shared_node → outcome shared_node) (a : Z) : St fd_state unit := λ s,
  if a =? NULL then Done (tt, s)
  else match fs_nodes s !! a with
  | None => Fault
  | Some n =>
      match f n with
      | Done n => Done (tt, FdState (tables s) (<[a := n]> (fs_nodes s)))
      | Fault => Fault
      | Timeout => Timeout
      end
  end.
Definition clone_node : Z → St fd_state unit := on_node clone_fs.
Definition open_node : Z → St fd_state unit := on_node clone_fs.
Definition close_node : Z → St fd_state unit := on_node close_fs.

(** ** Operations *)

Definition process_fds_grow (t : Z) : St fd_state unit := wr_tab t (λ x,
  let c := u64 (capacity x * 2) in
  FdTable (resize (Z.to_nat c) None (entries x)) (resize (Z.to_nat c) None (offsets x)) (resize (Z.to_nat c) None (modes x))
    (fd_length x) c (fd_refs x)).

Definition process_fds_copy (t src dest : Z) : St fd_state unit :=
  e ← get_entry t src;
  put_entry t dest e;;
  m ← get_cell modes t src;
  put_cell modes with_modes t dest m;;
  o ← get_cell offsets t src;
  put_cell offsets with_offsets t dest o;;
  e ← get_entry t dest;
  open_node e.

(** The first free entry of [n] from [i] on. *)
Fixpoint find_gap (t : Z) (n : nat) (i : Z) : St fd_state (option Z) :=
  match n with
  | O => mret None
  | S n => e ← get_entry t i; if e =? NULL then mret (Some i) else find_gap t n (i + 1)
  end.

(** An entry with mode and offset 0. *)
Definition fresh_entry (t i node : Z) : St fd_state unit :=
  put_entry t i node;;
  put_cell modes with_modes t i (Some 0);;
  put_cell offsets with_offsets t i (Some 0).

Definition grow_if_full (t : Z) : St fd_state unit :=
  x ← rd_tab t; if fd_length x =? capacity x then process_fds_grow t else mret tt.

Definition process_append_fd (t node : Z) : St fd_state Z :=
  x ← rd_tab t;
  g ← find_gap t (Z.to_nat (fd_length x)) 0;
  match g with
  | Some i => fresh_entry t i node;; mret i
  | None =>
      grow_if_full t;;
      x ← rd_tab t;
      fresh_entry t (fd_length x) node;;
      wr_tab t (λ x, with_fd_length (u64 (fd_length x + 1)) x);;
      x ← rd_tab t;
      mret (u64 (fd_length x - 1))
  end.

(** The two loops that make room for a descriptor. *)
Fixpoint grow_beyond (fuel : nat) (t newfd : Z) : St fd_state unit :=
  match fuel with
  | O => λ _, Timeout
  | S f => x ← rd_tab t; if capacity x <=? u64 newfd then process_fds_grow t;; grow_beyond f t newfd else mret tt
  end.
Fixpoint pad_beyond (fuel : nat) (t newfd : Z) : St fd_state unit :=
  match fuel with
  | O => λ _, Timeout
  | S f =>
      x ← rd_tab t;
      if fd_length x <=? u64 newfd then
        put_entry t (fd_length x) NULL;;
        wr_tab t (λ x, with_fd_length (u64 (fd_length x + 1)) x);;
        pad_beyond f t newfd
      else mret tt
  end.

Definition process_fd_dup_least (fuel : nat) (t oldfd newfd : Z) : St fd_state Z :=
  grow_beyond fuel t newfd;;
  pad_beyond fuel t newfd;;
  x ← rd_tab t;
  g ← find_gap t (Z.to_nat (fd_length x - newfd)) newfd;
  match g with
  | Some i => process_fds_copy t oldfd i;; mret i
  | None =>
      grow_if_full t;;
      x ← rd_tab t;
      process_fds_copy t oldfd (fd_length x);;
      wr_tab t (λ x, with_fd_length (u64 (fd_length x + 1)) x);;
      mret (fd_length x)
  end.

Definition process_move_fd (t src dest : Z) : St fd_state Z :=
  x ← rd_tab t;
  if (fd_length x <=? u64 src) || (negb (dest =? -1) && (fd_length x <=? u64 dest)) then mret (-1)
  else
    dest ← (if dest =? -1 then process_append_fd t NULL else mret dest);
    d ← get_entry t dest;
    e ← get_entry t src;
    (if negb (d =? e) then close_node d;; process_fds_copy t src dest else mret tt);;
    mret dest.

Definition FD_CHECK (t fd : Z) : St fd_state bool :=
  x ← rd_tab t;
  if (fd <? i32 (fd_length x)) && (0 <=? fd) then e ← get_entry t fd; mret (negb (e =? NULL)) else mret false.

Definition EBADF : Z := 9.

Definition sys_close (t fd : Z) : St fd_state Z :=
  c ← FD_CHECK t fd;
  if c : bool then
    e ← get_entry t fd;
    close_node e;;
    put_entry t fd NULL;;
    mret 0
  else mret (- EBADF).

Definition sys_dup2 (t old new : Z) : St fd_state Z := process_move_fd t old new.

(** [sys_fcntl] with [F_DUPFD]. *)
Definition fcntl_dupfd (fuel : nat) (t fd arg : Z) : St fd_state Z :=
  c ← FD_CHECK t fd;
  if negb c then mret (- EBADF)
  else if (arg <? 0) || (256 <? arg) then mret (- EINVAL)
  else process_fd_dup_least fuel t fd arg.

(** ** Processes and their tables *)

Section Tables.
Context `{!Malloc}.

Definition new_table (x : fd_table_t) : St fd_state Z := λ s,
  let t := malloc (dom (tables s)) in Done (t, FdState (<[t := x]> (tables s)) (fs_nodes s)).

(** A table as [malloc] leaves it. *)
Definition blank_table (len cap : Z) : fd_table_t :=
  FdTable (replicate (Z.to_nat cap) None) (replicate (Z.to_nat cap) None) (replicate (Z.to_nat cap) None) len cap 1.

(** The table of init. *)
Definition init_fds : St fd_state Z := new_table (blank_table 0 4).

Fixpoint copy_fds (par t : Z) (n : nat) (i : Z) : St fd_state unit :=
  match n with
  | O => mret tt
  | S n =>
      e ← get_entry par i;
      clone_node e;;
      put_entry t i e;;
      m ← get_cell modes par i;
      put_cell modes with_modes t i m;;
      o ← get_cell offsets par i;
      put_cell offsets with_offsets t i o;;
      copy_fds par t n (i + 1)
  end.

(** [spawn_process]: a thread shares the table, a process gets a copy. *)
Definition spawn_fds (par : Z) (reuse : bool) : St fd_state Z :=
  if reuse then
    wr_tab par (λ x, with_fd_refs (u64 (fd_refs x + 1)) x);;
    mret par
  else
    x ← rd_tab par;
    t ← new_table (blank_table (fd_length x) (capacity x));
    copy_fds par t (Z.to_nat (fd_length x)) 0;;
    mret t.

(** Closing the entries from [i] on, at the end of a process or when it runs a new
    program. *)
Fixpoint close_entries (t : Z) (n : nat) (i : Z) : St fd_state unit :=
  match n with
  | O => mret tt
  | S n =>
      e ← get_entry t i;
      (if negb (e =? NULL) then close_node e;; put_entry t i NULL else mret tt);;
      close_entries t n (i + 1)
  end.

Definition exec_fds (t : Z) : St fd_state unit :=
  x ← rd_tab t; close_entries t (Z.to_nat (fd_length x - 3)) 3.

(** [task_exit]. *)
Definition exit_fds (t : Z) : St fd_state unit :=
  wr_tab t (λ x, with_fd_refs (u64 (fd_refs x - 1)) x);;
  x ← rd_tab t;
  if fd_refs x =? 0 then
    close_entries t (Z.to_nat (fd_length x)) 0;;
    modify (λ s, FdState (delete t (tables s)) (fs_nodes s))
  else mret tt.
End Tables.

(** ** Tables *)

(** The nodes a table refers to, by descriptor. *)
Definition descriptors (x : fd_table_t) : list Z := omap id (take (Z.to_nat (fd_length x)) (entries x)).

(** The arrays have the capacity, and every entry below the length was written. *)
Record arrays_ok (x : fd_table_t) : Prop := {
  ao_length : 0 ≤ fd_length x ≤ capacity x;
  ao_capacity : 0 < capacity x;
  ao_entries : length (entries x) = Z.to_nat (capacity x);
  ao_offsets : length (offsets x) = Z.to_nat (capacity x);
  ao_modes : length (modes x) = Z.to_nat (capacity x);
  ao_written : Forall is_Some (take (Z.to_nat (fd_length x)) (entries x))
}.

(** Its arrays grow by doubling only, when it is needed. *)
Record table_ok (x : fd_table_t) : Prop := {
  to_arrays : arrays_ok x;
  to_doubling : capacity x ≤ Z.max 4 (2 * fd_length x)
}.

(** The lowest descriptor from [i] on that is free. *)
Definition free_slot (d : list Z) (i : nat) : nat :=
  match list_find (λ e, e = NULL) (drop i d) with Some (j, _) => i + j | None => length d end.
Definition set_slot (d : list Z) (i : nat) (e : Z) : list Z := take i d ++ e :: drop (S i) d.

(** A state in which [t] is the table [x]. *)
Definition at_table (t : Z) (x : fd_table_t) (T : gmap Z fd_table_t) (N : gmap Z shared_node) : fd_state :=
  FdState (<[t := x]> T) N.

(** An entry with its mode and its offset. *)
Definition slot_set (i : nat) (e m o : option Z) (x : fd_table_t) : fd_table_t :=
  FdTable (<[i := e]> (entries x)) (<[i := o]> (offsets x)) (<[i := m]> (modes x)) (fd_length x) (capacity x) (fd_refs x).
Definition grown (x : fd_table_t) : fd_table_t :=
  let c := u64 (capacity x * 2) in
  FdTable (resize (Z.to_nat c) None (entries x)) (resize (Z.to_nat c) None (offsets x)) (resize (Z.to_nat c) None (modes x))
    (fd_length x) c (fd_refs x).
Definition longer (x : fd_table_t) : fd_table_t := with_fd_length (u64 (fd_length x + 1)) x.

(** The modes and offsets of the descriptors of [x], or of all but [i], are those of [x']. *)
Definition keeps (x x' : fd_table_t) : Prop :=
  ∀ j, (j < length (descriptors x))%nat → modes x' !! j = modes x !! j ∧ offsets x' !! j = offsets x !! j.
Definition same_data (x x' : fd_table_t) (i : nat) : Prop :=
  ∀ j, (j < length (descriptors x))%nat → j ≠ i → modes x' !! j = modes x !! j ∧ offsets x' !! j = offsets x !! j.

Lemma omap_id_Some (l : list (option Z)) : Forall is_Some l → l = Some <$> omap id l.
Proof. induction 1 as [|? l [a ->] _ IH]; csimpl; [done|]. by f_equal. Qed.

Lemma omap_id_fmap (l : list Z) : omap id (Some <$> l) = l.
Proof. induction l as [|a l IH]; csimpl; [done|]. by f_equal. Qed.

Lemma written x : arrays_ok x → take (Z.to_nat (fd_length x)) (entries x) = Some <$> descriptors x.
Proof. intros H. apply omap_id_Some, H. Qed.

Lemma length_descriptors x : arrays_ok x → length (descriptors x) = Z.to_nat (fd_length x).
Proof.
  intros H. rewrite <-(length_fmap Some), <-written, length_take by done.
  pose proof (ao_entries x H). destruct H. lia.
Qed.

Lemma descriptors_intro x (d : list Z) :
  take (Z.to_nat (fd_length x)) (entries x) = Some <$> d →
  descriptors x = d ∧ Forall is_Some (take (Z.to_nat (fd_length x)) (entries x)).
Proof.
  intros E. unfold descriptors. rewrite E. split; [apply omap_id_fmap|].
  rewrite Forall_fmap. apply Forall_true. intros ?. by eexists.
Qed.

Lemma entry_lookup x i e : arrays_ok x → descriptors x !! i = Some e → entries x !! i = Some (Some e).
Proof.
  intros H Hi. assert ((i < Z.to_nat (fd_length x))%nat) by (rewrite <-length_descriptors by done; by eapply lookup_lt_Some).
  rewrite <-(lookup_take_lt _ (Z.to_nat (fd_length x))) by done. rewrite written by done. by rewrite list_lookup_fmap, Hi.
Qed.

(** *** Changes of one entry *)

Lemma set_slot_insert d i e : (i < length d)%nat → set_slot d i e = <[i := e]> d.
Proof. intros H. unfold set_slot. by rewrite insert_take_drop by done. Qed.

Lemma set_slot_end d e : set_slot d (length d) e = d ++ [e].
Proof. unfold set_slot. rewrite firstn_all, drop_ge by lia. done. Qed.

Lemma arrays_slot x i e m o :
  arrays_ok x → (i < length (descriptors x))%nat →
  arrays_ok (slot_set i (Some e) m o x) ∧ descriptors (slot_set i (Some e) m o x) = set_slot (descriptors x) i e.
Proof.
  intros H Hi. rewrite set_slot_insert by done.
  destruct (descriptors_intro (slot_set i (Some e) m o x) (<[i := e]> (descriptors x))) as [E F].
  { simpl. rewrite take_insert_lt by (by rewrite <-length_descriptors). by rewrite written, list_fmap_insert. }
  split; [|done]. destruct H. split; simpl; rewrite ?length_insert; auto.
Qed.

Lemma arrays_longer x e m o :
  arrays_ok x → fd_length x < capacity x → capacity x < 2 ^ 64 →
  let i := length (descriptors x) in
  arrays_ok (longer (slot_set i (Some e) m o x)) ∧
  descriptors (longer (slot_set i (Some e) m o x)) = set_slot (descriptors x) i e ∧
  fd_length (longer (slot_set i (Some e) m o x)) = fd_length x + 1.
Proof.
  intros H Hc Hb i. subst i. rewrite set_slot_end.
  pose proof (length_descriptors x H) as Hl. pose proof (ao_length x H). pose proof (ao_entries x H) as He.
  assert (U : u64 (fd_length x + 1) = fd_length x + 1) by (apply u64_small; lia).
  destruct (descriptors_intro (longer (slot_set (length (descriptors x)) (Some e) m o x)) (descriptors x ++ [e])) as [E F].
  { simpl. rewrite U, Z2Nat.inj_add by lia. rewrite fmap_app, <-written, Hl by done.
    rewrite Nat.add_1_r. rewrite (take_S_r _ _ (Some e)).
    - by rewrite take_insert_ge by lia.
    - apply list_lookup_insert_eq. lia. }
  split_and!; [|done|simpl; done]. destruct H. split; simpl in *; rewrite ?length_insert, ?U in *; auto; lia.
Qed.

Lemma arrays_grown x :
  arrays_ok x → capacity x < 2 ^ 62 →
  arrays_ok (grown x) ∧ descriptors (grown x) = descriptors x ∧ capacity (grown x) = 2 * capacity x ∧ keeps x (grown x).
Proof.
  intros H Hb. pose proof (ao_capacity x H). pose proof (ao_length x H). pose proof (ao_entries x H).
  assert (U : u64 (capacity x * 2) = 2 * capacity x) by (rewrite u64_small; lia).
  assert (E : take (Z.to_nat (fd_length x)) (entries (grown x)) = take (Z.to_nat (fd_length x)) (entries x)).
  { simpl. rewrite U, resize_ge by lia. apply take_app_le. lia. }
  assert (D : ∀ j, (j < length (descriptors x))%nat →
     modes (grown x) !! j = modes x !! j ∧ offsets (grown x) !! j = offsets x !! j).
  { intros j Hj. rewrite length_descriptors in Hj by done. pose proof (ao_modes x H). pose proof (ao_offsets x H). simpl.
    rewrite U, !resize_ge by lia. by rewrite !lookup_app_l by lia. }
  split_and!.
  - pose proof (ao_written x H) as F. rewrite <-E in F. clear E D.
    destruct H. split; simpl in *; rewrite ?length_resize, ?U in *; auto; lia.
  - unfold descriptors. change (fd_length (grown x)) with (fd_length x). by rewrite E.
  - done.
  - done.
Qed.

(** *** The accesses, in a state where [t] is the table [x] *)

Section Accesses.
Variables (t : Z) (x : fd_table_t) (T : gmap Z fd_table_t) (N : gmap Z shared_node).
Notation here := (at_table t x T N).

Lemma at_table_intro s : tables s !! t = Some x → s = at_table t x (tables s) (fs_nodes s).
Proof. intros H. destruct s as [T' N']. unfold at_table. simpl in *. by rewrite insert_id. Qed.

Lemma rd_at : rd_tab t here = Done (x, here).
Proof. unfold rd_tab. simpl. by rewrite lookup_insert_eq. Qed.

Lemma wr_at f : wr_tab t f here = Done (tt, at_table t (f x) T N).
Proof. unfold wr_tab, at_table. simpl. by rewrite lookup_insert_eq, insert_insert_eq. Qed.

Lemma cell_nat (l : list (option Z)) (i : nat) : cell l (Z.of_nat i) = l !! i.
Proof. unfold cell. destruct (Z.leb_spec 0 (Z.of_nat i)); [|lia]. by rewrite Nat2Z.id. Qed.

Lemma get_cell_at arr (i : nat) v : arr x !! i = Some v → get_cell arr t (Z.of_nat i) here = Done (v, here).
Proof. intros H. unfold get_cell. rewrite (St_bind_done _ _ _ _ _ rd_at). by rewrite cell_nat, H. Qed.

Lemma put_cell_at arr upd (i : nat) v :
  (i < length (arr x))%nat → put_cell arr upd t (Z.of_nat i) v here = Done (tt, at_table t (upd (<[i := v]> (arr x)) x) T N).
Proof.
  intros [w Hw]%lookup_lt_is_Some_2. unfold put_cell. rewrite (St_bind_done _ _ _ _ _ rd_at).
  by rewrite cell_nat, Hw, wr_at, Nat2Z.id.
Qed.

Lemma get_entry_at (i : nat) e :
  arrays_ok x → descriptors x !! i = Some e → get_entry t (Z.of_nat i) here = Done (e, here).
Proof.
  intros H Hi. unfold get_entry. by rewrite (St_bind_done _ _ _ _ _ (get_cell_at entries i _ (entry_lookup x i e H Hi))).
Qed.
End Accesses.

Lemma put_entry_at t x T N (i : nat) e :
  (i < length (entries x))%nat →
  put_entry t (Z.of_nat i) e (at_table t x T N) = Done (tt, at_table t (with_entries (<[i := Some e]> (entries x)) x) T N).
Proof. apply put_cell_at. Qed.

Lemma fresh_entry_at t x T N (i : nat) node :
  arrays_ok x → (i < Z.to_nat (capacity x))%nat →
  fresh_entry t (Z.of_nat i) node (at_table t x T N) =
  Done (tt, at_table t (slot_set i (Some node) (Some 0) (Some 0) x) T N).
Proof.
  intros H Hi. destruct H. unfold fresh_entry.
  st_step (put_entry_at t x T N i node ltac:(lia)).
  st_step (put_cell_at t (with_entries (<[i:=Some node]> (entries x)) x) T N modes with_modes i (Some 0) ltac:(simpl; lia)).
  rewrite put_cell_at by (simpl; lia). done.
Qed.

Lemma process_fds_copy_at t x T N (src dest : nat) e :
  arrays_ok x → descriptors x !! src = Some e → (dest < Z.to_nat (capacity x))%nat →
  ∃ m o, modes x !! src = Some m ∧ offsets x !! src = Some o ∧
    process_fds_copy t (Z.of_nat src) (Z.of_nat dest) (at_table t x T N) =
    open_node e (at_table t (slot_set dest (Some e) m o x) T N).
Proof.
  intros H Hs Hd. pose proof H as H0. destruct H0.
  assert ((src < Z.to_nat (capacity x))%nat).
  { apply lookup_lt_Some in Hs. rewrite length_descriptors in Hs by done. lia. }
  destruct (lookup_lt_is_Some_2 (modes x) src) as [m Hm]; [lia|].
  destruct (lookup_lt_is_Some_2 (offsets x) src) as [o Ho]; [lia|].
  exists m, o. split_and!; try done. unfold process_fds_copy.
  st_step (get_entry_at t x T N src e H Hs). st_step (put_entry_at t x T N dest e ltac:(lia)).
  set (x1 := with_entries (<[dest:=Some e]> (entries x)) x).
  st_step (get_cell_at t x1 T N modes src m Hm).
  st_step (put_cell_at t x1 T N modes with_modes dest m ltac:(simpl; lia)).
  set (x2 := with_modes _ x1). st_step (get_cell_at t x2 T N offsets src o Ho).
  st_step (put_cell_at t x2 T N offsets with_offsets dest o ltac:(simpl; lia)).
  set (x3 := with_offsets _ x2).
  assert (He : get_entry t (Z.of_nat dest) (at_table t x3 T N) = Done (e, at_table t x3 T N)).
  { unfold get_entry. erewrite St_bind_done; [|apply (get_cell_at t x3 T N entries dest (Some e))]; [done|].
    simpl. apply list_lookup_insert_eq. lia. }
  by st_step He.
Qed.

(** ** Free descriptors *)

Lemma free_slot_spec d i :
  (i ≤ length d)%nat →
  (i ≤ free_slot d i ≤ length d)%nat ∧ (∀ e, d !! free_slot d i = Some e → e = NULL) ∧
  (∀ j e, (i ≤ j < free_slot d i)%nat → d !! j = Some e → e ≠ NULL).
Proof.
  intros Hi. unfold free_slot. destruct (list_find _ _) as [[j e]|] eqn:E.
  - apply list_find_Some in E as (E & He & Hn). rewrite lookup_drop in E.
    pose proof (lookup_lt_Some _ _ _ E). split_and!; [lia|lia| |].
    + intros e' ?. by simplify_eq.
    + intros k e' Hk He'. apply (Hn (k - i)%nat e'); [|lia]. rewrite lookup_drop. by replace (i + (k - i))%nat with k by lia.
  - apply list_find_None in E. split_and!; [lia|lia| |].
    + intros e H. apply lookup_lt_Some in H. lia.
    + intros j e Hj H. rewrite Forall_lookup in E. apply (E (j - i)%nat).
      rewrite lookup_drop. by replace (i + (j - i))%nat with j by lia.
Qed.

Lemma find_gap_at t x T N n i :
  arrays_ok x → (i + n = length (descriptors x))%nat →
  find_gap t n (Z.of_nat i) (at_table t x T N) =
  Done (if decide (free_slot (descriptors x) i = length (descriptors x)) then None else Some (Z.of_nat (free_slot (descriptors x) i)),
        at_table t x T N).
Proof.
  intros H. revert i. induction n as [|n IH]; intros i Hi; simpl.
  - unfold free_slot. rewrite drop_ge by lia. simpl. by rewrite decide_True by done.
  - destruct (lookup_lt_is_Some_2 (descriptors x) i ltac:(lia)) as [e He].
    st_step (get_entry_at t x T N i e H He). unfold free_slot. rewrite (drop_S _ e i He). csimpl.
    destruct (Z.eqb_spec e NULL) as [->|Hne].
    + rewrite (decide_True (P := NULL = NULL)) by done. rewrite Nat.add_0_r. by destruct (decide _); [lia|].
    + rewrite (decide_False (P := e = NULL)) by done. replace (Z.of_nat i + 1) with (Z.of_nat (S i)) by lia.
      rewrite IH by lia. unfold free_slot.
      destruct (list_find _ (drop (S i) _)) as [[j e']|]; csimpl; [|done]. by replace (i + S j)%nat with (S i + j)%nat by lia.
Qed.

(** ** Assigning a descriptor *)

Definition roomy (x : fd_table_t) : fd_table_t := if fd_length x =? capacity x then grown x else x.

(** The descriptor [i] assigned; a descriptor past the last one makes the table longer. *)
Definition assigned (i : nat) (e : Z) (m o : option Z) (x : fd_table_t) : fd_table_t :=
  if decide (i < length (descriptors x))%nat then slot_set i (Some e) m o x else longer (slot_set i (Some e) m o (roomy x)).

(** What an assignment does. *)
Record assigns (x : fd_table_t) (i : nat) (e : Z) (m o : option Z) (x' : fd_table_t) : Prop := {
  as_ok : table_ok x';
  as_descriptors : descriptors x' = set_slot (descriptors x) i e;
  as_mode : modes x' !! i = Some m;
  as_offset : offsets x' !! i = Some o;
  as_others : same_data x x' i;
  as_refs : fd_refs x' = fd_refs x
}.

Lemma roomy_ok x :
  table_ok x → fd_length x < 2 ^ 60 →
  arrays_ok (roomy x) ∧ descriptors (roomy x) = descriptors x ∧ keeps x (roomy x) ∧ fd_length (roomy x) = fd_length x ∧
  fd_length x < capacity (roomy x) ≤ Z.max 4 (2 * (fd_length x + 1)) ∧ fd_refs (roomy x) = fd_refs x.
Proof.
  intros [H Hd] Hl. pose proof (ao_length x H). pose proof (ao_capacity x H).
  destruct (arrays_grown x H ltac:(lia)) as (G & D & C & K). unfold roomy. destruct (Z.eqb_spec (fd_length x) (capacity x)).
  - split_and!; auto; lia.
  - split_and!; auto; try lia. by intros j Hj.
Qed.

Lemma slot_set_lookup i e m o x :
  arrays_ok x → (i < Z.to_nat (capacity x))%nat →
  modes (slot_set i e m o x) !! i = Some m ∧ offsets (slot_set i e m o x) !! i = Some o ∧ same_data x (slot_set i e m o x) i.
Proof.
  intros H Hi. pose proof (ao_modes x H). pose proof (ao_offsets x H). simpl. split_and!.
  - apply list_lookup_insert_eq. lia.
  - apply list_lookup_insert_eq. lia.
  - intros j _ Hj. simpl. by rewrite !list_lookup_insert_ne by done.
Qed.

Lemma assigned_ok x i e m o :
  table_ok x → (i ≤ length (descriptors x))%nat → fd_length x < 2 ^ 60 → assigns x i e m o (assigned i e m o x).
Proof.
  intros Hx Hi Hl. pose proof (to_arrays x Hx) as H. pose proof (ao_length x H). pose proof (length_descriptors x H) as Hn.
  unfold assigned. destruct (decide _) as [Hlt|Hge].
  - destruct (arrays_slot x i e m o H Hlt) as [A D]. destruct (slot_set_lookup i (Some e) m o x H ltac:(lia)) as (M & O & S).
    split; auto. split; [done|apply Hx].
  - assert (i = length (descriptors x)) as -> by lia.
    destruct (roomy_ok x Hx Hl) as (R & D & K & Len & Cap & Refs).
    destruct (arrays_longer (roomy x) e m o R ltac:(lia) ltac:(lia)) as (A & E & L). rewrite D in *.
    destruct (slot_set_lookup (length (descriptors x)) (Some e) m o (roomy x) R ltac:(lia)) as (M & O & S).
    split; auto; [split; [done|]; rewrite L, Len; simpl; lia|].
    intros j Hj Hne. destruct (S j ltac:(rewrite D; lia) Hne) as [S1 S2]. simpl in *. by rewrite S1, S2; apply K.
Qed.

Lemma grow_at t x T N : process_fds_grow t (at_table t x T N) = Done (tt, at_table t (grown x) T N).
Proof. unfold process_fds_grow. apply wr_at. Qed.

Lemma grow_if_full_at t x T N : grow_if_full t (at_table t x T N) = Done (tt, at_table t (roomy x) T N).
Proof.
  unfold grow_if_full. st_step (rd_at t x T N). unfold roomy. destruct (_ =? _); [|done].
  apply grow_at.
Qed.

Lemma process_append_fd_at t x T N node :
  table_ok x → fd_length x < 2 ^ 60 →
  let i := free_slot (descriptors x) 0 in
  process_append_fd t node (at_table t x T N) = Done (Z.of_nat i, at_table t (assigned i node (Some 0) (Some 0) x) T N).
Proof.
  intros Hx Hl i. pose proof (to_arrays x Hx) as H. pose proof (length_descriptors x H) as Hn. pose proof (ao_length x H).
  destruct (free_slot_spec (descriptors x) 0 ltac:(lia)) as (Hi & _). fold i in Hi.
  unfold process_append_fd. st_step (rd_at t x T N). rewrite <-Hn.
  change (find_gap t (length (descriptors x)) 0) with (find_gap t (length (descriptors x)) (Z.of_nat 0)).
  st_step (find_gap_at t x T N (length (descriptors x)) 0 H eq_refl). fold i. unfold assigned. destruct (decide _) as [E|E].
  - rewrite decide_False by lia. st_step (grow_if_full_at t x T N). st_step (rd_at t (roomy x) T N).
    destruct (roomy_ok x Hx Hl) as (R & D & K & Len & Cap & Refs). rewrite Len.
    replace (fd_length x) with (Z.of_nat i) at 1 by lia. st_step (fresh_entry_at t (roomy x) T N i node R ltac:(lia)).
    erewrite St_bind_done; [|apply wr_at]. erewrite St_bind_done; [|apply rd_at]. unfold mret, St_ret. simpl.
    rewrite Len. f_equal. f_equal.
    + rewrite (u64_small (fd_length x + 1)), u64_small by lia. lia.
    + unfold longer, with_fd_length. simpl. by rewrite Len.
  - rewrite decide_True by lia. by st_step (fresh_entry_at t x T N i node H ltac:(lia)).
Qed.

(** ** Making room for a descriptor *)

Lemma keeps_trans x y z : descriptors y = descriptors x → keeps x y → keeps y z → keeps x z.
Proof. intros E K1 K2 j Hj. destruct (K1 j Hj) as [<- <-]. apply K2. by rewrite E. Qed.

Lemma grow_beyond_at fuel t x T N newfd :
  arrays_ok x → 0 ≤ newfd < 2 ^ 60 → capacity x < 2 ^ 62 → (Z.to_nat (newfd + 1 - capacity x) < fuel)%nat →
  ∃ x', grow_beyond fuel t newfd (at_table t x T N) = Done (tt, at_table t x' T N) ∧
    arrays_ok x' ∧ descriptors x' = descriptors x ∧ keeps x x' ∧ fd_length x' = fd_length x ∧ fd_refs x' = fd_refs x ∧
    newfd < capacity x' ≤ Z.max (capacity x) (2 * newfd).
Proof.
  revert x. induction fuel as [|fuel IH]; intros x H Hn Hc Hf; [lia|]. simpl. st_step (rd_at t x T N).
  rewrite (u64_small newfd) by lia. pose proof (ao_capacity x H). destruct (Z.leb_spec (capacity x) newfd).
  - destruct (arrays_grown x H ltac:(lia)) as (G & D & C & K).
    st_step (grow_at t x T N).
    destruct (IH (grown x) G Hn ltac:(lia) ltac:(lia)) as (x' & E & A & D' & K' & L & R & B). exists x'. split_and!; auto.
    + congruence.
    + by apply (keeps_trans _ (grown x)).
    + lia.
    + lia.
  - exists x. split_and!; auto; try lia. by intros j.
Qed.

Lemma longer_at t x T N :
  wr_tab t (λ x, with_fd_length (u64 (fd_length x + 1)) x) (at_table t x T N) = Done (tt, at_table t (longer x) T N).
Proof. apply wr_at. Qed.

(** One entry of padding. *)
Lemma pad_one t x T N :
  arrays_ok x → fd_length x < capacity x → capacity x < 2 ^ 62 →
  ∃ x', put_entry t (fd_length x) NULL (at_table t x T N) = Done (tt, at_table t x' T N) ∧
    arrays_ok (longer x') ∧ descriptors (longer x') = descriptors x ++ [NULL] ∧ fd_length (longer x') = fd_length x + 1 ∧
    capacity x' = capacity x ∧ fd_refs x' = fd_refs x ∧ modes x' = modes x ∧ offsets x' = offsets x.
Proof.
  intros H Hc Hb. pose proof (length_descriptors x H) as Hn. pose proof (ao_length x H).
  destruct (lookup_lt_is_Some_2 (modes x) (length (descriptors x))) as [m Hm]; [rewrite (ao_modes x H); lia|].
  destruct (lookup_lt_is_Some_2 (offsets x) (length (descriptors x))) as [o Ho]; [rewrite (ao_offsets x H); lia|].
  destruct (arrays_longer x NULL m o H Hc ltac:(lia)) as (A & D & L). rewrite set_slot_end in D.
  pose proof (put_entry_at t x T N (length (descriptors x)) NULL ltac:(rewrite (ao_entries x H); lia)) as P.
  replace (Z.of_nat (length (descriptors x))) with (fd_length x) in P by lia. rewrite P. unfold slot_set in A, D, L.
  rewrite (list_insert_id (modes x)) in A, D, L by done. rewrite (list_insert_id (offsets x)) in A, D, L by done. eauto 10.
Qed.

Lemma pad_beyond_at fuel t x T N newfd :
  arrays_ok x → 0 ≤ newfd < capacity x → capacity x < 2 ^ 62 → (Z.to_nat (newfd + 1 - fd_length x) < fuel)%nat →
  ∃ x', pad_beyond fuel t newfd (at_table t x T N) = Done (tt, at_table t x' T N) ∧
    arrays_ok x' ∧ descriptors x' = descriptors x ++ replicate (Z.to_nat (newfd + 1) - length (descriptors x)) NULL ∧
    capacity x' = capacity x ∧ fd_refs x' = fd_refs x ∧ modes x' = modes x ∧ offsets x' = offsets x.
Proof.
  revert x. induction fuel as [|fuel IH]; intros x H Hn Hc Hf; [lia|]. simpl. st_step (rd_at t x T N).
  rewrite (u64_small newfd) by lia. pose proof (length_descriptors x H) as Hl. pose proof (ao_length x H).
  destruct (Z.leb_spec (fd_length x) newfd).
  - destruct (pad_one t x T N H ltac:(lia) Hc) as (x1 & E & A & D & L & C & R & M & O). st_step E.
    st_step (longer_at t x1 T N).
    assert (C1 : capacity (longer x1) = capacity x) by done.
    destruct (IH (longer x1) A ltac:(lia) ltac:(lia) ltac:(lia)) as (x' & E' & A' & D' & C' & R' & M' & O').
    exists x'. split_and!; auto; try (etrans; eauto); simpl; try congruence.
    rewrite D, <-app_assoc, length_app. f_equal. simpl.
    replace (Z.to_nat (newfd + 1) - length (descriptors x))%nat with (S (Z.to_nat (newfd + 1) - (length (descriptors x) + 1))) by lia.
    done.
  - exists x. split_and!; auto. replace (_ - _)%nat with O by lia. by rewrite app_nil_r.
Qed.

(** The descriptors once there is one numbered [newfd]. *)
Definition padded (d : list Z) (newfd : Z) : list Z := d ++ replicate (Z.to_nat (newfd + 1) - length d) NULL.

Lemma length_padded d newfd : length (padded d newfd) = Nat.max (length d) (Z.to_nat (newfd + 1)).
Proof. unfold padded. rewrite length_app, length_replicate. lia. Qed.

Lemma padded_ok fuel t x T N newfd :
  table_ok x → 0 ≤ newfd < 2 ^ 60 → fd_length x < 2 ^ 60 → (Z.to_nat (newfd + 1) < fuel)%nat →
  ∃ x1 x', grow_beyond fuel t newfd (at_table t x T N) = Done (tt, at_table t x1 T N) ∧
    pad_beyond fuel t newfd (at_table t x1 T N) = Done (tt, at_table t x' T N) ∧
    table_ok x' ∧ descriptors x' = padded (descriptors x) newfd ∧ keeps x x' ∧ fd_refs x' = fd_refs x.
Proof.
  intros [H Hd] Hn Hl Hf. pose proof (ao_length x H). pose proof (ao_capacity x H). pose proof (length_descriptors x H) as Hx.
  destruct (grow_beyond_at fuel t x T N newfd H Hn ltac:(lia) ltac:(lia)) as (x1 & E1 & A1 & D1 & K1 & L1 & R1 & B1).
  destruct (pad_beyond_at fuel t x1 T N newfd A1 ltac:(lia) ltac:(lia) ltac:(lia)) as (x2 & E2 & A2 & D2 & C2 & R2 & M2 & O2).
  exists x1, x2. rewrite D1 in D2. split_and!; [done|done| |done| |congruence].
  - split; [done|]. pose proof (length_descriptors x2 A2) as Hx2. rewrite D2 in Hx2. fold (padded (descriptors x) newfd) in Hx2.
    rewrite length_padded in Hx2. pose proof (ao_length x2 A2). lia.
  - intros j Hj. rewrite M2, O2. by apply K1.
Qed.

(** A change of the table does not matter to a node. *)
Lemma on_node_table {A} f g (k : St fd_state A) a t x T N :
  (on_node f a;; wr_tab t g;; k) (at_table t x T N) = (on_node f a;; k) (at_table t (g x) T N).
Proof.
  unfold mbind at 1 3, St_bind at 1 3. unfold on_node. destruct (a =? NULL).
  - erewrite St_bind_done; [done|apply wr_at].
  - simpl. destruct (N !! a) as [n|]; [|done]. destruct (f n); [|done|done]. erewrite St_bind_done; [done|apply wr_at].
Qed.

(** The end of [process_fd_dup_least], once the table is long enough. *)
Lemma dup_from_at t x T N (oldfd newfd : nat) e :
  table_ok x → fd_length x < 2 ^ 60 → descriptors x !! oldfd = Some e → (newfd ≤ length (descriptors x))%nat →
  let i := free_slot (descriptors x) newfd in
  ∃ m o, modes x !! oldfd = Some m ∧ offsets x !! oldfd = Some o ∧
  (g ← find_gap t (length (descriptors x) - newfd) (Z.of_nat newfd);
   match g with
   | Some i => process_fds_copy t (Z.of_nat oldfd) i;; mret i
   | None =>
       grow_if_full t;;
       x ← rd_tab t;
       process_fds_copy t (Z.of_nat oldfd) (fd_length x);;
       wr_tab t (λ x, with_fd_length (u64 (fd_length x + 1)) x);;
       mret (fd_length x)
   end) (at_table t x T N) =
  (open_node e;; mret (Z.of_nat i)) (at_table t (assigned i e m o x) T N).
Proof.
  intros Hx Hl He Hn i. pose proof (to_arrays x Hx) as H. pose proof (length_descriptors x H) as Hlen. pose proof (ao_length x H).
  destruct (free_slot_spec (descriptors x) newfd Hn) as (Hi & _). fold i in Hi.
  st_step (find_gap_at t x T N (length (descriptors x) - newfd) newfd H ltac:(lia)). fold i. unfold assigned.
  assert (Hold : (oldfd < length (descriptors x))%nat) by (by eapply lookup_lt_Some).
  destruct (decide (i = length (descriptors x))) as [E|E].
  - destruct (roomy_ok x Hx Hl) as (R & D & K & Len & Cap & Refs). rewrite <-D in He.
    destruct (process_fds_copy_at t (roomy x) T N oldfd i e R He ltac:(lia)) as (m & o & Hm & Ho & C).
    destruct (K oldfd Hold) as [Km Ko]. exists m, o. split_and!; [congruence|congruence|].
    rewrite decide_False by lia. st_step (grow_if_full_at t x T N). st_step (rd_at t (roomy x) T N). rewrite Len.
    replace (fd_length x) with (Z.of_nat i) by lia.
    transitivity ((open_node e;; wr_tab t (λ x, with_fd_length (u64 (fd_length x + 1)) x);; mret (Z.of_nat i))
      (at_table t (slot_set i (Some e) m o (roomy x)) T N)).
    + unfold mbind at 1 3, St_bind at 1 3. by rewrite C.
    + apply on_node_table.
  - destruct (process_fds_copy_at t x T N oldfd i e H He ltac:(lia)) as (m & o & Hm & Ho & C).
    exists m, o. split_and!; auto. rewrite decide_True by lia. unfold mbind, St_bind. by rewrite C.
Qed.

Lemma process_fd_dup_least_at fuel t x T N oldfd newfd e :
  table_ok x → 0 ≤ newfd < 2 ^ 59 → fd_length x < 2 ^ 59 → (Z.to_nat (newfd + 1) < fuel)%nat →
  descriptors x !! oldfd = Some e →
  let d := padded (descriptors x) newfd in
  let i := free_slot d (Z.to_nat newfd) in
  ∃ x' m o, process_fd_dup_least fuel t (Z.of_nat oldfd) newfd (at_table t x T N) =
      (open_node e;; mret (Z.of_nat i)) (at_table t x' T N) ∧
    modes x !! oldfd = Some m ∧ offsets x !! oldfd = Some o ∧
    table_ok x' ∧ descriptors x' = set_slot d i e ∧ modes x' !! i = Some m ∧ offsets x' !! i = Some o ∧
    same_data x x' i ∧ fd_refs x' = fd_refs x.
Proof.
  intros Hx Hn Hl Hf He d i.
  destruct (padded_ok fuel t x T N newfd Hx ltac:(lia) ltac:(lia) Hf) as (x0 & x1 & E0 & E1 & O1 & D1 & K1 & R1).
  pose proof (to_arrays x Hx) as H. pose proof (to_arrays x1 O1) as H1. pose proof (length_descriptors x1 H1) as Hn1.
  pose proof (length_descriptors x H) as Hn0. pose proof (ao_length x1 H1). fold d in D1. rewrite D1 in Hn1.
  assert (Hd : length d = Nat.max (length (descriptors x)) (Z.to_nat (newfd + 1))) by apply length_padded.
  destruct (free_slot_spec d (Z.to_nat newfd) ltac:(lia)) as (Hi & _). fold i in Hi.
  assert (Hold : (oldfd < length (descriptors x))%nat) by (by eapply lookup_lt_Some).
  assert (He1 : descriptors x1 !! oldfd = Some e) by (rewrite D1; unfold d, padded; by rewrite lookup_app_l).
  destruct (K1 oldfd Hold) as [Km Ko].
  destruct (dup_from_at t x1 T N oldfd (Z.to_nat newfd) e O1 ltac:(lia) He1 ltac:(rewrite D1; lia)) as (m & o & Hm & Ho & F).
  rewrite D1 in F. fold i in F.
  destruct (assigned_ok x1 i e m o O1 ltac:(rewrite D1; lia) ltac:(lia)) as [A D M O S R]. rewrite D1 in D.
  exists (assigned i e m o x1), m, o. split_and!; auto; [|congruence|congruence| |congruence].
  - rewrite <-F. unfold process_fd_dup_least. st_step E0. st_step E1. st_step (rd_at t x1 T N).
    rewrite Z2Nat.id by lia. by replace (Z.to_nat (fd_length x1 - newfd)) with (length d - Z.to_nat newfd)%nat by lia.
  - intros j Hj Hne. destruct (S j) as [-> ->]; [rewrite D1; lia|done|by apply K1].
Qed.

(** ** Reference counts *)

(** The references of a table: a node as often as a descriptor refers to it. *)
Definition one (e : Z) : gmultiset Z := if decide (e = NULL) then ∅ else {[+ e +]}.
Definition refs_of (d : list Z) : gmultiset Z := foldr (λ e R, one e ⊎ R) ∅ d.
Definition held (T : gmap Z fd_table_t) : gmultiset Z := map_fold (λ _ x R, refs_of (descriptors x) ⊎ R) ∅ T.

(** The count of a node is the number of references to it, or -1 for a node that is not
    counted; the last reference closed and freed it, once. *)
Record counted (R : gmultiset Z) (N : gmap Z shared_node) : Prop := {
  co_nodes : ∀ a n, N !! a = Some n → count n = Some (-1) ∨
    n = if decide (multiplicity a R = 0%nat) then Shared None 1 else Shared (Some (Z.of_nat (multiplicity a R))) 0;
  co_present : ∀ a, a ∈ R → is_Some (N !! a)
}.

(** [ext] holds the references that are not in a table. *)
Record fds_ok (ext : gmultiset Z) (s : fd_state) : Prop := {
  fo_tables : map_Forall (λ _, table_ok) (tables s);
  fo_counted : counted (ext ⊎ held (tables s)) (fs_nodes s)
}.

Lemma refs_of_app d1 d2 : refs_of (d1 ++ d2) = refs_of d1 ⊎ refs_of d2.
Proof. induction d1 as [|e d1 IH]; csimpl; [multiset_solver|]. rewrite IH. multiset_solver. Qed.

Lemma refs_of_NULL n : refs_of (replicate n NULL) = ∅.
Proof. induction n as [|n IH]; csimpl; [done|]. rewrite IH. unfold one. rewrite decide_True by done. multiset_solver. Qed.

Lemma refs_of_padded d n : refs_of (padded d n) = refs_of d.
Proof. unfold padded. rewrite refs_of_app, refs_of_NULL. multiset_solver. Qed.

Lemma refs_of_split d i e : d !! i = Some e → refs_of d = one e ⊎ refs_of (take i d ++ drop (S i) d).
Proof.
  intros H. rewrite <-(take_drop_middle d i e H) at 1. rewrite !refs_of_app. csimpl. multiset_solver.
Qed.

Lemma refs_of_set_slot d i e : refs_of (set_slot d i e) = one e ⊎ refs_of (take i d ++ drop (S i) d).
Proof. unfold set_slot. rewrite !refs_of_app. csimpl. multiset_solver. Qed.

(** A free slot holds no reference. *)
Lemma refs_of_free d i e : (∀ b, d !! i = Some b → b = NULL) → refs_of (set_slot d i e) = one e ⊎ refs_of d.
Proof.
  intros H. rewrite refs_of_set_slot. destruct (d !! i) as [b|] eqn:E.
  - rewrite (refs_of_split d i b E). rewrite (H b eq_refl). unfold one at 3. rewrite decide_True by done. multiset_solver.
  - apply lookup_ge_None in E. rewrite take_ge, (drop_ge d (S i)), app_nil_r by lia. done.
Qed.

Lemma refs_of_elem d i e : d !! i = Some e → e ≠ NULL → e ∈ refs_of d.
Proof. intros H He. rewrite (refs_of_split d i e H). unfold one. rewrite decide_False by done. multiset_solver. Qed.

Lemma held_insert T t x : T !! t = None → held (<[t := x]> T) = refs_of (descriptors x) ⊎ held T.
Proof. intros H. unfold held. rewrite map_fold_insert_L; [done| |done]. intros. multiset_solver. Qed.

Lemma held_at T t x : held (<[t := x]> T) = refs_of (descriptors x) ⊎ held (delete t T).
Proof. rewrite <-insert_delete_eq. apply held_insert. apply lookup_delete_eq. Qed.

Lemma held_lookup T t x : T !! t = Some x → held T = refs_of (descriptors x) ⊎ held (delete t T).
Proof. intros H. rewrite <-(insert_id T t x H) at 1. apply held_at. Qed.

(** *** Taking and giving up a reference *)

(** The node [a] with [k] references. *)
Definition node_ok (k : nat) (n : shared_node) : Prop :=
  count n = Some (-1) ∨ n = if decide (k = 0%nat) then Shared None 1 else Shared (Some (Z.of_nat k)) 0.

Lemma counted_change R R' N a n :
  counted R N → (∀ b, b ≠ a → multiplicity b R' = multiplicity b R) → node_ok (multiplicity a R') n →
  counted R' (<[a := n]> N).
Proof.
  intros [C P] H Hn. split.
  - intros b m Hb. destruct (decide (a = b)) as [->|Hne]; simplify_map_eq; [done|]. rewrite H by done. by apply C.
  - intros b Hb. destruct (decide (a = b)) as [->|Hne]; simplify_map_eq; [eauto|].
    apply P. apply elem_of_multiplicity. rewrite <-H by done. by apply elem_of_multiplicity.
Qed.

Lemma counted_eq R R' N : counted R N → R = R' → counted R' N.
Proof. by intros ? <-. Qed.

Lemma node_clone k n : node_ok (S k) n → ∃ n', clone_fs n = Done n' ∧ node_ok (S (S k)) n'.
Proof.
  unfold node_ok, clone_fs. intros [E| ->].
  - rewrite E. simpl. eauto.
  - simpl. eexists. split; [done|]. right. do 3 f_equal. lia.
Qed.

Lemma node_close k n : node_ok (S k) n → ∃ n', close_fs n = Done n' ∧ node_ok k n'.
Proof.
  unfold node_ok, close_fs. intros [E| ->]; [rewrite E; simpl; eauto|].
  rewrite decide_False by lia. cbn [count closes]. destruct (Z.eqb_spec (Z.of_nat (S k)) (-1)); [lia|].
  destruct (Z.eqb_spec (Z.of_nat (S k) - 1) 0).
  - eexists. split; [done|]. right. destruct (decide _); [done|lia].
  - eexists. split; [done|]. right. destruct (decide _); [lia|]. do 2 f_equal. lia.
Qed.

Lemma counted_open R N T a :
  counted R N → a = NULL ∨ a ∈ R →
  ∃ N', open_node a (FdState T N) = Done (tt, FdState T N') ∧ counted (one a ⊎ R) N'.
Proof.
  intros H Ha. unfold open_node, on_node, one. destruct (Z.eqb_spec a NULL) as [->|Hne].
  - exists N. split; [done|]. rewrite decide_True by done. by rewrite (left_id_L ∅ (⊎)).
  - destruct Ha as [|Ha]; [done|]. rewrite decide_False by done. simpl. destruct (co_present R N H a Ha) as [n Hn]. rewrite Hn.
    pose proof (co_nodes R N H a n Hn) as Hk. apply elem_of_multiplicity in Ha. fold (node_ok (multiplicity a R) n) in Hk.
    destruct (multiplicity a R) as [|k] eqn:Em; rewrite ?Em in *; [multiset_solver|]. destruct (node_clone k n Hk) as (n' & -> & Hn').
    eexists. split; [done|]. apply (counted_change R); [done| |].
    + intros b Hb. by rewrite multiplicity_disj_union, multiplicity_singleton_ne by done.
    + rewrite multiplicity_disj_union, multiplicity_singleton_eq, Em. exact Hn'.
Qed.

Lemma counted_close R N T a :
  counted (one a ⊎ R) N →
  ∃ N', close_node a (FdState T N) = Done (tt, FdState T N') ∧ counted R N'.
Proof.
  intros H. unfold close_node, on_node, one in *. destruct (Z.eqb_spec a NULL) as [->|Hne].
  - exists N. split; [done|]. rewrite decide_True in H by done. by rewrite (left_id_L ∅ (⊎)) in H.
  - rewrite decide_False in H by done. simpl. destruct (co_present _ N H a) as [n Hn]; [multiset_solver|]. rewrite Hn.
    pose proof (co_nodes _ N H a n Hn) as Hk. rewrite multiplicity_disj_union, multiplicity_singleton_eq in Hk.
    destruct (node_close (multiplicity a R) n Hk) as (n' & -> & Hn').
    eexists. split; [done|]. apply (counted_change ({[+ a +]} ⊎ R)); [done| |done].
    intros b Hb. by rewrite multiplicity_disj_union, multiplicity_singleton_ne by done.
Qed.

Lemma fds_ok_at ext t x T N :
  fds_ok ext (at_table t x T N) ↔
  table_ok x ∧ map_Forall (λ _, table_ok) (delete t T) ∧ counted (ext ⊎ (refs_of (descriptors x) ⊎ held (delete t T))) N.
Proof.
  unfold at_table. split.
  - intros [F C]. simpl in *. rewrite <-insert_delete_eq in F. apply map_Forall_insert in F as [? ?]; [|apply lookup_delete_eq].
    by rewrite held_at in C.
  - intros (X & F & C). split; simpl; [|by rewrite held_at].
    rewrite <-insert_delete_eq. apply map_Forall_insert; [apply lookup_delete_eq|done].
Qed.

(** ** The operations and the counts *)

(** The node of an open descriptor. *)
Definition fd_node (d : list Z) (fd : Z) : option Z :=
  if 0 <=? fd then match d !! Z.to_nat fd with Some e => if e =? NULL then None else Some e | None => None end else None.

Lemma fd_node_Some d fd e : fd_node d fd = Some e → d !! Z.to_nat fd = Some e ∧ e ≠ NULL ∧ fd = Z.of_nat (Z.to_nat fd).
Proof.
  unfold fd_node. destruct (Z.leb_spec 0 fd); [|done]. destruct (d !! Z.to_nat fd) as [b|] eqn:E; [|done].
  destruct (Z.eqb_spec b NULL); [done|]. intros ?; simplify_eq. split_and!; auto. lia.
Qed.

Lemma FD_CHECK_at t x T N fd :
  arrays_ok x → fd_length x < 2 ^ 31 →
  FD_CHECK t fd (at_table t x T N) = Done (bool_decide (is_Some (fd_node (descriptors x) fd)), at_table t x T N).
Proof.
  intros H Hl. pose proof (length_descriptors x H) as Hn. pose proof (ao_length x H).
  unfold FD_CHECK. st_step (rd_at t x T N). rewrite i32_small by lia. unfold fd_node.
  destruct (Z.leb_spec 0 fd); [|by rewrite andb_false_r].
  destruct (Z.ltb_spec fd (fd_length x)); simpl.
  - destruct (lookup_lt_is_Some_2 (descriptors x) (Z.to_nat fd)) as [e He]; [lia|]. rewrite He.
    pose proof (get_entry_at t x T N _ e H He) as G. rewrite Z2Nat.id in G by lia. st_step G. by destruct (e =? NULL).
  - by rewrite lookup_ge_None_2 by lia.
Qed.

Lemma fds_ok_ext ext ext' s : fds_ok ext s → ext' = ext → fds_ok ext' s.
Proof. by intros ? ->. Qed.

Lemma data_lookup x i e :
  table_ok x → descriptors x !! i = Some e → ∃ m o, modes x !! i = Some m ∧ offsets x !! i = Some o.
Proof.
  intros [H _] Hi. apply lookup_lt_Some in Hi. rewrite length_descriptors in Hi by done. pose proof (ao_length x H).
  destruct (lookup_lt_is_Some_2 (modes x) i) as [m Hm]; [rewrite (ao_modes x H); lia|].
  destruct (lookup_lt_is_Some_2 (offsets x) i) as [o Ho]; [rewrite (ao_offsets x H); lia|]. eauto.
Qed.

Section Operations.
Variables (ext : gmultiset Z) (t : Z) (x : fd_table_t) (T : gmap Z fd_table_t) (N : gmap Z shared_node).
Notation here := (at_table t x T N).
Context (Hx : fd_length x < 2 ^ 31).

Lemma process_append_fd_ok node :
  fds_ok (one node ⊎ ext) here →
  let i := free_slot (descriptors x) 0 in
  ∃ x', process_append_fd t node here = Done (Z.of_nat i, at_table t x' T N) ∧
    assigns x i node (Some 0) (Some 0) x' ∧ fds_ok ext (at_table t x' T N).
Proof.
  intros (X & F & C)%fds_ok_at i. exists (assigned i node (Some 0) (Some 0) x).
  destruct (free_slot_spec (descriptors x) 0 ltac:(lia)) as (Hi & Hfree & _). fold i in Hi, Hfree.
  assert (A : assigns x i node (Some 0) (Some 0) (assigned i node (Some 0) (Some 0) x)) by (apply assigned_ok; auto; lia).
  split_and!; [apply process_append_fd_at; [done|lia]|done|]. apply fds_ok_at. split_and!; [by destruct A|done|].
  rewrite (as_descriptors _ _ _ _ _ _ A), refs_of_free by done.
  eapply counted_eq; [exact C|multiset_solver].
Qed.

(** An assignment that leaves the right counts. *)
Lemma fds_ok_assigned i e m o y N' :
  fds_ok ext here → (i ≤ length (descriptors x))%nat → assigns x i e m o y →
  counted (ext ⊎ (one e ⊎ refs_of (take i (descriptors x) ++ drop (S i) (descriptors x)) ⊎ held (delete t T))) N' →
  fds_ok ext (at_table t y T N').
Proof.
  intros (X & F & C)%fds_ok_at Hi A C'. apply fds_ok_at. destruct A. split_and!; auto.
  by rewrite as_descriptors0, refs_of_set_slot.
Qed.

(** The reference of one descriptor, and the others. *)
Lemma counted_split i e :
  fds_ok ext here → descriptors x !! i = Some e →
  counted (one e ⊎ (ext ⊎ (refs_of (take i (descriptors x) ++ drop (S i) (descriptors x)) ⊎ held (delete t T)))) N.
Proof.
  intros (X & F & C)%fds_ok_at He. rewrite (refs_of_split _ i e He) in C. eapply counted_eq; [exact C|multiset_solver].
Qed.

(** A descriptor cleared: its node closed, then the entry. *)
Lemma clear_slot i e :
  fds_ok ext here → descriptors x !! i = Some e →
  ∃ x' N' m o, close_node e here = Done (tt, at_table t x T N') ∧
    put_entry t (Z.of_nat i) NULL (at_table t x T N') = Done (tt, at_table t x' T N') ∧
    modes x !! i = Some m ∧ offsets x !! i = Some o ∧ assigns x i NULL m o x' ∧ fds_ok ext (at_table t x' T N').
Proof.
  intros H He. pose proof (counted_split i e H He) as C. pose proof H as (X & F & _)%fds_ok_at.
  destruct (data_lookup x i e X He) as (m & o & Hm & Ho).
  destruct (counted_close _ N (<[t := x]> T) e C) as (N' & E & C').
  pose proof (lookup_lt_Some _ _ _ He) as Hi. pose proof (length_descriptors x (to_arrays x X)).
  pose proof (assigned_ok x i NULL m o X ltac:(lia) ltac:(lia)) as A. unfold assigned in A. rewrite decide_True in A by done.
  exists (slot_set i (Some NULL) m o x), N', m, o. split_and!; auto.
  - rewrite put_entry_at by (rewrite (ao_entries x (to_arrays x X)); pose proof (ao_length x (to_arrays x X)); lia).
    unfold slot_set. by rewrite (list_insert_id (modes x)), (list_insert_id (offsets x)) by done.
  - apply (fds_ok_assigned i NULL m o); [done|lia|done|]. unfold one. rewrite decide_True by done.
    eapply counted_eq; [exact C'|multiset_solver].
Qed.

Lemma sys_close_ok fd :
  fds_ok ext here →
  match fd_node (descriptors x) fd with
  | Some e => ∃ x' N' m o, sys_close t fd here = Done (0, at_table t x' T N') ∧
      close_node e here = Done (tt, at_table t x T N') ∧ assigns x (Z.to_nat fd) NULL m o x' ∧ fds_ok ext (at_table t x' T N')
  | None => sys_close t fd here = Done (- EBADF, here)
  end.
Proof.
  intros H. pose proof H as (X & _ & _)%fds_ok_at. unfold sys_close.
  st_step (FD_CHECK_at t x T N fd (to_arrays x X) ltac:(lia)). destruct (fd_node _ fd) as [e|] eqn:E.
  - apply fd_node_Some in E as (He & Hne & Hfd). rewrite bool_decide_eq_true_2 by eauto.
    destruct (clear_slot _ e H He) as (x' & N' & m & o & E1 & E2 & Hm & Ho & A & O). exists x', N', m, o. split_and!; auto.
    rewrite Hfd. st_step (get_entry_at t x T N _ e (to_arrays x X) He). st_step E1. by st_step E2.
  - by rewrite bool_decide_eq_false_2 by (by intros [? ?]).
Qed.

(** [process_move_fd] between two descriptors of the table. *)
Lemma move_entry src dest e b :
  fds_ok ext here → descriptors x !! src = Some e → descriptors x !! dest = Some b →
  ∃ x' N', (d ← get_entry t (Z.of_nat dest);
            e ← get_entry t (Z.of_nat src);
            (if negb (d =? e) then close_node d;; process_fds_copy t (Z.of_nat src) (Z.of_nat dest) else mret tt);;
            mret (Z.of_nat dest)) here = Done (Z.of_nat dest, at_table t x' T N') ∧
    fds_ok ext (at_table t x' T N') ∧
    if decide (b = e) then x' = x ∧ N' = N
    else ∃ m o, modes x !! src = Some m ∧ offsets x !! src = Some o ∧ assigns x dest e m o x'.
Proof.
  intros H He Hb. pose proof H as (X & F & _)%fds_ok_at. pose proof (to_arrays x X) as R.
  st_step (get_entry_at t x T N dest b R Hb). st_step (get_entry_at t x T N src e R He).
  destruct (Z.eqb_spec b e) as [->|Hne]; simpl.
  - exists x, N. rewrite decide_True by done. auto.
  - pose proof (counted_split dest b H Hb) as C. pose proof (lookup_lt_Some _ _ _ Hb) as Hd. pose proof (length_descriptors x R).
    pose proof (ao_length x R).
    destruct (counted_close _ N (<[t := x]> T) b C) as (N1 & E1 & C1).
    destruct (process_fds_copy_at t x T N1 src dest e R He ltac:(lia)) as (m & o & Hm & Ho & E2).
    assert (Hin : e = NULL ∨ e ∈ ext ⊎ (refs_of (take dest (descriptors x) ++ drop (S dest) (descriptors x)) ⊎ held (delete t T))).
    { destruct (decide (e = NULL)) as [|Hn]; [auto|right]. pose proof (refs_of_elem _ src e He Hn) as Hin.
      rewrite (refs_of_split _ dest b Hb) in Hin. unfold one in Hin. destruct (decide (b = NULL)); multiset_solver. }
    destruct (counted_open _ N1 (<[t := slot_set dest (Some e) m o x]> T) e C1 Hin) as (N2 & E3 & C2).
    pose proof (assigned_ok x dest e m o X ltac:(lia) ltac:(lia)) as A. unfold assigned in A. rewrite decide_True in A by done.
    exists (slot_set dest (Some e) m o x), N2. rewrite decide_False by done. split_and!; [| |eauto].
    + unfold mbind, St_bind. unfold at_table in *. rewrite E1, E2, E3. done.
    + apply (fds_ok_assigned dest e m o); [done|lia|done|]. eapply counted_eq; [exact C2|multiset_solver].
Qed.
End Operations.

Lemma in_table x a :
  arrays_ok x → fd_length x < 2 ^ 31 → - 2 ^ 31 ≤ a < 2 ^ 31 →
  (fd_length x <=? u64 a) = negb (bool_decide (0 ≤ a < fd_length x)).
Proof.
  intros H Hl Ha. pose proof (ao_length x H). destruct (decide (0 ≤ a)).
  - rewrite u64_small by lia. destruct (Z.leb_spec (fd_length x) a); [rewrite bool_decide_eq_false_2|rewrite bool_decide_eq_true_2]; auto; lia.
  - assert (u64 a = a + 2 ^ 64) as -> by (unfold u64; rewrite <-(Z.mod_add a 1), Z.mod_small; lia).
    rewrite bool_decide_eq_false_2 by lia. by apply Z.leb_le; lia.
Qed.

Lemma set_slot_same d i e : (i < length d)%nat → d !! i = Some e → set_slot d i e = d.
Proof. intros. rewrite set_slot_insert by done. by apply list_insert_id. Qed.

Lemma set_slot_set_slot d i a b : (i ≤ length d)%nat → set_slot (set_slot d i a) i b = set_slot d i b.
Proof.
  intros H. unfold set_slot. rewrite take_app_le, take_take, Nat.min_id by (rewrite length_take; lia). do 2 f_equal.
  rewrite drop_app_ge by (rewrite length_take; lia). rewrite length_take, Nat.min_l by lia.
  by replace (S i - i)%nat with 1%nat by lia.
Qed.

Lemma set_slot_lookup d i e : (i ≤ length d)%nat → set_slot d i e !! i = Some e.
Proof. intros H. unfold set_slot. rewrite list_lookup_middle; [done|]. rewrite length_take. lia. Qed.

Lemma set_slot_lookup_ne d i j e a : (i ≤ length d)%nat → j ≠ i → d !! j = Some a → set_slot d i e !! j = Some a.
Proof.
  intros H Hne Hj. destruct (decide (i = length d)) as [->|].
  - rewrite set_slot_end. by apply lookup_app_l_Some.
  - rewrite set_slot_insert by lia. by rewrite list_lookup_insert_ne.
Qed.

Section Calls.
Variables (ext : gmultiset Z) (t : Z) (x : fd_table_t) (T : gmap Z fd_table_t) (N : gmap Z shared_node).
Notation here := (at_table t x T N).
Context (Hx : fd_length x < 2 ^ 31 - 1).

(** The descriptor a dup2 assigns. *)
Definition dup2_target (dest : Z) : nat := if dest =? -1 then free_slot (descriptors x) 0 else Z.to_nat dest.

Lemma sys_dup2_ok src dest :
  fds_ok ext here → - 2 ^ 31 ≤ src < 2 ^ 31 → - 2 ^ 31 ≤ dest < 2 ^ 31 →
  if decide (0 ≤ src < fd_length x ∧ (dest = -1 ∨ 0 ≤ dest < fd_length x)) then
    ∃ e x' N', descriptors x !! Z.to_nat src = Some e ∧
      sys_dup2 t src dest here = Done (Z.of_nat (dup2_target dest), at_table t x' T N') ∧
      fds_ok ext (at_table t x' T N') ∧ descriptors x' = set_slot (descriptors x) (dup2_target dest) e ∧ fd_refs x' = fd_refs x ∧
      (descriptors x !! dup2_target dest ≠ Some e → e ≠ NULL → ∃ m o, modes x !! Z.to_nat src = Some m ∧ offsets x !! Z.to_nat src = Some o ∧
         modes x' !! dup2_target dest = Some m ∧ offsets x' !! dup2_target dest = Some o)
  else sys_dup2 t src dest here = Done (-1, here).
Proof.
  intros H Hs Hd. pose proof H as (X & F & _)%fds_ok_at. pose proof (to_arrays x X) as R.
  pose proof (length_descriptors x R) as Hlen. pose proof (ao_length x R).
  unfold sys_dup2, process_move_fd. st_step (rd_at t x T N). rewrite !in_table by (auto; lia).
  destruct (decide _) as [[Hin Hto]|Hout].
  2: { replace (_ || _) with true; [done|]. symmetry. apply orb_true_iff.
    destruct (decide (0 ≤ src < fd_length x)); [right|left; by rewrite bool_decide_eq_false_2].
    rewrite bool_decide_eq_false_2 by naive_solver. destruct (Z.eqb_spec dest (-1)); naive_solver. }
  destruct (lookup_lt_is_Some_2 (descriptors x) (Z.to_nat src)) as [e He]; [lia|].
  replace (_ || _) with false; cycle 1.
  { symmetry. apply orb_false_iff. rewrite bool_decide_eq_true_2 by done. split; [done|].
    destruct Hto as [->|]; [done|]. rewrite bool_decide_eq_true_2 by done. by rewrite andb_false_r. }
  exists e. unfold dup2_target. destruct (Z.eqb_spec dest (-1)) as [->|Hne].
  - set (i := free_slot (descriptors x) 0).
    destruct (free_slot_spec (descriptors x) 0 ltac:(lia)) as (Hi & Hfree & _). fold i in Hi, Hfree.
    destruct (process_append_fd_ok ext t x T N ltac:(lia) NULL) as (x1 & E1 & A1 & O1).
    { eapply fds_ok_ext; [exact H|]. unfold one. rewrite decide_True by done. multiset_solver. }
    fold i in E1, A1. pose proof A1 as [T1 D1 M1 F1 S1 R1].
    assert (L1 : fd_length x1 ≤ fd_length x + 1).
    { pose proof (length_descriptors x1 (to_arrays x1 T1)) as L. rewrite D1 in L. unfold set_slot in L.
      rewrite length_app, length_take in L. simpl in L. rewrite length_drop in L. pose proof (ao_length x1 (to_arrays x1 T1)). lia. }
    assert (He1 : descriptors x1 !! Z.to_nat src = Some e).
    { rewrite D1. destruct (decide (Z.to_nat src = i)) as [Ei|]; [|apply set_slot_lookup_ne; auto; lia].
      rewrite Ei, set_slot_lookup by lia. rewrite <-Ei in Hfree. by rewrite (Hfree e He). }
    assert (Hb1 : descriptors x1 !! i = Some NULL) by (rewrite D1; apply set_slot_lookup; lia).
    destruct (move_entry ext t x1 T N ltac:(lia) (Z.to_nat src) i e NULL O1 He1 Hb1) as (x' & N' & E & O & C).
    rewrite Z2Nat.id in E by lia. exists x', N'. split_and!; [done| |done| | |].
    + st_step E1. exact E.
    + destruct (decide (NULL = e)) as [<-|].
      * destruct C as [-> ->]. done.
      * destruct C as (m & o & _ & _ & []). rewrite as_descriptors0, D1. apply set_slot_set_slot. lia.
    + destruct (decide (NULL = e)) as [<-|]; [by destruct C as [-> ->]|]. destruct C as (m & o & _ & _ & []). congruence.
    + intros _ Hn. rewrite decide_False in C by done. destruct C as (m & o & Hm & Ho & []).
      destruct (S1 (Z.to_nat src)) as [<- <-]; [lia| |eauto 10]. intros Ei. rewrite <-Ei in Hfree. by apply Hn, Hfree.
  - destruct Hto as [|Hto]; [done|].
    destruct (lookup_lt_is_Some_2 (descriptors x) (Z.to_nat dest)) as [b Hb]; [lia|].
    destruct (move_entry ext t x T N ltac:(lia) (Z.to_nat src) (Z.to_nat dest) e b H He Hb) as (x' & N' & E & O & C).
    rewrite !Z2Nat.id in E by lia. exists x', N'.
    split_and!; [done| |done| | |].
    + rewrite Z2Nat.id by lia. exact E.
    + destruct (decide (b = e)) as [->|]; [destruct C as [-> ->]; rewrite set_slot_same; auto; lia|].
      destruct C as (m & o & _ & _ & []). done.
    + destruct (decide (b = e)) as [->|]; [by destruct C as [-> ->]|]. by destruct C as (m & o & _ & _ & []).
    + intros Hbe _. rewrite decide_False in C by congruence. destruct C as (m & o & ? & ? & []). eauto 10.
Qed.

Lemma fcntl_dupfd_ok fuel fd arg :
  fds_ok ext here → (257 < fuel)%nat →
  match fd_node (descriptors x) fd with
  | None => fcntl_dupfd fuel t fd arg here = Done (- EBADF, here)
  | Some e =>
      if decide (0 ≤ arg ≤ 256) then
        let d := padded (descriptors x) arg in
        let i := free_slot d (Z.to_nat arg) in
        ∃ x' N' m o, fcntl_dupfd fuel t fd arg here = Done (Z.of_nat i, at_table t x' T N') ∧
          fds_ok ext (at_table t x' T N') ∧ descriptors x' = set_slot d i e ∧ fd_refs x' = fd_refs x ∧ same_data x x' i ∧
          modes x !! Z.to_nat fd = Some m ∧ offsets x !! Z.to_nat fd = Some o ∧ modes x' !! i = Some m ∧ offsets x' !! i = Some o
      else fcntl_dupfd fuel t fd arg here = Done (- EINVAL, here)
  end.
Proof.
  intros H Hf. pose proof H as (X & F & C)%fds_ok_at. pose proof (to_arrays x X) as R.
  unfold fcntl_dupfd. st_step (FD_CHECK_at t x T N fd R ltac:(lia)).
  destruct (fd_node _ fd) as [e|] eqn:Ef; [|by rewrite bool_decide_eq_false_2 by (by intros [? ?])].
  apply fd_node_Some in Ef as (He & Hne & Hfd). rewrite bool_decide_eq_true_2 by eauto. simpl.
  destruct (decide (0 ≤ arg ≤ 256)) as [Ha|Ha]; cycle 1.
  { replace ((arg <? 0) || (256 <? arg)) with true; [done|]. destruct (Z.ltb_spec arg 0), (Z.ltb_spec 256 arg); simpl; auto; lia. }
  replace ((arg <? 0) || (256 <? arg)) with false
    by (destruct (Z.ltb_spec arg 0), (Z.ltb_spec 256 arg); simpl; auto; lia).
  destruct (process_fd_dup_least_at fuel t x T N (Z.to_nat fd) arg e X ltac:(lia) ltac:(lia) ltac:(lia) He)
    as (x' & m & o & E & Hm & Ho & X' & D & M & O & S & Rf). rewrite <-Hfd in E.
  set (d := padded (descriptors x) arg) in *. set (i := free_slot d (Z.to_nat arg)) in *.
  destruct (counted_open _ N (<[t := x']> T) e C) as (N' & E' & C').
  { right. pose proof (refs_of_elem _ _ e He Hne). multiset_solver. }
  exists x', N', m, o. split_and!; auto.
  - rewrite E. by st_step E'.
  - apply fds_ok_at. split_and!; [done|done|]. rewrite D.
    destruct (free_slot_spec d (Z.to_nat arg)) as (_ & Hfree & _); [unfold d; rewrite length_padded; lia|].
    rewrite refs_of_free by exact Hfree. unfold d. rewrite refs_of_padded. eapply counted_eq; [exact C'|multiset_solver].
Qed.
End Calls.

(** ** Closing the entries of a table *)

Section Release.
Variables (ext : gmultiset Z) (t : Z) (T : gmap Z fd_table_t).

Lemma close_entries_ok n i x N :
  fds_ok ext (at_table t x T N) → fd_length x < 2 ^ 31 → (i + n = length (descriptors x))%nat →
  ∃ x' N', close_entries t n (Z.of_nat i) (at_table t x T N) = Done (tt, at_table t x' T N') ∧
    fds_ok ext (at_table t x' T N') ∧ descriptors x' = take i (descriptors x) ++ replicate n NULL ∧
    fd_refs x' = fd_refs x ∧ fd_length x' = fd_length x.
Proof.
  revert i x N. induction n as [|n IH]; intros i x N H Hl Hi; simpl.
  { exists x, N. rewrite take_ge, app_nil_r by lia. auto. }
  pose proof H as (X & F & C)%fds_ok_at. pose proof (to_arrays x X) as R.
  destruct (lookup_lt_is_Some_2 (descriptors x) i ltac:(lia)) as [e He].
  st_step (get_entry_at t x T N i e R He). replace (Z.of_nat i + 1) with (Z.of_nat (S i)) by lia.
  destruct (Z.eqb_spec e NULL) as [->|Hne]; simpl.
  - destruct (IH (S i) x N H Hl ltac:(lia)) as (x' & N' & E & O & D & Rf & L). exists x', N'. split_and!; auto.
    rewrite D, (take_S_r _ _ NULL) by done. by rewrite <-app_assoc.
  - destruct (clear_slot ext t x T N ltac:(lia) i e H He) as (x1 & N1 & m & o & E1 & E2 & _ & _ & A & O1).
    destruct A as [X1 D1 _ _ _ R1]. assert (Hlt : (i < length (descriptors x))%nat) by lia.
    rewrite set_slot_insert in D1 by done.
    assert (L1 : fd_length x1 = fd_length x).
    { pose proof (length_descriptors x1 (to_arrays x1 X1)) as L. rewrite D1, length_insert, length_descriptors in L by done.
      pose proof (ao_length x R). pose proof (ao_length x1 (to_arrays x1 X1)). lia. }
    destruct (IH (S i) x1 N1 O1 ltac:(lia)) as (x' & N' & E & O & D & Rf & L); [rewrite D1, length_insert; lia|].
    exists x', N'. split_and!; auto; [| |congruence|congruence].
    + unfold mbind, St_bind in *. by rewrite E1, E2, E.
    + rewrite D, D1, (take_S_r _ _ NULL) by (by apply list_lookup_insert_eq).
      by rewrite take_insert_ge, <-app_assoc by lia.
Qed.

Lemma exec_fds_ok x N :
  fds_ok ext (at_table t x T N) → fd_length x < 2 ^ 31 →
  ∃ x' N', exec_fds t (at_table t x T N) = Done (tt, at_table t x' T N') ∧
    fds_ok ext (at_table t x' T N') ∧
    descriptors x' = take 3 (descriptors x) ++ replicate (length (descriptors x) - 3) NULL ∧
    fd_refs x' = fd_refs x ∧ fd_length x' = fd_length x.
Proof.
  intros H Hl. pose proof H as (X & F & C)%fds_ok_at. pose proof (length_descriptors x (to_arrays x X)) as Hn.
  pose proof (ao_length x (to_arrays x X)). unfold exec_fds. st_step (rd_at t x T N).
  destruct (decide (3 ≤ fd_length x)).
  - destruct (close_entries_ok (length (descriptors x) - 3) 3 x N H Hl ltac:(lia)) as (x' & N' & E & P).
    exists x', N'. split; [|done]. rewrite <-E. f_equal. lia.
  - exists x, N. replace (Z.to_nat (fd_length x - 3)) with O by lia. replace (_ - 3)%nat with O by lia.
    rewrite take_ge, app_nil_r by lia. auto.
Qed.

Lemma exit_fds_ok x N :
  fds_ok ext (at_table t x T N) → fd_length x < 2 ^ 31 → 0 < fd_refs x < 2 ^ 64 →
  if decide (fd_refs x = 1) then
    ∃ N', exit_fds t (at_table t x T N) = Done (tt, FdState (delete t T) N') ∧ fds_ok ext (FdState (delete t T) N')
  else
    let x' := with_fd_refs (fd_refs x - 1) x in
    exit_fds t (at_table t x T N) = Done (tt, at_table t x' T N) ∧ fds_ok ext (at_table t x' T N).
Proof.
  intros H Hl Hr. unfold exit_fds. st_step (wr_at t x T N (λ x, with_fd_refs (u64 (fd_refs x - 1)) x)).
  rewrite u64_small by lia. set (x1 := with_fd_refs (fd_refs x - 1) x). st_step (rd_at t x1 T N).
  assert (H1 : fds_ok ext (at_table t x1 T N)).
  { apply fds_ok_at in H as ([[] ?] & F & C). apply fds_ok_at. split_and!; auto. split; [by split|done]. }
  change (fd_refs x1) with (fd_refs x - 1). destruct (decide _) as [->|Hne]; simpl.
  - pose proof H1 as (X & F & _)%fds_ok_at. pose proof (length_descriptors x1 (to_arrays x1 X)) as Hn.
    destruct (close_entries_ok (length (descriptors x1)) 0 x1 N H1 Hl eq_refl) as (x' & N' & E & O & D & _).
    exists N'. rewrite Hn in E. change (Z.of_nat 0) with 0 in E. change (fd_length x) with (fd_length x1). st_step E.
    unfold modify, at_table. simpl. rewrite delete_insert_eq. split; [done|].
    apply fds_ok_at in O as (_ & F' & C'). split; [done|]. rewrite D in C'. simpl in C'. rewrite refs_of_NULL in C'.
    by rewrite (left_id_L ∅ (⊎)) in C'.
  - destruct (Z.eqb_spec (fd_refs x - 1) 0); [lia|]. done.
Qed.
End Release.

(** ** The table of a child *)

Section Spawn.
Context {MA : Malloc}.
Variables (ext : gmultiset Z) (par : Z) (x : fd_table_t) (T : gmap Z fd_table_t).

(** The first [i] cells of an array, copied. *)
Definition copied (i : nat) (l : list (option Z)) : list (option Z) := take i l ++ replicate (length l - i) None.
Definition partial_copy (i : nat) : fd_table_t :=
  FdTable (copied i (entries x)) (copied i (offsets x)) (copied i (modes x)) (fd_length x) (capacity x) 1.

Lemma copied_insert i l v : l !! i = Some v → <[i := v]> (copied i l) = copied (S i) l.
Proof.
  intros H. pose proof (lookup_lt_Some _ _ _ H). unfold copied.
  rewrite insert_app_r_alt by (rewrite length_take; lia). rewrite length_take, Nat.min_l, Nat.sub_diag by lia.
  replace (length l - i)%nat with (S (length l - S i)) by lia. simpl. by rewrite (take_S_r _ _ v), <-app_assoc.
Qed.

Lemma length_copied i l : (i ≤ length l)%nat → length (copied i l) = length l.
Proof. intros H. unfold copied. rewrite length_app, length_take, length_replicate. lia. Qed.

Lemma get_other arr t y N (i : nat) v :
  t ≠ par → arr x !! i = Some v →
  get_cell arr par (Z.of_nat i) (at_table t y (<[par := x]> T) N) = Done (v, at_table t y (<[par := x]> T) N).
Proof.
  intros Hne H. unfold at_table. rewrite insert_insert_ne by done.
  exact (get_cell_at par x (<[t := y]> T) N arr i v H).
Qed.

Lemma copy_fds_ok t n i N :
  t ≠ par → table_ok x → (i + n = length (descriptors x))%nat →
  counted (refs_of (take i (descriptors x)) ⊎ (ext ⊎ held (<[par := x]> T))) N →
  ∃ N', copy_fds par t n (Z.of_nat i) (at_table t (partial_copy i) (<[par := x]> T) N) =
      Done (tt, at_table t (partial_copy (i + n)) (<[par := x]> T) N') ∧
    counted (refs_of (take (i + n) (descriptors x)) ⊎ (ext ⊎ held (<[par := x]> T))) N'.
Proof.
  intros Hne X. pose proof (to_arrays x X) as R. pose proof (length_descriptors x R). pose proof (ao_length x R).
  revert i N. induction n as [|n IH]; intros i N Hi C; simpl.
  { exists N. by rewrite Nat.add_0_r. }
  destruct (lookup_lt_is_Some_2 (descriptors x) i ltac:(lia)) as [e He]. pose proof (entry_lookup x i e R He) as He'.
  destruct (data_lookup x i e X He) as (m & o & Hm & Ho).
  pose proof (ao_entries x R). pose proof (ao_modes x R). pose proof (ao_offsets x R).
  assert (G : get_entry par (Z.of_nat i) (at_table t (partial_copy i) (<[par := x]> T) N) =
    Done (e, at_table t (partial_copy i) (<[par := x]> T) N)).
  { unfold get_entry. by st_step (get_other entries t (partial_copy i) N i (Some e) Hne He'). }
  st_step G.
  destruct (counted_open _ N (<[t := partial_copy i]> (<[par := x]> T)) e C) as (N1 & E1 & C1).
  { destruct (decide (e = NULL)) as [|Hn]; [auto|right]. pose proof (refs_of_elem _ i e He Hn). rewrite held_at. multiset_solver. }
  st_step E1. fold (at_table t (partial_copy i) (<[par := x]> T) N1).
  rewrite (St_bind_done _ _ _ _ _ (put_entry_at t (partial_copy i) _ N1 i e ltac:(simpl; rewrite length_copied; lia))).
  st_step (get_other modes t (with_entries (<[i := Some e]> (entries (partial_copy i))) (partial_copy i)) N1 i m Hne Hm).
  erewrite St_bind_done; [|apply put_cell_at; simpl; rewrite length_copied; lia].
  erewrite St_bind_done; [|apply (get_other offsets _ _ _ i o Hne Ho)].
  erewrite St_bind_done; [|apply put_cell_at; simpl; rewrite length_copied; lia].
  unfold with_entries, with_offsets, with_modes. simpl. rewrite !copied_insert by done.
  fold (partial_copy (S i)). replace (Z.of_nat i + 1) with (Z.of_nat (S i)) by lia.
  destruct (IH (S i) N1 ltac:(lia)) as (N' & E & C').
  { eapply counted_eq; [exact C1|]. rewrite (take_S_r _ _ e) by done. rewrite refs_of_app. csimpl. multiset_solver. }
  exists N'. rewrite E. by replace (i + S n)%nat with (S i + n)%nat by lia.
Qed.

Lemma spawn_fds_share N :
  fds_ok ext (at_table par x T N) → 0 < fd_refs x < 2 ^ 64 - 1 →
  let x' := with_fd_refs (fd_refs x + 1) x in
  spawn_fds par true (at_table par x T N) = Done (par, at_table par x' T N) ∧ fds_ok ext (at_table par x' T N).
Proof.
  intros H Hr x'. unfold spawn_fds. rewrite (St_bind_done _ _ _ _ _ (wr_at par x T N _)). rewrite u64_small by lia.
  split; [done|]. apply fds_ok_at in H as ([[] ?] & F & C). apply fds_ok_at. split_and!; auto. split; [by split|done].
Qed.

Lemma spawn_fds_copy N :
  fds_ok ext (at_table par x T N) →
  let t := malloc (dom (<[par := x]> T)) in
  ∃ y N', spawn_fds par false (at_table par x T N) = Done (t, at_table t y (<[par := x]> T) N') ∧
    fds_ok ext (at_table t y (<[par := x]> T) N') ∧ t ≠ par ∧ T !! t = None ∧
    descriptors y = descriptors x ∧ keeps x y ∧ fd_refs y = 1 ∧ fd_length y = fd_length x.
Proof.
  intros H t. pose proof H as (X & F & C)%fds_ok_at. pose proof (to_arrays x X) as R. pose proof (length_descriptors x R) as Hn.
  pose proof (ao_length x R). pose proof (malloc_fresh (dom (<[par := x]> T))) as Hf. fold t in Hf.
  apply not_elem_of_dom, lookup_insert_None in Hf as [Ht Hne].
  assert (B : blank_table (fd_length x) (capacity x) = partial_copy 0).
  { unfold blank_table, partial_copy, copied. simpl. rewrite !Nat.sub_0_r, (ao_entries x R), (ao_offsets x R), (ao_modes x R). done. }
  destruct (copy_fds_ok t (length (descriptors x)) 0 N ltac:(done) X eq_refl) as (N' & E & C').
  { simpl. rewrite held_at. eapply counted_eq; [exact C|multiset_solver]. }
  simpl in E, C'. rewrite firstn_all in C'. set (n := length (descriptors x)) in *.
  assert (Y : take (Z.to_nat (fd_length (partial_copy n))) (entries (partial_copy n)) = Some <$> descriptors x).
  { change (fd_length (partial_copy n)) with (fd_length x). rewrite <-Hn. simpl. unfold copied. rewrite take_app_le by (rewrite length_take, (ao_entries x R); lia).
    rewrite take_take, Nat.min_id. rewrite Hn. by apply written. }
  destruct (descriptors_intro (partial_copy n) (descriptors x) Y) as [D W].
  exists (partial_copy n), N'. split_and!; auto.
  - unfold spawn_fds. st_step (rd_at par x T N). unfold new_table. simpl. fold t.
    unfold mbind at 1, St_bind at 1. rewrite B, <-Hn. fold n.
    fold (at_table t (partial_copy 0) (<[par := x]> T) N). by st_step E.
  - apply fds_ok_at. rewrite delete_id by (by rewrite lookup_insert_ne). split_and!.
    + split; [|apply X]. pose proof (ao_entries x R). pose proof (ao_modes x R). pose proof (ao_offsets x R).
      split; try apply R; try exact W; simpl; rewrite length_copied; lia.
    + pose proof (fo_tables _ _ H) as F'. exact F'.
    + rewrite D. eapply counted_eq; [exact C'|multiset_solver].
  - intros j Hj. simpl. unfold copied. pose proof (ao_modes x R). pose proof (ao_offsets x R).
    rewrite !lookup_app_l by (rewrite length_take; lia). by rewrite !lookup_take_lt by lia.
Qed.
End Spawn.

(** ** The processes and their tables *)

(** The calls on a table of its own process: the end of [sys_open], [sys_close], [sys_dup2],
    [F_DUPFD] and [exec]. *)
Inductive fd_call : Type := Append (node : Z) | Close (fd : Z) | Dup2 (old new : Z) | Dupfd (fd arg : Z) | Exec.

Definition run_call (t : Z) (c : fd_call) : St fd_state Z :=
  match c with
  | Append node => process_append_fd t node
  | Close fd => sys_close t fd
  | Dup2 old new => sys_dup2 t old new
  | Dupfd fd arg => fcntl_dupfd 258 t fd arg
  | Exec => exec_fds t;; mret 0
  end.

(** What a call promises: its result and the descriptors it leaves, as a function of the
    list of open nodes alone. *)
Definition spec_call (c : fd_call) (d : list Z) : Z * list Z :=
  match c with
  | Append node => let i := free_slot d 0 in (Z.of_nat i, set_slot d i node)
  | Close fd => if fd_node d fd then (0, <[Z.to_nat fd := NULL]> d) else (- EBADF, d)
  | Dup2 old new =>
      if decide (0 ≤ old < Z.of_nat (length d) ∧ (new = -1 ∨ 0 ≤ new < Z.of_nat (length d))) then
        let i := if new =? -1 then free_slot d 0 else Z.to_nat new in (Z.of_nat i, set_slot d i (default NULL (d !! Z.to_nat old)))
      else (-1, d)
  | Dupfd fd arg =>
      match fd_node d fd with
      | None => (- EBADF, d)
      | Some e =>
          if decide (0 ≤ arg ≤ 256) then
            let i := free_slot (padded d arg) (Z.to_nat arg) in (Z.of_nat i, set_slot (padded d arg) i e)
          else (- EINVAL, d)
      end
  | Exec => (0, take 3 d ++ replicate (length d - 3) NULL)
  end.

(** The reference a call takes over from its caller, and its arguments in [int]. *)
Definition given (c : fd_call) : gmultiset Z := match c with Append node => one node | _ => ∅ end.
Definition int_call (c : fd_call) : Prop :=
  match c with
  | Dup2 old new => (- 2 ^ 31 ≤ old < 2 ^ 31) ∧ (- 2 ^ 31 ≤ new < 2 ^ 31)
  | _ => True
  end.

Lemma free_slot_le d i : (i ≤ length d)%nat → (free_slot d i ≤ length d)%nat.
Proof. intros H. by destruct (free_slot_spec d i H) as [[_ ?] _]. Qed.

Lemma length_set_slot d i e : (i ≤ length d)%nat → (length (set_slot d i e) ≤ S (length d))%nat.
Proof. intros H. unfold set_slot. rewrite length_app, length_take. simpl. rewrite length_drop. lia. Qed.

Lemma spec_call_length c d : (length (snd (spec_call c d)) ≤ S (Nat.max (length d) 257))%nat.
Proof.
  destruct c as [node|fd|old new|fd arg|]; simpl.
  - pose proof (length_set_slot d (free_slot d 0) node (free_slot_le d 0 ltac:(lia))). lia.
  - destruct (fd_node d fd); simpl; rewrite ?length_insert; lia.
  - destruct (decide _) as [Hd|]; simpl; [|lia]. etrans; [apply length_set_slot|lia].
    destruct (Z.eqb_spec new (-1)); [apply free_slot_le; lia|]. destruct Hd as [_ []]; lia.
  - destruct (fd_node d fd); simpl; [|lia]. destruct (decide _); simpl; [|lia].
    etrans; [apply length_set_slot, free_slot_le|]; rewrite length_padded; lia.
  - rewrite length_app, length_take, length_replicate. lia.
Qed.

(** Every call does what it promises, and the counts stay exact. *)
Lemma run_call_ok ext t x T N c :
  fds_ok (given c ⊎ ext) (at_table t x T N) → fd_length x < 2 ^ 31 - 1 → int_call c →
  let r := spec_call c (descriptors x) in
  ∃ x' N', run_call t c (at_table t x T N) = Done (fst r, at_table t x' T N') ∧
    fds_ok ext (at_table t x' T N') ∧ descriptors x' = snd r ∧ fd_refs x' = fd_refs x.
Proof.
  intros H Hl Hc. destruct c as [node|fd|old new|fd arg|]; simpl in *;
    try (apply (fds_ok_ext _ ext) in H; [|by rewrite (left_id_L ∅ (⊎))]).
  - destruct (process_append_fd_ok ext t x T N ltac:(lia) node H) as (x' & E & A & O). exists x', N. by destruct A.
  - pose proof (sys_close_ok ext t x T N ltac:(lia) fd H) as C. destruct (fd_node _ fd) as [e|] eqn:Ef; simpl.
    + destruct C as (x' & N' & m & o & E & _ & A & O). exists x', N'. destruct A. apply fd_node_Some in Ef as (He & _).
      rewrite <-set_slot_insert by (by eapply lookup_lt_Some). auto.
    + exists x, N. auto.
  - pose proof (sys_dup2_ok ext t x T N Hl old new H ltac:(tauto) ltac:(tauto)) as C.
    pose proof H as (X & _ & _)%fds_ok_at. pose proof (length_descriptors x (to_arrays x X)) as Hn.
    pose proof (ao_length x (to_arrays x X)). replace (Z.of_nat (length (descriptors x))) with (fd_length x) by lia.
    destruct (decide _).
    + destruct C as (e & x' & N' & He & E & O & D & R & _). exists x', N'. rewrite He. auto.
    + exists x, N. auto.
  - pose proof (fcntl_dupfd_ok ext t x T N Hl 258 fd arg H ltac:(lia)) as C. destruct (fd_node _ fd) as [e|]; simpl.
    + destruct (decide _); simpl.
      * destruct C as (x' & N' & m & o & E & O & D & R & _). exists x', N'. auto.
      * exists x, N. auto.
    + exists x, N. auto.
  - destruct (exec_fds_ok ext t T x N H ltac:(lia)) as (x' & N' & E & O & D & R & _). exists x', N'. split_and!; auto. by st_step E.
Qed.

(** *** Processes that share tables *)

Section System.
Context {MA : Malloc}.

(** The state, the table of each process, and the references that other parts of the kernel
    hold. *)
Record fd_system : Type := FdSystem { sy_state : fd_state; sy_fds : gmap Z Z; sy_ext : gmultiset Z }.

Definition users (fds : gmap Z Z) (t : Z) : nat := size (filter (λ pt, pt.2 = t) fds).

Inductive fd_step : fd_system → fd_system → Prop :=
  | step_call s s' fds ext p t c r :
      fds !! p = Some t → given c ⊆ ext → int_call c → run_call t c s = Done (r, s') →
      fd_step (FdSystem s fds ext) (FdSystem s' fds (ext ∖ given c))
  | step_fork s s' fds ext p par child t reuse :
      fds !! p = Some par → fds !! child = None → spawn_fds par reuse s = Done (t, s') →
      fd_step (FdSystem s fds ext) (FdSystem s' (<[child := t]> fds) ext)
  | step_exit s s' fds ext p t :
      fds !! p = Some t → exit_fds t s = Done (tt, s') →
      fd_step (FdSystem s fds ext) (FdSystem s' (delete p fds) ext)
  | step_new T N fds ext a c :
      a ≠ NULL → N !! a = None → c = 1 ∨ c = -1 →
      fd_step (FdSystem (FdState T N) fds ext) (FdSystem (FdState T (<[a := Shared (Some c) 0]> N)) fds (one a ⊎ ext))
  | step_hold s s' fds ext a :
      a ∈ ext ⊎ held (tables s) → clone_node a s = Done (tt, s') →
      fd_step (FdSystem s fds ext) (FdSystem s' fds (one a ⊎ ext))
  | step_drop s s' fds ext a :
      a ∈ ext → close_node a s = Done (tt, s') →
      fd_step (FdSystem s fds ext) (FdSystem s' fds (ext ∖ one a)).

(** init and its table. *)
Definition fd_boot (y : fd_system) : Prop :=
  ∃ t s p, init_fds (FdState ∅ ∅) = Done (t, s) ∧ y = FdSystem s {[p := t]} ∅.

(** After [k] steps. *)
Record system_ok (k : nat) (y : fd_system) : Prop := {
  so_fds : fds_ok (sy_ext y) (sy_state y);
  so_users : ∀ t x, tables (sy_state y) !! t = Some x →
    fd_refs x = Z.of_nat (users (sy_fds y) t) ∧ (0 < users (sy_fds y) t)%nat ∧ fd_length x ≤ 257 + Z.of_nat k;
  so_tables : ∀ p t, sy_fds y !! p = Some t → is_Some (tables (sy_state y) !! t);
  so_count : (size (sy_fds y) ≤ S k)%nat;
  so_ext : NULL ∉ sy_ext y
}.

Lemma users_insert fds p t t' : fds !! p = None → users (<[p := t]> fds) t' = (users fds t' + if decide (t = t') then 1 else 0)%nat.
Proof.
  intros H. unfold users. destruct (decide (t = t')) as [->|Hne].
  - rewrite map_filter_insert_True by done. rewrite map_size_insert_None; [lia|]. by apply map_lookup_filter_None_2; left.
  - rewrite map_filter_insert_False by done. rewrite delete_id by done. lia.
Qed.

Lemma users_delete fds p t t' : fds !! p = Some t → users fds t' = (users (delete p fds) t' + if decide (t = t') then 1 else 0)%nat.
Proof. intros H. rewrite <-(insert_delete_id fds p t H) at 1. apply users_insert, lookup_delete_eq. Qed.

Lemma users_size fds t : (users fds t ≤ size fds)%nat.
Proof. unfold users. rewrite <-!size_dom. apply subseteq_size, dom_filter_subseteq. Qed.

Lemma users_pos fds p t : fds !! p = Some t → (0 < users fds t)%nat.
Proof. intros H. rewrite (users_delete _ p t t H), decide_True by done. lia. Qed.

Lemma users_none fds t : (∀ p t', fds !! p = Some t' → t' ≠ t) → users fds t = 0%nat.
Proof.
  intros H. unfold users. apply map_size_empty_iff. apply map_empty. intros p. apply map_lookup_filter_None_2. right.
  intros t' Hp. simpl. by eapply H.
Qed.

Lemma fds_ok_length ext s t x : fds_ok ext s → tables s !! t = Some x → fd_length x = Z.of_nat (length (descriptors x)).
Proof. intros [F _] H. apply F in H as [R _]. rewrite length_descriptors by done. pose proof (ao_length x R). lia. Qed.

Lemma one_elem a R : one a ⊆ R → one a ⊎ (R ∖ one a) = R.
Proof. intros H. multiset_solver. Qed.

Lemma boot_ok y : fd_boot y → system_ok 0 y.
Proof.
  intros (t & s & p & E & ->). unfold init_fds, new_table in E. simplify_eq. set (t := malloc _).
  assert (X : table_ok (blank_table 0 4)).
  { split; [split|]; unfold blank_table; simpl; try lia. constructor. }
  split; simpl.
  - apply (fds_ok_at ∅ t (blank_table 0 4) ∅ ∅). split_and!; [done| |].
    + rewrite delete_empty. apply map_Forall_empty.
    + rewrite delete_empty. unfold held, descriptors. rewrite map_fold_empty. simpl.
      split; [intros a n Hn; by rewrite lookup_empty in Hn|]. intros a Ha. multiset_solver.
  - assert (U : users {[p := t]} t = 1%nat).
    { rewrite <-insert_empty, users_insert, decide_True by done. by rewrite (users_none ∅) by (intros ? ?; by rewrite lookup_empty). }
    intros t' x [[<- <-]|[_ H]]%lookup_insert_Some; [|by rewrite lookup_empty in H]. rewrite U. simpl. lia.
  - intros q t' [<- <-]%lookup_singleton_Some. rewrite lookup_insert_eq. by eexists.
  - by rewrite map_size_singleton.
  - multiset_solver.
Qed.

(** The table of a process, in a state that satisfies the invariant. *)
Lemma so_table k y p t :
  system_ok k y → sy_fds y !! p = Some t →
  ∃ x, sy_state y = at_table t x (tables (sy_state y)) (fs_nodes (sy_state y)) ∧ tables (sy_state y) !! t = Some x ∧
    fd_refs x = Z.of_nat (users (sy_fds y) t) ∧ (0 < users (sy_fds y) t ≤ S k)%nat ∧ fd_length x ≤ 257 + Z.of_nat k.
Proof.
  intros H Hp. destruct (so_tables k y H p t Hp) as [x Hx]. exists x.
  destruct (so_users k y H t x Hx) as (R & U & L). pose proof (users_size (sy_fds y) t). pose proof (so_count k y H).
  split_and!; auto; [by apply at_table_intro|lia].
Qed.

Lemma call_ok k s fds ext p t c :
  system_ok k (FdSystem s fds ext) → Z.of_nat k < 2 ^ 31 - 300 → fds !! p = Some t → given c ⊆ ext → int_call c →
  ∃ x s', tables s !! t = Some x ∧ run_call t c s = Done (fst (spec_call c (descriptors x)), s') ∧
    system_ok (S k) (FdSystem s' fds (ext ∖ given c)) ∧
    ∃ x', tables s' !! t = Some x' ∧ descriptors x' = snd (spec_call c (descriptors x)).
Proof.
  intros H Hk Hp Hg Hc. destruct (so_table k _ p t H Hp) as (x & Hs & Hx & R & U & L). simpl in *.
  set (T := tables s) in *. set (N := fs_nodes s) in *. rewrite Hs.
  destruct (run_call_ok (ext ∖ given c) t x T N c) as (x' & N' & E & O & D & Rf); [|lia|done|].
  { rewrite <-Hs. eapply fds_ok_ext; [apply (so_fds k _ H)|]. simpl. multiset_solver. }
  exists x, (at_table t x' T N'). split_and!; [exact Hx|done| |].
  2: { exists x'. simpl. by rewrite lookup_insert_eq. }
  pose proof (spec_call_length c (descriptors x)) as Sl.
  assert (Hx' : tables (at_table t x' T N') !! t = Some x') by apply lookup_insert_eq.
  assert (Hx0 : tables (at_table t x T N) !! t = Some x) by apply lookup_insert_eq.
  pose proof (fds_ok_length _ _ _ _ O Hx') as L'. rewrite D in L'. 
  pose proof (fds_ok_length _ s t x (so_fds k _ H) Hx) as L0.
  split; simpl.
  - exact O.
  - intros t' y [[<- <-]|[Hne Hy]]%lookup_insert_Some.
    + rewrite Rf. split_and!; [done|lia|lia].
    + destruct (so_users k _ H t' y Hy) as (? & ? & ?). simpl in *. split_and!; auto; lia.
  - intros q t' Hq. destruct (decide (t = t')) as [->|]; [rewrite lookup_insert_eq; by eexists|].
    rewrite lookup_insert_ne by done. by apply (so_tables k _ H q).
  - pose proof (so_count k _ H). simpl in *. lia.
  - pose proof (so_ext k _ H). simpl in *. multiset_solver.
Qed.

Lemma fork_ok k s fds ext p par child reuse :
  system_ok k (FdSystem s fds ext) → Z.of_nat k < 2 ^ 31 - 300 → fds !! p = Some par → fds !! child = None →
  ∃ x t s', tables s !! par = Some x ∧ spawn_fds par reuse s = Done (t, s') ∧
    system_ok (S k) (FdSystem s' (<[child := t]> fds) ext) ∧
    (if reuse then t = par else t ≠ par ∧ tables s !! t = None ∧ ∃ y, tables s' !! t = Some y ∧ descriptors y = descriptors x).
Proof.
  intros H Hk Hp Hc. destruct (so_table k _ p par H Hp) as (x & Hs & Hx & R & U & L). simpl in *.
  set (T := tables s) in *. set (N := fs_nodes s) in *. pose proof (so_fds k _ H) as O. simpl in O. rewrite Hs in O |- *.
  pose proof (so_count k _ H) as Hz. simpl in Hz.
  destruct reuse.
  - destruct (spawn_fds_share ext par x T N O ltac:(lia)) as [E O']. eexists x, par, _. split_and!; [exact Hx|exact E| |done].
    split; simpl; [exact O'| | | |apply (so_ext k _ H)].
    + intros t' y [[<- <-]|[Hne Hy]]%lookup_insert_Some; rewrite users_insert by done.
      * rewrite decide_True by done. simpl. lia.
      * rewrite decide_False by done. destruct (so_users k _ H t' y Hy) as (? & ? & ?). simpl in *. split_and!; lia.
    + intros q t' [[<- <-]|[_ Hq]]%lookup_insert_Some; [rewrite lookup_insert_eq; by eexists|].
      destruct (decide (par = t')) as [->|]; [rewrite lookup_insert_eq; by eexists|].
      rewrite lookup_insert_ne by done. by apply (so_tables k _ H q).
    + rewrite map_size_insert_None by done. lia.
  - destruct (spawn_fds_copy ext par x T N O) as (y & N' & E & O' & Hne & Ht & D & _ & Ry & Ly).
    set (t := malloc _) in *. exists x, t. eexists. split; [exact Hx|]. split; [exact E|]. split.
    2: { split_and!; [done|done|]. exists y. split; [apply lookup_insert_eq|done]. }
    assert (Un : users fds t = 0%nat).
    { apply users_none. intros q t' Hq ->. destruct (so_tables k _ H q t Hq) as [? Hy]. simpl in Hy. unfold T in Ht. congruence. }
    unfold at_table in *. rewrite (insert_id T par x Hx) in *. split; simpl; [exact O'| | | |apply (so_ext k _ H)].
    + intros t' z [[<- <-]|[Hn Hz']]%lookup_insert_Some; rewrite users_insert by done.
      * rewrite decide_True, Un, Ry, Ly by done. simpl. lia.
      * rewrite decide_False by done. destruct (so_users k _ H t' z Hz') as (? & ? & ?). simpl in *. split_and!; lia.
    + intros q t' [[<- <-]|[_ Hq]]%lookup_insert_Some; [rewrite lookup_insert_eq; by eexists|].
      destruct (decide (t = t')) as [->|]; [rewrite lookup_insert_eq; by eexists|].
      rewrite lookup_insert_ne by done. by apply (so_tables k _ H q).
    + rewrite map_size_insert_None by done. lia.
Qed.

Lemma exit_ok k s fds ext p t :
  system_ok k (FdSystem s fds ext) → Z.of_nat k < 2 ^ 31 - 300 → fds !! p = Some t →
  ∃ s', exit_fds t s = Done (tt, s') ∧ system_ok (S k) (FdSystem s' (delete p fds) ext) ∧
    (tables s' !! t = None ↔ ∀ q, fds !! q = Some t → q = p).
Proof.
  intros H Hk Hp. destruct (so_table k _ p t H Hp) as (x & Hs & Hx & R & U & L). simpl in *.
  set (T := tables s) in *. set (N := fs_nodes s) in *. pose proof (so_fds k _ H) as O. simpl in O. rewrite Hs in O |- *.
  pose proof (exit_fds_ok ext t T x N O ltac:(lia) ltac:(lia)) as E.
  pose proof (so_count k _ H) as Hz. simpl in Hz. rewrite <-(insert_delete_id fds p t Hp), map_size_insert_None in Hz by apply lookup_delete_eq.
  assert (Ud : ∀ t', users fds t' = (users (delete p fds) t' + if decide (t = t') then 1 else 0)%nat) by (intros; by apply users_delete).
  pose proof (Ud t) as Udt. rewrite decide_True in Udt by done.
  assert (Ot : ∀ t', t' ≠ t → users (delete p fds) t' = users fds t').
  { intros t' Hne. specialize (Ud t'). rewrite decide_False in Ud by done. lia. }
  destruct (decide (fd_refs x = 1)) as [E1|E1].
  - destruct E as (N' & E & O'). eexists. split_and!; [exact E| |].
    + split; simpl; [exact O'| | |lia|apply (so_ext k _ H)].
      * intros t' y [Hne Hy]%lookup_delete_Some. destruct (so_users k _ H t' y Hy) as (? & ? & ?). simpl in *.
        rewrite Ot by done. split_and!; auto; lia.
      * intros q t' [Hqp Hq]%lookup_delete_Some. destruct (decide (t' = t)) as [->|].
        { pose proof (users_pos (delete p fds) q t ltac:(by rewrite lookup_delete_ne)). lia. }
        rewrite lookup_delete_ne by done. by apply (so_tables k _ H q).
    + simpl. rewrite lookup_delete_eq. split; [|done]. intros _ q Hq. destruct (decide (q = p)) as [|Hne]; [done|].
      pose proof (users_pos (delete p fds) q t ltac:(by rewrite lookup_delete_ne)). lia.
  - destruct E as [E O']. eexists. split_and!; [exact E| |].
    + split; simpl; [exact O'| | |lia|apply (so_ext k _ H)].
      * intros t' y [[<- <-]|[Hne Hy]]%lookup_insert_Some; [simpl; split_and!; lia|].
        destruct (so_users k _ H t' y Hy) as (? & ? & ?). simpl in *. rewrite Ot by done. split_and!; auto; lia.
      * intros q t' [_ Hq]%lookup_delete_Some. destruct (decide (t = t')) as [->|]; [rewrite lookup_insert_eq; by eexists|].
        rewrite lookup_insert_ne by done. by apply (so_tables k _ H q).
    + simpl. rewrite lookup_insert_eq. split; [done|]. intros Hq.
      enough (users (delete p fds) t = 0%nat) by lia. apply users_none.
      intros q t' [Hqp Hq']%lookup_delete_Some ->. by apply Hqp, eq_sym, Hq.
Qed.
(** A change of the counts alone. *)
Lemma system_ok_nodes k T N fds ext N' ext' :
  system_ok k (FdSystem (FdState T N) fds ext) → counted (ext' ⊎ held T) N' → NULL ∉ ext' →
  system_ok (S k) (FdSystem (FdState T N') fds ext').
Proof.
  intros [[F C] U B Z E] C' E'. simpl in *. split; simpl; auto; [by split|].
  intros t x Hx. destruct (U t x Hx) as (? & ? & ?). split_and!; auto; lia.
Qed.

Lemma new_ok k T N fds ext a c :
  system_ok k (FdSystem (FdState T N) fds ext) → a ≠ NULL → N !! a = None → c = 1 ∨ c = -1 →
  system_ok (S k) (FdSystem (FdState T (<[a := Shared (Some c) 0]> N)) fds (one a ⊎ ext)).
Proof.
  intros H Ha HN Hc. pose proof (fo_counted _ _ (so_fds k _ H)) as C. pose proof (so_ext k _ H) as E. simpl in *.
  assert (M : multiplicity a (ext ⊎ held T) = 0%nat).
  { destruct (multiplicity a (ext ⊎ held T)) eqn:Em; [done|]. destruct (co_present _ _ C a) as [nd Hn]; [|congruence].
    rewrite elem_of_multiplicity. lia. }
  unfold one. rewrite decide_False by done. eapply system_ok_nodes; [exact H| |multiset_solver].
  apply (counted_change (ext ⊎ held T)); [done| |].
  - intros b Hb. by rewrite !multiplicity_disj_union, multiplicity_singleton_ne by done.
  - rewrite !multiplicity_disj_union in M. rewrite !multiplicity_disj_union, multiplicity_singleton_eq.
    replace (1 + _ + _)%nat with 1%nat by lia. unfold node_ok. simpl. destruct Hc as [-> | ->]; auto.
Qed.

Lemma hold_ok k s fds ext a :
  system_ok k (FdSystem s fds ext) → a ∈ ext ⊎ held (tables s) →
  ∃ s', clone_node a s = Done (tt, s') ∧ system_ok (S k) (FdSystem s' fds (one a ⊎ ext)).
Proof.
  intros H Ha. destruct s as [T N]. pose proof (fo_counted _ _ (so_fds k _ H)) as C. pose proof (so_ext k _ H) as E. simpl in *.
  destruct (counted_open _ N T a C (or_intror Ha)) as (N' & E1 & C'). eexists. split; [exact E1|].
  eapply system_ok_nodes; [exact H| |].
  - eapply counted_eq; [exact C'|multiset_solver].
  - unfold one. destruct (decide (a = NULL)); multiset_solver.
Qed.

Lemma drop_ok k s fds ext a :
  system_ok k (FdSystem s fds ext) → a ∈ ext →
  ∃ s', close_node a s = Done (tt, s') ∧ system_ok (S k) (FdSystem s' fds (ext ∖ one a)).
Proof.
  intros H Ha. destruct s as [T N]. pose proof (fo_counted _ _ (so_fds k _ H)) as C. pose proof (so_ext k _ H) as E. simpl in *.
  assert (Hne : a ≠ NULL) by (intros ->; done).
  assert (Es : ext = one a ⊎ (ext ∖ one a)).
  { unfold one. rewrite decide_False by done. multiset_solver. }
  rewrite Es in C. rewrite <-(assoc_L (⊎)) in C. destruct (counted_close _ N T a C) as (N' & E1 & C'). eexists. split; [exact E1|].
  eapply system_ok_nodes; [exact H|exact C'|multiset_solver].
Qed.

Lemma step_ok k y y' : system_ok k y → Z.of_nat k < 2 ^ 31 - 300 → fd_step y y' → system_ok (S k) y'.
Proof.
  intros H Hk St. destruct St as [s s' fds ext p t c r Hp Hg Hc E|s s' fds ext p par child t reuse Hp Hc E|s s' fds ext p t Hp E
    |T N fds ext a c Ha HN Hc|s s' fds ext a Ha E|s s' fds ext a Ha E].
  - destruct (call_ok k s fds ext p t c H Hk Hp Hg Hc) as (x & s1 & _ & E1 & O & _). rewrite E1 in E. by simplify_eq.
  - destruct (fork_ok k s fds ext p par child reuse H Hk Hp Hc) as (x & t1 & s1 & _ & E1 & O & _). rewrite E1 in E. by simplify_eq.
  - destruct (exit_ok k s fds ext p t H Hk Hp) as (s1 & E1 & O & _). rewrite E1 in E. by simplify_eq.
  - by apply new_ok.
  - destruct (hold_ok k s fds ext a H Ha) as (s1 & E1 & O). rewrite E1 in E. by simplify_eq.
  - destruct (drop_ok k s fds ext a H Ha) as (s1 & E1 & O). rewrite E1 in E. by simplify_eq.
Qed.

Lemma steps_ok k n y y' : nsteps fd_step n y y' → system_ok k y → Z.of_nat (k + n) < 2 ^ 31 - 300 → system_ok (k + n) y'.
Proof.
  intros St. revert k. induction St as [y|n y y1 y' S1 _ IH]; intros k H Hk; [by rewrite Nat.add_0_r|].
  rewrite <-Nat.add_succ_comm. apply IH; [|lia]. by apply (step_ok k y); [|lia|].
Qed.

Lemma reachable_ok n y0 y : fd_boot y0 → nsteps fd_step n y0 y → Z.of_nat n < 2 ^ 31 - 300 → system_ok n y.
Proof. intros B St Hn. apply (steps_ok 0 n y0); [done|by apply boot_ok|done]. Qed.
End System.

(** ** Theorems *)

Section Theorems.
Context {MA : Malloc}.
Variables (n : nat) (y0 y : fd_system).
Notation s := (sy_state y).

(** C8: The reference counts are exact.  After any calls of any processes, forks, exits, and
    references taken and given up elsewhere in the kernel, the count of a node is the number
    of descriptors and other references that refer to it (or -1, for a node that is not
    counted), and a node nobody refers to was closed and freed exactly once; the count of a
    table is the number of processes that use it. *)
Theorem fd_counts_exact :
  fd_boot y0 → nsteps fd_step n y0 y → Z.of_nat n < 2 ^ 31 - 300 →
  (∀ a node, fs_nodes s !! a = Some node →
     let refs := multiplicity a (sy_ext y ⊎ held (tables s)) in
     count node = Some (-1) ∨ node = if decide (refs = 0%nat) then Shared None 1 else Shared (Some (Z.of_nat refs)) 0) ∧
  (∀ t x i e, tables s !! t = Some x → descriptors x !! i = Some e → e ≠ NULL →
     ∃ node, fs_nodes s !! e = Some node ∧ count node ≠ None) ∧
  (∀ t x, tables s !! t = Some x → fd_refs x = Z.of_nat (users (sy_fds y) t) ∧ 0 < fd_refs x).
Proof.
  intros B St Hn. pose proof (reachable_ok n y0 y B St Hn) as O. pose proof (fo_counted _ _ (so_fds n y O)) as C.
  split_and!.
  - apply C.
  - intros t x i e Hx He Hne. assert (Hin : e ∈ sy_ext y ⊎ held (tables s)).
    { rewrite (held_lookup _ t x Hx). pose proof (refs_of_elem _ i e He Hne). multiset_solver. }
    destruct (co_present _ _ C e Hin) as [node Hnode]. exists node. split; [done|]. rewrite elem_of_multiplicity in Hin.
    destruct (co_nodes _ _ C e node Hnode) as [-> | ->]; [done|]. rewrite decide_False by lia. done.
  - intros t x Hx. destruct (so_users n y O t x Hx) as (-> & ? & _). split; [done|lia].
Qed.

(** C15: Every call returns, and does what the abstract table promises: the result and the
    descriptors afterwards are those of [spec_call], a function of the open nodes alone.  No
    call faults, so no call uses a node that was freed. *)
Theorem fd_calls_refine p t c :
  fd_boot y0 → nsteps fd_step n y0 y → Z.of_nat n < 2 ^ 31 - 300 →
  sy_fds y !! p = Some t → given c ⊆ sy_ext y → int_call c →
  ∃ x x' s', tables s !! t = Some x ∧ run_call t c s = Done (fst (spec_call c (descriptors x)), s') ∧
    tables s' !! t = Some x' ∧ descriptors x' = snd (spec_call c (descriptors x)).
Proof.
  intros B St Hn Hp Hg Hc. pose proof (reachable_ok n y0 y B St Hn) as O. destruct y as [s fds ext].
  destruct (call_ok n s fds ext p t c O Hn Hp Hg Hc) as (x & s' & Hx & E & _ & x' & Hx' & D). by exists x, x', s'.
Qed.

(** A thread shares the table of its process, a new process gets a table of its own with the
    same open nodes; the table of a process that exits is freed exactly when no other
    process uses it.  Neither faults. *)
Theorem fd_fork_exit p par :
  fd_boot y0 → nsteps fd_step n y0 y → Z.of_nat n < 2 ^ 31 - 300 → sy_fds y !! p = Some par →
  (∀ reuse, ∃ x t s', tables s !! par = Some x ∧ spawn_fds par reuse s = Done (t, s') ∧
     if reuse : bool then t = par
     else t ≠ par ∧ tables s !! t = None ∧ ∃ x', tables s' !! t = Some x' ∧ descriptors x' = descriptors x) ∧
  (∃ s', exit_fds par s = Done (tt, s') ∧ (tables s' !! par = None ↔ ∀ q, sy_fds y !! q = Some par → q = p)).
Proof.
  intros B St Hn Hp. pose proof (reachable_ok n y0 y B St Hn) as O. destruct y as [s fds ext]. split.
  - intros reuse. simpl in *. assert (Hc : ∃ child, fds !! child = None).
    { exists (fresh (dom fds)). apply not_elem_of_dom, is_fresh. }
    destruct Hc as [child Hc]. destruct (fork_ok n s fds ext p par child reuse O Hn Hp Hc) as (x & t & s' & Hx & E & _ & R).
    by exists x, t, s'.
  - destruct (exit_ok n s fds ext p par O Hn Hp) as (s' & E & _ & R). by exists s'.
Qed.
End Theorems.

(** An append takes the lowest free descriptor, with mode and offset 0, and leaves the other
    descriptors as they are. *)
Theorem append_lowest ext t x T N node :
  fds_ok (one node ⊎ ext) (at_table t x T N) → fd_length x < 2 ^ 31 →
  ∃ i x', process_append_fd t node (at_table t x T N) = Done (Z.of_nat i, at_table t x' T N) ∧
    (∀ j, (j < i)%nat → ∃ e, descriptors x !! j = Some e ∧ e ≠ NULL ∧ descriptors x' !! j = Some e) ∧
    (∀ e, descriptors x !! i = Some e → e = NULL) ∧ descriptors x' !! i = Some node ∧
    (∀ j, (i < j)%nat → descriptors x' !! j = descriptors x !! j) ∧
    modes x' !! i = Some (Some 0) ∧ offsets x' !! i = Some (Some 0) ∧ same_data x x' i ∧ fds_ok ext (at_table t x' T N).
Proof.
  intros H Hl. destruct (process_append_fd_ok ext t x T N Hl node H) as (x' & E & [X D M O Sd _] & O').
  set (i := free_slot (descriptors x) 0) in *. destruct (free_slot_spec (descriptors x) 0 ltac:(lia)) as (Hi & Hf & Hb).
  fold i in Hi, Hf, Hb. exists i, x'. rewrite D. split_and!; auto.
  - intros j Hj. destruct (lookup_lt_is_Some_2 (descriptors x) j ltac:(lia)) as [e He]. exists e. split_and!; [done| |].
    + apply (Hb j e); [lia|done].
    + apply set_slot_lookup_ne; [lia|lia|done].
  - apply set_slot_lookup. lia.
  - intros j Hj. unfold set_slot. rewrite lookup_app_r by (rewrite length_take; lia). rewrite length_take, Nat.min_l by lia.
    replace (j - i)%nat with (S (j - S i)) by lia. simpl. rewrite lookup_drop. f_equal. lia.
Qed.

(** ** Examples *)

(** init opens a node as descriptor 0, duplicates it to 1 and to 5, and forks. *)
Definition demo_boot : fd_state := match init_fds (FdState ∅ ∅) with Done (_, s) => s | _ => FdState ∅ ∅ end.
Definition demo_table : Z := match init_fds (FdState ∅ ∅) with Done (t, _) => t | _ => 0 end.
Definition demo_node : fd_state := FdState (tables demo_boot) (<[4096 := Shared (Some 1) 0]> (fs_nodes demo_boot)).
Definition after (m : St fd_state Z) (s : fd_state) : fd_state := match m s with Done (_, s') => s' | _ => s end.
Definition demo_open : fd_state := after (run_call demo_table (Append 4096)) demo_node.

Lemma demo_boot_ok : fd_boot (FdSystem demo_boot {[1 := demo_table]} ∅).
Proof. exists demo_table, demo_boot, 1. split; [vm_compute; reflexivity|done]. Qed.

Lemma demo_reaches : nsteps fd_step 2 (FdSystem demo_boot {[1 := demo_table]} ∅)
  (FdSystem demo_open {[1 := demo_table]} ((one 4096 ⊎ ∅) ∖ given (Append 4096))).
Proof.
  eapply nsteps_l.
  { unfold demo_boot. eapply (step_new _ _ _ _ 4096 1); [done| |by left]. vm_compute. reflexivity. }
  eapply nsteps_l; [|apply nsteps_O]. eapply (step_call demo_node demo_open _ _ 1 demo_table (Append 4096) 0).
  - vm_compute. reflexivity.
  - simpl. set_solver.
  - done.
  - vm_compute. reflexivity.
Qed.

Lemma fd_counts_exact_witness :
  fs_nodes demo_open !! 4096 = Some (Shared (Some 1) 0) ∧
  (∀ t x, tables demo_open !! t = Some x → fd_refs x = Z.of_nat (users {[1 := demo_table]} t) ∧ 0 < fd_refs x).
Proof.
  split; [vm_compute; reflexivity|].
  exact (proj2 (proj2 (fd_counts_exact 2 _ _ demo_boot_ok demo_reaches ltac:(reflexivity)))).
Defined.

Lemma fd_calls_refine_witness :
  ∃ x x' s', tables demo_open !! demo_table = Some x ∧
    run_call demo_table (Dupfd 0 5) demo_open = Done (fst (spec_call (Dupfd 0 5) (descriptors x)), s') ∧
    tables s' !! demo_table = Some x' ∧ descriptors x' = snd (spec_call (Dupfd 0 5) (descriptors x)).
Proof.
  refine (fd_calls_refine 2 _ _ 1 demo_table (Dupfd 0 5) demo_boot_ok demo_reaches eq_refl eq_refl _ I).
  exact (gmultiset_empty_subseteq _).
Defined.

Lemma fd_fork_exit_witness :
  ∃ s', exit_fds demo_table demo_open = Done (tt, s') ∧
    (tables s' !! demo_table = None ↔ ∀ q, ({[1 := demo_table]} : gmap Z Z) !! q = Some demo_table → q = 1).
Proof. exact (proj2 (fd_fork_exit 2 _ _ 1 demo_table demo_boot_ok demo_reaches eq_refl eq_refl)). Defined.

(** dup2 from a descriptor that is not open does not fail: it closes the target, and returns
    it. *)
Theorem dup2_closed_source ext t x T N src dest b :
  fds_ok ext (at_table t x T N) → fd_length x < 2 ^ 31 - 1 →
  descriptors x !! src = Some NULL → descriptors x !! dest = Some b →
  ∃ x' N', sys_dup2 t (Z.of_nat src) (Z.of_nat dest) (at_table t x T N) = Done (Z.of_nat dest, at_table t x' T N') ∧
    fds_ok ext (at_table t x' T N') ∧ descriptors x' = <[dest := NULL]> (descriptors x).
Proof.
  intros H Hl Hs Hd. pose proof (fds_ok_length ext _ t x H (lookup_insert_eq _ _ _)) as Hn.
  pose proof (lookup_lt_Some _ _ _ Hs). pose proof (lookup_lt_Some _ _ _ Hd).
  pose proof (sys_dup2_ok ext t x T N Hl (Z.of_nat src) (Z.of_nat dest) H ltac:(lia) ltac:(lia)) as C.
  rewrite decide_True in C by lia. destruct C as (e & x' & N' & He & E & O & D & _). rewrite Nat2Z.id, Hs in He. simplify_eq.
  assert (Et : dup2_target x (Z.of_nat dest) = dest).
  { unfold dup2_target. destruct (Z.eqb_spec (Z.of_nat dest) (-1)); [lia|]. apply Nat2Z.id. }
  rewrite Et in *. exists x', N'. split_and!; auto. by rewrite D, set_slot_insert.
Qed.
