(* ===== verification/Kprintf.v ===== *)
(** * Formatted printing ([src/kernel/misc/kprintf.c])

    The formatter hands its characters one by one to a callback with some user data [U],
    which the functions thread through with the number of characters written.  The format
    is the sequence of its bytes, followed by a zero byte; to read behind that is a
    [Fault], as is an argument of another type than the one asked for and a store behind
    the end of [tmp]. *)
From S2P Require Import Prelude KString.
Local Open Scope Z_scope.

(** ** Data *)

(** An argument: an [int], a 64-bit word, a string or its null pointer. *)
Inductive arg : Type := VInt (v : Z) | VWord (v : Z) | VStr (s : option (list Z)).

(** The local variables of one conversion. *)
Record spec : Type := Spec {
  arg_width : Z;
  align : Z;
  fill_zero : bool;
  big : Z;
  alt : bool;
  always_sign : Z;
  precision : Z
}.

Definition with_arg_width (v : Z) (x : spec) : spec :=
  Spec v (align x) (fill_zero x) (big x) (alt x) (always_sign x) (precision x).
Definition with_align (v : Z) (x : spec) : spec :=
  Spec (arg_width x) v (fill_zero x) (big x) (alt x) (always_sign x) (precision x).
Definition with_fill_zero (x : spec) : spec :=
  Spec (arg_width x) (align x) true (big x) (alt x) (always_sign x) (precision x).
Definition with_big (v : Z) (x : spec) : spec :=
  Spec (arg_width x) (align x) (fill_zero x) v (alt x) (always_sign x) (precision x).
Definition with_alt (x : spec) : spec :=
  Spec (arg_width x) (align x) (fill_zero x) (big x) true (always_sign x) (precision x).
Definition with_always_sign (v : Z) (x : spec) : spec :=
  Spec (arg_width x) (align x) (fill_zero x) (big x) (alt x) v (precision x).
Definition with_precision (v : Z) (x : spec) : spec :=
  Spec (arg_width x) (align x) (fill_zero x) (big x) (alt x) (always_sign x) v.

Definition fresh_spec : spec := Spec 0 1 false 0 false 0 (-1).

(** The byte of the format at [i]. *)
Definition fmt_at (fmt : list Z) (i : Z) : outcome Z :=
  if i =? Z.of_nat (length fmt) then Done 0
  else if i <? 0 then Fault
  else of_option (fmt !! Z.to_nat i).

Definition is_digit (c : Z) : bool := (48 <=? c) && (c <=? 57).

(** [va_arg]. *)
Definition va_int (args : list arg) : outcome (Z * list arg) :=
  match args with VInt v :: args => Done (i32 v, args) | _ => Fault end.
Definition va_word (args : list arg) : outcome (Z * list arg) :=
  match args with VWord v :: args => Done (u64 v, args) | _ => Fault end.
Definition va_string (args : list arg) : outcome (option (list Z) * list arg) :=
  match args with VStr s :: args => Done (s, args) | _ => Fault end.

(** The bytes of [(null)]. *)
Definition null_string : list Z := [40; 110; 117; 108; 108; 41].

Section Printing.
Context {U : Type} (callback : U → Z → U).

(** The characters written and the user data. *)
Definition out : Type := Z * U.
Definition OUT (c : Z) (o : out) : out := (u64 (o.1 + 1), callback o.2 c).

(** ** Decimal numbers *)

(** [while (val >= 10) { val /= 10; n_width++; }] *)
Fixpoint count_digits (fuel : nat) (val n_width : Z) : outcome Z :=
  match fuel with
  | O => Timeout
  | S f => if 10 <=? val then count_digits f (val / 10) (u64 (n_width + 1)) else Done n_width
  end.

(** [while (n_width + printed < width)] *)
Fixpoint pad_before (fuel : nat) (n_width width printed c : Z) (o : out) : outcome out :=
  match fuel with
  | O => Timeout
  | S f =>
      if u64 (n_width + printed) <? width then pad_before f n_width width (i32 (printed + 1)) c (OUT c o) else Done o
  end.

(** [while (i > 0)]: the digits into [tmp], the last one first. *)
Fixpoint put_digits (fuel : nat) (i value : Z) (tmp : list Z) : outcome (list Z) :=
  match fuel with
  | O => Timeout
  | S f =>
      if 0 <? i then
        if i - 1 <? Z.of_nat (length tmp) then
          put_digits f (i - 1) (value / 10) (<[Z.to_nat (i - 1) := value mod 10 + 48]> tmp)
        else Fault
      else Done tmp
  end.

(** [while (i < n_width)] *)
Fixpoint out_digits (fuel : nat) (i n_width : Z) (tmp : list Z) (o : out) : outcome out :=
  match fuel with
  | O => Timeout
  | S f =>
      if i <? n_width then
        c ← of_option (tmp !! Z.to_nat i);
        out_digits f (i + 1) n_width tmp (OUT c o)
      else Done o
  end.

(** [while (printed < (long long)width)] *)
Fixpoint pad_after (fuel : nat) (width printed c : Z) (o : out) : outcome out :=
  match fuel with
  | O => Timeout
  | S f => if printed <? width then pad_after f width (i32 (printed + 1)) c (OUT c o) else Done o
  end.

(** What [tmp] holds before it is written. *)
Definition tmp_buffer : list Z := replicate 100 0.

Definition print_dec (fuel : nat) (value width : Z) (fill_zero align_right : bool) (precision : Z) (o : out) : outcome out :=
  let precision := if precision =? -1 then 1 else precision in
  n_width ← (if value =? 0 then Done 0 else count_digits fuel value 1);
  let n_width := if n_width <? u64 precision then u64 precision else n_width in
  let pad := if fill_zero then 48 else 32 in
  if align_right then
    o ← pad_before fuel n_width width 0 pad o;
    tmp ← put_digits fuel n_width value tmp_buffer;
    out_digits fuel 0 n_width tmp o
  else
    tmp ← put_digits fuel n_width value tmp_buffer;
    o ← out_digits fuel 0 n_width tmp o;
    pad_after fuel width (i32 n_width) pad o.

(** ** Hexadecimal numbers *)

(** [while (value > j && j < UINT64_MAX)] *)
Fixpoint hex_width (fuel : nat) (value n_width j : Z) : outcome Z :=
  match fuel with
  | O => Timeout
  | S f =>
      if (j <? value) && (j <? 2 ^ 64 - 1) then hex_width f value (u64 (n_width + 1)) (u64 (u64 (j * 16) + 15)) else Done n_width
  end.

(** [while (i > (long long)n_width + 2*!!alt)] *)
Fixpoint pad_hex (fuel : nat) (i n c : Z) (o : out) : outcome out :=
  match fuel with
  | O => Timeout
  | S f => if n <? i then pad_hex f (i - 1) n c (OUT c o) else Done o
  end.

(** A digit of either case. *)
Definition hex_digit (caps : bool) (d : Z) : Z := if d <? 10 then 48 + d else (if caps then 55 else 87) + d.

(** [while (i-- > 0)] *)
Fixpoint hex_digits (fuel : nat) (i value : Z) (caps : bool) (o : out) : outcome out :=
  match fuel with
  | O => Timeout
  | S f =>
      if 0 <? i then
        hex_digits f (i - 1) value caps (OUT (hex_digit caps (Z.land (Z.shiftr value ((i - 1) * 4)) 0xF)) o)
      else Done o
  end.

Definition print_hex (fuel : nat) (value width : Z) (fill_zero alt caps : bool) (align : Z) (o : out) : outcome out :=
  n_width ← hex_width fuel value 1 0xF;
  let n := i64 n_width + (if alt then 2 else 0) in
  o ← (if negb fill_zero && (align =? 1) then pad_hex fuel (i32 width) n 32 o else Done o);
  let o := if alt then OUT (if caps then 88 else 120) (OUT 48 o) else o in
  o ← (if fill_zero && (align =? 1) then pad_hex fuel (i32 width) n 48 o else Done o);
  o ← hex_digits fuel n_width value caps o;
  if align =? 0 then pad_hex fuel (i32 width) n 32 o else Done o.

(** ** The formatter *)

(** The flags behind the percent sign. *)
Fixpoint flags_loop (fuel : nat) (fmt : list Z) (f : Z) (x : spec) (args : list arg) : outcome (Z * spec * list arg) :=
  match fuel with
  | O => Timeout
  | S fuel =>
      c ← fmt_at fmt f;
      if c =? 45 then flags_loop fuel fmt (f + 1) (with_align 0 x) args
      else if c =? 35 then flags_loop fuel fmt (f + 1) (with_alt x) args
      else if c =? 42 then
        '(v, args) ← va_int args;
        flags_loop fuel fmt (f + 1) (with_arg_width (u32 v) x) args
      else if c =? 48 then flags_loop fuel fmt (f + 1) (with_fill_zero x) args
      else if c =? 43 then flags_loop fuel fmt (f + 1) (with_always_sign 1 x) args
      else if c =? 32 then flags_loop fuel fmt (f + 1) (with_always_sign 2 x) args
      else Done (f, x, args)
  end.

(** [while ( *f >= '0' && *f <= '9')] for the width and for the precision. *)
Fixpoint width_loop (fuel : nat) (fmt : list Z) (f v : Z) : outcome (Z * Z) :=
  match fuel with
  | O => Timeout
  | S fuel =>
      c ← fmt_at fmt f;
      if is_digit c then width_loop fuel fmt (f + 1) (u32 (u32 (v * 10) + (c - 48))) else Done (f, v)
  end.
Fixpoint precision_loop (fuel : nat) (fmt : list Z) (f v : Z) : outcome (Z * Z) :=
  match fuel with
  | O => Timeout
  | S fuel =>
      c ← fmt_at fmt f;
      if is_digit c then precision_loop fuel fmt (f + 1) (i32 (i32 (v * 10) + (c - 48))) else Done (f, v)
  end.

(** The precision behind a period. *)
Definition precision_part (fuel : nat) (fmt : list Z) (f : Z) (x : spec) (args : list arg) : outcome (Z * spec * list arg) :=
  c ← fmt_at fmt f;
  if c =? 46 then
    c ← fmt_at fmt (f + 1);
    if c =? 42 then
      '(v, args) ← va_int args;
      Done (f + 2, with_precision v x, args)
    else
      '(f, v) ← precision_loop fuel fmt (f + 1) 0;
      Done (f, with_precision v x, args)
  else Done (f, x, args).

(** The length modifiers; [uintmax_t], [size_t] and [ptrdiff_t] have the size of
    [unsigned long long]. *)
Definition length_part (fmt : list Z) (f : Z) (x : spec) : outcome (Z * spec) :=
  c ← fmt_at fmt f;
  '(f, x) ← (if c =? 108 then
    c ← fmt_at fmt (f + 1);
    if c =? 108 then Done (f + 2, with_big 2 x) else Done (f + 1, with_big 1 x)
  else Done (f, x));
  c ← fmt_at fmt f;
  let '(f, x) := if c =? 106 then (f + 1, with_big 2 x) else (f, x) in
  c ← fmt_at fmt f;
  let '(f, x) := if c =? 122 then (f + 1, with_big 2 x) else (f, x) in
  c ← fmt_at fmt f;
  Done (if c =? 116 then (f + 1, with_big 2 x) else (f, x)).

(** The characters of a string, with a precision and without one. *)
Fixpoint string_chars (s : list Z) (arg_width precision count : Z) (o : out) : Z * out :=
  match s with
  | [] => (count, o)
  | c :: s =>
      if 0 <? precision then
        if negb (arg_width =? 0) && (count + 1 =? arg_width) then (count + 1, OUT c o)
        else string_chars s arg_width (precision - 1) (count + 1) (OUT c o)
      else (count, o)
  end.
Fixpoint string_all (s : list Z) (arg_width count : Z) (o : out) : Z * out :=
  match s with
  | [] => (count, o)
  | c :: s =>
      if negb (arg_width =? 0) && (count + 1 =? arg_width) then (count + 1, OUT c o)
      else string_all s arg_width (count + 1) (OUT c o)
  end.
(** [while (count < arg_width)] *)
Fixpoint pad_string (fuel : nat) (count arg_width : Z) (o : out) : outcome out :=
  match fuel with
  | O => Timeout
  | S fuel => if count <? arg_width then pad_string fuel (count + 1) arg_width (OUT 32 o) else Done o
  end.

(** An integer argument of the size asked for, signed or unsigned. *)
Definition va_signed (big : Z) (args : list arg) : outcome (Z * list arg) :=
  if big =? 0 then va_int args else '(v, args) ← va_word args; Done (i64 v, args).
Definition va_unsigned (big : Z) (args : list arg) : outcome (Z * list arg) :=
  if big =? 0 then '(v, args) ← va_int args; Done (u32 v, args) else va_word args.

(** After a conversion the loop goes on, or the function returns. *)
Inductive converted : Type := Next (args : list arg) (o : out) | Return (o : out).

Definition convert (fuel : nat) (c : Z) (x : spec) (args : list arg) (o : out) : outcome converted :=
  if c =? 115 then
    if negb (big x =? 0) then Done (Return o)
    else
      '(s, args) ← va_string args;
      let s := default null_string s in
      let '(count, o) := if 0 <=? precision x then string_chars s (arg_width x) (precision x) 0 o else string_all s (arg_width x) 0 o in
      o ← pad_string fuel count (arg_width x) o;
      Done (Next args o)
  else if c =? 99 then
    '(v, args) ← va_int args;
    Done (Next args (OUT (u8 v) o))
  else if (c =? 112) || (c =? 88) || (c =? 120) then
    let x := if c =? 112 then with_big 2 (with_alt x) else x in
    '(v, args) ← va_unsigned (big x) args;
    o ← print_hex fuel v (arg_width x) (fill_zero x) (alt x) (Z.land c 32 =? 0) (align x) o;
    Done (Next args o)
  else if (c =? 105) || (c =? 100) then
    '(v, args) ← va_signed (big x) args;
    let '(v, o) :=
      if v <? 0 then (i64 (- v), OUT 45 o)
      else (v, if negb (always_sign x =? 0) then OUT (if always_sign x =? 2 then 32 else 43) o else o) in
    o ← print_dec fuel (u64 v) (arg_width x) (fill_zero x) (align x =? 1) (precision x) o;
    Done (Next args o)
  else if c =? 117 then
    '(v, args) ← va_unsigned (big x) args;
    o ← print_dec fuel v (arg_width x) (fill_zero x) (align x =? 1) (precision x) o;
    Done (Next args o)
  else if c =? 37 then Done (Next args (OUT 37 o))
  else Done (Next args (OUT c o)).

(** The part of the loop body behind a percent sign. *)
Definition conversion (fuel : nat) (fmt : list Z) (f : Z) (args : list arg) (o : out) : outcome (Z * converted) :=
  '(f, x, args) ← flags_loop fuel fmt f fresh_spec args;
  '(f, w) ← width_loop fuel fmt f (arg_width x);
  '(f, x, args) ← precision_part fuel fmt f (with_arg_width w x) args;
  '(f, x) ← length_part fmt f x;
  c ← fmt_at fmt f;
  r ← convert fuel c x args o;
  Done (f, r).

Fixpoint format_loop (n fuel : nat) (fmt : list Z) (f : Z) (args : list arg) (o : out) : outcome out :=
  match n with
  | O => Timeout
  | S n =>
      c ← fmt_at fmt f;
      if c =? 0 then Done o
      else if negb (c =? 37) then format_loop n fuel fmt (f + 1) args (OUT c o)
      else
        '(f, r) ← conversion fuel fmt (f + 1) args o;
        match r with
        | Return o => Done o
        | Next args o => format_loop n fuel fmt (f + 1) args o
        end
  end.

Definition xvasprintf (fuel : nat) (fmt : list Z) (args : list arg) (userData : U) : outcome out :=
  format_loop (S (length fmt)) fuel fmt 0 args (0, userData).
End Printing.
Arguments out U : clear implicits.

(** ** Printing into a buffer and to the console *)

Record CBData : Type := CB { cb_mem : mem; cb_str : Z; cb_size : Z; written : Z }.

Definition cb_sprintf (d : CBData) (c : Z) : CBData :=
  if u64 (written d + 1) <? cb_size d then
    let m := upd (cb_mem d) (cb_str d + written d) (u8 c) in
    let w := u64 (written d + 1) in
    CB (if w <? cb_size d then upd m (cb_str d + w) 0 else m) (cb_str d) (cb_size d) w
  else d.

(** The value returned and the memory afterwards. *)
Definition vsnprintf (fuel : nat) (m : mem) (str size : Z) (format : list Z) (ap : list arg) : outcome (Z * mem) :=
  '(n, d) ← xvasprintf cb_sprintf fuel format ap (CB m str size 0);
  let d := cb_sprintf d 0 in
  Done (i32 n, cb_mem d).
Definition snprintf (fuel : nat) (m : mem) (str size : Z) (format : list Z) (ap : list arg) : outcome (Z * mem) :=
  '(n, d) ← xvasprintf cb_sprintf fuel format ap (CB m str size 0);
  let d := cb_sprintf d 0 in
  Done (i32 n, cb_mem d).

(** [printf_output] gets the characters in their order. *)
Definition cb_printf (console : list Z) (c : Z) : list Z := console ++ [u8 c].
Definition printf (fuel : nat) (console : list Z) (fmt : list Z) (args : list arg) : outcome (Z * list Z) :=
  '(n, console) ← xvasprintf cb_printf fuel fmt args console;
  Done (i32 n, console).

(** ** Numerals *)

(** The [n] lowest digits of a number, the highest one first, and the number of digits it
    needs. *)
Definition digits (b : Z) (n : nat) (v : Z) : list Z := (λ i, (v / b ^ Z.of_nat i) `mod` b) <$> reverse (seq 0 n).
Fixpoint divisions (n : nat) (b v : Z) : nat :=
  match n with O => O | S n => if v <=? 0 then O else S (divisions n b (v / b)) end.
Definition numeral_width (b v : Z) : nat := divisions 64 b v.
Definition dec_digits (n : nat) (v : Z) : list Z := (λ d, d + 48) <$> digits 10 n v.
Definition hex_numeral (caps : bool) (n : nat) (v : Z) : list Z := hex_digit caps <$> digits 16 n v.

(** Reading digits. *)
Definition number (b : Z) (l : list Z) : Z := fold_left (λ a d, a * b + d) l 0.

Lemma digits_S b n v : 0 < b → digits b (S n) v = (v / b ^ Z.of_nat n) `mod` b :: digits b n v.
Proof. intros Hb. unfold digits. rewrite seq_S, reverse_app. done. Qed.

Lemma digits_S_r b n v : 0 < b → digits b (S n) v = digits b n (v / b) ++ [v `mod` b].
Proof.
  intros Hb. unfold digits. rewrite <-cons_seq, reverse_cons, fmap_app. simpl. rewrite Z.pow_0_r, Z.div_1_r. f_equal.
  rewrite <-fmap_S_seq, <-fmap_reverse, <-list_fmap_compose. apply list_fmap_ext. intros _ i _. simpl.
  rewrite Nat2Z.inj_succ, Z.pow_succ_r, <-Z.div_div by lia. done.
Qed.

Lemma length_digits b n v : length (digits b n v) = n.
Proof. unfold digits. by rewrite length_fmap, length_reverse, length_seq. Qed.

Lemma number_app b l1 l2 : number b (l1 ++ l2) = fold_left (λ a d, a * b + d) l2 (number b l1).
Proof. unfold number. apply fold_left_app. Qed.

(** A numeral of enough digits reads as the number. *)
Lemma number_digits b n v : 0 < b → 0 ≤ v → number b (digits b n v) = v `mod` b ^ Z.of_nat n.
Proof.
  intros Hb. revert v. induction n as [|n IH]; intros v Hv; [by rewrite Z.pow_0_r, Z.mod_1_r|].
  rewrite digits_S_r, number_app, IH by (try apply Z.div_pos; lia). simpl.
  rewrite Nat2Z.inj_succ, Z.pow_succ_r, Z.rem_mul_r by lia. lia.
Qed.

Lemma number_digits_small b n v : 0 < b → 0 ≤ v < b ^ Z.of_nat n → number b (digits b n v) = v.
Proof. intros Hb Hv. rewrite number_digits, Z.mod_small by lia. done. Qed.

Lemma digits_range b n v d : 0 < b → d ∈ digits b n v → 0 ≤ d < b.
Proof. intros Hb (i & -> & _)%list_elem_of_fmap. apply Z.mod_pos_bound. lia. Qed.

(** The width of a number below [b ^ 64]. *)
Lemma divisions_bound b n v : 1 < b → 0 ≤ v < b ^ Z.of_nat n →
  v < b ^ Z.of_nat (divisions n b v) ∧ (0 < v → b ^ (Z.of_nat (divisions n b v) - 1) ≤ v).
Proof.
  intros Hb. revert v. induction n as [|n IH]; intros v Hv; simpl; [rewrite Z.pow_0_r in *; split; lia|].
  destruct (Z.leb_spec v 0); [rewrite Z.pow_0_r; lia|].
  rewrite Nat2Z.inj_succ, Z.pow_succ_r in Hv by lia.
  assert (Hd : 0 ≤ v / b < b ^ Z.of_nat n) by (split; [apply Z.div_pos; lia|apply Z.div_lt_upper_bound; lia]).
  destruct (IH (v / b) Hd) as [H1 H2]. rewrite Nat2Z.inj_succ, Z.pow_succ_r by lia. split.
  - pose proof (Z.div_mod v b ltac:(lia)). pose proof (Z.mod_pos_bound v b ltac:(lia)). nia.
  - intros _. replace (Z.succ (Z.of_nat (divisions n b (v / b))) - 1) with (Z.of_nat (divisions n b (v / b))) by lia.
    destruct (decide (v / b = 0)) as [E|E].
    + rewrite E. destruct n; simpl; rewrite Z.pow_0_r; lia.
    + specialize (H2 ltac:(lia)). set (k := divisions n b (v / b)) in *.
      destruct k as [|k]; [rewrite Z.pow_0_r; lia|]. rewrite Nat2Z.inj_succ, Z.pow_succ_r by lia.
      replace (Z.of_nat (S k) - 1) with (Z.of_nat k) in H2 by lia. pose proof (Z.div_mod v b ltac:(lia)).
      pose proof (Z.mod_pos_bound v b ltac:(lia)). nia.
Qed.

(** ** What is printed *)

Section Printed.
Context {U : Type} (callback : U → Z → U).
Implicit Types o : out U.

Definition emit (l : list Z) (o : out U) : out U := fold_left (λ o c, OUT callback c o) l o.

Lemma emit_app l1 l2 o : emit (l1 ++ l2) o = emit l2 (emit l1 o).
Proof. apply fold_left_app. Qed.

Lemma emit_eq l o : 0 ≤ o.1 < 2 ^ 64 → emit l o = (u64 (o.1 + Z.of_nat (length l)), fold_left callback l o.2).
Proof.
  revert o. induction l as [|c l IH]; intros [n u] Hn; simpl in *.
  - by rewrite Z.add_0_r, u64_small.
  - rewrite IH; simpl; [|apply Z.mod_pos_bound; lia]. f_equal. unfold u64. rewrite Zplus_mod_idemp_l. f_equal. lia.
Qed.

Lemma count_digits_eq m fuel v n :
  0 < v < 10 ^ Z.of_nat m → (m ≤ fuel)%nat → 0 ≤ n → n + Z.of_nat m < 2 ^ 64 →
  count_digits fuel v n = Done (n + Z.of_nat (divisions m 10 v) - 1).
Proof.
  revert fuel v n. induction m as [|m IH]; intros fuel v n Hv Hf Hn Hb; [rewrite Z.pow_0_r in Hv; lia|].
  destruct fuel as [|fuel]; [lia|]. rewrite Nat2Z.inj_succ, Z.pow_succ_r in Hv by lia. simpl.
  destruct (Z.leb_spec v 0); [lia|]. destruct (Z.leb_spec 10 v).
  - rewrite u64_small by lia.
    rewrite IH; [f_equal; lia| |lia|lia|lia]. split; [apply Z.div_str_pos; lia|apply Z.div_lt_upper_bound; lia].
  - rewrite Z.div_small by lia. assert (divisions m 10 0 = O) as -> by (by destruct m). f_equal. lia.
Qed.

Lemma numeral_width_bound v : 0 ≤ v < 2 ^ 64 → (numeral_width 10 v ≤ 20)%nat.
Proof.
  intros Hv. destruct (divisions_bound 10 64 v ltac:(lia) ltac:(lia)) as [_ H]. fold (numeral_width 10 v) in H.
  destruct (decide (v = 0)) as [->|]; [cbv; lia|]. specialize (H ltac:(lia)).
  destruct (decide (numeral_width 10 v ≤ 20)%nat); [done|].
  pose proof (Z.pow_le_mono_r 10 20 (Z.of_nat (numeral_width 10 v) - 1) ltac:(lia) ltac:(lia)). lia.
Qed.

Lemma pad_before_eq fuel n width printed c o :
  0 ≤ n → 0 ≤ printed → n < 2 ^ 32 → 0 ≤ width < 2 ^ 31 → printed ≤ width → (Z.to_nat (width - n - printed) < fuel)%nat →
  pad_before callback fuel n width printed c o = Done (emit (replicate (Z.to_nat (width - n - printed)) c) o).
Proof.
  revert printed o. induction fuel as [|fuel IH]; intros printed o Hn Hp Hb Hw Hpw Hf; [lia|]. simpl.
  rewrite u64_small by lia. destruct (Z.ltb_spec (n + printed) width).
  - rewrite i32_small by lia. rewrite IH by lia. 
    replace (Z.to_nat (width - n - printed)) with (S (Z.to_nat (width - n - (printed + 1)))) by lia. done.
  - by replace (Z.to_nat (width - n - printed)) with O by lia.
Qed.

Lemma pad_after_eq fuel width printed c o :
  0 ≤ printed < 2 ^ 31 → 0 ≤ width < 2 ^ 31 → (Z.to_nat (width - printed) < fuel)%nat →
  pad_after callback fuel width printed c o = Done (emit (replicate (Z.to_nat (width - printed)) c) o).
Proof.
  revert printed o. induction fuel as [|fuel IH]; intros printed o Hp Hw Hf; [lia|]. simpl.
  destruct (Z.ltb_spec printed width).
  - rewrite i32_small by lia. rewrite IH by lia.
    replace (Z.to_nat (width - printed)) with (S (Z.to_nat (width - (printed + 1)))) by lia. done.
  - by replace (Z.to_nat (width - printed)) with O by lia.
Qed.

Lemma put_digits_eq fuel (i : nat) value tmp :
  (i < fuel)%nat → (i ≤ length tmp)%nat →
  put_digits fuel (Z.of_nat i) value tmp = Done (dec_digits i value ++ drop i tmp).
Proof.
  revert i value tmp. induction fuel as [|fuel IH]; intros i value tmp Hf Hl; [lia|]. simpl.
  destruct i as [|i]; [done|]. destruct (Z.ltb_spec 0 (Z.of_nat (S i))); [|lia].
  destruct (Z.ltb_spec (Z.of_nat (S i) - 1) (Z.of_nat (length tmp))); [|lia].
  replace (Z.of_nat (S i) - 1) with (Z.of_nat i) by lia. rewrite Nat2Z.id.
  rewrite IH by (rewrite ?length_insert; lia). unfold dec_digits. rewrite digits_S_r, fmap_app, <-app_assoc by lia. simpl. do 2 f_equal.
  rewrite (drop_S _ (value `mod` 10 + 48)) by (apply list_lookup_insert_eq; lia). f_equal. apply drop_insert_lt. lia.
Qed.

Lemma put_digits_fault fuel i value : 100 < i → (0 < fuel)%nat → put_digits fuel i value tmp_buffer = Fault.
Proof.
  intros Hi Hf. destruct fuel as [|fuel]; [lia|]. cbn [put_digits]. change (Z.of_nat (length tmp_buffer)) with 100.
  destruct (Z.ltb_spec 0 i); [|lia]. destruct (Z.ltb_spec (i - 1) 100); [lia|done].
Qed.

Lemma out_digits_eq fuel (i n : nat) tmp o :
  (n - i < fuel)%nat → (i ≤ n ≤ length tmp)%nat →
  out_digits callback fuel (Z.of_nat i) (Z.of_nat n) tmp o = Done (emit (take (n - i) (drop i tmp)) o).
Proof.
  revert i o. induction fuel as [|fuel IH]; intros i o Hf Hn; [lia|]. simpl.
  destruct (Z.ltb_spec (Z.of_nat i) (Z.of_nat n)).
  - destruct (lookup_lt_is_Some_2 tmp i ltac:(lia)) as [c Hc]. rewrite Nat2Z.id, Hc. osimpl. simpl.
    replace (Z.of_nat i + 1) with (Z.of_nat (S i)) by lia. rewrite IH by lia.
    rewrite (drop_S _ c i Hc). by replace (n - i)%nat with (S (n - S i)) by lia.
  - by replace (n - i)%nat with O by lia.
Qed.

(** A decimal number: at least as many digits as the precision (one when there is none), in
    a field of the width. *)
Definition dec_field (value width : Z) (fill_zero align_right : bool) (precision : Z) : list Z :=
  let n := Nat.max (numeral_width 10 value) (Z.to_nat (if precision =? -1 then 1 else precision)) in
  let padding := replicate (Z.to_nat width - n) (if fill_zero then 48 else 32) in
  if align_right then padding ++ dec_digits n value else dec_digits n value ++ padding.

(** The digits [print_dec] counts. *)
Lemma print_dec_width fuel value precision :
  0 ≤ value < 2 ^ 64 → (64 ≤ fuel)%nat → 0 ≤ precision < 2 ^ 31 →
  (n_width ← (if value =? 0 then Done 0 else count_digits fuel value 1);
   Done (if n_width <? u64 precision then u64 precision else n_width)) =
  Done (Z.of_nat (Nat.max (numeral_width 10 value) (Z.to_nat precision))).
Proof.
  intros Hv Hf Hp. rewrite u64_small by lia.
  assert (H : (if value =? 0 then Done 0 else count_digits fuel value 1) = Done (Z.of_nat (numeral_width 10 value))).
  { destruct (Z.eqb_spec value 0) as [->|]; [done|]. rewrite (count_digits_eq 64) by lia. f_equal. unfold numeral_width. lia. }
  rewrite H. osimpl. f_equal. destruct (Z.ltb_spec (Z.of_nat (numeral_width 10 value)) precision); lia.
Qed.

Lemma print_dec_eq fuel value width fill_zero align_right precision o :
  0 ≤ value < 2 ^ 64 → 0 ≤ width < 2 ^ 31 → -1 ≤ precision ≤ 100 → (Z.to_nat width + 128 ≤ fuel)%nat →
  print_dec callback fuel value width fill_zero align_right precision o =
  Done (emit (dec_field value width fill_zero align_right precision) o).
Proof.
  intros Hv Hw Hp Hf. unfold print_dec, dec_field. cbv zeta. set (p := if precision =? -1 then 1 else precision).
  assert (Hp' : 0 ≤ p ≤ 100) by (unfold p; destruct (Z.eqb_spec precision (-1)); lia).
  pose proof (print_dec_width fuel value p Hv ltac:(lia) ltac:(lia)) as Hn.
  pose proof (numeral_width_bound value Hv) as Hb.
  destruct (if value =? 0 then _ else _) as [k| |]; simpl in Hn; try done. osimpl. injection Hn as ->.
  set (n := Nat.max (numeral_width 10 value) (Z.to_nat p)). assert ((n ≤ 100)%nat) by lia.
  assert (E : put_digits fuel (Z.of_nat n) value tmp_buffer = Done (dec_digits n value ++ drop n tmp_buffer)) by
    (apply put_digits_eq; [lia|change (length tmp_buffer) with 100%nat; lia]).
  assert (L : length (dec_digits n value) = n) by (unfold dec_digits; by rewrite length_fmap, length_digits).
  assert (O : ∀ o, out_digits callback fuel 0 (Z.of_nat n) (dec_digits n value ++ drop n tmp_buffer) o = Done (emit (dec_digits n value) o)).
  { intros o'. change 0 with (Z.of_nat 0). rewrite out_digits_eq by (rewrite ?length_app, ?L; lia).
    rewrite Nat.sub_0_r, drop_0. by rewrite take_app_length'. }
  destruct align_right.
  - rewrite pad_before_eq by lia. osimpl. rewrite E. osimpl. rewrite O, emit_app. do 4 f_equal. lia.
  - rewrite E. osimpl. rewrite O. osimpl. rewrite i32_small by lia. rewrite pad_after_eq by lia. rewrite emit_app. do 4 f_equal. lia.
Qed.

(** A precision of more than a hundred digits overruns the buffer. *)
Lemma print_dec_overruns fuel value width fill_zero align_right precision o :
  0 ≤ value < 2 ^ 64 → 0 ≤ width < 2 ^ 31 → 100 < precision < 2 ^ 31 → (Z.to_nat width + 128 ≤ fuel)%nat →
  print_dec callback fuel value width fill_zero align_right precision o = Fault.
Proof.
  intros Hv Hw Hp Hf. unfold print_dec. cbv zeta. destruct (Z.eqb_spec precision (-1)); [lia|].
  pose proof (print_dec_width fuel value precision Hv ltac:(lia) ltac:(lia)) as Hn. pose proof (numeral_width_bound value Hv) as Hb.
  destruct (if value =? 0 then _ else _) as [k| |]; simpl in Hn; try done. osimpl. injection Hn as ->.
  destruct align_right.
  - rewrite pad_before_eq by lia. osimpl. by rewrite put_digits_fault by lia.
  - by rewrite put_digits_fault by lia.
Qed.
End Printed.

Section Hexadecimal.
Context {U : Type} (callback : U → Z → U).
Implicit Types o : out U.

(** The hexadecimal digits printed, one at least. *)
Definition hex_length (v : Z) : nat := Nat.max 1 (numeral_width 16 v).

Lemma hex_length_bound v : 0 ≤ v < 2 ^ 64 →
  v < 16 ^ Z.of_nat (hex_length v) ∧ (1 ≤ hex_length v ≤ 16)%nat ∧ (∀ k, 1 ≤ k < Z.of_nat (hex_length v) → 16 ^ k ≤ v).
Proof.
  intros Hv. unfold hex_length, numeral_width. destruct (divisions_bound 16 64 v ltac:(lia) ltac:(lia)) as [H1 H2].
  set (w := divisions 64 16 v) in *. destruct (decide (v = 0)) as [->|Hne].
  { change w with O. split_and!; [done|lia|lia|]. intros k Hk. simpl in Hk. lia. }
  specialize (H2 ltac:(lia)). assert (Hw : (w ≤ 16)%nat).
  { destruct (decide (w ≤ 16)%nat); [done|]. pose proof (Z.pow_le_mono_r 16 16 (Z.of_nat w - 1) ltac:(lia) ltac:(lia)). lia. }
  split_and!; [|lia|lia|].
  - pose proof (Z.pow_le_mono_r 16 (Z.of_nat w) (Z.of_nat (Nat.max 1 w)) ltac:(lia) ltac:(lia)). lia.
  - intros k Hk. pose proof (Z.pow_le_mono_r 16 k (Z.of_nat w - 1) ltac:(lia) ltac:(lia)). lia.
Qed.

Lemma hex_width_eq fuel v k :
  0 ≤ v < 2 ^ 64 → 1 ≤ k ≤ Z.of_nat (hex_length v) → (hex_length v - Z.to_nat k < fuel)%nat →
  hex_width fuel v k (16 ^ k - 1) = Done (Z.of_nat (hex_length v)).
Proof.
  intros Hv. destruct (hex_length_bound v Hv) as (H1 & H2 & H3). revert k.
  induction fuel as [|fuel IH]; intros k Hk Hf; [lia|]. cbn [hex_width].
  destruct (decide (k = Z.of_nat (hex_length v))) as [->|Hne].
  - destruct (Z.ltb_spec (16 ^ Z.of_nat (hex_length v) - 1) v); [lia|done].
  - specialize (H3 k ltac:(lia)). pose proof (Z.pow_le_mono_r 16 (k + 1) 16 ltac:(lia) ltac:(lia)) as P.
    rewrite Z.pow_add_r, Z.pow_1_r in P by lia. change (16 ^ 16) with (2 ^ 64) in P. pose proof (Z.pow_pos_nonneg 16 k ltac:(lia) ltac:(lia)).
    destruct (Z.ltb_spec (16 ^ k - 1) v); [|lia]. destruct (Z.ltb_spec (16 ^ k - 1) (2 ^ 64 - 1)); [|lia]. simpl.
    rewrite (u64_small (k + 1)), (u64_small ((16 ^ k - 1) * 16)), u64_small by lia.
    rewrite <-(IH (k + 1)) by lia. f_equal. rewrite Z.pow_add_r by lia. lia.
Qed.

Lemma pad_hex_eq fuel i n c o :
  (Z.to_nat (i - n) < fuel)%nat → pad_hex callback fuel i n c o = Done (emit callback (replicate (Z.to_nat (i - n)) c) o).
Proof.
  revert i o. induction fuel as [|fuel IH]; intros i o Hf; [lia|]. simpl. destruct (Z.ltb_spec n i).
  - rewrite IH by lia. by replace (Z.to_nat (i - n)) with (S (Z.to_nat (i - 1 - n))) by lia.
  - by replace (Z.to_nat (i - n)) with O by lia.
Qed.

Lemma nibble v k : 0 ≤ v → 0 ≤ k → Z.land (Z.shiftr v (k * 4)) 0xF = (v / 16 ^ k) `mod` 16.
Proof.
  intros Hv Hk. change 0xF with (Z.ones 4). rewrite Z.land_ones, Z.shiftr_div_pow2 by lia.
  by rewrite (Z.mul_comm k 4), Z.pow_mul_r by lia.
Qed.

Lemma hex_digits_eq fuel (i : nat) v caps o :
  0 ≤ v → (i < fuel)%nat → hex_digits callback fuel (Z.of_nat i) v caps o = Done (emit callback (hex_numeral caps i v) o).
Proof.
  intros Hv. revert i o. induction fuel as [|fuel IH]; intros i o Hf; [lia|]. cbn [hex_digits].
  destruct i as [|i]; [done|]. destruct (Z.ltb_spec 0 (Z.of_nat (S i))); [|lia].
  replace (Z.of_nat (S i) - 1) with (Z.of_nat i) by lia. rewrite nibble, IH by lia.
  unfold hex_numeral. rewrite digits_S by lia. done.
Qed.

(** A hexadecimal number in a field of the width, with or without [0x]. *)
Definition hex_field (value width : Z) (fill_zero alt caps : bool) (align : Z) : list Z :=
  let pre := if alt then [48; if caps then 88 else 120] else [] in
  let num := hex_numeral caps (hex_length value) value in
  let pad := Z.to_nat (width - Z.of_nat (hex_length value + length pre)) in
  if align =? 0 then pre ++ num ++ replicate pad 32
  else if fill_zero then pre ++ replicate pad 48 ++ num
  else replicate pad 32 ++ pre ++ num.

Lemma print_hex_eq fuel value width fill_zero alt caps align o :
  0 ≤ value < 2 ^ 64 → 0 ≤ width < 2 ^ 31 → align = 0 ∨ align = 1 → (Z.to_nat width + 32 < fuel)%nat →
  print_hex callback fuel value width fill_zero alt caps align o =
  Done (emit callback (hex_field value width fill_zero alt caps align) o).
Proof.
  intros Hv Hw Ha Hf. unfold print_hex, hex_field. cbv zeta. destruct (hex_length_bound value Hv) as (_ & Hl & _).
  change 0xF with (16 ^ 1 - 1). rewrite hex_width_eq by lia. osimpl. rewrite i64_small, i32_small by lia.
  set (h := hex_length value) in *.
  replace (Z.of_nat h + (if alt then 2 else 0)) with (Z.of_nat (h + length (if alt then [48; if caps then 88 else 120] else [])))
    by (destruct alt; simpl; lia).
  assert (P : ∀ o, (if alt then OUT callback (if caps then 88 else 120) (OUT callback 48 o) else o) =
    emit callback (if alt then [48; if caps then 88 else 120] else []) o) by (by destruct alt).
  set (pre := if alt then [48; if caps then 88 else 120] else []) in *. set (n := Z.of_nat (h + length pre)).
  destruct Ha as [-> | ->]; simpl; rewrite ?andb_false_r, ?andb_true_r; osimpl.
  - rewrite P. rewrite hex_digits_eq by lia. osimpl. rewrite pad_hex_eq by lia. by rewrite !emit_app.
  - destruct fill_zero; simpl; osimpl.
    + rewrite P. rewrite pad_hex_eq by lia. osimpl. rewrite hex_digits_eq by lia. by rewrite !emit_app.
    + rewrite pad_hex_eq by lia. osimpl. rewrite P. rewrite hex_digits_eq by lia. by rewrite !emit_app.
Qed.
End Hexadecimal.

(** ** Formats *)

(** A format as a sequence of directives: characters, and conversions with flags, a width, a
    precision (a number, or [None] for an asterisk), a length modifier, and a conversion
    character. *)
Inductive length_mod : Type := LInt | LLong | LLongLong | LIntmax | LSize | LPtrdiff.

Definition length_chars (len : length_mod) : list Z :=
  match len with
  | LInt => [] | LLong => [108] | LLongLong => [108; 108] | LIntmax => [106] | LSize => [122] | LPtrdiff => [116]
  end.
(** The size they ask for: all but the first have 64 bits. *)
Definition length_size (len : length_mod) : Z :=
  match len with LInt => 0 | LLong => 1 | _ => 2 end.
Definition with_length (len : length_mod) (x : spec) : spec :=
  match len with LInt => x | _ => with_big (length_size len) x end.

Inductive directive : Type :=
  | Lit (c : Z)
  | Conv (flags : list Z) (width : Z) (prec : option (option Z)) (len : length_mod) (c : Z).

Definition numeral (n : Z) : list Z := dec_digits (numeral_width 10 n) n.

Definition render_precision (p : option (option Z)) : list Z :=
  match p with
  | None => []
  | Some None => [46; 42]
  | Some (Some n) => 46 :: numeral n
  end.
Definition render (d : directive) : list Z :=
  match d with
  | Lit c => [c]
  | Conv flags width prec len c => 37 :: flags ++ numeral width ++ render_precision prec ++ length_chars len ++ [c]
  end.

Definition flag_chars : list Z := [45; 35; 42; 48; 43; 32].
Definition conversions : list Z := [115; 99; 112; 88; 120; 105; 100; 117; 37].

(** A width of zero stands for none. *)
Definition valid (d : directive) : Prop :=
  match d with
  | Lit c => c ≠ 0 ∧ c ≠ 37
  | Conv flags width prec len c =>
      Forall (λ f, f ∈ flag_chars) flags ∧ 0 ≤ width < 2 ^ 31 ∧ (∀ n, prec = Some (Some n) → 0 ≤ n < 2 ^ 31) ∧
      c ∈ conversions ∧ (c = 115 → len = LInt)
  end.

(** *** The meaning of a directive *)

Fixpoint apply_flags (fs : list Z) (x : spec) (args : list arg) : option (spec * list arg) :=
  match fs with
  | [] => Some (x, args)
  | f :: fs =>
      if f =? 45 then apply_flags fs (with_align 0 x) args
      else if f =? 35 then apply_flags fs (with_alt x) args
      else if f =? 42 then
        match args with VInt v :: args => apply_flags fs (with_arg_width (u32 (i32 v)) x) args | _ => None end
      else if f =? 48 then apply_flags fs (with_fill_zero x) args
      else if f =? 43 then apply_flags fs (with_always_sign 1 x) args
      else apply_flags fs (with_always_sign 2 x) args
  end.

Definition apply_precision (p : option (option Z)) (x : spec) (args : list arg) : option (spec * list arg) :=
  match p with
  | None => Some (x, args)
  | Some (Some n) => Some (with_precision n x, args)
  | Some None => match args with VInt v :: args => Some (with_precision (i32 v) x, args) | _ => None end
  end.

(** The number an argument is converted to. *)
Definition take_number (signed : bool) (big : Z) (args : list arg) : option (Z * list arg) :=
  match args with
  | VInt v :: args => if big =? 0 then Some (if signed then i32 v else u32 v, args) else None
  | VWord v :: args => if big =? 0 then None else Some (if signed then i64 (u64 v) else u64 v, args)
  | _ => None
  end.

(** The width of a string is also the most characters of it that are printed. *)
Definition string_field (s : list Z) (width precision : Z) : list Z :=
  let s := if 0 <=? precision then take (Z.to_nat precision) s else s in
  let s := if width =? 0 then s else take (Z.to_nat width) s in
  s ++ replicate (Z.to_nat width - length s) 32.

(** The sign goes before the field. *)
Definition signed_field (v : Z) (x : spec) : list Z :=
  (if v <? 0 then [45] else if always_sign x =? 0 then [] else [if always_sign x =? 2 then 32 else 43]) ++
  dec_field (Z.abs v) (arg_width x) (fill_zero x) (align x =? 1) (precision x).

Definition conversion_bytes (c : Z) (x : spec) (args : list arg) : option (list Z * list arg) :=
  if c =? 115 then
    match args with VStr s :: args => Some (string_field (default null_string s) (arg_width x) (precision x), args) | _ => None end
  else if c =? 99 then match args with VInt v :: args => Some ([u8 (i32 v)], args) | _ => None end
  else if (c =? 112) || (c =? 88) || (c =? 120) then
    let x := if c =? 112 then with_big 2 (with_alt x) else x in
    '(v, args) ← take_number false (big x) args;
    Some (hex_field v (arg_width x) (fill_zero x) (alt x) (c =? 88) (align x), args)
  else if (c =? 105) || (c =? 100) then
    '(v, args) ← take_number true (big x) args; Some (signed_field v x, args)
  else if c =? 117 then
    '(v, args) ← take_number false (big x) args;
    Some (dec_field v (arg_width x) (fill_zero x) (align x =? 1) (precision x), args)
  else Some ([37], args).

Definition decimal (c : Z) : bool := (c =? 105) || (c =? 100) || (c =? 117).

(** The bytes of a directive and the arguments left; [None] when the arguments do not fit, a
    width is over [limit], or the precision of a decimal number is over 100 or below -1. *)
Definition meaning (limit : Z) (d : directive) (args : list arg) : option (list Z * list arg) :=
  match d with
  | Lit c => Some ([c], args)
  | Conv flags width prec len c =>
      '(x, args) ← apply_flags flags fresh_spec args;
      let x := if width =? 0 then x else with_arg_width (u32 (u32 (arg_width x * 10 ^ Z.of_nat (numeral_width 10 width)) + width)) x in
      '(x, args) ← apply_precision prec x args;
      let x := with_length len x in
      if (arg_width x <=? limit) && (negb (decimal c) || (-1 <=? precision x) && (precision x <=? 100)) then conversion_bytes c x args else None
  end.
Fixpoint meanings (limit : Z) (ds : list directive) (args : list arg) : option (list Z * list arg) :=
  match ds with
  | [] => Some ([], args)
  | d :: ds =>
      '(l, args) ← meaning limit d args;
      '(l', args) ← meanings limit ds args;
      Some (l ++ l', args)
  end.

(** *** Reading a format *)

Definition rest_at (fmt : list Z) (f : Z) (l : list Z) : Prop := 0 ≤ f ∧ drop (Z.to_nat f) fmt = l ∧ f ≤ Z.of_nat (length fmt).

Lemma rest_cons fmt f c l : rest_at fmt f (c :: l) → fmt_at fmt f = Done c ∧ rest_at fmt (f + 1) l.
Proof.
  intros (Hf & E & Hl). assert (H : fmt !! Z.to_nat f = Some c) by (rewrite <-(Nat.add_0_r (Z.to_nat f)), <-lookup_drop, E; done).
  pose proof (lookup_lt_Some _ _ _ H). split.
  - unfold fmt_at. destruct (Z.eqb_spec f (Z.of_nat (length fmt))); [lia|]. destruct (Z.ltb_spec f 0); [lia|]. by rewrite H.
  - split_and!; [lia| |lia]. replace (Z.to_nat (f + 1)) with (S (Z.to_nat f)) by lia.
    pose proof (drop_S fmt c _ H) as D. rewrite E in D. by injection D.
Qed.

Lemma rest_nil fmt f : rest_at fmt f [] → fmt_at fmt f = Done 0.
Proof.
  intros (Hf & E & Hl). assert (length (drop (Z.to_nat f) fmt) = 0%nat) by (by rewrite E). rewrite length_drop in *.
  unfold fmt_at. destruct (Z.eqb_spec f (Z.of_nat (length fmt))); [done|lia].
Qed.

Lemma rest_app fmt f l1 l2 : rest_at fmt f (l1 ++ l2) → rest_at fmt (f + Z.of_nat (length l1)) l2.
Proof.
  revert f. induction l1 as [|c l1 IH]; intros f H; simpl in *; [by rewrite Z.add_0_r|].
  apply rest_cons in H as [_ H]. apply IH in H. by replace (f + Z.of_nat (S (length l1))) with (f + 1 + Z.of_nat (length l1)) by lia.
Qed.

(** The character at a place, the terminator included. *)
Definition head_char (l : list Z) : Z := default 0 (head l).

Lemma rest_head fmt f l : rest_at fmt f l → fmt_at fmt f = Done (head_char l).
Proof. destruct l as [|c l]; intros H; [by rewrite (rest_nil _ _ H)|]. by apply rest_cons in H as [-> _]. Qed.

Lemma flags_loop_eq fuel fmt f fs l x args x' args' :
  rest_at fmt f (fs ++ l) → Forall (λ c, c ∈ flag_chars) fs → head_char l ∉ flag_chars → (length fs < fuel)%nat →
  apply_flags fs x args = Some (x', args') →
  flags_loop fuel fmt f x args = Done (f + Z.of_nat (length fs), x', args').
Proof.
  intros H Hfs Hl. revert fuel f x args H. induction Hfs as [|c fs Hc _ IH]; intros fuel f x args H Hf E; (destruct fuel as [|fuel]; [simpl in Hf; lia|]).
  - simpl in *. simplify_eq. rewrite (rest_head _ _ _ H). osimpl. rewrite Z.add_0_r.
    repeat match goal with |- context [head_char l =? ?k] =>
      destruct (Z.eqb_spec (head_char l) k) as [Hk|_]; [exfalso; apply Hl; rewrite Hk; unfold flag_chars; set_solver|] end. done.
  - simpl in H. apply rest_cons in H as [Hat H]. simpl in *. rewrite Hat. osimpl.
    replace (f + Z.of_nat (S (length fs))) with (f + 1 + Z.of_nat (length fs)) by lia.
    repeat match goal with |- context [c =? ?k] => destruct (Z.eqb_spec c k) as [->|]; simpl in *; [try (apply IH; auto; lia)|] end;
      try (apply IH; auto; lia).
    + destruct args as [|[v| |] args]; try done. simpl. apply IH; auto; lia.
    + exfalso. unfold flag_chars in Hc. set_solver.
Qed.

Lemma number_from b l a : fold_left (λ a d, a * b + d) l a = a * b ^ Z.of_nat (length l) + number b l.
Proof.
  revert a. induction l as [|d l IH]; intros a; [simpl; unfold number; simpl; lia|].
  unfold number. simpl length. simpl fold_left. rewrite (IH (a * b + d)), (IH (0 * b + d)). rewrite Nat2Z.inj_succ, Z.pow_succ_r by lia. lia.
Qed.

Lemma number_cons b d l : number b (d :: l) = d * b ^ Z.of_nat (length l) + number b l.
Proof. unfold number at 1. simpl. by rewrite number_from. Qed.

Lemma number_nonneg b l : 0 < b → Forall (λ d, 0 ≤ d < b) l → 0 ≤ number b l.
Proof.
  intros Hb. unfold number. cut (∀ a, 0 ≤ a → Forall (λ d, 0 ≤ d < b) l → 0 ≤ fold_left (λ a d, a * b + d) l a); [intros H; by apply H|].
  induction l as [|d l IH]; intros a Ha Hl; simpl; [done|]. inversion Hl; subst. apply IH; [nia|done].
Qed.

Lemma u32_sum v d : ∃ k, u32 (u32 (v * 10) + d) = v * 10 + d + k * 2 ^ 32.
Proof.
  exists (- ((v * 10) / 2 ^ 32) - ((u32 (v * 10) + d) / 2 ^ 32)). unfold u32 in *.
  pose proof (Z.div_mod (v * 10) (2 ^ 32) ltac:(lia)). pose proof (Z.div_mod ((v * 10) `mod` 2 ^ 32 + d) (2 ^ 32) ltac:(lia)). lia.
Qed.

(** Both digit loops read a numeral. *)
Lemma width_loop_eq fuel fmt f ds l v :
  rest_at fmt f (((λ d, d + 48) <$> ds) ++ l) → Forall (λ d, 0 ≤ d < 10) ds → is_digit (head_char l) = false →
  (length ds < fuel)%nat → 0 ≤ v < 2 ^ 32 →
  width_loop fuel fmt f v = Done (f + Z.of_nat (length ds), u32 (v * 10 ^ Z.of_nat (length ds) + number 10 ds)).
Proof.
  intros H Hds Hl. revert fuel f v H. induction Hds as [|d ds Hd Hds IH]; intros fuel f v H Hf Hv; (destruct fuel as [|fuel]; [simpl in Hf; lia|]).
  - simpl in *. rewrite (rest_head _ _ _ H). osimpl. rewrite Hl, Z.add_0_r. unfold number. simpl. by rewrite Z.mul_1_r, Z.add_0_r, u32_small.
  - simpl in H. apply rest_cons in H as [Hat H]. simpl in Hf. cbn [width_loop]. rewrite Hat. osimpl.
    assert (is_digit (d + 48) = true) as -> by (unfold is_digit; destruct (Z.leb_spec 48 (d + 48)), (Z.leb_spec (d + 48) 57); simpl; lia).
    rewrite IH; [|done|lia|apply Z.mod_pos_bound; lia]. f_equal. f_equal; [simpl length; lia|].
    replace (d + 48 - 48) with d by lia. rewrite number_cons. simpl length.
    rewrite Nat2Z.inj_succ, Z.pow_succ_r by lia. 
    destruct (u32_sum v d) as [k ->]. unfold u32.
    rewrite <-(Z_mod_plus_full _ (- (k * 10 ^ Z.of_nat (length ds)))). f_equal. lia.
Qed.

Lemma precision_loop_eq fuel fmt f ds l v :
  rest_at fmt f (((λ d, d + 48) <$> ds) ++ l) → Forall (λ d, 0 ≤ d < 10) ds → is_digit (head_char l) = false →
  (length ds < fuel)%nat → 0 ≤ v → v * 10 ^ Z.of_nat (length ds) + number 10 ds < 2 ^ 31 →
  precision_loop fuel fmt f v = Done (f + Z.of_nat (length ds), v * 10 ^ Z.of_nat (length ds) + number 10 ds).
Proof.
  intros H Hds Hl. revert fuel f v H. induction Hds as [|d ds Hd Hds IH]; intros fuel f v H Hf Hv Hb; (destruct fuel as [|fuel]; [simpl in Hf; lia|]).
  - simpl in *. rewrite (rest_head _ _ _ H). osimpl. rewrite Hl, Z.add_0_r. unfold number. simpl. by rewrite Z.mul_1_r, Z.add_0_r.
  - simpl in H. apply rest_cons in H as [Hat H]. simpl in Hf. cbn [precision_loop]. rewrite Hat. osimpl.
    assert (is_digit (d + 48) = true) as -> by (unfold is_digit; destruct (Z.leb_spec 48 (d + 48)), (Z.leb_spec (d + 48) 57); simpl; lia).
    rewrite number_cons in Hb |- *. simpl length in Hb |- *. rewrite Nat2Z.inj_succ, Z.pow_succ_r in Hb |- * by lia. pose proof (number_nonneg 10 ds ltac:(lia) Hds).
    pose proof (Z.pow_pos_nonneg 10 (Z.of_nat (length ds)) ltac:(lia) ltac:(lia)).
    assert (v * 10 + d < 2 ^ 31) by nia. replace (d + 48 - 48) with d by lia. rewrite (i32_small (v * 10)), i32_small by lia.
    rewrite IH; [|done|lia|lia|]. { f_equal. f_equal; lia. } lia.
Qed.

(** *** Numerals as they stand in a format *)

Lemma numeral_digits n : ∃ ds, numeral n = (λ d, d + 48) <$> ds ∧ Forall (λ d, 0 ≤ d < 10) ds ∧ length ds = numeral_width 10 n ∧
  (0 ≤ n < 2 ^ 64 → number 10 ds = n).
Proof.
  exists (digits 10 (numeral_width 10 n) n). split_and!; [done| |by rewrite length_digits|].
  - apply Forall_forall. intros d Hd. by eapply digits_range in Hd.
  - intros Hn. apply number_digits_small; [lia|]. destruct (divisions_bound 10 64 n ltac:(lia) ltac:(lia)). unfold numeral_width. lia.
Qed.

(** The first digit of a numeral is not a zero. *)
Lemma numeral_head n l : 0 < n < 2 ^ 64 → ∃ c l', numeral n ++ l = c :: l' ∧ 49 ≤ c ≤ 57.
Proof.
  intros Hn. destruct (divisions_bound 10 64 n ltac:(lia) ltac:(lia)) as [H1 H2]. fold (numeral_width 10 n) in *. specialize (H2 ltac:(lia)).
  unfold numeral, dec_digits. destruct (numeral_width 10 n) as [|k]; [rewrite Z.pow_0_r in H1; lia|].
  rewrite digits_S by lia. eexists _, _. split; [done|]. replace (Z.of_nat (S k) - 1) with (Z.of_nat k) in H2 by lia.
  rewrite Nat2Z.inj_succ, Z.pow_succ_r in H1 by lia. pose proof (Z.pow_pos_nonneg 10 (Z.of_nat k) ltac:(lia) ltac:(lia)).
  assert (1 ≤ n / 10 ^ Z.of_nat k) by (apply Z.div_le_lower_bound; lia).
  assert (n / 10 ^ Z.of_nat k < 10) by (apply Z.div_lt_upper_bound; lia). rewrite Z.mod_small by lia. lia.
Qed.

(** What may follow the flags, the width and the precision. *)
Definition tail_of (len : length_mod) (c : Z) (l : list Z) : list Z := length_chars len ++ c :: l.

Definition modifiers : list Z := [108; 106; 122; 116].

Lemma tail_not len c l (P : Z → Prop) :
  c ∈ conversions → (∀ k, k ∈ modifiers → ¬ P k) → (∀ c, c ∈ conversions → ¬ P c) → ¬ P (head_char (tail_of len c l)).
Proof. intros Hc H1 H2. destruct len; [by apply H2|..]; apply H1; unfold modifiers; set_solver. Qed.

Lemma length_part_eq fmt f len c l x :
  rest_at fmt f (tail_of len c l) → c ∈ conversions →
  length_part fmt f x = Done (f + Z.of_nat (length (length_chars len)), with_length len x).
Proof.
  intros H Hc. unfold length_part, tail_of in *.
  assert (N : ∀ k, k ∈ modifiers → (c =? k) = false).
  { intros k Hk. destruct (Z.eqb_spec c k) as [->|]; [|done]. unfold modifiers, conversions in *. set_solver. }
  pose proof (N 108 ltac:(unfold modifiers; set_solver)) as N1. pose proof (N 106 ltac:(unfold modifiers; set_solver)) as N2.
  pose proof (N 122 ltac:(unfold modifiers; set_solver)) as N3. pose proof (N 116 ltac:(unfold modifiers; set_solver)) as N4.
  destruct len; simpl in H; repeat (let Hat := fresh "Hat" in apply rest_cons in H as [Hat H]; rewrite ?Z.add_0_r in Hat);
    replace (f + 1 + 1) with (f + 2) in * by lia;
    repeat (first [rewrite Hat|rewrite Hat0|rewrite Hat1|rewrite N1|rewrite N2|rewrite N3|rewrite N4]; osimpl; simpl);
    by rewrite ?Z.add_0_r.
Qed.

Lemma precision_part_eq fuel fmt f p len c l x args x' args' :
  rest_at fmt f (render_precision p ++ tail_of len c l) → c ∈ conversions → (∀ n, p = Some (Some n) → 0 ≤ n < 2 ^ 31) → (64 < fuel)%nat →
  apply_precision p x args = Some (x', args') →
  precision_part fuel fmt f x args = Done (f + Z.of_nat (length (render_precision p)), x', args').
Proof.
  intros H Hc Hp Hf E. assert (Hd : is_digit (head_char (tail_of len c l)) = false).
  { apply not_true_iff_false, (tail_not _ _ _ (λ c, is_digit c = true)); [done|..]; intros k Hk; unfold conversions, modifiers in Hk;
    (repeat (apply elem_of_cons in Hk as [->|Hk]; [done|])); by apply elem_of_nil in Hk. }
  unfold precision_part. destruct p as [[n|]|]; simpl in H.
  - apply rest_cons in H as [Hat H]. rewrite Hat. osimpl. simpl. destruct (numeral_digits n) as (ds & En & Hds & Hlen & Hn).
    specialize (Hp n eq_refl). rewrite En in H. rewrite (rest_head _ _ _ H). osimpl.
    assert (Hs : head_char (((λ d, d + 48) <$> ds) ++ tail_of len c l) =? 42 = false).
    { destruct ds as [|d ds]; simpl; [|inversion Hds; subst; unfold head_char; simpl; destruct (Z.eqb_spec (d + 48) 42); [lia|done]].
      apply Z.eqb_neq. apply (tail_not _ _ _ (λ c, c = 42)); [done|..]; intros k Hk ->; unfold conversions, modifiers in Hk; set_solver. }
    rewrite Hs. pose proof (numeral_width_bound n ltac:(lia)) as Hw. rewrite (precision_loop_eq fuel fmt (f + 1) ds _ 0 H Hds Hd); [|rewrite Hlen; lia|lia|rewrite Hn by lia; lia].
    osimpl. simpl in E. simplify_eq. rewrite Hn by lia. simpl. rewrite En, length_fmap. do 3 f_equal. lia.
  - apply rest_cons in H as [Hat H]. apply rest_cons in H as [Hat2 H]. rewrite Hat. osimpl. simpl. rewrite Hat2. osimpl. simpl.
    simpl in E. destruct args as [|[v| |] args]; try done. simplify_eq. done.
  - rewrite (rest_head _ _ _ H). osimpl.
    assert (head_char (tail_of len c l) =? 46 = false) as ->.
    { apply Z.eqb_neq. apply (tail_not _ _ _ (λ c, c = 46)); [done|..]; intros k Hk ->; unfold conversions, modifiers in Hk; set_solver. }
    simpl in *. simplify_eq. by rewrite Z.add_0_r.
Qed.

(** *** One conversion *)

Lemma u32_i32 v : u32 (i32 v) = u32 v.
Proof.
  unfold u32, i32. rewrite <-(Z_mod_plus_full v (- ((v + 2 ^ 31) / 2 ^ 32))). f_equal.
  pose proof (Z.div_mod (v + 2 ^ 31) (2 ^ 32) ltac:(lia)). lia.
Qed.
Lemma u64_i64 v : u64 (i64 v) = u64 v.
Proof.
  unfold u64, i64. rewrite <-(Z_mod_plus_full v (- ((v + 2 ^ 63) / 2 ^ 64))). f_equal.
  pose proof (Z.div_mod (v + 2 ^ 63) (2 ^ 64) ltac:(lia)). lia.
Qed.
Lemma i32_range v : - 2 ^ 31 ≤ i32 v < 2 ^ 31.
Proof. unfold i32. pose proof (Z.mod_pos_bound (v + 2 ^ 31) (2 ^ 32) ltac:(lia)). lia. Qed.
Lemma i64_range v : - 2 ^ 63 ≤ i64 v < 2 ^ 63.
Proof. unfold i64. pose proof (Z.mod_pos_bound (v + 2 ^ 63) (2 ^ 64) ltac:(lia)). lia. Qed.

Section Conversion.
Context {U : Type} (callback : U → Z → U).
Implicit Types o : out U.

Lemma string_all_eq s width count o :
  0 ≤ count → width = 0 ∨ count < width →
  let s' := if width =? 0 then s else take (Z.to_nat (width - count)) s in
  string_all callback s width count o = (count + Z.of_nat (length s'), emit callback s' o).
Proof.
  revert count o. induction s as [|c s IH]; intros count o Hc Hw; cbv zeta.
  - rewrite take_nil. destruct (width =? 0); simpl; by rewrite Z.add_0_r.
  - simpl. destruct (Z.eqb_spec width 0) as [E|Hne]; simpl.
    + rewrite IH by lia. destruct (Z.eqb_spec width 0); [|lia]. simpl. f_equal. lia.
    + destruct (Z.eqb_spec (count + 1) width) as [E|].
      * by replace (Z.to_nat (width - count)) with 1%nat by lia.
      * rewrite IH by lia. destruct (Z.eqb_spec width 0); [lia|].
        replace (Z.to_nat (width - count)) with (S (Z.to_nat (width - (count + 1)))) by lia. simpl. f_equal. lia.
Qed.

Lemma string_chars_eq s width precision count o :
  0 ≤ count → width = 0 ∨ count < width → 0 ≤ precision →
  string_chars callback s width precision count o = string_all callback (take (Z.to_nat precision) s) width count o.
Proof.
  revert precision count o. induction s as [|c s IH]; intros precision count o Hc Hw Hp; simpl; [by rewrite take_nil|].
  destruct (Z.ltb_spec 0 precision).
  - replace (Z.to_nat precision) with (S (Z.to_nat (precision - 1))) by lia. simpl.
    destruct (negb (width =? 0) && (count + 1 =? width)) eqn:E; [done|]. apply IH; [lia| |lia].
    destruct (Z.eqb_spec width 0), (Z.eqb_spec (count + 1) width); simpl in E; (done || lia).
  - by replace (Z.to_nat precision) with O by lia.
Qed.

Lemma pad_string_eq fuel count width o :
  (Z.to_nat (width - count) < fuel)%nat →
  pad_string callback fuel count width o = Done (emit callback (replicate (Z.to_nat (width - count)) 32) o).
Proof.
  revert count o. induction fuel as [|fuel IH]; intros count o Hf; [lia|]. simpl. destruct (Z.ltb_spec count width).
  - rewrite IH by lia. by replace (Z.to_nat (width - count)) with (S (Z.to_nat (width - (count + 1)))) by lia.
  - by replace (Z.to_nat (width - count)) with O by lia.
Qed.

(** The specification a conversion gets. *)
Record spec_ok (limit c : Z) (x : spec) : Prop := {
  sk_width : 0 ≤ arg_width x ≤ limit;
  sk_limit : limit < 2 ^ 31;
  sk_align : align x = 0 ∨ align x = 1;
  sk_precision : decimal c = true → -1 ≤ precision x ≤ 100
}.

Lemma convert_string fuel limit x s args o :
  spec_ok limit 115 x → (Z.to_nat limit + 128 ≤ fuel)%nat → big x = 0 →
  convert callback fuel 115 x (VStr s :: args) o =
  Done (Next args (emit callback (string_field (default null_string s) (arg_width x) (precision x)) o)).
Proof.
  intros [W L _ P] Hf Hb. unfold convert. simpl. rewrite Hb. simpl. unfold string_field.
  set (l := default null_string s).
  assert (E : (if 0 <=? precision x then string_chars callback l (arg_width x) (precision x) 0 o
     else string_all callback l (arg_width x) 0 o) =
     string_all callback (if 0 <=? precision x then take (Z.to_nat (precision x)) l else l) (arg_width x) 0 o).
  { destruct (Z.leb_spec 0 (precision x)); [apply string_chars_eq; lia|done]. }
  rewrite E, string_all_eq by lia. rewrite Z.sub_0_r. simpl. set (l' := if arg_width x =? 0 then _ else _).
  rewrite pad_string_eq by lia. osimpl. rewrite emit_app. do 5 f_equal. lia.
Qed.

Lemma take_unsigned big args v args' :
  take_number false big args = Some (v, args') → va_unsigned big args = Done (v, args') ∧ 0 ≤ v < 2 ^ 64.
Proof.
  unfold take_number, va_unsigned. destruct args as [|[w|w|] args]; try done; destruct (big =? 0); intros; simplify_eq.
  - simpl. rewrite u32_i32. split; [done|]. pose proof (Z.mod_pos_bound w (2 ^ 32) ltac:(lia)). unfold u32. lia.
  - split; [done|]. apply Z.mod_pos_bound. lia.
Qed.

Lemma take_signed big args v args' :
  take_number true big args = Some (v, args') → va_signed big args = Done (v, args') ∧ - 2 ^ 63 ≤ v < 2 ^ 63.
Proof.
  unfold take_number, va_signed. destruct args as [|[w|w|] args]; try done; destruct (big =? 0); intros; simplify_eq.
  - pose proof (i32_range w). split; [done|lia].
  - split; [done|apply i64_range].
Qed.

Lemma convert_signed fuel limit c x args v args' o :
  spec_ok limit c x → decimal c = true → (Z.to_nat limit + 128 ≤ fuel)%nat → take_number true (big x) args = Some (v, args') →
  ('(v, args) ← va_signed (big x) args;
    let '(v, o) :=
      if v <? 0 then (i64 (- v), OUT callback 45 o)
      else (v, if negb (always_sign x =? 0) then OUT callback (if always_sign x =? 2 then 32 else 43) o else o) in
    o ← print_dec callback fuel (u64 v) (arg_width x) (fill_zero x) (align x =? 1) (precision x) o;
    Done (Next args o)) = Done (Next args' (emit callback (signed_field v x) o)).
Proof.
  intros [W L A P] Hc Hf Hv. specialize (P Hc). destruct (take_signed _ _ _ _ Hv) as [-> Hr]. osimpl. unfold signed_field. rewrite emit_app.
  destruct (Z.ltb_spec v 0).
  - rewrite u64_i64, (u64_small (- v)), print_dec_eq by lia. osimpl. by rewrite Z.abs_neq by lia.
  - rewrite u64_small, print_dec_eq by lia. osimpl. rewrite Z.abs_eq by lia. by destruct (always_sign x =? 0).
Qed.

Lemma convert_hex fuel limit x c k args v args' o :
  spec_ok limit k x → (Z.to_nat limit + 128 ≤ fuel)%nat → take_number false (big x) args = Some (v, args') →
  ('(v, args) ← va_unsigned (big x) args;
    o ← print_hex callback fuel v (arg_width x) (fill_zero x) (alt x) c (align x) o;
    Done (Next args o)) = Done (Next args' (emit callback (hex_field v (arg_width x) (fill_zero x) (alt x) c (align x)) o)).
Proof.
  intros [W L A P] Hf Hv. destruct (take_unsigned _ _ _ _ Hv) as [-> Hr]. osimpl. by rewrite print_hex_eq by lia.
Qed.

Lemma convert_eq fuel limit c x args l args' o :
  spec_ok limit c x → (Z.to_nat limit + 128 ≤ fuel)%nat → c ∈ conversions → (c = 115 → big x = 0) →
  conversion_bytes c x args = Some (l, args') →
  convert callback fuel c x args o = Done (Next args' (emit callback l o)).
Proof.
  intros K Hf Hc Hb E. unfold conversions in Hc. repeat (apply elem_of_cons in Hc as [->|Hc]); [..|by apply elem_of_nil in Hc].
  - unfold conversion_bytes in E. simpl in E. destruct args as [|[| |s] args]; try done. simplify_eq.
    by apply (convert_string fuel limit); auto.
  - unfold conversion_bytes in E. simpl in E. destruct args as [|[v| |] args]; try done. by simplify_eq.
  - unfold conversion_bytes in E. simpl in E. destruct (take_number false 2 args) as [[v as']|] eqn:T; [|done]. simpl in E. simplify_eq.
    unfold convert. simpl. apply (convert_hex fuel limit (with_big 2 (with_alt x)) false 112); [|done|done]. by destruct K.
  - unfold conversion_bytes in E. simpl in E. destruct (take_number false (big x) args) as [[v as']|] eqn:T; [|done]. simpl in E. simplify_eq.
    unfold convert. simpl. by apply (convert_hex fuel limit x true 88).
  - unfold conversion_bytes in E. simpl in E. destruct (take_number false (big x) args) as [[v as']|] eqn:T; [|done]. simpl in E. simplify_eq.
    unfold convert. simpl. by apply (convert_hex fuel limit x false 120).
  - unfold conversion_bytes in E. simpl in E. destruct (take_number true (big x) args) as [[v as']|] eqn:T; [|done]. simpl in E. simplify_eq.
    unfold convert. simpl. by apply (convert_signed fuel limit 105 x).
  - unfold conversion_bytes in E. simpl in E. destruct (take_number true (big x) args) as [[v as']|] eqn:T; [|done]. simpl in E. simplify_eq.
    unfold convert. simpl. by apply (convert_signed fuel limit 100 x).
  - unfold conversion_bytes in E. simpl in E. destruct (take_number false (big x) args) as [[v as']|] eqn:T; [|done]. simpl in E. simplify_eq.
    unfold convert. simpl. destruct (take_unsigned _ _ _ _ T) as [-> Hr]. osimpl. destruct K as [? ? ? P]. specialize (P eq_refl). by rewrite print_dec_eq by lia.
  - unfold conversion_bytes in E. simpl in E. by simplify_eq.
Qed.
End Conversion.

Section Format.
Context {U : Type} (callback : U → Z → U).
Implicit Types o : out U.

(** What the flags leave. *)
Record flags_ok (x : spec) : Prop := {
  fk_width : 0 ≤ arg_width x < 2 ^ 32;
  fk_align : align x = 0 ∨ align x = 1;
  fk_precision : precision x = -1;
  fk_big : big x = 0
}.

Lemma apply_flags_ok fs x args x' args' : flags_ok x → apply_flags fs x args = Some (x', args') → flags_ok x'.
Proof.
  revert x args. induction fs as [|f fs IH]; intros x args H E; simpl in E; [by simplify_eq|]. destruct H as [W A P B].
  repeat case_match; try done; (eapply IH; [|exact E]; split; simpl; auto; apply Z.mod_pos_bound; lia).
Qed.

Lemma rendered_head len c l p (P : Z → Prop) :
  c ∈ conversions → ¬ P 46 → (∀ k, k ∈ modifiers → ¬ P k) → (∀ c, c ∈ conversions → ¬ P c) → ¬ P (head_char (render_precision p ++ tail_of len c l)).
Proof. intros Hc H1 H2 H3. destruct p as [[n|]|]; [done|done|]. by apply tail_not. Qed.

Lemma modifier_chars c (P : Z → Prop) : Forall (λ c, ¬ P c) modifiers → c ∈ modifiers → ¬ P c.
Proof. intros H Hc. rewrite Forall_forall in H. by apply H. Qed.

Lemma conversion_chars c (P : Z → Prop) : Forall (λ c, ¬ P c) conversions → c ∈ conversions → ¬ P c.
Proof. intros H Hc. rewrite Forall_forall in H. by apply H. Qed.

Lemma conversion_eq fuel limit fmt f flags width prec len c l args bs args' o :
  rest_at fmt f (flags ++ numeral width ++ render_precision prec ++ tail_of len c l) →
  valid (Conv flags width prec len c) → 0 ≤ limit < 2 ^ 31 → (length fmt + Z.to_nat limit + 128 ≤ fuel)%nat →
  meaning limit (Conv flags width prec len c) args = Some (bs, args') →
  ∃ f', conversion callback fuel fmt f args o = Done (f', Next args' (emit callback bs o)) ∧ rest_at fmt (f' + 1) l.
Proof.
  intros H (Hfl & Hw & Hp & Hc & Hs) Hlim Hf E. simpl in E.
  destruct (apply_flags flags fresh_spec args) as [[x0 as0]|] eqn:E0; [|done]. simpl in E.
  assert (K0 : flags_ok x0) by (eapply apply_flags_ok; [|exact E0]; split; simpl; auto; lia). destruct K0 as [W0 A0 P0 B0].
  assert (Hlen0 : (length flags ≤ length fmt)%nat).
  { destruct H as (Hf0 & Hd & _). apply (f_equal length) in Hd. rewrite length_drop, length_app in Hd. lia. }
  destruct (numeral_digits width) as (ds & En & Hds & Hdl & Hdn). specialize (Hdn ltac:(lia)).
  pose proof (numeral_width_bound width ltac:(lia)) as Hnw.
  assert (Hh : head_char (numeral width ++ render_precision prec ++ tail_of len c l) ∉ flag_chars).
  { destruct (decide (width = 0)) as [->|].
    - apply (rendered_head _ _ _ _ (λ c, c ∈ flag_chars)); [done|by vm_compute; set_solver|..]; intros k;
        [apply (modifier_chars k (λ c, c ∈ flag_chars))|apply (conversion_chars k (λ c, c ∈ flag_chars))];
        unfold conversions, modifiers, flag_chars; repeat constructor; set_solver.
    - destruct (numeral_head width (render_precision prec ++ tail_of len c l) ltac:(lia)) as (d & l' & -> & Hd).
      unfold head_char, flag_chars. simpl. set_unfold. lia. }
  unfold conversion. rewrite (flags_loop_eq fuel fmt f flags _ _ _ _ _ H Hfl Hh ltac:(lia) E0). osimpl.
  apply rest_app in H. set (f1 := f + Z.of_nat (length flags)) in *. rewrite En in H.
  assert (Hd : is_digit (head_char (render_precision prec ++ tail_of len c l)) = false).
  { apply not_true_iff_false, (rendered_head _ _ _ _ (λ c, is_digit c = true)); [done|done|..]; intros k;
      [apply (modifier_chars k (λ c, is_digit c = true))|apply (conversion_chars k (λ c, is_digit c = true))];
      unfold conversions, modifiers; by repeat constructor. }
  rewrite (width_loop_eq fuel fmt f1 ds _ (arg_width x0) H Hds Hd ltac:(lia) W0). osimpl. rewrite Hdl, Hdn.
  apply rest_app in H. rewrite length_fmap, Hdl in H. set (f2 := f1 + Z.of_nat (numeral_width 10 width)) in *.
  set (x1 := with_arg_width (u32 (arg_width x0 * 10 ^ Z.of_nat (numeral_width 10 width) + width)) x0).
  assert (Ex : (if width =? 0 then x0 else with_arg_width (u32 (u32 (arg_width x0 * 10 ^ Z.of_nat (numeral_width 10 width)) + width)) x0) = x1).
  { unfold x1. destruct (Z.eqb_spec width 0) as [->|].
    - simpl. rewrite Z.mul_1_r, Z.add_0_r, u32_small by done. by destruct x0.
    - f_equal. unfold u32. by rewrite Zplus_mod_idemp_l. }
  rewrite Ex in E. destruct (apply_precision prec x1 as0) as [[x2 as2]|] eqn:E2; [|done]. simpl in E.
  rewrite (precision_part_eq fuel fmt f2 prec len c l x1 as0 x2 as2 H Hc Hp ltac:(lia) E2). osimpl. apply rest_app in H.
  set (f3 := f2 + Z.of_nat (length (render_precision prec))) in *.
  rewrite (length_part_eq fmt f3 len c l x2 H Hc). osimpl. unfold tail_of in H. apply rest_app in H.
  apply rest_cons in H as [Hat H]. set (x3 := with_length len x2) in *. rewrite Hat. osimpl.
  destruct ((arg_width x3 <=? limit) && (negb (decimal c) || (-1 <=? precision x3) && (precision x3 <=? 100))) eqn:Eb; [|done].
  apply andb_true_iff in Eb as [B1%Z.leb_le B2].
  assert (X2 : arg_width x2 = arg_width x1 ∧ align x2 = align x1 ∧ big x2 = big x1).
  { destruct prec as [[n|]|]; simpl in E2; [by simplify_eq|destruct as0 as [|[v| |] as0]; by simplify_eq|by simplify_eq]. }
  destruct X2 as (X2w & X2a & X2b).
  assert (X3 : arg_width x3 = arg_width x1 ∧ align x3 = align x1) by (unfold x3; by destruct len). destruct X3 as [X3w X3a].
  assert (0 ≤ arg_width x1) by (apply Z.mod_pos_bound; lia).
  exists (f3 + Z.of_nat (length (length_chars len))). rewrite (convert_eq callback fuel limit c x3 as2 bs args'); [done| |lia|done| |done].
  - split; [lia|lia|by rewrite X3a|]. intros Hd'. rewrite Hd' in B2. simpl in B2. lia.
  - intros ->. unfold x3. rewrite (Hs eq_refl). simpl. by rewrite X2b.
Qed.

(** A format and its arguments, directive by directive. *)
Lemma format_loop_eq n fuel limit fmt f ds args bs args' o :
  rest_at fmt f (ds ≫= render) → Forall valid ds → 0 ≤ limit < 2 ^ 31 → (length fmt + Z.to_nat limit + 128 ≤ fuel)%nat →
  (length ds < n)%nat → meanings limit ds args = Some (bs, args') →
  format_loop callback n fuel fmt f args o = Done (emit callback bs o).
Proof.
  intros H Hv Hlim Hf. revert n f args bs o H. induction Hv as [|d ds Hd Hds IH]; intros n f args bs o H Hn E; (destruct n as [|n]; [simpl in Hn; lia|]).
  - simpl in *. simplify_eq. by rewrite (rest_nil _ _ H).
  - simpl in E. destruct (meaning limit d args) as [[l1 as1]|] eqn:E1; [|done]. cbn -[meanings] in E.
    destruct (meanings limit ds as1) as [[l2 as2]|] eqn:E2; [|done]. simpl in E. simplify_eq. rewrite emit_app.
    simpl in Hn. destruct d as [c|flags width prec len c].
    + simpl in H. apply rest_cons in H as [Hat H]. destruct Hd as [Hc0 Hc]. simpl in E1. simplify_eq. cbn [format_loop]. rewrite Hat. osimpl.
      destruct (Z.eqb_spec c 0); [done|]. destruct (Z.eqb_spec c 37); [done|]. simpl. apply (IH n (f + 1) as1); auto; lia.
    + rewrite bind_cons in H. simpl in H. apply rest_cons in H as [Hat H].
      rewrite <-!app_assoc in H. change (length_chars len ++ [c] ++ (ds ≫= render)) with (tail_of len c (ds ≫= render)) in H.
      destruct (conversion_eq fuel limit fmt (f + 1) flags width prec len c _ args l1 as1 o H Hd Hlim Hf E1) as (f' & Ec & Hr).
      cbn [format_loop]. rewrite Hat. osimpl. cbn -[conversion format_loop]. rewrite Ec. osimpl. apply (IH n (f' + 1) as1); auto; lia.
Qed.

Lemma render_length ds : (length ds ≤ length (ds ≫= render))%nat.
Proof. induction ds as [|d ds IH]; csimpl; [done|]. rewrite length_app. destruct d; simpl; lia. Qed.

(** Formatting: the callback gets, in order, the bytes each directive means for the arguments
    it takes, and the result is their number. *)
Lemma xvasprintf_done fuel limit ds args bs rest (u : U) :
  Forall valid ds → meanings limit ds args = Some (bs, rest) → 0 ≤ limit < 2 ^ 31 →
  (length (ds ≫= render) + Z.to_nat limit + 128 ≤ fuel)%nat →
  xvasprintf callback fuel (ds ≫= render) args u = Done (u64 (Z.of_nat (length bs)), fold_left callback bs u).
Proof.
  intros Hv E Hlim Hf. unfold xvasprintf.
  rewrite (format_loop_eq _ fuel limit _ 0 ds args bs rest); [|split_and!; [lia|done|lia]|done|done|done|pose proof (render_length ds); lia|done].
  by rewrite emit_eq by (simpl; lia).
Qed.
End Format.

(** ** The buffer *)

(** What [vsnprintf] leaves after the characters [l]: as many of them as fit, terminated. *)
Record buffer_holds (m : mem) (p size : Z) (l : list Z) (d : CBData) : Prop := {
  bh_str : cb_str d = p;
  bh_size : cb_size d = size;
  bh_written : written d = Z.min (Z.of_nat (length l)) (Z.max 0 (size - 1));
  bh_bytes : ∀ i c, l !! i = Some c → Z.of_nat i < written d → cb_mem d (p + Z.of_nat i) = u8 c;
  bh_end : 0 < written d → cb_mem d (p + written d) = 0;
  bh_frame : ∀ a, a < p ∨ p + written d < a ∨ written d = 0 → cb_mem d a = m a
}.

Lemma buffer_step m p size l d c :
  0 ≤ size < 2 ^ 64 → buffer_holds m p size l d → buffer_holds m p size (l ++ [c]) (cb_sprintf d c).
Proof.
  intros Hs [Hp Hz Hw Hb He Hf]. unfold cb_sprintf. rewrite Hp, Hz. rewrite u64_small by lia.
  destruct (Z.ltb_spec (written d + 1) size) as [Hlt|Hge].
  - assert (Hwl : written d = Z.of_nat (length l)) by lia. split; simpl; auto.
    + rewrite length_app. simpl. lia.
    + intros i c' Hi Hlt'. destruct (decide (i < length l)%nat) as [Hil|Hil].
      * rewrite lookup_app_l in Hi by done. unfold upd; bool_cases; try lia; apply Hb; auto; lia.
      * apply lookup_app_Some in Hi as [Hi|[_ Hi]]; [apply lookup_lt_Some in Hi; lia|].
        apply list_lookup_singleton_Some in Hi as [Hi0 <-]. unfold upd; bool_cases; try lia; done.
    + intros _. unfold upd. bool_cases; lia.
    + intros a Ha. unfold upd. bool_cases; try lia. apply Hf. lia.
  - split; simpl; auto.
    + rewrite length_app. simpl. lia.
    + intros i c' Hi Hlt. apply Hb; [|done]. rewrite lookup_app_l in Hi by lia. done.
Qed.

Lemma buffer_fold m p size l : 0 ≤ size < 2 ^ 64 → buffer_holds m p size l (fold_left cb_sprintf l (CB m p size 0)).
Proof.
  intros Hs. induction l as [|c l IH] using rev_ind.
  - split; simpl; auto; try lia; intros i c H; by rewrite lookup_nil in H.
  - rewrite fold_left_app. simpl. by apply buffer_step.
Qed.

(** [vsnprintf] into a buffer of two bytes or more stores what fits of the output and a
    terminator behind it, writes nothing outside the buffer, and returns the length of the
    whole output. *)
Lemma vsnprintf_done fuel limit ds args bs rest m p size :
  Forall valid ds → meanings limit ds args = Some (bs, rest) → 0 ≤ limit < 2 ^ 31 →
  (length (ds ≫= render) + Z.to_nat limit + 128 ≤ fuel)%nat →
  2 ≤ size < 2 ^ 63 → Z.of_nat (length bs) < 2 ^ 31 →
  ∃ m', vsnprintf fuel m p size (ds ≫= render) args = Done (Z.of_nat (length bs), m') ∧
    let n := Z.min (Z.of_nat (length bs)) (size - 1) in
    (∀ i c, bs !! i = Some c → Z.of_nat i < n → m' (p + Z.of_nat i) = u8 c) ∧ m' (p + n) = 0 ∧
    (∀ a, a < p ∨ p + size ≤ a → m' a = m a).
Proof.
  intros Hv E Hlim Hf Hs Hl. unfold vsnprintf.
  rewrite (xvasprintf_done cb_sprintf fuel limit ds args bs rest (CB m p size 0) Hv E Hlim Hf). osimpl.
  rewrite u64_small, i32_small by lia. eexists. split; [done|].
  pose proof (buffer_fold m p size bs ltac:(lia)) as [Hp Hz Hw Hb He Hfr]. set (d := fold_left cb_sprintf bs _) in *.
  cbv zeta. unfold cb_sprintf. rewrite Hp, Hz, u64_small by lia. destruct (Z.ltb_spec (written d + 1) size) as [Hlt|Hge]; simpl.
  - split_and!.
    + intros i c Hi Hn. unfold upd; bool_cases; try lia; apply Hb; auto; lia.
    + unfold upd. bool_cases; try lia; done.
    + intros a Ha. unfold upd. bool_cases; try lia. apply Hfr. lia.
  - split_and!.
    + intros i c Hi Hn. apply Hb; [done|lia].
    + replace (Z.min _ _) with (written d) by lia. apply He. lia.
    + intros a Ha. apply Hfr. lia.
Qed.

(** Into a buffer of one byte nothing is written, not even the terminator. *)
Lemma snprintf_size_one fuel limit ds args bs rest m p size :
  Forall valid ds → meanings limit ds args = Some (bs, rest) → 0 ≤ limit < 2 ^ 31 →
  (length (ds ≫= render) + Z.to_nat limit + 128 ≤ fuel)%nat → 0 ≤ size ≤ 1 →
  ∃ n d, vsnprintf fuel m p size (ds ≫= render) args = Done (n, d) ∧ ∀ a, d a = m a.
Proof.
  intros Hv E Hlim Hf Hs. unfold vsnprintf.
  rewrite (xvasprintf_done cb_sprintf fuel limit ds args bs rest (CB m p size 0) Hv E Hlim Hf). osimpl. eexists _, _. split; [done|].
  pose proof (buffer_step m p size bs _ 0 ltac:(lia) (buffer_fold m p size bs ltac:(lia))) as [_ _ Hw _ _ Hfr].
  intros a. apply Hfr. lia.
Qed.

(** ** Reading a number back *)

Lemma atoi_digits fuel m p ds v :
  (∀ i d, ds !! i = Some d → m (p + Z.of_nat i) = d + 48) → m (p + Z.of_nat (length ds)) = 0 → Forall (λ d, 0 ≤ d < 10) ds →
  (length ds < fuel)%nat → 0 ≤ v → v * 10 ^ Z.of_nat (length ds) + number 10 ds < 2 ^ 63 →
  loop fuel (λ '(c, out), if m c =? 0 then inr out else inl (c + 1, i64 (i64 (out * 10) + (i8 (m c) - 48)))) (p, v) =
  Done (v * 10 ^ Z.of_nat (length ds) + number 10 ds).
Proof.
  intros Hm He Hds. revert fuel p v Hm He. induction Hds as [|d ds Hd Hds IH]; intros fuel p v Hm He Hf Hv Hb; (destruct fuel as [|fuel]; [simpl in Hf; lia|]).
  - simpl in *. rewrite Z.add_0_r in He. rewrite He. simpl. f_equal. unfold number. simpl. lia.
  - rewrite number_cons in Hb |- *. simpl length in Hb, Hf, He |- *. rewrite Nat2Z.inj_succ, Z.pow_succ_r in Hb |- * by lia.
    pose proof (number_nonneg 10 ds ltac:(lia) Hds). pose proof (Z.pow_pos_nonneg 10 (Z.of_nat (length ds)) ltac:(lia) ltac:(lia)).
    assert (v * 10 + d < 2 ^ 63) by nia. pose proof (Hm O d eq_refl) as Hz0. rewrite Z.add_0_r in Hz0. cbn [loop]. rewrite Hz0.
    destruct (Z.eqb_spec (d + 48) 0); [lia|]. unfold i8. rewrite Z.mod_small by lia.
    replace (d + 48 + 2 ^ 7 - 2 ^ 7 - 48) with d by lia. rewrite (i64_small (v * 10)), i64_small by lia.
    rewrite IH; [|intros i e Hi; specialize (Hm (S i) e Hi); rewrite <-Hm; f_equal; lia|rewrite <-He; f_equal; lia|lia|lia|lia].
    f_equal. lia.
Qed.

(** The digits of [%d]. *)
Lemma meaning_d v : - 2 ^ 31 ≤ v < 2 ^ 31 →
  meanings 0 [Conv [] 0 None LInt 100] [VInt v] =
  Some ((if v <? 0 then [45] else []) ++ dec_digits (Nat.max (numeral_width 10 (Z.abs v)) 1) (Z.abs v), []).
Proof.
  intros Hv. cbn -[signed_field i32 numeral_width]. rewrite i32_small by lia. rewrite app_nil_r. unfold signed_field, dec_field. simpl.
  replace (0 - Nat.max (numeral_width 10 (Z.abs v)) (Pos.to_nat 1))%nat with O by lia. done.
Qed.

Lemma valid_d : Forall valid [Conv [] 0 None LInt 100].
Proof. constructor; [|done]. split_and!; try done; try lia. unfold conversions. set_solver. Qed.

(** [%d] and [atoi] are inverse: what [snprintf] prints of an [int], [atoi] reads back. *)
Theorem snprintf_atoi fuel m p size v :
  - 2 ^ 31 ≤ v < 2 ^ 31 → 23 ≤ size < 2 ^ 63 → (256 ≤ fuel)%nat →
  ∃ n m', snprintf fuel m p size [37; 100] [VInt v] = Done (n, m') ∧ atoi fuel m' p = Done v.
Proof.
  intros Hv Hs Hf. pose proof (numeral_width_bound (Z.abs v) ltac:(lia)) as Hw.
  set (k := Nat.max (numeral_width 10 (Z.abs v)) 1).
  destruct (vsnprintf_done fuel 0 [Conv [] 0 None LInt 100] [VInt v] ((if v <? 0 then [45] else []) ++ dec_digits k (Z.abs v)) []
    m p size) as (m' & E & Hb & He & _);
    [apply valid_d|by apply meaning_d|lia|simpl; lia|lia| |].
  { rewrite length_app. unfold dec_digits. rewrite length_fmap, length_digits. destruct (v <? 0); simpl; lia. }
  eexists _, m'. split; [exact E|]. fold k in Hb, He.
  assert (L : length (dec_digits k (Z.abs v)) = k) by (unfold dec_digits; by rewrite length_fmap, length_digits).
  assert (Hn : number 10 (digits 10 k (Z.abs v)) = Z.abs v).
  { apply number_digits_small; [lia|]. destruct (divisions_bound 10 64 (Z.abs v) ltac:(lia) ltac:(lia)) as [B _].
    fold (numeral_width 10 (Z.abs v)) in B. split; [lia|]. eapply Z.lt_le_trans; [exact B|]. apply Z.pow_le_mono_r; lia. }
  assert (Hr : Forall (λ d, 0 ≤ d < 10) (digits 10 k (Z.abs v))).
  { apply Forall_forall. intros d Hd. by eapply digits_range in Hd. }
  rewrite length_app, L in He, Hb. set (neg := if v <? 0 then [45] else []) in *.
  assert (Hneg : (length neg ≤ 1)%nat) by (unfold neg; destruct (v <? 0); simpl; lia).
  assert (Hdig : ∀ i d, digits 10 k (Z.abs v) !! i = Some d → m' (p + Z.of_nat (length neg) + Z.of_nat i) = d + 48).
  { intros i d Hi. pose proof (lookup_lt_Some _ _ _ Hi) as Hlt. rewrite length_digits in Hlt.
    replace (p + Z.of_nat (length neg) + Z.of_nat i) with (p + Z.of_nat (length neg + i)) by lia. rewrite (Hb _ (d + 48)); [| |lia].
    - rewrite Forall_forall in Hr. apply u8_small. pose proof (Hr d ltac:(by eapply list_elem_of_lookup_2)). lia.
    - rewrite lookup_app_r by lia. replace (length neg + i - length neg)%nat with i by lia. unfold dec_digits. by rewrite list_lookup_fmap, Hi. }
  assert (Hend : m' (p + Z.of_nat (length neg) + Z.of_nat (length (digits 10 k (Z.abs v)))) = 0).
  { rewrite length_digits. rewrite <-He. f_equal. lia. }
  pose proof (atoi_digits fuel m' (p + Z.of_nat (length neg)) (digits 10 k (Z.abs v)) 0 Hdig Hend Hr) as A.
  rewrite length_digits, Hn in A. specialize (A ltac:(lia) ltac:(lia) ltac:(lia)). rewrite Z.mul_0_l, Z.add_0_l in A.
  unfold atoi, neg in *. destruct (Z.ltb_spec v 0).
  - assert (m' p = 45) as ->. { specialize (Hb O 45 eq_refl ltac:(simpl; lia)). by rewrite Z.add_0_r in Hb. }
    change (i8 45) with 45. change (Z.of_nat (length [45])) with 1 in A. simpl. rewrite A. osimpl. f_equal. rewrite i64_small, i32_small; lia.
  - simpl in A, Hdig. rewrite Z.add_0_r in A, Hdig. assert (Hk : (0 < k)%nat) by lia.
    destruct (lookup_lt_is_Some_2 (digits 10 k (Z.abs v)) 0 ltac:(rewrite length_digits; lia)) as [d Hd].
    pose proof (Hdig O d Hd) as Hz0. rewrite Z.add_0_r in Hz0. rewrite Hz0.
    rewrite Forall_forall in Hr. pose proof (Hr d ltac:(by eapply list_elem_of_lookup_2)).
    unfold i8 at 1. rewrite Z.mod_small by lia. destruct (Z.eqb_spec (d + 48 + 2 ^ 7 - 2 ^ 7) 45); [lia|].
    rewrite A. osimpl. f_equal. rewrite i64_small, i32_small; lia.
Qed.

Lemma snprintf_atoi_witness :
  ∃ n m', snprintf 256 (λ _, 7) 4096 32 [37; 100] [VInt (- 2 ^ 31)] = Done (n, m') ∧ atoi 256 m' 4096 = Done (- 2 ^ 31).
Proof. apply (snprintf_atoi 256 (λ _, 7) 4096 32 (- 2 ^ 31)); lia. Defined.

(** ** Theorems *)

Lemma console_fold bs console : fold_left cb_printf bs console = console ++ (u8 <$> bs).
Proof. revert console. induction bs as [|c bs IH]; intros console; csimpl; [by rewrite app_nil_r|]. rewrite IH. unfold cb_printf. by rewrite <-app_assoc. Qed.

(** C21: printf implements its formats.  For every sequence of directives that have a
    [meaning] with the arguments, the console gets the bytes the directives mean, one after
    the other, and the result is their number.  A directive is a character, or one of the
    conversions s c p X x i d u % with any of the flags - # * 0 + and space, a width, a
    precision (a number or an asterisk) and one of the lengths none, l, ll, j, z and t (none
    for s, where the code gives up).  It has a meaning when the arguments are there and of
    the size asked for, its width (a negative one given for an asterisk counts as unsigned)
    is below [2 ^ 31], and, for the decimal conversions i, d and u only, its precision is at
    most 100, and not below -1 when it comes from an asterisk: [print_dec_overruns] is the
    overrun of the code's buffer above that. *)
Theorem printf_refines fuel limit ds args bs rest console :
  Forall valid ds → meanings limit ds args = Some (bs, rest) → 0 ≤ limit < 2 ^ 31 →
  (length (ds ≫= render) + Z.to_nat limit + 128 ≤ fuel)%nat →
  printf fuel console (ds ≫= render) args = Done (i32 (u64 (Z.of_nat (length bs))), console ++ (u8 <$> bs)).
Proof.
  intros Hv E Hlim Hf. unfold printf. rewrite (xvasprintf_done cb_printf fuel limit ds args bs rest console Hv E Hlim Hf). osimpl.
  by rewrite console_fold.
Qed.

(** [x=%-5d|%#06x] *)
Definition demo_format : list directive :=
  [Lit 120; Lit 61; Conv [45] 5 None LInt 100; Lit 124; Conv [35; 48] 6 None LLong 120].

Lemma demo_format_valid : Forall valid demo_format.
Proof. repeat constructor; try done; try lia; try (intros ? [=]); unfold flag_chars, conversions; set_solver. Qed.

Lemma printf_refines_witness :
  printf 256 [] (demo_format ≫= render) [VInt (-42); VWord 0xbeef] = Done (15, [120; 61; 45; 52; 50; 32; 32; 32; 124; 48; 120; 98; 101; 101; 102]).
Proof.
  refine (printf_refines 256 100 demo_format [VInt (-42); VWord 0xbeef]
    [120; 61; 45; 52; 50; 32; 32; 32; 124; 48; 120; 98; 101; 101; 102] [] [] demo_format_valid _ _ _); [vm_compute; reflexivity|lia|].
  apply Nat.leb_le. vm_compute. reflexivity.
Defined.

(** C35: snprintf stays in the buffer it is given.  For every sequence of directives that
    have a [meaning] with the arguments (as for printf: in particular the precision of a
    decimal number is at most 100, since [print_dec] overruns its own buffer above that), and
    an output shorter than [2 ^ 31]: of the output it stores what fits, and a terminator
    behind it when the buffer has two bytes or more; it writes nothing outside the buffer
    and returns the length of the whole output.  A buffer of at most one byte is left as it
    is, without a terminator. *)
Theorem snprintf_bounded fuel limit ds args bs rest m p size :
  Forall valid ds → meanings limit ds args = Some (bs, rest) → 0 ≤ limit < 2 ^ 31 →
  (length (ds ≫= render) + Z.to_nat limit + 128 ≤ fuel)%nat →
  0 ≤ size < 2 ^ 63 → Z.of_nat (length bs) < 2 ^ 31 →
  ∃ m', snprintf fuel m p size (ds ≫= render) args = Done (Z.of_nat (length bs), m') ∧
    (∀ a, a < p ∨ p + size ≤ a → m' a = m a) ∧
    if decide (2 ≤ size) then
      let n := Z.min (Z.of_nat (length bs)) (size - 1) in
      (∀ i c, bs !! i = Some c → Z.of_nat i < n → m' (p + Z.of_nat i) = u8 c) ∧ m' (p + n) = 0
    else ∀ a, m' a = m a.
Proof.
  intros Hv E Hlim Hf Hs Hl. change (snprintf fuel m p size) with (vsnprintf fuel m p size). destruct (decide (2 ≤ size)).
  - destruct (vsnprintf_done fuel limit ds args bs rest m p size Hv E Hlim Hf ltac:(lia) Hl) as (m' & -> & H1 & H2 & H3). by exists m'.
  - destruct (snprintf_size_one fuel limit ds args bs rest m p size Hv E Hlim Hf ltac:(lia)) as (n' & m' & E' & H).
    exists m'. split; [|split; [auto|done]]. rewrite E'. do 2 f_equal. revert E'. unfold vsnprintf.
    rewrite (xvasprintf_done cb_sprintf fuel limit ds args bs rest (CB m p size 0) Hv E Hlim Hf). osimpl. intros [= <- _].
    by rewrite u64_small, i32_small by lia.
Qed.

Lemma snprintf_bounded_witness :
  ∃ m', snprintf 256 (λ _, 7) 4096 8 (demo_format ≫= render) [VInt (-42); VWord 0xbeef] = Done (15, m') ∧
    (∀ a, a < 4096 ∨ 4096 + 8 ≤ a → m' a = 7) ∧ m' 4098 = 45 ∧ m' 4103 = 0.
Proof.
  destruct (snprintf_bounded 256 100 demo_format [VInt (-42); VWord 0xbeef]
    [120; 61; 45; 52; 50; 32; 32; 32; 124; 48; 120; 98; 101; 101; 102] [] (λ _, 7) 4096 8 demo_format_valid) as (m' & E & Hfr & Hb & He).
  - vm_compute. reflexivity.
  - lia.
  - apply Nat.leb_le. vm_compute. reflexivity.
  - lia.
  - vm_compute. reflexivity.
  - exists m'. split; [exact E|]. split; [exact Hfr|]. split; [exact (Hb 2%nat 45 eq_refl eq_refl)|exact He].
Defined.

(** ** Where the output is not that of the standard *)

(** [%5d] of -3: the sign is not counted in the width and stands before the padding. *)
Example printf_sign_before_padding : printf 256 [] [37; 53; 100] [VInt (-3)] = Done (6, [45; 32; 32; 32; 32; 51]).
Proof. vm_compute. reflexivity. Qed.

(** [%-05d] of 5: the zeros are put behind the number. *)
Example printf_zeros_behind : printf 256 [] [37; 45; 48; 53; 100] [VInt 5] = Done (5, [53; 48; 48; 48; 48]).
Proof. vm_compute. reflexivity. Qed.

(** [%3s]: the width cuts a longer string off. *)
Example printf_width_truncates : printf 256 [] [37; 51; 115] [VStr (Some [97; 98; 99; 100])] = Done (3, [97; 98; 99]).
Proof. vm_compute. reflexivity. Qed.

(** A format that ends in a percent sign is read behind its end. *)
Example printf_percent_at_end : printf 256 [] [97; 37] [] = Fault.
Proof. vm_compute. reflexivity. Qed.
