(* ===== verification/Args.v ===== *)
(** * Boot arguments and the tokenizer ([src/kernel/misc/args.c], [src/kernel/misc/tokenize.c])

    The kernel command line is taken apart in a copy of it, in place: the ends of keys and
    values are overwritten by zero bytes, quoted values are moved together as their escapes
    are resolved.  The copies that [strdup] makes of the values are the objects of
    [strings]. *)
From S2P Require Import Prelude KString KHashmap.
Local Open Scope Z_scope.

(** ** [tokenize] *)

(** The tokens from the [argc]-th on, and the memory after them. *)
Fixpoint tokenize_loop (n fuel : nat) (m : mem) (pch_i sep save_i : Z) : outcome (mem * list Z) :=
  match n with
  | O => Timeout
  | S n =>
      if pch_i =? NULL then Done (m, [])
      else
        '(m, pch, save) ← strtok_r fuel m NULL sep save_i;
        '(m, buf) ← tokenize_loop n fuel m pch sep save;
        Done (m, pch_i :: buf)
  end.

(** The memory, what [buf] is filled with, and [argc]; [buf] is left as it was when there is
    no token. *)
Definition tokenize (fuel : nat) (m : mem) (str sep save_i : Z) : outcome (mem * list Z * Z) :=
  '(m, pch_i, save_i) ← strtok_r fuel m str sep save_i;
  if pch_i =? NULL then Done (m, [], 0)
  else
    '(m, toks) ← tokenize_loop fuel fuel m pch_i sep save_i;
    Done (m, toks ++ [NULL], Z.of_nat (length toks)).

(** ** Boot arguments *)

Record args_state : Type := Args {
  args_mem : mem;
  kernel_args_map : option (hashmap_t (list Z));
  strings : gmap Z (list Z)
}.

Definition args_present (st : args_state) (karg : list Z) : outcome Z :=
  match kernel_args_map st with None => Done 0 | Some h => hashmap_has h karg end.
Definition args_value (st : args_state) (karg : list Z) : outcome Z :=
  match kernel_args_map st with None => Done 0 | Some h => hashmap_get h karg end.

(** The string at an address. *)
Fixpoint read_string (fuel : nat) (m : mem) (p : Z) : outcome (list Z) :=
  match fuel with
  | O => Timeout
  | S f => if m p =? 0 then Done [] else s ← read_string f m (p + 1); Done (m p :: s)
  end.

(** [while ( *x && *x == ' ') x++], and the ends of a key and of a value. *)
Definition scan (stop : Z → bool) (fuel : nat) (m : mem) (x : Z) : outcome Z :=
  loop fuel (λ x, if negb (m x =? 0) && negb (stop (m x)) then inl (x + 1) else inr x) x.
Definition skip_spaces : nat → mem → Z → outcome Z := scan (λ c, negb (c =? 32)).
Definition key_end : nat → mem → Z → outcome Z := scan (λ c, (c =? 61) || (c =? 32)).
Definition value_end : nat → mem → Z → outcome Z := scan (λ c, c =? 32).

(** The loop over a quoted value: [None] is the jump to [_parse_error]. *)
Definition quoted_value (fuel : nat) (m : mem) (x w : Z) : outcome (option (mem * Z * Z)) :=
  loop fuel (λ '(m, x, w),
    if (m x =? 0) || (m x =? 34) then inr (Some (m, x, w))
    else if m x =? 92 then
      let x := x + 1 in
      if m x =? 34 then inl (upd m w 34, x + 1, w + 1)
      else if m x =? 92 then inl (upd m w 92, x + 1, w + 1)
      else if m x =? 0 then inr None
      else let m := upd m w 92 in inl (upd m (w + 1) (m x), x + 1, w + 2)
    else inl (upd m w (m x), x + 1, w + 1)) (m, x, w).

(** One round of the loop: the end, an error, or a key, its value and the place behind. *)
Inductive parsed : Type := End | Error | Parsed (m : mem) (key value x : Z).

Definition parse_value (fuel : nat) (m : mem) (key x : Z) : outcome parsed :=
  if m x =? 34 then
    let x := x + 1 in
    let value := x in
    r ← quoted_value fuel m x x;
    match r with
    | None => Done Error
    | Some (m, x, w) => if m x =? 34 then Done (Parsed (upd m w 0) key value (x + 1)) else Done Error
    end
  else
    let value := x in
    x ← value_end fuel m x;
    if m x =? 32 then Done (Parsed (upd m x 0) key value (x + 1)) else Done (Parsed m key value x).

Definition parse_arg (fuel : nat) (m : mem) (x : Z) : outcome parsed :=
  x ← skip_spaces fuel m x;
  if m x =? 0 then Done End
  else
    let key := x in
    x ← key_end fuel m x;
    if m x =? 61 then parse_value fuel (upd m x 0) key (x + 1)
    else if m x =? 32 then Done (Parsed (upd m x 0) key NULL (x + 1))
    else Done (Parsed m key NULL x).

Section Args.
Context `{!Malloc}.

(** [hashmap_set(kernel_args_map, key, value ? strdup(value) : NULL)] *)
Definition set_arg (fuel : nat) (st : args_state) (m : mem) (key value : Z) : outcome args_state :=
  k ← read_string fuel m key;
  h ← of_option (kernel_args_map st);
  if value =? NULL then
    '(_, h) ← hashmap_set h k NULL;
    Done (Args m (Some h) (strings st))
  else
    s ← read_string fuel m value;
    let p := malloc (dom (strings st)) in
    '(_, h) ← hashmap_set h k p;
    Done (Args m (Some h) (<[p := s]> (strings st))).

Fixpoint args_loop (n fuel : nat) (st : args_state) (x : Z) : outcome args_state :=
  match n with
  | O => Timeout
  | S n =>
      r ← parse_arg fuel (args_mem st) x;
      match r with
      | End | Error => Done st
      | Parsed m key value x => st ← set_arg fuel st m key value; args_loop n fuel st x
      end
  end.

(** [argbuf] is the block that [strdup] copies the command line to. *)
Definition args_parse (fuel : nat) (st : args_state) (argbuf cmdline : Z) : outcome args_state :=
  if cmdline =? NULL then Done st
  else
    let h := match kernel_args_map st with None => hashmap_create 10 | Some h => h end in
    m ← strdup fuel (args_mem st) argbuf cmdline;
    args_loop fuel fuel (Args m (Some h) (strings st)) argbuf.
End Args.

(** ** Strings in memory *)

Lemma read_string_cstr fuel m p s : cstr m p s → (length s < fuel)%nat → read_string fuel m p = Done s.
Proof.
  revert fuel p. induction s as [|c s IH]; intros [|fuel] p H Hf; simpl in *; try lia; [by rewrite H|].
  destruct H as (-> & Hc & H). destruct (Z.eqb_spec c 0); [done|]. by rewrite (IH fuel (p + 1)) by (done || lia).
Qed.

Lemma cstr_intro m p s :
  (∀ i c, s !! i = Some c → m (p + Z.of_nat i) = c ∧ c ≠ 0) → m (p + Z.of_nat (length s)) = 0 → cstr m p s.
Proof.
  revert p. induction s as [|c s IH]; intros p H He; simpl in *; [by rewrite Z.add_0_r in He|].
  destruct (H 0%nat c eq_refl) as [H1 H2]. rewrite Z.add_0_r in H1. split_and!; [done|done|]. apply IH.
  - intros i d Hi. destruct (H (S i) d Hi) as [<- ?]. split; [f_equal; lia|done].
  - rewrite <-He. f_equal. lia.
Qed.

(** A scan stops at the first character that it looks for, or at the end. *)
Lemma scan_cstr stop fuel m x s1 s2 :
  cstr m x (s1 ++ s2) → Forall (λ c, stop c = false) s1 → (∀ c, head s2 = Some c → stop c = true) → (length s1 < fuel)%nat →
  scan stop fuel m x = Done (x + Z.of_nat (length s1)).
Proof.
  intros H Hs He. revert fuel x H. unfold scan. induction Hs as [|c s1 Hc Hs IH]; intros fuel x H Hf; (destruct fuel as [|fuel]; [simpl in Hf; lia|]); simpl.
  - rewrite Z.add_0_r. destruct s2 as [|c s2]; simpl in H; [by rewrite H|]. destruct H as (-> & Hc & _).
    by rewrite (He c eq_refl), andb_false_r.
  - simpl in H, Hf. destruct H as (-> & H0 & H). destruct (Z.eqb_spec c 0); [done|]. rewrite Hc. simpl. rewrite IH by (done || lia). f_equal. lia.
Qed.

Lemma cstr_split m x s1 s2 : cstr m x (s1 ++ s2) → cstr m (x + Z.of_nat (length s1)) s2.
Proof. apply cstr_app. Qed.

(** A byte overwritten in front of a string or in its middle. *)
Lemma cstr_upd_before m x s a v : cstr m x s → a < x → cstr (upd m a v) x s.
Proof. intros H Ha. apply (cstr_frame m); [done|]. intros y Hy. unfold upd. destruct (Z.eqb_spec y a); [lia|done]. Qed.
Lemma cstr_upd_cut m x s1 s2 : cstr m x (s1 ++ s2) → cstr (upd m (x + Z.of_nat (length s1)) 0) x s1.
Proof.
  intros H. apply (cstr_cut m _ x s1 s2 H).
  - intros y Hy. unfold upd. destruct (Z.eqb_spec y (x + Z.of_nat (length s1))); [lia|done].
  - unfold upd. by rewrite Z.eqb_refl.
Qed.

(** ** Command lines *)

(** An argument without a value, with a plain one, with a quoted one. *)
Inductive karg : Type := Flag (k : list Z) | Plain (k v : list Z) | Quoted (k v : list Z).

Definition escape_char (c : Z) : list Z := if (c =? 34) || (c =? 92) then [92; c] else [c].
Definition escape (v : list Z) : list Z := v ≫= escape_char.

Definition render (a : karg) : list Z :=
  match a with
  | Flag k => k
  | Plain k v => k ++ 61 :: v
  | Quoted k v => k ++ 61 :: 34 :: escape v ++ [34]
  end.
Definition arg_key (a : karg) : list Z := match a with Flag k | Plain k _ | Quoted k _ => k end.
Definition arg_value (a : karg) : option (list Z) := match a with Flag _ => None | Plain _ v | Quoted _ v => Some v end.

(** A key has neither spaces nor equals signs, and an argument is not empty; a plain value
    has no spaces and does not begin with a quote. *)
Definition key_char (c : Z) : Prop := 0 < c < 256 ∧ c ≠ 32 ∧ c ≠ 61.
Definition valid_arg (a : karg) : Prop :=
  Forall key_char (arg_key a) ∧
  match a with
  | Flag k => k ≠ []
  | Plain _ v => Forall (λ c, 0 < c < 256 ∧ c ≠ 32) v ∧ head v ≠ Some 34
  | Quoted _ v => Forall (λ c, 0 < c < 256) v
  end.

(** Arguments, each behind one space and some more, and spaces at the end. *)
Fixpoint spaced (args : list (nat * karg)) (trail : nat) : list Z :=
  match args with
  | [] => replicate trail 32
  | (n, a) :: args => replicate (S n) 32 ++ render a ++ spaced args trail
  end.

(** The rest of the line behind [j] spaces. *)
Definition behind (j : nat) (args : list (nat * karg)) (trail : nat) : list Z :=
  match args with
  | [] => replicate j 32
  | (_, a) :: args => replicate j 32 ++ render a ++ spaced args trail
  end.

Lemma spaced_behind args trail : ∃ j, spaced args trail = behind j args trail ∧
  (spaced args trail = [] ∨ ∃ j', spaced args trail = 32 :: behind j' args trail).
Proof.
  destruct args as [|[n a] args]; simpl.
  - exists trail. split; [done|]. destruct trail as [|t]; [by left|right]. by exists t.
  - exists (S n). split; [done|]. right. by exists n.
Qed.

(** *** Quoted values *)

Lemma escape_cons c v : escape (c :: v) = escape_char c ++ escape v.
Proof. done. Qed.

Lemma length_escape v : (length v ≤ length (escape v))%nat.
Proof. induction v as [|c v IH]; [done|]. rewrite escape_cons, length_app. unfold escape_char. destruct (_ || _); simpl; lia. Qed.

(** One character of a quoted value. *)
Lemma quoted_step fuel m c v R x w :
  cstr m x (escape (c :: v) ++ 34 :: R) → c ≠ 0 → w ≤ x →
  let x' := x + Z.of_nat (length (escape_char c)) in
  quoted_value (S fuel) m x w = quoted_value fuel (upd m w c) x' (w + 1) ∧ cstr (upd m w c) x' (escape v ++ 34 :: R) ∧ w + 1 ≤ x'.
Proof.
  intros H Hc Hw. rewrite escape_cons, <-app_assoc in H. unfold escape_char in *. cbv zeta. unfold quoted_value. cbn [loop].
  destruct ((c =? 34) || (c =? 92)) eqn:Ec; simpl in H.
  - destruct H as (H1 & _ & H2 & _ & H). split_and!; [| |simpl; lia].
    + rewrite H1. simpl. rewrite H2. apply orb_true_iff in Ec as [->%Z.eqb_eq| ->%Z.eqb_eq]; simpl.
      * by replace (x + 1 + 1) with (x + 2) by lia.
      * by replace (x + 1 + 1) with (x + 2) by lia.
    + simpl length. replace (x + Z.of_nat 2) with (x + 1 + 1) by lia. apply cstr_upd_before; [exact H|lia].
  - destruct H as (H1 & _ & H). apply orb_false_iff in Ec as [E1 E2]. split_and!; [|apply cstr_upd_before; [done|simpl; lia]|simpl; lia].
    rewrite H1, E1, E2. simpl. destruct (Z.eqb_spec c 0); done.
Qed.

Lemma quoted_value_cstr fuel m v R x w :
  cstr m x (escape v ++ 34 :: R) → Forall (λ c, 0 < c < 256) v → w ≤ x → (length v < fuel)%nat →
  ∃ m', quoted_value fuel m x w = Done (Some (m', x + Z.of_nat (length (escape v)), w + Z.of_nat (length v))) ∧
    (∀ i c, v !! i = Some c → m' (w + Z.of_nat i) = c) ∧
    (∀ a, a < w ∨ w + Z.of_nat (length v) ≤ a → m' a = m a).
Proof.
  intros H Hv. revert fuel m x w H. induction Hv as [|c v Hc Hv IH]; intros fuel m x w H Hw Hf; (destruct fuel as [|fuel]; [simpl in Hf; lia|]).
  - simpl in H. destruct H as (Hx & _ & _). unfold quoted_value. simpl. rewrite Hx. simpl. exists m. rewrite !Z.add_0_r. split_and!; [done| |done].
    intros i c Hi. by rewrite lookup_nil in Hi.
  - destruct (quoted_step fuel m c v R x w H ltac:(lia) Hw) as (-> & H' & Hw').
    destruct (IH fuel (upd m w c) _ (w + 1) H' Hw' ltac:(simpl in Hf; lia)) as (m' & E & Hb & Hfr).
    exists m'. split_and!.
    + rewrite E, escape_cons, length_app, Nat2Z.inj_add, Z.add_assoc. simpl length. by replace (w + 1 + Z.of_nat (length v)) with (w + Z.of_nat (S (length v))) by lia.
    + intros [|i] d Hi; simpl in Hi.
      * simplify_eq. rewrite Z.add_0_r, Hfr by lia. unfold upd. by rewrite Z.eqb_refl.
      * rewrite <-(Hb i d Hi). f_equal. lia.
    + intros a Ha. simpl length in Ha. rewrite Hfr by lia. unfold upd. destruct (Z.eqb_spec a w); [lia|done].
Qed.

(** *** One argument *)

Lemma cstr_upd_after m x s a v : cstr m x s → x + Z.of_nat (length s) < a → cstr (upd m a v) x s.
Proof. intros H Ha. apply (cstr_frame m); [done|]. intros y Hy. unfold upd. destruct (Z.eqb_spec y a); [lia|done]. Qed.

Lemma spaced_head args trail c : head (spaced args trail) = Some c → c = 32.
Proof. destruct (spaced_behind args trail) as (_ & _ & [->|[j ->]]); simpl; congruence. Qed.

Lemma cstr_spaced m x args trail :
  cstr m x (spaced args trail) →
  (m x = 0 ∧ cstr m x (behind 0 args trail) ∧ spaced args trail = []) ∨
  (m x = 32 ∧ ∃ j, cstr m (x + 1) (behind j args trail) ∧ spaced args trail = 32 :: behind j args trail).
Proof.
  destruct (spaced_behind args trail) as (j & E & [E0|[j' E1]]); intros H.
  - left. rewrite E0 in H. split_and!; [done| |done]. destruct args as [|[n a] args]; [done|by rewrite E0 in E].
  - right. rewrite E1 in H. simpl in H. destruct H as (H1 & _ & H). eauto.
Qed.

Lemma cstr_at m x s1 c s2 : cstr m x (s1 ++ c :: s2) → m (x + Z.of_nat (length s1)) = c.
Proof. intros H%cstr_hd. done. Qed.

(** The key and the value that a round finds, and where it leaves off. *)
Definition finds (m : mem) (a : karg) (args : list (nat * karg)) (trail : nat) (x : Z) (r : parsed) : Prop :=
  ∃ m' key value x' j, r = Parsed m' key value x' ∧ cstr m' key (arg_key a) ∧
    match arg_value a with Some v => value ≠ NULL ∧ cstr m' value v | None => value = NULL end ∧
    x < x' ∧ cstr m' x' (behind j args trail) ∧ (length (behind j args trail) ≤ length (spaced args trail))%nat.

Lemma if_done {A} (b : bool) (x y : A) : (if b then Done x else Done y) = Done (if b then x else y).
Proof. by destruct b. Qed.

(** The end of a flag or of a plain value. *)
Lemma word_tail m m0 a args trail x x2 key value :
  cstr m x2 (spaced args trail) → x < x2 →
  (∀ m', (∀ y, y < x2 → m' y = m y) → m' x2 = 0 → cstr m' key (arg_key a) ∧
     match arg_value a with Some v => value ≠ NULL ∧ cstr m' value v | None => value = NULL end) →
  finds m0 a args trail x (if m x2 =? 32 then Parsed (upd m x2 0) key value (x2 + 1) else Parsed m key value x2).
Proof.
  intros H Hx K. destruct (cstr_spaced m x2 args trail H) as [(H0 & Hb & E)|(H1 & j & Hb & E)].
  - rewrite H0. simpl. destruct (K m) as [K1 K2]; [done|done|]. exists m, key, value, x2, 0%nat. split_and!; auto. rewrite E.
    destruct args as [|[n b] args]; [simpl; lia|done].
  - rewrite H1. simpl. destruct (K (upd m x2 0)) as [K1 K2]; [intros y Hy; unfold upd; destruct (Z.eqb_spec y x2); [lia|done]|unfold upd; by rewrite Z.eqb_refl|].
    exists (upd m x2 0), key, value, (x2 + 1), j. split_and!; auto; [lia|apply cstr_upd_before; [done|lia]|]. rewrite E. simpl. lia.
Qed.

Lemma key_chars k : Forall key_char k → Forall (λ c, ((c =? 61) || (c =? 32)) = false) k.
Proof. intros K. eapply Forall_impl; [exact K|]. simpl. intros c (H & H1 & H2). destruct (Z.eqb_spec c 61), (Z.eqb_spec c 32); done. Qed.

Lemma parse_value_plain fuel m k v args trail x1 :
  Forall (λ c, 0 < c < 256 ∧ c ≠ 32) v → head v ≠ Some 34 → 0 < x1 →
  cstr m x1 (k ++ 61 :: v ++ spaced args trail) → (length v < fuel)%nat →
  ∃ r, parse_value fuel (upd m (x1 + Z.of_nat (length k)) 0) x1 (x1 + Z.of_nat (length k) + 1) = Done r ∧
    finds m (Plain k v) args trail x1 r.
Proof.
  intros Hv Hq Hx H Hf. set (x2 := x1 + Z.of_nat (length k)). set (m1 := upd m x2 0).
  pose proof (cstr_upd_cut _ _ _ _ H) as Hk. fold x2 m1 in Hk. apply cstr_split in H as (H1 & _ & H). fold x2 in H1, H.
  assert (H' : cstr m1 (x2 + 1) (v ++ spaced args trail)) by (apply cstr_upd_before; [done|lia]). clear H.
  assert (N : m1 (x2 + 1) =? 34 = false).
  { apply Z.eqb_neq. destruct v as [|c v]; simpl in H'.
    - destruct (cstr_spaced _ _ _ _ H') as [(-> & _)|(-> & _)]; lia.
    - destruct H' as (-> & _). simpl in Hq. congruence. }
  unfold parse_value. rewrite N. unfold value_end. rewrite (scan_cstr _ fuel m1 _ v (spaced args trail) H').
  - osimpl. rewrite if_done. eexists. split; [done|]. apply word_tail; [by apply cstr_split|lia|].
    intros m' Hm' H0. split; [|split; [unfold NULL; lia|]].
    + apply (cstr_frame m1); [done|]. intros y Hy. apply Hm'. simpl in Hy. fold x2 in Hy. lia.
    + simpl. apply (cstr_cut m1 m' (x2 + 1) v (spaced args trail) H'); [|done]. intros y Hy. apply Hm'. lia.
  - eapply Forall_impl; [exact Hv|]. simpl. intros c Hc. destruct (Z.eqb_spec c 32); [lia|done].
  - intros c Hc. by rewrite (spaced_head _ _ _ Hc).
  - done.
Qed.

Lemma parse_value_quoted fuel m k v args trail x1 :
  Forall (λ c, 0 < c < 256) v → 0 < x1 →
  cstr m x1 (k ++ 61 :: 34 :: escape v ++ 34 :: spaced args trail) → (length v < fuel)%nat →
  ∃ r, parse_value fuel (upd m (x1 + Z.of_nat (length k)) 0) x1 (x1 + Z.of_nat (length k) + 1) = Done r ∧
    finds m (Quoted k v) args trail x1 r.
Proof.
  intros Hv Hx H Hf. set (x2 := x1 + Z.of_nat (length k)). set (m1 := upd m x2 0).
  pose proof (cstr_upd_cut _ _ _ _ H) as Hk. fold x2 m1 in Hk. apply cstr_split in H as (H1 & _ & H2 & _ & H). fold x2 in H1, H2, H.
  assert (H' : cstr m1 (x2 + 1 + 1) (escape v ++ 34 :: spaced args trail)) by (apply cstr_upd_before; [done|lia]). clear H.
  assert (Q : m1 (x2 + 1) = 34) by (unfold m1, upd; destruct (Z.eqb_spec (x2 + 1) x2); [lia|done]).
  pose proof (length_escape v) as Hle. unfold parse_value. rewrite Q. simpl.
  destruct (quoted_value_cstr fuel m1 v (spaced args trail) (x2 + 1 + 1) (x2 + 1 + 1) H' Hv ltac:(lia) Hf) as (m2 & E & Hb & Hfr).
  rewrite E. osimpl. set (x5 := x2 + 1 + 1 + Z.of_nat (length (escape v))) in *. set (w5 := x2 + 1 + 1 + Z.of_nat (length v)) in *.
  assert (m2 x5 = 34) as -> by (rewrite Hfr by (unfold x5, w5; lia); by eapply (cstr_at _ _ (escape v))). simpl.
  eexists. split; [done|]. destruct (spaced_behind args trail) as (j & Ej & _).
  assert (Hlt : x1 < x5 + 1 ∧ 0 < x2) by (unfold x5, x2; lia).
  exists (upd m2 w5 0), x1, (x2 + 1 + 1), (x5 + 1), j. simpl arg_value. split_and!; [done| |unfold NULL; lia| |lia| |by rewrite Ej].
  - apply (cstr_frame m1); [done|]. intros y Hy. simpl in Hy. fold x2 in Hy. unfold upd. destruct (Z.eqb_spec y w5); [unfold w5 in *; lia|]. apply Hfr. lia.
  - simpl. apply cstr_intro.
    + intros i c Hi. pose proof (lookup_lt_Some _ _ _ Hi). rewrite Forall_lookup in Hv. pose proof (Hv i c Hi). split; [|lia].
      unfold upd. destruct (Z.eqb_spec (x2 + 1 + 1 + Z.of_nat i) w5); [unfold w5 in *; lia|]. by apply Hb.
    + unfold upd. fold w5. by rewrite Z.eqb_refl.
  - rewrite <-Ej. apply cstr_split in H' as (_ & _ & H'). fold x5 in H'. apply (cstr_frame m1); [done|]. intros y Hy.
    unfold upd. destruct (Z.eqb_spec y w5); [unfold w5, x5 in *; lia|]. apply Hfr. unfold w5, x5 in *. lia.
Qed.

Lemma parse_arg_eq fuel m x j a args trail :
  valid_arg a → 0 < x → cstr m x (replicate j 32 ++ render a ++ spaced args trail) →
  (j + length (render a) < fuel)%nat →
  ∃ r, parse_arg fuel m x = Done r ∧ finds m a args trail x r.
Proof.
  intros [Hk Ha] Hx H Hf. unfold parse_arg, skip_spaces.
  assert (Hr : ∃ c s, render a ++ spaced args trail = c :: s ∧ c ≠ 32).
  { destruct (arg_key a) as [|c k] eqn:Ek.
    - destruct a as [k|k v|k v]; simpl in Ek; subst k; [done|simpl; eauto..].
    - inversion Hk as [|? ? (_ & H32 & _) _]. destruct a as [k'|k' v|k' v]; simpl in Ek; subst k'; simpl; eauto. }
  destruct Hr as (c & s & Er & Hc). rewrite (scan_cstr _ fuel m x (replicate j 32) (render a ++ spaced args trail) H).
  2: { apply Forall_replicate. done. }
  2: { rewrite Er. intros c' [= <-]. by destruct (Z.eqb_spec c 32). }
  2: { rewrite length_replicate. lia. }
  osimpl. rewrite length_replicate. apply cstr_split in H. rewrite length_replicate in H. set (x1 := x + Z.of_nat j) in *.
  assert (N : m x1 =? 0 = false).
  { rewrite Er in H. simpl in H. destruct H as (-> & H0 & _). by destruct (Z.eqb_spec c 0). }
  rewrite N. clear N c s Er Hc. assert (Hx1 : x ≤ x1) by (unfold x1; lia).
  assert (Hmono : ∀ r, finds m a args trail x1 r → finds m a args trail x r).
  { intros r (m' & key & value & x' & j' & H1 & H2 & H3 & H4 & H5). exists m', key, value, x', j'. split_and!; try done; [lia|apply H5|apply H5]. }
  unfold key_end. apply key_chars in Hk. destruct a as [k|k v|k v]; simpl in *.
  - rewrite (scan_cstr _ fuel m x1 k (spaced args trail) H Hk); [|intros c Hc; by rewrite (spaced_head _ _ _ Hc)|lia].
    osimpl. set (x2 := x1 + Z.of_nat (length k)). pose proof (cstr_split _ _ _ _ H) as H2. fold x2 in H2.
    assert (m x2 =? 61 = false) as ->.
    { destruct (cstr_spaced _ _ _ _ H2) as [(-> & _)|(-> & _)]; done. }
    rewrite if_done. eexists. split; [done|]. apply Hmono, word_tail; [done| |].
    + unfold x2. destruct k; [done|simpl; lia].
    + intros m' Hm' H0. split; [|done]. simpl. apply (cstr_cut m m' x1 k (spaced args trail) H); [|done]. intros y Hy. apply Hm'. unfold x2. lia.
  - rewrite <-app_assoc in H. simpl in H.
    rewrite (scan_cstr _ fuel m x1 k (61 :: v ++ spaced args trail) H Hk); [|by intros c [= <-]|rewrite length_app in Hf; lia]. osimpl.
    rewrite (cstr_at _ _ _ _ _ H). simpl.
    destruct (parse_value_plain fuel m k v args trail x1 (proj1 Ha) (proj2 Ha) ltac:(lia) H) as (r & E & F); [rewrite length_app in Hf; simpl in Hf; lia|].
    eauto.
  - rewrite <-app_assoc in H. simpl in H. rewrite <-app_assoc in H. simpl in H.
    rewrite (scan_cstr _ fuel m x1 k (61 :: 34 :: escape v ++ 34 :: spaced args trail) H Hk); [|by intros c [= <-]|rewrite length_app in Hf; lia]. osimpl.
    rewrite (cstr_at _ _ _ _ _ H). simpl. pose proof (length_escape v).
    destruct (parse_value_quoted fuel m k v args trail x1 Ha ltac:(lia) H) as (r & E & F); [rewrite length_app in Hf; simpl in Hf; rewrite length_app in Hf; lia|].
    eauto.
Qed.

Lemma parse_arg_end fuel m x j : cstr m x (replicate j 32) → (j < fuel)%nat → parse_arg fuel m x = Done End.
Proof.
  intros H Hf. unfold parse_arg, skip_spaces. rewrite (scan_cstr _ fuel m x (replicate j 32) []); [|by rewrite app_nil_r|by apply Forall_replicate|done|by rewrite length_replicate].
  osimpl. by rewrite (cstr_nul _ _ _ H).
Qed.

(** ** The arguments as a finite map *)

Section Map.
Context {MA : Malloc}.

(** The map of the kernel: a key without a value has a null pointer, a value is the string
    its pointer refers to. *)
Definition args_rep (st : args_state) (g : gmap (list Z) (option (list Z))) : Prop :=
  ∃ h gm, kernel_args_map st = Some h ∧ models valid_string h gm ∧
    ∀ k, match g !! k with
         | None => gm !! k = None
         | Some None => gm !! k = Some NULL
         | Some (Some v) => ∃ p, gm !! k = Some p ∧ p ≠ NULL ∧ strings st !! p = Some v
         end.

Lemma valid_key a : valid_arg a → valid_string (arg_key a).
Proof. intros [H _]. eapply Forall_impl; [exact H|]. by intros c [? _]. Qed.

Lemma set_arg_eq fuel st g m key value a :
  args_rep st g → valid_arg a → cstr m key (arg_key a) →
  match arg_value a with Some v => value ≠ NULL ∧ cstr m value v | None => value = NULL end →
  (length (render a) < fuel)%nat →
  ∃ st', set_arg fuel st m key value = Done st' ∧ args_mem st' = m ∧ args_rep st' (<[arg_key a := arg_value a]> g).
Proof.
  intros (h & gm & Hh & Hm & Hg) Hv Hk Hval Hf. unfold set_arg. pose proof (valid_key a Hv) as Hvk.
  assert (Hlk : (length (arg_key a) < fuel)%nat) by (destruct a; simpl in *; rewrite ?length_app in Hf; simpl in Hf; lia).
  rewrite (read_string_cstr fuel m key _ Hk Hlk). osimpl. rewrite Hh. simpl. osimpl. destruct (arg_value a) as [v|] eqn:Ev.
  - destruct Hval as [Hne Hs]. destruct (Z.eqb_spec value NULL); [done|].
    assert (Hlv : (length v < fuel)%nat).
    { destruct a as [k|k w|k w]; simpl in *; simplify_eq; rewrite length_app in Hf; simpl in Hf; [lia|].
      rewrite length_app in Hf. pose proof (length_escape v). lia. }
    rewrite (read_string_cstr fuel m value v Hs Hlv). osimpl. set (p := malloc (dom (strings st))).
    pose proof (malloc_fresh (dom (strings st))) as Hp. fold p in Hp. apply not_elem_of_dom in Hp.
    destruct (hashmap_set_models valid_string h gm (arg_key a) p Hm Hvk) as (h' & E & Hm' & _). rewrite E. osimpl.
    eexists. split; [done|]. split; [done|]. exists h', (<[arg_key a := p]> gm). split_and!; [done|done|]. intros k. simpl.
    destruct (decide (arg_key a = k)) as [<-|Hk']; [rewrite !lookup_insert_eq|rewrite !lookup_insert_ne by done].
    + exists p. split_and!; [done|apply malloc_nonnull|by rewrite lookup_insert_eq].
    + specialize (Hg k). destruct (g !! k) as [[w|]|]; try done. destruct Hg as (q & H1 & H2 & H3). exists q. split_and!; try done.
      rewrite lookup_insert_ne; [done|]. intros <-. congruence.
  - subst value. simpl. destruct (hashmap_set_models valid_string h gm (arg_key a) NULL Hm Hvk) as (h' & E & Hm' & _). rewrite E. osimpl.
    eexists. split; [done|]. split; [done|]. exists h', (<[arg_key a := NULL]> gm). split_and!; [done|done|]. intros k. simpl.
    destruct (decide (arg_key a = k)) as [<-|Hk']; [by rewrite !lookup_insert_eq|rewrite !lookup_insert_ne by done]. apply Hg.
Qed.

(** The arguments of a line, the last one of a key counts. *)
Definition assignments (args : list (nat * karg)) (g : gmap (list Z) (option (list Z))) : gmap (list Z) (option (list Z)) :=
  fold_left (λ g a, <[arg_key a.2 := arg_value a.2]> g) args g.

Lemma args_loop_eq n fuel args trail : ∀ st g x j,
  args_rep st g → Forall (λ a, valid_arg a.2) args → 0 < x → cstr (args_mem st) x (behind j args trail) →
  (length (behind j args trail) < fuel)%nat → (length args < n)%nat →
  ∃ st', args_loop n fuel st x = Done st' ∧ args_rep st' (assignments args g).
Proof.
  revert n. induction args as [|[i a] args IH]; intros [|n] st g x j Hrep Hv Hx H Hf Hn; simpl in Hn; try lia; simpl in H.
  - simpl. rewrite (parse_arg_end fuel _ x j H) by (simpl in Hf; by rewrite length_replicate in Hf). osimpl. eauto.
  - inversion Hv as [|? ? Ha Hv']; subst. simpl in Ha. simpl in Hf. rewrite !length_app, length_replicate in Hf.
    destruct (parse_arg_eq fuel _ x j a args trail Ha Hx H) as (r & E & m' & key & value & x' & j' & -> & Hk & Hval & Hx' & Hb & Hl);
      [lia|].
    simpl. rewrite E. osimpl. destruct (set_arg_eq fuel st g m' key value a Hrep Ha Hk Hval ltac:(lia)) as (st1 & -> & Hm & Hrep1). osimpl.
    apply (IH n st1 _ x' j'); auto; [lia|by rewrite Hm|lia|lia].
Qed.

Lemma strdup_cstr fuel m out c s :
  bytes_ok m → cstr m c s → (out + Z.of_nat (length s) < c ∨ c + Z.of_nat (length s) < out) → (length s + 8 < fuel)%nat →
  ∃ m', strdup fuel m out c = Done m' ∧ cstr m' out s.
Proof.
  intros Hm Hs Ho Hf. unfold strdup. rewrite (strlen_cstr fuel m c s Hm Hs) by lia. osimpl.
  destruct (memcpy_copied m out c (Z.of_nat (length s) + 1) Hm ltac:(lia) ltac:(unfold fwd_ok; lia)) as (m' & E & _ & C).
  exists m'. split; [done|]. apply cstr_intro.
  - intros i d Hi. pose proof (lookup_lt_Some _ _ _ Hi). rewrite C. bool_cases; simpl; try lia.
    replace (c + (out + Z.of_nat i - out)) with (c + Z.of_nat i) by lia. by apply (cstr_lookup m c s).
  - rewrite C. bool_cases; simpl; try lia. replace (c + (out + Z.of_nat (length s) - out)) with (c + Z.of_nat (length s)) by lia. by apply cstr_nul.
Qed.

Lemma args_rep_present st g k : args_rep st g → valid_string k → args_present st k = Done (truth (bool_decide (is_Some (g !! k)))).
Proof.
  intros (h & gm & Hh & Hm & Hg) Hk. unfold args_present. rewrite Hh, (hashmap_has_models valid_string h gm k Hm Hk). do 2 f_equal.
  specialize (Hg k). apply bool_decide_ext. revert Hg. destruct (g !! k) as [[v|]|]; intros Hg.
  - destruct Hg as (p & -> & _). split; by eexists.
  - rewrite Hg. split; by eexists.
  - by rewrite Hg.
Qed.

Lemma args_rep_value st g k : args_rep st g → valid_string k →
  ∃ p, args_value st k = Done p ∧ match g !! k with Some (Some v) => p ≠ NULL ∧ strings st !! p = Some v | _ => p = NULL end.
Proof.
  intros (h & gm & Hh & Hm & Hg) Hk. unfold args_value. rewrite Hh, (hashmap_get_models valid_string h gm k Hm Hk).
  eexists. split; [done|]. specialize (Hg k). revert Hg. destruct (g !! k) as [[v|]|]; intros Hg.
  - destruct Hg as (p & -> & Hne & Hs). done.
  - by rewrite Hg.
  - by rewrite Hg.
Qed.

(** C28: the command line parser is the inverse of printing the arguments: on a line of flags,
    plain values and quoted values with their escapes, however spaced, args_parse leaves
    exactly these arguments, the last one of each key; args_present knows each key, and
    args_value returns the null pointer for a flag and the string of its value otherwise. *)
Theorem args_parse_roundtrip fuel st argbuf cmdline lead a args trail :
  let line := replicate lead 32 ++ render a ++ spaced args trail in
  kernel_args_map st = None → bytes_ok (args_mem st) → 0 < argbuf → cmdline ≠ NULL → cstr (args_mem st) cmdline line →
  argbuf + Z.of_nat (length line) < cmdline ∨ cmdline + Z.of_nat (length line) < argbuf →
  valid_arg a → Forall (λ a, valid_arg a.2) args → (length line + 8 < fuel)%nat →
  ∃ st', args_parse fuel st argbuf cmdline = Done st' ∧
    let g := assignments ((lead, a) :: args) ∅ in
    ∀ k, valid_string k →
      args_present st' k = Done (truth (bool_decide (is_Some (g !! k)))) ∧
      ∃ p, args_value st' k = Done p ∧ match g !! k with Some (Some v) => p ≠ NULL ∧ strings st' !! p = Some v | _ => p = NULL end.
Proof.
  intros line Hmap Hb Ha Hc Hs Hd Hva Hv Hf. unfold args_parse. destruct (Z.eqb_spec cmdline NULL); [done|]. rewrite Hmap.
  destruct (strdup_cstr fuel (args_mem st) argbuf cmdline line Hb Hs Hd Hf) as (m & E & Hm). rewrite E. osimpl.
  destruct (args_loop_eq fuel fuel ((lead, a) :: args) trail (Args m (Some (hashmap_create 10)) (strings st)) ∅ argbuf lead)
    as (st' & -> & Hrep); [|by constructor|done|done|change (length line < fuel)%nat; lia| |].
  - exists (hashmap_create 10), ∅. split_and!; [done|by apply create_models|]. intros k. by rewrite !lookup_empty.
  - assert (length args ≤ length (spaced args trail))%nat.
    { clear. induction args as [|[n a] args IH]; simpl; [lia|]. rewrite !length_app. lia. }
    unfold line in Hf. rewrite !length_app in Hf. simpl. lia.
  - exists st'. split; [done|]. cbv zeta. intros k Hk. split; [by apply args_rep_present|by apply args_rep_value].
Qed.
End Map.

(** ** The tokenizer *)

(** The pieces of a string between delimiters, and those that are not empty. *)
Fixpoint split_at (f : Z → bool) (s : list Z) : list (list Z) :=
  match s with
  | [] => [[]]
  | c :: s =>
      if f c then [] :: split_at f s
      else match split_at f s with w :: ws => (c :: w) :: ws | [] => [[c]] end
  end.
Definition words (C S : list Z) : list (list Z) := filter (λ w, w ≠ []) (split_at (in_set C) S).

Lemma split_at_cons f s : ∃ ws, split_at f s = take_while (λ c, negb (f c)) s :: ws ∧
  ws = match drop_while (λ c, negb (f c)) s with [] => [] | _ :: s' => split_at f s' end.
Proof.
  induction s as [|c s (ws & E & H)]; simpl; [by eexists|]. destruct (f c) eqn:Ec; simpl; [by eexists|]. rewrite E. by eexists.
Qed.

Lemma words_cons C c S : in_set C c = true → words C (c :: S) = words C S.
Proof. intros H. unfold words. simpl. by rewrite H. Qed.

Lemma words_skip C S : words C S = words C (drop_while (in_set C) S).
Proof. induction S as [|c S IH]; simpl; [done|]. destruct (in_set C c) eqn:E; [by rewrite words_cons|done]. Qed.

Lemma words_strtok C S :
  match strtok C S with None => words C S = [] | Some (tok, rest) => tok ≠ [] ∧ words C S = tok :: words C rest end.
Proof.
  unfold strtok. rewrite words_skip. destruct (drop_while (in_set C) S) as [|c S1] eqn:E; [done|].
  assert (Hc : in_set C c = false).
  { clear -E. induction S as [|d S IH]; simpl in E; [done|]. destruct (in_set C d) eqn:Ed; [by apply IH|by simplify_eq]. }
  split; [simpl; by rewrite Hc|]. unfold words at 1.
  destruct (split_at_cons (in_set C) (c :: S1)) as (ws & -> & ->). rewrite filter_cons_True by (simpl; by rewrite Hc). f_equal.
  destruct (drop_while _ (c :: S1)); [done|]. simpl drop. by rewrite drop_0.
Qed.

(** The terminator of a token lies behind its first character. *)
Lemma tokenize_loop_words fuel sep C n : ∀ m pch sv S,
  bytes_ok m → pch ≠ NULL → 0 < sv → cstr m sv S → cstr m sep C →
  sep + Z.of_nat (length C) < sv ∨ sv + Z.of_nat (length S) < sep →
  (length S + 1 < fuel)%nat → (length C < fuel)%nat → (length S + 1 < n)%nat →
  ∃ m' ptrs, tokenize_loop n fuel m pch sep sv = Done (m', pch :: ptrs) ∧
    Forall2 (cstr m') ptrs (words C S) ∧ Forall (.≠ NULL) ptrs ∧
    ∀ x, x ≤ sv ∨ sv + Z.of_nat (length S) ≤ x → m' x = m x.
Proof.
  induction n as [|n IH]; intros m pch sv S Hm Hp Hsv HS HC Hd Hf Hf' Hn; [lia|]. simpl.
  destruct (Z.eqb_spec pch NULL); [done|].
  destruct (strtok_r_cstr fuel m NULL sep sv S C Hm Hsv HS HC Hf Hf') as (r & E & P). rewrite E. clear E. unfold strtok_r_post in P.
  pose proof (words_strtok C S) as W. destruct (strtok C S) as [[tok rest]|]; cycle 1.
  - subst r. osimpl. destruct n as [|n]; [lia|]. simpl. osimpl. exists m, []. rewrite W. split_and!; try done.
  - destruct W as [Hne ->]. destruct P as (m1 & t & sv' & -> & Ht & Hm1 & Htok & Hrest & H1 & H2 & H3 & Hfr). osimpl. simpl in H1, H3.
    assert (0 < length tok)%nat by (destruct tok; [done|simpl; lia]).
    assert (HC1 : cstr m1 sep C).
    { eapply cstr_frame; [exact HC|]. intros x Hx. apply Hfr. lia. }
    destruct (IH m1 t sv' rest) as (m2 & ptrs & -> & Hw & Hn' & Hfr2); try done; try lia.
    osimpl. exists m2, (t :: ptrs). split_and!; [done| |by constructor|].
    + constructor; [|done]. eapply cstr_frame; [exact Htok|]. intros x Hx. apply Hfr2. lia.
    + intros x Hx. rewrite Hfr2 by lia. destruct (decide (x = t + Z.of_nat (length tok))) as [->|]; [|by apply Hfr].
      destruct Hx as [Hx|Hx]; [lia|].
      assert (t + Z.of_nat (length tok) = sv') by lia.
      assert (length rest = 0)%nat by lia. subst sv'. 
      rewrite (cstr_nul _ _ _ Htok). replace (t + Z.of_nat (length tok)) with (sv + Z.of_nat (length S)) by lia. symmetry. by apply cstr_nul.
Qed.

(** C36: tokenize implements splitting: on a string and a set of delimiters that lie apart, it
    returns the number of the non-empty pieces between delimiters, and fills the vector with
    pointers to them, in order, each ended by a zero byte in place, and a null pointer behind
    them; without a piece the vector is left alone.  Only bytes of the string change. *)
Theorem tokenize_splits fuel m str sep save C S :
  bytes_ok m → 0 < str → cstr m str S → cstr m sep C →
  sep + Z.of_nat (length C) < str ∨ str + Z.of_nat (length S) < sep →
  (length S + 2 < fuel)%nat → (length C < fuel)%nat →
  ∃ m' buf, tokenize fuel m str sep save = Done (m', buf, Z.of_nat (length (words C S))) ∧
    (words C S = [] → buf = []) ∧
    (words C S ≠ [] → ∃ ptrs, buf = ptrs ++ [NULL] ∧ Forall2 (cstr m') ptrs (words C S) ∧ Forall (.≠ NULL) ptrs) ∧
    ∀ x, x < str ∨ str + Z.of_nat (length S) ≤ x → m' x = m x.
Proof.
  intros Hm Hp HS HC Hd Hf Hf'. unfold tokenize. pose proof (words_strtok C S) as W.
  assert (P0 : (if str =? NULL then save else str) = str) by (unfold NULL; destruct (Z.eqb_spec str 0); [lia|done]).
  destruct (strtok_r_cstr fuel m str sep save S C) as (r & E & P); rewrite ?P0 in *; try done; try lia. rewrite E. clear E.
  unfold strtok_r_post in P. destruct (strtok C S) as [[tok rest]|].
  - destruct W as [Hne ->]. destruct P as (m1 & t & sv & -> & Ht & Hm1 & Htok & Hrest & H1 & H2 & H3 & Hfr). osimpl.
    destruct (Z.eqb_spec t NULL); [done|]. assert (0 < length tok)%nat by (destruct tok; [done|simpl; lia]).
    assert (HC1 : cstr m1 sep C) by (eapply cstr_frame; [exact HC|]; intros x Hx; apply Hfr; lia).
    destruct (tokenize_loop_words fuel sep C fuel m1 t sv rest) as (m2 & ptrs & -> & Hw & Hn & Hfr2); try done; try lia. osimpl.
    exists m2, (t :: ptrs ++ [NULL]). split_and!; [simpl; by rewrite (Forall2_length _ _ _ Hw)|done| |].
    + intros _. exists (t :: ptrs). split_and!; [done| |by constructor].
      constructor; [|done]. eapply cstr_frame; [exact Htok|]. intros x Hx. apply Hfr2. lia.
    + intros x Hx. rewrite Hfr2 by lia. destruct (decide (x = t + Z.of_nat (length tok))) as [->|]; [|by apply Hfr].
      rewrite (cstr_nul _ _ _ Htok). replace (t + Z.of_nat (length tok)) with (str + Z.of_nat (length S)) by lia. symmetry. by apply cstr_nul.
  - subst r. osimpl. exists m, []. rewrite W. by split_and!.
Qed.

Definition demo_path : mem := λ a, if a =? 500 then 47 else mem_of 1000 (str "/usr//bin/") a.

Lemma tokenize_splits_witness :
  ∃ m' buf, tokenize 40 demo_path 1000 500 0 = Done (m', buf, 2) ∧
    (words [47] (str "/usr//bin/") = [] → buf = []) ∧
    (words [47] (str "/usr//bin/") ≠ [] →
       ∃ ptrs, buf = ptrs ++ [NULL] ∧ Forall2 (cstr m') ptrs [str "usr"; str "bin"] ∧ Forall (.≠ NULL) ptrs) ∧
    ∀ x, x < 1000 ∨ 1000 + 10 ≤ x → m' x = demo_path x.
Proof.
  apply (tokenize_splits 40 demo_path 1000 500 0 [47] (str "/usr//bin/")); [|lia| | |simpl; lia|simpl; lia|simpl; lia].
  - intros a. unfold demo_path. destruct (a =? 500); [lia|]. by apply mem_of_bytes_ok.
  - vm_compute. repeat split; discriminate.
  - vm_compute. repeat split; discriminate.
Defined.

(** [buf] is not terminated when the string holds no token. *)
Lemma tokenize_no_token :
  fst <$> (tokenize 40 (λ a, if a =? 500 then 47 else 0) 1000 500 0) ≠ Timeout ∧
  snd <$> (tokenize 40 (λ a, if a =? 500 then 47 else 0) 1000 500 0) = Done 0.
Proof. by vm_compute. Qed.

(** ** A command line *)

Definition demo_args : list (nat * karg) :=
  [(1%nat, Quoted (str "msg") [97; 34; 92]); (0%nat, Plain (str "root") (str "/dev/ram0")); (0%nat, Plain (str "root") (str "/dev/hda"))].
Definition demo_line : list Z := replicate 1 32 ++ render (Flag (str "lfbwc")) ++ spaced demo_args 2.
Definition demo_map : gmap (list Z) (option (list Z)) := assignments ((1%nat, Flag (str "lfbwc")) :: demo_args) ∅.

Lemma args_parse_roundtrip_witness :
  demo_map !! str "lfbwc" = Some None ∧ demo_map !! str "root" = Some (Some (str "/dev/hda")) ∧
  demo_map !! str "msg" = Some (Some [97; 34; 92]) ∧
  ∃ st', args_parse 100 (Args (mem_of 1000 demo_line) None ∅) 5000 1000 = Done st' ∧
    ∀ k, valid_string k →
      args_present st' k = Done (truth (bool_decide (is_Some (demo_map !! k)))) ∧
      ∃ p, args_value st' k = Done p ∧
        match demo_map !! k with Some (Some v) => p ≠ NULL ∧ strings st' !! p = Some v | _ => p = NULL end.
Proof.
  split; [by vm_compute|]. split; [by vm_compute|]. split; [by vm_compute|].
  assert (V : valid_arg (Flag (str "lfbwc")) ∧ Forall (λ a, valid_arg a.2) demo_args).
  { unfold demo_args, valid_arg, key_char. simpl. repeat (lia || done || split || constructor || simpl). }
  apply (args_parse_roundtrip 100 (Args (mem_of 1000 demo_line) None ∅) 5000 1000 1 (Flag (str "lfbwc")) demo_args 2);
    [done|by apply mem_of_bytes_ok|done|done| |vm_compute; auto|apply V|apply V|vm_compute; lia].
  vm_compute. repeat split; discriminate.
Defined.
