(* ===== verification/KrkDigits.v ===== *)
(** * Positional numerals

    Numbers as the sequences of their digits in a base, the lowest one first: what the
    arithmetic of KrkLong (base [2 ^ 31]) and of KrkDecimal (base [10 ^ 9]) is stated
    with. *)
From S2P Require Import Prelude.
Local Open Scope Z_scope.

Section Numerals.
Context (B : Z) (HB : 1 < B).

Definition eval (l : list Z) : Z := foldr (λ d v, d + B * v) 0 l.
Definition digits_ok (l : list Z) : Prop := Forall (λ d, 0 ≤ d < B) l.
(** No zero at the high end. *)
Definition normal (l : list Z) : Prop := last l ≠ Some 0.
(** The [n] lowest digits of a number. *)
Definition numeral (n : nat) (v : Z) : list Z := (λ i, (v / B ^ Z.of_nat i) `mod` B) <$> seq 0 n.

Lemma eval_cons d l : eval (d :: l) = d + B * eval l.
Proof. done. Qed.

Lemma pow_S n : B ^ Z.of_nat (S n) = B * B ^ Z.of_nat n.
Proof. rewrite Nat2Z.inj_succ, Z.pow_succ_r; lia. Qed.

Lemma pow_pos n : 0 < B ^ Z.of_nat n.
Proof. apply Z.pow_pos_nonneg; lia. Qed.

Lemma eval_app l k : eval (l ++ k) = eval l + B ^ Z.of_nat (length l) * eval k.
Proof.
  induction l as [|d l IH]; cbn [app length]; [rewrite Z.pow_0_r; simpl; lia|].
  rewrite !eval_cons, IH, pow_S. ring.
Qed.

Lemma eval_snoc l d : eval (l ++ [d]) = eval l + B ^ Z.of_nat (length l) * d.
Proof. rewrite eval_app. f_equal. f_equal. simpl. lia. Qed.

Lemma eval_zeros n : eval (replicate n 0) = 0.
Proof. induction n as [|n IH]; simpl; [done|]. rewrite IH. lia. Qed.

Lemma eval_nonneg l : digits_ok l → 0 ≤ eval l.
Proof. induction 1 as [|d l Hd _ IH]; simpl; [done|]. nia. Qed.

Lemma eval_bound l : digits_ok l → 0 ≤ eval l < B ^ Z.of_nat (length l).
Proof.
  induction 1 as [|d l Hd _ IH]; cbn [length]; [rewrite Z.pow_0_r; simpl; lia|].
  rewrite eval_cons, pow_S. pose proof (pow_pos (length l)). nia.
Qed.

Lemma eval_take_S l i d : l !! i = Some d → eval (take (S i) l) = eval (take i l) + B ^ Z.of_nat i * d.
Proof.
  intros H. rewrite (take_S_r _ _ _ H), eval_snoc, length_take, Nat.min_l; [done|]. apply lookup_lt_Some in H. lia.
Qed.

Lemma eval_insert l i d v : l !! i = Some d → eval (<[i := v]> l) = eval l + B ^ Z.of_nat i * (v - d).
Proof.
  revert i. induction l as [|e l IH]; intros [|i] H; simplify_eq/=; [rewrite Z.pow_0_r; lia|].
  change (e + B * eval (<[i := v]> l) = e + B * eval l + B ^ Z.of_nat (S i) * (v - d)). rewrite (IH i H), pow_S. ring.
Qed.

Lemma digits_ok_lookup l i d : digits_ok l → l !! i = Some d → 0 ≤ d < B.
Proof. intros H Hi. by eapply Forall_lookup_1 in H. Qed.

Lemma digits_ok_zeros n : digits_ok (replicate n 0).
Proof. apply Forall_replicate. lia. Qed.

Lemma digits_ok_insert l i v : digits_ok l → 0 ≤ v < B → digits_ok (<[i := v]> l).
Proof. intros H Hv. by apply Forall_insert. Qed.

(** A numeral of a given length is determined by its value. *)
Lemma eval_inj l k : digits_ok l → digits_ok k → length l = length k → eval l = eval k → l = k.
Proof.
  intros Hl. revert k. induction Hl as [|d l Hd _ IH]; intros k Hk Hlen E; destruct Hk as [|e k He Hk]; simplify_eq/=; [done|].
  fold (eval l) (eval k) in E. destruct (Z.div_mod_unique B (eval l) (eval k) d e) as [E' ->]; [lia..|]. f_equal. by apply IH.
Qed.

Lemma normal_cons d l : normal (d :: l) → normal l.
Proof. destruct l; [done|]. unfold normal. by rewrite last_cons_cons. Qed.

(** The highest digit of a normal numeral tells its size. *)
Lemma eval_normal l : digits_ok l → normal l → l ≠ [] → B ^ (Z.of_nat (length l) - 1) ≤ eval l.
Proof.
  intros Hl Hn Hne. destruct l as [|d l] using rev_ind; [done|]. apply Forall_app in Hl as [Hl Hd].
  rewrite eval_snoc, length_app. simpl. replace (Z.of_nat (length l + 1) - 1) with (Z.of_nat (length l)) by lia.
  pose proof (eval_nonneg _ Hl). pose proof (pow_pos (length l)). 
  assert (d ≠ 0) by (intros ->; apply Hn; by rewrite last_snoc). inversion_clear Hd. assert (1 ≤ d) by lia. nia.
Qed.

Lemma eval_normal_pos l : digits_ok l → normal l → l ≠ [] → 0 < eval l.
Proof.
  intros Hl Hn Hne. pose proof (eval_normal l Hl Hn Hne). destruct l; [done|].
  assert (0 < B ^ (Z.of_nat (length (z :: l)) - 1)) by (apply Z.pow_pos_nonneg; simpl; lia). lia.
Qed.

Lemma eval_normal_0 l : digits_ok l → normal l → eval l = 0 → l = [].
Proof. intros Hl Hn E. destruct (decide (l = [])); [done|]. pose proof (eval_normal_pos l Hl Hn n). lia. Qed.

(** A longer normal numeral is a larger number. *)
Lemma eval_longer l k : digits_ok l → digits_ok k → normal k → (length l < length k)%nat → eval l < eval k.
Proof.
  intros Hl Hk Hn Hlen. pose proof (eval_bound l Hl). assert (k ≠ []) by (intros ->; simpl in Hlen; lia).
  pose proof (eval_normal k Hk Hn H0).
  assert (B ^ Z.of_nat (length l) ≤ B ^ (Z.of_nat (length k) - 1)) by (apply Z.pow_le_mono_r; lia). lia.
Qed.

Lemma normal_inj l k : digits_ok l → digits_ok k → normal l → normal k → eval l = eval k → l = k.
Proof.
  intros Hl Hk Hnl Hnk E. apply eval_inj; try done.
  destruct (lt_eq_lt_dec (length l) (length k)) as [[H|H]|H]; [|done|].
  - pose proof (eval_longer l k Hl Hk Hnk H). lia.
  - pose proof (eval_longer k l Hk Hl Hnl H). lia.
Qed.

Lemma digits_ok_app l k : digits_ok (l ++ k) ↔ digits_ok l ∧ digits_ok k.
Proof. apply Forall_app. Qed.

Lemma eval_take_drop n l : (n ≤ length l)%nat → eval l = eval (take n l) + B ^ Z.of_nat n * eval (drop n l).
Proof. intros H. rewrite <-(take_drop n l) at 1. rewrite eval_app, length_take, Nat.min_l by lia. done. Qed.

(** Dropping the zeros at the high end. *)
Fixpoint trimmed (l : list Z) : list Z :=
  match l with
  | [] => []
  | d :: l => match trimmed l with [] => if d =? 0 then [] else [d] | l' => d :: l' end
  end.

Lemma trimmed_cons d l : trimmed (d :: l) = match trimmed l with [] => if d =? 0 then [] else [d] | l' => d :: l' end.
Proof. done. Qed.

Lemma eval_trimmed l : eval (trimmed l) = eval l.
Proof.
  induction l as [|d l IH]; [done|]. rewrite trimmed_cons, eval_cons, <-IH. destruct (trimmed l); [|done].
  destruct (Z.eqb_spec d 0); simpl; lia.
Qed.

Lemma digits_ok_trimmed l : digits_ok l → digits_ok (trimmed l).
Proof.
  induction 1 as [|d l Hd _ IH]; [constructor|]. rewrite trimmed_cons. destruct (trimmed l); [|by constructor].
  destruct (d =? 0); [constructor|]. apply Forall_cons. by split.
Qed.

Lemma normal_trimmed l : normal (trimmed l).
Proof.
  induction l as [|d l IH]; [done|]. rewrite trimmed_cons. destruct (trimmed l) as [|e k]; [|unfold normal; by rewrite last_cons_cons].
  destruct (Z.eqb_spec d 0); [done|]. unfold normal. simpl. congruence.
Qed.

Lemma trimmed_snoc l d : trimmed (l ++ [d]) = if d =? 0 then trimmed l else l ++ [d].
Proof.
  induction l as [|e l IH]; simpl; [by destruct (d =? 0)|]. rewrite IH. destruct (Z.eqb_spec d 0); [done|].
  destruct l; done.
Qed.

Lemma trimmed_normal l : normal l → trimmed l = l.
Proof.
  destruct l as [|d l] using rev_ind; [done|]. unfold normal. rewrite last_snoc, trimmed_snoc.
  destruct (Z.eqb_spec d 0); [congruence|done].
Qed.

(** The digits of a number. *)
Lemma numeral_S n v : numeral (S n) v = v `mod` B :: numeral n (v / B).
Proof.
  unfold numeral. rewrite <-cons_seq, fmap_cons. f_equal; [by rewrite Z.pow_0_r, Z.div_1_r|].
  rewrite <-fmap_S_seq, <-list_fmap_compose. apply list_fmap_ext. intros _ i _. simpl.
  change (Z.pos (Pos.of_succ_nat i)) with (Z.of_nat (S i)). rewrite pow_S, Z.div_div; [done|lia|apply pow_pos].
Qed.

Lemma length_numeral n v : length (numeral n v) = n.
Proof. unfold numeral. by rewrite length_fmap, length_seq. Qed.

Lemma digits_ok_numeral n v : digits_ok (numeral n v).
Proof. apply Forall_fmap, Forall_forall. intros i _. simpl. apply Z.mod_pos_bound. lia. Qed.

Lemma eval_numeral n v : eval (numeral n v) = v `mod` B ^ Z.of_nat n.
Proof.
  revert v. induction n as [|n IH]; intros v; [by rewrite Z.pow_0_r, Z.mod_1_r|].
  rewrite numeral_S, eval_cons, IH, pow_S, Z.rem_mul_r by (pose proof (pow_pos n); lia). lia.
Qed.

Lemma eval_resize n l : eval (take n l ++ replicate (n - length l) 0) = eval (take n l).
Proof. rewrite eval_app, eval_zeros. lia. Qed.
End Numerals.
