(* ===== verification/KrkLong.v ===== *)
(** * Long integers of Kuroko ([src/kuroko/src/obj_long.c]): data and operations

    A long is a sequence of 31-bit digits, the lowest one first, with a signed count.  The
    [KrkLong] structures live at addresses of a store, so that an operation whose result
    is one of its operands is what it is in C; a local structure is at an address of its own
    until its function returns.  The array of digits belongs to its structure, and is the list
    of the digits in use: to read or write behind it is a [Fault].  Arithmetic on words is
    at its width; the widths of numbers are those of arrays in memory, and are [Z]. *)
From S2P Require Import Prelude.
Local Open Scope Z_scope.

Definition DIGIT_SHIFT : Z := 31.
Definition DIGIT_MAX : Z := 0x7FFFFFFF.

(** ** The store *)

Record KrkLong : Type := Long { width : Z; digits : list Z }.
Notation store := (gmap Z KrkLong).

Definition rd (a : Z) : St store KrkLong := λ s,
  match s !! a with Some x => Done (x, s) | None => Fault end.
Definition wr (a : Z) (x : KrkLong) : St store unit := λ s,
  match s !! a with Some _ => Done (tt, <[a := x]> s) | None => Fault end.

(** A structure on the stack. *)
Definition with_local {A} (f : Z → St store A) : St store A := λ s,
  let t := fresh (dom s) in
  (r ← f t; modify (delete t);; mret r) (<[t := Long 0 []]> s).

(** [num->width < 0 ? -num->width : num->width] *)
Definition abs_width (x : KrkLong) : Z := if width x <? 0 then - width x else width x.

(** [num->digits[i]] *)
Definition digit (x : KrkLong) (i : Z) : outcome Z :=
  if i <? 0 then Fault else of_option (digits x !! Z.to_nat i).
Definition rd_digit (a i : Z) : St store Z := x ← rd a; lift (digit x i).
Definition wr_digit (a i v : Z) : St store unit :=
  x ← rd a;
  if (0 <=? i) && (i <? Z.of_nat (length (digits x))) then wr a (Long (width x) (<[Z.to_nat i := v]> (digits x))) else fault.
Definition set_width (a w : Z) : St store unit := x ← rd a; wr a (Long w (digits x)).

(** [for (i = first; i < first + n; ++i) body], the variables the body changes in [x]. *)
Fixpoint for_loop {X} (n : nat) (i : Z) (body : Z → X → St store X) (x : X) : St store X :=
  match n with O => mret x | S n => x ← body i x; for_loop n (i + 1) body x end.

(** ** Making and resizing *)

(** [while (tmp > DIGIT_MAX) { cnt++; tmp >>= DIGIT_SHIFT; }]: a word has at most three digits. *)
Definition count_digits (tmp : Z) : outcome Z :=
  loop 4 (λ '(tmp, cnt), if DIGIT_MAX <? tmp then inl (Z.shiftr tmp DIGIT_SHIFT, cnt + 1) else inr cnt) (tmp, 1).

(** [digits[i] = (abs & DIGIT_MAX); abs >>= DIGIT_SHIFT;] *)
Fixpoint extract_digits (n : nat) (abs : Z) : list Z :=
  match n with O => [] | S n => Z.land abs DIGIT_MAX :: extract_digits n (Z.shiftr abs DIGIT_SHIFT) end.

Definition krk_long_init_si (num val : Z) : St store Z :=
  if val =? 0 then wr num (Long 0 []);; mret 0
  else
    let sign := if val <? 0 then -1 else 1 in
    let abs := u64 (if val <? 0 then i64 (- val) else val) in
    if abs <=? DIGIT_MAX then wr num (Long sign [abs]);; mret 0
    else
      cnt ← lift (count_digits abs);
      wr num (Long (cnt * sign) (extract_digits (Z.to_nat cnt) abs));; mret 0.

Definition krk_long_init_ui (num val : Z) : St store Z :=
  if val =? 0 then wr num (Long 0 []);; mret 0
  else if val <=? DIGIT_MAX then wr num (Long 1 [val]);; mret 0
  else
    cnt ← lift (count_digits val);
    wr num (Long cnt (extract_digits (Z.to_nat cnt) val));; mret 0.

Fixpoint krk_long_init_many (nums : list Z) : St store Z :=
  match nums with [] => mret 0 | a :: nums => krk_long_init_si a 0;; krk_long_init_many nums end.

(** The digits of the copy, one by one. *)
Fixpoint copy_digits (n : nat) (x : KrkLong) (i : Z) : outcome (list Z) :=
  match n with O => Done [] | S n => d ← digit x i; ds ← copy_digits n x (i + 1); Done (d :: ds) end.

Definition krk_long_init_copy (out in_ : Z) : St store Z :=
  x ← rd in_;
  ds ← lift (copy_digits (Z.to_nat (abs_width x)) x 0);
  wr out (Long (width x) ds);; mret 0.

Definition krk_long_clear (num : Z) : St store Z := wr num (Long 0 []);; mret 0.

Fixpoint krk_long_clear_many (nums : list Z) : St store Z :=
  match nums with [] => mret 0 | a :: nums => krk_long_clear a;; krk_long_clear_many nums end.

(** Of an array that is made smaller the digits behind [newdigits] stay allocated; they are
    cleared before they are used again. *)
Definition krk_long_resize (num newdigits : Z) : St store Z :=
  if newdigits =? 0 then krk_long_clear num
  else
    x ← rd num;
    let abs := if newdigits <? 0 then - newdigits else newdigits in
    let eabs := abs_width x in
    let ds :=
      if width x =? 0 then replicate (Z.to_nat newdigits) 0
      else if eabs <? abs then take (Z.to_nat eabs) (digits x) ++ replicate (Z.to_nat (abs - eabs)) 0
      else take (Z.to_nat abs) (digits x) in
    wr num (Long newdigits ds);; mret 0.

Definition krk_long_set_sign (num sign : Z) : St store Z :=
  x ← rd num;
  set_width num (if width x <? 0 then - width x * sign else width x * sign);; mret 0.

(** The number of zeros at the high end of the first [n] digits. *)
Fixpoint redundant (n : nat) (x : KrkLong) : outcome Z :=
  match n with
  | O => Done 0
  | S n => d ← digit x (Z.of_nat n); if d =? 0 then r ← redundant n x; Done (r + 1) else Done 0
  end.

Definition krk_long_trim (num : Z) : St store Z :=
  x ← rd num;
  let owidth := abs_width x in
  r ← lift (redundant (Z.to_nat owidth) x);
  if negb (r =? 0) then
    krk_long_resize num (owidth - r);;
    if width x <? 0 then krk_long_set_sign num (-1) else mret 0
  else mret 0.

(** ** Comparison *)

Fixpoint compare_digits (n : nat) (x y : KrkLong) (sign : Z) : outcome Z :=
  match n with
  | O => Done 0
  | S n =>
      d ← digit x (Z.of_nat n);
      e ← digit y (Z.of_nat n);
      if e <? d then Done sign else if d <? e then Done (- sign) else compare_digits n x y sign
  end.

Definition krk_long_compare (a b : Z) : St store Z :=
  x ← rd a; y ← rd b;
  if width y <? width x then mret 1
  else if width x <? width y then mret (-1)
  else
    let sign := if width x <? 0 then -1 else 1 in
    lift (compare_digits (Z.to_nat (abs_width x)) x y sign).

Definition krk_long_compare_abs (a b : Z) : St store Z :=
  x ← rd a; y ← rd b;
  if abs_width y <? abs_width x then mret 1
  else if abs_width x <? abs_width y then mret (-1)
  else lift (compare_digits (Z.to_nat (abs_width x)) x y 1).

(** ** Addition and subtraction *)

(** [i < width ? a->digits[i] : 0] *)
Definition digit_or_0 (a w i : Z) : St store Z := if i <? w then rd_digit a i else mret 0.

Definition krk_long_add_ignore_sign (res a b : Z) : St store Z :=
  x ← rd a; y ← rd b;
  let awidth := abs_width x in
  let bwidth := abs_width y in
  let owidth := if awidth <? bwidth then bwidth + 1 else awidth + 1 in
  krk_long_resize res owidth;;
  carry ← for_loop (Z.to_nat (owidth - 1)) 0 (λ i carry,
    d ← digit_or_0 a awidth i;
    e ← digit_or_0 b bwidth i;
    let out := u32 (d + e + carry) in
    wr_digit res i (Z.land out DIGIT_MAX);;
    mret (truth (DIGIT_MAX <? out))) 0;
  (if negb (carry =? 0) then wr_digit res (owidth - 1) 1 else krk_long_resize res (owidth - 1);; mret tt);;
  mret 0.

Definition sub_big_small (res a b : Z) : St store Z :=
  x ← rd a; y ← rd b;
  let awidth := abs_width x in
  let bwidth := abs_width y in
  let owidth := awidth in
  krk_long_resize res owidth;;
  for_loop (Z.to_nat owidth) 0 (λ i carry,
    d ← digit_or_0 a awidth i;
    e ← digit_or_0 b bwidth i;
    let a_digit := d - carry in
    let '(a_digit, carry) := if a_digit <? e then (a_digit + Z.shiftl 1 DIGIT_SHIFT, 1) else (a_digit, 0) in
    wr_digit res i (Z.land (a_digit - e) DIGIT_MAX);;
    mret carry) 0;;
  krk_long_trim res;;
  mret 0.

Definition swap (a b : Z) : St store Z := x ← rd a; y ← rd b; wr a y;; wr b x;; mret 0.

(** [PREP_OUTPUT] and [FINISH_OUTPUT]: where the result is an operand, it is made in a local
    structure first. *)
Definition with_output {A} (res : Z) (operands : list Z) (body : Z → St store A) : St store A :=
  if decide (res ∈ operands) then
    with_local (λ t,
      krk_long_init_si t 0;;
      r ← body t;
      swap res t;;
      krk_long_clear t;;
      mret r)
  else body res.

Definition krk_long_add (res a b : Z) : St store Z :=
  with_output res [a; b] (λ res,
    x ← rd a; y ← rd b;
    if width x =? 0 then krk_long_clear res;; krk_long_init_copy res b;; mret 0
    else if width y =? 0 then krk_long_clear res;; krk_long_init_copy res a;; mret 0
    else if (width x <? 0) && (0 <? width y) then
      c ← krk_long_compare_abs a b;
      if c =? -1 then sub_big_small res b a;; krk_long_set_sign res 1;; mret 0
      else if c =? 1 then sub_big_small res a b;; krk_long_set_sign res (-1);; mret 0
      else krk_long_clear res;; mret 0
    else if (0 <? width x) && (width y <? 0) then
      c ← krk_long_compare_abs a b;
      if c =? -1 then sub_big_small res b a;; krk_long_set_sign res (-1);; mret 0
      else if c =? 1 then sub_big_small res a b;; krk_long_set_sign res 1;; mret 0
      else krk_long_clear res;; mret 0
    else
      let sign := if width x <? 0 then -1 else 1 in
      r ← krk_long_add_ignore_sign res a b;
      if negb (r =? 0) then mret 1 else krk_long_set_sign res sign;; mret 0).

Definition krk_long_sub (res a b : Z) : St store Z :=
  with_output res [a; b] (λ res,
    x ← rd a; y ← rd b;
    if width x =? 0 then
      krk_long_clear res;; krk_long_init_copy res b;;
      krk_long_set_sign res (if width y <? 0 then 1 else -1);; mret 0
    else if width y =? 0 then krk_long_clear res;; krk_long_init_copy res a;; mret 0
    else if negb (eqb (width x <? 0) (width y <? 0)) then
      r ← krk_long_add_ignore_sign res a b;
      if negb (r =? 0) then mret 1
      else krk_long_set_sign res (if width x <? 0 then -1 else 1);; mret 0
    else
      c ← krk_long_compare_abs a b;
      if c =? 0 then krk_long_clear res;; mret 0
      else if c =? 1 then
        sub_big_small res a b;;
        (if width x <? 0 then krk_long_set_sign res (-1) else mret 0);; mret 0
      else if c =? -1 then
        sub_big_small res b a;;
        (if 0 <? width y then krk_long_set_sign res (-1) else mret 0);; mret 0
      else fault).

(** ** Multiplication *)

Definition krk_long_zero (num : Z) : St store Z :=
  x ← rd num;
  for_loop (Z.to_nat (abs_width x)) 0 (λ i _, wr_digit num i 0) tt;;
  mret 0.

Definition mul_abs (res a b : Z) : St store Z :=
  x ← rd a; y ← rd b;
  let awidth := abs_width x in
  let bwidth := abs_width y in
  krk_long_resize res (awidth + bwidth);;
  krk_long_zero res;;
  for_loop (Z.to_nat bwidth) 0 (λ i _,
    b_digit ← rd_digit b i;
    carry ← for_loop (Z.to_nat awidth) 0 (λ j carry,
      a_digit ← rd_digit a j;
      r ← rd_digit res (i + j);
      let tmp := u64 (carry + a_digit * b_digit + r) in
      wr_digit res (i + j) (Z.land tmp DIGIT_MAX);;
      mret (Z.shiftr tmp DIGIT_SHIFT)) 0;
    wr_digit res (i + awidth) (u32 carry)) tt;;
  krk_long_trim res;;
  mret 0.

Definition krk_long_mul (res a b : Z) : St store Z :=
  with_output res [a; b] (λ res,
    x ← rd a; y ← rd b;
    if width x =? 0 then krk_long_clear res;; krk_long_init_copy res a;; mret 0
    else if width y =? 0 then krk_long_clear res;; krk_long_init_copy res b;; mret 0
    else
      r ← mul_abs res a b;
      if negb (r =? 0) then mret 1
      else
        krk_long_set_sign res (if eqb (width x <? 0) (width y <? 0) then 1 else -1);;
        mret 0).

(** ** Bits *)

Definition lshift_one (in_ : Z) : St store Z :=
  x ← rd in_;
  if width x =? 0 then mret 0
  else
    let w := abs_width x in
    d ← lift (digit x (w - 1));
    let out_width := if negb (Z.shiftr d (DIGIT_SHIFT - 1) =? 0) then w + 1 else w in
    krk_long_resize in_ out_width;;
    carry ← for_loop (Z.to_nat w) 0 (λ i carry,
      digit ← rd_digit in_ i;
      wr_digit in_ i (Z.land (u32 (u32 (Z.shiftl digit 1) + carry)) DIGIT_MAX);;
      mret (Z.shiftr digit (DIGIT_SHIFT - 1))) 0;
    (if negb (carry =? 0) then wr_digit in_ (out_width - 1) 1 else mret tt);;
    mret 0.

(** [while (digit) { c++; digit >>= 1; }] *)
Definition digit_bits (d : Z) : outcome Z :=
  loop 33 (λ '(digit, c), if negb (digit =? 0) then inl (Z.shiftr digit 1, c + 1) else inr c) (d, 0).

Definition bits_in (num : Z) : St store Z :=
  x ← rd num;
  if width x =? 0 then mret 0
  else
    d ← lift (digit x (abs_width x - 1));
    c ← lift (digit_bits d);
    mret (c + (abs_width x - 1) * DIGIT_SHIFT).

Definition bit_is_set (num bit : Z) : St store Z :=
  d ← rd_digit num (bit / DIGIT_SHIFT);
  mret (truth (negb (Z.land d (Z.shiftl 1 (bit mod DIGIT_SHIFT)) =? 0))).

(** [!!val] *)
Definition bit_set_zero (num val : Z) : St store Z :=
  x ← rd num;
  if width x =? 0 then
    krk_long_clear num;;
    krk_long_init_si num (truth (negb (val =? 0)));;
    mret 0
  else
    d ← rd_digit num 0;
    wr_digit num 0 (Z.lor (Z.land d (u32 (Z.lnot 1))) (truth (negb (val =? 0))));;
    mret 0.

Definition krk_long_bit_set (num bit : Z) : St store Z :=
  x ← rd num;
  let digit_offset := bit / DIGIT_SHIFT in
  let digit_bit := bit mod DIGIT_SHIFT in
  (if abs_width x <=? digit_offset then
     krk_long_resize num (digit_offset + 1);;
     for_loop (Z.to_nat (digit_offset + 1 - abs_width x)) (abs_width x) (λ i _, wr_digit num i 0) tt
   else mret tt);;
  d ← rd_digit num digit_offset;
  wr_digit num digit_offset (Z.lor d (Z.shiftl 1 digit_bit));;
  mret 0.

(** ** Division *)

(** The quicker division by a number of one digit. *)
Definition div_digit (quot rem absa absb awidth : Z) : St store unit :=
  remainder ← for_loop (Z.to_nat awidth) 0 (λ i remainder,
    let i := awidth - i - 1 in
    d ← rd_digit absa i;
    e ← rd_digit absb 0;
    let remainder := Z.lor (u64 (Z.shiftl remainder DIGIT_SHIFT)) d in
    wr_digit absa i (Z.land (u32 (remainder / e)) DIGIT_MAX);;
    q ← rd_digit absa i;
    mret (u64 (remainder - u64 (q * e)))) 0;
  krk_long_init_si rem (i64 remainder);;
  swap quot absa;;
  krk_long_trim quot;;
  krk_long_clear_many [absa; absb];;
  mret tt.

(** Long division in base two. *)
Definition div_bits (quot rem a absa absb : Z) : St store unit :=
  bits ← bits_in a;
  for_loop (Z.to_nat bits) 0 (λ i _,
    let i := bits - i - 1 in
    lshift_one rem;;
    is_set ← bit_is_set absa i;
    bit_set_zero rem is_set;;
    c ← krk_long_compare rem absb;
    if 0 <=? c then
      sub_big_small rem rem absb;;
      krk_long_bit_set quot i;;
      mret tt
    else mret tt) tt;;
  krk_long_trim quot;;
  krk_long_clear_many [absa; absb];;
  mret tt.

Definition div_abs (quot rem a b : Z) : St store Z :=
  krk_long_clear quot;;
  krk_long_clear rem;;
  x ← rd a; y ← rd b;
  if width y =? 0 then mret 1
  else if width x =? 0 then mret 0
  else
    let awidth := abs_width x in
    let bwidth := abs_width y in
    unit ← (if bwidth =? 1 then d ← lift (digit y 0); mret (d =? 1) else mret false);
    if unit : bool then
      krk_long_init_copy quot a;;
      krk_long_set_sign quot 1;;
      mret 0
    else if awidth <? bwidth then
      krk_long_init_copy rem a;;
      krk_long_set_sign rem 1;;
      mret 0
    else
      with_local (λ absa, with_local (λ absb,
        krk_long_init_copy absa a;;
        krk_long_set_sign absa 1;;
        krk_long_init_copy absb b;;
        krk_long_set_sign absb 1;;
        (if bwidth =? 1 then div_digit quot rem absa absb awidth else div_bits quot rem a absa absb);;
        mret 0)).

Definition krk_long_div_rem (quot rem a b : Z) : St store Z :=
  with_output quot [a; b] (λ quot, with_output rem [a; b] (λ rem,
    e ← div_abs quot rem a b;
    if negb (e =? 0) then mret 1
    else
      x ← rd a; y ← rd b;
      (if negb (eqb (width x <? 0) (width y <? 0)) then
         z ← rd rem;
         (if negb (width z =? 0) then
            with_local (λ one,
              krk_long_init_si one 1;;
              krk_long_add quot quot one;;
              sub_big_small rem b rem;;
              krk_long_clear one)
          else mret 0);;
         krk_long_set_sign quot (-1)
       else mret 0);;
      (if width y <? 0 then krk_long_set_sign rem (-1) else mret 0);;
      mret 0)).

Definition krk_long_abs (out in_ : Z) : St store Z :=
  with_output out [in_] (λ out,
    krk_long_clear out;;
    krk_long_init_copy out in_;;
    krk_long_set_sign out 1;;
    mret 0).

Definition krk_long_sign (num : Z) : St store Z :=
  x ← rd num;
  mret (if width x =? 0 then 0 else if width x <? 0 then -1 else 1).

(** A number of up to two digits as a word: the second digit is shifted as a word of 32 bits. *)
Definition krk_long_medium (num : Z) : St store Z :=
  x ← rd num;
  if width x =? 0 then mret 0
  else if width x <? 0 then
    val ← lift (digit x 0);
    val ← (if width x <? -1 then d ← lift (digit x 1); mret (Z.lor val (u32 (Z.shiftl d 31))) else mret val);
    mret (i64 (u64 (- val)))
  else
    val ← lift (digit x 0);
    val ← (if 1 <? width x then d ← lift (digit x 1); mret (Z.lor val (u32 (Z.shiftl d 31))) else mret val);
    mret (i64 val).

(** ** Bitwise operators *)

Inductive bit_op : Type := Op_or | Op_xor | Op_and.
Definition op_sign (op : bit_op) (aneg bneg : bool) : bool :=
  match op with Op_or => aneg || bneg | Op_xor => xorb aneg bneg | Op_and => aneg && bneg end.
Definition op_digit (op : bit_op) (a_digit b_digit : Z) : Z :=
  match op with Op_or => Z.lor a_digit b_digit | Op_xor => Z.lxor a_digit b_digit | Op_and => Z.land a_digit b_digit end.

Definition do_bin_op (res a b : Z) (op : bit_op) : St store Z :=
  x ← rd a; y ← rd b;
  let awidth := abs_width x in
  let bwidth := abs_width y in
  let owidth := (if bwidth <? awidth then awidth else bwidth) + 1 in
  let aneg := width x <? 0 in
  let bneg := width y <? 0 in
  let rneg := op_sign op aneg bneg in
  krk_long_resize res owidth;;
  for_loop (Z.to_nat owidth) 0 (λ i '(acarry, bcarry, rcarry),
    a_digit ← digit_or_0 a awidth i;
    let a_digit := if aneg then u32 (Z.lxor a_digit DIGIT_MAX + acarry) else a_digit in
    let acarry := Z.shiftr a_digit DIGIT_SHIFT in
    b_digit ← digit_or_0 b bwidth i;
    let b_digit := if bneg then u32 (Z.lxor b_digit DIGIT_MAX + bcarry) else b_digit in
    let bcarry := Z.shiftr b_digit DIGIT_SHIFT in
    let r := op_digit op a_digit b_digit in
    let r := if rneg then u32 (Z.lxor (Z.land r DIGIT_MAX) DIGIT_MAX + rcarry) else r in
    wr_digit res i (Z.land r DIGIT_MAX);;
    mret (acarry, bcarry, Z.shiftr r DIGIT_SHIFT)) (truth aneg, truth bneg, truth rneg);;
  krk_long_trim res;;
  (if rneg then krk_long_set_sign res (-1) else mret 0);;
  mret 0.

Definition krk_long_or (res a b : Z) : St store Z :=
  with_output res [a; b] (λ res,
    x ← rd a; y ← rd b;
    if width x =? 0 then krk_long_clear res;; krk_long_init_copy res b;; mret 0
    else if width y =? 0 then krk_long_clear res;; krk_long_init_copy res a;; mret 0
    else do_bin_op res a b Op_or).

Definition krk_long_xor (res a b : Z) : St store Z :=
  with_output res [a; b] (λ res, do_bin_op res a b Op_xor).

Definition krk_long_and (res a b : Z) : St store Z :=
  with_output res [a; b] (λ res,
    x ← rd a; y ← rd b;
    if width x =? 0 then krk_long_clear res;; krk_long_init_copy res a;; mret 0
    else if width y =? 0 then krk_long_clear res;; krk_long_init_copy res b;; mret 0
    else do_bin_op res a b Op_and).

(** ** Shifts *)

Definition krk_long_lshift_z (out val amount : Z) : St store unit :=
  if amount =? 0 then krk_long_clear out;; krk_long_init_copy out val;; mret tt
  else
    count ← bits_in val;
    krk_long_clear out;;
    if count =? 0 then mret tt
    else
      let offset := amount mod 31 in
      let cycles := amount / 31 in
      x ← rd val;
      let w := abs_width x in
      krk_long_bit_set out (count - 1 + amount);;
      (if offset =? 0 then
         for_loop (Z.to_nat w) 0 (λ i _, d ← rd_digit val i; wr_digit out (i + cycles) d) tt
       else
         shift_in ← for_loop (Z.to_nat w) 0 (λ i shift_in,
           d ← rd_digit val i;
           wr_digit out (i + cycles) (Z.lor (Z.land (u32 (Z.shiftl d offset)) DIGIT_MAX) shift_in);;
           mret (Z.land (Z.shiftr d (31 - offset)) DIGIT_MAX)) 0;
         if negb (shift_in =? 0) then wr_digit out (w + cycles) shift_in else mret tt);;
      sign ← krk_long_sign val;
      if sign <? 0 then krk_long_set_sign out (-1);; mret tt else mret tt.

Definition krk_long_rshift_z (out val amount : Z) : St store unit :=
  if amount =? 0 then krk_long_clear out;; krk_long_init_copy out val;; mret tt
  else
    count ← bits_in val;
    krk_long_clear out;;
    if count =? 0 then mret tt
    else
      (if amount <? count then
         let offset := amount mod 31 in
         let cycles := amount / 31 in
         x ← rd val;
         let w := abs_width x in
         krk_long_bit_set out (count - 1 - amount);;
         o ← rd out;
         if offset =? 0 then
           for_loop (Z.to_nat (w - cycles)) cycles (λ i _, d ← rd_digit val i; wr_digit out (i - cycles) d) tt
         else
           d ← rd_digit val cycles;
           wr_digit out 0 (Z.land (Z.shiftr d offset) DIGIT_MAX);;
           for_loop (Z.to_nat (width o - 1)) 1 (λ i _,
             d ← rd_digit val (i + cycles);
             e ← rd_digit out (i - 1);
             wr_digit out (i - 1) (Z.lor e (Z.land (u32 (Z.shiftl d (31 - offset))) DIGIT_MAX));;
             wr_digit out i (Z.land (Z.shiftr d offset) DIGIT_MAX)) tt;;
           if width o + cycles <? w then
             d ← rd_digit val (width o + cycles);
             e ← rd_digit out (width o - 1);
             wr_digit out (width o - 1) (Z.lor e (Z.land (u32 (Z.shiftl d (31 - offset))) DIGIT_MAX))
           else mret tt
       else mret tt);;
      sign ← krk_long_sign val;
      if sign <? 0 then
        with_local (λ one,
          krk_long_init_si one 1;;
          krk_long_add out out one;;
          krk_long_set_sign out (-1);;
          krk_long_clear one;;
          mret tt)
      else mret tt.

(** The value of a shift, quotient, remainder or power, or the error raised. *)
Inductive raised : Type := Ok | ValueError | NotImplementedError.

Definition krk_long_lshift (out val shift : Z) : St store raised :=
  s ← krk_long_sign shift;
  if s <? 0 then mret ValueError
  else amount ← krk_long_medium shift; krk_long_lshift_z out val (u64 amount);; mret Ok.

Definition krk_long_rshift (out val shift : Z) : St store raised :=
  s ← krk_long_sign shift;
  if s <? 0 then mret ValueError
  else amount ← krk_long_medium shift; krk_long_rshift_z out val (u64 amount);; mret Ok.

(** ** Division and powers as the operators call them *)

Definition krk_long_mod (out a b : Z) : St store raised :=
  s ← krk_long_sign b;
  if s =? 0 then mret ValueError
  else with_local (λ garbage,
    krk_long_init_si garbage 0;;
    krk_long_div_rem garbage out a b;;
    krk_long_clear garbage;;
    mret Ok).

Definition krk_long_div (out a b : Z) : St store raised :=
  s ← krk_long_sign b;
  if s =? 0 then mret ValueError
  else with_local (λ garbage,
    krk_long_init_si garbage 0;;
    krk_long_div_rem out garbage a b;;
    krk_long_clear garbage;;
    mret Ok).

(** The bits of the exponent, from the highest one.  That a signal to the thread gives the
    loop up is not modelled. *)
Definition krk_long_pow (out a b : Z) : St store raised :=
  s ← krk_long_sign b;
  if s =? 0 then krk_long_clear out;; krk_long_init_si out 1;; mret Ok
  else if s <? 0 then mret NotImplementedError
  else
    with_output out [a; b] (λ out,
      krk_long_clear out;;
      krk_long_init_si out 1;;
      with_local (λ scratch,
        krk_long_init_si scratch 0;;
        y ← rd b;
        for_loop (Z.to_nat (width y)) 0 (λ i _,
          b_i ← rd_digit b (width y - 1 - i);
          for_loop 31 0 (λ k _,
            let j := Z.shiftl 1 (DIGIT_SHIFT - 1 - k) in
            krk_long_mul scratch out out;;
            swap out scratch;;
            (if negb (Z.land b_i j =? 0) then krk_long_mul out out a else mret 0);;
            mret tt) tt) tt;;
        krk_long_clear scratch;;
        mret Ok)).
