(* ===== verification/KrkArith.v ===== *)
(** * Long integers of Kuroko: what the operations do

    [repr x v] says that a structure holds the number [v] in its one normal form.  Every
    operation is specified on the whole store: it changes the structure of its result and
    nothing else, whichever of its arguments are the same. *)
From S2P Require Import Prelude KrkDigits KrkLong.
Local Open Scope Z_scope.

Notation BASE := (2 ^ 31).
Notation eval := (KrkDigits.eval BASE).
Notation digits_ok := (KrkDigits.digits_ok BASE).

Lemma BASE_gt : 1 < BASE.
Proof. done. Qed.
#[export] Hint Resolve BASE_gt : core.

(** ** Structures and numbers *)

(** The array is as long as the width says. *)
Definition sized (x : KrkLong) : Prop := Z.of_nat (length (digits x)) = abs_width x.

Definition repr (x : KrkLong) (v : Z) : Prop :=
  width x = Z.sgn v * Z.of_nat (length (digits x)) ∧ digits_ok (digits x) ∧ normal (digits x) ∧ eval (digits x) = Z.abs v.

(** A number that is not negative. *)
Definition pos (ds : list Z) : KrkLong := Long (Z.of_nat (length ds)) ds.

Lemma repr_abs_width x v : repr x v → abs_width x = Z.of_nat (length (digits x)).
Proof.
  intros (Hw & Hd & Hn & He). unfold abs_width. destruct (Z.ltb_spec (width x) 0).
  - destruct (Z.sgn_spec v) as [(?&E)|[(?&E)|(?&E)]]; rewrite E in Hw; lia.
  - destruct (Z.sgn_spec v) as [(?&E)|[(?&E)|(?&E)]]; rewrite E in Hw; [lia| |lia].
    subst v. assert (digits x = []) as -> by (by apply (eval_normal_0 BASE)). simpl. lia.
Qed.

Lemma repr_sized x v : repr x v → sized x.
Proof. intros H. unfold sized. by rewrite (repr_abs_width _ _ H). Qed.

Lemma repr_width_neg x v : repr x v → (width x <? 0) = (v <? 0).
Proof.
  intros (Hw & Hd & Hn & He). apply eq_true_iff_eq. rewrite !Z.ltb_lt.
  assert (v ≠ 0 → (0 < length (digits x))%nat) by (intros ?; destruct (digits x); simpl in *; lia).
  destruct (Z.sgn_spec v) as [(?&E)|[(?&E)|(?&E)]]; rewrite E in Hw; lia.
Qed.

Lemma repr_width_0 x v : repr x v → (width x =? 0) = (v =? 0).
Proof.
  intros (Hw & Hd & Hn & He). apply eq_true_iff_eq. rewrite !Z.eqb_eq.
  assert (v ≠ 0 → (0 < length (digits x))%nat) by (intros ?; destruct (digits x); simpl in *; lia).
  destruct (Z.sgn_spec v) as [(?&E)|[(?&E)|(?&E)]]; rewrite E in Hw; lia.
Qed.

Lemma repr_width_pos x v : repr x v → (0 <? width x) = (0 <? v).
Proof.
  intros H. pose proof (repr_width_neg x v H). pose proof (repr_width_0 x v H).
  destruct (Z.ltb_spec (width x) 0), (Z.eqb_spec (width x) 0), (Z.ltb_spec v 0), (Z.eqb_spec v 0), (Z.ltb_spec 0 (width x)), (Z.ltb_spec 0 v); done || lia.
Qed.

(** The normal form is unique. *)
Lemma repr_inj x y v : repr x v → repr y v → x = y.
Proof.
  intros (Hw & Hd & Hn & He) (Hw' & Hd' & Hn' & He'). destruct x as [w ds], y as [w' ds']. simpl in *.
  assert (ds = ds') as -> by (apply (normal_inj BASE); first [done|congruence]). by rewrite Hw, Hw'.
Qed.

Lemma repr_0 : repr (Long 0 []) 0.
Proof. split_and!; [done|constructor|done|done]. Qed.

Lemma repr_pos ds : digits_ok ds → normal ds → repr (pos ds) (eval ds).
Proof.
  intros Hd Hn. pose proof (eval_nonneg BASE BASE_gt ds Hd). split_and!; [|done|done|simpl; lia].
  simpl. destruct ds as [|d ds]; [done|]. pose proof (eval_normal_pos BASE BASE_gt _ Hd Hn ltac:(done)). rewrite Z.sgn_pos by done. lia.
Qed.

Lemma repr_digits x v : repr x v → digits_ok (digits x) ∧ normal (digits x) ∧ eval (digits x) = Z.abs v.
Proof. by intros (_ & ? & ? & ?). Qed.

Lemma repr_nonneg x v : repr x v → 0 ≤ v → x = pos (digits x).
Proof.
  intros H Hv. pose proof (repr_width_neg x v H) as E. rewrite (proj2 (Z.ltb_ge v 0) Hv) in E.
  pose proof (repr_abs_width x v H) as W. unfold abs_width in W. rewrite E in W. destruct x as [w ds]. simpl in *. unfold pos. by rewrite W.
Qed.

Lemma sized_pos ds : sized (pos ds).
Proof. unfold sized, abs_width. simpl. bool_cases; lia. Qed.
Lemma abs_width_pos ds : abs_width (pos ds) = Z.of_nat (length ds).
Proof. unfold abs_width. simpl. bool_cases; lia. Qed.

(** ** Single accesses *)

Lemma rd_long_eq s a x : s !! a = Some x → rd a s = Done (x, s).
Proof. unfold rd. by intros ->. Qed.
Lemma wr_long_eq s a x y : s !! a = Some y → wr a x s = Done (tt, <[a := x]> s).
Proof. unfold wr. by intros ->. Qed.
Lemma wr_over s a x y : wr a x (<[a := y]> s) = Done (tt, <[a := x]> s).
Proof. rewrite (wr_long_eq _ _ _ y), insert_insert_eq; [done|apply lookup_insert_eq]. Qed.
Lemma rd_over s a x : rd a (<[a := x]> s) = Done (x, <[a := x]> s).
Proof. apply rd_long_eq, lookup_insert_eq. Qed.

Lemma digit_eq x i d : digits x !! i = Some d → digit x (Z.of_nat i) = Done d.
Proof. intros H. unfold digit. destruct (Z.ltb_spec (Z.of_nat i) 0); [lia|]. by rewrite Nat2Z.id, H. Qed.

Lemma rd_digit_eq s a x i d : s !! a = Some x → digits x !! i = Some d → rd_digit a (Z.of_nat i) s = Done (d, s).
Proof. intros Ha Hi. unfold rd_digit. st_step (rd_long_eq _ _ _ Ha). unfold lift. by rewrite (digit_eq _ _ _ Hi). Qed.

Lemma wr_digit_eq s a x i v : s !! a = Some x → (i < length (digits x))%nat →
  wr_digit a (Z.of_nat i) v s = Done (tt, <[a := Long (width x) (<[i := v]> (digits x))]> s).
Proof.
  intros Ha Hi. unfold wr_digit. st_step (rd_long_eq _ _ _ Ha).
  destruct (Z.leb_spec 0 (Z.of_nat i)), (Z.ltb_spec (Z.of_nat i) (Z.of_nat (length (digits x)))); try lia.
  simpl. rewrite (wr_long_eq _ _ _ _ Ha), Nat2Z.id. done.
Qed.

Lemma wr_digit_over s a w ds i v : (i < length ds)%nat →
  wr_digit a (Z.of_nat i) v (<[a := Long w ds]> s) = Done (tt, <[a := Long w (<[i := v]> ds)]> s).
Proof. intros Hi. rewrite (wr_digit_eq _ _ (Long w ds)), insert_insert_eq; [done|apply lookup_insert_eq|done]. Qed.

(** Lookups and equalities of updated stores. *)
Ltac store_lookup := repeat first [rewrite lookup_insert_eq | rewrite lookup_insert_ne by (done || congruence)]; first [done | congruence].
Ltac store_eq := apply map_eq; let k := fresh in intros k; rewrite ?lookup_insert; repeat (case_decide; subst; try done).

(** ** Loops *)

Lemma for_loop_inv {X} (I : nat → X → store → Prop) n first body x s :
  I O x s →
  (∀ i x s, (i < n)%nat → I i x s → ∃ x' s', body (first + Z.of_nat i) x s = Done (x', s') ∧ I (S i) x' s') →
  ∃ x' s', for_loop n first body x s = Done (x', s') ∧ I n x' s'.
Proof.
  revert I first x s. induction n as [|n IH]; intros I first x s H0 Hstep; [by eexists _, _|].
  destruct (Hstep O x s) as (x1 & s1 & E & H1); [lia|done|]. rewrite Z.add_0_r in E. cbn [for_loop]. st_step E.
  apply (IH (λ i, I (S i))); [done|]. intros i y t Hi Hy. replace (first + 1 + Z.of_nat i) with (first + Z.of_nat (S i)) by lia.
  apply Hstep; [lia|done].
Qed.

(** ** Locals *)

Lemma with_local_run {A} (f : Z → St store A) s r s' y : let t := fresh (dom s) in
  f t (<[t := Long 0 []]> s) = Done (r, <[t := y]> s') → s' !! t = None → with_local f s = Done (r, s').
Proof.
  intros t E Hn. unfold with_local. fold t. cbv zeta. st_step E. unfold modify. unfold mbind at 1, St_bind at 1.
  unfold mret, St_ret. by rewrite delete_insert_id.
Qed.

Lemma fresh_local (s : store) : s !! fresh (dom s) = None.
Proof. apply not_elem_of_dom, is_fresh. Qed.

(** ** Resizing, signs and zeros *)

Definition resized (n : nat) (l : list Z) : list Z := take n l ++ replicate (n - length l) 0.

Lemma length_resized n l : length (resized n l) = n.
Proof. unfold resized. rewrite length_app, length_take, length_replicate. lia. Qed.

Lemma resized_lookup n l i d : l !! i = Some d → (i < n)%nat → resized n l !! i = Some d.
Proof.
  intros H Hi. pose proof (lookup_lt_Some _ _ _ H). unfold resized.
  rewrite lookup_app_l by (rewrite length_take; lia). by rewrite lookup_take_lt.
Qed.

Lemma resized_zero n l i : (length l ≤ i < n)%nat → resized n l !! i = Some 0.
Proof.
  intros Hi. unfold resized. rewrite lookup_app_r by (rewrite length_take; lia).
  apply lookup_replicate_2. rewrite length_take. lia.
Qed.

Lemma digits_ok_resized n l : digits_ok l → digits_ok (resized n l).
Proof. intros H. apply digits_ok_app. split; [by apply Forall_take|by apply digits_ok_zeros]. Qed.

Lemma clear_eq s a x : s !! a = Some x → krk_long_clear a s = Done (0, <[a := Long 0 []]> s).
Proof. intros H. unfold krk_long_clear. by st_step (wr_long_eq _ _ (Long 0 []) _ H). Qed.

Lemma clear_over s a x : krk_long_clear a (<[a := x]> s) = Done (0, <[a := Long 0 []]> s).
Proof. rewrite (clear_eq _ _ x), insert_insert_eq; [done|apply lookup_insert_eq]. Qed.

Lemma resize_eq s a x n : s !! a = Some x → sized x →
  krk_long_resize a (Z.of_nat n) s = Done (0, <[a := pos (resized n (digits x))]> s).
Proof.
  intros Ha Hx. unfold krk_long_resize. destruct (Z.eqb_spec (Z.of_nat n) 0) as [E|E].
  - rewrite (clear_eq _ _ _ Ha). assert (n = O) as -> by lia. done.
  - st_step (rd_long_eq _ _ _ Ha). rewrite (proj2 (Z.ltb_ge (Z.of_nat n) 0) ltac:(lia)).
    st_step (wr_long_eq _ _ (Long (Z.of_nat n) (if width x =? 0 then replicate (Z.to_nat (Z.of_nat n)) 0
       else if abs_width x <? Z.of_nat n then take (Z.to_nat (abs_width x)) (digits x) ++ replicate (Z.to_nat (Z.of_nat n - abs_width x)) 0
       else take (Z.to_nat (Z.of_nat n)) (digits x))) _ Ha).
    unfold mret, St_ret. do 3 f_equal. unfold pos. rewrite length_resized. f_equal. unfold resized, sized in *.
    rewrite <-Hx. destruct (Z.eqb_spec (width x) 0) as [Ew|Ew].
    + assert (length (digits x) = O) as El by (unfold abs_width in Hx; rewrite Ew in Hx; simpl in Hx; lia).
      apply nil_length_inv in El. rewrite El, Nat2Z.id, take_nil. simpl. f_equal. lia.
    + destruct (Z.ltb_spec (Z.of_nat (length (digits x))) (Z.of_nat n)).
      * rewrite Nat2Z.id, !take_ge by lia. do 2 f_equal. lia.
      * rewrite Nat2Z.id. replace (n - length (digits x))%nat with O by lia. by rewrite app_nil_r.
Qed.

Lemma set_sign_eq s a x sg : s !! a = Some x →
  krk_long_set_sign a sg s = Done (0, <[a := Long (abs_width x * sg) (digits x)]> s).
Proof.
  intros Ha. unfold krk_long_set_sign, set_width. st_step (rd_long_eq _ _ _ Ha).
  unfold mbind at 1, St_bind at 1. st_step (rd_long_eq _ _ _ Ha). rewrite (wr_long_eq _ _ _ _ Ha).
  unfold mret, St_ret, abs_width. do 4 f_equal. destruct (width x <? 0); lia.
Qed.

Lemma set_sign_over s a x sg : krk_long_set_sign a sg (<[a := x]> s) = Done (0, <[a := Long (abs_width x * sg) (digits x)]> s).
Proof. rewrite (set_sign_eq _ _ x), insert_insert_eq; [done|apply lookup_insert_eq]. Qed.

Lemma repr_signed ds sg : digits_ok ds → normal ds → sg = 1 ∨ sg = -1 → repr (Long (abs_width (pos ds) * sg) ds) (sg * eval ds).
Proof.
  intros Hd Hn Hs. pose proof (eval_nonneg BASE BASE_gt ds Hd). rewrite abs_width_pos. split_and!; simpl; try done; [|by destruct Hs; subst; lia].
  destruct ds as [|d ds]; [simpl; lia|]. pose proof (eval_normal_pos BASE BASE_gt _ Hd Hn ltac:(done)).
  rewrite Z.sgn_mul, (Z.sgn_pos (eval (d :: ds))) by done. destruct Hs as [-> | ->]; simpl; lia.
Qed.

Lemma redundant_eq ds : redundant (length ds) (pos ds) = Done (Z.of_nat (length ds) - Z.of_nat (length (trimmed ds))).
Proof.
  assert (H : ∀ k, redundant (length ds) (pos (ds ++ k)) = Done (Z.of_nat (length ds) - Z.of_nat (length (trimmed ds)))); [|specialize (H []); by rewrite app_nil_r in H].
  induction ds as [|d ds IH] using rev_ind; intros k; [done|]. rewrite length_app, Nat.add_comm. cbn [redundant length Nat.add].
  rewrite (digit_eq _ _ d) by (simpl; rewrite <-app_assoc; by apply list_lookup_middle). osimpl. rewrite trimmed_snoc.
  destruct (Z.eqb_spec d 0).
  - rewrite <-app_assoc, IH. osimpl. f_equal. lia.
  - f_equal. rewrite length_app. simpl. lia.
Qed.

Lemma trimmed_prefix ds : ∃ n, ds = trimmed ds ++ replicate n 0.
Proof.
  induction ds as [|d ds (n & IH)]; [by exists O|]. rewrite trimmed_cons. destruct (trimmed ds) as [|e k] eqn:E.
  - destruct (Z.eqb_spec d 0) as [->|]; [exists (S n); by rewrite IH at 1|exists n; by rewrite IH at 1].
  - exists n. by rewrite IH at 1.
Qed.

Lemma trim_over s a ds : krk_long_trim a (<[a := pos ds]> s) = Done (0, <[a := pos (trimmed ds)]> s).
Proof.
  unfold krk_long_trim. st_step (rd_over s a (pos ds)). rewrite abs_width_pos, Nat2Z.id, redundant_eq.
  unfold lift. unfold mbind at 1, St_bind at 1. destruct (trimmed_prefix ds) as (n & E).
  assert (L : length ds = (length (trimmed ds) + n)%nat) by (rewrite E at 1; by rewrite length_app, length_replicate).
  destruct (Z.eqb_spec (Z.of_nat (length ds) - Z.of_nat (length (trimmed ds))) 0) as [E0|E0]; cbn [negb].
  - assert (n = O) as -> by lia. rewrite app_nil_r in E. by rewrite <-E.
  - replace (Z.of_nat (length ds) - (Z.of_nat (length ds) - Z.of_nat (length (trimmed ds)))) with (Z.of_nat (length (trimmed ds))) by lia.
    rewrite (proj2 (Z.ltb_ge (width (pos ds)) 0)) by (simpl; lia).
    st_step (resize_eq (<[a := pos ds]> s) a (pos ds) (length (trimmed ds)) (lookup_insert_eq _ _ _) (sized_pos ds)).
    unfold mret, St_ret. rewrite insert_insert_eq. do 4 f_equal. unfold resized. simpl digits.
    replace (length (trimmed ds) - length ds)%nat with O by lia. rewrite app_nil_r. rewrite E at 2. by rewrite take_app_length.
Qed.

(** ** Comparison *)

Lemma compare_digits_eq n x y sg : n = length (digits x) → n = length (digits y) → digits_ok (digits x) → digits_ok (digits y) →
  compare_digits n x y sg =
    Done (if eval (digits x) <? eval (digits y) then - sg else if eval (digits y) <? eval (digits x) then sg else 0).
Proof.
  assert (H : ∀ n dx dy kx ky, n = length dx → n = length dy → digits_ok dx → digits_ok dy →
    compare_digits n (Long (width x) (dx ++ kx)) (Long (width y) (dy ++ ky)) sg =
    Done (if eval dx <? eval dy then - sg else if eval dy <? eval dx then sg else 0)).
  { clear. intros n. induction n as [|n IH]; intros dx dy kx ky Hx Hy Dx Dy.
    - symmetry in Hx, Hy. apply nil_length_inv in Hx, Hy. by subst.
    - destruct dx as [|d dx] using rev_ind; [done|]. destruct dy as [|e dy] using rev_ind; [done|]. clear IHdx IHdy.
      rewrite length_app in Hx, Hy. simpl in Hx, Hy. apply digits_ok_app in Dx as [Dx Dd], Dy as [Dy De]. inversion_clear Dd. inversion_clear De.
      assert (n = length dx ∧ n = length dy) as [Lx Ly] by lia. cbn [compare_digits].
      rewrite (digit_eq (Long (width x) ((dx ++ [d]) ++ kx)) n d) by (simpl; rewrite <-app_assoc, Lx; by apply list_lookup_middle). osimpl.
      rewrite (digit_eq (Long (width y) ((dy ++ [e]) ++ ky)) n e) by (simpl; rewrite <-app_assoc, Ly; by apply list_lookup_middle). osimpl.
      rewrite !(eval_snoc BASE), <-Lx, <-Ly. pose proof (eval_bound BASE BASE_gt dx Dx). pose proof (eval_bound BASE BASE_gt dy Dy).
      rewrite <-Lx in *. rewrite <-Ly in *. set (P := BASE ^ Z.of_nat n) in *.
      destruct (Z.ltb_spec e d); [|destruct (Z.ltb_spec d e)].
      + assert (P * e + P ≤ P * d) by nia. destruct (Z.ltb_spec (eval dx + P * d) (eval dy + P * e)); [lia|].
        destruct (Z.ltb_spec (eval dy + P * e) (eval dx + P * d)); [done|lia].
      + assert (P * d + P ≤ P * e) by nia. destruct (Z.ltb_spec (eval dx + P * d) (eval dy + P * e)); [done|lia].
      + assert (d = e) as -> by lia. rewrite <-!app_assoc, IH by done. f_equal.
        repeat match goal with |- context [?u <? ?v] => destruct (Z.ltb_spec u v) end; lia. }
  intros Hx Hy Dx Dy. specialize (H n (digits x) (digits y) [] [] Hx Hy Dx Dy). rewrite !app_nil_r in H. by destruct x, y.
Qed.

(** The three-way comparison of two numbers. *)
Definition cmp (u v : Z) : Z := if u <? v then -1 else if v <? u then 1 else 0.

Lemma compare_abs_eq s a b x y u v : s !! a = Some x → s !! b = Some y → repr x u → repr y v →
  krk_long_compare_abs a b s = Done (cmp (Z.abs u) (Z.abs v), s).
Proof.
  intros Ha Hb Hx Hy. unfold krk_long_compare_abs. st_step (rd_long_eq _ _ _ Ha). st_step (rd_long_eq _ _ _ Hb).
  rewrite (repr_abs_width _ _ Hx), (repr_abs_width _ _ Hy). destruct Hx as (_ & Dx & Nx & <-), Hy as (_ & Dy & Ny & <-).
  unfold cmp. destruct (Z.ltb_spec (Z.of_nat (length (digits y))) (Z.of_nat (length (digits x)))).
  { pose proof (eval_longer BASE BASE_gt (digits y) (digits x) Dy Dx Nx ltac:(lia)). bool_cases; done || lia. }
  destruct (Z.ltb_spec (Z.of_nat (length (digits x))) (Z.of_nat (length (digits y)))).
  { pose proof (eval_longer BASE BASE_gt (digits x) (digits y) Dx Dy Ny ltac:(lia)). bool_cases; done || lia. }
  unfold lift. rewrite (compare_digits_eq _ x y 1) by (rewrite ?Nat2Z.id; done || lia). done.
Qed.

Lemma compare_eq s a b x y u v : s !! a = Some x → s !! b = Some y → repr x u → repr y v →
  krk_long_compare a b s = Done (cmp u v, s).
Proof.
  intros Ha Hb Hx Hy. unfold krk_long_compare. st_step (rd_long_eq _ _ _ Ha). st_step (rd_long_eq _ _ _ Hb).
  pose proof (repr_width_neg _ _ Hx) as Sx. pose proof (repr_width_neg _ _ Hy) as Sy.
  pose proof (repr_abs_width _ _ Hx) as Ax. pose proof (repr_abs_width _ _ Hy) as Ay. rewrite Ax.
  unfold abs_width in Ax, Ay. rewrite Sx in Ax |- *. rewrite Sy in Ay.
  destruct Hx as (_ & Dx & Nx & Ex), Hy as (_ & Dy & Ny & Ey). unfold cmp.
  assert (Lxy : Z.of_nat (length (digits x)) < Z.of_nat (length (digits y)) → Z.abs u < Z.abs v).
  { intros. rewrite <-Ex, <-Ey. apply (eval_longer BASE BASE_gt); auto; lia. }
  assert (Lyx : Z.of_nat (length (digits y)) < Z.of_nat (length (digits x)) → Z.abs v < Z.abs u).
  { intros. rewrite <-Ex, <-Ey. apply (eval_longer BASE BASE_gt); auto; lia. }
  destruct (Z.ltb_spec (width x) 0) as [Wx|Wx], (Z.ltb_spec u 0) as [U|U]; try done.
  all: destruct (Z.ltb_spec (width y) 0) as [Wy|Wy], (Z.ltb_spec v 0) as [V|V]; try done.
  all: destruct (Z.ltb_spec (width y) (width x)); [destruct (Z.ltb_spec u v); [lia|]; destruct (Z.ltb_spec v u); [done|lia]|].
  all: destruct (Z.ltb_spec (width x) (width y)); [destruct (Z.ltb_spec u v); [done|lia]|].
  all: try lia.
  all: unfold lift; rewrite compare_digits_eq by (rewrite ?Nat2Z.id; done || lia); rewrite Ex, Ey; do 2 f_equal.
  all: destruct (Z.ltb_spec (Z.abs u) (Z.abs v)), (Z.ltb_spec (Z.abs v) (Z.abs u)), (Z.ltb_spec u v), (Z.ltb_spec v u); lia.
Qed.

(** ** Sums and differences of digits *)

Lemma eval_take_default l i : eval (take (S i) l) = eval (take i l) + BASE ^ Z.of_nat i * default 0 (l !! i).
Proof.
  destruct (l !! i) as [d|] eqn:E; simpl; [by apply eval_take_S|].
  apply lookup_ge_None in E. rewrite !take_ge by lia. lia.
Qed.

Lemma digits_ok_default l i : digits_ok l → 0 ≤ default 0 (l !! i) < BASE.
Proof. intros H. destruct (l !! i) as [d|] eqn:E; simpl; [by eapply digits_ok_lookup|lia]. Qed.

(** The digits of the result are written from the lowest one on, over those of [R]. *)
Lemma wr_next s a w ds R i v : i = length ds → (i < length R)%nat →
  wr_digit a (Z.of_nat i) v (<[a := Long w (ds ++ drop i R)]> s) = Done (tt, <[a := Long w ((ds ++ [v]) ++ drop (S i) R)]> s).
Proof.
  intros -> Hi. rewrite wr_digit_over by (rewrite length_app, length_drop; lia). do 4 f_equal.
  rewrite insert_app_r_alt by lia. rewrite Nat.sub_diag. rewrite (drop_S R (R !!! length ds) (length ds)); [by rewrite <-app_assoc|].
  by apply list_lookup_lookup_total_lt.
Qed.

Lemma digit_or_0_operand s res a x w R ds i :
  s !! a = Some x → (a = res → ∀ d, digits x !! i = Some d → R !! i = Some d) → length ds = i →
  digit_or_0 a (Z.of_nat (length (digits x))) (Z.of_nat i) (<[res := Long w (ds ++ drop i R)]> s) =
    Done (default 0 (digits x !! i), <[res := Long w (ds ++ drop i R)]> s).
Proof.
  intros Ha Hr Hi. unfold digit_or_0. destruct (Z.ltb_spec (Z.of_nat i) (Z.of_nat (length (digits x)))) as [H|H].
  - destruct (lookup_lt_is_Some_2 (digits x) i ltac:(lia)) as [d Hd]. rewrite Hd. simpl. destruct (decide (a = res)) as [E|E].
    + subst a. eapply rd_digit_eq; [apply lookup_insert_eq|]. simpl. rewrite lookup_app_r, Hi, Nat.sub_diag, lookup_drop, Nat.add_0_r by lia. auto.
    + eapply rd_digit_eq; [by rewrite lookup_insert_ne|done].
  - rewrite (lookup_ge_None_2 (digits x) i) by lia. done.
Qed.

Lemma land_MAX v : Z.land v DIGIT_MAX = v `mod` BASE.
Proof. change DIGIT_MAX with (Z.ones 31). by rewrite Z.land_ones. Qed.

Lemma land_MAX_range v : 0 ≤ Z.land v DIGIT_MAX < BASE.
Proof. rewrite land_MAX. by apply Z.mod_pos_bound. Qed.

(** The digits of a sum, and whether one is carried out of them. *)
Definition add_body (res a b : Z) (aw bw : Z) (i carry : Z) : St store Z :=
  d ← digit_or_0 a aw i;
  e ← digit_or_0 b bw i;
  let out := u32 (d + e + carry) in
  wr_digit res i (Z.land out DIGIT_MAX);;
  mret (truth (DIGIT_MAX <? out)).

Lemma carried t : 0 ≤ t < 2 * BASE → t `mod` BASE + BASE * truth (DIGIT_MAX <? t) = t.
Proof.
  intros Ht. unfold truth, DIGIT_MAX. destruct (Z.ltb_spec 0x7FFFFFFF t); [|rewrite Z.mod_small; lia].
  rewrite <-(Z_mod_plus_full t (-1)), Z.mod_small; lia.
Qed.

Lemma add_loop s res a b x y R w n :
  s !! a = Some x → s !! b = Some y → res ≠ a → res ≠ b → digits_ok (digits x) → digits_ok (digits y) → (n < length R)%nat →
  ∃ carry ds, for_loop n 0 (add_body res a b (Z.of_nat (length (digits x))) (Z.of_nat (length (digits y)))) 0 (<[res := Long w R]> s) =
      Done (carry, <[res := Long w (ds ++ drop n R)]> s) ∧
    length ds = n ∧ digits_ok ds ∧ 0 ≤ carry ≤ 1 ∧
    eval ds + BASE ^ Z.of_nat n * carry = eval (take n (digits x)) + eval (take n (digits y)).
Proof.
  intros Ha Hb Hra Hrb Dx Dy HR.
  destruct (for_loop_inv (λ i carry s', ∃ ds, s' = <[res := Long w (ds ++ drop i R)]> s ∧ length ds = i ∧ digits_ok ds ∧
      0 ≤ carry ≤ 1 ∧ eval ds + BASE ^ Z.of_nat i * carry = eval (take i (digits x)) + eval (take i (digits y))) n 0
      (add_body res a b (Z.of_nat (length (digits x))) (Z.of_nat (length (digits y)))) 0 (<[res := Long w R]> s))
    as (carry & s' & E & ds & -> & H); [| |by eauto].
  - exists []. split_and!; try done. constructor.
  - intros i carry s' Hi (ds & -> & Hl & Hd & Hc & He). rewrite Z.add_0_l. unfold add_body.
    st_step (digit_or_0_operand s res a x w R ds i Ha ltac:(congruence) Hl).
    st_step (digit_or_0_operand s res b y w R ds i Hb ltac:(congruence) Hl).
    set (t := default 0 (digits x !! i) + default 0 (digits y !! i) + carry).
    st_step (wr_next s res w ds R i (Z.land (u32 t) DIGIT_MAX) ltac:(done) ltac:(lia)).
    pose proof (digits_ok_default _ i Dx). pose proof (digits_ok_default _ i Dy).
    assert (Ht : 0 ≤ t < 2 * BASE) by (unfold t; lia). rewrite u32_small by lia.
    eexists _, _. split; [done|]. eexists. split; [done|]. split_and!.
    + rewrite length_app. simpl. lia.
    + apply digits_ok_app. split; [done|]. constructor; [apply land_MAX_range|done].
    + unfold truth. destruct (_ <? _); lia.
    + unfold truth. destruct (_ <? _); lia.
    + rewrite (eval_snoc BASE), !eval_take_default, pow_S, land_MAX, Hl. pose proof (carried t Ht) as C.
      unfold t at 3 in C. set (P := BASE ^ Z.of_nat i) in *. nia.
Qed.

(** A number as large as a normal numeral of [n] digits has its highest digit. *)
Lemma normal_large ds v n : digits_ok ds → length ds = n → eval ds = v → BASE ^ (Z.of_nat n - 1) ≤ v → normal ds.
Proof.
  intros Hd Hl He Hv. destruct ds as [|d ds _] using rev_ind; [done|]. unfold normal. rewrite last_snoc. intros [= ->].
  rewrite length_app in Hl. simpl in Hl. rewrite (eval_snoc BASE) in He. apply digits_ok_app in Hd as [Hd _].
  pose proof (eval_bound BASE BASE_gt ds Hd). replace (Z.of_nat n - 1) with (Z.of_nat (length ds)) in Hv by lia. lia.
Qed.

Lemma eval_max l k : digits_ok l → digits_ok k → normal l → normal k → l ≠ [] →
  BASE ^ (Z.of_nat (Nat.max (length l) (length k)) - 1) ≤ eval l + eval k.
Proof.
  intros Hl Hk Nl Nk Hne. pose proof (eval_nonneg BASE BASE_gt l Hl). pose proof (eval_nonneg BASE BASE_gt k Hk).
  destruct (Nat.max_spec (length l) (length k)) as [[H1 ->]|[H1 ->]].
  - pose proof (eval_normal BASE BASE_gt k Hk Nk ltac:(by intros ->; simpl in H1; lia)). lia.
  - pose proof (eval_normal BASE BASE_gt l Hl Nl Hne). lia.
Qed.

(** A sum has one digit more at most. *)
Lemma add_ignore_sign_eq s res a b z x y u v :
  s !! res = Some z → sized z → s !! a = Some x → s !! b = Some y → res ≠ a → res ≠ b → repr x u → repr y v → u ≠ 0 →
  ∃ ds, krk_long_add_ignore_sign res a b s = Done (0, <[res := pos ds]> s) ∧
    digits_ok ds ∧ normal ds ∧ eval ds = Z.abs u + Z.abs v.
Proof.
  intros Hz Hs Ha Hb Hra Hrb Hx Hy Hu. unfold krk_long_add_ignore_sign. st_step (rd_long_eq _ _ _ Ha). st_step (rd_long_eq _ _ _ Hb).
  rewrite (repr_abs_width _ _ Hx), (repr_abs_width _ _ Hy). destruct (repr_digits _ _ Hx) as (Dx & Nx & Ex). destruct (repr_digits _ _ Hy) as (Dy & Ny & Ey).
  assert (Hne : digits x ≠ []) by (intros E; rewrite E in Ex; simpl in Ex; lia). cbv zeta. rewrite <-Ex, <-Ey.
  pose proof (eval_max _ _ Dx Dy Nx Ny Hne) as Hmax.
  assert (Hn : ∃ n, n = Nat.max (length (digits x)) (length (digits y)) ∧
     (if Z.of_nat (length (digits x)) <? Z.of_nat (length (digits y)) then Z.of_nat (length (digits y)) + 1 else Z.of_nat (length (digits x)) + 1) = Z.of_nat (S n)).
  { eexists. split; [done|]. destruct (Z.ltb_spec (Z.of_nat (length (digits x))) (Z.of_nat (length (digits y)))); lia. }
  destruct Hn as (n & Hn & ->). rewrite <-Hn in Hmax. st_step (resize_eq s res z (S n) Hz Hs). set (R := resized (S n) (digits z)).
  assert (LR : length R = S n) by apply length_resized. unfold pos at 1. rewrite LR.
  replace (Z.of_nat (S n) - 1) with (Z.of_nat n) by lia. rewrite Nat2Z.id.
  destruct (add_loop s res a b x y R (Z.of_nat (S n)) n Ha Hb Hra Hrb Dx Dy ltac:(lia)) as (carry & ds & E & Hl & Hd & Hc & He).
  rewrite !take_ge in He by lia. unfold add_body in E. st_step E. destruct (Z.eqb_spec carry 0) as [->|Hc0]; cbn [negb].
  - exists ds. split; [|split_and!; [done| |lia]]; [|apply (normal_large ds (eval (digits x) + eval (digits y)) n); auto; lia].
    erewrite St_bind_done; [done|].
    st_step (resize_eq (<[res := Long (Z.of_nat (S n)) (ds ++ drop n R)]> s) res (Long (Z.of_nat (S n)) (ds ++ drop n R)) n (lookup_insert_eq _ _ _)
      ltac:(unfold sized, abs_width; simpl; rewrite length_app, length_drop; bool_cases; lia)).
    unfold mret, St_ret. rewrite insert_insert_eq. do 4 f_equal. simpl. unfold resized. rewrite length_app, length_drop.
    rewrite take_app_length' by done. replace (n - (length ds + (length R - n)))%nat with O by lia. by rewrite app_nil_r.
  - assert (carry = 1) as -> by lia. exists (ds ++ [1]). split.
    + st_step (wr_next s res (Z.of_nat (S n)) ds R n 1 ltac:(done) ltac:(lia)). unfold mret, St_ret. do 3 f_equal.
      rewrite drop_ge, app_nil_r by lia. unfold pos. rewrite length_app. simpl. f_equal. lia.
    + split_and!; [|unfold normal; by rewrite last_snoc|rewrite (eval_snoc BASE), Hl; lia].
      apply digits_ok_app. split; [done|]. constructor; [lia|done].
Qed.

(** The difference, also into one of the operands. *)
Definition sub_body (res a b : Z) (aw bw : Z) (i carry : Z) : St store Z :=
  d ← digit_or_0 a aw i;
  e ← digit_or_0 b bw i;
  let a_digit := d - carry in
  let '(a_digit, carry) := if a_digit <? e then (a_digit + Z.shiftl 1 DIGIT_SHIFT, 1) else (a_digit, 0) in
  wr_digit res i (Z.land (a_digit - e) DIGIT_MAX);;
  mret carry.

Lemma sub_loop s res a b x y R w n :
  s !! a = Some x → s !! b = Some y →
  (a = res → ∀ i d, (i < n)%nat → digits x !! i = Some d → R !! i = Some d) →
  (b = res → ∀ i d, (i < n)%nat → digits y !! i = Some d → R !! i = Some d) →
  digits_ok (digits x) → digits_ok (digits y) → (n ≤ length R)%nat →
  ∃ carry ds, for_loop n 0 (sub_body res a b (Z.of_nat (length (digits x))) (Z.of_nat (length (digits y)))) 0 (<[res := Long w R]> s) =
      Done (carry, <[res := Long w (ds ++ drop n R)]> s) ∧
    length ds = n ∧ digits_ok ds ∧ 0 ≤ carry ≤ 1 ∧
    eval ds - BASE ^ Z.of_nat n * carry = eval (take n (digits x)) - eval (take n (digits y)).
Proof.
  intros Ha Hb Hra Hrb Dx Dy HR.
  destruct (for_loop_inv (λ i carry s', ∃ ds, s' = <[res := Long w (ds ++ drop i R)]> s ∧ length ds = i ∧ digits_ok ds ∧
      0 ≤ carry ≤ 1 ∧ eval ds - BASE ^ Z.of_nat i * carry = eval (take i (digits x)) - eval (take i (digits y))) n 0
      (sub_body res a b (Z.of_nat (length (digits x))) (Z.of_nat (length (digits y)))) 0 (<[res := Long w R]> s))
    as (carry & s' & E & ds & -> & H); [| |by eauto].
  - exists []. split_and!; try done. constructor.
  - intros i carry s' Hi (ds & -> & Hl & Hd & Hc & He). rewrite Z.add_0_l. unfold sub_body.
    st_step (digit_or_0_operand s res a x w R ds i Ha ltac:(eauto) Hl).
    st_step (digit_or_0_operand s res b y w R ds i Hb ltac:(eauto) Hl).
    pose proof (digits_ok_default _ i Dx). pose proof (digits_ok_default _ i Dy).
    rewrite (surjective_pairing (if _ : bool then _ else _)).
    set (p := if _ : bool then _ else _).
    assert (Hp : fst p - BASE * snd p = default 0 (digits x !! i) - carry ∧ 0 ≤ fst p - default 0 (digits y !! i) < BASE ∧ 0 ≤ snd p ≤ 1).
    { unfold p, DIGIT_SHIFT. rewrite Z.shiftl_1_l. destruct (Z.ltb_spec (default 0 (digits x !! i) - carry) (default 0 (digits y !! i))); simpl; lia. }
    st_step (wr_next s res w ds R i (Z.land (fst p - default 0 (digits y !! i)) DIGIT_MAX) ltac:(done) ltac:(lia)).
    eexists _, _. split; [done|]. eexists. split; [done|]. split_and!; try apply Hp.
    + rewrite length_app. simpl. lia.
    + apply digits_ok_app. split; [done|]. constructor; [apply land_MAX_range|done].
    + rewrite (eval_snoc BASE), !eval_take_default, pow_S, land_MAX, Hl, Z.mod_small by apply Hp.
      set (P := BASE ^ Z.of_nat i) in *. nia.
Qed.

Lemma sub_big_small_eq s res a b z x y u v :
  s !! res = Some z → sized z → s !! a = Some x → s !! b = Some y → repr x u → repr y v → Z.abs v ≤ Z.abs u →
  ∃ ds, sub_big_small res a b s = Done (0, <[res := pos ds]> s) ∧
    digits_ok ds ∧ normal ds ∧ eval ds = Z.abs u - Z.abs v.
Proof.
  intros Hz Hs Ha Hb Hx Hy Hu. unfold sub_big_small. st_step (rd_long_eq _ _ _ Ha). st_step (rd_long_eq _ _ _ Hb).
  rewrite (repr_abs_width _ _ Hx), (repr_abs_width _ _ Hy). destruct (repr_digits _ _ Hx) as (Dx & Nx & Ex). destruct (repr_digits _ _ Hy) as (Dy & Ny & Ey).
  cbv zeta. rewrite <-Ex, <-Ey in *. set (n := length (digits x)). st_step (resize_eq s res z n Hz Hs).
  set (R := resized n (digits z)). assert (LR : length R = n) by apply length_resized. unfold pos at 1. rewrite LR, Nat2Z.id.
  assert (Ly : (length (digits y) ≤ n)%nat).
  { destruct (decide (n < length (digits y))%nat) as [H|H]; [|lia]. pose proof (eval_longer BASE BASE_gt _ _ Dx Dy Ny H). lia. }
  assert (Hop : ∀ c t, s !! c = Some t → c = res → ∀ i d, (i < n)%nat → digits t !! i = Some d → R !! i = Some d).
  { intros c t Hc -> i d Hi Hd. apply resized_lookup; [congruence|done]. }
  destruct (sub_loop s res a b x y R (Z.of_nat n) n Ha Hb (Hop a x Ha) (Hop b y Hb) Dx Dy ltac:(lia)) as (carry & ds & E & Hl & Hd & Hc & He).
  unfold sub_body in E. st_step E. rewrite drop_ge, app_nil_r by lia. rewrite !take_ge in He by lia.
  assert (carry = 0) as ->.
  { pose proof (eval_bound BASE BASE_gt ds Hd). rewrite Hl in *. set (P := BASE ^ Z.of_nat n) in *. nia. }
  exists (trimmed ds). split_and!; [|by apply digits_ok_trimmed|apply normal_trimmed|rewrite eval_trimmed; lia].
  replace (Long (Z.of_nat n) ds) with (pos ds) by (unfold pos; by rewrite Hl). by st_step (trim_over s res ds).
Qed.

(** ** Copies and small numbers *)

Lemma copy_digits_eq x : ∀ n i, (i + n = length (digits x))%nat → copy_digits n x (Z.of_nat i) = Done (drop i (digits x)).
Proof.
  induction n as [|n IH]; intros i Hi; simpl; [by rewrite drop_ge by lia|].
  destruct (lookup_lt_is_Some_2 (digits x) i ltac:(lia)) as [d Hd]. rewrite (digit_eq _ _ _ Hd). osimpl.
  replace (Z.of_nat i + 1) with (Z.of_nat (S i)) by lia. rewrite IH by lia. osimpl. by rewrite (drop_S _ _ _ Hd).
Qed.

Lemma init_copy_eq s out a x z : s !! out = Some z → s !! a = Some x → sized x →
  krk_long_init_copy out a s = Done (0, <[out := x]> s).
Proof.
  intros Hz Ha Hx. unfold krk_long_init_copy. st_step (rd_long_eq _ _ _ Ha). rewrite <-Hx, Nat2Z.id.
  pose proof (copy_digits_eq x (length (digits x)) 0 ltac:(lia)) as E. change (Z.of_nat 0) with 0 in E. rewrite E. unfold lift. unfold mbind at 1, St_bind at 1.
  st_step (wr_long_eq s out (Long (width x) (drop 0 (digits x))) _ Hz). rewrite drop_0. by destruct x.
Qed.

Lemma init_copy_over s out a x z : s !! a = Some x → a ≠ out → sized x →
  krk_long_init_copy out a (<[out := z]> s) = Done (0, <[out := x]> s).
Proof. intros Ha Hn Hx. rewrite (init_copy_eq _ _ _ x z), insert_insert_eq; [done|apply lookup_insert_eq|by rewrite lookup_insert_ne|done]. Qed.

Lemma extract_digits_numeral n v : extract_digits n v = numeral BASE n v.
Proof.
  revert v. induction n as [|n IH]; intros v; [done|]. rewrite (numeral_S BASE BASE_gt). cbn [extract_digits]. unfold DIGIT_SHIFT.
  by rewrite IH, land_MAX, Z.shiftr_div_pow2 by done.
Qed.

(** How many digits a word has. *)
Lemma count_long_digits_eq v : DIGIT_MAX < v < 2 ^ 64 →
  ∃ n, count_digits v = Done (Z.of_nat n) ∧ (1 < n ≤ 3)%nat ∧ BASE ^ (Z.of_nat n - 1) ≤ v < BASE ^ Z.of_nat n.
Proof.
  unfold DIGIT_MAX. intros Hv. unfold count_digits, DIGIT_SHIFT, DIGIT_MAX. cbn [loop].
  rewrite (proj2 (Z.ltb_lt 0x7FFFFFFF v)) by lia. cbn [loop]. rewrite Z.shiftr_div_pow2 by done.
  destruct (Z.ltb_spec 0x7FFFFFFF (v / BASE)) as [H|H].
  - cbn [loop]. rewrite Z.shiftr_div_pow2 by done. rewrite (proj2 (Z.ltb_ge 0x7FFFFFFF (v / BASE / BASE))); cycle 1.
    { rewrite Z.div_div by done. assert (v / (BASE * BASE) < 4) by (apply Z.div_lt_upper_bound; lia). lia. }
    exists 3%nat. split_and!; try done; try lia. change (BASE ^ (Z.of_nat 3 - 1)) with (BASE * BASE).
    pose proof (Z.mul_div_le v BASE ltac:(done)). lia.
  - exists 2%nat. split_and!; try done; try lia. change (BASE ^ Z.of_nat 2) with (BASE * BASE).
    pose proof (Z.mul_succ_div_gt v BASE ltac:(done)). lia.
Qed.

Lemma repr_numeral n v sg : (0 < n)%nat → BASE ^ (Z.of_nat n - 1) ≤ v < BASE ^ Z.of_nat n → sg = 1 ∨ sg = -1 →
  repr (Long (Z.of_nat n * sg) (numeral BASE n v)) (sg * v).
Proof.
  intros Hn Hv Hs. assert (0 < BASE ^ (Z.of_nat n - 1)) by (apply Z.pow_pos_nonneg; lia).
  assert (E : eval (numeral BASE n v) = v) by (rewrite eval_numeral by done; apply Z.mod_small; lia).
  pose proof (digits_ok_numeral BASE BASE_gt n v) as D. pose proof (length_numeral BASE n v) as L.
  pose proof (normal_large _ _ n D L E (proj1 Hv)) as N. pose proof (repr_signed _ sg D N Hs) as H1.
  by rewrite abs_width_pos, L, E in H1.
Qed.

Lemma init_ui_eq s a z v : s !! a = Some z → 0 ≤ v < 2 ^ 64 → ∃ x, krk_long_init_ui a v s = Done (0, <[a := x]> s) ∧ repr x v.
Proof.
  intros Ha Hv. unfold krk_long_init_ui. destruct (Z.eqb_spec v 0) as [->|H0].
  { st_step (wr_long_eq _ _ (Long 0 []) _ Ha). eexists. split; [done|apply repr_0]. }
  destruct (Z.leb_spec v DIGIT_MAX) as [H|H].
  - st_step (wr_long_eq _ _ (Long 1 [v]) _ Ha). eexists. split; [done|]. unfold DIGIT_MAX in H. split_and!; simpl; try lia.
    + repeat constructor; lia.
    + unfold normal. simpl. congruence.
  - destruct (count_long_digits_eq v ltac:(lia)) as (n & E & Hn & Hb). rewrite E. unfold lift. unfold mbind at 1, St_bind at 1.
    rewrite Nat2Z.id, extract_digits_numeral. st_step (wr_long_eq _ _ (Long (Z.of_nat n) (numeral BASE n v)) _ Ha). eexists. split; [done|].
    pose proof (repr_numeral n v 1 ltac:(lia) Hb (or_introl eq_refl)) as R. by rewrite Z.mul_1_r, Z.mul_1_l in R.
Qed.

Lemma init_si_eq s a z v : s !! a = Some z → - 2 ^ 63 ≤ v < 2 ^ 63 → ∃ x, krk_long_init_si a v s = Done (0, <[a := x]> s) ∧ repr x v.
Proof.
  intros Ha Hv. unfold krk_long_init_si. destruct (Z.eqb_spec v 0) as [->|H0].
  { st_step (wr_long_eq _ _ (Long 0 []) _ Ha). eexists. split; [done|apply repr_0]. }
  set (sg := if v <? 0 then -1 else 1). assert (Hs : sg = 1 ∨ sg = -1) by (unfold sg; destruct (v <? 0); auto).
  assert (Habs : u64 (if v <? 0 then i64 (- v) else v) = Z.abs v).
  { destruct (Z.ltb_spec v 0); [|rewrite u64_small; lia]. destruct (decide (v = - 2 ^ 63)) as [->|]; [done|]. rewrite i64_small, u64_small by lia. lia. }
  assert (Hsg : sg * Z.abs v = v) by (unfold sg; destruct (Z.ltb_spec v 0); lia). rewrite Habs. cbv zeta.
  destruct (Z.leb_spec (Z.abs v) DIGIT_MAX) as [H|H].
  - st_step (wr_long_eq _ _ (Long sg [Z.abs v]) _ Ha). eexists. split; [done|]. unfold DIGIT_MAX in H. split_and!; simpl; try lia.
    + repeat constructor; lia.
    + unfold normal. simpl. intros [=]. lia.
  - destruct (count_long_digits_eq (Z.abs v) ltac:(lia)) as (n & E & Hn & Hb). rewrite E. unfold lift. unfold mbind at 1, St_bind at 1.
    rewrite Nat2Z.id, extract_digits_numeral. st_step (wr_long_eq _ _ (Long (Z.of_nat n * sg) (numeral BASE n (Z.abs v))) _ Ha). eexists. split; [done|].
    rewrite <-Hsg at 2. by apply repr_numeral; [lia| |].
Qed.

(** ** Results in place of operands *)

Lemma swap_eq s a b x y : s !! a = Some x → s !! b = Some y → swap a b s = Done (0, <[b := x]> (<[a := y]> s)).
Proof.
  intros Ha Hb. unfold swap. st_step (rd_long_eq _ _ _ Ha). st_step (rd_long_eq _ _ _ Hb). st_step (wr_long_eq _ _ y _ Ha).
  destruct (decide (a = b)) as [->|Hn].
  - by st_step (wr_long_eq (<[b := y]> s) b x y (lookup_insert_eq _ _ _)).
  - by st_step (wr_long_eq (<[a := y]> s) b x y ltac:(by rewrite lookup_insert_ne)).
Qed.

Lemma with_output_eq {A} res ops (body : Z → St store A) s z (P : KrkLong → Prop) r :
  s !! res = Some z → sized z → (∀ a, a ∈ ops → is_Some (s !! a)) →
  (∀ t s' z', t ∉ ops → s' !! t = Some z' → sized z' → (∀ a, a ∈ ops → s' !! a = s !! a) →
     ∃ x, body t s' = Done (r, <[t := x]> s') ∧ P x) →
  ∃ x, with_output res ops body s = Done (r, <[res := x]> s) ∧ P x.
Proof.
  intros Hz Hs Hops H. unfold with_output. destruct (decide (res ∈ ops)) as [Hin|Hin]; [|by apply (H res s z)].
  set (t := fresh (dom s)). assert (Ht : t ∉ dom s) by apply is_fresh. apply not_elem_of_dom in Ht.
  assert (Hne : res ≠ t) by congruence.
  destruct (H t (<[t := Long 0 []]> s) (Long 0 [])) as (x & E & HP); [|apply lookup_insert_eq|done| |].
  { intros Hi. destruct (Hops t Hi). congruence. }
  { intros a Ha. rewrite lookup_insert_ne; [done|]. intros <-. destruct (Hops t Ha). congruence. }
  exists x. split; [|done]. unfold with_local. fold t. cbv zeta.
  rewrite (St_bind_done _ _ _ r (<[t := Long 0 []]> (<[res := x]> s))).
  - unfold modify. unfold mbind at 1, St_bind at 1. unfold mret, St_ret. rewrite delete_insert_id; [done|by rewrite lookup_insert_ne].
  - unfold krk_long_init_si. rewrite Z.eqb_refl. unfold mbind at 1, St_bind at 1. st_step (wr_over s t (Long 0 []) (Long 0 [])).
    unfold mret, St_ret. st_step E. rewrite insert_insert_eq.
    st_step (swap_eq (<[t := x]> s) res t z x ltac:(by rewrite lookup_insert_ne) (lookup_insert_eq _ _ _)).
    rewrite (insert_insert_ne s) by done. rewrite insert_insert_eq. by st_step (clear_over (<[res := x]> s) t z).
Qed.

(** ** Addition and subtraction *)

Lemma clear_copy {A} s res c z w (k : St store A) : s !! res = Some z → s !! c = Some w → c ≠ res → sized w →
  (krk_long_clear res;; krk_long_init_copy res c;; k) s = k (<[res := w]> s).
Proof. intros Hz Hc Hn Hw. st_step (clear_eq _ _ _ Hz). by st_step (init_copy_over s res c w (Long 0 []) Hc Hn Hw). Qed.

Lemma sub_signed {A} s res a b z x y u v sg (k : St store A) :
  s !! res = Some z → sized z → s !! a = Some x → s !! b = Some y → repr x u → repr y v → Z.abs v ≤ Z.abs u → sg = 1 ∨ sg = -1 →
  ∃ r, (sub_big_small res a b;; krk_long_set_sign res sg;; k) s = k (<[res := r]> s) ∧ repr r (sg * (Z.abs u - Z.abs v)).
Proof.
  intros Hz Hs Ha Hb Hx Hy Hu Hg. destruct (sub_big_small_eq s res a b z x y u v Hz Hs Ha Hb Hx Hy Hu) as (ds & E & D & N & V).
  st_step E. st_step (set_sign_over s res (pos ds) sg). eexists. split; [done|]. rewrite <-V. by apply repr_signed.
Qed.

Lemma sub_positive {A} s res a b z x y u v (k : St store A) :
  s !! res = Some z → sized z → s !! a = Some x → s !! b = Some y → repr x u → repr y v → Z.abs v ≤ Z.abs u →
  ∃ r, (sub_big_small res a b;; k) s = k (<[res := r]> s) ∧ repr r (Z.abs u - Z.abs v).
Proof.
  intros Hz Hs Ha Hb Hx Hy Hu. destruct (sub_big_small_eq s res a b z x y u v Hz Hs Ha Hb Hx Hy Hu) as (ds & E & D & N & V).
  st_step E. eexists. split; [done|]. rewrite <-V. by apply repr_pos.
Qed.

Lemma add_signed {A} s res a b z x y u v sg (k k' : St store A) :
  s !! res = Some z → sized z → s !! a = Some x → s !! b = Some y → res ≠ a → res ≠ b → repr x u → repr y v → u ≠ 0 → sg = 1 ∨ sg = -1 →
  ∃ r, (r ← krk_long_add_ignore_sign res a b; if negb (r =? 0) then k' else krk_long_set_sign res sg;; k) s = k (<[res := r]> s) ∧
    repr r (sg * (Z.abs u + Z.abs v)).
Proof.
  intros Hz Hs Ha Hb Hra Hrb Hx Hy Hu Hg.
  destruct (add_ignore_sign_eq s res a b z x y u v Hz Hs Ha Hb Hra Hrb Hx Hy Hu) as (ds & E & D & N & V).
  st_step E. cbn [negb Z.eqb]. st_step (set_sign_over s res (pos ds) sg). eexists. split; [done|]. rewrite <-V. by apply repr_signed.
Qed.

Lemma not_operand {t a b : Z} : t ∉ [a; b] → a ≠ t ∧ b ≠ t.
Proof. intros H. split; intros <-; apply H; set_solver. Qed.

Lemma operands_some {s : store} {a b x y} : s !! a = Some x → s !! b = Some y → ∀ c, c ∈ [a; b] → is_Some (s !! c).
Proof. intros Ha Hb c Hc. set_unfold in Hc. destruct Hc as [->|[->|[]]]; eauto. Qed.

Lemma repr_of x u v : repr x u → u = v → repr x v.
Proof. by intros ? <-. Qed.

Lemma krk_long_add_eq s res a b z x y u v :
  s !! res = Some z → sized z → s !! a = Some x → s !! b = Some y → repr x u → repr y v →
  ∃ r, krk_long_add res a b s = Done (0, <[res := r]> s) ∧ repr r (u + v).
Proof.
  intros Hz Hs Ha Hb Hx Hy. unfold krk_long_add.
  apply (with_output_eq res [a; b] _ s z (λ r, repr r (u + v)) 0 Hz Hs (operands_some Ha Hb)).
  intros t s' z' Ht Hz' Hs' Hag. destruct (not_operand Ht) as [Hna Hnb].
  rewrite <-(Hag a) in Ha by set_solver. rewrite <-(Hag b) in Hb by set_solver. clear Hag Hz Hs s z.
  st_step (rd_long_eq _ _ _ Ha). st_step (rd_long_eq _ _ _ Hb).
  rewrite (repr_width_0 _ _ Hx), (repr_width_0 _ _ Hy), (repr_width_neg _ _ Hx), (repr_width_neg _ _ Hy), (repr_width_pos _ _ Hx), (repr_width_pos _ _ Hy).
  destruct (Z.eqb_spec u 0) as [->|Hu].
  { rewrite (clear_copy s' t b z' y _ Hz' Hb Hnb (repr_sized _ _ Hy)). by eexists. }
  destruct (Z.eqb_spec v 0) as [->|Hv].
  { rewrite (clear_copy s' t a z' x _ Hz' Ha Hna (repr_sized _ _ Hx)). eexists. split; [done|]. by rewrite Z.add_0_r. }
  assert (Hclr : u + v = 0 → ∃ r, (krk_long_clear t;; mret 0) s' = Done (0, <[t := r]> s') ∧ repr r (u + v)).
  { intros ->. st_step (clear_eq _ _ _ Hz'). eexists. split; [done|apply repr_0]. }
  assert (Hsub : ∀ sg, sg = 1 ∨ sg = -1 → Z.abs v ≤ Z.abs u → sg * (Z.abs u - Z.abs v) = u + v →
    ∃ r, (sub_big_small t a b;; krk_long_set_sign t sg;; mret 0) s' = Done (0, <[t := r]> s') ∧ repr r (u + v)).
  { intros sg Hg Hle <-. by apply (sub_signed s' t a b z' x y). }
  assert (Hbus : ∀ sg, sg = 1 ∨ sg = -1 → Z.abs u ≤ Z.abs v → sg * (Z.abs v - Z.abs u) = u + v →
    ∃ r, (sub_big_small t b a;; krk_long_set_sign t sg;; mret 0) s' = Done (0, <[t := r]> s') ∧ repr r (u + v)).
  { intros sg Hg Hle <-. by apply (sub_signed s' t b a z' y x). }
  assert (Hadd : ∀ sg, sg = 1 ∨ sg = -1 → sg * (Z.abs u + Z.abs v) = u + v →
    ∃ r, (r ← krk_long_add_ignore_sign t a b; if negb (r =? 0) then mret 1 else krk_long_set_sign t sg;; mret 0) s' = Done (0, <[t := r]> s') ∧ repr r (u + v)).
  { intros sg Hg <-. by apply (add_signed s' t a b z' x y). }
  pose proof (compare_abs_eq s' a b x y u v Ha Hb Hx Hy) as Hcmp. unfold cmp in Hcmp.
  destruct (Z.ltb_spec u 0), (Z.ltb_spec 0 v), (Z.ltb_spec 0 u), (Z.ltb_spec v 0); try lia; cbn [andb]; cbv zeta.
  1,4: st_step Hcmp; destruct (Z.ltb_spec (Z.abs u) (Z.abs v)); [apply Hbus; lia|]; destruct (Z.ltb_spec (Z.abs v) (Z.abs u)); [apply Hsub; lia|apply Hclr; lia].
  all: apply Hadd; lia.
Qed.

Lemma krk_long_sub_eq s res a b z x y u v :
  s !! res = Some z → sized z → s !! a = Some x → s !! b = Some y → repr x u → repr y v →
  ∃ r, krk_long_sub res a b s = Done (0, <[res := r]> s) ∧ repr r (u - v).
Proof.
  intros Hz Hs Ha Hb Hx Hy. unfold krk_long_sub.
  apply (with_output_eq res [a; b] _ s z (λ r, repr r (u - v)) 0 Hz Hs (operands_some Ha Hb)).
  intros t s' z' Ht Hz' Hs' Hag. destruct (not_operand Ht) as [Hna Hnb].
  rewrite <-(Hag a) in Ha by set_solver. rewrite <-(Hag b) in Hb by set_solver. clear Hag Hz Hs s z.
  st_step (rd_long_eq _ _ _ Ha). st_step (rd_long_eq _ _ _ Hb).
  rewrite (repr_width_0 _ _ Hx), (repr_width_0 _ _ Hy), (repr_width_neg _ _ Hx), (repr_width_neg _ _ Hy), (repr_width_pos _ _ Hy).
  destruct (Z.eqb_spec u 0) as [->|Hu].
  { rewrite (clear_copy s' t b z' y _ Hz' Hb Hnb (repr_sized _ _ Hy)). st_step (set_sign_over s' t y (if v <? 0 then 1 else -1)).
    eexists. split; [done|]. destruct Hy as (Wy & Dy & Ny & Ey). pose proof (repr_abs_width y v ltac:(done)) as Aw. split_and!; simpl; try done; [|lia].
    rewrite Aw. destruct (Z.ltb_spec v 0); [rewrite Z.sgn_pos by lia; lia|]. destruct (decide (v = 0)) as [->|].
    - assert (digits y = []) as -> by (by apply (eval_normal_0 BASE)). simpl. lia.
    - rewrite Z.sgn_neg by lia. lia. }
  destruct (Z.eqb_spec v 0) as [->|Hv].
  { rewrite (clear_copy s' t a z' x _ Hz' Ha Hna (repr_sized _ _ Hx)). eexists. split; [done|]. by rewrite Z.sub_0_r. }
  destruct (Bool.eqb_spec (u <? 0) (v <? 0)) as [Heq|Hneq]; cbn [negb]; cycle 1.
  { eapply (add_signed s' t a b z' x y u v (if u <? 0 then -1 else 1)) in Hu as (r & E & Hr); try done; [|by destruct (u <? 0); auto].
    rewrite E. eexists. split; [done|]. eapply repr_of; [exact Hr|].
    destruct (Z.ltb_spec u 0), (Z.ltb_spec v 0); try done; lia. }
  st_step (compare_abs_eq s' a b x y u v Ha Hb Hx Hy). unfold cmp.
  destruct (Z.ltb_spec (Z.abs u) (Z.abs v)) as [Hlt|Hge]; cbn [Z.eqb Pos.eqb]; [|destruct (Z.ltb_spec (Z.abs v) (Z.abs u)) as [Hlt|Hle]; cbn [Z.eqb Pos.eqb]].
  - destruct (Z.ltb_spec 0 v).
    + destruct (sub_signed s' t b a z' y x v u (-1) (mret 0) Hz' Hs' Hb Ha Hy Hx ltac:(lia) (or_intror eq_refl)) as (r & E & Hr).
      rewrite E. eexists. split; [done|]. eapply repr_of; [exact Hr|]. destruct (Z.ltb_spec u 0), (Z.ltb_spec v 0); try done; lia.
    + destruct (sub_positive s' t b a z' y x v u (mret 0;; mret 0) Hz' Hs' Hb Ha Hy Hx ltac:(lia)) as (r & E & Hr).
      rewrite E. eexists. split; [done|]. eapply repr_of; [exact Hr|]. destruct (Z.ltb_spec u 0), (Z.ltb_spec v 0); try done; lia.
  - destruct (Z.ltb_spec u 0).
    + destruct (sub_signed s' t a b z' x y u v (-1) (mret 0) Hz' Hs' Ha Hb Hx Hy ltac:(lia) (or_intror eq_refl)) as (r & E & Hr).
      rewrite E. eexists. split; [done|]. eapply repr_of; [exact Hr|]. destruct (Z.ltb_spec v 0); try done; lia.
    + destruct (sub_positive s' t a b z' x y u v (mret 0;; mret 0) Hz' Hs' Ha Hb Hx Hy ltac:(lia)) as (r & E & Hr).
      rewrite E. eexists. split; [done|]. eapply repr_of; [exact Hr|]. destruct (Z.ltb_spec v 0); try done; lia.
  - st_step (clear_eq _ _ _ Hz'). eexists. split; [done|]. replace (u - v) with 0; [apply repr_0|].
    destruct (Z.ltb_spec u 0), (Z.ltb_spec v 0); try done; lia.
Qed.

(** ** Multiplication *)

Lemma wr_pos s a ds i v : (i < length ds)%nat → wr_digit a (Z.of_nat i) v (<[a := pos ds]> s) = Done (tt, <[a := pos (<[i := v]> ds)]> s).
Proof. intros Hi. unfold pos. rewrite wr_digit_over by done. by rewrite length_insert. Qed.

Lemma rd_pos s a ds i d : ds !! i = Some d → rd_digit a (Z.of_nat i) (<[a := pos ds]> s) = Done (d, <[a := pos ds]> s).
Proof. intros H. apply (rd_digit_eq _ a (pos ds)); [apply lookup_insert_eq|done]. Qed.

Lemma rd_other s a c x ds i d : s !! c = Some x → c ≠ a → digits x !! i = Some d →
  rd_digit c (Z.of_nat i) (<[a := pos ds]> s) = Done (d, <[a := pos ds]> s).
Proof. intros Hc Hn Hi. eapply rd_digit_eq; [by rewrite lookup_insert_ne|done]. Qed.

Lemma zero_over s a ds : krk_long_zero a (<[a := pos ds]> s) = Done (0, <[a := pos (replicate (length ds) 0)]> s).
Proof.
  unfold krk_long_zero. st_step (rd_over s a (pos ds)). rewrite abs_width_pos, Nat2Z.id.
  destruct (for_loop_inv (λ i _ s', s' = <[a := pos (replicate i 0 ++ drop i ds)]> s) (length ds) 0 (λ i (_ : unit), wr_digit a i 0) tt (<[a := pos ds]> s))
    as ([] & s' & E & ->).
  - done.
  - intros i [] s' Hi ->. rewrite Z.add_0_l. rewrite wr_pos by (rewrite length_app, length_replicate, length_drop; lia).
    eexists _, _. split; [done|]. do 2 f_equal. rewrite insert_app_r_alt by (rewrite length_replicate; lia).
    rewrite length_replicate, Nat.sub_diag. destruct (lookup_lt_is_Some_2 ds i Hi) as [d Hd]. rewrite (drop_S _ _ _ Hd), replicate_S_end, <-app_assoc. done.
  - st_step E. by rewrite drop_ge, app_nil_r by lia.
Qed.

Definition mul_row (res a : Z) (i b_digit j carry : Z) : St store Z :=
  a_digit ← rd_digit a j;
  r ← rd_digit res (i + j);
  let tmp := u64 (carry + a_digit * b_digit + r) in
  wr_digit res (i + j) (Z.land tmp DIGIT_MAX);;
  mret (Z.shiftr tmp DIGIT_SHIFT).

(** A row adds a multiple of the first factor, and gives what is carried out of it. *)
Lemma mul_row_eq s res a x D i bd : s !! a = Some x → a ≠ res → digits_ok (digits x) → digits_ok D → 0 ≤ bd < BASE →
  (i + length (digits x) ≤ length D)%nat →
  ∃ carry D', for_loop (length (digits x)) 0 (mul_row res a (Z.of_nat i) bd) 0 (<[res := pos D]> s) = Done (carry, <[res := pos D']> s) ∧
    length D' = length D ∧ digits_ok D' ∧ 0 ≤ carry < BASE ∧
    eval D' + BASE ^ Z.of_nat (i + length (digits x)) * carry = eval D + BASE ^ Z.of_nat i * bd * eval (digits x) ∧
    ∀ k, (i + length (digits x) ≤ k)%nat → D' !! k = D !! k.
Proof.
  intros Ha Hn Dx DD Hbd Hlen.
  destruct (for_loop_inv (λ j carry s', ∃ D', s' = <[res := pos D']> s ∧ length D' = length D ∧ digits_ok D' ∧ 0 ≤ carry < BASE ∧
      eval D' + BASE ^ Z.of_nat (i + j) * carry = eval D + BASE ^ Z.of_nat i * bd * eval (take j (digits x)) ∧
      ∀ k, (i + j ≤ k)%nat → D' !! k = D !! k) (length (digits x)) 0 (mul_row res a (Z.of_nat i) bd) 0 (<[res := pos D]> s))
    as (carry & s' & E & D' & -> & HD); [| |rewrite (take_ge (digits x)) in HD by lia; by eauto].
  - exists D. split_and!; try done. simpl. lia.
  - intros j carry s' Hj (D' & -> & Hl & HD & Hc & He & Hk). rewrite Z.add_0_l. unfold mul_row.
    destruct (lookup_lt_is_Some_2 (digits x) j Hj) as [ad Had]. st_step (rd_other s res a x D' j ad Ha Hn Had).
    destruct (lookup_lt_is_Some_2 D' (i + j) ltac:(lia)) as [r Hr]. rewrite <-Nat2Z.inj_add. st_step (rd_pos s res D' (i + j) r Hr).
    pose proof (digits_ok_lookup _ _ _ _ Dx Had). pose proof (digits_ok_lookup _ _ _ _ HD Hr).
    assert (Ht : 0 ≤ carry + ad * bd + r < BASE * BASE) by nia. rewrite u64_small by lia. set (t := carry + ad * bd + r) in *.
    st_step (wr_pos s res D' (i + j) (Z.land t DIGIT_MAX) ltac:(lia)). eexists _, _. split; [done|]. eexists. split; [done|].
    unfold DIGIT_SHIFT. rewrite Z.shiftr_div_pow2 by done. split_and!.
    + by rewrite length_insert.
    + apply digits_ok_insert; [done|apply land_MAX_range].
    + apply Z.div_pos; lia.
    + apply Z.div_lt_upper_bound; lia.
    + rewrite (eval_insert _ _ _ _ _ Hr), land_MAX, (eval_take_S _ _ _ _ Had). replace (i + S j)%nat with (S (i + j)) by lia. rewrite pow_S.
      pose proof (Z.div_mod t BASE ltac:(done)) as Hdm. rewrite Z.mul_add_distr_l, Z.add_assoc, <-He. unfold t in Hdm at 1.
      rewrite Nat2Z.inj_add, Z.pow_add_r by lia. set (P := BASE ^ Z.of_nat i) in *. set (Q := BASE ^ Z.of_nat j) in *.
      assert (t `mod` BASE = carry + ad * bd + r - BASE * (t / BASE)) as -> by lia. ring.
    + intros k Hk'. rewrite list_lookup_insert_ne by lia. apply Hk. lia.
Qed.

Lemma mul_abs_eq s res a b z x y u v :
  s !! res = Some z → sized z → s !! a = Some x → s !! b = Some y → a ≠ res → b ≠ res → repr x u → repr y v →
  ∃ ds, mul_abs res a b s = Done (0, <[res := pos ds]> s) ∧ digits_ok ds ∧ normal ds ∧ eval ds = Z.abs u * Z.abs v.
Proof.
  intros Hz Hs Ha Hb Hna Hnb Hx Hy. unfold mul_abs. st_step (rd_long_eq _ _ _ Ha). st_step (rd_long_eq _ _ _ Hb).
  rewrite (repr_abs_width _ _ Hx), (repr_abs_width _ _ Hy). destruct (repr_digits _ _ Hx) as (Dx & Nx & <-). destruct (repr_digits _ _ Hy) as (Dy & Ny & <-).
  cbv zeta. set (n := (length (digits x) + length (digits y))%nat). rewrite <-Nat2Z.inj_add. st_step (resize_eq s res z n Hz Hs).
  st_step (zero_over s res (resized n (digits z))). rewrite length_resized, !Nat2Z.id.
  destruct (for_loop_inv (λ i _ s', ∃ D, s' = <[res := pos D]> s ∧ length D = n ∧ digits_ok D ∧
      eval D = eval (digits x) * eval (take i (digits y)) ∧ ∀ k, (length (digits x) + i ≤ k < n)%nat → D !! k = Some 0)
    (length (digits y)) 0 (λ i _, b_digit ← rd_digit b i;
       carry ← for_loop (length (digits x)) 0 (mul_row res a i b_digit) 0;
       wr_digit res (i + Z.of_nat (length (digits x))) (u32 carry)) tt (<[res := pos (replicate n 0)]> s))
    as ([] & s' & E & D & -> & Hl & HD & He & _).
  - exists (replicate n 0). split_and!; [done|by rewrite length_replicate|by apply digits_ok_zeros|rewrite eval_zeros; simpl; lia|].
    intros k Hk. apply lookup_replicate_2. lia.
  - intros i [] s' Hi (D & -> & Hl & HD & He & Hk). rewrite Z.add_0_l. destruct (lookup_lt_is_Some_2 (digits y) i Hi) as [bd Hbd].
    st_step (rd_other s res b y D i bd Hb Hnb Hbd). pose proof (digits_ok_lookup _ _ _ _ Dy Hbd).
    destruct (mul_row_eq s res a x D i bd Ha Hna Dx HD H ltac:(lia)) as (carry & D' & E & Hl' & HD' & Hc & He' & Hk'). st_step E.
    rewrite <-Nat2Z.inj_add, u32_small by lia.
    assert (H0 : D' !! (i + length (digits x))%nat = Some 0) by (rewrite Hk' by lia; apply Hk; lia).
    rewrite wr_pos by lia. eexists _, _. split; [done|]. eexists. split; [done|]. split_and!.
    + by rewrite length_insert, Hl'.
    + by apply digits_ok_insert.
    + rewrite (eval_insert _ _ _ _ _ H0), (eval_take_S _ _ _ _ Hbd), Z.sub_0_r, He', He. ring.
    + intros k Hk1. rewrite list_lookup_insert_ne by lia. rewrite Hk' by lia. apply Hk. lia.
  - unfold mul_row in E. st_step E. st_step (trim_over s res D). eexists. split; [done|]. split_and!.
    + by apply digits_ok_trimmed.
    + apply normal_trimmed.
    + rewrite eval_trimmed, He. by rewrite take_ge by lia.
Qed.

Lemma krk_long_mul_eq s res a b z x y u v :
  s !! res = Some z → sized z → s !! a = Some x → s !! b = Some y → repr x u → repr y v →
  ∃ r, krk_long_mul res a b s = Done (0, <[res := r]> s) ∧ repr r (u * v).
Proof.
  intros Hz Hs Ha Hb Hx Hy. unfold krk_long_mul.
  apply (with_output_eq res [a; b] _ s z (λ r, repr r (u * v)) 0 Hz Hs (operands_some Ha Hb)).
  intros t s' z' Ht Hz' Hs' Hag. destruct (not_operand Ht) as [Hna Hnb].
  rewrite <-(Hag a) in Ha by set_solver. rewrite <-(Hag b) in Hb by set_solver. clear Hag Hz Hs s z.
  st_step (rd_long_eq _ _ _ Ha). st_step (rd_long_eq _ _ _ Hb).
  rewrite (repr_width_0 _ _ Hx), (repr_width_0 _ _ Hy), (repr_width_neg _ _ Hx), (repr_width_neg _ _ Hy).
  destruct (Z.eqb_spec u 0) as [->|Hu].
  { rewrite (clear_copy s' t a z' x _ Hz' Ha Hna (repr_sized _ _ Hx)). by eexists. }
  destruct (Z.eqb_spec v 0) as [->|Hv].
  { rewrite (clear_copy s' t b z' y _ Hz' Hb Hnb (repr_sized _ _ Hy)). eexists. split; [done|]. by rewrite Z.mul_0_r. }
  destruct (mul_abs_eq s' t a b z' x y u v Hz' Hs' Ha Hb Hna Hnb Hx Hy) as (ds & E & D & N & V). st_step E. cbn [negb Z.eqb].
  set (sg := if eqb (u <? 0) (v <? 0) then 1 else -1). assert (Hsg : sg = 1 ∨ sg = -1) by (unfold sg; destruct (eqb _ _); auto).
  st_step (set_sign_over s' t (pos ds) sg). eexists. split; [done|].
  pose proof (repr_signed ds sg D N Hsg) as Hr. rewrite V in Hr. eapply repr_of; [exact Hr|]. unfold sg. destruct (Z.ltb_spec u 0), (Z.ltb_spec v 0); simpl; nia.
Qed.

(** ** The theorem *)

(** C24: Addition, subtraction, multiplication and comparison of Kuroko's long integers are
    those of the integers: on structures in normal form, and whichever of the result and the
    operands are the same structure, they leave the sum, difference or product in normal
    form in the result, report success and change no other structure. *)
Theorem krk_long_ring_correct s res a b z x y u v :
  s !! res = Some z → sized z → s !! a = Some x → s !! b = Some y → repr x u → repr y v →
  (∃ r, krk_long_add res a b s = Done (0, <[res := r]> s) ∧ repr r (u + v)) ∧
  (∃ r, krk_long_sub res a b s = Done (0, <[res := r]> s) ∧ repr r (u - v)) ∧
  (∃ r, krk_long_mul res a b s = Done (0, <[res := r]> s) ∧ repr r (u * v)) ∧
  krk_long_compare a b s = Done ((if u <? v then -1 else if v <? u then 1 else 0), s).
Proof.
  intros Hz Hs Ha Hb Hx Hy. split_and!.
  - by eapply krk_long_add_eq.
  - by eapply krk_long_sub_eq.
  - by eapply krk_long_mul_eq.
  - by apply (compare_eq s a b x y u v).
Qed.

(** [2 ^ 31 + 4] and [-7], and an operation on the first one in its own place. *)
Definition demo_longs : store := <[1 := Long 2 [4; 1]]> (<[2 := Long (-1) [7]]> ∅).

Lemma demo_repr : repr (Long 2 [4; 1]) (2 ^ 31 + 4) ∧ repr (Long (-1) [7]) (-7).
Proof. split; (split_and!; [done| |done|done]); repeat constructor; done. Qed.

Lemma krk_long_ring_correct_witness :
  (∃ r, krk_long_add 1 1 2 demo_longs = Done (0, <[1 := r]> demo_longs) ∧ repr r (2 ^ 31 - 3)) ∧
  (∃ r, krk_long_sub 1 1 2 demo_longs = Done (0, <[1 := r]> demo_longs) ∧ repr r (2 ^ 31 + 11)) ∧
  (∃ r, krk_long_mul 1 1 2 demo_longs = Done (0, <[1 := r]> demo_longs) ∧ repr r (-7 * 2 ^ 31 - 28)) ∧
  krk_long_compare 1 2 demo_longs = Done (1, demo_longs).
Proof.
  apply (krk_long_ring_correct demo_longs 1 1 2 (Long 2 [4; 1]) (Long 2 [4; 1]) (Long (-1) [7]) (2 ^ 31 + 4) (-7));
    [reflexivity|reflexivity|reflexivity|reflexivity|apply demo_repr|apply demo_repr].
Defined.
