(* ===== verification/KrkDivide.v ===== *)
(** * Long integers of Kuroko: bits and division

    The binary long division, the division by one digit, and the division with flooring that
    the operators use. *)
From S2P Require Import Prelude KrkDigits KrkLong KrkArith.
Local Open Scope Z_scope.

(** ** Words and bits *)

Lemma testbit_digits l n k : digits_ok l → (n < length l)%nat → 0 ≤ k < 31 →
  Z.testbit (eval l) (Z.of_nat n * 31 + k) = Z.testbit (l !!! n) k.
Proof.
  intros Hl Hn Hk. destruct (lookup_lt_is_Some_2 l n Hn) as [d Hd]. rewrite (list_lookup_total_correct _ _ _ Hd).
  rewrite (eval_take_drop _ n l) by lia. rewrite (drop_S _ _ _ Hd), eval_cons. pose proof (eval_bound BASE BASE_gt (take n l) ltac:(by apply Forall_take)) as Hb.
  rewrite length_take, Nat.min_l in Hb by lia. rewrite <-Z.pow_mul_r in * by lia. replace (31 * Z.of_nat n) with (Z.of_nat n * 31) in * by lia.
  set (m := Z.of_nat n * 31) in *. rewrite (Z.add_comm m k), <-Z.div_pow2_bits by lia.
  rewrite (Z.mul_comm (2 ^ m)), Z.div_add, Z.div_small, Z.add_0_l by lia.
  rewrite (Z.mul_comm BASE). rewrite <-(Z.mod_pow2_bits_low (d + eval (drop (S n) l) * BASE) 31 k) by lia.
  rewrite Z.mod_add by done. by rewrite Z.mod_pow2_bits_low by lia.
Qed.

(** The number of bits of a number. *)
Definition bits (v : Z) : Z := if v =? 0 then 0 else Z.log2 v + 1.

Lemma bits_pow2 v : 0 ≤ v → v < 2 ^ bits v.
Proof.
  intros Hv. unfold bits. destruct (Z.eqb_spec v 0) as [->|]; [done|]. rewrite Z.add_1_r. apply Z.log2_spec. lia.
Qed.

Lemma bits_nonneg v : 0 ≤ bits v.
Proof. unfold bits. destruct (v =? 0); [lia|]. pose proof (Z.log2_nonneg v). lia. Qed.

Lemma digit_bits_eq d : 0 ≤ d < BASE → digit_bits d = Done (bits d).
Proof.
  intros Hd. unfold digit_bits.
  apply (loop_done_eq _ (λ '(digit, c), 0 ≤ digit < BASE ∧ c + bits digit = bits d) (λ '(digit, _), Z.to_nat (bits digit))).
  - intros [g c] [Hg Hc]. destruct (Z.eqb_spec g 0) as [->|Hg0]; cbn [negb]; [unfold bits at 1 in Hc; simpl in Hc; lia|].
    rewrite Z.shiftr_div_pow2, Z.pow_1_r by done. assert (bits g = bits (g / 2) + 1).
    { unfold bits. rewrite (proj2 (Z.eqb_neq g 0)) by done. destruct (Z.eqb_spec (g / 2) 0) as [E|E].
      - assert (g = 1) as ->; [|done]. apply Z.div_small_iff in E; lia.
      - rewrite <-Z.div2_div, Z.div2_spec, Z.log2_shiftr, Z.max_r; [lia| |]; [|lia].
        assert (1 ≤ Z.log2 g); [|lia]. apply Z.log2_le_pow2; [lia|]. assert (0 < g / 2) by (assert (0 ≤ g / 2) by (by apply Z.div_pos; lia); lia).
        pose proof (Z.mul_div_le g 2). lia. }
    pose proof (bits_nonneg (g / 2)). split; [split; [split|lia]|lia]; [apply Z.div_pos; lia|apply Z.div_lt_upper_bound; lia].
  - split; [done|lia].
  - assert (bits d ≤ 31); [|pose proof (bits_nonneg d); lia]. unfold bits. destruct (Z.eqb_spec d 0); [lia|].
    assert (Z.log2 d < 31); [|lia]. apply Z.log2_lt_pow2; lia.
Qed.

Lemma bits_top l d : digits_ok (l ++ [d]) → d ≠ 0 → bits (eval (l ++ [d])) = bits d + Z.of_nat (length l) * 31.
Proof.
  intros H Hd. apply digits_ok_app in H as [Hl H]. inversion_clear H. rewrite (eval_snoc BASE). pose proof (eval_bound BASE BASE_gt l Hl).
  rewrite <-Z.pow_mul_r in * by lia. replace (31 * Z.of_nat (length l)) with (Z.of_nat (length l) * 31) in * by lia. set (m := Z.of_nat (length l) * 31) in *.
  assert (0 < 2 ^ m) by (apply Z.pow_pos_nonneg; lia). unfold bits. rewrite (proj2 (Z.eqb_neq d 0)) by done.
  rewrite (proj2 (Z.eqb_neq (eval l + 2 ^ m * d) 0)) by nia.
  rewrite (Z.log2_unique (eval l + 2 ^ m * d) (Z.log2 d + m)); [lia|pose proof (Z.log2_nonneg d); lia|].
  destruct (Z.log2_spec d ltac:(lia)) as [L1 L2]. pose proof (Z.log2_nonneg d). rewrite <-Z.add_succ_l, !Z.pow_add_r by lia.
  split; [nia|]. assert (d + 1 ≤ 2 ^ Z.succ (Z.log2 d)) by lia. nia.
Qed.

Lemma bits_in_eq s a x u : s !! a = Some x → repr x u → bits_in a s = Done (bits (Z.abs u), s).
Proof.
  intros Ha Hx. unfold bits_in. st_step (rd_long_eq _ _ _ Ha). rewrite (repr_width_0 _ _ Hx), (repr_abs_width _ _ Hx).
  destruct (Z.eqb_spec u 0) as [->|Hu]; [done|]. destruct (repr_digits _ _ Hx) as (Dx & Nx & <-).
  destruct (repr_digits _ _ Hx) as (_ & _ & E). destruct (digits x) as [|d l _] eqn:El using rev_ind; [simpl in E; lia|].
  rewrite length_app. simpl length. replace (Z.of_nat (length l + 1) - 1) with (Z.of_nat (length l)) by lia.
  rewrite (digit_eq _ _ d) by (rewrite El; by apply list_lookup_middle). unfold lift. unfold mbind at 1, St_bind at 1.
  pose proof Dx as Dd. apply digits_ok_app in Dd as [_ Dd]. inversion_clear Dd. rewrite digit_bits_eq by done. unfold mbind at 1, St_bind at 1.
  unfold mret, St_ret. rewrite bits_top; [done|done|]. intros ->. apply Nx. by rewrite last_snoc.
Qed.

Lemma bit_is_set_eq s a x n : s !! a = Some x → digits_ok (digits x) → 0 ≤ n < Z.of_nat (length (digits x)) * 31 →
  bit_is_set a n s = Done (truth (Z.testbit (eval (digits x)) n), s).
Proof.
  intros Ha Dx Hn. unfold bit_is_set, DIGIT_SHIFT. pose proof (Z.div_mod n 31 ltac:(done)) as Hdm. pose proof (Z.mod_pos_bound n 31 ltac:(done)).
  assert (0 ≤ n / 31) by (apply Z.div_pos; lia). assert (n / 31 < Z.of_nat (length (digits x))) by (apply Z.div_lt_upper_bound; lia).
  rewrite <-(Z2Nat.id (n / 31)) in Hdm |- * by done. set (k := Z.to_nat (n / 31)) in *.
  destruct (lookup_lt_is_Some_2 (digits x) k ltac:(lia)) as [d Hd]. st_step (rd_digit_eq _ _ _ k d Ha Hd). unfold mret, St_ret.
  rewrite land_bit_zero, negb_involutive by lia. rewrite Hdm at 2. rewrite (Z.mul_comm 31), testbit_digits by (done || lia).
  by rewrite (list_lookup_total_correct _ _ _ Hd).
Qed.

(** ** Setting bits *)

(** One digit of a shift by one bit. *)
Lemma shl_digit d c : 0 ≤ d < BASE → 0 ≤ c ≤ 1 →
  Z.land (u32 (u32 (Z.shiftl d 1) + c)) DIGIT_MAX + BASE * Z.shiftr d (DIGIT_SHIFT - 1) = 2 * d + c ∧ 0 ≤ Z.shiftr d (DIGIT_SHIFT - 1) ≤ 1.
Proof.
  intros Hd Hc. unfold DIGIT_SHIFT. rewrite Z.shiftl_mul_pow2, Z.pow_1_r, Z.shiftr_div_pow2 by done.
  rewrite (u32_small (d * 2)), u32_small, land_MAX by lia. change (31 - 1) with 30.
  assert (E : d / 2 ^ 30 = 0 ∧ d < 2 ^ 30 ∨ d / 2 ^ 30 = 1 ∧ 2 ^ 30 ≤ d).
  { destruct (decide (d < 2 ^ 30)); [left; by rewrite Z.div_small by lia|right]. split; [|lia].
    symmetry. apply (Z.div_unique _ _ 1 (d - 2 ^ 30)); lia. }
  destruct E as [[-> H]|[-> H]]; split; try lia.
  - rewrite Z.mod_small; lia.
  - rewrite <-(Z_mod_plus_full _ (-1)), Z.mod_small; lia.
Qed.

Definition shl_body (a i carry : Z) : St store Z :=
  digit ← rd_digit a i;
  wr_digit a i (Z.land (u32 (u32 (Z.shiftl digit 1) + carry)) DIGIT_MAX);;
  mret (Z.shiftr digit (DIGIT_SHIFT - 1)).

Lemma shl_loop s a R L w n : digits_ok L → (∀ i d, (i < n)%nat → L !! i = Some d → R !! i = Some d) → (n ≤ length L)%nat → (n ≤ length R)%nat →
  ∃ carry ds, for_loop n 0 (shl_body a) 0 (<[a := Long w R]> s) = Done (carry, <[a := Long w (ds ++ drop n R)]> s) ∧
    length ds = n ∧ digits_ok ds ∧ 0 ≤ carry ≤ 1 ∧ eval ds + BASE ^ Z.of_nat n * carry = 2 * eval (take n L).
Proof.
  intros DL HR HL HRn.
  destruct (for_loop_inv (λ i carry s', ∃ ds, s' = <[a := Long w (ds ++ drop i R)]> s ∧ length ds = i ∧ digits_ok ds ∧ 0 ≤ carry ≤ 1 ∧
      eval ds + BASE ^ Z.of_nat i * carry = 2 * eval (take i L)) n 0 (shl_body a) 0 (<[a := Long w R]> s)) as (carry & s' & E & ds & -> & H); [| |by eauto].
  - exists []. split_and!; try done. constructor.
  - intros i carry s' Hi (ds & -> & Hl & Hd & Hc & He). rewrite Z.add_0_l. unfold shl_body. destruct (lookup_lt_is_Some_2 L i ltac:(lia)) as [d Hdi].
    pose proof (digits_ok_lookup _ _ _ _ DL Hdi) as Hdr.
    st_step (rd_digit_eq (<[a := Long w (ds ++ drop i R)]> s) a (Long w (ds ++ drop i R)) i d (lookup_insert_eq _ _ _)
      ltac:(simpl; rewrite lookup_app_r, Hl, Nat.sub_diag, lookup_drop, Nat.add_0_r by lia; by apply HR)).
    st_step (wr_next s a w ds R i (Z.land (u32 (u32 (Z.shiftl d 1) + carry)) DIGIT_MAX) ltac:(done) ltac:(lia)).
    destruct (shl_digit d carry Hdr Hc) as [Hs Hs']. eexists _, _. split; [done|]. eexists. split; [done|]. split_and!; try lia.
    + rewrite length_app. simpl. lia.
    + apply digits_ok_app. split; [done|]. constructor; [apply land_MAX_range|done].
    + rewrite (eval_snoc BASE), (eval_take_S _ _ _ _ Hdi), pow_S, Hl. set (P := BASE ^ Z.of_nat i) in *. nia.
Qed.

Lemma repr_pos_inv x v : repr x v → 0 ≤ v → ∃ ds, x = pos ds ∧ digits_ok ds ∧ normal ds ∧ eval ds = v.
Proof. intros Hx Hv. exists (digits x). destruct (repr_digits _ _ Hx) as (D & N & E). rewrite Z.abs_eq in E by done. split_and!; [by eapply repr_nonneg|done..]. Qed.

Lemma repr_pos_v ds v : digits_ok ds → normal ds → eval ds = v → repr (pos ds) v.
Proof. intros D N <-. by apply repr_pos. Qed.

(** The highest digit of a normal numeral. *)
Lemma normal_snoc_inv ds v : digits_ok ds → normal ds → eval ds = v → 0 < v →
  ∃ l top, ds = l ++ [top] ∧ 0 < top < BASE ∧ v = eval l + BASE ^ Z.of_nat (length l) * top ∧ 0 ≤ eval l < BASE ^ Z.of_nat (length l).
Proof.
  intros D N E Hv. destruct ds as [|top l _] using rev_ind; [simpl in E; lia|]. exists l, top. rewrite (eval_snoc BASE) in E.
  pose proof D as Dd. apply digits_ok_app in Dd as [Dl Dd]. inversion_clear Dd. assert (top ≠ 0) by (intros ->; apply N; by rewrite last_snoc).
  pose proof (eval_bound BASE BASE_gt l Dl). split_and!; done || lia.
Qed.

Lemma lshift_one_eq s a x v : s !! a = Some x → repr x v → 0 ≤ v →
  ∃ y, lshift_one a s = Done (0, <[a := y]> s) ∧ repr y (2 * v).
Proof.
  intros Ha Hx Hv. unfold lshift_one. st_step (rd_long_eq _ _ _ Ha). rewrite (repr_width_0 _ _ Hx), (repr_abs_width _ _ Hx).
  destruct (Z.eqb_spec v 0) as [->|Hv0]; [exists x; split; [by rewrite insert_id|done]|].
  destruct (repr_pos_inv x v Hx Hv) as (L & -> & D & N & E). clear Hx. destruct (normal_snoc_inv L v D N E ltac:(lia)) as (l & top & EL & Ht & Ev & Hl).
  simpl digits. set (n := length L). assert (Hn : n = S (length l)) by (unfold n; rewrite EL, length_app; simpl; lia).
  replace (Z.of_nat n - 1) with (Z.of_nat (length l)) by lia. rewrite (digit_eq (pos L) (length l) top) by (rewrite EL; by apply list_lookup_middle).
  unfold lift. unfold mbind at 1, St_bind at 1. destruct (shl_digit top 0 ltac:(lia) ltac:(lia)) as [Hs Hs'].
  pose proof (Z.mod_pos_bound (u32 (u32 (Z.shiftl top 1) + 0)) BASE ltac:(done)) as Hm. rewrite land_MAX in Hs.
  set (hi := Z.shiftr top (DIGIT_SHIFT - 1)) in *. set (P := BASE ^ Z.of_nat (length l)) in *.
  assert (Hw : ∃ w, (if negb (hi =? 0) then Z.of_nat n + 1 else Z.of_nat n) = Z.of_nat w ∧ w = (n + Z.to_nat hi)%nat).
  { eexists. split; [|done]. destruct (Z.eqb_spec hi 0); simpl; lia. }
  destruct Hw as (w & -> & Hw). st_step (resize_eq s a (pos L) w Ha (sized_pos _)). simpl digits.
  assert (LR : length (resized w L) = w) by apply length_resized. rewrite Nat2Z.id. unfold pos at 1. rewrite LR.
  destruct (shl_loop s a (resized w L) L (Z.of_nat w) n D) as (carry & ds & E' & Hlen & Hd & Hc & He); [|done|lia|].
  { intros i d Hi Hd. apply resized_lookup; [done|lia]. }
  unfold shl_body in E'. st_step E'. rewrite take_ge in He by done. rewrite Hn, pow_S, E in He. fold P in He.
  pose proof (eval_bound BASE BASE_gt ds Hd) as Hb. rewrite Hlen, Hn, pow_S in Hb. fold P in Hb.
  assert (carry = hi) as -> by nia. destruct (Z.eqb_spec hi 0) as [Eh|Eh]; cbn [negb].
  - rewrite Eh in *. simpl in Hw. rewrite Nat.add_0_r in Hw. subst w. eexists. split; [done|]. rewrite drop_ge, app_nil_r by lia.
    replace (Long (Z.of_nat n) ds) with (pos ds) by (unfold pos; by rewrite Hlen). apply repr_pos_v; [done| |lia].
    apply (normal_large ds (2 * v) n); [done|done|lia|]. replace (Z.of_nat n - 1) with (Z.of_nat (length l)) by lia. fold P. nia.
  - assert (hi = 1) as Eh1 by lia. rewrite Eh1 in *. replace (Z.of_nat w - 1) with (Z.of_nat n) by lia.
    st_step (wr_next s a (Z.of_nat w) ds (resized w L) n 1 ltac:(done) ltac:(lia)). eexists. split; [done|]. rewrite drop_ge, app_nil_r by lia.
    replace (Long (Z.of_nat w) (ds ++ [1])) with (pos (ds ++ [1])) by (unfold pos; rewrite length_app; simpl; do 2 f_equal; lia).
    apply repr_pos_v; [|unfold normal; by rewrite last_snoc|rewrite (eval_snoc BASE), Hlen, Hn, pow_S; fold P; lia].
    apply digits_ok_app. split; [done|]. constructor; [lia|done].
Qed.

(** Disjoint bits. *)
Lemma lor_shift q r n : 0 ≤ n → 0 ≤ r < 2 ^ n → Z.lor (q * 2 ^ n) r = q * 2 ^ n + r.
Proof.
  intros Hn Hr. assert (Hd : Z.land (q * 2 ^ n) r = 0).
  { apply Z.bits_inj'. intros k Hk. rewrite Z.land_spec, Z.bits_0, <-Z.shiftl_mul_pow2 by done. destruct (decide (k < n)).
    - by rewrite Z.shiftl_spec_low by done.
    - assert (Z.testbit r k = false) as ->; [|by rewrite andb_false_r]. rewrite <-(Z.mod_small r (2 ^ n)) by done. apply Z.mod_pow2_bits_high. lia. }
  rewrite <-Z.lxor_lor by done. symmetry. by apply Z.add_nocarry_lxor.
Qed.

Lemma land_even d : 0 ≤ d < BASE → Z.land (2 * d) (u32 (Z.lnot 1)) = 2 * d.
Proof.
  intros Hd. change (u32 (Z.lnot 1)) with (Z.shiftl (Z.ones 31) 1). rewrite (Z.mul_comm 2). change (d * 2) with (d * 2 ^ 1).
  rewrite <-Z.shiftl_mul_pow2, <-Z.shiftl_land, Z.land_ones, Z.mod_small by done. done.
Qed.

Lemma bit_set_zero_eq s a x w b : s !! a = Some x → repr x (2 * w) → 0 ≤ w → b = 0 ∨ b = 1 →
  ∃ y, bit_set_zero a b s = Done (0, <[a := y]> s) ∧ repr y (2 * w + b).
Proof.
  intros Ha Hx Hw Hb. unfold bit_set_zero. st_step (rd_long_eq _ _ _ Ha). rewrite (repr_width_0 _ _ Hx).
  assert (truth (negb (b =? 0)) = b) as -> by (by destruct Hb; subst). destruct (Z.eqb_spec (2 * w) 0) as [E|E].
  { st_step (clear_eq _ _ _ Ha). assert (w = 0) as -> by lia.
    destruct (init_si_eq (<[a := Long 0 []]> s) a (Long 0 []) b (lookup_insert_eq _ _ _)) as (y & Ey & Hy); [destruct Hb; lia|].
    st_step Ey. rewrite insert_insert_eq. by eexists. }
  destruct (repr_pos_inv x (2 * w) Hx ltac:(lia)) as (ds & -> & D & N & V). destruct ds as [|d ds]; [simpl in V; lia|]. rewrite eval_cons in V.
  inversion D as [|? ? Hd D']; subst.
  change 0 with (Z.of_nat 0) at 1. st_step (rd_digit_eq s a (pos (d :: ds)) 0 d Ha eq_refl).
  change 0 with (Z.of_nat 0) at 1. st_step (wr_digit_eq s a (pos (d :: ds)) 0 (Z.lor (Z.land d (u32 (Z.lnot 1))) b) Ha ltac:(simpl; lia)).
  eexists. split; [done|]. simpl insert. assert (d = 2 * (d / 2)) as Ed.
  { pose proof (Z.div_mod d 2 ltac:(done)). assert (d mod 2 = 0); [|lia]. rewrite <-(Z_mod_plus_full d (2 ^ 30 * eval ds)).
    replace (d + 2 ^ 30 * eval ds * 2) with (w * 2) by lia. by apply Z_mod_mult. }
  assert (0 ≤ d / 2 < 2 ^ 30) by (split; [apply Z.div_pos; lia|apply Z.div_lt_upper_bound; lia]).
  assert (Z.lor (Z.land d (u32 (Z.lnot 1))) b = d + b) as ->.
  { rewrite Ed at 1. rewrite land_even by lia. rewrite (Z.mul_comm 2). change (d / 2 * 2) with (d / 2 * 2 ^ 1). rewrite lor_shift by (destruct Hb; lia). lia. }
  replace (Long (width (pos (d :: ds))) (d + b :: ds)) with (pos (d + b :: ds)) by done. apply repr_pos_v.
  - constructor; [|done]. destruct Hb; lia.
  - destruct ds as [|e ds]; unfold normal in *; rewrite ?last_cons_cons in *; [|done]. simpl in *. intros [=]. lia.
  - rewrite eval_cons. lia.
Qed.

(** Setting a bit that is not set, of a number that need not be in normal form. *)
Lemma bit_set_eq s a ds n : s !! a = Some (pos ds) → digits_ok ds → 0 ≤ n → Z.testbit (eval ds) n = false →
  ∃ ds', krk_long_bit_set a n s = Done (0, <[a := pos ds']> s) ∧ digits_ok ds' ∧ eval ds' = eval ds + 2 ^ n ∧
    length ds' = Nat.max (length ds) (Z.to_nat (n / 31) + 1).
Proof.
  intros Ha D Hn Hbit. unfold krk_long_bit_set, DIGIT_SHIFT. st_step (rd_long_eq _ _ _ Ha). rewrite abs_width_pos.
  assert (Hk : 0 ≤ n / 31) by (by apply Z.div_pos). pose proof (Z.div_mod n 31 ltac:(done)) as Hdm. pose proof (Z.mod_pos_bound n 31 ltac:(done)) as Hr.
  rewrite <-(Z2Nat.id (n / 31)) in Hdm |- * by done. set (k := Z.to_nat (n / 31)) in *. set (r := n mod 31) in *. rewrite Nat2Z.id.
  set (R := resized (Nat.max (length ds) (k + 1)) ds). assert (LR : length R = Nat.max (length ds) (k + 1)) by apply length_resized.
  assert (ER : R = ds ++ replicate (k + 1 - length ds) 0).
  { unfold R, resized. rewrite take_ge by lia. f_equal. f_equal. lia. }
  assert (DR : digits_ok R) by (rewrite ER; apply digits_ok_app; split; [done|by apply digits_ok_zeros]).
  assert (VR : eval R = eval ds) by (rewrite ER, eval_app, eval_zeros; lia).
  assert (Hgrow : (if Z.of_nat (length ds) <=? Z.of_nat k then
      krk_long_resize a (Z.of_nat k + 1);;
      for_loop (Z.to_nat (Z.of_nat k + 1 - Z.of_nat (length ds))) (Z.of_nat (length ds)) (λ i (_ : unit), wr_digit a i 0) tt
    else mret tt) s = Done (tt, <[a := pos R]> s)).
  { destruct (Z.leb_spec (Z.of_nat (length ds)) (Z.of_nat k)).
    - replace (Z.of_nat k + 1) with (Z.of_nat (k + 1)) by lia. st_step (resize_eq s a (pos ds) (k + 1) Ha (sized_pos ds)). simpl digits.
      replace (resized (k + 1) ds) with R by (unfold R; f_equal; lia).
      destruct (for_loop_inv (λ i (_ : unit) s', s' = <[a := pos R]> s) (Z.to_nat (Z.of_nat (k + 1) - Z.of_nat (length ds))) (Z.of_nat (length ds))
        (λ i (_ : unit), wr_digit a i 0) tt (<[a := pos R]> s)) as ([] & s' & -> & ->); [done| |done].
      intros i [] s' Hi ->. rewrite <-Nat2Z.inj_add, wr_pos by lia. eexists _, _. split; [done|]. do 2 f_equal. apply list_insert_id.
      rewrite ER, lookup_app_r by lia. apply lookup_replicate_2. lia.
    - unfold mret, St_ret. do 2 f_equal. rewrite ER. replace (k + 1 - length ds)%nat with O by lia. rewrite app_nil_r. by rewrite insert_id. }
  st_step Hgrow. destruct (lookup_lt_is_Some_2 R k ltac:(lia)) as [d Hd]. pose proof (digits_ok_lookup _ _ _ _ DR Hd) as Hdr.
  st_step (rd_pos s a R k d Hd). st_step (wr_pos s a R k (Z.lor d (Z.shiftl 1 r)) ltac:(lia)).
  assert (Hdbit : Z.testbit d r = false).
  { rewrite <-Hbit, <-VR, Hdm, (Z.mul_comm 31), testbit_digits by (done || lia). by rewrite (list_lookup_total_correct _ _ _ Hd). }
  assert (Elor : Z.lor d (Z.shiftl 1 r) = d + 2 ^ r).
  { rewrite Z.shiftl_1_l. rewrite <-Z.lxor_lor, Z.add_nocarry_lxor; [done| |].
    all: pose proof (land_bit_zero d r ltac:(lia)) as L; rewrite Hdbit, Z.shiftl_1_l in L; by apply Z.eqb_eq in L. }
  assert (0 ≤ d + 2 ^ r < BASE).
  { split; [lia|]. rewrite <-Elor. destruct (decide (Z.lor d (Z.shiftl 1 r) = 0)) as [->|H0]; [done|].
    assert (0 ≤ Z.lor d (Z.shiftl 1 r)) by (apply Z.lor_nonneg; rewrite Z.shiftl_nonneg; lia).
    apply Z.log2_lt_pow2; [lia|]. rewrite Z.log2_lor, Z.shiftl_1_l, Z.log2_pow2 by (rewrite ?Z.shiftl_nonneg; lia).
    destruct (decide (d = 0)) as [->|]; [simpl; lia|]. pose proof (proj1 (Z.log2_lt_pow2 d 31 ltac:(lia)) ltac:(lia)). lia. }
  rewrite Elor. eexists. split; [done|]. split_and!; [by apply digits_ok_insert| |by rewrite length_insert].
  rewrite (eval_insert _ _ _ _ _ Hd), VR. rewrite <-Z.pow_mul_r by lia. replace (d + 2 ^ r - d) with (2 ^ r) by lia.
  rewrite <-Z.pow_add_r by lia. by rewrite <-Hdm.
Qed.

(** ** The two divisions *)

(** [get] is how the divisor is read. *)
Definition div_digit_body (absa : Z) (get : St store Z) (awidth i remainder : Z) : St store Z :=
  let i := awidth - i - 1 in
  d ← rd_digit absa i;
  e ← get;
  let remainder := Z.lor (u64 (Z.shiftl remainder DIGIT_SHIFT)) d in
  wr_digit absa i (Z.land (u32 (remainder / e)) DIGIT_MAX);;
  q ← rd_digit absa i;
  mret (u64 (remainder - u64 (q * e))).

Lemma div_step r d e : 0 < e < BASE → 0 ≤ r < e → 0 ≤ d < BASE →
  let t := Z.lor (u64 (Z.shiftl r DIGIT_SHIFT)) d in
  t = r * BASE + d ∧ Z.land (u32 (t / e)) DIGIT_MAX = t / e ∧ 0 ≤ t / e < BASE ∧ u64 (t - u64 (t / e * e)) = t mod e ∧ 0 ≤ t mod e < e.
Proof.
  intros He Hr Hd. unfold DIGIT_SHIFT. rewrite Z.shiftl_mul_pow2 by done. rewrite u64_small by nia. rewrite lor_shift by done. cbv zeta.
  set (t := r * BASE + d). assert (Ht : 0 ≤ t < e * BASE) by (unfold t; nia).
  assert (Hq : 0 ≤ t / e < BASE) by (split; [by apply Z.div_pos; lia|apply Z.div_lt_upper_bound; lia]).
  pose proof (Z.div_mod t e ltac:(lia)). pose proof (Z.mod_pos_bound t e ltac:(lia)). rewrite land_MAX, (u32_small (t / e)), (Z.mod_small (t / e)) by lia.
  split_and!; try done; try lia. rewrite (u64_small (t / e * e)) by nia. rewrite u64_small by lia. lia.
Qed.

(** The high digits become those of the quotient. *)
Lemma div_digit_loop s absa get D e n : (∀ Q, get (<[absa := pos Q]> s) = Done (e, <[absa := pos Q]> s)) → digits_ok D → 0 < e < BASE → n = length D →
  ∃ Q, for_loop n 0 (div_digit_body absa get (Z.of_nat n)) 0 (<[absa := pos D]> s) = Done (eval D mod e, <[absa := pos Q]> s) ∧
    digits_ok Q ∧ eval Q = eval D / e.
Proof.
  intros Hget DD He ->.
  destruct (for_loop_inv (λ i r s', ∃ Q, s' = <[absa := pos (take (length D - i) D ++ Q)]> s ∧ length Q = i ∧ digits_ok Q ∧ 0 ≤ r < e ∧
      eval (drop (length D - i) D) = eval Q * e + r) (length D) 0 (div_digit_body absa get (Z.of_nat (length D))) 0 (<[absa := pos D]> s))
    as (r & s' & E & Q & -> & Hl & HQ & Hr & V).
  - exists []. rewrite Nat.sub_0_r, take_ge, drop_ge, app_nil_r by lia. split_and!; try done; [constructor|lia].
  - intros i r s' Hi (Q & -> & Hl & HQ & Hr & V). rewrite Z.add_0_l. unfold div_digit_body. cbv zeta.
    set (k := (length D - S i)%nat). replace (Z.of_nat (length D) - Z.of_nat i - 1) with (Z.of_nat k) by lia.
    replace (length D - i)%nat with (S k) in * by lia.
    destruct (lookup_lt_is_Some_2 D k ltac:(lia)) as [d Hd]. pose proof (digits_ok_lookup _ _ _ _ DD Hd) as Hdr. rewrite (take_S_r _ _ _ Hd), <-app_assoc. simpl app.
    assert (Hk : length (take k D) = k) by (rewrite length_take; lia).
    st_step (rd_pos s absa (take k D ++ d :: Q) k d ltac:(by apply list_lookup_middle)).
    st_step (Hget (take k D ++ d :: Q)).
    destruct (div_step r d e He Hr Hdr) as (Ht & Hq & Hqr & Hrem & Hrr). set (t := Z.lor (u64 (Z.shiftl r DIGIT_SHIFT)) d) in *. rewrite Hq.
    st_step (wr_pos s absa (take k D ++ d :: Q) k (t / e) ltac:(rewrite length_app; simpl; lia)).
    rewrite insert_app_r_alt by lia. rewrite Hk, Nat.sub_diag. simpl insert.
    st_step (rd_pos s absa (take k D ++ t / e :: Q) k (t / e) ltac:(by apply list_lookup_middle)). rewrite Hrem.
    eexists _, _. split; [done|]. eexists. split; [done|]. split_and!; try lia.
    + simpl. lia.
    + by constructor.
    + rewrite (drop_S _ _ _ Hd), !eval_cons, V. pose proof (Z.div_mod t e ltac:(lia)). lia.
  - rewrite Nat.sub_diag in *. simpl in V. rewrite drop_0 in V. exists Q. simpl app in E. split; [|split; [done|]].
    + rewrite E. do 2 f_equal. rewrite V, Z.add_comm, Z.mod_add, Z.mod_small by lia. done.
    + rewrite V, Z.add_comm, Z.div_add, Z.div_small by lia. done.
Qed.

Definition div_bits_body (quot rem absb n i : Z) (absa : Z) : St store unit :=
  let i := n - i - 1 in
  lshift_one rem;;
  is_set ← bit_is_set absa i;
  bit_set_zero rem is_set;;
  c ← krk_long_compare rem absb;
  if 0 <=? c then
    sub_big_small rem rem absb;;
    krk_long_bit_set quot i;;
    mret tt
  else mret tt.

Lemma bit_step u k : 0 ≤ u → 0 ≤ k → u / 2 ^ k = 2 * (u / 2 ^ (k + 1)) + truth (Z.testbit u k).
Proof.
  intros Hu Hk. rewrite <-!Z.shiftr_div_pow2 by lia. rewrite <-Z.shiftr_shiftr by lia. rewrite (Z.shiftr_div_pow2 (Z.shiftr u k)) by done.
  rewrite Z.pow_1_r. replace (Z.testbit u k) with (Z.testbit (Z.shiftr u k) 0) by (rewrite Z.shiftr_spec by done; done).
  pose proof (Z.div_mod (Z.shiftr u k) 2 ltac:(done)). rewrite Zmod_odd in H. rewrite Z.bit0_odd. unfold truth. by destruct (Z.odd _).
Qed.

Lemma testbit_multiple q k : 0 ≤ k → Z.testbit (q * 2 ^ (k + 1)) k = false.
Proof. intros Hk. rewrite <-Z.shiftl_mul_pow2 by lia. apply Z.shiftl_spec_low. lia. Qed.

(** The quotient bit by bit, from the highest one. *)
Lemma div_bits_loop s quot rem absa absb D v y n :
  quot ≠ rem → absa ≠ quot → absa ≠ rem → absb ≠ quot → absb ≠ rem → s !! absa = Some (pos D) → s !! absb = Some y → repr y v → 0 < v →
  digits_ok D → 0 ≤ Z.of_nat n ≤ Z.of_nat (length D) * 31 → eval D < 2 ^ Z.of_nat n →
  ∃ Q r, for_loop n 0 (λ i _, div_bits_body quot rem absb (Z.of_nat n) i absa) tt (<[rem := Long 0 []]> (<[quot := Long 0 []]> s)) =
      Done (tt, <[rem := r]> (<[quot := pos Q]> s)) ∧ digits_ok Q ∧ eval Q = eval D / v ∧ repr r (eval D mod v).
Proof.
  intros Hqr Haq Har Hbq Hbr Ha Hb Hy Hv DD Hn HD. pose proof (eval_nonneg BASE BASE_gt D DD) as HD0.
  destruct (for_loop_inv (λ i _ s', ∃ Q q r R, s' = <[rem := r]> (<[quot := pos Q]> s) ∧ digits_ok Q ∧ eval Q = q * 2 ^ (Z.of_nat n - Z.of_nat i) ∧
      repr r R ∧ 0 ≤ R < v ∧ eval D / 2 ^ (Z.of_nat n - Z.of_nat i) = q * v + R) n 0
      (λ i _, div_bits_body quot rem absb (Z.of_nat n) i absa) tt (<[rem := Long 0 []]> (<[quot := Long 0 []]> s)))
    as ([] & s' & E & Q & q & r & R & -> & HQ & VQ & Hr & HR & V).
  - exists [], 0, (Long 0 []), 0. split_and!; try done; [constructor|apply repr_0|]. rewrite Z.sub_0_r, Z.div_small by lia. lia.
  - intros i [] s' Hi (Q & q & r & R & -> & HQ & VQ & Hr & HR & V). rewrite Z.add_0_l. unfold div_bits_body.
    set (k := Z.of_nat n - Z.of_nat i - 1). replace (Z.of_nat n - Z.of_nat i) with (k + 1) in * by lia. replace (Z.of_nat n - Z.of_nat (S i)) with k by lia.
    destruct (lshift_one_eq (<[rem := r]> (<[quot := pos Q]> s)) rem r R (lookup_insert_eq _ _ _) Hr ltac:(lia)) as (r1 & E1 & Hr1). st_step E1.
    rewrite insert_insert_eq. st_step (bit_is_set_eq (<[rem := r1]> (<[quot := pos Q]> s)) absa (pos D) k ltac:(by rewrite !lookup_insert_ne) DD ltac:(simpl; lia)). simpl digits.
    destruct (bit_set_zero_eq (<[rem := r1]> (<[quot := pos Q]> s)) rem r1 R (truth (Z.testbit (eval D) k)) (lookup_insert_eq _ _ _) Hr1 ltac:(lia)
      ltac:(destruct (Z.testbit _ _); auto)) as (r2 & E2 & Hr2). st_step E2. rewrite insert_insert_eq.
    pose proof (bit_step (eval D) k HD0 ltac:(lia)) as Hstep. set (b := truth (Z.testbit (eval D) k)) in *. assert (Hb01 : 0 ≤ b ≤ 1) by (unfold b, truth; destruct (Z.testbit _ _); lia).
    st_step (compare_eq (<[rem := r2]> (<[quot := pos Q]> s)) rem absb r2 y (2 * R + b) v (lookup_insert_eq _ _ _) ltac:(by rewrite !lookup_insert_ne) Hr2 Hy).
    unfold cmp. destruct (Z.ltb_spec (2 * R + b) v) as [Hlt|Hge].
    + exists tt. eexists. split; [done|]. exists Q, (2 * q), r2, (2 * R + b). split_and!; try done; try lia.
      rewrite VQ, Z.add_1_r, Z.pow_succ_r by lia. ring.
    + destruct (sub_big_small_eq (<[rem := r2]> (<[quot := pos Q]> s)) rem rem absb r2 r2 y (2 * R + b) v (lookup_insert_eq _ _ _) ltac:(by eapply repr_sized)
        (lookup_insert_eq _ _ _) ltac:(by rewrite !lookup_insert_ne) Hr2 Hy ltac:(lia)) as (ds & E3 & D3 & N3 & V3).
      assert ((0 <=? (if v <? 2 * R + b then 1 else 0)) = true) as -> by (by destruct (_ <? _)). st_step E3. rewrite insert_insert_eq.
      destruct (bit_set_eq (<[rem := pos ds]> (<[quot := pos Q]> s)) quot Q k ltac:(by rewrite lookup_insert_ne, lookup_insert_eq) HQ ltac:(lia)
        ltac:(rewrite VQ; apply testbit_multiple; lia)) as (Q' & E4 & HQ' & VQ' & _). st_step E4.
      exists tt. eexists. split; [done|]. exists Q', (2 * q + 1), (pos ds), (2 * R + b - v). rewrite (insert_insert_ne _ quot rem) by done. rewrite insert_insert_eq.
      split_and!; try done; try lia.
      * rewrite VQ', VQ, Z.add_1_r, Z.pow_succ_r by lia. ring.
      * apply repr_pos_v; [done..|]. lia.
  - rewrite Z.sub_diag, Z.pow_0_r, Z.div_1_r, ?Z.mul_1_r in *. exists Q, r. split_and!; try done.
    + rewrite V, Z.add_comm, Z.div_add, Z.div_small by lia. lia.
    + rewrite V, Z.add_comm, Z.mod_add, Z.mod_small by lia. done.
Qed.

(** ** Quotient and remainder of absolute values *)

(** The copy of an operand with its sign set. *)
Lemma copy_abs {A} s t a x z u (k : St store A) : s !! t = Some z → s !! a = Some x → repr x u →
  ∃ ds, (krk_long_init_copy t a;; krk_long_set_sign t 1;; k) s = k (<[t := pos ds]> s) ∧ ds = digits x ∧ repr (pos ds) (Z.abs u).
Proof.
  intros Hz Ha Hx. exists (digits x). st_step (init_copy_eq s t a x z Hz Ha (repr_sized _ _ Hx)). st_step (set_sign_over s t x 1).
  destruct (repr_digits _ _ Hx) as (D & N & E). split; [|split; [done|by apply repr_pos_v]].
  by rewrite (repr_abs_width _ _ Hx), Z.mul_1_r.
Qed.

Lemma div_by_zero s quot rem a b x y u zq zr : s !! quot = Some zq → s !! rem = Some zr → quot ≠ rem → a ≠ quot → a ≠ rem → b ≠ quot → b ≠ rem →
  s !! a = Some x → s !! b = Some y → repr x u → repr y 0 →
  div_abs quot rem a b s = Done (1, <[rem := Long 0 []]> (<[quot := Long 0 []]> s)).
Proof.
  intros Hq Hr Hqr Haq Har Hbq Hbr Ha Hb Hx Hy. unfold div_abs. st_step (clear_eq _ _ _ Hq).
  st_step (clear_eq (<[quot := Long 0 []]> s) rem zr ltac:(by rewrite lookup_insert_ne)).
  st_step (rd_long_eq (<[rem := Long 0 []]> (<[quot := Long 0 []]> s)) a x ltac:(by rewrite !lookup_insert_ne)).
  st_step (rd_long_eq (<[rem := Long 0 []]> (<[quot := Long 0 []]> s)) b y ltac:(by rewrite !lookup_insert_ne)).
  by rewrite (repr_width_0 _ _ Hy).
Qed.

Lemma clear_two s a b x y : a ≠ b → s !! a = Some x → s !! b = Some y →
  krk_long_clear_many [a; b] s = Done (0, <[b := Long 0 []]> (<[a := Long 0 []]> s)).
Proof.
  intros Hn Ha Hb. cbn [krk_long_clear_many]. st_step (clear_eq _ _ _ Ha).
  by st_step (clear_eq (<[a := Long 0 []]> s) b y ltac:(by rewrite lookup_insert_ne)).
Qed.

(** Division of copies by a number of one digit. *)
Lemma div_digit_eq s quot rem absa absb D e zq zr : NoDup [quot; rem; absa; absb] →
  s !! quot = Some zq → s !! rem = Some zr → s !! absa = Some (pos D) → s !! absb = Some (pos [e]) → digits_ok D → 0 < e < BASE →
  ∃ q r, div_digit quot rem absa absb (Z.of_nat (length D)) s =
      Done (tt, <[absb := Long 0 []]> (<[absa := Long 0 []]> (<[quot := q]> (<[rem := r]> s)))) ∧
    repr q (eval D / e) ∧ repr r (eval D mod e).
Proof.
  intros Hnd Hq Hr Ha Hb DD He. rewrite !NoDup_cons, !not_elem_of_cons in Hnd. destruct Hnd as ((? & ? & ? & _) & (? & ? & _) & (? & _) & _).
  unfold div_digit. rewrite Nat2Z.id. destruct (div_digit_loop s absa (rd_digit absb 0) D e (length D) (λ Q, rd_other s absa absb (pos [e]) Q 0 e Hb ltac:(done) eq_refl) DD He eq_refl) as (Q & E & HQ & VQ).
  rewrite (insert_id s absa (pos D)) in E by done. unfold div_digit_body in E. st_step E.
  pose proof (Z.mod_pos_bound (eval D) e ltac:(lia)) as Hm. rewrite i64_small by lia.
  destruct (init_si_eq (<[absa := pos Q]> s) rem zr (eval D mod e) ltac:(by rewrite lookup_insert_ne) ltac:(lia)) as (r & E1 & R1). st_step E1.
  st_step (swap_eq (<[rem := r]> (<[absa := pos Q]> s)) quot absa zq (pos Q) ltac:(by rewrite !lookup_insert_ne) ltac:(by rewrite lookup_insert_ne, lookup_insert_eq)).
  rewrite (insert_insert_ne (<[rem := r]> (<[absa := pos Q]> s)) absa quot) by done.
  st_step (trim_over (<[absa := zq]> (<[rem := r]> (<[absa := pos Q]> s))) quot Q).
  set (s1 := <[quot := pos (trimmed Q)]> (<[absa := zq]> (<[rem := r]> (<[absa := pos Q]> s)))).
  st_step (clear_two s1 absa absb zq (pos [e]) ltac:(done) ltac:(unfold s1; by rewrite lookup_insert_ne, lookup_insert_eq) ltac:(unfold s1; by rewrite !lookup_insert_ne)).
  exists (pos (trimmed Q)), r. split_and!; [|apply repr_pos_v; [by apply digits_ok_trimmed|apply normal_trimmed|by rewrite eval_trimmed]|done].
  unfold mret, St_ret. do 2 f_equal. unfold s1. store_eq.
Qed.

(** Division of copies bit by bit. *)
Lemma div_bits_eq s quot rem a absa absb D x y u v : NoDup [quot; rem; absa; absb] → a ≠ quot → a ≠ rem →
  s !! quot = Some (Long 0 []) → s !! rem = Some (Long 0 []) → s !! a = Some x → repr x u → s !! absa = Some (pos D) → repr (pos D) (Z.abs u) →
  s !! absb = Some y → repr y v → 0 < v →
  ∃ q r, div_bits quot rem a absa absb s = Done (tt, <[absb := Long 0 []]> (<[absa := Long 0 []]> (<[quot := q]> (<[rem := r]> s)))) ∧
    repr q (Z.abs u / v) ∧ repr r (Z.abs u mod v).
Proof.
  intros Hnd Haq Har Hq Hr Ha Hx HA HD Hb Hy Hv. rewrite !NoDup_cons, !not_elem_of_cons in Hnd. destruct Hnd as ((? & ? & ? & _) & (? & ? & _) & (? & _) & _).
  unfold div_bits. st_step (bits_in_eq s a x u Ha Hx). destruct (repr_digits _ _ HD) as (DD & ND & VD). simpl digits in *. rewrite Z.abs_involutive in VD.
  pose proof (bits_nonneg (Z.abs u)) as Hn. rewrite <-(Z2Nat.id (bits (Z.abs u))) by done. set (n := Z.to_nat (bits (Z.abs u))) in *. rewrite Nat2Z.id.
  assert (Hup : eval D < 2 ^ Z.of_nat n) by (unfold n; rewrite Z2Nat.id, VD by done; apply bits_pow2; lia).
  assert (Hlen : Z.of_nat n ≤ Z.of_nat (length D) * 31).
  { unfold n. rewrite Z2Nat.id by done. unfold bits. destruct (Z.eqb_spec (Z.abs u) 0); [lia|]. pose proof (eval_bound BASE BASE_gt D DD) as B.
    rewrite VD, <-Z.pow_mul_r in B by lia. assert (Z.log2 (Z.abs u) < 31 * Z.of_nat (length D)); [|lia]. apply Z.log2_lt_pow2; lia. }
  destruct (div_bits_loop s quot rem absa absb D v y n) as (Q & r & E & HQ & VQ & Rr); try done; [lia|].
  rewrite (insert_id s quot), (insert_id s rem) in E by done. unfold div_bits_body in E. st_step E. rewrite VD in *.
  rewrite (insert_insert_ne s rem quot) by done. st_step (trim_over (<[rem := r]> s) quot Q).
  st_step (clear_two (<[quot := pos (trimmed Q)]> (<[rem := r]> s)) absa absb (pos D) y ltac:(done) ltac:(store_lookup) ltac:(store_lookup)).
  exists (pos (trimmed Q)), r. split_and!; [done| |done]. apply repr_pos_v; [by apply digits_ok_trimmed|apply normal_trimmed|by rewrite eval_trimmed].
Qed.

Lemma div_abs_eq s quot rem a b x y u v zq zr : s !! quot = Some zq → s !! rem = Some zr → quot ≠ rem → a ≠ quot → a ≠ rem → b ≠ quot → b ≠ rem →
  s !! a = Some x → s !! b = Some y → repr x u → repr y v → v ≠ 0 →
  ∃ q r, div_abs quot rem a b s = Done (0, <[rem := r]> (<[quot := q]> s)) ∧ repr q (Z.abs u / Z.abs v) ∧ repr r (Z.abs u mod Z.abs v).
Proof.
  intros Hq Hr Hqr Haq Har Hbq Hbr Ha Hb Hx Hy Hv. unfold div_abs. st_step (clear_eq _ _ _ Hq).
  st_step (clear_eq (<[quot := Long 0 []]> s) rem zr ltac:(store_lookup)). set (s1 := <[rem := Long 0 []]> (<[quot := Long 0 []]> s)).
  assert (Ha1 : s1 !! a = Some x) by (unfold s1; store_lookup). assert (Hb1 : s1 !! b = Some y) by (unfold s1; store_lookup).
  assert (Hq1 : s1 !! quot = Some (Long 0 [])) by (unfold s1; store_lookup). assert (Hr1 : s1 !! rem = Some (Long 0 [])) by (unfold s1; store_lookup).
  st_step (rd_long_eq _ _ _ Ha1). st_step (rd_long_eq _ _ _ Hb1). rewrite (repr_width_0 _ _ Hx), (repr_width_0 _ _ Hy), (repr_abs_width _ _ Hx), (repr_abs_width _ _ Hy).
  rewrite (proj2 (Z.eqb_neq v 0)) by done. destruct (Z.eqb_spec u 0) as [->|Hu].
  { exists (Long 0 []), (Long 0 []). split_and!; [done|apply repr_0..]. }
  destruct (repr_digits _ _ Hx) as (Dx & Nx & Ex). destruct (repr_digits _ _ Hy) as (Dy & Ny & Ey).
  destruct (normal_snoc_inv (digits y) (Z.abs v) Dy Ny Ey ltac:(lia)) as (ly & ty & Ely & Hty & _ & _).
  assert (Hone : ∀ {A} (k : bool → St store A), (unit ← (if Z.of_nat (length (digits y)) =? 1 then d ← lift (digit y 0); mret (d =? 1) else mret false); k unit) s1 =
    k (bool_decide (digits y = [1])) s1).
  { intros A k. destruct (Z.eqb_spec (Z.of_nat (length (digits y))) 1) as [E1|E1].
    - destruct (digits y) as [|d [|]] eqn:Edy; simpl in E1; try lia. change 0 with (Z.of_nat 0). rewrite (digit_eq y 0 d) by (by rewrite Edy).
      unfold lift, mbind, St_bind, mret, St_ret. f_equal. destruct (Z.eqb_spec d 1) as [->|]; symmetry; [by apply bool_decide_eq_true|apply bool_decide_eq_false; congruence].
    - unfold mbind, St_bind, mret, St_ret. f_equal. symmetry. apply bool_decide_eq_false. intros E. rewrite E in E1. done. }
  rewrite Hone. case_bool_decide as E1.
  { destruct (copy_abs s1 quot a x _ u (mret 0) Hq1 Ha1 Hx) as (ds & E & _ & Hrep). rewrite E. exists (pos ds), (Long 0 []).
    assert (Z.abs v = 1) as -> by (rewrite <-Ey, E1; done). rewrite Z.div_1_r, Z.mod_1_r. split_and!; [|done|apply repr_0].
    unfold mret, St_ret. do 2 f_equal. unfold s1. store_eq. }
  destruct (Z.ltb_spec (Z.of_nat (length (digits x))) (Z.of_nat (length (digits y)))) as [Hlt|Hge].
  { destruct (copy_abs s1 rem a x _ u (mret 0) Hr1 Ha1 Hx) as (ds & E & _ & Hrep). rewrite E. exists (Long 0 []), (pos ds).
    assert (Z.abs u < Z.abs v) by (rewrite <-Ex, <-Ey; apply (eval_longer BASE BASE_gt); auto; lia).
    rewrite Z.div_small, Z.mod_small by lia. split_and!; [|apply repr_0|done]. unfold mret, St_ret. do 2 f_equal. unfold s1. store_eq. }
  pose proof (repr_pos_v (digits x) (Z.abs u) Dx Nx Ex) as Px. pose proof (repr_pos_v (digits y) (Z.abs v) Dy Ny Ey) as Py.
  assert (Hv' : 0 < Z.abs v) by lia.
  assert (Hy1 : Z.of_nat (length (digits y)) = 1 → ∃ e, digits y = [e] ∧ 0 < e < BASE).
  { rewrite Ely, length_app. simpl. intros. destruct ly; simpl in *; [by exists ty|lia]. }
  set (ta := fresh (dom s1)). pose proof (fresh_local s1) as Hta. fold ta in Hta. set (s2 := <[ta := Long 0 []]> s1).
  set (tb := fresh (dom s2)). pose proof (fresh_local s2) as Htb. fold tb in Htb.
  assert (Hne : ta ≠ quot ∧ ta ≠ rem ∧ ta ≠ a ∧ ta ≠ b) by (split_and!; congruence).
  assert (Hne2 : tb ≠ ta ∧ tb ≠ quot ∧ tb ≠ rem ∧ tb ≠ a ∧ tb ≠ b).
  { split_and!; intros ->; revert Htb; unfold s2; rewrite ?lookup_insert_eq, ?lookup_insert_ne; naive_solver. }
  destruct Hne as (? & ? & ? & ?), Hne2 as (? & ? & ? & ? & ?). set (s3 := <[tb := Long 0 []]> s2).
  assert (Hla : s3 !! a = Some x) by (unfold s3, s2; store_lookup). assert (Hlb : s3 !! b = Some y) by (unfold s3, s2; store_lookup).
  assert (Hlta : s3 !! ta = Some (Long 0 [])) by (unfold s3, s2; store_lookup).
  set (s4 := <[tb := pos (digits y)]> (<[ta := pos (digits x)]> s3)).
  assert (Hsa : s !! ta = None) by (rewrite <-Hta; unfold s1; by rewrite !lookup_insert_ne by congruence).
  assert (Hsb : s !! tb = None) by (rewrite <-Htb; unfold s2, s1; by rewrite !lookup_insert_ne by congruence).
  assert (Hdiv : ∃ q r, (if Z.of_nat (length (digits y)) =? 1 then div_digit quot rem ta tb (Z.of_nat (length (digits x))) else div_bits quot rem a ta tb) s4 =
      Done (tt, <[tb := Long 0 []]> (<[ta := Long 0 []]> (<[quot := q]> (<[rem := r]> s4)))) ∧
    repr q (Z.abs u / Z.abs v) ∧ repr r (Z.abs u mod Z.abs v)).
  { assert (Hnd : NoDup [quot; rem; ta; tb]) by (rewrite !NoDup_cons, !not_elem_of_cons; split_and!; auto using not_elem_of_nil, NoDup_nil_2).
    destruct (Z.eqb_spec (Z.of_nat (length (digits y))) 1) as [E2|E2].
    - destruct (Hy1 E2) as (e & Edy & He). rewrite <-Ex, <-Ey. rewrite Edy. rewrite !eval_cons. simpl (eval []). rewrite Z.mul_0_r, Z.add_0_r.
      apply (div_digit_eq s4 quot rem ta tb (digits x) e (Long 0 []) (Long 0 [])); try done; unfold s4, s3, s2; rewrite ?Edy; store_lookup.
    - apply (div_bits_eq s4 quot rem a ta tb (digits x) x (pos (digits y)) u (Z.abs v)); try done; unfold s4, s3, s2; try store_lookup. }
  destruct Hdiv as (q & r & E & Rq & Rr). exists q, r. split; [|done].
  apply (with_local_run _ s1 0 _ (Long 0 [])); [|fold ta; store_lookup]. fold ta s2.
  apply (with_local_run _ s2 0 _ (Long 0 [])); [|fold tb; store_lookup]. fold tb s3.
  st_step (init_copy_eq s3 ta a x _ Hlta Hla (repr_sized _ _ Hx)). st_step (set_sign_over s3 ta x 1).
  replace (Long (abs_width x * 1) (digits x)) with (pos (digits x)) by (rewrite (repr_abs_width _ _ Hx), Z.mul_1_r; done).
  st_step (init_copy_eq (<[ta := pos (digits x)]> s3) tb b y (Long 0 []) ltac:(unfold s3; store_lookup) ltac:(store_lookup) (repr_sized _ _ Hy)).
  st_step (set_sign_over (<[ta := pos (digits x)]> s3) tb y 1).
  replace (Long (abs_width y * 1) (digits y)) with (pos (digits y)) by (rewrite (repr_abs_width _ _ Hy), Z.mul_1_r; done).
  fold s4. st_step E. unfold mret, St_ret. do 2 f_equal. unfold s4, s3, s2, s1. store_eq.
Qed.

(** ** The division of the operators *)

(** A call with a second result [q]. *)
Lemma with_output_two {A} res q ops (body : Z → St store A) s z zq (P : KrkLong → KrkLong → Prop) r :
  s !! res = Some z → s !! q = Some zq → q ≠ res → (∀ a, a ∈ ops → is_Some (s !! a)) →
  (∀ t s' z', t ∉ ops → t ≠ q → s' !! t = Some z' → s' !! q = Some zq → (∀ a, a ∈ ops → s' !! a = s !! a) →
     ∃ x y, body t s' = Done (r, <[t := x]> (<[q := y]> s')) ∧ P x y) →
  ∃ x y, with_output res ops body s = Done (r, <[res := x]> (<[q := y]> s)) ∧ P x y.
Proof.
  intros Hz Hq Hqr Hops H. unfold with_output. destruct (decide (res ∈ ops)) as [Hin|Hin]; [|by apply (H res s z)].
  pose proof (fresh_local s) as Ht. destruct (H (fresh (dom s)) (<[fresh (dom s) := Long 0 []]> s) (Long 0 [])) as (x & y & E & HP).
  { intros Hi. destruct (Hops _ Hi). congruence. }
  { intros E. rewrite E in Ht. congruence. }
  { apply lookup_insert_eq. }
  { rewrite lookup_insert_ne; [done|]. intros E. rewrite E in Ht. congruence. }
  { intros a Ha. rewrite lookup_insert_ne; [done|]. intros <-. destruct (Hops _ Ha). congruence. }
  exists x, y. split; [|done]. assert (Hne : fresh (dom s) ≠ res ∧ fresh (dom s) ≠ q) by (split; intros E'; rewrite E' in Ht; congruence).
  destruct Hne as [Hne1 Hne2]. apply (with_local_run _ s r _ (Long 0 [])); [|store_lookup]. set (t := fresh (dom s)) in *.
  unfold krk_long_init_si. rewrite Z.eqb_refl. unfold mbind at 1, St_bind at 1. st_step (wr_over s t (Long 0 []) (Long 0 [])).
  unfold mret, St_ret. st_step E. set (s1 := <[t := x]> (<[q := y]> (<[t := Long 0 []]> s))).
  st_step (swap_eq s1 res t z x ltac:(unfold s1; store_lookup) ltac:(unfold s1; store_lookup)).
  st_step (clear_over (<[res := x]> s1) t z). do 2 f_equal. unfold s1. clearbody t. store_eq.
Qed.

Lemma repr_neg x v : repr x v → 0 ≤ v → repr (Long (abs_width x * -1) (digits x)) (- v).
Proof.
  intros Hx Hv. destruct (repr_pos_inv x v Hx Hv) as (ds & -> & D & N & <-). simpl digits. rewrite <-Z.opp_eq_mul_m1. 
  pose proof (repr_signed ds (-1) D N (or_intror eq_refl)) as H. by rewrite <-Z.opp_eq_mul_m1 in H.
Qed.

(** The quotient and the remainder of absolute values, signed and floored. *)
Lemma div_floor u v : v ≠ 0 →
  let q := Z.abs u / Z.abs v in
  let r := Z.abs u mod Z.abs v in
  if eqb (u <? 0) (v <? 0) then u / v = q ∧ u mod v = (if v <? 0 then - r else r)
  else u / v = - (if r =? 0 then q else q + 1) ∧ u mod v = (let r' := if r =? 0 then r else Z.abs v - r in if v <? 0 then - r' else r').
Proof.
  intros Hv q r. pose proof (Z.div_mod (Z.abs u) (Z.abs v) ltac:(lia)) as Hdm. pose proof (Z.mod_pos_bound (Z.abs u) (Z.abs v) ltac:(lia)) as Hr.
  fold q in Hdm. fold r in Hdm, Hr. assert (Huniq : ∀ q' r', u = v * q' + r' → (0 ≤ r' < v ∨ v < r' ≤ 0) → u / v = q' ∧ u mod v = r').
  { intros q' r' E H. split; symmetry; [by apply (Z.div_unique _ _ _ r')|by apply (Z.mod_unique _ _ q')]. }
  destruct (Z.ltb_spec u 0), (Z.ltb_spec v 0); simpl; try (destruct (Z.eqb_spec r 0) as [E|E]); apply Huniq; nia.
Qed.

(** The adjustment of a remainder that is not zero. *)
Lemma round_down s quot rem b y v Q R q r : quot ≠ rem → s !! b = Some y → repr y v → b ≠ quot → b ≠ rem → repr Q q → repr R r → 0 ≤ r < Z.abs v →
  ∃ Q' R', with_local (λ one,
      krk_long_init_si one 1;;
      krk_long_add quot quot one;;
      sub_big_small rem b rem;;
      krk_long_clear one) (<[rem := R]> (<[quot := Q]> s)) = Done (0, <[rem := R']> (<[quot := Q']> s)) ∧
    repr Q' (q + 1) ∧ repr R' (Z.abs v - r).
Proof.
  intros Hqr Hb Hy Hbq Hbr HQ HR Hlt. set (s1 := <[rem := R]> (<[quot := Q]> s)). pose proof (fresh_local s1) as Ht. set (t := fresh (dom s1)) in *.
  assert (Hne : t ≠ quot ∧ t ≠ rem ∧ t ≠ b).
  { split_and!; intros E; rewrite E in Ht; revert Ht; unfold s1; [rewrite lookup_insert_ne, lookup_insert_eq by done|rewrite lookup_insert_eq|rewrite !lookup_insert_ne by done; rewrite Hb]; done. }
  destruct Hne as (Ht1 & Ht2 & Ht3).
  destruct (init_si_eq (<[t := Long 0 []]> s1) t (Long 0 []) 1 (lookup_insert_eq _ _ _) ltac:(lia)) as (o & E1 & Ho). rewrite insert_insert_eq in E1.
  destruct (krk_long_add_eq (<[t := o]> s1) quot quot t Q Q o q 1 ltac:(unfold s1; store_lookup) ltac:(by eapply repr_sized) ltac:(unfold s1; store_lookup)
    (lookup_insert_eq _ _ _) HQ Ho) as (Q' & E2 & HQ').
  destruct (sub_big_small_eq (<[quot := Q']> (<[t := o]> s1)) rem b rem R y R v r ltac:(unfold s1; store_lookup) ltac:(by eapply repr_sized)
    ltac:(unfold s1; store_lookup) ltac:(unfold s1; store_lookup) Hy HR ltac:(lia)) as (ds & E3 & D & N & V).
  exists Q', (pos ds). split_and!; [|done|apply repr_pos_v; [done..|lia]].
  apply (with_local_run _ s1 0 _ (Long 0 [])); [|fold t; rewrite <-Ht; unfold s1; by rewrite !lookup_insert_ne]. fold t.
  st_step E1. st_step E2. st_step E3. rewrite (clear_eq (<[rem := pos ds]> (<[quot := Q']> (<[t := o]> s1))) t o ltac:(unfold s1; store_lookup)). do 2 f_equal. unfold s1. clearbody t. store_eq.
Qed.
Definition div_rem_into (quot rem a b : Z) : St store Z :=
  e ← div_abs quot rem a b;
  if negb (e =? 0) then mret 1
  else
    x ← rd a; y ← rd b;
    (if negb (eqb (width x <? 0) (width y <? 0)) then
       z ← rd rem;
       (if negb (width z =? 0) then
          with_local (λ one,
            krk_long_init_si one 1;;
            krk_long_add quot quot one;;
            sub_big_small rem b rem;;
            krk_long_clear one)
        else mret 0);;
       krk_long_set_sign quot (-1)
     else mret 0);;
    (if width y <? 0 then krk_long_set_sign rem (-1) else mret 0);;
    mret 0.

Lemma div_rem_into_eq s quot rem a b x y zq zr u v : a ≠ quot → a ≠ rem → b ≠ quot → b ≠ rem →
  quot ≠ rem → s !! quot = Some zq → s !! rem = Some zr → s !! a = Some x → s !! b = Some y → repr x u → repr y v → v ≠ 0 →
  ∃ q r, div_rem_into quot rem a b s = Done (0, <[rem := r]> (<[quot := q]> s)) ∧ repr q (u / v) ∧ repr r (u mod v).
Proof.
  intros Haq Har Hbq Hbr Hqr Hq Hr Ha Hb Hx Hy Hv. unfold div_rem_into.
  destruct (div_abs_eq s quot rem a b x y u v zq zr) as (q & r & E & Rq & Rr); try done. st_step E. cbn [negb Z.eqb].
  st_step (rd_long_eq (<[rem := r]> (<[quot := q]> s)) a x ltac:(store_lookup)). st_step (rd_long_eq (<[rem := r]> (<[quot := q]> s)) b y ltac:(store_lookup)).
  rewrite (repr_width_neg _ _ Hx), (repr_width_neg _ _ Hy). pose proof (div_floor u v Hv) as Hfl. cbv zeta in Hfl.
  pose proof (Z.mod_pos_bound (Z.abs u) (Z.abs v) ltac:(lia)) as Hm. pose proof (Z.div_pos (Z.abs u) (Z.abs v) ltac:(lia) ltac:(lia)) as Hp.
  assert (Hfin : ∀ Q R q' r', repr Q q' → 0 ≤ q' → repr R r' → 0 ≤ r' → eqb (u <? 0) (v <? 0) = false → u / v = - q' → u mod v = (if v <? 0 then - r' else r') →
    ∃ Q' R', (krk_long_set_sign quot (-1);; (if v <? 0 then krk_long_set_sign rem (-1) else mret 0);; mret 0) (<[rem := R]> (<[quot := Q]> s)) =
      Done (0, <[rem := R']> (<[quot := Q']> s)) ∧ repr Q' (u / v) ∧ repr R' (u mod v)).
  { intros Q R q' r' HQ Hq' HR Hr' _ -> ->. rewrite (insert_insert_ne s rem quot) by done. st_step (set_sign_over (<[rem := R]> s) quot Q (-1)).
    rewrite (insert_insert_ne s quot rem) by done. destruct (Z.ltb_spec v 0).
    - st_step (set_sign_over (<[quot := Long (abs_width Q * -1) (digits Q)]> s) rem R (-1)). eexists _, _. split; [done|]. split; by apply repr_neg.
    - eexists _, _. split; [done|]. split; [by apply repr_neg|done]. }
  destruct (eqb (u <? 0) (v <? 0)) eqn:Es; cbn [negb].
  - destruct Hfl as [-> ->]. destruct (Z.ltb_spec v 0).
    + unfold mbind at 1, St_bind at 1. unfold mret at 1, St_ret at 1. st_step (set_sign_over (<[quot := q]> s) rem r (-1)).
      eexists _, _. split; [done|]. split; [done|]. by apply repr_neg; [|lia].
    + eexists _, _. by split.
  - unfold mbind at 1, St_bind at 1. st_step (rd_over (<[quot := q]> s) rem r). rewrite (repr_width_0 _ _ Rr). destruct Hfl as [Hf1 Hf2].
    destruct (Z.eqb_spec (Z.abs u mod Z.abs v) 0) as [E0|E0]; cbn [negb].
    + unfold mbind at 1, St_bind at 1. unfold mret at 1, St_ret at 1.
      destruct (Hfin q r _ _ Rq Hp Rr ltac:(lia) eq_refl Hf1 Hf2) as (Q' & R' & E' & H'). unfold mbind, St_bind in E'. eauto.
    + destruct (round_down s quot rem b y v q r _ _ Hqr Hb Hy Hbq Hbr Rq Rr Hm) as (Q' & R' & E' & HQ' & HR'). st_step E'.
      destruct (Hfin Q' R' _ _ HQ' ltac:(lia) HR' ltac:(lia) eq_refl Hf1 Hf2) as (Q2 & R2 & E2 & H'). unfold mbind, St_bind in E2. eauto.
Qed.

Lemma krk_long_div_rem_eq s quot rem a b x y zq zr u v :
  quot ≠ rem → s !! quot = Some zq → s !! rem = Some zr → s !! a = Some x → s !! b = Some y → repr x u → repr y v → v ≠ 0 →
  ∃ q r, krk_long_div_rem quot rem a b s = Done (0, <[rem := r]> (<[quot := q]> s)) ∧ repr q (u / v) ∧ repr r (u mod v).
Proof.
  intros Hqr Hq Hr Ha Hb Hx Hy Hv. change (krk_long_div_rem quot rem a b) with
    (with_output quot [a; b] (λ quot, with_output rem [a; b] (λ rem, div_rem_into quot rem a b))).
  destruct (with_output_two quot rem [a; b] (λ quot, with_output rem [a; b] (λ rem, div_rem_into quot rem a b)) s zq zr
    (λ q r, repr q (u / v) ∧ repr r (u mod v)) 0 Hq Hr ltac:(done) (operands_some Ha Hb)) as (q & r & E & H).
  - intros t s' z' Ht Htr Hz' Hr' Hag. destruct (not_operand Ht) as [Hat Hbt].
    rewrite <-(Hag a) in Ha by set_solver. rewrite <-(Hag b) in Hb by set_solver.
    destruct (with_output_two rem t [a; b] (λ rem, div_rem_into t rem a b) s' zr z' (λ r q, repr q (u / v) ∧ repr r (u mod v)) 0 Hr' Hz' Htr (operands_some Ha Hb)) as (r & q & E & H).
    + intros t2 s2 z2 Ht2 Hne Hz2 Hz1 Hag2. destruct (not_operand Ht2) as [Hat2 Hbt2].
      rewrite <-(Hag2 a) in Ha by set_solver. rewrite <-(Hag2 b) in Hb by set_solver.
      destruct (div_rem_into_eq s2 t t2 a b x y z' z2 u v) as (q & r & E & H); try done. eauto.
    + exists q, r. split; [|done]. rewrite E. by rewrite (insert_insert_ne s' t rem).
  - exists q, r. split; [|done]. rewrite E. by rewrite (insert_insert_ne s rem quot).
Qed.

(** ** Remainder, quotient and power *)

Lemma sign_eq s a x u : s !! a = Some x → repr x u → krk_long_sign a s = Done (Z.sgn u, s).
Proof.
  intros Ha Hx. unfold krk_long_sign. st_step (rd_long_eq _ _ _ Ha). rewrite (repr_width_0 _ _ Hx), (repr_width_neg _ _ Hx).
  unfold mret, St_ret. do 2 f_equal. destruct (Z.eqb_spec u 0) as [->|]; [done|]. destruct (Z.ltb_spec u 0); [by rewrite Z.sgn_neg|by rewrite Z.sgn_pos by lia].
Qed.

Lemma init_0_over s a x : krk_long_init_si a 0 (<[a := x]> s) = Done (0, <[a := Long 0 []]> s).
Proof. unfold krk_long_init_si. cbn [Z.eqb]. by st_step (wr_over s a (Long 0 []) x). Qed.

Lemma krk_long_mod_eq s out a b x y z u v : s !! out = Some z → s !! a = Some x → s !! b = Some y → repr x u → repr y v →
  if v =? 0 then krk_long_mod out a b s = Done (ValueError, s)
  else ∃ r, krk_long_mod out a b s = Done (Ok, <[out := r]> s) ∧ repr r (u mod v).
Proof.
  intros Hz Ha Hb Hx Hy. unfold krk_long_mod. rewrite (St_bind_done _ _ _ _ _ (sign_eq _ _ _ _ Hb Hy)).
  assert ((Z.sgn v =? 0) = (v =? 0)) as -> by (by destruct v). destruct (Z.eqb_spec v 0); [done|].
  pose proof (fresh_local s) as Ht. set (t := fresh (dom s)) in *. assert (Hto : t ≠ out ∧ t ≠ a ∧ t ≠ b) by (split_and!; intros E; rewrite E in Ht; congruence).
  destruct Hto as (H1 & H2 & H3).
  destruct (krk_long_div_rem_eq (<[t := Long 0 []]> s) t out a b x y (Long 0 []) z u v) as (q & r & E & Rq & Rr); try done; try store_lookup.
  exists r. split; [|done]. apply (with_local_run _ s Ok _ (Long 0 [])); [|fold t; store_lookup]. fold t. st_step (init_0_over s t (Long 0 [])). st_step E.
  st_step (clear_eq (<[out := r]> (<[t := q]> (<[t := Long 0 []]> s))) t q ltac:(store_lookup)). unfold mret, St_ret. do 2 f_equal. clearbody t. store_eq.
Qed.

Lemma krk_long_div_eq s out a b x y z u v : s !! out = Some z → s !! a = Some x → s !! b = Some y → repr x u → repr y v →
  if v =? 0 then krk_long_div out a b s = Done (ValueError, s)
  else ∃ q, krk_long_div out a b s = Done (Ok, <[out := q]> s) ∧ repr q (u / v).
Proof.
  intros Hz Ha Hb Hx Hy. unfold krk_long_div. rewrite (St_bind_done _ _ _ _ _ (sign_eq _ _ _ _ Hb Hy)).
  assert ((Z.sgn v =? 0) = (v =? 0)) as -> by (by destruct v). destruct (Z.eqb_spec v 0); [done|].
  pose proof (fresh_local s) as Ht. set (t := fresh (dom s)) in *. assert (Hto : t ≠ out ∧ t ≠ a ∧ t ≠ b) by (split_and!; intros E; rewrite E in Ht; congruence).
  destruct Hto as (H1 & H2 & H3).
  destruct (krk_long_div_rem_eq (<[t := Long 0 []]> s) out t a b x y z (Long 0 []) u v) as (q & r & E & Rq & Rr); try done; try store_lookup.
  exists q. split; [|done]. apply (with_local_run _ s Ok _ (Long 0 [])); [|fold t; store_lookup]. fold t. st_step (init_0_over s t (Long 0 [])). st_step E.
  st_step (clear_eq (<[t := r]> (<[out := q]> (<[t := Long 0 []]> s))) t r ltac:(store_lookup)). unfold mret, St_ret. do 2 f_equal. clearbody t. store_eq.
Qed.

Definition pow_body (out scratch a b_i k : Z) : St store unit :=
  let j := Z.shiftl 1 (DIGIT_SHIFT - 1 - k) in
  krk_long_mul scratch out out;;
  swap out scratch;;
  (if negb (Z.land b_i j =? 0) then krk_long_mul out out a else mret 0);;
  mret tt.

(** One bit of the exponent: a square, and a product when the bit is set. *)
Lemma pow_body_eq s out sc a b_i k x u O X p : out ≠ sc → a ≠ out → a ≠ sc → s !! a = Some x → repr x u → repr O p → sized X → 0 ≤ k < 31 →
  ∃ O' X', pow_body out sc a b_i k (<[sc := X]> (<[out := O]> s)) = Done (tt, <[sc := X']> (<[out := O']> s)) ∧
    sized X' ∧ repr O' (p * p * u ^ truth (Z.testbit b_i (30 - k))).
Proof.
  intros Hos Hao Has Ha Hx HO HX Hk. unfold pow_body. cbv zeta. set (s1 := <[sc := X]> (<[out := O]> s)).
  destruct (krk_long_mul_eq s1 sc out out X O O p p ltac:(unfold s1; store_lookup) HX ltac:(unfold s1; store_lookup) ltac:(unfold s1; store_lookup) HO HO) as (r & E & Hr).
  st_step E. st_step (swap_eq (<[sc := r]> s1) out sc O r ltac:(unfold s1; store_lookup) ltac:(store_lookup)).
  assert (Es : <[sc := O]> (<[out := r]> (<[sc := r]> s1)) = <[sc := O]> (<[out := r]> s)) by (unfold s1; store_eq). rewrite Es. clear Es.
  unfold DIGIT_SHIFT. replace (31 - 1 - k) with (30 - k) by lia. rewrite land_bit_zero, negb_involutive by lia.
  destruct (Z.testbit b_i (30 - k)); simpl truth.
  - destruct (krk_long_mul_eq (<[sc := O]> (<[out := r]> s)) out out a r r x (p * p) u ltac:(store_lookup) ltac:(by eapply repr_sized) ltac:(store_lookup)
      ltac:(store_lookup) Hr Hx) as (O' & E' & HO'). st_step E'. exists O', O. split_and!; [|by eapply repr_sized|by rewrite Z.pow_1_r].
    unfold mret, St_ret. do 2 f_equal. store_eq.
  - exists r, O. split_and!; [done|by eapply repr_sized|by rewrite Z.pow_0_r, Z.mul_1_r].
Qed.

Lemma pow_bit u e k : 0 ≤ e → 0 ≤ k → u ^ (e / 2 ^ (k + 1)) * u ^ (e / 2 ^ (k + 1)) * u ^ truth (Z.testbit e k) = u ^ (e / 2 ^ k).
Proof.
  intros He Hk. assert (0 ≤ e / 2 ^ (k + 1)) by (apply Z.div_pos; [done|apply Z.pow_pos_nonneg; lia]).
  rewrite (bit_step e k He Hk), <-!Z.pow_add_r by (try lia; destruct (Z.testbit e k); simpl; lia). f_equal. lia.
Qed.

(** All bits of an exponent. *)
Lemma pow_loops s out sc a b x u y e O X :
  out ≠ sc → a ≠ out → a ≠ sc → b ≠ out → b ≠ sc → s !! a = Some x → repr x u → s !! b = Some (pos y) → repr (pos y) e → 0 ≤ e → repr O 1 → sized X →
  ∃ O' X', for_loop (length y) 0 (λ i (_ : unit),
      b_i ← rd_digit b (Z.of_nat (length y) - 1 - i);
      for_loop 31 0 (λ k _, pow_body out sc a b_i k) tt) tt (<[sc := X]> (<[out := O]> s)) = Done (tt, <[sc := X']> (<[out := O']> s)) ∧
    sized X' ∧ repr O' (u ^ e).
Proof.
  intros Hos Hao Has Hbo Hbs Ha Hx Hb Hy He HO HX. destruct (repr_digits _ _ Hy) as (Dy & Ny & Ey). simpl digits in *. rewrite Z.abs_eq in Ey by done.
  set (w := length y) in *.
  destruct (for_loop_inv (λ i _ s', ∃ O' X', s' = <[sc := X']> (<[out := O']> s) ∧ sized X' ∧ repr O' (u ^ (e / 2 ^ (31 * (Z.of_nat w - Z.of_nat i))))) w 0
    (λ i (_ : unit), b_i ← rd_digit b (Z.of_nat w - 1 - i); for_loop 31 0 (λ k _, pow_body out sc a b_i k) tt) tt (<[sc := X]> (<[out := O]> s)))
    as ([] & s' & E & O' & X' & -> & HX' & HO').
  - exists O, X. split_and!; try done. rewrite Z.sub_0_r, Z.div_small; [done|]. pose proof (eval_bound BASE BASE_gt y Dy) as B. rewrite <-Z.pow_mul_r in B by lia. fold w in B. lia.
  - intros i [] s' Hi (O1 & X1 & -> & HX1 & HO1). rewrite Z.add_0_l. set (j := (w - 1 - i)%nat). replace (Z.of_nat w - 1 - Z.of_nat i) with (Z.of_nat j) by lia.
    assert (Hj : (j < w)%nat) by (clear -Hi; unfold j; lia).
    assert (Hjw : 31 * Z.of_nat j + 31 - Z.of_nat 31 = 31 * (Z.of_nat w - Z.of_nat (S i))) by (clear -Hi; unfold j; lia).
    destruct (lookup_lt_is_Some_2 y j Hj) as [d Hd]. pose proof (digits_ok_lookup _ _ _ _ Dy Hd) as Hdr.
    st_step (rd_digit_eq (<[sc := X1]> (<[out := O1]> s)) b (pos y) j d ltac:(store_lookup) Hd).
    destruct (for_loop_inv (λ k _ s', ∃ O' X', s' = <[sc := X']> (<[out := O']> s) ∧ sized X' ∧ repr O' (u ^ (e / 2 ^ (31 * Z.of_nat j + 31 - Z.of_nat k)))) 31 0
      (λ k (_ : unit), pow_body out sc a d k) tt (<[sc := X1]> (<[out := O1]> s))) as ([] & s' & E & O2 & X2 & -> & HX2 & HO2).
    + exists O1, X1. split_and!; try done. replace (31 * Z.of_nat j + 31 - Z.of_nat 0) with (31 * (Z.of_nat w - Z.of_nat i)) by lia. done.
    + intros k [] s' Hk (O2 & X2 & -> & HX2 & HO2). rewrite Z.add_0_l. assert (Hk' : 0 ≤ 30 - Z.of_nat k < 31) by (clear -Hk; lia).
      assert (Hk1 : 31 * Z.of_nat j + 31 - Z.of_nat k = 31 * Z.of_nat j + 31 - Z.of_nat (S k) + 1) by (clear; lia).
      assert (Hk2 : 0 ≤ 31 * Z.of_nat j + 31 - Z.of_nat (S k)) by (clear -Hk; lia). assert (Hk3 : 0 ≤ Z.of_nat k < 31) by (clear -Hk; lia).
      destruct (pow_body_eq s out sc a d (Z.of_nat k) x u O2 X2 _ Hos Hao Has Ha Hx HO2 HX2 Hk3) as (O3 & X3 & E3 & HX3 & HO3).
      exists tt. eexists. split; [exact E3|]. exists O3, X3. split_and!; try done. eapply repr_of; [exact HO3|].
      assert (Hbit : Z.testbit d (30 - Z.of_nat k) = Z.testbit e (31 * Z.of_nat j + 31 - Z.of_nat (S k))).
      { rewrite <-Ey. replace (31 * Z.of_nat j + 31 - Z.of_nat (S k)) with (Z.of_nat j * 31 + (30 - Z.of_nat k)) by (clear; lia).
        rewrite testbit_digits; [by rewrite (list_lookup_total_correct _ _ _ Hd)|done|exact Hj|exact Hk']. }
      rewrite Hbit, Hk1. apply pow_bit; [done|exact Hk2].
    + exists tt. eexists. split; [exact E|]. exists O2, X2. split_and!; try done. eapply repr_of; [exact HO2|]. do 3 f_equal. exact Hjw.
  - exists O', X'. split_and!; try done. eapply repr_of; [exact HO'|]. rewrite Z.sub_diag, Z.mul_0_r, Z.pow_0_r, Z.div_1_r. done.
Qed.

Lemma krk_long_pow_eq s out a b x y z u e : s !! out = Some z → sized z → s !! a = Some x → s !! b = Some y → repr x u → repr y e →
  if e <? 0 then krk_long_pow out a b s = Done (NotImplementedError, s)
  else ∃ r, krk_long_pow out a b s = Done (Ok, <[out := r]> s) ∧ repr r (u ^ e).
Proof.
  intros Hz Hs Ha Hb Hx Hy. unfold krk_long_pow. rewrite (St_bind_done _ _ _ _ _ (sign_eq _ _ _ _ Hb Hy)).
  assert ((Z.sgn e =? 0) = (e =? 0)) as -> by (by destruct e). assert ((Z.sgn e <? 0) = (e <? 0)) as -> by (by destruct e).
  destruct (Z.eqb_spec e 0) as [->|He0]; cbn [Z.ltb Z.compare].
  { st_step (clear_eq _ _ _ Hz). destruct (init_si_eq (<[out := Long 0 []]> s) out (Long 0 []) 1 (lookup_insert_eq _ _ _) ltac:(lia)) as (r & E & Hr).
    st_step E. rewrite insert_insert_eq. by eexists. }
  destruct (Z.ltb_spec e 0) as [He|He]; [done|].
  apply (with_output_eq out [a; b] _ s z (λ r, repr r (u ^ e)) Ok Hz Hs (operands_some Ha Hb)).
  intros t s' z' Ht Hz' Hs' Hag. destruct (not_operand Ht) as [Hna Hnb].
  rewrite <-(Hag a) in Ha by set_solver. rewrite <-(Hag b) in Hb by set_solver. clear Hag Hz Hs s z.
  st_step (clear_eq _ _ _ Hz'). destruct (init_si_eq (<[t := Long 0 []]> s') t (Long 0 []) 1 (lookup_insert_eq _ _ _) ltac:(lia)) as (O & E & HO).
  st_step E. rewrite insert_insert_eq. set (s1 := <[t := O]> s'). pose proof (fresh_local s1) as Hsc. set (sc := fresh (dom s1)) in *.
  assert (Hne : sc ≠ t ∧ sc ≠ a ∧ sc ≠ b).
  { split_and!; intros E'; rewrite E' in Hsc; revert Hsc; unfold s1; [rewrite lookup_insert_eq|rewrite lookup_insert_ne by done..]; congruence. }
  destruct Hne as (H1 & H2 & H3). destruct (repr_pos_inv y e Hy He) as (ds & -> & _). assert (Hns : s' !! sc = None) by (rewrite <-Hsc; unfold s1; by rewrite lookup_insert_ne).
  destruct (pow_loops s' t sc a b x u ds e O (Long 0 [])) as (O' & X' & E' & HX' & HO'); try done.
  exists O'. split; [|done]. apply (with_local_run _ s1 Ok _ (Long 0 [])); [|fold sc; store_lookup]. fold sc.
  st_step (init_0_over s1 sc (Long 0 [])). st_step (rd_long_eq (<[sc := Long 0 []]> s1) b (pos ds) ltac:(unfold s1; store_lookup)).
  cbn [width pos]. rewrite Nat2Z.id. unfold pow_body in E'. st_step E'. by st_step (clear_over (<[t := O']> s') sc X').
Qed.

(** ** The theorems *)

(** What an operator leaves: the exception it raises, with the store as it was, or a number in its result. *)
Definition operator_leaves (out : Z) (s : store) (e : option raised) (v : Z) (o : outcome (raised * store)) : Prop :=
  match e with Some e => o = Done (e, s) | None => ∃ r, o = Done (Ok, <[out := r]> s) ∧ repr r v end.

(** C18: Division of Kuroko's long integers rounds to the lower integer, and the remainder has the
    sign of the divisor, with results in normal form, wherever the results are operands
    too; the operators raise ValueError for the divisor zero and change nothing. *)
Theorem krk_long_div_rem_correct s quot rem a b x y zq zr u v :
  quot ≠ rem → s !! quot = Some zq → s !! rem = Some zr → s !! a = Some x → s !! b = Some y → repr x u → repr y v →
  (v ≠ 0 → ∃ q r, krk_long_div_rem quot rem a b s = Done (0, <[rem := r]> (<[quot := q]> s)) ∧ repr q (u / v) ∧ repr r (u mod v)) ∧
  let e := if v =? 0 then Some ValueError else None in
  operator_leaves quot s e (u / v) (krk_long_div quot a b s) ∧ operator_leaves quot s e (u mod v) (krk_long_mod quot a b s).
Proof.
  intros Hqr Hq Hr Ha Hb Hx Hy. split; [intros; by eapply krk_long_div_rem_eq|].
  pose proof (krk_long_div_eq s quot a b x y zq u v Hq Ha Hb Hx Hy). pose proof (krk_long_mod_eq s quot a b x y zq u v Hq Ha Hb Hx Hy).
  by destruct (v =? 0).
Qed.

Lemma krk_long_div_rem_correct_witness :
  (-7 ≠ 0 → ∃ q r, krk_long_div_rem 1 2 1 2 demo_longs = Done (0, <[2 := r]> (<[1 := q]> demo_longs)) ∧ repr q (-306783379) ∧ repr r (-1)) ∧
  operator_leaves 1 demo_longs None (-306783379) (krk_long_div 1 1 2 demo_longs) ∧ operator_leaves 1 demo_longs None (-1) (krk_long_mod 1 1 2 demo_longs).
Proof.
  apply (krk_long_div_rem_correct demo_longs 1 2 1 2 (Long 2 [4; 1]) (Long (-1) [7]) (Long 2 [4; 1]) (Long (-1) [7]) (2 ^ 31 + 4) (-7));
    [done|reflexivity|reflexivity|reflexivity|reflexivity|apply demo_repr|apply demo_repr].
Defined.

(** C39: Powers of Kuroko's long integers, by squaring along the bits of the exponent from the
    highest one, are those of the integers, wherever the result is an operand too; a
    negative exponent is refused. *)
Theorem krk_long_pow_correct s out a b x y z u e :
  s !! out = Some z → sized z → s !! a = Some x → s !! b = Some y → repr x u → repr y e →
  operator_leaves out s (if e <? 0 then Some NotImplementedError else None) (u ^ e) (krk_long_pow out a b s).
Proof. intros Hz Hs Ha Hb Hx Hy. pose proof (krk_long_pow_eq s out a b x y z u e Hz Hs Ha Hb Hx Hy). by destruct (e <? 0). Qed.

Lemma krk_long_pow_correct_witness :
  operator_leaves 1 (<[1 := Long 1 [13]]> demo_longs) None (-96889010407) (krk_long_pow 1 2 1 (<[1 := Long 1 [13]]> demo_longs)).
Proof.
  apply (krk_long_pow_correct (<[1 := Long 1 [13]]> demo_longs) 1 2 1 (Long (-1) [7]) (Long 1 [13]) (Long 1 [13]) (-7) 13);
    [reflexivity|reflexivity|reflexivity|reflexivity|apply demo_repr|].
  split_and!; [done| |done|done]; repeat constructor; done.
Defined.
