(* ===== verification/KrkBits.v ===== *)
(** * Long integers of Kuroko: bitwise operators and shifts

    The operators work on two's complement numbers without bound: [Z.lor], [Z.lxor] and
    [Z.land] on negative numbers too. *)
From S2P Require Import Prelude KrkDigits KrkLong KrkArith KrkDivide.
Local Open Scope Z_scope.

(** ** Digits in two's complement *)

(** Digit [i] of a number, of the two's complement when it is negative. *)
Definition dig (w : Z) (i : nat) : Z := (w / BASE ^ Z.of_nat i) `mod` BASE.

Lemma dig_range w i : 0 ≤ dig w i < BASE.
Proof. by apply Z.mod_pos_bound. Qed.

Lemma dig_land w i : dig w i = Z.land (Z.shiftr w (31 * Z.of_nat i)) (Z.ones 31).
Proof. unfold dig. rewrite Z.land_ones, Z.shiftr_div_pow2, Z.pow_mul_r by lia. done. Qed.

Lemma dig_eval l i : digits_ok l → dig (eval l) i = default 0 (l !! i).
Proof.
  intros Hl. unfold dig. destruct (l !! i) as [d|] eqn:E; simpl.
  - pose proof (lookup_lt_Some _ _ _ E). rewrite (eval_take_drop _ i l) by lia. pose proof (eval_bound BASE BASE_gt (take i l) ltac:(by apply Forall_take)) as B.
    rewrite length_take, Nat.min_l in B by lia. rewrite (Z.mul_comm (BASE ^ _)), Z.div_add, Z.div_small, Z.add_0_l by lia.
    rewrite (drop_S _ _ _ E), eval_cons, (Z.mul_comm BASE), Z.mod_add by done. apply Z.mod_small. by eapply digits_ok_lookup.
  - apply lookup_ge_None in E. pose proof (eval_bound BASE BASE_gt l Hl).
    assert (BASE ^ Z.of_nat (length l) ≤ BASE ^ Z.of_nat i) by (apply Z.pow_le_mono_r; lia). rewrite Z.div_small by lia. done.
Qed.

Lemma dig_op op u v i : dig (match op with Op_or => Z.lor u v | Op_xor => Z.lxor u v | Op_and => Z.land u v end) i = op_digit op (dig u i) (dig v i).
Proof.
  rewrite !dig_land. apply Z.bits_inj'. intros k Hk. destruct op; simpl;
    rewrite ?Z.land_spec, ?Z.lor_spec, ?Z.lxor_spec, ?Z.land_spec, ?Z.shiftr_spec, ?Z.lor_spec, ?Z.lxor_spec, ?Z.land_spec by done.
  all: by destruct (Z.testbit u _), (Z.testbit v _), (Z.testbit (Z.ones 31) _).
Qed.

(** Is the low part zero?  That is the carry of a negation. *)
Definition low_zero (w : Z) (i : nat) : Z := truth (w mod BASE ^ Z.of_nat i =? 0).

Lemma lxor_MAX m : 0 ≤ m < BASE → Z.lxor m DIGIT_MAX = DIGIT_MAX - m.
Proof.
  intros Hm. change DIGIT_MAX with (Z.ones 31). rewrite <-(Z.mod_small m (2 ^ 31)) at 2 by done. rewrite <-Z.land_ones by done.
  rewrite Z.sub_nocarry_ldiff.
  - apply Z.bits_inj'. intros k Hk. rewrite Z.ldiff_spec, Z.lxor_spec, Z.land_spec. destruct (decide (k < 31)).
    + rewrite Z.ones_spec_low by lia. by destruct (Z.testbit m k).
    + rewrite Z.ones_spec_high by lia. rewrite <-(Z.mod_small m (2 ^ 31)) at 1 by done. rewrite Z.mod_pow2_bits_high by lia. done.
  - apply Z.bits_inj'. intros k Hk. rewrite Z.ldiff_spec, Z.land_spec, Z.bits_0. by destruct (Z.testbit m k), (Z.testbit (Z.ones 31) k).
Qed.

Lemma neg_step w i : let t := u32 (Z.lxor (dig w i) DIGIT_MAX + low_zero w i) in
  0 ≤ t ≤ BASE ∧ Z.land t DIGIT_MAX = dig (- w) i ∧ Z.shiftr t DIGIT_SHIFT = low_zero w (S i).
Proof.
  pose proof (dig_range w i) as Hm. rewrite lxor_MAX by done. unfold low_zero. set (P := BASE ^ Z.of_nat i).
  assert (HP : 0 < P) by (unfold P; apply Z.pow_pos_nonneg; lia). rewrite pow_S. fold P. unfold dig in *. fold P in Hm |- *.
  set (m := (w / P) `mod` BASE) in *. pose proof (Z.div_mod w P ltac:(lia)) as Hw. pose proof (Z.mod_pos_bound w P HP) as Hr.
  pose proof (Z.div_mod (w / P) BASE ltac:(done)) as Hq. fold m in Hq.
  assert (Hw2 : w mod (BASE * P) = P * m + w mod P) by (rewrite (Z.mul_comm BASE), Z.rem_mul_r by lia; fold m; lia).
  rewrite Hw2. unfold DIGIT_MAX, DIGIT_SHIFT. rewrite Z.shiftr_div_pow2 by done. change (0x7FFFFFFF) with (BASE - 1). cbv zeta.
  destruct (Z.eqb_spec (w mod P) 0) as [E|E]; simpl truth.
  - rewrite u32_small by lia. replace (BASE - 1 - m + 1) with (BASE - m) by lia. change (BASE - 1) with DIGIT_MAX. rewrite land_MAX.
    assert (H : (- w) / P = - (w / P)) by (symmetry; apply (Z.div_unique _ _ _ 0); lia). rewrite H.
    assert (Hmod : (- (w / P)) `mod` BASE = (BASE - m) `mod` BASE).
    { replace (- (w / P)) with (BASE - m + (- (w / P / BASE) - 1) * BASE) by lia. by rewrite Z.mod_add. }
    rewrite Hmod. split; [lia|split; [done|]]. rewrite E, Z.add_0_r. destruct (Z.eqb_spec m 0) as [->|Hm0].
    + rewrite Z.mul_0_r. done.
    + rewrite Z.div_small by lia. destruct (Z.eqb_spec (P * m) 0); [nia|done].
  - rewrite u32_small by lia. rewrite Z.add_0_r. change (BASE - 1) with DIGIT_MAX at 3. rewrite land_MAX.
    assert (H : (- w) / P = - (w / P) - 1) by (symmetry; apply (Z.div_unique _ _ _ (P - w mod P)); lia). rewrite H.
    assert (Hmod : (- (w / P) - 1) `mod` BASE = (BASE - 1 - m) `mod` BASE).
    { replace (- (w / P) - 1) with (BASE - 1 - m + (- (w / P / BASE) - 1) * BASE) by lia. by rewrite Z.mod_add. }
    rewrite Hmod. split; [lia|split; [done|]]. rewrite Z.div_small by lia. destruct (Z.eqb_spec (P * m + w mod P) 0); [nia|done].
Qed.

(** ** The operators *)

Definition bit_op_Z (op : bit_op) (u v : Z) : Z := match op with Op_or => Z.lor u v | Op_xor => Z.lxor u v | Op_and => Z.land u v end.

Lemma op_sign_neg op u v : op_sign op (u <? 0) (v <? 0) = (bit_op_Z op u v <? 0).
Proof.
  pose proof (Z.lor_neg u v). pose proof (Z.land_neg u v). pose proof (Z.lxor_nonneg u v).
  destruct op; simpl; destruct (Z.ltb_spec u 0), (Z.ltb_spec v 0); simpl;
    match goal with |- _ = (?t <? 0) => destruct (Z.ltb_spec t 0) end; try done; lia.
Qed.

(** A number between [- 2 ^ m] and [2 ^ m]. *)
Lemma shiftr_sign x m : 0 ≤ m → - 2 ^ m ≤ x < 2 ^ m ↔ Z.shiftr x m = 0 ∨ Z.shiftr x m = -1.
Proof.
  intros Hm. rewrite Z.shiftr_div_pow2 by done. assert (0 < 2 ^ m) by (by apply Z.pow_pos_nonneg). pose proof (Z.div_mod x (2 ^ m) ltac:(lia)) as D.
  pose proof (Z.mod_pos_bound x (2 ^ m) ltac:(done)). set (q := x / 2 ^ m) in *. split; intros H1; [|destruct H1 as [E|E]; rewrite E in D; lia].
  assert (-2 < q < 1) by nia. lia.
Qed.

Lemma bit_op_bound op u v m : 0 ≤ m → - 2 ^ m ≤ u < 2 ^ m → - 2 ^ m ≤ v < 2 ^ m → - 2 ^ m ≤ bit_op_Z op u v < 2 ^ m.
Proof.
  intros Hm Hu Hv. rewrite shiftr_sign in Hu, Hv |- * by done.
  destruct op; simpl; rewrite ?Z.shiftr_lor, ?Z.shiftr_lxor, ?Z.shiftr_land; destruct Hu as [-> | ->], Hv as [-> | ->]; simpl; auto.
Qed.

(** One digit of a two's complement operand. *)
Definition operand_digit (neg : bool) (d carry : Z) : Z := if neg then u32 (Z.lxor d DIGIT_MAX + carry) else d.

Lemma operand_step u i : let t := operand_digit (u <? 0) (dig (Z.abs u) i) (if u <? 0 then low_zero (Z.abs u) i else 0) in
  0 ≤ t ≤ BASE ∧ Z.land t DIGIT_MAX = dig u i ∧ Z.shiftr t DIGIT_SHIFT = if u <? 0 then low_zero (Z.abs u) (S i) else 0.
Proof.
  unfold operand_digit. destruct (Z.ltb_spec u 0).
  - destruct (neg_step (Z.abs u) i) as (H1 & H2 & H3). cbv zeta. split_and!; try done; try lia. rewrite H2. f_equal. lia.
  - pose proof (dig_range (Z.abs u) i) as Hd. cbv zeta. rewrite land_MAX, Z.mod_small by done. unfold DIGIT_SHIFT. rewrite Z.shiftr_div_pow2, Z.div_small by done.
    split_and!; try lia. f_equal. lia.
Qed.

Lemma op_digit_mask op d e : Z.land (op_digit op d e) DIGIT_MAX = op_digit op (Z.land d DIGIT_MAX) (Z.land e DIGIT_MAX).
Proof.
  apply Z.bits_inj'. intros k Hk. destruct op; simpl; rewrite ?Z.land_spec, ?Z.lor_spec, ?Z.lxor_spec, ?Z.land_spec.
  all: by destruct (Z.testbit d k), (Z.testbit e k), (Z.testbit DIGIT_MAX k).
Qed.

Definition bin_op_body (res a b aw bw : Z) (op : bit_op) (aneg bneg rneg : bool) (i : Z) : Z * Z * Z → St store (Z * Z * Z) :=
  λ '(acarry, bcarry, rcarry),
    a_digit ← digit_or_0 a aw i;
    let a_digit := operand_digit aneg a_digit acarry in
    let acarry := Z.shiftr a_digit DIGIT_SHIFT in
    b_digit ← digit_or_0 b bw i;
    let b_digit := operand_digit bneg b_digit bcarry in
    let bcarry := Z.shiftr b_digit DIGIT_SHIFT in
    let r := op_digit op a_digit b_digit in
    let r := if rneg then u32 (Z.lxor (Z.land r DIGIT_MAX) DIGIT_MAX + rcarry) else r in
    wr_digit res i (Z.land r DIGIT_MAX);;
    mret (acarry, bcarry, Z.shiftr r DIGIT_SHIFT).

(** The carries in front of digit [i]; that of a result that is not negative is not used. *)
Definition carry_of (w : Z) (i : nat) : Z := if w <? 0 then low_zero (Z.abs w) i else 0.

Lemma bin_op_loop s res a b x y u v op R w n :
  s !! a = Some x → s !! b = Some y → res ≠ a → res ≠ b → repr x u → repr y v → (n ≤ length R)%nat →
  ∃ c, for_loop n 0 (bin_op_body res a b (Z.of_nat (length (digits x))) (Z.of_nat (length (digits y))) op (u <? 0) (v <? 0) (bit_op_Z op u v <? 0))
      (carry_of u 0, carry_of v 0, carry_of (bit_op_Z op u v) 0) (<[res := Long w R]> s) =
    Done (c, <[res := Long w (numeral BASE n (Z.abs (bit_op_Z op u v)) ++ drop n R)]> s).
Proof.
  intros Ha Hb Hra Hrb Hx Hy HR. destruct (repr_digits _ _ Hx) as (Dx & _ & Ex). destruct (repr_digits _ _ Hy) as (Dy & _ & Ey). set (z := bit_op_Z op u v) in *.
  destruct (for_loop_inv (λ i '(ac, bc, rc) s', s' = <[res := Long w (numeral BASE i (Z.abs z) ++ drop i R)]> s ∧ ac = carry_of u i ∧ bc = carry_of v i ∧
      (z < 0 → rc = low_zero (Z.abs z) i)) n 0
      (bin_op_body res a b (Z.of_nat (length (digits x))) (Z.of_nat (length (digits y))) op (u <? 0) (v <? 0) (z <? 0))
      (carry_of u 0, carry_of v 0, carry_of z 0) (<[res := Long w R]> s)) as ([[ac bc] rc] & s' & E & -> & _); [| |by eauto].
  - split_and!; try done. intros Hz. unfold carry_of. by rewrite (proj2 (Z.ltb_lt z 0) Hz).
  - intros i [[ac bc] rc] s' Hi (-> & -> & -> & Hrc). rewrite Z.add_0_l. unfold bin_op_body.
    assert (Hl : length (numeral BASE i (Z.abs z)) = i) by apply length_numeral.
    st_step (digit_or_0_operand s res a x w R (numeral BASE i (Z.abs z)) i Ha ltac:(congruence) Hl).
    st_step (digit_or_0_operand s res b y w R (numeral BASE i (Z.abs z)) i Hb ltac:(congruence) Hl).
    rewrite <-!dig_eval, Ex, Ey by done. destruct (operand_step u i) as (Ha1 & Ha2 & Ha3). destruct (operand_step v i) as (Hb1 & Hb2 & Hb3).
    fold (carry_of u i) in *. fold (carry_of v i) in *. fold (carry_of u (S i)) in *. fold (carry_of v (S i)) in *. rewrite Ha3, Hb3.
    set (ad := operand_digit (u <? 0) (dig (Z.abs u) i) (carry_of u i)) in *. set (bd := operand_digit (v <? 0) (dig (Z.abs v) i) (carry_of v i)) in *.
    set (r := if z <? 0 then _ else _). assert (Hrr : Z.land r DIGIT_MAX = dig (Z.abs z) i ∧ (z < 0 → Z.shiftr r DIGIT_SHIFT = low_zero (Z.abs z) (S i))).
    { unfold r. rewrite op_digit_mask, Ha2, Hb2, <-dig_op. fold (bit_op_Z op u v). fold z. destruct (Z.ltb_spec z 0) as [Hz|Hz].
      - rewrite (Hrc Hz). destruct (neg_step z i) as (_ & H2 & H3). replace (- z) with (Z.abs z) in * by lia.
        assert (Hlz : ∀ j, low_zero (Z.abs z) j = low_zero z j).
        { intros j. unfold low_zero. f_equal. replace z with (- Z.abs z) at 2 by lia. pose proof (pow_pos BASE BASE_gt j).
          apply eq_true_iff_eq. rewrite !Z.eqb_eq, !Z.mod_divide, Z.divide_opp_r by lia. done. }
        rewrite !Hlz. done.
      - split; [|lia]. rewrite op_digit_mask, Ha2, Hb2, <-dig_op. fold (bit_op_Z op u v). fold z. by rewrite Z.abs_eq. }
    destruct Hrr as [Hr1 Hr2]. rewrite Hr1.
    st_step (wr_next s res w (numeral BASE i (Z.abs z)) R i (dig (Z.abs z) i) ltac:(done) ltac:(lia)).
    eexists _, _. split; [done|]. split_and!; try done. do 3 f_equal. unfold numeral. by rewrite seq_S, fmap_app.
Qed.

Lemma abs_bound x v : repr x v → - 2 ^ (31 * Z.of_nat (length (digits x))) ≤ v < 2 ^ (31 * Z.of_nat (length (digits x))).
Proof.
  intros Hx. destruct (repr_digits _ _ Hx) as (D & _ & E). pose proof (eval_bound BASE BASE_gt _ D) as B.
  rewrite Z.pow_mul_r by lia. lia.
Qed.

Lemma do_bin_op_eq s res a b x y z u v op :
  s !! res = Some z → sized z → s !! a = Some x → s !! b = Some y → res ≠ a → res ≠ b → repr x u → repr y v →
  ∃ r, do_bin_op res a b op s = Done (0, <[res := r]> s) ∧ repr r (bit_op_Z op u v).
Proof.
  intros Hz Hs Ha Hb Hra Hrb Hx Hy. unfold do_bin_op. st_step (rd_long_eq _ _ _ Ha). st_step (rd_long_eq _ _ _ Hb).
  rewrite (repr_abs_width _ _ Hx), (repr_abs_width _ _ Hy), (repr_width_neg _ _ Hx), (repr_width_neg _ _ Hy), op_sign_neg. cbv zeta.
  set (m := Nat.max (length (digits x)) (length (digits y))). set (r := bit_op_Z op u v).
  replace ((if Z.of_nat (length (digits y)) <? Z.of_nat (length (digits x)) then Z.of_nat (length (digits x)) else Z.of_nat (length (digits y))) + 1) with (Z.of_nat (S m))
    by (unfold m; destruct (Z.ltb_spec (Z.of_nat (length (digits y))) (Z.of_nat (length (digits x)))); lia).
  st_step (resize_eq s res z (S m) Hz Hs). assert (LR : length (resized (S m) (digits z)) = S m) by apply length_resized. unfold pos at 1. rewrite LR, Nat2Z.id.
  destruct (bin_op_loop s res a b x y u v op (resized (S m) (digits z)) (Z.of_nat (S m)) (S m) Ha Hb Hra Hrb Hx Hy ltac:(lia)) as ([[c1 c2] c3] & E).
  assert (Hc : ∀ w, carry_of w 0 = truth (w <? 0)).
  { intros w. unfold carry_of, low_zero. destruct (w <? 0); [|done]. by rewrite Z.pow_0_r, Z.mod_1_r. }
  rewrite !Hc in E. unfold bin_op_body in E. fold r in E |- *. st_step E.
  rewrite drop_ge, app_nil_r by lia. set (ds := numeral BASE (S m) (Z.abs r)) in *. assert (Ll : length ds = S m) by apply length_numeral.
  replace (Long (Z.of_nat (S m)) ds) with (pos ds) by (unfold pos; by rewrite Ll). st_step (trim_over s res ds).
  assert (V : eval (trimmed ds) = Z.abs r).
  { unfold ds. rewrite eval_trimmed, eval_numeral by done. apply Z.mod_small. split; [lia|].
    assert (Hmono : ∀ n k, (n ≤ k)%nat → 2 ^ (31 * Z.of_nat n) ≤ 2 ^ (31 * Z.of_nat k)) by (intros; apply Z.pow_le_mono_r; lia).
    pose proof (abs_bound _ _ Hx). pose proof (abs_bound _ _ Hy).
    pose proof (Hmono (length (digits x)) m ltac:(unfold m; lia)). pose proof (Hmono (length (digits y)) m ltac:(unfold m; lia)).
    pose proof (bit_op_bound op u v (31 * Z.of_nat m) ltac:(lia) ltac:(lia) ltac:(lia)) as Hb'. fold r in Hb'. rewrite <-Z.pow_mul_r by lia.
    assert (2 ^ (31 * Z.of_nat m) < 2 ^ (31 * Z.of_nat (S m))) by (apply Z.pow_lt_mono_r; lia). lia. }
  assert (Dt : digits_ok (trimmed ds)) by (apply digits_ok_trimmed; by apply digits_ok_numeral). pose proof (normal_trimmed ds) as Nt.
  destruct (Z.ltb_spec r 0).
  - st_step (set_sign_over s res (pos (trimmed ds)) (-1)). eexists. split; [done|].
    eapply repr_of; [apply (repr_signed _ (-1)); auto|lia].
  - eexists. split; [done|]. apply repr_pos_v; auto; lia.
Qed.

Lemma krk_long_or_eq s res a b z x y u v :
  s !! res = Some z → sized z → s !! a = Some x → s !! b = Some y → repr x u → repr y v →
  ∃ r, krk_long_or res a b s = Done (0, <[res := r]> s) ∧ repr r (Z.lor u v).
Proof.
  intros Hz Hs Ha Hb Hx Hy. unfold krk_long_or.
  apply (with_output_eq res [a; b] _ s z (λ r, repr r (Z.lor u v)) 0 Hz Hs (operands_some Ha Hb)).
  intros t s' z' Ht Hz' Hs' Hag. destruct (not_operand Ht) as [Hna Hnb].
  rewrite <-(Hag a) in Ha by set_solver. rewrite <-(Hag b) in Hb by set_solver. clear Hag Hz Hs s z.
  st_step (rd_long_eq _ _ _ Ha). st_step (rd_long_eq _ _ _ Hb). rewrite (repr_width_0 _ _ Hx), (repr_width_0 _ _ Hy).
  destruct (Z.eqb_spec u 0) as [->|Hu]; [|destruct (Z.eqb_spec v 0) as [->|Hv]].
  - rewrite (clear_copy s' t b z' y _ Hz' Hb Hnb (repr_sized _ _ Hy)). by eexists.
  - rewrite (clear_copy s' t a z' x _ Hz' Ha Hna (repr_sized _ _ Hx)). eexists. split; [done|]. by rewrite Z.lor_0_r.
  - apply (do_bin_op_eq s' t a b x y z' u v Op_or); auto.
Qed.

Lemma krk_long_xor_eq s res a b z x y u v :
  s !! res = Some z → sized z → s !! a = Some x → s !! b = Some y → repr x u → repr y v →
  ∃ r, krk_long_xor res a b s = Done (0, <[res := r]> s) ∧ repr r (Z.lxor u v).
Proof.
  intros Hz Hs Ha Hb Hx Hy. unfold krk_long_xor.
  apply (with_output_eq res [a; b] _ s z (λ r, repr r (Z.lxor u v)) 0 Hz Hs (operands_some Ha Hb)).
  intros t s' z' Ht Hz' Hs' Hag. destruct (not_operand Ht) as [Hna Hnb].
  rewrite <-(Hag a) in Ha by set_solver. rewrite <-(Hag b) in Hb by set_solver.
  apply (do_bin_op_eq s' t a b x y z' u v Op_xor); auto.
Qed.

Lemma krk_long_and_eq s res a b z x y u v :
  s !! res = Some z → sized z → s !! a = Some x → s !! b = Some y → repr x u → repr y v →
  ∃ r, krk_long_and res a b s = Done (0, <[res := r]> s) ∧ repr r (Z.land u v).
Proof.
  intros Hz Hs Ha Hb Hx Hy. unfold krk_long_and.
  apply (with_output_eq res [a; b] _ s z (λ r, repr r (Z.land u v)) 0 Hz Hs (operands_some Ha Hb)).
  intros t s' z' Ht Hz' Hs' Hag. destruct (not_operand Ht) as [Hna Hnb].
  rewrite <-(Hag a) in Ha by set_solver. rewrite <-(Hag b) in Hb by set_solver. clear Hag Hz Hs s z.
  st_step (rd_long_eq _ _ _ Ha). st_step (rd_long_eq _ _ _ Hb). rewrite (repr_width_0 _ _ Hx), (repr_width_0 _ _ Hy).
  destruct (Z.eqb_spec u 0) as [->|Hu]; [|destruct (Z.eqb_spec v 0) as [->|Hv]].
  - rewrite (clear_copy s' t a z' x _ Hz' Ha Hna (repr_sized _ _ Hx)). by eexists.
  - rewrite (clear_copy s' t b z' y _ Hz' Hb Hnb (repr_sized _ _ Hy)). eexists. split; [done|]. by rewrite Z.land_0_r.
  - apply (do_bin_op_eq s' t a b x y z' u v Op_and); auto.
Qed.

(** ** Shifts *)

(** One set bit, in as many digits as it needs. *)
Lemma one_bit s a m : 0 ≤ m → ∃ R, krk_long_bit_set a m (<[a := Long 0 []]> s) = Done (0, <[a := pos R]> s) ∧
  digits_ok R ∧ length R = S (Z.to_nat (m / 31)) ∧ take (Z.to_nat (m / 31)) R = replicate (Z.to_nat (m / 31)) 0.
Proof.
  intros Hm. destruct (bit_set_eq (<[a := Long 0 []]> s) a [] m (lookup_insert_eq _ _ _) ltac:(constructor) Hm ltac:(apply Z.bits_0)) as (R & E & D & V & L).
  rewrite insert_insert_eq in E. exists R. simpl in L, V. split_and!; [done|done|lia|]. set (k := Z.to_nat (m / 31)) in *.
  assert (Hk : Z.of_nat k = m / 31) by (unfold k; rewrite Z2Nat.id; [done|by apply Z.div_pos]).
  pose proof (Z.div_mod m 31 ltac:(done)) as Hdm. pose proof (Z.mod_pos_bound m 31 ltac:(done)) as Hr.
  assert (R = replicate k 0 ++ [2 ^ (m mod 31)]) as ->.
  { apply (eval_inj BASE); [done| |rewrite length_app, length_replicate; simpl; lia|].
    - apply digits_ok_app. split; [by apply digits_ok_zeros|]. constructor; [|done]. split; [lia|]. apply Z.pow_lt_mono_r; lia.
    - rewrite V, eval_app, eval_zeros, length_replicate. simpl. rewrite <-Z.pow_mul_r by lia. rewrite Z.mul_0_r, Z.add_0_r, Z.add_0_l, <-Z.pow_add_r by lia.
      rewrite Z.add_0_l. f_equal. lia. }
  rewrite take_app_length' by (by rewrite length_replicate). done.
Qed.

Lemma shl_parts d o : 0 ≤ d < BASE → 0 < o < 31 →
  Z.land (u32 (Z.shiftl d o)) DIGIT_MAX = (d * 2 ^ o) `mod` BASE ∧ Z.land (Z.shiftr d (31 - o)) DIGIT_MAX = d / 2 ^ (31 - o) ∧
  d * 2 ^ o = (d * 2 ^ o) `mod` BASE + BASE * (d / 2 ^ (31 - o)) ∧ 0 ≤ d / 2 ^ (31 - o) < 2 ^ o ∧
  ∃ q, (d * 2 ^ o) `mod` BASE = q * 2 ^ o ∧ 0 ≤ q.
Proof.
  intros Hd Ho. assert (Hp : BASE = 2 ^ o * 2 ^ (31 - o)) by (rewrite <-Z.pow_add_r by lia; f_equal; lia).
  assert (0 < 2 ^ o ∧ 0 < 2 ^ (31 - o)) as [Hp1 Hp2] by (split; apply Z.pow_pos_nonneg; lia).
  rewrite !land_MAX, Z.shiftl_mul_pow2, Z.shiftr_div_pow2 by lia.
  assert (Hq : 0 ≤ d / 2 ^ (31 - o) < 2 ^ o) by (split; [apply Z.div_pos; lia|apply Z.div_lt_upper_bound; lia]).
  assert (Hlt : 2 ^ o < BASE) by (apply Z.pow_lt_mono_r; lia).
  assert (Hm : (d * 2 ^ o) `mod` BASE = (d mod 2 ^ (31 - o)) * 2 ^ o) by (rewrite Hp, (Z.mul_comm (2 ^ o) (2 ^ (31 - o))); apply Z.mul_mod_distr_r; lia).
  split_and!.
  - unfold u32. rewrite <-Znumtheory.Zmod_div_mod; [done|done|done|by exists 2].
  - apply Z.mod_small. lia.
  - rewrite Hm. pose proof (Z.div_mod d (2 ^ (31 - o)) ltac:(lia)). nia.
  - apply Hq.
  - apply Hq.
  - exists (d mod 2 ^ (31 - o)). split; [done|]. apply Z.mod_pos_bound. lia.
Qed.

Definition lshift_body (out val cycles offset i shift_in : Z) : St store Z :=
  d ← rd_digit val i;
  wr_digit out (i + cycles) (Z.lor (Z.land (u32 (Z.shiftl d offset)) DIGIT_MAX) shift_in);;
  mret (Z.land (Z.shiftr d (31 - offset)) DIGIT_MAX).

(** The digits behind [cycles] zeros. *)
Lemma lshift_loop s out val x R c o n : val ≠ out → s !! val = Some x → digits_ok (digits x) → 0 < o < 31 →
  (n ≤ length (digits x))%nat → (c + n ≤ length R)%nat → take c R = replicate c 0 →
  ∃ sh ds, for_loop n 0 (lshift_body out val (Z.of_nat c) o) 0 (<[out := pos R]> s) =
      Done (sh, <[out := pos (replicate c 0 ++ ds ++ drop (c + n) R)]> s) ∧
    length ds = n ∧ digits_ok ds ∧ 0 ≤ sh < 2 ^ o ∧ eval ds + BASE ^ Z.of_nat n * sh = 2 ^ o * eval (take n (digits x)).
Proof.
  intros Hne Hv Dx Ho Hn HR Hz.
  destruct (for_loop_inv (λ i sh s', ∃ ds, s' = <[out := pos (replicate c 0 ++ ds ++ drop (c + i) R)]> s ∧ length ds = i ∧ digits_ok ds ∧ 0 ≤ sh < 2 ^ o ∧
      eval ds + BASE ^ Z.of_nat i * sh = 2 ^ o * eval (take i (digits x))) n 0 (lshift_body out val (Z.of_nat c) o) 0 (<[out := pos R]> s))
    as (sh & s' & E & ds & -> & H); [| |by eauto].
  - exists []. rewrite <-Hz, Nat.add_0_r. simpl. rewrite take_drop. assert (0 < 2 ^ o) by (apply Z.pow_pos_nonneg; lia). split_and!; try done; try lia. constructor.
  - intros i sh s' Hi (ds & -> & Hl & Hd & Hsh & He). rewrite Z.add_0_l. unfold lshift_body.
    destruct (lookup_lt_is_Some_2 (digits x) i ltac:(lia)) as [d Hdi]. pose proof (digits_ok_lookup _ _ _ _ Dx Hdi) as Hdr.
    st_step (rd_other s out val x (replicate c 0 ++ ds ++ drop (c + i) R) i d Hv Hne Hdi).
    destruct (shl_parts d o Hdr Ho) as (-> & -> & Hsum & Hhi & q & Hq & Hq0). rewrite Hq, lor_shift by lia. rewrite <-Hq.
    replace (Z.of_nat i + Z.of_nat c) with (Z.of_nat (c + i)) by lia.
    st_step (wr_pos s out (replicate c 0 ++ ds ++ drop (c + i) R) (c + i) ((d * 2 ^ o) `mod` BASE + sh) ltac:(rewrite !length_app, length_replicate, length_drop; lia)).
    eexists _, _. split; [done|]. exists (ds ++ [(d * 2 ^ o) `mod` BASE + sh]).
    assert (Hrange : 0 ≤ (d * 2 ^ o) `mod` BASE + sh < BASE).
    { pose proof (Z.mod_pos_bound (d * 2 ^ o) BASE ltac:(done)). rewrite Hq in *. split; [lia|].
      assert (BASE = 2 ^ (31 - o) * 2 ^ o) as Eb by (rewrite <-Z.pow_add_r by lia; f_equal; lia). rewrite Eb in *.
      assert (0 < 2 ^ o) by (apply Z.pow_pos_nonneg; lia). assert (q < 2 ^ (31 - o)) by nia. nia. }
    split_and!; try lia.
    + do 2 f_equal. rewrite insert_app_r_alt by (rewrite length_replicate; lia). rewrite length_replicate. replace (c + i - c)%nat with i by lia. f_equal.
      rewrite insert_app_r_alt by lia. rewrite Hl, Nat.sub_diag. destruct (lookup_lt_is_Some_2 R (c + i) ltac:(lia)) as [e Hei]. rewrite (drop_S _ _ _ Hei).
      simpl. rewrite <-app_assoc. simpl. do 2 f_equal. f_equal. lia.
    + rewrite length_app. simpl. lia.
    + apply digits_ok_app. split; [done|]. by constructor.
    + rewrite (eval_snoc BASE), (eval_take_S _ _ _ _ Hdi), pow_S, Hl. set (P := BASE ^ Z.of_nat i) in *.
      set (hi := d / 2 ^ (31 - o)) in *. set (lo := (d * 2 ^ o) `mod` BASE) in *. clearbody lo hi P. nia.
Qed.

(** The copy of the digits behind zeros, for whole digits. *)
Lemma lshift_copy s out val x R c n : val ≠ out → s !! val = Some x → (n ≤ length (digits x))%nat → (c + n ≤ length R)%nat → take c R = replicate c 0 →
  for_loop n 0 (λ i (_ : unit), d ← rd_digit val i; wr_digit out (i + Z.of_nat c) d) tt (<[out := pos R]> s) =
    Done (tt, <[out := pos (replicate c 0 ++ take n (digits x) ++ drop (c + n) R)]> s).
Proof.
  intros Hne Hv Hn HR Hz.
  destruct (for_loop_inv (λ i (_ : unit) s', s' = <[out := pos (replicate c 0 ++ take i (digits x) ++ drop (c + i) R)]> s) n 0
    (λ i (_ : unit), d ← rd_digit val i; wr_digit out (i + Z.of_nat c) d) tt (<[out := pos R]> s)) as ([] & s' & E & ->); [| |done].
  - rewrite <-Hz, Nat.add_0_r. simpl. by rewrite take_drop.
  - intros i [] s' Hi ->. rewrite Z.add_0_l. destruct (lookup_lt_is_Some_2 (digits x) i ltac:(lia)) as [d Hdi].
    st_step (rd_other s out val x (replicate c 0 ++ take i (digits x) ++ drop (c + i) R) i d Hv Hne Hdi).
    replace (Z.of_nat i + Z.of_nat c) with (Z.of_nat (c + i)) by lia.
    assert (Hti : length (take i (digits x)) = i) by (rewrite length_take; lia).
    rewrite wr_pos by (rewrite !length_app, length_replicate, length_drop, Hti; lia). exists tt. eexists. split; [done|].
    do 2 f_equal. rewrite insert_app_r_alt by (rewrite length_replicate; lia). rewrite length_replicate. replace (c + i - c)%nat with i by lia. f_equal.
    rewrite insert_app_r_alt by lia. rewrite Hti, Nat.sub_diag. destruct (lookup_lt_is_Some_2 R (c + i) ltac:(lia)) as [e Hei]. rewrite (drop_S _ _ _ Hei).
    simpl. rewrite (take_S_r _ _ _ Hdi), <-app_assoc. simpl. do 2 f_equal. f_equal. lia.
Qed.

Lemma bits_bounds v : 0 < v → 0 < bits v ∧ 2 ^ (bits v - 1) ≤ v < 2 ^ bits v.
Proof.
  intros Hv. unfold bits. rewrite (proj2 (Z.eqb_neq v 0)) by lia. pose proof (Z.log2_nonneg v). pose proof (Z.log2_spec v Hv).
  replace (Z.log2 v + 1 - 1) with (Z.log2 v) by lia. rewrite Z.add_1_r. lia.
Qed.

Lemma bits_zero v : 0 ≤ v → (bits v =? 0) = (v =? 0).
Proof. intros Hv. unfold bits. destruct (Z.eqb_spec v 0); [done|]. pose proof (Z.log2_nonneg v). apply Z.eqb_neq. lia. Qed.

(** Digits that make a number of a given size are its normal form. *)
Lemma normal_sized ds v m : digits_ok ds → eval ds = v → 2 ^ m ≤ v → 0 ≤ m → length ds = S (Z.to_nat (m / 31)) → normal ds.
Proof.
  intros D V Hv Hm Hl. apply (normal_large ds v (S (Z.to_nat (m / 31)))); try done. etrans; [|exact Hv]. rewrite <-Z.pow_mul_r by (pose proof (Z.div_pos m 31); lia).
  apply Z.pow_le_mono_r; [lia|]. rewrite Nat2Z.inj_succ, Z2Nat.id by (by apply Z.div_pos). pose proof (Z.mul_div_le m 31 ltac:(lia)). lia.
Qed.

Lemma rev_sign {A} s out val x u ds v (k : St store A) : out ≠ val → s !! val = Some x → repr x u → repr (pos ds) v → 0 ≤ v →
  ∃ r, (sign ← krk_long_sign val; if sign <? 0 then krk_long_set_sign out (-1);; k else k) (<[out := pos ds]> s) = k (<[out := r]> s) ∧
    repr r (if u <? 0 then - v else v).
Proof.
  intros Hne Hv Hx Hr H0. st_step (sign_eq (<[out := pos ds]> s) val x u ltac:(by rewrite lookup_insert_ne) Hx).
  assert ((Z.sgn u <? 0) = (u <? 0)) as -> by (by destruct u). destruct (u <? 0).
  - st_step (set_sign_over s out (pos ds) (-1)). eexists. split; [done|]. by apply repr_neg.
  - by eexists.
Qed.

(** The digits in use are those of the bits in use. *)
Lemma width_bits x u : repr x u → u ≠ 0 → 31 * (Z.of_nat (length (digits x)) - 1) ≤ bits (Z.abs u) - 1 < 31 * Z.of_nat (length (digits x)).
Proof.
  intros Hx Hu. destruct (repr_digits _ _ Hx) as (Dx & Nx & Ex). destruct (bits_bounds (Z.abs u) ltac:(lia)) as (Hb0 & Hb1 & Hb2).
  assert (Hxne : digits x ≠ []) by (intros E; rewrite E in Ex; simpl in Ex; lia).
  assert (0 < length (digits x))%nat by (destruct (digits x); [done|simpl; lia]).
  pose proof (eval_normal BASE BASE_gt _ Dx Nx Hxne) as B1. pose proof (eval_bound BASE BASE_gt _ Dx) as B2. set (w := length (digits x)) in *.
  rewrite <-Z.pow_mul_r in * by lia. rewrite Ex in *. split.
  - destruct (decide (31 * (Z.of_nat w - 1) ≤ bits (Z.abs u) - 1)) as [|Hc']; [done|]. assert (2 ^ bits (Z.abs u) ≤ 2 ^ (31 * (Z.of_nat w - 1))) by (apply Z.pow_le_mono_r; lia). lia.
  - apply (Z.pow_lt_mono_r_iff 2); lia.
Qed.

(** The digits of a left shift. *)
Lemma lshift_digits s out val x u n R : val ≠ out → s !! val = Some x → repr x u → u ≠ 0 → 0 < n →
  let m := bits (Z.abs u) - 1 + n in
  length R = S (Z.to_nat (m / 31)) → take (Z.to_nat (m / 31)) R = replicate (Z.to_nat (m / 31)) 0 →
  ∃ ds, (if n mod 31 =? 0 then
      for_loop (length (digits x)) 0 (λ i (_ : unit), d ← rd_digit val i; wr_digit out (i + n / 31) d) tt
    else
      shift_in ← for_loop (length (digits x)) 0 (lshift_body out val (n / 31) (n mod 31)) 0;
      if negb (shift_in =? 0) then wr_digit out (Z.of_nat (length (digits x)) + n / 31) shift_in else mret tt) (<[out := pos R]> s) =
    Done (tt, <[out := pos ds]> s) ∧ digits_ok ds ∧ length ds = S (Z.to_nat (m / 31)) ∧ eval ds = Z.abs u * 2 ^ n.
Proof.
  intros Hne Hv Hx Hu Hn m LR HzR. destruct (repr_digits _ _ Hx) as (Dx & Nx & Ex). destruct (bits_bounds (Z.abs u) ltac:(lia)) as (Hb0 & Hb1 & Hb2).
  set (N := Z.to_nat (m / 31)) in *. assert (HN : Z.of_nat N = m / 31) by (unfold N; rewrite Z2Nat.id; [done|apply Z.div_pos; lia]).
  set (c := Z.to_nat (n / 31)). assert (Hc : Z.of_nat c = n / 31) by (unfold c; rewrite Z2Nat.id; [done|apply Z.div_pos; lia]). rewrite <-Hc.
  set (w := length (digits x)). pose proof (Z.div_mod n 31 ltac:(done)) as Hdn. pose proof (Z.mod_pos_bound n 31 ltac:(done)) as Hon. set (o := n mod 31) in *.
  pose proof (Z.div_mod m 31 ltac:(done)) as Hdm. pose proof (Z.mod_pos_bound m 31 ltac:(done)) as Hom.
  pose proof (width_bits x u Hx Hu) as Hw. fold w in Hw.
  assert (Hn2 : 2 ^ n = BASE ^ Z.of_nat c * 2 ^ o) by (rewrite <-Z.pow_mul_r, <-Z.pow_add_r by lia; f_equal; lia).
  assert (Hz : take c R = replicate c 0).
  { replace c with (c `min` N)%nat by lia. by rewrite <-take_take, HzR, take_replicate. }
  assert (HNc : N = (c + w)%nat ∨ S N = (c + w)%nat) by lia.
  destruct (Z.eqb_spec o 0) as [Eo|Eo].
  - rewrite (lshift_copy s out val x R c w Hne Hv ltac:(done) ltac:(lia) Hz). rewrite drop_ge, app_nil_r, take_ge by lia. eexists. split; [done|]. split_and!.
    + apply digits_ok_app. split; [by apply digits_ok_zeros|done].
    + rewrite length_app, length_replicate. fold w. lia.
    + rewrite eval_app, eval_zeros, length_replicate, Ex, Hn2, Eo. lia.
  - destruct (lshift_loop s out val x R c o w Hne Hv Dx ltac:(lia) ltac:(lia) ltac:(lia) Hz) as (sh & ds & E & Hl & Hd & Hsh & He). st_step E.
    rewrite take_ge, Ex in He by done. pose proof (eval_bound BASE BASE_gt ds Hd) as B. rewrite Hl in B. set (P := BASE ^ Z.of_nat w) in *.
    assert (HP : P * BASE ^ Z.of_nat c = 2 ^ (31 * Z.of_nat (c + w))) by (unfold P; rewrite <-!Z.pow_mul_r, <-Z.pow_add_r by lia; f_equal; lia).
    assert (H2m : 2 ^ m ≤ Z.abs u * 2 ^ n < 2 ^ (m + 1)).
    { unfold m. replace (bits (Z.abs u) - 1 + n + 1) with (bits (Z.abs u) + n) by lia. rewrite !Z.pow_add_r by lia. assert (0 < 2 ^ n) by (apply Z.pow_pos_nonneg; lia). nia. }
    rewrite Hn2 in H2m. set (C := BASE ^ Z.of_nat c) in *. assert (HC : 0 < C) by (unfold C; apply Z.pow_pos_nonneg; lia).
    assert (HP0 : 0 < P) by (unfold P; apply Z.pow_pos_nonneg; lia). destruct HNc as [EN|EN].
    + assert (P ≤ 2 ^ o * Z.abs u).
      { assert (2 ^ (31 * Z.of_nat (c + w)) ≤ 2 ^ m) by (apply Z.pow_le_mono_r; lia). nia. }
      destruct (Z.eqb_spec sh 0) as [E0|E0]; [rewrite E0 in He; lia|]. cbn [negb]. replace (Z.of_nat w + Z.of_nat c) with (Z.of_nat (c + w)) by lia.
      rewrite wr_pos by (rewrite !length_app, length_replicate, length_drop; lia).
      assert (Eds : <[(c + w)%nat := sh]> (replicate c 0 ++ ds ++ drop (c + w) R) = replicate c 0 ++ ds ++ [sh]).
      { rewrite insert_app_r_alt by (rewrite length_replicate; lia). rewrite length_replicate. f_equal. rewrite insert_app_r_alt by lia.
        replace (c + w - c - length ds)%nat with O by lia. f_equal. destruct (lookup_lt_is_Some_2 R (c + w) ltac:(lia)) as [e He']. rewrite (drop_S _ _ _ He'), drop_ge by lia. done. }
      rewrite Eds. eexists. split; [done|]. split_and!.
      * repeat (apply digits_ok_app; split); [by apply digits_ok_zeros|done|]. constructor; [|done]. assert (2 ^ o < BASE) by (apply Z.pow_lt_mono_r; lia). lia.
      * rewrite !length_app, length_replicate. simpl. lia.
      * rewrite eval_app, eval_zeros, length_replicate, (eval_snoc BASE), Hl, Hn2. fold C P. nia.
    + assert (2 ^ o * Z.abs u < P).
      { assert (2 ^ (m + 1) ≤ 2 ^ (31 * Z.of_nat (c + w))) by (apply Z.pow_le_mono_r; lia). nia. }
      assert (sh = 0) as -> by nia. cbn [negb Z.eqb]. rewrite drop_ge, app_nil_r by lia. eexists. split; [done|]. split_and!.
      * apply digits_ok_app. split; [by apply digits_ok_zeros|done].
      * rewrite length_app, length_replicate. lia.
      * rewrite eval_app, eval_zeros, length_replicate, Hn2. fold C. nia.
Qed.

Lemma krk_long_lshift_z_eq s out val x z u n : s !! out = Some z → s !! val = Some x → repr x u → val ≠ out → 0 ≤ n →
  ∃ r, krk_long_lshift_z out val n s = Done (tt, <[out := r]> s) ∧ repr r (u * 2 ^ n).
Proof.
  intros Hz Hv Hx Hne Hn. unfold krk_long_lshift_z. destruct (Z.eqb_spec n 0) as [->|Hn0].
  { rewrite (clear_copy s out val z x _ Hz Hv Hne (repr_sized _ _ Hx)). eexists. split; [done|]. by rewrite Z.pow_0_r, Z.mul_1_r. }
  st_step (bits_in_eq s val x u Hv Hx). st_step (clear_eq s out z Hz). rewrite bits_zero by lia.
  destruct (Z.eqb_spec (Z.abs u) 0) as [E|E].
  { eexists. split; [done|]. assert (u = 0) as -> by lia. apply repr_0. }
  st_step (rd_long_eq (<[out := Long 0 []]> s) val x ltac:(by rewrite lookup_insert_ne)). rewrite (repr_abs_width _ _ Hx), Nat2Z.id.
  destruct (bits_bounds (Z.abs u) ltac:(lia)) as (Hb0 & Hb1 & Hb2).
  destruct (one_bit s out (bits (Z.abs u) - 1 + n) ltac:(lia)) as (R & E1 & DR & LR & HR). st_step E1.
  destruct (lshift_digits s out val x u n R Hne Hv Hx ltac:(lia) ltac:(lia) LR HR) as (ds & E2 & Dd & Ld & Vd). unfold lshift_body in E2. st_step E2.
  assert (Hbig : 2 ^ (bits (Z.abs u) - 1 + n) ≤ Z.abs u * 2 ^ n) by (rewrite Z.pow_add_r by lia; apply Z.mul_le_mono_nonneg_r; lia).
  assert (0 < 2 ^ n) by (apply Z.pow_pos_nonneg; lia).
  destruct (rev_sign s out val x u ds (Z.abs u * 2 ^ n) (mret tt)) as (r & Er & Rr); try done.
  { apply repr_pos_v; [done| |done]. eapply normal_sized; [done|exact Vd|exact Hbig|lia|done]. }
  { lia. }
  rewrite Er. exists r. split; [done|]. eapply repr_of; [exact Rr|]. destruct (Z.ltb_spec u 0); nia.
Qed.

(** The digits behind the first [c] are the quotient by a power of the base. *)
Lemma eval_drop ds c : digits_ok ds → eval (drop c ds) = eval ds / BASE ^ Z.of_nat c.
Proof.
  intros D. destruct (decide (c ≤ length ds)%nat) as [Hc|Hc].
  - rewrite <-(take_drop c ds) at 2. rewrite eval_app, length_take, Nat.min_l by done.
    assert (D' : digits_ok (take c ds)) by (rewrite <-(take_drop c ds) in D; apply digits_ok_app in D; apply D).
    pose proof (eval_bound BASE BASE_gt _ D') as B. rewrite length_take, Nat.min_l in B by done.
    rewrite (Z.mul_comm (BASE ^ Z.of_nat c)), Z.div_add by lia. rewrite (Z.div_small (eval (take c ds))) by done. lia.
  - rewrite drop_ge by lia. simpl. pose proof (eval_bound BASE BASE_gt _ D) as B. rewrite Z.div_small; [done|]. split; [lia|].
    assert (BASE ^ Z.of_nat (length ds) ≤ BASE ^ Z.of_nat c) by (apply Z.pow_le_mono_r; lia). lia.
Qed.

(** The parts of a digit shifted to the right. *)
Lemma shr_parts d o : 0 ≤ d < BASE → 0 < o < 31 →
  Z.land (Z.shiftr d o) DIGIT_MAX = d / 2 ^ o ∧ 0 ≤ d / 2 ^ o < 2 ^ (31 - o) ∧
  Z.land (u32 (Z.shiftl d (31 - o))) DIGIT_MAX = (d * 2 ^ (31 - o)) `mod` BASE ∧
  d * 2 ^ (31 - o) = (d * 2 ^ (31 - o)) `mod` BASE + BASE * (d / 2 ^ o) ∧
  ∃ q, (d * 2 ^ (31 - o)) `mod` BASE = q * 2 ^ (31 - o) ∧ 0 ≤ q.
Proof.
  intros Hd Ho. destruct (shl_parts d (31 - o) Hd ltac:(lia)) as (E1 & E2 & E3 & E4 & E5). replace (31 - (31 - o)) with o in * by lia. done.
Qed.

Definition rshift_body (out val cycles offset i : Z) : St store unit :=
  d ← rd_digit val (i + cycles);
  e ← rd_digit out (i - 1);
  wr_digit out (i - 1) (Z.lor e (Z.land (u32 (Z.shiftl d (31 - offset))) DIGIT_MAX));;
  wr_digit out i (Z.land (Z.shiftr d offset) DIGIT_MAX).

(** One more digit of a quotient: the digit below takes the low bits. *)
Lemma rshift_digit D i d o : digits_ok D → 0 < o < 31 → D !! S i = Some d →
  let l := (d * 2 ^ (31 - o)) `mod` BASE in
  eval (take (S (S i)) D) / 2 ^ o = eval (take (S i) D) / 2 ^ o + BASE ^ Z.of_nat i * l + BASE ^ Z.of_nat (S i) * (d / 2 ^ o).
Proof.
  intros HD Ho Hd l. rewrite (eval_take_S _ _ _ _ Hd), pow_S. destruct (shr_parts d o (digits_ok_lookup _ _ _ _ HD Hd) Ho) as (_ & _ & _ & Hs & _). fold l in Hs.
  assert (0 < 2 ^ o) by (apply Z.pow_pos_nonneg; lia). assert (Hb : BASE = 2 ^ (31 - o) * 2 ^ o) by (rewrite <-Z.pow_add_r by lia; f_equal; lia).
  replace (BASE * BASE ^ Z.of_nat i * d) with (BASE ^ Z.of_nat i * (d * 2 ^ (31 - o)) * 2 ^ o) by (rewrite Hb at 2; ring).
  rewrite Z.div_add by lia. rewrite Hs. ring.
Qed.

(** The digits of a quotient of the number of at least [n + 1] digits behind the first [c]. *)
Lemma rshift_loop {A} s out val x R c o D n (k : St store A) : val ≠ out → s !! val = Some x → drop c (digits x) = D → digits_ok (digits x) → 0 < o < 31 →
  (n < length D)%nat → (n < length R)%nat →
  ∃ ds e, (d ← rd_digit val (Z.of_nat c); wr_digit out 0 (Z.land (Z.shiftr d o) DIGIT_MAX);;
      for_loop n 1 (λ i (_ : unit), rshift_body out val (Z.of_nat c) o i) tt;; k) (<[out := pos R]> s) = k (<[out := pos (ds ++ e :: drop (S n) R)]> s) ∧
    length ds = n ∧ digits_ok ds ∧ 0 ≤ e < 2 ^ (31 - o) ∧ eval (ds ++ [e]) = eval (take (S n) D) / 2 ^ o.
Proof.
  intros Hne Hv HD Dx Ho Hn HR. assert (DD : digits_ok D) by (rewrite <-(take_drop c (digits x)), HD in Dx; apply digits_ok_app in Dx; apply Dx).
  assert (Hl : ∀ i, digits x !! (i + c)%nat = D !! i) by (intros i; rewrite <-HD, lookup_drop; f_equal; lia).
  assert (H0 : ∃ d, D !! 0%nat = Some d) by (apply lookup_lt_is_Some_2; lia). destruct H0 as [d0 Hd0].
  st_step (rd_other s out val x R c d0 Hv Hne ltac:(by rewrite <-Hd0, <-Hl)).
  destruct (shr_parts d0 o (digits_ok_lookup _ _ _ _ DD Hd0) Ho) as (-> & Hq0 & _).
  change 0 with (Z.of_nat 0). st_step (wr_pos s out R 0 (d0 / 2 ^ o) ltac:(lia)).
  destruct R as [|r0 R]; [simpl in HR; lia|]. simpl insert. simpl in HR.
  destruct (for_loop_inv (λ i _ s', ∃ ds e, s' = <[out := pos (ds ++ e :: drop i R)]> s ∧ length ds = i ∧ digits_ok ds ∧ 0 ≤ e < 2 ^ (31 - o) ∧
      eval (ds ++ [e]) = eval (take (S i) D) / 2 ^ o) n 1 (λ i (_ : unit), rshift_body out val (Z.of_nat c) o i) tt (<[out := pos (d0 / 2 ^ o :: R)]> s))
    as ([] & s' & E & ds & e & -> & H); [| |st_step E; by eauto].
  { exists [], (d0 / 2 ^ o). split_and!; [done|done|constructor|lia|lia|]. simpl. rewrite (eval_take_S _ _ _ _ Hd0). change (Z.of_nat 0) with 0. rewrite Z.pow_0_r, Z.mul_1_l. cbn [take eval]. by rewrite ?Z.mul_0_r, ?Z.add_0_l, ?Z.add_0_r. }
  intros i [] s' Hi (ds & e & -> & Hli & Hds & He & Hev). unfold rshift_body.
  destruct (lookup_lt_is_Some_2 D (S i) ltac:(lia)) as [d Hd]. destruct (lookup_lt_is_Some_2 R i ltac:(lia)) as [r Hr].
  replace (1 + Z.of_nat i + Z.of_nat c) with (Z.of_nat (S i + c)) by lia. replace (1 + Z.of_nat i - 1) with (Z.of_nat i) by lia. replace (1 + Z.of_nat i) with (Z.of_nat (S i)) by lia.
  st_step (rd_other s out val x (ds ++ e :: drop i R) (S i + c) d Hv Hne ltac:(by rewrite Hl)).
  st_step (rd_pos s out (ds ++ e :: drop i R) i e ltac:(by apply list_lookup_middle)).
  pose proof (digits_ok_lookup _ _ _ _ DD Hd) as Hdr. destruct (shr_parts d o Hdr Ho) as (-> & Hq & -> & _ & q & Hq1 & Hq2).
  assert (Hlor : Z.lor e ((d * 2 ^ (31 - o)) `mod` BASE) = e + (d * 2 ^ (31 - o)) `mod` BASE) by (rewrite Hq1, Z.lor_comm, lor_shift by lia; lia). rewrite Hlor.
  st_step (wr_pos s out (ds ++ e :: drop i R) i (e + (d * 2 ^ (31 - o)) `mod` BASE) ltac:(rewrite length_app; simpl; lia)).
  rewrite insert_app_r_alt by lia. rewrite Hli, Nat.sub_diag, (drop_S _ _ _ Hr). simpl insert.
  rewrite wr_pos by (rewrite length_app; simpl; lia). exists tt. eexists. split; [done|]. exists (ds ++ [e + (d * 2 ^ (31 - o)) `mod` BASE]), (d / 2 ^ o).
  pose proof (Z.mod_pos_bound (d * 2 ^ (31 - o)) BASE ltac:(done)) as Hmod. split_and!; try lia.
  - do 2 f_equal. rewrite insert_app_r_alt by lia. replace (S i - length ds)%nat with 1%nat by lia. simpl. by rewrite <-app_assoc.
  - rewrite length_app. simpl. lia.
  - apply digits_ok_app. split; [done|]. constructor; [|done]. assert (Eb : BASE = 2 ^ o * 2 ^ (31 - o)) by (rewrite <-Z.pow_add_r by lia; f_equal; lia).
    rewrite Hq1 in *. assert (0 < 2 ^ (31 - o)) by (apply Z.pow_pos_nonneg; lia). assert (q < 2 ^ o) by nia. nia.
  - rewrite (rshift_digit D i d o DD Ho Hd), <-Hev, !(eval_snoc BASE), length_app. simpl. rewrite Hli. replace (i + 1)%nat with (S i) by lia. ring.
Qed.

(** The digits of the quotient, with the digit that is left over below the highest one. *)
Definition rshift_core (out val count n : Z) : St store unit :=
  if n <? count then
    let offset := n mod 31 in
    let cycles := n / 31 in
    x ← rd val;
    let w := abs_width x in
    krk_long_bit_set out (count - 1 - n);;
    o ← rd out;
    if offset =? 0 then
      for_loop (Z.to_nat (w - cycles)) cycles (λ i (_ : unit), d ← rd_digit val i; wr_digit out (i - cycles) d) tt
    else
      d ← rd_digit val cycles;
      wr_digit out 0 (Z.land (Z.shiftr d offset) DIGIT_MAX);;
      for_loop (Z.to_nat (width o - 1)) 1 (λ i (_ : unit), rshift_body out val cycles offset i) tt;;
      if width o + cycles <? w then
        d ← rd_digit val (width o + cycles);
        e ← rd_digit out (width o - 1);
        wr_digit out (width o - 1) (Z.lor e (Z.land (u32 (Z.shiftl d (31 - offset))) DIGIT_MAX))
      else mret tt
  else mret tt.

Lemma rshift_copy s out val x R c n : val ≠ out → s !! val = Some x → (c + n = length (digits x))%nat → length R = n →
  for_loop n (Z.of_nat c) (λ i (_ : unit), d ← rd_digit val i; wr_digit out (i - Z.of_nat c) d) tt (<[out := pos R]> s) =
    Done (tt, <[out := pos (drop c (digits x))]> s).
Proof.
  intros Hne Hv Hn HR. assert (HD : length (drop c (digits x)) = n) by (rewrite length_drop; lia).
  destruct (for_loop_inv (λ i (_ : unit) s', s' = <[out := pos (take i (drop c (digits x)) ++ drop i R)]> s) n (Z.of_nat c)
    (λ i (_ : unit), d ← rd_digit val i; wr_digit out (i - Z.of_nat c) d) tt (<[out := pos R]> s)) as ([] & s' & E & ->); [done| |].
  - intros i [] s' Hi ->. destruct (lookup_lt_is_Some_2 (drop c (digits x)) i ltac:(lia)) as [d Hdi].
    replace (Z.of_nat c + Z.of_nat i) with (Z.of_nat (c + i)) by lia.
    st_step (rd_other s out val x (take i (drop c (digits x)) ++ drop i R) (c + i) d Hv Hne ltac:(by rewrite <-lookup_drop)).
    replace (Z.of_nat (c + i) - Z.of_nat c) with (Z.of_nat i) by lia.
    assert (Hti : length (take i (drop c (digits x))) = i) by (rewrite length_take; lia).
    rewrite wr_pos by (rewrite length_app, length_drop, Hti; lia). exists tt. eexists. split; [done|].
    do 2 f_equal. rewrite insert_app_r_alt by lia. rewrite Hti, Nat.sub_diag. destruct (lookup_lt_is_Some_2 R i ltac:(lia)) as [e He]. rewrite (drop_S _ _ _ He).
    simpl. by rewrite (take_S_r _ _ _ Hdi), <-app_assoc.
  - rewrite E, take_ge, (drop_ge R), app_nil_r by lia. done.
Qed.

(** The widths of a number and of its quotient. *)
Lemma shifted_widths x u n : repr x u → 0 < n < bits (Z.abs u) →
  let N := Z.to_nat ((bits (Z.abs u) - 1 - n) / 31) in let c := Z.to_nat (n / 31) in
  (n mod 31 = 0 → (S N + c = length (digits x))%nat) ∧ (S N + c ≤ length (digits x) ≤ S (S N + c))%nat ∧ (0 < length (digits x))%nat.
Proof.
  intros Hx Hn N c. pose proof (width_bits x u Hx ltac:(intros ->; unfold bits in Hn; simpl in Hn; lia)) as Hw. set (m := bits (Z.abs u) - 1 - n) in *.
  assert (HN : Z.of_nat N = m / 31) by (unfold N; rewrite Z2Nat.id; [done|apply Z.div_pos; lia]).
  assert (Hc : Z.of_nat c = n / 31) by (unfold c; rewrite Z2Nat.id; [done|apply Z.div_pos; lia]).
  pose proof (Z.div_mod n 31 ltac:(done)). pose proof (Z.mod_pos_bound n 31 ltac:(done)). pose proof (Z.div_mod m 31 ltac:(done)). pose proof (Z.mod_pos_bound m 31 ltac:(done)).
  rewrite <-HN in *. rewrite <-Hc in *. set (o := n mod 31) in *. set (p := m mod 31) in *. clearbody N c o p. unfold m in *. clear HN Hc m.
  revert Hw Hn H H0 H1 H2. generalize (bits (Z.abs u)). intros b. intros. split_and!; lia.
Qed.

(** The low bits of the digit above the last one. *)
Lemma rshift_last s out val x ds e c o L : val ≠ out → s !! val = Some x → digits_ok (digits x) → 0 < o < 31 →
  (L + c ≤ length (digits x) ≤ S (L + c))%nat → length ds = (L - 1)%nat → digits_ok ds → 0 ≤ e < 2 ^ (31 - o) →
  eval (ds ++ [e]) = eval (take L (drop c (digits x))) / 2 ^ o → (0 < L)%nat →
  eval (digits x) / (BASE ^ Z.of_nat c * 2 ^ o) < BASE ^ Z.of_nat L →
  ∃ ds', (if Z.of_nat L + Z.of_nat c <? Z.of_nat (length (digits x)) then
        d ← rd_digit val (Z.of_nat L + Z.of_nat c);
        e ← rd_digit out (Z.of_nat L - 1);
        wr_digit out (Z.of_nat L - 1) (Z.lor e (Z.land (u32 (Z.shiftl d (31 - o))) DIGIT_MAX))
      else mret tt) (<[out := pos (ds ++ [e])]> s) = Done (tt, <[out := pos ds']> s) ∧
    digits_ok ds' ∧ length ds' = L ∧ eval ds' = eval (digits x) / (BASE ^ Z.of_nat c * 2 ^ o).
Proof.
  intros Hne Hv Dx Ho HL Hl Hd He Hev HL0 Hlt. assert (0 < 2 ^ o) by (apply Z.pow_pos_nonneg; lia). assert (0 < BASE ^ Z.of_nat c) by (apply Z.pow_pos_nonneg; lia).
  rewrite <-Z.div_div in * by lia. rewrite <-(eval_drop _ c Dx) in *. set (D := drop c (digits x)) in *.
  assert (HD : length D = (length (digits x) - c)%nat) by (unfold D; rewrite length_drop; lia).
  assert (DD : digits_ok D) by (rewrite <-(take_drop c (digits x)) in Dx; apply digits_ok_app in Dx; apply Dx).
  assert (Hmono : 2 ^ (31 - o) < BASE) by (apply Z.pow_lt_mono_r; lia).
  destruct (Z.ltb_spec (Z.of_nat L + Z.of_nat c) (Z.of_nat (length (digits x)))) as [Hc|Hc].
  2: { exists (ds ++ [e]). rewrite take_ge in Hev by lia. split_and!; [done| |rewrite length_app; simpl; lia|done]. apply digits_ok_app. split; [done|]. constructor; [lia|done]. }
  assert (Hd' : ∃ d, D !! L = Some d) by (apply lookup_lt_is_Some_2; lia). destruct Hd' as [d Hd']. pose proof (digits_ok_lookup _ _ _ _ DD Hd') as Hdr.
  replace (Z.of_nat L + Z.of_nat c) with (Z.of_nat (c + L)) by lia. replace (Z.of_nat L - 1) with (Z.of_nat (L - 1)) by lia.
  st_step (rd_other s out val x (ds ++ [e]) (c + L) d Hv Hne ltac:(by rewrite <-lookup_drop)).
  st_step (rd_pos s out (ds ++ [e]) (L - 1) e ltac:(by apply list_lookup_middle)).
  rewrite wr_pos by (rewrite length_app; simpl; lia).
  destruct (shr_parts d o Hdr Ho) as (_ & Hq & -> & _ & q & Hq1 & Hq2).
  assert (Hlor : Z.lor e ((d * 2 ^ (31 - o)) `mod` BASE) = e + (d * 2 ^ (31 - o)) `mod` BASE) by (rewrite Hq1, Z.lor_comm, lor_shift by lia; lia). rewrite Hlor. clear Hlor.
  rewrite insert_app_r_alt by lia. rewrite Hl, Nat.sub_diag. simpl insert. eexists. split; [done|].
  pose proof (Z.mod_pos_bound (d * 2 ^ (31 - o)) BASE ltac:(done)) as Hmod.
  pose proof (rshift_digit D (L - 1) d o DD Ho ltac:(by replace (S (L - 1)) with L by lia)) as Hr. cbv zeta in Hr. replace (S (L - 1)) with L in Hr by lia.
  rewrite (take_ge D (S L)) in Hr by lia. rewrite <-Hev, (eval_snoc BASE), Hl in Hr.
  set (P := BASE ^ Z.of_nat (L - 1)) in *. assert (0 < P) by (unfold P; apply Z.pow_pos_nonneg; lia).
  pose proof (eval_bound BASE BASE_gt ds Hd) as B. set (l := (d * 2 ^ (31 - o)) `mod` BASE) in *.
  assert (d / 2 ^ o = 0) as E0 by nia. rewrite E0, Z.mul_0_r, Z.add_0_r in Hr. split_and!.
  - apply digits_ok_app. split; [done|]. constructor; [|done]. assert (Eb : BASE = 2 ^ o * 2 ^ (31 - o)) by (rewrite <-Z.pow_add_r by lia; f_equal; lia).
    rewrite Hq1 in *. assert (0 < 2 ^ (31 - o)) by (apply Z.pow_pos_nonneg; lia). assert (q < 2 ^ o) by nia. nia.
  - rewrite length_app. simpl. lia.
  - rewrite (eval_snoc BASE), Hl. fold P. lia.
Qed.

Lemma rshift_core_eq s out val x u n : val ≠ out → s !! val = Some x → repr x u → u ≠ 0 → 0 < n →
  ∃ q, rshift_core out val (bits (Z.abs u)) n (<[out := Long 0 []]> s) = Done (tt, <[out := q]> s) ∧ repr q (Z.abs u / 2 ^ n).
Proof.
  intros Hne Hv Hx Hu Hn. unfold rshift_core. destruct (bits_bounds (Z.abs u) ltac:(lia)) as (Hb0 & Hb1 & Hb2). destruct (Z.ltb_spec n (bits (Z.abs u))) as [Hlt|Hlt].
  2: { exists (Long 0 []). split; [done|]. rewrite Z.div_small; [apply repr_0|]. split; [lia|]. assert (2 ^ bits (Z.abs u) ≤ 2 ^ n) by (apply Z.pow_le_mono_r; lia). lia. }
  cbv zeta. set (m := bits (Z.abs u) - 1 - n). assert (Hm : 0 ≤ m) by (unfold m; lia).
  st_step (rd_long_eq (<[out := Long 0 []]> s) val x ltac:(by rewrite lookup_insert_ne)).
  destruct (one_bit s out m Hm) as (R & E1 & DR & LR & HR). st_step E1. st_step (rd_over s out (pos R)).
  destruct (repr_digits _ _ Hx) as (Dx & Nx & Ex). rewrite (repr_abs_width _ _ Hx). cbn [width pos].
  destruct (shifted_widths x u n Hx ltac:(lia)) as (W0 & W1 & W2). fold m in W0, W1. rewrite <-LR in W0, W1.
  set (c := Z.to_nat (n / 31)) in *. assert (Hc : Z.of_nat c = n / 31) by (unfold c; rewrite Z2Nat.id; [done|apply Z.div_pos; lia]). rewrite <-Hc.
  assert (Hfin : ∀ ds, digits_ok ds → length ds = length R → eval ds = Z.abs u / 2 ^ n → ∃ q, @Done (unit * store) (tt, <[out := pos ds]> s) = Done (tt, <[out := q]> s) ∧ repr q (Z.abs u / 2 ^ n)).
  { intros ds Dd Ld Vd. eexists. split; [done|]. apply repr_pos_v; [done| |done]. apply (normal_sized ds _ m Dd Vd); [|lia|congruence].
    apply Z.div_le_lower_bound; [apply Z.pow_pos_nonneg; lia|]. rewrite <-Z.pow_add_r by lia. replace (n + m) with (bits (Z.abs u) - 1) by (unfold m; lia). done. }
  pose proof (Z.div_mod n 31 ltac:(done)) as Hdn. pose proof (Z.mod_pos_bound n 31 ltac:(done)) as Hon. set (o := n mod 31) in *.
  assert (Hn2 : 2 ^ n = BASE ^ Z.of_nat c * 2 ^ o) by (rewrite <-Z.pow_mul_r, <-Z.pow_add_r by lia; f_equal; lia).
  destruct (Z.eqb_spec o 0) as [Eo|Eo].
  - replace (Z.to_nat (Z.of_nat (length (digits x)) - Z.of_nat c)) with (length R) by (specialize (W0 Eo); lia).
    rewrite (rshift_copy s out val x R c (length R) Hne Hv ltac:(specialize (W0 Eo); lia) eq_refl). apply Hfin.
    + rewrite <-(take_drop c (digits x)) in Dx. apply digits_ok_app in Dx. apply Dx.
    + rewrite length_drop. specialize (W0 Eo). lia.
    + rewrite (eval_drop _ _ Dx), Ex, Hn2, Eo, Z.mul_1_r. done.
  - replace (Z.to_nat (Z.of_nat (length R) - 1)) with (length R - 1)%nat by lia.
    destruct (rshift_loop s out val x R c o (drop c (digits x)) (length R - 1) (
      if Z.of_nat (length R) + Z.of_nat c <? Z.of_nat (length (digits x)) then
        d ← rd_digit val (Z.of_nat (length R) + Z.of_nat c);
        e ← rd_digit out (Z.of_nat (length R) - 1);
        wr_digit out (Z.of_nat (length R) - 1) (Z.lor e (Z.land (u32 (Z.shiftl d (31 - o))) DIGIT_MAX))
      else mret tt) Hne Hv eq_refl Dx ltac:(lia) ltac:(rewrite length_drop; lia) ltac:(lia)) as (ds & e & E & Hl & Hd & He & Hev).
    rewrite E. clear E. rewrite drop_ge by lia. replace (S (length R - 1)) with (length R) in Hev by lia.
    destruct (rshift_last s out val x ds e c o (length R) Hne Hv Dx ltac:(lia) ltac:(lia) Hl Hd He Hev) as (ds' & E & Dd & Ld & Vd).
    { lia. }
    { rewrite <-Hn2, Ex. apply Z.div_lt_upper_bound; [apply Z.pow_pos_nonneg; lia|]. eapply Z.lt_le_trans; [exact Hb2|].
      rewrite <-Z.pow_mul_r, <-Z.pow_add_r by lia. apply Z.pow_le_mono_r; [lia|]. rewrite LR, Nat2Z.inj_succ, Z2Nat.id by (apply Z.div_pos; lia).
      pose proof (Z.div_mod m 31 ltac:(done)). pose proof (Z.mod_pos_bound m 31 ltac:(done)). unfold m in *. lia. }
    rewrite E. apply Hfin; [done|done|]. by rewrite Vd, Ex, Hn2.
Qed.

Lemma krk_long_rshift_z_eq s out val x z u n : s !! out = Some z → s !! val = Some x → repr x u → val ≠ out → 0 ≤ n →
  ∃ r, krk_long_rshift_z out val n s = Done (tt, <[out := r]> s) ∧
    repr r (if n =? 0 then u else if u <? 0 then - (Z.abs u / 2 ^ n) - 1 else u / 2 ^ n).
Proof.
  intros Hz Hv Hx Hne Hn. unfold krk_long_rshift_z. destruct (Z.eqb_spec n 0) as [->|Hn0].
  { rewrite (clear_copy s out val z x _ Hz Hv Hne (repr_sized _ _ Hx)). by eexists. }
  st_step (bits_in_eq s val x u Hv Hx). st_step (clear_eq s out z Hz). rewrite bits_zero by lia.
  destruct (Z.eqb_spec (Z.abs u) 0) as [E|E].
  { assert (u = 0) as -> by lia. eexists. split; [done|]. rewrite Z.div_0_l by (apply Z.pow_nonzero; lia). apply repr_0. }
  destruct (rshift_core_eq s out val x u n Hne Hv Hx ltac:(lia) ltac:(lia)) as (q & Eq & Rq). unfold rshift_core, rshift_body in Eq. st_step Eq. clear Eq.
  st_step (sign_eq (<[out := q]> s) val x u ltac:(by rewrite lookup_insert_ne) Hx).
  assert ((Z.sgn u <? 0) = (u <? 0)) as -> by (by destruct u). assert (Hq : 0 ≤ Z.abs u / 2 ^ n) by (apply Z.div_pos; [lia|apply Z.pow_pos_nonneg; lia]).
  destruct (Z.ltb_spec u 0) as [Hu|Hu]; [|eexists; split; [done|]; by rewrite Z.abs_eq in Rq].
  set (s1 := <[out := q]> s). pose proof (fresh_local s1) as Ht. set (t := fresh (dom s1)) in *. assert (Hto : t ≠ out) by (intros E'; rewrite E' in Ht; unfold s1 in Ht; by rewrite lookup_insert_eq in Ht).
  destruct (init_si_eq (<[t := Long 0 []]> s1) t (Long 0 []) 1 (lookup_insert_eq _ _ _) ltac:(lia)) as (one & E1 & H1).
  destruct (krk_long_add_eq (<[t := one]> s1) out out t q q one (Z.abs u / 2 ^ n) 1 ltac:(unfold s1; store_lookup) ltac:(by eapply repr_sized) ltac:(unfold s1; store_lookup)
    ltac:(store_lookup) Rq H1) as (r & E2 & H2).
  exists (Long (abs_width r * -1) (digits r)). split; [|by eapply repr_of; [apply repr_neg; [exact H2|lia]|lia]].
  apply (with_local_run _ s1 tt _ (Long 0 [])); [|fold t s1; rewrite lookup_insert_ne by done; rewrite <-Ht; unfold s1; by rewrite lookup_insert_ne]. fold t. st_step E1. rewrite insert_insert_eq. st_step E2.
  st_step (set_sign_over (<[t := one]> s1) out r (-1)).
  st_step (clear_eq (<[out := Long (abs_width r * -1) (digits r)]> (<[t := one]> s1)) t one ltac:(store_lookup)). unfold mret, St_ret. do 2 f_equal. unfold s1. clearbody t. store_eq.
Qed.

(** ** The theorems *)

Definition bit_operator (op : bit_op) : Z → Z → Z → St store Z :=
  match op with Op_or => krk_long_or | Op_xor => krk_long_xor | Op_and => krk_long_and end.

(** C26: The bitwise operators of Kuroko's long integers, which keep a sign and a magnitude, are those
    of two's complement numbers without bound, negative operands included, with results
    in normal form, whichever of the result and the operands are the same structure. *)
Theorem krk_long_bitwise_correct op s res a b z x y u v :
  s !! res = Some z → sized z → s !! a = Some x → s !! b = Some y → repr x u → repr y v →
  ∃ r, bit_operator op res a b s = Done (0, <[res := r]> s) ∧
    repr r (match op with Op_or => Z.lor u v | Op_xor => Z.lxor u v | Op_and => Z.land u v end).
Proof. intros. destruct op; [by eapply krk_long_or_eq|by eapply krk_long_xor_eq|by eapply krk_long_and_eq]. Qed.

Lemma krk_long_bitwise_correct_witness :
  (∃ r, krk_long_xor 2 1 2 demo_longs = Done (0, <[2 := r]> demo_longs) ∧ repr r (-2147483651)) ∧
  (∃ r, krk_long_and 2 1 2 demo_longs = Done (0, <[2 := r]> demo_longs) ∧ repr r 2147483648).
Proof.
  split; [apply (krk_long_bitwise_correct Op_xor demo_longs 2 1 2 (Long (-1) [7]) (Long 2 [4; 1]) (Long (-1) [7]) (2 ^ 31 + 4) (-7))
         |apply (krk_long_bitwise_correct Op_and demo_longs 2 1 2 (Long (-1) [7]) (Long 2 [4; 1]) (Long (-1) [7]) (2 ^ 31 + 4) (-7))];
    first [reflexivity|apply demo_repr].
Defined.

(** A number of one digit as a word. *)
Lemma medium_small s a x v : s !! a = Some x → repr x v → - BASE < v < BASE → krk_long_medium a s = Done (v, s).
Proof.
  intros Ha Hx Hv. unfold krk_long_medium. st_step (rd_long_eq _ _ _ Ha). rewrite (repr_width_0 _ _ Hx), (repr_width_neg _ _ Hx).
  destruct (Z.eqb_spec v 0) as [->|Hv0]; [done|]. destruct (repr_digits _ _ Hx) as (D & N & E). pose proof (repr_abs_width _ _ Hx) as Hw.
  assert (Hd : ∃ d, digits x = [d]).
  { assert (Hne : digits x ≠ []) by (intros E'; rewrite E' in E; simpl in E; lia). pose proof (eval_normal BASE BASE_gt _ D N Hne) as B.
    destruct (digits x) as [|d [|e l]]; [done|by eexists|]. exfalso. assert (BASE ^ 1 ≤ BASE ^ (Z.of_nat (length (d :: e :: l)) - 1)) by (apply Z.pow_le_mono_r; simpl; lia). lia. }
  destruct Hd as [d Hd]. rewrite Hd in *. simpl in E, Hw. rewrite Z.add_0_r in E. subst d. 
  unfold abs_width in Hw. pose proof (repr_width_neg _ _ Hx) as Hneg.
  assert (Hi : ∀ w, - 2 ^ 63 ≤ w < 2 ^ 63 → i64 (u64 w) = w).
  { intros w Hw'. unfold i64, u64. rewrite Zplus_mod_idemp_l. rewrite Z.mod_small by lia. lia. }
  assert (Hd0 : lift (digit x 0) s = Done (Z.abs v, s)) by (pose proof (digit_eq x 0 (Z.abs v) ltac:(by rewrite Hd)) as E0; change (Z.of_nat 0) with 0 in E0; unfold lift; by rewrite E0).
  rewrite Hneg in Hw. destruct (Z.ltb_spec v 0) as [Hlt|Hge].
  - assert (width x = -1) as -> by lia. st_step Hd0. change (Done (i64 (u64 (- Z.abs v)), s) = Done (v, s)). rewrite Hi by lia. do 2 f_equal. lia.
  - assert (width x = 1) as -> by lia. st_step Hd0. change (Done (i64 (Z.abs v), s) = Done (v, s)). rewrite i64_small by lia. do 2 f_equal. lia.
Qed.

Lemma krk_long_lshift_eq s out val shift x y z u n : s !! out = Some z → s !! val = Some x → s !! shift = Some y → repr x u → repr y n → val ≠ out → n < BASE →
  if n <? 0 then krk_long_lshift out val shift s = Done (ValueError, s)
  else ∃ r, krk_long_lshift out val shift s = Done (Ok, <[out := r]> s) ∧ repr r (u * 2 ^ n).
Proof.
  intros Hz Hv Hs Hx Hy Hne Hn. unfold krk_long_lshift. rewrite (St_bind_done _ _ _ _ _ (sign_eq _ _ _ _ Hs Hy)).
  assert ((Z.sgn n <? 0) = (n <? 0)) as -> by (by destruct n). destruct (Z.ltb_spec n 0); [done|].
  st_step (medium_small s shift y n Hs Hy ltac:(lia)). rewrite u64_small by lia.
  destruct (krk_long_lshift_z_eq s out val x z u n Hz Hv Hx Hne ltac:(done)) as (r & E & Hr). st_step E. by exists r.
Qed.

Lemma krk_long_rshift_eq s out val shift x y z u n : s !! out = Some z → s !! val = Some x → s !! shift = Some y → repr x u → repr y n → val ≠ out → n < BASE →
  if n <? 0 then krk_long_rshift out val shift s = Done (ValueError, s)
  else ∃ r, krk_long_rshift out val shift s = Done (Ok, <[out := r]> s) ∧ repr r (if n =? 0 then u else if u <? 0 then - (Z.abs u / 2 ^ n) - 1 else u / 2 ^ n).
Proof.
  intros Hz Hv Hs Hx Hy Hne Hn. unfold krk_long_rshift. rewrite (St_bind_done _ _ _ _ _ (sign_eq _ _ _ _ Hs Hy)).
  assert ((Z.sgn n <? 0) = (n <? 0)) as -> by (by destruct n). destruct (Z.ltb_spec n 0); [done|].
  st_step (medium_small s shift y n Hs Hy ltac:(lia)). rewrite u64_small by lia.
  destruct (krk_long_rshift_z_eq s out val x z u n Hz Hv Hx Hne ltac:(done)) as (r & E & Hr). st_step E. by exists r.
Qed.

(** The quotient that a right shift leaves is the one rounded down, but for the negative multiples. *)
Lemma rshift_floor u n : 0 < n → (if u <? 0 then - (Z.abs u / 2 ^ n) - 1 else u / 2 ^ n) =
  u / 2 ^ n - (if (u <? 0) && (u mod 2 ^ n =? 0) then 1 else 0).
Proof.
  intros Hn. assert (0 < 2 ^ n) by (apply Z.pow_pos_nonneg; lia). destruct (Z.ltb_spec u 0) as [Hu|Hu]; simpl; [|lia].
  rewrite Z.abs_neq by lia. destruct (Z.eqb_spec (u mod 2 ^ n) 0) as [E|E].
  - rewrite Z.div_opp_l_z by (done || lia). lia.
  - rewrite Z.div_opp_l_nz by (done || lia). lia.
Qed.

(** The number that a right shift leaves. *)
Definition rshifted (u n : Z) : Z := u / 2 ^ n - (if (0 <? n) && (u <? 0) && (u mod 2 ^ n =? 0) then 1 else 0).

(** C38: The shift operators of Kuroko's long integers, for a result that is not the operand and amounts of one
    digit: a left shift multiplies by the power of two, a right shift divides by it and
    rounds down, except that with an amount that is not 0 a negative multiple of the power
    comes out one too low; a negative amount is a ValueError that changes nothing. *)
Theorem krk_long_shift_correct s out val shift x y z u n :
  s !! out = Some z → s !! val = Some x → s !! shift = Some y → repr x u → repr y n → val ≠ out → n < BASE →
  let e := if n <? 0 then Some ValueError else None in
  operator_leaves out s e (u * 2 ^ n) (krk_long_lshift out val shift s) ∧ operator_leaves out s e (rshifted u n) (krk_long_rshift out val shift s).
Proof.
  intros Hz Hv Hs Hx Hy Hne Hn. pose proof (krk_long_lshift_eq s out val shift x y z u n Hz Hv Hs Hx Hy Hne Hn) as L.
  pose proof (krk_long_rshift_eq s out val shift x y z u n Hz Hv Hs Hx Hy Hne Hn) as R. destruct (Z.ltb_spec n 0); [done|]. split; [done|].
  destruct R as (r & E & Hr). exists r. split; [done|]. eapply repr_of; [exact Hr|]. unfold rshifted. destruct (Z.eqb_spec n 0) as [->|].
  - rewrite Z.pow_0_r, Z.div_1_r. simpl. lia.
  - rewrite (proj2 (Z.ltb_lt 0 n)) by lia. apply rshift_floor. lia.
Qed.

Definition demo_shift : store := <[3 := Long 0 []]> (<[2 := Long 1 [33]]> (<[1 := Long (-2) [4; 1]]> ∅)).

Lemma krk_long_shift_correct_witness :
  operator_leaves 3 demo_shift None (- 2 ^ 64 - 2 ^ 35) (krk_long_lshift 3 1 2 demo_shift) ∧
  operator_leaves 3 demo_shift None (-1) (krk_long_rshift 3 1 2 demo_shift).
Proof.
  apply (krk_long_shift_correct demo_shift 3 1 2 (Long (-2) [4; 1]) (Long 1 [33]) (Long 0 []) (- 2 ^ 31 - 4) 33); try reflexivity; try done.
  all: split_and!; [done| |done|done]; repeat constructor; done.
Defined.

(** ** What the shifts do not do *)

(** [-4 >> 1] is -3. *)
Example rshift_exact : krk_long_rshift_z 2 1 1 (<[1 := Long (-1) [4]]> (<[2 := Long 0 []]> ∅)) =
  Done (tt, <[2 := Long (-1) [3]]> (<[1 := Long (-1) [4]]> (<[2 := Long 0 []]> ∅))).
Proof. by vm_compute. Qed.

(** A shift whose result is its operand shifts the cleared number: [5 << 3] is 32, and [5 << 0] is 0. *)
Example lshift_in_place : fst <$> krk_long_lshift_z 1 1 3 (<[1 := Long 1 [5]]> ∅) = Done tt ∧
  snd <$> krk_long_lshift_z 1 1 3 (<[1 := Long 1 [5]]> ∅) = Done (<[1 := Long 1 [32]]> ∅) ∧
  snd <$> krk_long_lshift_z 1 1 0 (<[1 := Long 1 [5]]> ∅) = Done (<[1 := Long 0 []]> ∅).
Proof. by vm_compute. Qed.

(** Of a second digit [krk_long_medium] keeps the lowest bit. *)
Example medium_two_digits : fst <$> krk_long_medium 1 (<[1 := Long 2 [7; 2]]> ∅) = Done 7.
Proof. by vm_compute. Qed.
