(* ===== verification/KrkText.v ===== *)
(** * Text of Kuroko's long integers ([src/kuroko/src/obj_long.c])

    [krk_long_to_str] writes a number in a base of up to sixteen, into a buffer whose size it
    estimates from the number of bits: a character written behind the end of the buffer
    is a [Fault].  [krk_long_parse_string] reads a number in a base of up to 36, with
    underscores between its digits.  Characters are bytes, and a string is the list of its
    bytes. *)
From S2P Require Import Prelude KrkDigits KrkLong KrkArith KrkDivide.
Local Open Scope Z_scope.

(** ** Writing *)

Definition krk_long_digits_in_base (num base : Z) : St store Z :=
  x ← rd num;
  if width x =? 0 then mret 1
  else
    bits ← bits_in num;
    mret (if base <? 4 then bits
          else if base <? 8 then (bits + 1) / 2
          else if base <? 16 then (bits + 2) / 3
          else if base =? 16 then (bits + 3) / 4
          else 0).

(** Division in place by a base. *)
Definition div_inplace (a base : Z) : St store Z :=
  x ← rd a;
  if width x =? 0 then mret 0
  else if (width x <? 0) || (base =? 0) then fault
  else
    let awidth := width x in
    remainder ← for_loop (Z.to_nat awidth) 0 (λ i remainder,
      let i := awidth - i - 1 in
      d ← rd_digit a i;
      let remainder := Z.lor (u64 (Z.shiftl remainder DIGIT_SHIFT)) d in
      wr_digit a i (Z.land (u32 (remainder / base)) DIGIT_MAX);;
      q ← rd_digit a i;
      mret (u64 (remainder - u64 (q * base)))) 0;
    krk_long_trim a;;
    mret (u32 remainder).

(** [_vals], with its terminator. *)
Definition vals : list Z := str "0123456789abcdef" ++ [0].

(** [*writer++ = c] in a buffer of [len] characters that holds [w]. *)
Definition write (len : Z) (w : list Z) (c : Z) : outcome (list Z) :=
  if Z.of_nat (length w) <? len then Done (w ++ [c]) else Fault.

Fixpoint write_all (len : Z) (w cs : list Z) : outcome (list Z) :=
  match cs with [] => Done w | c :: cs => w ← write len w c; write_all len w cs end.

(** Digits of [bits] bits of a number.  Every round writes a character, so that the size of the
    buffer bounds the rounds. *)
Definition fast_conversion (len : Z) (abs : KrkLong) (bits : Z) : outcome (list Z) :=
  buf ← digit abs 0;
  loopO (S (S (Z.to_nat len))) (λ '(buf, cnt, ind, w),
    if (ind <? width abs) || negb (buf =? 0) then
      '(buf, ind, cnt) ← (if (ind <? width abs) && (cnt <? bits) then
        d ← digit abs ind;
        Done (Z.lor buf (u64 (Z.shiftl d cnt)), ind + 1, cnt + DIGIT_SHIFT)
      else Done (buf, ind, cnt));
      let out := Z.land buf (Z.shiftl 1 bits - 1) in
      c ← of_option (vals !! Z.to_nat out);
      w ← write len w c;
      Done (inl (Z.shiftr buf bits, u32 (cnt - bits), ind, w))
    else Done (inr w)) (buf, DIGIT_SHIFT, 1, []).

(** Digits in any base, by division. *)
Definition slow_conversion (len abs base : Z) : St store (list Z) :=
  loopM (S (S (Z.to_nat len))) (λ w,
    sign ← krk_long_sign abs;
    if 0 <? sign then
      rem ← div_inplace abs base;
      c ← lift (of_option (vals !! Z.to_nat rem));
      w ← lift (write len w c);
      mret (inl w)
    else mret (inr w)) [].

(** [krk_hash_advance] ([src/kuroko/src/private.h]); [c] is a character as a byte of ASCII. *)
Definition krk_hash_advance (hash c : Z) : Z :=
  u32 (c + u32 (Z.shiftl hash 6) + u32 (Z.shiftl hash 16) - hash).

(** The characters in reverse, and their hash. *)
Fixpoint reverse_copy (w : list Z) (out : list Z) (hash : Z) : list Z * Z :=
  match w with
  | [] => (out, hash)
  | c :: w => let '(out, hash) := reverse_copy w out hash in (out ++ [c], krk_hash_advance hash c)
  end.

(** The text, what [strlen] counts of it, and its hash. *)
Definition krk_long_to_str (n base : Z) (prefix : list Z) : St store (list Z * Z * Z) :=
  with_local (λ abs,
    krk_long_init_si abs 0;;
    krk_long_abs abs n;;
    sign ← krk_long_sign n;
    d ← krk_long_digits_in_base abs base;
    let len := (if sign =? -1 then 1 else 0) + d + Z.of_nat (length prefix) + 1 in
    w ← (if sign =? 0 then lift (write len [] 48)
         else if base =? 2 then x ← rd abs; lift (fast_conversion len x 1)
         else if base =? 4 then x ← rd abs; lift (fast_conversion len x 2)
         else if base =? 8 then x ← rd abs; lift (fast_conversion len x 3)
         else if base =? 16 then x ← rd abs; lift (fast_conversion len x 4)
         else slow_conversion len abs base);
    w ← lift (write_all len w prefix);
    w ← (if sign <? 0 then lift (write len w 45) else mret w);
    let '(rev, hash) := reverse_copy w [] 0 in
    lift (write len rev 0);;
    krk_long_clear abs;;
    mret (rev, Z.of_nat (length (take_while (λ c, negb (c =? 0)) rev)), hash)).

(** ** Reading *)

(** [_convert_table] *)
Definition convert_digit (c : Z) : Z :=
  if (48 <=? c) && (c <=? 57) then c - 48
  else if (65 <=? c) && (c <=? 90) then c - 55
  else if (97 <=? c) && (c <=? 122) then c - 87
  else 255.
Definition is_valid (base c : Z) : bool := convert_digit c <? base.
Definition is_whitespace (c : Z) : bool := (c =? 32) || (c =? 9) || (c =? 10) || (c =? 13).

(** [str[c]] *)
Definition at_ (text : list Z) (c : Z) : outcome Z := if c <? 0 then Fault else of_option (text !! Z.to_nat c).

(** What stands in front of the digits: a code of failure, the number zero, or digits of a base. *)
Inductive scanned : Type := Refused (code : Z) | Zero | Number (sign base c : Z).

(** The base of a literal without one: its prefix. *)
Definition scan_prefix (text : list Z) (sign c e : Z) : outcome scanned :=
  ch ← at_ text c;
  if ch =? 48 then
    let c := c + 1 in
    if c =? e then Done Zero
    else
      ch ← at_ text c;
      if (ch =? 120) || (ch =? 88) then Done (Number sign 16 (c + 1))
      else if (ch =? 111) || (ch =? 79) then Done (Number sign 8 (c + 1))
      else if (ch =? 98) || (ch =? 66) then Done (Number sign 2 (c + 1))
      else Done (Refused 2)
  else Done (Number sign 10 c).

Definition scan (text : list Z) (base c e : Z) : outcome scanned :=
  if e <=? c then Done (Refused 1)
  else
    ch ← at_ text c;
    let '(sign, c) := if ch =? 45 then (-1, c + 1) else if ch =? 43 then (1, c + 1) else (1, c) in
    if e <=? c then Done (Refused 1)
    else
      r ← (if base =? 0 then scan_prefix text sign c e else Done (Number sign base c));
      match r with
      | Number sign base c =>
          if e <=? c then Done (Refused 1)
          else if (base =? 1) || (36 <? base) then Done (Refused 2)
          else Done r
      | _ => Done r
      end.

(** [while (x != c && x[-1] == '_') x--] *)
Definition skip_back (text : list Z) (c x : Z) : outcome Z :=
  loopO (S (Z.to_nat (x - c))) (λ x,
    if x =? c then Done (inr x)
    else ch ← at_ text (x - 1); Done (if ch =? 95 then inl (x - 1) else inr x)) x.

(** The digits from [x] on that are not underscores, [None] when one is not valid. *)
Definition count_valid (text : list Z) (base c e : Z) : outcome (option Z) :=
  loopO (S (Z.to_nat (e - c))) (λ '(x, digits),
    if x <? e then
      ch ← at_ text x;
      Done (if ch =? 95 then inl (x + 1, digits)
            else if negb (is_valid base ch) then inr None
            else inl (x + 1, digits + 1))
    else Done (inr (Some digits))) (c, 0).

(** Fills [buf] with the digits below [x]. *)
Definition fill (text : list Z) (bits c cnt buf x : Z) : outcome (Z * Z * Z) :=
  loopO (S (Z.to_nat (x - c))) (λ '(cnt, buf, x),
    if (cnt <? DIGIT_SHIFT) && (c <? x) then
      ch ← at_ text (x - 1);
      x ← skip_back text c (x - 1);
      Done (inl (u32 (cnt + bits), Z.lor buf (u64 (Z.shiftl (convert_digit ch) cnt)), x))
    else Done (inr (cnt, buf, x))) (cnt, buf, x).

Definition bits_of_base (base : Z) : Z :=
  if base =? 2 then 1 else if base =? 4 then 2 else if base =? 8 then 3 else if base =? 16 then 4 else if base =? 32 then 5 else 0.

(** Bases that are powers of two: from the last digit to the first one. *)
Definition parse_bits (text : list Z) (num base c e : Z) : St store Z :=
  let bits := bits_of_base base in
  digits ← lift (count_valid text base c e);
  match digits with
  | None => krk_long_clear num;; mret 1
  | Some digits =>
      if digits =? 0 then krk_long_clear num;; mret 1
      else
        let digit_offset := (digits * bits - 1) / DIGIT_SHIFT in
        krk_long_resize num (digit_offset + 1);;
        x ← lift (skip_back text c e);
        loopM (S (S (Z.to_nat (digit_offset + 1)))) (λ '(cnt, buf, x, i),
          if negb (x =? c) || negb (buf =? 0) then
            '(cnt, buf, x) ← lift (fill text bits c cnt buf x);
            wr_digit num i (Z.land buf DIGIT_MAX);;
            mret (inl (u32 (cnt - DIGIT_SHIFT), Z.shiftr buf DIGIT_SHIFT, x, i + 1))
          else mret (inr tt)) (0, 0, x, 0);;
        krk_long_trim num;;
        mret 0
  end.

(** The next digits, as many as a word takes; [None] when one is not valid. *)
Definition chunk (text : list Z) (base c e : Z) : outcome (option (Z * Z * Z)) :=
  loopO (S (Z.to_nat (e - c))) (λ '(accum, basediv, c),
    if c <? e then
      ch ← at_ text c;
      if negb (ch =? 0) && (u64 (basediv * base) <? 0x10000000000000) then
        Done (if ch =? 95 then inl (accum, basediv, c + 1)
              else if negb (is_valid base ch) then inr None
              else inl (u64 (u64 (accum * base) + convert_digit ch), u64 (basediv * base), c + 1))
      else Done (inr (Some (accum, basediv, c)))
    else Done (inr (Some (accum, basediv, c)))) (0, 1, c).

(** Other bases: the value so far times a power of the base, plus the next digits. *)
Definition parse_chunks (text : list Z) (num base c e : Z) : St store Z :=
  with_local (λ base_, with_local (λ scratch,
    krk_long_init_si base_ 0;;
    krk_long_init_si scratch 0;;
    r ← loopM (S (Z.to_nat (e - c))) (λ c,
      ch ← (if c <? e then lift (at_ text c) else mret 0);
      if (c <? e) && negb (ch =? 0) then
        r ← lift (chunk text base c e);
        match r with
        | None => krk_long_clear_many [base_; scratch; num];; mret (inr 1)
        | Some (accum, basediv, c) =>
            krk_long_init_ui base_ basediv;;
            krk_long_mul num num base_;;
            krk_long_clear_many [scratch; base_];;
            krk_long_init_ui scratch accum;;
            krk_long_add num num scratch;;
            mret (inl c)
        end
      else krk_long_clear_many [base_; scratch];; mret (inr 0)) c;
    mret r)).

Definition krk_long_parse_string (text : list Z) (num base len : Z) : St store Z :=
  c ← lift (loopO (S (Z.to_nat len)) (λ c,
    if c <? len then ch ← at_ text c; Done (if is_whitespace ch then inl (c + 1) else inr c) else Done (inr c)) 0);
  e ← lift (loopO (S (Z.to_nat len)) (λ e,
    if c <? e then ch ← at_ text (e - 1); Done (if is_whitespace ch then inl (e - 1) else inr e) else Done (inr e)) len);
  r ← lift (scan text base c e);
  match r with
  | Refused code => mret code
  | Zero => krk_long_init_si num 0;; mret 0
  | Number sign base c =>
      krk_long_init_si num 0;;
      code ← (if (base =? 2) || (base =? 4) || (base =? 8) || (base =? 16) || (base =? 32)
              then parse_bits text num base c e else parse_chunks text num base c e);
      if negb (code =? 0) then mret code
      else
        (if sign =? -1 then krk_long_set_sign num (-1) else mret 0);;
        mret 0
  end.
