(* ===== verification/KrkWrite.v ===== *)
(** * Text of Kuroko's long integers: what is written

    The text of a number in a base is that of its digits ([number_text]), and its size is at
    most what [krk_long_to_str] allocates. *)
From S2P Require Import Prelude KrkDigits KrkLong KrkArith KrkDivide KrkText.
Local Open Scope Z_scope.

(** ** Digits in a base *)

Definition base_digits (b v : Z) : list Z := trimmed (numeral b (Z.to_nat (bits v)) v).

Lemma base_digits_ok b v : 1 < b → KrkDigits.digits_ok b (base_digits b v).
Proof. intros Hb. apply digits_ok_trimmed, digits_ok_numeral; lia. Qed.

Lemma base_digits_normal b v : normal (base_digits b v).
Proof. apply normal_trimmed. Qed.

Lemma eval_base_digits b v : 1 < b → 0 ≤ v → KrkDigits.eval b (base_digits b v) = v.
Proof.
  intros Hb Hv. unfold base_digits. rewrite eval_trimmed, eval_numeral by lia. apply Z.mod_small. split; [done|].
  pose proof (bits_pow2 v Hv). pose proof (bits_nonneg v). rewrite Z2Nat.id by done.
  assert (2 ^ bits v ≤ b ^ bits v) by (apply Z.pow_le_mono_l; lia). lia.
Qed.

Lemma base_digits_unique b v ds : 1 < b → KrkDigits.digits_ok b ds → normal ds → KrkDigits.eval b ds = v → ds = base_digits b v.
Proof.
  intros Hb D N E. assert (0 ≤ v) by (subst v; apply eval_nonneg; [lia|done]). apply (normal_inj b); auto.
  - by apply base_digits_ok.
  - apply base_digits_normal.
  - by rewrite eval_base_digits.
Qed.

(** The number of digits is at most what [krk_long_digits_in_base] computes. *)
Lemma base_digits_length b j v : 0 < j → 2 ^ j ≤ b → 0 < v → Z.of_nat (length (base_digits b v)) ≤ (bits v + (j - 1)) / j.
Proof.
  intros Hj Hb Hv. assert (H2 : 2 ^ 1 ≤ 2 ^ j) by (apply Z.pow_le_mono_r; lia). apply Z.div_le_lower_bound; [done|]. set (n := length (base_digits b v)).
  assert (Hne : base_digits b v ≠ []) by (intros E; pose proof (eval_base_digits b v ltac:(lia) ltac:(lia)) as E'; rewrite E in E'; simpl in E'; lia).
  assert (0 < n)%nat by (unfold n; destruct (base_digits b v); [done|simpl; lia]).
  pose proof (eval_normal b ltac:(lia) _ (base_digits_ok b v ltac:(lia)) (base_digits_normal b v) Hne) as B. rewrite eval_base_digits in B by lia. fold n in B.
  assert (2 ^ (j * (Z.of_nat n - 1)) ≤ b ^ (Z.of_nat n - 1)) by (rewrite Z.pow_mul_r by lia; apply Z.pow_le_mono_l; lia).
  pose proof (bits_pow2 v ltac:(lia)). assert (j * (Z.of_nat n - 1) < bits v); [|lia].
  apply (Z.pow_lt_mono_r_iff 2); [lia|apply bits_nonneg|lia].
Qed.

(** A number that has digits left has more than [n] of them. *)
Lemma base_digits_longer b v n r : 1 < b → 0 ≤ r → 0 < v → b ^ Z.of_nat n ≤ v → (n < length (base_digits b v))%nat.
Proof.
  intros Hb _ Hv Hn. destruct (decide (n < length (base_digits b v))%nat) as [|H]; [done|].
  pose proof (eval_bound b ltac:(lia) _ (base_digits_ok b v Hb)) as B. rewrite eval_base_digits in B by lia.
  assert (b ^ Z.of_nat (length (base_digits b v)) ≤ b ^ Z.of_nat n) by (apply Z.pow_le_mono_r; lia). lia.
Qed.

(** ** Characters *)

Definition digit_char (d : Z) : Z := if d <? 10 then 48 + d else 87 + d.

Lemma vals_lookup d : 0 ≤ d < 16 → vals !! Z.to_nat d = Some (digit_char d).
Proof.
  intros Hd. rewrite <-(Z2Nat.id d) at 2 by lia. assert (Hn : (Z.to_nat d < 16)%nat) by lia. revert Hn. generalize (Z.to_nat d). intros n Hn.
  do 16 (destruct n as [|n]; [done|]). lia.
Qed.

Lemma write_ok len w c : Z.of_nat (length w) < len → write len w c = Done (w ++ [c]).
Proof. intros H. unfold write. by rewrite (proj2 (Z.ltb_lt _ _)). Qed.

Lemma write_all_ok len cs w : Z.of_nat (length w + length cs) ≤ len → write_all len w cs = Done (w ++ cs).
Proof.
  revert w. induction cs as [|c cs IH]; intros w H; simpl in *; [by rewrite app_nil_r|].
  rewrite write_ok by lia. osimpl. rewrite IH by (rewrite length_app; simpl; lia). by rewrite <-app_assoc.
Qed.

(** ** Digits of a power of two *)

(** The invariant of [fast_conversion]: the number is that of the digits written, and of what
    is left in the buffer and in the digits behind [ind]. *)
Definition converting (A : list Z) (b v buf cnt : Z) (ind : nat) (ws : list Z) : Prop :=
  (1 ≤ ind ≤ length A)%nat ∧ KrkDigits.digits_ok (2 ^ b) ws ∧ 0 ≤ buf < 2 ^ 64 ∧
  ((ind < length A)%nat → 0 ≤ cnt ≤ 34 ∧ buf < 2 ^ cnt) ∧
  v = KrkDigits.eval (2 ^ b) ws + (2 ^ b) ^ Z.of_nat (length ws) * (buf + 2 ^ cnt * eval (drop ind A)) ∧
  (ind = length A → buf = 0 → normal ws).

(** The buffer with more digits in it, when it has too few bits. *)
Lemma convert_load A b v buf cnt ind ws : digits_ok A → 1 ≤ b ≤ 4 → converting A b v buf cnt ind ws →
  ∃ buf' cnt' ind', (if (Z.of_nat ind <? Z.of_nat (length A)) && (cnt <? b) then
        d ← digit (pos A) (Z.of_nat ind);
        Done (Z.lor buf (u64 (Z.shiftl d cnt)), Z.of_nat ind + 1, cnt + DIGIT_SHIFT)
      else Done (buf, Z.of_nat ind, cnt)) = Done (buf', Z.of_nat ind', cnt') ∧
    (1 ≤ ind' ≤ length A)%nat ∧ 0 ≤ buf' < 2 ^ 64 ∧ ((ind' < length A)%nat → b ≤ cnt' ≤ 34 ∧ buf' < 2 ^ cnt') ∧
    buf + 2 ^ cnt * eval (drop ind A) = buf' + 2 ^ cnt' * eval (drop ind' A).
Proof.
  intros DA Hb (Hi & _ & Hbuf & Hc & _ & _). destruct (Z.ltb_spec (Z.of_nat ind) (Z.of_nat (length A))) as [Hlt|Hge]; simpl andb.
  2: { exists buf, cnt, ind. split_and!; try done; lia. }
  destruct (Hc ltac:(lia)) as [Hcnt Hbc]. destruct (Z.ltb_spec cnt b) as [Hcb|Hcb]; [|exists buf, cnt, ind; split_and!; try done; lia].
  destruct (lookup_lt_is_Some_2 A ind ltac:(lia)) as [d Hd]. pose proof (digits_ok_lookup _ _ _ _ DA Hd) as Hdr. rewrite (digit_eq (pos A) ind d Hd). osimpl.
  assert (2 ^ cnt ≤ 2 ^ 4) by (apply Z.pow_le_mono_r; lia). assert (0 < 2 ^ cnt) by (apply Z.pow_pos_nonneg; lia).
  rewrite Z.shiftl_mul_pow2, u64_small, Z.lor_comm, lor_shift by nia.
  assert (E31 : 2 ^ (cnt + 31) = 2 ^ cnt * BASE) by (apply Z.pow_add_r; lia).
  exists (d * 2 ^ cnt + buf), (cnt + DIGIT_SHIFT), (S ind). unfold DIGIT_SHIFT. rewrite E31. split_and!; try lia; try nia.
  - do 3 f_equal. lia.
  - rewrite (drop_S _ _ _ Hd), eval_cons. ring.
Qed.

Lemma convert_step A b v buf cnt ind ws : digits_ok A → normal A → 1 ≤ b ≤ 4 → converting A b v buf cnt ind ws →
  (ind < length A)%nat ∨ buf ≠ 0 →
  (2 ^ b) ^ Z.of_nat (length ws) ≤ v ∧
  ∃ buf' cnt' ind', (if (Z.of_nat ind <? Z.of_nat (length A)) && (cnt <? b) then
        d ← digit (pos A) (Z.of_nat ind);
        Done (Z.lor buf (u64 (Z.shiftl d cnt)), Z.of_nat ind + 1, cnt + DIGIT_SHIFT)
      else Done (buf, Z.of_nat ind, cnt)) = Done (buf', Z.of_nat ind', cnt') ∧
    0 ≤ buf' `mod` 2 ^ b < 2 ^ b ∧ converting A b v (buf' / 2 ^ b) (u32 (cnt' - b)) ind' (ws ++ [buf' `mod` 2 ^ b]).
Proof.
  intros DA NA Hb Hinv Hmore. destruct (convert_load A b v buf cnt ind ws DA Hb Hinv) as (buf' & cnt' & ind' & E & Hi' & Hbuf' & Hc' & Hrest).
  destruct Hinv as (Hi & Dw & Hbuf & Hc & Hv & _). set (P := (2 ^ b) ^ Z.of_nat (length ws)) in *.
  assert (HP : 0 < P) by (unfold P; repeat apply Z.pow_pos_nonneg; lia). assert (H2 : 0 < 2 ^ b) by (apply Z.pow_pos_nonneg; lia).
  assert (Htail : ∀ k, 0 ≤ eval (drop k A)) by (intros k; apply eval_nonneg; [done|]; by apply Forall_drop).
  assert (Htop : (ind < length A)%nat → 0 < eval (drop ind A)).
  { intros Hlt. apply (eval_normal_pos BASE); [done|by apply Forall_drop| |].
    - unfold normal. rewrite last_lookup, lookup_drop, length_drop. replace (ind + pred (length A - ind))%nat with (pred (length A)) by lia. by rewrite <-last_lookup.
    - intros E0. apply (f_equal length) in E0. rewrite length_drop in E0. simpl in E0. lia. }
  assert (Hpos : 1 ≤ buf + 2 ^ cnt * eval (drop ind A)).
  { destruct Hmore as [Hlt|Hne].
    - destruct (Hc Hlt) as [? _]. specialize (Htop Hlt). assert (0 < 2 ^ cnt) by (apply Z.pow_pos_nonneg; lia). nia.
    - assert (0 ≤ 2 ^ cnt) by (apply Z.pow_nonneg; lia). specialize (Htail ind). nia. }
  pose proof (eval_nonneg (2 ^ b) ltac:(assert (2 ^ 1 ≤ 2 ^ b) by (apply Z.pow_le_mono_r; lia); lia) ws Dw) as Hws. split; [nia|].
  exists buf', cnt', ind'. split; [done|]. pose proof (Z.mod_pos_bound buf' (2 ^ b) H2) as Hm. split; [done|].
  pose proof (Z.div_mod buf' (2 ^ b) ltac:(lia)) as Hdm. assert (Hq : 0 ≤ buf' / 2 ^ b ≤ buf') by (split; [apply Z.div_pos; lia|apply Z.div_le_upper_bound; nia]).
  split_and!; try lia.
  - apply digits_ok_app. split; [done|]. by constructor.
  - intros Hlt. destruct (Hc' Hlt) as [Hcr Hb']. unfold u32. rewrite Z.mod_small by lia. split; [lia|].
    apply Z.div_lt_upper_bound; [done|]. rewrite <-Z.pow_add_r by lia. by replace (b + (cnt' - b)) with cnt' by lia.
  - rewrite Hv, Hrest, eval_snoc, length_app. simpl length. fold P.
    rewrite Nat2Z.inj_add, Z.pow_add_r by lia. fold P. change (Z.of_nat 1) with 1. rewrite Z.pow_1_r.
    destruct (decide (ind' = length A)) as [->|Hne].
    + rewrite drop_all. simpl. nia.
    + destruct (Hc' ltac:(lia)) as [Hcr _]. unfold u32. rewrite (Z.mod_small (cnt' - b)) by lia.
      assert (E2 : 2 ^ cnt' = 2 ^ b * 2 ^ (cnt' - b)) by (rewrite <-Z.pow_add_r by lia; f_equal; lia). rewrite E2. 
      transitivity (KrkDigits.eval (2 ^ b) ws + P * (2 ^ b * (buf' / 2 ^ b) + buf' mod 2 ^ b + 2 ^ b * 2 ^ (cnt' - b) * eval (drop ind' A))); [by rewrite <-Hdm|ring].
  - intros -> H0. unfold normal. rewrite last_snoc. rewrite drop_all in Hrest. simpl in Hrest. intros [= Em]. rewrite H0, Em in Hdm. lia.
Qed.

(** The rounds that are left write the rest of the digits. *)
Lemma fast_loop len A b v : digits_ok A → normal A → 1 ≤ b ≤ 4 → 0 < v → Z.of_nat (length (base_digits (2 ^ b) v)) ≤ len →
  ∀ fuel buf cnt ind ws, converting A b v buf cnt ind ws → (length ws ≤ length (base_digits (2 ^ b) v) < fuel + length ws)%nat →
  loopO fuel (λ '(buf, cnt, ind, w),
    if (ind <? width (pos A)) || negb (buf =? 0) then
      '(buf, ind, cnt) ← (if (ind <? width (pos A)) && (cnt <? b) then
        d ← digit (pos A) ind;
        Done (Z.lor buf (u64 (Z.shiftl d cnt)), ind + 1, cnt + DIGIT_SHIFT)
      else Done (buf, ind, cnt));
      let out := Z.land buf (Z.shiftl 1 b - 1) in
      c ← of_option (vals !! Z.to_nat out);
      w ← write len w c;
      Done (inl (Z.shiftr buf b, u32 (cnt - b), ind, w))
    else Done (inr w)) (buf, cnt, Z.of_nat ind, digit_char <$> ws) = Done (digit_char <$> base_digits (2 ^ b) v).
Proof.
  intros DA NA Hb Hv Hlen. assert (Hb2 : 1 < 2 ^ b) by (assert (2 ^ 1 ≤ 2 ^ b) by (apply Z.pow_le_mono_r; lia); lia).
  set (k := length (base_digits (2 ^ b) v)) in *. induction fuel as [|fuel IH]; intros buf cnt ind ws Hinv Hf.
  - lia.
  - destruct (decide ((ind < length A)%nat ∨ buf ≠ 0)) as [Hmore|Hend].
    + destruct (convert_step A b v buf cnt ind ws DA NA Hb Hinv Hmore) as (Hle & buf' & cnt' & ind' & E & Hm & Hinv').
      assert (Hk : (length ws < k)%nat) by (by apply (base_digits_longer _ v _ 0)).
      rewrite (loopO_step _ _ _ (buf' / 2 ^ b, u32 (cnt' - b), Z.of_nat ind', digit_char <$> (ws ++ [buf' `mod` 2 ^ b]))).
      * apply IH; [done|]. rewrite length_app. simpl. lia.
      * cbn [width pos]. assert ((Z.of_nat ind <? Z.of_nat (length A)) || negb (buf =? 0) = true) as ->.
        { apply orb_true_iff. rewrite negb_true_iff, Z.ltb_lt, Z.eqb_neq. destruct Hmore; [left; lia|by right]. }
        rewrite E. osimpl. replace (Z.shiftl 1 b - 1) with (Z.ones b) by (rewrite Z.ones_equiv, Z.shiftl_mul_pow2; lia). rewrite Z.land_ones by lia.
        assert (2 ^ b ≤ 2 ^ 4) by (apply Z.pow_le_mono_r; lia). rewrite vals_lookup by lia. cbn [of_option]. osimpl.
        rewrite write_ok by (rewrite length_fmap; lia). osimpl. rewrite fmap_app, Z.shiftr_div_pow2 by lia. done.
    + destruct Hinv as (Hi & Dw & Hbuf & _ & Ev & Hn). assert (ind = length A ∧ buf = 0) as [-> ->] by lia. rewrite drop_all in Ev. simpl in Ev.
      erewrite loopO_exit; [|cbn [width pos]; by rewrite Z.ltb_irrefl]. do 2 f_equal. apply base_digits_unique; auto. rewrite Ev. lia.
Qed.

Lemma fast_conversion_eq len A b : digits_ok A → normal A → A ≠ [] → 1 ≤ b ≤ 4 → Z.of_nat (length (base_digits (2 ^ b) (eval A))) ≤ len →
  fast_conversion len (pos A) b = Done (digit_char <$> base_digits (2 ^ b) (eval A)).
Proof.
  intros DA NA Hne Hb Hlen. pose proof (eval_normal_pos BASE BASE_gt A DA NA Hne) as Hv. unfold fast_conversion.
  destruct A as [|d A]; [done|]. assert (Hd : 0 ≤ d < BASE) by (by inversion DA).
  rewrite (digit_eq (pos (d :: A)) 0 d eq_refl : digit (pos (d :: A)) 0 = Done d). osimpl.
  apply (fast_loop len (d :: A) b (eval (d :: A)) DA NA Hb Hv Hlen _ d DIGIT_SHIFT 1 []); [|cbn [length]; lia].
  unfold converting, DIGIT_SHIFT. split_and!; try (simpl; lia).
  - constructor.
  - simpl drop. simpl length. rewrite Z.pow_0_r. simpl. rewrite drop_0. lia.
  - intros E E0. destruct A; [|done]. simpl in Hv. lia.
Qed.

(** ** Digits of any base *)

Lemma div_inplace_eq s a x v b : s !! a = Some x → repr x v → 0 ≤ v → 0 < b < BASE →
  ∃ r, div_inplace a b s = Done (v mod b, <[a := r]> s) ∧ repr r (v / b).
Proof.
  intros Ha Hx Hv Hb. unfold div_inplace. st_step (rd_long_eq _ _ _ Ha). rewrite (repr_width_0 _ _ Hx), (repr_width_neg _ _ Hx).
  destruct (Z.eqb_spec v 0) as [->|Hv0]; [exists x; split; [by rewrite insert_id|done]|].
  rewrite (proj2 (Z.ltb_ge v 0)), (proj2 (Z.eqb_neq b 0)) by lia. cbn [orb]. cbv iota zeta.
  destruct (repr_pos_inv x v Hx Hv) as (D & -> & DD & ND & VD). cbn [width pos]. rewrite Nat2Z.id.
  destruct (div_digit_loop s a (mret b : St store Z) D b (length D) (λ Q, eq_refl) DD Hb eq_refl) as (Q & E & DQ & VQ).
  rewrite (insert_id s a (pos D)) in E by done. change (div_digit_body a (mret b : St store Z) (Z.of_nat (length D))) with
    (λ i remainder : Z, d ← rd_digit a (Z.of_nat (length D) - i - 1);
      wr_digit a (Z.of_nat (length D) - i - 1) (Z.land (u32 (Z.lor (u64 (Z.shiftl remainder DIGIT_SHIFT)) d / b)) DIGIT_MAX);;
      q ← rd_digit a (Z.of_nat (length D) - i - 1);
      mret (u64 (Z.lor (u64 (Z.shiftl remainder DIGIT_SHIFT)) d - u64 (q * b))) : St store Z) in E.
  st_step E. st_step (trim_over s a Q). exists (pos (trimmed Q)). rewrite VD in *. pose proof (Z.mod_pos_bound v b ltac:(lia)). split.
  - rewrite u32_small by lia. done.
  - apply repr_pos_v; [by apply digits_ok_trimmed|apply normal_trimmed|by rewrite eval_trimmed].
Qed.


Lemma slow_loop len a b v : 2 ≤ b ≤ 16 → 0 < v → Z.of_nat (length (base_digits b v)) ≤ len →
  ∀ fuel w ws X s, s !! a = Some X → repr X w → 0 ≤ w → KrkDigits.digits_ok b ws →
  v = KrkDigits.eval b ws + b ^ Z.of_nat (length ws) * w → (w = 0 → normal ws) →
  (length ws ≤ length (base_digits b v) < fuel + length ws)%nat →
  loopM fuel (λ w,
    sign ← krk_long_sign a;
    if 0 <? sign then
      rem ← div_inplace a b;
      c ← lift (of_option (vals !! Z.to_nat rem));
      w ← lift (write len w c);
      mret (inl w)
    else mret (inr w)) (digit_char <$> ws) s = Done (digit_char <$> base_digits b v, <[a := Long 0 []]> s).
Proof.
  intros Hb Hv Hlen fuel. induction fuel as [|fuel IH]; intros w ws X s Ha HX Hw Dw Ev Hn Hf; [lia|].
  assert (H0 : 0 < b ^ Z.of_nat (length ws)) by (apply Z.pow_pos_nonneg; lia). pose proof (eval_nonneg b ltac:(lia) ws Dw) as Hws.
  assert (Hsg : (0 <? Z.sgn w) = (0 <? w)) by (by destruct w). destruct (Z.ltb_spec 0 w) as [Hlt|Hge].
  - assert (Hk : (length ws < length (base_digits b v))%nat) by (apply (base_digits_longer _ v _ 0); nia).
    destruct (div_inplace_eq s a X w b Ha HX Hw ltac:(lia)) as (r & E & Hr). pose proof (Z.mod_pos_bound w b ltac:(lia)) as Hm.
    rewrite (loopM_step _ _ _ s (digit_char <$> (ws ++ [w mod b])) (<[a := r]> s)).
    + rewrite (IH (w / b) (ws ++ [w mod b]) r (<[a := r]> s)); [by rewrite insert_insert_eq|apply lookup_insert_eq|done|apply Z.div_pos; lia| | | |].
      * apply digits_ok_app. split; [done|]. by constructor.
      * rewrite eval_snoc, length_app, Nat2Z.inj_add, Z.pow_add_r by lia. simpl length. change (Z.of_nat 1) with 1. rewrite Z.pow_1_r, Ev. pose proof (Z.div_mod w b ltac:(lia)). nia.
      * intros E0. unfold normal. rewrite last_snoc. intros [= Em]. pose proof (Z.div_mod w b ltac:(lia)). lia.
      * rewrite length_app. simpl. lia.
    + st_step (sign_eq s a X w Ha HX). rewrite Hsg. st_step E. rewrite vals_lookup by lia.
      unfold mbind, St_bind, lift, of_option. rewrite write_ok by (rewrite length_fmap; lia). by rewrite fmap_app.
  - assert (w = 0) as -> by lia. rewrite (loopM_exit _ _ _ s (digit_char <$> ws) s).
    + do 2 f_equal; [f_equal; apply base_digits_unique; [lia|done|auto|lia]|]. rewrite insert_id; [done|]. rewrite Ha. f_equal. apply (repr_inj _ _ 0); [done|apply repr_0].
    + st_step (sign_eq s a X 0 Ha HX). done.
Qed.

Lemma slow_conversion_eq len a b v X s : 2 ≤ b ≤ 16 → s !! a = Some X → repr X v → 0 < v → Z.of_nat (length (base_digits b v)) ≤ len →
  slow_conversion len a b s = Done (digit_char <$> base_digits b v, <[a := Long 0 []]> s).
Proof.
  intros Hb Ha HX Hv Hlen. apply (slow_loop len a b v Hb Hv Hlen _ v [] X s); auto; try (cbn [length]; lia); try constructor.
  - simpl length. rewrite Z.pow_0_r. simpl. lia.
Qed.

(** ** The text of a number *)

Definition number_text (base : Z) (prefix : list Z) (v : Z) : list Z :=
  (if v <? 0 then [45] else []) ++ rev prefix ++ (if v =? 0 then [48] else rev (digit_char <$> base_digits base (Z.abs v))).

Lemma reverse_copy_eq w : reverse_copy w [] 0 = (rev w, foldl krk_hash_advance 0 (rev w)).
Proof. induction w as [|c w IH]; simpl; [done|]. rewrite IH. by rewrite foldl_app. Qed.

Lemma krk_long_abs_eq s out a z x u : s !! out = Some z → sized z → s !! a = Some x → repr x u →
  ∃ r, krk_long_abs out a s = Done (0, <[out := r]> s) ∧ repr r (Z.abs u).
Proof.
  intros Hz Hs Ha Hx. unfold krk_long_abs.
  apply (with_output_eq out [a] _ s z (λ r, repr r (Z.abs u)) 0 Hz Hs).
  { intros c Hc. set_unfold in Hc. destruct Hc as [->|[]]. eauto. }
  intros t s' z' Ht Hz' Hs' Hag. assert (Hat : a ≠ t) by (intros <-; apply Ht; set_solver). rewrite <-(Hag a) in Ha by set_solver.
  st_step (clear_eq _ _ _ Hz'). st_step (init_copy_over s' t a x (Long 0 []) Ha Hat (repr_sized _ _ Hx)). st_step (set_sign_over s' t x 1).
  eexists. split; [done|]. destruct (repr_digits _ _ Hx) as (D & N & E). rewrite (repr_abs_width _ _ Hx), Z.mul_1_r. by apply repr_pos_v.
Qed.

(** The estimate of the size of the text. *)
Definition size_in_base (b base : Z) : Z :=
  if base <? 4 then b else if base <? 8 then (b + 1) / 2 else if base <? 16 then (b + 2) / 3 else if base =? 16 then (b + 3) / 4 else 0.

Lemma digits_in_base_eq s a x v base : s !! a = Some x → repr x v → 0 < v →
  krk_long_digits_in_base a base s = Done (size_in_base (bits v) base, s).
Proof.
  intros Ha Hx Hv. unfold krk_long_digits_in_base. st_step (rd_long_eq _ _ _ Ha). rewrite (repr_width_0 _ _ Hx), (proj2 (Z.eqb_neq v 0)) by lia.
  st_step (bits_in_eq s a x v Ha Hx). by rewrite Z.abs_eq by lia.
Qed.

Lemma size_enough base v : 2 ≤ base ≤ 16 → 0 < v → Z.of_nat (length (base_digits base v)) ≤ size_in_base (bits v) base.
Proof.
  intros Hb Hv. unfold size_in_base. destruct (Z.ltb_spec base 4); [|destruct (Z.ltb_spec base 8); [|destruct (Z.ltb_spec base 16); [|destruct (Z.eqb_spec base 16); [|lia]]]].
  - pose proof (base_digits_length base 1 v ltac:(lia) ltac:(lia) Hv) as B. by rewrite Z.add_0_r, Z.div_1_r in B.
  - by apply (base_digits_length base 2 v); lia.
  - by apply (base_digits_length base 3 v); lia.
  - by apply (base_digits_length base 4 v); lia.
Qed.

(** The conversion by any of its ways. *)
Lemma convert_any_eq len a base X v s : 2 ≤ base ≤ 16 → s !! a = Some X → repr X v → 0 < v → Z.of_nat (length (base_digits base v)) ≤ len →
  ∃ X', (if base =? 2 then x ← rd a; lift (fast_conversion len x 1)
         else if base =? 4 then x ← rd a; lift (fast_conversion len x 2)
         else if base =? 8 then x ← rd a; lift (fast_conversion len x 3)
         else if base =? 16 then x ← rd a; lift (fast_conversion len x 4)
         else slow_conversion len a base) s = Done (digit_char <$> base_digits base v, <[a := X']> s).
Proof.
  intros Hb Ha HX Hv Hlen. destruct (repr_pos_inv X v HX ltac:(lia)) as (A & -> & DA & NA & VA).
  assert (Hfast : ∀ b, 1 ≤ b ≤ 4 → base = 2 ^ b → ∃ X', (x ← rd a; lift (fast_conversion len x b)) s = Done (digit_char <$> base_digits base v, <[a := X']> s)).
  { intros b Hb' ->. exists (pos A). st_step (rd_long_eq _ _ _ Ha). unfold lift. rewrite fast_conversion_eq; try done; [by rewrite VA, insert_id| |by rewrite VA].
    intros ->. simpl in VA. lia. }
  destruct (Z.eqb_spec base 2); [by apply (Hfast 1)|]. destruct (Z.eqb_spec base 4); [by apply (Hfast 2)|]. destruct (Z.eqb_spec base 8); [by apply (Hfast 3)|].
  destruct (Z.eqb_spec base 16); [by apply (Hfast 4)|]. eexists. by eapply slow_conversion_eq.
Qed.

Lemma digit_char_range d : 0 ≤ d < 16 → 48 ≤ digit_char d ≤ 102.
Proof. intros Hd. unfold digit_char. destruct (Z.ltb_spec d 10); lia. Qed.

Lemma number_text_nonzero base prefix v : 2 ≤ base ≤ 16 → Forall (.≠ 0) prefix → Forall (.≠ 0) (number_text base prefix v).
Proof.
  intros Hb Hp. unfold number_text. repeat (apply Forall_app; split).
  - by destruct (v <? 0); repeat constructor.
  - by apply Forall_rev.
  - destruct (v =? 0); [by repeat constructor|]. apply Forall_rev, Forall_fmap. eapply Forall_impl; [apply (base_digits_ok base (Z.abs v)); lia|].
    intros d Hd. simpl in *. pose proof (digit_char_range d ltac:(lia)). lia.
Qed.

(** The end of the conversion: prefix, sign, and the characters in reverse. *)
Lemma finish_text len t prefix v w (s : store) X : s !! t = Some X → Z.of_nat (length w) + Z.of_nat (length prefix) + (if v <? 0 then 1 else 0) < len →
  Forall (.≠ 0) (rev w) → Forall (.≠ 0) prefix →
  let text := (if v <? 0 then [45] else []) ++ rev prefix ++ rev w in
  (w ← lift (write_all len w prefix);
   w ← (if Z.sgn v <? 0 then lift (write len w 45) else mret w);
   let '(rev, hash) := reverse_copy w [] 0 in
   lift (write len rev 0);;
   krk_long_clear t;;
   mret (rev, Z.of_nat (length (take_while (λ c, negb (c =? 0)) rev)), hash)) s =
  Done ((text, Z.of_nat (length text), foldl krk_hash_advance 0 text), <[t := Long 0 []]> s).
Proof.
  intros Ht Hlen Hw Hp text. assert (Hsg : (Z.sgn v <? 0) = (v <? 0)) by (by destruct v). rewrite Hsg.
  unfold mbind at 1, St_bind at 1, lift at 1. rewrite write_all_ok by (destruct (v <? 0); lia). cbv iota beta.
  assert (E : ∀ (m : list Z → St store (list Z * Z * Z)), (w0 ← (if v <? 0 then lift (write len (w ++ prefix) 45) else mret (w ++ prefix)); m w0) s = m (rev text) s).
  { intros m. unfold text. rewrite !rev_app_distr, !rev_involutive. revert Hlen. destruct (v <? 0); intros Hlen; simpl rev.
    - unfold mbind, St_bind, lift. rewrite write_ok by (rewrite length_app; lia). by rewrite <-app_assoc.
    - by rewrite app_nil_r. }
  rewrite E, reverse_copy_eq, rev_involutive. clear E.
  assert (Ht' : Forall (.≠ 0) text).
  { unfold text. repeat (apply Forall_app; split); [by destruct (v <? 0); repeat constructor|by apply Forall_rev|done]. }
  assert (Hl : Z.of_nat (length text) < len).
  { unfold text. rewrite !length_app, !length_rev. revert Hlen. destruct (v <? 0); simpl; lia. }
  unfold mbind at 1, St_bind at 1, lift at 1. rewrite write_ok by done. st_step (clear_eq _ _ _ Ht).
  rewrite take_while_true; [done|]. eapply Forall_impl; [exact Ht'|]. intros c Hc. by apply negb_true_iff, Z.eqb_neq.
Qed.

Lemma krk_long_to_str_eq s n x v base prefix : s !! n = Some x → repr x v → 2 ≤ base ≤ 16 → Forall (.≠ 0) prefix →
  let text := number_text base prefix v in
  krk_long_to_str n base prefix s = Done ((text, Z.of_nat (length text), foldl krk_hash_advance 0 text), s).
Proof.
  intros Hn Hx Hb Hp text. pose proof (fresh_local s) as Ht. unfold krk_long_to_str. apply (with_local_run _ s _ s (Long 0 [])); [|done].
  set (t := fresh (dom s)) in *. assert (Htn : t ≠ n) by (intros E; rewrite E in Ht; congruence). clearbody t.
  st_step (init_0_over s t (Long 0 [])).
  destruct (krk_long_abs_eq (<[t := Long 0 []]> s) t n (Long 0 []) x v ltac:(store_lookup) ltac:(done) ltac:(store_lookup) Hx) as (X & E & HX). st_step E. clear E.
  rewrite insert_insert_eq. st_step (sign_eq (<[t := X]> s) n x v ltac:(store_lookup) Hx).
  assert (Hm1 : (Z.sgn v =? -1) = (v <? 0)) by (by destruct v). assert (Hm0 : (Z.sgn v =? 0) = (v =? 0)) by (by destruct v). rewrite Hm1, Hm0.
  destruct (Z.eqb_spec v 0) as [->|Hv].
  - assert (X = Long 0 []) as -> by (apply (repr_inj _ _ 0); [done|apply repr_0]).
    rewrite (St_bind_done (krk_long_digits_in_base t base) _ _ 1 (<[t := Long 0 []]> s)).
    2: { unfold krk_long_digits_in_base. by st_step (rd_over s t (Long 0 [])). }
    cbv zeta. change (0 <? 0) with false. cbv iota. set (len := 0 + 1 + Z.of_nat (length prefix) + 1).
    unfold mbind at 1, St_bind at 1, lift at 1. rewrite write_ok by (unfold len; simpl; lia). cbv iota beta. simpl app.
    rewrite (finish_text len t prefix 0 [48] (<[t := Long 0 []]> s) (Long 0 [])); [by rewrite insert_insert_eq|apply lookup_insert_eq|unfold len; simpl; lia|by repeat constructor|done].
  - st_step (digits_in_base_eq (<[t := X]> s) t X (Z.abs v) base ltac:(store_lookup) HX ltac:(lia)). cbv zeta.
    pose proof (size_enough base (Z.abs v) Hb ltac:(lia)) as Hsz. set (len := (if v <? 0 then 1 else 0) + size_in_base (bits (Z.abs v)) base + Z.of_nat (length prefix) + 1).
    destruct (convert_any_eq len t base X (Z.abs v) (<[t := X]> s) Hb ltac:(store_lookup) HX ltac:(lia)) as (X' & E).
    { unfold len. destruct (v <? 0); lia. }
    st_step E. rewrite insert_insert_eq. rewrite (finish_text len t prefix v _ (<[t := X']> s) X'); [|apply lookup_insert_eq| | |done].
    + rewrite insert_insert_eq. unfold text, number_text. by rewrite (proj2 (Z.eqb_neq v 0)).
    + rewrite length_fmap. unfold len. destruct (v <? 0); lia.
    + pose proof (number_text_nonzero base [] v Hb ltac:(constructor)) as Hnz. unfold number_text in Hnz. rewrite (proj2 (Z.eqb_neq v 0)) in Hnz by done.
      apply Forall_app in Hnz as [_ Hnz]. done.
Qed.
