(* ===== verification/KrkRead.v ===== *)
(** * Text of Kuroko's long integers: what is read

    [read_number] says what a text means: white space around it, a sign, a prefix of the base
    and digits with underscores.  [krk_long_parse_string] computes it, with the bits of
    the digits where the base is a power of two and by sums and products elsewhere. *)
From S2P Require Import Prelude KrkDigits KrkLong KrkArith KrkDivide KrkText KrkWrite.
Local Open Scope Z_scope.

(** ** The digits of a text *)

(** The characters of a text that are digits, and their value. *)
Definition digit_chars (cs : list Z) : list Z := filter (.≠ 95) cs.
Definition digits_value (b : Z) (cs : list Z) : Z := KrkDigits.eval b (rev (convert_digit <$> digit_chars cs)).
Notation count cs := (length (digit_chars cs)).
Definition valid_text (b : Z) (cs : list Z) : Prop := Forall (λ c, c = 95 ∨ convert_digit c < b) cs.

Lemma digit_chars_app k l : digit_chars (k ++ l) = digit_chars k ++ digit_chars l.
Proof. apply filter_app. Qed.

Lemma digit_chars_us cs : digit_chars (95 :: cs) = digit_chars cs.
Proof. unfold digit_chars. rewrite filter_cons_False; [done|]. auto. Qed.

Lemma digit_chars_cons c cs : c ≠ 95 → digit_chars (c :: cs) = c :: digit_chars cs.
Proof. intros H. unfold digit_chars. by rewrite filter_cons_True. Qed.

Lemma digits_value_app b k l : digits_value b (k ++ l) = digits_value b k * b ^ Z.of_nat (count l) + digits_value b l.
Proof.
  unfold digits_value. rewrite digit_chars_app, fmap_app, rev_app_distr, eval_app, length_rev, length_fmap. lia.
Qed.

Lemma digits_value_one b c : c ≠ 95 → digits_value b [c] = convert_digit c.
Proof. intros H. unfold digits_value. rewrite digit_chars_cons by done. simpl. lia. Qed.

Lemma convert_digit_nonneg c : 0 ≤ convert_digit c.
Proof. unfold convert_digit. bool_cases; simpl; lia. Qed.

Lemma digits_value_range b cs : 1 < b → valid_text b cs → 0 ≤ digits_value b cs < b ^ Z.of_nat (count cs).
Proof.
  intros Hb Hv. unfold digits_value. rewrite <-(length_fmap convert_digit (digit_chars cs)), <-length_rev. apply eval_bound; [done|].
  apply Forall_rev, Forall_fmap, Forall_forall. intros c [Hne Hin]%list_elem_of_filter. unfold valid_text in Hv. rewrite Forall_forall in Hv.
  destruct (Hv c Hin) as [->|Hc]; [done|]. simpl. pose proof (convert_digit_nonneg c). lia.
Qed.

(** ** Places in a text *)

Lemma at_app pre c post : at_ (pre ++ c :: post) (Z.of_nat (length pre)) = Done c.
Proof. unfold at_. rewrite (proj2 (Z.ltb_ge _ 0)), Nat2Z.id, list_lookup_middle by (done || lia). done. Qed.

Lemma at_before pre c post x : x = Z.of_nat (length pre) + 1 → at_ (pre ++ c :: post) (x - 1) = Done c.
Proof. intros ->. rewrite Z.add_simpl_r. apply at_app. Qed.

Lemma skip_front_loop pre cs post : ∀ fuel, (length cs < fuel)%nat →
  loopO fuel (λ c, if c <? Z.of_nat (length pre + length cs) then ch ← at_ (pre ++ cs ++ post) c; Done (if is_whitespace ch then inl (c + 1) else inr c) else Done (inr c))
    (Z.of_nat (length pre)) = Done (Z.of_nat (length pre + length (take_while is_whitespace cs))).
Proof.
  revert pre. induction cs as [|c cs IH]; intros pre fuel Hf; destruct fuel as [|fuel]; simpl in Hf; try lia.
  - simpl take_while. simpl length. rewrite Nat.add_0_r. apply loopO_exit. by rewrite Z.ltb_irrefl.
  - assert (E : pre ++ (c :: cs) ++ post = (pre ++ [c]) ++ cs ++ post) by (by rewrite <-app_assoc).
    assert (El : (length pre + length (c :: cs) = length (pre ++ [c]) + length cs)%nat) by (rewrite length_app; simpl; lia).
    assert (Hlt : (Z.of_nat (length pre) <? Z.of_nat (length pre + length (c :: cs))) = true) by (apply Z.ltb_lt; simpl; lia).
    simpl take_while. destruct (is_whitespace c) eqn:Ew.
    + rewrite (loopO_step _ _ _ (Z.of_nat (length (pre ++ [c])))).
      * rewrite E, El, IH by lia. f_equal. rewrite length_app. simpl. lia.
      * rewrite Hlt. simpl app. rewrite at_app. osimpl. rewrite Ew. do 2 f_equal. rewrite length_app. simpl. lia.
    + rewrite Nat.add_0_r. apply loopO_exit. rewrite Hlt. simpl app. rewrite at_app. osimpl. by rewrite Ew.
Qed.

(** [cs] without the characters [p] at its end. *)
Definition drop_back (p : Z → bool) (cs : list Z) : list Z := rev (drop_while p (rev cs)).

Lemma drop_back_snoc p cs c : drop_back p (cs ++ [c]) = if p c then drop_back p cs else cs ++ [c].
Proof.
  unfold drop_back. rewrite rev_app_distr. simpl. destruct (p c); [done|]. simpl. by rewrite rev_involutive.
Qed.

Lemma drop_back_prefix p cs : ∃ k, cs = drop_back p cs ++ k ∧ Forall (λ c, p c = true) k.
Proof.
  unfold drop_back. exists (rev (take_while p (rev cs))). rewrite <-rev_app_distr, take_drop_while, rev_involutive. split; [done|].
  apply Forall_rev, take_while_all.
Qed.

Lemma skip_back_loop (p : Z → bool) pre cs post : ∀ fuel, (length cs < fuel)%nat →
  loopO fuel (λ e, if Z.of_nat (length pre) <? e then ch ← at_ (pre ++ cs ++ post) (e - 1); Done (if p ch then inl (e - 1) else inr e) else Done (inr e))
    (Z.of_nat (length pre + length cs)) = Done (Z.of_nat (length pre + length (drop_back p cs))).
Proof.
  revert post. induction cs as [|c cs IH] using rev_ind; intros post fuel Hf; destruct fuel as [|fuel]; rewrite ?length_app in Hf; simpl in Hf; try lia.
  - rewrite Nat.add_0_r. simpl. rewrite Nat.add_0_r. by rewrite Z.ltb_irrefl.
  - assert (E : pre ++ (cs ++ [c]) ++ post = pre ++ cs ++ c :: post) by (by rewrite <-app_assoc).
    assert (E2 : pre ++ cs ++ c :: post = (pre ++ cs) ++ c :: post) by (by rewrite app_assoc).
    assert (Hlt : (Z.of_nat (length pre) <? Z.of_nat (length pre + length (cs ++ [c]))) = true) by (apply Z.ltb_lt; rewrite length_app; simpl; lia).
    rewrite drop_back_snoc. destruct (p c) eqn:Ep.
    + rewrite (loopO_step _ _ _ (Z.of_nat (length pre + length cs))).
      * rewrite E. apply IH. lia.
      * rewrite Hlt, E, E2, at_before by (rewrite !length_app; simpl; lia). osimpl. rewrite Ep. do 2 f_equal. rewrite length_app. simpl. lia.
    + apply loopO_exit. rewrite Hlt, E, E2, at_before by (rewrite !length_app; simpl; lia). osimpl. by rewrite Ep.
Qed.

(** [skip_back] passes the underscores at the end. *)
Lemma skip_back_eq pre cs post : skip_back (pre ++ cs ++ post) (Z.of_nat (length pre)) (Z.of_nat (length pre + length cs)) =
  Done (Z.of_nat (length pre + length (drop_back (λ c, c =? 95) cs))).
Proof.
  rewrite <-(skip_back_loop (λ c, c =? 95) pre cs post (S (length cs))) by lia. unfold skip_back.
  replace (Z.to_nat (Z.of_nat (length pre + length cs) - Z.of_nat (length pre))) with (length cs) by lia.
  assert (Hge : (length pre ≤ length pre + length cs)%nat) by lia. revert Hge. generalize (length pre + length cs)%nat. intros n.
  generalize (S (length cs)). intros fuel. revert n. induction fuel as [|fuel IH]; intros n Hn; [done|]. simpl.
  destruct (Z.eqb_spec (Z.of_nat n) (Z.of_nat (length pre))) as [->|Hne]; [by rewrite Z.ltb_irrefl|].
  rewrite (proj2 (Z.ltb_lt _ _)) by lia. osimpl. destruct (at_ _ _) as [ch| |]; osimpl; try done. destruct (ch =? 95); [|done].
  replace (Z.of_nat n - 1) with (Z.of_nat (n - 1)) by lia. apply IH. lia.
Qed.

(** ** Bases that are powers of two *)

#[local] Instance valid_dec b : ∀ c, Decision (c = 95 ∨ convert_digit c < b).
Proof. intros c. apply _. Defined.

Lemma count_valid_loop base pre cs post : ∀ fuel n, (length cs < fuel)%nat →
  loopO fuel (λ '(x, digits),
    if x <? Z.of_nat (length pre + length cs) then
      ch ← at_ (pre ++ cs ++ post) x;
      Done (if ch =? 95 then inl (x + 1, digits)
            else if negb (is_valid base ch) then inr None
            else inl (x + 1, digits + 1))
    else Done (inr (Some digits))) (Z.of_nat (length pre), n) =
  Done (if decide (valid_text base cs) then Some (n + Z.of_nat (count cs)) else None).
Proof.
  revert pre. induction cs as [|c cs IH]; intros pre fuel n Hf; destruct fuel as [|fuel]; simpl in Hf; try lia.
  - rewrite decide_True by constructor. simpl length. rewrite Nat.add_0_r. apply loopO_exit. rewrite Z.ltb_irrefl. by rewrite Z.add_0_r.
  - assert (E : pre ++ (c :: cs) ++ post = (pre ++ [c]) ++ cs ++ post) by (by rewrite <-app_assoc).
    assert (El : (length pre + length (c :: cs) = length (pre ++ [c]) + length cs)%nat) by (rewrite length_app; simpl; lia).
    assert (Hlt : (Z.of_nat (length pre) <? Z.of_nat (length pre + length (c :: cs))) = true) by (apply Z.ltb_lt; simpl; lia).
    assert (Hx : Z.of_nat (length pre) + 1 = Z.of_nat (length (pre ++ [c]))) by (rewrite length_app; simpl; lia).
    destruct (Z.eqb_spec c 95) as [->|Hc].
    + rewrite (loopO_step _ _ _ (Z.of_nat (length (pre ++ [95])), n)).
      * rewrite E, El, IH by lia. f_equal. rewrite digit_chars_us. apply decide_ext. unfold valid_text. rewrite Forall_cons. intuition.
      * rewrite Hlt. simpl app. rewrite at_app. osimpl. by rewrite Hx.
    + destruct (is_valid base c) eqn:Ev.
      * rewrite (loopO_step _ _ _ (Z.of_nat (length (pre ++ [c])), n + 1)).
        -- rewrite E, El, IH by lia. f_equal. rewrite digit_chars_cons by done. unfold is_valid in Ev. apply Z.ltb_lt in Ev.
           rewrite (decide_ext (valid_text base (c :: cs)) (valid_text base cs)) by (unfold valid_text; rewrite Forall_cons; intuition).
           destruct (decide _); [|done]. f_equal. simpl. lia.
        -- rewrite Hlt. simpl app. rewrite at_app. osimpl. rewrite (proj2 (Z.eqb_neq c 95)), Ev, Hx by done. done.
      * rewrite decide_False by (unfold valid_text; rewrite Forall_cons; unfold is_valid in Ev; apply Z.ltb_ge in Ev; lia || intuition lia).
        apply loopO_exit. rewrite Hlt. simpl app. rewrite at_app. osimpl. by rewrite (proj2 (Z.eqb_neq c 95)), Ev by done.
Qed.

Lemma valid_text_app b k l : valid_text b (k ++ l) ↔ valid_text b k ∧ valid_text b l.
Proof. apply Forall_app. Qed.

(** What is left behind the underscores. *)
Lemma drop_us b cs : ∃ k, cs = drop_back (λ c, c =? 95) cs ++ k ∧ count (drop_back (λ c, c =? 95) cs) = count cs ∧
  digits_value b (drop_back (λ c, c =? 95) cs) = digits_value b cs ∧ last (drop_back (λ c, c =? 95) cs) ≠ Some 95.
Proof.
  induction cs as [|c cs IH] using rev_ind; [by exists []|]. rewrite drop_back_snoc. destruct (Z.eqb_spec c 95) as [->|Hc].
  - destruct IH as (k & E & Hn & Hv & Hl). exists (k ++ [95]). rewrite app_assoc, <-E. rewrite digits_value_app, digit_chars_app, length_app, Hn, Hv.
    rewrite !(digit_chars_us []). change (digit_chars []) with (@nil Z). change (digits_value b [95]) with 0. cbn [length].
    rewrite Z.pow_0_r. split_and!; auto; lia.
  - exists []. rewrite app_nil_r. split_and!; [done..|]. rewrite last_snoc. congruence.
Qed.

(** Bits of the digits below [x]: the value of the buffer and of what is left stays. *)
Definition filled (bits cnt buf : Z) (cs : list Z) (cnt' buf' : Z) (cs' : list Z) : Prop :=
  buf + 2 ^ cnt * digits_value (2 ^ bits) cs = buf' + 2 ^ cnt' * digits_value (2 ^ bits) cs' ∧
  cnt + bits * Z.of_nat (count cs) = cnt' + bits * Z.of_nat (count cs') ∧ 0 ≤ buf' < 2 ^ cnt' ∧ cnt ≤ cnt' ≤ 35 ∧
  last cs' ≠ Some 95 ∧ (cs' = [] ∨ 31 ≤ cnt') ∧ ∃ k, cs = cs' ++ k.

Lemma fill_loop bits pre : 1 ≤ bits ≤ 5 → ∀ fuel cs post cnt buf, (length cs < fuel)%nat → valid_text (2 ^ bits) cs → last cs ≠ Some 95 →
  0 ≤ cnt ≤ 35 → 0 ≤ buf < 2 ^ cnt → ∃ cnt' buf' cs',
  loopO fuel (λ '(cnt, buf, x),
    if (cnt <? DIGIT_SHIFT) && (Z.of_nat (length pre) <? x) then
      ch ← at_ (pre ++ cs ++ post) (x - 1);
      x ← skip_back (pre ++ cs ++ post) (Z.of_nat (length pre)) (x - 1);
      Done (inl (u32 (cnt + bits), Z.lor buf (u64 (Z.shiftl (convert_digit ch) cnt)), x))
    else Done (inr (cnt, buf, x))) (cnt, buf, Z.of_nat (length pre + length cs)) = Done (cnt', buf', Z.of_nat (length pre + length cs')) ∧
  filled bits cnt buf cs cnt' buf' cs'.
Proof.
  intros Hb. induction fuel as [|fuel IH]; intros cs post cnt buf Hf Hv Hl Hc Hbuf; [lia|]. unfold DIGIT_SHIFT in *.
  destruct cs as [|c cs _] using rev_ind.
  { exists cnt, buf, []. split; [|unfold filled; split_and!; try done; try lia; [by left|by exists []]].
    apply loopO_exit. cbn [length]. rewrite Nat.add_0_r, Z.ltb_irrefl, andb_false_r. done. }
  destruct (Z.ltb_spec cnt 31) as [Hlt|Hge].
  2: { exists cnt, buf, (cs ++ [c]). split; [|unfold filled; split_and!; try done; try lia; exists []; by rewrite app_nil_r].
       apply loopO_exit. by rewrite (proj2 (Z.ltb_ge cnt 31)) by lia. }
  assert (Hc95 : c ≠ 95) by (intros ->; apply Hl; by rewrite last_snoc). apply valid_text_app in Hv as [Hv Hvc]. unfold valid_text in Hvc. rewrite Forall_singleton in Hvc.
  destruct Hvc as [|Hcd]; [done|]. pose proof (convert_digit_nonneg c) as Hc0. set (d := convert_digit c) in *.
  assert (H32 : 2 ^ bits ≤ 2 ^ 5) by (apply Z.pow_le_mono_r; lia). assert (H31 : 2 ^ cnt ≤ 2 ^ 30) by (apply Z.pow_le_mono_r; lia). assert (Hp : 0 < 2 ^ cnt) by (apply Z.pow_pos_nonneg; lia).
  assert (E1 : pre ++ (cs ++ [c]) ++ post = (pre ++ cs) ++ c :: post) by (by rewrite <-!app_assoc). assert (E2 : pre ++ (cs ++ [c]) ++ post = pre ++ cs ++ c :: post) by (by rewrite <-!app_assoc).
  destruct (drop_us (2 ^ bits) cs) as (k & Ek & Hn & Hval & Hlast). set (cs1 := drop_back (λ c, c =? 95) cs) in *.
  assert (Hadd : 2 ^ (cnt + bits) = 2 ^ cnt * 2 ^ bits) by (apply Z.pow_add_r; lia).
  destruct (IH cs1 (k ++ c :: post) (cnt + bits) (d * 2 ^ cnt + buf)) as (cnt' & buf' & cs' & E & F); try done; try lia.
  - apply (f_equal length) in Ek. rewrite length_app in Ek, Hf. simpl in Hf. lia.
  - rewrite Ek in Hv. apply valid_text_app in Hv. apply Hv.
  - rewrite Hadd. nia.
  - exists cnt', buf', cs'. split.
    + rewrite (loopO_step _ _ _ (cnt + bits, d * 2 ^ cnt + buf, Z.of_nat (length pre + length cs1))).
      * replace (pre ++ (cs ++ [c]) ++ post) with (pre ++ cs1 ++ k ++ c :: post) by (rewrite E2, Ek, <-!app_assoc; done). exact E.
      * rewrite (proj2 (Z.ltb_lt cnt 31)), (proj2 (Z.ltb_lt (Z.of_nat (length pre)) _)) by (rewrite ?length_app; simpl; lia). cbn [andb].
        rewrite E1, at_before by (rewrite !length_app; simpl; lia). osimpl. rewrite <-E1, E2.
        replace (Z.of_nat (length pre + length (cs ++ [c])) - 1) with (Z.of_nat (length pre + length cs)) by (rewrite length_app; simpl; lia).
        rewrite skip_back_eq. osimpl. fold cs1 d. rewrite Z.shiftl_mul_pow2, u64_small, Z.lor_comm, lor_shift by nia. unfold u32. rewrite Z.mod_small by lia. done.
    + destruct F as (F1 & F2 & F3 & F4 & F5 & F6 & k' & F7). unfold filled. rewrite digits_value_app, digit_chars_app, length_app, (digit_chars_cons c []), (digits_value_one _ c) by done.
      change (digit_chars []) with (@nil Z). cbn [length]. fold d. rewrite <-F1, Hval, Hadd, <-Hn. change (Z.of_nat 1) with 1. rewrite Z.pow_1_r. split_and!; try done; try lia.
      rewrite Ek, F7. exists ((k' ++ k) ++ [c]). by rewrite <-!app_assoc.
Qed.

(** The invariant of the outer loop: digits of the number, the buffer, and the text that is left. *)
Definition unpacking (bits T V : Z) (N : nat) (cnt buf : Z) (cs : list Z) (ds : list Z) : Prop :=
  digits_ok ds ∧ (length ds ≤ N)%nat ∧ 0 ≤ buf < BASE ∧ valid_text (2 ^ bits) cs ∧ last cs ≠ Some 95 ∧
  (cs ≠ [] → 0 ≤ cnt ≤ 4 ∧ buf < 2 ^ cnt ∧ 31 * Z.of_nat (length ds) + cnt + bits * Z.of_nat (count cs) = T) ∧
  (cs = [] → buf ≠ 0 → 31 * Z.of_nat (length ds) < T) ∧
  V = eval ds + BASE ^ Z.of_nat (length ds) * (if decide (cs = []) then buf else buf + 2 ^ cnt * digits_value (2 ^ bits) cs).

Lemma count_pos c cs : last (cs ++ [c]) ≠ Some 95 → (0 < count (cs ++ [c]))%nat.
Proof.
  rewrite last_snoc. intros H. assert (c ≠ 95) by congruence. rewrite digit_chars_app, (digit_chars_cons c []), length_app by done. simpl. lia.
Qed.

Lemma unpack_step bits pre T V N cnt buf cs post ds : 1 ≤ bits ≤ 5 → unpacking bits T V N cnt buf cs ds → cs ≠ [] ∨ buf ≠ 0 → T ≤ 31 * Z.of_nat N →
  (length ds < N)%nat ∧ ∃ cnt' buf' cs' post',
    fill (pre ++ cs ++ post) bits (Z.of_nat (length pre)) cnt buf (Z.of_nat (length pre + length cs)) = Done (cnt', buf', Z.of_nat (length pre + length cs')) ∧
    pre ++ cs ++ post = pre ++ cs' ++ post' ∧
    unpacking bits T V N (u32 (cnt' - DIGIT_SHIFT)) (Z.shiftr buf' DIGIT_SHIFT) cs' (ds ++ [Z.land buf' DIGIT_MAX]).
Proof.
  intros Hb (Dd & Hl & Hbuf & Hval & Hlast & Hne & He & HV) Hmore HT.
  assert (Hsplit : ∀ b, 0 ≤ b → b = b `mod` BASE + BASE * (b / BASE) ∧ 0 ≤ b / BASE ≤ b).
  { intros b Hb0. split; [pose proof (Z.div_mod b BASE ltac:(done)); lia|]. split; [by apply Z.div_pos|]. apply Z.div_le_upper_bound; lia. }
  assert (Hpow : BASE ^ Z.of_nat (length (ds ++ [0])) = BASE * BASE ^ Z.of_nat (length ds)) by (rewrite length_app; simpl length; replace (length ds + 1)%nat with (S (length ds)) by lia; apply pow_S).
  unfold DIGIT_SHIFT. destruct (decide (cs = [])) as [->|Hcs].
  - destruct Hmore as [|Hb0]; [done|]. specialize (He eq_refl Hb0). split; [lia|]. exists cnt, buf, [], post. split_and!; [| done|].
    + unfold fill. apply loopO_exit. cbn [length]. rewrite Nat.add_0_r, Z.ltb_irrefl, andb_false_r. done.
    + rewrite land_MAX, Z.shiftr_div_pow2, Z.mod_small, Z.div_small by done. unfold unpacking. rewrite decide_True by done. cbv iota in HV.
      split_and!; try done; try (by intros); try lia.
      * apply digits_ok_app. split; [done|]. by constructor.
      * rewrite length_app. simpl. lia.
      * rewrite (eval_snoc BASE). lia.
  - destruct (Hne Hcs) as (Hc & Hbc & Ht). destruct cs as [|c cs _] using rev_ind; [done|]. pose proof (count_pos c cs Hlast) as Hcp. set (t := cs ++ [c]) in *. split; [nia|].
    destruct (fill_loop bits pre Hb (S (Z.to_nat (Z.of_nat (length pre + length t) - Z.of_nat (length pre)))) t post cnt buf) as (cnt' & buf' & cs' & E & F1 & F2 & F3 & F4 & F5 & F6 & k & F7);
      try done; try lia.
    exists cnt', buf', cs', (k ++ post). unfold fill. split; [exact E|]. split; [by rewrite F7, <-!app_assoc|].
    rewrite land_MAX, Z.shiftr_div_pow2 by done. destruct (Hsplit buf' ltac:(lia)) as [Hs1 Hs2]. cbv iota in HV.
    assert (Hdiv : 31 ≤ cnt' → buf' / BASE < 2 ^ (cnt' - 31) ∧ 2 ^ cnt' = BASE * 2 ^ (cnt' - 31)).
    { intros H31. assert (E2 : 2 ^ cnt' = BASE * 2 ^ (cnt' - 31)) by (rewrite <-Z.pow_add_r by lia; f_equal; lia). split; [|done]. apply Z.div_lt_upper_bound; lia. }
    assert (Hq : buf' / BASE < 2 ^ 4).
    { apply Z.div_lt_upper_bound; [done|]. eapply Z.lt_le_trans; [apply F3|]. rewrite <-Z.pow_add_r by lia. apply Z.pow_le_mono_r; lia. }
    unfold unpacking. split_and!; try lia; try done.
    + apply digits_ok_app. split; [done|]. constructor; [|done]. by apply Z.mod_pos_bound.
    + rewrite length_app. simpl. lia.
    + rewrite F7 in Hval. apply valid_text_app in Hval. apply Hval.
    + intros Hcs'. destruct F6 as [|H31]; [done|]. unfold u32. rewrite Z.mod_small by lia. destruct (Hdiv H31). rewrite length_app. simpl length. lia.
    + intros -> Hb0. rewrite length_app. simpl length. change (digit_chars []) with (@nil Z) in F2. cbn [length] in F2.
      rewrite Z.mul_0_r in F2.
      assert (BASE ≤ buf') by (pose proof (Z.mod_pos_bound buf' BASE ltac:(done)); lia).
      assert (31 < cnt') by (apply (Z.pow_lt_mono_r_iff 2); lia). lia.
    + rewrite (eval_snoc BASE). replace (length (ds ++ [buf' `mod` BASE])) with (length (ds ++ [0])) by (by rewrite !length_app). rewrite Hpow, HV, F1.
      destruct (decide (cs' = [])) as [->|Hcs'].
      * change (digits_value (2 ^ bits) []) with 0. set (m := buf' `mod` BASE) in *. set (q := buf' / BASE) in *. clearbody m q. rewrite Hs1. ring.
      * destruct F6 as [|H31]; [done|]. destruct (Hdiv H31) as [_ ->]. unfold u32. rewrite (Z.mod_small (cnt' - 31)) by lia.
        set (m := buf' `mod` BASE) in *. set (q := buf' / BASE) in *. clearbody m q. rewrite Hs1. ring.
Qed.

Lemma unpack_loop bits s num pre T V N : 1 ≤ bits ≤ 5 → T ≤ 31 * Z.of_nat N → ∀ fuel cnt buf cs post ds, unpacking bits T V N cnt buf cs ds → (N < fuel + length ds)%nat →
  ∃ ds', loopM fuel (λ '(cnt, buf, x, i),
    if negb (x =? Z.of_nat (length pre)) || negb (buf =? 0) then
      '(cnt, buf, x) ← lift (fill (pre ++ cs ++ post) bits (Z.of_nat (length pre)) cnt buf x);
      wr_digit num i (Z.land buf DIGIT_MAX);;
      mret (inl (u32 (cnt - DIGIT_SHIFT), Z.shiftr buf DIGIT_SHIFT, x, i + 1))
    else mret (inr tt)) (cnt, buf, Z.of_nat (length pre + length cs), Z.of_nat (length ds)) (<[num := pos (ds ++ replicate (N - length ds) 0)]> s) =
  Done (tt, <[num := pos ds']> s) ∧ digits_ok ds' ∧ eval ds' = V.
Proof.
  intros Hb HT. induction fuel as [|fuel IH]; intros cnt buf cs post ds Hinv Hf; [destruct Hinv as (_ & Hl & _); lia|].
  assert (Hx : negb (Z.of_nat (length pre + length cs) =? Z.of_nat (length pre)) || negb (buf =? 0) = bool_decide (cs ≠ [] ∨ buf ≠ 0)).
  { apply eq_true_iff_eq. rewrite orb_true_iff, !negb_true_iff, bool_decide_eq_true, !Z.eqb_neq.
    split; (intros [H|H]; [left|by right]); [intros ->; apply H; simpl; lia|destruct cs; [done|simpl; lia]]. }
  destruct (decide (cs ≠ [] ∨ buf ≠ 0)) as [Hmore|Hend].
  - destruct (unpack_step bits pre T V N cnt buf cs post ds Hb Hinv Hmore HT) as (Hlt & cnt' & buf' & cs' & post' & E & Et & Hinv').
    destruct (IH (u32 (cnt' - DIGIT_SHIFT)) (Z.shiftr buf' DIGIT_SHIFT) cs' post' (ds ++ [Z.land buf' DIGIT_MAX]) Hinv') as (ds' & E' & H'); [rewrite length_app; simpl; lia|].
    rewrite <-Et in E'. exists ds'. split; [|done]. rewrite <-E'. apply loopM_step. rewrite Hx, bool_decide_true by done. unfold mbind at 1, St_bind at 1, lift at 1. rewrite E. cbv iota beta.
    st_step (wr_pos s num (ds ++ replicate (N - length ds) 0) (length ds) (Z.land buf' DIGIT_MAX) ltac:(rewrite length_app, length_replicate; lia)).
    replace (N - length ds)%nat with (S (N - length (ds ++ [Z.land buf' DIGIT_MAX]))) by (rewrite length_app; simpl; lia).
    rewrite insert_app_r_alt, Nat.sub_diag by lia. simpl replicate. simpl insert.
    unfold mret, St_ret. rewrite <-app_assoc. simpl app. do 5 f_equal. rewrite length_app. simpl. lia.
  - exists (ds ++ replicate (N - length ds) 0). destruct Hinv as (Dd & Hl & _ & _ & _ & _ & _ & HV). rewrite (loopM_exit _ _ _ _ tt (<[num := pos (ds ++ replicate (N - length ds) 0)]> s)).
    + split; [done|]. split; [apply digits_ok_app; split; [done|by apply digits_ok_zeros]|]. rewrite eval_app, eval_zeros.
      destruct (decide (cs = [])) as [|Hcs]; [|tauto]. destruct (decide (buf = 0)); [|tauto]. lia.
    + by rewrite Hx, bool_decide_false.
Qed.

Lemma lift_done {A B} (o : outcome A) a (k : A → St store B) s : o = Done a → (lift o ≫= k) s = k a s.
Proof. by intros ->. Qed.

Lemma parse_bits_eq s num pre cs post base bits : s !! num = Some (Long 0 []) → base = 2 ^ bits → bits_of_base base = bits → 1 ≤ bits ≤ 5 →
  if decide (valid_text base cs ∧ digit_chars cs ≠ []) then
    ∃ r, parse_bits (pre ++ cs ++ post) num base (Z.of_nat (length pre)) (Z.of_nat (length pre + length cs)) s = Done (0, <[num := r]> s) ∧ repr r (digits_value base cs)
  else parse_bits (pre ++ cs ++ post) num base (Z.of_nat (length pre)) (Z.of_nat (length pre + length cs)) s = Done (1, s).
Proof.
  intros Hs Hbase Hbits Hb. unfold parse_bits. rewrite Hbits. assert (Hclr : (krk_long_clear num;; mret 1) s = Done (1, s)) by (st_step (clear_eq _ _ _ Hs); by rewrite insert_id).
  pose proof (count_valid_loop base pre cs post (S (Z.to_nat (Z.of_nat (length pre + length cs) - Z.of_nat (length pre)))) 0 ltac:(lia)) as Hcv.
  fold (count_valid (pre ++ cs ++ post) base (Z.of_nat (length pre)) (Z.of_nat (length pre + length cs))) in Hcv. rewrite Z.add_0_l in Hcv.
  destruct (decide (valid_text base cs)) as [Hv|Hv]; [|rewrite decide_False by tauto; by rewrite (lift_done _ _ _ _ Hcv)].
  destruct (Z.eqb_spec (Z.of_nat (count cs)) 0) as [E0|E0].
  { rewrite decide_False by (intros [_ Hne]; apply Hne; destruct (digit_chars cs); [done|simpl in E0; lia]). rewrite (lift_done _ _ _ _ Hcv). cbv iota beta. by rewrite E0. }
  rewrite decide_True by (split; [done|]; intros E; rewrite E in E0; done). rewrite (lift_done _ _ _ _ Hcv). cbv iota beta. rewrite (proj2 (Z.eqb_neq _ 0) E0). set (T := Z.of_nat (count cs) * bits).
  assert (HT : 0 < T) by (unfold T; nia). change ((T - 1) / DIGIT_SHIFT + 1) with ((T - 1) / 31 + 1). set (N := Z.to_nat ((T - 1) / 31 + 1)).
  assert (HN : Z.of_nat N = (T - 1) / 31 + 1) by (unfold N; rewrite Z2Nat.id; [done|]; pose proof (Z.div_pos (T - 1) 31 ltac:(lia) ltac:(lia)); lia).
  rewrite <-HN. st_step (resize_eq s num (Long 0 []) N Hs eq_refl). unfold resized. cbn [digits length]. rewrite take_nil, app_nil_l, Nat.sub_0_r.
  rewrite (lift_done _ _ _ _ (skip_back_eq pre cs post)).
  destruct (drop_us base cs) as (k & Ek & Hn & Hval & Hlast). set (cs1 := drop_back (λ c, c =? 95) cs) in *. set (V := digits_value base cs) in *.
  destruct (unpack_loop bits s num pre T V N Hb ltac:(pose proof (Z.div_mod (T - 1) 31 ltac:(done)); pose proof (Z.mod_pos_bound (T - 1) 31 ltac:(done)); lia)
    (S (S N)) 0 0 cs1 (k ++ post) []) as (ds & E & Dd & Vd); [|simpl; lia|].
  - unfold unpacking. rewrite <-Hbase, Hn, Hval. split_and!; try done; try (simpl; lia).
    + constructor.
    + rewrite Ek in Hv. apply valid_text_app in Hv. apply Hv.
    + simpl. destruct (decide (cs1 = [])) as [E1|]; [|lia]. exfalso. apply E0. rewrite <-Hn, E1. done.
  - replace (pre ++ cs1 ++ k ++ post) with (pre ++ cs ++ post) in E by (clearbody cs1; subst cs; by rewrite <-app_assoc). cbn [length app] in E. rewrite Nat.sub_0_r in E. change (Z.of_nat 0) with 0 in E. st_step E.
    st_step (trim_over s num ds). eexists. split; [done|]. apply repr_pos_v; [by apply digits_ok_trimmed|apply normal_trimmed|by rewrite eval_trimmed].
Qed.

(** ** Other bases *)

Lemma chunk_loop b cs post : 2 ≤ b ≤ 36 → Forall (.≠ 0) cs → ∀ fuel pre accum basediv, (length cs < fuel)%nat → 0 ≤ accum < basediv → basediv < 2 ^ 52 → ∃ res,
  loopO fuel (λ '(accum, basediv, c),
    if c <? Z.of_nat (length pre + length cs) then
      ch ← at_ (pre ++ cs ++ post) c;
      if negb (ch =? 0) && (u64 (basediv * b) <? 0x10000000000000) then
        Done (if ch =? 95 then inl (accum, basediv, c + 1)
              else if negb (is_valid b ch) then inr None
              else inl (u64 (u64 (accum * b) + convert_digit ch), u64 (basediv * b), c + 1))
      else Done (inr (Some (accum, basediv, c)))
    else Done (inr (Some (accum, basediv, c)))) (accum, basediv, Z.of_nat (length pre)) = Done res ∧
  match res with
  | None => ¬ valid_text b cs
  | Some (a, d, c) => ∃ cs1 cs2, cs = cs1 ++ cs2 ∧ valid_text b cs1 ∧ a = accum * b ^ Z.of_nat (count cs1) + digits_value b cs1 ∧
      d = basediv * b ^ Z.of_nat (count cs1) ∧ 0 ≤ a < d ∧ d < 2 ^ 52 ∧ c = Z.of_nat (length pre + length cs1) ∧ (basediv * b < 2 ^ 52 → cs ≠ [] → cs1 ≠ [])
  end.
Proof.
  intros Hb. induction 1 as [|c cs Hc0 _ IH]; intros fuel pre accum basediv Hf Ha Hd; (destruct fuel as [|fuel]; [simpl in Hf; lia|]); simpl length in Hf.
  { exists (Some (accum, basediv, Z.of_nat (length pre))). split.
    - apply loopO_exit. cbn [length]. by rewrite Nat.add_0_r, Z.ltb_irrefl.
    - exists [], []. change (count []) with 0%nat. change (digits_value b []) with 0. change (Z.of_nat 0) with 0. rewrite Z.pow_0_r. split_and!; try done; try lia; [constructor|simpl; lia]. }
  assert (E : pre ++ (c :: cs) ++ post = (pre ++ [c]) ++ cs ++ post) by (by rewrite <-app_assoc).
  assert (El : (length pre + length (c :: cs) = length (pre ++ [c]) + length cs)%nat) by (rewrite length_app; simpl; lia).
  assert (Hx : Z.of_nat (length pre) + 1 = Z.of_nat (length (pre ++ [c]))) by (rewrite length_app; simpl; lia).
  set (body := λ '(accum, basediv, c0), _). assert (Hbody : body (accum, basediv, Z.of_nat (length pre)) =
    if u64 (basediv * b) <? 0x10000000000000 then
      Done (if c =? 95 then inl (accum, basediv, Z.of_nat (length (pre ++ [c])))
            else if negb (is_valid b c) then inr None
            else inl (u64 (u64 (accum * b) + convert_digit c), u64 (basediv * b), Z.of_nat (length (pre ++ [c]))))
    else Done (inr (Some (accum, basediv, Z.of_nat (length pre))))).
  { unfold body. rewrite (proj2 (Z.ltb_lt (Z.of_nat (length pre)) _)) by (simpl; lia). simpl app. rewrite at_app. osimpl. rewrite (proj2 (Z.eqb_neq c 0)), Hx by done. done. }
  rewrite u64_small in Hbody by nia. destruct (Z.ltb_spec (basediv * b) 0x10000000000000) as [Hlt|Hge].
  2: { exists (Some (accum, basediv, Z.of_nat (length pre))). split; [by apply loopO_exit|]. exists [], (c :: cs). change (count []) with 0%nat. change (digits_value b []) with 0.
       change (Z.of_nat 0) with 0. rewrite Z.pow_0_r. split_and!; try done; try lia; [constructor|simpl; lia]. }
  destruct (Z.eqb_spec c 95) as [->|Hc]; [|unfold is_valid in Hbody; destruct (Z.ltb_spec (convert_digit c) b) as [Hv|Hv]; cbn [negb] in Hbody].
  - destruct (IH fuel (pre ++ [95]) accum basediv) as (res & Er & Hr); [lia|done|done|]. exists res. split; [rewrite (loopO_step _ _ _ _ Hbody); unfold body; rewrite E, El; exact Er|].
    destruct res as [[[a d] e]|].
    + destruct Hr as (cs1 & cs2 & -> & Hv & Ea & Ed & Hr1 & Hr2 & Ee & _). exists (95 :: cs1), cs2.
      assert (Hdv : digits_value b (95 :: cs1) = digits_value b cs1) by (unfold digits_value; by rewrite digit_chars_us). rewrite Hdv, digit_chars_us. split_and!; try done; try lia.
      * constructor; [by left|done].
      * rewrite Ee, length_app. simpl. lia.
    + intros Hv. apply Hr. by inversion Hv.
  - pose proof (convert_digit_nonneg c) as Hc1. assert (accum * b + convert_digit c < basediv * b) by nia. rewrite (u64_small (accum * b)), u64_small in Hbody by nia.
    destruct (IH fuel (pre ++ [c]) (accum * b + convert_digit c) (basediv * b)) as (res & Er & Hr); [lia|nia|done|].
    exists res. split; [rewrite (loopO_step _ _ _ _ Hbody); unfold body; rewrite E, El; exact Er|]. destruct res as [[[a d] e]|].
    + destruct Hr as (cs1 & cs2 & -> & Hv' & Ea & Ed & Hr1 & Hr2 & Ee & _). exists (c :: cs1), cs2.
      change (digits_value b (c :: cs1)) with (digits_value b ([c] ++ cs1)). rewrite digits_value_app, (digit_chars_cons c cs1), (digits_value_one b c) by done. simpl length.
      rewrite Nat2Z.inj_succ, Z.pow_succ_r by lia. split_and!; try done.
      * constructor; [by right|done].
      * rewrite Ea. ring.
      * rewrite Ed. ring.
      * lia.
      * lia.
      * rewrite Ee, length_app. simpl. lia.
    + intros Hv'. apply Hr. by inversion Hv'.
  - exists None. split; [by apply loopO_exit|]. intros Hv'. inversion Hv' as [|? ? [?|?] ?]; subst; lia.
Qed.

(** One round: the digits so far, times a power of the base, plus the next digits. *)
Lemma chunk_round {A} s num base_ scratch x v zb zs accum basediv (k : St store A) : NoDup [num; base_; scratch] →
  s !! num = Some x → repr x v → s !! base_ = Some zb → s !! scratch = Some zs → 0 ≤ accum < 2 ^ 64 → 0 ≤ basediv < 2 ^ 64 →
  ∃ r sc, (krk_long_init_ui base_ basediv;; krk_long_mul num num base_;; krk_long_clear_many [scratch; base_];;
     krk_long_init_ui scratch accum;; krk_long_add num num scratch;; k) s =
    k (<[scratch := sc]> (<[base_ := Long 0 []]> (<[num := r]> s))) ∧ repr r (v * basediv + accum).
Proof.
  intros Hnd Hn Hx Hb Hs Ha Hd. rewrite !NoDup_cons, !not_elem_of_cons in Hnd. destruct Hnd as ((? & ? & _) & (? & _) & _).
  destruct (init_ui_eq s base_ zb basediv Hb Hd) as (B & E1 & HB). st_step E1.
  destruct (krk_long_mul_eq (<[base_ := B]> s) num num base_ x x B v basediv ltac:(store_lookup) ltac:(by eapply repr_sized) ltac:(store_lookup) ltac:(store_lookup) Hx HB) as (m & E2 & Hm). st_step E2.
  st_step (clear_two (<[num := m]> (<[base_ := B]> s)) scratch base_ zs B ltac:(done) ltac:(store_lookup) ltac:(store_lookup)).
  set (s1 := <[base_ := Long 0 []]> (<[scratch := Long 0 []]> (<[num := m]> (<[base_ := B]> s)))).
  destruct (init_ui_eq s1 scratch (Long 0 []) accum ltac:(unfold s1; store_lookup) Ha) as (C & E3 & HC). st_step E3.
  destruct (krk_long_add_eq (<[scratch := C]> s1) num num scratch m m C (v * basediv) accum ltac:(unfold s1; store_lookup) ltac:(by eapply repr_sized)
    ltac:(unfold s1; store_lookup) ltac:(store_lookup) Hm HC) as (r & E4 & Hr). st_step E4.
  exists r, C. split; [|done]. f_equal. unfold s1. store_eq.
Qed.

Lemma chunks_loop b num base_ scratch post : NoDup [num; base_; scratch] → 2 ≤ b ≤ 36 → ∀ fuel cs pre s x v zb zs, (length cs < fuel)%nat → Forall (.≠ 0) cs →
  s !! num = Some x → repr x v → s !! base_ = Some zb → s !! scratch = Some zs → ∃ code r,
  loopM fuel (λ c,
      ch ← (if c <? Z.of_nat (length pre + length cs) then lift (at_ (pre ++ cs ++ post) c) else mret 0);
      if (c <? Z.of_nat (length pre + length cs)) && negb (ch =? 0) then
        r ← lift (chunk (pre ++ cs ++ post) b c (Z.of_nat (length pre + length cs)));
        match r with
        | None => krk_long_clear_many [base_; scratch; num];; mret (inr 1)
        | Some (accum, basediv, c) =>
            krk_long_init_ui base_ basediv;;
            krk_long_mul num num base_;;
            krk_long_clear_many [scratch; base_];;
            krk_long_init_ui scratch accum;;
            krk_long_add num num scratch;;
            mret (inl c)
        end
      else krk_long_clear_many [base_; scratch];; mret (inr 0)) (Z.of_nat (length pre)) s =
    Done (code, <[scratch := Long 0 []]> (<[base_ := Long 0 []]> (<[num := r]> s))) ∧
  if decide (valid_text b cs) then code = 0 ∧ repr r (v * b ^ Z.of_nat (count cs) + digits_value b cs) else code = 1 ∧ r = Long 0 [].
Proof.
  intros Hnd Hb fuel. pose proof Hnd as Hnd'. rewrite !NoDup_cons, !not_elem_of_cons in Hnd'. destruct Hnd' as ((N1 & N2 & _) & (N3 & _) & _).
  induction fuel as [|fuel IH]; intros cs pre s x v zb zs Hf H0 Hn Hx Hzb Hzs; [lia|]. destruct cs as [|c cs].
  { exists 0, x. rewrite decide_True by constructor. change (count []) with 0%nat. change (digits_value b []) with 0. change (Z.of_nat 0) with 0. rewrite Z.pow_0_r, Z.mul_1_r, Z.add_0_r. split; [|done].
    apply loopM_exit. cbn [length]. rewrite Nat.add_0_r, Z.ltb_irrefl. change ((krk_long_clear_many [base_; scratch];; mret (inr 0)) s = Done (@inr Z Z 0, <[scratch := Long 0 []]> (<[base_ := Long 0 []]> (<[num := x]> s)))).
    st_step (clear_two s base_ scratch zb zs ltac:(done) Hzb Hzs). rewrite (insert_id s num) by done. done. }
  set (cs0 := c :: cs) in *. set (body := λ c0 : Z, _ : St store (Z + Z)).
  destruct (chunk_loop b cs0 post Hb H0 (S (Z.to_nat (Z.of_nat (length pre + length cs0) - Z.of_nat (length pre)))) pre 0 1 ltac:(lia) ltac:(lia) ltac:(lia)) as (res & Er & Hr).
  fold (chunk (pre ++ cs0 ++ post) b (Z.of_nat (length pre)) (Z.of_nat (length pre + length cs0))) in Er.
  assert (Hbody : body (Z.of_nat (length pre)) s = match res with
        | None => krk_long_clear_many [base_; scratch; num];; mret (inr 1)
        | Some (accum, basediv, c) =>
            krk_long_init_ui base_ basediv;; krk_long_mul num num base_;; krk_long_clear_many [scratch; base_];;
            krk_long_init_ui scratch accum;; krk_long_add num num scratch;; mret (inl c)
        end s).
  { unfold body. rewrite (proj2 (Z.ltb_lt (Z.of_nat (length pre)) _)) by (unfold cs0; simpl; lia). unfold cs0 at 1. simpl app. rewrite (lift_done _ _ _ _ (at_app pre c (cs ++ post))).
    rewrite (proj2 (Z.eqb_neq c 0)) by (by inversion H0). cbn [andb negb]. unfold cs0 at 1. by rewrite (lift_done _ _ _ _ Er). }
  destruct res as [[[a d] e]|].
  - destruct Hr as (cs1 & cs2 & Ecs & Hv1 & Ea & Ed & Ha & Hd & -> & Hne). specialize (Hne ltac:(lia) ltac:(unfold cs0; done)). rewrite Z.mul_1_l in Ed. rewrite Z.mul_0_l, Z.add_0_l in Ea.
    destruct (chunk_round s num base_ scratch x v zb zs a d (mret (@inl Z Z (Z.of_nat (length pre + length cs1)))) Hnd Hn Hx Hzb Hzs ltac:(lia) ltac:(lia)) as (r & sc & Ek & Hr).
    rewrite Ek in Hbody. set (s1 := <[scratch := sc]> (<[base_ := Long 0 []]> (<[num := r]> s))) in *.
    destruct (IH cs2 (pre ++ cs1) s1 r (v * d + a) (Long 0 []) sc) as (code & r' & E' & H').
    + apply (f_equal length) in Ecs. rewrite length_app in Ecs. assert (0 < length cs1)%nat by (destruct cs1; [done|simpl; lia]). lia.
    + rewrite Ecs in H0. by apply Forall_app in H0 as [_ ?].
    + unfold s1. store_lookup.
    + done.
    + unfold s1. store_lookup.
    + unfold s1. store_lookup.
    + exists code, r'. rewrite (loopM_step _ _ _ _ _ _ Hbody). unfold body. clear Hbody Er body.
      replace (pre ++ cs0 ++ post) with ((pre ++ cs1) ++ cs2 ++ post) by (rewrite Ecs, <-!app_assoc; done).
      replace (length pre + length cs0)%nat with (length (pre ++ cs1) + length cs2)%nat by (rewrite Ecs, !length_app; lia).
      replace (Z.of_nat (length pre + length cs1)) with (Z.of_nat (length (pre ++ cs1))) by (by rewrite length_app).
      split; [rewrite E'; do 2 f_equal; unfold s1; store_eq|].
      rewrite (decide_ext (valid_text b cs0) (valid_text b cs2)) by (rewrite Ecs, valid_text_app; intuition). destruct (decide _); [|done]. destruct H' as [-> H']. split; [done|].
      eapply repr_of; [exact H'|]. rewrite Ecs, digits_value_app, digit_chars_app, length_app, Nat2Z.inj_add, Z.pow_add_r, Ea, Ed by lia. ring.
  - exists 1, (Long 0 []). rewrite decide_False by done. split; [|done]. apply loopM_exit. rewrite Hbody. cbn [krk_long_clear_many].
    unfold mbind at 1, St_bind at 1. st_step (clear_eq s base_ zb Hzb). st_step (clear_eq (<[base_ := Long 0 []]> s) scratch zs ltac:(store_lookup)).
    st_step (clear_eq (<[scratch := Long 0 []]> (<[base_ := Long 0 []]> s)) num x ltac:(store_lookup)). unfold mret, St_ret. do 2 f_equal. store_eq.
Qed.

Lemma parse_chunks_eq s num x v pre cs post b : s !! num = Some x → repr x v → 2 ≤ b ≤ 36 → Forall (.≠ 0) cs → ∃ code r,
  parse_chunks (pre ++ cs ++ post) num b (Z.of_nat (length pre)) (Z.of_nat (length pre + length cs)) s = Done (code, <[num := r]> s) ∧
  if decide (valid_text b cs) then code = 0 ∧ repr r (v * b ^ Z.of_nat (count cs) + digits_value b cs) else code = 1 ∧ r = Long 0 [].
Proof.
  intros Hn Hx Hb H0. unfold parse_chunks. pose proof (fresh_local s) as Ht. set (t := fresh (dom s)) in *. assert (Htn : t ≠ num) by (intros E; rewrite E in Ht; congruence).
  set (s1 := <[t := Long 0 []]> s). pose proof (fresh_local s1) as Hu. set (u := fresh (dom s1)) in *. assert (Hun : u ≠ num ∧ u ≠ t).
  { split; intros E; rewrite E in Hu; revert Hu; unfold s1; [rewrite lookup_insert_ne by done; congruence|by rewrite lookup_insert_eq]. }
  destruct Hun as [Hun Hut]. assert (Hsu : s !! u = None) by (rewrite <-Hu; unfold s1; by rewrite lookup_insert_ne).
  destruct (chunks_loop b num t u post) with (fuel := S (Z.to_nat (Z.of_nat (length pre + length cs) - Z.of_nat (length pre)))) (cs := cs) (pre := pre) (s := <[u := Long 0 []]> s1) (x := x) (v := v) (zb := Long 0 []) (zs := Long 0 [])
    as (code & r & E & H); try done; try lia; [| | | |].
  { rewrite !NoDup_cons, !not_elem_of_cons. split_and!; auto using NoDup_nil_2; set_solver. }
  { unfold s1. store_lookup. } { unfold s1. store_lookup. } { store_lookup. }
  exists code, r. split; [|done]. apply (with_local_run _ s code (<[num := r]> s) (Long 0 [])); fold t; [|rewrite lookup_insert_ne by done; exact Ht]. fold s1.
  apply (with_local_run _ s1 code (<[t := Long 0 []]> (<[num := r]> s)) (Long 0 [])); fold u; [|rewrite !lookup_insert_ne by done; exact Hsu].
  unfold s1. rewrite (insert_insert_ne s u t) by done. st_step (init_0_over (<[u := Long 0 []]> s) t (Long 0 [])). rewrite (insert_insert_ne s t u) by done.
  st_step (init_0_over (<[t := Long 0 []]> s) u (Long 0 [])). fold s1. st_step E. unfold mret, St_ret. do 2 f_equal. unfold s1. clearbody u t. store_eq.
Qed.

(** ** What a text says *)

Definition strip (text : list Z) : list Z := drop_back is_whitespace (drop_while is_whitespace text).

Definition split_sign (cs : list Z) : bool * list Z :=
  match cs with
  | c :: cs' => if c =? 45 then (true, cs') else if c =? 43 then (false, cs') else (false, cs)
  | [] => (false, [])
  end.

(** The base and the digits, or the outcome: a code, or zero. *)
Definition split_base (base : Z) (cs : list Z) : (Z + Z) + (Z * list Z) :=
  if base =? 0 then
    match cs with
    | 48 :: [] => inl (inr 0)
    | 48 :: c :: ds =>
        if (c =? 120) || (c =? 88) then inr (16, ds) else if (c =? 111) || (c =? 79) then inr (8, ds)
        else if (c =? 98) || (c =? 66) then inr (2, ds) else inl (inl 2)
    | _ => inr (10, cs)
    end
  else inr (base, cs).

Definition power_base (b : Z) : bool := (b =? 2) || (b =? 4) || (b =? 8) || (b =? 16) || (b =? 32).

(** The code of failure, or the number. *)
Definition read_number (base : Z) (text : list Z) : Z + Z :=
  let '(neg, cs) := split_sign (strip text) in
  if decide (cs = []) then inl 1
  else
    match split_base base cs with
    | inl r => r
    | inr (b, ds) =>
        if decide (ds = []) then inl 1
        else if (b =? 1) || (36 <? b) then inl 2
        else if decide (valid_text b ds ∧ (power_base b = true → digit_chars ds ≠ [])) then
          inr (if neg : bool then - digits_value b ds else digits_value b ds)
        else inl 1
    end.

Definition scan_result (base : Z) (cs : list Z) : (Z + Z) + (Z * list Z) :=
  if decide (cs = []) then inl (inl 1)
  else match split_base base cs with
       | inr (b, ds) => if decide (ds = []) then inl (inl 1) else if (b =? 1) || (36 <? b) then inl (inl 2) else inr (b, ds)
       | r => r
       end.

(** What a refusal leaves: the number that was there when the text has no base or no digits
    to read, zero once they are read. *)
Definition after_refusal (base : Z) (text : list Z) (z : KrkLong) : KrkLong :=
  match scan_result base (split_sign (strip text)).2 with
  | inr _ => Long 0 []
  | inl _ => z
  end.

(** [scan] finds the sign, the base and the place of the digits. *)
Definition scanned_as (pre cs post : list Z) (neg : bool) (r : (Z + Z) + (Z * list Z)) (o : outcome scanned) : Prop :=
  match r with
  | inl (inl code) => o = Done (Refused code)
  | inl (inr _) => o = Done Zero
  | inr (b, ds) => ∃ pre', o = Done (Number (if neg then -1 else 1) b (Z.of_nat (length pre'))) ∧ pre ++ cs ++ post = pre' ++ ds ++ post
  end.

Lemma move_front {pre : list Z} {c : Z} {cs post : list Z} : pre ++ (c :: cs) ++ post = (pre ++ [c]) ++ cs ++ post.
Proof. by rewrite <-app_assoc. Qed.

Lemma scan_prefix_eq pre cs post (neg : bool) : cs ≠ [] →
  scanned_as pre cs post neg (split_base 0 cs) (scan_prefix (pre ++ cs ++ post) (if neg then -1 else 1) (Z.of_nat (length pre)) (Z.of_nat (length pre + length cs))).
Proof.
  intros Hne. destruct cs as [|c cs]; [done|]. unfold scan_prefix. simpl app. rewrite at_app. osimpl.
  assert (Hten : c ≠ 48 → split_base 0 (c :: cs) = inr (10, c :: cs)).
  { intros Hc. unfold split_base. simpl. destruct c as [|p|p]; try done. destruct (decide (p = 48%positive)) as [->|]; [done|]. repeat (destruct p as [p|p|]; try done). }
  destruct (Z.eqb_spec c 48) as [->|Hc]; [|rewrite Hten by done; by exists pre].
  assert (Hx : Z.of_nat (length pre) + 1 = Z.of_nat (length (pre ++ [48]))) by (rewrite length_app; simpl; lia).
  destruct cs as [|d ds]; [rewrite (proj2 (Z.eqb_eq _ _)) by (simpl; lia); done|]. rewrite (proj2 (Z.eqb_neq _ _)) by (simpl; lia).
  change (pre ++ 48 :: (d :: ds) ++ post) with (pre ++ (48 :: d :: ds) ++ post). rewrite move_front, Hx. change ((d :: ds) ++ post) with (d :: (ds ++ post)). rewrite at_app. osimpl.
  assert (Hp : ∀ b, scanned_as pre (48 :: d :: ds) post neg (inr (b, ds)) (Done (Number (if neg then -1 else 1) b (Z.of_nat (length (pre ++ [48])) + 1)))).
  { intros b. exists ((pre ++ [48]) ++ [d]). split; [|by rewrite <-!app_assoc]. do 2 f_equal. rewrite (length_app _ [d]). simpl. lia. }
  unfold split_base. cbn [Z.eqb]. destruct ((d =? 120) || (d =? 88)); [apply Hp|]. destruct ((d =? 111) || (d =? 79)); [apply Hp|]. by destruct ((d =? 98) || (d =? 66)).
Qed.

Lemma scan_eq pre cs post base :
  scanned_as pre cs post (split_sign cs).1 (scan_result base (split_sign cs).2) (scan (pre ++ cs ++ post) base (Z.of_nat (length pre)) (Z.of_nat (length pre + length cs))).
Proof.
  unfold scan. destruct cs as [|c cs]; [by rewrite (proj2 (Z.leb_le _ _)) by (simpl; lia)|]. rewrite (proj2 (Z.leb_gt _ _)) by (simpl; lia). simpl app. rewrite at_app. osimpl.
  change (pre ++ c :: cs ++ post) with (pre ++ (c :: cs) ++ post).
  assert (Hrest : ∀ (neg : bool) pre1 cs1, pre ++ (c :: cs) ++ post = pre1 ++ cs1 ++ post → (length pre + length (c :: cs) = length pre1 + length cs1)%nat →
    scanned_as pre (c :: cs) post neg (scan_result base cs1)
     (if Z.of_nat (length pre1 + length cs1) <=? Z.of_nat (length pre1) then Done (Refused 1)
      else
        r ← (if base =? 0 then scan_prefix (pre1 ++ cs1 ++ post) (if neg then -1 else 1) (Z.of_nat (length pre1)) (Z.of_nat (length pre1 + length cs1)) else Done (Number (if neg then -1 else 1) base (Z.of_nat (length pre1))));
        match r with
        | Number sign base c => if Z.of_nat (length pre1 + length cs1) <=? c then Done (Refused 1) else if (base =? 1) || (36 <? base) then Done (Refused 2) else Done r
        | _ => Done r
        end)).
  { intros neg pre1 cs1 Et El. unfold scan_result. destruct (decide (cs1 = [])) as [->|Hne].
    { by rewrite (proj2 (Z.leb_le _ _)) by (simpl; lia). }
    rewrite (proj2 (Z.leb_gt _ _)) by (destruct cs1; [done|simpl; lia]).
    assert (Hs : scanned_as pre1 cs1 post neg (split_base base cs1) (if base =? 0 then scan_prefix (pre1 ++ cs1 ++ post) (if neg then -1 else 1) (Z.of_nat (length pre1)) (Z.of_nat (length pre1 + length cs1)) else Done (Number (if neg then -1 else 1) base (Z.of_nat (length pre1))))).
    { destruct (Z.eqb_spec base 0) as [->|Hb]; [by apply scan_prefix_eq|]. unfold split_base. rewrite (proj2 (Z.eqb_neq base 0)) by done. by exists pre1. }
    destruct (split_base base cs1) as [[code|z]|[b ds]]; simpl in Hs; [by rewrite Hs|by rewrite Hs|]. destruct Hs as (pre' & -> & Et'). osimpl.
    assert (El' : (length pre1 + length cs1 = length pre' + length ds)%nat) by (apply (f_equal length) in Et'; rewrite !length_app in Et'; lia). rewrite El'.
    destruct (decide (ds = [])) as [->|Hds]; [by rewrite (proj2 (Z.leb_le _ _)) by (simpl; lia)|]. rewrite (proj2 (Z.leb_gt _ _)) by (destruct ds; [done|simpl; lia]).
    destruct ((b =? 1) || (36 <? b)); [done|]. exists pre'. split; [done|]. by rewrite Et. }
  assert (Hx : Z.of_nat (length pre) + 1 = Z.of_nat (length (pre ++ [c]))) by (rewrite length_app; simpl; lia).
  assert (El : (length pre + length (c :: cs) = length (pre ++ [c]) + length cs)%nat) by (rewrite length_app; simpl; lia).
  unfold split_sign. destruct (Z.eqb_spec c 45) as [_|_]; [|destruct (Z.eqb_spec c 43) as [_|_]]; cbn [fst snd].
  - rewrite Hx. specialize (Hrest true (pre ++ [c]) cs move_front El). rewrite El, move_front in *. exact Hrest.
  - rewrite Hx. specialize (Hrest false (pre ++ [c]) cs move_front El). rewrite El, move_front in *. exact Hrest.
  - exact (Hrest false pre (c :: cs) eq_refl eq_refl).
Qed.

(** ** Reading *)

Lemma init_0_over_any s a z : s !! a = Some z → krk_long_init_si a 0 s = Done (0, <[a := Long 0 []]> s).
Proof. intros H. pose proof (init_0_over s a z) as E. by rewrite insert_id in E. Qed.

(** The number that the digits say, or a failure. *)
Lemma parse_digits_eq s num pre ds post b : s !! num = Some (Long 0 []) → 2 ≤ b ≤ 36 → Forall (.≠ 0) ds → ∃ code r,
  (if (b =? 2) || (b =? 4) || (b =? 8) || (b =? 16) || (b =? 32)
   then parse_bits (pre ++ ds ++ post) num b (Z.of_nat (length pre)) (Z.of_nat (length pre + length ds))
   else parse_chunks (pre ++ ds ++ post) num b (Z.of_nat (length pre)) (Z.of_nat (length pre + length ds))) s = Done (code, <[num := r]> s) ∧
  if decide (valid_text b ds ∧ (power_base b = true → digit_chars ds ≠ [])) then code = 0 ∧ repr r (digits_value b ds) else code = 1 ∧ r = Long 0 [].
Proof.
  intros Hn Hb H0. fold (power_base b). destruct (power_base b) eqn:Ep.
  - assert (Hbits : ∃ bits, b = 2 ^ bits ∧ bits_of_base b = bits ∧ 1 ≤ bits ≤ 5).
    { unfold power_base in Ep. rewrite !orb_true_iff, !Z.eqb_eq in Ep. destruct Ep as [[[[->| ->]| ->]| ->]| ->]; [exists 1|exists 2|exists 3|exists 4|exists 5]; done. }
    destruct Hbits as (bits & E1 & E2 & E3). pose proof (parse_bits_eq s num pre ds post b bits Hn E1 E2 E3) as P.
    destruct (decide (valid_text b ds ∧ digit_chars ds ≠ [])) as [Hd|Hd].
    + destruct P as (r & E & Hr). exists 0, r. split; [done|]. rewrite decide_True by tauto. done.
    + exists 1, (Long 0 []). rewrite insert_id by done. split; [done|]. by rewrite decide_False by tauto.
  - destruct (parse_chunks_eq s num (Long 0 []) 0 pre ds post b Hn repr_0 Hb H0) as (code & r & E & H). exists code, r. split; [done|].
    destruct (decide (valid_text b ds)) as [Hd|Hd]; [by rewrite decide_True by (split; [done|by intros])|]. by rewrite decide_False by tauto.
Qed.

Lemma krk_long_parse_string_eq s num z text base : s !! num = Some z → Forall (.≠ 0) text → 0 ≤ base →
  match read_number base text with
  | inl code => krk_long_parse_string text num base (Z.of_nat (length text)) s = Done (code, <[num := after_refusal base text z]> s)
  | inr v => ∃ r, krk_long_parse_string text num base (Z.of_nat (length text)) s = Done (0, <[num := r]> s) ∧ repr r v
  end.
Proof.
  intros Hn H0 Hbase. unfold krk_long_parse_string. set (pre := take_while is_whitespace text). set (rest := drop_while is_whitespace text).
  assert (Et : text = pre ++ rest) by (by rewrite <-(take_drop_while is_whitespace text)).
  pose proof (skip_front_loop [] text [] (S (Z.to_nat (Z.of_nat (length text)))) ltac:(lia)) as E1. cbn [length app] in E1. rewrite app_nil_r, !Nat.add_0_l in E1. fold pre in E1.
  change (Z.of_nat 0) with 0 in E1. rewrite (lift_done _ _ _ _ E1). clear E1.
  assert (El : length text = (length pre + length rest)%nat) by (rewrite Et, length_app; done).
  pose proof (skip_back_loop is_whitespace pre rest [] (S (Z.to_nat (Z.of_nat (length text)))) ltac:(lia)) as E2. rewrite app_nil_r, <-Et, <-El in E2.
  fold (strip text) in E2. assert (Es : drop_back is_whitespace rest = strip text) by done. rewrite Es in E2. rewrite (lift_done _ _ _ _ E2). clear E2.
  destruct (drop_back_prefix is_whitespace rest) as (post & Er & _). rewrite Es in Er. set (cs := strip text) in *.
  assert (Etext : text = pre ++ cs ++ post) by (by rewrite <-Er). pose proof (scan_eq pre cs post base) as Hscan. rewrite <-Etext in Hscan.
  unfold read_number, after_refusal, scan_result in *. fold cs. destruct (split_sign cs) as [neg cs1]. cbn [fst snd] in Hscan |- *.
  assert (Hz : ∀ code : Z, @Done (Z * store) (code, s) = Done (code, <[num := z]> s)) by (intros code; by rewrite insert_id).
  destruct (decide (cs1 = [])); [simpl in Hscan; rewrite (lift_done _ _ _ _ Hscan); apply Hz|].
  destruct (split_base base cs1) as [[code|v]|[b ds]] eqn:Eb; simpl in Hscan.
  { rewrite (lift_done _ _ _ _ Hscan). apply Hz. }
  { rewrite (lift_done _ _ _ _ Hscan). assert (v = 0) as ->.
    { unfold split_base in Eb. destruct (base =? 0); [|done]. destruct cs1 as [|c cs1]; [done|].
      destruct c as [|p|p]; try done. repeat (destruct p as [p|p|]; try done). destruct cs1 as [|d ds]; [by simplify_eq|]. by repeat case_match. }
    st_step (init_0_over_any s num z Hn). eexists. split; [done|apply repr_0]. }
  destruct (decide (ds = [])); [simpl in Hscan; rewrite (lift_done _ _ _ _ Hscan); apply Hz|].
  destruct ((b =? 1) || (36 <? b)) eqn:Er36; simpl in Hscan; [rewrite (lift_done _ _ _ _ Hscan); apply Hz|]. destruct Hscan as (pre' & Hscan & Et'). rewrite (lift_done _ _ _ _ Hscan).
  assert (Hb : 2 ≤ b ≤ 36).
  { apply orb_false_iff in Er36 as [H1%Z.eqb_neq H36%Z.ltb_ge]. assert (b ≠ 0 ∧ 0 ≤ b); [|lia].
    unfold split_base in Eb. destruct (Z.eqb_spec base 0) as [->|]; [|simplify_eq; lia]. destruct cs1 as [|c cs1]; [by simplify_eq|].
    repeat case_match; simplify_eq; lia. }
  st_step (init_0_over_any s num z Hn). rewrite <-Etext in Et'.
  assert (Hd0 : Forall (.≠ 0) ds) by (rewrite Et' in H0; apply Forall_app in H0 as [_ H0]; by apply Forall_app in H0 as [? _]).
  assert (Ee : (length pre + length cs = length pre' + length ds)%nat) by (pose proof (f_equal length Et') as L; rewrite Etext, !length_app in L; lia).
  destruct (parse_digits_eq (<[num := Long 0 []]> s) num pre' ds post b (lookup_insert_eq _ _ _) Hb Hd0) as (code & r & E & H).
  rewrite <-Et', <-Ee in E. st_step E. rewrite insert_insert_eq. destruct (decide _).
  - destruct H as [-> Hr]. cbn [negb Z.eqb]. destruct neg; cbn [Z.eqb].
    + st_step (set_sign_over s num r (-1)). eexists. split; [done|]. apply repr_neg; [done|]. apply digits_value_range; [lia|]. tauto.
    + eexists. split; [done|done].
  - by destruct H as [-> ->].
Qed.

(** ** Round trip *)

Lemma convert_char d : 0 ≤ d < 16 → convert_digit (digit_char d) = d ∧ digit_char d ≠ 95 ∧ is_whitespace (digit_char d) = false ∧ digit_char d ≠ 45 ∧ digit_char d ≠ 43.
Proof.
  intros Hd. unfold digit_char. destruct (Z.ltb_spec d 10); unfold convert_digit, is_whitespace; split_and!; bool_cases; simpl; lia || done.
Qed.

Lemma strip_id text : Forall (λ c, is_whitespace c = false) text → strip text = text.
Proof.
  intros H. assert (E : ∀ l, Forall (λ c, is_whitespace c = false) l → drop_while is_whitespace l = l) by (intros l; induction 1 as [|c l Hc _ _]; simpl; [done|by rewrite Hc]).
  unfold strip, drop_back. rewrite (E text) by done. rewrite (E (rev text)) by (by apply Forall_rev). apply rev_involutive.
Qed.

(** The digits as they are written are read again. *)
Lemma written_value base ds : 2 ≤ base ≤ 16 → KrkDigits.digits_ok base ds →
  let D := rev (digit_char <$> ds) in
  Forall (λ c, is_whitespace c = false ∧ c ≠ 45 ∧ c ≠ 43 ∧ c ≠ 0) D ∧ valid_text base D ∧ digit_chars D = D ∧ digits_value base D = KrkDigits.eval base ds.
Proof.
  intros Hb Hd D.
  assert (Hall : ∀ P : Z → Prop, (∀ d, 0 ≤ d < base → P (digit_char d)) → Forall P D).
  { intros P HP. apply Forall_rev, Forall_fmap. eapply Forall_impl; [exact Hd|]. intros d Hdr. by apply HP. }
  assert (Hdc : digit_chars D = D).
  { assert (Hne : Forall (.≠ 95) D) by (apply Hall; intros d Hdr; apply convert_char; lia). clear -Hne.
    induction Hne as [|c l Hc _ IH]; [done|]. by rewrite digit_chars_cons, IH. }
  split_and!; [| |done|].
  - apply Hall. intros d Hdr. pose proof (convert_char d ltac:(lia)) as (_ & _ & Hw & H1 & H2). pose proof (digit_char_range d ltac:(lia)). split_and!; auto; lia.
  - apply Hall. intros d Hdr. right. pose proof (convert_char d ltac:(lia)) as (-> & _). lia.
  - unfold digits_value. rewrite Hdc. unfold D. rewrite (map_rev convert_digit : ∀ l, convert_digit <$> rev l = rev (convert_digit <$> l)), rev_involutive. f_equal. rewrite <-list_fmap_compose. rewrite <-(list_fmap_id ds) at 2.
    apply list_fmap_ext. intros i d Hdi. simpl. eapply Forall_lookup_1 in Hd; [|exact Hdi]. simpl in Hd. apply convert_char. lia.
Qed.

(** A text that is written with a prefix in a base, and the base it can be read in. *)
Inductive literal : Z → list Z → Z → Prop :=
  | literal_base b : 2 ≤ b ≤ 16 → literal b [] b
  | literal_hex : literal 16 (str "x0") 0
  | literal_octal : literal 8 (str "o0") 0
  | literal_binary : literal 2 (str "b0") 0
  | literal_decimal : literal 10 [] 0.

Lemma written_digits base v : 2 ≤ base ≤ 16 → ∃ ds, (if v =? 0 then [48] else rev (digit_char <$> base_digits base (Z.abs v))) = rev (digit_char <$> ds) ∧
  KrkDigits.digits_ok base ds ∧ ds ≠ [] ∧ KrkDigits.eval base ds = Z.abs v ∧ (v ≠ 0 → normal ds) ∧ (v = 0 → ds = [0]).
Proof.
  intros Hb. destruct (Z.eqb_spec v 0) as [->|Hv].
  - exists [0]. split; [done|]. split; [constructor; [lia|constructor]|]. split_and!; try done. simpl. lia.
  - exists (base_digits base (Z.abs v)). split_and!; [done|by apply base_digits_ok; lia| |by apply eval_base_digits; lia|intros _; apply base_digits_normal|done].
    intros E. pose proof (eval_base_digits base (Z.abs v) ltac:(lia) ltac:(lia)) as E'. rewrite E in E'. simpl in E'. lia.
Qed.

(** The digits behind the sign and the prefix. *)
Lemma split_written base prefix pbase v ds : literal base prefix pbase → ds ≠ [] → KrkDigits.eval base ds = Z.abs v → (v ≠ 0 → normal ds) →
  (v = 0 → ds = [0]) → let cs := rev prefix ++ rev (digit_char <$> ds) in
  (split_base pbase cs = inr (base, rev (digit_char <$> ds)) ∨ v = 0 ∧ split_base pbase cs = inl (inr 0)) ∧ cs ≠ [].
Proof.
  intros HL Hne Hev Hn H0 cs. assert (HD : rev (digit_char <$> ds) ≠ []) by (intros E; apply (f_equal length) in E; rewrite length_rev, length_fmap in E; by destruct ds).
  split; [|by unfold cs; destruct (rev prefix)]. unfold cs. destruct HL; simpl rev; simpl app; try (by left).
  - left. unfold split_base. by rewrite (proj2 (Z.eqb_neq b 0)) by lia.
  - destruct (decide (v = 0)) as [->|Hv]; [right; by rewrite (H0 eq_refl)|]. left. specialize (Hn Hv). destruct ds as [|d ds _] using rev_ind; [done|].
    unfold normal in Hn. rewrite last_snoc in Hn. rewrite fmap_app, rev_app_distr. simpl. unfold digit_char at 1 3.
    assert (d ≠ 0) by congruence. set (c := if d <? 10 then 48 + d else 87 + d) in *. assert (c ≠ 48) by (unfold c; destruct (Z.ltb_spec d 10); lia). clearbody c.
    unfold split_base. simpl. destruct c as [|p|p]; try done. destruct (decide (p = 48%positive)) as [->|]; [done|]. repeat (destruct p as [p|p|]; try done).
Qed.

Lemma read_number_text base prefix pbase v : literal base prefix pbase → read_number pbase (number_text base prefix v) = inr v.
Proof.
  intros HL. assert (Hb : 2 ≤ base ≤ 16) by (by destruct HL).
  assert (Hp : Forall (λ c, is_whitespace c = false ∧ c ≠ 45 ∧ c ≠ 43) (rev prefix)) by (destruct HL; repeat constructor; done).
  unfold number_text. destruct (written_digits base v Hb) as (ds & -> & Hd & Hne & Hev & Hn & H0). destruct (written_value base ds Hb Hd) as (HD & HV & HC & HE). set (D := rev (digit_char <$> ds)) in *.
  destruct (split_written base prefix pbase v ds HL Hne Hev Hn H0) as [Hs Hcs]. fold D in Hs, Hcs. set (cs := rev prefix ++ D) in *.
  assert (Hcl : Forall (λ c, is_whitespace c = false ∧ c ≠ 45 ∧ c ≠ 43) cs).
  { unfold cs. apply Forall_app. split; [done|]. eapply Forall_impl; [exact HD|]. by intros c (? & ? & ? & _). }
  unfold read_number. rewrite strip_id by (apply Forall_app; split; [by destruct (v <? 0); repeat constructor|eapply Forall_impl; [exact Hcl|]; by intros c (? & _)]).
  assert (Hsign : split_sign ((if v <? 0 then [45] else []) ++ cs) = (v <? 0, cs)).
  { destruct (v <? 0); [done|]. destruct cs as [|c cs']; [done|]. inversion Hcl as [|? ? (_ & H45 & H43) _]; subst. simpl.
    by rewrite (proj2 (Z.eqb_neq c 45)), (proj2 (Z.eqb_neq c 43)). }
  rewrite Hsign, decide_False by done. destruct Hs as [->|[-> ->]]; [|done].
  assert (HDne : D ≠ []) by (intros E; apply (f_equal length) in E; unfold D in E; rewrite length_rev, length_fmap in E; by destruct ds).
  rewrite decide_False by done. rewrite (proj2 (Z.eqb_neq base 1)), (proj2 (Z.ltb_ge 36 base)) by lia. cbn [orb].
  rewrite decide_True by (split; [done|by rewrite HC]). f_equal. rewrite HE, Hev. destruct (Z.ltb_spec v 0); lia.
Qed.

(** ** The theorems *)

(** C23: A Kuroko long that is written in a base from two to sixteen is read again as the same number: in
    that base, or, with the prefix of a literal, without one.  Writing stays within the
    buffer that was allocated by the number of bits, and reports the length of the text. *)
Theorem krk_long_text_roundtrip s n num x z v base prefix pbase :
  s !! n = Some x → repr x v → s !! num = Some z → literal base prefix pbase →
  ∃ text hash, krk_long_to_str n base prefix s = Done ((text, Z.of_nat (length text), hash), s) ∧
  ∃ r, krk_long_parse_string text num pbase (Z.of_nat (length text)) s = Done (0, <[num := r]> s) ∧ repr r v.
Proof.
  intros Hn Hx Hnum HL. assert (Hb : 2 ≤ base ≤ 16 ∧ 0 ≤ pbase) by (destruct HL; lia). assert (Hp : Forall (.≠ 0) prefix) by (destruct HL; repeat constructor; done).
  eexists _, _. split; [apply (krk_long_to_str_eq s n x v base prefix); tauto|].
  pose proof (krk_long_parse_string_eq s num z (number_text base prefix v) pbase Hnum) as P. rewrite (read_number_text base prefix pbase v HL) in P.
  apply P; [apply number_text_nonzero|]; tauto.
Qed.

Lemma krk_long_text_roundtrip_witness :
  ∃ text hash, krk_long_to_str 1 16 (str "x0") demo_longs = Done ((text, Z.of_nat (length text), hash), demo_longs) ∧
  ∃ r, krk_long_parse_string text 2 0 (Z.of_nat (length text)) demo_longs = Done (0, <[2 := r]> demo_longs) ∧ repr r (2 ^ 31 + 4).
Proof.
  apply (krk_long_text_roundtrip demo_longs 1 2 (Long 2 [4; 1]) (Long (-1) [7]) (2 ^ 31 + 4) 16 (str "x0") 0);
    [reflexivity|apply demo_repr|reflexivity|constructor].
Defined.

Example roundtrip_text : fst <$> krk_long_to_str 1 16 (str "x0") demo_longs = Done ((str "0x80000004", 10, 3187620420)).
Proof. by vm_compute. Qed.

(** C37: Reading a text without null characters as an integer of Kuroko computes what it
    says ([read_number]): every number, of any length, with its sign; and every refusal
    with its code.  That is 1
    when there is nothing to read (an empty text, only a sign or only a prefix), when a
    character is no digit of the base, and in the bases that are powers of two when there
    are only underscores (elsewhere they are the number zero); 2 for a base that does not
    exist or a zero in front of a number.  A refusal leaves the number as it was when it
    comes before the digits, and zero when it comes from them. *)
Theorem krk_long_parse_correct s num z text base :
  s !! num = Some z → Forall (.≠ 0) text → 0 ≤ base →
  match read_number base text with
  | inl code => krk_long_parse_string text num base (Z.of_nat (length text)) s = Done (code, <[num := after_refusal base text z]> s)
  | inr v => ∃ r, krk_long_parse_string text num base (Z.of_nat (length text)) s = Done (0, <[num := r]> s) ∧ repr r v
  end.
Proof. apply krk_long_parse_string_eq. Qed.

Lemma krk_long_parse_correct_witness :
  (∃ r, krk_long_parse_string (str " -0x_7f_FFFFFFFFFF ") 2 0 19 demo_longs = Done (0, <[2 := r]> demo_longs) ∧ repr r (- (2 ^ 47 - 1))) ∧
  krk_long_parse_string (str "12a4") 2 10 4 demo_longs = Done (1, <[2 := Long 0 []]> demo_longs) ∧
  krk_long_parse_string (str "007") 2 0 3 demo_longs = Done (2, <[2 := Long (-1) [7]]> demo_longs).
Proof.
  split_and!.
  - apply (krk_long_parse_correct demo_longs 2 (Long (-1) [7]) (str " -0x_7f_FFFFFFFFFF ") 0); [reflexivity| |lia]. by repeat constructor.
  - apply (krk_long_parse_correct demo_longs 2 (Long (-1) [7]) (str "12a4") 10); [reflexivity| |lia]. by repeat constructor.
  - apply (krk_long_parse_correct demo_longs 2 (Long (-1) [7]) (str "007") 0); [reflexivity| |lia]. by repeat constructor.
Defined.

(** ** What reading accepts *)

(** A text without a digit is the number zero in base ten, where it is refused in base sixteen; a null character
    ends the digits. *)
Example underscores_only :
  fst <$> krk_long_parse_string (str "_") 2 10 1 demo_longs = Done 0 ∧ fst <$> krk_long_parse_string (str "_") 2 16 1 demo_longs = Done 1 ∧
  snd <$> krk_long_parse_string (str "12" ++ [0] ++ str "junk") 2 10 7 demo_longs = Done (<[2 := Long 1 [12]]> demo_longs).
Proof. by vm_compute. Qed.
