(* ===== verification/KrkDecimal.v ===== *)
(** * Decimal text of Kuroko's long integers ([src/kuroko/src/obj_long.c])

    Long numbers are converted to decimal words of nine digits by halving their bits: the
    words of the high part are multiplied by those of a power of two, with Karatsuba's method
    where they are many.  An array of words with its width is the list of the words, the
    lowest one first; a loop over an array is a recursion along the list. *)
From S2P Require Import Prelude KrkDigits KrkLong KrkArith KrkDivide KrkBits KrkText.
Local Open Scope Z_scope.

Definition DEC_DIGIT_CNT : Z := 9.
Definition DEC_DIGIT_MAX : Z := 1000000000.

(** ** Words *)

(** [(i < awidth) ? a[i] : 0] *)
Definition word (a : list Z) (i : nat) : Z := default 0 (a !! i).

(** The words of a sum from [i] on, and the last carry. *)
Fixpoint add_words (n i : nat) (a b : list Z) (carry : Z) : list Z * Z :=
  match n with
  | O => ([], carry)
  | S n =>
      let s := u32 (u32 (word a i + word b i) + carry) in
      let '(out, carry) := add_words n (S i) a b (truth (DEC_DIGIT_MAX <=? s)) in
      (s mod DEC_DIGIT_MAX :: out, carry)
  end.

Definition dec_add (a b : list Z) : list Z :=
  let '(out, carry) := add_words (length a `max` length b) 0 a b 0 in
  if negb (carry =? 0) then out ++ [1]
  else match out with [] => [0] | _ => out end.

(** The words of [a], from which those of [b] are taken. *)
Fixpoint sub_words (a b : list Z) (carry : Z) : list Z :=
  match a with
  | [] => []
  | x :: a =>
      let a_digit := x - carry in
      let b_digit := word b 0 in
      let '(a_digit, carry) := if a_digit <? b_digit then (a_digit + DEC_DIGIT_MAX, 1) else (a_digit, 0) in
      Z.rem (a_digit - b_digit) DEC_DIGIT_MAX :: sub_words a (tail b) carry
  end.
Definition dec_isub (a b : list Z) : list Z := sub_words a b 0.

Definition dec_shift (a : list Z) (amount : nat) : list Z :=
  match a with [0] => [0] | _ => replicate amount 0 ++ a end.

(** ** Multiplication *)

(** [while (width > 1 && a[width - 1] == 0) width--] *)
Fixpoint strip_words (a : list Z) : list Z :=
  match a with
  | [] => []
  | x :: a' =>
      match a' with
      | [] => [x]
      | _ => match strip_words a' with [0] => [x] | k => x :: k end
      end
  end.

(** One row: the words of [a] times a word, added to [out]. *)
Fixpoint mul_words (a : list Z) (bdigit carry : Z) (out : list Z) : outcome (list Z) :=
  match a, out with
  | _, [] => Fault
  | [], _ :: out => Done (u32 carry :: out)
  | adigit :: a, o :: out =>
      let t := u64 (carry + adigit * bdigit + o) in
      out ← mul_words a bdigit (t / DEC_DIGIT_MAX) out;
      Done (t mod DEC_DIGIT_MAX :: out)
  end.

(** The rows; [out] is the array from the place of the row on. *)
Fixpoint mul_rows (a b out : list Z) : outcome (list Z) :=
  match b with
  | [] => Done out
  | bdigit :: b =>
      out ← mul_words a bdigit 0 out;
      match out with [] => Fault | o :: out => out ← mul_rows a b out; Done (o :: out) end
  end.

(** The words below [m2], without the zeros on top, and those from [m2] on. *)
Definition low_half (m2 : nat) (a : list Z) : list Z := strip_words (take m2 a).
Definition high_half (m2 : nat) (a : list Z) : list Z := if (m2 <=? length a)%nat then drop m2 a else [0].

(** A product by [mul] of smaller ones, of arrays of which [b] is not the longer one. *)
Definition mul_step (mul : list Z → list Z → outcome (list Z)) (a b : list Z) : outcome (list Z) :=
  if bool_decide (a = [0]) || bool_decide (b = [0]) then Done [0]
  else if bool_decide (a = [1]) then Done b
  else if bool_decide (b = [1]) then Done a
  else if (length b <? 50)%nat then
    out ← mul_rows a b (replicate (length a + length b) 0);
    Done (strip_words out)
  else
    let m2 := (length a / 2)%nat in
    let low1 := low_half m2 a in
    let high1 := high_half m2 a in
    let low2 := low_half m2 b in
    let high2 := high_half m2 b in
    z0 ← mul low1 low2;
    z2 ← mul high1 high2;
    z1 ← mul (dec_add low1 high1) (dec_add low2 high2);
    let z1 := dec_isub (dec_isub z1 z2) z0 in
    Done (dec_add (dec_shift z2 (m2 * 2)) (dec_add (dec_shift z1 m2) z0)).

Fixpoint mul_fuel (fuel : nat) (a b : list Z) : outcome (list Z) :=
  match fuel with
  | O => Timeout
  | S fuel => if (length a <? length b)%nat then mul_step (mul_fuel fuel) b a else mul_step (mul_fuel fuel) a b
  end.

(** Every level of recursion multiplies shorter arrays. *)
Definition dec_mul (a b : list Z) : outcome (list Z) := mul_fuel (S (length a `max` length b)) a b.

(** ** Powers of two and numbers *)

Fixpoint two_raised_fuel (fuel : nat) (w : Z) : outcome (list Z) :=
  match fuel with
  | O => Timeout
  | S fuel =>
      if w <=? 29 then Done [u32 (Z.shiftl 1 w)]
      else
        let w2 := Z.shiftr w 1 in
        t ← two_raised_fuel fuel w2;
        if Z.land w 1 =? 0 then dec_mul t t
        else
          right ← two_raised_fuel fuel (w - w2);
          dec_mul t right
  end.

(** Every level halves the exponent. *)
Definition dec_two_raised (w : Z) : outcome (list Z) := two_raised_fuel (S (Z.to_nat (bits w))) w.

Fixpoint to_dec_fuel (fuel : nat) (n w : Z) : St store (list Z) :=
  match fuel with
  | O => λ _, Timeout
  | S fuel =>
      x ← rd n;
      if width x =? 0 then mret [0]
      else if w <=? 29 then d ← lift (digit x 0); mret [d]
      else
        with_local (λ hi, with_local (λ lo, with_local (λ tmp,
          krk_long_init_many [hi; lo; tmp];;
          let w2 := Z.shiftr w 1 in
          krk_long_rshift_z hi n w2;;
          krk_long_lshift_z tmp hi w2;;
          krk_long_sub lo n tmp;;
          krk_long_clear_many [tmp];;
          a ← to_dec_fuel fuel hi (w - w2);
          krk_long_clear_many [hi];;
          b ← lift (dec_two_raised w2);
          c ← lift (dec_mul a b);
          a ← to_dec_fuel fuel lo w2;
          krk_long_clear_many [lo];;
          mret (dec_add a c))))
  end.

Definition long_to_dec_inner (n w : Z) : St store (list Z) := to_dec_fuel (S (Z.to_nat (bits w))) n w.

(** ** Text *)

(** [for (j = 0, div = DEC_DIGIT_MAX / 10; j < DEC_DIGIT_CNT; j++, div /= 10)] *)
Fixpoint divisors (n : nat) (div : Z) : list Z := match n with O => [] | S n => div :: divisors n (div / 10) end.
Definition word_digits (d : Z) : list Z := (λ div, (d / div) mod 10) <$> divisors (Z.to_nat DEC_DIGIT_CNT) (DEC_DIGIT_MAX / 10).

(** The characters of the words, from the last word on, without the first [leading] digits. *)
Fixpoint write_digits (len : Z) (w ds : list Z) (leading : Z) : outcome (list Z * Z) :=
  match ds with
  | [] => Done (w, leading)
  | d :: ds =>
      if negb (leading =? 0) then write_digits len w ds (leading - 1)
      else w ← write len w (d + 48); write_digits len w ds 0
  end.
Fixpoint write_words (len : Z) (w words : list Z) (leading : Z) : outcome (list Z) :=
  match words with
  | [] => Done w
  | d :: words => '(w, leading) ← write_digits len w (word_digits d) leading; write_words len w words leading
  end.

Definition krk_long_to_decimal_str (value : Z) : St store (list Z) :=
  v ← rd value;
  with_local (λ abs,
    wr abs v;;
    sign ← krk_long_sign abs;
    let inv := truth (sign =? -1) in
    krk_long_set_sign abs 1;;
    w ← bits_in abs;
    digits ← long_to_dec_inner abs w;
    top ← lift (of_option (last digits));
    let leading := Z.of_nat (length (take_while (λ d, d =? 0) (word_digits top))) in
    let len := Z.of_nat (length digits) * DEC_DIGIT_CNT + 1 - leading + inv in
    out ← (if negb (inv =? 0) then lift (write len [] 45) else mret []);
    out ← lift (write_words len out (rev digits) leading);
    lift (write len out 0);;
    mret out).

(** [long.__repr__]: division by ten for few digits. *)
Definition long_repr (value : Z) : St store (list Z) :=
  v ← rd value;
  if (-10 <? width v) && (width v <? 10) then '(text, _, _) ← krk_long_to_str value 10 []; mret text
  else krk_long_to_decimal_str value.
