(* ===== verification/KrkDecimalProps.v ===== *)
(** * Decimal text of Kuroko's long integers: what it says

    The arithmetic on decimal words is that of the integers, for words of any number and
    whichever way a product is computed; the text of a number is read again as that
    number. *)
From S2P Require Import Prelude KrkDigits KrkLong KrkArith KrkDivide KrkBits KrkText KrkWrite KrkRead KrkDecimal.
Local Open Scope Z_scope.

Notation W := 1000000000.
Notation wval := (KrkDigits.eval W).
Notation words_ok := (KrkDigits.digits_ok W).

Lemma W_gt : 1 < W.
Proof. done. Qed.
#[local] Hint Resolve W_gt : core.

(** ** Sums and differences *)

Lemma wval_take_S n i a : wval (take (S n) (drop i a)) = word a i + W * wval (take n (drop (S i) a)).
Proof.
  unfold word. destruct (a !! i) as [x|] eqn:E.
  - rewrite (drop_S _ _ _ E). done.
  - apply lookup_ge_None in E. rewrite !drop_ge by lia. rewrite !take_nil. simpl. lia.
Qed.

Lemma word_range a i : words_ok a → 0 ≤ word a i < W.
Proof. intros H. unfold word. destruct (a !! i) as [x|] eqn:E; simpl; [by eapply digits_ok_lookup|lia]. Qed.

Lemma truth_range b : 0 ≤ truth b ≤ 1.
Proof. destruct b; simpl; lia. Qed.

Lemma add_words_eq a b : words_ok a → words_ok b → ∀ n i carry, 0 ≤ carry ≤ 1 →
  let '(out, c) := add_words n i a b carry in
  length out = n ∧ words_ok out ∧ 0 ≤ c ≤ 1 ∧ wval out + W ^ Z.of_nat n * c = wval (take n (drop i a)) + wval (take n (drop i b)) + carry.
Proof.
  intros Da Db. induction n as [|n IH]; intros i carry Hc.
  - cbn [add_words]. rewrite !take_0. split_and!; try done; try lia; [constructor|simpl; lia].
  - cbn [add_words]. pose proof (word_range a i Da). pose proof (word_range b i Db). set (s := u32 (u32 (word a i + word b i) + carry)).
    assert (Hs : s = word a i + word b i + carry) by (unfold s; rewrite !u32_small by (rewrite ?u32_small; lia); done).
    specialize (IH (S i) (truth (DEC_DIGIT_MAX <=? s)) (truth_range _)). destruct (add_words n (S i) a b (truth (DEC_DIGIT_MAX <=? s))) as [out c].
    destruct IH as (Hl & Hd & Hcr & He). unfold DEC_DIGIT_MAX in *. rewrite !wval_take_S, pow_S, eval_cons by done. split_and!; try lia; [simpl; lia| |].
    + constructor; [by apply Z.mod_pos_bound|done].
    + destruct (Z.leb_spec W s); simpl truth in He; [assert (s mod W = s - W) as -> by (symmetry; apply Z.mod_unique with 1; lia)|rewrite Z.mod_small by lia]; lia.
Qed.

Lemma dec_add_eq a b : words_ok a → words_ok b → words_ok (dec_add a b) ∧ wval (dec_add a b) = wval a + wval b ∧ dec_add a b ≠ [] ∧
  (length (dec_add a b) ≤ S (length a `max` length b))%nat ∧ (length a `max` length b ≤ length (dec_add a b))%nat.
Proof.
  intros Da Db. unfold dec_add. pose proof (add_words_eq a b Da Db (length a `max` length b) 0 0 ltac:(lia)) as H.
  destruct (add_words _ 0 a b 0) as [out c]. destruct H as (Hl & Hd & Hc & He). rewrite !drop_0, !take_ge in He by lia.
  destruct (Z.eqb_spec c 0) as [->|Hc0]; cbn [negb].
  - assert (Hv : wval out = wval a + wval b) by lia. destruct out as [|x out].
    + simpl in Hl, Hv. split_and!; [by repeat constructor|simpl; lia|done|simpl; lia|simpl; lia].
    + split_and!; [done|done|done|lia|lia].
  - assert (c = 1) as -> by lia. split_and!.
    + apply digits_ok_app. split; [done|]. by repeat constructor.
    + rewrite (eval_snoc W), Hl. lia.
    + by destruct out.
    + rewrite length_app. simpl. lia.
    + rewrite length_app. simpl. lia.
Qed.

Lemma sub_words_eq a : words_ok a → ∀ b carry, words_ok b → 0 ≤ carry ≤ 1 → ∃ c, 0 ≤ c ≤ 1 ∧ length (sub_words a b carry) = length a ∧
  words_ok (sub_words a b carry) ∧ wval (sub_words a b carry) = wval a - wval (take (length a) b) - carry + W ^ Z.of_nat (length a) * c.
Proof.
  induction 1 as [|x a Hx _ IH]; intros b carry Db Hc.
  { exists carry. cbn [length sub_words]. rewrite take_0. split_and!; try done; try lia; [constructor|simpl; lia]. }
  cbn [sub_words length]. assert (Hb : words_ok (tail b)) by (destruct b; [done|by inversion Db]). pose proof (word_range b 0 Db) as Hw.
  assert (Ht : wval (take (S (length a)) b) = word b 0 + W * wval (take (length a) (tail b))) by (destruct b; [cbn [tail]; rewrite !take_nil; change (word [] 0) with 0; simpl; lia|done]). rewrite Ht, pow_S, eval_cons by done.
  unfold DEC_DIGIT_MAX. destruct (Z.ltb_spec (x - carry) (word b 0)) as [Hlt|Hge].
  - destruct (IH (tail b) 1 Hb ltac:(lia)) as (c & Hcr & Hl & Hd & He). exists c. rewrite Z.rem_small by lia. rewrite eval_cons, He. split_and!; try lia; [cbn [length]; lia|constructor; [lia|done]].
  - destruct (IH (tail b) 0 Hb ltac:(lia)) as (c & Hcr & Hl & Hd & He). exists c. rewrite Z.rem_small by lia. rewrite eval_cons, He. split_and!; try lia; [cbn [length]; lia|constructor; [lia|done]].
Qed.

Lemma dec_isub_eq a b : words_ok a → words_ok b → wval b ≤ wval a →
  words_ok (dec_isub a b) ∧ wval (dec_isub a b) = wval a - wval b ∧ length (dec_isub a b) = length a.
Proof.
  intros Da Db Hle. destruct (sub_words_eq a Da b 0 Db ltac:(lia)) as (c & Hc & Hl & Hd & He). unfold dec_isub. split_and!; try done.
  pose proof (eval_bound W W_gt _ Hd) as B. rewrite Hl in B. pose proof (eval_bound W W_gt _ Da) as Ba. set (P := W ^ Z.of_nat (length a)) in *.
  assert (Ht : wval (take (length a) b) = wval b).
  { destruct (decide (length a ≤ length b)%nat) as [Hl'|Hl']; [|by rewrite take_ge by lia]. pose proof (eval_take_drop W (length a) b Hl') as E. fold P in E.
    assert (0 ≤ wval (take (length a) b)) by (apply eval_nonneg; [done|by apply Forall_take]).
    assert (0 ≤ wval (drop (length a) b)) by (apply eval_nonneg; [done|by apply Forall_drop]).
    set (d := wval (drop (length a) b)) in *. destruct (decide (d = 0)) as [->|]; [lia|]. assert (P * 1 ≤ P * d) by (apply Z.mul_le_mono_nonneg_l; lia). lia. }
  rewrite Ht in He. destruct (decide (c = 0)) as [->|]; [lia|]. assert (c = 1) as -> by lia. lia.
Qed.

Lemma dec_shift_eq a n : words_ok a → words_ok (dec_shift a n) ∧ wval (dec_shift a n) = W ^ Z.of_nat n * wval a ∧ (length (dec_shift a n) ≤ n + length a)%nat ∧ (a ≠ [] → dec_shift a n ≠ []).
Proof.
  intros Da. assert (Hgen : words_ok (replicate n 0 ++ a) ∧ wval (replicate n 0 ++ a) = W ^ Z.of_nat n * wval a ∧ (length (replicate n 0%Z ++ a) ≤ n + length a)%nat ∧ (a ≠ [] → replicate n 0 ++ a ≠ [])).
  { split_and!; [apply digits_ok_app; split; [by apply digits_ok_zeros|done]|by rewrite eval_app, eval_zeros, length_replicate|rewrite length_app, length_replicate; lia|by destruct (replicate n 0)]. }
  unfold dec_shift. destruct a as [|x [|y a]]; try done; destruct x; try done. split_and!; [done|simpl; lia|simpl; lia|done].
Qed.

(** ** Products *)

Lemma strip_words_eq a : wval (strip_words a) = wval a ∧ (words_ok a → words_ok (strip_words a)) ∧ (length (strip_words a) ≤ length a)%nat ∧
  (a ≠ [] → strip_words a ≠ []) ∧ (a ≠ [] → strip_words a = [0] ∨ normal (strip_words a)).
Proof.
  induction a as [|x a (IHv & IHd & IHl & IHn & IHz)]; [done|]. destruct a as [|y a].
  { split_and!; try done. intros _. simpl. unfold normal. simpl. destruct (decide (x = 0)) as [->|]; [by left|]. right. congruence. }
  assert (E : strip_words (x :: y :: a) = match strip_words (y :: a) with [0] => [x] | k => x :: k end) by done.
  set (l := y :: a) in *. assert (Hl : l ≠ []) by done. specialize (IHn Hl). specialize (IHz Hl). rewrite E. clear E.
  destruct (decide (strip_words l = [0])) as [E0|E0].
  - rewrite E0 in *. split_and!; try done.
    + rewrite !eval_cons, <-IHv. simpl. lia.
    + intros D. inversion D; subst. constructor; [done|constructor].
    + simpl. lia.
    + intros _. unfold normal. simpl. destruct (decide (x = 0)) as [->|]; [by left|]. right. congruence.
  - assert (Em : match strip_words l with [0] => [x] | k => x :: k end = x :: strip_words l) by (destruct (strip_words l) as [|[|p|p] [|z k]]; done). rewrite Em. split_and!.
    + by rewrite !eval_cons, IHv.
    + intros D. inversion D; subst. constructor; [done|by apply IHd].
    + cbn [length]. lia.
    + done.
    + intros _. right. destruct IHz as [|Hn]; [done|]. unfold normal in *. destruct (strip_words l); [done|]. by rewrite last_cons_cons.
Qed.

Lemma mul_words_eq a : words_ok a → ∀ bd carry o1 x rest, length o1 = length a → words_ok o1 → 0 ≤ bd < W → 0 ≤ carry < W → ∃ o2 c,
  mul_words a bd carry (o1 ++ x :: rest) = Done (o2 ++ c :: rest) ∧ length o2 = length a ∧ words_ok o2 ∧ 0 ≤ c < W ∧
  wval o2 + W ^ Z.of_nat (length a) * c = wval o1 + wval a * bd + carry.
Proof.
  induction 1 as [|y a Hy _ IH]; intros bd carry o1 x rest Hl Do Hbd Hc.
  - destruct o1; [|done]. exists [], carry. simpl. unfold u32. rewrite Z.mod_small by lia. split_and!; try done; lia.
  - destruct o1 as [|o o1]; [done|]. inversion Do; subst. simpl in Hl. cbn [app mul_words]. rewrite u64_small by nia. set (t := carry + y * bd + o). unfold DEC_DIGIT_MAX.
    assert (Ht : 0 ≤ t / W < W) by (split; [apply Z.div_pos; unfold t; nia|apply Z.div_lt_upper_bound; unfold t; nia]).
    destruct (IH bd (t / W) o1 x rest ltac:(lia) ltac:(done) Hbd Ht) as (o2 & c & E & Hl2 & D2 & Hc2 & He). rewrite E. osimpl.
    exists (t mod W :: o2), c. split_and!; try done; try lia; [simpl; lia|constructor; [by apply Z.mod_pos_bound|done]|].
    rewrite !eval_cons. cbn [length]. rewrite pow_S by done. pose proof (Z.div_mod t W ltac:(done)). unfold t in H at 1. nia.
Qed.

Lemma mul_rows_eq a : words_ok a → ∀ b o1, words_ok b → length o1 = length a → words_ok o1 → ∃ r,
  mul_rows a b (o1 ++ replicate (length b) 0) = Done r ∧ words_ok r ∧ length r = (length a + length b)%nat ∧ wval r = wval o1 + wval a * wval b.
Proof.
  intros Da. induction b as [|bd b IH]; intros o1 Db Hl Do.
  - exists o1. simpl. rewrite app_nil_r. split_and!; try done; [lia|simpl; lia].
  - inversion Db; subst. cbn [length replicate mul_rows]. destruct (mul_words_eq a Da bd 0 o1 0 (replicate (length b) 0) Hl Do ltac:(done) ltac:(lia)) as (o2 & c & E & Hl2 & D2 & Hc & He). rewrite E. osimpl.
    assert (Hs : ∃ o o3, o2 ++ [c] = o :: o3) by (destruct o2; simpl; eauto). destruct Hs as (o & o3 & Eo).
    assert (E1 : o2 ++ c :: replicate (length b) 0 = o :: (o3 ++ replicate (length b) 0)) by (change (c :: replicate (length b) 0) with ([c] ++ replicate (length b) 0); rewrite app_assoc, Eo; done).
    rewrite E1. assert (Dc : words_ok (o :: o3)) by (rewrite <-Eo; apply digits_ok_app; split; [done|constructor; [done|constructor]]). inversion Dc; subst.
    assert (Hl3 : length o3 = length a) by (apply (f_equal length) in Eo; rewrite length_app in Eo; simpl in Eo; lia).
    destruct (IH o3 ltac:(done) Hl3 ltac:(done)) as (r & Er & Dr & Lr & Vr). rewrite Er. osimpl. exists (o :: r). split_and!; [done|by constructor|simpl; lia|].
    apply (f_equal (KrkDigits.eval W)) in Eo. rewrite (eval_snoc W), Hl2, eval_cons in Eo. rewrite !eval_cons, Vr. nia.
Qed.

Lemma high_half_eq m a : words_ok a → words_ok (high_half m a) ∧ (length (high_half m a) ≤ (length a - m) `max` 1)%nat.
Proof.
  intros Da. unfold high_half. destruct (Nat.leb_spec m (length a)).
  - split; [by apply Forall_drop|]. rewrite length_drop. lia.
  - split; [by repeat constructor|]. simpl. lia.
Qed.

Lemma low_half_eq m a : words_ok a → words_ok (low_half m a) ∧ (length (low_half m a) ≤ m `min` length a)%nat ∧ ((0 < m)%nat → a ≠ [] → low_half m a ≠ []).
Proof.
  intros Da. unfold low_half. destruct (strip_words_eq (take m a)) as (_ & Hd & Hl & Hn & _). split_and!.
  - apply Hd. by apply Forall_take.
  - rewrite length_take in Hl. lia.
  - intros Hm Hne. apply Hn. destruct m, a; [lia|lia|done|done].
Qed.

Lemma halves_value m a : wval a = wval (low_half m a) + W ^ Z.of_nat m * wval (high_half m a).
Proof.
  unfold low_half, high_half. destruct (strip_words_eq (take m a)) as (-> & _). destruct (Nat.leb_spec m (length a)).
  - by apply eval_take_drop.
  - rewrite take_ge by lia. simpl. lia.
Qed.

(** A way to multiply arrays of less than [n] words. *)
Definition multiplies (mul : list Z → list Z → outcome (list Z)) (n : nat) : Prop :=
  ∀ a b, words_ok a → words_ok b → (length a < n)%nat → (length b < n)%nat →
  ∃ r, mul a b = Done r ∧ words_ok r ∧ wval r = wval a * wval b.

(** The parts of a product by Karatsuba's method. *)
Definition karatsuba (mul : list Z → list Z → outcome (list Z)) (m2 : nat) (a b : list Z) : outcome (list Z) :=
  z0 ← mul (low_half m2 a) (low_half m2 b);
  z2 ← mul (high_half m2 a) (high_half m2 b);
  z1 ← mul (dec_add (low_half m2 a) (high_half m2 a)) (dec_add (low_half m2 b) (high_half m2 b));
  Done (dec_add (dec_shift z2 (m2 * 2)) (dec_add (dec_shift (dec_isub (dec_isub z1 z2) z0) m2) z0)).

Record parts (mul : list Z → list Z → outcome (list Z)) (m2 : nat) (a b z0 z1 z2 x y : list Z) : Prop := {
  part_low : mul (low_half m2 a) (low_half m2 b) = Done z0;
  part_high : mul (high_half m2 a) (high_half m2 b) = Done z2;
  part_sum : mul (dec_add (low_half m2 a) (high_half m2 a)) (dec_add (low_half m2 b) (high_half m2 b)) = Done z1;
  part_z0 : words_ok z0 ∧ wval z0 = wval (low_half m2 a) * wval (low_half m2 b);
  part_z1 : words_ok z1 ∧ wval z1 = (wval (low_half m2 a) + wval (high_half m2 a)) * (wval (low_half m2 b) + wval (high_half m2 b));
  part_z2 : words_ok z2 ∧ wval z2 = wval (high_half m2 a) * wval (high_half m2 b);
  part_x : x = dec_shift z2 (m2 * 2) ∧ words_ok x;
  part_y : words_ok y ∧ (length (dec_shift (dec_isub (dec_isub z1 z2) z0) m2) ≤ m2 + length z1)%nat ∧
    y = dec_add (dec_shift (dec_isub (dec_isub z1 z2) z0) m2) z0 ∧ words_ok (dec_shift (dec_isub (dec_isub z1 z2) z0) m2);
  part_value : wval x + wval y = wval a * wval b ∧ 0 ≤ wval x ∧ 0 ≤ wval y
}.

Lemma half_widths m (a b : list Z) : (length b ≤ length a)%nat → (50 ≤ length b)%nat → m = (length a / 2)%nat →
  (25 ≤ m ≤ length a - m)%nat ∧ (length a - m ≤ S m)%nat.
Proof.
  intros H1 H2 ->. pose proof (Nat.div_mod (length a) 2 ltac:(done)). pose proof (Nat.mod_upper_bound (length a) 2 ltac:(done)). lia.
Qed.

Lemma karatsuba_parts mul m2 a b : multiplies mul (length a) → words_ok a → words_ok b → (length b ≤ length a)%nat → (50 ≤ length b)%nat → m2 = (length a / 2)%nat →
  ∃ z0 z1 z2 x y, karatsuba mul m2 a b = Done (dec_add x y) ∧ parts mul m2 a b z0 z1 z2 x y.
Proof.
  intros Hmul Da Db Hlen Hb Hm. destruct (half_widths m2 a b Hlen Hb Hm) as [Hm1 Hm2].
  destruct (low_half_eq m2 a Da) as (Dl1 & Ll1 & _). destruct (high_half_eq m2 a Da) as (Dh1 & Lh1). destruct (low_half_eq m2 b Db) as (Dl2 & Ll2 & _). destruct (high_half_eq m2 b Db) as (Dh2 & Lh2).
  pose proof (halves_value m2 a) as Va. pose proof (halves_value m2 b) as Vb.
  pose proof (eval_nonneg W W_gt _ Dl1). pose proof (eval_nonneg W W_gt _ Dh1). pose proof (eval_nonneg W W_gt _ Dl2). pose proof (eval_nonneg W W_gt _ Dh2).
  destruct (dec_add_eq _ _ Dl1 Dh1) as (Ds1 & Vs1 & _ & Ls1 & _). destruct (dec_add_eq _ _ Dl2 Dh2) as (Ds2 & Vs2 & _ & Ls2 & _).
  destruct (Hmul (low_half m2 a) (low_half m2 b)) as (z0 & E0 & D0 & V0); [done..|lia|lia|]. destruct (Hmul (high_half m2 a) (high_half m2 b)) as (z2 & E2 & D2 & V2); [done..|lia|lia|].
  destruct (Hmul (dec_add (low_half m2 a) (high_half m2 a)) (dec_add (low_half m2 b) (high_half m2 b))) as (z1 & E1 & D1 & V1); [done..|lia|lia|]. rewrite Vs1, Vs2 in V1.
  destruct (dec_isub_eq z1 z2 D1 D2 ltac:(nia)) as (Dm & Vm & Lm). destruct (dec_isub_eq (dec_isub z1 z2) z0 Dm D0 ltac:(nia)) as (Dn & Vn & Ln).
  destruct (dec_shift_eq (dec_isub (dec_isub z1 z2) z0) m2 Dn) as (Ds & Vs & Ls & _). destruct (dec_shift_eq z2 (m2 * 2) D2) as (Dt & Vt & _).
  destruct (dec_add_eq _ z0 Ds D0) as (Du & Vu & _).
  exists z0, z1, z2, (dec_shift z2 (m2 * 2)), (dec_add (dec_shift (dec_isub (dec_isub z1 z2) z0) m2) z0). split; [unfold karatsuba; by rewrite E0, E2, E1|].
  split; try done; [split_and!; try done; lia|]. split_and!; [|by apply eval_nonneg..].
  rewrite Vt, Vu, Vs, Vn, Vm, V0, V1, V2, Va, Vb, Nat2Z.inj_mul, Z.pow_mul_r by lia. change (Z.of_nat 2) with 2. rewrite Z.pow_2_r. ring.
Qed.

Lemma karatsuba_eq mul m2 a b : multiplies mul (length a) → words_ok a → words_ok b → (length b ≤ length a)%nat → (50 ≤ length b)%nat → m2 = (length a / 2)%nat →
  ∃ r, karatsuba mul m2 a b = Done r ∧ words_ok r ∧ wval r = wval a * wval b.
Proof.
  intros Hmul Da Db Hlen Hb Hm. destruct (karatsuba_parts mul m2 a b Hmul Da Db Hlen Hb Hm) as (z0 & z1 & z2 & x & y & E & [_ _ _ _ _ _ [_ Dx] (Dy & _) [V _]]).
  exists (dec_add x y). split; [done|]. destruct (dec_add_eq x y Dx Dy) as (D & V' & _). split; [done|]. lia.
Qed.

Lemma mul_step_eq mul a b : multiplies mul (length a) → words_ok a → words_ok b → (length b ≤ length a)%nat →
  ∃ r, mul_step mul a b = Done r ∧ words_ok r ∧ wval r = wval a * wval b.
Proof.
  intros Hmul Da Db Hlen. unfold mul_step.
  destruct (bool_decide_reflect (a = [0])) as [->|_]; [exists [0]; split_and!; [done|by repeat constructor|simpl; lia]|].
  destruct (bool_decide_reflect (b = [0])) as [->|_]; [exists [0]; split_and!; [done|by repeat constructor|simpl; lia]|]. cbn [orb].
  destruct (bool_decide_reflect (a = [1])) as [->|_].
  { exists b. split_and!; [done|done|]. cbn [KrkDigits.eval foldr]. lia. }
  destruct (bool_decide_reflect (b = [1])) as [->|_]; [exists a; split_and!; [done|done|cbn [KrkDigits.eval foldr]; lia]|].
  destruct (Nat.ltb_spec (length b) 50) as [Hb|Hb]; [|by apply (karatsuba_eq mul (length a / 2)%nat)].
  destruct (mul_rows_eq a Da b (replicate (length a) 0) Db ltac:(by rewrite length_replicate) ltac:(by apply digits_ok_zeros)) as (r & Er & Dr & Lr & Vr).
  rewrite replicate_add, Er. osimpl. destruct (strip_words_eq r) as (Vs & Ds & _). exists (strip_words r). split_and!; [done|by apply Ds|].
  rewrite Vs, Vr, eval_zeros. lia.
Qed.

Lemma mul_fuel_eq fuel : multiplies (mul_fuel fuel) fuel.
Proof.
  induction fuel as [|fuel IH]; intros a b Da Db Ha Hb; [lia|]. cbn [mul_fuel].
  assert (Hmul : ∀ n, (n ≤ fuel)%nat → multiplies (mul_fuel fuel) n) by (intros n Hn x y Dx Dy Hx Hy; apply IH; auto; lia).
  destruct (Nat.ltb_spec (length a) (length b)).
  - destruct (mul_step_eq (mul_fuel fuel) b a) as (r & E & D & V); auto; [apply Hmul; lia|lia|]. exists r. split_and!; try done. lia.
  - apply mul_step_eq; auto. apply Hmul. lia.
Qed.

Lemma dec_mul_eq a b : words_ok a → words_ok b → ∃ r, dec_mul a b = Done r ∧ words_ok r ∧ wval r = wval a * wval b.
Proof. intros Da Db. apply mul_fuel_eq; auto; lia. Qed.

(** ** Powers of two and numbers *)

Lemma half_bounds w f : 29 < w → w ≤ 2 ^ Z.of_nat (S f) → let w2 := Z.shiftr w 1 in 14 < w2 ≤ 2 ^ Z.of_nat f ∧ 14 < w - w2 ≤ 2 ^ Z.of_nat f.
Proof.
  intros Hw Hf. rewrite Z.shiftr_div_pow2 by done. change (2 ^ 1) with 2. rewrite Nat2Z.inj_succ, Z.pow_succ_r in Hf by lia.
  pose proof (Z.div_mod w 2 ltac:(done)). pose proof (Z.mod_pos_bound w 2 ltac:(done)). lia.
Qed.

Lemma one_word v : 0 ≤ v < W → words_ok [v] ∧ wval [v] = v.
Proof. intros H. split; [by constructor|simpl; lia]. Qed.

Lemma small_power w : 0 ≤ w ≤ 29 → 0 < 2 ^ w < W.
Proof. intros H. split; [apply Z.pow_pos_nonneg; lia|]. assert (2 ^ w ≤ 2 ^ 29) by (apply Z.pow_le_mono_r; lia). lia. Qed.

Lemma two_raised_S fuel w : two_raised_fuel (S fuel) w =
  if w <=? 29 then Done [u32 (Z.shiftl 1 w)]
  else t ← two_raised_fuel fuel (Z.shiftr w 1);
    if Z.land w 1 =? 0 then dec_mul t t else right ← two_raised_fuel fuel (w - Z.shiftr w 1); dec_mul t right.
Proof. done. Qed.

Lemma two_raised_eq f : ∀ w, 0 ≤ w ≤ 2 ^ Z.of_nat f → ∃ r, two_raised_fuel (S f) w = Done r ∧ words_ok r ∧ wval r = 2 ^ w.
Proof.
  induction f as [|f IH]; intros w Hw; rewrite two_raised_S; destruct (Z.leb_spec w 29) as [H29|H29].
  1,3: pose proof (small_power w ltac:(lia)); exists [2 ^ w]; rewrite Z.shiftl_mul_pow2, Z.mul_1_l, u32_small by lia; by destruct (one_word (2 ^ w)) as [? ?]; [lia|].
  { change (2 ^ Z.of_nat 0) with 1 in Hw. lia. }
  destruct (half_bounds w f H29 ltac:(lia)) as [H1 H2]. set (w2 := Z.shiftr w 1) in *.
  destruct (IH w2 ltac:(lia)) as (t & Et & Dt & Vt). rewrite Et. osimpl. destruct (Z.eqb_spec (Z.land w 1) 0) as [E0|E0].
  - destruct (dec_mul_eq t t Dt Dt) as (r & Er & Dr & Vr). exists r. split_and!; try done. rewrite Vr, Vt, <-Z.pow_add_r by lia. f_equal.
    change 1 with (Z.ones 1) in E0. rewrite Z.land_ones in E0 by done. unfold w2. rewrite Z.shiftr_div_pow2 by done. change (2 ^ 1) with 2 in *. pose proof (Z.div_mod w 2 ltac:(done)). lia.
  - destruct (IH (w - w2) ltac:(lia)) as (u & Eu & Du & Vu). rewrite Eu. osimpl.
    destruct (dec_mul_eq t u Dt Du) as (r & Er & Dr & Vr). exists r. split_and!; try done. rewrite Vr, Vt, Vu, <-Z.pow_add_r by lia. f_equal. lia.
Qed.

Lemma bits_fuel w : 0 ≤ w → w ≤ 2 ^ Z.of_nat (Z.to_nat (bits w)).
Proof. intros Hw. rewrite Z2Nat.id by apply bits_nonneg. pose proof (bits_pow2 w Hw). lia. Qed.

Lemma dec_two_raised_eq w : 0 ≤ w → ∃ r, dec_two_raised w = Done r ∧ words_ok r ∧ wval r = 2 ^ w.
Proof. intros Hw. apply two_raised_eq. pose proof (bits_fuel w Hw). lia. Qed.

(** The number split at bit [w2], by the shifts and the difference. *)
Lemma split_number {A} s n hi lo tmp x v w2 (k : St store A) : NoDup [hi; lo; tmp] → n ≠ hi → n ≠ lo → n ≠ tmp → s !! n = Some x → repr x v → 0 ≤ v → 0 < w2 →
  s !! hi = Some (Long 0 []) → s !! lo = Some (Long 0 []) → s !! tmp = Some (Long 0 []) →
  ∃ H L, (krk_long_rshift_z hi n w2;; krk_long_lshift_z tmp hi w2;; krk_long_sub lo n tmp;; krk_long_clear_many [tmp];; k) s =
    k (<[lo := L]> (<[hi := H]> s)) ∧ repr H (v / 2 ^ w2) ∧ repr L (v mod 2 ^ w2).
Proof.
  intros Hnd Hn1 Hn2 Hn3 Hn Hx Hv Hw Hhi Hlo Htmp. rewrite !NoDup_cons, !not_elem_of_cons in Hnd. destruct Hnd as ((N1 & N2 & _) & (N3 & _) & _).
  assert (H2 : 0 < 2 ^ w2) by (apply Z.pow_pos_nonneg; lia).
  destruct (krk_long_rshift_z_eq s hi n x (Long 0 []) v w2 Hhi Hn Hx Hn1 ltac:(lia)) as (H & E1 & R1). st_step E1.
  rewrite (proj2 (Z.eqb_neq w2 0)), (proj2 (Z.ltb_ge v 0)) in R1 by lia.
  destruct (krk_long_lshift_z_eq (<[hi := H]> s) tmp hi H (Long 0 []) (v / 2 ^ w2) w2 ltac:(store_lookup) ltac:(store_lookup) R1 N2 ltac:(lia)) as (T & E2 & R2). st_step E2.
  destruct (krk_long_sub_eq (<[tmp := T]> (<[hi := H]> s)) lo n tmp (Long 0 []) x T v (v / 2 ^ w2 * 2 ^ w2) ltac:(store_lookup) ltac:(done) ltac:(store_lookup) ltac:(store_lookup) Hx R2) as (L & E3 & R3). st_step E3.
  cbn [krk_long_clear_many]. unfold mbind at 1, St_bind at 1. st_step (clear_eq (<[lo := L]> (<[tmp := T]> (<[hi := H]> s))) tmp T ltac:(store_lookup)). unfold mret at 1, St_ret at 1.
  exists H, L. split_and!; [|done|eapply repr_of; [exact R3|]; rewrite Z.mod_eq by lia; lia]. f_equal. store_eq.
Qed.

Lemma clear_one {A} s a x (k : St store A) : s !! a = Some x → (krk_long_clear_many [a];; k) s = k (<[a := Long 0 []]> s).
Proof. intros Ha. cbn [krk_long_clear_many]. unfold mbind, St_bind. unfold krk_long_clear, mbind, St_bind. by rewrite (wr_long_eq _ _ _ _ Ha). Qed.

(** Three structures on the stack that are clear at the start and at the end. *)
Lemma three_locals {A} s (f : Z → Z → Z → St store A) (P : A → Prop) :
  (∀ t u v, NoDup [t; u; v] → (∀ a, is_Some (s !! a) → a ≠ t ∧ a ≠ u ∧ a ≠ v) →
     let s3 := <[v := Long 0 []]> (<[u := Long 0 []]> (<[t := Long 0 []]> s)) in ∃ r, f t u v s3 = Done (r, s3) ∧ P r) →
  ∃ r, with_local (λ t, with_local (λ u, with_local (λ v, f t u v))) s = Done (r, s) ∧ P r.
Proof.
  intros Hf. pose proof (fresh_local s) as Ht. set (t := fresh (dom s)) in *. set (s1 := <[t := Long 0 []]> s). pose proof (fresh_local s1) as Hu. set (u := fresh (dom s1)) in *.
  set (s2 := <[u := Long 0 []]> s1). pose proof (fresh_local s2) as Hv. set (v := fresh (dom s2)) in *.
  assert (Hut : u ≠ t) by (intros E; rewrite E in Hu; unfold s1 in Hu; by rewrite lookup_insert_eq in Hu). assert (Hvu : v ≠ u) by (intros E; rewrite E in Hv; unfold s2 in Hv; by rewrite lookup_insert_eq in Hv).
  assert (Hvt : v ≠ t) by (intros E; rewrite E in Hv; unfold s2, s1 in Hv; rewrite lookup_insert_ne in Hv by done; by rewrite lookup_insert_eq in Hv).
  assert (Hsu : s !! u = None) by (rewrite <-Hu; unfold s1; by rewrite lookup_insert_ne). assert (Hsv : s !! v = None) by (rewrite <-Hv; unfold s2, s1; by rewrite !lookup_insert_ne).
  destruct (Hf t u v) as (r & E & HP).
  - rewrite !NoDup_cons, !not_elem_of_cons. split_and!; auto using NoDup_nil_2; set_solver.
  - intros a [x Ha]. split_and!; congruence.
  - exists r. split; [|done]. apply (with_local_run _ s r s (Long 0 [])); fold t; [|exact Ht]. fold s1. apply (with_local_run _ s1 r s1 (Long 0 [])); fold u; [|exact Hu]. fold s2.
    by apply (with_local_run _ s2 r s2 (Long 0 [])); fold v; [|exact Hv].
Qed.

Definition split_and_convert (conv : Z → Z → St store (list Z)) (n w hi lo tmp : Z) : St store (list Z) :=
  krk_long_init_many [hi; lo; tmp];;
  let w2 := Z.shiftr w 1 in
  krk_long_rshift_z hi n w2;;
  krk_long_lshift_z tmp hi w2;;
  krk_long_sub lo n tmp;;
  krk_long_clear_many [tmp];;
  a ← conv hi (w - w2);
  krk_long_clear_many [hi];;
  b ← lift (dec_two_raised w2);
  c ← lift (dec_mul a b);
  a ← conv lo w2;
  krk_long_clear_many [lo];;
  mret (dec_add a c).

Lemma to_dec_S fuel n w : to_dec_fuel (S fuel) n w =
  (x ← rd n;
   if width x =? 0 then mret [0]
   else if w <=? 29 then d ← lift (digit x 0); mret [d]
   else with_local (λ hi, with_local (λ lo, with_local (λ tmp, split_and_convert (to_dec_fuel fuel) n w hi lo tmp)))).
Proof. done. Qed.

(** What a conversion of numbers of [w] bits promises. *)
Definition converts (conv : Z → Z → St store (list Z)) (w : Z) (Q : Z → list Z → Prop) : Prop :=
  ∀ n s x v, s !! n = Some x → repr x v → 0 ≤ v < 2 ^ w → ∃ r, conv n w s = Done (r, s) ∧ Q v r.

Lemma split_and_convert_eq conv n w hi lo tmp s x v Q1 Q2 : NoDup [hi; lo; tmp] → n ≠ hi → n ≠ lo → n ≠ tmp → s !! n = Some x → repr x v → 0 ≤ v < 2 ^ w → 29 < w →
  s !! hi = Some (Long 0 []) → s !! lo = Some (Long 0 []) → s !! tmp = Some (Long 0 []) →
  let w2 := Z.shiftr w 1 in converts conv (w - w2) Q1 → converts conv w2 Q2 → (∀ u a, Q1 u a → words_ok a) → ∃ a b c d,
  split_and_convert conv n w hi lo tmp s = Done (dec_add d c, s) ∧
  Q1 (v / 2 ^ w2) a ∧ dec_two_raised w2 = Done b ∧ dec_mul a b = Done c ∧ Q2 (v mod 2 ^ w2) d.
Proof.
  intros Hnd Hn1 Hn2 Hn3 Hn Hx Hv Hw Hhi Hlo Htmp w2 HQ1 HQ2 Hok. unfold split_and_convert. cbv zeta. fold w2.
  assert (Hinit : krk_long_init_many [hi; lo; tmp] s = Done (0, s)).
  { cbn [krk_long_init_many]. unfold mbind, St_bind. rewrite (init_0_over_any s hi _ Hhi), (insert_id s hi) by done.
    rewrite (init_0_over_any s lo _ Hlo), (insert_id s lo) by done. rewrite (init_0_over_any s tmp _ Htmp), (insert_id s tmp) by done. done. }
  st_step Hinit. assert (Hb : 14 < w2 < w).
  { unfold w2. rewrite Z.shiftr_div_pow2 by done. change (2 ^ 1) with 2. pose proof (Z.div_mod w 2 ltac:(done)). pose proof (Z.mod_pos_bound w 2 ltac:(done)). lia. }
  assert (H2 : 0 < 2 ^ w2) by (apply Z.pow_pos_nonneg; lia). pose proof Hnd as Hnd'. rewrite !NoDup_cons, !not_elem_of_cons in Hnd'. destruct Hnd' as ((N1 & N2 & _) & (N3 & _) & _).
  assert (Hh : 0 ≤ v / 2 ^ w2 < 2 ^ (w - w2)).
  { split; [apply Z.div_pos; lia|]. apply Z.div_lt_upper_bound; [done|]. rewrite <-Z.pow_add_r by lia. replace (w2 + (w - w2)) with w by lia. apply Hv. }
  match goal with |- context [krk_long_clear_many [tmp] ≫= ?f] => destruct (split_number s n hi lo tmp x v w2 (f 0)) as (H & L & E & RH & RL); try done; try lia end.
  rewrite E. clear E. set (s1 := <[lo := L]> (<[hi := H]> s)). cbv beta.
  destruct (HQ1 hi s1 H (v / 2 ^ w2) ltac:(unfold s1; store_lookup) RH Hh) as (a & Ea & Qa). st_step Ea.
  rewrite (clear_one s1 hi H) by (unfold s1; store_lookup).
  destruct (dec_two_raised_eq w2 ltac:(lia)) as (b & Eb & Db & Vb). rewrite (lift_done _ _ _ _ Eb).
  destruct (dec_mul_eq a b (Hok _ _ Qa) Db) as (c & Ec & Dc & Vc). rewrite (lift_done _ _ _ _ Ec).
  destruct (HQ2 lo (<[hi := Long 0 []]> s1) L (v mod 2 ^ w2) ltac:(unfold s1; store_lookup) RL ltac:(by apply Z.mod_pos_bound)) as (d & Ed & Qd). st_step Ed.
  rewrite (clear_one (<[hi := Long 0 []]> s1) lo L) by (unfold s1; store_lookup). exists a, b, c, d. split_and!; try done.
  unfold mret, St_ret. do 2 f_equal. unfold s1. apply map_eq. intros k. rewrite !lookup_insert. repeat case_decide; subst; try done; congruence.
Qed.

Definition says (v : Z) (r : list Z) : Prop := words_ok r ∧ wval r = v ∧ r ≠ [].

(** ** Characters *)

Lemma word_digits_eq d : 0 ≤ d < W → rev (word_digits d) = KrkDigits.numeral 10 9 d.
Proof.
  intros Hd. unfold word_digits. change (divisors _ _) with [100000000; 10000000; 1000000; 100000; 10000; 1000; 100; 10; 1]. reflexivity.
Qed.

Lemma word_digits_value d : 0 ≤ d < W → KrkDigits.eval 10 (rev (word_digits d)) = d.
Proof. intros Hd. rewrite word_digits_eq, eval_numeral by done. by apply Z.mod_small. Qed.

Lemma word_digits_ok d : 0 ≤ d < W → KrkDigits.digits_ok 10 (rev (word_digits d)).
Proof. intros Hd. rewrite word_digits_eq by done. by apply digits_ok_numeral. Qed.

Lemma word_digits_length d : length (word_digits d) = 9%nat.
Proof. done. Qed.

(** The digits of words, those of the last word first. *)
Definition all_digits (words : list Z) : list Z := concat (word_digits <$> rev words).

Lemma all_digits_cons d words : all_digits (d :: words) = all_digits words ++ word_digits d.
Proof. unfold all_digits. cbn [rev]. rewrite fmap_app, concat_app. f_equal. Qed.

Lemma all_digits_length words : length (all_digits words) = (9 * length words)%nat.
Proof. induction words as [|d words IH]; [done|]. rewrite all_digits_cons, length_app, IH, word_digits_length. simpl. lia. Qed.

Lemma all_digits_eq words : words_ok words → KrkDigits.digits_ok 10 (rev (all_digits words)) ∧ KrkDigits.eval 10 (rev (all_digits words)) = wval words.
Proof.
  induction 1 as [|d words Hd _ [IH1 IH2]]; [split; [constructor|done]|]. rewrite all_digits_cons, rev_app_distr, digits_ok_app, eval_app, length_rev, word_digits_length, IH2, word_digits_value by done.
  split; [split; [by apply word_digits_ok|done]|done].
Qed.

Lemma all_digits_snoc words d : all_digits (words ++ [d]) = word_digits d ++ all_digits words.
Proof. unfold all_digits. by rewrite rev_app_distr. Qed.

(** Zeros in front do not count. *)
Lemma zeros_in_front (ds : list Z) : let k := length (take_while (λ d, d =? 0) ds) in
  KrkDigits.eval 10 (rev (drop k ds)) = KrkDigits.eval 10 (rev ds) ∧ head (drop k ds) ≠ Some 0.
Proof.
  simpl. induction ds as [|d ds [IH1 IH2]]; [done|]. simpl. destruct (Z.eqb_spec d 0) as [->|Hd]; simpl.
  - split; [|done]. rewrite eval_app, IH1. simpl. lia.
  - split; [done|congruence].
Qed.

Lemma write_digits_eq len ds : ∀ w leading, Z.of_nat (length w + (length ds - leading)) ≤ len →
  write_digits len w ds (Z.of_nat leading) = Done (w ++ ((λ d, d + 48) <$> drop leading ds), Z.of_nat (leading - length ds)).
Proof.
  induction ds as [|d ds IH]; intros w leading Hl; simpl in *; [by rewrite drop_nil, app_nil_r, Nat.sub_0_r|].
  destruct leading as [|k]; simpl.
  - rewrite write_ok by lia. osimpl. change 0 with (Z.of_nat 0) at 1. rewrite IH by (rewrite length_app; simpl; lia). rewrite drop_0, <-app_assoc. done.
  - destruct (Z.eqb_spec (Z.of_nat (S k)) 0); [lia|]. simpl. replace (Z.of_nat (S k) - 1) with (Z.of_nat k) by lia. by rewrite IH by lia.
Qed.

Lemma write_words_eq len words : ∀ w leading, Z.of_nat (length w + (length (concat (word_digits <$> words)) - leading)) ≤ len →
  write_words len w words (Z.of_nat leading) = Done (w ++ ((λ d, d + 48) <$> drop leading (concat (word_digits <$> words)))).
Proof.
  induction words as [|d words IH]; intros w leading Hl; cbn [write_words fmap list_fmap concat]; [by rewrite drop_nil, app_nil_r|].
  cbn [fmap list_fmap concat] in Hl. rewrite length_app in Hl. rewrite write_digits_eq by lia. osimpl.
  rewrite IH by (rewrite length_app, length_fmap, length_drop; lia). f_equal. rewrite <-app_assoc. f_equal. rewrite <-fmap_app, drop_app. done.
Qed.

(** ** Widths

    An array of words may have zeros on top, and a product of arrays of very different
    widths does; the text of a number would begin with them.  The number of words of a product is
    bounded in any case, and where the widths of the factors are close the product of
    numbers without zeros on top has none. *)

(** The number of words of [P]. *)
Definition spans (P : Z) (N : nat) : Prop := (1 ≤ N)%nat ∧ W ^ (Z.of_nat N - 1) ≤ P < W ^ Z.of_nat N.

Lemma spans_exists P : 0 < P → ∃ N, spans P N.
Proof.
  intros HP. exists (length (base_digits W P)). pose proof (eval_base_digits W P W_gt ltac:(lia)) as E. pose proof (base_digits_ok W P W_gt) as D.
  assert (Hne : base_digits W P ≠ []) by (intros E'; rewrite E' in E; simpl in E; lia).
  pose proof (eval_bound W W_gt _ D) as B. pose proof (eval_normal W W_gt _ D (base_digits_normal W P) Hne) as B'. rewrite E in B, B'.
  split; [|lia]. destruct (base_digits W P); [done|simpl; lia].
Qed.

Lemma pow_W_lt n m : 0 ≤ m → W ^ n < W ^ m → n < m.
Proof. intros Hm H. apply Znot_ge_lt. intros G. assert (W ^ m ≤ W ^ n) by (apply Z.pow_le_mono_r; lia). lia. Qed.

Definition good (r : list Z) : Prop := r = [0] ∨ r ≠ [] ∧ normal r.

Lemma normal_width r P N : words_ok r → r ≠ [] → normal r → wval r ≤ P → spans P N → (length r ≤ N)%nat.
Proof.
  intros D Hne Hn Hv [HN HP]. pose proof (eval_normal W W_gt _ D Hn Hne) as B. assert (Z.of_nat (length r) - 1 < Z.of_nat N); [|lia]. apply pow_W_lt; lia.
Qed.

Lemma good_width r P N : words_ok r → good r → wval r ≤ P → spans P N → (length r ≤ N)%nat.
Proof. intros D [->|[Hne Hn]] Hv HP; [destruct HP; simpl; lia|by eapply normal_width]. Qed.

Lemma normal_of_width r N : words_ok r → (length r ≤ N)%nat → spans (wval r) N → normal r.
Proof.
  intros D Hl [HN HP]. destruct r as [|x r _] using rev_ind; [by unfold normal|]. unfold normal. rewrite last_snoc. intros [= ->]. rewrite (eval_snoc W) in HP.
  apply digits_ok_app in D as [D _]. pose proof (eval_bound W W_gt _ D) as B. rewrite length_app in Hl. simpl in Hl.
  assert (W ^ Z.of_nat (length r) ≤ W ^ (Z.of_nat N - 1)) by (apply Z.pow_le_mono_r; lia). lia.
Qed.

Lemma width_of_value r n : words_ok r → good r → wval r < W ^ Z.of_nat n → (1 ≤ n)%nat → (length r ≤ n)%nat.
Proof.
  intros D [->|[Hne Hn]] Hv H1; [done|]. pose proof (eval_normal W W_gt _ D Hn Hne) as B. assert (Z.of_nat (length r) - 1 < Z.of_nat n); [|lia]. apply pow_W_lt; lia.
Qed.

(** *** Sums *)

Lemma dec_add_width a b n : words_ok a → words_ok b → (1 ≤ n)%nat → wval a + wval b < W ^ Z.of_nat n → (length (dec_add a b) ≤ length a `max` length b `max` n)%nat.
Proof.
  intros Da Db Hn Hv. unfold dec_add. pose proof (add_words_eq a b Da Db (length a `max` length b) 0 0 ltac:(lia)) as H.
  destruct (add_words _ 0 a b 0) as [out c]. destruct H as (Hl & Hd & Hc & He). rewrite !drop_0, !take_ge in He by lia.
  destruct (Z.eqb_spec c 0) as [->|Hc0]; cbn [negb]; [destruct out; cbn [length] in *; lia|].
  assert (c = 1) as -> by lia. pose proof (eval_nonneg W W_gt _ Hd). rewrite length_app, Hl. cbn [length].
  assert (Z.of_nat (length a `max` length b) < Z.of_nat n); [|lia]. apply pow_W_lt; lia.
Qed.

Lemma dec_add_normal a b N : words_ok a → words_ok b → spans (wval a + wval b) N → (length a ≤ N)%nat → (length b ≤ N)%nat → normal (dec_add a b).
Proof.
  intros Da Db HP Ha Hb. destruct (dec_add_eq a b Da Db) as (D & V & _). rewrite <-V in HP. apply (normal_of_width _ N D); [|done].
  rewrite V in HP. destruct HP as [HN [_ HP]]. pose proof (dec_add_width a b N Da Db HN HP). lia.
Qed.

Lemma dec_add_good a b : words_ok a → words_ok b → good a → good b → good (dec_add a b).
Proof.
  intros Da Db Ga Gb. destruct (dec_add_eq a b Da Db) as (_ & _ & Hne & _). pose proof (eval_nonneg W W_gt _ Da). pose proof (eval_nonneg W W_gt _ Db).
  destruct (decide (wval a + wval b = 0)) as [E|E].
  - left. assert (Hz : ∀ r, words_ok r → good r → wval r = 0 → r = [0]).
    { intros r Dr [->|[Hr Hn]] E0; [done|]. by rewrite (eval_normal_0 W W_gt r Dr Hn E0) in Hr. }
    rewrite (Hz a), (Hz b) by (done || lia). done.
  - right. split; [done|]. destruct (spans_exists (wval a + wval b) ltac:(lia)) as [N HN]. apply (dec_add_normal a b N); try done; (eapply good_width; [..|exact HN]); try done; lia.
Qed.

(** *** Products *)

(** Bounds on the words of a product, and products without a zero on top. *)
Record frugal (mul : list Z → list Z → outcome (list Z)) (n : nat) : Prop := {
  frugal_width a b r : words_ok a → words_ok b → (length a < n)%nat → (length b < n)%nat → a ≠ [] → mul a b = Done r →
    (16 * length r ≤ 16 * (length a + length b) + length a `max` length b)%nat;
  frugal_zero a b r : words_ok a → (1 < length a < n)%nat → b = [] ∨ b = [0] → mul a b = Done r → r = [0]
}.
Definition tight (mul : list Z → list Z → outcome (list Z)) (n : nat) : Prop :=
  ∀ a b r, words_ok a → words_ok b → (length a < n)%nat → (length b < n)%nat → a ≠ [] → b ≠ [] → normal a → normal b →
    (length a ≤ length b + 4)%nat → (length b ≤ length a + 4)%nat → mul a b = Done r → normal r.

Lemma strip_zeros n : strip_words (replicate (S n) 0) = [0].
Proof. induction n as [|n IH]; [done|]. change (replicate (S (S n)) 0) with (0 :: replicate (S n) 0). cbn [strip_words]. rewrite IH. done. Qed.

Lemma dec_shift_length a n : (length (dec_shift a n) ≤ n + length a)%nat ∧ (a = [0] → length (dec_shift a n) = 1%nat).
Proof.
  split; [|by intros ->]. assert (H : (length (replicate n 0%Z ++ a) ≤ n + length a)%nat) by (rewrite length_app, length_replicate; lia).
  unfold dec_shift. destruct a as [|[] [|y a]]; try exact H. simpl. lia.
Qed.

Lemma high_half_cases m a : (m < length a)%nat ∧ high_half m a = drop m a ∧ length (high_half m a) = (length a - m)%nat ∨
  (length a ≤ m)%nat ∧ (high_half m a = [] ∨ high_half m a = [0]) ∧ (length (high_half m a) ≤ 1)%nat.
Proof.
  unfold high_half. destruct (Nat.leb_spec m (length a)).
  - rewrite length_drop. destruct (decide (m = length a)) as [->|]; [right; rewrite drop_all; split_and!; simpl; auto; lia|left; split_and!; try done; lia].
  - right. split_and!; [lia|by right|done].
Qed.

Lemma product_bound a b : words_ok a → words_ok b → 0 ≤ wval a * wval b < W ^ Z.of_nat (length a + length b).
Proof.
  intros Da Db. pose proof (eval_bound W W_gt _ Da) as Ba. pose proof (eval_bound W W_gt _ Db) as Bb. rewrite Nat2Z.inj_add, Z.pow_add_r by lia. nia.
Qed.

(** The widths of the parts of a product. *)
Lemma parts_width mul m2 a b z0 z1 z2 x y : frugal mul (length a) → words_ok a → words_ok b → (length b ≤ length a)%nat → (50 ≤ length b)%nat → m2 = (length a / 2)%nat →
  parts mul m2 a b z0 z1 z2 x y →
  let up := length (dec_shift (dec_isub (dec_isub z1 z2) z0) m2) in
  (16 * length z0 ≤ 33 * m2)%nat ∧ (16 * up ≤ 16 * (length a + length b) + length a)%nat ∧ (16 * length x ≤ 16 * (length a + length b) + length a)%nat ∧
  (length b + 4 ≥ length a → up < length a + length b)%nat.
Proof.
  intros [Hf Hz] Da Db Hlen Hb Hm [P1 P2 P3 _ _ _ [-> _] (_ & Ly & _) _] up. destruct (half_widths m2 a b Hlen Hb Hm) as [Hm1 Hm2].
  assert (Hna : a ≠ []) by (intros ->; simpl in *; lia).
  destruct (low_half_eq m2 a Da) as (Dl1 & Ll1 & Nl1). destruct (low_half_eq m2 b Db) as (Dl2 & Ll2 & _). specialize (Nl1 ltac:(lia) Hna).
  destruct (high_half_eq m2 a Da) as (Dh1 & _). destruct (high_half_eq m2 b Db) as (Dh2 & _).
  destruct (high_half_cases m2 a) as [(_ & E1 & Lh1)|[? _]]; [|lia].
  destruct (dec_add_eq _ _ Dl1 Dh1) as (Ds1 & _ & Ns1 & Ls1 & _). destruct (dec_add_eq _ _ Dl2 Dh2) as (Ds2 & _ & Ns2 & Ls2 & _).
  pose proof (Hf _ _ _ Dl1 Dl2 ltac:(lia) ltac:(lia) Nl1 P1) as W0.
  assert (Nh1 : high_half m2 a ≠ []) by (intros E; rewrite E in Lh1; simpl in Lh1; lia).
  destruct (dec_shift_length z2 (m2 * 2)) as [Lx Lx0].
  destruct (high_half_cases m2 b) as [(Hb2 & _ & Lh2)|(Hb2 & Zh2 & Lh2)].
  - pose proof (Hf _ _ _ Dh1 Dh2 ltac:(lia) ltac:(lia) Nh1 P2) as W2. pose proof (Hf _ _ _ Ds1 Ds2 ltac:(lia) ltac:(lia) Ns1 P3) as W1.
    fold up in Ly. split_and!; lia.
  - pose proof (Hf _ _ _ Ds1 Ds2 ltac:(lia) ltac:(lia) Ns1 P3) as W1. specialize (Lx0 (Hz _ _ _ Dh1 ltac:(lia) Zh2 P2)). fold up in Ly. split_and!; lia.
Qed.

Lemma normal_drop m l : (m < length l)%nat → normal l → normal (drop m l) ∧ drop m l ≠ [].
Proof.
  intros Hm Hn. assert (Hd : drop m l ≠ []) by (intros E; apply (f_equal length) in E; rewrite length_drop in E; simpl in E; lia).
  split; [|done]. rewrite <-(take_drop m l) in Hn. destruct (drop m l) as [|x k _] using rev_ind; [done|]. unfold normal in *. rewrite app_assoc in Hn. by rewrite !last_snoc in *.
Qed.

Lemma karatsuba_frugal mul m2 a b r : multiplies mul (length a) → frugal mul (length a) → words_ok a → words_ok b → (length b ≤ length a)%nat → (50 ≤ length b)%nat →
  m2 = (length a / 2)%nat → karatsuba mul m2 a b = Done r → (16 * length r ≤ 16 * (length a + length b) + length a)%nat.
Proof.
  intros Hmul Hf Da Db Hlen Hb Hm Er. destruct (karatsuba_parts mul m2 a b Hmul Da Db Hlen Hb Hm) as (z0 & z1 & z2 & x & y & E & P). rewrite E in Er. simplify_eq.
  destruct (parts_width _ _ _ _ _ _ _ _ _ Hf Da Db Hlen Hb eq_refl P) as (W0 & Wu & Wx & _). destruct (half_widths _ a b Hlen Hb eq_refl) as [Hm1 Hm2].
  destruct P as [_ _ _ [D0 _] _ _ [_ Dx] (Dy & _ & -> & Du) (V & Vx & Vy)]. pose proof (product_bound a b Da Db) as B. set (up := dec_shift _ _) in *.
  destruct (dec_add_eq up z0 Du D0) as (_ & Vu & _). pose proof (eval_nonneg W W_gt _ D0). pose proof (eval_nonneg W W_gt _ Du).
  pose proof (dec_add_width up z0 (length a + length b) Du D0 ltac:(lia) ltac:(lia)). pose proof (dec_add_width x (dec_add up z0) (length a + length b) Dx Dy ltac:(lia) ltac:(lia)). lia.
Qed.

Lemma karatsuba_tight mul m2 a b r : multiplies mul (length a) → frugal mul (length a) → tight mul (length a) → words_ok a → words_ok b → (length b ≤ length a)%nat → (50 ≤ length b)%nat →
  m2 = (length a / 2)%nat → normal a → normal b → (length a ≤ length b + 4)%nat → karatsuba mul m2 a b = Done r → normal r.
Proof.
  intros Hmul Hf Ht Da Db Hlen Hb Hm Na Nb Hd Er. destruct (karatsuba_parts mul m2 a b Hmul Da Db Hlen Hb Hm) as (z0 & z1 & z2 & x & y & E & P). rewrite E in Er. simplify_eq.
  destruct (parts_width _ _ _ _ _ _ _ _ _ Hf Da Db Hlen Hb eq_refl P) as (W0 & _ & _ & Wu). destruct (half_widths _ a b Hlen Hb eq_refl) as [Hm1 Hm2]. specialize (Wu ltac:(lia)).
  destruct P as [_ P2 _ [D0 _] _ [D2 V2] [-> Dx] (Dy & _ & -> & Du) (V & Vx & Vy)]. set (up := dec_shift (dec_isub _ _) _) in *. set (m2 := (length a / 2)%nat) in *.
  assert (Hpos : ∀ l, words_ok l → normal l → (0 < length l)%nat → W ^ (Z.of_nat (length l) - 1) ≤ wval l) by (intros l Dl Nl Hl; apply eval_normal; try done; intros ->; simpl in Hl; lia).
  assert (Hge : W ^ (Z.of_nat (length a + length b) - 2) ≤ wval a * wval b).
  { replace (Z.of_nat (length a + length b) - 2) with ((Z.of_nat (length a) - 1) + (Z.of_nat (length b) - 1)) by lia. rewrite Z.pow_add_r by lia.
    apply Z.mul_le_mono_nonneg; try apply Z.pow_nonneg; try done; apply Hpos; try done; lia. }
  assert (0 < W ^ (Z.of_nat (length a + length b) - 2)) by (apply Z.pow_pos_nonneg; lia).
  destruct (spans_exists (wval a * wval b) ltac:(lia)) as [N HN]. assert (HNl : (length a + length b ≤ S N)%nat).
  { destruct HN as [_ HN]. assert (Z.of_nat (length a + length b) - 2 < Z.of_nat N); [|lia]. apply pow_W_lt; lia. }
  destruct (dec_add_eq up z0 Du D0) as (_ & Vu & _). pose proof (eval_nonneg W W_gt _ D0). pose proof (eval_nonneg W W_gt _ Du). apply (dec_add_normal _ _ N Dx Dy); [by rewrite V| |].
  - destruct (high_half_eq m2 a Da) as [Dh1 _]. destruct (high_half_eq m2 b Db) as [Dh2 _].
    destruct (high_half_cases m2 a) as [(_ & E1 & Lh1)|[? _]]; [|lia]. destruct (high_half_cases m2 b) as [(_ & E2 & Lh2)|[? _]]; [|lia].
    destruct (normal_drop m2 a ltac:(lia) Na) as [Na1 Ne1]. destruct (normal_drop m2 b ltac:(lia) Nb) as [Nb1 Ne2]. rewrite E1, E2 in *.
    assert (N2 : normal z2) by (eapply (Ht (drop m2 a) (drop m2 b)); try done; lia).
    destruct (dec_shift_eq z2 (m2 * 2) D2) as (_ & Vs & Ls & _). rewrite Vs in V, Vx.
    assert (Hz2 : 0 < wval z2) by (rewrite V2; apply Z.mul_pos_pos; apply eval_normal_pos; done).
    assert (Nz2 : z2 ≠ []) by (intros E0; rewrite E0 in Hz2; done). pose proof (eval_normal W W_gt z2 D2 N2 Nz2) as B2.
    assert (0 < length z2)%nat by (destruct z2; [done|simpl; lia]).
    assert (W ^ (Z.of_nat (m2 * 2) + (Z.of_nat (length z2) - 1)) ≤ wval a * wval b).
    { rewrite Z.pow_add_r by lia. assert (0 < W ^ Z.of_nat (m2 * 2)) by (apply Z.pow_pos_nonneg; lia).
      assert (W ^ Z.of_nat (m2 * 2) * W ^ (Z.of_nat (length z2) - 1) ≤ W ^ Z.of_nat (m2 * 2) * wval z2) by (apply Z.mul_le_mono_nonneg_l; lia). lia. }
    destruct HN as [_ HN]. assert (Z.of_nat (m2 * 2) + (Z.of_nat (length z2) - 1) < Z.of_nat N); [|lia]. apply pow_W_lt; lia.
  - destruct HN as [HN1 HN]. pose proof (dec_add_width up z0 N Du D0 HN1 ltac:(lia)). lia.
Qed.

Lemma rows_stripped a b : words_ok a → words_ok b → ∃ r, mul_rows a b (replicate (length a + length b) 0) = Done r ∧ words_ok r ∧
  length r = (length a + length b)%nat ∧ wval r = wval a * wval b.
Proof.
  intros Da Db. destruct (mul_rows_eq a Da b (replicate (length a) 0) Db ltac:(by rewrite length_replicate) ltac:(by apply digits_ok_zeros)) as (r & Er & Dr & Lr & Vr).
  rewrite replicate_add, Er. exists r. split_and!; try done. rewrite Vr, eval_zeros. lia.
Qed.

Lemma mul_rows_nil a out : mul_rows a [] out = Done out.
Proof. done. Qed.

(** The cases of a step: an operand, the rows, or Karatsuba's method. *)
Lemma mul_step_cases mul a b r : words_ok a → words_ok b → mul_step mul a b = Done r →
  (a = [0] ∨ b = [0]) ∧ r = [0] ∨ a = [1] ∧ r = b ∨ b = [1] ∧ r = a ∨
  (length b < 50)%nat ∧ a ≠ [0] ∧ (∃ k, r = strip_words k ∧ words_ok k ∧ length k = (length a + length b)%nat ∧ wval k = wval a * wval b) ∨
  (50 ≤ length b)%nat ∧ karatsuba mul (length a / 2) a b = Done r.
Proof.
  intros Da Db E. unfold mul_step in E. destruct (bool_decide_reflect (a = [0])) as [Ha|Ha]; [left; split; [by left|by injection E]|].
  destruct (bool_decide_reflect (b = [0])) as [Hb|Hb]; [left; split; [by right|by injection E]|]. cbn [orb] in E.
  destruct (bool_decide_reflect (a = [1])) as [Ha1|_]; [right; left; split; [done|by injection E]|].
  destruct (bool_decide_reflect (b = [1])) as [Hb1|_]; [do 2 right; left; split; [done|by injection E]|]. do 3 right.
  destruct (Nat.ltb_spec (length b) 50) as [Hl|Hl]; [left|by right].
  destruct (rows_stripped a b Da Db) as (k & Ek & Dk & Lk & Vk). rewrite Ek in E. cbn in E. split_and!; [done|done|]. exists k. split_and!; try done. by injection E.
Qed.

Lemma mul_step_width mul a b r : multiplies mul (length a) → frugal mul (length a) → words_ok a → words_ok b → (length b ≤ length a)%nat → a ≠ [] →
  mul_step mul a b = Done r → (16 * length r ≤ 16 * (length a + length b) + length a)%nat.
Proof.
  intros Hmul Hf Da Db Hl Hne E. assert (0 < length a)%nat by (destruct a; [done|simpl; lia]).
  destruct (mul_step_cases mul a b r Da Db E) as [[_ ->]|[[-> ->]|[[-> ->]|[(_ & _ & k & -> & _ & Lk & _)|[Hb Ek]]]]]; simpl length; try lia.
  - destruct (strip_words_eq k) as (_ & _ & Lr & _). lia.
  - by eapply karatsuba_frugal.
Qed.

Lemma multiplies_le mul m n : multiplies mul n → (m ≤ n)%nat → multiplies mul m.
Proof. intros H Hm a b Da Db Ha Hb. apply H; try done; lia. Qed.

Lemma frugal_le mul m n : frugal mul n → (m ≤ n)%nat → frugal mul m.
Proof. intros [H1 H2] Hm. split; [intros a b r Da Db Ha Hb; apply H1; try done; lia|intros a b r Da Ha; apply H2; try done; lia]. Qed.

Lemma tight_le mul m n : tight mul n → (m ≤ n)%nat → tight mul m.
Proof. intros H Hm a b r Da Db Ha Hb. apply H; try done; lia. Qed.

Lemma mul_step_frugal mul n : multiplies mul n → frugal mul n → frugal (λ a b, if (length a <? length b)%nat then mul_step mul b a else mul_step mul a b) (S n).
Proof.
  intros Hmul Hf. assert (Hm' : ∀ m, (m ≤ n)%nat → multiplies mul m ∧ frugal mul m) by eauto using multiplies_le, frugal_le.
  split.
  - intros a b r Da Db Ha Hb Hne E. destruct (Nat.ltb_spec (length a) (length b)) as [Hl|Hl].
    + destruct (Hm' (length b) ltac:(lia)). assert (b ≠ []) by (intros ->; simpl in Hl; lia). pose proof (mul_step_width mul b a r) as P. lapply P; [|done]. intros P'. specialize (P' ltac:(done) Db Da ltac:(lia) ltac:(done) E). lia.
    + destruct (Hm' (length a) ltac:(lia)). pose proof (mul_step_width mul a b r) as P. lapply P; [|done]. intros P'. specialize (P' ltac:(done) Da Db ltac:(lia) ltac:(done) E). lia.
  - intros a b r Da Hla Hb E. assert (Hlb : (length b ≤ 1)%nat) by (destruct Hb as [->| ->]; simpl; lia). rewrite (proj2 (Nat.ltb_ge (length a) (length b))) in E by lia.
    assert (Db : words_ok b) by (destruct Hb as [->| ->]; repeat constructor; done).
    destruct (mul_step_cases mul a b r Da Db E) as [[_ ->]|[[-> ->]|[[-> ->]|[(_ & _ & k & -> & Dk & Lk & Vk)|[Hb' _]]]]]; simpl in *; try lia; [done|destruct Hb; done|].
    assert (k = replicate (S (length a + length b - 1)) 0) as ->; [|apply strip_zeros]. apply (eval_inj W); auto using digits_ok_zeros; [rewrite length_replicate; lia|].
    rewrite Vk, eval_zeros. destruct Hb as [->| ->]; simpl; lia.
Qed.

Lemma stripped_good k : words_ok k → (0 < length k)%nat → good (strip_words k).
Proof.
  intros Dk Hk. assert (Hne : k ≠ []) by (intros ->; simpl in Hk; lia). destruct (strip_words_eq k) as (_ & _ & _ & H1 & H2). destruct (H2 Hne) as [|]; [by left|right; auto].
Qed.

Lemma mul_step_tight mul n : multiplies mul n → frugal mul n → tight mul n → tight (λ a b, if (length a <? length b)%nat then mul_step mul b a else mul_step mul a b) (S n).
Proof.
  intros Hmul Hf Ht.
  assert (Hm' : ∀ m, (m ≤ n)%nat → multiplies mul m ∧ frugal mul m ∧ tight mul m) by (intros m Hm; split_and!; eauto using multiplies_le, frugal_le, tight_le).
  assert (Hstep : ∀ a b r, words_ok a → words_ok b → (length a ≤ n)%nat → (length b ≤ length a)%nat → a ≠ [] → b ≠ [] → normal a → normal b → (length a ≤ length b + 4)%nat → mul_step mul a b = Done r → normal r).
  { intros a b r Da Db Hla Hlb Hna Hnb Na Nb Hd E. destruct (Hm' (length a) Hla) as (M & F & T).
    destruct (mul_step_cases mul a b r Da Db E) as [[[->| ->] _]|[[_ ->]|[[_ ->]|[(_ & _ & k & -> & Dk & Lk & Vk)|[Hb Ek]]]]]; try done.
    - assert (0 < length k)%nat by (destruct a; [done|simpl in *; lia]). destruct (stripped_good k Dk) as [E0|[_ ?]]; try done.
      destruct (strip_words_eq k) as (Vs & _). rewrite E0 in Vs. pose proof (eval_normal_pos W W_gt a Da Na Hna). pose proof (eval_normal_pos W W_gt b Db Nb Hnb). simpl in Vs. nia.
    - by eapply (karatsuba_tight mul _ a b). }
  intros a b r Da Db Ha Hb Hna Hnb Na Nb H1 H2 E. destruct (Nat.ltb_spec (length a) (length b)).
  - apply (Hstep b a r); try done; lia.
  - apply (Hstep a b r); try done; lia.
Qed.

Lemma mul_fuel_widths fuel : frugal (mul_fuel fuel) fuel ∧ tight (mul_fuel fuel) fuel.
Proof.
  induction fuel as [|fuel [IH1 IH2]]; [split; [split; intros; lia|intros a b r ? ? ?; lia]|]. pose proof (mul_fuel_eq fuel). split; [by apply mul_step_frugal|by apply mul_step_tight].
Qed.

Lemma dec_mul_width a b r : words_ok a → words_ok b → a ≠ [] → dec_mul a b = Done r → (16 * length r ≤ 16 * (length a + length b) + length a `max` length b)%nat.
Proof. intros Da Db Hne E. apply (frugal_width _ _ (proj1 (mul_fuel_widths (S (length a `max` length b))))); try done; lia. Qed.

Lemma dec_mul_normal a b r : words_ok a → words_ok b → a ≠ [] → b ≠ [] → normal a → normal b → (length a ≤ length b + 4)%nat → (length b ≤ length a + 4)%nat →
  dec_mul a b = Done r → normal r.
Proof. intros Da Db Ha Hb Na Nb H1 H2 E. eapply (proj2 (mul_fuel_widths (S (length a `max` length b))) a b); try done; lia. Qed.

(** A product by a short number is good. *)
Lemma dec_mul_short a b r : words_ok a → words_ok b → good a → good b → (length b < 50)%nat → dec_mul a b = Done r → good r.
Proof.
  intros Da Db Ga Gb Hb E. assert (Hg : ∀ l, good l → (0 < length l)%nat) by (intros l [->|[Hl _]]; [simpl; lia|destruct l; [done|simpl; lia]]). pose proof (Hg a Ga). pose proof (Hg b Gb).
  unfold dec_mul in E. cbn [mul_fuel] in E. destruct (Nat.ltb_spec (length a) (length b)).
  - destruct (mul_step_cases _ b a r Db Da E) as [[_ ->]|[[_ ->]|[[_ ->]|[(_ & _ & k & -> & Dk & Lk & _)|[? _]]]]]; try done; [by left|apply stripped_good; [done|lia]|lia].
  - destruct (mul_step_cases _ a b r Da Db E) as [[_ ->]|[[_ ->]|[[_ ->]|[(_ & _ & k & -> & Dk & Lk & _)|[? _]]]]]; try done; [by left|apply stripped_good; [done|lia]|lia].
Qed.

(** *** Powers of two and numbers *)

Lemma near a b : words_ok a → words_ok b → a ≠ [] → normal a → wval a ≤ W * wval b → (length a ≤ length b + 4)%nat.
Proof.
  intros Da Db Hne Na H. pose proof (eval_normal W W_gt a Da Na Hne) as B. pose proof (eval_bound W W_gt b Db) as B'.
  assert (Z.of_nat (length a) - 1 < Z.of_nat (S (length b))); [|lia]. apply pow_W_lt; [lia|]. rewrite pow_S by done. lia.
Qed.

Lemma halves w : 29 < w → let w2 := Z.shiftr w 1 in w - w2 = w2 ∨ w - w2 = w2 + 1.
Proof.
  intros H. rewrite Z.shiftr_div_pow2 by done. change (2 ^ 1) with 2. pose proof (Z.div_mod w 2 ltac:(done)). pose proof (Z.mod_pos_bound w 2 ltac:(done)). lia.
Qed.

Lemma power_words r w : words_ok r → wval r = 2 ^ w → 0 ≤ w → r ≠ [].
Proof. intros D V Hw ->. simpl in V. assert (0 < 2 ^ w) by (apply Z.pow_pos_nonneg; lia). lia. Qed.

Lemma two_raised_normal f : ∀ w r, 0 ≤ w ≤ 2 ^ Z.of_nat f → two_raised_fuel (S f) w = Done r → normal r.
Proof.
  induction f as [|f IH]; intros w r Hw; rewrite two_raised_S; destruct (Z.leb_spec w 29) as [H29|H29].
  1,3: pose proof (small_power w ltac:(lia)); intros [= <-]; rewrite Z.shiftl_mul_pow2, Z.mul_1_l, u32_small by lia; unfold normal; simpl; intros [= E]; lia.
  { change (2 ^ Z.of_nat 0) with 1 in Hw. lia. }
  destruct (half_bounds w f H29 ltac:(lia)) as [H1 H2]. pose proof (halves w H29) as H3. set (w2 := Z.shiftr w 1) in *.
  destruct (two_raised_eq f w2 ltac:(lia)) as (t & Et & Dt & Vt). destruct (two_raised_eq f (w - w2) ltac:(lia)) as (u & Eu & Du & Vu). rewrite Et, Eu. cbn.
  pose proof (IH w2 t ltac:(lia) Et) as Nt. pose proof (IH (w - w2) u ltac:(lia) Eu) as Nu.
  assert (0 < 2 ^ w2) by (apply Z.pow_pos_nonneg; lia). pose proof (power_words t w2 Dt Vt ltac:(lia)). pose proof (power_words u (w - w2) Du Vu ltac:(lia)).
  assert (Hu : 2 ^ (w - w2) = 2 ^ w2 ∨ 2 ^ (w - w2) = 2 * 2 ^ w2) by (destruct H3 as [-> | ->]; [by left|right; rewrite Z.pow_add_r, Z.pow_1_r by lia; lia]).
  destruct (Z.land w 1 =? 0); intros E; [eapply (dec_mul_normal t t)|eapply (dec_mul_normal t u)]; try done; try lia; apply near; try done; lia.
Qed.

Lemma dec_two_raised_normal w r : 0 ≤ w → dec_two_raised w = Done r → normal r.
Proof. intros Hw. apply two_raised_normal. pose proof (bits_fuel w Hw). lia. Qed.

(** What is known of the words of a number of at most [w] bits. *)
Definition shows (w v : Z) (r : list Z) : Prop :=
  says v r ∧ (w ≤ 2000 → good r) ∧ 290 * Z.of_nat (length r) ≤ 13 * w + 580 ∧ (0 < v → 2 ^ (w - 1) ≤ v → normal r).

Lemma width_by_bits r w v n : words_ok r → good r → wval r = v → v < 2 ^ w → 0 ≤ w → w ≤ 29 * n → 1 ≤ n → Z.of_nat (length r) ≤ n.
Proof.
  intros D G V Hv Hw Hn H1. pose proof (width_of_value r (Z.to_nat n) D G) as P. rewrite Z2Nat.id in P by lia. assert (length r ≤ Z.to_nat n)%nat; [|lia]. apply P; [|lia].
  assert (2 ^ w ≤ 2 ^ (29 * n)) by (apply Z.pow_le_mono_r; lia). rewrite Z.pow_mul_r in * by lia. assert ((2 ^ 29) ^ n ≤ W ^ n) by (apply Z.pow_le_mono_l; lia). lia.
Qed.

(** The sum of the halves. *)
Lemma sum_shows w v a b c d : let w2 := Z.shiftr w 1 in 29 < w → 0 ≤ v < 2 ^ w →
  shows (w - w2) (v / 2 ^ w2) a → dec_two_raised w2 = Done b → dec_mul a b = Done c → shows w2 (v mod 2 ^ w2) d → shows w v (dec_add d c).
Proof.
  intros w2 Hw Hv ((Da & Va & Na) & Ga & La & Ta) Eb Ec ((Dd & Vd & Nd) & Gd & Ld & _). pose proof (halves w Hw) as H2. cbv zeta in H2. fold w2 in H2. clearbody w2.
  destruct (dec_two_raised_eq w2 ltac:(lia)) as (b' & Eb' & Db & Vb). assert (b' = b) as -> by congruence. pose proof (dec_two_raised_normal w2 b ltac:(lia) Eb) as Nb.
  pose proof (power_words b w2 Db Vb ltac:(lia)) as Hb. destruct (dec_mul_eq a b Da Db) as (c' & Ec' & Dc & Vc). assert (c' = c) as -> by congruence.
  assert (Hp : 0 < 2 ^ w2) by (apply Z.pow_pos_nonneg; lia). pose proof (Z.div_mod v (2 ^ w2) ltac:(lia)) as Hdm. pose proof (Z.mod_pos_bound v (2 ^ w2) Hp) as Hmod.
  assert (Vs : wval d + wval c = v) by (rewrite Vc, Vd, Va, Vb; lia). destruct (dec_add_eq d c Dd Dc) as (Dr & Vr & Nr & _). rewrite Vs in Vr. pose proof (eval_nonneg W W_gt d Dd). pose proof (eval_nonneg W W_gt c Dc).
  assert (Lb : 29 * Z.of_nat (length b) ≤ w2 + 58).
  { pose proof (Z.div_mod w2 29 ltac:(done)). pose proof (Z.mod_pos_bound w2 29 ltac:(done)). pose proof (Z.div_pos w2 29 ltac:(lia) ltac:(done)).
    assert (Z.of_nat (length b) ≤ w2 / 29 + 2); [|lia]. apply (width_by_bits b (w2 + 1) (2 ^ w2)); try done; try lia; [by right|apply Z.pow_lt_mono_r; lia]. }
  pose proof (Z.div_mod w 29 ltac:(done)) as Hq. pose proof (Z.mod_pos_bound w 29 ltac:(done)) as Hqr. pose proof (Z.div_pos w 29 ltac:(lia) ltac:(done)) as Hq0.
  assert (Hn : v < W ^ Z.of_nat (Z.to_nat (w / 29 + 1))).
  { rewrite Z2Nat.id by lia. assert (2 ^ w ≤ 2 ^ (29 * (w / 29 + 1))) by (apply Z.pow_le_mono_r; lia).
    rewrite Z.pow_mul_r in * by lia. assert ((2 ^ 29) ^ (w / 29 + 1) ≤ W ^ (w / 29 + 1)) by (apply Z.pow_le_mono_l; lia). lia. }
  assert (Hgood : w ≤ 2000 → good (dec_add d c)).
  { intros Hw'. apply dec_add_good; try done; [apply Gd; lia|]. apply (dec_mul_short a b); try done; [apply Ga; lia|by right|lia]. }
  split_and!; [by split_and!|done| |].
  - destruct (decide (w ≤ 2000)) as [Hw'|Hw'].
    + pose proof (width_by_bits (dec_add d c) w v (w / 29 + 1) Dr (Hgood Hw') Vr ltac:(lia) ltac:(lia)). lia.
    + pose proof (dec_mul_width a b c Da Db Na Ec). pose proof (dec_add_width d c (Z.to_nat (w / 29 + 1)) Dd Dc ltac:(lia) ltac:(lia)). lia.
  - intros Hv0 Hv1. assert (Hhi : 2 ^ (w - w2 - 1) ≤ v / 2 ^ w2).
    { apply Z.div_le_lower_bound; [done|]. rewrite <-Z.pow_add_r by lia. replace (w2 + (w - w2 - 1)) with (w - 1) by lia. done. }
    assert (0 < 2 ^ (w - w2 - 1)) by (apply Z.pow_pos_nonneg; lia). specialize (Ta ltac:(lia) Hhi).
    assert (Hhi2 : v / 2 ^ w2 < 2 ^ (w - w2)) by (apply Z.div_lt_upper_bound; [done|]; rewrite <-Z.pow_add_r by lia; replace (w2 + (w - w2)) with w by lia; lia).
    assert (H12 : 2 ^ (w - w2) ≤ 2 * 2 ^ w2 ∧ 2 ^ w2 ≤ 2 * 2 ^ (w - w2 - 1)).
    { rewrite <-!Z.pow_succ_r by lia. split; apply Z.pow_le_mono_r; lia. }
    assert (Nc : normal c) by (eapply (dec_mul_normal a b); try done; apply near; try done; lia).
    destruct (spans_exists v Hv0) as [N HN]. apply (dec_add_normal d c N); try done; [by rewrite Vs| |].
    + destruct (decide (w ≤ 2000)) as [Hw'|Hw']; [eapply good_width; [..|exact HN]; try done; [apply Gd; lia|lia]|].
      destruct HN as [HN1 [_ HN]]. assert (w - 1 < 30 * Z.of_nat N); [|lia]. assert (W ^ Z.of_nat N ≤ (2 ^ 30) ^ Z.of_nat N) by (apply Z.pow_le_mono_l; lia).
      rewrite <-Z.pow_mul_r in * by lia. apply (Z.pow_lt_mono_r_iff 2); lia.
    + apply (normal_width c v N); try done; [|lia]. intros ->. simpl in Vc. nia.
Qed.

Lemma small_shows w v : 0 ≤ v < 2 ^ w → 0 ≤ w ≤ 29 → shows w v [v].
Proof.
  intros Hv Hw. pose proof (small_power w Hw). destruct (one_word v ltac:(lia)) as [D V]. split_and!; [by split_and!| |simpl; lia|intros Hv0 _; unfold normal; simpl; intros [= E]; lia].
  intros _. destruct (decide (v = 0)) as [->|Hv0]; [by left|right; split; [done|]]. unfold normal. simpl. congruence.
Qed.

Lemma to_dec_shows f : ∀ w, 0 ≤ w ≤ 2 ^ Z.of_nat f → converts (to_dec_fuel (S f)) w (shows w).
Proof.
  induction f as [|f IH]; intros w Hw n s x v Hn Hx Hv; rewrite to_dec_S; st_step (rd_long_eq _ _ _ Hn); rewrite (repr_width_0 _ _ Hx).
  all: destruct (Z.eqb_spec v 0) as [->|Hv0]; [exists [0]; split; [done|]; split_and!; [split_and!; [by repeat constructor|done|done]|by left|simpl; lia|lia]|].
  all: destruct (Z.leb_spec w 29) as [H29|H29].
  1,3: pose proof (small_power w ltac:(lia)); destruct (repr_pos_inv x v Hx ltac:(lia)) as (A & -> & DA & NA & VA);
    assert (HA : A = [v]) by (apply (normal_inj BASE); auto; [constructor; [lia|constructor]|unfold normal; simpl; congruence|simpl; lia]); subst A;
    exists [v]; split; [done|]; apply small_shows; lia.
  { change (2 ^ Z.of_nat 0) with 1 in Hw. lia. }
  destruct (half_bounds w f H29 ltac:(lia)) as [H1 H2].
  apply (three_locals s (split_and_convert (to_dec_fuel (S f)) n w)). intros t u v' Hnd Hfr s3. destruct (Hfr n) as (N1 & N2 & N3); [by eexists|].
  pose proof Hnd as Hnd'. rewrite !NoDup_cons, !not_elem_of_cons in Hnd'. destruct Hnd' as ((? & ? & _) & (? & _) & _).
  destruct (split_and_convert_eq (to_dec_fuel (S f)) n w t u v' s3 x v (shows (w - Z.shiftr w 1)) (shows (Z.shiftr w 1)) Hnd N1 N2 N3) as (a & b & c & d & E & Ha & Eb & Ec & Hd); try done; try (unfold s3; store_lookup).
  - apply IH. lia.
  - apply IH. lia.
  - by intros ? ? [[? _] _].
  - exists (dec_add d c). split; [exact E|]. by apply (sum_shows w v a b c d).
Qed.

Lemma long_to_dec_inner_eq s n x v : s !! n = Some x → repr x v → 0 < v → ∃ r, long_to_dec_inner n (bits v) s = Done (r, s) ∧
  words_ok r ∧ wval r = v ∧ r ≠ [] ∧ normal r.
Proof.
  intros Hn Hx Hv. pose proof (bits_nonneg v). pose proof (bits_fuel (bits v) ltac:(lia)). pose proof (bits_pow2 v ltac:(lia)).
  destruct (to_dec_shows (Z.to_nat (bits (bits v))) (bits v) ltac:(lia) n s x v Hn Hx ltac:(lia)) as (r & E & (D & V & Hne) & _ & _ & Hnorm).
  exists r. split_and!; try done. apply Hnorm; [done|]. unfold bits. rewrite (proj2 (Z.eqb_neq v 0)) by lia. rewrite Z.add_simpl_r. apply Z.log2_spec. lia.
Qed.

(** ** The text of a number *)

(** The characters of words without a zero on top are those of the number in base ten. *)
Lemma words_text words d v : words_ok (words ++ [d]) → d ≠ 0 → wval (words ++ [d]) = v →
  let k := length (take_while (λ d, d =? 0) (word_digits d)) in
  (k ≤ 9)%nat ∧ (λ d, d + 48) <$> drop k (all_digits (words ++ [d])) = rev (digit_char <$> base_digits 10 v).
Proof.
  intros D Hd V k. destruct (all_digits_eq _ D) as [Da Va]. rewrite V in Va. assert (D1 : 0 ≤ d < W) by (apply digits_ok_app in D as [_ D]; by inversion D).
  destruct (zeros_in_front (word_digits d)) as [Z1 Z2]. fold k in Z1, Z2. rewrite word_digits_value in Z1 by done.
  assert (Hk : (k < 9)%nat).
  { apply not_le. intros Hk. rewrite drop_ge in Z1 by (rewrite word_digits_length; lia). simpl in Z1. lia. }
  split; [lia|]. rewrite all_digits_snoc in *. set (rest := all_digits words) in *.
  assert (Hdrop : drop k (word_digits d ++ rest) = drop k (word_digits d) ++ rest) by (apply drop_app_le; rewrite word_digits_length; lia). rewrite Hdrop.
  assert (Dd : KrkDigits.digits_ok 10 (rev (drop k (word_digits d) ++ rest))).
  { rewrite <-Hdrop. apply Forall_rev, Forall_drop. rewrite <-(rev_involutive (_ ++ _)). by apply Forall_rev. }
  assert (E : rev (drop k (word_digits d) ++ rest) = base_digits 10 v).
  { apply base_digits_unique; [done|done| |].
    - destruct (drop k (word_digits d)) as [|x l] eqn:El; [apply (f_equal length) in El; rewrite length_drop, word_digits_length in El; simpl in El; lia|].
      unfold normal. cbn [app rev]. rewrite last_snoc. simpl in Z2. congruence.
    - rewrite <-Va. rewrite !rev_app_distr, !(eval_app 10). by rewrite Z1, word_digits_value. }
  rewrite <-E, (map_rev digit_char : ∀ l, digit_char <$> rev l = rev (digit_char <$> l)), rev_involutive. apply list_fmap_ext. intros i x Hi.
  apply Forall_rev in Dd. rewrite rev_involutive in Dd. eapply Forall_lookup_1 in Dd; [|exact Hi]. simpl in Dd. unfold digit_char. rewrite (proj2 (Z.ltb_lt x 10)); lia.
Qed.

Lemma repr_magnitude x v : repr x v → repr (Long (abs_width x * 1) (digits x)) (Z.abs v).
Proof.
  intros Hx. destruct (repr_digits x v Hx) as (D & N & E). rewrite <-E, <-(Z.mul_1_l (eval (digits x))).
  replace (abs_width x) with (abs_width (pos (digits x))); [by apply repr_signed; auto|]. rewrite (repr_abs_width x v Hx). unfold abs_width, pos. cbn [width]. by rewrite (proj2 (Z.ltb_ge _ 0)) by lia.
Qed.

Lemma krk_long_to_decimal_str_eq s n x v : s !! n = Some x → repr x v → v ≠ 0 → krk_long_to_decimal_str n s = Done (number_text 10 [] v, s).
Proof.
  intros Hn Hx Hv. unfold krk_long_to_decimal_str. st_step (rd_long_eq _ _ _ Hn). pose proof (fresh_local s) as Ht.
  apply (with_local_run _ s _ s (Long (abs_width x * 1) (digits x))); [|done]. set (t := fresh (dom s)) in *. clearbody t.
  rewrite (St_bind_done (wr t x) _ _ tt (<[t := x]> s)) by (by rewrite (wr_long_eq _ t _ (Long 0 []) ltac:(store_lookup)), insert_insert_eq).
  st_step (sign_eq (<[t := x]> s) t x v ltac:(store_lookup) Hx). cbv zeta. st_step (set_sign_over s t x 1).
  pose proof (repr_magnitude x v Hx) as Hm. set (X := Long (abs_width x * 1) (digits x)) in *.
  st_step (bits_in_eq (<[t := X]> s) t X (Z.abs v) ltac:(store_lookup) Hm). rewrite (Z.abs_eq (Z.abs v)) by lia.
  destruct (long_to_dec_inner_eq (<[t := X]> s) t X (Z.abs v) ltac:(store_lookup) Hm ltac:(lia)) as (r & E & D & V & Hne & Nr). st_step E. clear E.
  destruct r as [|d words _] using rev_ind; [done|]. unfold normal in Nr. rewrite last_snoc in *. rewrite (lift_done _ d) by done.
  destruct (words_text words d (Z.abs v) D ltac:(congruence) V) as [Hk Et]. set (k := length (take_while (λ d, d =? 0) (word_digits d))) in *.
  assert (Hs : (Z.sgn v =? -1) = (v <? 0)) by (by destruct v). rewrite Hs. set (out := if v <? 0 then [45] else []).
  set (len := _ + truth (v <? 0)). assert (Hlen : len = Z.of_nat (9 * length (words ++ [d]) - k) + 1 + Z.of_nat (length out)).
  { unfold len, out, DEC_DIGIT_CNT. rewrite length_app. destruct (v <? 0); cbn [length truth]; lia. }
  rewrite (St_bind_done _ _ _ out (<[t := X]> s)).
  2: { unfold out. destruct (v <? 0); simpl truth; [|done]. change (negb (1 =? 0)) with true. cbv iota. unfold lift. rewrite write_ok; [done|simpl length in *; lia]. }
  pose proof (all_digits_length (words ++ [d])) as La. unfold all_digits in La, Et.
  rewrite (lift_done _ _ _ _ (write_words_eq len (rev (words ++ [d])) out k ltac:(rewrite La; lia))), Et.
  apply (f_equal (@length Z)) in Et as Lt. rewrite length_fmap, length_drop, La in Lt.
  rewrite (lift_done _ _ _ _ (write_ok len (out ++ rev (digit_char <$> base_digits 10 (Z.abs v))) 0 ltac:(rewrite length_app, <-Lt; lia))). unfold number_text, mret, St_ret. by rewrite (proj2 (Z.eqb_neq v 0)).
Qed.

Lemma long_repr_eq s n x v : s !! n = Some x → repr x v → long_repr n s = Done (number_text 10 [] v, s).
Proof.
  intros Hn Hx. unfold long_repr. st_step (rd_long_eq _ _ _ Hn). destruct (andb _ _) eqn:Ew.
  - by st_step (krk_long_to_str_eq s n x v 10 [] Hn Hx ltac:(lia) ltac:(constructor)).
  - apply (krk_long_to_decimal_str_eq s n x v Hn Hx). intros ->. pose proof (repr_width_0 x 0 Hx) as H0. apply Z.eqb_eq in H0. by rewrite H0 in Ew.
Qed.

(** ** The theorem *)

(** C34: The decimal text of a Kuroko long, of any size, is the number in base ten: a sign where it is
    negative and the digits without zeros in front, whether it is converted by divisions
    or, from ten words of digits on, by halving its bits and multiplying with Karatsuba's method.  No
    structure changes, nothing is written outside the buffers, and the text read as a literal
    or in base ten is the number again. *)
Theorem long_repr_correct s n num x z v base :
  s !! n = Some x → repr x v → s !! num = Some z → base = 0 ∨ base = 10 →
  long_repr n s = Done (number_text 10 [] v, s) ∧
  ∃ r, krk_long_parse_string (number_text 10 [] v) num base (Z.of_nat (length (number_text 10 [] v))) s = Done (0, <[num := r]> s) ∧ repr r v.
Proof.
  intros Hn Hx Hnum Hb. split; [by apply (long_repr_eq s n x)|].
  assert (HL : literal 10 [] base) by (destruct Hb as [-> | ->]; constructor; lia).
  pose proof (krk_long_parse_string_eq s num z (number_text 10 [] v) base Hnum) as P. rewrite (read_number_text 10 [] base v HL) in P.
  apply P; [by apply number_text_nonzero|lia].
Qed.

(** A number of twelve words, 2^341 negated. *)
Definition demo_wide : store := {[1 := Long (-12) (replicate 11 0 ++ [1]); 2 := Long 0 []]}.

Lemma long_repr_correct_witness :
  long_repr 1 demo_wide = Done (number_text 10 [] (- 2 ^ 341), demo_wide) ∧
  ∃ r, krk_long_parse_string (number_text 10 [] (- 2 ^ 341)) 2 0 (Z.of_nat (length (number_text 10 [] (- 2 ^ 341)))) demo_wide = Done (0, <[2 := r]> demo_wide) ∧ repr r (- 2 ^ 341).
Proof.
  apply (long_repr_correct demo_wide 1 2 (Long (-12) (replicate 11 0 ++ [1])) (Long 0 []) (- 2 ^ 341) 0); [reflexivity| |reflexivity|by left].
  unfold repr. split; [vm_compute; reflexivity|]. split; [unfold digits_ok; cbn; repeat constructor; vm_compute; congruence|]. split; [vm_compute; congruence|vm_compute; reflexivity].
Defined.
